(* ===== verification/_CoqProject ===== *)
-Q . S2P
Prelude.v
Triton.v
AllocKernels.v
Allocator.v
KVAlloc.v
RadixKey.v
ReqPool.v
KVTable.v
ChunkCache.v
RadixCache.v
RadixTree.v
RadixSplit.v
RadixMatch.v
RadixLeaf.v
RadixEvents.v
RadixInsert.v
RadixLock.v
RadixEvict.v
RadixReq.v
RadixProps.v
RadixBase.v
KVCommon.v
KVMemory.v
PyNum.v
PrefillAdder.v
PrefillProps.v
SchedulePolicy.v
PolicyProps.v
PolicyQueue.v
AdmitQueue.v
PrefillSchedule.v
PrefillPass.v
PrefillClaims.v
SpecKernels.v
SpecProps.v
Grammar.v
Adaptive.v
SpecInfo.v
DecodeSchedule.v
BatchAlign.v
DecodeRetract.v
DecodeStep.v
DecodeClaims.v
DraftStep.v
Finish.v
EagleVerify.v
EagleAccept.v
EagleRows.v
EagleMemory.v
EagleStep.v
EagleClaims.v
DraftKernels.v
EagleDraft.v
BuildTree.v
EagleTree.v
TreeVerify.v
TreeRound.v
TreeClaims.v
EagleRound.v
EagleCarry.v
EagleNext.v
EagleServe.v
ServeClaims.v
SpecArgs.v
LruList.v
LruProps.v
SwaAllocator.v
SwaCache.v
SwaLock.v
SwaLocks.v
SwaTree.v
SwaWf.v
SwaMatch.v
SwaInsert.v
SwaEvict.v
SwaEvictLoop.v
SwaPlace.v
SwaInsertLoop.v
SwaClaims.v
