(* ===== verification/Prelude.v ===== *)
(** * KV-cache management, scheduling and speculative decoding of the SGLang runtime

    This library models the parts of the Python runtime under
    [src/sglang/python/sglang/srt] (with the Ascend kernels of
    [src/sgl-kernel-npu/python]) that decide which KV-cache slots a request uses, which
    requests run, and which drafted tokens are accepted.  Definitions follow the source
    function by function and keep its names.

    ** The program and the files

    A request enters the waiting queue, is matched against the prefix cache, admitted to a
    prefill batch, given a row of the request table and KV slots by the allocator, decoded
    (possibly several drafted tokens at a time) and at last handed back to the prefix cache.

    - [Prelude.v]: Python exceptions as [res], slices, integer ranges, shared lemmas, tactics
      and hints.  [Triton.v]: a launch of a Triton kernel as programs over shared buffers, run
      in any order, with masked loads and bounds-checked stores; 32-bit stores truncate.
    - [AllocKernels.v]: [alloc_extend_kernel], [alloc_decode_kernel], the Ascend kernel and
      [alloc_extend_naive] of [mem_cache/allocator.py] against one reference placement.
      [Allocator.v]: the token, paged and NPU allocators ([allocator.py],
      [hardware_backend/npu/allocator_npu.py]) as records of free and released pages.
      [KVAlloc.v]: the class [KVAllocator], what clients may assume of an allocator, with an
      instance for each of the three.
    - [RadixKey.v], [RadixCache.v]: [RadixKey] and [RadixCache] of [mem_cache/radix_cache.py]
      with [evict_policy.py] and the KV events.  The tree is a store of node objects with
      mutable fields.  [RadixTree.v] states the invariant through a ghost map from node to the
      sequence it stands for; [RadixSplit.v], [RadixMatch.v], [RadixLeaf.v], [RadixEvents.v],
      [RadixInsert.v], [RadixLock.v], [RadixEvict.v], [RadixReq.v] prove one operation each,
      and [RadixProps.v] collects the properties.
    - [ReqPool.v], [KVTable.v]: [ReqToTokenPool] of [memory_pool.py] and the kernels of
      [mem_cache/common.py] that write and read it.  [ChunkCache.v]: [chunk_cache.py] and the
      class [BasePrefixCache], the contract between a prefix cache and its clients;
      [RadixBase.v] discharges it for the radix cache.
    - [KVCommon.v], [KVMemory.v]: allocation and release for batches and requests
      ([mem_cache/common.py]) over any allocator and cache that meet their contracts.
    - [PyNum.v]: Python integers mixed with doubles (exact rationals with rounding).
      [PrefillAdder.v], [PrefillProps.v]: [PrefillAdder] of [managers/schedule_policy.py].
      [SchedulePolicy.v], [PolicyProps.v], [PolicyQueue.v]: the policies that
      order the waiting queue.  [AdmitQueue.v]: [_add_request_to_queue] of
      [managers/scheduler.py].  [PrefillSchedule.v], [PrefillPass.v], [PrefillClaims.v]:
      [_get_new_batch_prefill_raw] and [prepare_for_extend] end to end.
    - [SpecKernels.v], [SpecProps.v]: greedy verification of draft tokens
      ([verify_tree_greedy.py]) and the cache kernels of [speculative/spec_utils.py].
      [Grammar.v]: vocabulary masks along a draft tree. [Adaptive.v]: the adaptive number of
      draft steps. [SpecInfo.v]: the registry of speculative algorithms. [SpecArgs.v]: the
      resolution of their server arguments ([_handle_speculative_decoding] of
      [server_args.py]).
    - [DecodeSchedule.v]: the running batch between decode steps, [filter_batch],
      [merge_batch], [check_decode_mem], [retract_decode] and [prepare_for_decode] of
      [managers/schedule_batch.py], [update_running_batch] of [managers/scheduler.py] and the
      memory of overlapped EAGLE drafts ([speculative/eagle_info_v2.py]). [BatchAlign.v]: the
      per-request fields stay aligned. [DecodeRetract.v], [DecodeStep.v], [DecodeClaims.v]: a
      step without speculation, over any allocator and cache that meet their contracts.
      [DraftStep.v]: a step with overlapped drafts.
    - [Finish.v]: [Req.check_finished] and the tokens that reach the caller.
    - [EagleVerify.v]: [EagleVerifyInput.prepare_for_verify] and [verify] of
      [speculative/eagle_info.py] and [EAGLEWorker.verify] of [eagle_worker.py], with the
      target model as a parameter. [EagleAccept.v]: the loop over accepted tokens against
      decoding one token at a time. [EagleRows.v], [EagleMemory.v], [EagleStep.v]: the
      kernels, the slots of rejected drafts and a verification step. [EagleClaims.v]: a
      verification round.
    - [DraftKernels.v], [EagleDraft.v]: the slots a draft borrows ([assign_draft_cache_locs],
      [EAGLEWorker._draft_preprocess_decode]); the class [KVBackup] states what backup and
      restore of an allocator promise. [EagleTree.v]: growing the tree of drafts
      ([draft_forward], [select_top_k_tokens], [organize_draft_results]). [BuildTree.v],
      [TreeVerify.v]: its links and positions and the walk that accepts tokens
      ([build_tree_efficient_native] and [verify_tree_greedy_native] of
      [sgl_kernel_npu/speculative.py], the references of the native kernels). [TreeRound.v],
      [TreeClaims.v]: [build_tree_kernel_efficient] and a round with a tree. [EagleRound.v]:
      the decode branch of [forward_batch_generation] on chains.
    - [EagleCarry.v]: the draft extension ([forward_draft_extend],
      [forward_draft_extend_after_decode]) and what a batch carries to the next round
      ([EagleDraftInput.filter_batch] and [merge_batch]). [EagleNext.v]: greedy decoding over
      several rounds; the slots a round leaves are those the next one extends. [EagleServe.v],
      [ServeClaims.v]: rounds one after another while requests leave and join, as a step
      relation on the batch, the cache, the allocator and the table.
    - [LruList.v], [LruProps.v]: the recency lists of the sliding-window cache ([TreeNode],
      [LRUList] of [mem_cache/swa_radix_cache.py]), pointers in a store of nodes, and their
      refinement of sequences. [SwaAllocator.v]: the hybrid allocator
      ([SWATokenToKVPoolAllocator] of [mem_cache/swa_memory_pool.py]). [SwaCache.v],
      [SwaTree.v]: [SWARadixCache], its locks and its tree operations. [SwaLock.v],
      [SwaLocks.v]: lock counts and token counters. [SwaWf.v], [SwaMatch.v], [SwaInsert.v]:
      the invariant of the cache through splitting, matching, locking and new nodes.
      [SwaEvict.v], [SwaEvictLoop.v]: deleting nodes and [evict], with the slots of the tree
      against a token-wise allocator. [SwaPlace.v], [SwaInsertLoop.v]: [insert], node by node.
      [SwaClaims.v]: its theorems.

    ** What the theorems show

    - The radix cache keeps its invariant over every reachable state, refines a map from
      page-aligned sequences to KV indices, evicts least-priority leaves, and hands every page
      of a request over exactly once (C3, C6, C7, C21, C27 to C29).
    - Allocators conserve pages over every history and compute the same placement on every
      branch and device (C22, C31, C32, C38).
    - A batch that fits gets its memory, rows and indices stay consistent, and release gives
      everything back once (C24, C25, C37).
    - A prefill pass never runs out of memory: what the adder admits fits, policies only
      permute the queue, and nobody is lost or duplicated (C4, C26, C30, C39, C40).
    - A decode step never runs out of memory either: retraction frees what it must, loses
      nothing and keeps the batch aligned; with overlapped drafts the memory check is exact
      (C5, C18, C19).
    - Speculative decoding is lossless: over every run of the server, round after round while
      requests join and leave, EAGLE on chains gives every request what greedy decoding one
      token at a time gives it, for every draft model, and every request leaves; a single
      round returns whenever the memory check passes, a tree of drafts is built as it was
      drafted and verified to greedy tokens, and the memory of rejected drafts is given back
      exactly (C1, C2, C8 to C12). Accepting several tokens at once delivers what one token at
      a time would (C20).
    - In the sliding-window cache [match_prefix] returns only prefixes whose window is still
      there, so that locking them succeeds; [insert] hands every slot to one node or back to
      the pool and [evict] frees only what no lock protects, and neither ever fails an
      assertion; locks balance for any number of requests; the linked lists refine sequences,
      and the two pools of the hybrid allocator are conserved (C13 to C17, C23).
    - Masks follow the grammar, the adaptive controller stays consistent, and resolved server
      arguments are consistent and name a worker (C33 to C36).

    ** Fuel and bounds

    Loops of the source that are not structural take fuel: walks to the root and the
    depth-first policies take the number of nodes, matching and insertion the length of the
    key, eviction the number of nodes; running out raises [RuntimeError], and the theorems
    state that the result is [Ok], so the fuel is proved sufficient.  Token ids are 32-bit
    where they are hashed, table entries are stored as 32-bit integers, hashes are 64-bit.
    Budgets are compared as doubles below 2^53, where integers are exact.

    ** Parameters

    SHA-256, [time.monotonic], [heapq], [random.shuffle], the order of dictionary values,
    uninitialised tensors, out-of-range lanes and the order of kernel programs are arguments,
    with their documented behaviour as hypotheses where it matters. So are the tokenizer, the
    regular expressions of stop conditions, the grammar matcher, the draft and target models,
    [torch.topk] and [torch.max] (with scores as an ordered type whose product with a
    probability is smaller), the native tree kernel (which writes the links its reference
    writes), and the model configurations that argument resolution reads.

    ** Not modelled

    In the sliding-window cache, caching of requests, compaction (off by default) and the
    debugging checks over the whole tree; mamba, unified and hierarchical caches and the
    branches for them in [common.py] and the adder; disaggregation; LoRA; the scheduler's
    event loop and sockets; the speculative workers other than EAGLE's, and sampling-based
    verification, which compares random numbers with probabilities; model code, attention
    backends, device buffers and graphs, which are tensor arithmetic; the other server
    arguments, entry points and parsers; training code (SpecForge); C++, CUDA and Rust
    sources.

    ** Plan

    Next: [generate_draft_decode_kv_indices], releasing finished requests inside the runs of
    [ServeClaims.v], verification of trees with [move_kv_cache], the invariant of the
    sliding-window cache through [dec_swa_lock_only], which is modelled, and its caching of
    requests. *)

From Stdlib Require Export ZArith Lia.
From stdpp Require Export relations gmultiset base numbers list sorting.

#[global] Open Scope Z_scope.
#[global] Set Default Goal Selector "!".

(** ** Python exceptions and fallible results *)

Inductive exn : Type :=
  | ValueError
  | IndexError
  | KeyError
  | TypeError
  | AttributeError
  | AssertionError
  | RuntimeError
  | OverflowError
  | NotImplementedError
  | ZeroDivisionError.

#[export] Instance exn_eq_dec : EqDecision exn.
Proof. solve_decision. Defined.

Inductive res (A : Type) : Type :=
  | Ok (a : A)
  | Raise (e : exn).
Arguments Ok {A} a.
Arguments Raise {A} e.

Definition res_bind {A B} (r : res A) (k : A -> res B) : res B :=
  match r with
  | Ok a => k a
  | Raise e => Raise e
  end.

Declare Scope py_scope.
Delimit Scope py_scope with py.
Notation "'let*' x ':=' r 'in' k" := (res_bind r (fun x => k))
  (at level 10, x pattern, r at level 100, k at level 200)
  : py_scope.
#[global] Open Scope py_scope.

Lemma res_bind_Ok {A B} (r : res A) (k : A -> res B) b :
  res_bind r k = Ok b <-> exists a, r = Ok a /\ k a = Ok b.
Proof. destruct r; simpl; split; [eauto|by intros (?&[= ->]&?)|done|by intros (?&?&?)]. Qed.

(** [assert c] *)
Definition py_assert (c : bool) : res unit :=
  if c then Ok tt else Raise AssertionError.

Lemma py_assert_Ok c u : py_assert c = Ok u <-> c = true.
Proof. destruct c, u; naive_solver. Qed.

(** ** Lengths, indices and slices of Python sequences and 1-D tensors *)

Definition zlen {A} (l : list A) : Z := Z.of_nat (length l).

Lemma zlen_nonneg {A} (l : list A) : 0 <= zlen l.
Proof. unfold zlen; lia. Qed.
Lemma zlen_nil {A} : zlen (@nil A) = 0.
Proof. reflexivity. Qed.
Lemma zlen_cons {A} (x : A) l : zlen (x :: l) = 1 + zlen l.
Proof. unfold zlen; simpl; lia. Qed.
Lemma zlen_app {A} (l k : list A) : zlen (l ++ k) = zlen l + zlen k.
Proof. unfold zlen; rewrite length_app; lia. Qed.
Lemma zlen_zero_inv {A} (l : list A) : zlen l = 0 -> l = [].
Proof. destruct l; unfold zlen; simpl; [done | lia]. Qed.
Lemma zlen_map {A B} (f : A -> B) l : zlen (map f l) = zlen l.
Proof. unfold zlen; by rewrite length_map. Qed.
Lemma zlen_perm {A} (l k : list A) : Permutation l k -> zlen l = zlen k.
Proof. intros H; unfold zlen; by rewrite H. Qed.

(** A slice bound as Python clamps it: negative bounds count from the end. *)
Definition clamp_idx (n i : Z) : Z :=
  if i <? 0 then Z.max 0 (i + n) else Z.min i n.

(** [l[a:b]] *)
Definition py_slice {A} (l : list A) (a b : Z) : list A :=
  let a' := clamp_idx (zlen l) a in
  let b' := clamp_idx (zlen l) b in
  take (Z.to_nat (b' - a')) (drop (Z.to_nat a') l).

(** [l[:n]] and [l[n:]] *)
Definition py_upto {A} (l : list A) (n : Z) : list A := py_slice l 0 n.
Definition py_from {A} (l : list A) (n : Z) : list A := py_slice l n (zlen l).

Lemma clamp_idx_nonneg n i : 0 <= i -> clamp_idx n i = Z.min i n.
Proof. intros. unfold clamp_idx. destruct (Z.ltb_spec i 0); lia. Qed.

Lemma py_slice_nonneg {A} (l : list A) a b :
  0 <= a -> 0 <= b ->
  py_slice l a b = take (Z.to_nat (b - a)) (drop (Z.to_nat a) l).
Proof.
  intros Ha Hb. unfold py_slice. rewrite !clamp_idx_nonneg by lia.
  unfold zlen. destruct (Z.le_gt_cases a (Z.of_nat (length l))) as [Hl|Hl].
  - replace (Z.to_nat (Z.min a (Z.of_nat (length l)))) with (Z.to_nat a) by lia.
    destruct (Z.le_gt_cases b (Z.of_nat (length l))) as [Hr|Hr].
    + do 2 f_equal; lia.
    + rewrite !take_ge; [done| |]; rewrite length_drop; lia.
  - rewrite !drop_ge by lia. by rewrite !take_nil.
Qed.

Lemma py_upto_nonneg {A} (l : list A) n : 0 <= n -> py_upto l n = take (Z.to_nat n) l.
Proof.
  intros. unfold py_upto. rewrite py_slice_nonneg by lia.
  rewrite drop_0. do 2 f_equal; lia.
Qed.

Lemma py_from_nonneg {A} (l : list A) n : 0 <= n -> py_from l n = drop (Z.to_nat n) l.
Proof.
  intros. unfold py_from. rewrite py_slice_nonneg; [|lia|apply zlen_nonneg].
  apply take_ge. rewrite length_drop. unfold zlen. lia.
Qed.

Lemma py_upto_from {A} (l : list A) n : 0 <= n -> py_upto l n ++ py_from l n = l.
Proof.
  intros. rewrite py_upto_nonneg, py_from_nonneg by lia. apply take_drop.
Qed.

Lemma zlen_py_upto {A} (l : list A) n : 0 <= n <= zlen l -> zlen (py_upto l n) = n.
Proof.
  intros [? Hn]. unfold zlen in *. rewrite py_upto_nonneg by lia.
  rewrite length_take. lia.
Qed.

Lemma zlen_py_from {A} (l : list A) n : 0 <= n <= zlen l -> zlen (py_from l n) = zlen l - n.
Proof.
  intros [? Hn]. unfold zlen in *. rewrite py_from_nonneg by lia.
  rewrite length_drop. lia.
Qed.

(** The position an index selects: negative indices count from the end. *)
Definition wrap_index (n i : Z) : option nat :=
  let j := if i <? 0 then i + n else i in
  if (0 <=? j) && (j <? n) then Some (Z.to_nat j) else None.

Lemma wrap_index_in n i : 0 <= i < n -> wrap_index n i = Some (Z.to_nat i).
Proof.
  intros Hi. unfold wrap_index. destruct (Z.ltb_spec i 0); [lia|].
  destruct (Z.leb_spec 0 i), (Z.ltb_spec i n); try lia. done.
Qed.

(** [t[i]] *)
Definition tensor_at {A} (t : list A) (i : Z) : res A :=
  match wrap_index (zlen t) i with
  | Some j => match t !! j with Some x => Ok x | None => Raise IndexError end
  | None => Raise IndexError
  end.

(** [t[idx]] for a tensor of indices *)
Fixpoint gather {A} (t : list A) (idx : list Z) : res (list A) :=
  match idx with
  | [] => Ok []
  | i :: idx => let* x := tensor_at t i in let* xs := gather t idx in Ok (x :: xs)
  end.

(** [t[idx] = vs] *)
Fixpoint scatter {A} (t : list A) (idx : list Z) (vs : list A) : res (list A) :=
  match idx, vs with
  | [], [] => Ok t
  | i :: idx, v :: vs =>
      match wrap_index (zlen t) i with
      | Some j => scatter (<[j := v]> t) idx vs
      | None => Raise IndexError
      end
  | _, _ => Raise RuntimeError
  end.

Lemma tensor_at_in {A} (t : list A) i x : 0 <= i -> t !! Z.to_nat i = Some x -> tensor_at t i = Ok x.
Proof.
  intros Hi Hx. unfold tensor_at. pose proof (lookup_lt_Some _ _ _ Hx).
  rewrite wrap_index_in by (unfold zlen; lia). by rewrite Hx.
Qed.

Lemma gather_ok {A} (t : list A) (idx : list Z) : Forall (fun i => 0 <= i < zlen t) idx ->
  exists l, gather t idx = Ok l /\ length l = length idx
    /\ forall k i, idx !! k = Some i -> l !! k = t !! Z.to_nat i.
Proof.
  induction 1 as [|i idx Hi _ (l & IH & Hl & Hk)]; [by exists []|].
  destruct (lookup_lt_is_Some_2 t (Z.to_nat i)) as [x Hx]; [unfold zlen in Hi; lia|].
  exists (x :: l). simpl. rewrite (tensor_at_in t i x), IH by (lia || done). split_and!; [done|simpl; lia|].
  intros [|k] j; simpl; [by intros [= ->]|apply Hk].
Qed.

Lemma gather_length {A} (t : list A) (idx : list Z) l : gather t idx = Ok l -> length l = length idx.
Proof.
  revert l. induction idx as [|i idx IH]; intros l; simpl; [by intros [= <-]|].
  destruct (tensor_at t i); simpl; [|done]. destruct (gather t idx) as [xs|]; simpl; [|done].
  intros [= <-]. simpl. by rewrite (IH xs).
Qed.

Lemma scatter_ok {A} (t : list A) (idx : list Z) (vs : list A) :
  Forall (fun i => 0 <= i < zlen t) idx -> length vs = length idx -> NoDup idx ->
  exists t', scatter t idx vs = Ok t' /\ length t' = length t
    /\ (forall k i v, idx !! k = Some i -> vs !! k = Some v -> t' !! Z.to_nat i = Some v)
    /\ (forall j, Z.of_nat j ∉ idx -> t' !! j = t !! j).
Proof.
  intros Hall. revert t vs Hall. induction idx as [|i idx IH]; intros t [|v vs] Hall Hl Hnd; simpl in Hl; try lia.
  { exists t. split_and!; [done..|]. done. }
  apply Forall_cons in Hall as [Hi Hall]. apply NoDup_cons in Hnd as [Hni Hnd]. simpl. rewrite wrap_index_in by lia.
  destruct (IH (<[Z.to_nat i := v]> t) vs) as (t' & Hs & Hlt & Hin & Hout); [|lia|done|].
  { eapply Forall_impl; [exact Hall|]. intros x Hx. unfold zlen in *. rewrite length_insert. lia. }
  rewrite length_insert in Hlt. exists t'. split_and!; [done|done| |].
  - intros [|k] j u; simpl; [|apply Hin]. intros [= <-] [= <-].
    rewrite Hout by (rewrite Z2Nat.id by lia; done). apply list_lookup_insert_eq. unfold zlen in Hi. lia.
  - intros j Hj. apply not_elem_of_cons in Hj as [Hne Hj]. rewrite Hout by done.
    apply list_lookup_insert_ne. lia.
Qed.

(** [t[rows, cols]] for two tensors of indices *)
Fixpoint gather2 {A} (t : list (list A)) (rows cols : list Z) : res (list A) :=
  match rows, cols with
  | [], [] => Ok []
  | i :: rows, j :: cols =>
      let* row := tensor_at t i in
      let* x := tensor_at row j in
      let* xs := gather2 t rows cols in
      Ok (x :: xs)
  | _, _ => Raise IndexError
  end.

(** Conversion of an int64 value to a 32-bit tensor element. *)
Definition to_int32 (x : Z) : Z := (x + 2 ^ 31) mod 2 ^ 32 - 2 ^ 31.

Lemma to_int32_small x : 0 <= x < 2 ^ 31 -> to_int32 x = x.
Proof. intros. unfold to_int32. rewrite Z.mod_small; lia. Qed.

(** [range(n)] and [range(a, b)] *)
Definition zrange (a b : Z) : list Z := seqZ a (b - a).

Lemma elem_of_zrange a b i : i ∈ zrange a b <-> a <= i < b.
Proof. unfold zrange. rewrite elem_of_seqZ. lia. Qed.

Lemma NoDup_zrange a b : NoDup (zrange a b).
Proof. apply NoDup_seqZ. Qed.

Lemma zlen_zrange a b : a <= b -> zlen (zrange a b) = b - a.
Proof. intros. unfold zlen, zrange. rewrite length_seqZ. lia. Qed.

Lemma lookup_zrange a b i x : zrange a b !! i = Some x <-> x = a + Z.of_nat i /\ x < b.
Proof. unfold zrange. rewrite lookup_seqZ. lia. Qed.

Lemma zrange_cons a b : a < b -> zrange a b = a :: zrange (a + 1) b.
Proof.
  intros. unfold zrange. rewrite seqZ_cons by lia. do 2 f_equal; lia.
Qed.

Lemma zrange_snoc a b : a <= b -> zrange a (b + 1) = zrange a b ++ [b].
Proof.
  intros. unfold zrange. replace (b + 1 - a) with ((b - a) + 1) by lia.
  rewrite seqZ_app by lia. f_equal. replace (a + (b - a)) with b by lia. done.
Qed.

Lemma zrange_app a b c : a <= b -> b <= c -> zrange a c = zrange a b ++ zrange b c.
Proof.
  intros. unfold zrange. replace (c - a) with ((b - a) + (c - b)) by lia.
  rewrite seqZ_app by lia. do 3 f_equal; lia.
Qed.

Lemma zrange_empty a b : b <= a -> zrange a b = [].
Proof. intros. unfold zrange. apply seqZ_nil. lia. Qed.

Lemma zrange_shift k a b : zrange (k + a) (k + b) = map (Z.add k) (zrange a b).
Proof.
  unfold zrange. change (map (Z.add k)) with (fmap (M:=list) (Z.add k)).
  rewrite fmap_add_seqZ. f_equal; lia.
Qed.

Lemma take_zrange a b c : a <= b -> b <= c -> take (Z.to_nat (b - a)) (zrange a c) = zrange a b.
Proof.
  intros. rewrite (zrange_app a b c) by lia. apply take_app_length'.
  unfold zrange. by rewrite length_seqZ.
Qed.

(** ** Filters *)

Section Filter.
Context {A : Type} (P : A -> Prop) `{!forall x, Decision (P x)}.

Lemma filter_all l : Forall P l -> filter P l = l.
Proof. induction 1; [done|]. rewrite filter_cons_True by done. by f_equal. Qed.

Lemma filter_none l : Forall (fun x => ~ P x) l -> filter P l = [].
Proof. induction 1; [done|]. by rewrite filter_cons_False by done. Qed.
End Filter.

(** ** Sums and cumulative sums ([sum], [torch.cumsum]) *)

Definition zsum (l : list Z) : Z := foldr Z.add 0 l.

Lemma zsum_nil : zsum [] = 0.
Proof. reflexivity. Qed.
Lemma zsum_cons x l : zsum (x :: l) = x + zsum l.
Proof. reflexivity. Qed.
Lemma zsum_app l k : zsum (l ++ k) = zsum l + zsum k.
Proof. induction l as [|x l IH]; simpl; [done|]. unfold zsum in *; simpl; lia. Qed.
Lemma zsum_nonneg l : Forall (fun x => 0 <= x) l -> 0 <= zsum l.
Proof. induction 1; unfold zsum in *; simpl; lia. Qed.

#[global] Create Rewrite HintDb pylist.
#[export] Hint Rewrite @zlen_nil @zlen_cons @zlen_app @zlen_map zsum_nil zsum_cons zsum_app : pylist.

(** ** [torch.sort] and [torch.unique] on 1-D integer tensors *)

Definition tsort (l : list Z) : list Z := merge_sort Z.le l.
Definition tunique (l : list Z) : list Z := merge_sort Z.le (remove_dups l).

Lemma tsort_perm l : Permutation (tsort l) l.
Proof. apply merge_sort_Permutation. Qed.
Lemma tsort_sorted l : StronglySorted Z.le (tsort l).
Proof. apply (StronglySorted_merge_sort Z.le). Qed.
Lemma elem_of_tunique x l : x ∈ tunique l <-> x ∈ l.
Proof. unfold tunique. rewrite merge_sort_Permutation. apply elem_of_remove_dups. Qed.
Lemma NoDup_tunique l : NoDup (tunique l).
Proof. unfold tunique. rewrite merge_sort_Permutation. apply NoDup_remove_dups. Qed.

(** ** Division facts for page arithmetic *)

Lemma ceil_div_spec a d : 0 < d -> d * ((a + d - 1) / d) - d < a <= d * ((a + d - 1) / d).
Proof.
  intros. pose proof (Z.div_mod (a + d - 1) d ltac:(lia)).
  pose proof (Z.mod_pos_bound (a + d - 1) d ltac:(lia)). lia.
Qed.

Lemma ceil_div_mono a b d : 0 < d -> a <= b -> (a + d - 1) / d <= (b + d - 1) / d.
Proof. intros. apply Z.div_le_mono; lia. Qed.

Lemma ceil_floor_div a d :
  0 < d -> (a + d - 1) / d = a / d + (if a mod d =? 0 then 0 else 1).
Proof.
  intros. pose proof (Z.div_mod a d ltac:(lia)). pose proof (Z.mod_pos_bound a d ltac:(lia)).
  destruct (Z.eqb_spec (a mod d) 0).
  - rewrite Z.add_0_r. symmetry. apply Z.div_unique with (r := d - 1); lia.
  - symmetry. apply Z.div_unique with (r := a mod d - 1); lia.
Qed.

(** Between two multiples of [d] there are at least [d] steps. *)
Lemma divide_lt_step d a b : 0 < d -> (d | a) -> (d | b) -> a < b -> a + d <= b.
Proof.
  intros Hd [x ->] [y ->] Hlt. apply Z.mul_lt_mono_pos_r in Hlt; [|done].
  pose proof (Z.mul_le_mono_nonneg_r (x + 1) y d). lia.
Qed.

Lemma pred_mod s d : 2 <= d -> ((s - 1) mod d = 0 <-> s mod d = 1).
Proof.
  intros Hd. pose proof (Z.div_mod s d ltac:(lia)). pose proof (Z.mod_pos_bound s d ltac:(lia)).
  destruct (Z.eq_dec (s mod d) 0) as [Hz|Hz].
  - assert ((s - 1) mod d = d - 1); [|lia].
    symmetry. apply Z.mod_unique with (q := s / d - 1); lia.
  - assert ((s - 1) mod d = s mod d - 1); [|lia].
    symmetry. apply Z.mod_unique with (q := s / d); lia.
Qed.

(** ** Permutations of appended lists, decided through multisets *)

Lemma elements_list_to_set_disj (l : list Z) :
  Permutation (elements (list_to_set_disj l : gmultiset Z)) l.
Proof.
  induction l as [|x l IH]; [done|].
  rewrite list_to_set_disj_cons, gmultiset_elements_disj_union, gmultiset_elements_singleton.
  simpl. by rewrite IH.
Qed.

Lemma perm_gmultiset (l k : list Z) :
  (list_to_set_disj l : gmultiset Z) = list_to_set_disj k <-> Permutation l k.
Proof.
  split; [intros H|apply list_to_set_disj_perm].
  rewrite <- (elements_list_to_set_disj l), <- (elements_list_to_set_disj k). by rewrite H.
Qed.

Ltac perm_solver :=
  repeat match goal with H : Permutation _ _ |- _ => apply perm_gmultiset in H end;
  apply perm_gmultiset;
  repeat match goal with
    | H : context [list_to_set_disj] |- _ =>
        rewrite ?list_to_set_disj_app, ?list_to_set_disj_cons, ?list_to_set_disj_nil in H;
        revert H
    end;
  intros;
  rewrite ?list_to_set_disj_app, ?list_to_set_disj_cons, ?list_to_set_disj_nil;
  multiset_solver.

(** Two duplicate-free lists with the same elements are permutations. *)
Lemma NoDup_same_perm (l k : list Z) :
  NoDup l -> NoDup k -> (forall x, x ∈ l <-> x ∈ k) -> Permutation l k.
Proof. intros. by apply NoDup_Permutation. Qed.
