(* ===== verification/Triton.v ===== *)
(** The fragment of the Triton language the kernels of the repository use:
    1-D integer buffers, [tl.arange], masked [tl.load] and [tl.store], and
    block-structured loops.  A store outside the buffer is an illegal memory
    access and makes the program fail ([None]); a load outside the buffer or a
    masked-off lane gives an unspecified value, which is a parameter of every
    definition below, so that no theorem depends on it. *)

From S2P Require Import Prelude.

(** ** Buffers *)

(** [tl.load(ptr + i)]; [oob] is what memory past the buffer holds. *)
Definition tl_load (oob : Z -> Z) (buf : list Z) (i : Z) : Z :=
  if (0 <=? i) then default (oob i) (buf !! Z.to_nat i) else oob i.

(** [tl.load(ptr + tl.arange(0, n), mask=m)] without [other]: masked-off lanes
    hold the unspecified value [undef]. *)
Definition tl_load_lanes (oob : Z -> Z) (undef : Z) (buf : list Z) (n : Z)
    (m : Z -> bool) : list Z :=
  map (fun o => if m o then tl_load oob buf o else undef) (zrange 0 n).

Definition store1 (buf : list Z) (w : Z * Z) : option (list Z) :=
  if (0 <=? w.1) && (w.1 <? zlen buf)
  then Some (<[Z.to_nat w.1 := w.2]> buf)
  else None.

Fixpoint store_list (buf : list Z) (ws : list (Z * Z)) : option (list Z) :=
  match ws with
  | [] => Some buf
  | w :: ws => b ← store1 buf w; store_list b ws
  end.

(** [tl.store(ptr + addr(o), val(o), mask=m(o))] for [o] in [tl.arange(0, n)]. *)
Definition tl_store (buf : list Z) (n : Z) (addr val : Z -> Z) (m : Z -> bool)
    : option (list Z) :=
  store_list buf (map (fun o => (addr o, val o)) (filter (fun o => m o = true) (zrange 0 n))).

(** [for x in l: buf = body(x)] *)
Fixpoint tl_for {A} (l : list A) (body : A -> list Z -> option (list Z))
    (buf : list Z) : option (list Z) :=
  match l with
  | [] => Some buf
  | x :: l => b ← body x buf; tl_for l body b
  end.

(** [tl.cdiv(a, b)] *)
Definition cdiv (a b : Z) : Z := (a + b - 1) / b.

(** The effect of writing [vs] at positions [base], [base+1], ... *)
Definition splice (buf : list Z) (base : Z) (vs : list Z) : list Z :=
  take (Z.to_nat base) buf ++ vs ++ drop (Z.to_nat base + length vs)%nat buf.

(** ** Loads *)

Lemma tl_load_in oob buf i v :
  0 <= i -> buf !! Z.to_nat i = Some v -> tl_load oob buf i = v.
Proof.
  intros Hi Hv. unfold tl_load. destruct (Z.leb_spec 0 i); [|lia]. by rewrite Hv.
Qed.

(** ** Splices *)

Lemma splice_nil buf base : splice buf base [] = buf.
Proof. unfold splice; simpl. rewrite Nat.add_0_r. apply take_drop. Qed.

Lemma zlen_splice buf base vs :
  0 <= base -> base + zlen vs <= zlen buf -> zlen (splice buf base vs) = zlen buf.
Proof.
  unfold splice, zlen. intros ? Hle. rewrite !length_app, length_take, length_drop. lia.
Qed.

Lemma splice_splice buf base v1 v2 :
  0 <= base -> base + zlen v1 + zlen v2 <= zlen buf ->
  splice (splice buf base v1) (base + zlen v1) v2 = splice buf base (v1 ++ v2).
Proof.
  unfold splice, zlen. intros ? Hle.
  assert (Hlen : length (take (Z.to_nat base) buf ++ v1)
                 = Z.to_nat (base + Z.of_nat (length v1))).
  { rewrite length_app, length_take. lia. }
  rewrite (app_assoc (take _ _) v1). rewrite take_app_length' by lia.
  rewrite drop_app_ge by lia. rewrite drop_drop, <- !app_assoc.
  do 3 f_equal. rewrite !length_app, length_take. f_equal. lia.
Qed.

Lemma splice_lookup_before buf base vs i :
  0 <= base -> (i < Z.to_nat base)%nat -> splice buf base vs !! i = buf !! i \/ (length buf <= i)%nat.
Proof.
  intros Hb Hi. destruct (decide (length buf <= i)%nat); [by right|left].
  unfold splice. rewrite lookup_app_l by (rewrite length_take; lia).
  by rewrite lookup_take_lt.
Qed.

(** Splicing back-to-back from the start fills the whole buffer. *)
Lemma splice_all buf vs : zlen vs = zlen buf -> splice buf 0 vs = vs.
Proof.
  unfold splice, zlen; intros H; simpl. rewrite drop_ge by lia. apply app_nil_r.
Qed.

(** ** Stores *)

Lemma store_list_app buf w1 w2 :
  store_list buf (w1 ++ w2) = b ← store_list buf w1; store_list b w2.
Proof.
  revert buf; induction w1 as [|w w1 IH]; intros buf; simpl; [done|].
  destruct (store1 buf w); simpl; [apply IH|done].
Qed.

Lemma store1_snoc_splice buf base vs v :
  0 <= base -> base + zlen vs + 1 <= zlen buf ->
  store1 (splice buf base vs) (base + zlen vs, v) = Some (splice buf base (vs ++ [v])).
Proof.
  intros Hb Hle. pose proof (zlen_nonneg vs). unfold store1; simpl.
  rewrite zlen_splice by lia.
  destruct (Z.leb_spec 0 (base + zlen vs)); [|lia].
  destruct (Z.ltb_spec (base + zlen vs) (zlen buf)); [|lia]. simpl. f_equal.
  rewrite <- splice_splice; [|lia|unfold zlen in *; simpl; lia].
  set (b' := splice buf base vs).
  assert (Hb' : base + zlen vs < zlen b') by (unfold b'; rewrite zlen_splice; lia).
  unfold splice, zlen in *; simpl.
  rewrite insert_take_drop by lia. do 3 f_equal. lia.
Qed.

(** Consecutive stores write a contiguous block. *)
Lemma store_range buf base f a b :
  0 <= base + a -> a <= b -> base + b <= zlen buf ->
  store_list buf (map (fun o => (base + o, f o)) (zrange a b))
  = Some (splice buf (base + a) (map f (zrange a b))).
Proof.
  intros Ha Hab Hb. remember (Z.to_nat (b - a)) as n eqn:Hn.
  revert b Hab Hb Hn. induction n as [|n IH]; intros b Hab Hb Hn.
  - assert (b = a) as -> by lia. rewrite zrange_empty by lia. simpl.
    by rewrite splice_nil.
  - replace b with ((b - 1) + 1) by lia. rewrite zrange_snoc by lia.
    rewrite !map_app, store_list_app, IH by lia. simpl.
    replace (base + (b - 1)) with ((base + a) + zlen (map f (zrange a (b - 1)))).
    2:{ rewrite zlen_map, zlen_zrange; lia. }
    rewrite store1_snoc_splice; [done|lia|]. rewrite zlen_map, zlen_zrange; lia.
Qed.

Lemma filter_zrange_lt a b n :
  filter (fun o => (o <? n) = true) (zrange a b) = zrange a (Z.min b (Z.max a n)).
Proof.
  destruct (Z.le_gt_cases b a).
  { rewrite !zrange_empty by lia. done. }
  set (c := Z.min b (Z.max a n)).
  rewrite (zrange_app a c b), filter_app by lia.
  rewrite (filter_all _ (zrange a c)).
  2:{ apply Forall_forall. intros o Ho%elem_of_zrange. apply Z.ltb_lt. lia. }
  rewrite (filter_none _ (zrange c b)).
  2:{ apply Forall_forall. intros o Ho%elem_of_zrange ?%Z.ltb_lt. lia. }
  apply app_nil_r.
Qed.

Lemma tl_store_ext buf w addr addr' val val' m m' :
  (forall o, addr o = addr' o) -> (forall o, val o = val' o) -> (forall o, m o = m' o) ->
  tl_store buf w addr val m = tl_store buf w addr' val' m'.
Proof.
  intros Ha Hv Hm. unfold tl_store. f_equal.
  replace (filter (fun o => m o = true) (zrange 0 w))
    with (filter (fun o => m' o = true) (zrange 0 w)).
  - apply map_ext. intros o. by rewrite Ha, Hv.
  - apply list_filter_iff. intros o. by rewrite Hm.
Qed.

Lemma tl_for_ext {A} (l : list A) body body' buf :
  (forall x b, body x b = body' x b) -> tl_for l body buf = tl_for l body' buf.
Proof.
  intros H. revert buf; induction l as [|x l IH]; intros buf; simpl; [done|].
  rewrite H. destruct (body' x buf); simpl; [apply IH|done].
Qed.

(** A masked store of the first [n] of [w] lanes. *)
Lemma tl_store_prefix buf w base addr f m n :
  (forall o, addr o = base + o) -> (forall o, m o = (o <? n)) ->
  0 <= base -> 0 <= n <= w -> base + n <= zlen buf ->
  tl_store buf w addr f m = Some (splice buf base (map f (zrange 0 n))).
Proof.
  intros Haddr Hm Hb Hn Hle.
  rewrite (tl_store_ext _ _ _ (fun o => base + o) _ f _ (fun o => o <? n)) by done.
  unfold tl_store. rewrite filter_zrange_lt.
  replace (Z.min w (Z.max 0 n)) with n by lia.
  rewrite store_range by lia. by rewrite Z.add_0_r.
Qed.

Lemma tl_for_snoc {A} (l : list A) x body b :
  tl_for (l ++ [x]) body b = b' ← tl_for l body b; body x b'.
Proof.
  revert b; induction l as [|y l IH]; intros b; simpl.
  - by destruct (body x b).
  - destruct (body y b); simpl; [apply IH|done].
Qed.

Lemma tl_for_blocks_aux buf base f n blk k :
  0 <= base -> 0 <= n -> 0 < blk -> 0 <= k -> base + Z.min (k * blk) n <= zlen buf ->
  tl_for (zrange 0 k)
    (fun i b => tl_store b blk (fun o => base + (o + i * blk)) (fun o => f (o + i * blk))
                  (fun o => o + i * blk <? n)) buf
  = Some (splice buf base (map f (zrange 0 (Z.min (k * blk) n)))).
Proof.
  intros Hb Hn Hblk Hk. remember (Z.to_nat k) as m eqn:Hm. revert k Hk Hm.
  induction m as [|m IH]; intros k Hk Hm Hle.
  - assert (k = 0) as -> by lia. simpl. rewrite Z.min_l by lia.
    by rewrite zrange_empty, splice_nil by lia.
  - replace k with ((k - 1) + 1) at 1 by lia. rewrite zrange_snoc, tl_for_snoc by lia.
    rewrite IH by (try lia; nia). simpl.
    set (lo := Z.min ((k - 1) * blk) n). set (hi := Z.min (k * blk) n).
    assert (lo <= hi) by (unfold lo, hi; nia).
    assert (0 <= lo) by (unfold lo; nia).
    unfold tl_store.
    assert (filter (fun o => (o + (k - 1) * blk <? n) = true) (zrange 0 blk)
            = zrange 0 (hi - lo)) as ->.
    { transitivity (filter (fun o => (o <? n - (k - 1) * blk) = true) (zrange 0 blk)).
      - apply list_filter_iff. intros o. rewrite !Z.ltb_lt. lia.
      - rewrite filter_zrange_lt. f_equal. unfold hi, lo. nia. }
    assert (Hlow : hi - lo = 0 \/ lo = (k - 1) * blk) by (unfold hi, lo; nia).
    assert (Hws : map (fun o => (base + (o + (k - 1) * blk), f (o + (k - 1) * blk))) (zrange 0 (hi - lo))
            = map (fun o => (base + o, f o)) (zrange lo hi)).
    { destruct Hlow as [Hz | ->].
      - rewrite !zrange_empty by lia. done.
      - replace (zrange ((k - 1) * blk) hi)
          with (zrange ((k - 1) * blk + 0) ((k - 1) * blk + (hi - (k - 1) * blk))).
        2:{ f_equal; lia. }
        rewrite zrange_shift, map_map. apply map_ext. intros o. f_equal; f_equal; lia. }
    rewrite Hws, store_range; [|lia|lia|rewrite zlen_splice; rewrite ?zlen_map, ?zlen_zrange; lia].
    f_equal. rewrite (zrange_app 0 lo hi), map_app by lia.
    rewrite <- splice_splice; rewrite ?zlen_map, ?zlen_zrange; try lia.
    do 2 f_equal. lia.
Qed.

(** A loop of [k] masked block stores, [blk] lanes per iteration, writes the
    first [n] values when the blocks cover [n]. *)
Lemma tl_for_blocks buf base addr val m f n blk k :
  (forall i o, addr i o = base + (o + i * blk)) ->
  (forall i o, val i o = f (o + i * blk)) ->
  (forall i o, m i o = (o + i * blk <? n)) ->
  0 <= base -> 0 <= n <= k * blk -> 0 < blk -> base + n <= zlen buf ->
  tl_for (zrange 0 k) (fun i b => tl_store b blk (addr i) (val i) (m i)) buf
  = Some (splice buf base (map f (zrange 0 n))).
Proof.
  intros Ha Hv Hm ????. assert (0 <= k) by nia.
  erewrite tl_for_ext. 2:{ intros i b. apply tl_store_ext; intros o; [apply Ha|apply Hv|apply Hm]. }
  rewrite tl_for_blocks_aux by (try lia; nia). by replace (Z.min (k * blk) n) with n by lia.
Qed.

Lemma cdiv_covers n blk : 0 <= n -> 0 < blk -> n <= cdiv n blk * blk.
Proof. intros. unfold cdiv. pose proof (ceil_div_spec n blk). lia. Qed.

(** ** Grids

    A launch [kernel[(n,)]] runs one program per index; the programs may run in
    any order.  When program [i] writes exactly the [i]-th segment of the output
    buffer, every order produces the concatenation of the segments. *)

Section Grid.
Context (seg : list (list Z)).

Definition seg_start (i : nat) : nat := length (concat (take i seg)).

Lemma seg_start_S i s : seg !! i = Some s -> seg_start (S i) = (seg_start i + length s)%nat.
Proof.
  intros H. unfold seg_start. rewrite (take_S_r _ _ _ H), concat_app, length_app.
  simpl. rewrite app_nil_r. lia.
Qed.

Lemma seg_start_mono i j : (i <= j)%nat -> (seg_start i <= seg_start j)%nat.
Proof.
  induction 1 as [|j ? IH]; [done|].
  destruct (seg !! j) as [s|] eqn:Hj.
  - rewrite (seg_start_S _ _ Hj). lia.
  - apply lookup_ge_None_1 in Hj. unfold seg_start in *.
    rewrite (take_ge _ (S j)) by lia. rewrite (take_ge _ j) in IH by lia. done.
Qed.

Lemma seg_start_le_total i s :
  seg !! i = Some s -> (seg_start i + length s <= length (concat seg))%nat.
Proof.
  intros H. rewrite <- (seg_start_S _ _ H).
  replace (length (concat seg)) with (seg_start (length seg)).
  - apply seg_start_mono. apply lookup_lt_Some in H. lia.
  - unfold seg_start. by rewrite take_ge.
Qed.

Lemma concat_lookup_seg i s k :
  seg !! i = Some s -> (k < length s)%nat ->
  concat seg !! (seg_start i + k)%nat = s !! k.
Proof.
  intros H Hk. rewrite <- (take_drop_middle _ _ _ H) at 1.
  rewrite concat_app. simpl. unfold seg_start.
  rewrite lookup_app_r by lia.
  replace (length (concat (take i seg)) + k - length (concat (take i seg)))%nat with k by lia.
  by apply lookup_app_l.
Qed.

Lemma concat_position p :
  (p < length (concat seg))%nat ->
  exists i s k, seg !! i = Some s /\ (k < length s)%nat /\ p = (seg_start i + k)%nat.
Proof.
  assert (forall n, (n <= length seg)%nat -> (p < seg_start n)%nat ->
    exists i s k, seg !! i = Some s /\ (k < length s)%nat /\ p = (seg_start i + k)%nat) as Hn.
  { induction n as [|n IH]; intros Hle Hp; [unfold seg_start in Hp; simpl in Hp; lia|].
    destruct (decide (p < seg_start n)%nat); [apply IH; lia|].
    destruct (lookup_lt_is_Some_2 seg n) as [s Hs]; [lia|].
    rewrite (seg_start_S _ _ Hs) in Hp.
    exists n, s, (p - seg_start n)%nat. repeat split; [done|lia|lia]. }
  intros Hp. apply (Hn (length seg)); [done|]. unfold seg_start. by rewrite take_ge.
Qed.

Definition seg_ok (b : list Z) (i : nat) : Prop :=
  forall s k, seg !! i = Some s -> (k < length s)%nat -> b !! (seg_start i + k)%nat = s !! k.

Lemma splice_lookup b start s p :
  (start + length s <= length b)%nat ->
  splice b (Z.of_nat start) s !! p
  = if decide (start <= p < start + length s)%nat then s !! (p - start)%nat else b !! p.
Proof.
  intros Hle. unfold splice. rewrite Nat2Z.id.
  assert (Hlt : length (take start b) = start) by (rewrite length_take; lia).
  case_decide.
  - rewrite lookup_app_r by lia. rewrite Hlt. apply lookup_app_l. lia.
  - destruct (decide (p < start)%nat).
    + rewrite lookup_app_l by lia. by apply lookup_take_lt.
    + rewrite lookup_app_r by lia. rewrite lookup_app_r by lia.
      rewrite lookup_drop. f_equal. lia.
Qed.

Lemma seg_ok_splice b i j s :
  length b = length (concat seg) -> seg !! j = Some s ->
  i = j \/ seg_ok b i -> seg_ok (splice b (Z.of_nat (seg_start j)) s) i.
Proof.
  intros Hb Hj Hor t k Hi Hk. pose proof (seg_start_le_total _ _ Hj).
  rewrite splice_lookup by lia. destruct (decide (i = j)) as [->|Hne].
  - simplify_eq. rewrite decide_True by lia. f_equal. lia.
  - destruct Hor as [?|Hok]; [done|].
    rewrite decide_False; [by apply Hok|].
    pose proof (seg_start_S _ _ Hi). pose proof (seg_start_S _ _ Hj).
    destruct (decide (i < j)%nat).
    + pose proof (seg_start_mono (S i) j). lia.
    + pose proof (seg_start_mono (S j) i). lia.
Qed.

Context (body : Z -> list Z -> option (list Z)).
Hypothesis body_seg : forall i s b,
  seg !! i = Some s -> length b = length (concat seg) ->
  body (Z.of_nat i) b = Some (splice b (Z.of_nat (seg_start i)) s).

Lemma grid_run order b :
  length b = length (concat seg) ->
  Forall (fun p => 0 <= p < zlen seg) order ->
  exists b', tl_for order body b = Some b' /\ length b' = length (concat seg)
    /\ (forall i, Z.of_nat i ∈ order \/ seg_ok b i -> seg_ok b' i).
Proof.
  intros Hb Hall. revert b Hb. induction Hall as [|p order Hp Hall IH]; intros b Hb; simpl.
  { exists b. repeat split; [done..|]. intros i [[]%not_elem_of_nil|?]; done. }
  destruct (lookup_lt_is_Some_2 seg (Z.to_nat p)) as [s Hs]; [unfold zlen in Hp; lia|].
  pose proof (seg_start_le_total _ _ Hs) as Hle.
  rewrite <- (Z2Nat.id p) by lia. rewrite (body_seg _ _ _ Hs Hb); simpl.
  destruct (IH (splice b (Z.of_nat (seg_start (Z.to_nat p))) s)) as (b' & Hrun & Hlen & Hok).
  { unfold splice. rewrite !length_app, length_take, length_drop. lia. }
  exists b'. repeat split; [done..|]. intros i Hi. apply Hok.
  destruct Hi as [Hi|Hi]; [apply elem_of_cons in Hi as [Hi|Hi]; [|by left]|];
    right; apply seg_ok_splice; auto. left. lia.
Qed.

Lemma grid_launch order out :
  Permutation order (zrange 0 (zlen seg)) -> zlen out = zlen (concat seg) ->
  tl_for order body out = Some (concat seg).
Proof.
  intros Hperm Hlen. destruct (grid_run order out) as (b' & -> & Hb' & Hok).
  - unfold zlen in Hlen. lia.
  - rewrite Hperm. apply Forall_forall. intros p. by rewrite elem_of_zrange.
  - f_equal. apply list_eq_same_length with (length (concat seg)); [done..|].
    intros p x y Hp Hx Hy. destruct (concat_position p Hp) as (i & s & k & Hs & Hk & ->).
    rewrite (concat_lookup_seg _ _ _ Hs Hk) in Hy.
    assert (Hi : Z.of_nat i ∈ order).
    { rewrite Hperm, elem_of_zrange. apply lookup_lt_Some in Hs. unfold zlen; lia. }
    pose proof (Hok i (or_introl Hi) s k Hs Hk).
    congruence.
Qed.
End Grid.

(** ** Kernels with several output buffers and partial writes *)

(** [kernel[(n,)]] over a state of several buffers, in a given program order. *)
Fixpoint tl_run {S : Type} (order : list Z) (body : Z -> S -> option S) (s : S) : option S :=
  match order with
  | [] => Some s
  | p :: order => s' ← body p s; tl_run order body s'
  end.

Lemma tl_run_tl_for order body b : tl_run order body b = tl_for order body b.
Proof. revert b; induction order as [|p order IH]; intros b; simpl; [done|]. by destruct (body p b); simpl. Qed.

(** Programs that write two buffers independently. *)
Lemma tl_run_pair {S1 S2 : Type} order (f : Z -> S1 -> option S1) (g : Z -> S2 -> option S2)
    (body : Z -> S1 * S2 -> option (S1 * S2)) x y x' y' :
  (forall p a b, p ∈ order -> body p (a, b) = a' ← f p a; b' ← g p b; Some (a', b')) ->
  tl_run order f x = Some x' -> tl_run order g y = Some y' -> tl_run order body (x, y) = Some (x', y').
Proof.
  intros Hb. revert x y. induction order as [|p order IH]; intros x y; simpl; [by intros [= ->] [= ->]|].
  rewrite Hb by set_solver. destruct (f p x) as [a|]; simpl; [|done]. destruct (g p y) as [b|]; simpl; [|done].
  apply IH. intros; apply Hb; set_solver.
Qed.

(** [tl.load(ptr + base + tl.arange(0, n), mask=m, other=other)] *)
Definition lanes (oob : Z -> Z) (other : Z) (buf : list Z) (base n : Z) (m : Z -> bool) : list Z :=
  map (fun o => if m o then tl_load oob buf (base + o) else other) (zrange 0 n).

Lemma zsum_zeros {A} (l : list A) : zsum (map (fun _ => 0) l) = 0.
Proof. induction l; unfold zsum in *; simpl; lia. Qed.

(** The sum of the entries before [p]. *)
Lemma sum_lanes_before oob buf n p : 0 <= p <= zlen buf -> p <= n ->
  zsum (lanes oob 0 buf 0 n (fun o => o <? p)) = zsum (take (Z.to_nat p) buf).
Proof.
  intros Hp Hn. unfold lanes. rewrite (zrange_app 0 p n), map_app by lia.
  rewrite (map_ext_in _ (fun _ => 0) (zrange p n)).
  2:{ intros o Ho%list_elem_of_In. apply elem_of_zrange in Ho. by destruct (Z.ltb_spec o p); [lia|]. }
  rewrite zsum_app, zsum_zeros, Z.add_0_r. f_equal.
  apply list_eq_same_length with (Z.to_nat p); [rewrite length_take; unfold zlen in *; lia| |].
  - rewrite length_map. pose proof (zlen_zrange 0 p) as H. unfold zlen in H. lia.
  - intros i x y Hi Hx Hy. rewrite list_lookup_fmap in Hx. unfold zrange in Hx.
    rewrite lookup_seqZ_lt in Hx by lia. simpl in Hx. injection Hx as <-.
    rewrite lookup_take_lt in Hy by lia. destruct (Z.ltb_spec (0 + Z.of_nat i) p); [|lia].
    apply tl_load_in; [lia|]. rewrite <- Hy. f_equal. lia.
Qed.

(** Programs that each overwrite a range of a buffer, the ranges being disjoint. *)
Section Splices.
Context (start : Z -> Z) (w : Z -> list Z) (size : Z).
Context (body : Z -> list Z -> option (list Z)).

Definition in_range (p i : Z) : Prop := start p <= i < start p + zlen (w p).

Lemma splices_run order b :
  zlen b = size ->
  (forall p b, p ∈ order -> zlen b = size -> body p b = Some (splice b (start p) (w p))) ->
  (forall p, p ∈ order -> 0 <= start p /\ start p + zlen (w p) <= size) ->
  (forall p p' i, p ∈ order -> p' ∈ order -> in_range p i -> in_range p' i -> p = p') ->
  exists b', tl_run order body b = Some b' /\ zlen b' = size
    /\ (forall p k, p ∈ order -> 0 <= k < zlen (w p) -> b' !! Z.to_nat (start p + k) = w p !! Z.to_nat k)
    /\ (forall i, 0 <= i -> (forall p, p ∈ order -> ~ in_range p i) -> b' !! Z.to_nat i = b !! Z.to_nat i).
Proof.
  revert b. induction order as [|p order IH]; intros b Hb Hbody Hrange Hdis; simpl.
  { exists b. split_and!; [done|done|set_solver|done]. }
  rewrite Hbody by (done || set_solver). simpl. destruct (Hrange p) as [H0 H1]; [set_solver|].
  assert (forall i, 0 <= i -> splice b (start p) (w p) !! Z.to_nat i
    = if decide (start p <= i < start p + zlen (w p)) then w p !! Z.to_nat (i - start p) else b !! Z.to_nat i) as Hlk.
  { intros i Hi. replace (start p) with (Z.of_nat (Z.to_nat (start p))) at 1 by lia.
    rewrite splice_lookup by (unfold zlen in *; lia).
    unfold zlen. repeat case_decide; try lia; [|done]. f_equal. lia. }
  destruct (IH (splice b (start p) (w p))) as (b' & Hr & Hl & Hin & Hout).
  - rewrite zlen_splice; lia.
  - intros; apply Hbody; [set_solver|done].
  - intros; apply Hrange; set_solver.
  - intros p1 p2 i ????; eapply Hdis; set_solver.
  - exists b'. split_and!; [done|done| |].
    + intros p' k Hp' Hk. destruct (decide (p' ∈ order)) as [?|Hni]; [by apply Hin|].
      assert (p' = p) as -> by set_solver. rewrite Hout; [|lia|].
      * rewrite Hlk by lia. rewrite decide_True by lia. f_equal. lia.
      * intros p2 Hp2 Hr2. apply Hni. rewrite (Hdis p p2 (start p + k)); [done|set_solver..| |done].
        unfold in_range. lia.
    + intros i Hi Hn. rewrite Hout; [|done|intros; apply Hn; set_solver].
      rewrite Hlk by done. rewrite decide_False; [done|]. apply (Hn p). set_solver.
Qed.
End Splices.

(** ** Packing kernels

    Program [i] writes [lens[i]] values after those of the programs before it. *)

Lemma tl_load_slice oob buf base n : 0 <= base -> 0 <= n -> base + n <= zlen buf ->
  map (fun o => tl_load oob buf (base + o)) (zrange 0 n) = take (Z.to_nat n) (drop (Z.to_nat base) buf).
Proof.
  intros Hb Hn Hl. apply list_eq_same_length with (Z.to_nat n).
  - rewrite length_take, length_drop. unfold zlen in Hl. lia.
  - rewrite length_map. unfold zrange. rewrite length_seqZ. lia.
  - intros i x y Hi Hx Hy. rewrite list_lookup_fmap in Hx. unfold zrange in Hx.
    rewrite lookup_seqZ_lt in Hx by lia. simpl in Hx. injection Hx as <-.
    rewrite lookup_take_lt, lookup_drop in Hy by lia. apply tl_load_in; [lia|]. rewrite <- Hy. f_equal. lia.
Qed.

Section Packing.
Context (lens : list Z) (f : Z -> Z -> Z).

Definition pack_segs : list (list Z) :=
  imap (fun i n => map (f (Z.of_nat i)) (zrange 0 n)) lens.

Definition packed : list Z := concat pack_segs.

Context (Hlens : Forall (fun n => 0 <= n) lens).

Lemma zsum_take_next (l : list Z) i n : l !! i = Some n -> zsum (take (S i) l) = zsum (take i l) + n.
Proof. intros Hi. rewrite (take_S_r _ _ _ Hi), zsum_app. unfold zsum; simpl. lia. Qed.

Lemma pack_seg_lookup i s : pack_segs !! i = Some s ->
  exists n, lens !! i = Some n /\ s = map (f (Z.of_nat i)) (zrange 0 n) /\ 0 <= n.
Proof.
  unfold pack_segs. rewrite list_lookup_imap. destruct (lens !! i) as [n|] eqn:Hi; [|done].
  intros [= <-]. exists n. split_and!; [done..|]. rewrite Forall_lookup in Hlens. by apply (Hlens i).
Qed.

Lemma pack_start i : (i <= length lens)%nat -> Z.of_nat (seg_start pack_segs i) = zsum (take i lens).
Proof.
  induction i as [|i IH]; intros Hi; [done|].
  destruct (lookup_lt_is_Some_2 pack_segs i) as [s Hs]; [unfold pack_segs; rewrite length_imap; lia|].
  destruct (pack_seg_lookup i s Hs) as (n & Hn & -> & Hnn).
  rewrite (seg_start_S _ _ _ Hs), (zsum_take_next _ _ _ Hn), length_map, Nat2Z.inj_add, IH by lia.
  pose proof (zlen_zrange 0 n) as Hz. unfold zlen in Hz. lia.
Qed.

Lemma zlen_packed : zlen packed = zsum lens.
Proof.
  pose proof (pack_start (length lens) ltac:(lia)) as H. rewrite (take_ge lens) in H by lia.
  rewrite <- H. unfold zlen, packed, seg_start. rewrite take_ge; [done|]. unfold pack_segs. by rewrite length_imap.
Qed.

Lemma pack_grid upper body order out :
  Forall (fun n => n <= upper) lens ->
  (forall i n b, lens !! i = Some n ->
     body (Z.of_nat i) b = tl_store b upper (fun o => zsum (take i lens) + o) (f (Z.of_nat i)) (fun o => o <? n)) ->
  Permutation order (zrange 0 (zlen lens)) -> zlen out = zsum lens -> tl_run order body out = Some packed.
Proof.
  intros Hup Hbody Hord Hout. rewrite tl_run_tl_for. apply grid_launch.
  - intros i s b Hs Hb. pose proof (seg_start_le_total _ _ _ Hs) as Hle.
    destruct (pack_seg_lookup i s Hs) as (n & Hn & -> & Hnn). rewrite (Hbody i n b Hn).
    rewrite <- (pack_start i) by (apply lookup_lt_Some in Hn; lia).
    rewrite Forall_lookup in Hup. specialize (Hup i n Hn).
    pose proof (zlen_zrange 0 n ltac:(lia)) as Hz. rewrite length_map in Hle. unfold zlen in Hz.
    rewrite (tl_store_prefix _ _ (Z.of_nat (seg_start pack_segs i)) _ _ _ n); [done|done|done|lia|lia|].
    unfold zlen. lia.
  - unfold zlen, pack_segs. rewrite length_imap. exact Hord.
  - by rewrite Hout, <- zlen_packed.
Qed.
End Packing.

(** ** Element-wise kernels

    Program [p] computes the [blk] elements from [p * blk] on; the programs cover [n]. *)

Lemma load_lookup oob (l : list Z) i x : l !! i = Some x -> tl_load oob l (Z.of_nat i) = x.
Proof. intros. apply tl_load_in; [lia|]. by rewrite Nat2Z.id. Qed.

Lemma tl_store_clip buf w base addr f m n :
  (forall o, addr o = base + o) -> (forall o, m o = (o <? n)) ->
  0 <= base -> 0 <= n -> 0 <= w -> base + Z.min w n <= zlen buf ->
  tl_store buf w addr f m = Some (splice buf base (map f (zrange 0 (Z.min w n)))).
Proof.
  intros Haddr Hm Hb Hn Hw Hle.
  rewrite (tl_store_ext _ _ _ (fun o => base + o) _ f _ (fun o => o <? n)) by done.
  unfold tl_store. rewrite filter_zrange_lt. replace (Z.max 0 n) with n by lia.
  rewrite store_range by lia. by rewrite Z.add_0_r.
Qed.

Section Elementwise.
Context (f : Z -> Z) (n blk : Z) (body : Z -> list Z -> option (list Z)).
Context (Hblk : 0 < blk) (Hn : 0 <= n).
Context (Hbody : forall p b, 0 <= p < cdiv n blk ->
  body p b = tl_store b blk (fun o => o + p * blk) (fun o => f (o + p * blk)) (fun o => o + p * blk <? n)).

Lemma elementwise_grid order out : Permutation order (zrange 0 (cdiv n blk)) -> zlen out = n ->
  tl_run order body out = Some (map f (zrange 0 n)).
Proof.
  intros Hord Hout.
  set (w p := map (fun o => f (o + p * blk)) (zrange 0 (Z.min blk (n - p * blk)))).
  pose proof (ceil_div_spec n blk Hblk) as Hc. fold (cdiv n blk) in Hc.
  assert (forall p, p ∈ order <-> 0 <= p < cdiv n blk) as Hin by (intros p; rewrite Hord; apply elem_of_zrange).
  assert (forall p, 0 <= p < cdiv n blk -> 0 < n - p * blk) as Hpos by (intros; nia).
  assert (forall p, 0 <= p < cdiv n blk -> zlen (w p) = Z.min blk (n - p * blk)) as Hw.
  { intros p Hp. specialize (Hpos p Hp). unfold w. rewrite zlen_map, zlen_zrange; lia. }
  destruct (splices_run (fun p => p * blk) w n body order out Hout) as (b' & -> & Hl & Hi & _).
  - intros p b Hp%Hin Hb. specialize (Hpos p Hp). rewrite Hbody by done. unfold w.
    apply tl_store_clip; lia.
  - intros p Hp%Hin. specialize (Hpos p Hp). rewrite Hw by done. nia.
  - intros p p' i Hp%Hin Hp'%Hin. unfold in_range. rewrite !Hw by done. nia.
  - f_equal. apply list_eq_same_length with (Z.to_nat n); [|unfold zlen in Hl; lia|].
    { rewrite length_map. pose proof (zlen_zrange 0 n Hn) as H. unfold zlen in H. lia. }
    intros i x y Hlt Hx Hy. set (p := Z.of_nat i / blk).
    pose proof (Z.div_mod (Z.of_nat i) blk ltac:(lia)) as Hdm. pose proof (Z.mod_pos_bound (Z.of_nat i) blk Hblk).
    fold p in Hdm. assert (0 <= p < cdiv n blk) as Hp by (split; [apply Z.div_pos; lia|nia]).
    specialize (Hi p (Z.of_nat i mod blk) (proj2 (Hin p) Hp)). rewrite Hw in Hi by done.
    specialize (Hi ltac:(lia)). replace (Z.to_nat (p * blk + Z.of_nat i mod blk)) with i in Hi by lia.
    rewrite Hx in Hi. unfold w in Hi. rewrite list_lookup_fmap in Hi, Hy.
    destruct (zrange 0 n !! i) as [u|] eqn:Hu; [|done]. apply lookup_zrange in Hu as [-> _].
    destruct (zrange 0 (Z.min blk (n - p * blk)) !! Z.to_nat (Z.of_nat i mod blk)) as [u|] eqn:Hu; [|done].
    apply lookup_zrange in Hu as [-> _]. simpl in Hi, Hy. injection Hi as ->. injection Hy as <-. f_equal. lia.
Qed.
End Elementwise.

(** ** Row-major tables *)

Section Table.
Context (cols : Z) (Hcols : 0 <= cols).

(** [t.view(rows, cols)] *)
Definition view_rows (rows : nat) (buf : list Z) : list (list Z) :=
  map (fun i => take (Z.to_nat cols) (drop (Z.to_nat (Z.of_nat i * cols)) buf)) (seq 0 rows).

Lemma zlen_concat_uniform (t : list (list Z)) : Forall (fun r => zlen r = cols) t -> zlen (concat t) = zlen t * cols.
Proof. induction 1 as [|r t Hr _ IH]; [done|]. simpl. rewrite zlen_app, zlen_cons, IH, Hr. lia. Qed.

Lemma concat_uniform (t : list (list Z)) i row : Forall (fun r => zlen r = cols) t -> t !! i = Some row ->
  forall k, 0 <= k < cols -> concat t !! Z.to_nat (Z.of_nat i * cols + k) = row !! Z.to_nat k.
Proof.
  intros Ht Hi k Hk. rewrite <- (concat_lookup_seg t i row (Z.to_nat k) Hi).
  - f_equal. unfold seg_start. pose proof (zlen_concat_uniform (take i t) ltac:(by apply Forall_take)) as H.
    unfold zlen in H. rewrite length_take in H. apply lookup_lt_Some in Hi. nia.
  - rewrite Forall_lookup in Ht. specialize (Ht i row Hi). unfold zlen in Ht. lia.
Qed.

(** A table is determined by its entries. *)
Lemma view_rows_lookup rows buf i row : zlen buf = Z.of_nat rows * cols -> (i < rows)%nat -> zlen row = cols ->
  (forall k, 0 <= k < cols -> buf !! Z.to_nat (Z.of_nat i * cols + k) = row !! Z.to_nat k) ->
  view_rows rows buf !! i = Some row.
Proof.
  intros Hb Hi Hr Hk. unfold view_rows. rewrite list_lookup_fmap, lookup_seq_lt by done. simpl. f_equal.
  apply list_eq_same_length with (Z.to_nat cols).
  - unfold zlen in Hr. lia.
  - rewrite length_take, length_drop. unfold zlen in Hb. nia.
  - intros k x y Hlt Hx Hy. rewrite lookup_take_lt, lookup_drop in Hx by lia.
    specialize (Hk (Z.of_nat k) ltac:(lia)). rewrite Nat2Z.id, Hy in Hk.
    replace (Z.to_nat (Z.of_nat i * cols) + k)%nat with (Z.to_nat (Z.of_nat i * cols + Z.of_nat k)) in Hx by nia.
    congruence.
Qed.
End Table.
