(* ===== verification/AllocKernels.v ===== *)
(** The page-allocation kernels behind [PagedTokenToKVPoolAllocator]:
    [alloc_extend_kernel] and [alloc_decode_kernel] of
    srt/mem_cache/allocator.py, the torch fallback [alloc_extend_naive], and the
    Ascend variant of sgl_kernel_npu/mem_cache/allocator.py.  Each is compared
    with one closed-form description of where a token of a request is stored. *)

From S2P Require Import Prelude Triton.

(** ** Helpers of srt/utils/common.py *)

(** [get_num_new_pages] with [decode=False] *)
Definition get_num_new_pages (seq_lens : list Z) (page_size : Z) (prefix_lens : list Z) : Z :=
  let num_pages_after := map (fun s => (s + page_size - 1) / page_size) seq_lens in
  let num_pages_before := map (fun p => (p + page_size - 1) / page_size) prefix_lens in
  zsum (zip_with Z.sub num_pages_after num_pages_before).

(** [get_num_new_pages] with [decode=True] *)
Definition get_num_new_pages_decode (seq_lens : list Z) (page_size : Z) : Z :=
  zsum (map (fun s => if s mod page_size =? 1 then 1 else 0) seq_lens).

(** [(n - 1).bit_length()] *)
Definition bit_length (n : Z) : Z := if n =? 0 then 0 else Z.log2 n + 1.

Definition next_power_of_2 (n : Z) : Z :=
  if 0 <? n then Z.shiftl 1 (bit_length (n - 1)) else 1.

(** ** Kernels *)

Section Kernels.
(** What memory past a buffer holds, and what a masked-off lane holds. *)
Context (oob : Z -> Z) (undef : Z).

Definition BLOCK_EXTEND : Z := 4096.

Definition alloc_extend_kernel (pre_lens_ptr seq_lens_ptr last_loc_ptr free_page_ptr : list Z)
    (bs_upper page_size : Z) (pid : Z) (out_indices : list Z) : option (list Z) :=
  let load_mask := fun o => o <=? pid in
  let seq_lens := tl_load_lanes oob undef seq_lens_ptr bs_upper load_mask in
  let pre_lens := tl_load_lanes oob undef pre_lens_ptr bs_upper load_mask in
  let extend_lens := zip_with Z.sub seq_lens pre_lens in
  let seq_len := tl_load oob seq_lens_ptr pid in
  let pre_len := tl_load oob pre_lens_ptr pid in
  let extend_len := seq_len - pre_len in
  let sum_extend_lens := zsum extend_lens in
  let output_start_loc := sum_extend_lens - extend_len in
  let num_pages_after := map (fun s => (s + page_size - 1) / page_size) seq_lens in
  let num_pages_before := map (fun p => (p + page_size - 1) / page_size) pre_lens in
  let num_new_pages := zip_with Z.sub num_pages_after num_pages_before in
  let num_page_start_loc_self :=
    (seq_len + page_size - 1) / page_size - (pre_len + page_size - 1) / page_size in
  let sum_num_new_pages := zsum num_new_pages in
  let new_page_start_loc := sum_num_new_pages - num_page_start_loc_self in
  (* Part 1: fill the old partial page *)
  let last_loc := tl_load oob last_loc_ptr pid in
  let num_part1 :=
    Z.min seq_len ((pre_len + page_size - 1) / page_size * page_size) - pre_len in
  out ← tl_store out_indices page_size (fun o => output_start_loc + o)
          (fun o => last_loc + 1 + o) (fun o => o <? num_part1);
  if pre_len + num_part1 =? seq_len then Some out else
  (* Part 2: fill the new full pages *)
  let num_part2 :=
    seq_len / page_size * page_size - (pre_len + page_size - 1) / page_size * page_size in
  let num_blocks := (num_part2 + BLOCK_EXTEND - 1) / BLOCK_EXTEND in
  out ← tl_for (zrange 0 num_blocks) (fun block_id out =>
          let offset := fun o => block_id * BLOCK_EXTEND + o in
          let page_start := fun o =>
            tl_load oob free_page_ptr (new_page_start_loc + offset o / page_size) in
          tl_store out BLOCK_EXTEND
            (fun o => output_start_loc + num_part1 + offset o)
            (fun o => page_start o * page_size + offset o mod page_size)
            (fun o => offset o <? num_part2)) out;
  if pre_len + num_part1 + num_part2 =? seq_len then Some out else
  (* Part 3: fill the new partial page *)
  let num_part3 := seq_len - seq_len / page_size * page_size in
  let start_loc :=
    tl_load oob free_page_ptr (new_page_start_loc + num_page_start_loc_self - 1) in
  tl_store out page_size (fun o => output_start_loc + num_part1 + num_part2 + o)
    (fun o => start_loc * page_size + o) (fun o => o <? num_part3).

Definition NPU_BLOCK_SIZE : Z := 2048.

(** sgl_kernel_npu/mem_cache/allocator.py: the second part runs a loop whose
    bound comes from [max_num_extend_tokens], a launch constant. *)
Definition npu_alloc_extend_kernel
    (pre_lens_ptr seq_lens_ptr last_loc_ptr free_page_ptr : list Z)
    (bs_upper page_size max_num_extend_tokens : Z) (pid : Z) (out_indices : list Z)
    : option (list Z) :=
  let load_mask := fun o => o <=? pid in
  let seq_lens := tl_load_lanes oob undef seq_lens_ptr bs_upper load_mask in
  let pre_lens := tl_load_lanes oob undef pre_lens_ptr bs_upper load_mask in
  let extend_lens := zip_with Z.sub seq_lens pre_lens in
  let seq_len := tl_load oob seq_lens_ptr pid in
  let pre_len := tl_load oob pre_lens_ptr pid in
  let extend_len := seq_len - pre_len in
  let output_start_loc := zsum extend_lens - extend_len in
  let num_pages_after := map (fun s => (s + page_size - 1) / page_size) seq_lens in
  let num_pages_before := map (fun p => (p + page_size - 1) / page_size) pre_lens in
  let num_new_pages := zip_with Z.sub num_pages_after num_pages_before in
  let num_page_start_loc_self :=
    (seq_len + page_size - 1) / page_size - (pre_len + page_size - 1) / page_size in
  let new_page_start_loc := zsum num_new_pages - num_page_start_loc_self in
  let last_loc := tl_load oob last_loc_ptr pid in
  let num_part1 :=
    Z.min seq_len ((pre_len + page_size - 1) / page_size * page_size) - pre_len in
  out ← tl_store out_indices page_size (fun o => output_start_loc + o)
          (fun o => last_loc + 1 + o) (fun o => o <? num_part1);
  if pre_len + num_part1 =? seq_len then Some out else
  let num_part2 :=
    seq_len / page_size * page_size - (pre_len + page_size - 1) / page_size * page_size in
  let num_loop := cdiv max_num_extend_tokens NPU_BLOCK_SIZE in
  out ← tl_for (zrange 0 num_loop) (fun i out =>
          let offset_many_page := fun o => o + i * NPU_BLOCK_SIZE in
          let page_start := fun o =>
            tl_load oob free_page_ptr (new_page_start_loc + offset_many_page o / page_size) in
          tl_store out NPU_BLOCK_SIZE
            (fun o => output_start_loc + num_part1 + offset_many_page o)
            (fun o => page_start o * page_size + offset_many_page o mod page_size)
            (fun o => offset_many_page o <? num_part2)) out;
  if pre_len + num_part1 + num_part2 =? seq_len then Some out else
  let num_part3 := seq_len - seq_len / page_size * page_size in
  let start_loc :=
    tl_load oob free_page_ptr (new_page_start_loc + num_page_start_loc_self - 1) in
  tl_store out page_size (fun o => output_start_loc + num_part1 + num_part2 + o)
    (fun o => start_loc * page_size + o) (fun o => o <? num_part3).

Definition alloc_decode_kernel (seq_lens_ptr last_loc_ptr free_page_ptr : list Z)
    (bs_upper page_size : Z) (pid : Z) (out_indices : list Z) : option (list Z) :=
  let seq_lens := tl_load_lanes oob undef seq_lens_ptr bs_upper (fun o => o <=? pid) in
  let pre_lens := zip_with (fun o s => if o <=? pid then s - 1 else s)
                    (zrange 0 bs_upper) seq_lens in
  let seq_len := tl_load oob seq_lens_ptr pid in
  let pre_len := seq_len - 1 in
  let num_pages_after := map (fun s => (s + page_size - 1) / page_size) seq_lens in
  let num_pages_before := map (fun p => (p + page_size - 1) / page_size) pre_lens in
  let num_new_pages := zip_with Z.sub num_pages_after num_pages_before in
  let num_page_start_loc_self :=
    (seq_len + page_size - 1) / page_size - (pre_len + page_size - 1) / page_size in
  let sum_num_new_pages := zsum num_new_pages in
  let new_page_start_loc := sum_num_new_pages - num_page_start_loc_self in
  if num_page_start_loc_self =? 0 then
    let last_loc := tl_load oob last_loc_ptr pid in
    store1 out_indices (pid, last_loc + 1)
  else
    let page := tl_load oob free_page_ptr new_page_start_loc in
    store1 out_indices (pid, page * page_size).
End Kernels.

(** ** The torch fallback *)

(** [out[a:b] = vs]: torch refuses a value of another length. *)
Definition slice_assign (out : list Z) (a b : Z) (vs : list Z) : option (list Z) :=
  let a' := clamp_idx (zlen out) a in
  let b' := Z.max a' (clamp_idx (zlen out) b) in
  if zlen vs =? b' - a' then Some (splice out a' vs) else None.

(** [l[i]]: a negative index counts from the end, an index outside fails. *)
Definition py_index {A} (l : list A) (i : Z) : option A :=
  let i' := if i <? 0 then i + zlen l else i in
  if 0 <=? i' then l !! Z.to_nat i' else None.

Fixpoint cumsum_from (acc : Z) (l : list Z) : list Z :=
  match l with
  | [] => []
  | x :: l => (acc + x) :: cumsum_from (acc + x) l
  end.

(** [torch.cumsum(l, 0)] *)
Definition cumsum (l : list Z) : list Z := cumsum_from 0 l.

(** The body of the loop of [alloc_extend_naive] for one request. *)
Definition naive_request (free_pages : list Z) (page_size : Z)
    (pre sq loc start stop start_new end_new need : Z) (out_indices : list Z)
    : option (list Z) :=
  let pos_in_page := zrange 0 page_size in
  let num1 := Z.min sq ((pre + page_size - 1) / page_size * page_size) - pre in
  out_indices ←
    (if num1 =? 0 then Some out_indices
     else slice_assign out_indices start (start + num1)
            (map (fun o => loc + 1 + o) (py_upto pos_in_page num1)));
  if pre + num1 =? sq then Some out_indices else
  let num2 := (sq / page_size - (pre + page_size - 1) / page_size) * page_size in
  out_indices ←
    (if num2 =? 0 then Some out_indices
     else
       let pages := map (fun p => p * page_size)
                      (py_slice free_pages start_new (end_new - need)) in
       slice_assign out_indices (start + num1) (start + num1 + num2)
         (pages ≫= fun p => map (fun o => p + o) pos_in_page));
  if pre + num1 + num2 =? sq then Some out_indices else
  let num3 := sq - sq / page_size * page_size in
  if num3 =? 0 then Some out_indices else
  page ← py_index free_pages (end_new - 1);
  slice_assign out_indices (stop - num3) stop
    (map (fun o => page * page_size + o) (py_upto pos_in_page num3)).

Definition alloc_extend_naive (prefix_lens seq_lens last_loc free_pages out_indices : list Z)
    (page_size : Z) : option (list Z) :=
  let extend_lens := zip_with Z.sub seq_lens prefix_lens in
  let end_pos := cumsum extend_lens in
  let start_pos := zip_with Z.sub end_pos extend_lens in
  let num_new_pages :=
    zip_with Z.sub (map (fun s => (s + page_size - 1) / page_size) seq_lens)
                   (map (fun p => (p + page_size - 1) / page_size) prefix_lens) in
  let num_full_new_pages :=
    zip_with Z.sub (map (fun s => s / page_size) seq_lens)
                   (map (fun p => (p + page_size - 1) / page_size) prefix_lens) in
  let need_page := zip_with Z.sub num_new_pages num_full_new_pages in
  let end_new_pages := cumsum num_new_pages in
  let start_new_pages := zip_with Z.sub end_new_pages num_new_pages in
  tl_for (zrange 0 (zlen prefix_lens)) (fun i out_indices =>
    pre ← py_index prefix_lens i; sq ← py_index seq_lens i; loc ← py_index last_loc i;
    start ← py_index start_pos i; stop ← py_index end_pos i;
    start_new ← py_index start_new_pages i; end_new ← py_index end_new_pages i;
    need ← py_index need_page i;
    naive_request free_pages page_size pre sq loc start stop start_new end_new need out_indices)
    out_indices.

(** ** Reference: where the tokens of an extend batch go

    Token [p] of a request ([pre <= p < seq]) is at offset [p mod page_size] of
    the request's page number [p / page_size].  Up to the end of the request's
    last partly filled page the locations continue after [last_loc]; later pages
    come from [free_pages], in order, request after request. *)

Section Reference.
Context (page_size : Z) (prefix_lens seq_lens last_loc free_pages : list Z).

Definition npages (n : Z) : Z := (n + page_size - 1) / page_size.

Definition ext_lens : list Z := zip_with Z.sub seq_lens prefix_lens.
Definition new_pages : list Z :=
  zip_with Z.sub (map npages seq_lens) (map npages prefix_lens).

Definition token_loc (i : nat) (p : Z) : Z :=
  let pre := nth i prefix_lens 0 in
  if p <? npages pre * page_size then nth i last_loc 0 + 1 + (p - pre)
  else
    let page := zsum (take i new_pages) + (p / page_size - npages pre) in
    nth (Z.to_nat page) free_pages 0 * page_size + p mod page_size.

Definition extend_seg (i : nat) : list Z :=
  map (token_loc i) (zrange (nth i prefix_lens 0) (nth i seq_lens 0)).

Definition extend_segs : list (list Z) := map extend_seg (seq 0 (length prefix_lens)).

Definition extend_result : list Z := concat extend_segs.

(** The batches the scheduler passes: equally long vectors, every sequence at
    least as long as its prefix, and enough free pages. *)
Record extend_batch : Prop := {
  eb_page : 0 < page_size;
  eb_seq : length seq_lens = length prefix_lens;
  eb_loc : length last_loc = length prefix_lens;
  eb_lens : forall i, (i < length prefix_lens)%nat ->
              0 <= nth i prefix_lens 0 <= nth i seq_lens 0;
  eb_pages : zsum new_pages <= zlen free_pages;
}.
End Reference.

(** *** Lanes and prefix sums *)

Lemma tl_load_nth oob buf (i : nat) :
  (i < length buf)%nat -> tl_load oob buf (Z.of_nat i) = nth i buf 0.
Proof.
  intros Hi. destruct (lookup_lt_is_Some_2 buf i Hi) as [v Hv].
  erewrite tl_load_in; [|lia|rewrite Nat2Z.id; exact Hv].
  symmetry. by apply nth_lookup_Some.
Qed.

Lemma tl_load_nth_Z oob buf p :
  0 <= p < zlen buf -> tl_load oob buf p = nth (Z.to_nat p) buf 0.
Proof.
  unfold zlen. intros Hp. rewrite <- (Z2Nat.id p) at 1 by lia. apply tl_load_nth. lia.
Qed.

Lemma map_tl_load_take oob buf n :
  (n <= length buf)%nat -> map (tl_load oob buf) (zrange 0 (Z.of_nat n)) = take n buf.
Proof.
  induction n as [|n IH]; intros Hn; [done|].
  destruct (lookup_lt_is_Some_2 buf n) as [v Hv]; [lia|].
  replace (Z.of_nat (S n)) with (Z.of_nat n + 1) by lia.
  rewrite zrange_snoc, map_app, IH, (take_S_r _ _ _ Hv) by lia. simpl.
  rewrite tl_load_nth by lia. by rewrite (nth_lookup_Some _ _ _ _ Hv).
Qed.

Lemma lanes_split oob undef buf n (pid : nat) :
  (pid < length buf)%nat -> Z.of_nat pid < n ->
  tl_load_lanes oob undef buf n (fun o => o <=? Z.of_nat pid)
  = take (S pid) buf ++ map (fun _ => undef) (zrange (Z.of_nat pid + 1) n).
Proof.
  intros Hp Hn. unfold tl_load_lanes.
  rewrite (zrange_app 0 (Z.of_nat pid + 1) n), map_app by lia. f_equal.
  - rewrite <- (map_tl_load_take oob) by lia.
    replace (Z.of_nat (S pid)) with (Z.of_nat pid + 1) by lia.
    apply map_ext_in. intros o Ho%list_elem_of_In%elem_of_zrange.
    destruct (Z.leb_spec o (Z.of_nat pid)); [done|lia].
  - apply map_ext_in. intros o Ho%list_elem_of_In%elem_of_zrange.
    destruct (Z.leb_spec o (Z.of_nat pid)); [lia|done].
Qed.

Lemma zsum_const_zero {A} (l : list A) : zsum (map (fun _ => 0) l) = 0.
Proof. induction l; [done|]. simpl. unfold zsum in *; simpl; lia. Qed.

Lemma zip_with_map_same {A B C} (f : B -> B -> C) (g : A -> B) (l : list A) :
  zip_with f (map g l) (map g l) = map (fun x => f (g x) (g x)) l.
Proof. induction l; simpl; congruence. Qed.

Lemma zip_with_take {A B C} (f : A -> B -> C) n l k :
  zip_with f (take n l) (take n k) = take n (zip_with f l k).
Proof.
  revert l k; induction n as [|n IH]; intros [|x l] [|y k]; simpl; try done. by rewrite IH.
Qed.

(** Summing a difference over the lanes up to [pid] ignores what the
    masked-off lanes hold. *)
Lemma lanes_sum oob undef g a b n (pid : nat) :
  length a = length b -> (pid < length a)%nat -> Z.of_nat pid < n ->
  let m := fun o => o <=? Z.of_nat pid in
  zsum (zip_with Z.sub (map g (tl_load_lanes oob undef a n m)) (map g (tl_load_lanes oob undef b n m)))
  = zsum (take (S pid) (zip_with Z.sub (map g a) (map g b))).
Proof.
  intros Hab Hp Hn. cbv zeta. rewrite !lanes_split by lia.
  rewrite !map_app, !map_map, zip_with_app by (rewrite !length_map, !length_take; lia).
  rewrite zip_with_map_same, zsum_app.
  rewrite (map_ext (fun _ : Z => g undef - g undef) (fun _ => 0)) by (intros; lia). rewrite zsum_const_zero, Z.add_0_r.
  rewrite <- zip_with_take. by rewrite <- !firstn_map.
Qed.

Lemma zsum_take_S l i x : l !! i = Some x -> zsum (take (S i) l) = zsum (take i l) + x.
Proof. intros H. rewrite (take_S_r _ _ _ H), zsum_app. unfold zsum; simpl; lia. Qed.

Lemma lookup_nth (l : list Z) i : (i < length l)%nat -> l !! i = Some (nth i l 0).
Proof.
  intros H. destruct (lookup_lt_is_Some_2 _ _ H) as [v Hv].
  by rewrite Hv, (nth_lookup_Some _ _ _ _ Hv).
Qed.

Lemma zsum_take_nonneg l i : Forall (fun x => 0 <= x) l -> 0 <= zsum (take i l) <= zsum l.
Proof.
  intros H. pose proof (zsum_nonneg (take i l) ltac:(by apply Forall_take)).
  pose proof (zsum_nonneg (drop i l) ltac:(by apply Forall_drop)).
  rewrite <- (take_drop i l) at 3. rewrite zsum_app. lia.
Qed.

(** *** One request, in three parts *)

Lemma map_zrange_shift {A} (f : Z -> A) k n :
  map f (zrange k (k + n)) = map (fun o => f (k + o)) (zrange 0 n).
Proof. replace k with (k + 0) at 1 by lia. by rewrite zrange_shift, map_map. Qed.

Lemma map_zrange_ext {A} (f g : Z -> A) a b :
  (forall o, a <= o < b -> f o = g o) -> map f (zrange a b) = map g (zrange a b).
Proof. intros H. apply map_ext_in. intros o Ho%list_elem_of_In%elem_of_zrange. auto. Qed.

Section Parts.
Context (ps : Z) (prefix_lens seq_lens last_loc free_pages : list Z).
Hypothesis eb : extend_batch ps prefix_lens seq_lens last_loc free_pages.

Let Hps : 0 < ps := eb_page _ _ _ _ _ eb.

Abbreviation NP := (npages ps).
Abbreviation newp := (new_pages ps prefix_lens seq_lens).
Abbreviation loc := (token_loc ps prefix_lens seq_lens last_loc free_pages).
Abbreviation free p := (nth (Z.to_nat p) free_pages 0).

Lemma new_pages_lookup i :
  (i < length prefix_lens)%nat ->
  newp !! i = Some (NP (nth i seq_lens 0) - NP (nth i prefix_lens 0)).
Proof.
  intros Hi. pose proof (eb_seq _ _ _ _ _ eb). unfold new_pages.
  rewrite lookup_zip_with.
  change (map NP seq_lens) with (NP <$> seq_lens).
  change (map NP prefix_lens) with (NP <$> prefix_lens).
  rewrite !list_lookup_fmap, !lookup_nth by lia. done.
Qed.

Lemma new_pages_nonneg : Forall (fun x => 0 <= x) newp.
Proof.
  apply Forall_lookup_2. intros i x Hx.
  assert (Hi : (i < length prefix_lens)%nat).
  { apply lookup_lt_Some in Hx. unfold new_pages in Hx.
    rewrite length_zip_with, !length_map in Hx. lia. }
  rewrite (new_pages_lookup i Hi) in Hx. simplify_eq.
  pose proof (eb_lens _ _ _ _ _ eb i Hi). unfold npages.
  pose proof (ceil_div_mono (nth i prefix_lens 0) (nth i seq_lens 0) ps). lia.
Qed.

(** The pages of request [i] lie inside [free_pages]. *)
Lemma new_pages_bound i :
  (i < length prefix_lens)%nat ->
  0 <= zsum (take i newp)
  /\ zsum (take i newp) + (NP (nth i seq_lens 0) - NP (nth i prefix_lens 0)) <= zlen free_pages.
Proof.
  intros Hi. pose proof new_pages_nonneg as Hnn.
  pose proof (zsum_take_nonneg _ i Hnn). pose proof (zsum_take_nonneg _ (S i) Hnn) as HS.
  rewrite (zsum_take_S _ _ _ (new_pages_lookup i Hi)) in HS.
  pose proof (eb_pages _ _ _ _ _ eb). lia.
Qed.

Section Request.
Context (i : nat) (Hi : (i < length prefix_lens)%nat).
Let pre := nth i prefix_lens 0.
Let sq := nth i seq_lens 0.
Let num1 := Z.min sq (NP pre * ps) - pre.
Let num2 := sq / ps * ps - NP pre * ps.
Let num3 := sq - sq / ps * ps.
Let start := zsum (take i newp).

Let Hlens : 0 <= pre <= sq := eb_lens _ _ _ _ _ eb i Hi.
Let Hceil : ps * NP pre - ps < pre <= ps * NP pre := ceil_div_spec pre ps Hps.
Let Hsdiv : sq = ps * (sq / ps) + sq mod ps := Z.div_mod sq ps ltac:(lia).
Let Hsmod : 0 <= sq mod ps < ps := Z.mod_pos_bound sq ps Hps.

Lemma parts_num1 : 0 <= num1 <= ps.
Proof. unfold num1. lia. Qed.

Lemma parts_num3 : 0 <= num3 < ps.
Proof. unfold num3. lia. Qed.

Lemma parts_seg1 :
  map (loc i) (zrange pre (pre + num1)) = map (fun o => nth i last_loc 0 + 1 + o) (zrange 0 num1).
Proof.
  rewrite map_zrange_shift. apply map_zrange_ext. intros o Ho.
  unfold token_loc. fold pre. unfold num1 in Ho.
  destruct (Z.ltb_spec (pre + o) (NP pre * ps)); lia.
Qed.

Lemma parts_done1 : pre + num1 = sq -> extend_seg ps prefix_lens seq_lens last_loc free_pages i
  = map (fun o => nth i last_loc 0 + 1 + o) (zrange 0 num1).
Proof. intros H. unfold extend_seg. fold pre sq. rewrite <- H. apply parts_seg1. Qed.

Section More.
Context (Hmore : pre + num1 <> sq).

Lemma parts_more : num1 = NP pre * ps - pre /\ NP pre * ps < sq /\ NP pre <= sq / ps.
Proof.
  unfold num1 in *. assert (NP pre * ps < sq) by lia.
  split; [lia|split; [done|]]. apply Z.div_le_lower_bound; lia.
Qed.

Lemma parts_num2 : 0 <= num2.
Proof. pose proof parts_more. unfold num2. nia. Qed.

Lemma parts_split :
  extend_seg ps prefix_lens seq_lens last_loc free_pages i
  = map (fun o => nth i last_loc 0 + 1 + o) (zrange 0 num1)
    ++ map (fun o => free (start + o / ps) * ps + o mod ps) (zrange 0 num2)
    ++ map (fun o => free (start + (NP sq - NP pre) - 1) * ps + o) (zrange 0 num3).
Proof.
  pose proof parts_more as (Hn1 & Hlt & Hle). pose proof parts_num2. pose proof parts_num1.
  unfold extend_seg. fold pre sq.
  rewrite (zrange_app pre (pre + num1) sq), map_app, parts_seg1 by lia. f_equal.
  rewrite (zrange_app (pre + num1) (pre + num1 + num2) sq), map_app by (unfold num2 in *; lia).
  f_equal.
  - rewrite map_zrange_shift. apply map_zrange_ext. intros o Ho.
    unfold token_loc. fold pre start. rewrite Hn1.
    destruct (Z.ltb_spec (pre + (NP pre * ps - pre) + o) (NP pre * ps)); [lia|].
    replace (pre + (NP pre * ps - pre) + o) with (o + NP pre * ps) by lia.
    rewrite Z.div_add, Z.mod_add by lia. do 4 f_equal. lia.
  - replace sq with (pre + num1 + num2 + num3) at 1 by (unfold num2, num3; lia).
    rewrite map_zrange_shift. apply map_zrange_ext. intros o Ho.
    unfold token_loc. fold pre start.
    destruct (Z.ltb_spec (pre + num1 + num2 + o) (NP pre * ps)); [lia|].
    replace (pre + num1 + num2 + o) with (o + sq / ps * ps) by (unfold num2; lia).
    unfold num3 in Ho. rewrite Z.div_add, Z.mod_add by lia.
    rewrite (Z.div_small o), (Z.mod_small o) by lia.
    do 4 f_equal. unfold npages at 2. rewrite ceil_floor_div by lia.
    destruct (Z.eqb_spec (sq mod ps) 0); lia.
Qed.

(** Every page the three parts read is one of the request's new pages. *)
Lemma parts_page_bound o :
  0 <= o < num2 -> 0 <= start + o / ps < zlen free_pages.
Proof.
  intros Ho. pose proof (new_pages_bound i Hi) as [Hb1 Hb2]. fold pre sq start in Hb1, Hb2.
  pose proof parts_more as (Hn1 & Hlt & Hle).
  assert (o / ps < sq / ps - NP pre).
  { apply Z.div_lt_upper_bound; [lia|]. unfold num2 in Ho. lia. }
  assert (sq / ps <= NP sq) by (apply Z.div_le_mono; lia).
  pose proof (Z.div_pos o ps ltac:(lia) ltac:(lia)). lia.
Qed.

Lemma parts_last_page_bound :
  num3 <> 0 -> 0 <= start + (NP sq - NP pre) - 1 < zlen free_pages.
Proof.
  intros Hn3. pose proof (new_pages_bound i Hi) as [Hb1 Hb2]. fold pre sq start in Hb1, Hb2.
  pose proof parts_more as (Hn1 & Hlt & Hle).
  assert (NP sq = sq / ps + 1); [|lia].
  unfold npages. rewrite ceil_floor_div by lia. unfold num3 in Hn3.
  destruct (Z.eqb_spec (sq mod ps) 0); lia.
Qed.
End More.
End Request.
End Parts.

(** *** Segments of the output buffer *)

Section Segments.
Context (ps : Z) (prefix_lens seq_lens last_loc free_pages : list Z).
Hypothesis eb : extend_batch ps prefix_lens seq_lens last_loc free_pages.
Abbreviation segs := (extend_segs ps prefix_lens seq_lens last_loc free_pages).
Abbreviation seg := (extend_seg ps prefix_lens seq_lens last_loc free_pages).
Abbreviation exts := (ext_lens prefix_lens seq_lens).

Lemma ext_lens_lookup i :
  (i < length prefix_lens)%nat ->
  exts !! i = Some (nth i seq_lens 0 - nth i prefix_lens 0).
Proof.
  intros Hi. pose proof (eb_seq _ _ _ _ _ eb). unfold ext_lens.
  rewrite lookup_zip_with, !lookup_nth by lia. done.
Qed.

Lemma extend_segs_lookup i :
  (i < length prefix_lens)%nat -> segs !! i = Some (seg i).
Proof.
  intros Hi. unfold extend_segs. change (map seg) with (fmap (M:=list) seg).
  rewrite list_lookup_fmap, lookup_seq_lt by lia. done.
Qed.

Lemma length_extend_segs : length segs = length prefix_lens.
Proof. unfold extend_segs. by rewrite length_map, length_seq. Qed.

Lemma zlen_extend_seg i :
  (i < length prefix_lens)%nat -> zlen (seg i) = nth i seq_lens 0 - nth i prefix_lens 0.
Proof.
  intros Hi. unfold extend_seg. rewrite zlen_map, zlen_zrange; [lia|].
  pose proof (eb_lens _ _ _ _ _ eb i Hi). lia.
Qed.

Lemma extend_seg_start i :
  (i <= length prefix_lens)%nat -> Z.of_nat (seg_start segs i) = zsum (take i exts).
Proof.
  induction i as [|i IH]; intros Hi; [done|].
  rewrite (seg_start_S _ _ _ (extend_segs_lookup i ltac:(lia))).
  rewrite (zsum_take_S _ _ _ (ext_lens_lookup i ltac:(lia))), <- IH by lia.
  pose proof (zlen_extend_seg i ltac:(lia)). unfold zlen in *. lia.
Qed.

Lemma zlen_extend_result :
  zlen (extend_result ps prefix_lens seq_lens last_loc free_pages) = zsum exts.
Proof.
  pose proof (extend_seg_start (length prefix_lens) ltac:(lia)) as H.
  unfold seg_start in H. rewrite <- length_extend_segs, take_ge in H by lia.
  unfold extend_result, zlen. rewrite H, take_ge; [done|].
  unfold ext_lens. rewrite length_zip_with, length_extend_segs. lia.
Qed.
End Segments.

(** *** The kernels write the reference *)

Section KernelCorrect.
Context (oob : Z -> Z) (undef : Z).
Context (ps : Z) (prefix_lens seq_lens last_loc free_pages : list Z).
Hypothesis eb : extend_batch ps prefix_lens seq_lens last_loc free_pages.
Abbreviation segs := (extend_segs ps prefix_lens seq_lens last_loc free_pages).
Abbreviation seg := (extend_seg ps prefix_lens seq_lens last_loc free_pages).

(** The common tail of both kernels once the offsets are known. *)
Lemma kernel_parts out i (loop : list Z -> option (list Z)) base :
  (i < length prefix_lens)%nat ->
  0 <= base -> base + zlen (seg i) <= zlen out ->
  let pre := nth i prefix_lens 0 in
  let sq := nth i seq_lens 0 in
  let num1 := Z.min sq ((pre + ps - 1) / ps * ps) - pre in
  let num2 := sq / ps * ps - (pre + ps - 1) / ps * ps in
  let num3 := sq - sq / ps * ps in
  let start := zsum (take i (new_pages ps prefix_lens seq_lens)) in
  let self := (sq + ps - 1) / ps - (pre + ps - 1) / ps in
  (forall b, pre + num1 <> sq -> zlen b = zlen out ->
     loop b = Some (splice b (base + num1)
               (map (fun o => tl_load oob free_pages (start + o / ps) * ps + o mod ps)
                  (zrange 0 num2)))) ->
  (out ← tl_store out ps (fun o => base + o) (fun o => nth i last_loc 0 + 1 + o)
           (fun o => o <? num1);
   if pre + num1 =? sq then Some out else
   out ← loop out;
   if pre + num1 + num2 =? sq then Some out else
   tl_store out ps (fun o => base + num1 + num2 + o)
     (fun o => tl_load oob free_pages (start + self - 1) * ps + o) (fun o => o <? num3))
  = Some (splice out base (seg i)).
Proof.
  intros Hi Hb Hle pre sq num1 num2 num3 start self Hloop.
  pose proof (parts_num1 _ _ _ _ _ eb i Hi) as Hn1. fold pre sq num1 in Hn1.
  assert (Hseg : zlen (seg i) = sq - pre) by by apply (zlen_extend_seg _ _ _ _ _ eb).
  pose proof (eb_page _ _ _ _ _ eb) as Hps.
  assert (num1 <= sq - pre) by (unfold num1; lia).
  rewrite (tl_store_prefix _ _ base _ _ _ num1) by (done || lia). simpl.
  destruct (Z.eqb_spec (pre + num1) sq) as [Hd|Hmore].
  { f_equal. by rewrite (parts_done1 _ _ _ _ _ i Hi Hd). }
  pose proof (parts_num2 _ _ _ _ _ eb i Hi Hmore) as Hn2.
  pose proof (parts_num3 _ _ _ _ _ eb i Hi) as Hn3.
  pose proof (parts_more _ _ _ _ _ eb i Hi Hmore) as (Hn1' & Hm1 & Hm2).
  pose proof (parts_split _ _ _ _ _ eb i Hi Hmore) as Hsplit.
  unfold npages in *. fold pre sq num1 num2 num3 start self in Hn2, Hn3, Hn1', Hm1, Hm2, Hsplit.
  assert (Hsum : num1 + num2 + num3 = sq - pre) by (unfold num2, num3; lia).
  rewrite Hloop by (try done; rewrite zlen_splice; rewrite ?zlen_map, ?zlen_zrange; lia). simpl.
  rewrite (map_zrange_ext (fun o => tl_load oob free_pages (start + o / ps) * ps + o mod ps)
    (fun o => nth (Z.to_nat (start + o / ps)) free_pages 0 * ps + o mod ps)).
  2:{ intros o Ho. rewrite tl_load_nth_Z; [done|].
      by apply (parts_page_bound _ _ _ _ _ eb i Hi Hmore o). }
  clear Hloop. set (v1 := map _ (zrange 0 num1)) in *. set (v2 := map _ (zrange 0 num2)) in *.
  assert (Hv1 : zlen v1 = num1) by (unfold v1; rewrite zlen_map, zlen_zrange; lia).
  assert (Hv2 : zlen v2 = num2) by (unfold v2; rewrite zlen_map, zlen_zrange; lia).
  replace (splice (splice out base v1) (base + num1) v2) with (splice out base (v1 ++ v2))
    by (rewrite <- splice_splice by lia; by rewrite Hv1).
  destruct (Z.eqb_spec (pre + num1 + num2) sq) as [Hd2|Hmore2].
  { f_equal. rewrite Hsplit, (zrange_empty 0 num3) by lia. simpl. by rewrite app_nil_r. }
  rewrite (tl_store_prefix _ _ (base + zlen (v1 ++ v2)) _ _ _ num3);
    [|intros; rewrite zlen_app; lia|done|rewrite zlen_app; lia|lia
     |rewrite zlen_splice; rewrite ?zlen_app; lia].
  f_equal. rewrite splice_splice; [|lia|].
  2:{ rewrite zlen_app, zlen_map, zlen_zrange; lia. }
  f_equal. rewrite Hsplit, <- app_assoc. do 2 f_equal. apply map_zrange_ext. intros o Ho.
  rewrite tl_load_nth_Z; [done|].
  apply (parts_last_page_bound _ _ _ _ _ eb i Hi Hmore). fold sq num3. lia.
Qed.

(** What both kernels compute first: the offsets of request [i]. *)
Lemma kernel_offsets i n :
  (i < length prefix_lens)%nat -> zlen prefix_lens <= n ->
  let m := fun o => o <=? Z.of_nat i in
  let sv := tl_load_lanes oob undef seq_lens n m in
  let pv := tl_load_lanes oob undef prefix_lens n m in
  zsum (zip_with Z.sub sv pv) - (nth i seq_lens 0 - nth i prefix_lens 0)
    = Z.of_nat (seg_start segs i)
  /\ zsum (zip_with Z.sub (map (fun s => (s + ps - 1) / ps) sv)
                          (map (fun p => (p + ps - 1) / ps) pv))
     - ((nth i seq_lens 0 + ps - 1) / ps - (nth i prefix_lens 0 + ps - 1) / ps)
    = zsum (take i (new_pages ps prefix_lens seq_lens)).
Proof.
  intros Hi Hn. cbv zeta. pose proof (eb_seq _ _ _ _ _ eb) as Hs. unfold zlen in Hn.
  split.
  - rewrite <- (map_id (tl_load_lanes oob undef seq_lens n _)).
    rewrite <- (map_id (tl_load_lanes oob undef prefix_lens n _)).
    rewrite lanes_sum by lia. rewrite !map_id.
    rewrite (extend_seg_start _ _ _ _ _ eb) by lia.
    pose proof (ext_lens_lookup _ _ _ _ _ eb i Hi) as Hl. unfold ext_lens in *.
    rewrite (zsum_take_S _ _ _ Hl). lia.
  - rewrite lanes_sum by lia.
    pose proof (new_pages_lookup _ _ _ _ _ eb i Hi) as Hl. unfold new_pages, npages in *.
    rewrite (zsum_take_S _ _ _ Hl). lia.
Qed.

Lemma extend_kernel_seg i s b bs_upper :
  zlen prefix_lens <= bs_upper -> segs !! i = Some s -> length b = length (concat segs) ->
  alloc_extend_kernel oob undef prefix_lens seq_lens last_loc free_pages bs_upper ps
    (Z.of_nat i) b = Some (splice b (Z.of_nat (seg_start segs i)) s).
Proof.
  intros Hbs Hs Hb.
  assert (Hi : (i < length prefix_lens)%nat).
  { apply lookup_lt_Some in Hs. by rewrite length_extend_segs in Hs. }
  pose proof (seg_start_le_total _ _ _ Hs) as Hle.
  rewrite (extend_segs_lookup _ _ _ _ _ i Hi) in Hs. simplify_eq.
  pose proof (kernel_offsets i bs_upper Hi Hbs) as [Hoff Hpg]. cbv zeta in Hoff, Hpg.
  unfold alloc_extend_kernel. cbv zeta.
  pose proof (eb_seq _ _ _ _ _ eb). pose proof (eb_loc _ _ _ _ _ eb).
  rewrite !tl_load_nth by lia. rewrite Hoff, Hpg.
  apply kernel_parts; [done|lia|unfold zlen; lia|].
  intros b' Hmore Hb'. apply tl_for_blocks; try (intros; lia).
  - intros j o. by replace (j * BLOCK_EXTEND + o) with (o + j * BLOCK_EXTEND) by lia.
  - pose proof (parts_num1 _ _ _ _ _ eb i Hi). unfold npages in *. lia.
  - pose proof (parts_num2 _ _ _ _ _ eb i Hi Hmore). split; [done|].
    by apply (cdiv_covers _ BLOCK_EXTEND).
  - done.
  - rewrite Hb'. pose proof (parts_more _ _ _ _ _ eb i Hi Hmore) as (Hn1 & ? & ?).
    pose proof (parts_num3 _ _ _ _ _ eb i Hi). unfold npages in *.
    pose proof (zlen_extend_seg _ _ _ _ _ eb i Hi). unfold zlen in *. lia.
Qed.

Lemma npu_extend_kernel_seg i s b bs_upper max_tokens :
  zlen prefix_lens <= bs_upper -> zsum (ext_lens prefix_lens seq_lens) <= max_tokens ->
  segs !! i = Some s -> length b = length (concat segs) ->
  npu_alloc_extend_kernel oob undef prefix_lens seq_lens last_loc free_pages bs_upper ps
    max_tokens (Z.of_nat i) b = Some (splice b (Z.of_nat (seg_start segs i)) s).
Proof.
  intros Hbs Hmax Hs Hb.
  assert (Hi : (i < length prefix_lens)%nat).
  { apply lookup_lt_Some in Hs. by rewrite length_extend_segs in Hs. }
  pose proof (seg_start_le_total _ _ _ Hs) as Hle.
  rewrite (extend_segs_lookup _ _ _ _ _ i Hi) in Hs. simplify_eq.
  pose proof (kernel_offsets i bs_upper Hi Hbs) as [Hoff Hpg]. cbv zeta in Hoff, Hpg.
  unfold npu_alloc_extend_kernel. cbv zeta.
  pose proof (eb_seq _ _ _ _ _ eb). pose proof (eb_loc _ _ _ _ _ eb).
  rewrite !tl_load_nth by lia. rewrite Hoff, Hpg.
  pose proof (zlen_extend_seg _ _ _ _ _ eb i Hi) as Hseg.
  pose proof (zlen_extend_result _ _ _ _ _ eb) as Htot. unfold extend_result, zlen in *.
  apply kernel_parts; [done|lia|unfold zlen; lia|].
  intros b' Hmore Hb'.
  pose proof (parts_more _ _ _ _ _ eb i Hi Hmore) as (Hn1 & ? & ?).
  pose proof (parts_num1 _ _ _ _ _ eb i Hi). pose proof (parts_num3 _ _ _ _ _ eb i Hi).
  pose proof (parts_num2 _ _ _ _ _ eb i Hi Hmore). unfold npages in *.
  apply tl_for_blocks; try (intros; lia); try done.
  - split; [done|]. pose proof (cdiv_covers max_tokens NPU_BLOCK_SIZE). unfold NPU_BLOCK_SIZE in *. lia.
  - unfold zlen in *. lia.
Qed.
End KernelCorrect.

(** *** Power-of-two launch parameters *)

Lemma next_power_of_2_ge n : n <= next_power_of_2 n.
Proof.
  unfold next_power_of_2, bit_length. destruct (Z.ltb_spec 0 n); [|lia].
  rewrite Z.shiftl_1_l. destruct (Z.eqb_spec (n - 1) 0); [simpl; lia|].
  pose proof (Z.log2_spec (n - 1)). replace (Z.succ (Z.log2 (n - 1))) with (Z.log2 (n - 1) + 1) in * by lia.
  lia.
Qed.

(** *** The torch fallback writes the reference *)

(** The token slots of a list of pages:
    [(pages[:, None] * page_size + torch.arange(page_size)).reshape(-1)] *)
Definition expand_pages (page_size : Z) (pages : list Z) : list Z :=
  pages ≫= fun p => map (fun o => p * page_size + o) (zrange 0 page_size).

Lemma expand_pages_nth ps pages :
  0 < ps ->
  expand_pages ps pages
  = map (fun o => nth (Z.to_nat (o / ps)) pages 0 * ps + o mod ps) (zrange 0 (zlen pages * ps)).
Proof.
  intros Hps. induction pages as [|p pages IH] using rev_ind.
  { by rewrite zrange_empty by (unfold zlen; simpl; lia). }
  unfold expand_pages in *. rewrite bind_app, IH, zlen_app. simpl. rewrite app_nil_r.
  assert (Hl : 0 <= zlen pages * ps) by (pose proof (zlen_nonneg pages); nia).
  replace ((zlen pages + zlen [p]) * ps) with (zlen pages * ps + ps) by (unfold zlen; simpl; lia).
  rewrite (zrange_app 0 (zlen pages * ps) (zlen pages * ps + ps)), map_app by lia. f_equal.
  - apply map_zrange_ext. intros o Ho. f_equal. rewrite app_nth1; [done|].
    assert (0 <= o / ps) by (apply Z.div_pos; lia).
    assert (o / ps < zlen pages) by (apply Z.div_lt_upper_bound; lia). unfold zlen in *. lia.
  - rewrite map_zrange_shift. apply map_zrange_ext. intros o Ho.
    replace (zlen pages * ps + o) with (o + zlen pages * ps) by lia.
    rewrite Z.div_add, Z.mod_add, Z.div_small, Z.mod_small by lia.
    unfold zlen. rewrite app_nth2 by lia.
    by replace (Z.to_nat (0 + Z.of_nat (length pages)) - length pages)%nat with 0%nat by lia.
Qed.

Lemma slice_assign_ok out a b vs :
  0 <= a -> b = a + zlen vs -> b <= zlen out -> slice_assign out a b vs = Some (splice out a vs).
Proof.
  intros Ha -> Hb. pose proof (zlen_nonneg vs). unfold slice_assign.
  rewrite !clamp_idx_nonneg by lia. rewrite !Z.min_l by lia.
  destruct (Z.eqb_spec (zlen vs) (Z.max a (a + zlen vs) - a)); [done|lia].
Qed.

Lemma py_index_nth (l : list Z) i :
  0 <= i < zlen l -> py_index l i = Some (nth (Z.to_nat i) l 0).
Proof.
  intros Hi. unfold py_index. destruct (Z.ltb_spec i 0); [lia|].
  destruct (Z.leb_spec 0 i); [|lia]. apply lookup_nth. unfold zlen in Hi. lia.
Qed.

Lemma py_index_lookup {A} (l : list A) i x : l !! i = Some x -> py_index l (Z.of_nat i) = Some x.
Proof.
  intros Hx. unfold py_index. destruct (Z.ltb_spec (Z.of_nat i) 0); [lia|].
  destruct (Z.leb_spec 0 (Z.of_nat i)); [|lia]. by rewrite Nat2Z.id.
Qed.

Lemma cumsum_lookup l i x :
  l !! i = Some x -> cumsum l !! i = Some (zsum (take i l) + x).
Proof.
  unfold cumsum. assert (forall acc, l !! i = Some x ->
    cumsum_from acc l !! i = Some (acc + (zsum (take i l) + x))) as Hgen.
  { revert i. induction l as [|y l IH]; intros [|i] acc H; simpl in *; try done.
    - simplify_eq. f_equal; unfold zsum; simpl; lia.
    - rewrite (IH _ _ H). f_equal. unfold zsum; simpl; lia. }
  intros H. rewrite (Hgen 0 H). f_equal; lia.
Qed.

Lemma take_pages_slice (l : list Z) a k :
  0 <= a -> 0 <= k -> a + k <= zlen l ->
  zlen (py_slice l a (a + k)) = k
  /\ forall j, 0 <= j < k -> nth (Z.to_nat j) (py_slice l a (a + k)) 0 = nth (Z.to_nat (a + j)) l 0.
Proof.
  intros Ha Hk Hle. unfold zlen in *. rewrite py_slice_nonneg by lia. split.
  - rewrite length_take, length_drop. lia.
  - intros j Hj. rewrite !nth_lookup, lookup_take_lt, lookup_drop by lia.
    do 2 f_equal. lia.
Qed.

Section NaiveCorrect.
Context (ps : Z) (prefix_lens seq_lens last_loc free_pages : list Z).
Hypothesis eb : extend_batch ps prefix_lens seq_lens last_loc free_pages.
Abbreviation segs := (extend_segs ps prefix_lens seq_lens last_loc free_pages).
Abbreviation seg := (extend_seg ps prefix_lens seq_lens last_loc free_pages).

(** The pages the second part reads are the request's full new pages. *)
Lemma naive_full_pages i :
  (i < length prefix_lens)%nat ->
  let pre := nth i prefix_lens 0 in
  let sq := nth i seq_lens 0 in
  let start := zsum (take i (new_pages ps prefix_lens seq_lens)) in
  let k := sq / ps - npages ps pre in
  0 <= k ->
  (map (fun p => p * ps) (py_slice free_pages start (start + k))
     ≫= fun p => map (fun o => p + o) (zrange 0 ps))
  = map (fun o => nth (Z.to_nat (start + o / ps)) free_pages 0 * ps + o mod ps)
      (zrange 0 (k * ps)).
Proof.
  intros Hi pre sq start k Hk. pose proof (eb_page _ _ _ _ _ eb) as Hps.
  pose proof (new_pages_bound _ _ _ _ _ eb i Hi) as [Hb1 Hb2]. fold pre sq start in Hb1, Hb2.
  assert (sq / ps <= npages ps sq) by (apply Z.div_le_mono; lia).
  destruct (take_pages_slice free_pages start k) as [Hlen Hnth]; [lia..|].
  transitivity (expand_pages ps (py_slice free_pages start (start + k))).
  { unfold expand_pages. change (map (fun p => p * ps)) with (fmap (M:=list) (fun p => p * ps)).
    apply list_fmap_bind. }
  rewrite expand_pages_nth, Hlen by lia. apply map_zrange_ext. intros o Ho.
  rewrite Hnth; [done|]. split; [apply Z.div_pos; lia|apply Z.div_lt_upper_bound; lia].
Qed.

Lemma py_upto_zrange n k : 0 <= n <= k -> py_upto (zrange 0 k) n = zrange 0 n.
Proof.
  intros Hn. rewrite (zrange_app 0 n k), py_upto_nonneg by lia.
  rewrite take_app_length'; [done|]. unfold zrange. rewrite length_seqZ. lia.
Qed.

Lemma naive_request_seg i base out :
  (i < length prefix_lens)%nat ->
  0 <= base -> base + zlen (seg i) <= zlen out ->
  let pre := nth i prefix_lens 0 in
  let sq := nth i seq_lens 0 in
  let start := zsum (take i (new_pages ps prefix_lens seq_lens)) in
  naive_request free_pages ps pre sq (nth i last_loc 0) base (base + (sq - pre)) start
    (start + (npages ps sq - npages ps pre))
    ((npages ps sq - npages ps pre) - (sq / ps - npages ps pre)) out
  = Some (splice out base (seg i)).
Proof.
  intros Hi Hb Hle pre sq start. pose proof (eb_page _ _ _ _ _ eb) as Hps.
  pose proof (parts_num1 _ _ _ _ _ eb i Hi) as Hn1.
  pose proof (zlen_extend_seg _ _ _ _ _ eb i Hi) as Hseg. fold pre sq in Hseg, Hn1.
  unfold naive_request. cbv zeta. fold (npages ps pre) (npages ps sq).
  set (num1 := Z.min sq (npages ps pre * ps) - pre) in *.
  set (v1 := map (fun o => nth i last_loc 0 + 1 + o) (zrange 0 num1)).
  assert (Hv1 : zlen v1 = num1) by (unfold v1; rewrite zlen_map, zlen_zrange; lia).
  assert ((if num1 =? 0 then Some out
           else slice_assign out base (base + num1)
                  (map (fun o => nth i last_loc 0 + 1 + o) (py_upto (zrange 0 ps) num1)))
          = Some (splice out base v1)) as ->.
  { rewrite py_upto_zrange by lia. fold v1. destruct (Z.eqb_spec num1 0) as [H0|H0].
    - by rewrite (zlen_zero_inv v1), splice_nil by lia.
    - apply slice_assign_ok; lia. }
  simpl. destruct (Z.eqb_spec (pre + num1) sq) as [Hd|Hmore].
  { f_equal. by rewrite (parts_done1 _ _ _ _ _ i Hi Hd). }
  pose proof (parts_more _ _ _ _ _ eb i Hi Hmore) as (Hn1' & Hm1 & Hm2).
  pose proof (parts_split _ _ _ _ _ eb i Hi Hmore) as Hsplit.
  pose proof (parts_num3 _ _ _ _ _ eb i Hi) as Hn3. fold pre sq start num1 in Hn1', Hm1, Hm2, Hsplit, Hn3.
  replace (start + (npages ps sq - npages ps pre)
           - (npages ps sq - npages ps pre - (sq / ps - npages ps pre)))
    with (start + (sq / ps - npages ps pre)) by lia.
  pose proof (naive_full_pages i Hi) as Hfp. cbv zeta in Hfp. fold pre sq start in Hfp.
  rewrite Hfp by lia.
  replace ((sq / ps - npages ps pre) * ps) with (sq / ps * ps - npages ps pre * ps) by lia.
  set (num2 := sq / ps * ps - npages ps pre * ps) in *.
  set (num3 := sq - sq / ps * ps) in *. set (v2 := map _ (zrange 0 num2)) in *.
  assert (0 <= num2) by (unfold num2; nia).
  assert (Hv2 : zlen v2 = num2) by (unfold v2; rewrite zlen_map, zlen_zrange; lia).
  assert (Hsum : num1 + num2 + num3 = sq - pre) by (unfold num2, num3; lia).
  assert ((if num2 =? 0 then Some (splice out base v1)
           else slice_assign (splice out base v1) (base + num1) (base + num1 + num2) v2)
          = Some (splice out base (v1 ++ v2))) as ->.
  { rewrite <- (splice_splice _ _ v1 v2), Hv1 by lia. destruct (Z.eqb_spec num2 0) as [H0|H0].
    - by rewrite (zlen_zero_inv v2), splice_nil by lia.
    - apply slice_assign_ok; [lia|lia|]. rewrite zlen_splice; lia. }
  simpl. fold v1 in Hsplit. destruct (Z.eqb_spec (pre + num1 + num2) sq) as [Hd2|Hmore2].
  { f_equal. rewrite Hsplit, (zrange_empty 0 num3) by lia. simpl. by rewrite app_nil_r. }
  destruct (Z.eqb_spec num3 0); [lia|].
  pose proof (parts_last_page_bound _ _ _ _ _ eb i Hi Hmore) as Hpb. fold pre sq start num3 in Hpb.
  rewrite py_index_nth by lia. simpl. rewrite py_upto_zrange by lia.
  rewrite slice_assign_ok; [|lia|rewrite zlen_map, zlen_zrange; lia|].
  2:{ rewrite zlen_splice; rewrite ?zlen_app; lia. }
  f_equal. rewrite Hsplit, app_assoc.
  replace (base + (sq - pre) - num3) with (base + zlen (v1 ++ v2)) by (rewrite zlen_app; lia).
  rewrite splice_splice; [done|lia|]. rewrite zlen_app, zlen_map, zlen_zrange; lia.
Qed.

Lemma naive_run out :
  zlen out = zsum (ext_lens prefix_lens seq_lens) ->
  alloc_extend_naive prefix_lens seq_lens last_loc free_pages out ps
  = Some (extend_result ps prefix_lens seq_lens last_loc free_pages).
Proof.
  intros Hout. unfold alloc_extend_naive, extend_result. cbv zeta.
  replace (zlen prefix_lens) with (zlen segs)
    by (unfold zlen; by rewrite length_extend_segs).
  apply grid_launch; [|done|].
  2:{ pose proof (zlen_extend_result _ _ _ _ _ eb). unfold extend_result in *. lia. }
  intros i s b Hs Hb.
  assert (Hi : (i < length prefix_lens)%nat).
  { apply lookup_lt_Some in Hs. by rewrite length_extend_segs in Hs. }
  pose proof (seg_start_le_total _ _ _ Hs) as Hle.
  rewrite (extend_segs_lookup _ _ _ _ _ i Hi) in Hs. simplify_eq.
  pose proof (eb_seq _ _ _ _ _ eb) as Hsl. pose proof (eb_loc _ _ _ _ _ eb) as Hll.
  pose proof (ext_lens_lookup _ _ _ _ _ eb i Hi) as Hel. unfold ext_lens in Hel.
  pose proof (new_pages_lookup _ _ _ _ _ eb i Hi) as Hnl. unfold new_pages, npages in Hnl.
  rewrite (py_index_lookup _ i _ (lookup_nth prefix_lens i ltac:(lia))),
    (py_index_lookup _ i _ (lookup_nth seq_lens i ltac:(lia))),
    (py_index_lookup _ i _ (lookup_nth last_loc i ltac:(lia))); simpl.
  assert (Hfull : zip_with Z.sub (map (fun s => s / ps) seq_lens)
      (map (fun p => (p + ps - 1) / ps) prefix_lens) !! i
      = Some (nth i seq_lens 0 / ps - npages ps (nth i prefix_lens 0))).
  { rewrite lookup_zip_with, !list_lookup_fmap, !lookup_nth by lia. done. }
  assert (Hdiff : forall l x, l !! i = Some x ->
    zip_with Z.sub (cumsum l) l !! i = Some (zsum (take i l) + x - x)).
  { intros l x Hx. by rewrite lookup_zip_with, (cumsum_lookup _ _ _ Hx), Hx. }
  rewrite (py_index_lookup _ i _ (Hdiff _ _ Hel)), (py_index_lookup _ i _ (Hdiff _ _ Hnl)),
    (py_index_lookup _ i _ (cumsum_lookup _ _ _ Hel)),
    (py_index_lookup _ i _ (cumsum_lookup _ _ _ Hnl)); simpl.
  erewrite (py_index_lookup (zip_with Z.sub _ _) i) by (by rewrite lookup_zip_with, Hnl, Hfull).
  simpl. pose proof (naive_request_seg i (Z.of_nat (seg_start segs i)) b Hi) as Hreq.
  cbv zeta in Hreq. unfold new_pages, npages in Hreq.
  rewrite <- Hreq; [|lia|unfold zlen; lia].
  rewrite (extend_seg_start _ _ _ _ _ eb) by lia. unfold ext_lens. f_equal; lia.
Qed.
End NaiveCorrect.

(** *** Decode: one token per request *)

Section DecodeCorrect.
Context (oob : Z -> Z) (undef : Z).
Context (ps : Z) (seq_lens last_loc free_pages : list Z).
Abbreviation prefix_lens := (map (fun s => s - 1) seq_lens).
Hypothesis eb : extend_batch ps prefix_lens seq_lens last_loc free_pages.
Abbreviation segs := (extend_segs ps prefix_lens seq_lens last_loc free_pages).
Abbreviation seg := (extend_seg ps prefix_lens seq_lens last_loc free_pages).

Lemma nth_pred i : (i < length seq_lens)%nat -> nth i prefix_lens 0 = nth i seq_lens 0 - 1.
Proof.
  intros Hi. apply nth_lookup_Some. rewrite list_lookup_fmap, lookup_nth by done. done.
Qed.

Lemma decode_seg i :
  (i < length seq_lens)%nat ->
  seg i = [token_loc ps prefix_lens seq_lens last_loc free_pages i (nth i seq_lens 0 - 1)].
Proof.
  intros Hi. unfold extend_seg. rewrite nth_pred by done.
  replace (nth i seq_lens 0) with ((nth i seq_lens 0 - 1) + 1) at 2 by lia.
  rewrite zrange_snoc, zrange_empty by lia. done.
Qed.

Lemma decode_seg_start i :
  (i <= length seq_lens)%nat -> seg_start segs i = i.
Proof.
  induction i as [|i IH]; intros Hi; [done|].
  rewrite (seg_start_S _ _ (seg i)).
  - rewrite IH, decode_seg by lia. simpl. lia.
  - apply extend_segs_lookup. rewrite length_map. lia.
Qed.

Lemma decode_lanes_sum i n :
  (i < length seq_lens)%nat -> zlen seq_lens <= n ->
  let m := fun o => o <=? Z.of_nat i in
  let sv := tl_load_lanes oob undef seq_lens n m in
  let pv := zip_with (fun o s => if o <=? Z.of_nat i then s - 1 else s) (zrange 0 n) sv in
  zsum (zip_with Z.sub (map (fun s => (s + ps - 1) / ps) sv)
                       (map (fun p => (p + ps - 1) / ps) pv))
  = zsum (take (S i) (new_pages ps prefix_lens seq_lens)).
Proof.
  intros Hi Hn. cbv zeta. unfold zlen in Hn.
  assert (zip_with (fun o s => if o <=? Z.of_nat i then s - 1 else s) (zrange 0 n)
            (tl_load_lanes oob undef seq_lens n (fun o => o <=? Z.of_nat i))
          = map (fun s => s - 1) (take (S i) seq_lens)
            ++ map (fun _ => undef) (zrange (Z.of_nat i + 1) n)) as ->.
  { rewrite lanes_split by lia. rewrite (zrange_app 0 (Z.of_nat i + 1) n) at 1 by lia.
    rewrite zip_with_app; [f_equal|].
    - apply list_eq. intros j. rewrite lookup_zip_with, list_lookup_fmap.
      destruct (decide (j < S i)%nat) as [Hj|Hj].
      + assert (zrange 0 (Z.of_nat i + 1) !! j = Some (Z.of_nat j)) as ->.
        { unfold zrange. rewrite lookup_seqZ. split; lia. }
        simpl. destruct (take (S i) seq_lens !! j); simpl; [|done].
        destruct (Z.leb_spec (Z.of_nat j) (Z.of_nat i)); [done|lia].
      + rewrite (lookup_ge_None_2 (take _ _)) by (rewrite length_take; lia).
        by destruct (_ !! j).
    - apply list_eq. intros j. rewrite lookup_zip_with, !list_lookup_fmap.
      destruct (zrange (Z.of_nat i + 1) n !! j) as [o|] eqn:Ho; simpl; [|done].
      apply list_elem_of_lookup_2, elem_of_zrange in Ho.
      destruct (Z.leb_spec o (Z.of_nat i)); [lia|done].
    - unfold zrange. rewrite length_seqZ, length_take. lia. }
  rewrite lanes_split, !map_app, !map_map, zip_with_app
    by (try lia; rewrite !length_map; done).
  rewrite zip_with_map_same, zsum_app.
  rewrite (map_ext (fun _ : Z => (undef + ps - 1) / ps - (undef + ps - 1) / ps) (fun _ => 0))
    by (intros; lia).
  rewrite zsum_const_zero, Z.add_0_r. unfold new_pages.
  rewrite <- zip_with_take. unfold npages. rewrite !map_map. by rewrite <- !firstn_map.
Qed.

Lemma decode_kernel_seg i s b bs_upper :
  zlen seq_lens <= bs_upper -> segs !! i = Some s -> length b = length (concat segs) ->
  alloc_decode_kernel oob undef seq_lens last_loc free_pages bs_upper ps (Z.of_nat i) b
  = Some (splice b (Z.of_nat (seg_start segs i)) s).
Proof.
  intros Hbs Hs Hb.
  assert (Hi : (i < length seq_lens)%nat).
  { apply lookup_lt_Some in Hs. rewrite length_extend_segs, length_map in Hs. done. }
  assert (Hi' : (i < length prefix_lens)%nat) by by rewrite length_map.
  pose proof (seg_start_le_total _ _ _ Hs) as Hle.
  rewrite (extend_segs_lookup _ _ _ _ _ i Hi') in Hs. simplify_eq.
  rewrite decode_seg_start, decode_seg in * by lia. simpl in Hle.
  unfold alloc_decode_kernel. cbv zeta.
  pose proof (eb_loc _ _ _ _ _ eb) as Hloc. rewrite length_map in Hloc.
  pose proof (eb_page _ _ _ _ _ eb) as Hps.
  rewrite decode_lanes_sum, !tl_load_nth by lia.
  pose proof (new_pages_lookup _ _ _ _ _ eb i Hi') as Hnl. unfold npages in Hnl.
  rewrite nth_pred in Hnl by done. rewrite (zsum_take_S _ _ _ Hnl).
  pose proof (new_pages_bound _ _ _ _ _ eb i Hi') as [Hb1 Hb2].
  pose proof (eb_lens _ _ _ _ _ eb i Hi') as Hlens. unfold npages in Hb2.
  rewrite nth_pred in Hb2, Hlens by done.
  set (sq := nth i seq_lens 0) in *.
  assert (Hst : forall v, store1 b (Z.of_nat i, v) = Some (splice b (Z.of_nat i) [v])).
  { intros v. pose proof (store1_snoc_splice b (Z.of_nat i) [] v) as Hsn.
    change (zlen (@nil Z)) with 0 in Hsn. rewrite !Z.add_0_r, splice_nil in Hsn.
    apply Hsn; unfold zlen; lia. }
  rewrite !Hst. unfold token_loc, npages. rewrite nth_pred by done. fold sq.
  pose proof (ceil_div_spec (sq - 1) ps Hps). pose proof (ceil_div_spec sq ps Hps).
  destruct (Z.eqb_spec ((sq + ps - 1) / ps - (sq - 1 + ps - 1) / ps) 0) as [Hz|Hz].
  - destruct (Z.ltb_spec (sq - 1) ((sq - 1 + ps - 1) / ps * ps)) as [Hlt|Hge]; [do 3 f_equal; lia|].
    exfalso. nia.
  - destruct (Z.ltb_spec (sq - 1) ((sq - 1 + ps - 1) / ps * ps)) as [Hlt|Hge]; [exfalso; nia|].
    pose proof (ceil_div_mono (sq - 1) sq ps Hps ltac:(lia)).
    rewrite tl_load_nth_Z by lia.
    assert (Hm : (sq - 1) / ps = (sq - 1 + ps - 1) / ps /\ (sq - 1) mod ps = 0).
    { rewrite (ceil_floor_div (sq - 1)) in * by lia.
      pose proof (Z.div_mod (sq - 1) ps ltac:(lia)). pose proof (Z.mod_pos_bound (sq - 1) ps Hps).
      destruct (Z.eqb_spec ((sq - 1) mod ps) 0) as [Hm|Hm]; [lia|nia]. }
    destruct Hm as [-> ->]. rewrite Z.add_0_r. do 5 f_equal. lia.
Qed.
End DecodeCorrect.

(** *** Launches over a whole batch *)

Lemma extend_grid_ok oob undef ps prefix_lens seq_lens last_loc free_pages order out :
  extend_batch ps prefix_lens seq_lens last_loc free_pages ->
  Permutation order (zrange 0 (zlen prefix_lens)) ->
  zlen out = zsum (ext_lens prefix_lens seq_lens) ->
  tl_for order
    (alloc_extend_kernel oob undef prefix_lens seq_lens last_loc free_pages
       (next_power_of_2 (zlen prefix_lens)) ps) out
  = Some (extend_result ps prefix_lens seq_lens last_loc free_pages).
Proof.
  intros Hbatch Horder Hout. apply grid_launch.
  - intros i s b Hs Hb. apply extend_kernel_seg; auto. apply next_power_of_2_ge.
  - unfold zlen. by rewrite length_extend_segs.
  - rewrite Hout. symmetry. by apply zlen_extend_result.
Qed.

(** The kernel reads pages past the end of [free_page_ptr] when there are too
    few; it then behaves as if the list went on with what memory holds there. *)
Lemma tl_load_pad oob buf n i :
  tl_load oob (buf ++ map oob (zrange (zlen buf) n)) i = tl_load oob buf i.
Proof.
  unfold tl_load. destruct (Z.leb_spec 0 i); [|done].
  destruct (decide (Z.to_nat i < length buf)%nat) as [Hl|Hl].
  { by rewrite lookup_app_l. }
  rewrite lookup_app_r, (lookup_ge_None_2 buf) by lia. simpl.
  rewrite list_lookup_fmap. destruct (zrange (zlen buf) n !! _) as [j|] eqn:Hj; [|done].
  simpl. unfold zrange in Hj. apply lookup_seqZ in Hj as [-> _]. f_equal. unfold zlen. lia.
Qed.

Lemma extend_kernel_free_ext oob undef pl sl ll f f' up ps pid out :
  (forall i, tl_load oob f i = tl_load oob f' i) ->
  alloc_extend_kernel oob undef pl sl ll f up ps pid out
  = alloc_extend_kernel oob undef pl sl ll f' up ps pid out.
Proof.
  intros Hf. unfold alloc_extend_kernel. cbv zeta.
  destruct (tl_store out _ _ _ _) as [o|]; simpl; [|done]. case_match; [done|].
  erewrite tl_for_ext. 2:{ intros x b. apply tl_store_ext; intros; [done| |done]. by rewrite Hf. }
  destruct (tl_for _ _ _) as [o'|]; simpl; [|done]. case_match; [done|].
  apply tl_store_ext; intros; [done| |done]. by rewrite Hf.
Qed.

Lemma extend_grid_total oob undef ps prefix_lens seq_lens last_loc free_pages order out :
  0 < ps -> length seq_lens = length prefix_lens -> length last_loc = length prefix_lens ->
  (forall i, (i < length prefix_lens)%nat -> 0 <= nth i prefix_lens 0 <= nth i seq_lens 0) ->
  Permutation order (zrange 0 (zlen prefix_lens)) ->
  zlen out = zsum (ext_lens prefix_lens seq_lens) ->
  exists out', tl_for order
    (alloc_extend_kernel oob undef prefix_lens seq_lens last_loc free_pages
       (next_power_of_2 (zlen prefix_lens)) ps) out = Some out'.
Proof.
  intros Hps Hs Hl Hlens Horder Hout.
  set (k := zsum (new_pages ps prefix_lens seq_lens)).
  set (padded := free_pages ++ map oob (zrange (zlen free_pages) k)).
  eexists. rewrite <- (extend_grid_ok oob undef ps prefix_lens seq_lens last_loc padded order out);
    [|split; try done|done|done].
  - apply tl_for_ext. intros x b. apply extend_kernel_free_ext. intros i. symmetry. apply tl_load_pad.
  - unfold padded. rewrite zlen_app, zlen_map. unfold zlen, zrange. rewrite length_seqZ.
    fold k. lia.
Qed.

Lemma npu_extend_grid_ok oob undef ps prefix_lens seq_lens last_loc free_pages order out :
  extend_batch ps prefix_lens seq_lens last_loc free_pages ->
  Permutation order (zrange 0 (zlen prefix_lens)) ->
  zlen out = zsum (ext_lens prefix_lens seq_lens) ->
  tl_for order
    (npu_alloc_extend_kernel oob undef prefix_lens seq_lens last_loc free_pages
       (next_power_of_2 (zlen prefix_lens)) ps (next_power_of_2 (zlen out))) out
  = Some (extend_result ps prefix_lens seq_lens last_loc free_pages).
Proof.
  intros Hbatch Horder Hout. apply grid_launch.
  - intros i s b Hs Hb. apply npu_extend_kernel_seg; auto.
    + apply next_power_of_2_ge.
    + rewrite <- Hout. apply next_power_of_2_ge.
  - unfold zlen. by rewrite length_extend_segs.
  - rewrite Hout. symmetry. by apply zlen_extend_result.
Qed.

Lemma decode_grid_ok oob undef ps seq_lens last_loc free_pages order out :
  extend_batch ps (map (fun s => s - 1) seq_lens) seq_lens last_loc free_pages ->
  Permutation order (zrange 0 (zlen seq_lens)) -> zlen out = zlen seq_lens ->
  tl_for order
    (alloc_decode_kernel oob undef seq_lens last_loc free_pages
       (next_power_of_2 (zlen seq_lens)) ps) out
  = Some (extend_result ps (map (fun s => s - 1) seq_lens) seq_lens last_loc free_pages).
Proof.
  intros Hbatch Horder Hout. apply grid_launch.
  - intros i s b Hs Hb. apply decode_kernel_seg; auto. apply next_power_of_2_ge.
  - unfold zlen. by rewrite length_extend_segs, length_map.
  - rewrite Hout. unfold zlen. f_equal.
    pose proof (decode_seg_start ps seq_lens last_loc free_pages (length seq_lens) ltac:(lia)) as Hd.
    unfold seg_start in Hd. rewrite take_ge in Hd by (rewrite length_extend_segs, length_map; lia).
    done.
Qed.

Lemma new_pages_decode_eq ps seq_lens :
  2 <= ps -> Forall (fun s => 1 <= s) seq_lens ->
  get_num_new_pages_decode seq_lens ps
  = zsum (new_pages ps (map (fun s => s - 1) seq_lens) seq_lens).
Proof.
  intros Hps Hpos. unfold get_num_new_pages_decode, new_pages, npages.
  induction Hpos as [|s l Hs Hl IH]; [done|]. cbn [map zip_with]. rewrite !zsum_cons, IH.
  f_equal. rewrite !ceil_floor_div by lia.
  pose proof (Z.div_mod s ps ltac:(lia)). pose proof (Z.mod_pos_bound s ps ltac:(lia)).
  pose proof (Z.div_mod (s - 1) ps ltac:(lia)). pose proof (Z.mod_pos_bound (s - 1) ps ltac:(lia)).
  destruct (Z.eqb_spec (s mod ps) 1), (Z.eqb_spec (s mod ps) 0), (Z.eqb_spec ((s - 1) mod ps) 0);
    nia.
Qed.

(** *** Which pages a placement touches *)

Lemma sum_position l n :
  Forall (fun x => 0 <= x) l -> 0 <= n < zsum l ->
  exists i x j, l !! i = Some x /\ 0 <= j < x /\ n = zsum (take i l) + j.
Proof.
  intros H. revert n. induction H as [|y l Hy Hl IH]; intros n Hn; [unfold zsum in Hn; simpl in Hn; lia|].
  rewrite zsum_cons in Hn. destruct (Z.lt_ge_cases n y).
  - exists 0%nat, y, n. repeat split; try lia.
  - destruct (IH (n - y)) as (i & x & j & Hi & Hj & He); [lia|].
    exists (S i), x, j. repeat split; [done|lia|lia|]. cbn [take]. rewrite zsum_cons. lia.
Qed.

Section TouchedPages.
Context (ps : Z) (prefix_lens seq_lens last_loc free_pages : list Z).
Hypothesis eb : extend_batch ps prefix_lens seq_lens last_loc free_pages.
Abbreviation newp := (new_pages ps prefix_lens seq_lens).

(** The request's last page is partly filled and its new tokens continue it. *)
Definition has_tail (i : nat) : Prop :=
  nth i prefix_lens 0 mod ps <> 0 /\ nth i prefix_lens 0 < nth i seq_lens 0.

Hypothesis tails : forall i, (i < length prefix_lens)%nat -> has_tail i ->
  (nth i last_loc 0 + 1) mod ps = nth i prefix_lens 0 mod ps.

Lemma token_loc_page i p :
  (i < length prefix_lens)%nat -> nth i prefix_lens 0 <= p < nth i seq_lens 0 ->
  let slot := token_loc ps prefix_lens seq_lens last_loc free_pages i p in
  (p < npages ps (nth i prefix_lens 0) * ps /\ has_tail i /\ slot / ps = nth i last_loc 0 / ps)
  \/ (npages ps (nth i prefix_lens 0) * ps <= p
      /\ slot / ps = nth (Z.to_nat (zsum (take i newp) + (p / ps - npages ps (nth i prefix_lens 0))))
                       free_pages 0).
Proof.
  intros Hi Hp. cbv zeta. unfold token_loc. pose proof (eb_page _ _ _ _ _ eb) as Hps.
  set (pre := nth i prefix_lens 0) in *. set (l := nth i last_loc 0).
  destruct (Z.ltb_spec p (npages ps pre * ps)) as [Hlt|Hge].
  - left. split; [done|]. unfold npages in Hlt. rewrite ceil_floor_div in Hlt by lia.
    pose proof (Z.div_mod pre ps ltac:(lia)). pose proof (Z.mod_pos_bound pre ps Hps).
    destruct (Z.eqb_spec (pre mod ps) 0) as [Hz|Hz]; [nia|].
    assert (Ht : has_tail i) by (split; [done|lia]). split; [done|].
    pose proof (tails i Hi Ht) as Ha. fold l pre in Ha.
    pose proof (Z.div_mod (l + 1) ps ltac:(lia)) as Hl1. rewrite Ha in Hl1.
    assert (l / ps = (l + 1) / ps) as -> by (symmetry; apply Z.div_unique with (r := pre mod ps - 1); lia).
    symmetry. apply Z.div_unique with (r := pre mod ps + (p - pre)); lia.
  - right. split; [done|]. cbv zeta. rewrite Z.div_add_l by lia.
    rewrite (Z.div_small (p mod ps)) by (apply Z.mod_pos_bound; lia). lia.
Qed.

Lemma extend_result_slots x :
  x ∈ map (fun s => s / ps) (extend_result ps prefix_lens seq_lens last_loc free_pages)
  <-> exists i p, (i < length prefix_lens)%nat /\ nth i prefix_lens 0 <= p < nth i seq_lens 0
        /\ x = token_loc ps prefix_lens seq_lens last_loc free_pages i p / ps.
Proof.
  rewrite list_elem_of_In, in_map_iff. unfold extend_result, extend_segs, extend_seg.
  setoid_rewrite in_concat. setoid_rewrite in_map_iff. split.
  - intros (v & <- & seg & (i & <- & Hi%in_seq) & Hv).
    apply in_map_iff in Hv as (p & <- & Hp%list_elem_of_In%elem_of_zrange).
    exists i, p. split; [lia|done].
  - intros (i & p & Hi & Hp & ->). eexists. split; [done|]. eexists. split.
    + exists i. split; [done|]. apply in_seq. lia.
    + apply in_map. apply list_elem_of_In, elem_of_zrange. done.
Qed.

Lemma extend_result_pages_inv x :
  x ∈ map (fun s => s / ps) (extend_result ps prefix_lens seq_lens last_loc free_pages) ->
  x ∈ take (Z.to_nat (zsum newp)) free_pages
  \/ exists i, (i < length prefix_lens)%nat /\ has_tail i /\ x = nth i last_loc 0 / ps.
Proof.
  pose proof (eb_page _ _ _ _ _ eb) as Hps. rewrite extend_result_slots.
  intros (i & p & Hi & Hp & ->). destruct (token_loc_page i p Hi Hp) as [(?&?&->)|(Hge&->)];
    [right; eauto|left].
  pose proof (new_pages_bound _ _ _ _ _ eb i Hi) as [Hb1 Hb2].
  assert (npages ps (nth i prefix_lens 0) <= p / ps) by (apply Z.div_le_lower_bound; lia).
  assert (p / ps < npages ps (nth i seq_lens 0)).
  { apply Z.div_lt_upper_bound; [lia|]. pose proof (ceil_div_spec (nth i seq_lens 0) ps Hps).
    unfold npages. lia. }
  pose proof (zsum_take_nonneg newp (S i) (new_pages_nonneg _ _ _ _ _ eb)) as HS.
  rewrite (zsum_take_S _ _ _ (new_pages_lookup _ _ _ _ _ eb i Hi)) in HS.
  apply list_elem_of_lookup. eexists. rewrite lookup_take_lt.
  + apply lookup_nth. unfold zlen in Hb2. lia.
  + lia.
Qed.

Lemma extend_result_pages x :
  x ∈ map (fun s => s / ps) (extend_result ps prefix_lens seq_lens last_loc free_pages)
  <-> x ∈ take (Z.to_nat (zsum newp)) free_pages
      \/ exists i, (i < length prefix_lens)%nat /\ has_tail i /\ x = nth i last_loc 0 / ps.
Proof.
  split; [apply extend_result_pages_inv|].
  pose proof (eb_page _ _ _ _ _ eb) as Hps. rewrite extend_result_slots.
  intros [Hx|(i & Hi & Ht & ->)].
  + apply list_elem_of_lookup in Hx as [n Hn].
    pose proof (lookup_lt_Some _ _ _ Hn) as Hlt. rewrite length_take in Hlt.
    rewrite lookup_take_lt in Hn by lia.
    destruct (sum_position newp (Z.of_nat n) (new_pages_nonneg _ _ _ _ _ eb)) as (i & y & j & Hy & Hj & He);
      [lia|].
    assert (Hi : (i < length prefix_lens)%nat).
    { apply lookup_lt_Some in Hy. unfold new_pages in Hy. rewrite length_zip_with, !length_map in Hy. lia. }
    rewrite (new_pages_lookup _ _ _ _ _ eb i Hi) in Hy. simplify_eq.
    pose proof (ceil_div_spec (nth i prefix_lens 0) ps Hps).
    pose proof (ceil_div_spec (nth i seq_lens 0) ps Hps).
    exists i, ((npages ps (nth i prefix_lens 0) + j) * ps). split; [done|].
    assert (Hr : nth i prefix_lens 0 <= (npages ps (nth i prefix_lens 0) + j) * ps < nth i seq_lens 0)
      by (unfold npages in *; nia).
    split; [done|]. destruct (token_loc_page i _ Hi Hr) as [(?&_)|(_&->)]; [nia|].
    rewrite Z.div_mul by lia.
    replace (Z.to_nat _) with n by lia. symmetry. by apply nth_lookup_Some.
  + exists i, (nth i prefix_lens 0). split; [done|]. destruct Ht as [Hm Hl].
    split; [lia|]. destruct (token_loc_page i (nth i prefix_lens 0) Hi) as [(_&_&->)|(Hge&_)];
      [lia|done|]. exfalso. unfold npages in Hge. rewrite ceil_floor_div in Hge by lia.
    pose proof (Z.div_mod (nth i prefix_lens 0) ps ltac:(lia)).
    pose proof (Z.mod_pos_bound (nth i prefix_lens 0) ps Hps).
    destruct (Z.eqb_spec (nth i prefix_lens 0 mod ps) 0); nia.
Qed.
End TouchedPages.

(** ** Properties *)



(** [alloc_decode_kernel] places the one new token of every request where
    [alloc_extend] would place it with prefix lengths [seq_lens - 1]. *)
Theorem alloc_decode_kernel_correct oob undef ps seq_lens last_loc free_pages order out
    (Hbatch : extend_batch ps (map (fun s => s - 1) seq_lens) seq_lens last_loc free_pages)
    (Horder : Permutation order (zrange 0 (zlen seq_lens)))
    (Hout : zlen out = zlen seq_lens) :
  tl_for order
    (alloc_decode_kernel oob undef seq_lens last_loc free_pages
       (next_power_of_2 (zlen seq_lens)) ps) out
  = Some (extend_result ps (map (fun s => s - 1) seq_lens) seq_lens last_loc free_pages).
Proof. by apply decode_grid_ok. Qed.

(** page alignment of the placement.  When every request's last location
    continues its prefix ([(last_loc + 1) % page_size == prefix_len % page_size],
    the allocator's debug assertion), token [p] of a request is stored at offset
    [p mod page_size] of a page. *)
Theorem extend_result_page_aligned ps prefix_lens seq_lens last_loc free_pages i p
    (Hps : 0 < ps)
    (Hdebug : (nth i last_loc 0 + 1) mod ps = nth i prefix_lens 0 mod ps) :
  token_loc ps prefix_lens seq_lens last_loc free_pages i p mod ps = p mod ps.
Proof.
  unfold token_loc. destruct (Z.ltb_spec p (npages ps (nth i prefix_lens 0) * ps)).
  - rewrite Z.add_mod, Hdebug, <- Z.add_mod by lia. f_equal. lia.
  - rewrite Z.add_comm, Z.mod_add, Z.mod_mod by lia. done.
Qed.

(** For pages of at least two tokens, the count [get_num_new_pages] takes in
    decode mode is the number of pages the decode placement consumes. *)
Theorem num_new_pages_decode_agrees ps seq_lens
    (Hps : 2 <= ps) (Hpos : Forall (fun s => 1 <= s) seq_lens) :
  get_num_new_pages_decode seq_lens ps
  = get_num_new_pages seq_lens ps (map (fun s => s - 1) seq_lens).
Proof. by apply new_pages_decode_eq. Qed.

(** *** Witnesses *)

Lemma sample_batch : extend_batch 4 [3; 0] [10; 5] [6; -1] [5; 6; 7; 8].
Proof.
  split; [lia|done|done| |by vm_compute].
  intros [|[|i]] Hi; simpl in *; lia.
Qed.



Lemma sample_decode_batch : extend_batch 4 (map (fun s => s - 1) [9; 6]) [9; 6] [31; 44] [5; 6].
Proof.
  split; [lia|done|done| |by vm_compute].
  intros [|[|i]] Hi; simpl in *; lia.
Qed.

Lemma alloc_decode_kernel_correct_witness :
  tl_for [0; 1] (alloc_decode_kernel (fun i => i) 77 [9; 6] [31; 44] [5; 6] 2 4) [0; 0]
  = Some [20; 45].
Proof.
  apply (alloc_decode_kernel_correct (fun i => i) 77 4 [9; 6] [31; 44] [5; 6]).
  - apply sample_decode_batch.
  - reflexivity.
  - reflexivity.
Defined.

Lemma extend_result_page_aligned_witness :
  token_loc 4 [3; 0] [10; 5] [6; -1] [5; 6; 7; 8] 0 9 mod 4 = 9 mod 4.
Proof. apply extend_result_page_aligned; [lia | reflexivity]. Defined.

Lemma num_new_pages_decode_agrees_witness :
  get_num_new_pages_decode [9; 6; 1] 4 = get_num_new_pages [9; 6; 1] 4 [8; 5; 0].
Proof. apply (num_new_pages_decode_agrees 4 [9; 6; 1]); [lia | repeat constructor; lia]. Defined.
