(* ===== verification/Allocator.v ===== *)
(** The KV-slot allocators of srt/mem_cache/allocator.py
    ([TokenToKVPoolAllocator], [PagedTokenToKVPoolAllocator]) and the Ascend
    subclass of hardware_backend/npu/allocator_npu.py.  The state is the record
    [allocator]; every method is a function on it.  The theorems show that pages
    are conserved: at every moment each page of the pool is in exactly one of the
    free list, the release list, the pending free group, or a client's hands. *)

From S2P Require Import Prelude Triton AllocKernels.

(** ** State ([BaseTokenToKVPoolAllocator.__init__]) *)

Record allocator : Type := MkAllocator {
  size : Z;
  page_size : Z;
  need_sort : bool;
  debug_mode : bool;
  free_pages : list Z;
  release_pages : list Z;
  is_not_in_free_group : bool;
  free_group : list (list Z);
}.

Definition set_pages (s : allocator) (free release : list Z) : allocator :=
  MkAllocator (size s) (page_size s) (need_sort s) (debug_mode s) free release
    (is_not_in_free_group s) (free_group s).

Definition set_group (s : allocator) (outside : bool) (group : list (list Z)) : allocator :=
  MkAllocator (size s) (page_size s) (need_sort s) (debug_mode s) (free_pages s)
    (release_pages s) outside group.

(** ** Methods shared by all allocators *)

Definition available_size (s : allocator) : Z :=
  (zlen (free_pages s) + zlen (release_pages s)) * page_size s.

Definition backup_state (s : allocator) : list Z * list Z := (free_pages s, release_pages s).

Definition restore_state (s : allocator) (state : list Z * list Z) : allocator :=
  set_pages s state.1 state.2.

Definition free_group_begin (s : allocator) : allocator := set_group s false [].

(** [free] is the method of the concrete class.  The group itself is left in
    place: it is only reset by the next [free_group_begin]. *)
Definition free_group_end (free : allocator -> list Z -> res allocator) (s : allocator)
    : res allocator :=
  let s := set_group s true (free_group s) in
  match free_group s with
  | [] => Ok s
  | g => free s (concat g)
  end.

Definition merge_and_sort_free (s : allocator) : allocator :=
  if 0 <? zlen (release_pages s)
  then set_pages s (tsort (free_pages s ++ release_pages s)) []
  else s.

(** ** [TokenToKVPoolAllocator] (one token per page) *)

Definition token_clear (s : allocator) : allocator :=
  set_group (set_pages s (zrange 1 (size s + 1)) []) true [].

Definition token_init (size : Z) (need_sort : bool) : allocator :=
  token_clear (MkAllocator size 1 need_sort false [] [] true []).

Definition token_available_size (s : allocator) : Z :=
  zlen (free_pages s) + zlen (release_pages s).

Definition token_alloc (s : allocator) (need_size : Z) : option (list Z) * allocator :=
  let s := if need_sort s && (zlen (free_pages s) <? need_size)
           then merge_and_sort_free s else s in
  if zlen (free_pages s) <? need_size then (None, s)
  else (Some (py_upto (free_pages s) need_size),
        set_pages s (py_from (free_pages s) need_size) (release_pages s)).

Definition token_free (s : allocator) (free_index : list Z) : res allocator :=
  if zlen free_index =? 0 then Ok s
  else if is_not_in_free_group s then
    if need_sort s then Ok (set_pages s (free_pages s) (release_pages s ++ free_index))
    else Ok (set_pages s (free_pages s ++ free_index) (release_pages s))
  else Ok (set_group s (is_not_in_free_group s) (free_group s ++ [free_index])).

(** ** [PagedTokenToKVPoolAllocator] *)

Definition num_pages (s : allocator) : Z := size s / page_size s.

Definition paged_clear (s : allocator) : allocator :=
  set_group (set_pages s (zrange 1 (num_pages s + 1)) []) true [].

Definition paged_init (size page_size : Z) (need_sort debug : bool) : allocator :=
  paged_clear (MkAllocator size page_size need_sort debug [] [] true []).

(** [len(torch.unique(t)) == len(t)] *)
Definition all_unique (l : list Z) : bool := zlen (tunique l) =? zlen l.

Definition paged_alloc (s : allocator) (need_size : Z) : res (option (list Z) * allocator) :=
  let* _ := py_assert (negb (debug_mode s) || (need_size mod page_size s =? 0)) in
  let num_pages := need_size / page_size s in
  let s := if need_sort s && (zlen (free_pages s) <? num_pages)
           then merge_and_sort_free s else s in
  if zlen (free_pages s) <? num_pages then Ok (None, s)
  else
    let out_pages := py_upto (free_pages s) num_pages in
    let s' := set_pages s (py_from (free_pages s) num_pages) (release_pages s) in
    Ok (Some (expand_pages (page_size s) out_pages), s').

Definition page_of (s : allocator) (i : Z) : Z := i / page_size s.

Definition paged_free (s : allocator) (free_index : list Z) : res allocator :=
  if zlen free_index =? 0 then Ok s
  else
    let s' :=
      if is_not_in_free_group s then
        let free_page_indices := tunique (map (page_of s) free_index) in
        if need_sort s then set_pages s (free_pages s) (free_page_indices ++ release_pages s)
        else set_pages s (free_page_indices ++ free_pages s) (release_pages s)
      else set_group s (is_not_in_free_group s) (free_group s ++ [free_index]) in
    let* _ := py_assert (negb (debug_mode s) || all_unique (free_pages s')) in
    Ok s'.

(** What [torch.empty] returns, and the unspecified values of the kernels. *)
Section Extend.
Context (oob : Z -> Z) (undef : Z) (empty : Z -> list Z).

(** The grid of a launch [kernel[(bs,)]], in program order. *)
Definition launch (bs : Z) (kernel : Z -> list Z -> option (list Z)) (out : list Z)
    : option (list Z) :=
  tl_for (zrange 0 bs) kernel out.

(** [torch.all((last_loc + k) % page_size == lens % page_size)] *)
Definition locs_aligned (ps k : Z) (last_loc lens : list Z) : bool :=
  forallb (fun '(a, b) => (a + k) mod ps =? b mod ps) (zip last_loc lens).

(** An illegal store of the kernel is reported as [RuntimeError]. *)
Definition of_launch (r : option (list Z)) : res (list Z) :=
  match r with Some l => Ok l | None => Raise RuntimeError end.

Definition paged_alloc_extend (s : allocator) (prefix_lens seq_lens last_loc : list Z)
    (extend_num_tokens : Z) (num_new_pages : option Z)
    : res (option (list Z) * allocator) :=
  let* _ := py_assert (negb (debug_mode s) || locs_aligned (page_size s) 1 last_loc prefix_lens) in
  let bs := zlen prefix_lens in
  let s := if need_sort s && (zlen (free_pages s) <? extend_num_tokens / page_size s + bs + 1)
           then merge_and_sort_free s else s in
  let* out_indices :=
    of_launch (launch bs
      (alloc_extend_kernel oob undef prefix_lens seq_lens last_loc (free_pages s)
         (next_power_of_2 bs) (page_size s)) (empty extend_num_tokens)) in
  let* _ := py_assert (negb (debug_mode s) || all_unique out_indices) in
  let num_new_pages :=
    match num_new_pages with
    | Some n => n
    | None => get_num_new_pages seq_lens (page_size s) prefix_lens
    end in
  if zlen (free_pages s) <? num_new_pages then Ok (None, s)
  else Ok (Some out_indices,
           set_pages s (py_from (free_pages s) num_new_pages) (release_pages s)).

Definition paged_alloc_decode (s : allocator) (seq_lens last_loc : list Z)
    : res (option (list Z) * allocator) :=
  let* _ := py_assert (negb (debug_mode s) || locs_aligned (page_size s) 2 last_loc seq_lens) in
  let bs := zlen seq_lens in
  let s := if need_sort s && (zlen (free_pages s) <? bs) then merge_and_sort_free s else s in
  let* out_indices :=
    of_launch (launch bs
      (alloc_decode_kernel oob undef seq_lens last_loc (free_pages s)
         (next_power_of_2 bs) (page_size s)) (empty bs)) in
  let* _ := py_assert (negb (debug_mode s) || all_unique out_indices) in
  let num_new_pages := get_num_new_pages_decode seq_lens (page_size s) in
  if zlen (free_pages s) <? num_new_pages then Ok (None, s)
  else Ok (Some out_indices,
           set_pages s (py_from (free_pages s) num_new_pages) (release_pages s)).
End Extend.

(** ** [NPUPagedTokenToKVPoolAllocator] *)

Section NpuExtend.
Context (oob : Z -> Z) (undef : Z) (empty : Z -> list Z).

Definition npu_alloc_extend (s : allocator) (prefix_lens seq_lens last_loc : list Z)
    (extend_num_tokens : Z) (num_new_pages : option Z)
    : res (option (list Z) * allocator) :=
  let* _ := py_assert (negb (debug_mode s) || locs_aligned (page_size s) 1 last_loc prefix_lens) in
  let roundup := page_size s - 1 in
  let num_new_pages_item :=
    match num_new_pages with
    | Some n => n
    | None =>
        zsum (zip_with Z.sub (map (fun x => (x + roundup) / page_size s) seq_lens)
                             (map (fun x => (x + roundup) / page_size s) prefix_lens))
    end in
  let s := if need_sort s && (zlen (free_pages s) <? num_new_pages_item)
           then merge_and_sort_free s else s in
  if zlen (free_pages s) <? num_new_pages_item then Ok (None, s) else
  let* out_indices :=
    of_launch
      (if num_new_pages_item <? 200 then
         let max_num_extend_tokens := next_power_of_2 extend_num_tokens in
         let bs := zlen prefix_lens in
         launch bs
           (npu_alloc_extend_kernel oob undef prefix_lens seq_lens last_loc (free_pages s)
              (next_power_of_2 bs) (page_size s) max_num_extend_tokens)
           (empty extend_num_tokens)
       else
         (* the buffer of this branch is an int32 tensor *)
         option_map (map to_int32)
           (alloc_extend_naive prefix_lens seq_lens last_loc (free_pages s)
              (empty extend_num_tokens) (page_size s))) in
  let* _ := py_assert (negb (debug_mode s) || all_unique out_indices) in
  Ok (Some (map to_int32 out_indices),
      set_pages s (py_from (free_pages s) num_new_pages_item) (release_pages s)).

Definition npu_alloc_decode (s : allocator) (seq_lens last_loc : list Z)
    : res (option (list Z) * allocator) :=
  let* _ := py_assert (negb (debug_mode s) || locs_aligned (page_size s) 2 last_loc seq_lens) in
  let num_new_pages := get_num_new_pages_decode seq_lens (page_size s) in
  let s := if zlen (free_pages s) <? num_new_pages then merge_and_sort_free s else s in
  if zlen (free_pages s) <? num_new_pages then Ok (None, s) else
  let need_new_pages := map (fun x => if x mod page_size s =? 1 then 1 else 0) seq_lens in
  let end_new_pages := cumsum need_new_pages in
  let start_new_pages := zip_with Z.sub end_new_pages need_new_pages in
  let* out_indices :=
    (if num_new_pages =? 0 then Ok (map (fun l => l + 1) last_loc)
     else
       let* pages := gather (free_pages s) start_new_pages in
       Ok (zip_with Z.add
             (zip_with (fun l n => (l + 1) * (1 - n)) last_loc need_new_pages)
             (zip_with (fun p n => p * page_size s * n) pages need_new_pages))) in
  let* _ := py_assert (negb (debug_mode s) || all_unique out_indices) in
  Ok (Some (map to_int32 out_indices),
      set_pages s (py_from (free_pages s) num_new_pages) (release_pages s)).

(** Same as the parent's [free]; the index travels through the host. *)
Definition npu_free (s : allocator) (free_index : list Z) : res allocator :=
  if zlen free_index =? 0 then Ok s
  else
    let s' :=
      if is_not_in_free_group s then
        let free_page_indices := tunique (map (page_of s) free_index) in
        if need_sort s then set_pages s (free_pages s) (free_page_indices ++ release_pages s)
        else set_pages s (free_page_indices ++ free_pages s) (release_pages s)
      else set_group s (is_not_in_free_group s) (free_group s ++ [free_index]) in
    let* _ := py_assert (negb (debug_mode s) || all_unique (free_pages s')) in
    Ok s'.
End NpuExtend.

(** ** Conservation: the token allocator *)

(** Slots freed inside a free group, not yet returned to the pool. *)
Definition pending (s : allocator) : list Z :=
  if is_not_in_free_group s then [] else concat (free_group s).

(** Every slot [1..size] is free, released, pending or used by a client. *)
Definition token_owned (s : allocator) (used : list Z) : Prop :=
  Permutation (free_pages s ++ release_pages s ++ pending s ++ used) (zrange 1 (size s + 1)).

(** The calls a client makes; [used] are the slots it holds.  A client frees
    slots it holds, and closes the free groups it opens. *)
Inductive token_step : allocator * list Z -> allocator * list Z -> Prop :=
  | ts_alloc s used n out s' :
      0 <= n -> token_alloc s n = (Some out, s') -> token_step (s, used) (s', out ++ used)
  | ts_alloc_fail s used n s' :
      token_alloc s n = (None, s') -> token_step (s, used) (s', used)
  | ts_free s used idx rest s' :
      Permutation used (idx ++ rest) -> token_free s idx = Ok s' ->
      token_step (s, used) (s', rest)
  | ts_group_begin s used :
      is_not_in_free_group s = true -> token_step (s, used) (free_group_begin s, used)
  | ts_group_end s used s' :
      is_not_in_free_group s = false -> free_group_end token_free s = Ok s' ->
      token_step (s, used) (s', used)
  | ts_clear s used : token_step (s, used) (token_clear s, []).

Lemma merge_and_sort_free_perm s :
  Permutation (free_pages (merge_and_sort_free s) ++ release_pages (merge_and_sort_free s))
    (free_pages s ++ release_pages s).
Proof.
  unfold merge_and_sort_free. case_match; [|done]. simpl.
  rewrite app_nil_r. apply tsort_perm.
Qed.

Lemma merge_and_sort_free_fields s :
  size (merge_and_sort_free s) = size s /\ page_size (merge_and_sort_free s) = page_size s
  /\ need_sort (merge_and_sort_free s) = need_sort s
  /\ debug_mode (merge_and_sort_free s) = debug_mode s
  /\ is_not_in_free_group (merge_and_sort_free s) = is_not_in_free_group s
  /\ free_group (merge_and_sort_free s) = free_group s.
Proof. unfold merge_and_sort_free. by case_match. Qed.

(** The allocation prologue: merge the released pages when the test asks for it. *)
Definition maybe_merge (b : bool) (s : allocator) : allocator :=
  if b then merge_and_sort_free s else s.

Lemma maybe_merge_perm b s :
  Permutation (free_pages (maybe_merge b s) ++ release_pages (maybe_merge b s))
    (free_pages s ++ release_pages s).
Proof. destruct b; [apply merge_and_sort_free_perm|done]. Qed.

Lemma maybe_merge_fields b s :
  size (maybe_merge b s) = size s /\ page_size (maybe_merge b s) = page_size s
  /\ need_sort (maybe_merge b s) = need_sort s
  /\ debug_mode (maybe_merge b s) = debug_mode s
  /\ is_not_in_free_group (maybe_merge b s) = is_not_in_free_group s
  /\ free_group (maybe_merge b s) = free_group s.
Proof. destruct b; [apply merge_and_sort_free_fields|done]. Qed.

Lemma maybe_merge_pending b s : pending (maybe_merge b s) = pending s.
Proof.
  unfold pending. by destruct (maybe_merge_fields b s) as (_&_&_&_&->&->).
Qed.

Lemma token_alloc_some s n out s' :
  0 <= n -> token_alloc s n = (Some out, s') ->
  exists m, m = maybe_merge (need_sort s && (zlen (free_pages s) <? n)) s
    /\ free_pages m = out ++ free_pages s' /\ zlen out = n
    /\ s' = set_pages m (free_pages s') (release_pages m).
Proof.
  intros Hn. unfold token_alloc. fold (maybe_merge (need_sort s && (zlen (free_pages s) <? n)) s).
  set (m := maybe_merge _ s). destruct (Z.ltb_spec (zlen (free_pages m)) n); [done|].
  intros [= <- <-]. exists m. repeat split; simpl.
  - symmetry. by apply py_upto_from.
  - apply zlen_py_upto. lia.
Qed.

Lemma token_alloc_none s n s' :
  token_alloc s n = (None, s') ->
  s' = maybe_merge (need_sort s && (zlen (free_pages s) <? n)) s /\ zlen (free_pages s') < n.
Proof.
  unfold token_alloc. fold (maybe_merge (need_sort s && (zlen (free_pages s) <? n)) s).
  destruct (Z.ltb_spec (zlen (free_pages (maybe_merge (need_sort s && (zlen (free_pages s) <? n)) s))) n);
    [|done]. intros [= <-]. done.
Qed.

Lemma token_owned_merge b s used : token_owned s used -> token_owned (maybe_merge b s) used.
Proof.
  unfold token_owned. rewrite maybe_merge_pending. destruct (maybe_merge_fields b s) as (->&_).
  rewrite !(app_assoc (free_pages _)). by rewrite maybe_merge_perm.
Qed.

Lemma token_alloc_owned s used n out s' :
  0 <= n -> token_alloc s n = (Some out, s') -> token_owned s used -> token_owned s' (out ++ used).
Proof.
  intros Hn Ha Ho. destruct (token_alloc_some _ _ _ _ Hn Ha) as (m & Hm & Hf & _ & ->).
  apply (token_owned_merge (need_sort s && (zlen (free_pages s) <? n))) in Ho. rewrite <- Hm in Ho.
  unfold token_owned, pending in *; simpl in *. rewrite Hf in Ho. perm_solver.
Qed.

(** Freeing outside a group returns the slots to the pool. *)
Lemma token_free_pool s idx s' :
  is_not_in_free_group s = true -> token_free s idx = Ok s' ->
  Permutation (free_pages s' ++ release_pages s') (free_pages s ++ release_pages s ++ idx)
  /\ is_not_in_free_group s' = true /\ size s' = size s.
Proof.
  unfold token_free. intros Hg. rewrite Hg.
  destruct (Z.eqb_spec (zlen idx) 0) as [H0|H0].
  { intros [= <-]. rewrite (zlen_zero_inv idx H0), app_nil_r. done. }
  destruct (need_sort s); intros [= <-]; simpl; repeat split; auto; perm_solver.
Qed.

Lemma token_free_owned s used idx rest s' :
  Permutation used (idx ++ rest) -> token_free s idx = Ok s' ->
  token_owned s used -> token_owned s' rest.
Proof.
  intros Hu Hf Ho. unfold token_owned, pending in *. rewrite Hu in Ho.
  destruct (is_not_in_free_group s) eqn:Hg.
  - destruct (token_free_pool _ _ _ Hg Hf) as (Hp & -> & ->).
    rewrite app_assoc, Hp. perm_solver.
  - unfold token_free in Hf. rewrite Hg in Hf.
    destruct (Z.eqb_spec (zlen idx) 0) as [H0|H0]; simplify_eq; simpl.
    + rewrite (zlen_zero_inv idx H0) in Ho. by rewrite Hg.
    + rewrite concat_app. simpl. rewrite app_nil_r. perm_solver.
Qed.

Lemma token_group_end_owned s used s' :
  is_not_in_free_group s = false -> free_group_end token_free s = Ok s' ->
  token_owned s used -> token_owned s' used.
Proof.
  intros Hg He Ho. unfold token_owned, pending in *. rewrite Hg in Ho.
  unfold free_group_end in He. simpl in He. destruct (free_group s) as [|g gs] eqn:Hgr.
  - simplify_eq. done.
  - apply token_free_pool in He as (Hp & -> & ->); [|done].
    rewrite app_assoc, Hp. simpl in *. perm_solver.
Qed.

Lemma token_step_owned c c' :
  token_step c c' -> token_owned c.1 c.2 -> token_owned c'.1 c'.2 /\ size c'.1 = size c.1.
Proof.
  destruct 1 as [s u n out s' Hn Ha|s u n s' Ha|s u idx rest s' Hu Hf|s u Hg|s u s' Hg He|s u];
    intros Ho; simpl in *.
  - split; [by eapply token_alloc_owned|].
    destruct (token_alloc_some _ _ _ _ Hn Ha) as (m & -> & _ & _ & ->).
    simpl. apply maybe_merge_fields.
  - destruct (token_alloc_none _ _ _ Ha) as [-> _].
    split; [by apply token_owned_merge|apply maybe_merge_fields].
  - split; [by eapply token_free_owned|]. unfold token_free in Hf.
    repeat case_match; by simplify_eq.
  - unfold token_owned, pending in *. rewrite Hg in Ho. by split.
  - split; [by eapply token_group_end_owned|]. unfold free_group_end, token_free in He.
    simpl in He. repeat case_match; by simplify_eq.
  - unfold token_owned, pending; simpl. split; [|done]. by rewrite !app_nil_r.
Qed.

Lemma token_init_owned n sort : token_owned (token_init n sort) [].
Proof. unfold token_owned, pending; simpl. by rewrite !app_nil_r. Qed.

Lemma token_reachable_owned n sort s used :
  rtc token_step (token_init n sort, []) (s, used) -> token_owned s used /\ size s = n.
Proof.
  intros H. remember (token_init n sort, []) as c0 eqn:H0. remember (s, used) as c eqn:Hc.
  assert (token_owned c.1 c.2 /\ size c.1 = n) as Hgen.
  { assert (token_owned c0.1 c0.2 /\ size c0.1 = n) as Hinit
      by (subst c0; split; [apply token_init_owned|done]).
    clear H0 Hc. induction H as [c|c1 c2 c3 Hs _ IH]; [done|]. apply IH.
    destruct Hinit as [Ho <-]. by apply token_step_owned. }
  by subst c.
Qed.

(** ** Conservation: the paged allocator *)

Definition paged_pending (s : allocator) : list Z :=
  if is_not_in_free_group s then [] else tunique (map (page_of s) (concat (free_group s))).

(** Every page [1..num_pages] is free, released, pending or used by a client. *)
Definition paged_owned (s : allocator) (used : list Z) : Prop :=
  Permutation (free_pages s ++ release_pages s ++ paged_pending s ++ used)
    (zrange 1 (num_pages s + 1)).

(** The pages a client owns after receiving the slots [out]. *)
Definition claim (s : allocator) (out used : list Z) : list Z :=
  filter (fun p => p ∉ used) (tunique (map (page_of s) out)) ++ used.

(** What the scheduler guarantees about an extend batch: lengths in order, and a
    request whose last page is partly filled owns that page. *)
Definition extend_request (s : allocator) (used prefix_lens seq_lens last_loc : list Z) : Prop :=
  length seq_lens = length prefix_lens /\ length last_loc = length prefix_lens
  /\ (forall i, (i < length prefix_lens)%nat -> 0 <= nth i prefix_lens 0 <= nth i seq_lens 0)
  /\ (forall i, (i < length prefix_lens)%nat ->
        has_tail (page_size s) prefix_lens seq_lens i ->
        (nth i last_loc 0 + 1) mod page_size s = nth i prefix_lens 0 mod page_size s
        /\ page_of s (nth i last_loc 0) ∈ used).

(** Handing out the first [k] free pages, and exactly those besides pages the
    client owned already, keeps every page in one place. *)
Lemma claim_owned s used out k :
  paged_owned s used ->
  (forall p, p ∈ map (page_of s) out <-> p ∈ take k (free_pages s) \/ (p ∈ used /\ p ∈ map (page_of s) out)) ->
  Permutation (drop k (free_pages s) ++ release_pages s ++ paged_pending s ++ claim s out used)
    (zrange 1 (num_pages s + 1)).
Proof.
  intros Ho Hp. unfold paged_owned in Ho.
  assert (Hnd : NoDup (free_pages s ++ release_pages s ++ paged_pending s ++ used))
    by (rewrite Ho; apply NoDup_zrange).
  assert (Hc : Permutation (filter (fun p => p ∉ used) (tunique (map (page_of s) out)))
                 (take k (free_pages s))).
  { apply NoDup_same_perm.
    - apply NoDup_filter, NoDup_tunique.
    - apply NoDup_app in Hnd as (Hf & _). rewrite <- (take_drop k) in Hf.
      by apply NoDup_app in Hf as (? & _).
    - intros x. rewrite list_elem_of_filter, elem_of_tunique, Hp. split; [by intros [? [?|[? _]]]|].
      intros Hx. split; [|by left]. intros Hu.
      apply NoDup_app in Hnd as (_ & Hdis & _). apply (Hdis x).
      + rewrite <- (take_drop k (free_pages s)), elem_of_app. by left.
      + rewrite !elem_of_app. auto. }
  unfold claim. rewrite Hc, <- Ho.
  assert (Hf : Permutation (take k (free_pages s) ++ drop k (free_pages s)) (free_pages s))
    by by rewrite take_drop.
  clear - Hf. perm_solver.
Qed.

Lemma paged_pending_fields s s' :
  is_not_in_free_group s = is_not_in_free_group s' -> free_group s = free_group s' ->
  page_size s = page_size s' -> paged_pending s = paged_pending s'.
Proof. intros H1 H2 H3. unfold paged_pending, page_of. by rewrite H1, H2, H3. Qed.

Lemma maybe_merge_paged_pending b s : paged_pending (maybe_merge b s) = paged_pending s.
Proof.
  destruct (maybe_merge_fields b s) as (_&?&_&_&?&?). by apply paged_pending_fields.
Qed.

Lemma maybe_merge_num_pages b s : num_pages (maybe_merge b s) = num_pages s.
Proof. unfold num_pages. by destruct (maybe_merge_fields b s) as (->&->&_). Qed.

Lemma maybe_merge_page_of b s : page_of (maybe_merge b s) = page_of s.
Proof. unfold page_of. by destruct (maybe_merge_fields b s) as (_&->&_). Qed.

Lemma paged_owned_merge b s used : paged_owned s used -> paged_owned (maybe_merge b s) used.
Proof.
  unfold paged_owned. rewrite maybe_merge_paged_pending, maybe_merge_num_pages.
  rewrite !(app_assoc (free_pages _)). by rewrite maybe_merge_perm.
Qed.

Lemma set_pages_owned m free used :
  Permutation (free ++ release_pages m ++ paged_pending m ++ used) (zrange 1 (num_pages m + 1)) ->
  paged_owned (set_pages m free (release_pages m)) used.
Proof. done. Qed.

Lemma page_of_expand ps pages p :
  0 < ps -> p ∈ map (fun s => s / ps) (expand_pages ps pages) <-> p ∈ pages.
Proof.
  intros Hps. unfold expand_pages. rewrite list_elem_of_In, in_map_iff.
  setoid_rewrite <- list_elem_of_In. setoid_rewrite list_elem_of_bind.
  setoid_rewrite (list_elem_of_In (A:=Z)). setoid_rewrite in_map_iff.
  setoid_rewrite <- list_elem_of_In. setoid_rewrite elem_of_zrange. split.
  - intros (v & <- & q & (o & <- & Ho) & Hq).
    rewrite Z.div_add_l, Z.div_small by lia. by rewrite Z.add_0_r.
  - intros Hp. exists (p * ps). split; [by rewrite Z.div_mul by lia|].
    exists p. split; [exists 0; split; lia|done].
Qed.

Lemma paged_alloc_owned s used n out s' :
  0 < page_size s -> 0 <= n -> paged_alloc s n = Ok (Some out, s') -> paged_owned s used ->
  paged_owned s' (claim s out used).
Proof.
  intros Hps Hn Ha Ho. unfold paged_alloc in Ha.
  apply res_bind_Ok in Ha as (_ & _ & Ha). cbv zeta in Ha.
  fold (maybe_merge (need_sort s && (zlen (free_pages s) <? n / page_size s)) s) in Ha.
  set (b := need_sort s && _) in Ha. set (m := maybe_merge b s) in Ha.
  apply (paged_owned_merge b) in Ho. fold m in Ho.
  assert (0 <= n / page_size s) by (apply Z.div_pos; lia).
  destruct (Z.ltb_spec (zlen (free_pages m)) (n / page_size s)); [done|].
  injection Ha as <- <-. apply set_pages_owned. rewrite py_from_nonneg by lia.
  assert (Hpm : page_size m = page_size s) by apply maybe_merge_fields.
  replace (claim s) with (claim m) by (unfold claim, m; by rewrite maybe_merge_page_of).
  apply claim_owned; [done|]. intros p. rewrite py_upto_nonneg by lia.
  unfold page_of. rewrite (page_of_expand (page_size m)) by lia. tauto.
Qed.

Lemma extend_request_batch s m used prefix_lens seq_lens last_loc :
  0 < page_size m -> page_size m = page_size s ->
  extend_request s used prefix_lens seq_lens last_loc ->
  zsum (new_pages (page_size m) prefix_lens seq_lens) <= zlen (free_pages m) ->
  extend_batch (page_size m) prefix_lens seq_lens last_loc (free_pages m).
Proof. intros Hps Hm (?&?&?&?) Hk. by split. Qed.

(** The pages of a placement, split as [claim_owned] wants them. *)
Lemma placement_owned s m used prefix_lens seq_lens last_loc b :
  m = maybe_merge b s -> 0 < page_size s ->
  extend_request s used prefix_lens seq_lens last_loc ->
  zsum (new_pages (page_size m) prefix_lens seq_lens) <= zlen (free_pages m) ->
  paged_owned s used ->
  paged_owned
    (set_pages m (py_from (free_pages m) (zsum (new_pages (page_size m) prefix_lens seq_lens)))
       (release_pages m))
    (claim s (extend_result (page_size m) prefix_lens seq_lens last_loc (free_pages m)) used).
Proof.
  intros Hm Hps Hreq Hk Ho. apply (paged_owned_merge b) in Ho. rewrite <- Hm in Ho.
  assert (Hpm : page_size m = page_size s) by (subst m; apply maybe_merge_fields).
  pose proof (extend_request_batch s m used _ _ _ ltac:(lia) Hpm Hreq Hk) as eb.
  pose proof (zsum_nonneg _ (new_pages_nonneg _ _ _ _ _ eb)) as Hnn.
  apply set_pages_owned. rewrite py_from_nonneg by lia.
  replace (claim s) with (claim m) by (unfold claim, page_of; by rewrite Hpm).
  apply claim_owned; [done|]. intros p. destruct Hreq as (_&_&_&Htail).
  unfold page_of at 1. rewrite (extend_result_pages _ _ _ _ _ eb).
  2:{ intros i Hi Ht. rewrite Hpm in *. by apply Htail. }
  split.
  - intros [?|(i & Hi & Ht & ->)]; [by left|right]. split.
    + rewrite Hpm in *. unfold page_of in Htail. by apply Htail.
    + unfold page_of. apply (extend_result_pages _ _ _ _ _ eb); [|right; eauto].
      intros j Hj Htj. rewrite Hpm in *. by apply Htail.
  - intros [?|[_ Hp]]; [by left|]. unfold page_of in Hp.
    apply (extend_result_pages _ _ _ _ _ eb) in Hp; [done|].
    intros j Hj Htj. rewrite Hpm in *. by apply Htail.
Qed.

Lemma paged_free_pool s idx s' :
  is_not_in_free_group s = true -> paged_free s idx = Ok s' ->
  Permutation (free_pages s' ++ release_pages s')
    (free_pages s ++ release_pages s ++ tunique (map (page_of s) idx))
  /\ is_not_in_free_group s' = true /\ size s' = size s /\ page_size s' = page_size s.
Proof.
  unfold paged_free. intros Hg. destruct (Z.eqb_spec (zlen idx) 0) as [H0|H0].
  { intros [= <-]. rewrite (zlen_zero_inv idx H0). simpl. by rewrite app_nil_r. }
  rewrite Hg. intros (? & _ & [= <-])%res_bind_Ok.
  destruct (need_sort s); simpl; repeat split; auto; perm_solver.
Qed.

Lemma paged_free_group_owned s used idx s' :
  is_not_in_free_group s = false ->
  (forall p, p ∈ map (page_of s) idx -> p ∈ paged_pending s \/ p ∈ used) ->
  paged_free s idx = Ok s' -> paged_owned s used ->
  paged_owned s' (filter (fun p => p ∉ map (page_of s) idx) used).
Proof.
  intros Hg Hin Hf Ho. unfold paged_free in Hf. rewrite Hg in Hf.
  destruct (Z.eqb_spec (zlen idx) 0) as [H0|H0].
  { simplify_eq. rewrite (zlen_zero_inv idx H0). simpl.
    rewrite filter_all by (apply Forall_forall; intros ? _ []%not_elem_of_nil). done. }
  apply res_bind_Ok in Hf as (_ & _ & [= <-]). unfold paged_owned in *.
  assert (Hnd : NoDup (free_pages s ++ release_pages s ++ paged_pending s ++ used))
    by (rewrite Ho; apply NoDup_zrange).
  do 2 apply NoDup_app in Hnd as (_ & _ & Hnd). simpl.
  change (num_pages (set_group s false (free_group s ++ [idx]))) with (num_pages s).
  rewrite <- Ho. do 2 apply Permutation_app_head.
  unfold paged_pending in *. simpl. rewrite Hg in *.
  change (page_of (set_group s false (free_group s ++ [idx]))) with (page_of s).
  set (P := page_of s) in *. rewrite concat_app. simpl. rewrite app_nil_r, map_app.
  apply NoDup_app in Hnd as (Hp & Hdis & Hu). apply NoDup_same_perm.
  - apply NoDup_app. split; [apply NoDup_tunique|]. split; [|by apply NoDup_filter].
    intros x. rewrite elem_of_tunique, elem_of_app, list_elem_of_filter.
    specialize (Hdis x). rewrite elem_of_tunique in Hdis. tauto.
  - apply NoDup_app. done.
  - intros x. rewrite !elem_of_app, !elem_of_tunique, list_elem_of_filter, elem_of_app.
    specialize (Hin x). rewrite elem_of_tunique in Hin.
    destruct (decide (x ∈ map P idx)); tauto.
Qed.

Lemma paged_group_end_owned s used s' :
  is_not_in_free_group s = false -> free_group_end paged_free s = Ok s' ->
  paged_owned s used ->
  paged_owned s' used /\ size s' = size s /\ page_size s' = page_size s.
Proof.
  intros Hg He Ho. unfold paged_owned, paged_pending in Ho. rewrite Hg in Ho.
  unfold free_group_end in He. simpl in He. destruct (free_group s) as [|g gs] eqn:Hgr.
  - simplify_eq. done.
  - apply paged_free_pool in He as (Hp & Ho' & Hs & Hps); [|done]. split; [|done].
    unfold paged_owned, paged_pending, num_pages. rewrite Ho', Hs, Hps.
    rewrite app_assoc, Hp. simpl in *. unfold page_of in *. simpl in *.
    rewrite <- Ho. clear. perm_solver.
Qed.

Section PagedSteps.
Context (oob : Z -> Z) (undef : Z) (empty : Z -> list Z).
(** [torch.empty((n,))] has [n] elements. *)
Hypothesis empty_len : forall n, 0 <= n -> zlen (empty n) = n.

Inductive paged_step : allocator * list Z -> allocator * list Z -> Prop :=
  | pg_alloc s used n out s' :
      0 <= n -> paged_alloc s n = Ok (Some out, s') ->
      paged_step (s, used) (s', claim s out used)
  | pg_alloc_fail s used n s' :
      paged_alloc s n = Ok (None, s') -> paged_step (s, used) (s', used)
  | pg_extend s used prefix_lens seq_lens last_loc out s' :
      extend_request s used prefix_lens seq_lens last_loc ->
      paged_alloc_extend oob undef empty s prefix_lens seq_lens last_loc
        (zsum (ext_lens prefix_lens seq_lens)) None = Ok (Some out, s') ->
      paged_step (s, used) (s', claim s out used)
  | pg_extend_fail s used prefix_lens seq_lens last_loc n k s' :
      paged_alloc_extend oob undef empty s prefix_lens seq_lens last_loc n k = Ok (None, s') ->
      paged_step (s, used) (s', used)
  | pg_decode s used seq_lens last_loc out s' :
      2 <= page_size s -> Forall (fun x => 1 <= x) seq_lens ->
      extend_request s used (map (fun x => x - 1) seq_lens) seq_lens last_loc ->
      paged_alloc_decode oob undef empty s seq_lens last_loc = Ok (Some out, s') ->
      paged_step (s, used) (s', claim s out used)
  | pg_decode_fail s used seq_lens last_loc s' :
      paged_alloc_decode oob undef empty s seq_lens last_loc = Ok (None, s') ->
      paged_step (s, used) (s', used)
  | pg_free s used idx rest s' :
      is_not_in_free_group s = true ->
      Permutation used (tunique (map (page_of s) idx) ++ rest) ->
      paged_free s idx = Ok s' -> paged_step (s, used) (s', rest)
  | pg_free_in_group s used idx s' :
      is_not_in_free_group s = false ->
      (forall p, p ∈ map (page_of s) idx -> p ∈ paged_pending s \/ p ∈ used) ->
      paged_free s idx = Ok s' ->
      paged_step (s, used) (s', filter (fun p => p ∉ map (page_of s) idx) used)
  | pg_group_begin s used :
      is_not_in_free_group s = true -> paged_step (s, used) (free_group_begin s, used)
  | pg_group_end s used s' :
      is_not_in_free_group s = false -> free_group_end paged_free s = Ok s' ->
      paged_step (s, used) (s', used)
  | pg_clear s used : paged_step (s, used) (paged_clear s, []).

Lemma paged_extend_some s prefix_lens seq_lens last_loc out s' used :
  0 < page_size s -> extend_request s used prefix_lens seq_lens last_loc ->
  paged_alloc_extend oob undef empty s prefix_lens seq_lens last_loc
    (zsum (ext_lens prefix_lens seq_lens)) None = Ok (Some out, s') ->
  exists b m, m = maybe_merge b s
    /\ zsum (new_pages (page_size m) prefix_lens seq_lens) <= zlen (free_pages m)
    /\ out = extend_result (page_size m) prefix_lens seq_lens last_loc (free_pages m)
    /\ s' = set_pages m
         (py_from (free_pages m) (zsum (new_pages (page_size m) prefix_lens seq_lens)))
         (release_pages m).
Proof.
  intros Hps Hreq Ha. unfold paged_alloc_extend in Ha.
  apply res_bind_Ok in Ha as (_ & _ & Ha). cbv zeta in Ha.
  set (b := need_sort s && _) in Ha. fold (maybe_merge b s) in Ha. set (m := maybe_merge b s) in *.
  apply res_bind_Ok in Ha as (l & Hl & Ha). apply res_bind_Ok in Ha as (_ & _ & Ha).
  change (get_num_new_pages seq_lens (page_size m) prefix_lens)
    with (zsum (new_pages (page_size m) prefix_lens seq_lens)) in Ha.
  destruct (Z.ltb_spec (zlen (free_pages m)) (zsum (new_pages (page_size m) prefix_lens seq_lens)));
    [done|]. injection Ha as <- <-. exists b, m. repeat split; [done|].
  assert (Hpm : page_size m = page_size s) by apply maybe_merge_fields.
  pose proof (extend_request_batch s m used _ _ _ ltac:(lia) Hpm Hreq ltac:(lia)) as eb.
  unfold launch in Hl. rewrite extend_grid_ok in Hl; [by simplify_eq/=|done|done|].
  apply empty_len, zsum_nonneg, Forall_lookup_2. intros i x Hx.
  assert (Hi : (i < length prefix_lens)%nat).
  { apply lookup_lt_Some in Hx. unfold ext_lens in Hx. rewrite length_zip_with in Hx. lia. }
  rewrite (ext_lens_lookup _ _ _ _ _ eb i Hi) in Hx. simplify_eq.
  pose proof (eb_lens _ _ _ _ _ eb i Hi). lia.
Qed.

Lemma paged_decode_some s seq_lens last_loc out s' used :
  2 <= page_size s -> Forall (fun x => 1 <= x) seq_lens ->
  extend_request s used (map (fun x => x - 1) seq_lens) seq_lens last_loc ->
  paged_alloc_decode oob undef empty s seq_lens last_loc = Ok (Some out, s') ->
  let prefix_lens := map (fun x => x - 1) seq_lens in
  exists b m, m = maybe_merge b s
    /\ zsum (new_pages (page_size m) prefix_lens seq_lens) <= zlen (free_pages m)
    /\ out = extend_result (page_size m) prefix_lens seq_lens last_loc (free_pages m)
    /\ s' = set_pages m
         (py_from (free_pages m) (zsum (new_pages (page_size m) prefix_lens seq_lens)))
         (release_pages m).
Proof.
  intros Hps Hpos Hreq Ha prefix_lens. unfold paged_alloc_decode in Ha.
  apply res_bind_Ok in Ha as (_ & _ & Ha). cbv zeta in Ha.
  set (b := need_sort s && _) in Ha. fold (maybe_merge b s) in Ha. set (m := maybe_merge b s) in *.
  apply res_bind_Ok in Ha as (l & Hl & Ha). apply res_bind_Ok in Ha as (_ & _ & Ha).
  assert (Hpm : page_size m = page_size s) by apply maybe_merge_fields.
  rewrite new_pages_decode_eq in Ha by (done || lia).
  fold prefix_lens in Ha.
  destruct (Z.ltb_spec (zlen (free_pages m)) (zsum (new_pages (page_size m) prefix_lens seq_lens)));
    [done|]. injection Ha as <- <-. exists b, m. repeat split; [done|].
  assert (eb : extend_batch (page_size m) prefix_lens seq_lens last_loc (free_pages m))
    by (apply (extend_request_batch s m used); (done || lia)).
  unfold launch in Hl. rewrite decode_grid_ok in Hl; [by simplify_eq/=|done|done|].
  apply empty_len, zlen_nonneg.
Qed.

Lemma paged_step_owned c c' :
  paged_step c c' -> 0 < page_size c.1 -> paged_owned c.1 c.2 ->
  paged_owned c'.1 c'.2 /\ size c'.1 = size c.1 /\ page_size c'.1 = page_size c.1.
Proof.
  destruct 1 as [s u n out s' Hn Ha|s u n s' Ha|s u pl sl ll out s' Hr Ha|s u pl sl ll n k s' Ha
    |s u sl ll out s' Hp2 Hpos Hr Ha|s u sl ll s' Ha|s u idx rest s' Hg Hu Hf|s u idx s' Hg Hin Hf
    |s u Hg|s u s' Hg He|s u]; intros Hps Ho; simpl in *.
  - split; [by eapply paged_alloc_owned|]. unfold paged_alloc in Ha.
    apply res_bind_Ok in Ha as (_ & _ & Ha). cbv zeta in Ha.
    fold (maybe_merge (need_sort s && (zlen (free_pages s) <? n / page_size s)) s) in Ha.
    case_match; simplify_eq; simpl; split; apply maybe_merge_fields.
  - unfold paged_alloc in Ha. apply res_bind_Ok in Ha as (_ & _ & Ha). cbv zeta in Ha.
    fold (maybe_merge (need_sort s && (zlen (free_pages s) <? n / page_size s)) s) in Ha.
    case_match; simplify_eq. split; [by apply paged_owned_merge|]. split; apply maybe_merge_fields.
  - destruct (paged_extend_some _ _ _ _ _ _ _ Hps Hr Ha) as (b & m & Hm & Hk & -> & ->).
    split; [by eapply placement_owned|]. subst m. simpl. split; apply maybe_merge_fields.
  - unfold paged_alloc_extend in Ha. apply res_bind_Ok in Ha as (_ & _ & Ha). cbv zeta in Ha.
    set (b := need_sort s && _) in Ha. fold (maybe_merge b s) in Ha.
    apply res_bind_Ok in Ha as (l & _ & Ha). apply res_bind_Ok in Ha as (_ & _ & Ha).
    case_match; simplify_eq; (case_match; simplify_eq);
      (split; [by apply paged_owned_merge|split; apply maybe_merge_fields]).
  - destruct (paged_decode_some _ _ _ _ _ _ Hp2 Hpos Hr Ha) as (b & m & Hm & Hk & -> & ->).
    split; [by eapply placement_owned|]. subst m. simpl. split; apply maybe_merge_fields.
  - unfold paged_alloc_decode in Ha. apply res_bind_Ok in Ha as (_ & _ & Ha). cbv zeta in Ha.
    set (b := need_sort s && _) in Ha. fold (maybe_merge b s) in Ha.
    apply res_bind_Ok in Ha as (l & _ & Ha). apply res_bind_Ok in Ha as (_ & _ & Ha).
    case_match; simplify_eq. split; [by apply paged_owned_merge|split; apply maybe_merge_fields].
  - destruct (paged_free_pool _ _ _ Hg Hf) as (Hp & Hg' & Hs & Hpg). split; [|done].
    unfold paged_owned, paged_pending, num_pages in *. rewrite Hg, Hu in Ho.
    rewrite Hg', Hs, Hpg. rewrite app_assoc, Hp. rewrite <- Ho. clear. perm_solver.
  - split; [by eapply paged_free_group_owned|]. unfold paged_free in Hf. rewrite Hg in Hf.
    case_match; [by simplify_eq|]. by apply res_bind_Ok in Hf as (_ & _ & [= <-]).
  - unfold paged_owned, paged_pending in *. rewrite Hg in Ho. by split.
  - by eapply paged_group_end_owned.
  - unfold paged_owned, paged_pending; simpl. split; [|done]. by rewrite !app_nil_r.
Qed.

Lemma paged_reachable_owned size ps sort debug s used :
  0 < ps -> rtc paged_step (paged_init size ps sort debug, []) (s, used) ->
  paged_owned s used /\ num_pages s = size / ps.
Proof.
  intros Hps H. remember (paged_init size ps sort debug, []) as c0 eqn:H0.
  remember (s, used) as c eqn:Hc.
  assert (paged_owned c.1 c.2 /\ Allocator.size c.1 = size /\ page_size c.1 = ps) as Hgen.
  { assert (paged_owned c0.1 c0.2 /\ Allocator.size c0.1 = size /\ page_size c0.1 = ps) as Hinit.
    { subst c0. split; [|done]. unfold paged_owned, paged_pending; simpl. by rewrite !app_nil_r. }
    clear H0 Hc. induction H as [c|c1 c2 c3 Hs _ IH]; [done|]. apply IH.
    destruct Hinit as (Ho & Hz & Hp). rewrite <- Hz, <- Hp.
    apply paged_step_owned; [done|lia|done]. }
  subst c. destruct Hgen as (? & Hs & Hp). split; [done|]. unfold num_pages. simpl in *. by rewrite Hs, Hp.
Qed.
End PagedSteps.

(** ** Bounds for the 32-bit results of the NPU allocator *)

Lemma paged_owned_free_range s used p :
  paged_owned s used -> p ∈ free_pages s \/ p ∈ used -> 1 <= p <= num_pages s.
Proof.
  unfold paged_owned. intros Ho Hp.
  assert (p ∈ zrange 1 (num_pages s + 1)) as Hr%elem_of_zrange by (rewrite <- Ho, !elem_of_app; tauto). lia.
Qed.

Lemma slot_of_page_range ps n x : 0 < ps -> 1 <= x / ps <= n -> 0 <= x < n * ps + ps.
Proof.
  intros Hps Hx. pose proof (Z.div_mod x ps ltac:(lia)). pose proof (Z.mod_pos_bound x ps Hps). nia.
Qed.

(** The placement of a batch fits 32-bit indices when the pool does. *)
Lemma placement_int32 s m used prefix_lens seq_lens last_loc b :
  m = maybe_merge b s -> 0 < page_size s -> size s + page_size s <= 2 ^ 31 ->
  extend_request s used prefix_lens seq_lens last_loc ->
  zsum (new_pages (page_size m) prefix_lens seq_lens) <= zlen (free_pages m) ->
  paged_owned s used ->
  map to_int32 (extend_result (page_size m) prefix_lens seq_lens last_loc (free_pages m))
  = extend_result (page_size m) prefix_lens seq_lens last_loc (free_pages m).
Proof.
  intros Hm Hps Hsz Hreq Hk Ho. apply (paged_owned_merge b) in Ho. rewrite <- Hm in Ho.
  assert (Hpm : page_size m = page_size s) by (subst m; apply maybe_merge_fields).
  assert (Hsm : size m = size s) by (subst m; apply maybe_merge_fields).
  assert (eb : extend_batch (page_size m) prefix_lens seq_lens last_loc (free_pages m))
    by (apply (extend_request_batch s m used); (done || lia)).
  rewrite <- (map_id (extend_result _ _ _ _ _)) at 2. apply map_ext_in. intros x Hx.
  apply to_int32_small.
  assert (Hpg : 1 <= x / page_size m <= num_pages m).
  { apply (paged_owned_free_range _ used); [done|]. destruct Hreq as (_&_&_&Htail).
    assert (x / page_size m ∈ map (fun s => s / page_size m)
      (extend_result (page_size m) prefix_lens seq_lens last_loc (free_pages m))) as Hin.
    { by apply list_elem_of_In, (in_map (fun s => s / page_size m)). }
    apply (extend_result_pages_inv _ _ _ _ _ eb) in Hin as [Hin|(i & Hi & Ht & ->)].
    - left. rewrite <- (take_drop (Z.to_nat (zsum (new_pages (page_size m) prefix_lens seq_lens)))).
      apply elem_of_app. by left.
    - right. rewrite Hpm in *. by apply Htail.
    - intros i Hi Ht. rewrite Hpm in *. by apply Htail. }
  pose proof (slot_of_page_range (page_size m) (num_pages m) x ltac:(lia) Hpg).
  assert (num_pages m * page_size m <= size m).
  { unfold num_pages. rewrite Z.mul_comm. apply Z.mul_div_le. lia. }
  lia.
Qed.

(** *** Release lists are only used by sorting allocators *)

Definition release_only_sorted (s : allocator) : Prop := need_sort s = false -> release_pages s = [].

Lemma token_step_release c c' :
  token_step c c' -> release_only_sorted c.1 -> release_only_sorted c'.1.
Proof.
  unfold release_only_sorted, maybe_merge.
  destruct 1 as [s u n out s' Hn Ha|s u n s' Ha|s u idx rest s' Hu Hf|s u Hg|s u s' Hg He|s u];
    intros Hr; simpl in *; try done.
  - destruct (token_alloc_some _ _ _ _ Hn Ha) as (m & Hm & _ & _ & ->). simpl.
    destruct (maybe_merge_fields (need_sort s && (zlen (free_pages s) <? n)) s) as (_&_&Hns&_).
    rewrite <- Hm in Hns. rewrite Hns. intros Hs. subst m. rewrite Hs. by apply Hr.
  - destruct (token_alloc_none _ _ _ Ha) as [-> _].
    destruct (maybe_merge_fields (need_sort s && (zlen (free_pages s) <? n)) s) as (_&_&->&_).
    intros Hs. rewrite Hs. by apply Hr.
  - unfold token_free in Hf. repeat case_match; simplify_eq; simpl; auto. congruence.
  - unfold free_group_end, token_free in He. simpl in He.
    repeat case_match; simplify_eq; simpl in *; auto; congruence.
Qed.

Lemma token_reachable_release n sort c :
  rtc token_step (token_init n sort, []) c -> release_only_sorted c.1.
Proof.
  intros H. remember (token_init n sort, []) as c0 eqn:H0.
  assert (release_only_sorted c0.1) as Hi by by subst c0. clear H0.
  induction H as [c|c1 c2 c3 Hs _ IH]; [done|]. apply IH. by eapply token_step_release.
Qed.

(** ** The interface the caches rely on

    A pool from which a client holds whole pages; freeing slots returns the pages
    they touch.  [RadixCache] is verified against this interface. *)

Definition page_closed (ps : Z) (l : list Z) : Prop :=
  exists pages, NoDup pages /\ Permutation l (expand_pages ps pages).

(** [pages] are the pages touched by the slots [l]; with one slot per page, no slot
    is repeated. *)
Definition page_cover (ps : Z) (l pages : list Z) : Prop :=
  NoDup pages /\ (forall p, p ∈ pages <-> p ∈ map (fun s => s / ps) l) /\ (ps = 1 -> NoDup l).

Class KVPool (A : Type) : Type := {
  kv_page_size : A -> Z;
  kv_available : A -> Z;
  kv_free : A -> list Z -> res A;
  kv_owns : A -> list Z -> Prop;
  kv_free_ok : forall a l pages k,
    page_cover (kv_page_size a) l pages -> kv_owns a (expand_pages (kv_page_size a) pages ++ k) ->
    exists a', kv_free a l = Ok a' /\ kv_owns a' k
      /\ kv_page_size a' = kv_page_size a
      /\ kv_available a' = kv_available a + zlen pages * kv_page_size a;
  kv_owns_NoDup : forall a l, kv_owns a l -> NoDup l;
  kv_owns_perm : forall a l k, Permutation l k -> kv_owns a l -> kv_owns a k;
}.

Lemma expand_pages_one pages : expand_pages 1 pages = pages.
Proof.
  induction pages as [|p pages IH]; [done|]. unfold expand_pages in *.
  rewrite bind_cons, IH. simpl. f_equal. lia.
Qed.

Lemma expand_pages_perm ps l k :
  Permutation l k -> Permutation (expand_pages ps l) (expand_pages ps k).
Proof. intros H. unfold expand_pages. by rewrite H. Qed.

Lemma expand_pages_app ps l k :
  expand_pages ps (l ++ k) = expand_pages ps l ++ expand_pages ps k.
Proof. unfold expand_pages. apply bind_app. Qed.

Lemma zlen_expand_pages ps l : 0 <= ps -> zlen (expand_pages ps l) = zlen l * ps.
Proof.
  intros Hps. induction l as [|p l IH]; [done|]. unfold expand_pages in *.
  rewrite bind_cons, zlen_app, IH, zlen_map, zlen_zrange, zlen_cons; lia.
Qed.

Lemma pages_of_expand ps pages :
  0 < ps -> NoDup pages ->
  Permutation (tunique (map (fun s => s / ps) (expand_pages ps pages))) pages.
Proof.
  intros Hps Hnd. apply NoDup_same_perm; [apply NoDup_tunique|done|].
  intros x. rewrite elem_of_tunique. by apply page_of_expand.
Qed.

Lemma NoDup_expand_pages ps pages : 0 < ps -> NoDup pages -> NoDup (expand_pages ps pages).
Proof.
  intros Hps. induction 1 as [|p pages Hp Hnd IH]; [constructor|]. unfold expand_pages in *.
  rewrite bind_cons. apply NoDup_app. split_and!; [|intros s Hs Hin|done].
  - apply NoDup_fmap_2_strong; [intros; lia|apply NoDup_zrange].
  - apply Hp, (page_of_expand ps pages p Hps). apply list_elem_of_In, in_map_iff. exists s.
    split; [|by apply list_elem_of_In]. apply list_elem_of_In, in_map_iff in Hs as (o & <- & Ho).
    apply list_elem_of_In, elem_of_zrange in Ho. rewrite Z.div_add_l, Z.div_small by lia. lia.
Qed.

(** Slots that fill whole pages of an owned page set split off whole pages. *)
Lemma expand_split ps l k pages :
  0 < ps -> page_closed ps l -> NoDup pages -> Permutation (l ++ k) (expand_pages ps pages) ->
  exists p1 p2, NoDup p1 /\ Permutation l (expand_pages ps p1) /\ Permutation k (expand_pages ps p2)
    /\ Permutation pages (p1 ++ p2).
Proof.
  intros Hps (p1 & Hnd1 & Hl) Hnd Hp.
  assert (Hsub : p1 ⊆+ pages).
  { apply NoDup_submseteq; [done|]. intros x Hx.
    assert (x * ps ∈ expand_pages ps pages) as Hin.
    { rewrite <- Hp, elem_of_app, Hl. left. unfold expand_pages. apply list_elem_of_bind.
      exists x. split; [|done]. apply list_elem_of_In, in_map_iff. exists 0. split; [lia|].
      apply list_elem_of_In, elem_of_zrange. lia. }
    apply (page_of_expand ps); [done|]. apply list_elem_of_In, in_map_iff. exists (x * ps).
    split; [apply Z.div_mul; lia|by apply list_elem_of_In]. }
  apply submseteq_Permutation in Hsub as [p2 Hp2]. exists p1, p2. repeat split; [done..| |done].
  apply (Permutation_app_inv_l (expand_pages ps p1)).
  rewrite <- Hl at 1. rewrite Hp, <- expand_pages_app. by apply expand_pages_perm.
Qed.

Lemma all_unique_NoDup l : NoDup l -> all_unique l = true.
Proof.
  intros H. unfold all_unique. apply Z.eqb_eq, zlen_perm, NoDup_same_perm; [apply NoDup_tunique|done|].
  intros x. apply elem_of_tunique.
Qed.

(** The debug assertion of [free] never fires while pages are conserved. *)
Lemma paged_free_succeeds s used idx rest :
  is_not_in_free_group s = true -> paged_owned s used ->
  Permutation used (tunique (map (page_of s) idx) ++ rest) ->
  exists s', paged_free s idx = Ok s'.
Proof.
  intros Hg Ho Hu. unfold paged_free. case_match; [eauto|]. rewrite Hg.
  rewrite all_unique_NoDup; [rewrite orb_true_r; simpl; eauto|].
  unfold paged_owned, paged_pending in Ho. rewrite Hg, Hu in Ho. simpl in Ho.
  assert (Hnd : NoDup (free_pages s ++ release_pages s ++ tunique (map (page_of s) idx) ++ rest))
    by (rewrite Ho; apply NoDup_zrange).
  set (T := tunique _) in *. destruct (need_sort s); simpl.
  - by apply NoDup_app in Hnd as (? & _).
  - assert (Permutation (free_pages s ++ release_pages s ++ T ++ rest)
              ((T ++ free_pages s) ++ release_pages s ++ rest)) as Hperm by perm_solver.
    rewrite Hperm in Hnd. by apply NoDup_app in Hnd as (? & _).
Qed.

Lemma paged_free_available s idx s' used rest :
  0 < page_size s -> is_not_in_free_group s = true -> paged_owned s used ->
  Permutation used (tunique (map (page_of s) idx) ++ rest) -> paged_free s idx = Ok s' ->
  paged_owned s' rest /\ page_size s' = page_size s /\ is_not_in_free_group s' = true
  /\ available_size s' = available_size s + zlen (tunique (map (page_of s) idx)) * page_size s.
Proof.
  intros Hps Hg Ho Hu Hf. destruct (paged_free_pool _ _ _ Hg Hf) as (Hp & Hg' & Hs & Hpg).
  repeat split; [|done|done|].
  - unfold paged_owned, paged_pending, num_pages in *. rewrite Hg, Hu in Ho.
    rewrite Hg', Hs, Hpg, app_assoc, Hp, <- Ho. clear. perm_solver.
  - unfold available_size. rewrite Hpg. apply zlen_perm in Hp. rewrite !zlen_app in Hp. nia.
Qed.

Lemma token_free_release s l s' : token_free s l = Ok s' -> release_only_sorted s -> release_only_sorted s'.
Proof.
  unfold token_free, release_only_sorted. intros Hf Hr. repeat case_match; simplify_eq; simpl; congruence || tauto.
Qed.

Lemma paged_free_fields s l s' : paged_free s l = Ok s' ->
  (release_only_sorted s -> release_only_sorted s') /\ debug_mode s' = debug_mode s.
Proof.
  unfold paged_free, release_only_sorted. intros Hf.
  destruct (zlen l =? 0); [by simplify_eq|]. cbv zeta in Hf. apply res_bind_Ok in Hf as (u & _ & Hf). simplify_eq.
  destruct (is_not_in_free_group s), (need_sort s) eqn:E; simpl; rewrite ?E; done.
Qed.

(** The token allocator, outside free groups. *)
#[export] Program Instance token_pool : KVPool allocator := {
  kv_page_size _ := 1;
  kv_available := token_available_size;
  kv_free := token_free;
  kv_owns s u := token_owned s u /\ is_not_in_free_group s = true /\ release_only_sorted s;
}.
Next Obligation.
  intros s l pages k (Hnd & Hin & Hl) (Ho & Hg & Hrs). simpl in *. rewrite expand_pages_one in Ho.
  assert (Permutation l pages) as HP.
  { apply NoDup_same_perm; [by apply Hl|done|]. intros x. rewrite Hin.
    rewrite (map_ext _ id) by (intros; apply Z.div_1_r). by rewrite map_id. }
  assert (token_owned s (l ++ k)) as Ho' by (unfold token_owned in *; by rewrite HP).
  assert (Hf : exists s', token_free s l = Ok s') by (unfold token_free; repeat case_match; eauto).
  destruct Hf as [s' Hf]. exists s'. destruct (token_free_pool _ _ _ Hg Hf) as (Hp & Hg' & _).
  split_and!; [done|by eapply token_free_owned|done|by eapply token_free_release|done|].
  unfold token_available_size. apply zlen_perm in Hp, HP. rewrite !zlen_app in Hp. lia.
Qed.
Next Obligation.
  intros s l [Ho _]. simpl in Ho. unfold token_owned in Ho.
  assert (NoDup (free_pages s ++ release_pages s ++ pending s ++ l)) as H
    by (rewrite Ho; apply NoDup_zrange). by do 3 apply NoDup_app in H as (_ & _ & H).
Qed.
Next Obligation. intros s l k Hlk [Ho Hg]. unfold token_owned in *. by rewrite <- Hlk. Qed.

(** The paged allocator, outside free groups: clients hold whole pages. *)
#[export] Program Instance paged_pool : KVPool allocator | 100 := {
  kv_page_size s := page_size s;
  kv_available := available_size;
  kv_free := paged_free;
  kv_owns s u := exists pages, Permutation u (expand_pages (page_size s) pages)
    /\ paged_owned s pages /\ is_not_in_free_group s = true /\ 0 < page_size s
    /\ release_only_sorted s /\ debug_mode s = false;
}.
Next Obligation.
  intros s l p1' k (Hn1' & Hin & _) (pages & Hu & Ho & Hg & Hps & Hrs & Hdb). simpl in *.
  assert (Hnd : NoDup pages).
  { assert (NoDup (free_pages s ++ release_pages s ++ paged_pending s ++ pages)) as H
      by (rewrite Ho; apply NoDup_zrange). by do 3 apply NoDup_app in H as (_ & _ & H). }
  assert (page_closed (page_size s) (expand_pages (page_size s) p1')) as Hl by by exists p1'.
  destruct (expand_split _ _ _ _ Hps Hl Hnd Hu) as (p1 & p2 & Hn1 & Hl1 & Hk & Hp12).
  assert (Permutation p1' p1) as Hp1.
  { rewrite <- (pages_of_expand (page_size s) p1 Hps Hn1), <- (pages_of_expand (page_size s) p1' Hps Hn1').
    apply NoDup_same_perm; [apply NoDup_tunique..|]. intros x. rewrite !elem_of_tunique. by rewrite Hl1. }
  assert (Hpg : Permutation (tunique (map (page_of s) l)) p1).
  { rewrite <- Hp1. apply NoDup_same_perm; [apply NoDup_tunique|done|]. intros x. rewrite elem_of_tunique.
    by rewrite Hin. }
  assert (Hused : Permutation pages (tunique (map (page_of s) l) ++ p2)) by by rewrite Hpg.
  destruct (paged_free_succeeds _ _ _ _ Hg Ho Hused) as [s' Hf]. exists s'.
  destruct (paged_free_available _ _ _ _ _ Hps Hg Ho Hused Hf) as (Ho' & Hps' & Hg' & Hav).
  destruct (paged_free_fields _ _ _ Hf) as [Hrs' Hdb'].
  split_and!; [done| |done|].
  - exists p2. rewrite Hps', Hdb'. split_and!; [done..|lia|by apply Hrs'|done].
  - rewrite Hav. apply zlen_perm in Hpg, Hp1. nia.
Qed.
Next Obligation.
  intros s l (pages & Hu & Ho & Hg & Hps & _). simpl in *. rewrite Hu. apply NoDup_expand_pages; [done|].
  assert (NoDup (free_pages s ++ release_pages s ++ paged_pending s ++ pages)) as H
    by (rewrite Ho; apply NoDup_zrange). by do 3 apply NoDup_app in H as (_ & _ & H).
Qed.
Next Obligation. intros s l k Hlk (pages & Hu & H). exists pages. by rewrite <- Hlk. Qed.

(** Freeing slots that fill whole pages. *)
Lemma page_closed_cover ps l pages :
  0 < ps -> NoDup pages -> Permutation l (expand_pages ps pages) -> page_cover ps l pages.
Proof.
  intros Hps Hnd HP. split_and!; [done| |].
  - intros x. rewrite HP. symmetry. by apply page_of_expand.
  - intros ->. rewrite HP, expand_pages_one. done.
Qed.

Lemma kv_free_closed `{KVPool A} a l k :
  0 < kv_page_size a -> page_closed (kv_page_size a) l -> kv_owns a (l ++ k) ->
  exists a', kv_free a l = Ok a' /\ kv_owns a' k
    /\ kv_page_size a' = kv_page_size a /\ kv_available a' = kv_available a + zlen l.
Proof.
  intros Hps (pages & Hnd & HP) Ho.
  destruct (kv_free_ok a l pages k (page_closed_cover _ _ _ Hps Hnd HP)) as (a' & H1 & H2 & H3 & H4).
  { eapply kv_owns_perm; [|exact Ho]. by rewrite HP. }
  exists a'. split_and!; [done..|]. rewrite H4. apply zlen_perm in HP. rewrite zlen_expand_pages in HP by lia. lia.
Qed.

(** ** Decode on the NPU *)

Lemma gather_nth t idx :
  Forall (fun i => 0 <= i < zlen t) idx ->
  gather t idx = Ok (map (fun i => nth (Z.to_nat i) t 0) idx).
Proof.
  induction 1 as [|i idx Hi _ IH]; [done|]. simpl.
  destruct (lookup_lt_is_Some_2 t (Z.to_nat i)) as [x Hx]; [unfold zlen in Hi; lia|].
  rewrite (tensor_at_in t i x), IH by (lia || done). simpl. by rewrite (nth_lookup_Some _ _ 0 _ Hx).
Qed.

Lemma gather_fails {A} (t : list A) idx i : i ∈ idx -> i = zlen t -> gather t idx = Raise IndexError.
Proof.
  intros Hin ->. induction idx as [|j idx IH]; [by apply not_elem_of_nil in Hin|].
  apply elem_of_cons in Hin as [<-|Hin]; simpl.
  - pose proof (zlen_nonneg t). unfold tensor_at, wrap_index. destruct (Z.ltb_spec (zlen t) 0); [lia|].
    by rewrite Z.ltb_irrefl, andb_false_r.
  - unfold tensor_at. destruct (wrap_index _ j); [destruct (t !! n)|]; simpl; [by rewrite IH|done..].
Qed.

Definition needs_page (ps : Z) (seq_lens : list Z) : list Z :=
  map (fun x => if x mod ps =? 1 then 1 else 0) seq_lens.

Lemma start_new_pages_lookup l i x :
  l !! i = Some x -> zip_with Z.sub (cumsum l) l !! i = Some (zsum (take i l)).
Proof.
  intros Hx. rewrite lookup_zip_with, (cumsum_lookup _ _ _ Hx), Hx. simpl. f_equal. lia.
Qed.

Lemma needs_page_nonneg ps l : Forall (fun x => 0 <= x) (needs_page ps l).
Proof. apply Forall_forall. intros x. unfold needs_page. rewrite list_elem_of_In, in_map_iff.
  intros (y & <- & _). case_match; lia. Qed.

Lemma needs_page_new_pages ps seq_lens :
  2 <= ps -> Forall (fun s => 1 <= s) seq_lens ->
  needs_page ps seq_lens = new_pages ps (map (fun s => s - 1) seq_lens) seq_lens.
Proof.
  intros Hps Hpos. unfold needs_page, new_pages. induction Hpos as [|s l Hs Hl IH]; [done|].
  cbn [map zip_with]. rewrite IH. f_equal.
  pose proof (new_pages_decode_eq ps [s] Hps ltac:(by constructor)) as H.
  unfold get_num_new_pages_decode, new_pages in H. cbn [map zip_with] in H.
  rewrite !zsum_cons, zsum_nil in H. lia.
Qed.

(** One element of the result of [alloc_decode] on the NPU. *)
Lemma npu_decode_elem ps seq_lens last_loc free i :
  2 <= ps -> Forall (fun s => 1 <= s) seq_lens -> (i < length seq_lens)%nat ->
  let need := nth i (needs_page ps seq_lens) 0 in
  let page := nth (Z.to_nat (zsum (take i (needs_page ps seq_lens)))) free 0 in
  (nth i last_loc 0 + 1) * (1 - need) + page * ps * need
  = token_loc ps (map (fun s => s - 1) seq_lens) seq_lens last_loc free i (nth i seq_lens 0 - 1).
Proof.
  intros Hps Hpos Hi. cbv zeta. unfold token_loc, npages.
  rewrite nth_pred, <- needs_page_new_pages by done.
  assert (nth i (needs_page ps seq_lens) 0 = if nth i seq_lens 0 mod ps =? 1 then 1 else 0) as ->.
  { apply nth_lookup_Some. unfold needs_page. by rewrite list_lookup_fmap, lookup_nth by done. }
  assert (Hs : 1 <= nth i seq_lens 0).
  { rewrite Forall_forall in Hpos. apply Hpos. apply list_elem_of_In, nth_In. done. }
  set (sq := nth i seq_lens 0) in *. rewrite ceil_floor_div by lia.
  pose proof (Z.div_mod sq ps ltac:(lia)). pose proof (Z.mod_pos_bound sq ps ltac:(lia)).
  pose proof (Z.div_mod (sq - 1) ps ltac:(lia)). pose proof (Z.mod_pos_bound (sq - 1) ps ltac:(lia)).
  pose proof (pred_mod sq ps Hps) as Hiff.
  destruct (Z.eqb_spec (sq mod ps) 1) as [E1|E1], (Z.eqb_spec ((sq - 1) mod ps) 0) as [E2|E2];
    try (exfalso; tauto).
  - destruct (Z.ltb_spec (sq - 1) (((sq - 1) / ps + 0) * ps)); [nia|].
    rewrite E2. replace (zsum _ + ((sq - 1) / ps - ((sq - 1) / ps + 0)))
      with (zsum (take i (needs_page ps seq_lens))) by lia. lia.
  - destruct (Z.ltb_spec (sq - 1) (((sq - 1) / ps + 1) * ps)); [lia|nia].
Qed.

Lemma decode_result_map ps seq_lens last_loc free :
  extend_result ps (map (fun s => s - 1) seq_lens) seq_lens last_loc free
  = map (fun i => token_loc ps (map (fun s => s - 1) seq_lens) seq_lens last_loc free i
                    (nth i seq_lens 0 - 1)) (seq 0 (length seq_lens)).
Proof.
  unfold extend_result, extend_segs. rewrite length_map.
  assert (forall l, Forall (fun i => (i < length seq_lens)%nat) l ->
    concat (map (extend_seg ps (map (fun s => s - 1) seq_lens) seq_lens last_loc free) l)
    = map (fun i => token_loc ps (map (fun s => s - 1) seq_lens) seq_lens last_loc free i
                      (nth i seq_lens 0 - 1)) l) as H.
  { induction 1 as [|i l Hi _ IH]; [done|]. simpl. by rewrite decode_seg, IH. }
  apply H. apply Forall_forall. intros i Hi%elem_of_seq. lia.
Qed.

Lemma npu_decode_list ps seq_lens last_loc free :
  2 <= ps -> Forall (fun s => 1 <= s) seq_lens -> length last_loc = length seq_lens ->
  let need := needs_page ps seq_lens in
  zip_with Z.add
    (zip_with (fun l n => (l + 1) * (1 - n)) last_loc need)
    (zip_with (fun p n => p * ps * n)
       (map (fun i => nth (Z.to_nat i) free 0) (zip_with Z.sub (cumsum need) need)) need)
  = extend_result ps (map (fun s => s - 1) seq_lens) seq_lens last_loc free.
Proof.
  intros Hps Hpos Hll need. rewrite decode_result_map.
  assert (Hn : length need = length seq_lens) by (unfold need, needs_page; by rewrite length_map).
  apply list_eq. intros i. rewrite list_lookup_fmap.
  destruct (decide (i < length seq_lens)%nat) as [Hi|Hi].
  - rewrite lookup_seq_lt by done. simpl. rewrite <- npu_decode_elem by done. fold need.
    rewrite !lookup_zip_with, list_lookup_fmap, (lookup_nth last_loc), (lookup_nth need) by lia.
    simpl.
    rewrite (start_new_pages_lookup _ _ _ (lookup_nth need i ltac:(lia))). simpl.
    done.
  - rewrite (lookup_ge_None_2 (seq 0 _)) by (rewrite length_seq; lia).
    rewrite lookup_zip_with, (lookup_zip_with _ last_loc), (lookup_ge_None_2 last_loc) by lia. done.
Qed.

Lemma zsum_zero_all l : Forall (fun x => 0 <= x) l -> zsum l = 0 -> Forall (fun x => x = 0) l.
Proof.
  induction 1 as [|x l Hx Hl IH]; intros Hz; [constructor|]. rewrite zsum_cons in Hz.
  pose proof (zsum_nonneg _ Hl). constructor; [lia|]. apply IH. lia.
Qed.

(** With no new page the result is [last_loc + 1] for every request. *)
Lemma npu_decode_no_page ps seq_lens last_loc free :
  2 <= ps -> Forall (fun s => 1 <= s) seq_lens -> length last_loc = length seq_lens ->
  zsum (needs_page ps seq_lens) = 0 ->
  map (fun l => l + 1) last_loc
  = extend_result ps (map (fun s => s - 1) seq_lens) seq_lens last_loc free.
Proof.
  intros Hps Hpos Hll Hz. rewrite decode_result_map. apply list_eq. intros i.
  rewrite !list_lookup_fmap. destruct (decide (i < length seq_lens)%nat) as [Hi|Hi].
  - rewrite lookup_seq_lt, lookup_nth by lia. simpl. rewrite <- npu_decode_elem by done.
    pose proof (zsum_zero_all _ (needs_page_nonneg ps seq_lens) Hz) as Hall.
    rewrite Forall_forall in Hall. rewrite (Hall (nth i (needs_page ps seq_lens) 0)); [f_equal; lia|].
    apply list_elem_of_In, nth_In. unfold needs_page. by rewrite length_map.
  - rewrite !lookup_ge_None_2 by (rewrite ?length_seq; lia). done.
Qed.

(** The start offsets of the gather stay below the number of new pages. *)
Lemma start_new_pages_range l :
  Forall (fun x => 0 <= x) l ->
  Forall (fun i => 0 <= i <= zsum l) (zip_with Z.sub (cumsum l) l).
Proof.
  intros Hnn. apply Forall_lookup_2. intros i x Hx.
  destruct (l !! i) as [y|] eqn:Hy.
  - rewrite (start_new_pages_lookup _ _ _ Hy) in Hx. simplify_eq. by apply zsum_take_nonneg.
  - rewrite lookup_zip_with, Hy in Hx. by destruct (cumsum l !! i).
Qed.

(** ** Properties *)

(** slots are conserved by [TokenToKVPoolAllocator].  After any sequence of
    allocations, frees, free groups and clears, every slot [1..size] is in exactly
    one place; slots held by clients are distinct, are never the padding slot 0,
    and account for everything that is not available. *)
Theorem token_pool_conserved n sort s used
    (Hreach : rtc token_step (token_init n sort, []) (s, used)) (Hn : 0 <= n) :
  Permutation (free_pages s ++ release_pages s ++ pending s ++ used) (zrange 1 (n + 1))
  /\ NoDup used /\ Forall (fun i => 1 <= i <= n) used
  /\ token_available_size s + zlen (pending s) + zlen used = n.
Proof.
  destruct (token_reachable_owned _ _ _ _ Hreach) as [Ho Hs]. unfold token_owned in Ho.
  rewrite Hs in Ho. split; [done|]. repeat split.
  - assert (Hnd : NoDup (free_pages s ++ release_pages s ++ pending s ++ used))
      by (rewrite Ho; apply NoDup_zrange). by do 3 apply NoDup_app in Hnd as (_ & _ & Hnd).
  - apply Forall_forall. intros i Hi.
    assert (i ∈ zrange 1 (n + 1)) as Hr%elem_of_zrange by (rewrite <- Ho, !elem_of_app; tauto). lia.
  - apply zlen_perm in Ho. rewrite !zlen_app, zlen_zrange in Ho by lia.
    unfold token_available_size. lia.
Qed.


(** in every reachable state [alloc] of the token allocator fails exactly when
    fewer slots than requested are available; a failure changes nothing but the
    order of the free list. *)
Theorem token_alloc_fails_iff n sort s used k
    (Hreach : rtc token_step (token_init n sort, []) (s, used)) (Hk : 0 <= k) :
  ((token_alloc s k).1 = None <-> token_available_size s < k)
  /\ ((token_alloc s k).1 = None ->
      Permutation (free_pages (token_alloc s k).2 ++ release_pages (token_alloc s k).2)
        (free_pages s ++ release_pages s)).
Proof.
  pose proof (token_reachable_release _ _ _ Hreach) as Hr. simpl in Hr.
  destruct (token_alloc s k) as [[out|] s'] eqn:Ha; simpl.
  - split; [|done]. split; [done|]. intros Hlt.
    destruct (token_alloc_some _ _ _ _ Hk Ha) as (m & Hm & Hf & Hlen & _).
    pose proof (maybe_merge_perm (need_sort s && (zlen (free_pages s) <? k)) s) as Hp.
    rewrite <- Hm in Hp. apply zlen_perm in Hp. rewrite !zlen_app, Hf, zlen_app in Hp.
    unfold token_available_size in Hlt. pose proof (zlen_nonneg (free_pages s')).
    pose proof (zlen_nonneg (release_pages m)). lia.
  - destruct (token_alloc_none _ _ _ Ha) as [-> Hlt]. split; [|intros _; apply maybe_merge_perm].
    split; [intros _|done]. unfold token_available_size. unfold maybe_merge in Hlt.
    destruct (need_sort s) eqn:Hs; simpl in Hlt.
    + destruct (Z.ltb_spec (zlen (free_pages s)) k) as [Hl|Hl]; [|lia].
      unfold merge_and_sort_free in Hlt. destruct (Z.ltb_spec 0 (zlen (release_pages s))).
      * simpl in Hlt. rewrite (zlen_perm _ _ (tsort_perm _)), zlen_app in Hlt. lia.
      * pose proof (zlen_nonneg (release_pages s)). lia.
    + rewrite (Hr Hs). unfold zlen in *; simpl. lia.
Qed.

Lemma paged_alloc_extend_ok oob undef empty s used prefix_lens seq_lens last_loc
    (Hempty : forall n, 0 <= n -> zlen (empty n) = n)
    (Hps : 0 < page_size s) (Hdebug : debug_mode s = false)
    (Hreq : extend_request s used prefix_lens seq_lens last_loc) :
  let n := zsum (ext_lens prefix_lens seq_lens) in
  let m := maybe_merge (need_sort s
             && (zlen (free_pages s) <? n / page_size s + zlen prefix_lens + 1)) s in
  let k := get_num_new_pages seq_lens (page_size s) prefix_lens in
  paged_alloc_extend oob undef empty s prefix_lens seq_lens last_loc n None
  = if zlen (free_pages m) <? k then Ok (None, m)
    else Ok (Some (extend_result (page_size s) prefix_lens seq_lens last_loc (free_pages m)),
             set_pages m (py_from (free_pages m) k) (release_pages m)).
Proof.
  intros n m k. unfold paged_alloc_extend. rewrite Hdebug. simpl.
  change (if need_sort s && (zlen (free_pages s) <? n / page_size s + zlen prefix_lens + 1)
          then merge_and_sort_free s else s) with m.
  assert (Hpm : page_size m = page_size s) by apply maybe_merge_fields.
  assert (Hdm : debug_mode m = false) by (rewrite <- Hdebug; apply maybe_merge_fields).
  rewrite Hdm, Hpm. simpl. fold k.
  destruct Hreq as (Hsl & Hll & Hlens & Htail).
  assert (Hout : zlen (empty n) = zsum (ext_lens prefix_lens seq_lens)).
  { apply Hempty, zsum_nonneg, Forall_lookup_2. intros i x Hx. unfold ext_lens in Hx.
    rewrite lookup_zip_with in Hx.
    destruct (seq_lens !! i) as [a|] eqn:Ha; [|done].
    destruct (prefix_lens !! i) as [b|] eqn:Hb; [|done]. simplify_eq/=.
    pose proof (Hlens i ltac:(by eapply lookup_lt_Some)) as H.
    rewrite (nth_lookup_Some _ _ _ _ Ha), (nth_lookup_Some _ _ _ _ Hb) in H. lia. }
  unfold launch. destruct (Z.ltb_spec (zlen (free_pages m)) k).
  - destruct (extend_grid_total oob undef (page_size s) prefix_lens seq_lens last_loc (free_pages m)
      (zrange 0 (zlen prefix_lens)) (empty n)) as [l Hl]; try done. by rewrite Hl.
  - rewrite extend_grid_ok; [done|split; try done; fold k; done|done|done].
Qed.

(** [alloc_extend] on every branch.  Outside debug mode it returns [None] and
    leaves the (merged) pool alone when the new pages do not fit, although the
    kernel has already run; otherwise it returns the reference placement and
    removes exactly the new pages from the free list. *)
Theorem paged_alloc_extend_spec oob undef empty s used prefix_lens seq_lens last_loc
    (Hempty : forall n, 0 <= n -> zlen (empty n) = n)
    (Hps : 0 < page_size s) (Hdebug : debug_mode s = false)
    (Hreq : extend_request s used prefix_lens seq_lens last_loc) :
  let n := zsum (ext_lens prefix_lens seq_lens) in
  let m := maybe_merge (need_sort s
             && (zlen (free_pages s) <? n / page_size s + zlen prefix_lens + 1)) s in
  let k := get_num_new_pages seq_lens (page_size s) prefix_lens in
  paged_alloc_extend oob undef empty s prefix_lens seq_lens last_loc n None
  = if zlen (free_pages m) <? k then Ok (None, m)
    else Ok (Some (extend_result (page_size s) prefix_lens seq_lens last_loc (free_pages m)),
             set_pages m (py_from (free_pages m) k) (release_pages m)).
Proof. exact (paged_alloc_extend_ok oob undef empty s used prefix_lens seq_lens last_loc Hempty Hps Hdebug Hreq). Qed.

Lemma npu_alloc_extend_ok oob undef empty s used prefix_lens seq_lens last_loc
    (Hempty : forall n, 0 <= n -> zlen (empty n) = n)
    (Hps : 0 < page_size s) (Hdebug : debug_mode s = false)
    (Hsize : size s + page_size s <= 2 ^ 31)
    (Howned : paged_owned s used)
    (Hreq : extend_request s used prefix_lens seq_lens last_loc) :
  let n := zsum (ext_lens prefix_lens seq_lens) in
  let k := get_num_new_pages seq_lens (page_size s) prefix_lens in
  let m := maybe_merge (need_sort s && (zlen (free_pages s) <? k)) s in
  k <= zlen (free_pages m) ->
  npu_alloc_extend oob undef empty s prefix_lens seq_lens last_loc n None
  = Ok (Some (extend_result (page_size s) prefix_lens seq_lens last_loc (free_pages m)),
        set_pages m (py_from (free_pages m) k) (release_pages m)).
Proof.
  intros n k m Hk. unfold npu_alloc_extend. rewrite Hdebug. cbn [negb orb py_assert res_bind].
  assert (zsum (zip_with Z.sub (map (fun x => (x + (page_size s - 1)) / page_size s) seq_lens)
            (map (fun x => (x + (page_size s - 1)) / page_size s) prefix_lens)) = k) as ->.
  { unfold k, get_num_new_pages. f_equal. f_equal; apply map_ext; intros; f_equal; lia. }
  cbv zeta. fold (maybe_merge (need_sort s && (zlen (free_pages s) <? k)) s). fold m.
  assert (Hpm : page_size m = page_size s) by apply maybe_merge_fields.
  assert (Hdm : debug_mode m = false) by (rewrite <- Hdebug; apply maybe_merge_fields).
  destruct (Z.ltb_spec (zlen (free_pages m)) k); [lia|].
  assert (eb : extend_batch (page_size m) prefix_lens seq_lens last_loc (free_pages m)).
  { apply (extend_request_batch s m used); [lia|done|done|]. rewrite Hpm. done. }
  assert (Hout : zlen (empty n) = zsum (ext_lens prefix_lens seq_lens)).
  { rewrite <- (zlen_extend_result _ _ _ _ _ eb).
    rewrite Hempty; unfold n; rewrite <- (zlen_extend_result _ _ _ _ _ eb); [done|apply zlen_nonneg]. }
  pose proof (placement_int32 s m used prefix_lens seq_lens last_loc _ eq_refl Hps Hsize Hreq
                ltac:(rewrite Hpm; done) Howned) as Hint.
  assert ((if k <? 200
           then launch (zlen prefix_lens)
                  (npu_alloc_extend_kernel oob undef prefix_lens seq_lens last_loc (free_pages m)
                     (next_power_of_2 (zlen prefix_lens)) (page_size m) (next_power_of_2 n)) (empty n)
           else option_map (map to_int32)
                  (alloc_extend_naive prefix_lens seq_lens last_loc (free_pages m) (empty n) (page_size m)))
          = Some (extend_result (page_size m) prefix_lens seq_lens last_loc (free_pages m))) as ->.
  { destruct (k <? 200).
    - unfold launch. replace n with (zlen (empty n)) at 1 by (rewrite Hout; done).
      by apply npu_extend_grid_ok.
    - rewrite (naive_run _ _ _ _ _ eb) by done. simpl. by rewrite Hint. }
  simpl. rewrite Hdm. simpl. by rewrite Hint, Hpm.
Qed.

(** [alloc_extend] on the NPU.  When the pool is small enough for 32-bit
    indices ([size + page_size <= 2^31]) and the new pages fit, both of its
    branches (kernel and fallback) return the reference placement with no index
    truncated. *)
Theorem npu_alloc_extend_spec oob undef empty s used prefix_lens seq_lens last_loc
    (Hempty : forall n, 0 <= n -> zlen (empty n) = n)
    (Hps : 0 < page_size s) (Hdebug : debug_mode s = false)
    (Hsize : size s + page_size s <= 2 ^ 31)
    (Howned : paged_owned s used)
    (Hreq : extend_request s used prefix_lens seq_lens last_loc) :
  let n := zsum (ext_lens prefix_lens seq_lens) in
  let k := get_num_new_pages seq_lens (page_size s) prefix_lens in
  let m := maybe_merge (need_sort s && (zlen (free_pages s) <? k)) s in
  k <= zlen (free_pages m) ->
  npu_alloc_extend oob undef empty s prefix_lens seq_lens last_loc n None
  = Ok (Some (extend_result (page_size s) prefix_lens seq_lens last_loc (free_pages m)),
        set_pages m (py_from (free_pages m) k) (release_pages m)).
Proof. exact (npu_alloc_extend_ok oob undef empty s used prefix_lens seq_lens last_loc Hempty Hps Hdebug Hsize Howned Hreq). Qed.

Lemma npu_alloc_decode_ok s used seq_lens last_loc
    (Hps : 2 <= page_size s) (Hdebug : debug_mode s = false)
    (Hsize : size s + page_size s <= 2 ^ 31) (Howned : paged_owned s used)
    (Hpos : Forall (fun x => 1 <= x) seq_lens)
    (Hreq : extend_request s used (map (fun x => x - 1) seq_lens) seq_lens last_loc) :
  let k := get_num_new_pages_decode seq_lens (page_size s) in
  let m := maybe_merge (zlen (free_pages s) <? k) s in
  k = 0 \/ k < zlen (free_pages m) ->
  npu_alloc_decode s seq_lens last_loc
  = Ok (Some (extend_result (page_size s) (map (fun x => x - 1) seq_lens) seq_lens last_loc
                (free_pages m)),
        set_pages m (py_from (free_pages m) k) (release_pages m)).
Proof.
  intros k m Hk. unfold npu_alloc_decode. rewrite Hdebug. cbn [negb orb py_assert res_bind].
  cbv zeta. fold k. fold (maybe_merge (zlen (free_pages s) <? k) s). fold m.
  assert (Hpm : page_size m = page_size s) by apply maybe_merge_fields.
  assert (Hdm : debug_mode m = false) by (rewrite <- Hdebug; apply maybe_merge_fields).
  assert (Hkz : k = zsum (needs_page (page_size s) seq_lens)) by done.
  pose proof (zsum_nonneg _ (needs_page_nonneg (page_size s) seq_lens)).
  pose proof (zlen_nonneg (free_pages m)).
  destruct (Z.ltb_spec (zlen (free_pages m)) k); [lia|].
  assert (Hll : length last_loc = length seq_lens).
  { destruct Hreq as (_ & Hl & _). by rewrite length_map in Hl. }
  assert (Hnew : zsum (new_pages (page_size m) (map (fun x => x - 1) seq_lens) seq_lens)
                 <= zlen (free_pages m)).
  { rewrite Hpm, <- needs_page_new_pages by done. lia. }
  pose proof (placement_int32 s m used _ _ _ _ eq_refl ltac:(lia) Hsize Hreq Hnew Howned) as Hint.
  fold (needs_page (page_size m) seq_lens). rewrite Hpm in *.
  set (out := extend_result _ _ _ _ _) in *.
  assert ((if k =? 0 then Ok (map (fun l => l + 1) last_loc)
           else
             let* pages := gather (free_pages m)
               (zip_with Z.sub (cumsum (needs_page (page_size s) seq_lens))
                  (needs_page (page_size s) seq_lens)) in
             Ok (zip_with Z.add
                   (zip_with (fun l n => (l + 1) * (1 - n)) last_loc (needs_page (page_size s) seq_lens))
                   (zip_with (fun p n => p * page_size s * n) pages (needs_page (page_size s) seq_lens))))
          = Ok out) as ->.
  { destruct (Z.eqb_spec k 0).
    - f_equal. apply npu_decode_no_page; auto; lia.
    - rewrite gather_nth; simpl.
      + f_equal. by apply npu_decode_list.
      + eapply Forall_impl; [apply start_new_pages_range, needs_page_nonneg|].
        intros i Hi. simpl in Hi. lia. }
  simpl. rewrite Hdm. simpl. by rewrite Hint.
Qed.

(** [alloc_decode] on the NPU returns the same placement as the kernel when
    no page is needed or when the needed pages do not exhaust the free list. *)
Theorem npu_alloc_decode_spec s used seq_lens last_loc
    (Hps : 2 <= page_size s) (Hdebug : debug_mode s = false)
    (Hsize : size s + page_size s <= 2 ^ 31) (Howned : paged_owned s used)
    (Hpos : Forall (fun x => 1 <= x) seq_lens)
    (Hreq : extend_request s used (map (fun x => x - 1) seq_lens) seq_lens last_loc) :
  let k := get_num_new_pages_decode seq_lens (page_size s) in
  let m := maybe_merge (zlen (free_pages s) <? k) s in
  k = 0 \/ k < zlen (free_pages m) ->
  npu_alloc_decode s seq_lens last_loc
  = Ok (Some (extend_result (page_size s) (map (fun x => x - 1) seq_lens) seq_lens last_loc
                (free_pages m)),
        set_pages m (py_from (free_pages m) k) (release_pages m)).
Proof. exact (npu_alloc_decode_ok s used seq_lens last_loc Hps Hdebug Hsize Howned Hpos Hreq). Qed.

(** C38: when the needed pages are exactly the free pages and a request after
    them needs none, [alloc_decode] on the NPU does not return a batch although
    the pages suffice: its gather indexes one past the free list. *)
Theorem npu_alloc_decode_exhausted s seq_lens last_loc
    (Hdebug : debug_mode s = false)
    (Hfull : get_num_new_pages_decode seq_lens (page_size s) = zlen (free_pages s))
    (Hsome : 0 < zlen (free_pages s))
    (Hlast : exists xs x, seq_lens = xs ++ [x] /\ x mod page_size s <> 1) :
  npu_alloc_decode s seq_lens last_loc = Raise IndexError.
Proof.
  unfold npu_alloc_decode. rewrite Hdebug. cbn [negb orb py_assert res_bind]. cbv zeta.
  rewrite Hfull. destruct (Z.ltb_spec (zlen (free_pages s)) (zlen (free_pages s))); [lia|].
  destruct (Z.ltb_spec (zlen (free_pages s)) (zlen (free_pages s))); [lia|].
  destruct (Z.eqb_spec (zlen (free_pages s)) 0); [lia|].
  fold (needs_page (page_size s) seq_lens). destruct Hlast as (xs & x & -> & Hx).
  rewrite (gather_fails _ _ (zlen (free_pages s))); [done| |done].
  assert (Hn : needs_page (page_size s) (xs ++ [x]) = needs_page (page_size s) xs ++ [0]).
  { unfold needs_page. rewrite map_app. simpl. do 2 f_equal.
    destruct (Z.eqb_spec (x mod page_size s) 1); [done|lia]. }
  rewrite Hn. apply (list_elem_of_lookup_2 _ (length (needs_page (page_size s) xs))).
  rewrite (start_new_pages_lookup _ _ 0).
  - rewrite take_app_length. f_equal. rewrite <- Hfull. unfold get_num_new_pages_decode.
    change (map _ (xs ++ [x])) with (needs_page (page_size s) (xs ++ [x])).
    rewrite Hn, zsum_app. unfold zsum at 3. simpl. lia.
  - apply list_lookup_middle. done.
Qed.

(** speculative allocations are undone by [restore_state].  Restoring the
    state saved by [backup_state] after an allocation, successful or not, gives
    back the allocator exactly as it was. *)
Theorem alloc_backup_restore oob undef empty s prefix_lens seq_lens last_loc n k r s'
    (Halloc : paged_alloc_extend oob undef empty s prefix_lens seq_lens last_loc n k = Ok (r, s')
              \/ paged_alloc_decode oob undef empty s seq_lens last_loc = Ok (r, s')
              \/ paged_alloc s n = Ok (r, s') \/ token_alloc s n = (r, s')) :
  restore_state s' (backup_state s) = s.
Proof.
  assert (H : exists b f rel, s' = set_pages (maybe_merge b s) f rel).
  { assert (Hself : forall m, m = set_pages m (free_pages m) (release_pages m)) by by intros [].
    destruct Halloc as [Ha|[Ha|[Ha|Ha]]].
    - unfold paged_alloc_extend in Ha. apply res_bind_Ok in Ha as (_ & _ & Ha). cbv zeta in Ha.
      set (b := need_sort s && _) in Ha. fold (maybe_merge b s) in Ha.
      apply res_bind_Ok in Ha as (l & _ & Ha). apply res_bind_Ok in Ha as (_ & _ & Ha).
      repeat case_match; simplify_eq; exists b; eauto.
    - unfold paged_alloc_decode in Ha. apply res_bind_Ok in Ha as (_ & _ & Ha). cbv zeta in Ha.
      set (b := need_sort s && _) in Ha. fold (maybe_merge b s) in Ha.
      apply res_bind_Ok in Ha as (l & _ & Ha). apply res_bind_Ok in Ha as (_ & _ & Ha).
      repeat case_match; simplify_eq; exists b; eauto.
    - unfold paged_alloc in Ha. apply res_bind_Ok in Ha as (_ & _ & Ha). cbv zeta in Ha.
      set (b := need_sort s && _) in Ha. fold (maybe_merge b s) in Ha.
      repeat case_match; simplify_eq; exists b; eauto.
    - unfold token_alloc in Ha. cbv zeta in Ha.
      set (b := need_sort s && _) in Ha. fold (maybe_merge b s) in Ha.
      repeat case_match; simplify_eq; exists b; eauto. }
  destruct H as (b & f & rel & ->). unfold restore_state, backup_state, set_pages. simpl.
  destruct (maybe_merge_fields b s) as (->&->&->&->&->&->). by destruct s.
Qed.

(** *** Witnesses *)

Lemma token_pool_conserved_witness :
  let s := MkAllocator 4 1 true false [3; 4] [] true [] in
  token_available_size s + zlen (pending s) + zlen [1; 2] = 4.
Proof.
  intros s. apply (token_pool_conserved 4 true s [1; 2]); [|lia].
  apply rtc_once, (ts_alloc (token_init 4 true) [] 2 [1; 2] s); [lia|reflexivity].
Defined.

Definition zeros (n : Z) : list Z := repeat 0 (Z.to_nat n).

Lemma zlen_zeros n : 0 <= n -> zlen (zeros n) = n.
Proof. intros. unfold zeros, zlen. rewrite repeat_length. lia. Qed.

(** One request of five tokens, in pages of four. *)
Lemma sample_request s used :
  page_size s = 4 -> extend_request s used [0] [5] [-1].
Proof.
  intros Hps. repeat split; try done.
  - destruct i as [|[|i]]; simpl in *; lia.
  - destruct i as [|[|i]]; simpl in *; lia.
  - destruct i as [|[|i]]; simpl in *; [|lia..]. destruct H0 as [Hm _]. rewrite Hps in Hm. by vm_compute in Hm.
  - destruct i as [|[|i]]; simpl in *; [|lia..]. destruct H0 as [Hm _]. rewrite Hps in Hm. by vm_compute in Hm.
Qed.


Lemma token_alloc_fails_iff_witness : (token_alloc (token_init 4 true) 5).1 = None.
Proof.
  apply (token_alloc_fails_iff 4 true (token_init 4 true) [] 5); [apply rtc_refl|lia|].
  vm_compute. reflexivity.
Defined.

Lemma paged_alloc_extend_spec_witness :
  paged_alloc_extend (fun i => i) 0 zeros (paged_init 32 4 false false) [0] [5] [-1] 5 None
  = Ok (Some [4; 5; 6; 7; 8], MkAllocator 32 4 false false [3; 4; 5; 6; 7; 8] [] true []).
Proof.
  apply (paged_alloc_extend_spec (fun i => i) 0 zeros (paged_init 32 4 false false) []);
    [apply zlen_zeros|reflexivity|reflexivity|by apply sample_request].
Defined.

Lemma npu_alloc_extend_spec_witness :
  npu_alloc_extend (fun i => i) 0 zeros (paged_init 32 4 false false) [0] [5] [-1] 5 None
  = Ok (Some [4; 5; 6; 7; 8], MkAllocator 32 4 false false [3; 4; 5; 6; 7; 8] [] true []).
Proof.
  apply (npu_alloc_extend_spec (fun i => i) 0 zeros (paged_init 32 4 false false) []).
  - apply zlen_zeros.
  - reflexivity.
  - reflexivity.
  - vm_compute. discriminate.
  - vm_compute. apply Permutation_refl.
  - by apply sample_request.
  - vm_compute. discriminate.
Defined.

Lemma npu_alloc_decode_spec_witness :
  npu_alloc_decode (paged_init 32 4 false false) [1] [-1]
  = Ok (Some [4], MkAllocator 32 4 false false [2; 3; 4; 5; 6; 7; 8] [] true []).
Proof.
  apply (npu_alloc_decode_spec (paged_init 32 4 false false) []).
  - vm_compute. discriminate.
  - reflexivity.
  - vm_compute. discriminate.
  - vm_compute. apply Permutation_refl.
  - repeat constructor; lia.
  - repeat split; try done.
    + destruct i as [|[|i]]; simpl in *; lia.
    + destruct i as [|[|i]]; simpl in *; lia.
    + destruct i as [|[|i]]; simpl in *; [|lia..]. destruct H0 as [Hm _]. by vm_compute in Hm.
    + destruct i as [|[|i]]; simpl in *; [|lia..]. destruct H0 as [Hm _]. by vm_compute in Hm.
  - right. vm_compute. reflexivity.
Defined.

Lemma npu_alloc_decode_exhausted_witness :
  npu_alloc_decode (MkAllocator 32 4 false false [7] [] true []) [5; 6] [19; 24]
  = Raise IndexError.
Proof.
  apply npu_alloc_decode_exhausted.
  - reflexivity.
  - reflexivity.
  - reflexivity.
  - exists [5], 6. split; [reflexivity|]. vm_compute. discriminate.
Defined.

Lemma alloc_backup_restore_witness :
  restore_state (MkAllocator 4 1 true false [4] [] true [])
    (backup_state (MkAllocator 4 1 true false [2] [4; 1] true []))
  = MkAllocator 4 1 true false [2] [4; 1] true [].
Proof.
  apply (alloc_backup_restore (fun i => i) 0 zeros (MkAllocator 4 1 true false [2] [4; 1] true [])
           [] [] [] 2 None (Some [1; 2])).
  right. right. right. vm_compute. reflexivity.
Defined.
