(* ===== verification/KVAlloc.v ===== *)
(** The allocator interface that [mem_cache/common.py] is written against
    ([BaseTokenToKVPoolAllocator]): what [alloc], [alloc_extend] and [alloc_decode]
    promise, and the three allocators of [Allocator.v] as its instances. *)

From S2P Require Export Prelude Triton AllocKernels Allocator.

(** A batch of prefixes [pre], lengths [seq] and last slots [last_loc] to extend: a
    request that goes on in a partly filled page holds the slot before it. *)
Definition extendable (ps : Z) (held pre seq last_loc : list Z) : Prop :=
  length seq = length pre /\ length last_loc = length pre
  /\ (forall i, (i < length pre)%nat -> 0 <= nth i pre 0 <= nth i seq 0)
  /\ (forall i, (i < length pre)%nat -> has_tail ps pre seq i ->
        (nth i last_loc 0 + 1) mod ps = nth i pre 0 mod ps /\ nth i last_loc 0 ∈ held).

(** [kv_decode_slack] is what [alloc_decode] needs to find free beyond the new pages. *)
Class KVAllocator (A : Type) : Type := {
  kva_pool :: KVPool A;
  kv_alloc : A -> Z -> res (option (list Z) * A);
  kv_alloc_extend : A -> list Z -> list Z -> list Z -> Z -> res (option (list Z) * A);
  kv_alloc_decode : A -> list Z -> list Z -> res (option (list Z) * A);
  kv_backup_state : A -> list Z * list Z;
  kv_decode_slack : Z;
  kv_alloc_law : forall a u n, kv_page_size a = 1 -> kv_owns a u -> 0 <= n ->
    exists r a', kv_alloc a n = Ok (r, a') /\ kv_page_size a' = 1
      /\ match r with
         | Some out => zlen out = n /\ kv_owns a' (out ++ u) /\ kv_available a' = kv_available a - n
         | None => kv_available a < n /\ kv_owns a' u /\ kv_available a' = kv_available a
         end;
  kv_extend_law : forall a u pre seq last_loc,
    let ps := kv_page_size a in let k := get_num_new_pages seq ps pre in
    1 < ps -> kv_owns a u -> extendable ps u pre seq last_loc ->
    exists r a', kv_alloc_extend a pre seq last_loc (zsum (ext_lens pre seq)) = Ok (r, a') /\ kv_page_size a' = ps
      /\ match r with
         | Some out => exists pages, out = extend_result ps pre seq last_loc pages /\ 0 <= k <= zlen pages
             /\ kv_owns a' (expand_pages ps (take (Z.to_nat k) pages) ++ u)
             /\ kv_available a' = kv_available a - k * ps
         | None => kv_available a < k * ps /\ kv_owns a' u /\ kv_available a' = kv_available a
         end;
  kv_decode_law : forall a u seq last_loc,
    let ps := kv_page_size a in let pre := map (fun x => x - 1) seq in let k := get_num_new_pages seq ps pre in
    1 < ps -> kv_owns a u -> Forall (fun x => 1 <= x) seq -> extendable ps u pre seq last_loc ->
    k * ps + kv_decode_slack <= kv_available a ->
    exists pages a', kv_alloc_decode a seq last_loc = Ok (Some (extend_result ps pre seq last_loc pages), a')
      /\ kv_page_size a' = ps /\ 0 <= k <= zlen pages
      /\ kv_owns a' (expand_pages ps (take (Z.to_nat k) pages) ++ u)
      /\ kv_available a' = kv_available a - k * ps;
  kv_available_nonneg : forall a u, kv_owns a u -> 0 <= kv_available a;
}.

(** ** Merging and handing out pages *)

Lemma merged_short b s n : release_only_sorted s -> (need_sort s = true -> zlen (free_pages s) < n -> b = true) ->
  zlen (free_pages (maybe_merge b s)) < n -> zlen (free_pages s) + zlen (release_pages s) < n.
Proof.
  intros Hr Hb Hlt. destruct (need_sort s) eqn:Hs.
  - pose proof (zlen_nonneg (release_pages s)). destruct b; simpl in Hlt.
    + unfold merge_and_sort_free in Hlt. destruct (Z.ltb_spec 0 (zlen (release_pages s))); [|lia].
      simpl in Hlt. rewrite (zlen_perm _ _ (tsort_perm _)), zlen_app in Hlt. done.
    + by specialize (Hb eq_refl Hlt).
  - rewrite (Hr Hs). rewrite zlen_nil. destruct b; simpl in Hlt; [|lia].
    unfold merge_and_sort_free in Hlt. rewrite (Hr Hs) in Hlt. simpl in Hlt. lia.
Qed.

Lemma merge_release b s : release_only_sorted s -> release_only_sorted (maybe_merge b s).
Proof.
  intros Hr. destruct b; [|done]. unfold release_only_sorted, maybe_merge, merge_and_sort_free in *. by case_match.
Qed.

Lemma merge_total b s : zlen (free_pages (maybe_merge b s)) + zlen (release_pages (maybe_merge b s))
  = zlen (free_pages s) + zlen (release_pages s).
Proof. pose proof (zlen_perm _ _ (maybe_merge_perm b s)) as H. by rewrite !zlen_app in H. Qed.

Lemma hand_out m used k : 0 <= k -> paged_owned m used ->
  paged_owned (set_pages m (py_from (free_pages m) k) (release_pages m)) (take (Z.to_nat k) (free_pages m) ++ used).
Proof.
  intros Hk Ho. apply set_pages_owned. rewrite py_from_nonneg by done. unfold paged_owned in Ho.
  rewrite <- (take_drop (Z.to_nat k) (free_pages m)) in Ho at 1. rewrite <- Ho. clear. perm_solver.
Qed.

(** ** How many pages a batch needs *)

(** The over-estimate of [common.py]: one extra page per request covers the new pages. *)
Lemma num_new_pages_bound ps pre seq : 0 < ps -> length seq = length pre ->
  (forall i, (i < length pre)%nat -> 0 <= nth i pre 0 <= nth i seq 0) ->
  0 <= get_num_new_pages seq ps pre
  /\ get_num_new_pages seq ps pre * ps <= zsum (ext_lens pre seq) + zlen seq * (ps - 1).
Proof.
  intros Hps Hl Hn. unfold get_num_new_pages, ext_lens. revert pre Hl Hn.
  induction seq as [|s seq IH]; intros [|p pre] Hl Hn; simpl in Hl; try lia; [done|].
  destruct (IH pre ltac:(lia)) as [H0 H1]. { intros i Hi. apply (Hn (S i)). simpl. lia. }
  pose proof (Hn 0%nat ltac:(simpl; lia)) as Hp. simpl in Hp. cbn [map zip_with]. rewrite !zsum_cons, zlen_cons.
  pose proof (ceil_div_spec s ps Hps). pose proof (ceil_div_spec p ps Hps). pose proof (ceil_div_mono p s ps Hps ltac:(lia)).
  nia.
Qed.

(** ** The token allocator *)

(** The base class leaves [alloc_extend] and [alloc_decode] to the paged allocators. *)
#[export] Program Instance token_allocator : KVAllocator allocator := {
  kva_pool := token_pool;
  kv_alloc s n := Ok (token_alloc s n);
  kv_alloc_extend _ _ _ _ _ := Raise NotImplementedError;
  kv_alloc_decode _ _ _ := Raise NotImplementedError;
  kv_backup_state := backup_state;
  kv_decode_slack := 0;
}.
Next Obligation.
  intros s u n _ (Ho & Hg & Hrs) Hn. simpl.
  set (b := need_sort s && (zlen (free_pages s) <? n)). pose proof (merge_release b s Hrs) as Hrm.
  pose proof (merge_total b s) as Ht. pose proof (maybe_merge_fields b s) as (_ & _ & _ & _ & Hgm & _).
  destruct (token_alloc s n) as [[out|] s'] eqn:Ha.
  - exists (Some out), s'. do 2 (split; [done|]).
    destruct (token_alloc_some _ _ _ _ Hn Ha) as (m & Hm & Hf & Hlen & Hs'). fold b in Hm. rewrite <- Hm in Hrm, Ht, Hgm.
    assert (is_not_in_free_group s' = true /\ release_only_sorted s') as [Hg' Hr'].
    { rewrite Hs'. split; [simpl; congruence|done]. }
    split_and!; [done|by eapply token_alloc_owned|done|done|]. unfold token_available_size.
    rewrite Hf, zlen_app in Ht. replace (release_pages s') with (release_pages m) by (by rewrite Hs'). lia.
  - exists None, s'. destruct (token_alloc_none _ _ _ Ha) as [Hs' Hlt]. fold b in Hs'. rewrite Hs' in Hlt.
    assert (token_available_size s < n).
    { apply (merged_short b s n Hrs); [|done]. intros Hs Hf. unfold b. rewrite Hs. by apply Z.ltb_lt. }
    subst s'. unfold token_available_size in *.
    split_and!; [done|done|done|by apply token_owned_merge|congruence|done|lia].
Qed.
Next Obligation. simpl. intros. lia. Qed.
Next Obligation. simpl. intros. lia. Qed.
Next Obligation.
  intros s u _. simpl. unfold token_available_size. pose proof (zlen_nonneg (free_pages s)).
  pose proof (zlen_nonneg (release_pages s)). lia.
Qed.

(** ** The paged allocators *)

(** The whole pages that back the held slots. *)
Lemma extendable_request s u pages pre seq last_loc : 0 < page_size s ->
  Permutation u (expand_pages (page_size s) pages) -> extendable (page_size s) u pre seq last_loc ->
  extend_request s pages pre seq last_loc.
Proof.
  intros Hps Hu (H1 & H2 & H3 & H4). split_and!; [done..|]. intros i Hi Ht. destruct (H4 i Hi Ht) as [Hm Hin].
  split; [done|]. rewrite Hu in Hin. unfold page_of. apply (page_of_expand (page_size s) pages); [done|].
  apply list_elem_of_In, in_map_iff. exists (nth i last_loc 0). split; [done|]. by apply list_elem_of_In.
Qed.

(** The effect of consuming [k] pages of the merged pool. *)
Lemma consume_pages b s u pages k : 0 < page_size s -> 0 <= k <= zlen (free_pages (maybe_merge b s)) ->
  Permutation u (expand_pages (page_size s) pages) -> paged_owned s pages -> is_not_in_free_group s = true ->
  release_only_sorted s ->
  let m := maybe_merge b s in
  let s' := set_pages m (py_from (free_pages m) k) (release_pages m) in
  page_size s' = page_size s /\ size s' = size s /\ available_size s' = available_size s - k * page_size s
  /\ debug_mode s' = debug_mode s /\ is_not_in_free_group s' = true /\ release_only_sorted s'
  /\ exists pages', Permutation (expand_pages (page_size s) (take (Z.to_nat k) (free_pages m)) ++ u)
       (expand_pages (page_size s) pages') /\ paged_owned s' pages'.
Proof.
  intros Hps Hk Hu Ho Hg Hr m s'. destruct (maybe_merge_fields b s) as (Hsz & Hpm & _ & Hdm & Hgm & _). fold m in Hsz, Hpm, Hdm, Hgm, Hk.
  pose proof (merge_release b s Hr) as Hrm. pose proof (merge_total b s) as Ht. fold m in Hrm, Ht.
  split_and!; try done; [|simpl; congruence|].
  - unfold available_size. simpl. rewrite Hpm, zlen_py_from by done. nia.
  - exists (take (Z.to_nat k) (free_pages m) ++ pages). split; [by rewrite expand_pages_app, Hu|].
    apply hand_out; [lia|]. by apply paged_owned_merge.
Qed.

Lemma merged_owns b s u pages : 0 < page_size s ->
  Permutation u (expand_pages (page_size s) pages) -> paged_owned s pages -> is_not_in_free_group s = true ->
  release_only_sorted s -> debug_mode s = false -> kv_owns (KVPool := paged_pool) (maybe_merge b s) u
  /\ page_size (maybe_merge b s) = page_size s /\ available_size (maybe_merge b s) = available_size s.
Proof.
  intros Hps Hu Ho Hg Hr Hd. destruct (maybe_merge_fields b s) as (_ & Hpm & _ & Hdm & Hgm & _).
  split_and!; [|done|].
  - exists pages. rewrite Hpm, Hgm, Hdm. split_and!; try done; [by apply paged_owned_merge|by apply merge_release].
  - unfold available_size. by rewrite merge_total, Hpm.
Qed.

Section Paged.
Context (oob : Z -> Z) (undef : Z) (empty : Z -> list Z).
Context (Hempty : forall n, 0 <= n -> zlen (empty n) = n).

Lemma paged_alloc_one_ok s u n : page_size s = 1 -> kv_owns (KVPool := paged_pool) s u -> 0 <= n ->
  exists r s', paged_alloc s n = Ok (r, s') /\ page_size s' = 1
    /\ match r with
       | Some out => zlen out = n /\ kv_owns (KVPool := paged_pool) s' (out ++ u) /\ available_size s' = available_size s - n
       | None => available_size s < n /\ kv_owns (KVPool := paged_pool) s' u /\ available_size s' = available_size s
       end.
Proof.
  intros Hp1 (pages & Hu & Ho & Hg & Hps & Hr & Hd) Hn. unfold paged_alloc. rewrite Hd. cbn [negb orb py_assert res_bind].
  rewrite Hp1, Z.div_1_r. set (b := need_sort s && (zlen (free_pages s) <? n)). fold (maybe_merge b s).
  destruct (merged_owns b s u pages Hps Hu Ho Hg Hr Hd) as (Hmo & Hpm & Hma).
  destruct (Z.ltb_spec (zlen (free_pages (maybe_merge b s))) n) as [Hlt|Hge].
  - exists None, (maybe_merge b s). split_and!; [done|congruence| |done|done]. unfold available_size.
    enough (zlen (free_pages s) + zlen (release_pages s) < n) by nia. apply (merged_short b s n Hr); [|done].
    intros Hs Hf. unfold b. rewrite Hs. by apply Z.ltb_lt.
  - destruct (consume_pages b s u pages n Hps ltac:(lia) Hu Ho Hg Hr) as (H1 & _ & H3 & H4 & H5 & H6 & pages' & H7 & H8).
    eexists _, _. split; [done|]. rewrite Hpm, Hp1, expand_pages_one, py_upto_nonneg by lia. split_and!; [simpl; lia| | |].
    + unfold zlen in *. rewrite length_take. lia.
    + exists pages'. simpl in *. rewrite Hp1, expand_pages_one in H7. split_and!; try done; [by rewrite Hpm, Hp1|lia|congruence].
    + rewrite H3. lia.
Qed.
Lemma extend_pages_short b s n pre seq u : 0 < page_size s -> release_only_sorted s ->
  extendable (page_size s) u pre seq n ->
  (need_sort s = true -> zlen (free_pages s) < zsum (ext_lens pre seq) / page_size s + zlen pre + 1 -> b = true) ->
  zlen (free_pages (maybe_merge b s)) < get_num_new_pages seq (page_size s) pre ->
  available_size s < get_num_new_pages seq (page_size s) pre * page_size s.
Proof.
  intros Hps Hr (Hl & _ & Hn & _) Hb Hlt. destruct (num_new_pages_bound (page_size s) pre seq Hps Hl Hn) as [_ Hk].
  unfold available_size. apply Z.mul_lt_mono_pos_r; [done|]. apply (merged_short b s _ Hr); [|done].
  intros Hs Hf. apply Hb; [done|]. eapply Z.lt_le_trans; [exact Hf|].
  assert (get_num_new_pages seq (page_size s) pre - zlen pre <= zsum (ext_lens pre seq) / page_size s); [|lia].
  apply Z.div_le_lower_bound; [done|]. unfold zlen in *. rewrite Hl in Hk. nia.
Qed.

Lemma paged_extend_law s u pre seq last_loc :
  let ps := page_size s in let k := get_num_new_pages seq ps pre in
  0 < ps -> kv_owns (KVPool := paged_pool) s u -> extendable ps u pre seq last_loc ->
  exists r s', paged_alloc_extend oob undef empty s pre seq last_loc (zsum (ext_lens pre seq)) None = Ok (r, s')
    /\ page_size s' = ps
    /\ match r with
       | Some out => exists pages, out = extend_result ps pre seq last_loc pages /\ 0 <= k <= zlen pages
           /\ kv_owns (KVPool := paged_pool) s' (expand_pages ps (take (Z.to_nat k) pages) ++ u)
           /\ available_size s' = available_size s - k * ps
       | None => available_size s < k * ps /\ kv_owns (KVPool := paged_pool) s' u /\ available_size s' = available_size s
       end.
Proof.
  intros ps k Hps (pages & Hu & Ho & Hg & _ & Hr & Hd) He. pose proof He as (Hl & _ & Hn & _).
  pose proof (extendable_request s u pages pre seq last_loc Hps Hu He) as Hreq.
  pose proof (paged_alloc_extend_ok oob undef empty s pages pre seq last_loc Hempty Hps Hd Hreq) as Heq. cbv zeta in Heq.
  set (b := need_sort s && _) in Heq. rewrite Heq. fold ps k. fold ps k in Heq.
  destruct (merged_owns b s u pages Hps Hu Ho Hg Hr Hd) as (Hmo & Hpm & Hma).
  destruct (num_new_pages_bound ps pre seq Hps Hl Hn) as [Hk0 _]. fold k in Hk0.
  destruct (Z.ltb_spec (zlen (free_pages (maybe_merge b s))) k) as [Hlt|Hge].
  - exists None, (maybe_merge b s). split_and!; [done|done| |done|done].
    apply (extend_pages_short b s last_loc pre seq u Hps Hr He); [|done].
    intros Hs Hf. unfold b. rewrite Hs. by apply Z.ltb_lt.
  - destruct (consume_pages b s u pages k Hps ltac:(lia) Hu Ho Hg Hr) as (H1 & _ & H3 & H4 & H5 & H6 & pages' & H7 & H8).
    eexists _, _. do 2 (split; [done|]). exists (free_pages (maybe_merge b s)). split_and!; [done|done|lia| |done].
    exists pages'. rewrite H1, H4. by split_and!.
Qed.

Lemma paged_decode_law s u seq last_loc :
  let ps := page_size s in let pre := map (fun x => x - 1) seq in let k := get_num_new_pages seq ps pre in
  1 < ps -> kv_owns (KVPool := paged_pool) s u -> Forall (fun x => 1 <= x) seq -> extendable ps u pre seq last_loc ->
  k * ps <= available_size s ->
  exists pages s', paged_alloc_decode oob undef empty s seq last_loc = Ok (Some (extend_result ps pre seq last_loc pages), s')
    /\ page_size s' = ps /\ 0 <= k <= zlen pages
    /\ kv_owns (KVPool := paged_pool) s' (expand_pages ps (take (Z.to_nat k) pages) ++ u)
    /\ available_size s' = available_size s - k * ps.
Proof.
  intros ps pre k Hps (pages & Hu & Ho & Hg & _ & Hr & Hd) Hpos He Hav. pose proof He as (Hl & _ & Hn & _).
  assert (0 < page_size s) as Hps0 by (fold ps; lia).
  pose proof (extendable_request s u pages pre seq last_loc Hps0 Hu He) as Hreq.
  destruct (num_new_pages_bound ps pre seq ltac:(lia) Hl Hn) as [Hk0 Hkb]. fold k in Hk0, Hkb.
  assert (zsum (ext_lens pre seq) = zlen seq) as Hext.
  { unfold pre. clear. induction seq as [|x seq IH]; [done|]. unfold ext_lens in *. cbn [map zip_with].
    rewrite zsum_cons, zlen_cons, IH. lia. }
  unfold paged_alloc_decode. rewrite Hd. cbn [negb orb py_assert res_bind].
  set (b := need_sort s && (zlen (free_pages s) <? zlen seq)). fold (maybe_merge b s). set (m := maybe_merge b s).
  destruct (maybe_merge_fields b s) as (_ & Hpm & _ & Hdm & _). fold m in Hpm, Hdm.
  assert (k <= zlen (free_pages m)) as Hkm.
  { destruct (Z.le_gt_cases k (zlen (free_pages m))) as [|Hlt]; [done|exfalso].
    assert (zlen (free_pages s) + zlen (release_pages s) < k) as Hsh.
    { apply (merged_short b s k Hr); [|done]. intros Hs Hf. unfold b. rewrite Hs. apply Z.ltb_lt. nia. }
    unfold available_size in Hav. fold ps in Hav. nia. }
  rewrite Hdm, Hd, Hpm. cbn [negb orb].
  pose proof (extend_request_batch s m pages pre seq last_loc ltac:(lia) Hpm Hreq) as eb. rewrite Hpm in eb. fold ps in eb.
  unfold launch. fold ps. rewrite (decode_grid_ok oob undef ps seq last_loc (free_pages m) _ _ (eb Hkm)); [|done|].
  - cbn [of_launch py_assert res_bind]. rewrite (new_pages_decode_eq ps seq) by (done || lia). fold pre.
    change (zsum (new_pages ps pre seq)) with k. destruct (Z.ltb_spec (zlen (free_pages m)) k); [lia|].
    destruct (consume_pages b s u pages k Hps0 ltac:(done) Hu Ho Hg Hr) as (H1 & _ & H3 & H4 & H5 & H6 & pages' & H7 & H8).
    fold m in H1, H3, H4, H5, H6, H7, H8. eexists _, _. split; [done|]. split_and!; [done|lia|lia| |done].
    exists pages'. rewrite H1, H4. by split_and!.
  - apply Hempty, zlen_nonneg.
Qed.

#[export] Program Instance paged_allocator : KVAllocator allocator | 100 := {
  kva_pool := paged_pool;
  kv_alloc := paged_alloc;
  kv_alloc_extend s pre seq last_loc n := paged_alloc_extend oob undef empty s pre seq last_loc n None;
  kv_alloc_decode := paged_alloc_decode oob undef empty;
  kv_backup_state := backup_state;
  kv_decode_slack := 0;
}.
Next Obligation. intros s u n Hp Ho Hn. by apply paged_alloc_one_ok. Qed.
Next Obligation. intros s u pre seq last_loc ps k Hps Ho He. apply paged_extend_law; [|done|done]. unfold ps in Hps; simpl in Hps; lia. Qed.
Next Obligation.
  intros s u seq last_loc ps pre k Hps Ho Hpos He Hav. apply paged_decode_law; [done..|].
  unfold k, pre, ps in Hav. simpl in Hav. lia.
Qed.
Next Obligation.
  intros s u (pages & _ & _ & _ & Hps & _). simpl. unfold available_size. pose proof (zlen_nonneg (free_pages s)).
  pose proof (zlen_nonneg (release_pages s)). nia.
Qed.

(** *** Ascend

    Indices travel as 32-bit integers.  [alloc_decode] merges the released pages only
    when the free list is too short and fails when the free list is exactly used up,
    so the contract is met without [need_sort], when no page is ever released aside. *)

Lemma npu_free_paged s l : npu_free s l = paged_free s l.
Proof. reflexivity. Qed.

Definition npu_owns (s : allocator) (u : list Z) : Prop :=
  kv_owns (KVPool := paged_pool) s u /\ size s + page_size s <= 2 ^ 31 /\ need_sort s = false.

Lemma paged_free_size s l s' : paged_free s l = Ok s' -> size s' = size s /\ need_sort s' = need_sort s.
Proof.
  unfold paged_free. intros Hf. destruct (zlen l =? 0); [by simplify_eq|]. cbv zeta in Hf.
  apply res_bind_Ok in Hf as (u & _ & Hf). simplify_eq. by destruct (is_not_in_free_group s), (need_sort s) eqn:E.
Qed.

#[export] Program Instance npu_pool : KVPool allocator | 200 := {
  kv_page_size := page_size;
  kv_available := available_size;
  kv_free := npu_free;
  kv_owns := npu_owns;
}.
Next Obligation.
  intros s l pages k Hc [Ho Hsz]. destruct (kv_free_ok (KVPool := paged_pool) s l pages k Hc Ho) as (s' & Hf & Ho' & Hp & Ha).
  exists s'. simpl in *. destruct (paged_free_size _ _ _ Hf) as [Hz Hns]. unfold npu_owns.
  destruct Hsz as [Hsz Hsort]. split_and!; try done; [lia|congruence].
Qed.
Next Obligation. intros s l [Ho _]. exact (kv_owns_NoDup (KVPool := paged_pool) s l Ho). Qed.
Next Obligation. intros s l k Hp [Ho Hz]. split; [|done]. exact (kv_owns_perm (KVPool := paged_pool) s l k Hp Ho). Qed.

Lemma npu_extend_none s pre seq last_loc n :
  let k := get_num_new_pages seq (page_size s) pre in
  let m := maybe_merge (need_sort s && (zlen (free_pages s) <? k)) s in
  debug_mode s = false -> zlen (free_pages m) < k ->
  npu_alloc_extend oob undef empty s pre seq last_loc n None = Ok (None, m).
Proof.
  intros k m Hd Hlt. unfold npu_alloc_extend. rewrite Hd. cbn [negb orb py_assert res_bind].
  assert (zsum (zip_with Z.sub (map (fun x => (x + (page_size s - 1)) / page_size s) seq)
            (map (fun x => (x + (page_size s - 1)) / page_size s) pre)) = k) as ->.
  { unfold k, get_num_new_pages. do 2 f_equal; apply map_ext; intros x; f_equal; lia. }
  fold (maybe_merge (need_sort s && (zlen (free_pages s) <? k)) s). fold m. by destruct (Z.ltb_spec (zlen (free_pages m)) k); [|lia].
Qed.

Lemma npu_owns_step b s u v k : npu_owns s u -> 0 <= k <= zlen (free_pages (maybe_merge b s)) ->
  Permutation v (expand_pages (page_size s) (take (Z.to_nat k) (free_pages (maybe_merge b s))) ++ u) ->
  let m := maybe_merge b s in
  let s' := set_pages m (py_from (free_pages m) k) (release_pages m) in
  npu_owns s' v /\ page_size s' = page_size s /\ available_size s' = available_size s - k * page_size s.
Proof.
  intros ((pages & Hu & Hown & Hg & Hps & Hr & Hd) & Hz & Hs) Hk Hv m s'.
  destruct (consume_pages b s u pages k Hps Hk Hu Hown Hg Hr) as (H1 & H2 & H3 & H4 & H5 & H6 & pages' & H7 & H8).
  destruct (maybe_merge_fields b s) as (_ & _ & Hns & _). fold m s' in H1, H2, H3, H4, H5, H6, H8 |- *.
  split_and!; [|done|done]. split_and!; [|lia|unfold s'; simpl; fold m in Hns; congruence].
  exists pages'. rewrite H1, H4. split_and!; try done. by rewrite Hv.
Qed.

#[export] Program Instance npu_allocator : KVAllocator allocator | 200 := {
  kva_pool := npu_pool;
  kv_alloc := paged_alloc;
  kv_alloc_extend s pre seq last_loc n := npu_alloc_extend oob undef empty s pre seq last_loc n None;
  kv_alloc_decode := npu_alloc_decode;
  kv_backup_state := backup_state;
  kv_decode_slack := 1;
}.
Next Obligation.
  intros s u n Hp (Ho & Hz & Hns) Hn. destruct (paged_alloc_one_ok s u n Hp Ho Hn) as (r & s' & Ha & Hp' & Hr). exists r, s'.
  assert (size s' = size s /\ need_sort s' = need_sort s) as [Hs Hns'].
  { unfold paged_alloc in Ha. rewrite Hns in Ha. simpl in Ha. apply res_bind_Ok in Ha as (_ & _ & Ha).
    destruct (_ <? _); injection Ha as <- <-; done. }
  do 2 (split; [done|]). simpl in *. unfold npu_owns. destruct r; destruct Hr as (? & ? & ?);
    split_and!; try done; (congruence || lia).
Qed.
Next Obligation.
  intros s u pre seq last_loc ps k Hps (Ho & Hz & Hns) He. pose proof Ho as (pages & Hu & Hown & Hg & Hps0 & Hr & Hd).
  simpl in *. pose proof He as (Hl & _ & Hn & _). pose proof (extendable_request s u pages pre seq last_loc Hps0 Hu He) as Hreq.
  set (b := need_sort s && (zlen (free_pages s) <? k)). destruct (num_new_pages_bound ps pre seq Hps0 Hl Hn) as [Hk0 _]. fold k in Hk0.
  destruct (maybe_merge_fields b s) as (Hsz & _ & Hnm & _). destruct (merged_owns b s u pages Hps0 Hu Hown Hg Hr Hd) as (Hmo & Hpm & Hma).
  destruct (Z.lt_ge_cases (zlen (free_pages (maybe_merge b s))) k) as [Hlt|Hge].
  - exists None, (maybe_merge b s). split_and!; [by apply npu_extend_none|done| |split_and!; [done|lia|congruence]|done].
    unfold available_size. apply Z.mul_lt_mono_pos_r; [done|]. apply (merged_short b s k Hr); [|done].
    intros Hs Hf. unfold b. rewrite Hs. by apply Z.ltb_lt.
  - rewrite (npu_alloc_extend_ok oob undef empty s pages pre seq last_loc Hempty Hps0 Hd Hz Hown Hreq Hge). fold ps k b.
    destruct (npu_owns_step b s u _ k ltac:(by split_and!) ltac:(lia) (reflexivity _)) as (H1 & H2 & H3).
    eexists _, _. do 2 (split; [done|]). exists (free_pages (maybe_merge b s)). by split_and!.
Qed.
Next Obligation.
  intros s u seq last_loc ps pre k Hps (Ho & Hz & Hns) Hpos He Hav. pose proof Ho as (pages & Hu & Hown & Hg & Hps0 & Hr & Hd).
  simpl in *. pose proof (extendable_request s u pages pre seq last_loc Hps0 Hu He) as Hreq.
  pose proof He as (Hl & _ & Hn & _). destruct (num_new_pages_bound ps pre seq Hps0 Hl Hn) as [Hk0 _]. fold k in Hk0.
  assert (get_num_new_pages_decode seq (page_size s) = k) as Hkd by (rewrite new_pages_decode_eq by (done || (fold ps; lia)); done).
  set (b := zlen (free_pages s) <? k). assert (k < zlen (free_pages s)) as Hlt.
  { unfold available_size in Hav. rewrite (Hr Hns), zlen_nil in Hav. fold ps in Hav. nia. }
  assert (maybe_merge b s = s) as Hmb by (unfold b; by destruct (Z.ltb_spec (zlen (free_pages s)) k); [lia|]).
  pose proof (npu_alloc_decode_ok s pages seq last_loc ltac:(fold ps; lia) Hd Hz Hown Hpos Hreq) as Heq.
  cbv zeta in Heq. rewrite Hkd in Heq. fold b in Heq. rewrite Hmb in Heq. rewrite Heq by (right; lia).
  destruct (npu_owns_step b s u _ k ltac:(by split_and!) ltac:(rewrite Hmb; lia) (reflexivity _)) as (H1 & H2 & H3).
  rewrite Hmb in H1, H2, H3. eexists _, _. split; [done|]. split_and!; [done|lia|lia|done|done].
Qed.
Next Obligation.
  intros s u ((pages & _ & _ & _ & Hps & _) & _). simpl. unfold available_size. pose proof (zlen_nonneg (free_pages s)).
  pose proof (zlen_nonneg (release_pages s)). nia.
Qed.
End Paged.
