(* ===== verification/RadixKey.v ===== *)
(** The keys of the prefix cache: [RadixKey] of [mem_cache/radix_cache.py], with
    its token and bigram views, slicing, page alignment, matching, dictionary
    keys and page hashes, and [hash_str_to_int64] of [mem_cache/utils.py].

    The lemmas relate every operation to one abstraction, [units]: the list of
    logical units of a key, each labelled with the key's namespace.  The tree of
    [RadixCache] is verified over [units] alone. *)

From stdpp Require Export strings countable.
From S2P Require Export Prelude.

(** ** The key and its views *)

Record RadixKey : Type := MkRadixKey {
  token_ids : list Z;
  extra_key : option string;
  is_bigram : bool
}.

#[export] Instance RadixKey_eq_dec : EqDecision RadixKey.
Proof. solve_decision. Defined.

(** [__len__] *)
Definition key_len (k : RadixKey) : Z :=
  if is_bigram k then
    let n := zlen (token_ids k) in
    if 0 <? n then n - 1 else 0
  else zlen (token_ids k).

(** What [__iter__] yields: a token, or a pair of adjacent tokens. *)
Inductive atom : Type :=
  | Tok (t : Z)
  | Big (a b : Z).

#[export] Instance atom_eq_dec : EqDecision atom.
Proof. solve_decision. Defined.

Definition key_iter (k : RadixKey) : list atom :=
  if is_bigram k then
    map (fun i => Big (nth (Z.to_nat i) (token_ids k) 0) (nth (Z.to_nat (i + 1)) (token_ids k) 0))
      (zrange 0 (zlen (token_ids k) - 1))
  else map Tok (token_ids k).

(** [self[start:stop]]; [None] is an omitted bound. *)
Definition key_slice (k : RadixKey) (start stop : option Z) : RadixKey :=
  let n := key_len k in
  let start := clamp_idx n (default 0 start) in
  let stop := clamp_idx n (default n stop) in
  if is_bigram k then
    let raw := if start <? stop then py_slice (token_ids k) start (stop + 1) else [] in
    MkRadixKey raw (extra_key k) true
  else MkRadixKey (py_slice (token_ids k) start stop) (extra_key k) false.

(** [self[start:stop:step]] and [self[idx]] *)
Definition key_getitem_slice (k : RadixKey) (start stop : option Z) (step : Z) : res RadixKey :=
  if negb (step =? 1) then Raise ValueError else Ok (key_slice k start stop).

Definition key_getitem_int (k : RadixKey) (idx : Z) : res RadixKey :=
  let idx := if idx <? 0 then idx + key_len k else idx in
  if (idx <? 0) || (key_len k <=? idx) then Raise IndexError
  else key_getitem_slice k (Some idx) (Some (idx + 1)) 1.

Definition page_aligned (k : RadixKey) (page_size : Z) : RadixKey :=
  if page_size =? 1 then k
  else
    let aligned_len := key_len k / page_size * page_size in
    key_slice k None (Some aligned_len).

(** Returns the (updated) key and the value truncated to the bigram count. *)
Definition maybe_to_bigram_view (k : RadixKey) (is_eagle : bool) (value : option (list Z))
  : RadixKey * option (list Z) :=
  if is_eagle && negb (is_bigram k) then
    let k := MkRadixKey (token_ids k) (extra_key k) true in
    (k, match value with Some v => Some (py_upto v (key_len k)) | None => None end)
  else (k, value).

(** ** Matching *)

Definition check_compatible (k other : RadixKey) : res unit :=
  if decide (extra_key k = extra_key other) then Ok tt else Raise ValueError.

(** The loop [for a, b in zip(t0, t1): if a != b: break; i += 1]. *)
Fixpoint zip_match (t0 t1 : list Z) : Z :=
  match t0, t1 with
  | a :: t0, b :: t1 => if a =? b then 1 + zip_match t0 t1 else 0
  | _, _ => 0
  end.

(** The loop over pages; [fuel] bounds its iterations, and [page_loop_exit] below
    shows that [min_len] iterations reach its exit. *)
Fixpoint page_loop (fuel : nat) (t0 t1 : list Z) (page_size min_len i : Z) : Z :=
  match fuel with
  | O => i
  | S fuel =>
      if i <? min_len then
        if decide (py_slice t0 i (i + page_size) = py_slice t1 i (i + page_size))
        then page_loop fuel t0 t1 page_size min_len (i + page_size)
        else i
      else i
  end.

Definition key_match (k other : RadixKey) (page_size : Z) : res Z :=
  let* _ := check_compatible k other in
  let t0 := token_ids k in
  let t1 := token_ids other in
  if is_bigram k then
    let i := zip_match t0 t1 in
    let matched := Z.max 0 (Z.min (i - 1) (Z.min (key_len k) (key_len other))) in
    Ok (if 1 <? page_size then matched / page_size * page_size else matched)
  else if page_size =? 1 then Ok (zip_match t0 t1)
  else
    let min_len := Z.min (key_len k) (key_len other) in
    Ok (page_loop (Z.to_nat min_len) t0 t1 page_size min_len 0).

(** ** Dictionary keys *)

(** The Python values used as dictionary keys: integers, strings and tuples. *)
Definition pyval : Type := gen_tree (Z + string).
Abbreviation VInt := (fun z : Z => GenLeaf (inl z) : pyval).
Abbreviation VStr := (fun s : string => GenLeaf (inr s) : pyval).
Abbreviation VTuple := (fun l : list pyval => GenNode 0 l : pyval).

(** [l[i]], negative indices counting from the end *)
Definition index (l : list Z) (i : Z) : res Z :=
  let i := if i <? 0 then i + zlen l else i in
  if i <? 0 then Raise IndexError
  else match l !! Z.to_nat i with Some x => Ok x | None => Raise IndexError end.

(** [tuple(f(j) for j in js)] *)
Fixpoint collect {A} (f : Z -> res A) (js : list Z) : res (list A) :=
  match js with
  | [] => Ok []
  | j :: js => let* x := f j in let* xs := collect f js in Ok (x :: xs)
  end.

Definition bigram_at (t : list Z) (j : Z) : res pyval :=
  let* a := index t j in
  let* b := index t (j + 1) in
  Ok (VTuple [VInt a; VInt b]).

Definition child_key (k : RadixKey) (page_size : Z) : res pyval :=
  let t := token_ids k in
  let* plain :=
    if is_bigram k then
      if page_size =? 1 then bigram_at t 0
      else let* l := collect (bigram_at t) (zrange 0 page_size) in Ok (VTuple l)
    else if page_size =? 1 then let* a := index t 0 in Ok (VInt a)
    else Ok (VTuple (map VInt (py_upto t page_size))) in
  Ok (match extra_key k with
      | None => plain
      | Some e => VTuple [VStr e; plain]
      end).

(** ** Page hashes *)

(** [t.to_bytes(4, byteorder="little", signed=False)] *)
Definition to_bytes4 (t : Z) : res (list Z) :=
  if (t <? 0) || (2 ^ 32 <=? t) then Raise OverflowError
  else Ok [t mod 256; t / 2 ^ 8 mod 256; t / 2 ^ 16 mod 256; t / 2 ^ 24 mod 256].

(** Hexadecimal digits, as [hexdigest] prints and [bytes.fromhex] and [int(_, 16)]
    read them. *)
Definition hex_digit (n : Z) : Ascii.ascii :=
  Ascii.ascii_of_nat (Z.to_nat (if n <? 10 then 48 + n else 87 + n)).

Definition hex_val (c : Ascii.ascii) : option Z :=
  let n := Z.of_nat (Ascii.nat_of_ascii c) in
  if (48 <=? n) && (n <=? 57) then Some (n - 48)
  else if (97 <=? n) && (n <=? 102) then Some (n - 87)
  else if (65 <=? n) && (n <=? 70) then Some (n - 55)
  else None.

Fixpoint hex_of_bytes (b : list Z) : string :=
  match b with
  | [] => EmptyString
  | x :: b => String (hex_digit (x / 16)) (String (hex_digit (x mod 16)) (hex_of_bytes b))
  end.

Definition is_space (c : Ascii.ascii) : bool :=
  let n := Z.of_nat (Ascii.nat_of_ascii c) in (n =? 32) || ((9 <=? n) && (n <=? 13)).

Fixpoint fromhex (s : string) : res (list Z) :=
  match s with
  | EmptyString => Ok []
  | String c r =>
      if is_space c then fromhex r
      else match r with
           | EmptyString => Raise ValueError
           | String d r' =>
               match hex_val c, hex_val d with
               | Some x, Some y => let* b := fromhex r' in Ok (16 * x + y :: b)
               | _, _ => Raise ValueError
               end
           end
  end.

(** [s[:n]] and [int(s, 16)] on a string of hexadecimal digits *)
Fixpoint str_upto (n : nat) (s : string) : string :=
  match n, s with
  | S n, String c s => String c (str_upto n s)
  | _, _ => EmptyString
  end.

Fixpoint hex_int_from (acc : Z) (s : string) : res Z :=
  match s with
  | EmptyString => Ok acc
  | String c s =>
      match hex_val c with
      | Some x => hex_int_from (16 * acc + x) s
      | None => Raise ValueError
      end
  end.

Definition hex_int (s : string) : res Z :=
  match s with EmptyString => Raise ValueError | _ => hex_int_from 0 s end.

Definition hash_str_to_int64 (hash_str : string) : res Z :=
  let* uint64_val := hex_int (str_upto 16 hash_str) in
  Ok (if 2 ^ 63 <=? uint64_val then uint64_val - 2 ^ 64 else uint64_val).

(** The bytes fed to the hasher; [sha256] is the digest function. *)
Definition page_bytes (k : RadixKey) (j : Z) : res (list Z) :=
  let t := token_ids k in
  let* a := index t j in
  let* x := to_bytes4 a in
  if is_bigram k then
    let* b := index t (j + 1) in
    let* y := to_bytes4 b in
    Ok (x ++ y)
  else Ok x.

Definition hash_page (sha256 : list Z -> list Z) (k : RadixKey) (start stop : Z)
    (prior_hash : option string) : res string :=
  let* prior :=
    match prior_hash with
    | Some (String _ _ as h) => fromhex h
    | _ => Ok []
    end in
  let* pages := collect (page_bytes k) (zrange start stop) in
  Ok (hex_of_bytes (sha256 (prior ++ concat pages))).

(** ** The abstraction: labelled units *)

Abbreviation unit_ := (option string * atom)%type.

Definition units (k : RadixKey) : list unit_ := map (fun a => (extra_key k, a)) (key_iter k).

(** Longest common prefix. *)
Fixpoint lcp `{EqDecision A} (l k : list A) : nat :=
  match l, k with
  | x :: l, y :: k => if decide (x = y) then S (lcp l k) else 0%nat
  | _, _ => 0%nat
  end.

(** Keys whose length is a multiple of the page size. *)
Definition aligned (page_size : Z) (k : RadixKey) : Prop := (page_size | key_len k).

(** ** Lemmas: the bigram view *)

Fixpoint pairs (t : list Z) : list atom :=
  match t with
  | a :: (b :: _) as r => Big a b :: pairs r
  | _ => []
  end.

Lemma length_pairs t : length (pairs t) = (length t - 1)%nat.
Proof.
  induction t as [|a [|b t] IH]; [done..|].
  change (pairs (a :: b :: t)) with (Big a b :: pairs (b :: t)). simpl length in *. lia.
Qed.

Lemma pairs_drop n t : pairs (drop n t) = drop n (pairs t).
Proof.
  revert t; induction n as [|n IH]; intros t; [done|].
  destruct t as [|a [|b t]]; [done|by destruct n|].
  exact (IH (b :: t)).
Qed.

Lemma pairs_take n t : pairs (take (S n) t) = take n (pairs t).
Proof.
  revert t; induction n as [|n IH]; intros t.
  - by destruct t.
  - destruct t as [|a [|b t]]; [done..|].
    change (pairs (take (S (S n)) (a :: b :: t))) with (Big a b :: pairs (take (S n) (b :: t))).
    by rewrite IH.
Qed.

Lemma nth_pairs t i : (S i < length t)%nat ->
  pairs t !! i = Some (Big (nth i t 0) (nth (S i) t 0)).
Proof.
  revert t; induction i as [|i IH]; intros [|a [|b t]] Hi; simpl in Hi; try lia; [done|].
  apply (IH (b :: t)). simpl; lia.
Qed.

Lemma key_iter_bigram t e : key_iter (MkRadixKey t e true) = pairs t.
Proof.
  unfold key_iter, zrange; simpl. apply list_eq; intros i.
  rewrite list_lookup_fmap.
  destruct (decide (S i < length t)%nat) as [Hi|Hi].
  - rewrite lookup_seqZ_lt by (unfold zlen; lia). simpl. rewrite nth_pairs by done.
    f_equal. f_equal; f_equal; lia.
  - rewrite lookup_seqZ_ge by (unfold zlen; lia). simpl. symmetry. apply lookup_ge_None.
    rewrite length_pairs. lia.
Qed.

Lemma key_iter_eq k :
  key_iter k = if is_bigram k then pairs (token_ids k) else map Tok (token_ids k).
Proof. destruct k as [t e []]; [apply key_iter_bigram|done]. Qed.

Lemma zlen_units k : zlen (units k) = key_len k.
Proof.
  unfold units, key_len. rewrite zlen_map, key_iter_eq. destruct (is_bigram k).
  - unfold zlen. rewrite length_pairs. destruct (Z.ltb_spec 0 (Z.of_nat (length (token_ids k)))); lia.
  - apply zlen_map.
Qed.

Lemma key_len_nonneg k : 0 <= key_len k.
Proof. rewrite <- zlen_units. apply zlen_nonneg. Qed.

(** ** Lemmas: slices *)

Lemma key_slice_extra k a b : extra_key (key_slice k a b) = extra_key k.
Proof. unfold key_slice. by destruct (is_bigram k). Qed.

Lemma key_slice_bigram k a b : is_bigram (key_slice k a b) = is_bigram k.
Proof. unfold key_slice. destruct (is_bigram k) eqn:?; simpl; congruence. Qed.

Lemma key_iter_slice k a b :
  key_iter (key_slice k a b)
  = py_slice (key_iter k) (clamp_idx (key_len k) (default 0 a))
      (clamp_idx (key_len k) (default (key_len k) b)).
Proof.
  pose proof (key_len_nonneg k) as Hn. pose proof (zlen_units k) as Hu.
  unfold units in Hu. rewrite zlen_map in Hu.
  set (s := clamp_idx (key_len k) (default 0 a)).
  set (e := clamp_idx (key_len k) (default (key_len k) b)).
  assert (0 <= s /\ 0 <= e <= key_len k) as [Hs He].
  { unfold s, e, clamp_idx. case_match eqn:E1; case_match eqn:E2; lia. }
  unfold key_slice. fold s e. rewrite !key_iter_eq in *.
  destruct k as [t ek []]; simpl in *.
  - rewrite !py_slice_nonneg by lia. unfold zlen in Hu. rewrite length_pairs in Hu.
    destruct (Z.ltb_spec s e).
    + rewrite <- pairs_drop. replace (Z.to_nat (e + 1 - s)) with (S (Z.to_nat (e - s))) by lia.
      by rewrite pairs_take.
    + replace (Z.to_nat (e - s)) with 0%nat by lia. done.
  - rewrite !py_slice_nonneg by lia. by rewrite skipn_map, firstn_map.
Qed.

Lemma units_slice k a b :
  units (key_slice k a b)
  = py_slice (units k) (clamp_idx (key_len k) (default 0 a))
      (clamp_idx (key_len k) (default (key_len k) b)).
Proof.
  unfold units. rewrite key_slice_extra, key_iter_slice.
  assert (forall n i, 0 <= n -> 0 <= clamp_idx n i) as Hc.
  { intros n i. unfold clamp_idx. case_match; lia. }
  pose proof (key_len_nonneg k).
  rewrite !py_slice_nonneg by auto. by rewrite skipn_map, firstn_map.
Qed.

(** [key[:n]] and [key[n:]] *)
Lemma units_upto k n : 0 <= n -> units (key_slice k None (Some n)) = take (Z.to_nat n) (units k).
Proof.
  intros Hn. rewrite units_slice. simpl. pose proof (key_len_nonneg k).
  rewrite !clamp_idx_nonneg by lia. rewrite py_slice_nonneg by lia.
  rewrite (Z.min_l 0 (key_len k)), Z.sub_0_r by lia. change (drop (Z.to_nat 0) (units k)) with (units k). pose proof (zlen_units k) as Hu. unfold zlen in Hu.
  destruct (Z.le_gt_cases n (key_len k)).
  - f_equal; lia.
  - rewrite !take_ge; [done|lia..].
Qed.

Lemma units_from k n : 0 <= n -> units (key_slice k (Some n) None) = drop (Z.to_nat n) (units k).
Proof.
  intros Hn. rewrite units_slice. simpl. pose proof (key_len_nonneg k).
  rewrite !clamp_idx_nonneg by lia. rewrite py_slice_nonneg by lia.
  pose proof (zlen_units k) as Hu. unfold zlen in Hu.
  destruct (Z.le_gt_cases n (key_len k)).
  - rewrite (Z.min_l n) by lia. rewrite take_ge; [done|]. rewrite length_drop. lia.
  - rewrite !drop_ge by lia. apply take_nil.
Qed.

Lemma key_len_upto k n : 0 <= n <= key_len k -> key_len (key_slice k None (Some n)) = n.
Proof.
  intros. rewrite <- zlen_units, units_upto by lia. unfold zlen.
  rewrite length_take. pose proof (zlen_units k). unfold zlen in *. lia.
Qed.

Lemma key_len_from k n : 0 <= n <= key_len k -> key_len (key_slice k (Some n) None) = key_len k - n.
Proof.
  intros. rewrite <- zlen_units, units_from by lia. unfold zlen.
  rewrite length_drop. pose proof (zlen_units k). unfold zlen in *. lia.
Qed.

Lemma page_aligned_units k ps : 1 <= ps ->
  units (page_aligned k ps) = take (Z.to_nat (key_len k / ps * ps)) (units k).
Proof.
  intros Hps. unfold page_aligned. pose proof (key_len_nonneg k).
  destruct (Z.eqb_spec ps 1) as [->|].
  - rewrite Z.div_1_r, Z.mul_1_r, take_ge; [done|].
    pose proof (zlen_units k). unfold zlen in *. lia.
  - apply units_upto. pose proof (Z.div_pos (key_len k) ps). nia.
Qed.

Lemma page_aligned_len k ps : 1 <= ps -> key_len (page_aligned k ps) = key_len k / ps * ps.
Proof.
  intros Hps. rewrite <- zlen_units, page_aligned_units by done. unfold zlen.
  rewrite length_take. pose proof (zlen_units k). unfold zlen in *.
  pose proof (key_len_nonneg k). pose proof (Z.mul_div_le (key_len k) ps ltac:(lia)).
  pose proof (Z.div_pos (key_len k) ps ltac:(lia) ltac:(lia)). nia.
Qed.

Lemma page_aligned_aligned k ps : 1 <= ps -> aligned ps (page_aligned k ps).
Proof. intros. unfold aligned. rewrite page_aligned_len by done. by exists (key_len k / ps). Qed.

Lemma page_aligned_extra k ps : extra_key (page_aligned k ps) = extra_key k.
Proof. unfold page_aligned. case_match; [done|apply key_slice_extra]. Qed.

(** ** Lemmas: longest common prefixes *)

Section Lcp.
Context `{EqDecision A}.
Implicit Types l k : list A.

Lemma lcp_le_l l k : (lcp l k <= length l)%nat.
Proof. revert k; induction l as [|x l IH]; intros [|y k]; simpl; try case_decide; try lia. specialize (IH k). lia. Qed.

Lemma lcp_le_r l k : (lcp l k <= length k)%nat.
Proof. revert k; induction l as [|x l IH]; intros [|y k]; simpl; try case_decide; try lia. specialize (IH k). lia. Qed.

Lemma lcp_take l k : take (lcp l k) l = take (lcp l k) k.
Proof.
  revert k; induction l as [|x l IH]; intros [|y k]; simpl; try done.
  case_decide; simpl; [subst; by rewrite IH|done].
Qed.

Lemma lcp_max l k n : take n l = take n k -> (n <= length l)%nat -> (n <= length k)%nat -> (n <= lcp l k)%nat.
Proof.
  revert l k; induction n as [|n IH]; intros [|x l] [|y k]; simpl; try lia.
  intros [= -> Ht] ??. rewrite decide_True by done. specialize (IH l k Ht). lia.
Qed.

Lemma lcp_self l : lcp l l = length l.
Proof. induction l; simpl; [done|]. rewrite decide_True by done. by f_equal. Qed.
End Lcp.

Lemma lcp_map `{EqDecision A, EqDecision B} (f : A -> B) `{!Inj (=) (=) f} l k :
  lcp (map f l) (map f k) = lcp l k.
Proof.
  revert k; induction l as [|x l IH]; intros [|y k]; simpl; try done.
  destruct (decide (x = y)) as [->|Hn].
  - rewrite decide_True by done. by f_equal.
  - rewrite decide_False by (intros ?%(inj f); done). done.
Qed.

Lemma zip_match_lcp t0 t1 : zip_match t0 t1 = Z.of_nat (lcp t0 t1).
Proof.
  revert t1; induction t0 as [|a t0 IH]; intros [|b t1]; simpl; try done.
  destruct (Z.eqb_spec a b).
  - rewrite decide_True by done. rewrite IH. lia.
  - by rewrite decide_False by done.
Qed.

Lemma lcp_pairs t0 t1 : lcp (pairs t0) (pairs t1) = (lcp t0 t1 - 1)%nat.
Proof.
  revert t1; induction t0 as [|a [|b t0] IH]; intros [|a' [|b' t1]];
    try (simpl; repeat case_decide; lia || done).
  specialize (IH (b' :: t1)).
  change (pairs (a :: b :: t0)) with (Big a b :: pairs (b :: t0)).
  change (pairs (a' :: b' :: t1)) with (Big a' b' :: pairs (b' :: t1)).
  simpl in IH |- *.
  destruct (decide (a = a')) as [->|]; [|rewrite decide_False by congruence; done].
  destruct (decide (b = b')) as [->|]; [|rewrite decide_False by congruence; done].
  rewrite decide_True by done. rewrite IH. lia.
Qed.

#[export] Instance Tok_inj : Inj (=) (=) Tok.
Proof. by intros ?? [=]. Qed.

#[export] Instance label_inj (e : option string) : Inj (=) (=) (fun a : atom => (e, a)).
Proof. by intros ?? [=]. Qed.

Lemma lcp_units k o : extra_key k = extra_key o ->
  lcp (units k) (units o) = lcp (key_iter k) (key_iter o).
Proof. intros He. unfold units. rewrite <- He. apply (lcp_map _). Qed.

Definition round_down (page_size n : Z) : Z := n / page_size * page_size.

Lemma round_down_unique ps i n : 0 < ps -> (ps | i) -> i <= n < i + ps -> round_down ps n = i.
Proof.
  intros Hps [q ->] Hn. unfold round_down. f_equal. symmetry.
  apply Z.div_unique with (r := n - q * ps); lia.
Qed.

(** ** Lemmas: the page loop *)

Section PageLoop.
Context (t0 t1 : list Z) (ps : Z) (Hps : 0 < ps).
Let min_len : Z := Z.min (zlen t0) (zlen t1).

(** The loop stops where its guard fails: past [min_len], or at a page on which
    the two sequences differ. *)
Lemma page_loop_exit fuel i : 0 <= i -> min_len - i <= Z.of_nat fuel ->
  let r := page_loop fuel t0 t1 ps min_len i in
  min_len <= r \/ py_slice t0 r (r + ps) <> py_slice t1 r (r + ps).
Proof.
  revert i; induction fuel as [|fuel IH]; intros i Hi Hf; simpl; [lia|].
  destruct (Z.ltb_spec i min_len); [|lia].
  case_decide; [apply IH; lia|by right].
Qed.

Lemma page_loop_lcp fuel i :
  (ps | zlen t0) -> (ps | zlen t1) -> (ps | i) -> 0 <= i <= min_len ->
  take (Z.to_nat i) t0 = take (Z.to_nat i) t1 -> min_len - i <= Z.of_nat fuel ->
  page_loop fuel t0 t1 ps min_len i = round_down ps (Z.of_nat (lcp t0 t1)).
Proof.
  intros Hd0 Hd1. revert i; induction fuel as [|fuel IH]; intros i Hdi Hi Ht Hf.
  - simpl. assert (i = min_len) as -> by lia. symmetry. apply round_down_unique; [done..|].
    pose proof (lcp_le_l t0 t1). pose proof (lcp_le_r t0 t1).
    pose proof (lcp_max t0 t1 (Z.to_nat min_len) Ht) as Hm. unfold min_len, zlen in *. lia.
  - simpl. destruct (Z.ltb_spec i min_len) as [Hlt|].
    2:{ assert (i = min_len) as -> by lia. symmetry. apply round_down_unique; [done..|].
        pose proof (lcp_le_l t0 t1). pose proof (lcp_le_r t0 t1).
        pose proof (lcp_max t0 t1 (Z.to_nat min_len) Ht) as Hm. unfold min_len, zlen in *. lia. }
    assert (i + ps <= min_len) as Hnext.
    { pose proof (divide_lt_step ps i (zlen t0) Hps Hdi Hd0).
      pose proof (divide_lt_step ps i (zlen t1) Hps Hdi Hd1).
      unfold min_len in *. lia. }
    rewrite !py_slice_nonneg by lia.
    replace (Z.to_nat (i + ps - i)) with (Z.to_nat ps) by lia.
    assert (forall t : list Z, take (Z.to_nat (i + ps)) t
              = take (Z.to_nat i) t ++ take (Z.to_nat ps) (drop (Z.to_nat i) t)) as Hsplit.
    { intros t. rewrite take_take_drop. f_equal. lia. }
    case_decide as Hpage.
    + apply IH; [|lia| |lia].
      * apply Z.divide_add_r; [done|by exists 1; lia].
      * rewrite !Hsplit. congruence.
    + symmetry. apply round_down_unique; [done..|].
      pose proof (lcp_max t0 t1 (Z.to_nat i) Ht) as Hm.
      destruct (decide (i + ps <= Z.of_nat (lcp t0 t1))) as [Hge|]; [|unfold min_len, zlen in *; lia].
      exfalso. apply Hpage.
      assert (take (Z.to_nat (i + ps)) t0 = take (Z.to_nat (i + ps)) t1) as Heq.
      { pose proof (lcp_take t0 t1) as Hl.
        apply (f_equal (take (Z.to_nat (i + ps)))) in Hl. rewrite !take_take in Hl.
        rewrite !Nat.min_l in Hl by lia. done. }
      rewrite !Hsplit in Heq. rewrite Ht in Heq. by apply app_inv_head in Heq.
Qed.
End PageLoop.

(** [match] on keys of the same view. *)
Lemma key_match_lcp k o ps : 1 <= ps -> aligned ps k -> aligned ps o ->
  extra_key k = extra_key o -> is_bigram k = is_bigram o ->
  key_match k o ps = Ok (round_down ps (Z.of_nat (lcp (units k) (units o)))).
Proof.
  intros Hps Hk Ho He Hb. rewrite lcp_units by done. unfold key_match, check_compatible.
  rewrite decide_True by done. simpl. unfold aligned in *. rewrite !key_iter_eq, <- Hb.
  destruct (is_bigram k) eqn:Hbk.
  - rewrite zip_match_lcp, lcp_pairs.
    pose proof (lcp_le_l (token_ids k) (token_ids o)). pose proof (lcp_le_r (token_ids k) (token_ids o)).
    set (n := lcp _ _) in *.
    assert (Z.max 0 (Z.min (Z.of_nat n - 1) (Z.min (key_len k) (key_len o))) = Z.of_nat (n - 1)) as ->.
    { unfold key_len. rewrite <- Hb, Hbk. unfold zlen. repeat case_match; lia. }
    f_equal. destruct (Z.ltb_spec 1 ps); [done|].
    assert (ps = 1) as -> by lia. unfold round_down. rewrite Z.div_1_r. lia.
  - rewrite (lcp_map _). destruct (Z.eqb_spec ps 1) as [->|].
    + unfold round_down. rewrite zip_match_lcp, Z.div_1_r. f_equal. lia.
    + f_equal. unfold key_len in *. rewrite <- Hb, Hbk in *. apply page_loop_lcp; try done; try lia.
      * by exists 0.
      * pose proof (zlen_nonneg (token_ids k)). pose proof (zlen_nonneg (token_ids o)). lia.
Qed.

(** ** Lemmas: dictionary keys *)

Definition atom_val (a : atom) : pyval :=
  match a with
  | Tok t => VInt t
  | Big a b => VTuple [VInt a; VInt b]
  end.

(** The dictionary key of the first [page_size] units. *)
Definition encode (ps : Z) (e : option string) (l : list atom) : pyval :=
  let plain := if ps =? 1 then default (VInt 0) (atom_val <$> head l) else VTuple (map atom_val l) in
  match e with
  | None => plain
  | Some e => VTuple [VStr e; plain]
  end.

#[export] Instance atom_val_inj : Inj (=) (=) atom_val.
Proof. intros [t|a b] [t'|a' b']; simpl; congruence. Qed.

Lemma encode_inj ps e e' l l' : 1 <= ps -> zlen l = ps -> zlen l' = ps ->
  encode ps e l = encode ps e' l' -> e = e' /\ l = l'.
Proof.
  intros Hps Hl Hl' Heq. unfold encode in Heq. unfold zlen in *.
  destruct l as [|a l]; [simpl in *; lia|]. destruct l' as [|a' l']; [simpl in *; lia|].
  destruct (Z.eqb_spec ps 1) as [->|].
  - destruct l; [|simpl in *; lia]. destruct l'; [|simpl in *; lia]. simpl in Heq.
    destruct e, e', a, a'; simpl in Heq; simplify_eq; done.
  - destruct e, e'; simpl in Heq; simplify_eq.
    + done.
    + destruct a'; simpl in *; congruence.
    + destruct a; simpl in *; congruence.
    + done.
Qed.

Lemma index_ok l i : 0 <= i < zlen l -> index l i = Ok (nth (Z.to_nat i) l 0).
Proof.
  intros Hi. unfold index, zlen in *.
  destruct (Z.ltb_spec i 0) as [|Hneg]; [lia|]. apply Z.ltb_ge in Hneg as ->.
  destruct (lookup_lt_is_Some_2 l (Z.to_nat i)) as [x Hx]; [lia|].
  rewrite Hx. by rewrite (nth_lookup_Some _ _ _ _ Hx).
Qed.

Lemma collect_ok {A} (f : Z -> res A) (g : Z -> A) js :
  Forall (fun j => f j = Ok (g j)) js -> collect f js = Ok (map g js).
Proof. induction 1 as [|j js Hj _ IH]; simpl; [done|]. by rewrite Hj, IH. Qed.

Lemma bigram_at_ok t j : 0 <= j -> j + 1 < zlen t ->
  bigram_at t j = Ok (atom_val (Big (nth (Z.to_nat j) t 0) (nth (Z.to_nat (j + 1)) t 0))).
Proof. intros. unfold bigram_at. by rewrite !index_ok by lia. Qed.

Lemma child_key_encode k ps : 1 <= ps <= key_len k ->
  child_key k ps = Ok (encode ps (extra_key k) (take (Z.to_nat ps) (key_iter k))).
Proof.
  intros Hps. unfold child_key, encode, key_len in *. destruct k as [t e []]; simpl in *.
  - assert (ps < zlen t) by (destruct (Z.ltb_spec 0 (zlen t)); lia).
    destruct (Z.eqb_spec ps 1) as [->|].
    + rewrite bigram_at_ok by lia. rewrite key_iter_bigram.
      destruct t as [|a [|b t]]; [unfold zlen in *; simpl in *; lia..|]. by destruct e.
    + rewrite (collect_ok _ (fun j => atom_val (Big (nth (Z.to_nat j) t 0) (nth (Z.to_nat (j + 1)) t 0)))).
      2:{ apply Forall_forall. intros j Hj%elem_of_zrange. apply bigram_at_ok; lia. }
      unfold key_iter; simpl. rewrite firstn_map, map_map.
      replace (take (Z.to_nat ps) (zrange 0 (zlen t - 1))) with (zrange 0 ps); [by destruct e|].
      rewrite <- (take_zrange 0 ps (zlen t - 1)) by lia. do 2 f_equal. lia.
  - destruct (Z.eqb_spec ps 1) as [->|].
    + rewrite index_ok by lia. simpl. unfold key_iter; simpl.
      destruct t as [|a t]; [unfold zlen in *; simpl in *; lia|]. by destruct e.
    + simpl. rewrite py_upto_nonneg by lia. unfold key_iter; simpl.
      rewrite firstn_map, map_map. simpl. by destruct e.
Qed.

Lemma zlen_key_iter k : zlen (key_iter k) = key_len k.
Proof. pose proof (zlen_units k) as H. unfold units in H. by rewrite zlen_map in H. Qed.

Lemma units_take_inj k o n : 0 < n <= key_len k -> n <= key_len o ->
  take (Z.to_nat n) (units k) = take (Z.to_nat n) (units o) <->
  extra_key k = extra_key o /\ take (Z.to_nat n) (key_iter k) = take (Z.to_nat n) (key_iter o).
Proof.
  intros Hk Ho. unfold units. rewrite !firstn_map. split.
  - intros Heq. pose proof (zlen_key_iter k) as Hlk. pose proof (zlen_key_iter o) as Hlo.
    assert (extra_key k = extra_key o) as He.
    { unfold zlen in *. destruct (key_iter k) as [|a l]; [simpl in *; lia|].
      destruct (key_iter o) as [|b l']; [simpl in *; lia|].
      destruct (Z.to_nat n) eqn:E; [lia|]. simpl in Heq. congruence. }
    split; [done|]. rewrite <- He in Heq. by apply (inj (fmap _)) in Heq.
  - intros [-> ->]. done.
Qed.

(** Two keys have the same dictionary key exactly when their first page of
    labelled units is the same. *)
Lemma child_key_inj k o ps : 1 <= ps <= key_len k -> ps <= key_len o ->
  child_key k ps = child_key o ps <->
  take (Z.to_nat ps) (units k) = take (Z.to_nat ps) (units o).
Proof.
  intros Hk Ho. rewrite !child_key_encode by lia. rewrite units_take_inj by lia.
  pose proof (zlen_key_iter k) as Hlk. pose proof (zlen_key_iter o) as Hlo. split.
  - intros [= Heq]. apply encode_inj in Heq; [done|lia|..];
      unfold zlen in *; rewrite length_take; lia.
  - intros [-> ->]. done.
Qed.

(** Keys with a common first unit have the same view. *)
Lemma units_head_view k o n : 0 < n <= key_len k -> n <= key_len o ->
  take (Z.to_nat n) (units k) = take (Z.to_nat n) (units o) -> is_bigram k = is_bigram o.
Proof.
  intros Hk Ho. rewrite units_take_inj by lia. intros [_ Heq].
  pose proof (zlen_key_iter k) as Hlk. pose proof (zlen_key_iter o) as Hlo.
  rewrite !key_iter_eq in *. unfold zlen in *.
  destruct (is_bigram k), (is_bigram o); try done.
  - destruct (pairs (token_ids k)) as [|a l] eqn:Ep; [simpl in *; lia|].
    destruct (token_ids o); [simpl in *; lia|]. destruct (Z.to_nat n) eqn:E; [lia|].
    simpl in Heq. destruct (token_ids k) as [|? []]; simpl in Ep; simplify_eq.
  - destruct (pairs (token_ids o)) as [|a l] eqn:Ep; [simpl in *; lia|].
    destruct (token_ids k); [simpl in *; lia|]. destruct (Z.to_nat n) eqn:E; [lia|].
    simpl in Heq. destruct (token_ids o) as [|? []]; simpl in Ep; simplify_eq.
Qed.

(** ** Lemmas: hexadecimal strings *)

Definition is_byte (x : Z) : Prop := 0 <= x < 256.

Lemma hex_digit_table :
  forallb (fun n => bool_decide (hex_val (hex_digit n) = Some n) && negb (is_space (hex_digit n)))
    (zrange 0 16) = true.
Proof. reflexivity. Qed.

Lemma hex_val_digit n : 0 <= n < 16 -> hex_val (hex_digit n) = Some n /\ is_space (hex_digit n) = false.
Proof.
  intros Hn. pose proof hex_digit_table as Ht. rewrite forallb_forall in Ht.
  specialize (Ht n). rewrite <- list_elem_of_In, elem_of_zrange in Ht.
  apply andb_true_iff in Ht as [H1%bool_decide_eq_true H2%negb_true_iff]; [done|lia].
Qed.

Lemma byte_digits x : is_byte x -> 0 <= x / 16 < 16 /\ 0 <= x mod 16 < 16.
Proof.
  intros [? ?]. split; [|apply Z.mod_pos_bound; lia].
  split; [apply Z.div_pos; lia|apply Z.div_lt_upper_bound; lia].
Qed.

Lemma fromhex_hex b : Forall is_byte b -> fromhex (hex_of_bytes b) = Ok b.
Proof.
  induction 1 as [|x b Hx _ IH]; [done|]. cbn [hex_of_bytes fromhex].
  destruct (byte_digits x Hx) as [H1 H2].
  destruct (hex_val_digit _ H1) as [V1 S1], (hex_val_digit _ H2) as [V2 _].
  rewrite S1, V1, V2, IH. simpl. do 2 f_equal. pose proof (Z.div_mod x 16). lia.
Qed.

(** Big-endian value of a byte string. *)
Definition be_int (acc : Z) (b : list Z) : Z := foldl (fun a x => 256 * a + x) acc b.

Lemma hex_int_from_hex b acc : Forall is_byte b ->
  hex_int_from acc (hex_of_bytes b) = Ok (be_int acc b).
Proof.
  intros Hb. revert acc. induction Hb as [|x b Hx _ IH]; intros acc; [done|].
  cbn [hex_of_bytes hex_int_from]. destruct (byte_digits x Hx) as [H1 H2].
  destruct (hex_val_digit _ H1) as [-> _], (hex_val_digit _ H2) as [-> _].
  rewrite IH. simpl. do 2 f_equal. pose proof (Z.div_mod x 16). lia.
Qed.

Lemma str_upto_hex n b : str_upto (2 * n) (hex_of_bytes b) = hex_of_bytes (take n b).
Proof.
  revert b; induction n as [|n IH]; intros b; [by destruct b|].
  replace (2 * S n)%nat with (S (S (2 * n))) by lia.
  destruct b as [|x b]; [done|]. simpl. by rewrite <- IH.
Qed.

Lemma be_int_bounds b acc : Forall is_byte b -> 0 <= acc ->
  acc * 256 ^ zlen b <= be_int acc b < (acc + 1) * 256 ^ zlen b.
Proof.
  intros Hb. revert acc. induction Hb as [|x b [Hx ?] _ IH]; intros acc Hacc.
  - unfold zlen; simpl. lia.
  - simpl. specialize (IH (256 * acc + x) ltac:(lia)). rewrite zlen_cons.
    rewrite Z.pow_add_r by (pose proof (zlen_nonneg b); lia).
    pose proof (Z.pow_pos_nonneg 256 (zlen b) ltac:(lia) (zlen_nonneg b)). nia.
Qed.

Lemma hash_int64_digest d : Forall is_byte d -> 8 <= zlen d ->
  exists v, hash_str_to_int64 (hex_of_bytes d) = Ok v
  /\ - 2 ^ 63 <= v < 2 ^ 63 /\ v mod 2 ^ 64 = be_int 0 (take 8 d).
Proof.
  intros Hd Hlen.
  assert (Forall is_byte (take 8 d)) as H8 by by apply Forall_take.
  assert (zlen (take 8 d) = 8) as Hz by (unfold zlen in *; rewrite length_take; lia).
  pose proof (be_int_bounds (take 8 d) 0 H8 ltac:(lia)) as Hb. rewrite Hz in Hb.
  change (256 ^ 8) with (2 ^ 64) in Hb.
  unfold hash_str_to_int64, hex_int. rewrite (str_upto_hex 8).
  assert (exists c s, hex_of_bytes (take 8 d) = String c s) as (c & s & Hcs).
  { destruct d; [unfold zlen in *; simpl in *; lia|]. simpl. eauto. }
  rewrite Hcs, <- Hcs, hex_int_from_hex by done. simpl res_bind.
  eexists; split; [done|]. destruct (Z.leb_spec (2 ^ 63) (be_int 0 (take 8 d))).
  - split; [lia|]. symmetry. apply Z.mod_unique with (q := -1); lia.
  - split; [lia|]. apply Z.mod_small. lia.
Qed.

(** ** Properties *)

(** [match] computes the longest common prefix of the logical units of the two
    keys, rounded down to whole pages, for page-aligned keys of one namespace and
    one view (token or bigram). *)
Theorem match_is_page_lcp k o ps
    (Hps : 1 <= ps) (Hk : aligned ps k) (Ho : aligned ps o)
    (He : extra_key k = extra_key o) (Hb : is_bigram k = is_bigram o) :
  exists n, key_match k o ps = Ok n
  /\ (ps | n) /\ 0 <= n <= key_len k /\ n <= key_len o
  /\ units (key_slice k None (Some n)) = units (key_slice o None (Some n))
  /\ (forall m, (ps | m) -> 0 <= m <= key_len k -> m <= key_len o ->
        units (key_slice k None (Some m)) = units (key_slice o None (Some m)) -> m <= n).
Proof.
  set (L := Z.of_nat (lcp (units k) (units o))).
  assert (L <= key_len k /\ L <= key_len o) as [HLk HLo].
  { rewrite <- !zlen_units. unfold L, zlen.
    pose proof (lcp_le_l (units k) (units o)). pose proof (lcp_le_r (units k) (units o)). lia. }
  assert (0 <= round_down ps L <= L) as Hr.
  { unfold round_down. pose proof (Z.mul_div_le L ps). pose proof (Z.div_pos L ps). lia. }
  exists (round_down ps L). split; [by apply key_match_lcp|].
  split; [by exists (L / ps)|]. split; [lia|]. split; [lia|].
  rewrite !units_upto by lia. split.
  - pose proof (lcp_take (units k) (units o)) as Ht.
    apply (f_equal (take (Z.to_nat (round_down ps L)))) in Ht.
    rewrite !take_take, !Nat.min_l in Ht by lia. done.
  - intros m Hm Hmk Hmo. rewrite !units_upto by lia. intros Hu.
    pose proof (zlen_units k) as Hzk. pose proof (zlen_units o) as Hzo. unfold zlen in *.
    pose proof (lcp_max _ _ _ Hu) as Hle. destruct Hm as [q ->].
    unfold round_down. apply Z.mul_le_mono_nonneg_r; [lia|].
    apply Z.div_le_lower_bound; lia.
Qed.

(** The dictionary keys of the tree are faithful: two keys of at least one page
    have the same [child_key] exactly when their namespaces and their first page of
    units agree; in particular namespaces and views never collide. *)
Theorem child_key_faithful k o ps (Hps : 1 <= ps) (Hk : ps <= key_len k) (Ho : ps <= key_len o) :
  child_key k ps = child_key o ps <->
  extra_key k = extra_key o
  /\ key_iter (key_slice k None (Some ps)) = key_iter (key_slice o None (Some ps)).
Proof.
  rewrite child_key_inj by lia. rewrite units_take_inj by lia.
  rewrite !key_iter_slice. simpl.
  rewrite !clamp_idx_nonneg by (try apply key_len_nonneg; lia).
  rewrite !py_slice_nonneg by lia.
  rewrite !(Z.min_l ps) by lia. rewrite !(Z.min_l 0) by lia.
  rewrite Z.sub_0_r. reflexivity.
Qed.

(** the event identifier of a page hash is the signed 64-bit big-endian value of
    the first eight digest bytes, so it always fits an int64. *)
Theorem hash_str_to_int64_range d (Hd : Forall is_byte d) (Hlen : 8 <= zlen d) :
  exists v, hash_str_to_int64 (hex_of_bytes d) = Ok v
  /\ - 2 ^ 63 <= v < 2 ^ 63 /\ v mod 2 ^ 64 = be_int 0 (take 8 d).
Proof. by apply hash_int64_digest. Qed.

Lemma page_loop_divide fuel t0 t1 ps n i : (ps | i) -> (ps | page_loop fuel t0 t1 ps n i).
Proof.
  revert i; induction fuel as [|fuel IH]; intros i Hi; simpl; [done|].
  repeat case_match; try done. apply IH. apply Z.divide_add_r; [done|]. by exists 1; lia.
Qed.

(** on token keys that are not page-aligned, [match] of a key with itself
    exceeds the key's length: the last, partial page counts as a whole page. *)
Theorem match_unaligned_overshoots t e ps (Hps : 2 <= ps) (Hna : zlen t mod ps <> 0) :
  exists n, key_match (MkRadixKey t e false) (MkRadixKey t e false) ps = Ok n /\ zlen t < n.
Proof.
  unfold key_match, check_compatible. rewrite decide_True by done. simpl.
  destruct (Z.eqb_spec ps 1); [lia|]. unfold key_len; simpl. rewrite Z.min_id.
  eexists; split; [done|].
  pose proof (page_loop_divide (Z.to_nat (zlen t)) t t ps (zlen t) 0 (Z.divide_0_r ps)) as Hd.
  pose proof (page_loop_exit t t ps ltac:(lia) (Z.to_nat (zlen t)) 0 ltac:(lia)) as Hx.
  cbn zeta in Hx. rewrite Z.min_id in Hx. pose proof (zlen_nonneg t).
  destruct Hx as [Hx|Hx]; [lia| |done].
  apply Z.le_neq. split; [done|]. intros Heq. rewrite <- Heq in Hd.
  apply Hna, Z.mod_divide; [lia|done].
Qed.

(** *** Witnesses *)

Definition sample_key (t : list Z) : RadixKey := MkRadixKey t (Some "lora-1"%string) true.

Lemma match_is_page_lcp_witness :
  exists n, key_match (sample_key [1; 2; 3; 4; 5]) (sample_key [1; 2; 3; 9; 5]) 2 = Ok n
  /\ (2 | n) /\ 0 <= n <= 4 /\ n <= 4.
Proof.
  destruct (match_is_page_lcp (sample_key [1; 2; 3; 4; 5]) (sample_key [1; 2; 3; 9; 5]) 2)
    as (n & Hn & Hd & Hk & Ho & _); [lia|by exists 2|by exists 2|done|done|].
  by exists n.
Defined.

Lemma child_key_faithful_witness :
  child_key (sample_key [1; 2; 3]) 2 <> child_key (MkRadixKey [1; 2; 3] None true) 2.
Proof.
  intros H.
  destruct (proj1 (child_key_faithful (sample_key [1; 2; 3]) (MkRadixKey [1; 2; 3] None true) 2
    ltac:(lia) ltac:(vm_compute; discriminate) ltac:(vm_compute; discriminate)) H) as [He _].
  discriminate He.
Defined.

Lemma hash_str_to_int64_range_witness :
  exists v, hash_str_to_int64 (hex_of_bytes (zrange 248 256)) = Ok v /\ - 2 ^ 63 <= v < 2 ^ 63.
Proof.
  destruct (hash_str_to_int64_range (zrange 248 256)) as (v & Hv & Hr & _).
  - apply Forall_forall. intros x Hx%elem_of_zrange. unfold is_byte. lia.
  - vm_compute; discriminate.
  - by exists v.
Defined.

Lemma match_unaligned_overshoots_witness :
  exists n, key_match (MkRadixKey [7; 8; 9] None false) (MkRadixKey [7; 8; 9] None false) 2 = Ok n
  /\ 3 < n.
Proof. apply (match_unaligned_overshoots [7; 8; 9] None 2); [lia|discriminate]. Defined.
