(* ===== verification/ReqPool.v ===== *)
(** Requests and the request-to-token table: the fields of [Req]
    ([managers/schedule_batch.py]) that the memory caches read and write,
    [Req.pop_committed_kv_cache] and [pop_overallocated_kv_cache], and
    [ReqToTokenPool] of [mem_cache/memory_pool.py]. *)

From stdpp Require Export strings.
From S2P Require Export Prelude.
From S2P Require Import Allocator.

(** ** Requests *)

(** [last_node] is the identifier of the tree node the request has locked. *)
Record Req : Type := MkReq {
  req_pool_idx : option Z;
  origin_input_ids : list Z;
  output_ids : list Z;
  fill_ids : list Z;
  req_extra_key : option string;
  req_priority : option Z;
  prefix_indices : list Z;
  last_node : option nat;
  cache_protected_len : Z;
  is_chunked : Z;
  kv_committed_len : Z;
  kv_allocated_len : Z;
  kv_committed_freed : bool;
  kv_overallocated_freed : bool;
  reasoning_tokens : Z
}.

Definition set_req_pool_idx (r : Req) (i : option Z) : Req :=
  MkReq i (origin_input_ids r) (output_ids r) (fill_ids r) (req_extra_key r) (req_priority r)
    (prefix_indices r) (last_node r) (cache_protected_len r) (is_chunked r) (kv_committed_len r)
    (kv_allocated_len r) (kv_committed_freed r) (kv_overallocated_freed r) (reasoning_tokens r).

Definition set_req_freed (r : Req) (committed over : bool) : Req :=
  MkReq (req_pool_idx r) (origin_input_ids r) (output_ids r) (fill_ids r) (req_extra_key r)
    (req_priority r) (prefix_indices r) (last_node r) (cache_protected_len r) (is_chunked r)
    (kv_committed_len r) (kv_allocated_len r) committed over (reasoning_tokens r).

Definition set_req_prefix (r : Req) (prefix : list Z) (node : option nat) (protected : Z) : Req :=
  MkReq (req_pool_idx r) (origin_input_ids r) (output_ids r) (fill_ids r) (req_extra_key r)
    (req_priority r) prefix node protected (is_chunked r) (kv_committed_len r)
    (kv_allocated_len r) (kv_committed_freed r) (kv_overallocated_freed r) (reasoning_tokens r).

(** [strip] is the server argument [strip_thinking_cache]. *)
Definition cache_commit_len (strip : bool) (r : Req) : Z :=
  if strip && (0 <? reasoning_tokens r)
  then Z.min (kv_committed_len r) (zlen (origin_input_ids r))
  else kv_committed_len r.

Definition pop_committed_kv_cache (strip : bool) (r : Req) : res (Z * Req) :=
  let* _ := py_assert (negb (kv_committed_freed r)) in
  let r := set_req_freed r true (kv_overallocated_freed r) in
  Ok (cache_commit_len strip r, r).

Definition pop_overallocated_kv_cache (strip : bool) (r : Req) : res (Z * Z * Req) :=
  let* _ := py_assert (negb (kv_overallocated_freed r)) in
  let r := set_req_freed r (kv_committed_freed r) true in
  Ok (cache_commit_len strip r, kv_allocated_len r, r).

(** ** The table *)

Record ReqToTokenPool : Type := MkReqPool {
  pool_size : Z;
  max_context_len : Z;
  req_to_token : list (list Z);
  free_slots : list Z
}.

Definition pool_init (size max_context_len : Z) : ReqToTokenPool :=
  let alloc_size := size + 1 in
  MkReqPool size max_context_len
    (repeat (repeat 0 (Z.to_nat max_context_len)) (Z.to_nat alloc_size)) (zrange 1 alloc_size).

Definition set_free_slots (p : ReqToTokenPool) (l : list Z) : ReqToTokenPool :=
  MkReqPool (pool_size p) (max_context_len p) (req_to_token p) l.

Definition pool_available_size (p : ReqToTokenPool) : Z := zlen (free_slots p).

Definition has_slot (r : Req) : bool := match req_pool_idx r with Some _ => true | None => false end.

(** The loop that hands out the selected slots. *)
Fixpoint assign_slots (reqs : list Req) (select_index : list Z) : res (list Req) :=
  match reqs with
  | [] => Ok []
  | r :: reqs =>
      if has_slot r then let* rs := assign_slots reqs select_index in Ok (r :: rs)
      else match select_index with
           | [] => Raise IndexError
           | i :: sel =>
               let* rs := assign_slots reqs sel in
               Ok (set_req_pool_idx r (Some i) :: rs)
           end
  end.

(** Returns the slots of the requests, the updated requests and the pool;
    [None] when too few slots are free. *)
Definition pool_alloc (p : ReqToTokenPool) (reqs : list Req)
  : res (option (list (option Z) * list Req * ReqToTokenPool)) :=
  let reusing := filter (fun r => has_slot r = true) reqs in
  let* _ := py_assert
    (forallb (fun r => (0 <? is_chunked r) || (0 <? kv_committed_len r)) reusing) in
  let need_size := zlen reqs - zlen reusing in
  if zlen (free_slots p) <? need_size then Ok None
  else
    let select_index := py_upto (free_slots p) need_size in
    let p := set_free_slots p (py_from (free_slots p) need_size) in
    let* reqs := assign_slots reqs select_index in
    Ok (Some (map req_pool_idx reqs, reqs, p)).

Definition pool_free (p : ReqToTokenPool) (r : Req) : res (ReqToTokenPool * Req) :=
  match req_pool_idx r with
  | None => Raise AssertionError
  | Some i => Ok (set_free_slots p (free_slots p ++ [i]), set_req_pool_idx r None)
  end.

Definition pool_clear (p : ReqToTokenPool) : ReqToTokenPool :=
  set_free_slots p (zrange 1 (pool_size p + 1)).

(** The row that index [i] selects. *)
Definition row_at (p : ReqToTokenPool) (i : Z) : option (nat * list Z) :=
  match wrap_index (zlen (req_to_token p)) i with
  | Some j => match req_to_token p !! j with Some row => Some (j, row) | None => None end
  | None => None
  end.

(** [req_to_token[i, :n]] *)
Definition read_row (p : ReqToTokenPool) (i : option Z) (n : Z) : res (list Z) :=
  match i with
  | None => Raise TypeError
  | Some i =>
      match row_at p i with
      | Some (_, row) => Ok (py_upto row n)
      | None => Raise IndexError
      end
  end.

(** [write((i, slice(a, b)), values)]: the values are stored as int32; one value
    is broadcast, otherwise their number must be the length of the slice. *)
Definition write_row (p : ReqToTokenPool) (i : option Z) (a b : Z) (values : list Z)
  : res ReqToTokenPool :=
  match i with
  | None => Raise TypeError
  | Some i =>
      match row_at p i with
      | None => Raise IndexError
      | Some (j, row) =>
          let n := zlen (py_slice row a b) in
          let values := match values with [v] => repeat v (Z.to_nat n) | _ => values end in
          if zlen values =? n then
            let lo := clamp_idx (zlen row) a in
            let row := take (Z.to_nat lo) row ++ map to_int32 values
                       ++ drop (Z.to_nat lo + length values) row in
            Ok (MkReqPool (pool_size p) (max_context_len p)
                  (<[j := row]> (req_to_token p)) (free_slots p))
          else Raise RuntimeError
      end
  end.

Lemma row_at_update p i j row row' : row_at p i = Some (j, row) ->
  row_at (MkReqPool (pool_size p) (max_context_len p) (<[j := row']> (req_to_token p)) (free_slots p)) i
    = Some (j, row').
Proof.
  unfold row_at. simpl. unfold zlen. rewrite length_insert. destruct (wrap_index _ i) as [j'|]; [|done].
  destruct (req_to_token p !! j') as [r|] eqn:E; [|done]. intros [= -> ->].
  rewrite list_lookup_insert_eq; [done|]. by eapply lookup_lt_Some.
Qed.

(** A write inside the row replaces the slice. *)
Lemma write_row_inside p i a b values row :
  0 <= i -> req_to_token p !! Z.to_nat i = Some row -> 0 <= a <= b -> b <= zlen row -> zlen values = b - a ->
  write_row p (Some i) a b values
  = Ok (MkReqPool (pool_size p) (max_context_len p)
          (<[Z.to_nat i := take (Z.to_nat a) row ++ map to_int32 values ++ drop (Z.to_nat b) row]> (req_to_token p))
          (free_slots p)).
Proof.
  intros Hi Hrow Ha Hb Hv. pose proof (lookup_lt_Some _ _ _ Hrow) as Hlt. unfold write_row, row_at.
  rewrite wrap_index_in by (unfold zlen; lia). rewrite Hrow.
  assert (zlen (py_slice row a b) = b - a) as Hs.
  { rewrite py_slice_nonneg by lia. unfold zlen in *. rewrite length_take, length_drop. lia. }
  assert (match values with [v] => repeat v (Z.to_nat (zlen (py_slice row a b))) | _ => values end = values) as ->.
  { destruct values as [|v [|w l]]; [done| |done]. rewrite Hs, <- Hv. done. }
  rewrite Hs, Hv, Z.eqb_refl, clamp_idx_nonneg, Z.min_l by lia. do 6 f_equal. unfold zlen in Hv. lia.
Qed.
