(* ===== verification/KVTable.v ===== *)
(** The request table of [mem_cache/common.py]: [write_req_to_token_pool_triton]
    and [write_cache_indices], which record the KV indices of a prefill batch, and
    the variants of [get_last_loc], which read back the last index of a prefix.
    The Triton kernels work on the row-major memory of the table; the theorems show
    that they agree with the torch code of the other backends. *)

From S2P Require Export Prelude Triton ReqPool.

(** ** Writing the table *)

Section Write.
Context (oob : Z -> Z).

(** The values are int64 and the table int32.  [prefix_tensors] are pointers to the
    prefixes; a masked lane of a block is not stored. *)
Definition write_req_to_token_pool_triton (req_pool_indices : list Z) (prefix_tensors : list (list Z))
    (pre_lens seq_lens extend_lens out_cache_loc : list Z) (req_to_token_ptr_stride pid : Z)
    (req_to_token : list Z) : option (list Z) :=
  let BLOCK_SIZE := 512 in
  let req_pool_index := tl_load oob req_pool_indices pid in
  let pre_len := tl_load oob pre_lens pid in
  let seq_len := tl_load oob seq_lens pid in
  let prefix_tensor := default [] (prefix_tensors !! Z.to_nat pid) in
  let num_loop := cdiv pre_len BLOCK_SIZE in
  req_to_token ← tl_for (zrange 0 num_loop)
    (fun i b =>
       tl_store b BLOCK_SIZE
         (fun o => req_pool_index * req_to_token_ptr_stride + (o + i * BLOCK_SIZE))
         (fun o => to_int32 (tl_load oob prefix_tensor (o + i * BLOCK_SIZE)))
         (fun o => o + i * BLOCK_SIZE <? pre_len)) req_to_token;
  let cumsum_start := zsum (map (tl_load oob extend_lens) (zrange 0 pid)) in
  let num_loop := cdiv (seq_len - pre_len) BLOCK_SIZE in
  tl_for (zrange 0 num_loop)
    (fun i b =>
       tl_store b BLOCK_SIZE
         (fun o => req_pool_index * req_to_token_ptr_stride + (o + i * BLOCK_SIZE) + pre_len)
         (fun o => to_int32 (tl_load oob out_cache_loc (cumsum_start + (o + i * BLOCK_SIZE))))
         (fun o => o + i * BLOCK_SIZE <? seq_len - pre_len)) req_to_token.

Definition set_table (p : ReqToTokenPool) (t : list (list Z)) : ReqToTokenPool :=
  MkReqPool (pool_size p) (max_context_len p) t (free_slots p).

(** The loop of the fallback branch. *)
Fixpoint write_loop (req_pool_indices prefix_lens seq_lens extend_lens : list Z)
    (prefix_tensors : list (list Z)) (out_cache_loc : list Z) (pt : Z) (pool : ReqToTokenPool)
    : res ReqToTokenPool :=
  match req_pool_indices, prefix_lens, seq_lens, extend_lens, prefix_tensors with
  | [], _, _, _, _ => Ok pool
  | req_idx :: idx, prefix_len :: pre, seq_len :: seq, extend_len :: ext, prefix :: prefixes =>
      let* pool := write_row pool (Some req_idx) 0 prefix_len prefix in
      let* pool := write_row pool (Some req_idx) prefix_len seq_len
                     (py_slice out_cache_loc pt (pt + extend_len)) in
      write_loop idx pre seq ext prefixes out_cache_loc (pt + extend_len) pool
  | _, _, _, _, _ => Raise IndexError
  end.

(** [order] is the order in which the programs of the grid run. *)
Definition write_cache_indices (support_triton : bool) (order : list Z) (out_cache_loc : list Z)
    (req_pool_indices prefix_lens seq_lens extend_lens : list Z) (prefix_tensors : list (list Z))
    (pool : ReqToTokenPool) : res ReqToTokenPool :=
  if support_triton then
    match tl_run order
            (write_req_to_token_pool_triton req_pool_indices prefix_tensors prefix_lens seq_lens
               extend_lens out_cache_loc (max_context_len pool)) (concat (req_to_token pool)) with
    | Some b => Ok (set_table pool (view_rows (max_context_len pool) (length (req_to_token pool)) b))
    | None => Raise RuntimeError
    end
  else write_loop req_pool_indices prefix_lens seq_lens extend_lens prefix_tensors out_cache_loc 0 pool.
End Write.

(** ** Reading the last index of a prefix *)

Section LastLoc.
Context (oob : Z -> Z).

Definition get_last_loc_torch (req_to_token : list (list Z)) (req_pool_indices prefix_lens : list Z)
    : res (list Z) :=
  let* tokens := gather2 req_to_token req_pool_indices (map (fun p => p - 1) prefix_lens) in
  Ok (zip_with (fun p t => if 0 <? p then t else -1) prefix_lens tokens).

Definition get_last_loc_kernel (req_to_token req_pool_indices_tensor prefix_lens_tensor : list Z)
    (num_tokens req_to_token_stride BLOCK_SIZE pid : Z) (result : list Z) : option (list Z) :=
  let offset o := o + pid * BLOCK_SIZE in
  let mask o := offset o <? num_tokens in
  let prefix_lens o := if mask o then tl_load oob prefix_lens_tensor (offset o) else 0 in
  let req_pool_indices o := if mask o then tl_load oob req_pool_indices_tensor (offset o) else 0 in
  let token_mask o := 0 <? prefix_lens o in
  let token_index o := req_pool_indices o * req_to_token_stride + (prefix_lens o - 1) in
  let tokens o := if token_mask o then tl_load oob req_to_token (token_index o) else -1 in
  tl_store result BLOCK_SIZE offset tokens mask.

(** [wide] is [PREFIX_DTYPE_IS_I64]; the products of the two branches are both exact
    in 64 bits.  The result buffer is int32 and promoted by the caller. *)
Definition _get_last_loc_safe_kernel (wide : bool) (req_to_token req_pool_indices_tensor prefix_lens_tensor : list Z)
    (num_tokens req_to_token_stride BLOCK_SIZE pid : Z) (result_i32 : list Z) : option (list Z) :=
  let offset o := o + pid * BLOCK_SIZE in
  let mask o := offset o <? num_tokens in
  let prefix_lens o := if mask o then tl_load oob prefix_lens_tensor (offset o) else 0 in
  let req_pool_indices o := if mask o then tl_load oob req_pool_indices_tensor (offset o) else 0 in
  let token_index o :=
    if wide then req_pool_indices o * req_to_token_stride + (prefix_lens o - 1)
    else req_pool_indices o * req_to_token_stride + (prefix_lens o - 1) in
  let token_mask o := mask o && (0 <? prefix_lens o) in
  let tokens o := if token_mask o then tl_load oob req_to_token (token_index o) else -1 in
  tl_store result_i32 BLOCK_SIZE offset (fun o => to_int32 (tokens o)) mask.

(** [torch.empty] is [empty]; [order] is the order of the programs. *)
Context (empty : Z -> list Z) (order : list Z).

Definition of_grid (r : option (list Z)) : res (list Z) :=
  match r with Some l => Ok l | None => Raise RuntimeError end.

Definition get_last_loc_triton_safe (wide : bool) (pool : ReqToTokenPool) (req_pool_indices prefix_lens : list Z)
    : res (list Z) :=
  let num_tokens := zlen prefix_lens in
  let BLOCK_SIZE := 256 in
  of_grid (tl_run order
    (_get_last_loc_safe_kernel wide (concat (req_to_token pool)) req_pool_indices prefix_lens num_tokens
       (max_context_len pool) BLOCK_SIZE) (empty num_tokens)).

Definition get_last_loc_triton (pool : ReqToTokenPool) (req_pool_indices prefix_lens : list Z) : res (list Z) :=
  let BLOCK_SIZE := 256 in
  let num_tokens := zlen prefix_lens in
  of_grid (tl_run order
    (get_last_loc_kernel (concat (req_to_token pool)) req_pool_indices prefix_lens num_tokens
       (max_context_len pool) BLOCK_SIZE) (empty num_tokens)).

Definition get_last_loc (_is_hip wide : bool) (attn_backend : string) (pool : ReqToTokenPool)
    (req_pool_indices prefix_lens : list Z) : res (list Z) :=
  let uses_triton_dispatch := negb (String.eqb attn_backend "ascend" || String.eqb attn_backend "torch_native") in
  if _is_hip && uses_triton_dispatch then get_last_loc_triton_safe wide pool req_pool_indices prefix_lens
  else if uses_triton_dispatch then get_last_loc_triton pool req_pool_indices prefix_lens
  else get_last_loc_torch (req_to_token pool) req_pool_indices prefix_lens.
End LastLoc.

(** ** The batch, and what both branches write *)

(** What [alloc_for_extend] passes: request [p] of the batch has a row of the table, a
    prefix, and as many new slots as tokens to extend by. *)
Record batch_entry (pool : ReqToTokenPool) (idx pre seq ext : list Z) (prefixes : list (list Z)) (p : nat)
    (i pl s e : Z) (pf : list Z) : Prop := {
  be_idx : idx !! p = Some i;
  be_pre : pre !! p = Some pl;
  be_seq : seq !! p = Some s;
  be_ext : ext !! p = Some e;
  be_prefix : prefixes !! p = Some pf;
  be_row : 0 <= i < zlen (req_to_token pool);
  be_plen : zlen pf = pl;
  be_elen : e = s - pl;
  be_enonneg : 0 <= e;
  be_fits : s <= max_context_len pool;
}.

Definition batch_ok (pool : ReqToTokenPool) (idx pre seq ext : list Z) (prefixes : list (list Z)) : Prop :=
  NoDup idx /\ Forall (fun r => zlen r = max_context_len pool) (req_to_token pool) /\ 0 <= max_context_len pool
  /\ length ext = length idx
  /\ forall p, (p < length idx)%nat -> exists i pl s e pf, batch_entry pool idx pre seq ext prefixes p i pl s e pf.

(** The first entries of the row of a request with prefix [pf] and [e] new slots from
    position [at_] of [out] on. *)
Definition new_row (out : list Z) (pf : list Z) (at_ e : Z) : list Z :=
  map to_int32 (pf ++ take (Z.to_nat e) (drop (Z.to_nat at_) out)).

Definition written (pt : Z) (idx seq ext : list Z) (prefixes : list (list Z)) (out : list Z) (t t' : list (list Z)) : Prop :=
  length t' = length t
  /\ (forall p i s e pf row, idx !! p = Some i -> seq !! p = Some s -> ext !! p = Some e -> prefixes !! p = Some pf ->
        t !! Z.to_nat i = Some row ->
        t' !! Z.to_nat i = Some (new_row out pf (pt + zsum (take p ext)) e ++ drop (Z.to_nat s) row))
  /\ (forall j, Z.of_nat j ∉ idx -> t' !! j = t !! j).

Lemma zlen_new_row out pf at_ e : 0 <= at_ -> 0 <= e -> at_ + e <= zlen out ->
  zlen (new_row out pf at_ e) = zlen pf + e.
Proof. intros. unfold new_row. rewrite zlen_map, zlen_app. unfold zlen in *. rewrite length_take, length_drop. lia. Qed.

(** A table is determined by [written]. *)
Lemma written_functional pt idx pre seq ext prefixes out pool t1 t2 :
  batch_ok pool idx pre seq ext prefixes ->
  written pt idx seq ext prefixes out (req_to_token pool) t1 ->
  written pt idx seq ext prefixes out (req_to_token pool) t2 -> t1 = t2.
Proof.
  intros (_ & _ & _ & _ & Hb) (Hl1 & Hi1 & Ho1) (Hl2 & Hi2 & Ho2). apply list_eq. intros j.
  destruct (decide (Z.of_nat j ∈ idx)) as [Hj|Hj]; [|by rewrite Ho1, Ho2].
  apply list_elem_of_lookup in Hj as [p Hp]. pose proof (lookup_lt_Some _ _ _ Hp) as Hlt.
  destruct (Hb p Hlt) as (i & pl & s & e & pf & []). rewrite Hp in be_idx0. injection be_idx0 as <-.
  destruct (lookup_lt_is_Some_2 (req_to_token pool) j) as [row Hrow]; [unfold zlen in *; lia|].
  rewrite <- (Nat2Z.id j). rewrite <- (Nat2Z.id j) in Hrow. by rewrite (Hi1 p _ s e pf row), (Hi2 p _ s e pf row).
Qed.

Lemma batch_ext_nonneg pool idx pre seq ext prefixes : batch_ok pool idx pre seq ext prefixes ->
  Forall (fun x => 0 <= x) ext.
Proof.
  intros (_ & _ & _ & Hl & Hb). apply Forall_lookup. intros q x Hq. destruct (Hb q) as (i & pl & s & e' & pf & []).
  { apply lookup_lt_Some in Hq. lia. }
  rewrite Hq in be_ext0. injection be_ext0 as <-. lia.
Qed.

Lemma ext_sums pool idx pre seq ext prefixes (out : list Z) p e : batch_ok pool idx pre seq ext prefixes ->
  zsum ext <= zlen out -> ext !! p = Some e -> 0 <= zsum (take p ext) /\ zsum (take p ext) + e <= zlen out.
Proof.
  intros Hnn%batch_ext_nonneg Hout He.
  split; [apply zsum_nonneg; by apply Forall_take|]. rewrite <- (zsum_take_next _ _ _ He).
  rewrite <- (take_drop (S p) ext), zsum_app in Hout.
  pose proof (zsum_nonneg (drop (S p) ext) ltac:(by apply Forall_drop)). lia.
Qed.

(** *** The fallback loop *)

Lemma batch_ok_tail pool i idx pl pre s seq e ext pf prefixes :
  batch_ok pool (i :: idx) (pl :: pre) (s :: seq) (e :: ext) (pf :: prefixes) ->
  batch_ok pool idx pre seq ext prefixes.
Proof.
  intros (Hnd & Hrows & Hc & Hl & Hb). apply NoDup_cons in Hnd as [_ Hnd]. simpl in Hl.
  split_and!; [done|done|done|lia|]. intros p Hp.
  destruct (Hb (S p) ltac:(simpl; lia)) as (i' & pl' & s' & e' & pf' & []). by exists i', pl', s', e', pf'.
Qed.

(** The batch does not depend on the contents of the rows. *)
Lemma batch_ok_set_row pool idx pre seq ext prefixes i row : zlen row = max_context_len pool ->
  batch_ok pool idx pre seq ext prefixes ->
  batch_ok (set_table pool (<[i := row]> (req_to_token pool))) idx pre seq ext prefixes.
Proof.
  intros Hr (Hnd & Hrows & Hc & Hl & Hb). split_and!; [done| |done|done|].
  - simpl. by apply Forall_insert.
  - intros p Hp. destruct (Hb p Hp) as (i' & pl & s & e & pf & []). exists i', pl, s, e, pf. split; try done.
    simpl. unfold zlen in *. by rewrite length_insert.
Qed.

(** The two writes of one iteration. *)
Lemma write_entry pool i s pf vals row : 0 <= i -> req_to_token pool !! Z.to_nat i = Some row ->
  zlen pf <= s -> s <= zlen row -> zlen vals = s - zlen pf ->
  (let* p1 := write_row pool (Some i) 0 (zlen pf) pf in write_row p1 (Some i) (zlen pf) s vals)
  = Ok (set_table pool (<[Z.to_nat i := map to_int32 (pf ++ vals) ++ drop (Z.to_nat s) row]> (req_to_token pool))).
Proof.
  intros Hi Hrow Hps Hs Hv. pose proof (zlen_nonneg pf) as Hpf0.
  rewrite (write_row_inside pool i 0 (zlen pf) pf row) by (lia || done). cbn [res_bind]. rewrite take_0. cbn [app].
  set (row1 := map to_int32 pf ++ drop (Z.to_nat (zlen pf)) row).
  assert (zlen row1 = zlen row) as Hr1.
  { unfold row1. rewrite zlen_app, zlen_map. unfold zlen in *. rewrite length_drop. lia. }
  rewrite (write_row_inside _ i (zlen pf) s _ row1); simpl; try lia.
  2:{ rewrite list_lookup_insert_eq; [done|]. by eapply lookup_lt_Some. }
  rewrite list_insert_insert_eq. unfold set_table. do 3 f_equal. unfold row1. rewrite map_app, <- app_assoc.
  rewrite take_app_length' by (rewrite length_map; unfold zlen; lia). do 2 f_equal.
  rewrite drop_app_ge by (rewrite length_map; unfold zlen in *; lia). rewrite drop_drop, length_map. f_equal.
  unfold zlen in *. lia.
Qed.

(** Writing the rest of the batch after one entry. *)
Lemma written_cons pt i idx s seq e ext pf prefixes out t row t' :
  NoDup (i :: idx) -> Forall (fun j => 0 <= j) (i :: idx) -> t !! Z.to_nat i = Some row ->
  written (pt + e) idx seq ext prefixes out (<[Z.to_nat i := new_row out pf pt e ++ drop (Z.to_nat s) row]> t) t' ->
  written pt (i :: idx) (s :: seq) (e :: ext) (pf :: prefixes) out t t'.
Proof.
  intros [Hni _]%NoDup_cons [Hi Hnn]%Forall_cons Hrow (Hl & Hin & Ho). rewrite length_insert in Hl.
  assert (forall j, j ∈ idx -> Z.to_nat j <> Z.to_nat i) as Hne.
  { intros j Hj. rewrite Forall_forall in Hnn. specialize (Hnn j Hj). intros E. apply Hni. by replace i with j by lia. }
  split_and!; [done| |].
  - intros [|p] i0 s0 e0 pf0 row0; simpl.
    + intros [= <-] [= <-] [= <-] [= <-] Hr. rewrite Hrow in Hr. injection Hr as <-.
      change (zsum []) with 0. rewrite Z.add_0_r. rewrite Ho by (rewrite Z2Nat.id by lia; done).
      apply list_lookup_insert_eq. by eapply lookup_lt_Some.
    + intros Hp Hs He Hpf Hr. rewrite (Hin p i0 s0 e0 pf0 row0 Hp Hs He Hpf).
      * unfold zsum. do 3 f_equal. lia.
      * rewrite list_lookup_insert_ne; [done|]. apply not_eq_sym, Hne. by eapply list_elem_of_lookup_2.
  - intros j [Hj1 Hj2]%not_elem_of_cons. rewrite Ho by done. apply list_lookup_insert_ne. lia.
Qed.

Lemma write_loop_written idx pre seq ext prefixes out pt pool :
  batch_ok pool idx pre seq ext prefixes -> 0 <= pt -> pt + zsum ext <= zlen out ->
  exists t, write_loop idx pre seq ext prefixes out pt pool = Ok (set_table pool t)
    /\ written pt idx seq ext prefixes out (req_to_token pool) t.
Proof.
  revert pre seq ext prefixes pt pool.
  induction idx as [|i idx IH]; intros pre seq ext prefixes pt pool Hb Hpt Hout.
  { exists (req_to_token pool). split; [by destruct pool|]. split_and!; [done|by intros [|p]|done]. }
  pose proof Hb as (Hnd & Hrows & Hc & Hlen & Hent).
  destruct (Hent 0%nat ltac:(simpl; lia)) as (i' & pl & s & e & pf & [Ei Epl Es Ee Epf Hi Hpl He0 Hen Hfit]).
  destruct pre as [|pl' pre], seq as [|s' seq], ext as [|e' ext], prefixes as [|pf' prefixes]; try done.
  simpl in Ei, Epl, Es, Ee, Epf. simplify_eq. set (e := s - zlen pf) in *.
  destruct (lookup_lt_is_Some_2 (req_to_token pool) (Z.to_nat i')) as [row Hrow]; [unfold zlen in *; lia|].
  assert (zlen row = max_context_len pool) as Hrl by (rewrite Forall_lookup in Hrows; by apply (Hrows (Z.to_nat i'))).
  rewrite zsum_cons in Hout.
  assert (0 <= zsum ext) as Hz.
  { apply zsum_nonneg. by pose proof (batch_ext_nonneg _ _ _ _ _ _ (batch_ok_tail _ _ _ _ _ _ _ _ _ _ _ Hb)). }
  assert (map to_int32 (pf ++ py_slice out pt (pt + e)) = new_row out pf pt e) as Hnr.
  { unfold new_row. rewrite py_slice_nonneg by lia. do 4 f_equal. lia. }
  pose proof (zlen_new_row out pf pt e ltac:(lia) ltac:(lia) ltac:(lia)) as Hnl.
  pose proof (write_entry pool i' s pf (py_slice out pt (pt + e)) row ltac:(lia) Hrow) as Hw.
  rewrite Hnr in Hw. rewrite <- Hnr, zlen_map, zlen_app in Hnl. specialize (Hw ltac:(lia) ltac:(lia) ltac:(lia)).
  set (row2 := new_row out pf pt e ++ drop (Z.to_nat s) row) in *.
  cbn [write_loop]. destruct (write_row pool (Some i') 0 (zlen pf) pf) as [p1|]; [|done]. cbn [res_bind] in *. rewrite Hw.
  cbn [res_bind]. destruct (IH pre seq ext prefixes (pt + e) (set_table pool (<[Z.to_nat i' := row2]> (req_to_token pool))))
    as (t & -> & Hwr); [|lia|lia|].
  { apply batch_ok_set_row; [|by eapply batch_ok_tail]. unfold row2.
    rewrite <- Hnr, zlen_app, zlen_map, zlen_app. unfold zlen in *. rewrite length_drop. lia. }
  exists t. split; [done|]. simpl in Hwr. apply (written_cons pt i' idx s seq e ext pf prefixes out _ row); try done.
  apply Forall_lookup. intros q x Hq. destruct (Hent q) as (? & ? & ? & ? & ? & []); [by eapply lookup_lt_Some|].
  rewrite Hq in be_idx0. injection be_idx0 as <-. lia.
Qed.

(** *** The kernel *)

Section Kernel.
Context (oob : Z -> Z) (pool : ReqToTokenPool) (idx pre seq ext : list Z) (prefixes : list (list Z)) (out : list Z).
Context (Hb : batch_ok pool idx pre seq ext prefixes) (Hout : zsum ext <= zlen out).
Abbreviation cols := (max_context_len pool).
Abbreviation nrows := (zlen (req_to_token pool)).

Lemma sum_loads p : (p <= length ext)%nat -> zsum (map (tl_load oob ext) (zrange 0 (Z.of_nat p))) = zsum (take p ext).
Proof.
  intros Hp. f_equal. pose proof (tl_load_slice oob ext 0 (Z.of_nat p) ltac:(lia) ltac:(lia)) as H.
  rewrite drop_0, Nat2Z.id in H. rewrite <- H; [done|]. unfold zlen. lia.
Qed.

Lemma write_kernel_body p i pl s e pf b : batch_entry pool idx pre seq ext prefixes p i pl s e pf ->
  zlen b = nrows * cols ->
  write_req_to_token_pool_triton oob idx prefixes pre seq ext out cols (Z.of_nat p) b
  = Some (splice b (i * cols) (new_row out pf (zsum (take p ext)) e)).
Proof.
  intros [Ei Epl Es Ee Epf Hi Hpl He0 Hen Hfit] Hlb. unfold write_req_to_token_pool_triton. cbv zeta.
  rewrite (load_lookup oob _ _ _ Ei), (load_lookup oob _ _ _ Epl), (load_lookup oob _ _ _ Es), Nat2Z.id, Epf.
  cbn [default]. rewrite sum_loads by (apply lookup_lt_Some in Ee; lia).
  destruct (ext_sums _ _ _ _ _ _ out p e Hb Hout Ee) as [H0 H1]. pose proof (zlen_nonneg pf) as Hp0.
  rewrite (tl_for_blocks b (i * cols) _ _ _ (fun o => to_int32 (tl_load oob pf o)) pl 512) by
    (done || lia || (pose proof (cdiv_covers pl 512); lia) || nia).
  change (map (fun o => to_int32 (tl_load oob pf o)) (zrange 0 pl))
    with (map (fun o => to_int32 (tl_load oob pf (0 + o))) (zrange 0 pl)).
  rewrite <- (map_map (fun o => tl_load oob pf (0 + o)) to_int32), tl_load_slice by lia.
  rewrite drop_0, (take_ge pf) by (unfold zlen in *; lia). cbn [mbind option_bind].
  assert (zlen (splice b (i * cols) (map to_int32 pf)) = zlen b) as Hl1 by (apply zlen_splice; rewrite ?zlen_map; nia).
  rewrite (tl_for_blocks _ (i * cols + pl) _ _ _ (fun o => to_int32 (tl_load oob out (zsum (take p ext) + o))) e 512) by
    (done || lia || (rewrite He0; pose proof (cdiv_covers (s - pl) 512); lia) || nia).
  rewrite <- (map_map (fun o => tl_load oob out (zsum (take p ext) + o)) to_int32), tl_load_slice by lia.
  f_equal. rewrite <- Hpl, <- (zlen_map to_int32 pf). rewrite splice_splice.
  - unfold new_row. by rewrite map_app.
  - nia.
  - rewrite !zlen_map. assert (zlen (take (Z.to_nat e) (drop (Z.to_nat (zsum (take p ext))) out)) <= e); [|nia].
    unfold zlen. rewrite length_take. lia.
Qed.

Definition row_start (q : Z) : Z := tl_load oob idx q * cols.
Definition row_seg (q : Z) : list Z :=
  new_row out (default [] (prefixes !! Z.to_nat q)) (zsum (take (Z.to_nat q) ext)) (tl_load oob ext q).

Lemma row_seg_entry p i pl s e pf : batch_entry pool idx pre seq ext prefixes p i pl s e pf ->
  row_start (Z.of_nat p) = i * cols /\ row_seg (Z.of_nat p) = new_row out pf (zsum (take p ext)) e
  /\ zlen (row_seg (Z.of_nat p)) = s.
Proof.
  intros []. unfold row_start, row_seg. rewrite (load_lookup oob _ _ _ be_idx0), (load_lookup oob _ _ _ be_ext0), Nat2Z.id.
  rewrite be_prefix0. destruct (ext_sums _ _ _ _ _ _ out p e Hb Hout be_ext0) as [H0 H1].
  split_and!; [done..|]. simpl. rewrite zlen_new_row by lia. lia.
Qed.

Lemma entry_of_program q : 0 <= q < zlen idx ->
  exists p i pl s e pf, q = Z.of_nat p /\ batch_entry pool idx pre seq ext prefixes p i pl s e pf.
Proof.
  intros Hq. destruct Hb as (_ & _ & _ & _ & Hent).
  destruct (Hent (Z.to_nat q)) as (i & pl & s & e & pf & He); [unfold zlen in Hq; lia|].
  exists (Z.to_nat q), i, pl, s, e, pf. split; [lia|done].
Qed.

Lemma write_kernel_grid order : Permutation order (zrange 0 (zlen idx)) ->
  exists b, tl_run order (write_req_to_token_pool_triton oob idx prefixes pre seq ext out cols) (concat (req_to_token pool)) = Some b
    /\ zlen b = nrows * cols
    /\ (forall p i pl s e pf k, batch_entry pool idx pre seq ext prefixes p i pl s e pf -> 0 <= k < s ->
          b !! Z.to_nat (i * cols + k) = new_row out pf (zsum (take p ext)) e !! Z.to_nat k)
    /\ (forall j, 0 <= j -> (forall p i pl s e pf, batch_entry pool idx pre seq ext prefixes p i pl s e pf ->
          ~ i * cols <= j < i * cols + s) -> b !! Z.to_nat j = concat (req_to_token pool) !! Z.to_nat j).
Proof.
  intros Hord. assert (forall q, q ∈ order <-> 0 <= q < zlen idx) as Hin by (intros q; rewrite Hord; apply elem_of_zrange).
  pose proof Hb as (Hnd & Hrows & Hc & _ & _).
  destruct (splices_run row_start row_seg (nrows * cols)
              (write_req_to_token_pool_triton oob idx prefixes pre seq ext out cols) order (concat (req_to_token pool)))
    as (b & Hrun & Hl & HI & HO).
  - by apply zlen_concat_uniform.
  - intros q c Hq%Hin Hlc. destruct (entry_of_program q Hq) as (p & i & pl & s & e & pf & -> & He).
    rewrite (write_kernel_body _ _ _ _ _ _ _ He Hlc). by destruct (row_seg_entry _ _ _ _ _ _ He) as (-> & -> & _).
  - intros q Hq%Hin. destruct (entry_of_program q Hq) as (p & i & pl & s & e & pf & -> & He).
    destruct (row_seg_entry _ _ _ _ _ _ He) as (-> & _ & ->). destruct He. nia.
  - intros q q' j Hq%Hin Hq'%Hin. destruct (entry_of_program q Hq) as (p & i & pl & s & e & pf & -> & He).
    destruct (entry_of_program q' Hq') as (p' & i' & pl' & s' & e' & pf' & -> & He'). unfold in_range.
    destruct (row_seg_entry _ _ _ _ _ _ He) as (-> & _ & ->), (row_seg_entry _ _ _ _ _ _ He') as (-> & _ & ->).
    destruct He, He'. intros. assert (i = i') as <- by nia. f_equal. by eapply NoDup_lookup.
  - exists b. split_and!; [done|done| |].
    + intros p i pl s e pf k He Hk. destruct (row_seg_entry _ _ _ _ _ _ He) as (Hst & Hsg & Hz).
      rewrite <- Hst, <- Hsg. apply HI; [|lia]. apply Hin. destruct He. apply lookup_lt_Some in be_idx0. unfold zlen. lia.
    + intros j Hj Hno. apply HO; [done|]. intros q Hq%Hin.
      destruct (entry_of_program q Hq) as (p & i & pl & s & e & pf & -> & He). unfold in_range.
      destruct (row_seg_entry _ _ _ _ _ _ He) as (-> & _ & ->). by apply (Hno p i pl s e pf).
Qed.

Lemma write_kernel_written order : Permutation order (zrange 0 (zlen idx)) ->
  exists t, write_cache_indices oob true order out idx pre seq ext prefixes pool = Ok (set_table pool t)
    /\ written 0 idx seq ext prefixes out (req_to_token pool) t.
Proof.
  intros Hord. destruct (write_kernel_grid order Hord) as (b & Hrun & Hl & HI & HO). pose proof Hb as (Hnd & Hrows & Hc & _ & Hent).
  unfold write_cache_indices. rewrite Hrun. eexists; split; [done|]. unfold written.
  split_and!; [unfold view_rows; by rewrite length_map, length_seq| |].
  - intros p i s e pf row Hi Hs He Hpf Hrow. destruct (Hent p) as (i' & pl & s' & e' & pf' & Hbe); [by eapply lookup_lt_Some|].
    pose proof Hbe as []. simplify_eq. rewrite Forall_lookup in Hrows. pose proof (Hrows _ _ Hrow) as Hrl.
    destruct (ext_sums _ _ _ _ _ _ out p _ Hb Hout He) as [H0 H1]. pose proof (zlen_nonneg pf) as Hp0.
    pose proof (zlen_new_row out pf (zsum (take p ext)) (s - zlen pf) ltac:(lia) ltac:(lia) ltac:(lia)) as Hnl.
    rewrite Z.add_0_l. apply view_rows_lookup; [done|unfold zlen in *; lia|unfold zlen in *; lia| |].
    { rewrite zlen_app, Hnl. unfold zlen in *. rewrite length_drop. lia. }
    intros k Hk. rewrite Z2Nat.id by lia. destruct (Z.lt_ge_cases k s) as [Hks|Hks].
    + rewrite (HI _ _ _ _ _ _ k Hbe) by lia. rewrite lookup_app_l by (unfold zlen in *; lia). done.
    + rewrite lookup_app_r by (unfold zlen in *; lia). rewrite lookup_drop. rewrite HO; [|nia|].
      * rewrite <- (Z2Nat.id i) by lia. rewrite (concat_uniform cols Hc _ _ _ (proj2 (Forall_lookup _ _) Hrows) Hrow) by lia.
        f_equal. unfold zlen in *. lia.
      * intros p' i' pl' s' e' pf' [] Hr. assert (i' = i) as -> by nia.
        assert (p' = p) as -> by (by eapply NoDup_lookup). simplify_eq. lia.
  - intros j Hj. destruct (req_to_token pool !! j) as [row|] eqn:Hrow.
    2:{ apply lookup_ge_None_2. unfold view_rows. rewrite length_map, length_seq. by apply lookup_ge_None_1. }
    pose proof (lookup_lt_Some _ _ _ Hrow). rewrite Forall_lookup in Hrows. pose proof (Hrows _ _ Hrow) as Hrl.
    apply view_rows_lookup; [done|unfold zlen in *; lia|done|done|]. intros k Hk. rewrite HO; [|nia|].
    + by apply concat_uniform; [done|apply Forall_lookup|..].
    + intros p i pl s e pf [] Hr. apply Hj. replace (Z.of_nat j) with i by nia. by eapply list_elem_of_lookup_2.
Qed.
End Kernel.

(** ** The last index of each prefix *)

Section LastLocProofs.
Context (oob : Z -> Z) (empty : Z -> list Z) (pool : ReqToTokenPool).
Context (Hrows : Forall (fun r => zlen r = max_context_len pool) (req_to_token pool)).
(** The entries of the table are int32 values. *)
Context (Htab : Forall (Forall (fun x => to_int32 x = x)) (req_to_token pool)).

(** The entry before the end of the prefix, or [-1] for an empty prefix. *)
Definition last_entry (i p : Z) : Z :=
  if 0 <? p then default (-1) ((req_to_token pool !! Z.to_nat i) ≫= fun row => row !! Z.to_nat (p - 1)) else -1.

Lemma table_entry i j : 0 <= i < zlen (req_to_token pool) -> 0 <= j < max_context_len pool ->
  exists row x, req_to_token pool !! Z.to_nat i = Some row /\ row !! Z.to_nat j = Some x /\ zlen row = max_context_len pool
    /\ to_int32 x = x /\ tl_load oob (concat (req_to_token pool)) (i * max_context_len pool + j) = x.
Proof.
  intros Hi Hj. destruct (lookup_lt_is_Some_2 (req_to_token pool) (Z.to_nat i)) as [row Hrow]; [unfold zlen in Hi; lia|].
  pose proof (proj1 (Forall_lookup _ _) Hrows _ _ Hrow) as Hl. cbv beta in Hl.
  destruct (lookup_lt_is_Some_2 row (Z.to_nat j)) as [x Hx]; [unfold zlen in Hl; lia|]. exists row, x.
  split_and!; [done..| |].
  - pose proof (proj1 (Forall_lookup _ _) Htab _ _ Hrow) as Ht. cbv beta in Ht. rewrite Forall_lookup in Ht. by apply (Ht (Z.to_nat j)).
  - apply tl_load_in; [nia|]. rewrite <- Hx, <- (Z2Nat.id i) by lia.
    apply (concat_uniform (max_context_len pool)); [lia|done|done|lia].
Qed.

Context (idx pre : list Z) (Hempty : forall n, 0 <= n -> zlen (empty n) = n).
Context (Hcols : 1 <= max_context_len pool) (Hlen : length pre = length idx).
Context (Hidx : Forall (fun i => 0 <= i < zlen (req_to_token pool)) idx).
Context (Hpre : Forall (fun p => 0 <= p <= max_context_len pool) pre).

Lemma last_loc_torch_ok : get_last_loc_torch (req_to_token pool) idx pre = Ok (zip_with last_entry idx pre).
Proof.
  unfold get_last_loc_torch. revert pre Hlen Hpre Hidx. induction idx as [|i l IH]; intros [|p q] Hl Hq Hil; try done.
  apply Forall_cons in Hil as [Hi Hil].   apply Forall_cons in Hq as [Hp Hq]. simpl in Hl. specialize (IH q ltac:(lia) Hq Hil). simpl.
  assert (exists row x, tensor_at (req_to_token pool) i = Ok row /\ tensor_at row (p - 1) = Ok x
            /\ (if 0 <? p then x else -1) = last_entry i p) as (row & x & Hr & Hx & He).
  { unfold last_entry. destruct (Z.ltb_spec 0 p).
    - destruct (table_entry i (p - 1) Hi ltac:(lia)) as (row & x & Hr & Hx & _). exists row, x.
      rewrite Hr. simpl. rewrite Hx. split_and!; [by apply tensor_at_in; [lia|]|by apply tensor_at_in; [lia|]|done].
    - assert (p = 0) as -> by lia.
      destruct (table_entry i (max_context_len pool - 1) Hi ltac:(lia)) as (row & x & Hr & Hx & Hz & _). exists row, x.
      split_and!; [by apply tensor_at_in; [lia|]| |done]. unfold tensor_at, wrap_index.
      change (0 - 1 <? 0) with true. cbn iota. rewrite Hz.
      destruct (Z.leb_spec 0 (0 - 1 + max_context_len pool)), (Z.ltb_spec (0 - 1 + max_context_len pool) (max_context_len pool));
        try lia. simpl. replace (Z.to_nat (0 - 1 + max_context_len pool)) with (Z.to_nat (max_context_len pool - 1)) by lia.
      by rewrite Hx. }
  rewrite Hr. simpl. rewrite Hx. simpl.
  destruct (gather2 (req_to_token pool) l (map (fun p => p - 1) q)) as [toks|]; [|done]. simpl in IH |- *.
  injection IH as IH. by rewrite He, IH.
Qed.

(** What lane [o] of the kernels holds. *)
Definition lane (o : Z) : Z :=
  let p := tl_load oob pre o in
  if 0 <? p then tl_load oob (concat (req_to_token pool)) (tl_load oob idx o * max_context_len pool + (p - 1)) else -1.

Lemma lane_entry o i p : idx !! o = Some i -> pre !! o = Some p ->
  lane (Z.of_nat o) = last_entry i p /\ to_int32 (lane (Z.of_nat o)) = lane (Z.of_nat o).
Proof.
  intros Hi Hp. unfold lane, last_entry. rewrite (load_lookup oob _ _ _ Hi), (load_lookup oob _ _ _ Hp). cbv zeta.
  rewrite Forall_lookup in Hidx, Hpre. specialize (Hidx _ _ Hi). specialize (Hpre _ _ Hp). cbv beta in Hidx, Hpre.
  destruct (Z.ltb_spec 0 p); [|done]. destruct (table_entry i (p - 1) Hidx ltac:(lia)) as (row & x & -> & Hx & _ & H32 & ->).
  simpl. by rewrite Hx.
Qed.

Lemma lanes_entries : map lane (zrange 0 (zlen pre)) = zip_with last_entry idx pre
  /\ map (fun o => to_int32 (lane o)) (zrange 0 (zlen pre)) = zip_with last_entry idx pre.
Proof.
  assert (forall o, 0 <= o < zlen pre -> exists i p, idx !! Z.to_nat o = Some i /\ pre !! Z.to_nat o = Some p) as Hlk.
  { intros o Ho. unfold zlen in Ho. destruct (lookup_lt_is_Some_2 idx (Z.to_nat o)) as [i Hi]; [lia|].
    destruct (lookup_lt_is_Some_2 pre (Z.to_nat o)) as [p Hp]; [lia|]. eauto. }
  assert (map (fun o => to_int32 (lane o)) (zrange 0 (zlen pre)) = map lane (zrange 0 (zlen pre))) as ->.
  { apply map_ext_in. intros o Ho%list_elem_of_In. apply elem_of_zrange in Ho. destruct (Hlk o Ho) as (i & p & Hi & Hp).
    rewrite <- (Z2Nat.id o) by lia. by destruct (lane_entry _ _ _ Hi Hp). }
  split; [|symmetry].
  all: apply list_eq_same_length with (length pre);
    [rewrite ?length_zip_with, ?length_map; unfold zlen, zrange; rewrite ?length_seqZ; lia..|].
  all: intros o x y Ho; rewrite list_lookup_fmap, lookup_zip_with; destruct (Hlk (Z.of_nat o) ltac:(unfold zlen; lia)) as (i & p & Hi & Hp);
    rewrite Nat2Z.id in Hi, Hp; rewrite Hi, Hp; simpl; destruct (zrange 0 (zlen pre) !! o) as [u|] eqn:Hu; [|done];
    apply lookup_zrange in Hu as [-> _]; simpl; rewrite Z.add_0_l; destruct (lane_entry _ _ _ Hi Hp) as [-> _]; congruence.
Qed.

Lemma last_loc_triton_ok order : Permutation order (zrange 0 (cdiv (zlen pre) 256)) ->
  get_last_loc_triton oob empty order pool idx pre = Ok (zip_with last_entry idx pre).
Proof.
  intros Hord. unfold get_last_loc_triton. pose proof (zlen_nonneg pre).
  rewrite (elementwise_grid lane (zlen pre) 256); [|lia|done| |done|by apply Hempty].
  - simpl. f_equal. apply lanes_entries.
  - intros p b Hp. unfold get_last_loc_kernel. cbv zeta. unfold tl_store. f_equal. apply map_ext_in.
    intros o Ho%list_elem_of_In. apply list_elem_of_filter in Ho as [Ho _]. cbv beta in Ho. rewrite Ho. done.
Qed.

Lemma last_loc_safe_ok wide order : Permutation order (zrange 0 (cdiv (zlen pre) 256)) ->
  get_last_loc_triton_safe oob empty order wide pool idx pre = Ok (zip_with last_entry idx pre).
Proof.
  intros Hord. unfold get_last_loc_triton_safe. pose proof (zlen_nonneg pre).
  rewrite (elementwise_grid (fun o => to_int32 (lane o)) (zlen pre) 256); [|lia|done| |done|by apply Hempty].
  - simpl. f_equal. apply lanes_entries.
  - intros p b Hp. unfold _get_last_loc_safe_kernel. cbv zeta. unfold tl_store. f_equal. apply map_ext_in.
    intros o Ho%list_elem_of_In. apply list_elem_of_filter in Ho as [Ho _]. cbv beta in Ho. rewrite Ho. by destruct wide.
Qed.

Lemma last_loc_ok order hip wide backend : Permutation order (zrange 0 (cdiv (zlen pre) 256)) ->
  get_last_loc oob empty order hip wide backend pool idx pre = Ok (zip_with last_entry idx pre).
Proof.
  intros Hord. unfold get_last_loc. destruct (hip && _); [by apply last_loc_safe_ok|].
  destruct (negb _); [by apply last_loc_triton_ok|apply last_loc_torch_ok].
Qed.
End LastLocProofs.

(** ** Properties *)

(** C37: the Triton and the torch branch of [write_cache_indices] write the same table.
    For a batch of requests with distinct rows, the kernel, in any order of its
    programs, stores only inside the table, and both branches leave in the row of
    every request its prefix followed by its share of the new KV indices (as int32),
    the rest of the row and all other rows being unchanged. *)
Theorem write_cache_indices_agree oob pool idx pre seq ext prefixes out order
    (Hb : batch_ok pool idx pre seq ext prefixes) (Hout : zsum ext <= zlen out)
    (Hord : Permutation order (zrange 0 (zlen idx))) :
  exists pool', write_cache_indices oob true order out idx pre seq ext prefixes pool = Ok pool'
    /\ write_cache_indices oob false order out idx pre seq ext prefixes pool = Ok pool'
    /\ written 0 idx seq ext prefixes out (req_to_token pool) (req_to_token pool')
    /\ free_slots pool' = free_slots pool.
Proof.
  destruct (write_kernel_written oob pool idx pre seq ext prefixes out Hb Hout order Hord) as (t & Ht & Hw).
  destruct (write_loop_written idx pre seq ext prefixes out 0 pool Hb) as (t' & Ht' & Hw'); [lia..|].
  exists (set_table pool t). split_and!; [done| |done|done]. unfold write_cache_indices. rewrite Ht'.
  by rewrite (written_functional _ _ _ _ _ _ _ _ _ _ Hb Hw Hw').
Qed.

Definition sample_table : ReqToTokenPool := MkReqPool 2 4 [[0; 0; 0; 0]; [1; 2; 3; 4]; [5; 6; 7; 8]] [].

Lemma write_cache_indices_agree_witness :
  exists pool', write_cache_indices (fun i => i) true [1; 0] [40; 41; 50] [2; 1] [1; 0] [3; 1] [2; 1] [[9]; []] sample_table = Ok pool'
    /\ req_to_token pool' = [[0; 0; 0; 0]; [50; 2; 3; 4]; [9; 40; 41; 8]].
Proof.
  destruct (write_cache_indices_agree (fun i => i) sample_table [2; 1] [1; 0] [3; 1] [2; 1] [[9]; []] [40; 41; 50] [1; 0])
    as (pool' & H1 & H2 & _).
  - split_and!.
    + apply (bool_decide_unpack _). vm_compute. exact I.
    + repeat constructor.
    + vm_compute. discriminate.
    + reflexivity.
    + intros [|[|p]] Hp; [exists 2, 1, 3, 2, [9]|exists 1, 0, 1, 1, []|simpl in Hp; lia];
        (split; [reflexivity..|vm_compute; split; [discriminate|reflexivity]|reflexivity|reflexivity|vm_compute; discriminate|vm_compute; discriminate]).
  - vm_compute. discriminate.
  - apply perm_swap.
  - exists pool'. split; [exact H1|]. vm_compute in H2. injection H2 as <-. reflexivity.
Defined.

(** Every variant of [get_last_loc] returns, for each request, the table entry
    just before the end of its prefix and [-1] for an empty prefix, whatever the
    backend, the width of the lengths and the order of the Triton programs. *)
Theorem get_last_loc_agree oob empty order hip wide backend pool idx pre
    (Hempty : forall n, 0 <= n -> zlen (empty n) = n)
    (Hrows : Forall (fun r => zlen r = max_context_len pool) (req_to_token pool))
    (Htab : Forall (Forall (fun x => to_int32 x = x)) (req_to_token pool))
    (Hcols : 1 <= max_context_len pool) (Hlen : length pre = length idx)
    (Hidx : Forall (fun i => 0 <= i < zlen (req_to_token pool)) idx)
    (Hpre : Forall (fun p => 0 <= p <= max_context_len pool) pre)
    (Hord : Permutation order (zrange 0 (cdiv (zlen pre) 256))) :
  get_last_loc oob empty order hip wide backend pool idx pre = Ok (zip_with (last_entry pool) idx pre).
Proof. by apply last_loc_ok. Qed.

Lemma get_last_loc_agree_witness :
  get_last_loc (fun i => i) (fun n => repeat 0 (Z.to_nat n)) [0] true true "triton" sample_table [2; 1; 1] [3; 0; 4]
  = Ok [7; -1; 4].
Proof.
  rewrite (get_last_loc_agree (fun i => i) (fun n => repeat 0 (Z.to_nat n)) [0] true true "triton" sample_table [2; 1; 1] [3; 0; 4]).
  - reflexivity.
  - intros n Hn. unfold zlen. rewrite repeat_length. lia.
  - repeat constructor.
  - repeat constructor.
  - vm_compute. discriminate.
  - reflexivity.
  - repeat constructor; vm_compute; (discriminate || reflexivity).
  - repeat constructor; vm_compute; (discriminate || reflexivity).
  - reflexivity.
Defined.
