(* ===== verification/ChunkCache.v ===== *)
(** [ChunkCache] of [mem_cache/chunk_cache.py], the prefix cache without prefixes that
    is used when the radix cache is disabled, and the interface [BasePrefixCache] of
    [mem_cache/base_prefix_cache.py] through which [common.py] and the scheduler use
    either cache: its operations, what they promise, and [ChunkCache] as an instance. *)

From S2P Require Export Prelude AllocKernels Allocator RadixKey ReqPool.

(** ** [ChunkCache] *)

Record ChunkCache : Type := MkChunkCache { cc_page_size : Z }.

Section Chunk.
Context (strip_thinking_cache : bool) {A : Type} `{KVPool A}.

Definition chunk_disable (c : ChunkCache) : bool := true.
Definition chunk_reset (c : ChunkCache) : ChunkCache := c.

(** No index, no device node, no host node. *)
Definition chunk_match_prefix (c : ChunkCache) (key : RadixKey) : list Z * option nat * option nat := ([], None, None).

Definition chunk_insert (c : ChunkCache) (key : RadixKey) : Z := 0.

Definition chunk_cache_finished_req (c : ChunkCache) (a : A) (pool : ReqToTokenPool) (req : Req) (is_insert : bool)
    : res (ChunkCache * A * Req) :=
  let* (kv_committed_len, req) := pop_committed_kv_cache strip_thinking_cache req in
  let* kv_indices := read_row pool (req_pool_idx req) kv_committed_len in
  let* a := kv_free a kv_indices in
  Ok (c, a, req).

Definition chunk_cache_unfinished_req (c : ChunkCache) (pool : ReqToTokenPool) (req : Req) (chunked : bool)
    : res (ChunkCache * Req) :=
  let* kv_indices := read_row pool (req_pool_idx req) (zlen (fill_ids req)) in
  Ok (c, set_req_prefix req kv_indices (last_node req) (cache_protected_len req)).

Definition chunk_evict (c : ChunkCache) (a : A) (num_tokens : Z) : res (Z * ChunkCache * A) := Ok (0, c, a).
Definition chunk_inc_lock_ref (c : ChunkCache) (node : option nat) : res (Z * ChunkCache) := Ok (0, c).
Definition chunk_dec_lock_ref (c : ChunkCache) (node : option nat) : res (Z * ChunkCache) := Ok (0, c).
Definition chunk_protected_size (c : ChunkCache) : Z := 0.

(** Inherited from [BasePrefixCache]. *)
Definition chunk_evictable_size (c : ChunkCache) : Z := 0.
End Chunk.

(** ** [BasePrefixCache] *)

(** A running request, its number of committed tokens, and the whole pages it holds
    besides what it shares with the cache. *)
Abbreviation holding := (Req * Z * list Z)%type.
Abbreviation h_req := (fun h : holding => h.1.1).
Abbreviation h_len := (fun h : holding => h.1.2).
Abbreviation h_own := (fun h : holding => h.2).

(** The ghost state [tc_ghost] is what the cache knows beyond its fields; [tc_slots] are
    the KV indices it holds.  [tc_holds t g pool hs] says that the requests of [hs] run at
    the same time, each with its committed tokens in its row of the table.  [tc_lockable g n]
    says that [n] is a node of the cache; locking it leaves less to evict, and unlocking it
    restores every size.  No operation disturbs the requests it is not about. *)
Class BasePrefixCache (T A : Type) (Pool : KVPool A) : Type := {
  tc_page_size : T -> Z;
  tc_is_chunk_cache : bool;
  tc_disable : bool;
  tc_evictable_size : T -> Z;
  tc_match_prefix : T -> RadixKey -> res (list Z * option nat * T);
  tc_evict : T -> A -> Z -> res (Z * T * A);
  tc_inc_lock_ref : T -> option nat -> res (Z * T);
  tc_dec_lock_ref : T -> option nat -> res (Z * T);
  tc_cache_finished_req : T -> A -> ReqToTokenPool -> Req -> bool -> res (T * A * Req);

  tc_ghost : Type;
  tc_ok : T -> tc_ghost -> Prop;
  tc_slots : T -> tc_ghost -> list Z;
  tc_holds : T -> tc_ghost -> ReqToTokenPool -> list holding -> Prop;
  tc_lockable : tc_ghost -> option nat -> Prop;

  tc_page_size_pos : forall t g, tc_ok t g -> 1 <= tc_page_size t;
  tc_evictable_nonneg : forall t g, tc_ok t g -> 0 <= tc_evictable_size t;
  tc_chunk_evictable : forall t, tc_is_chunk_cache = true -> tc_evictable_size t = 0;
  tc_match_law : forall t g k, tc_ok t g ->
    exists v n t' g', tc_match_prefix t k = Ok (v, n, t') /\ tc_ok t' g' /\ Permutation (tc_slots t' g') (tc_slots t g)
      /\ tc_page_size t' = tc_page_size t /\ tc_evictable_size t' = tc_evictable_size t
      /\ tc_lockable g' n /\ (forall m, tc_lockable g m -> tc_lockable g' m)
      /\ zlen v <= zlen (token_ids k) /\ (tc_page_size t | zlen v)
      /\ (forall pool hs, tc_holds t g pool hs -> tc_holds t' g' pool hs);
  tc_evict_law : forall t g a num rest, tc_ok t g -> kv_owns a (tc_slots t g ++ rest) -> kv_page_size a = tc_page_size t ->
    exists n t' a' g', tc_evict t a num = Ok (n, t', a') /\ tc_ok t' g' /\ kv_owns a' (tc_slots t' g' ++ rest)
      /\ kv_page_size a' = kv_page_size a /\ tc_page_size t' = tc_page_size t /\ 0 <= n
      /\ kv_available a' = kv_available a + n /\ tc_evictable_size t' = tc_evictable_size t - n
      /\ (num <= n \/ tc_evictable_size t' = 0)
      /\ (forall pool hs, tc_holds t g pool hs -> tc_holds t' g' pool hs);
  tc_finished_law : forall t g a pool req n own hs is_insert rest,
    tc_ok t g -> tc_holds t g pool ((req, n, own) :: hs) -> kv_owns a (tc_slots t g ++ own ++ rest) ->
    kv_page_size a = tc_page_size t -> kv_committed_freed req = false ->
    exists t' a' g', tc_cache_finished_req t a pool req is_insert
        = Ok (t', a', set_req_freed req true (kv_overallocated_freed req))
      /\ tc_ok t' g' /\ kv_owns a' (tc_slots t' g' ++ rest)
      /\ kv_page_size a' = kv_page_size a /\ tc_page_size t' = tc_page_size t /\ tc_holds t' g' pool hs;
  tc_lock_law : forall t g n, tc_ok t g -> tc_lockable g n ->
    exists d t1 g1 d' t2 g2,
      tc_inc_lock_ref t n = Ok (d, t1) /\ tc_ok t1 g1 /\ tc_slots t1 g1 = tc_slots t g
      /\ tc_page_size t1 = tc_page_size t /\ (forall m, tc_lockable g m -> tc_lockable g1 m)
      /\ tc_dec_lock_ref t1 n = Ok (d', t2) /\ tc_ok t2 g2 /\ tc_slots t2 g2 = tc_slots t g
      /\ tc_page_size t2 = tc_page_size t /\ (forall m, tc_lockable g m -> tc_lockable g2 m)
      /\ tc_evictable_size t2 = tc_evictable_size t /\ tc_evictable_size t1 <= tc_evictable_size t
      /\ (forall pool hs, tc_holds t g pool hs -> tc_holds t1 g1 pool hs /\ tc_holds t2 g2 pool hs);
  tc_holds_slot : forall t g pool hs, tc_holds t g pool hs -> Forall (fun h => is_Some (req_pool_idx (h_req h))) hs;
  tc_holds_perm : forall t g pool hs hs', Permutation hs hs' -> tc_holds t g pool hs -> tc_holds t g pool hs';
  tc_holds_rows : forall t g pool pool' hs,
    Forall (fun h => read_row pool' (req_pool_idx (h_req h)) (h_len h) = read_row pool (req_pool_idx (h_req h)) (h_len h)) hs ->
    tc_holds t g pool hs -> tc_holds t g pool' hs;
}.

(** ** [ChunkCache] keeps nothing: a request holds all of its own slots. *)

Section ChunkInstance.
Context (strip : bool) {A : Type} (Pool : KVPool A).

Definition chunk_holds (t : ChunkCache) (pool : ReqToTokenPool) (h : holding) : Prop :=
  let '(req, n, own) := h in
  n = cache_commit_len strip req /\ is_Some (req_pool_idx req)
  /\ exists kv pages, read_row pool (req_pool_idx req) n = Ok kv
       /\ page_cover (cc_page_size t) kv pages /\ own = expand_pages (cc_page_size t) pages.

#[export] Program Instance chunk_prefix_cache : BasePrefixCache ChunkCache A Pool := {
  tc_page_size := cc_page_size;
  tc_is_chunk_cache := true;
  tc_disable := true;
  tc_evictable_size := chunk_evictable_size;
  tc_match_prefix t k := let '(v, n, _) := chunk_match_prefix t k in Ok (v, n, t);
  tc_evict := chunk_evict;
  tc_inc_lock_ref := chunk_inc_lock_ref;
  tc_dec_lock_ref := chunk_dec_lock_ref;
  tc_cache_finished_req := chunk_cache_finished_req strip;
  tc_ghost := unit;
  tc_ok t _ := 1 <= cc_page_size t;
  tc_slots _ _ := [];
  tc_holds t _ pool hs := Forall (chunk_holds t pool) hs;
  tc_lockable _ _ := True;
}.
Next Obligation. done. Qed.
Next Obligation. intros. simpl. unfold chunk_evictable_size. lia. Qed.
Next Obligation. done. Qed.
Next Obligation.
  intros t g k Hok. exists [], None, t, tt. split_and!; try done; [apply zlen_nonneg|apply Z.divide_0_r].
Qed.
Next Obligation.
  intros t g a num rest Hok Hown Hps. exists 0, t, a, tt. unfold chunk_evictable_size. split_and!; try done; [lia..|by right].
Qed.
Next Obligation.
  intros t g a pool req n own hs is_insert rest Hok Hh Hown Hps Hf.
  apply Forall_cons in Hh as [(-> & Hs & kv & pages & Hrow & Hc & ->) Hh].
  unfold chunk_cache_finished_req, pop_committed_kv_cache. rewrite Hf. cbn [negb py_assert res_bind].
  change (cache_commit_len strip (set_req_freed _ _ _)) with (cache_commit_len strip req).
  change (req_pool_idx (set_req_freed _ _ _)) with (req_pool_idx req). rewrite Hrow. cbn [res_bind].
  rewrite <- Hps in Hc, Hown. destruct (kv_free_ok a kv pages rest Hc Hown) as (a' & -> & Ho & Hp & _). simpl.
  exists t, a', tt. by split_and!.
Qed.
Next Obligation. intros t g n Hok _. exists 0, t, tt, 0, t, tt. by split_and!. Qed.
Next Obligation. intros t g pool hs Hh. eapply Forall_impl; [exact Hh|]. by intros [[req n] own] (_ & Hs & _). Qed.
Next Obligation. intros t g pool hs hs' HP Hh. simpl in *. by rewrite <- HP. Qed.
Next Obligation.
  intros t g pool pool' hs Hrow Hh. rewrite Forall_forall in Hrow, Hh |- *. intros [[req n] own] Hin.
  specialize (Hrow _ Hin). destruct (Hh _ Hin) as (Hn & Hs & kv & pages & Hr & H). simpl in *.
  split_and!; try done. exists kv, pages. by rewrite Hrow.
Qed.
End ChunkInstance.
