(* ===== verification/RadixCache.v ===== *)
(** The prefix cache: [TreeNode], the hash helpers and [RadixCache] of
    [mem_cache/radix_cache.py], and the eviction strategies of
    [mem_cache/evict_policy.py].  Definitions only; [RadixTree] and the files
    after it hold the invariant and the theorems.

    Tree nodes are mutable objects shared by their parent, their children, the
    set of evictable leaves and the requests, so the state is a store from node
    identifiers ([TreeNode.id]) to node records.  A node stays in the store after
    it is deleted from the tree, as the Python object does while it is referenced.
    [time.monotonic()] is a sequence of readings, one per call. *)

From stdpp Require Export gmap.
From S2P Require Export Prelude RadixKey ReqPool.
From S2P Require Import Allocator.

(** ** Nodes *)

Record TreeNode : Type := MkTreeNode {
  children : gmap pyval nat;
  parent : option nat;
  key : RadixKey;
  value : option (list Z);
  lock_ref : Z;
  last_access_time : Z;
  creation_time : Z;
  hit_count : Z;
  host_ref_counter : Z;
  host_value : option (list Z);
  hash_value : option (list string);
  priority : Z
}.

Definition evicted (n : TreeNode) : bool := match value n with None => true | Some _ => false end.

Definition backuped (n : TreeNode) : bool := match host_value n with None => false | Some _ => true end.

Definition set_children (c : gmap pyval nat) (n : TreeNode) : TreeNode :=
  MkTreeNode c (parent n) (key n) (value n) (lock_ref n) (last_access_time n) (creation_time n)
    (hit_count n) (host_ref_counter n) (host_value n) (hash_value n) (priority n).
Definition set_lock_ref (z : Z) (n : TreeNode) : TreeNode :=
  MkTreeNode (children n) (parent n) (key n) (value n) z (last_access_time n) (creation_time n)
    (hit_count n) (host_ref_counter n) (host_value n) (hash_value n) (priority n).
Definition set_access (t : Z) (n : TreeNode) : TreeNode :=
  MkTreeNode (children n) (parent n) (key n) (value n) (lock_ref n) t (creation_time n)
    (hit_count n) (host_ref_counter n) (host_value n) (hash_value n) (priority n).
Definition set_hits (z : Z) (n : TreeNode) : TreeNode :=
  MkTreeNode (children n) (parent n) (key n) (value n) (lock_ref n) (last_access_time n)
    (creation_time n) z (host_ref_counter n) (host_value n) (hash_value n) (priority n).
Definition set_priority (z : Z) (n : TreeNode) : TreeNode :=
  MkTreeNode (children n) (parent n) (key n) (value n) (lock_ref n) (last_access_time n)
    (creation_time n) (hit_count n) (host_ref_counter n) (host_value n) (hash_value n) z.
Definition set_hash (h : option (list string)) (n : TreeNode) : TreeNode :=
  MkTreeNode (children n) (parent n) (key n) (value n) (lock_ref n) (last_access_time n)
    (creation_time n) (hit_count n) (host_ref_counter n) (host_value n) h (priority n).
Definition set_host_ref (z : Z) (n : TreeNode) : TreeNode :=
  MkTreeNode (children n) (parent n) (key n) (value n) (lock_ref n) (last_access_time n)
    (creation_time n) (hit_count n) z (host_value n) (hash_value n) (priority n).

Definition protect_host (n : TreeNode) : TreeNode := set_host_ref (host_ref_counter n + 1) n.

Definition release_host (n : TreeNode) : res TreeNode :=
  if 0 <? host_ref_counter n then Ok (set_host_ref (host_ref_counter n - 1) n)
  else Raise RuntimeError.

Definition get_last_hash_value (n : TreeNode) : option string :=
  match hash_value n with
  | None => None
  | Some h => last h
  end.

Definition split_node_hash_value (child_hash_value : option (list string)) (split_len page_size : Z)
  : option (list string) * option (list string) :=
  match child_hash_value with
  | None => (None, None)
  | Some h =>
      let split_pages := if page_size =? 1 then split_len else split_len / page_size in
      (Some (py_upto h split_pages), Some (py_from h split_pages))
  end.

(** ** Eviction strategies

    A priority is a number or a tuple; Python compares both lexicographically. *)

Inductive EvictionStrategy : Type :=
  | LRUStrategy
  | LFUStrategy
  | FIFOStrategy
  | MRUStrategy
  | FILOStrategy
  | PriorityStrategy
  | SLRUStrategy (protected_threshold : Z).

Definition get_priority (s : EvictionStrategy) (n : TreeNode) : list Z :=
  match s with
  | LRUStrategy => [last_access_time n]
  | LFUStrategy => [hit_count n; last_access_time n]
  | FIFOStrategy => [creation_time n]
  | MRUStrategy => [- last_access_time n]
  | FILOStrategy => [- creation_time n]
  | PriorityStrategy => [priority n; last_access_time n]
  | SLRUStrategy protected_threshold =>
      let is_protected := if protected_threshold <=? hit_count n then 1 else 0 in
      [is_protected; last_access_time n]
  end.

(** [s.lower()] on ASCII strings *)
Fixpoint py_lower (s : string) : string :=
  match s with
  | EmptyString => EmptyString
  | String c s =>
      let n := Ascii.nat_of_ascii c in
      String (if Nat.leb 65 n && Nat.leb n 90 then Ascii.ascii_of_nat (n + 32) else c) (py_lower s)
  end.

(** The policy names accepted by [RadixCache.__init__]. *)
Definition strategy_of (policy : string) : res EvictionStrategy :=
  let eviction_policy := py_lower policy in
  if String.eqb eviction_policy "lru" then Ok LRUStrategy
  else if String.eqb eviction_policy "lfu" then Ok LFUStrategy
  else if String.eqb eviction_policy "fifo" then Ok FIFOStrategy
  else if String.eqb eviction_policy "mru" then Ok MRUStrategy
  else if String.eqb eviction_policy "filo" then Ok FILOStrategy
  else if String.eqb eviction_policy "priority" then Ok PriorityStrategy
  else if String.eqb eviction_policy "slru" then Ok (SLRUStrategy 2)
  else Raise ValueError.

(** ** The eviction heap

    [heapq] holds pairs [(priority, node)]; pairs with equal priorities are ordered
    by [TreeNode.__lt__], the access time.  An entry is therefore the priority
    followed by the access time, with the node.  [heapq] is used through
    [heapify], [heappush] and [heappop], which only promise that a least entry is
    popped, so the order among equal entries is left to the instance. *)

Abbreviation entry := (list Z * nat)%type.

Fixpoint lex_lt (p q : list Z) : bool :=
  match p, q with
  | x :: p, y :: q => (x <? y) || ((x =? y) && lex_lt p q)
  | [], _ :: _ => true
  | _, [] => false
  end.

Definition entry_of (s : EvictionStrategy) (n : nat) (node : TreeNode) : entry :=
  (get_priority s node ++ [last_access_time node], n).

Class HeapQ : Type := {
  heappop : list entry -> option (entry * list entry);
  heappop_nil l : heappop l = None <-> l = [];
  heappop_perm l x l' : heappop l = Some (x, l') -> Permutation l (x :: l');
  heappop_least l x l' y : heappop l = Some (x, l') -> y ∈ l -> lex_lt y.1 x.1 = false;
}.

(** ** Events *)

Inductive StorageMedium : Type := GPU | CPU | DISK | EXTERNAL.

Inductive kv_event : Type :=
  | BlockStored (block_hashes : list Z) (parent_block_hash : option Z)
      (page_tokens : list atom) (block_size : Z) (medium : StorageMedium)
  | BlockRemoved (block_hashes : list Z) (medium : StorageMedium)
  | AllBlocksCleared.

(** ** The cache *)

Record CacheConfig : Type := MkConfig {
  cfg_disable : bool;
  cfg_page_size : Z;
  cfg_enable_kv_cache_events : bool;
  cfg_is_eagle : bool;
  cfg_disable_finished_insert : bool;
  cfg_eviction_strategy : EvictionStrategy;
  cfg_strip_thinking_cache : bool
}.

Record RadixCache : Type := MkCache {
  store : gmap nat TreeNode;
  counter : nat;
  ticks : nat;
  root_node : nat;
  evictable_size_ : Z;
  protected_size_ : Z;
  evictable_leaves : gset nat;
  kv_event_queue : list kv_event
}.

Definition set_store (c : RadixCache) (m : gmap nat TreeNode) : RadixCache :=
  MkCache m (counter c) (ticks c) (root_node c) (evictable_size_ c) (protected_size_ c)
    (evictable_leaves c) (kv_event_queue c).
Definition set_sizes (c : RadixCache) (e p : Z) : RadixCache :=
  MkCache (store c) (counter c) (ticks c) (root_node c) e p (evictable_leaves c) (kv_event_queue c).
Definition set_leaves (c : RadixCache) (l : gset nat) : RadixCache :=
  MkCache (store c) (counter c) (ticks c) (root_node c) (evictable_size_ c) (protected_size_ c)
    l (kv_event_queue c).
Definition set_queue (c : RadixCache) (q : list kv_event) : RadixCache :=
  MkCache (store c) (counter c) (ticks c) (root_node c) (evictable_size_ c) (protected_size_ c)
    (evictable_leaves c) q.
Definition tick (c : RadixCache) (n : nat) : RadixCache :=
  MkCache (store c) (counter c) (ticks c + n) (root_node c) (evictable_size_ c) (protected_size_ c)
    (evictable_leaves c) (kv_event_queue c).

(** Assignment to fields of the node [n]. *)
Definition upd (c : RadixCache) (n : nat) (f : TreeNode -> TreeNode) : RadixCache :=
  set_store c (alter f n (store c)).

(** A node object is allocated: [TreeNode.counter] gives its identifier. *)
Definition new_object (c : RadixCache) (node : TreeNode) : nat * RadixCache :=
  (counter c,
   MkCache (<[counter c := node]> (store c)) (S (counter c)) (ticks c) (root_node c)
     (evictable_size_ c) (protected_size_ c) (evictable_leaves c) (kv_event_queue c)).

(** Reading a field through a reference; [None] has no attributes. *)
Definition deref (c : RadixCache) (n : option nat) : res TreeNode :=
  match n with
  | None => Raise AttributeError
  | Some n => match store c !! n with Some node => Ok node | None => Raise AttributeError end
  end.

(** [range(0, n, step)] *)
Definition range_step (n step : Z) : list Z :=
  map (fun i => i * step) (zrange 0 ((n + step - 1) / step)).

Section Operations.
Context (cfg : CacheConfig) (monotonic : nat -> Z) (sha256 : list Z -> list Z).
Abbreviation page_size := (cfg_page_size cfg).

(** *** Hashes and events *)

Fixpoint hash_pages (k : RadixKey) (logical_len : Z) (starts : list Z) (parent_hash : option string)
  : res (list string) :=
  match starts with
  | [] => Ok []
  | start :: starts =>
      let stop := Z.min (start + page_size) logical_len in
      if stop <=? start then hash_pages k logical_len starts parent_hash
      else
        let* hash_val := hash_page sha256 k start stop parent_hash in
        let* hash_values := hash_pages k logical_len starts (Some hash_val) in
        Ok (hash_val :: hash_values)
  end.

Definition compute_node_hash_values (c : RadixCache) (node : TreeNode) : res (list string) :=
  let* parent_hash :=
    match parent node with
    | None => Ok None
    | Some p =>
        let* pn := deref c (Some p) in
        match hash_value pn with
        | None => Ok None
        | Some h => Ok (if (0 <? key_len (key pn)) && (0 <? zlen h) then last h else None)
        end
    end in
  let logical_len := key_len (key node) in
  hash_pages (key node) logical_len (range_step logical_len page_size) parent_hash.

(** [node.hash_value], computed if not already set. *)
Definition ensure_hash_value (c : RadixCache) (n : nat) : res (list string * RadixCache) :=
  let* node := deref c (Some n) in
  match hash_value node with
  | Some h => Ok (h, c)
  | None =>
      let* h := compute_node_hash_values c node in
      Ok (h, upd c n (set_hash (Some h)))
  end.

Definition page_tokens (k : RadixKey) (start stop : Z) : list atom :=
  let raw := token_ids k in
  if is_bigram k then
    map (fun j => Big (nth (Z.to_nat j) raw 0) (nth (Z.to_nat (j + 1)) raw 0)) (zrange start stop)
  else map Tok (py_slice raw start stop).

Definition str_at (l : list string) (i : nat) : res string :=
  match l !! i with Some s => Ok s | None => Raise IndexError end.

(** The loops over the pages of a node that append one event per page. *)
Fixpoint store_events (k : RadixKey) (logical_len : Z) (hashes : list string) (medium : StorageMedium)
    (starts : list Z) (page_index : nat) (parent_block_hash : option Z) : res (list kv_event) :=
  match starts with
  | [] => Ok []
  | start :: starts =>
      let stop := Z.min (start + page_size) logical_len in
      if stop <=? start then store_events k logical_len hashes medium starts page_index parent_block_hash
      else
        let toks := page_tokens k start stop in
        let* s := str_at hashes page_index in
        let* block_hash := hash_str_to_int64 s in
        let* evs := store_events k logical_len hashes medium starts (S page_index) (Some block_hash) in
        Ok (BlockStored [block_hash] parent_block_hash toks (zlen toks) medium :: evs)
  end.

Fixpoint remove_events (k : RadixKey) (logical_len : Z) (hashes : list string) (medium : StorageMedium)
    (starts : list Z) (page_index : nat) : res (list kv_event) :=
  match starts with
  | [] => Ok []
  | start :: starts =>
      let stop := Z.min (start + page_size) logical_len in
      if stop <=? start then remove_events k logical_len hashes medium starts page_index
      else
        let* s := str_at hashes page_index in
        let* block_hash := hash_str_to_int64 s in
        let* evs := remove_events k logical_len hashes medium starts (S page_index) in
        Ok (BlockRemoved [block_hash] medium :: evs)
  end.

Definition record_store_event (c : RadixCache) (n : nat) (medium : option StorageMedium)
  : res RadixCache :=
  if cfg_enable_kv_cache_events cfg then
    let medium := default GPU medium in
    let* (hashes, c) := ensure_hash_value c n in
    let* node := deref c (Some n) in
    let* parent_block_hash :=
      match parent node with
      | None => Ok None
      | Some p =>
          if decide (p = root_node c) then Ok None
          else
            let* pn := deref c (Some p) in
            match hash_value pn with
            | None => Ok None
            | Some h =>
                match last h with
                | None => Ok None
                | Some s => let* v := hash_str_to_int64 s in Ok (Some v)
                end
            end
      end in
    let logical_len := key_len (key node) in
    let* evs := store_events (key node) logical_len hashes medium
                  (range_step logical_len page_size) 0 parent_block_hash in
    Ok (set_queue c (kv_event_queue c ++ evs))
  else Ok c.

Definition record_remove_event (c : RadixCache) (n : nat) (medium : option StorageMedium)
  : res RadixCache :=
  if cfg_enable_kv_cache_events cfg then
    let medium := default GPU medium in
    let* (hashes, c) := ensure_hash_value c n in
    let* node := deref c (Some n) in
    let logical_len := key_len (key node) in
    let* evs := remove_events (key node) logical_len hashes medium
                  (range_step logical_len page_size) 0 in
    Ok (set_queue c (kv_event_queue c ++ evs))
  else Ok c.

Definition record_all_cleared_event (c : RadixCache) : RadixCache :=
  if cfg_enable_kv_cache_events cfg then set_queue c (kv_event_queue c ++ [AllBlocksCleared]) else c.

Definition take_events (c : RadixCache) : list kv_event * RadixCache :=
  if negb (cfg_enable_kv_cache_events cfg) then ([], c)
  else (kv_event_queue c, set_queue c []).

(** *** Construction *)

Definition reset (c : RadixCache) : RadixCache :=
  let root := MkTreeNode ∅ None (MkRadixKey [] None false) (Some []) 1
                (monotonic (ticks c)) (monotonic (S (ticks c))) 0 0 (Some []) (Some [])
                (- (2 ^ 63 - 1)) in
  let '(r, c) := new_object (tick c 2) root in
  record_all_cleared_event
    (MkCache (store c) (counter c) (ticks c) r 0 0 ∅ (kv_event_queue c)).

Definition cache_init : RadixCache := reset (MkCache ∅ 0 0 0 0 0 ∅ []).

(** *** Leaves *)

Definition child_evicted (c : RadixCache) (ch : nat) : bool :=
  match store c !! ch with Some chn => evicted chn | None => true end.

Definition update_leaf_status (c : RadixCache) (n : nat) : res RadixCache :=
  let* node := deref c (Some n) in
  if evicted node || (0 <? lock_ref node) then
    Ok (set_leaves c (evictable_leaves c ∖ {[n]}))
  else if existsb (fun ch => negb (child_evicted c ch)) ((map_to_list (children node)).*2)
  then Ok (set_leaves c (evictable_leaves c ∖ {[n]}))
  else Ok (set_leaves c (evictable_leaves c ∪ {[n]})).

Definition delete_leaf (c : RadixCache) (n : nat) : res RadixCache :=
  let* node := deref c (Some n) in
  let* ck := child_key (key node) page_size in
  let* pn := deref c (parent node) in
  let v := children pn !! ck in
  let p := default 0%nat (parent node) in
  let c := upd c p (set_children (delete ck (children pn))) in
  let* _ := py_assert (bool_decide (v = Some n)) in
  let c := set_sizes c (evictable_size_ c - key_len (key node)) (protected_size_ c) in
  let c := set_leaves c (evictable_leaves c ∖ {[n]}) in
  update_leaf_status c p.

(** *** Splitting and matching *)

Definition tensor_upto (v : option (list Z)) (n : Z) : res (list Z) :=
  match v with Some l => Ok (py_upto l n) | None => Raise TypeError end.
Definition tensor_from (v : option (list Z)) (n : Z) : res (list Z) :=
  match v with Some l => Ok (py_from l n) | None => Raise TypeError end.

Definition split_node (c : RadixCache) (k : RadixKey) (child : nat) (split_len : Z)
  : res (nat * RadixCache) :=
  let* ch := deref c (Some child) in
  let* ck := child_key (key_slice k (Some split_len) None) page_size in
  let* v1 := tensor_upto (value ch) split_len in
  let* v2 := tensor_from (value ch) split_len in
  let* pk := child_key k page_size in
  let* pn := deref c (parent ch) in
  let '(h1, h2) := split_node_hash_value (hash_value ch) split_len page_size in
  let '(new, c) := new_object (tick c 2)
    (MkTreeNode {[ck := child]} (parent ch) (key_slice (key ch) None (Some split_len)) (Some v1)
       (lock_ref ch) (monotonic (ticks c)) (monotonic (S (ticks c))) (hit_count ch) 0 None h1
       (priority ch)) in
  let c := upd c child (fun ch =>
    MkTreeNode (children ch) (Some new) (key_slice (key ch) (Some split_len) None) (Some v2)
      (lock_ref ch) (last_access_time ch) (creation_time ch) (hit_count ch)
      (host_ref_counter ch) (host_value ch) h2 (priority ch)) in
  let c := upd c (default 0%nat (parent ch)) (fun pn => set_children (<[pk := new]> (children pn)) pn) in
  Ok (new, c).

(** The loop of [_match_prefix_helper].  Each iteration consumes at least one unit
    of the key, so one more than its length is enough [fuel]; running out of it is
    an error, and the theorems show that the result is [Ok]. *)
Fixpoint match_loop (fuel : nat) (c : RadixCache) (access_time : Z) (node : nat) (k : RadixKey)
    (ck : pyval) (acc : list (list Z)) : res (list (list Z) * nat * RadixCache) :=
  match fuel with
  | O => Raise RuntimeError
  | S fuel =>
      if 0 <? key_len k then
        let* nd := deref c (Some node) in
        match children nd !! ck with
        | None => Ok (acc, node, c)
        | Some child =>
            let c := upd c child (set_access access_time) in
            let* ch := deref c (Some child) in
            let* prefix_len := key_match (key ch) k page_size in
            if prefix_len <? key_len (key ch) then
              let* (new, c) := split_node c (key ch) child prefix_len in
              let* nn := deref c (Some new) in
              Ok (acc ++ [default [] (value nn)], new, c)
            else
              let acc := acc ++ [default [] (value ch)] in
              let k := key_slice k (Some prefix_len) None in
              let* ck := if 0 <? key_len k then child_key k page_size else Ok ck in
              match_loop fuel c access_time child k ck acc
        end
      else Ok (acc, node, c)
  end.

Definition match_prefix_helper (c : RadixCache) (node : nat) (k : RadixKey)
  : res (list (list Z) * nat * RadixCache) :=
  let access_time := monotonic (ticks c) in
  let c := upd (tick c 1) node (set_access access_time) in
  let* ck := child_key k page_size in
  match_loop (S (Z.to_nat (key_len k))) c access_time node k ck [].

(** [MatchResult(device_indices, last_device_node)]; [last_host_node] is always the
    same node. *)
Definition match_prefix (c : RadixCache) (k : RadixKey) : res (list Z * nat * RadixCache) :=
  let '(k, _) := maybe_to_bigram_view k (cfg_is_eagle cfg) None in
  if cfg_disable cfg || (key_len k =? 0) then Ok ([], root_node c, c)
  else
    let k := page_aligned k page_size in
    if key_len k =? 0 then Ok ([], root_node c, c)
    else
      let* (vs, last, c) := match_prefix_helper c (root_node c) k in
      Ok (concat vs, last, c).

(** *** Insertion *)

Definition inc_hit_count (c : RadixCache) (n : nat) (chunked : bool) : RadixCache :=
  if chunked then c else upd c n (fun nd => set_hits (hit_count nd + 1) nd).

(** The loop of [_insert_helper]: returns the total prefix length, the node
    reached, and the remaining key, dictionary key and value. *)
Fixpoint insert_loop (fuel : nat) (c : RadixCache) (access_time : Z) (node : nat) (k : RadixKey)
    (ck : pyval) (v : list Z) (prio : Z) (chunked : bool) (total : Z)
  : res (Z * nat * RadixKey * pyval * list Z * RadixCache) :=
  match fuel with
  | O => Raise RuntimeError
  | S fuel =>
      if 0 <? key_len k then
        let* nd := deref c (Some node) in
        match children nd !! ck with
        | None => Ok (total, node, k, ck, v, c)
        | Some child =>
            let c := upd c child (set_access access_time) in
            let* ch := deref c (Some child) in
            let* prefix_len := key_match (key ch) k page_size in
            let total := total + prefix_len in
            let k := key_slice k (Some prefix_len) None in
            let v := py_from v prefix_len in
            let* (node, c) :=
              if prefix_len <? key_len (key ch) then
                let* (new, c) := split_node c (key ch) child prefix_len in
                let c := upd c new (fun nn => set_priority (Z.max (priority nn) prio) nn) in
                Ok (new, inc_hit_count c new chunked)
              else
                let c := upd c child (fun nn => set_priority (Z.max (priority nn) prio) nn) in
                Ok (child, inc_hit_count c child chunked) in
            let* ck := if 0 <? key_len k then child_key k page_size else Ok ck in
            insert_loop fuel c access_time node k ck v prio chunked total
        end
      else Ok (total, node, k, ck, v, c)
  end.

Definition insert_helper (c : RadixCache) (node : nat) (k : RadixKey) (v : list Z)
    (prio : option Z) (chunked : bool) : res (Z * RadixCache) :=
  let prio := default 0 prio in
  let access_time := monotonic (ticks c) in
  let c := upd (tick c 1) node (set_access access_time) in
  let c := upd c node (fun nd => set_priority (Z.max (priority nd) prio) nd) in
  if key_len k =? 0 then Ok (0, c)
  else
    let* ck := child_key k page_size in
    let* (total, node, k, ck, v, c) :=
      insert_loop (S (Z.to_nat (key_len k))) c access_time node k ck v prio chunked 0 in
    if 0 <? key_len k then
      let '(new, c) := new_object (tick c 2)
        (MkTreeNode ∅ (Some node) k (Some v) 0 (monotonic (ticks c)) (monotonic (S (ticks c)))
           0 0 None None prio) in
      let c := inc_hit_count c new chunked in
      let c := upd c node (fun nd => set_children (<[ck := new]> (children nd)) nd) in
      let c := set_sizes c (evictable_size_ c + key_len k) (protected_size_ c) in
      let* c := update_leaf_status c node in
      let* c := update_leaf_status c new in
      let* c := record_store_event c new None in
      Ok (total, c)
    else Ok (total, c).

Definition insert (c : RadixCache) (k : RadixKey) (v : option (list Z)) (prio : option Z)
    (chunked : bool) : res (Z * RadixCache) :=
  if cfg_disable cfg then Ok (0, c)
  else
    let '(k, v) := maybe_to_bigram_view k (cfg_is_eagle cfg) v in
    let k := page_aligned k page_size in
    let v := match v with
             | Some v => py_upto v (key_len k)
             | None => py_upto (token_ids k) (key_len k)
             end in
    insert_helper c (root_node c) k v prio chunked.

(** *** Locks *)

(** The walks to the root; [fuel] is the number of nodes in the store. *)
Fixpoint inc_lock_loop (fuel : nat) (c : RadixCache) (node : option nat) (delta : Z)
  : res (Z * RadixCache) :=
  match fuel with
  | O => Raise RuntimeError
  | S fuel =>
      if decide (node = Some (root_node c)) then Ok (delta, c)
      else
        let* nd := deref c node in
        let n := default 0%nat node in
        let len := key_len (key nd) in
        let '(c, delta) :=
          if lock_ref nd =? 0
          then (set_sizes c (evictable_size_ c - len) (protected_size_ c + len), delta - len)
          else (c, delta) in
        let c := upd c n (fun nd => set_lock_ref (lock_ref nd + 1) nd) in
        let* c := update_leaf_status c n in
        inc_lock_loop fuel c (parent nd) delta
  end.

Definition inc_lock_ref (c : RadixCache) (node : option nat) : res (Z * RadixCache) :=
  if cfg_disable cfg then Ok (0, c)
  else inc_lock_loop (S (base.size (store c))) c node 0.

Fixpoint dec_lock_loop (fuel : nat) (c : RadixCache) (node : option nat) (delta : Z)
  : res (Z * RadixCache) :=
  match fuel with
  | O => Raise RuntimeError
  | S fuel =>
      if decide (node = Some (root_node c)) then Ok (delta, c)
      else
        let* nd := deref c node in
        let n := default 0%nat node in
        let len := key_len (key nd) in
        let '(c, delta) :=
          if lock_ref nd =? 1
          then (set_sizes c (evictable_size_ c + len) (protected_size_ c - len), delta + len)
          else (c, delta) in
        let c := upd c n (fun nd => set_lock_ref (lock_ref nd - 1) nd) in
        let* c := update_leaf_status c n in
        match parent nd with
        | None => Raise AssertionError
        | Some p => dec_lock_loop fuel c (Some p) delta
        end
  end.

Definition dec_lock_ref (c : RadixCache) (node : option nat) : res (Z * RadixCache) :=
  if cfg_disable cfg then Ok (0, c)
  else dec_lock_loop (S (base.size (store c))) c node 0.

(** *** Sizes *)

Definition evictable_size (c : RadixCache) : Z := evictable_size_ c.
Definition protected_size (c : RadixCache) : Z := protected_size_ c.

(** The traversal of [_total_size_helper]; every node is pushed once. *)
Fixpoint total_size_loop (fuel : nat) (c : RadixCache) (stack : list nat) (total : Z) : res Z :=
  match fuel with
  | O => Raise RuntimeError
  | S fuel =>
      match reverse stack with
      | [] => Ok total
      | cur :: rest =>
          let* nd := deref c (Some cur) in
          match value nd with
          | None => Raise TypeError
          | Some v =>
              let kids := filter (fun ch => child_evicted c ch = false)
                            ((map_to_list (children nd)).*2) in
              total_size_loop fuel c (reverse rest ++ kids) (total + zlen v)
          end
      end
  end.

Definition total_size (c : RadixCache) : res Z :=
  total_size_loop (S (base.size (store c))) c [root_node c] 0.

(** *** Eviction and requests *)

Section WithPool.
Context {A : Type} `{KVPool A} `{HeapQ}.

(** [fuel] is the number of nodes in the store: each iteration deletes one. *)
Fixpoint evict_loop (fuel : nat) (c : RadixCache) (a : A) (heap : list entry)
    (num_tokens num_evicted : Z) : res (Z * RadixCache * A) :=
  match fuel with
  | O => Raise RuntimeError
  | S fuel =>
      if num_evicted <? num_tokens then
        match heappop heap with
        | None => Ok (num_evicted, c, a)
        | Some ((_, x), heap) =>
            let* xn := deref c (Some x) in
            match value xn with
            | None => Raise TypeError
            | Some v =>
                let* a := kv_free a v in
                let num_evicted := num_evicted + zlen v in
                let* c := delete_leaf c x in
                let* pn := deref c (parent xn) in
                let heap :=
                  if bool_decide (children pn = ∅) && (lock_ref pn =? 0)
                  then entry_of (cfg_eviction_strategy cfg) (default 0%nat (parent xn)) pn :: heap
                  else heap in
                let* c := record_remove_event c x None in
                evict_loop fuel c a heap num_tokens num_evicted
            end
        end
      else Ok (num_evicted, c, a)
  end.

(** The entries of the evictable leaves. *)
Fixpoint leaf_entries (c : RadixCache) (leaves : list nat) : res (list entry) :=
  match leaves with
  | [] => Ok []
  | n :: leaves =>
      let* nd := deref c (Some n) in
      let* es := leaf_entries c leaves in
      Ok (entry_of (cfg_eviction_strategy cfg) n nd :: es)
  end.

Definition evict (c : RadixCache) (a : A) (num_tokens : Z) : res (Z * RadixCache * A) :=
  if cfg_disable cfg then Ok (0, c, a)
  else
    let* heap := leaf_entries c (elements (evictable_leaves c)) in
    evict_loop (S (base.size (store c))) c a heap num_tokens 0.

Definition cache_finished_req (c : RadixCache) (a : A) (pool : ReqToTokenPool) (req : Req)
    (is_insert : bool) : res (RadixCache * A * Req) :=
  let is_insert := if cfg_disable_finished_insert cfg then false else is_insert in
  let* (kv_committed_len, req) := pop_committed_kv_cache (cfg_strip_thinking_cache cfg) req in
  if cfg_disable cfg then
    let* kv_indices := read_row pool (req_pool_idx req) kv_committed_len in
    let* a := kv_free a kv_indices in
    Ok (c, a, req)
  else
    let token_ids := py_upto (origin_input_ids req ++ output_ids req) kv_committed_len in
    let* kv_indices := read_row pool (req_pool_idx req) (zlen token_ids) in
    let radix_key := page_aligned (MkRadixKey token_ids (req_extra_key req) (cfg_is_eagle cfg))
                       page_size in
    let key_len := key_len radix_key in
    let values := py_upto kv_indices key_len in
    let* (c, a) :=
      if is_insert then
        let* (prefix_len, c) :=
          insert c radix_key (Some values) (Some (default 0 (req_priority req))) false in
        let* a := kv_free a (py_slice kv_indices (cache_protected_len req) prefix_len) in
        Ok (c, a)
      else
        let* a := kv_free a (py_slice kv_indices (cache_protected_len req) key_len) in
        Ok (c, a) in
    let* a := kv_free a (py_from kv_indices key_len) in
    match last_node req with
    | None => Ok (c, a, req)
    | Some n => let* (_, c) := dec_lock_ref c (Some n) in Ok (c, a, req)
    end.

Definition cache_unfinished_req (c : RadixCache) (a : A) (pool : ReqToTokenPool) (req : Req)
    (chunked : bool) : res (RadixCache * A * ReqToTokenPool * Req) :=
  if cfg_disable cfg then Ok (c, a, pool, req)
  else
    let token_ids := fill_ids req in
    let* kv_indices := read_row pool (req_pool_idx req) (zlen token_ids) in
    let radix_key := page_aligned (MkRadixKey token_ids (req_extra_key req) (cfg_is_eagle cfg))
                       page_size in
    let values := py_upto kv_indices (key_len radix_key) in
    let* (new_prefix_len, c) :=
      insert c radix_key (Some values) (Some (default 0 (req_priority req))) chunked in
    let* a := kv_free a (py_slice kv_indices (cache_protected_len req) new_prefix_len) in
    let* (new_indices, new_last_node, c) := match_prefix c radix_key in
    let* _ := py_assert (zlen new_indices =? key_len radix_key) in
    let* pool := write_row pool (req_pool_idx req) (cache_protected_len req) (zlen new_indices)
                   (py_from new_indices (cache_protected_len req)) in
    (* [kv_indices] is a view of the row just written *)
    let* kv_indices := read_row pool (req_pool_idx req) (zlen token_ids) in
    let protected_len := zlen new_indices in
    let* (_, c) := dec_lock_ref c (last_node req) in
    let* (_, c) := inc_lock_ref c (Some new_last_node) in
    let prefix :=
      if zlen new_indices <? zlen kv_indices
      then new_indices ++ py_from kv_indices (zlen new_indices)
      else new_indices in
    Ok (c, a, pool, set_req_prefix req prefix (Some new_last_node) protected_len).
End WithPool.
End Operations.
