(* ===== verification/RadixTree.v ===== *)
(** The invariant of the prefix cache and the structural lemmas about it.

    Ghost state: a map [G] from the identifiers of the nodes in the tree to the
    path of the node, the labelled units from the root and the KV indices stored
    along it.  [G] only grows when a node is split (the paths of existing nodes do
    not change), which is what makes matching and insertion compositional.

    [cached] is the abstract view: the finite map from page-aligned unit sequences
    to KV indices that the tree represents. *)

From S2P Require Export Prelude RadixKey RadixCache.

#[global] Create HintDb radix.

Abbreviation ghost := (gmap nat (list unit_ * list Z)).

(** ** The invariant *)

Section Invariant.
Context (ps : Z).

(** Token ids are 32-bit unsigned integers, as hashing them requires. *)
Definition tokens32 (k : RadixKey) : Prop := Forall (fun t => 0 <= t < 2 ^ 32) (token_ids k).

(** A page hash is the hexadecimal form of a digest. *)
Definition is_hash (s : string) : Prop :=
  exists d, Forall is_byte d /\ 8 <= zlen d /\ s = hex_of_bytes d.

Definition hashes_ok (node : TreeNode) : Prop :=
  match hash_value node with
  | None => True
  | Some hs => zlen hs * ps = key_len (key node) /\ Forall is_hash hs
  end.

(** A node below the root: linked to its parent under the dictionary key of its
    own key, with one KV index per unit and whole pages. *)
Definition node_ok (c : RadixCache) (G : ghost) (n : nat) (q : list unit_) (w : list Z) : Prop :=
  exists node p pn qp wp v ck,
    store c !! n = Some node /\ parent node = Some p /\ store c !! p = Some pn /\
    G !! p = Some (qp, wp) /\ value node = Some v /\
    q = qp ++ units (key node) /\ w = wp ++ v /\ zlen v = key_len (key node) /\
    ps <= key_len (key node) /\ aligned ps (key node) /\
    child_key (key node) ps = Ok ck /\ children pn !! ck = Some n /\
    0 <= lock_ref node /\ tokens32 (key node) /\ hashes_ok node.

Definition child_ok (c : RadixCache) (G : ghost) (n : nat) (ck : pyval) (ch : nat) : Prop :=
  ch <> root_node c /\ is_Some (G !! ch) /\
  exists chn, store c !! ch = Some chn /\ parent chn = Some n /\ child_key (key chn) ps = Ok ck.

Record tree_ok (c : RadixCache) (G : ghost) : Prop := {
  ok_root : G !! root_node c = Some ([], []);
  ok_root_node : exists r, store c !! root_node c = Some r /\ key_len (key r) = 0
                  /\ value r = Some [] /\ 0 < lock_ref r /\ hash_value r = Some [];
  ok_node n q w : G !! n = Some (q, w) -> n <> root_node c -> node_ok c G n q w;
  ok_child n node ck ch : is_Some (G !! n) -> store c !! n = Some node ->
    children node !! ck = Some ch -> child_ok c G n ck ch;
  ok_fresh i : is_Some (store c !! i) -> (i < counter c)%nat;
}.

(** The evictable leaves are the unlocked nodes without children. *)
Definition leaves_ok (c : RadixCache) (G : ghost) : Prop :=
  forall n, n ∈ evictable_leaves c <->
    n <> root_node c /\ is_Some (G !! n)
    /\ exists node, store c !! n = Some node /\ lock_ref node = 0 /\ children node = ∅.

(** Sums and concatenations over the nodes of the tree. *)
Definition gsum (f : nat -> Z) (X : gset nat) : Z := zsum (map f (elements X)).
Definition gcat (f : nat -> list Z) (X : gset nat) : list Z := concat (map f (elements X)).

Definition tree_nodes (c : RadixCache) (G : ghost) : gset nat := dom G ∖ {[root_node c]}.

Definition evictable_of (c : RadixCache) (n : nat) : Z :=
  match store c !! n with
  | Some nd => if lock_ref nd =? 0 then key_len (key nd) else 0
  | None => 0
  end.
Definition protected_of (c : RadixCache) (n : nat) : Z :=
  match store c !! n with
  | Some nd => if lock_ref nd =? 0 then 0 else key_len (key nd)
  | None => 0
  end.
Definition slots_of (c : RadixCache) (n : nat) : list Z :=
  match store c !! n with Some nd => default [] (value nd) | None => [] end.

Record sizes_ok (c : RadixCache) (G : ghost) : Prop := {
  ok_evictable : evictable_size_ c = gsum (evictable_of c) (tree_nodes c G);
  ok_protected : protected_size_ c = gsum (protected_of c) (tree_nodes c G);
}.

(** [n] is [l] or an ancestor of [l]: its path is a prefix. *)
Definition anc (G : ghost) (n l : nat) : bool :=
  match G !! n, G !! l with
  | Some (q, _), Some (ql, _) => bool_decide (q = take (length q) ql)
  | _, _ => false
  end.

(** The lock counts account for the locks held by clients: [L] lists the locked
    nodes, one entry per lock, and the count of a node is the number of entries at
    or below it. *)
Definition lock_count (G : ghost) (L : list nat) (n : nat) : Z :=
  zlen (filter (fun l => anc G n l = true) L).

Record locks_ok (c : RadixCache) (G : ghost) (L : list nat) : Prop := {
  lk_live : Forall (fun l => is_Some (G !! l)) L;
  lk_count n nd : is_Some (G !! n) -> n <> root_node c -> store c !! n = Some nd ->
    lock_ref nd = lock_count G L n;
}.

(** All KV indices held by the tree. *)
Definition tree_slots (c : RadixCache) (G : ghost) : list Z := gcat (slots_of c) (tree_nodes c G).

Record cache_ok (c : RadixCache) (G : ghost) : Prop := {
  ok_tree : tree_ok c G;
  ok_leaves : leaves_ok c G;
  ok_sizes : sizes_ok c G;
}.

(** ** The abstract view *)

Definition cached (G : ghost) (k : list unit_) (v : list Z) : Prop :=
  exists n q w, G !! n = Some (q, w) /\ (ps | zlen k) /\
    (length k <= length q)%nat /\ k = take (length k) q /\ v = take (length k) w.
End Invariant.

(** ** Sums over sets *)

Section Sums.
Implicit Types X : gset nat.

Lemma elements_add n X : n ∉ X -> Permutation (elements (X ∪ {[n]})) (n :: elements X).
Proof. intros. rewrite (comm_L (∪)). by apply elements_union_singleton. Qed.

Lemma zsum_perm l k : Permutation l k -> zsum l = zsum k.
Proof. induction 1; unfold zsum in *; simpl; lia. Qed.

Lemma gsum_add f n X : n ∉ X -> gsum f (X ∪ {[n]}) = f n + gsum f X.
Proof. intros. unfold gsum. by rewrite (zsum_perm _ _ (Permutation_map f (elements_add n X ltac:(done)))). Qed.

Lemma gsum_remove f n X : n ∈ X -> gsum f X = f n + gsum f (X ∖ {[n]}).
Proof.
  intros. rewrite <- gsum_add by set_solver. f_equal. rewrite (comm_L (∪)).
  by apply union_difference_singleton_L.
Qed.

Lemma gsum_ext f g X : (forall n, n ∈ X -> f n = g n) -> gsum f X = gsum g X.
Proof.
  intros Hfg. unfold gsum. f_equal. apply map_ext_in. intros n Hn.
  apply Hfg, elem_of_elements, list_elem_of_In, Hn.
Qed.

Lemma gsum_update f g n X : n ∈ X -> (forall m, m ∈ X -> m <> n -> f m = g m) ->
  gsum f X = f n - g n + gsum g X.
Proof.
  intros Hn Hfg. rewrite (gsum_remove f n), (gsum_remove g n) by done.
  rewrite (gsum_ext f g (X ∖ {[n]})) by set_solver. lia.
Qed.

Lemma gcat_add f n X : n ∉ X -> Permutation (gcat f (X ∪ {[n]})) (f n ++ gcat f X).
Proof. intros. unfold gcat. by rewrite (elements_add n X) by done. Qed.

Lemma gcat_remove f n X : n ∈ X -> Permutation (gcat f X) (f n ++ gcat f (X ∖ {[n]})).
Proof.
  intros. rewrite <- gcat_add by set_solver. f_equiv. rewrite (comm_L (∪)).
  by apply union_difference_singleton_L.
Qed.

Lemma gcat_ext f g X : (forall n, n ∈ X -> f n = g n) -> gcat f X = gcat g X.
Proof.
  intros Hfg. unfold gcat. f_equal. apply map_ext_in. intros n Hn.
  apply Hfg, elem_of_elements, list_elem_of_In, Hn.
Qed.

Lemma zlen_gcat f X : zlen (gcat f X) = gsum (fun n => zlen (f n)) X.
Proof.
  unfold gcat, gsum. induction (elements X) as [|n l IH]; [done|]. simpl map. simpl concat.
  unfold zsum in *. simpl. rewrite zlen_app. lia.
Qed.

Lemma gsum_plus f g X : gsum (fun n => f n + g n) X = gsum f X + gsum g X.
Proof. unfold gsum. induction (elements X); unfold zsum in *; simpl; lia. Qed.

Lemma gsum_mono f g X : (forall n, n ∈ X -> f n <= g n) -> gsum f X <= gsum g X.
Proof.
  intros H. unfold gsum. assert (Forall (fun n => f n <= g n) (elements X)) as HF
    by (apply Forall_forall; intros n Hn; apply H; set_solver).
  induction HF as [|n l Hn HF IH]; [done|]. unfold zsum in *. simpl. lia.
Qed.

Lemma gsum_nonneg f X : (forall n, n ∈ X -> 0 <= f n) -> 0 <= gsum f X.
Proof.
  intros Hf. unfold gsum. apply zsum_nonneg, Forall_forall. intros x Hx.
  apply list_elem_of_In, in_map_iff in Hx as (n & <- & Hn). apply Hf, elem_of_elements, list_elem_of_In, Hn.
Qed.
End Sums.

Lemma zlen_filter_ext (f g : nat -> bool) L : (forall l, l ∈ L -> f l = g l) ->
  zlen (filter (fun l => f l = true) L) = zlen (filter (fun l => g l = true) L).
Proof.
  intros Hfg. f_equal. induction L as [|l L IH]; [done|].
  rewrite !filter_cons, (Hfg l) by set_solver. rewrite IH by set_solver. done.
Qed.

(** ** Structural lemmas *)

Section Structure.
Context (ps : Z) (Hps : 1 <= ps).

(** What the invariant says of the path of a node. *)
Lemma path_lengths c G n q w : tree_ok ps c G -> G !! n = Some (q, w) ->
  length w = length q /\ (ps | zlen q).
Proof.
  intros Hok. remember (length q) as m eqn:Hm. revert n q w Hm.
  induction m as [m IH] using lt_wf_ind. intros n q w Hm Hn.
  destruct (decide (n = root_node c)) as [->|Hr].
  { rewrite (ok_root _ _ _ Hok) in Hn. simplify_eq. split; [done|]. by exists 0. }
  destruct (ok_node _ _ _ Hok _ _ _ Hn Hr)
    as (nd & p & pn & qp & wp & v & ck & _ & _ & _ & Hp & _ & -> & -> & Hv & Hlen & Hal & _).
  rewrite length_app in Hm. pose proof (zlen_units (key nd)) as Hu. unfold zlen in Hu, Hv.
  destruct (IH (length qp) ltac:(lia) p qp wp eq_refl Hp) as [Hw Hd].
  rewrite length_app. split; [lia|]. rewrite zlen_app. apply Z.divide_add_r; [done|].
  rewrite zlen_units. exact Hal.
Qed.

(** The parent's path is a strict prefix, and ends at least one page earlier. *)
Lemma node_parent c G n q w : tree_ok ps c G -> G !! n = Some (q, w) -> n <> root_node c ->
  exists p qp wp nd, store c !! n = Some nd /\ parent nd = Some p /\ G !! p = Some (qp, wp)
    /\ q = qp ++ units (key nd) /\ (length qp < length q)%nat
    /\ qp = take (length qp) q /\ wp = take (length qp) w.
Proof.
  intros Hok Hn Hr.
  destruct (ok_node _ _ _ Hok _ _ _ Hn Hr)
    as (nd & p & pn & qp & wp & v & ck & Hs & Hpa & _ & Hp & _ & -> & -> & Hv & Hlen & Hal & _).
  exists p, qp, wp, nd. pose proof (zlen_units (key nd)) as Hu. unfold zlen in Hu.
  destruct (path_lengths _ _ _ _ _ Hok Hp) as [Hw _].
  split_and!; [done..| | |].
  - rewrite length_app. lia.
  - by rewrite take_app_length.
  - rewrite <- Hw. by rewrite take_app_length.
Qed.

Lemma root_path c G n w : tree_ok ps c G -> G !! n = Some ([], w) -> n = root_node c.
Proof.
  intros Hok Hn. destruct (decide (n = root_node c)) as [|Hr]; [done|].
  destruct (node_parent _ _ _ _ _ Hok Hn Hr) as (p & qp & wp & nd & _ & _ & _ & _ & Hl & _).
  simpl in Hl. lia.
Qed.

(** [n] is the node whose own key covers position [m] of its path. *)
Definition covers (c : RadixCache) (G : ghost) (n : nat) (q : list unit_) (w : list Z) (m : nat) : Prop :=
  G !! n = Some (q, w) /\ n <> root_node c /\ (m <= length q)%nat /\
  exists p qp wp nd, store c !! n = Some nd /\ parent nd = Some p /\ G !! p = Some (qp, wp)
    /\ q = qp ++ units (key nd) /\ (length qp < m)%nat.

Lemma covers_end c G n q w : tree_ok ps c G -> G !! n = Some (q, w) -> (0 < length q)%nat ->
  covers c G n q w (length q).
Proof.
  intros Hok Hn Hq. assert (n <> root_node c) as Hr.
  { intros ->. rewrite (ok_root _ _ _ Hok) in Hn. simplify_eq. simpl in Hq. lia. }
  split_and!; [done|done|lia|].
  destruct (node_parent _ _ _ _ _ Hok Hn Hr) as (p & qp & wp & nd & ? & ? & ? & ? & ? & _).
  by exists p, qp, wp, nd.
Qed.

(** Every position of a path is covered by an ancestor of the node. *)
Lemma cover c G n q w m : tree_ok ps c G -> G !! n = Some (q, w) -> (0 < m <= length q)%nat ->
  exists a qa wa, covers c G a qa wa m /\ (length qa <= length q)%nat
    /\ qa = take (length qa) q /\ wa = take (length qa) w.
Proof.
  intros Hok. remember (length q) as l eqn:Hl. revert n q w Hl.
  induction l as [l IH] using lt_wf_ind. intros n q w Hl Hn Hm.
  assert (n <> root_node c) as Hr.
  { intros ->. rewrite (ok_root _ _ _ Hok) in Hn. simplify_eq. simpl in Hm. lia. }
  destruct (node_parent _ _ _ _ _ Hok Hn Hr) as (p & qp & wp & nd & Hs & Hpa & Hp & Hq & Hlt & Htq & Htw).
  destruct (path_lengths _ _ _ _ _ Hok Hn) as [Hw _].
  destruct (decide (length qp < m)%nat) as [Hc|Hc].
  - exists n, q, w. split_and!; [|lia|by rewrite take_ge by lia|by rewrite take_ge by lia].
    split_and!; [done|done|lia|]. by exists p, qp, wp, nd.
  - destruct (IH (length qp) ltac:(lia) p qp wp eq_refl Hp ltac:(lia))
      as (a & qa & wa & Hcov & Hle & Hqa & Hwa).
    exists a, qa, wa. split_and!; [done|lia| |].
    + rewrite Hqa, Htq at 1. rewrite take_take. f_equal. lia.
    + rewrite Hwa, Htw at 1. rewrite take_take. f_equal. lia.
Qed.

Lemma take_take_eq {A} (l k : list A) m n : (n <= m)%nat -> take m l = take m k -> take n l = take n k.
Proof.
  intros Hle H. apply (f_equal (take n)) in H. rewrite !take_take in H. by rewrite !Nat.min_l in H by lia.
Qed.

(** Siblings that agree on their first page are the same node. *)
Lemma sibling_unique c G n n' nd nd' p :
  tree_ok ps c G -> is_Some (G !! n) -> is_Some (G !! n') ->
  n <> root_node c -> n' <> root_node c ->
  store c !! n = Some nd -> store c !! n' = Some nd' ->
  parent nd = Some p -> parent nd' = Some p ->
  take (Z.to_nat ps) (units (key nd)) = take (Z.to_nat ps) (units (key nd')) -> n = n'.
Proof.
  intros Hok [[q w] Hn] [[q' w'] Hn'] Hr Hr' Hs Hs' Hpa Hpa' Hu.
  destruct (ok_node _ _ _ Hok _ _ _ Hn Hr)
    as (? & ? & pn & ? & ? & ? & ck & Hs1 & Hp1 & Hpn & _ & _ & _ & _ & _ & Hl & _ & Hck & Hch & _).
  destruct (ok_node _ _ _ Hok _ _ _ Hn' Hr')
    as (? & ? & pn' & ? & ? & ? & ck' & Hs1' & Hp1' & Hpn' & _ & _ & _ & _ & _ & Hl' & _ & Hck' & Hch' & _).
  simplify_eq. apply child_key_inj in Hu; [|lia..]. rewrite Hck, Hck' in Hu. simplify_eq. done.
Qed.

(** A position determines the covering node. *)
Lemma covers_unique c G n q w n' q' w' m :
  tree_ok ps c G -> covers c G n q w m -> covers c G n' q' w' m -> (ps | Z.of_nat m) ->
  take m q = take m q' -> n = n'.
Proof.
  intros Hok. remember (length q + length q')%nat as l eqn:Hl. revert n q w n' q' w' m Hl.
  induction l as [l IH] using lt_wf_ind. intros n q w n' q' w' m Hl Hc Hc' Hm Heq.
  destruct Hc as (Hn & Hr & Hmq & p & qp & wp & nd & Hs & Hpa & Hp & Hq & Hlt).
  destruct Hc' as (Hn' & Hr' & Hmq' & p' & qp' & wp' & nd' & Hs' & Hpa' & Hp' & Hq' & Hlt').
  pose proof (path_lengths _ _ _ _ _ Hok Hp) as [_ Hd]. pose proof (path_lengths _ _ _ _ _ Hok Hp') as [_ Hd'].
  assert (Hpre : qp = take (length qp) q) by (rewrite Hq; by rewrite take_app_length).
  assert (Hpre' : qp' = take (length qp') q') by (rewrite Hq'; by rewrite take_app_length).
  (* neither parent ends strictly inside the other's node *)
  assert (length qp <= length qp')%nat as Hle.
  { destruct (decide (length qp <= length qp')%nat) as [|Hgt]; [done|]. exfalso.
    assert (p = n') as ->; [|rewrite Hp in Hn'; simplify_eq; lia].
    apply (IH (length qp + length q')%nat ltac:(lia) p qp wp n' q' w' (length qp)); [done| | |done|].
    - apply covers_end; [done..|lia].
    - split_and!; [done|done|lia|]. exists p', qp', wp', nd'. split_and!; [done..|lia].
    - rewrite take_ge by lia. rewrite Hpre at 1. apply (take_take_eq _ _ m); [lia|done]. }
  assert (length qp' <= length qp)%nat as Hle'.
  { destruct (decide (length qp' <= length qp)%nat) as [|Hgt]; [done|]. exfalso.
    assert (n = p') as ->; [|rewrite Hp' in Hn; simplify_eq; lia].
    apply (IH (length q + length qp')%nat ltac:(lia) n q w p' qp' wp' (length qp')); [done| | |done|].
    - split_and!; [done|done|lia|]. exists p, qp, wp, nd. split_and!; [done..|lia].
    - apply covers_end; [done..|lia].
    - rewrite (take_ge qp') by lia. rewrite Hpre' at 2. apply (take_take_eq _ _ m); [lia|done]. }
  assert (qp = qp') as ->.
  { rewrite Hpre, Hpre'. replace (length qp') with (length qp) by lia. apply (take_take_eq _ _ m); [lia|done]. }
  assert (p = p') as ->.
  { destruct (decide (length qp' = 0%nat)) as [H0|H0].
    - apply nil_length_inv in H0 as ->.
      rewrite (root_path _ _ _ _ Hok Hp), (root_path _ _ _ _ Hok Hp'). done.
    - apply (IH (length qp' + length qp')%nat ltac:(lia) p qp' wp p' qp' wp' (length qp')); [done| | |done|done];
        apply covers_end; (done || lia). }
  apply (sibling_unique c G n n' nd nd' p' Hok); try done.
  assert (length qp' + Z.to_nat ps <= m)%nat as Hpage.
  { pose proof (divide_lt_step ps (zlen qp') (Z.of_nat m) ltac:(lia) Hd Hm). unfold zlen in *. lia. }
  apply (take_take_eq _ _ _ (length qp' + Z.to_nat ps)) in Heq; [|done].
  rewrite Hq, Hq' in Heq. rewrite !take_app_add in Heq. by apply app_inv_head in Heq.
Qed.

(** A path belongs to one node. *)
Lemma path_inj c G n n' q w w' : tree_ok ps c G ->
  G !! n = Some (q, w) -> G !! n' = Some (q, w') -> n = n'.
Proof.
  intros Hok Hn Hn'. destruct q as [|x q].
  - by rewrite (root_path _ _ _ _ Hok Hn), (root_path _ _ _ _ Hok Hn').
  - pose proof (path_lengths _ _ _ _ _ Hok Hn) as [_ Hd].
    apply (covers_unique c G n (x :: q) w n' (x :: q) w' (length (x :: q)) Hok); [| |done|done];
      apply covers_end; simpl; (done || lia).
Qed.

(** The abstract view is a map. *)
Lemma cached_functional c G k v v' : tree_ok ps c G -> cached ps G k v -> cached ps G k v' -> v = v'.
Proof.
  intros Hok (n & q & w & Hn & Hd & Hl & Hk & ->) (n' & q' & w' & Hn' & _ & Hl' & Hk' & ->).
  destruct (decide (length k = 0%nat)) as [->|Hpos]; [done|].
  destruct (cover c G n q w (length k) Hok Hn ltac:(lia)) as (a & qa & wa & Hc & Hla & Hqa & Hwa).
  destruct (cover c G n' q' w' (length k) Hok Hn' ltac:(lia)) as (a' & qa' & wa' & Hc' & Hla' & Hqa' & Hwa').
  pose proof Hc as (Ha & _ & Hka & _). pose proof Hc' as (Ha' & _ & Hka' & _).
  assert (a = a') as <-.
  { apply (covers_unique c G a qa wa a' qa' wa' (length k) Hok Hc Hc' Hd).
    rewrite Hqa, Hqa', !take_take, !Nat.min_l by lia. congruence. }
  rewrite Ha in Ha'. injection Ha' as <- <-.
  rewrite <- (Nat.min_l (length k) (length qa)) by lia. rewrite <- !take_take.
  by rewrite <- Hwa, <- Hwa'.
Qed.

Lemma cached_root c G : tree_ok ps c G -> cached ps G [] [].
Proof.
  intros Hok. exists (root_node c), [], []. split_and!; [apply (ok_root _ _ _ Hok)|by exists 0|done..].
Qed.

Lemma cached_path c G n q w : tree_ok ps c G -> G !! n = Some (q, w) -> cached ps G q w.
Proof.
  intros Hok Hn. destruct (path_lengths _ _ _ _ _ Hok Hn) as [Hw Hd].
  exists n, q, w. split_and!; [done..| |]; rewrite take_ge; (done || lia).
Qed.

(** If a path extends beyond a node by a page, it continues through the child of
    the node found under that page, all of whose key lies on the path. *)
Lemma next_page c G n q w x qx wx :
  tree_ok ps c G -> G !! n = Some (q, w) -> G !! x = Some (qx, wx) ->
  (length q + Z.to_nat ps <= length qx)%nat -> take (length q) qx = q ->
  exists a nda wa, store c !! a = Some nda /\ parent nda = Some n /\ a <> root_node c
    /\ G !! a = Some (q ++ units (key nda), wa)
    /\ take (length q + length (units (key nda))) qx = q ++ units (key nda).
Proof.
  intros Hok Hn Hx Hlen Hpre.
  destruct (path_lengths _ _ _ _ _ Hok Hn) as [Hw Hd].
  set (m := (length q + Z.to_nat ps)%nat).
  destruct (cover c G x qx wx m Hok Hx ltac:(lia)) as (a & qa & wa & Hc & Hla & Hqa & Hwa).
  pose proof Hc as (Ha & Hra & Hma & p & qp & wp & nda & Hs & Hpa & Hp & Hq & Hlt).
  destruct (path_lengths _ _ _ _ _ Hok Hp) as [_ Hdp].
  assert (length qp <= length q)%nat as Hle.
  { destruct (decide (length qp <= length q)%nat) as [|Hgt]; [done|].
    pose proof (divide_lt_step ps (zlen q) (zlen qp) ltac:(lia) Hd Hdp). unfold zlen in *. lia. }
  assert (take (length qp) qx = qp) as Hpx.
  { assert (qp = take (length qp) qa) as Hpq by (rewrite Hq; by rewrite take_app_length).
    rewrite Hpq at 2. rewrite Hqa, take_take. f_equal. rewrite Hq, length_app in Hla |- *. lia. }
  assert (length q <= length qp)%nat as Hge.
  { destruct (decide (length q <= length qp)%nat) as [|Hgt]; [done|]. exfalso.
    assert (a = n) as ->; [|rewrite Ha in Hn; simplify_eq; lia].
    apply (covers_unique c G a qa wa n q w (length q) Hok); [| |done|].
    - split_and!; [done|done|lia|]. exists p, qp, wp, nda. split_and!; [done..|lia].
    - apply covers_end; (done || lia).
    - rewrite Hqa, take_take, Nat.min_l by lia. rewrite (take_ge q) by lia. done. }
  assert (qp = q) as ->.
  { rewrite <- Hpx, <- Hpre. f_equal. lia. }
  assert (p = n) as -> by exact (path_inj _ _ _ _ _ _ _ Hok Hp Hn).
  exists a, nda, wa. rewrite Hq in Ha. split_and!; [done..|].
  rewrite <- length_app, <- Hq. congruence.
Qed.
End Structure.

(** ** Updates that leave the shape of the tree alone

    Access times, hit counts, priorities, events and the clock do not matter to the
    invariant. *)

Definition shape (n : TreeNode)
  : gmap pyval nat * option nat * RadixKey * option (list Z) * Z * option (list string) :=
  (children n, parent n, key n, value n, lock_ref n, hash_value n).

Record sim (c c' : RadixCache) : Prop := {
  sim_store : shape <$> store c = shape <$> store c';
  sim_counter : counter c = counter c';
  sim_root : root_node c = root_node c';
  sim_evictable : evictable_size_ c = evictable_size_ c';
  sim_protected : protected_size_ c = protected_size_ c';
  sim_leaves : evictable_leaves c = evictable_leaves c';
}.

#[export] Instance sim_equivalence : Equivalence sim.
Proof.
  split.
  - by intros c.
  - intros c c' []. by split.
  - intros c c' c'' [] []. split; etrans; done.
Qed.

Lemma sim_lookup c c' i n : sim c c' -> store c !! i = Some n ->
  exists n', store c' !! i = Some n' /\ shape n' = shape n.
Proof.
  intros [Hs _ _ _ _ _] Hi. apply (f_equal (fun m => m !! i)) in Hs.
  rewrite !lookup_fmap, Hi in Hs. simpl in Hs. symmetry in Hs.
  apply fmap_Some in Hs as (n' & Hn' & Heq). by exists n'.
Qed.

Lemma sim_lookup_is_Some c c' i : sim c c' -> is_Some (store c !! i) <-> is_Some (store c' !! i).
Proof.
  intros Hs. split; intros [n Hn].
  - destruct (sim_lookup _ _ _ _ Hs Hn) as (? & ? & _). eauto.
  - symmetry in Hs. destruct (sim_lookup _ _ _ _ Hs Hn) as (? & ? & _). eauto.
Qed.

Lemma upd_sim c i f : (forall n, shape (f n) = shape n) -> sim c (upd c i f).
Proof.
  intros Hf. split; try done. simpl. apply map_eq. intros j. rewrite !lookup_fmap.
  destruct (decide (i = j)) as [->|]; [rewrite lookup_alter_eq|by rewrite lookup_alter_ne].
  destruct (store c !! j); simpl; [by rewrite Hf|done].
Qed.

Lemma tick_sim c n : sim c (tick c n).
Proof. by split. Qed.

Lemma set_queue_sim c q : sim c (set_queue c q).
Proof. by split. Qed.

#[export] Hint Resolve upd_sim tick_sim set_queue_sim : radix.

Lemma tree_ok_sim ps c c' G : sim c c' -> tree_ok ps c G -> tree_ok ps c' G.
Proof.
  intros Hs [Hr (r & Hrn & Hrk & Hrv & Hrl & Hrh) Hn Hc Hf].
  pose proof (sim_root _ _ Hs) as Hroot. split.
  - by rewrite <- Hroot.
  - destruct (sim_lookup _ _ _ _ Hs Hrn) as (r' & Hr' & [= ? ? Hk Hv Hl Hh]).
    exists r'. rewrite <- Hroot, Hk, Hv, Hl, Hh. done.
  - intros n q w HG Hne. rewrite <- Hroot in Hne.
    destruct (Hn n q w HG Hne) as (nd & p & pn & qp & wp & v & ck & H1 & H2 & H3 & H).
    destruct (sim_lookup _ _ _ _ Hs H1) as (nd' & H1' & [= E1 E2 E3 E4 E5 E6]).
    destruct (sim_lookup _ _ _ _ Hs H3) as (pn' & H3' & [= F1 F2 F3 F4 F5 _]).
    exists nd', p, pn', qp, wp, v, ck. unfold hashes_ok in *. rewrite E6, E2, E3, E4, E5, F1. done.
  - intros n nd' ck ch Hg Hnd' Hch'. symmetry in Hs.
    destruct (sim_lookup _ _ _ _ Hs Hnd') as (nd & Hnd & [= E1 _ _ _ _ _]). rewrite <- E1 in Hch'.
    destruct (Hc n nd ck ch Hg Hnd Hch') as (Hne & Hsome & chn & Hchn & Hpar & Hck).
    split_and!; [by rewrite <- Hroot|done|]. symmetry in Hs.
    destruct (sim_lookup _ _ _ _ Hs Hchn) as (chn' & Hchn' & [= _ G2 G3 _ _ _]).
    exists chn'. by rewrite G2, G3.
  - intros i Hi. rewrite <- (sim_counter _ _ Hs). apply Hf. by apply (sim_lookup_is_Some _ _ _ Hs).
Qed.

Lemma locks_ok_sim c c' G L : sim c c' -> locks_ok c G L -> locks_ok c' G L.
Proof.
  intros Hs [Hl Hc]. split; [done|]. intros n nd HG Hr Hnd. rewrite <- (sim_root _ _ Hs) in Hr.
  symmetry in Hs. destruct (sim_lookup _ _ _ _ Hs Hnd) as (nd0 & Hnd0 & [= _ _ _ _ E5 _]).
  rewrite <- E5. by apply Hc.
Qed.

Lemma sim_fields c c' n :
  sim c c' -> evictable_of c n = evictable_of c' n /\ protected_of c n = protected_of c' n
    /\ slots_of c n = slots_of c' n.
Proof.
  intros Hs. unfold evictable_of, protected_of, slots_of.
  destruct (store c !! n) as [nd|] eqn:Hn.
  - destruct (sim_lookup _ _ _ _ Hs Hn) as (nd' & -> & [= _ _ Hk Hv Hl _]). by rewrite Hk, Hv, Hl.
  - destruct (store c' !! n) eqn:Hn'; [|done].
    destruct (proj2 (sim_lookup_is_Some _ _ n Hs)); [by eexists|]. congruence.
Qed.

Lemma cache_ok_sim ps c c' G : sim c c' -> cache_ok ps c G -> cache_ok ps c' G.
Proof.
  intros Hs [Ht Hl [He Hp]]. pose proof (sim_root _ _ Hs) as Hroot. split; [by eapply tree_ok_sim| |split].
  - intros n. rewrite <- (sim_leaves _ _ Hs), <- Hroot, (Hl n).
    split; intros (Hne & HG & nd & Hnd & Hlk & Hch); split_and!; try done.
    + destruct (sim_lookup _ _ _ _ Hs Hnd) as (nd' & Hnd' & [= E1 _ _ _ E5 _]).
      exists nd'. by rewrite E1, E5.
    + symmetry in Hs. destruct (sim_lookup _ _ _ _ Hs Hnd) as (nd' & Hnd' & [= E1 _ _ _ E5 _]).
      exists nd'. by rewrite E1, E5.
  - rewrite <- (sim_evictable _ _ Hs), He. unfold tree_nodes. rewrite <- Hroot. apply gsum_ext.
    intros n _. by apply sim_fields.
  - rewrite <- (sim_protected _ _ Hs), Hp. unfold tree_nodes. rewrite <- Hroot. apply gsum_ext.
    intros n _. by apply sim_fields.
Qed.

Lemma tree_slots_sim c c' G : sim c c' -> tree_slots c G = tree_slots c' G.
Proof.
  intros Hs. unfold tree_slots, tree_nodes. rewrite (sim_root _ _ Hs). apply gcat_ext.
  intros n _. by apply sim_fields.
Qed.
