(* ===== verification/RadixSplit.v ===== *)
(** Splitting a node ([RadixCache._split_node]) preserves the invariant of the
    prefix cache and everything the tree represents. *)

From S2P Require Export RadixTree.

(** Live nodes are in the store. *)
Lemma live_store ps c G n : tree_ok ps c G -> is_Some (G !! n) -> is_Some (store c !! n).
Proof.
  intros Hok [[q w] Hn]. destruct (decide (n = root_node c)) as [->|Hr].
  - destruct (ok_root_node _ _ _ Hok) as (r & Hr & _). eauto.
  - destruct (ok_node _ _ _ Hok _ _ _ Hn Hr) as (nd & ? & ? & ? & ? & ? & ? & Hs & _). eauto.
Qed.

Lemma fresh_store ps c G : tree_ok ps c G -> store c !! counter c = None.
Proof.
  intros Hok. destruct (store c !! counter c) eqn:E; [|done].
  pose proof (ok_fresh _ _ _ Hok (counter c)) as Hf. rewrite E in Hf. specialize (Hf ltac:(eauto)). lia.
Qed.

Lemma fresh_ghost ps c G : tree_ok ps c G -> G !! counter c = None.
Proof.
  intros Hok. destruct (G !! counter c) eqn:E; [|done].
  destruct (live_store _ _ _ (counter c) Hok) as [nd Hnd]; [eauto|].
  rewrite (fresh_store _ _ _ Hok) in Hnd. done.
Qed.

Lemma root_parent ps c G n nd p : 1 <= ps -> tree_ok ps c G -> is_Some (G !! n) -> n <> root_node c ->
  store c !! n = Some nd -> parent nd = Some p -> p <> n.
Proof.
  intros Hps Hok [[q w] Hn] Hr Hs Hp ->.
  destruct (node_parent ps Hps _ _ _ _ _ Hok Hn Hr) as (p & qp & wp & nd' & Hs' & Hp' & Hg & _ & Hl & _).
  simplify_eq. lia.
Qed.

Lemma tokens32_slice k a b : tokens32 k -> tokens32 (key_slice k a b).
Proof.
  unfold tokens32, key_slice. intros H. destruct (is_bigram k); simpl; [case_match; [|done]|];
    unfold py_slice; by apply Forall_take, Forall_drop.
Qed.

Section Split.
Context (ps : Z) (Hps : 1 <= ps) (c : RadixCache) (G : ghost) (Hok : tree_ok ps c G).
Context (child p : nat) (ch pn : TreeNode) (q qp : list unit_) (w wp v : list Z) (m : Z) (ck pk : pyval).
Context (Hch : store c !! child = Some ch) (Hpn : store c !! p = Some pn).
Context (Hpar : parent ch = Some p) (Hroot : child <> root_node c).
Context (HGc : G !! child = Some (qp ++ units (key ch), wp ++ v)) (HGp : G !! p = Some (qp, wp)).
Context (Hv : value ch = Some v) (Hlen : zlen v = key_len (key ch)) (Hal : aligned ps (key ch)).
Context (Hpk : child_key (key ch) ps = Ok pk) (Hlink : children pn !! pk = Some child).
Context (Hlock : 0 <= lock_ref ch).
Context (Htok : tokens32 (key ch)) (Hhash : hashes_ok ps ch).
Context (Hm : ps <= m < key_len (key ch)) (Hmd : (ps | m)).
Context (Hck : child_key (key_slice (key ch) (Some m) None) ps = Ok ck).

Let new := counter c.

(** The stored node after the split: the new upper half, the child, the parent. *)
Context (nn ch' : TreeNode).
Context (Hnn_children : children nn = {[ck := child]}) (Hnn_parent : parent nn = Some p)
  (Hnn_key : key nn = key_slice (key ch) None (Some m)) (Hnn_value : value nn = Some (py_upto v m))
  (Hnn_lock : lock_ref nn = lock_ref ch).
Context (Hch_children : children ch' = children ch) (Hch_parent : parent ch' = Some new)
  (Hch_key : key ch' = key_slice (key ch) (Some m) None) (Hch_value : value ch' = Some (py_from v m))
  (Hch_lock : lock_ref ch' = lock_ref ch).
Context (Hsh : (hash_value nn, hash_value ch') = split_node_hash_value (hash_value ch) m ps).

Let pn' := set_children (<[pk := new]> (children pn)) pn.

Context (c' : RadixCache).
Context (Hst : store c' = <[p := pn']> (<[child := ch']> (<[new := nn]> (store c)))).
Context (Hrt : root_node c' = root_node c) (Hcnt : counter c' = S new).

Let G' : ghost := <[new := (qp ++ units (key nn), wp ++ py_upto v m)]> G.

Lemma new_fresh i : is_Some (store c !! i) -> i <> new.
Proof. intros Hi ->. unfold new in Hi. rewrite (fresh_store _ _ _ Hok) in Hi. by destruct Hi. Qed.

Lemma p_ne_child : p <> child.
Proof. apply (root_parent ps c G child ch p); eauto. Qed.

Lemma split_lookup_new : store c' !! new = Some nn.
Proof.
  rewrite Hst. pose proof (new_fresh p ltac:(eauto)). pose proof (new_fresh child ltac:(eauto)).
  by simplify_map_eq.
Qed.
Lemma split_lookup_child : store c' !! child = Some ch'.
Proof. rewrite Hst. pose proof p_ne_child. by simplify_map_eq. Qed.
Lemma split_lookup_p : store c' !! p = Some pn'.
Proof. rewrite Hst. by simplify_map_eq. Qed.
Lemma split_lookup_other i : i <> new -> i <> child -> i <> p -> store c' !! i = store c !! i.
Proof. intros. rewrite Hst. by rewrite !lookup_insert_ne by done. Qed.

Lemma split_ghost i : i <> new -> G' !! i = G !! i.
Proof. intros. unfold G'. by rewrite lookup_insert_ne by done. Qed.

Lemma split_frame i nd : store c !! i = Some nd -> i <> child ->
  exists nd', store c' !! i = Some nd' /\ parent nd' = parent nd /\ key nd' = key nd
    /\ value nd' = value nd /\ lock_ref nd' = lock_ref nd /\ hash_value nd' = hash_value nd.
Proof.
  intros Hi Hne. destruct (decide (i = p)) as [->|Hp].
  - rewrite Hpn in Hi. injection Hi as <-. exists pn'. split; [apply split_lookup_p|done].
  - exists nd. rewrite split_lookup_other; [done|apply new_fresh; eauto|done..].
Qed.

Lemma split_units : units (key ch) = units (key nn) ++ units (key ch').
Proof. rewrite Hnn_key, Hch_key, units_upto, units_from by lia. by rewrite take_drop. Qed.

Lemma split_len_new : key_len (key nn) = m.
Proof. rewrite Hnn_key. apply key_len_upto. lia. Qed.

Lemma split_len_child : key_len (key ch') = key_len (key ch) - m.
Proof. rewrite Hch_key. apply key_len_from. lia. Qed.

Lemma split_new_key : child_key (key nn) ps = Ok pk.
Proof.
  rewrite <- Hpk. apply child_key_inj; [rewrite split_len_new; lia|lia|].
  rewrite Hnn_key, units_upto by lia. rewrite take_take. f_equal. lia.
Qed.

Lemma split_hashes : hashes_ok ps nn /\ hashes_ok ps ch'.
Proof.
  unfold hashes_ok in *. rewrite split_len_new, split_len_child.
  destruct (hash_value ch) as [h|]; simpl in Hsh.
  2:{ by injection Hsh as -> ->. }
  destruct Hhash as [Hl Hf].
  assert ((if ps =? 1 then m else m / ps) = m / ps) as Hpg.
  { destruct (Z.eqb_spec ps 1) as [->|]; [by rewrite Z.div_1_r|done]. }
  rewrite Hpg in Hsh. injection Hsh as -> ->.
  assert (m / ps * ps = m) as Hdm by (rewrite Z.mul_comm; symmetry; apply Z.div_exact, Z.mod_divide; lia || done).
  pose proof (Z.div_pos m ps ltac:(lia) ltac:(lia)). assert (m / ps <= zlen h) by nia.
  rewrite zlen_py_upto, zlen_py_from, py_upto_nonneg, py_from_nonneg by lia.
  split; (split; [lia|]); [by apply Forall_take|by apply Forall_drop].
Qed.

Lemma split_node_new : node_ok ps c' G' new (qp ++ units (key nn)) (wp ++ py_upto v m).
Proof.
  exists nn, p, pn', qp, wp, (py_upto v m), pk.
  split_and!; try done.
  - apply split_lookup_new.
  - apply split_lookup_p.
  - rewrite split_ghost; [done|]. apply new_fresh. eauto.
  - rewrite split_len_new. apply zlen_py_upto. lia.
  - rewrite split_len_new. lia.
  - unfold aligned. by rewrite split_len_new.
  - apply split_new_key.
  - simpl. by simplify_map_eq.
  - lia.
  - rewrite Hnn_key. by apply tokens32_slice.
  - apply split_hashes.
Qed.

Lemma split_node_child : node_ok ps c' G' child (qp ++ units (key ch)) (wp ++ v).
Proof.
  exists ch', new, nn, (qp ++ units (key nn)), (wp ++ py_upto v m), (py_from v m), ck.
  pose proof split_len_child as Hl.
  assert (ps <= key_len (key ch')) as Hge.
  { rewrite Hl. pose proof (divide_lt_step ps m (key_len (key ch)) ltac:(lia) Hmd Hal). lia. }
  split_and!; try done.
  - apply split_lookup_child.
  - apply split_lookup_new.
  - unfold G'. by simplify_map_eq.
  - by rewrite <- app_assoc, <- split_units.
  - rewrite <- app_assoc, py_upto_from by lia. done.
  - rewrite Hl, <- Hlen. apply zlen_py_from. lia.
  - unfold aligned. rewrite Hl. apply Z.divide_sub_r; done.
  - by rewrite Hch_key.
  - rewrite Hnn_children. by simplify_map_eq.
  - lia.
  - rewrite Hch_key. by apply tokens32_slice.
  - apply split_hashes.
Qed.

Lemma split_node_other n qn wn : n <> new -> n <> child -> n <> root_node c ->
  G !! n = Some (qn, wn) -> node_ok ps c' G' n qn wn.
Proof.
  intros Hnew Hne Hr HG.
  destruct (ok_node _ _ _ Hok _ _ _ HG Hr)
    as (nd & pp & ppn & qpp & wpp & vn & ckn & H1 & H2 & H3 & H4 & H5 & H6 & H7 & H8 & H9 & H10 & H11 & H12 & H13 & H15 & H16).
  destruct (split_frame n nd H1 Hne) as (nd' & L1 & E1 & E2 & E3 & E4 & E5).
  assert (pp <> new) as Hppn by (apply new_fresh; eauto).
  assert (exists ppn', store c' !! pp = Some ppn' /\ lock_ref ppn' = lock_ref ppn
            /\ children ppn' !! ckn = Some n) as (ppn' & L3 & F1 & F2).
  { destruct (decide (pp = child)) as [->|Hc]; [|destruct (decide (pp = p)) as [->|Hp]].
    - rewrite Hch in H3. injection H3 as <-. exists ch'. rewrite Hch_children, Hch_lock.
      split; [apply split_lookup_child|done].
    - rewrite Hpn in H3. injection H3 as <-. exists pn'. split; [apply split_lookup_p|]. split; [done|].
      simpl. rewrite lookup_insert_ne; [done|]. intros ->. rewrite Hlink in H12. by injection H12 as ?.
    - exists ppn. by rewrite split_lookup_other. }
  exists nd', pp, ppn', qpp, wpp, vn, ckn.
  unfold hashes_ok in *. rewrite E1, E2, E3, E4, E5, split_ghost by done. split_and!; done.
Qed.

Lemma split_tree_ok : tree_ok ps c' G'.
Proof.
  split.
  - rewrite Hrt, split_ghost; [apply (ok_root _ _ _ Hok)|].
    apply new_fresh. destruct (ok_root_node _ _ _ Hok) as (r & Hr & _). eauto.
  - destruct (ok_root_node _ _ _ Hok) as (r & Hr & Hk & Hrv & Hl & Hh).
    destruct (split_frame _ r Hr ltac:(done)) as (r' & L & _ & E2 & E3 & E4 & E5).
    exists r'. by rewrite Hrt, E2, E3, E4, E5.
  - intros n qn wn HG Hr. rewrite Hrt in Hr. destruct (decide (n = new)) as [->|Hnew].
    { unfold G' in HG. rewrite lookup_insert_eq in HG. injection HG as <- <-. apply split_node_new. }
    rewrite split_ghost in HG by done. destruct (decide (n = child)) as [->|Hne].
    + rewrite HGc in HG. injection HG as <- <-. apply split_node_child.
    + by apply split_node_other.
  - intros n nd k0 x HG Hn Hx.
    destruct (decide (n = new)) as [->|Hnew].
    { rewrite split_lookup_new in Hn. injection Hn as <-. rewrite Hnn_children in Hx.
      apply lookup_singleton_Some in Hx as [<- <-].
      split_and!; [by rewrite Hrt|rewrite split_ghost; [by eauto|apply new_fresh; eauto]|].
      exists ch'. rewrite Hch_key. split_and!; [apply split_lookup_child|done..]. }
    rewrite split_ghost in HG by done.
    assert (exists nd0, store c !! n = Some nd0 /\
      (children nd0 !! k0 = Some x /\ (n = p -> k0 <> pk) \/ (n = p /\ k0 = pk /\ x = new))) as (nd0 & Hn0 & Hcase).
    { destruct (decide (n = child)) as [->|Hc]; [|destruct (decide (n = p)) as [->|Hp]].
      - rewrite split_lookup_child in Hn. injection Hn as <-. exists ch. rewrite Hch_children in Hx.
        split; [done|]. left. split; [done|]. intros Heq. by destruct p_ne_child.
      - rewrite split_lookup_p in Hn. injection Hn as <-. exists pn. split; [done|].
        simpl in Hx. destruct (decide (k0 = pk)) as [->|Hk].
        + rewrite lookup_insert_eq in Hx. injection Hx as <-. by right.
        + rewrite lookup_insert_ne in Hx by done. by left.
      - rewrite split_lookup_other in Hn by done. exists nd. split; [done|]. by left. }
    destruct Hcase as [[Hx0 Hkp]|(-> & -> & ->)].
    + destruct (ok_child _ _ _ Hok _ _ _ _ HG Hn0 Hx0) as (Hxr & Hxg & xn & Hxs & Hxp & Hxk).
      assert (x <> new) as Hxn by (apply new_fresh; eauto).
      assert (x <> child) as Hxc.
      { intros ->. rewrite Hch in Hxs. injection Hxs as <-. rewrite Hpar in Hxp. rewrite Hpk in Hxk.
        injection Hxp as <-. injection Hxk as <-. by apply Hkp. }
      split_and!; [by rewrite Hrt|by rewrite split_ghost|].
      destruct (split_frame x xn Hxs Hxc) as (xn' & L & E1 & E2 & _). exists xn'. by rewrite E1, E2.
    + split_and!; [|unfold G'; rewrite lookup_insert_eq; eauto|].
      * rewrite Hrt. apply not_eq_sym, new_fresh.
        destruct (ok_root_node _ _ _ Hok) as (r & Hr & _). eauto.
      * exists nn. split_and!; [apply split_lookup_new|done|apply split_new_key].
  - intros i [nd Hi]. rewrite Hcnt. destruct (decide (i = new)) as [->|Hnew]; [unfold new; lia|].
    assert (is_Some (store c !! i)) as Hs.
    { destruct (decide (i = child)) as [->|]; [eauto|]. destruct (decide (i = p)) as [->|]; [eauto|].
      rewrite split_lookup_other in Hi by done. eauto. }
    pose proof (ok_fresh _ _ _ Hok i Hs). unfold new. lia.
Qed.

(** *** Leaves, sizes and slots *)

Lemma split_root_new : new <> root_node c.
Proof. apply not_eq_sym, new_fresh. destruct (ok_root_node _ _ _ Hok) as (r & Hr & _). eauto. Qed.

Lemma split_nodes : tree_nodes c' G' = tree_nodes c G ∪ {[new]}.
Proof.
  unfold tree_nodes, G'. rewrite Hrt, dom_insert_L. pose proof split_root_new. set_solver.
Qed.

Lemma new_not_node : new ∉ tree_nodes c G.
Proof.
  unfold tree_nodes. rewrite elem_of_difference, elem_of_dom. unfold new.
  rewrite (fresh_ghost _ _ _ Hok). intros [[? ?] _]. done.
Qed.

Lemma child_is_node : child ∈ tree_nodes c G.
Proof. unfold tree_nodes. rewrite elem_of_difference, elem_of_dom, elem_of_singleton. split; [eauto|done]. Qed.

(** The fields of a node other than the child are as before. *)
Lemma split_fields n : n ∈ tree_nodes c G -> n <> child ->
  evictable_of c' n = evictable_of c n /\ protected_of c' n = protected_of c n
  /\ slots_of c' n = slots_of c n.
Proof.
  unfold tree_nodes. rewrite elem_of_difference, elem_of_dom. intros [HG _] Hne.
  destruct (live_store _ _ _ _ Hok HG) as [nd Hnd].
  destruct (split_frame n nd Hnd Hne) as (nd' & L & _ & E2 & E3 & E4 & _).
  unfold evictable_of, protected_of, slots_of. by rewrite Hnd, L, E2, E3, E4.
Qed.

Lemma split_slots : Permutation (tree_slots c' G') (tree_slots c G).
Proof.
  unfold tree_slots. rewrite split_nodes, gcat_add by apply new_not_node.
  rewrite (gcat_remove _ child) by apply child_is_node.
  rewrite (gcat_remove (slots_of c) child) by apply child_is_node.
  rewrite app_assoc. apply Permutation_app.
  - unfold slots_of. rewrite split_lookup_new, split_lookup_child, Hch, Hnn_value, Hch_value, Hv. simpl.
    by rewrite py_upto_from by lia.
  - erewrite gcat_ext; [done|]. intros n Hn. apply split_fields; set_solver.
Qed.

Context (Hsz : evictable_size_ c' = evictable_size_ c) (Hpz : protected_size_ c' = protected_size_ c).
Context (Hlv : evictable_leaves c' = evictable_leaves c).

Lemma split_sizes_ok : sizes_ok c G -> sizes_ok c' G'.
Proof.
  pose proof split_len_new as Hln. pose proof split_len_child as Hlc.
  intros [He Hp]. split.
  - rewrite Hsz, He, split_nodes, gsum_add by apply new_not_node.
    rewrite (gsum_update (evictable_of c') (evictable_of c) child).
    + unfold evictable_of at 2 3 4. rewrite split_lookup_new, split_lookup_child, Hch, Hnn_lock, Hch_lock.
      case_match; lia.
    + apply child_is_node.
    + intros n Hn Hne. by apply split_fields.
  - rewrite Hpz, Hp, split_nodes, gsum_add by apply new_not_node.
    rewrite (gsum_update (protected_of c') (protected_of c) child).
    + unfold protected_of at 2 3 4. rewrite split_lookup_new, split_lookup_child, Hch, Hnn_lock, Hch_lock.
      case_match; lia.
    + apply child_is_node.
    + intros n Hn Hne. by apply split_fields.
Qed.

Lemma split_leaves_ok : leaves_ok c G -> leaves_ok c' G'.
Proof.
  intros Hl n. rewrite Hlv, Hrt, (Hl n). split.
  - intros (Hr & HG & nd & Hnd & Hlk & Hemp). split_and!; [done| |].
    { rewrite split_ghost; [done|]. apply new_fresh. eauto. }
    destruct (decide (n = child)) as [->|Hc]; [|destruct (decide (n = p)) as [->|Hp]].
    + exists ch'. rewrite Hch in Hnd. injection Hnd as <-. rewrite Hch_lock, Hch_children.
      split; [apply split_lookup_child|done].
    + rewrite Hpn in Hnd. injection Hnd as <-. rewrite Hemp in Hlink. by rewrite lookup_empty in Hlink.
    + exists nd. rewrite split_lookup_other; [done|apply new_fresh; eauto|done..].
  - intros (Hr & HG & nd & Hnd & Hlk & Hemp).
    destruct (decide (n = new)) as [->|Hnew].
    { rewrite split_lookup_new in Hnd. injection Hnd as <-. rewrite Hnn_children in Hemp.
      by apply map_non_empty_singleton in Hemp. }
    rewrite split_ghost in HG by done. split_and!; [done..|].
    destruct (decide (n = child)) as [->|Hc]; [|destruct (decide (n = p)) as [->|Hp]].
    + rewrite split_lookup_child in Hnd. injection Hnd as <-. exists ch.
      by rewrite <- Hch_lock, <- Hch_children.
    + rewrite split_lookup_p in Hnd. injection Hnd as <-. simpl in Hemp.
      by apply insert_non_empty in Hemp.
    + rewrite split_lookup_other in Hnd by done. by exists nd.
Qed.

(** A path that continues below the split point goes through the child, so the new
    node has the locks of the child. *)
Lemma split_anc_new l : l <> new -> anc G' new l = anc G child l.
Proof.
  intros Hl. unfold anc. rewrite (split_ghost l) by done. rewrite HGc.
  assert (G' !! new = Some (qp ++ units (key nn), wp ++ py_upto v m)) as -> by apply lookup_insert_eq.
  destruct (G !! l) as [[ql wl]|] eqn:HGl; [|done]. apply bool_decide_ext.
  assert (length (units (key nn)) = Z.to_nat m) as Hlu.
  { rewrite Hnn_key, units_upto, length_take by lia. pose proof (zlen_units (key ch)). unfold zlen in *. lia. }
  assert (qp ++ units (key nn) = take (length qp + Z.to_nat m) (qp ++ units (key ch))) as Hnq.
  { rewrite take_app_add, Hnn_key, units_upto by lia. done. }
  pose proof (zlen_units (key ch)) as Zc. unfold zlen in Zc.
  rewrite !length_app, Hlu. split; intros Heq.
  - set (mm := (length qp + Z.to_nat m)%nat) in *.
    assert (mm <= length ql)%nat as Hle.
    { apply (f_equal length) in Heq. rewrite length_app, Hlu, length_take in Heq. unfold mm. lia. }
    destruct (cover ps Hps c G l ql wl mm Hok HGl ltac:(unfold mm; lia)) as (a & qa & wa & Hc & Hla & Hqa & _).
    assert (a = child) as ->.
    { apply (covers_unique ps Hps c G a qa wa child (qp ++ units (key ch)) (wp ++ v) mm Hok Hc).
      - split_and!; [done|done|rewrite length_app; unfold mm; lia|].
        exists p, qp, wp, ch. split_and!; try done. unfold mm. lia.
      - destruct (path_lengths ps Hps _ _ _ _ _ Hok HGp) as [_ Hdp]. unfold zlen in Hdp. unfold mm.
        rewrite Nat2Z.inj_add, Z2Nat.id by lia. by apply Z.divide_add_r.
      - rewrite <- Hnq, Heq. pose proof Hc as (_ & _ & Hma & _). rewrite Hqa, take_take. f_equal. lia. }
    destruct Hc as (Ha & _). rewrite HGc in Ha. injection Ha as <- <-. by rewrite length_app in Hqa.
  - rewrite Hnq, Heq, take_take. f_equal. lia.
Qed.

Lemma split_anc_other n l : n <> new -> l <> new -> anc G' n l = anc G n l.
Proof. intros. unfold anc. by rewrite !split_ghost. Qed.

Lemma split_locks_ok L : locks_ok c G L -> locks_ok c' G' L.
Proof.
  intros [Hl Hc].
  assert (forall l, l ∈ L -> l <> new) as HLn.
  { intros l Hin. apply new_fresh, (live_store ps c G); [done|]. rewrite Forall_forall in Hl. by apply Hl. }
  split.
  - eapply Forall_impl; [exact Hl|]. intros l Hs. rewrite split_ghost; [done|].
    apply new_fresh, (live_store ps c G); done.
  - intros n nd HGn Hr Hnd. rewrite Hrt in Hr. unfold lock_count in *.
    destruct (decide (n = new)) as [->|Hnew].
    { rewrite split_lookup_new in Hnd. injection Hnd as <-. rewrite Hnn_lock, (Hc child ch) by eauto.
      symmetry. apply zlen_filter_ext. intros l Hin. apply split_anc_new. by apply HLn. }
    rewrite split_ghost in HGn by done.
    rewrite (zlen_filter_ext (anc G' n) (anc G n)) by (intros l Hin; apply split_anc_other; [done|by apply HLn]).
    destruct (decide (n = child)) as [->|Hne].
    + rewrite split_lookup_child in Hnd. injection Hnd as <-. rewrite Hch_lock. by apply Hc.
    + destruct (live_store _ _ _ _ Hok HGn) as [nd0 Hnd0].
      destruct (split_frame n nd0 Hnd0 Hne) as (nd' & L' & _ & _ & _ & E4 & _).
      rewrite Hnd in L'. injection L' as <-. rewrite E4. by apply Hc.
Qed.

Lemma split_cache_ok : cache_ok ps c G -> cache_ok ps c' G'.
Proof.
  intros [_ Hl Hs]. split; [apply split_tree_ok|by apply split_leaves_ok|by apply split_sizes_ok].
Qed.
End Split.
