(* ===== verification/RadixMatch.v ===== *)
(** Matching: [RadixCache.match_prefix] returns the KV indices of the longest
    cached prefix and, although it may split a node, leaves the abstract content
    of the cache unchanged. *)

From S2P Require Export RadixSplit.

(** ** Changes that preserve what the tree represents *)

Record keeps (ps : Z) (c : RadixCache) (G : ghost) (c' : RadixCache) (G' : ghost) : Prop := {
  keeps_ghost : G ⊆ G';
  keeps_cached k v : cached ps G' k v <-> cached ps G k v;
  keeps_slots : Permutation (tree_slots c' G') (tree_slots c G);
  keeps_root : root_node c' = root_node c;
  keeps_evictable : evictable_size_ c' = evictable_size_ c;
  keeps_protected : protected_size_ c' = protected_size_ c;
  keeps_locks L : locks_ok c G L -> locks_ok c' G' L;
}.

Lemma keeps_refl ps c G : keeps ps c G c G.
Proof. by split. Qed.

Lemma keeps_trans ps c1 G1 c2 G2 c3 G3 :
  keeps ps c1 G1 c2 G2 -> keeps ps c2 G2 c3 G3 -> keeps ps c1 G1 c3 G3.
Proof.
  intros [] []. split; [by etrans| |by etrans|by etrans..|by eauto].
  intros k v. etrans; eauto.
Qed.

Lemma keeps_sim ps c c' G : sim c c' -> keeps ps c G c' G.
Proof.
  intros Hs. split; [done|done|by rewrite (tree_slots_sim _ _ _ Hs)|..];
    try (symmetry; apply Hs). intros L. by apply locks_ok_sim.
Qed.

#[export] Hint Resolve keeps_refl keeps_sim : radix.

(** Adding an inner point of an existing path changes nothing. *)
Lemma cached_insert_prefix ps G i n q w q0 w0 k v :
  G !! i = None -> G !! n = Some (q, w) ->
  q0 = take (length q0) q -> w0 = take (length q0) w -> (length q0 <= length q)%nat ->
  cached ps (<[i := (q0, w0)]> G) k v <-> cached ps G k v.
Proof.
  intros Hi Hn Hq0 Hw0 Hle. split.
  - intros (x & qx & wx & Hx & Hd & Hl & Hk & Hv).
    destruct (decide (x = i)) as [->|Hne].
    + rewrite lookup_insert_eq in Hx. injection Hx as <- <-.
      exists n, q, w. split_and!; [done..|lia| |].
      * rewrite Hk at 1. rewrite Hq0, take_take. f_equal. lia.
      * rewrite Hv, Hw0, take_take. f_equal. lia.
    + rewrite lookup_insert_ne in Hx by done. by exists x, qx, wx.
  - intros (x & qx & wx & Hx & H). exists x, qx, wx.
    rewrite lookup_insert_ne; [done|]. intros <-. congruence.
Qed.

Lemma alter_insert_Some {A} (f : A -> A) (i : nat) (s : gmap nat A) x :
  s !! i = Some x -> alter f i s = <[i := f x]> s.
Proof.
  intros Hi. apply map_eq. intros j. destruct (decide (i = j)) as [->|Hne].
  - by rewrite lookup_alter_eq, lookup_insert_eq, Hi.
  - by rewrite lookup_alter_ne, lookup_insert_ne by done.
Qed.

Lemma deref_store c n nd : store c !! n = Some nd -> deref c (Some n) = Ok nd.
Proof. intros Hn. unfold deref. by rewrite Hn. Qed.

Section Match.
Context (cfg : CacheConfig) (monotonic : nat -> Z).
Abbreviation ps := (cfg_page_size cfg).
Context (Hps : 1 <= ps).

(** ** The split, as the code runs it *)

Lemma split_node_spec c G child ch q w m :
  cache_ok ps c G -> G !! child = Some (q, w) -> child <> root_node c ->
  store c !! child = Some ch -> ps <= m < key_len (key ch) -> (ps | m) ->
  exists c' p qp wp v nn, split_node cfg monotonic c (key ch) child m = Ok (counter c, c')
    /\ parent ch = Some p /\ G !! p = Some (qp, wp) /\ value ch = Some v
    /\ q = qp ++ units (key ch) /\ w = wp ++ v
    /\ store c' !! counter c = Some nn /\ value nn = Some (py_upto v m) /\ lock_ref nn = lock_ref ch
    /\ let G' := <[counter c := (qp ++ take (Z.to_nat m) (units (key ch)), wp ++ py_upto v m)]> G in
       cache_ok ps c' G' /\ keeps ps c G c' G' /\ counter c' = S (counter c).
Proof.
  intros Hok HG Hr Hs Hm Hmd. pose proof (ok_tree _ _ _ Hok) as Ht.
  destruct (ok_node _ _ _ Ht _ _ _ HG Hr)
    as (ch0 & p & pn & qp & wp & v & pk & H1 & H2 & H3 & H4 & H5 & H6 & H7 & H8 & H9 & H10 & H11 & H12 & H13 & H15 & H16).
  rewrite Hs in H1. injection H1 as <-. subst q w.
  assert (ps <= key_len (key_slice (key ch) (Some m) None)) as Hrest.
  { rewrite key_len_from by lia. pose proof (divide_lt_step ps m (key_len (key ch)) ltac:(lia) Hmd H10). lia. }
  destruct (child_key (key_slice (key ch) (Some m) None) ps) as [ck|e] eqn:Hck.
  2:{ rewrite child_key_encode in Hck by lia. done. }
  set (h := split_node_hash_value (hash_value ch) m ps).
  set (nn := MkTreeNode {[ck := child]} (parent ch) (key_slice (key ch) None (Some m)) (Some (py_upto v m))
       (lock_ref ch) (monotonic (ticks c)) (monotonic (S (ticks c))) (hit_count ch) 0 None h.1
       (priority ch)).
  eexists _, p, qp, wp, v, nn. split.
  { unfold split_node. simpl. rewrite Hs. simpl. rewrite Hck. simpl. rewrite H5. simpl.
    rewrite H11. simpl. rewrite H2. simpl. rewrite H3. simpl.
    rewrite (surjective_pairing (split_node_hash_value _ _ _)). fold h. simpl.
    rewrite <- H2 at 1. fold nn. reflexivity. }
  assert (child <> counter c) as Hcn.
  { intros ->. by rewrite (fresh_store _ _ _ Ht) in Hs. }
  assert (p <> counter c) as Hpn.
  { intros ->. by rewrite (fresh_store _ _ _ Ht) in H3. }
  assert (p <> child) as Hpc by (apply (root_parent ps c G child ch p); eauto).
  set (c' := upd (upd _ _ _) _ _).
  set (ch' := MkTreeNode (children ch) (Some (counter c)) (key_slice (key ch) (Some m) None)
    (Some (py_from v m)) (lock_ref ch) (last_access_time ch) (creation_time ch) (hit_count ch)
    (host_ref_counter ch) (host_value ch) h.2 (priority ch)).
  assert (store c' = <[p := set_children (<[pk := counter c]> (children pn)) pn]>
                       (<[child := ch']> (<[counter c := nn]> (store c)))) as Hst.
  { unfold c'. simpl. rewrite (alter_insert_Some _ _ _ pn); [|by simplify_map_eq].
    by rewrite (alter_insert_Some _ _ _ ch) by by simplify_map_eq. }
  split_and!; [done..| |done|done|].
  { rewrite Hst. by simplify_map_eq. }
  assert (units (key nn) = take (Z.to_nat m) (units (key ch))) as Hun.
  { simpl. apply units_upto. lia. }
  cbn zeta. rewrite <- Hun. split_and!; [| |done].
  - apply (split_cache_ok ps Hps c G Ht child p ch pn qp wp v m ck pk Hs H3 H2 Hr HG H4 H5 H8 H10 H11 H12
             H13 H15 H16 Hm Hmd Hck nn ch'); try done; symmetry; apply surjective_pairing.
  - split; try done.
    + apply insert_subseteq, (fresh_ghost _ _ _ Ht).
    + intros k v0. destruct (path_lengths ps Hps _ _ _ _ _ Ht H4) as [Hwp _].
      assert (length (qp ++ units (key nn)) = length qp + Z.to_nat m)%nat as Hlen.
      { rewrite length_app, Hun, length_take. pose proof (zlen_units (key ch)). unfold zlen in *. lia. }
      apply (cached_insert_prefix ps G _ child (qp ++ units (key ch)) (wp ++ v)); [|done|..].
      * apply (fresh_ghost _ _ _ Ht).
      * rewrite Hlen, take_app_add. by rewrite Hun.
      * rewrite Hlen, <- Hwp, take_app_add. by rewrite py_upto_nonneg by lia.
      * rewrite Hlen, length_app. pose proof (zlen_units (key ch)). unfold zlen in *. lia.
    + apply (split_slots ps Hps c G Ht child p ch pn qp wp v m ck pk Hs H3 H2 Hr HG H4 H5 H8 H10 H11 H12
             H13 H15 H16 Hm Hmd Hck nn ch'); try done; symmetry; apply surjective_pairing.
    + intros L. by apply (split_locks_ok ps Hps c G Ht child p ch pn qp wp v m pk Hs H3 H2 Hr HG H4 Hm Hmd nn ch').
Qed.

(** ** One step of the walk *)

(** The child under the dictionary key of [k]: its key and [k] agree on exactly
    [m] units, at least a page. *)
Record walk_step (c : RadixCache) (G : ghost) (q : list unit_) (w : list Z) (k : RadixKey)
    (child : nat) (ch : TreeNode) (v : list Z) (m : Z) : Prop := {
  ws_live : G !! child = Some (q ++ units (key ch), w ++ v);
  ws_root : child <> root_node c;
  ws_store : store c !! child = Some ch;
  ws_value : value ch = Some v;
  ws_len : zlen v = key_len (key ch);
  ws_aligned : aligned ps (key ch);
  ws_match : key_match (key ch) k ps = Ok m;
  ws_page : ps <= m;
  ws_div : (ps | m);
  ws_le : m <= key_len (key ch);
  ws_le_key : m <= key_len k;
  ws_agree : take (Z.to_nat m) (units (key ch)) = take (Z.to_nat m) (units k);
  ws_max m' : (ps | m') -> 0 <= m' <= key_len (key ch) -> m' <= key_len k ->
    take (Z.to_nat m') (units (key ch)) = take (Z.to_nat m') (units k) -> m' <= m;
}.

Lemma round_down_bounds n : 0 <= n -> 0 <= round_down ps n <= n /\ (ps | round_down ps n).
Proof.
  intros. unfold round_down. pose proof (Z.mul_div_le n ps). pose proof (Z.div_pos n ps).
  split; [lia|]. by exists (n / ps).
Qed.

Lemma round_down_max n m : (ps | m) -> m <= n -> m <= round_down ps n.
Proof.
  intros [x ->] Hm. unfold round_down. apply Z.mul_le_mono_nonneg_r; [lia|].
  apply Z.div_le_lower_bound; lia.
Qed.

Lemma walk c G n nd q w k ck child :
  tree_ok ps c G -> G !! n = Some (q, w) -> store c !! n = Some nd ->
  children nd !! ck = Some child -> child_key k ps = Ok ck -> aligned ps k -> 0 < key_len k ->
  exists ch v m, walk_step c G q w k child ch v m.
Proof.
  intros Ht HG Hs Hc Hck Hal Hlen.
  assert (ps <= key_len k) as Hpk.
  { pose proof (divide_lt_step ps 0 (key_len k) ltac:(lia) (Z.divide_0_r ps) Hal). lia. }
  destruct (ok_child _ _ _ Ht n nd ck child ltac:(eauto) Hs Hc) as (Hr & [[qc wc] HGc] & ch & Hch & Hpar & Hckc).
  destruct (ok_node _ _ _ Ht _ _ _ HGc Hr)
    as (ch0 & p & pn & qp & wp & v & pk & H1 & H2 & H3 & H4 & H5 & H6 & H7 & H8 & H9 & H10 & _).
  rewrite Hch in H1. injection H1 as <-. rewrite Hpar in H2. injection H2 as <-.
  rewrite HG in H4. injection H4 as <- <-. subst qc wc.
  assert (take (Z.to_nat ps) (units (key ch)) = take (Z.to_nat ps) (units k)) as Hpage.
  { apply child_key_inj; [lia|lia|]. congruence. }
  assert (extra_key (key ch) = extra_key k) as He by (apply units_take_inj in Hpage as [? _]; [done|lia|lia]).
  assert (is_bigram (key ch) = is_bigram k) as Hb by (apply (units_head_view (key ch) k ps); [lia|lia|done]).
  set (L := Z.of_nat (lcp (units (key ch)) (units k))).
  pose proof (zlen_units (key ch)) as Zc. pose proof (zlen_units k) as Zk. unfold zlen in Zc, Zk.
  pose proof (lcp_le_l (units (key ch)) (units k)). pose proof (lcp_le_r (units (key ch)) (units k)).
  destruct (round_down_bounds L ltac:(lia)) as [Hr1 Hr2].
  exists ch, v, (round_down ps L). split; try done; try lia.
  - by apply key_match_lcp.
  - apply round_down_max; [by exists 1; lia|].
    pose proof (lcp_max _ _ _ Hpage). lia.
  - apply (take_take_eq _ _ (lcp (units (key ch)) (units k))); [lia|]. apply lcp_take.
  - intros m' Hd Hm1 Hm2 Ht'. apply round_down_max; [done|]. pose proof (lcp_max _ _ _ Ht'). lia.
Qed.

(** Nothing longer is cached when the walk stops at a node without a matching
    child, ... *)
Lemma stop_no_child c G n nd q w k ck m v :
  tree_ok ps c G -> G !! n = Some (q, w) -> store c !! n = Some nd ->
  children nd !! ck = None -> child_key k ps = Ok ck -> aligned ps k -> 0 < key_len k ->
  cached ps G (take m (q ++ units k)) v -> (m <= length (q ++ units k))%nat -> (m <= length q)%nat.
Proof.
  intros Ht HG Hs Hc Hck Hal Hlen (x & qx & wx & Hx & Hd & Hl & Hk & _) Hm.
  destruct (decide (m <= length q)%nat) as [|Hgt]; [done|]. exfalso.
  rewrite length_take, Nat.min_l in Hl, Hk by done.
  destruct (path_lengths ps Hps _ _ _ _ _ Ht HG) as [_ Hdq].
  assert (ps <= key_len k) as Hpk.
  { pose proof (divide_lt_step ps 0 (key_len k) ltac:(lia) (Z.divide_0_r ps) Hal). lia. }
  assert (length q + Z.to_nat ps <= m)%nat as Hpage.
  { unfold zlen in Hd, Hdq. rewrite length_take, Nat.min_l in Hd by done.
    pose proof (divide_lt_step ps (Z.of_nat (length q)) (Z.of_nat m) ltac:(lia) Hdq Hd). lia. }
  assert (Htx : take (length q + Z.to_nat ps) (q ++ units k) = take (length q + Z.to_nat ps) qx).
  { apply (take_take_eq _ _ m); [lia|]. by rewrite Hk. }
  destruct (next_page ps Hps c G n q w x qx wx Ht HG Hx) as (a & nda & wa & Ha & Hpa & Hra & HGa & Hta).
  { lia. }
  { apply (take_take_eq _ _ _ (length q)) in Htx; [|lia]. by rewrite take_app_length in Htx. }
  destruct (ok_node _ _ _ Ht _ _ _ HGa Hra)
    as (nda0 & p & pn & ? & ? & ? & cka & H1 & H2 & H3 & _ & _ & _ & _ & _ & H9 & H10 & H11 & H12 & _).
  rewrite Ha in H1. injection H1 as <-. rewrite Hpa in H2. injection H2 as <-.
  rewrite Hs in H3. injection H3 as <-.
  assert (child_key (key nda) ps = child_key k ps) as Heq.
  { apply child_key_inj; [lia|lia|].
    pose proof (zlen_units (key nda)) as Hz. unfold zlen in Hz.
    apply (f_equal (take (length q + Z.to_nat ps))) in Hta.
    rewrite take_take, Nat.min_l, <- Htx, !take_app_add in Hta by lia.
    by apply app_inv_head in Hta. }
  rewrite H11, Hck in Heq. injection Heq as ->. congruence.
Qed.

(** ... or inside the key of a child. *)
Lemma stop_inside c G n q w k child ch vc l m v :
  tree_ok ps c G -> G !! n = Some (q, w) -> aligned ps k -> walk_step c G q w k child ch vc l ->
  l < key_len (key ch) ->
  cached ps G (take m (q ++ units k)) v -> (m <= length (q ++ units k))%nat ->
  (m <= length q + Z.to_nat l)%nat.
Proof.
  intros Ht HG Hal Hw Hin (x & qx & wx & Hx & Hd & Hl & Hk & _) Hm. destruct Hw.
  destruct (decide (m <= length q + Z.to_nat l)%nat) as [|Hgt]; [done|]. exfalso.
  rewrite length_take, Nat.min_l in Hl, Hk by done.
  destruct (path_lengths ps Hps _ _ _ _ _ Ht HG) as [_ Hdq].
  pose proof (zlen_units (key ch)) as Zc. pose proof (zlen_units k) as Zk. unfold zlen in Zc, Zk, Hdq.
  assert (length q + Z.to_nat l + Z.to_nat ps <= m)%nat as Hpage.
  { unfold zlen in Hd. rewrite length_take, Nat.min_l in Hd by done.
    pose proof (divide_lt_step ps (Z.of_nat (length q) + l) (Z.of_nat m) ltac:(lia)
                  ltac:(by apply Z.divide_add_r) Hd). lia. }
  rewrite length_app in Hm.
  destruct (next_page ps Hps c G n q w x qx wx Ht HG Hx) as (a & nda & wa & Ha & Hpa & Hra & HGa & Hta).
  { lia. }
  { apply (take_take_eq _ _ _ (length q)) in Hk; [|lia]. by rewrite take_app_length in Hk. }
  assert (a = child) as ->.
  { destruct (node_parent ps Hps _ _ _ _ _ Ht ws_live0 ws_root0) as (p & qp & wp & ch0 & E1 & E2 & E3 & E4 & _).
    rewrite ws_store0 in E1. injection E1 as <-.
    apply app_inv_tail in E4 as <-. assert (n = p) as <- by exact (path_inj ps Hps _ _ _ _ _ _ _ Ht HG E3).
    apply (sibling_unique ps Hps c G a child nda ch n Ht); try done.
    assert (ps <= key_len (key nda)) as Hpn.
    { destruct (ok_node _ _ _ Ht _ _ _ HGa Hra)
        as (nd0 & ? & ? & ? & ? & ? & ? & F1 & _ & _ & _ & _ & _ & _ & _ & F9 & _). congruence. }
    pose proof (zlen_units (key nda)) as Zn. unfold zlen in Zn.
    apply (f_equal (take (length q + Z.to_nat ps))) in Hta.
    apply (take_take_eq _ _ _ (length q + Z.to_nat ps)) in Hk; [|lia].
    rewrite take_take, Nat.min_l, <- Hk, !take_app_add in Hta by lia.
    apply app_inv_head in Hta. rewrite <- Hta.
    symmetry. apply (take_take_eq _ _ (Z.to_nat l)); [lia|done]. }
  rewrite ws_store0 in Ha. injection Ha as <-.
  assert (l + ps <= l); [|lia]. apply ws_max0; [| |lia|].
  - apply Z.divide_add_r; [done|]. by exists 1; lia.
  - pose proof (divide_lt_step ps l (key_len (key ch)) ltac:(lia) ws_div0 ws_aligned0 Hin). lia.
  - pose proof (divide_lt_step ps l (key_len (key ch)) ltac:(lia) ws_div0 ws_aligned0 Hin).
    apply (f_equal (take (length q + Z.to_nat (l + ps)))) in Hta.
    apply (take_take_eq _ _ _ (length q + Z.to_nat (l + ps))) in Hk; [|lia].
    rewrite take_take, Nat.min_l, <- Hk, !take_app_add in Hta by lia.
    by apply app_inv_head in Hta.
Qed.

(** ** The loop *)

(** The result of walking [K] from the root: a node whose path is the longest
    cached prefix of [K]. *)
Record longest (c : RadixCache) (G : ghost) (K : list unit_) (n : nat) (q : list unit_) (w : list Z)
  : Prop := {
  lg_live : G !! n = Some (q, w);
  lg_prefix : q = take (length q) K;
  lg_le : (length q <= length K)%nat;
  lg_max m v : cached ps G (take m K) v -> (m <= length K)%nat -> (m <= length q)%nat;
}.

Lemma walk_step_sim c c' G q w k child ch v m :
  sim c c' -> walk_step c G q w k child ch v m ->
  exists ch', store c' !! child = Some ch' /\ shape ch' = shape ch /\ walk_step c' G q w k child ch' v m.
Proof.
  intros Hs [W1 W2 W3 W4 W5 W6 W7 W8 W9 W10 W11 W12 W13].
  destruct (sim_lookup _ _ _ _ Hs W3) as (ch' & Hch' & Hsh). pose proof Hsh as [= E1 E2 E3 E4 E5 _].
  exists ch'. split_and!; [done|done|].
  rewrite <- E3 in *. split; try done; [by rewrite <- (sim_root _ _ Hs)|by rewrite E4].
Qed.

(** A full match moves to the child; the rest of the key starts at its path. *)
Lemma walk_full c G q w k child ch v m :
  walk_step c G q w k child ch v m -> key_len (key ch) <= m ->
  m = key_len (key ch) /\ q ++ units k = (q ++ units (key ch)) ++ units (key_slice k (Some m) None).
Proof.
  intros [] Hge. assert (m = key_len (key ch)) as Hm by lia. split; [done|].
  rewrite units_from by lia. rewrite <- app_assoc. f_equal.
  pose proof (zlen_units (key ch)) as Z1. unfold zlen in Z1.
  rewrite (take_ge (units (key ch))) in ws_agree0 by lia. rewrite ws_agree0. by rewrite take_drop.
Qed.

Lemma slice_aligned k m : (ps | m) -> aligned ps k -> 0 <= m <= key_len k -> aligned ps (key_slice k (Some m) None).
Proof. intros ? ? ?. unfold aligned. rewrite key_len_from by done. by apply Z.divide_sub_r. Qed.

Lemma aligned_child_key k : aligned ps k -> 0 < key_len k -> exists ck, child_key k ps = Ok ck.
Proof.
  intros Hal Hpos. pose proof (divide_lt_step ps 0 (key_len k) ltac:(lia) (Z.divide_0_r ps) Hal).
  rewrite child_key_encode by lia. eauto.
Qed.

Lemma match_loop_ok fuel c G t n q w k ck acc :
  cache_ok ps c G -> G !! n = Some (q, w) -> concat acc = w -> aligned ps k ->
  (0 < key_len k -> child_key k ps = Ok ck) -> key_len k < Z.of_nat fuel ->
  exists acc' n' c' G' q',
    match_loop cfg monotonic fuel c t n k ck acc = Ok (acc', n', c')
    /\ cache_ok ps c' G' /\ keeps ps c G c' G' /\ longest c' G' (q ++ units k) n' q' (concat acc').
Proof.
  revert c n q w k ck acc. induction fuel as [|fuel IH]; intros c n q w k ck acc Hok HG Hacc Hal Hck Hf.
  { pose proof (key_len_nonneg k). lia. }
  pose proof (ok_tree _ _ _ Hok) as Ht. cbn [match_loop].
  destruct (Z.ltb_spec 0 (key_len k)) as [Hpos|Hzero].
  2:{ exists acc, n, c, G, q. split_and!; [done|done|apply keeps_refl|].
      assert (units k = []) as ->.
      { apply zlen_zero_inv. rewrite zlen_units. pose proof (key_len_nonneg k). lia. }
      rewrite app_nil_r. split; [by rewrite Hacc|by rewrite take_ge by lia|lia|]. intros; lia. }
  specialize (Hck Hpos). destruct (live_store ps c G n Ht ltac:(eauto)) as [nd Hnd].
  rewrite (deref_store _ _ _ Hnd). cbn [res_bind].
  destruct (children nd !! ck) as [child|] eqn:Hch.
  2:{ exists acc, n, c, G, q. split_and!; [done|done|apply keeps_refl|].
      split; [by rewrite Hacc|by rewrite take_app_length|rewrite length_app; lia|].
      intros m v Hc Hm. by eapply stop_no_child. }
  destruct (walk c G n nd q w k ck child Ht HG Hnd Hch Hck Hal Hpos) as (ch0 & v & m & Hw0).
  set (c1 := upd c child (set_access t)). assert (sim c c1) as Hs by by apply upd_sim.
  destruct (walk_step_sim _ _ _ _ _ _ _ _ _ _ Hs Hw0) as (ch & Hchs & _ & Hw).
  pose proof (cache_ok_sim _ _ _ _ Hs Hok) as Hok1. clear Hw0.
  cbv zeta. fold c1. rewrite (deref_store _ _ _ Hchs). cbn [res_bind]. pose proof Hw as [W1 W2 W3 W4 W5 W6 W7 W8 W9 W10 W11 W12 W13].
  rewrite W7. cbn [res_bind]. destruct (Z.ltb_spec m (key_len (key ch))) as [Hin|Hfull].
  - destruct (split_node_spec c1 G child ch (q ++ units (key ch)) (w ++ v) m Hok1 W1 W2 W3 ltac:(lia) W9)
      as (c' & p & qp & wp & v0 & nn & Hsp & Hp & HGp & Hv0 & Hq & Hw' & Hnn & Hval & Hlk & Hok' & Hk & _).
    rewrite W4 in Hv0. injection Hv0 as <-. apply app_inv_tail in Hq as <-. apply app_inv_tail in Hw' as <-.
    rewrite Hsp. cbn [res_bind]. rewrite (deref_store _ _ _ Hnn). cbn [res_bind]. rewrite Hval. simpl default.
    eexists _, _, c', _, (q ++ take (Z.to_nat m) (units (key ch))).
    split_and!; [done|exact Hok'|by eapply keeps_trans; [apply keeps_sim|]|].
    assert (length (take (Z.to_nat m) (units k)) = Z.to_nat m) as Hlen.
    { rewrite length_take. pose proof (zlen_units k). unfold zlen in *. lia. }
    split.
    + rewrite lookup_insert_eq, concat_app, Hacc. simpl. by rewrite app_nil_r.
    + rewrite W12, length_app, Hlen. by rewrite take_app_add.
    + rewrite W12, !length_app, length_take. lia.
    + intros m' v' Hc Hm'. apply (keeps_cached _ _ _ _ _ Hk) in Hc.
      rewrite W12, length_app, Hlen.
      by apply (stop_inside c1 G n q w k child ch v m m' v' (ok_tree _ _ _ Hok1)).
  - destruct (walk_full _ _ _ _ _ _ _ _ _ Hw Hfull) as [-> Hsplit]. rewrite Hsplit.
    set (k' := key_slice k (Some (key_len (key ch))) None) in *.
    assert (key_len k' = key_len k - key_len (key ch)) as Hk' by (apply key_len_from; lia).
    assert (aligned ps k') as Hal' by (apply slice_aligned; [done..|lia]).
    assert (exists ck', (if 0 <? key_len k' then child_key k' ps else Ok ck) = Ok ck'
              /\ (0 < key_len k' -> child_key k' ps = Ok ck')) as (ck' & Hck' & Hck'').
    { destruct (Z.ltb_spec 0 (key_len k')) as [Hp|Hp]; [|exists ck; split; [done|lia]].
      destruct (aligned_child_key k' Hal' Hp) as [ck' E]. eauto. }
    rewrite Hck'. cbn [res_bind]. rewrite W4. simpl default.
    destruct (IH c1 child (q ++ units (key ch)) (w ++ v) k' ck' (acc ++ [v]))
      as (acc' & n' & c' & G' & q' & HL & Hok' & Hkeep & Hlong); [done|done| |done|done|lia|].
    { rewrite concat_app, Hacc. simpl. by rewrite app_nil_r. }
    exists acc', n', c', G', q'. split_and!; [exact HL|done|by eapply keeps_trans; [apply keeps_sim|]|done].
Qed.

(** ** [match_prefix] *)

(** The key under which the cache looks up and stores [k]: its bigram view for
    EAGLE, truncated to whole pages. *)
Definition norm_key (k : RadixKey) : RadixKey :=
  page_aligned (maybe_to_bigram_view k (cfg_is_eagle cfg) None).1 ps.

Lemma norm_key_aligned k : aligned ps (norm_key k).
Proof. by apply page_aligned_aligned. Qed.

Lemma norm_key_tokens k : tokens32 k -> tokens32 (norm_key k).
Proof.
  intros Hk. unfold norm_key, page_aligned, maybe_to_bigram_view.
  destruct (cfg_is_eagle cfg && negb (is_bigram k)); simpl; case_match; try apply tokens32_slice; done.
Qed.

Lemma match_prefix_ok c G k : cfg_disable cfg = false -> cache_ok ps c G ->
  exists v n c' G' q, match_prefix cfg monotonic c k = Ok (v, n, c')
    /\ cache_ok ps c' G' /\ keeps ps c G c' G' /\ longest c' G' (units (norm_key k)) n q v.
Proof.
  intros Hdis Hok. unfold match_prefix. rewrite Hdis.
  pose proof (ok_root _ _ _ (ok_tree _ _ _ Hok)) as Hroot.
  set (k1 := (maybe_to_bigram_view k (cfg_is_eagle cfg) None).1).
  assert (maybe_to_bigram_view k (cfg_is_eagle cfg) None = (k1, None)) as ->.
  { unfold k1, maybe_to_bigram_view. by destruct (cfg_is_eagle cfg && negb (is_bigram k)). }
  change (page_aligned k1 ps) with (norm_key k). cbn [orb].
  assert (key_len (norm_key k) = 0 -> exists v n c' G' q, Ok ([], root_node c, c) = Ok (v, n, c')
    /\ cache_ok ps c' G' /\ keeps ps c G c' G' /\ longest c' G' (units (norm_key k)) n q v) as Hempty.
  { intros Hz. exists [], (root_node c), c, G, []. split_and!; [done|done|apply keeps_refl|].
    assert (units (norm_key k) = []) as -> by (apply zlen_zero_inv; by rewrite zlen_units).
    split; (done || (intros; simpl in *; lia)). }
  destruct (Z.eqb_spec (key_len k1) 0) as [Hz|Hnz].
  { apply Hempty. unfold norm_key. rewrite page_aligned_len by done. fold k1. by rewrite Hz. }
  destruct (Z.eqb_spec (key_len (norm_key k)) 0) as [Hz'|Hnz']; [by apply Hempty|].
  pose proof (key_len_nonneg (norm_key k)) as Hnn. pose proof (norm_key_aligned k) as Hal.
  unfold match_prefix_helper. set (c1 := upd (tick c 1) _ _).
  assert (sim c c1) as Hs by (etrans; [apply (tick_sim c 1)|by apply upd_sim]).
  destruct (aligned_child_key (norm_key k) Hal ltac:(lia)) as [ck Hck]. rewrite Hck. cbn [res_bind].
  destruct (match_loop_ok (S (Z.to_nat (key_len (norm_key k)))) c1 G (monotonic (ticks c)) (root_node c)
              [] [] (norm_key k) ck [] (cache_ok_sim _ _ _ _ Hs Hok) Hroot eq_refl Hal ltac:(done) ltac:(lia))
    as (acc & n & c' & G' & q & -> & Hok' & Hk & Hlong).
  cbn [res_bind]. exists (concat acc), n, c', G', q. split_and!; [done|done| |done].
  eapply keeps_trans; [by apply keeps_sim|done].
Qed.
End Match.
