(* ===== verification/RadixLeaf.v ===== *)
(** Leaves of the prefix cache: [_update_leaf_status] restores the set of
    evictable leaves, and the tree with a new leaf linked under a node satisfies
    the invariant. *)

From S2P Require Export RadixSplit RadixMatch.

(** ** The leaf status of one node *)

(** The set of evictable leaves is right except possibly at the nodes of [X]. *)
Definition leaves_ok_except (X : gset nat) (c : RadixCache) (G : ghost) : Prop :=
  forall n, n ∉ X -> n ∈ evictable_leaves c <->
    n <> root_node c /\ is_Some (G !! n)
    /\ exists node, store c !! n = Some node /\ lock_ref node = 0 /\ children node = ∅.

Lemma leaves_ok_except_empty c G : leaves_ok c G <-> leaves_ok_except ∅ c G.
Proof. split; intros H n; [intros _; apply H|apply H; set_solver]. Qed.

Lemma leaves_ok_except_weaken X Y c G : X ⊆ Y -> leaves_ok_except X c G -> leaves_ok_except Y c G.
Proof. intros HXY H n Hn. apply H. set_solver. Qed.

Section LeafStatus.
Context (ps : Z).

Lemma live_value c G n nd : tree_ok ps c G -> is_Some (G !! n) -> store c !! n = Some nd ->
  evicted nd = false /\ 0 <= lock_ref nd /\ (n = root_node c -> 0 < lock_ref nd).
Proof.
  intros Ht [[q w] HG] Hs. unfold evicted. destruct (decide (n = root_node c)) as [->|Hr].
  - destruct (ok_root_node _ _ _ Ht) as (r & Hr & _ & Hv & Hl & _). rewrite Hs in Hr.
    injection Hr as <-. rewrite Hv. split_and!; [done|lia|done].
  - destruct (ok_node _ _ _ Ht _ _ _ HG Hr)
      as (nd0 & p & pn & qp & wp & v & pk & H1 & _ & _ & _ & H5 & _ & _ & _ & _ & _ & _ & _ & H13 & _).
    rewrite Hs in H1. injection H1 as <-. rewrite H5. by split_and!.
Qed.

Lemma no_live_child c G n nd : tree_ok ps c G -> is_Some (G !! n) -> store c !! n = Some nd ->
  existsb (fun ch => negb (child_evicted c ch)) ((map_to_list (children nd)).*2) = false <->
  children nd = ∅.
Proof.
  intros Ht HG Hs. split.
  - intros Hex. apply map_empty. intros ck. destruct (children nd !! ck) as [ch|] eqn:Hch; [|done].
    exfalso. apply not_true_iff_false in Hex. apply Hex, existsb_exists. exists ch. split.
    + apply list_elem_of_In, list_elem_of_fmap. exists (ck, ch). split; [done|]. by apply elem_of_map_to_list.
    + destruct (ok_child _ _ _ Ht _ _ _ _ HG Hs Hch) as (_ & HGc & chn & Hchn & _).
      unfold child_evicted. rewrite Hchn. by destruct (live_value _ _ _ _ Ht HGc Hchn) as [-> _].
  - intros ->. by rewrite map_to_list_empty.
Qed.

Lemma update_leaf_status_ok c G n X :
  tree_ok ps c G -> is_Some (G !! n) -> leaves_ok_except (X ∪ {[n]}) c G ->
  exists L, update_leaf_status c n = Ok (set_leaves c L) /\ leaves_ok_except X (set_leaves c L) G.
Proof.
  intros Ht HG Hl. destruct (live_store _ _ _ _ Ht HG) as [nd Hnd].
  destruct (live_value _ _ _ _ Ht HG Hnd) as (Hev & Hlk & Hroot).
  unfold update_leaf_status. rewrite (deref_store _ _ _ Hnd). cbn [res_bind]. rewrite Hev. simpl orb.
  assert (forall L, (forall m, m <> n -> m ∈ L <-> m ∈ evictable_leaves c) ->
    (n ∈ L <-> n <> root_node c /\ lock_ref nd = 0 /\ children nd = ∅) ->
    leaves_ok_except X (set_leaves c L) G) as Hgen.
  { intros L HL1 HL2 m Hm. simpl. destruct (decide (m = n)) as [->|Hne].
    - rewrite HL2. split.
      + intros (? & ? & ?). split_and!; [done..|]. by exists nd.
      + intros (? & _ & nd' & Hnd' & ? & ?). rewrite Hnd in Hnd'. by injection Hnd' as <-.
    - rewrite (HL1 m Hne). apply Hl. set_solver. }
  pose proof (no_live_child _ _ _ _ Ht HG Hnd) as Hex.
  destruct (Z.ltb_spec 0 (lock_ref nd)); [|destruct (existsb _ _) eqn:E].
  - eexists; split; [done|]. apply Hgen; [set_solver|]. split; [set_solver|]. intros (_ & ? & _). lia.
  - eexists; split; [done|]. apply Hgen; [set_solver|]. split; [set_solver|].
    intros (_ & _ & Hemp). by apply Hex in Hemp.
  - eexists; split; [done|]. apply Hgen; [set_solver|].
    split; [intros _|set_solver]. split_and!; [intros ->; lia|lia|by apply Hex].
Qed.
End LeafStatus.

Lemma set_leaves_tree ps c G L : tree_ok ps c G -> tree_ok ps (set_leaves c L) G.
Proof. intros []. by split. Qed.

Lemma set_sizes_tree ps c G e p : tree_ok ps c G -> tree_ok ps (set_sizes c e p) G.
Proof. intros []. by split. Qed.

Lemma set_leaves_sizes c G L : sizes_ok c G -> sizes_ok (set_leaves c L) G.
Proof. intros []. by split. Qed.

#[export] Hint Resolve set_leaves_tree set_sizes_tree set_leaves_sizes : radix.

(** ** A new leaf *)

Section NewLeaf.
Context (ps : Z) (Hps : 1 <= ps) (c : RadixCache) (G : ghost) (Hok : tree_ok ps c G).
Context (n : nat) (nd leaf : TreeNode) (q : list unit_) (w v : list Z) (k : RadixKey) (ck : pyval).
Context (HG : G !! n = Some (q, w)) (Hnd : store c !! n = Some nd).
Context (Hck : child_key k ps = Ok ck) (Hnone : children nd !! ck = None).
Context (Hlen : zlen v = key_len k) (Hpk : ps <= key_len k) (Hal : aligned ps k) (Htok : tokens32 k).
Context (Hl_children : children leaf = ∅) (Hl_parent : parent leaf = Some n) (Hl_key : key leaf = k)
  (Hl_value : value leaf = Some v) (Hl_lock : lock_ref leaf = 0) (Hl_hash : hash_value leaf = None).

Let new := counter c.
Let nd' := set_children (<[ck := new]> (children nd)) nd.

Context (c' : RadixCache) (Hst : store c' = <[n := nd']> (<[new := leaf]> (store c))).
Context (Hrt : root_node c' = root_node c) (Hcnt : counter c' = S new).

Let G' : ghost := <[new := (q ++ units k, w ++ v)]> G.

Lemma leaf_fresh i : is_Some (store c !! i) -> i <> new.
Proof. intros Hi ->. unfold new in Hi. rewrite (fresh_store _ _ _ Hok) in Hi. by destruct Hi. Qed.

Lemma leaf_lookup_new : store c' !! new = Some leaf.
Proof. rewrite Hst. pose proof (leaf_fresh n ltac:(eauto)). by simplify_map_eq. Qed.
Lemma leaf_lookup_n : store c' !! n = Some nd'.
Proof. rewrite Hst. by simplify_map_eq. Qed.
Lemma leaf_lookup_other i : i <> new -> i <> n -> store c' !! i = store c !! i.
Proof. intros. rewrite Hst. by rewrite !lookup_insert_ne by done. Qed.
Lemma leaf_ghost i : i <> new -> G' !! i = G !! i.
Proof. intros. unfold G'. by rewrite lookup_insert_ne by done. Qed.

(** Nodes of the old tree keep everything but the children of [n]. *)
Lemma leaf_frame i x : store c !! i = Some x ->
  exists x', store c' !! i = Some x' /\ parent x' = parent x /\ key x' = key x /\ value x' = value x
    /\ lock_ref x' = lock_ref x /\ hash_value x' = hash_value x
    /\ (forall k0 y, children x !! k0 = Some y -> children x' !! k0 = Some y).
Proof.
  intros Hi. destruct (decide (i = n)) as [->|Hne].
  - rewrite Hnd in Hi. injection Hi as <-. exists nd'. split_and!; [apply leaf_lookup_n|done..|].
    intros k0 y Hy. simpl. rewrite lookup_insert_ne; [done|]. intros <-. congruence.
  - exists x. rewrite leaf_lookup_other; [done| |done]. apply leaf_fresh. eauto.
Qed.

Lemma leaf_root_new : new <> root_node c.
Proof. apply not_eq_sym, leaf_fresh. destruct (ok_root_node _ _ _ Hok) as (r & Hr & _). eauto. Qed.

Lemma leaf_node_new : node_ok ps c' G' new (q ++ units k) (w ++ v).
Proof.
  exists leaf, n, nd', q, w, v, ck. rewrite Hl_key, Hl_lock. unfold hashes_ok. rewrite Hl_hash.
  split_and!; try done.
  - apply leaf_lookup_new.
  - apply leaf_lookup_n.
  - rewrite leaf_ghost; [done|]. apply leaf_fresh. eauto.
  - simpl. by simplify_map_eq.
Qed.

Lemma leaf_tree_ok : tree_ok ps c' G'.
Proof.
  split.
  - rewrite Hrt, leaf_ghost; [apply (ok_root _ _ _ Hok)|apply not_eq_sym, leaf_root_new].
  - destruct (ok_root_node _ _ _ Hok) as (r & Hr & Hk & Hv & Hl & Hh).
    destruct (leaf_frame _ r Hr) as (r' & L & _ & E2 & E3 & E4 & E5 & _).
    exists r'. by rewrite Hrt, E2, E3, E4, E5.
  - intros i qi wi HGi Hr. rewrite Hrt in Hr. destruct (decide (i = new)) as [->|Hnew].
    { unfold G' in HGi. rewrite lookup_insert_eq in HGi. injection HGi as <- <-. apply leaf_node_new. }
    rewrite leaf_ghost in HGi by done.
    destruct (ok_node _ _ _ Hok _ _ _ HGi Hr)
      as (x & p & pn & qp & wp & vi & cki & H1 & H2 & H3 & H4 & H5 & H6 & H7 & H8 & H9 & H10 & H11 & H12 & H13 & H15 & H16).
    destruct (leaf_frame i x H1) as (x' & L1 & E1 & E2 & E3 & E4 & E5 & _).
    destruct (leaf_frame p pn H3) as (pn' & L3 & _ & _ & _ & F4 & _ & F6).
    exists x', p, pn', qp, wp, vi, cki. unfold hashes_ok in *.
    rewrite E1, E2, E3, E4, E5, leaf_ghost by (apply leaf_fresh; eauto).
    split_and!; auto.
  - intros i x k0 y HGi Hx Hy. destruct (decide (i = new)) as [->|Hnew].
    { rewrite leaf_lookup_new in Hx. injection Hx as <-. rewrite Hl_children in Hy. by rewrite lookup_empty in Hy. }
    rewrite leaf_ghost in HGi by done.
    assert ((i = n /\ k0 = ck /\ y = new) \/ exists x0, store c !! i = Some x0 /\ children x0 !! k0 = Some y)
      as [(-> & -> & ->)|(x0 & Hx0 & Hy0)].
    { destruct (decide (i = n)) as [->|Hne].
      - rewrite leaf_lookup_n in Hx. injection Hx as <-. simpl in Hy.
        destruct (decide (k0 = ck)) as [->|Hk0].
        + rewrite lookup_insert_eq in Hy. injection Hy as <-. by left.
        + rewrite lookup_insert_ne in Hy by done. right. by exists nd.
      - rewrite leaf_lookup_other in Hx by done. right. by exists x. }
    + split_and!; [rewrite Hrt; apply leaf_root_new|unfold G'; rewrite lookup_insert_eq; eauto|].
      exists leaf. rewrite Hl_key. split_and!; [apply leaf_lookup_new|done..].
    + destruct (ok_child _ _ _ Hok _ _ _ _ HGi Hx0 Hy0) as (Hyr & Hyg & yn & Hys & Hyp & Hyk).
      split_and!; [by rewrite Hrt|rewrite leaf_ghost; [done|apply leaf_fresh; eauto]|].
      destruct (leaf_frame y yn Hys) as (yn' & L & E1 & E2 & _). exists yn'. by rewrite E1, E2.
  - intros i Hi. rewrite Hcnt. destruct (decide (i = new)) as [->|Hnew]; [unfold new; lia|].
    assert (is_Some (store c !! i)) as Hs.
    { destruct (decide (i = n)) as [->|]; [eauto|]. by rewrite leaf_lookup_other in Hi by done. }
    pose proof (ok_fresh _ _ _ Hok i Hs). unfold new. lia.
Qed.

Lemma leaf_nodes : tree_nodes c' G' = tree_nodes c G ∪ {[new]}.
Proof. unfold tree_nodes, G'. rewrite Hrt, dom_insert_L. pose proof leaf_root_new as Hne. clear -Hne. set_solver. Qed.

Lemma leaf_new_not_node : new ∉ tree_nodes c G.
Proof.
  unfold tree_nodes. rewrite elem_of_difference, elem_of_dom. unfold new.
  rewrite (fresh_ghost _ _ _ Hok). intros [[? ?] _]. done.
Qed.

Lemma leaf_fields i : i ∈ tree_nodes c G ->
  evictable_of c' i = evictable_of c i /\ protected_of c' i = protected_of c i
  /\ slots_of c' i = slots_of c i.
Proof.
  unfold tree_nodes. rewrite elem_of_difference, elem_of_dom. intros [HGi _].
  destruct (live_store _ _ _ _ Hok HGi) as [x Hx].
  destruct (leaf_frame i x Hx) as (x' & L & _ & E2 & E3 & E4 & _).
  unfold evictable_of, protected_of, slots_of. by rewrite Hx, L, E2, E3, E4.
Qed.

Lemma leaf_slots : Permutation (tree_slots c' G') (v ++ tree_slots c G).
Proof.
  unfold tree_slots. rewrite leaf_nodes, gcat_add by apply leaf_new_not_node.
  rewrite (gcat_ext (slots_of c') (slots_of c)) by (intros i Hi; by apply leaf_fields).
  unfold slots_of at 1. by rewrite leaf_lookup_new, Hl_value.
Qed.

Lemma leaf_sizes_ok : sizes_ok c G ->
  evictable_size_ c' = evictable_size_ c + key_len k -> protected_size_ c' = protected_size_ c ->
  sizes_ok c' G'.
Proof.
  intros [He Hp] Hse Hsp. split.
  - rewrite Hse, He, leaf_nodes, gsum_add by apply leaf_new_not_node.
    rewrite (gsum_ext (evictable_of c') (evictable_of c)) by (intros i Hi; by apply leaf_fields).
    unfold evictable_of at 2. rewrite leaf_lookup_new, Hl_lock, Hl_key. simpl. lia.
  - rewrite Hsp, Hp, leaf_nodes, gsum_add by apply leaf_new_not_node.
    rewrite (gsum_ext (protected_of c') (protected_of c)) by (intros i Hi; by apply leaf_fields).
    unfold protected_of at 2. rewrite leaf_lookup_new, Hl_lock. simpl. lia.
Qed.

Lemma leaf_leaves : leaves_ok c G -> evictable_leaves c' = evictable_leaves c ->
  leaves_ok_except ({[n]} ∪ {[new]}) c' G'.
Proof.
  intros Hl Hlv i Hi. rewrite Hlv, Hrt, (Hl i).
  assert (i <> n /\ i <> new) as [Hn Hnew] by (clear -Hi; set_solver).
  by rewrite leaf_ghost, leaf_lookup_other by done.
Qed.

(** No lock is held below the new path, which no existing path contains. *)
Lemma leaf_locks_ok L :
  (forall l ql wl, G !! l = Some (ql, wl) -> q ++ units k <> take (length (q ++ units k)) ql) ->
  locks_ok c G L -> locks_ok c' G' L.
Proof.
  intros Hfar [Hl Hc]. rewrite Forall_forall in Hl.
  assert (forall l, l ∈ L -> l <> new) as HLn.
  { intros l Hin. by apply leaf_fresh, (live_store ps c G), Hl. }
  split.
  - apply Forall_forall. intros l Hin. rewrite leaf_ghost by auto. auto.
  - intros i x HGi Hr Hx. rewrite Hrt in Hr. unfold lock_count in *.
    destruct (decide (i = new)) as [->|Hnew].
    + rewrite leaf_lookup_new in Hx. injection Hx as <-. rewrite Hl_lock.
      rewrite (zlen_filter_ext (anc G' new) (fun _ => false)).
      { by rewrite filter_none by (apply Forall_forall; intros; done). }
      intros l Hin. unfold anc. rewrite (leaf_ghost l) by auto.
      assert (G' !! new = Some (q ++ units k, w ++ v)) as -> by apply lookup_insert_eq.
      destruct (G !! l) as [[ql wl]|] eqn:E; [|done]. apply bool_decide_eq_false. by eapply Hfar.
    + rewrite leaf_ghost in HGi by done. destruct (live_store _ _ _ _ Hok HGi) as [x0 Hx0].
      destruct (leaf_frame i x0 Hx0) as (x' & L' & _ & _ & _ & E4 & _).
      rewrite Hx in L'. injection L' as <-. rewrite E4, (Hc i x0) by done. apply zlen_filter_ext.
      intros l Hin. unfold anc. by rewrite !leaf_ghost by auto.
Qed.

(** The abstract view gains the page-aligned prefixes of the new path that are
    longer than the path of [n]. *)
Lemma leaf_cached k0 v0 : cached ps G' k0 v0 <->
  cached ps G k0 v0 \/
  ((ps | zlen k0) /\ (length q < length k0 <= length (q ++ units k))%nat
   /\ k0 = take (length k0) (q ++ units k) /\ v0 = take (length k0) (w ++ v)).
Proof.
  destruct (path_lengths ps Hps _ _ _ _ _ Hok HG) as [Hw _]. split.
  - intros (x & qx & wx & Hx & Hd & Hl & Hk & Hv). destruct (decide (x = new)) as [->|Hne].
    + unfold G' in Hx. rewrite lookup_insert_eq in Hx. injection Hx as <- <-.
      destruct (decide (length q < length k0)%nat) as [Hlt|Hge]; [by right|].
      left. exists n, q, w. rewrite take_app_le in Hk by lia. rewrite take_app_le in Hv by lia. split_and!; (done || lia).
    + rewrite leaf_ghost in Hx by done. left. by exists x, qx, wx.
  - intros [(x & qx & wx & Hx & H)|(Hd & Hl & Hk & Hv)].
    + exists x, qx, wx. rewrite leaf_ghost; [done|].
      apply leaf_fresh, (live_store ps c G); eauto.
    + exists new, (q ++ units k), (w ++ v). unfold G'. rewrite lookup_insert_eq. split_and!; (done || lia).
Qed.
End NewLeaf.
