(* ===== verification/RadixEvents.v ===== *)
(** KV-cache events: hashing the pages of a node and emitting one event per page
    never fails on nodes of the tree, and changes nothing but hashes and the
    event queue. *)

From S2P Require Export RadixLeaf.

(** ** Ranges with a step *)

Lemma range_step_spec n step s : 1 <= step -> 0 <= n -> s ∈ range_step n step -> 0 <= s < n.
Proof.
  intros Hs Hn. unfold range_step. intros Hin.
  apply list_elem_of_In, in_map_iff in Hin as (i & <- & Hi). apply list_elem_of_In, elem_of_zrange in Hi.
  pose proof (ceil_div_spec n step ltac:(lia)). nia.
Qed.

Lemma zlen_range_step n step : 1 <= step -> 0 <= n -> zlen (range_step n step) = (n + step - 1) / step.
Proof.
  intros. unfold range_step. rewrite zlen_map, zlen_zrange; [lia|]. apply Z.div_pos; lia.
Qed.

Lemma ceil_div_exact n d : 1 <= d -> (d | n) -> (n + d - 1) / d = n / d.
Proof.
  intros Hd [x ->]. rewrite Z.div_mul by lia. symmetry. apply Z.div_unique with (r := d - 1); lia.
Qed.

(** ** Hashing *)

Section Hashing.
Context (cfg : CacheConfig) (sha256 : list Z -> list Z).
Abbreviation ps := (cfg_page_size cfg).
Context (Hps : 1 <= ps).
(** A digest has (at least eight) bytes. *)
Context (Hsha : forall l, Forall is_byte (sha256 l) /\ 8 <= zlen (sha256 l)).

Lemma to_bytes4_ok t : 0 <= t < 2 ^ 32 -> exists b, to_bytes4 t = Ok b.
Proof.
  intros. unfold to_bytes4. destruct (Z.ltb_spec t 0); [lia|]. destruct (Z.leb_spec (2 ^ 32) t); [lia|].
  simpl. eauto.
Qed.

Lemma page_bytes_ok k j : tokens32 k -> 0 <= j < key_len k -> exists b, page_bytes k j = Ok b.
Proof.
  intros Ht Hj. unfold tokens32 in Ht. unfold page_bytes, key_len in *.
  assert (forall i, 0 <= i < zlen (token_ids k) ->
    exists a b, index (token_ids k) i = Ok a /\ to_bytes4 a = Ok b) as Hidx.
  { intros i Hi. rewrite index_ok by done.
    destruct (to_bytes4_ok (nth (Z.to_nat i) (token_ids k) 0)) as [b Hb]; [|by eauto].
    rewrite Forall_forall in Ht. apply Ht. apply list_elem_of_In, nth_In. unfold zlen in *. lia. }
  destruct (is_bigram k).
  - destruct (Z.ltb_spec 0 (zlen (token_ids k))); [|lia].
    destruct (Hidx j ltac:(lia)) as (a & x & -> & Hx). simpl. rewrite Hx. simpl.
    destruct (Hidx (j + 1) ltac:(lia)) as (b & y & -> & Hy). simpl. rewrite Hy. simpl. eauto.
  - destruct (Hidx j Hj) as (a & x & -> & Hx). simpl. rewrite Hx. simpl. eauto.
Qed.

Lemma collect_total {A} (f : Z -> res A) js :
  Forall (fun j => exists x, f j = Ok x) js -> exists l, collect f js = Ok l.
Proof.
  induction 1 as [|j js [x Hx] _ [l IH]]; simpl; [eauto|]. rewrite Hx, IH. simpl. eauto.
Qed.

Lemma hash_page_ok k start stop prior :
  tokens32 k -> 0 <= start -> stop <= key_len k ->
  match prior with Some s => is_hash s | None => True end ->
  exists h, hash_page sha256 k start stop prior = Ok h /\ is_hash h.
Proof.
  intros Ht Hs Hst Hp. unfold hash_page.
  assert (exists b, (match prior with Some (String _ _ as h) => fromhex h | _ => Ok [] end) = Ok b) as [b Hb].
  { destruct prior as [s|]; [|eauto]. destruct Hp as (d & Hd & _ & ->).
    rewrite fromhex_hex by done. destruct (hex_of_bytes d); eauto. }
  rewrite Hb. simpl. destruct (collect_total (page_bytes k) (zrange start stop)) as [l Hl].
  { apply Forall_forall. intros j Hj%elem_of_zrange. apply page_bytes_ok; [done|lia]. }
  rewrite Hl. simpl. eexists; split; [done|]. destruct (Hsha (b ++ concat l)). by eexists.
Qed.

Lemma hash_pages_ok k starts prior :
  tokens32 k -> Forall (fun s => 0 <= s < key_len k) starts ->
  match prior with Some s => is_hash s | None => True end ->
  exists hs, hash_pages cfg sha256 k (key_len k) starts prior = Ok hs
    /\ length hs = length starts /\ Forall is_hash hs.
Proof.
  intros Ht Hs. revert prior. induction Hs as [|s starts Hs _ IH]; intros prior Hp; simpl; [by eauto|].
  destruct (Z.leb_spec (Z.min (s + ps) (key_len k)) s); [lia|].
  destruct (hash_page_ok k s (Z.min (s + ps) (key_len k)) prior Ht ltac:(lia) ltac:(lia) Hp) as (h & -> & Hh).
  simpl. destruct (IH (Some h) Hh) as (hs & -> & Hl & Hf). simpl.
  eexists; split_and!; [done|simpl; lia|by constructor].
Qed.

(** ** The hashes of a node *)

(** What hashing a node relies on; it holds of the nodes of the tree, and of a
    node just deleted from it. *)
Record hashable (c : RadixCache) (G : ghost) (n : nat) (nd : TreeNode) : Prop := {
  hb_store : store c !! n = Some nd;
  hb_tokens : tokens32 (key nd);
  hb_hashes : hashes_ok ps nd;
  hb_aligned : aligned ps (key nd);
  hb_parent : exists p pn, parent nd = Some p /\ store c !! p = Some pn /\ p <> n
                /\ match hash_value pn with Some hs => Forall is_hash hs | None => True end;
}.

Lemma live_hash c G p pn : tree_ok ps c G -> is_Some (G !! p) -> store c !! p = Some pn ->
  match hash_value pn with Some hs => Forall is_hash hs | None => True end.
Proof.
  intros Ht [[q w] HG] Hp. destruct (decide (p = root_node c)) as [->|Hr].
  - destruct (ok_root_node _ _ _ Ht) as (r & Hr & _ & _ & _ & Hh). rewrite Hp in Hr. injection Hr as <-.
    by rewrite Hh.
  - destruct (ok_node _ _ _ Ht _ _ _ HG Hr)
      as (x & ? & ? & ? & ? & ? & ? & H1 & _ & _ & _ & _ & _ & _ & _ & _ & _ & _ & _ & _ & _ & H16).
    rewrite Hp in H1. injection H1 as <-. unfold hashes_ok in H16. destruct (hash_value pn); [apply H16|done].
Qed.

Lemma live_hashable c G n nd : tree_ok ps c G -> is_Some (G !! n) -> n <> root_node c ->
  store c !! n = Some nd -> hashable c G n nd.
Proof.
  intros Ht [[q w] HG] Hr Hs.
  destruct (ok_node _ _ _ Ht _ _ _ HG Hr)
    as (x & p & pn & qp & wp & v & ck & H1 & H2 & H3 & H4 & _ & _ & _ & _ & _ & H10 & _ & _ & _ & H15 & H16).
  rewrite Hs in H1. injection H1 as <-. split; try done.
  exists p, pn. split_and!; [done|done|by apply (root_parent ps c G n nd p); eauto|].
  eapply live_hash; eauto.
Qed.

(** The state after storing the hashes of [n]. *)
Definition hashed (c : RadixCache) (n : nat) (hs : list string) : RadixCache :=
  upd c n (set_hash (Some hs)).

Lemma ensure_hash_ok c G n nd : hashable c G n nd ->
  exists hs c', ensure_hash_value cfg sha256 c n = Ok (hs, c') /\ (c' = c /\ hash_value nd = Some hs \/ c' = hashed c n hs)
    /\ zlen hs * ps = key_len (key nd) /\ Forall is_hash hs.
Proof.
  intros [Hs Ht Hh Hal (p & pn & Hp & Hpn & Hne & Hph)]. unfold ensure_hash_value.
  rewrite (deref_store _ _ _ Hs). cbn [res_bind]. unfold hashes_ok in Hh.
  destruct (hash_value nd) as [hs|] eqn:Hhash.
  { destruct Hh. exists hs, c. split_and!; [done|by left|done..]. }
  unfold compute_node_hash_values. rewrite Hp, (deref_store _ _ _ Hpn). cbn [res_bind].
  assert (exists prior, (match hash_value pn with
      | None => Ok None
      | Some h => Ok (if (0 <? key_len (key pn)) && (0 <? zlen h) then last h else None) end) = Ok prior
      /\ match prior with Some s => is_hash s | None => True end) as (prior & -> & Hprior).
  { destruct (hash_value pn) as [h|]; [|by eauto]. eexists; split; [done|]. destruct (_ && _); [|done].
    destruct (last h) as [s|] eqn:E; [|done]. rewrite Forall_forall in Hph. apply Hph.
    apply last_Some in E as [h' ->]. set_solver. }
  cbn [res_bind].
  destruct (hash_pages_ok (key nd) (range_step (key_len (key nd)) ps) prior Ht) as (hs & Hhs & Hl & Hf); [|done|].
  { apply Forall_forall. intros s Hin. eapply range_step_spec; [exact Hps|apply key_len_nonneg|done]. }
  rewrite Hhs. cbn [res_bind]. eexists hs, _. split_and!; [done|by right| |done].
  pose proof (zlen_range_step (key_len (key nd)) ps Hps (key_len_nonneg _)) as Hz.
  rewrite ceil_div_exact in Hz by done. unfold zlen in *. rewrite Hl, Hz.
  rewrite Z.mul_comm. symmetry. apply Z.div_exact; [lia|]. apply Z.mod_divide; [lia|done].
Qed.

(** ** Storing hashes preserves the invariant *)

Lemma hashed_lookup c n hs i x : store c !! i = Some x ->
  exists x', store (hashed c n hs) !! i = Some x' /\ children x' = children x /\ parent x' = parent x
    /\ key x' = key x /\ value x' = value x /\ lock_ref x' = lock_ref x
    /\ hash_value x' = (if decide (i = n) then Some hs else hash_value x).
Proof.
  intros Hi. unfold hashed, upd. simpl. destruct (decide (i = n)) as [->|Hne].
  - rewrite lookup_alter_eq, Hi. simpl. eexists; split; [done|]. done.
  - rewrite lookup_alter_ne by done. exists x. done.
Qed.

Lemma hashed_lookup_inv c n hs i x' : store (hashed c n hs) !! i = Some x' ->
  exists x, store c !! i = Some x /\ children x' = children x /\ lock_ref x' = lock_ref x.
Proof.
  unfold hashed, upd. simpl. intros Hi. destruct (decide (i = n)) as [->|Hne].
  - rewrite lookup_alter_eq in Hi. apply fmap_Some in Hi as (x & Hx & ->). by exists x.
  - rewrite lookup_alter_ne in Hi by done. by exists x'.
Qed.

Lemma hashed_fields c n hs i : evictable_of (hashed c n hs) i = evictable_of c i
  /\ protected_of (hashed c n hs) i = protected_of c i /\ slots_of (hashed c n hs) i = slots_of c i.
Proof.
  unfold evictable_of, protected_of, slots_of. destruct (store c !! i) as [x|] eqn:Hi.
  - destruct (hashed_lookup c n hs i x Hi) as (x' & -> & _ & _ & -> & -> & -> & _). done.
  - destruct (store (hashed c n hs) !! i) eqn:E; [|done].
    destruct (hashed_lookup_inv _ _ _ _ _ E) as (? & ? & _). congruence.
Qed.

Lemma hashed_tree_ok c G n nd hs :
  tree_ok ps c G -> n <> root_node c -> store c !! n = Some nd ->
  zlen hs * ps = key_len (key nd) -> Forall is_hash hs -> tree_ok ps (hashed c n hs) G.
Proof.
  intros [Hr (r & Hrs & Hrk & Hrv & Hrl & Hrh) Hn Hc Hf] Hne Hnd Hl Hfa. split; simpl; try done.
  - destruct (hashed_lookup c n hs _ r Hrs) as (r' & L & _ & _ & E3 & E4 & E5 & E6).
    exists r'. rewrite E3, E4, E5, E6. rewrite decide_False by done. done.
  - intros i q w HG Hir.
    destruct (Hn i q w HG Hir)
      as (x & p & pn & qp & wp & v & ck & H1 & H2 & H3 & H4 & H5 & H6 & H7 & H8 & H9 & H10 & H11 & H12 & H13 & H15 & H16).
    destruct (hashed_lookup c n hs i x H1) as (x' & L1 & E1 & E2 & E3 & E4 & E5 & E6).
    destruct (hashed_lookup c n hs p pn H3) as (pn' & L3 & F1 & _ & _ & _ & F5 & _).
    exists x', p, pn', qp, wp, v, ck. rewrite E2, E3, E4, E5, F1. split_and!; try done.
    unfold hashes_ok. rewrite E6, E3. case_decide as Hin; [|done].
    subst i. rewrite Hnd in H1. by injection H1 as <-.
  - intros i x' ck ch HG Hx Hch.
    destruct (hashed_lookup_inv _ _ _ _ _ Hx) as (x & Hx0 & E1 & _). rewrite E1 in Hch.
    destruct (Hc i x ck ch HG Hx0 Hch) as (H1 & H2 & chn & H3 & H4 & H5).
    split_and!; [done..|]. destruct (hashed_lookup c n hs ch chn H3) as (chn' & L & _ & F2 & F3 & _).
    exists chn'. by rewrite F2, F3.
  - intros i [x Hi]. destruct (hashed_lookup_inv _ _ _ _ _ Hi) as (x0 & Hx & _). apply Hf. eauto.
Qed.

Lemma hashed_cache_ok c G n nd hs :
  cache_ok ps c G -> n <> root_node c -> store c !! n = Some nd ->
  zlen hs * ps = key_len (key nd) -> Forall is_hash hs ->
  cache_ok ps (hashed c n hs) G /\ keeps ps c G (hashed c n hs) G.
Proof.
  intros [Ht Hl [He Hp]] Hr Hnd Hz Hf. split; [split; [by eapply hashed_tree_ok| |split]|split]; try done.
  - intros i. rewrite (Hl i). simpl. split; intros (? & ? & x & Hx & ? & ?); split_and!; try done.
    + destruct (hashed_lookup c n hs i x Hx) as (x' & L & E1 & _ & _ & _ & E5 & _). exists x'. by rewrite E1, E5.
    + destruct (hashed_lookup_inv _ _ _ _ _ Hx) as (x' & L & E1 & E5). exists x'. by rewrite <- E1, <- E5.
  - simpl. rewrite He. apply gsum_ext. intros i _. symmetry. apply hashed_fields.
  - simpl. rewrite Hp. apply gsum_ext. intros i _. symmetry. apply hashed_fields.
  - unfold tree_slots, tree_nodes. simpl. erewrite gcat_ext; [done|]. intros i _. apply hashed_fields.
  - intros L [Hlv Hc]. split; [done|]. intros i x HG Hi Hx.
    destruct (hashed_lookup_inv _ _ _ _ _ Hx) as (x0 & Hx0 & _ & E5). rewrite E5. by apply Hc.
Qed.

(** ** Emitting events *)

Lemma hash_int64_ok s : is_hash s -> exists v, hash_str_to_int64 s = Ok v.
Proof. intros (d & Hd & Hl & ->). destruct (hash_int64_digest d Hd Hl) as (v & Hv & _). eauto. Qed.

Lemma str_at_hash hs i : Forall is_hash hs -> (i < length hs)%nat -> exists s, str_at hs i = Ok s /\ is_hash s.
Proof.
  intros Hf Hi. unfold str_at. destruct (lookup_lt_is_Some_2 hs i Hi) as [s Hs]. rewrite Hs.
  exists s. split; [done|]. by eapply Forall_lookup_1.
Qed.

Lemma page_tokens_iter k start stop : 0 <= start < stop -> stop <= key_len k ->
  page_tokens k start stop = take (Z.to_nat (stop - start)) (drop (Z.to_nat start) (key_iter k)).
Proof.
  intros Hs Hst. unfold page_tokens, key_iter, key_len in *. destruct (is_bigram k).
  - rewrite skipn_map, firstn_map. f_equal.
    assert (stop <= zlen (token_ids k) - 1) by (revert Hst; destruct (Z.ltb_spec 0 (zlen (token_ids k))); lia).
    rewrite (zrange_app 0 start) by lia. rewrite drop_app_length'.
    2:{ unfold zrange. rewrite length_seqZ. lia. }
    by rewrite take_zrange by lia.
  - rewrite py_slice_nonneg by lia. by rewrite skipn_map, firstn_map.
Qed.

(** The pages of a range are consecutive pieces of the key. *)
Definition stored_tokens (e : kv_event) : list atom :=
  match e with BlockStored _ _ toks _ _ => toks | _ => [] end.

Lemma store_events_ok k hs md a b i0 ph :
  Forall is_hash hs -> 0 <= a <= b -> b * ps = key_len k -> (i0 + Z.to_nat (b - a) <= length hs)%nat ->
  exists evs, store_events cfg k (key_len k) hs md (map (fun i => i * ps) (zrange a b)) i0 ph = Ok evs
    /\ zlen evs = b - a
    /\ concat (map stored_tokens evs) = drop (Z.to_nat (a * ps)) (key_iter k).
Proof.
  intros Hf. remember (Z.to_nat (b - a)) as n eqn:Hn. revert a i0 ph Hn.
  induction n as [|n IH]; intros a i0 ph Hn Hab Hb Hi.
  { assert (a = b) as -> by lia. rewrite zrange_empty by lia. exists []. split_and!; [done|unfold zlen; simpl; lia|].
    rewrite Hb. rewrite drop_ge; [done|]. pose proof (zlen_key_iter k). unfold zlen in *. lia. }
  rewrite (zrange_app a (a + 1) b) by lia.
  replace (zrange a (a + 1)) with [a] by (unfold zrange; replace (a + 1 - a) with 1 by lia; done).
  simpl. assert (a * ps + ps <= key_len k) by nia.
  rewrite Z.min_l by lia. destruct (Z.leb_spec (a * ps + ps) (a * ps)); [lia|].
  destruct (str_at_hash hs i0 Hf ltac:(lia)) as (s & -> & Hs). simpl.
  destruct (hash_int64_ok s Hs) as [bh ->]. simpl.
  destruct (IH (a + 1) (S i0) (Some bh) ltac:(lia) ltac:(lia) Hb ltac:(lia)) as (evs & -> & Hz & Hc). simpl.
  eexists; split_and!; [done|rewrite zlen_cons; lia|]. simpl. rewrite Hc.
  rewrite page_tokens_iter by nia.
  replace (a * ps + ps - a * ps) with ps by lia.
  replace (Z.to_nat ((a + 1) * ps)) with (Z.to_nat (a * ps) + Z.to_nat ps)%nat by nia.
  rewrite <- drop_drop. apply take_drop.
Qed.

Lemma remove_events_ok k hs md starts i0 :
  Forall is_hash hs -> (i0 + length starts <= length hs)%nat ->
  exists evs, remove_events cfg k (key_len k) hs md starts i0 = Ok evs.
Proof.
  intros Hf. revert i0. induction starts as [|s starts IH]; intros i0 Hi; simpl; [eauto|].
  simpl in Hi. case_match; [apply IH; lia|].
  destruct (str_at_hash hs i0 Hf ltac:(lia)) as (x & -> & Hx). simpl.
  destruct (hash_int64_ok x Hx) as [bh ->]. simpl. destruct (IH (S i0) ltac:(lia)) as [evs ->]. simpl. eauto.
Qed.

(** The effect of recording an event on [n]: its hashes may be computed, and the
    queue grows. *)
Definition recorded (c : RadixCache) (G : ghost) (n : nat) (c' : RadixCache) : Prop :=
  cache_ok ps c' G /\ keeps ps c G c' G /\ counter c' = counter c
  /\ evictable_leaves c' = evictable_leaves c
  /\ (forall i x, store c !! i = Some x -> exists x', store c' !! i = Some x' /\
        children x' = children x /\ parent x' = parent x /\ key x' = key x /\ value x' = value x
        /\ lock_ref x' = lock_ref x /\ last_access_time x' = last_access_time x
        /\ hit_count x' = hit_count x /\ priority x' = priority x /\ creation_time x' = creation_time x)
  /\ base.size (store c') = base.size (store c).

Lemma set_queue_recorded c G n q : cache_ok ps c G -> recorded c G n (set_queue c q).
Proof.
  intros Hok. split; [by eapply cache_ok_sim; [apply set_queue_sim|]|].
  split; [apply keeps_sim, set_queue_sim|]. split_and!; try done. intros i x Hx. by exists x.
Qed.

Lemma size_alter (m : gmap nat TreeNode) f i : base.size (alter f i m) = base.size m.
Proof. rewrite <- !size_dom. by rewrite dom_alter_L. Qed.

Lemma recorded_hash_queue c G n nd hs c1 q :
  cache_ok ps c G -> n <> root_node c -> store c !! n = Some nd ->
  zlen hs * ps = key_len (key nd) -> Forall is_hash hs -> c1 = c \/ c1 = hashed c n hs ->
  recorded c G n (set_queue c1 q).
Proof.
  intros Hok Hr Hnd Hz Hf [->| ->]; [by apply set_queue_recorded|].
  destruct (hashed_cache_ok c G n nd hs Hok Hr Hnd Hz Hf) as [Hok1 Hk1].
  split; [by eapply cache_ok_sim; [apply set_queue_sim|]|].
  split; [eapply keeps_trans; [exact Hk1|]; apply keeps_sim, set_queue_sim|]. split_and!; try done.
  - intros i x Hx. simpl. destruct (decide (i = n)) as [->|Hne].
    + rewrite lookup_alter_eq, Hx. simpl. by eexists.
    + rewrite lookup_alter_ne by done. by exists x.
  - simpl. apply size_alter.
Qed.

Lemma record_remove_event_ok c G n nd md : cache_ok ps c G -> n <> root_node c -> hashable c G n nd ->
  exists c', record_remove_event cfg sha256 c n md = Ok c' /\ recorded c G n c'.
Proof.
  intros Hok Hr Hh. unfold record_remove_event. destruct (cfg_enable_kv_cache_events cfg).
  2:{ exists c. split; [done|]. split; [done|]. split; [apply keeps_refl|]. split_and!; try done.
      intros i x Hx. by exists x. }
  destruct (ensure_hash_ok c G n nd Hh) as (hs & c1 & -> & Hc1 & Hz & Hf). cbn [res_bind].
  pose proof (hb_store _ _ _ _ Hh) as Hs.
  assert (exists nd1, store c1 !! n = Some nd1 /\ key nd1 = key nd) as (nd1 & Hnd1 & Hkey).
  { destruct Hc1 as [[-> _]| ->]; [by exists nd|].
    destruct (hashed_lookup c n hs n nd Hs) as (nd1 & ? & _ & _ & ? & _). by exists nd1. }
  rewrite (deref_store _ _ _ Hnd1). cbn [res_bind]. rewrite Hkey.
  destruct (remove_events_ok (key nd) hs (default GPU md) (range_step (key_len (key nd)) ps) 0 Hf) as [evs ->].
  { pose proof (zlen_range_step (key_len (key nd)) ps Hps (key_len_nonneg _)) as Hl.
    rewrite ceil_div_exact in Hl by (apply Hh || done).
    rewrite <- Hz in Hl at 2. rewrite Z.div_mul in Hl by lia. unfold zlen in *. lia. }
  cbn [res_bind]. eexists; split; [done|]. eapply recorded_hash_queue; eauto. naive_solver.
Qed.

Lemma record_store_event_ok c G n nd md :
  cache_ok ps c G -> n <> root_node c -> is_Some (G !! n) -> store c !! n = Some nd ->
  exists c' evs, record_store_event cfg sha256 c n md = Ok c' /\ recorded c G n c'
    /\ kv_event_queue c' = kv_event_queue c ++ evs
    /\ (cfg_enable_kv_cache_events cfg = true ->
          zlen evs * ps = key_len (key nd) /\ concat (map stored_tokens evs) = key_iter (key nd)).
Proof.
  intros Hok Hr HG Hs. pose proof (live_hashable c G n nd (ok_tree _ _ _ Hok) HG Hr Hs) as Hh.
  unfold record_store_event. destruct (cfg_enable_kv_cache_events cfg).
  2:{ exists c, []. rewrite app_nil_r. split; [done|]. split; [|done]. split; [done|].
      split; [apply keeps_refl|]. split_and!; try done. intros i x Hx. by exists x. }
  destruct (ensure_hash_ok c G n nd Hh) as (hs & c1 & -> & Hc1 & Hz & Hf). cbn [res_bind].
  assert (exists nd1, store c1 !! n = Some nd1 /\ key nd1 = key nd /\ parent nd1 = parent nd) as (nd1 & Hnd1 & Hkey & Hpar).
  { destruct Hc1 as [[-> _]| ->]; [by exists nd|].
    destruct (hashed_lookup c n hs n nd Hs) as (nd1 & ? & _ & ? & ? & _). by exists nd1. }
  rewrite (deref_store _ _ _ Hnd1). cbn [res_bind]. rewrite Hkey, Hpar.
  destruct (hb_parent _ _ _ _ Hh) as (p & pn & Hp & Hpn & Hne & Hph).
  assert (exists pn1, store c1 !! p = Some pn1 /\ hash_value pn1 = hash_value pn) as (pn1 & Hpn1 & Hph1).
  { destruct Hc1 as [[-> _]| ->]; [by exists pn|].
    destruct (hashed_lookup c n hs p pn Hpn) as (pn1 & ? & _ & _ & _ & _ & _ & E). rewrite decide_False in E by done.
    by exists pn1. }
  rewrite Hp. match goal with |- context [res_bind ?r _] => assert (exists ph, r = Ok ph) as [ph ->] end.
  { case_decide; [eauto|]. rewrite (deref_store _ _ _ Hpn1). cbn [res_bind]. rewrite Hph1.
    destruct (hash_value pn) as [h|]; [|eauto]. destruct (last h) as [s|] eqn:E; [|eauto].
    apply last_Some in E as [h' ->]. apply Forall_app in Hph as [_ Hph]. inversion Hph as [|? ? Hs' _]; subst.
    destruct (hash_int64_ok s Hs') as [bh ->]. simpl. eauto. }
  cbn [res_bind]. pose proof (hb_aligned _ _ _ _ Hh) as Hal. pose proof (key_len_nonneg (key nd)) as Hnn.
  assert (key_len (key nd) / ps * ps = key_len (key nd)) as Hdm.
  { rewrite Z.mul_comm. symmetry. apply Z.div_exact; [lia|]. apply Z.mod_divide; [lia|done]. }
  pose proof (Z.div_pos (key_len (key nd)) ps Hnn ltac:(lia)) as Hq.
  unfold range_step. rewrite ceil_div_exact by done.
  destruct (store_events_ok (key nd) hs (default GPU md) 0 (key_len (key nd) / ps) 0 ph Hf) as (evs & -> & Hzl & Hcat).
  { lia. } { done. } { rewrite <- Hz, Z.div_mul by lia. unfold zlen. lia. }
  cbn [res_bind]. eexists _, evs; split_and!; [done| | |].
  - eapply recorded_hash_queue; eauto. naive_solver.
  - destruct Hc1 as [[-> _]| ->]; done.
  - intros _. split; [lia|]. exact Hcat.
Qed.
End Hashing.
