(* ===== verification/RadixInsert.v ===== *)
(** Insertion: [RadixCache.insert] keeps every cached prefix, adds the pages of the
    key that were not cached, and returns the length of the cached prefix. *)

From S2P Require Export RadixEvents.

Section Insert.
Context (cfg : CacheConfig) (monotonic : nat -> Z) (sha256 : list Z -> list Z).
Abbreviation ps := (cfg_page_size cfg).
Context (Hps : 1 <= ps).
Context (Hsha : forall l, Forall is_byte (sha256 l) /\ 8 <= zlen (sha256 l)).

Lemma inc_hit_count_sim c n chunked : sim c (inc_hit_count c n chunked).
Proof. unfold inc_hit_count. destruct chunked; [done|]. by apply upd_sim. Qed.

(** The bookkeeping on the node reached by a step of the walk. *)
Lemma touch_sim c n prio chunked :
  sim c (inc_hit_count (upd c n (fun nn => set_priority (Z.max (priority nn) prio) nn)) n chunked).
Proof. etrans; [|apply inc_hit_count_sim]. by apply upd_sim. Qed.

(** Where the loop of [_insert_helper] stops: at the longest cached prefix [q] of
    the key, with the rest of the key and of the value, and no child to descend to. *)
Record stopped (c : RadixCache) (G : ghost) (K : list unit_) (V : list Z)
    (n : nat) (q : list unit_) (w : list Z) (k : RadixKey) (ck : pyval) (v : list Z) : Prop := {
  st_longest : longest cfg c G K n q w;
  st_key : K = q ++ units k;
  st_aligned : aligned ps k;
  st_tokens : tokens32 k;
  st_value : v = drop (length q) V;
  st_stuck : 0 < key_len k -> child_key k ps = Ok ck /\
    exists nd, store c !! n = Some nd /\ children nd !! ck = None;
}.

Lemma insert_loop_ok fuel c G t n q w k ck V prio chunked :
  cache_ok ps c G -> G !! n = Some (q, w) -> aligned ps k -> tokens32 k ->
  (0 < key_len k -> child_key k ps = Ok ck) -> key_len k < Z.of_nat fuel ->
  exists n' c' G' q' w' k' ck' v',
    insert_loop cfg monotonic fuel c t n k ck (drop (length q) V) prio chunked (zlen q)
    = Ok (zlen q', n', k', ck', v', c')
    /\ cache_ok ps c' G' /\ keeps ps c G c' G' /\ stopped c' G' (q ++ units k) V n' q' w' k' ck' v'.
Proof.
  revert c G n q w k ck. induction fuel as [|fuel IH]; intros c G n q w k ck Hok HG Hal Htk Hck Hf.
  { pose proof (key_len_nonneg k). lia. }
  pose proof (ok_tree _ _ _ Hok) as Ht. cbn [insert_loop].
  destruct (Z.ltb_spec 0 (key_len k)) as [Hpos|Hzero].
  2:{ exists n, c, G, q, w, k, ck, (drop (length q) V). split_and!; [done|done|apply keeps_refl|].
      assert (units k = []) as Hu.
      { apply zlen_zero_inv. rewrite zlen_units. pose proof (key_len_nonneg k). lia. }
      split; try done; [|lia]. rewrite Hu, app_nil_r.
      split; [done|by rewrite take_ge by lia|lia|intros; lia]. }
  specialize (Hck Hpos). destruct (live_store ps c G n Ht ltac:(eauto)) as [nd Hnd].
  rewrite (deref_store _ _ _ Hnd). cbn [res_bind].
  destruct (children nd !! ck) as [child|] eqn:Hch.
  2:{ exists n, c, G, q, w, k, ck, (drop (length q) V). split_and!; [done|done|apply keeps_refl|].
      split; try done; [|intros _; split; [done|by exists nd]].
      split; [done|by rewrite take_app_length|rewrite length_app; lia|].
      intros m v Hc Hm. by eapply stop_no_child. }
  destruct (walk cfg Hps c G n nd q w k ck child Ht HG Hnd Hch Hck Hal Hpos) as (ch0 & v & m & Hw0).
  set (c1 := upd c child (set_access t)). assert (sim c c1) as Hs by by apply upd_sim.
  destruct (walk_step_sim cfg _ _ _ _ _ _ _ _ _ _ Hs Hw0) as (ch & Hchs & _ & Hw).
  pose proof (cache_ok_sim _ _ _ _ Hs Hok) as Hok1. clear Hw0.
  cbv zeta. fold c1. rewrite (deref_store _ _ _ Hchs). cbn [res_bind].
  pose proof Hw as [W1 W2 W3 W4 W5 W6 W7 W8 W9 W10 W11 W12 W13].
  rewrite W7. cbn [res_bind].
  set (k' := key_slice k (Some m) None).
  assert (key_len k' = key_len k - m) as Hk' by (apply key_len_from; lia).
  assert (aligned ps k') as Hal' by (apply slice_aligned; [done..|lia]).
  assert (exists ck', (if 0 <? key_len k' then child_key k' ps else Ok ck) = Ok ck'
            /\ (0 < key_len k' -> child_key k' ps = Ok ck')) as (ck' & Hck' & Hck'').
  { destruct (Z.ltb_spec 0 (key_len k')) as [Hp|Hp]; [|exists ck; split; [done|lia]].
    destruct (aligned_child_key cfg Hps k' Hal' Hp) as [ck' E]. eauto. }
  set (qm := q ++ take (Z.to_nat m) (units k)).
  assert (length (take (Z.to_nat m) (units k)) = Z.to_nat m) as Hlen.
  { rewrite length_take. pose proof (zlen_units k). unfold zlen in *. lia. }
  assert (q ++ units k = qm ++ units k') as HK.
  { unfold qm, k'. rewrite units_from by lia. rewrite <- app_assoc. by rewrite take_drop. }
  assert (zlen q + m = zlen qm) as Hzq by (unfold qm; rewrite zlen_app; unfold zlen; lia).
  assert (py_from (drop (length q) V) m = drop (length qm) V) as Hv'.
  { rewrite py_from_nonneg by lia. rewrite drop_drop. f_equal. unfold qm. rewrite length_app. lia. }
  (* the node the step moves to *)
  assert (exists n2 c2 G2 w2,
    (if m <? key_len (key ch)
     then let* (new, c2) := split_node cfg monotonic c1 (key ch) child m in
          Ok (new, inc_hit_count (upd c2 new (fun nn => set_priority (Z.max (priority nn) prio) nn))
                     new chunked)
     else Ok (child, inc_hit_count (upd c1 child (fun nn => set_priority (Z.max (priority nn) prio) nn))
                       child chunked)) = Ok (n2, c2)
    /\ cache_ok ps c2 G2 /\ keeps ps c1 G c2 G2 /\ G2 !! n2 = Some (qm, w2)) as (n2 & c2 & G2 & w2 & -> & Hok2 & Hkeep & HG2).
  { destruct (Z.ltb_spec m (key_len (key ch))) as [Hin|Hfull].
    - destruct (split_node_spec cfg monotonic Hps c1 G child ch (q ++ units (key ch)) (w ++ v) m Hok1 W1 W2 W3 ltac:(lia) W9)
        as (c' & p & qp & wp & v0 & nn & Hsp & Hp & HGp & Hv0 & Hq & Hw' & Hnn & Hval & Hlk & Hok' & Hk & _).
      apply app_inv_tail in Hq as <-. rewrite Hsp. cbn [res_bind].
      pose proof (touch_sim c' (counter c1) prio chunked) as Hts.
      eexists _, _, _, _. split_and!; [done|by eapply cache_ok_sim|by eapply keeps_trans; [|apply keeps_sim]|].
      rewrite lookup_insert_eq. unfold qm. by rewrite W12.
    - destruct (walk_full cfg Hps _ _ _ _ _ _ _ _ _ Hw Hfull) as [Hm Hsplit].
      pose proof (touch_sim c1 child prio chunked) as Hts.
      eexists _, _, _, _. split_and!; [done|by eapply cache_ok_sim|by apply keeps_sim|].
      rewrite W1. unfold qm. rewrite <- W12, Hm. rewrite take_ge; [done|].
      pose proof (zlen_units (key ch)). unfold zlen in *. lia. }
  cbn [res_bind]. fold k'. rewrite Hck'. cbn [res_bind]. rewrite Hzq, Hv', HK.
  destruct (IH c2 G2 n2 qm w2 k' ck' Hok2 HG2 Hal' ltac:(by apply tokens32_slice) Hck'' ltac:(lia))
    as (n' & c' & G' & q' & w' & kr & ckr & vr & HL & Hok' & Hkeep' & Hst).
  exists n', c', G', q', w', kr, ckr, vr. split_and!; [exact HL|done| |done].
  eapply keeps_trans; [by apply keeps_sim|]. by eapply keeps_trans.
Qed.

(** The outcome of an insertion of [K] with values [V]: the first [n] units were
    cached, and the rest of the values now belongs to the tree. *)
Record inserted (c : RadixCache) (G : ghost) (K : list unit_) (V : list Z) (n : Z)
    (c' : RadixCache) (G' : ghost) : Prop := {
  ins_range : 0 <= n <= zlen K;
  ins_page : (ps | n);
  ins_hit : exists w, cached ps G (take (Z.to_nat n) K) w
    /\ forall k v, cached ps G' k v <-> cached ps G k v \/
         ((ps | zlen k) /\ n < zlen k <= zlen K /\ k = take (length k) K
          /\ v = take (length k) (w ++ drop (Z.to_nat n) V));
  ins_max m v : cached ps G (take m K) v -> (m <= length K)%nat -> Z.of_nat m <= n;
  ins_ghost : G ⊆ G';
  ins_full : exists x w, G' !! x = Some (K, w);
  ins_slots : Permutation (tree_slots c' G') (drop (Z.to_nat n) V ++ tree_slots c G);
  ins_root : root_node c' = root_node c;
  ins_evictable : evictable_size_ c' = evictable_size_ c + (zlen K - n);
  ins_protected : protected_size_ c' = protected_size_ c;
  ins_locks L : locks_ok c G L -> locks_ok c' G' L;
}.

(** The leaf that [_insert_helper] creates for the rest of the key. *)
Definition leaf_for (c : RadixCache) (node : nat) (k : RadixKey) (v : list Z) (prio : Z) : TreeNode :=
  MkTreeNode ∅ (Some node) k (Some v) 0 (monotonic (ticks c)) (monotonic (S (ticks c))) 0 0 None None prio.

Definition add_leaf (c : RadixCache) (node : nat) (k : RadixKey) (ck : pyval) (v : list Z) (prio : Z)
    (chunked : bool) : RadixCache :=
  let '(new, c) := new_object (tick c 2) (leaf_for c node k v prio) in
  let c := inc_hit_count c new chunked in
  let c := upd c node (fun nd => set_children (<[ck := new]> (children nd)) nd) in
  set_sizes c (evictable_size_ c + key_len k) (protected_size_ c).

Lemma add_leaf_ok c G n nd q w k ck v prio chunked :
  cache_ok ps c G -> G !! n = Some (q, w) -> store c !! n = Some nd ->
  child_key k ps = Ok ck -> children nd !! ck = None -> zlen v = key_len k -> ps <= key_len k ->
  aligned ps k -> tokens32 k ->
  let c' := add_leaf c n k ck v prio chunked in
  let G' := <[counter c := (q ++ units k, w ++ v)]> G in
  tree_ok ps c' G' /\ sizes_ok c' G' /\ leaves_ok_except ({[n]} ∪ {[counter c]}) c' G'
  /\ Permutation (tree_slots c' G') (v ++ tree_slots c G) /\ root_node c' = root_node c
  /\ (forall k0 v0, cached ps G' k0 v0 <-> cached ps G k0 v0 \/
       ((ps | zlen k0) /\ (length q < length k0 <= length (q ++ units k))%nat
        /\ k0 = take (length k0) (q ++ units k) /\ v0 = take (length k0) (w ++ v)))
  /\ (exists leaf, store c' !! counter c = Some leaf /\ key leaf = k)
  /\ evictable_size_ c' = evictable_size_ c + key_len k /\ protected_size_ c' = protected_size_ c
  /\ (forall L, locks_ok c G L -> locks_ok c' G' L).
Proof.
  intros [Ht Hl Hs] HG Hnd Hck Hnone Hlen Hpk Hal Htk. cbn zeta.
  set (new := counter c). set (leaf0 := leaf_for c n k v prio).
  set (leaf := if chunked then leaf0 else set_hits (hit_count leaf0 + 1) leaf0).
  set (c' := add_leaf c n k ck v prio chunked).
  assert (n <> new) as Hne.
  { intros ->. unfold new in Hnd. by rewrite (fresh_store _ _ _ Ht) in Hnd. }
  assert (store c' = <[n := set_children (<[ck := new]> (children nd)) nd]> (<[new := leaf]> (store c))) as Hst.
  { unfold c', add_leaf, inc_hit_count, leaf. destruct chunked; simpl; fold new leaf0.
    - rewrite (alter_insert_Some _ _ _ nd); [done|]. by simplify_map_eq.
    - rewrite (alter_insert_Some _ new _ leaf0) by by simplify_map_eq. rewrite insert_insert_eq.
      rewrite (alter_insert_Some _ _ _ nd); [done|]. by simplify_map_eq. }
  assert (children leaf = ∅ /\ parent leaf = Some n /\ key leaf = k /\ value leaf = Some v
    /\ lock_ref leaf = 0 /\ hash_value leaf = None) as (L1 & L2 & L3 & L4 & L5 & L6).
  { unfold leaf. by destruct chunked. }
  assert (root_node c' = root_node c /\ counter c' = S new /\ evictable_leaves c' = evictable_leaves c
    /\ evictable_size_ c' = evictable_size_ c + key_len k /\ protected_size_ c' = protected_size_ c)
    as (R1 & R2 & R3 & R4 & R5).
  { unfold c', add_leaf, inc_hit_count. by destruct chunked. }
  split_and!.
  - by apply (leaf_tree_ok ps c G Ht n nd leaf q w v k ck).
  - by apply (leaf_sizes_ok ps c G Ht n nd leaf q w v k ck).
  - by apply (leaf_leaves c G n nd leaf q w v k ck).
  - by apply (leaf_slots ps c G Ht n nd leaf q w v k ck).
  - done.
  - intros k0 v0. by apply (leaf_cached ps Hps c G Ht n q w v k HG c').
  - exists leaf. split; [|done]. rewrite Hst. by simplify_map_eq.
  - done.
  - done.
  - intros L. apply (leaf_locks_ok ps c G Ht n nd leaf q w v k ck); try done.
    intros l ql wl Hl' Heq.
    pose proof (zlen_units k) as Zk. unfold zlen in Zk.
    pose proof (stop_no_child cfg Hps c G n nd q w k ck (length (q ++ units k))
                  (take (length (q ++ units k)) wl) Ht HG Hnd Hnone Hck Hal ltac:(lia)) as Hstop.
    rewrite (take_ge (q ++ units k)) in Hstop by lia.
    assert (length q + length (units k) <= length q)%nat; [|lia].
    rewrite <- length_app. apply Hstop; [|lia]. exists l, ql, wl.
    destruct (path_lengths ps Hps _ _ _ _ _ Ht HG) as [_ Hdq]. split_and!; [done| | |done|done].
    + rewrite zlen_app, zlen_units. by apply Z.divide_add_r.
    + apply (f_equal length) in Heq. rewrite length_take in Heq. lia.
Qed.

(** Linking the leaf, refreshing the two leaf statuses and recording the event. *)
Lemma finish_insert_ok c G n nd q w k ck v prio chunked :
  cache_ok ps c G -> G !! n = Some (q, w) -> store c !! n = Some nd ->
  child_key k ps = Ok ck -> children nd !! ck = None -> zlen v = key_len k -> ps <= key_len k ->
  aligned ps k -> tokens32 k ->
  exists c', (let* c1 := update_leaf_status (add_leaf c n k ck v prio chunked) n in
              let* c1 := update_leaf_status c1 (counter c) in
              record_store_event cfg sha256 c1 (counter c) None) = Ok c'
  /\ let G' := <[counter c := (q ++ units k, w ++ v)]> G in
     cache_ok ps c' G' /\ Permutation (tree_slots c' G') (v ++ tree_slots c G)
     /\ root_node c' = root_node c
     /\ (forall k0 v0, cached ps G' k0 v0 <-> cached ps G k0 v0 \/
         ((ps | zlen k0) /\ (length q < length k0 <= length (q ++ units k))%nat
          /\ k0 = take (length k0) (q ++ units k) /\ v0 = take (length k0) (w ++ v)))
     /\ evictable_size_ c' = evictable_size_ c + key_len k /\ protected_size_ c' = protected_size_ c
     /\ (forall L, locks_ok c G L -> locks_ok c' G' L)
     /\ exists evs, kv_event_queue c' = kv_event_queue c ++ evs
         /\ (cfg_enable_kv_cache_events cfg = true ->
               zlen evs * ps = key_len k /\ concat (map stored_tokens evs) = key_iter k).
Proof.
  intros Hok HG Hnd Hck Hnone Hlen Hpk Hal Htk.
  destruct (add_leaf_ok c G n nd q w k ck v prio chunked Hok HG Hnd Hck Hnone Hlen Hpk Hal Htk)
    as (Ht1 & Hs1 & Hl1 & Hsl1 & Hr1 & Hc1 & (leaf & Hleaf & Hlk) & He1 & Hp1 & HL1).
  set (new := counter c) in *. set (G' := <[new := _]> G) in *. set (c1 := add_leaf _ _ _ _ _ _ _) in *.
  assert (is_Some (G' !! new)) as HGn by (unfold G'; rewrite lookup_insert_eq; eauto).
  assert (is_Some (G' !! n)) as HGo.
  { unfold G'. destruct (decide (new = n)) as [->|]; [rewrite lookup_insert_eq|rewrite lookup_insert_ne by done]; eauto. }
  destruct (update_leaf_status_ok ps c1 G' n {[new]} Ht1 HGo) as (L & HL & Hl2).
  { intros i Hi. apply Hl1. set_solver. }
  rewrite HL. cbn [res_bind].
  destruct (update_leaf_status_ok ps (set_leaves c1 L) G' new ∅ (set_leaves_tree _ _ _ _ Ht1) HGn) as (L' & HL' & Hl3).
  { intros i Hi. apply Hl2. set_solver. }
  rewrite HL'. cbn [res_bind]. set (c3 := set_leaves (set_leaves c1 L) L') in *.
  assert (cache_ok ps c3 G') as Hok3.
  { split; [by do 2 apply set_leaves_tree|by apply leaves_ok_except_empty|by do 2 apply set_leaves_sizes]. }
  assert (new <> root_node c3) as Hnr.
  { intros E. pose proof (ok_root _ _ _ (ok_tree _ _ _ Hok)) as Hro. change (root_node c3) with (root_node c1) in E.
    rewrite Hr1 in E. unfold new in E. rewrite <- E, (fresh_ghost _ _ _ (ok_tree _ _ _ Hok)) in Hro. done. }
  destruct (record_store_event_ok cfg sha256 Hps Hsha c3 G' new leaf None Hok3 Hnr HGn Hleaf)
    as (c' & evs & -> & (Hok' & Hkeep & _) & Hq & Hev).
  exists c'. split; [done|]. cbn zeta. split_and!.
  - done.
  - rewrite (keeps_slots _ _ _ _ _ Hkeep). exact Hsl1.
  - rewrite (keeps_root _ _ _ _ _ Hkeep). exact Hr1.
  - exact Hc1.
  - rewrite (keeps_evictable _ _ _ _ _ Hkeep). exact He1.
  - rewrite (keeps_protected _ _ _ _ _ Hkeep). exact Hp1.
  - intros L0 HL0. apply (keeps_locks _ _ _ _ _ Hkeep). destruct (HL1 L0 HL0). by split.
  - exists evs. rewrite Hlk in Hev. split; [|done]. rewrite Hq.
    unfold c3, c1, add_leaf, inc_hit_count. by destruct chunked.
Qed.

Lemma insert_helper_ok c G k v prio chunked :
  cache_ok ps c G -> aligned ps k -> tokens32 k -> zlen v = key_len k ->
  exists n c' G', insert_helper cfg monotonic sha256 c (root_node c) k v prio chunked = Ok (n, c')
    /\ cache_ok ps c' G' /\ inserted c G (units k) v n c' G'.
Proof.
  intros Hok Hal Htk Hlen. unfold insert_helper.
  set (c1 := upd (upd (tick c 1) _ _) _ _).
  assert (sim c c1) as Hs1.
  { unfold c1. etrans; [apply (tick_sim c 1)|]. etrans; [|by apply upd_sim]. by apply upd_sim. }
  pose proof (cache_ok_sim _ _ _ _ Hs1 Hok) as Hok1.
  change (root_node c) with (root_node c1).
  pose proof (ok_root _ _ _ (ok_tree _ _ _ Hok1)) as Hroot.
  pose proof (key_len_nonneg k) as Hnn. pose proof (zlen_units k) as Zu.
  destruct (Z.eqb_spec (key_len k) 0) as [Hz|Hnz].
  { exists 0, c1, G. split_and!; [done|done|].
    assert (units k = []) as -> by (apply zlen_zero_inv; lia).
    assert (v = []) as -> by (apply zlen_zero_inv; lia).
    change (zlen []) with 0. split; simpl; try done; try lia.
    - apply Z.divide_0_r.
    - exists []. split; [by eapply cached_root, ok_tree|]. intros k0 v0. split; [by left|].
      intros [H|(_ & H & _)]; [done|]. unfold zlen in H. simpl in H. lia.
    - by eauto.
    - by rewrite (tree_slots_sim _ _ _ Hs1).
    - unfold zlen; simpl; lia.
    - intros L. by apply locks_ok_sim. }
  destruct (aligned_child_key cfg Hps k Hal ltac:(lia)) as [ck Hck]. rewrite Hck. cbn [res_bind].
  destruct (insert_loop_ok (S (Z.to_nat (key_len k))) c1 G (monotonic (ticks c)) (root_node c1) [] [] k ck v
              (default 0 prio) chunked Hok1 Hroot Hal Htk ltac:(done) ltac:(lia))
    as (n' & c2 & G2 & q & w & k' & ck' & v' & HL & Hok2 & Hkeep & [Hlong HK Hal' Htk' Hv' Hstuck]).
  simpl app in *. change (drop (length []) v) with v in HL. change (zlen []) with 0 in HL.
  rewrite HL. cbn [res_bind]. clear HL. destruct Hlong as [L1 L2 L3 L4].
  destruct (path_lengths ps Hps _ _ _ _ _ (ok_tree _ _ _ Hok2) L1) as [Hwq Hdq].
  assert (keeps ps c G c2 G2) as Hk2 by (eapply keeps_trans; [by apply keeps_sim|done]).
  assert (cached ps G (take (Z.to_nat (zlen q)) (units k)) w) as Hhit.
  { apply (keeps_cached _ _ _ _ _ Hk2). unfold zlen. rewrite Nat2Z.id, <- L2.
    eapply cached_path; [exact Hps|by apply ok_tree|done]. }
  assert (forall m v0, cached ps G (take m (units k)) v0 -> (m <= length (units k))%nat -> Z.of_nat m <= zlen q) as Hmax.
  { intros m v0 Hc Hm. apply (keeps_cached _ _ _ _ _ Hk2) in Hc. unfold zlen. pose proof (L4 m v0 Hc Hm). lia. }
  assert (key_len k = zlen q + key_len k') as Hsum.
  { rewrite <- zlen_units, HK, zlen_app, zlen_units. lia. }
  pose proof (key_len_nonneg k') as Hnn'. pose proof (zlen_nonneg q) as Hqn.
  assert (length q = Z.to_nat (zlen q)) as Hlq by (unfold zlen; lia).
  destruct (Z.ltb_spec 0 (key_len k')) as [Hpos|Hdone].
  - destruct (Hstuck Hpos) as (Hck' & nd & Hnd & Hnone).
    assert (ps <= key_len k') as Hpk.
    { pose proof (divide_lt_step ps 0 (key_len k') ltac:(lia) (Z.divide_0_r ps) Hal'). lia. }
    assert (zlen v' = key_len k') as Hlv'.
    { rewrite Hv', Hlq. unfold zlen at 1. rewrite length_drop. unfold zlen in *. lia. }
    destruct (finish_insert_ok c2 G2 n' nd q w k' ck' v' (default 0 prio) chunked Hok2 L1 Hnd Hck' Hnone Hlv' Hpk Hal' Htk')
      as (c' & HF & Hok' & Hsl & Hr & Hc & He & Hp & HLk & _).
    exists (zlen q), c', (<[counter c2 := (q ++ units k', w ++ v')]> G2).
    split_and!; [|done|].
    { change ((let* c3 := update_leaf_status (add_leaf c2 n' k' ck' v' (default 0 prio) chunked) n' in
               let* c3 := update_leaf_status c3 (counter c2) in
               let* c3 := record_store_event cfg sha256 c3 (counter c2) None in
               Ok (zlen q, c3)) = Ok (zlen q, c')).
      destruct (update_leaf_status _ n') as [c3|]; simpl in HF |- *; [|done].
      destruct (update_leaf_status c3 _) as [c4|]; simpl in HF |- *; [|done]. by rewrite HF. }
    split; try done; try lia.
    + exists w. split; [done|]. intros k0 v0. rewrite Hc, (keeps_cached _ _ _ _ _ Hk2 k0 v0), <- HK.
      rewrite <- Hlq, <- Hv'. unfold zlen. split; (intros [H|H]; [by left|right]); naive_solver lia.
    + etrans; [apply (keeps_ghost _ _ _ _ _ Hk2)|].
      apply insert_subseteq, (fresh_ghost ps), (ok_tree _ _ _ Hok2).
    + rewrite HK. eexists (counter c2), _. by rewrite lookup_insert_eq.
    + rewrite Hsl, (keeps_slots _ _ _ _ _ Hk2). by rewrite <- Hlq, <- Hv'.
    + rewrite Hr. apply Hk2.
    + rewrite He, (keeps_evictable _ _ _ _ _ Hk2). lia.
    + rewrite Hp. apply Hk2.
    + intros L HL. by apply HLk, Hk2.
  - assert (zlen q = key_len k) as Hq by lia.
    exists (zlen q), c2, G2. split_and!; [done|done|].
    assert (take (length q) (units k) = units k) as Hall.
    { apply take_ge. unfold zlen in *. lia. }
    rewrite Hall in L2. subst q.
    assert (drop (Z.to_nat (zlen (units k))) v = []) as Hdv by (apply drop_ge; unfold zlen in *; lia).
    split; try done; try lia.
    + exists w. split; [done|]. intros k0 v0.
      rewrite (keeps_cached _ _ _ _ _ Hk2 k0 v0). split; [by left|]. intros [H|(_ & H & _)]; [done|lia].
    + apply Hk2.
    + by eauto.
    + rewrite Hdv. apply Hk2.
    + apply Hk2.
    + rewrite (keeps_evictable _ _ _ _ _ Hk2). lia.
    + apply Hk2.
    + apply Hk2.
Qed.

(** ** [insert] *)

(** The values stored for the key: the given ones, or the token ids themselves. *)
Definition insert_value (k : RadixKey) (v : option (list Z)) : list Z :=
  take (Z.to_nat (key_len (norm_key cfg k))) (default (token_ids (norm_key cfg k)) v).

Lemma key_len_tokens k : key_len k <= zlen (token_ids k).
Proof. pose proof (zlen_nonneg (token_ids k)). unfold key_len. repeat case_match; lia. Qed.

Lemma zlen_insert_value k v :
  match v with Some l => key_len (norm_key cfg k) <= zlen l | None => True end ->
  zlen (insert_value k v) = key_len (norm_key cfg k).
Proof.
  intros Hv. unfold insert_value, zlen. rewrite length_take. pose proof (key_len_nonneg (norm_key cfg k)).
  destruct v as [l|]; simpl; [unfold zlen in *; lia|].
  pose proof (key_len_tokens (norm_key cfg k)). unfold zlen in *. lia.
Qed.

Lemma insert_ok c G k v prio chunked :
  cfg_disable cfg = false -> cache_ok ps c G -> tokens32 k ->
  match v with Some l => key_len (norm_key cfg k) <= zlen l | None => True end ->
  exists n c' G', insert cfg monotonic sha256 c k v prio chunked = Ok (n, c')
    /\ cache_ok ps c' G' /\ inserted c G (units (norm_key cfg k)) (insert_value k v) n c' G'.
Proof.
  intros Hdis Hok Htk Hv. unfold insert. rewrite Hdis.
  set (k1 := (maybe_to_bigram_view k (cfg_is_eagle cfg) None).1).
  pose proof (key_len_nonneg (norm_key cfg k)) as Hnn.
  assert (key_len (norm_key cfg k) <= key_len k1) as Hle.
  { unfold norm_key. rewrite page_aligned_len by done. fold k1.
    pose proof (Z.mul_div_le (key_len k1) ps). lia. }
  destruct (maybe_to_bigram_view k (cfg_is_eagle cfg) v) as [k2 v2] eqn:Hview.
  assert (k2 = k1) as ->.
  { unfold k1. unfold maybe_to_bigram_view in *. by destruct (cfg_is_eagle cfg && negb (is_bigram k)); simplify_eq. }
  change (page_aligned k1 ps) with (norm_key cfg k).
  match goal with |- context [insert_helper _ _ _ _ _ _ ?V _ _] => assert (V = insert_value k v) as -> end.
  { unfold insert_value. unfold maybe_to_bigram_view in Hview.
    pose proof (f_equal fst Hview) as E. apply (f_equal snd) in Hview. simpl in Hview.
    destruct v as [l|].
    - destruct (cfg_is_eagle cfg && negb (is_bigram k)); simpl in E, Hview; subst v2.
      + rewrite E. pose proof (key_len_nonneg k1). rewrite !py_upto_nonneg by lia.
        simpl. rewrite take_take. f_equal. lia.
      + by rewrite py_upto_nonneg by lia.
    - destruct (cfg_is_eagle cfg && negb (is_bigram k)); simpl in Hview; subst v2;
      by rewrite py_upto_nonneg by lia. }
  apply insert_helper_ok; [done|by apply norm_key_aligned|by apply norm_key_tokens|by apply zlen_insert_value].
Qed.
End Insert.
