(* ===== verification/RadixLock.v ===== *)
(** Locks: [inc_lock_ref] and [dec_lock_ref] walk to the root and keep the lock
    counts equal to the number of locks held at or below each node, the sizes and
    the evictable leaves in step with them. *)

From S2P Require Export RadixInsert.

(** ** Changing the lock count of one node *)

Section SetLock.
Context (ps : Z) (c : RadixCache) (G : ghost) (x : nat) (nd : TreeNode) (z : Z) (f : TreeNode -> TreeNode).
Context (Hok : cache_ok ps c G) (HG : is_Some (G !! x)) (Hr : x <> root_node c).
Context (Hnd : store c !! x = Some nd) (Hz : 0 <= z) (Hf : f nd = set_lock_ref z nd).

Let len := key_len (key nd).
Let e' := evictable_size_ c + (if z =? 0 then len else 0) - (if lock_ref nd =? 0 then len else 0).
Let p' := protected_size_ c + (if z =? 0 then 0 else len) - (if lock_ref nd =? 0 then 0 else len).
Let c1 := upd (set_sizes c e' p') x f.

Lemma lock_store : store c1 = <[x := set_lock_ref z nd]> (store c).
Proof. unfold c1. simpl. rewrite (alter_insert_Some _ _ _ nd) by done. by rewrite Hf. Qed.

Lemma lock_lookup i y : store c !! i = Some y ->
  store c1 !! i = Some (if decide (i = x) then set_lock_ref z y else y).
Proof.
  intros Hi. rewrite lock_store. case_decide as E.
  - subst i. rewrite lookup_insert_eq. by simplify_eq.
  - by rewrite lookup_insert_ne by done.
Qed.

Lemma lock_lookup_inv i y' : store c1 !! i = Some y' ->
  exists y, store c !! i = Some y /\ y' = (if decide (i = x) then set_lock_ref z y else y).
Proof.
  intros Hi. rewrite lock_store in Hi. destruct (decide (i = x)) as [->|Hne].
  - rewrite lookup_insert_eq in Hi. injection Hi as <-. exists nd. done.
  - rewrite lookup_insert_ne in Hi by done. by exists y'.
Qed.

Lemma lock_tree_ok : tree_ok ps c1 G.
Proof.
  destruct (ok_tree _ _ _ Hok) as [Hroot (r & Hrs & Hrest) Hn Hc Hfr]. split; [done| | | |].
  - exists r. change (root_node c1) with (root_node c). rewrite (lock_lookup _ _ Hrs).
    by rewrite decide_False by done.
  - intros i q w HGi Hir. change (root_node c1) with (root_node c) in Hir.
    destruct (Hn i q w HGi Hir)
      as (y & p & pn & qp & wp & v & ck & H1 & H2 & H3 & H4 & H5 & H6 & H7 & H8 & H9 & H10 & H11 & H12 & H13 & H15 & H16).
    pose proof (lock_lookup _ _ H1) as L1. pose proof (lock_lookup _ _ H3) as L3.
    destruct (decide (i = x)), (decide (p = x)); eexists _, p, _, qp, wp, v, ck;
      (split; [exact L1|]); (split; [exact H2|]); (split; [exact L3|]); split_and!; done.
  - intros i y' ck ch HGi Hy Hch. destruct (lock_lookup_inv _ _ Hy) as (y & Hy0 & ->).
    assert (children y !! ck = Some ch) as Hch0 by by destruct (decide (i = x)).
    destruct (Hc i y ck ch HGi Hy0 Hch0) as (A1 & A2 & chn & A3 & A4 & A5).
    split_and!; [done..|]. eexists. split; [apply (lock_lookup _ _ A3)|]. by destruct (decide (ch = x)).
  - intros i [y' Hy]. destruct (lock_lookup_inv _ _ Hy) as (y & Hy0 & _). apply Hfr. eauto.
Qed.

Lemma lock_node : x ∈ tree_nodes c G.
Proof. unfold tree_nodes. by rewrite elem_of_difference, elem_of_dom, elem_of_singleton. Qed.

Lemma lock_fields i : i <> x -> evictable_of c1 i = evictable_of c i /\ protected_of c1 i = protected_of c i.
Proof.
  intros Hne. unfold evictable_of, protected_of. rewrite lock_store. by rewrite lookup_insert_ne by done.
Qed.

Lemma lock_sizes_ok : sizes_ok c1 G.
Proof.
  destruct (ok_sizes _ _ _ Hok) as [He Hp]. split.
  - change (tree_nodes c1 G) with (tree_nodes c G).
    rewrite (gsum_update (evictable_of c1) (evictable_of c) x) by (apply lock_node || (intros; by apply lock_fields)).
    unfold evictable_of at 1 2. rewrite (lock_lookup _ _ Hnd), Hnd, decide_True by done.
    change (evictable_size_ c1) with e'. unfold e', len. simpl. rewrite He. lia.
  - change (tree_nodes c1 G) with (tree_nodes c G).
    rewrite (gsum_update (protected_of c1) (protected_of c) x) by (apply lock_node || (intros; by apply lock_fields)).
    unfold protected_of at 1 2. rewrite (lock_lookup _ _ Hnd), Hnd, decide_True by done.
    change (protected_size_ c1) with p'. unfold p', len. simpl. rewrite Hp. lia.
Qed.

Lemma lock_slots : tree_slots c1 G = tree_slots c G.
Proof.
  unfold tree_slots. change (tree_nodes c1 G) with (tree_nodes c G). apply gcat_ext. intros i _.
  unfold slots_of. rewrite lock_store. destruct (decide (i = x)) as [->|Hne].
  - by rewrite lookup_insert_eq, Hnd.
  - by rewrite lookup_insert_ne by done.
Qed.

Lemma lock_leaves : leaves_ok_except {[x]} c1 G.
Proof.
  intros i Hi. rewrite elem_of_singleton in Hi. change (evictable_leaves c1) with (evictable_leaves c).
  rewrite (ok_leaves _ _ _ Hok i). rewrite lock_store. by rewrite lookup_insert_ne by done.
Qed.

(** One iteration of the walk. *)
Lemma lock_step : exists c', update_leaf_status c1 x = Ok c' /\ cache_ok ps c' G
  /\ store c' = <[x := set_lock_ref z nd]> (store c) /\ root_node c' = root_node c
  /\ evictable_size_ c' = e' /\ protected_size_ c' = p' /\ tree_slots c' G = tree_slots c G.
Proof.
  destruct (update_leaf_status_ok ps c1 G x ∅ lock_tree_ok HG) as (L & HL & Hlv).
  { intros i Hi. apply lock_leaves. set_solver. }
  exists (set_leaves c1 L). split; [done|]. split_and!; [|apply lock_store|done|done|done|apply lock_slots].
  split; [apply set_leaves_tree, lock_tree_ok|by apply leaves_ok_except_empty|apply set_leaves_sizes, lock_sizes_ok].
Qed.
End SetLock.

(** Only lock counts differ. *)
Definition but_locks (c c' : RadixCache) : Prop :=
  set_lock_ref 0 <$> store c' = set_lock_ref 0 <$> store c.

Lemma but_locks_insert c c' x nd z : store c !! x = Some nd ->
  store c' = <[x := set_lock_ref z nd]> (store c) -> but_locks c c'.
Proof.
  intros Hnd Hst. unfold but_locks. rewrite Hst, fmap_insert. apply insert_id.
  rewrite lookup_fmap, Hnd. by destruct nd.
Qed.

Lemma but_locks_lookup c c' i nd' : but_locks c c' -> store c' !! i = Some nd' ->
  exists nd, store c !! i = Some nd /\ nd' = set_lock_ref (lock_ref nd') nd.
Proof.
  intros H Hi. apply (f_equal (fun m => m !! i)) in H. rewrite !lookup_fmap, Hi in H.
  destruct (store c !! i) as [nd|]; [|done]. simpl in H. injection H as H. exists nd. split; [done|].
  destruct nd, nd'. unfold set_lock_ref in *. simpl in *. congruence.
Qed.

(** ** The length of the walk *)

(** The nodes whose path has at most [m] units. *)
Definition below (G : ghost) (m : nat) : gset nat :=
  dom (filter (fun '(_, (q, _)) => (length q <= m)%nat) G).

Lemma elem_of_below G m i : i ∈ below G m <-> exists q w, G !! i = Some (q, w) /\ (length q <= m)%nat.
Proof.
  unfold below. rewrite elem_of_dom. unfold is_Some. split.
  - intros [[q w] H]. apply map_lookup_filter_Some in H as [H1 H2]. eauto.
  - intros (q & w & H1 & H2). exists (q, w). by apply map_lookup_filter_Some.
Qed.

Lemma below_parent G m m' x q w : G !! x = Some (q, w) -> (m' < length q <= m)%nat ->
  (base.size (below G m') < base.size (below G m))%nat.
Proof.
  intros Hx Hm. apply subset_size. split.
  - intros i. rewrite !elem_of_below. intros (qi & wi & Hi & Hl). exists qi, wi. split; [done|lia].
  - intros Hsub. assert (x ∈ below G m') as Hin by (apply Hsub, elem_of_below; exists q, w; split; [done|lia]).
    apply elem_of_below in Hin as (q' & w' & Hx' & Hl). rewrite Hx in Hx'. injection Hx' as <- <-. lia.
Qed.

Lemma below_fuel ps c G m : tree_ok ps c G -> (base.size (below G m) <= base.size (store c))%nat.
Proof.
  intros Hok. rewrite <- (size_dom (store c)). apply subseteq_size. intros i Hi.
  apply elem_of_below in Hi as (q & w & Hi & _). apply elem_of_dom. by eapply live_store; eauto.
Qed.

Lemma below_pos G m i q w : G !! i = Some (q, w) -> (length q <= m)%nat -> (0 < base.size (below G m))%nat.
Proof.
  intros Hi Hl. destruct (base.size (below G m)) eqn:E; [|lia].
  apply size_empty_inv in E. exfalso.
  assert (i ∈ below G m) as Hin by (apply elem_of_below; eauto). set_solver.
Qed.

(** ** Counting locks *)

Lemma lock_count_cons G L n i : lock_count G (n :: L) i = (if anc G i n then 1 else 0) + lock_count G L i.
Proof.
  unfold lock_count. rewrite filter_cons. destruct (anc G i n).
  - rewrite decide_True by done. by rewrite zlen_cons.
  - by rewrite decide_False by done.
Qed.

Lemma lock_count_nonneg G L i : 0 <= lock_count G L i.
Proof. apply zlen_nonneg. Qed.

Lemma anc_spec G i n q w qn wn : G !! i = Some (q, w) -> G !! n = Some (qn, wn) ->
  anc G i n = true <-> q = take (length q) qn.
Proof. intros Hi Hn. unfold anc. rewrite Hi, Hn. apply bool_decide_eq_true. Qed.

Lemma anc_self G n : is_Some (G !! n) -> anc G n n = true.
Proof. intros [[q w] Hn]. rewrite (anc_spec _ _ _ _ _ _ _ Hn Hn). by rewrite take_ge by lia. Qed.

(** The only ancestor of [n0] whose path ends in the key of its ancestor [x] is [x]. *)
Lemma anc_between ps c G n0 x q w p qp wp nd i qi wi :
  1 <= ps -> tree_ok ps c G -> is_Some (G !! n0) -> anc G x n0 = true -> anc G i n0 = true ->
  G !! x = Some (q, w) -> x <> root_node c -> store c !! x = Some nd -> parent nd = Some p ->
  G !! p = Some (qp, wp) -> G !! i = Some (qi, wi) -> (length qp < length qi <= length q)%nat -> i = x.
Proof.
  intros Hps Ht [[q0 w0] H0] Hx Hi HGx Hr Hs Hpar HGp HGi Hl.
  apply (anc_spec _ _ _ _ _ _ _ HGx H0) in Hx. apply (anc_spec _ _ _ _ _ _ _ HGi H0) in Hi.
  apply (covers_unique ps Hps c G i qi wi x q w (length qi) Ht).
  - apply (covers_end ps Hps); [done..|lia].
  - destruct (node_parent ps Hps _ _ _ _ _ Ht HGx Hr) as (p' & qp' & wp' & nd' & E1 & E2 & E3 & E4 & _).
    rewrite Hs in E1. injection E1 as <-. rewrite Hpar in E2. injection E2 as <-.
    rewrite HGp in E3. injection E3 as <- <-. split_and!; [done|done|lia|]. exists p, qp, wp, nd. split_and!; (done || lia).
  - by destruct (path_lengths ps Hps _ _ _ _ _ Ht HGi).
  - rewrite take_ge by lia. rewrite Hx, take_take, Hi at 1. f_equal. lia.
Qed.

(** ** The walks *)

Section Walks.
Context (cfg : CacheConfig).
Abbreviation ps := (cfg_page_size cfg).
Context (Hps : 1 <= ps).

(** The state in the middle of a walk from [n0]: the counts of the nodes strictly
    below [q] on the path already include ([b = true], locking) or no longer
    include ([b = false], unlocking) the lock at [n0]. *)
Definition walking (c : RadixCache) (G : ghost) (L : list nat) (n0 : nat) (m : nat) (b : bool) : Prop :=
  forall i qi wi nd, G !! i = Some (qi, wi) -> i <> root_node c -> store c !! i = Some nd ->
    lock_ref nd = lock_count G L i
      + (if anc G i n0 && Bool.eqb b (m <? length qi)%nat then 1 else 0).

Lemma walking_step c c' G L n0 b x q w nd p qp wp :
  tree_ok ps c G -> is_Some (G !! n0) -> anc G x n0 = true ->
  G !! x = Some (q, w) -> x <> root_node c -> store c !! x = Some nd -> parent nd = Some p ->
  G !! p = Some (qp, wp) -> (length qp < length q)%nat ->
  walking c G L n0 (length q) b ->
  store c' = <[x := set_lock_ref (lock_ref nd + (if b then 1 else -1)) nd]> (store c) ->
  root_node c' = root_node c ->
  walking c' G L n0 (length qp) b.
Proof.
  intros Ht H0 Hx HGx Hr Hs Hpar HGp Hlt Hw Hst Hrt i qi wi ndi HGi Hir Hi. rewrite Hrt in Hir.
  destruct (decide (i = x)) as [->|Hne].
  - rewrite Hst, lookup_insert_eq in Hi. injection Hi as <-. rewrite HGx in HGi. injection HGi as <- <-.
    simpl. rewrite (Hw x q w nd HGx Hr Hs), Hx. simpl.
    assert ((length q <? length q)%nat = false) as -> by (apply Nat.ltb_ge; lia).
    assert ((length qp <? length q)%nat = true) as -> by (apply Nat.ltb_lt; lia).
    destruct b; simpl; lia.
  - rewrite Hst, lookup_insert_ne in Hi by done. rewrite (Hw i qi wi ndi HGi Hir Hi). f_equal.
    destruct (anc G i n0) eqn:Ha; [|done]. simpl.
    assert ((length q <? length qi)%nat = (length qp <? length qi)%nat) as ->; [|done].
    destruct (Nat.ltb_spec (length q) (length qi)), (Nat.ltb_spec (length qp) (length qi)); try done; [lia|].
    exfalso. apply Hne. by eapply (anc_between ps c G n0 x q w p qp wp nd i qi wi).
Qed.

Lemma walking_pos c G L n0 x q w nd : walking c G L n0 (length q) false ->
  anc G x n0 = true -> G !! x = Some (q, w) -> x <> root_node c -> store c !! x = Some nd -> 1 <= lock_ref nd.
Proof.
  intros Hw Hx HGx Hr Hs. rewrite (Hw x q w nd HGx Hr Hs), Hx.
  assert ((length q <? length q)%nat = false) as -> by (apply Nat.ltb_ge; lia). simpl.
  pose proof (lock_count_nonneg G L x). lia.
Qed.

Lemma inc_lock_loop_ok fuel c G L n0 x q w delta :
  cache_ok ps c G -> is_Some (G !! n0) -> anc G x n0 = true -> G !! x = Some (q, w) ->
  walking c G L n0 (length q) true -> (base.size (below G (length q)) <= fuel)%nat ->
  exists d c', inc_lock_loop fuel c (Some x) delta = Ok (delta + d, c') /\ cache_ok ps c' G
    /\ walking c' G L n0 0 true /\ root_node c' = root_node c
    /\ evictable_size_ c' = evictable_size_ c + d /\ protected_size_ c' = protected_size_ c - d
    /\ tree_slots c' G = tree_slots c G /\ but_locks c c'.
Proof.
  revert c x q w delta. induction fuel as [|fuel IH]; intros c x q w delta Hok H0 Ha Hx Hw Hf.
  { pose proof (below_pos G (length q) x q w Hx ltac:(lia)). lia. }
  pose proof (ok_tree _ _ _ Hok) as Ht. cbn [inc_lock_loop].
  destruct (decide (x = root_node c)) as [->|Hr].
  { rewrite decide_True by done. rewrite (ok_root _ _ _ Ht) in Hx. injection Hx as <- <-.
    exists 0, c. rewrite Z.add_0_r. split_and!; (done || lia). }
  rewrite decide_False by congruence. destruct (live_store _ _ _ x Ht ltac:(eauto)) as [nd Hnd].
  rewrite (deref_store _ _ _ Hnd). cbn [res_bind]. change (default 0%nat (Some x)) with x.
  destruct (node_parent ps Hps _ _ _ _ _ Ht Hx Hr) as (p & qp & wp & nd' & E1 & Hpar & Hp & Hq & Hlt & Hqp & _).
  rewrite Hnd in E1. injection E1 as <-.
  destruct (live_value ps c G x nd Ht ltac:(eauto) Hnd) as (_ & Hnn & _).
  set (z := lock_ref nd + 1). set (len := key_len (key nd)).
  destruct (lock_step ps c G x nd z (fun nd => set_lock_ref (lock_ref nd + 1) nd) Hok ltac:(eauto) Hr Hnd
              ltac:(unfold z; lia) eq_refl) as (c2 & HU & Hok2 & Hst2 & Hrt2 & He2 & Hp2 & Hsl2).
  assert ((z =? 0) = false) as Hz by (apply Z.eqb_neq; unfold z; lia). rewrite Hz in HU, He2, Hp2.
  set (d0 := if lock_ref nd =? 0 then - len else 0).
  destruct (IH c2 p qp wp (delta + d0) Hok2 H0) as (d & c' & HL & Hok' & Hw' & Hrt' & He' & Hp' & Hsl' & Hbl); [| | | |].
  - destruct H0 as [[q0 w0] H0]. apply (anc_spec _ _ _ _ _ _ _ Hp H0).
    apply (anc_spec _ _ _ _ _ _ _ Hx H0) in Ha. rewrite Hqp at 1. rewrite Ha, take_take. f_equal. lia.
  - done.
  - by eapply (walking_step c c2 G L n0 true x q w nd p qp wp).
  - pose proof (below_parent G (length q) (length qp) x q w Hx ltac:(lia)). lia.
  - exists (d0 + d), c'. split_and!; [|done|done|congruence| | |congruence|etrans; [exact Hbl|by eapply but_locks_insert]].
    + rewrite Z.add_assoc, <- HL. rewrite Hpar. unfold d0.
      destruct (lock_ref nd =? 0) eqn:E.
      * replace (evictable_size_ c + 0 - key_len (key nd)) with (evictable_size_ c - len) in HU by (unfold len; lia).
        replace (protected_size_ c + key_len (key nd) - 0) with (protected_size_ c + len) in HU by (unfold len; lia).
        cbv iota beta zeta. fold len. by rewrite HU.
      * replace (evictable_size_ c + 0 - 0) with (evictable_size_ c) in HU by lia.
        replace (protected_size_ c + key_len (key nd) - key_len (key nd)) with (protected_size_ c) in HU by lia.
        replace (set_sizes c (evictable_size_ c) (protected_size_ c)) with c in HU by by destruct c.
        cbv iota beta zeta. rewrite HU. simpl. by rewrite Z.add_0_r.
    + rewrite He', He2. unfold d0, len. case_match; lia.
    + rewrite Hp', Hp2. unfold d0, len. case_match; lia.
Qed.

Lemma inc_lock_ref_ok c G L n : cfg_disable cfg = false -> cache_ok ps c G -> locks_ok c G L ->
  is_Some (G !! n) ->
  exists d c', inc_lock_ref cfg c (Some n) = Ok (d, c') /\ cache_ok ps c' G /\ locks_ok c' G (n :: L)
    /\ root_node c' = root_node c
    /\ evictable_size_ c' = evictable_size_ c + d /\ protected_size_ c' = protected_size_ c - d
    /\ tree_slots c' G = tree_slots c G /\ but_locks c c'.
Proof.
  intros Hdis Hok [Hlv Hlc] [[q w] Hn]. unfold inc_lock_ref. rewrite Hdis. pose proof (ok_tree _ _ _ Hok) as Ht.
  destruct (inc_lock_loop_ok (S (base.size (store c))) c G L n n q w 0 Hok ltac:(eauto) ltac:(apply anc_self; eauto) Hn)
    as (d & c' & HL & Hok' & Hw & Hrt & He & Hp & Hsl & Hbl).
  - intros i qi wi nd HGi Hr Hi. rewrite (Hlc i nd) by eauto.
    destruct (anc G i n) eqn:Ha; simpl; [|lia].
    apply (anc_spec _ _ _ _ _ _ _ HGi Hn) in Ha.
    assert ((length q <? length qi)%nat = false) as ->; [|simpl; lia].
    apply Nat.ltb_ge. apply (f_equal length) in Ha. rewrite length_take in Ha. lia.
  - pose proof (below_fuel ps c G (length q) Ht). lia.
  - exists d, c'. split_and!; [by rewrite HL|done| |done..]. split; [constructor; eauto|].
    intros i nd [[qi wi] HGi] Hr Hi. rewrite (Hw i qi wi nd HGi Hr Hi), lock_count_cons.
    rewrite Hrt in Hr. assert ((0 <? length qi)%nat = true) as ->.
    { apply Nat.ltb_lt. destruct qi; [|simpl; lia]. by apply (root_path ps Hps c G i wi) in HGi. }
    destruct (anc G i n); simpl; lia.
Qed.

Lemma dec_lock_loop_ok fuel c G L n0 x q w delta :
  cache_ok ps c G -> is_Some (G !! n0) -> anc G x n0 = true -> G !! x = Some (q, w) ->
  walking c G L n0 (length q) false -> (base.size (below G (length q)) <= fuel)%nat ->
  exists d c', dec_lock_loop fuel c (Some x) delta = Ok (delta + d, c') /\ cache_ok ps c' G
    /\ walking c' G L n0 0 false /\ root_node c' = root_node c
    /\ evictable_size_ c' = evictable_size_ c + d /\ protected_size_ c' = protected_size_ c - d
    /\ tree_slots c' G = tree_slots c G /\ but_locks c c'.
Proof.
  revert c x q w delta. induction fuel as [|fuel IH]; intros c x q w delta Hok H0 Ha Hx Hw Hf.
  { pose proof (below_pos G (length q) x q w Hx ltac:(lia)). lia. }
  pose proof (ok_tree _ _ _ Hok) as Ht. cbn [dec_lock_loop].
  destruct (decide (x = root_node c)) as [->|Hr].
  { rewrite decide_True by done. rewrite (ok_root _ _ _ Ht) in Hx. injection Hx as <- <-.
    exists 0, c. rewrite Z.add_0_r. split_and!; (done || lia). }
  rewrite decide_False by congruence. destruct (live_store _ _ _ x Ht ltac:(eauto)) as [nd Hnd].
  rewrite (deref_store _ _ _ Hnd). cbn [res_bind]. change (default 0%nat (Some x)) with x.
  destruct (node_parent ps Hps _ _ _ _ _ Ht Hx Hr) as (p & qp & wp & nd' & E1 & Hpar & Hp & Hq & Hlt & Hqp & _).
  rewrite Hnd in E1. injection E1 as <-.
  pose proof (walking_pos c G L n0 x q w nd Hw Ha Hx Hr Hnd) as Hpos.
  set (z := lock_ref nd - 1). set (len := key_len (key nd)).
  destruct (lock_step ps c G x nd z (fun nd => set_lock_ref (lock_ref nd - 1) nd) Hok ltac:(eauto) Hr Hnd
              ltac:(unfold z; lia) eq_refl) as (c2 & HU & Hok2 & Hst2 & Hrt2 & He2 & Hp2 & Hsl2).
  assert ((lock_ref nd =? 0) = false) as Hnz by (apply Z.eqb_neq; lia). rewrite Hnz in HU, He2, Hp2.
  assert ((z =? 0) = (lock_ref nd =? 1)) as Hz by (unfold z; destruct (Z.eqb_spec (lock_ref nd) 1), (Z.eqb_spec (lock_ref nd - 1) 0); lia).
  rewrite Hz in HU, He2, Hp2.
  set (d0 := if lock_ref nd =? 1 then len else 0).
  destruct (IH c2 p qp wp (delta + d0) Hok2 H0) as (d & c' & HL & Hok' & Hw' & Hrt' & He' & Hp' & Hsl' & Hbl); [| | | |].
  - destruct H0 as [[q0 w0] H0]. apply (anc_spec _ _ _ _ _ _ _ Hp H0).
    apply (anc_spec _ _ _ _ _ _ _ Hx H0) in Ha. rewrite Hqp at 1. rewrite Ha, take_take. f_equal. lia.
  - done.
  - by eapply (walking_step c c2 G L n0 false x q w nd p qp wp).
  - pose proof (below_parent G (length q) (length qp) x q w Hx ltac:(lia)). lia.
  - exists (d0 + d), c'. split_and!; [|done|done|congruence| | |congruence|etrans; [exact Hbl|by eapply but_locks_insert]].
    + rewrite Z.add_assoc, <- HL. unfold d0. destruct (lock_ref nd =? 1) eqn:E.
      * replace (evictable_size_ c + key_len (key nd) - 0) with (evictable_size_ c + len) in HU by (unfold len; lia).
        replace (protected_size_ c + 0 - key_len (key nd)) with (protected_size_ c - len) in HU by (unfold len; lia).
        cbv iota beta zeta. fold len. rewrite HU. cbn [res_bind]. by rewrite Hpar.
      * replace (evictable_size_ c + 0 - 0) with (evictable_size_ c) in HU by lia.
        replace (protected_size_ c + key_len (key nd) - key_len (key nd)) with (protected_size_ c) in HU by lia.
        replace (set_sizes c (evictable_size_ c) (protected_size_ c)) with c in HU by by destruct c.
        cbv iota beta zeta. rewrite HU. cbn [res_bind]. by rewrite Hpar, Z.add_0_r.
    + rewrite He', He2. unfold d0, len. case_match; lia.
    + rewrite Hp', Hp2. unfold d0, len. case_match; lia.
Qed.

Lemma dec_lock_ref_ok c G L n : cfg_disable cfg = false -> cache_ok ps c G -> locks_ok c G (n :: L) ->
  exists d c', dec_lock_ref cfg c (Some n) = Ok (d, c') /\ cache_ok ps c' G /\ locks_ok c' G L
    /\ root_node c' = root_node c
    /\ evictable_size_ c' = evictable_size_ c + d /\ protected_size_ c' = protected_size_ c - d
    /\ tree_slots c' G = tree_slots c G /\ but_locks c c'.
Proof.
  intros Hdis Hok [Hlv Hlc]. inversion Hlv as [|? ? [[q w] Hn] Hlv']; subst.
  unfold dec_lock_ref. rewrite Hdis. pose proof (ok_tree _ _ _ Hok) as Ht.
  destruct (dec_lock_loop_ok (S (base.size (store c))) c G L n n q w 0 Hok ltac:(eauto) ltac:(apply anc_self; eauto) Hn)
    as (d & c' & HL & Hok' & Hw & Hrt & He & Hp & Hsl & Hbl).
  - intros i qi wi nd HGi Hr Hi. rewrite (Hlc i nd), lock_count_cons by eauto.
    destruct (anc G i n) eqn:Ha; simpl; [|lia].
    apply (anc_spec _ _ _ _ _ _ _ HGi Hn) in Ha.
    assert ((length q <? length qi)%nat = false) as ->; [|simpl; lia].
    apply Nat.ltb_ge. apply (f_equal length) in Ha. rewrite length_take in Ha. lia.
  - pose proof (below_fuel ps c G (length q) Ht). lia.
  - exists d, c'. split_and!; [by rewrite HL|done| |done..]. split; [done|].
    intros i nd [[qi wi] HGi] Hr Hi. rewrite (Hw i qi wi nd HGi Hr Hi).
    rewrite Hrt in Hr. assert ((0 <? length qi)%nat = true) as ->.
    { apply Nat.ltb_lt. destruct qi; [|simpl; lia]. by apply (root_path ps Hps c G i wi) in HGi. }
    destruct (anc G i n); simpl; lia.
Qed.

Lemma locks_ok_perm c G L L' : Permutation L L' -> locks_ok c G L -> locks_ok c G L'.
Proof.
  intros HP [Hl Hc]. split; [by rewrite <- HP|]. intros i nd HG Hr Hi. rewrite (Hc i nd HG Hr Hi).
  unfold lock_count. apply zlen_perm. by rewrite HP.
Qed.
End Walks.
