(* ===== verification/RadixEvict.v ===== *)
(** Eviction: [_delete_leaf] removes an unlocked leaf, and [evict] deletes leaves
    in the order of the eviction strategy, returns exactly their KV indices to the
    allocator, and never touches a locked node. *)

From S2P Require Export RadixLock.
From S2P Require Import AllocKernels Allocator.

(** ** Deleting a leaf *)

Section Delete.
Context (ps : Z) (Hps : 1 <= ps) (c : RadixCache) (G : ghost) (Hok : cache_ok ps c G).
Context (x p : nat) (nd pn : TreeNode) (q qp : list unit_) (w wp v : list Z) (ck : pyval).
Context (HG : G !! x = Some (q, w)) (Hr : x <> root_node c) (Hnd : store c !! x = Some nd).
Context (Hleaf : children nd = ∅) (Hlock : lock_ref nd = 0).
Context (Hpar : parent nd = Some p) (Hpn : store c !! p = Some pn) (HGp : G !! p = Some (qp, wp)).
Context (Hck : child_key (key nd) ps = Ok ck) (Hlink : children pn !! ck = Some x).
Context (Hv : value nd = Some v) (Hlen : zlen v = key_len (key nd)).

Let Ht := ok_tree _ _ _ Hok.
Let pn' := set_children (delete ck (children pn)) pn.
Let G' : ghost := delete x G.

Context (c1 : RadixCache).
Context (Hst : store c1 = <[p := pn']> (store c)) (Hrt : root_node c1 = root_node c).
Context (Hcnt : counter c1 = counter c) (He : evictable_size_ c1 = evictable_size_ c - key_len (key nd)).
Context (Hp : protected_size_ c1 = protected_size_ c) (Hlv : evictable_leaves c1 = evictable_leaves c ∖ {[x]}).

Lemma del_p_ne : p <> x.
Proof. apply (root_parent ps c G x nd p Hps Ht); eauto. Qed.

Lemma del_ghost i : i <> x -> G' !! i = G !! i.
Proof. intros. unfold G'. by rewrite lookup_delete_ne by done. Qed.

Lemma del_ghost_live i : is_Some (G' !! i) -> i <> x /\ is_Some (G !! i).
Proof.
  intros [y Hy]. unfold G' in Hy. apply lookup_delete_Some in Hy as [? ?]. split; [done|eauto].
Qed.

Lemma del_frame i y : store c !! i = Some y ->
  exists y', store c1 !! i = Some y' /\ parent y' = parent y /\ key y' = key y /\ value y' = value y
    /\ lock_ref y' = lock_ref y /\ hash_value y' = hash_value y
    /\ last_access_time y' = last_access_time y /\ hit_count y' = hit_count y
    /\ priority y' = priority y /\ creation_time y' = creation_time y
    /\ (i <> p -> y' = y).
Proof.
  intros Hi. rewrite Hst. destruct (decide (i = p)) as [->|Hne].
  - rewrite lookup_insert_eq. rewrite Hpn in Hi. injection Hi as <-. exists pn'. by split_and!.
  - rewrite lookup_insert_ne by done. by exists y.
Qed.

Lemma del_lookup_p : store c1 !! p = Some pn'.
Proof. rewrite Hst. apply lookup_insert_eq. Qed.

Lemma del_lookup_other i : i <> p -> store c1 !! i = store c !! i.
Proof. intros. rewrite Hst. by rewrite lookup_insert_ne. Qed.

(** No node of the tree has [x] as its parent. *)
Lemma del_not_parent i y ck0 ppn : store c !! i = Some y -> parent y = Some x ->
  store c !! x = Some ppn -> children ppn !! ck0 = Some i -> False.
Proof. intros _ _ Hx Hch. rewrite Hnd in Hx. injection Hx as <-. by rewrite Hleaf, lookup_empty in Hch. Qed.

Lemma del_tree_ok : tree_ok ps c1 G'.
Proof.
  pose proof Ht as [Hroot (r & Hrs & Hrest) Hn Hc Hf]. split.
  - rewrite Hrt, del_ghost by done. done.
  - destruct (del_frame _ r Hrs) as (r' & L & _ & E2 & E3 & E4 & E5 & _).
    exists r'. by rewrite Hrt, E2, E3, E4, E5.
  - intros i qi wi HGi Hir. rewrite Hrt in Hir.
    destruct (del_ghost_live i ltac:(eauto)) as [Hix _]. rewrite del_ghost in HGi by done.
    destruct (Hn i qi wi HGi Hir)
      as (y & pi & ppn & qpi & wpi & vi & cki & H1 & H2 & H3 & H4 & H5 & H6 & H7 & H8 & H9 & H10 & H11 & H12 & H13 & H15 & H16).
    assert (pi <> x) as Hpx by (intros ->; exact (del_not_parent i y cki ppn H1 H2 H3 H12)).
    destruct (del_frame i y H1) as (y' & L1 & E1 & E2 & E3 & E4 & E5 & _).
    assert (exists ppn', store c1 !! pi = Some ppn' /\ children ppn' !! cki = Some i) as (ppn' & L3 & F3).
    { destruct (decide (pi = p)) as [->|Hne].
      - rewrite Hpn in H3. injection H3 as <-. exists pn'. split; [apply del_lookup_p|]. simpl.
        rewrite lookup_delete_ne; [done|]. intros <-. congruence.
      - exists ppn. by rewrite del_lookup_other. }
    exists y', pi, ppn', qpi, wpi, vi, cki. unfold hashes_ok in *.
    rewrite E1, E2, E3, E4, E5, del_ghost by done. by split_and!.
  - intros i y' k0 z HGi Hy Hz. destruct (del_ghost_live i HGi) as [Hix HGi'].
    assert (exists y, store c !! i = Some y /\ children y !! k0 = Some z /\ (i = p -> k0 <> ck)) as (y & Hy0 & Hz0 & Hk0).
    { destruct (decide (i = p)) as [->|Hne].
      - rewrite del_lookup_p in Hy. injection Hy as <-. exists pn. simpl in Hz.
        apply lookup_delete_Some in Hz as [? ?]. split_and!; [done|done|]. intros _. congruence.
      - rewrite del_lookup_other in Hy by done. exists y'. by split_and!. }
    destruct (Hc i y k0 z HGi' Hy0 Hz0) as (A1 & A2 & zn & A3 & A4 & A5).
    assert (z <> x) as Hzx.
    { intros ->. rewrite Hnd in A3. injection A3 as <-. rewrite Hpar in A4. injection A4 as <-.
      rewrite Hck in A5. injection A5 as <-. by apply Hk0. }
    split_and!; [by rewrite Hrt|by rewrite del_ghost|].
    destruct (del_frame z zn A3) as (zn' & L & E1 & E2 & _). exists zn'. by rewrite E1, E2.
  - intros i [y Hi]. rewrite Hcnt. apply Hf. destruct (decide (i = p)) as [->|Hne]; [eauto|].
    rewrite del_lookup_other in Hi by done. eauto.
Qed.

Lemma del_nodes : tree_nodes c1 G' = tree_nodes c G ∖ {[x]}.
Proof. unfold tree_nodes, G'. rewrite Hrt, dom_delete_L. clear. set_solver. Qed.

Lemma del_node : x ∈ tree_nodes c G.
Proof. unfold tree_nodes. rewrite elem_of_difference, elem_of_dom, elem_of_singleton. split; [eauto|done]. Qed.

Lemma del_fields i : i ∈ tree_nodes c G ->
  evictable_of c1 i = evictable_of c i /\ protected_of c1 i = protected_of c i /\ slots_of c1 i = slots_of c i.
Proof.
  unfold tree_nodes. rewrite elem_of_difference, elem_of_dom. intros [HGi _].
  destruct (live_store _ _ _ _ Ht HGi) as [y Hy].
  destruct (del_frame i y Hy) as (y' & L & _ & E2 & E3 & E4 & _).
  unfold evictable_of, protected_of, slots_of. by rewrite Hy, L, E2, E3, E4.
Qed.

Lemma del_sizes_ok : sizes_ok c1 G'.
Proof.
  destruct (ok_sizes _ _ _ Hok) as [Hse Hsp]. split.
  - rewrite He, Hse, del_nodes, (gsum_remove (evictable_of c) x) by apply del_node.
    rewrite (gsum_ext (evictable_of c1) (evictable_of c)) by (intros i Hi; apply del_fields; clear -Hi; set_solver).
    unfold evictable_of at 1. rewrite Hnd, Hlock. simpl. lia.
  - rewrite Hp, Hsp, del_nodes, (gsum_remove (protected_of c) x) by apply del_node.
    rewrite (gsum_ext (protected_of c1) (protected_of c)) by (intros i Hi; apply del_fields; clear -Hi; set_solver).
    unfold protected_of at 1. rewrite Hnd, Hlock. simpl. lia.
Qed.

Lemma del_slots : Permutation (tree_slots c G) (v ++ tree_slots c1 G').
Proof.
  unfold tree_slots. rewrite (gcat_remove (slots_of c) x) by apply del_node. rewrite del_nodes.
  rewrite (gcat_ext (slots_of c1) (slots_of c)) by (intros i Hi; apply del_fields; clear -Hi; set_solver).
  unfold slots_of at 1. by rewrite Hnd, Hv.
Qed.

Lemma del_leaves : leaves_ok_except {[p]} c1 G'.
Proof.
  intros i Hi. rewrite Hlv, Hrt. destruct (decide (i = x)) as [->|Hix].
  - split; [clear; set_solver|]. intros (_ & HGi & _). by destruct (del_ghost_live _ HGi).
  - rewrite del_ghost, del_lookup_other by (clear -Hi Hix; set_solver).
    rewrite <- (ok_leaves _ _ _ Hok i). clear -Hix. set_solver.
Qed.

(** No lock is held at the leaf, so all locks remain. *)
Lemma del_locks_ok L : locks_ok c G L -> locks_ok c1 G' L.
Proof.
  intros [Hlive Hc]. rewrite Forall_forall in Hlive.
  assert (forall l, l ∈ L -> l <> x) as HLx.
  { intros l Hin ->. pose proof (Hc x nd ltac:(eauto) Hr Hnd) as Hcx. rewrite Hlock in Hcx.
    unfold lock_count in Hcx. symmetry in Hcx. apply zlen_zero_inv in Hcx.
    assert (x ∈ filter (fun l => anc G x l = true) L) as Hin'.
    { apply list_elem_of_filter. split; [|done]. apply anc_self. eauto. }
    rewrite Hcx in Hin'. by apply not_elem_of_nil in Hin'. }
  split.
  - apply Forall_forall. intros l Hin. rewrite del_ghost by auto. auto.
  - intros i y' HGi Hir Hy. rewrite Hrt in Hir. destruct (del_ghost_live i HGi) as [Hix HGi'].
    destruct (live_store _ _ _ _ Ht HGi') as [y Hy0].
    destruct (del_frame i y Hy0) as (y'' & L' & _ & _ & _ & E4 & _). rewrite Hy in L'. injection L' as <-.
    rewrite E4, (Hc i y HGi' Hir Hy0). unfold lock_count. apply zlen_filter_ext.
    intros l Hin. unfold anc. by rewrite !del_ghost by auto.
Qed.
End Delete.

(** ** Whole pages *)

(** Every cached run of KV indices fills whole pages of the pool, in order. *)
Definition pages_ok (ps : Z) (G : ghost) : Prop :=
  forall k v, cached ps G k v -> exists pages, v = expand_pages ps pages.

Lemma expand_suffix ps A B v : 0 < ps -> expand_pages ps A = expand_pages ps B ++ v ->
  v = expand_pages ps (drop (length B) A).
Proof.
  intros Hps Heq. pose proof (f_equal zlen Heq) as Hl.
  rewrite zlen_app, !zlen_expand_pages in Hl by lia. pose proof (zlen_nonneg v).
  assert (length B <= length A)%nat as Hle by (unfold zlen in *; nia).
  rewrite <- (take_drop (length B) A) in Heq at 1. rewrite expand_pages_app in Heq.
  apply app_inj_1 in Heq as [_ <-]; [done|].
  assert (zlen (expand_pages ps (take (length B) A)) = zlen (expand_pages ps B)) as E; [|unfold zlen in E; lia].
  rewrite !zlen_expand_pages by lia. unfold zlen. rewrite length_take. f_equal. lia.
Qed.

Lemma expand_take ps A m : 0 < ps -> (ps | Z.of_nat m) ->
  take m (expand_pages ps A) = expand_pages ps (take (Z.to_nat (Z.of_nat m / ps)) A).
Proof.
  intros Hps [n Hn]. assert (0 <= n) by nia. rewrite Hn, Z.div_mul by lia.
  rewrite <- (take_drop (Z.to_nat n) A) at 1. rewrite expand_pages_app.
  destruct (decide (Z.to_nat n <= length A)%nat) as [Hle|Hgt].
  - apply take_app_length'.
    assert (zlen (expand_pages ps (take (Z.to_nat n) A)) = n * ps) as E; [|unfold zlen in E; lia].
    rewrite zlen_expand_pages by lia. unfold zlen. rewrite length_take. f_equal. lia.
  - rewrite drop_ge by lia. rewrite app_nil_r. apply take_ge.
    assert (zlen (expand_pages ps (take (Z.to_nat n) A)) <= n * ps) as E; [|unfold zlen in E; lia].
    rewrite zlen_expand_pages by lia. unfold zlen. rewrite length_take. nia.
Qed.

Lemma NoDup_of_expand ps l : 0 < ps -> NoDup (expand_pages ps l) -> NoDup l.
Proof.
  intros Hps. induction l as [|p l IH]; [constructor|]. unfold expand_pages in *. rewrite bind_cons.
  intros Hnd. apply NoDup_app in Hnd as (_ & Hdis & Hnd). constructor; [|by apply IH].
  intros Hin. apply (Hdis (p * ps)).
  - apply list_elem_of_In, in_map_iff. exists 0. split; [lia|]. apply list_elem_of_In, elem_of_zrange. lia.
  - apply list_elem_of_bind. exists p. split; [|done]. apply list_elem_of_In, in_map_iff. exists 0.
    split; [lia|]. apply list_elem_of_In, elem_of_zrange. lia.
Qed.

(** The indices of one node are returned to the pool as whole pages. *)
Lemma node_page_closed ps c G x q w qp wp v :
  1 <= ps -> tree_ok ps c G -> pages_ok ps G -> G !! x = Some (q, w) -> G !! qp = Some (wp.1, wp.2) ->
  w = wp.2 ++ v -> NoDup v -> page_closed ps v.
Proof.
  intros Hps Ht Hp Hx Hpar Hw Hnd.
  destruct (Hp q w (cached_path ps Hps _ _ _ _ _ Ht Hx)) as [A HA].
  destruct (Hp _ _ (cached_path ps Hps _ _ _ _ _ Ht Hpar)) as [B HB].
  rewrite HA, HB in Hw. apply expand_suffix in Hw; [|lia].
  exists (drop (length B) A). split; [|by rewrite Hw].
  apply (NoDup_of_expand ps); [lia|]. by rewrite <- Hw.
Qed.

(** ** [_delete_leaf], as the code runs it *)

Section Evict.
Context (cfg : CacheConfig) (sha256 : list Z -> list Z).
Abbreviation ps := (cfg_page_size cfg).
Abbreviation strat := (cfg_eviction_strategy cfg).
Context (Hps : 1 <= ps).
Context (Hsha : forall l, Forall is_byte (sha256 l) /\ 8 <= zlen (sha256 l)).
Context {A : Type} `{Pool : KVPool A} `{Heap : HeapQ}.

(** Metadata that the eviction strategies read. *)
Definition same_rank (y y' : TreeNode) : Prop :=
  last_access_time y' = last_access_time y /\ hit_count y' = hit_count y
  /\ priority y' = priority y /\ creation_time y' = creation_time y.

Lemma same_rank_entry i y y' : same_rank y y' -> entry_of strat i y' = entry_of strat i y.
Proof. intros (E1 & E2 & E3 & E4). unfold entry_of, get_priority. by rewrite E1, E2, E3, E4. Qed.

Record deleted (c : RadixCache) (G : ghost) (x : nat) (nd : TreeNode) (v : list Z) (p : nat)
    (c' : RadixCache) : Prop := {
  dl_ok : cache_ok ps c' (delete x G);
  dl_locks L : locks_ok c G L -> locks_ok c' (delete x G) L;
  dl_slots : Permutation (tree_slots c G) (v ++ tree_slots c' (delete x G));
  dl_evictable : evictable_size_ c' = evictable_size_ c - zlen v;
  dl_protected : protected_size_ c' = protected_size_ c;
  dl_root : root_node c' = root_node c;
  dl_rank i y : store c !! i = Some y -> exists y', store c' !! i = Some y' /\ same_rank y y';
  dl_leaves i : i ∈ evictable_leaves c' <->
    (i <> x /\ i ∈ evictable_leaves c) \/
    (i = p /\ exists pn, store c' !! p = Some pn /\ children pn = ∅ /\ lock_ref pn = 0);
  dl_parent : exists pn, store c' !! p = Some pn /\ is_Some (G !! p) /\ p <> x /\ p ∉ evictable_leaves c;
  dl_x : store c' !! x = Some nd;
}.

Lemma delete_leaf_spec c G x : cache_ok ps c G -> x ∈ evictable_leaves c ->
  exists nd v p q qp wp c', store c !! x = Some nd /\ value nd = Some v /\ parent nd = Some p
    /\ G !! x = Some (q, wp ++ v) /\ G !! p = Some (qp, wp) /\ x <> root_node c
    /\ delete_leaf cfg c x = Ok c' /\ deleted c G x nd v p c'.
Proof.
  intros Hok Hx. pose proof (ok_tree _ _ _ Hok) as Ht.
  destruct (proj1 (ok_leaves _ _ _ Hok x) Hx) as (Hr & [[q w] HG] & nd & Hnd & Hlock & Hleaf).
  destruct (ok_node _ _ _ Ht _ _ _ HG Hr)
    as (nd0 & p & pn & qp & wp & v & ck & H1 & H2 & H3 & H4 & H5 & H6 & H7 & H8 & H9 & H10 & H11 & H12 & H13 & H15 & H16).
  rewrite Hnd in H1. injection H1 as <-. subst w.
  assert (p <> x) as Hpx by (apply (root_parent ps c G x nd p Hps Ht); eauto).
  set (c1 := set_leaves (set_sizes (upd c p (set_children (delete ck (children pn))))
     (evictable_size_ c - key_len (key nd)) (protected_size_ c)) (evictable_leaves c ∖ {[x]})).
  set (pn' := set_children (delete ck (children pn)) pn).
  assert (store c1 = <[p := pn']> (store c)) as Hst.
  { unfold c1. simpl. by rewrite (alter_insert_Some _ _ _ pn) by done. }
  assert (tree_ok ps c1 (delete x G)) as Ht1
    by (apply (del_tree_ok ps c G Hok x p nd pn ck); done).
  assert (is_Some (delete x G !! p)) as HGp by (rewrite lookup_delete_ne by done; eauto).
  destruct (update_leaf_status_ok ps c1 (delete x G) p ∅ Ht1 HGp) as (Lv & HLv & Hl).
  { intros i Hi. apply (del_leaves ps c G Hok x p pn ck c1); try done. clear -Hi. set_solver. }
  assert (p ∉ evictable_leaves c) as Hpl.
  { intros Hin. apply (ok_leaves _ _ _ Hok) in Hin as (_ & _ & pn0 & E1 & _ & E3).
    rewrite H3 in E1. injection E1 as <-. by rewrite E3, lookup_empty in H12. }
  exists nd, v, p, q, qp, wp, (set_leaves c1 Lv). split_and!; try done.
  { unfold delete_leaf. rewrite (deref_store _ _ _ Hnd). cbn [res_bind]. rewrite H11. cbn [res_bind].
    rewrite H2, (deref_store _ _ _ H3). cbn [res_bind]. cbv zeta.
    change (default 0%nat (Some p)) with p. rewrite H12.
    unfold py_assert. rewrite bool_decide_eq_true_2 by done. cbn [res_bind]. exact HLv. }
  assert (cache_ok ps (set_leaves c1 Lv) (delete x G)) as Hok'.
  { split; [by apply set_leaves_tree|by apply leaves_ok_except_empty|].
    apply set_leaves_sizes, (del_sizes_ok ps c G Hok x p nd pn q (wp ++ v) ck); done. }
  assert (store c1 !! p = Some pn') as Hp1 by (rewrite Hst; apply lookup_insert_eq).
  split; try done.
  - intros L HL. destruct (del_locks_ok ps c G Hok x p nd pn q (wp ++ v) ck HG Hr Hnd Hlock H3 c1 Hst eq_refl L HL). by split.
  - apply (del_slots ps c G Hok x p nd pn q (wp ++ v) v ck); done.
  - simpl. by rewrite H8.
  - intros i y Hi. change (store (set_leaves c1 Lv)) with (store c1). rewrite Hst. destruct (decide (i = p)) as [->|Hne].
    + rewrite H3 in Hi. injection Hi as <-. exists pn'. by rewrite lookup_insert_eq.
    + exists y. by rewrite lookup_insert_ne by done.
  - intros i. rewrite (ok_leaves _ _ _ Hok' i). change (root_node (set_leaves c1 Lv)) with (root_node c).
    change (store (set_leaves c1 Lv)) with (store c1). destruct (decide (i = p)) as [->|Hip].
    + split.
      * intros (_ & _ & y & Hy & ? & ?). right. split; [done|]. by exists y.
      * intros [[_ Hin]|(_ & y & Hy & ? & ?)]; [done|]. split_and!; [|done|by exists y].
        intros ->. destruct (ok_root_node _ _ _ Ht1) as (r & Hrr & _ & _ & Hrl & _).
        change (root_node c1) with (root_node c) in Hrr. rewrite Hy in Hrr. injection Hrr as <-. lia.
    + rewrite Hst, lookup_insert_ne by done. rewrite (ok_leaves _ _ _ Hok i). split.
      * intros (? & HGi & ?). left. destruct (decide (i = x)) as [->|Hix].
        { rewrite lookup_delete_eq in HGi. by destruct HGi. }
        rewrite lookup_delete_ne in HGi by done. by split_and!.
      * intros [(Hix & ? & ? & ?)|[-> _]]; [|done]. rewrite lookup_delete_ne by done. by split_and!.
  - exists pn'. split_and!; [done|eauto|done..].
  - change (store (set_leaves c1 Lv)) with (store c1). by rewrite Hst, lookup_insert_ne by done.
Qed.

(** ** The eviction loop *)

(** The specification: leaves are deleted one after the other, each one a least
    evictable leaf for the strategy at that moment. *)
Inductive evictions : RadixCache -> ghost -> list nat -> RadixCache -> ghost -> Prop :=
  | ev_done c G : evictions c G [] c G
  | ev_step c G x nd c1 c2 xs c3 G3 :
      x ∈ evictable_leaves c -> store c !! x = Some nd ->
      (forall y ndy, y ∈ evictable_leaves c -> store c !! y = Some ndy ->
         lex_lt (entry_of strat y ndy).1 (entry_of strat x nd).1 = false) ->
      delete_leaf cfg c x = Ok c1 -> record_remove_event cfg sha256 c1 x None = Ok c2 ->
      evictions c2 (delete x G) xs c3 G3 -> evictions c G (x :: xs) c3 G3.

(** The heap holds one entry per evictable leaf. *)
Record heap_ok (c : RadixCache) (heap : list entry) : Prop := {
  hp_nodup : NoDup heap.*2;
  hp_leaves i : i ∈ heap.*2 <-> i ∈ evictable_leaves c;
  hp_entry e i : (e, i) ∈ heap -> exists nd, store c !! i = Some nd /\ e = (entry_of strat i nd).1;
}.

Lemma leaf_entries_ok c l : Forall (fun n => is_Some (store c !! n)) l ->
  exists heap, leaf_entries cfg c l = Ok heap /\ heap.*2 = l
    /\ (forall e i, (e, i) ∈ heap -> exists nd, store c !! i = Some nd /\ e = (entry_of strat i nd).1).
Proof.
  induction 1 as [|n l [nd Hnd] _ (heap & IH & Hl & He)]; simpl.
  - exists []. split_and!; [done..|]. intros e i Hin. by apply not_elem_of_nil in Hin.
  - rewrite Hnd. simpl. rewrite IH. simpl. eexists; split_and!; [done|by rewrite <- Hl|].
    intros e i Hin. apply elem_of_cons in Hin as [[= -> ->]|Hin]; [by exists nd|by apply He].
Qed.

Lemma heap_init c G : cache_ok ps c G ->
  exists heap, leaf_entries cfg c (elements (evictable_leaves c)) = Ok heap /\ heap_ok c heap.
Proof.
  intros Hok. destruct (leaf_entries_ok c (elements (evictable_leaves c))) as (heap & HL & Hh & He).
  { apply Forall_forall. intros n Hn%elem_of_elements. apply (ok_leaves _ _ _ Hok) in Hn as (_ & _ & nd & Hnd & _). eauto. }
  exists heap. split; [done|]. split; [|intros i|done]; rewrite Hh; [apply NoDup_elements|apply elem_of_elements].
Qed.

Lemma heap_ok_rank c c' heap : heap_ok c heap -> evictable_leaves c' = evictable_leaves c ->
  (forall i y, store c !! i = Some y -> exists y', store c' !! i = Some y' /\ same_rank y y') -> heap_ok c' heap.
Proof.
  intros [H1 H2 H3] Hl Hs. split; [done|by rewrite Hl|]. intros e i Hin.
  destruct (H3 e i Hin) as (nd & Hnd & ->). destruct (Hs i nd Hnd) as (nd' & Hnd' & Hr).
  exists nd'. split; [done|]. by rewrite (same_rank_entry _ _ _ Hr).
Qed.

(** Popping a least entry and pushing the parent when it became a leaf. *)
Lemma heap_step c G x nd v p c1 pn e heap heap' :
  heap_ok c heap -> heappop heap = Some ((e, x), heap') -> deleted c G x nd v p c1 ->
  store c1 !! p = Some pn ->
  heap_ok c1 (if bool_decide (children pn = ∅) && (lock_ref pn =? 0)
              then entry_of strat p pn :: heap' else heap').
Proof.
  intros [Hnd Hlv Hen] Hpop Hd Hp. pose proof (heappop_perm _ _ _ Hpop) as HP.
  assert (Permutation heap.*2 (x :: heap'.*2)) as HP2 by (by rewrite HP).
  rewrite HP2 in Hnd. apply NoDup_cons in Hnd as [Hx Hnd].
  assert (forall i, i ∈ heap'.*2 <-> i <> x /\ i ∈ evictable_leaves c) as Hin.
  { intros i. rewrite <- Hlv, HP2, elem_of_cons. split.
    - intros H. split; [by intros ->|by right].
    - intros [? [->|?]]; done. }
  assert (forall e i, (e, i) ∈ heap' -> exists nd, store c1 !! i = Some nd /\ e = (entry_of strat i nd).1) as Hen'.
  { intros e0 i Hi. destruct (Hen e0 i) as (y & Hy & ->); [rewrite HP; by right|].
    destruct (dl_rank _ _ _ _ _ _ _ Hd i y Hy) as (y' & Hy' & Hr). exists y'.
    split; [done|]. by rewrite (same_rank_entry _ _ _ Hr). }
  destruct (dl_parent _ _ _ _ _ _ _ Hd) as (_ & _ & _ & Hpx & Hpl).
  pose proof (dl_leaves _ _ _ _ _ _ _ Hd) as Hdl.
  destruct (bool_decide (children pn = ∅) && (lock_ref pn =? 0)) eqn:Hb.
  - apply andb_true_iff in Hb as [Hb1%bool_decide_eq_true Hb2%Z.eqb_eq]. split; simpl.
    + constructor; [|done]. rewrite Hin. by intros [_ ?].
    + intros i. rewrite elem_of_cons, Hin, Hdl. split.
      * intros [->|H]; [right; split; [done|by exists pn]|by left].
      * intros [H|[-> _]]; [by right|by left].
    + intros e0 i Hi. apply elem_of_cons in Hi as [Hi|Hi]; [|by apply Hen'].
      unfold entry_of in Hi. injection Hi as -> ->. by exists pn.
  - split; [done| |done]. intros i. rewrite Hin, Hdl. split; [by left|].
    intros [H|(-> & pn0 & Hpn0 & E1 & E2)]; [done|]. rewrite Hp in Hpn0. injection Hpn0 as <-.
    rewrite E1, E2, bool_decide_eq_true_2 in Hb by done. done.
Qed.

Lemma pages_ok_delete G x : pages_ok ps G -> pages_ok ps (delete x G).
Proof.
  intros Hp k v (n & q & w & Hn & H). apply lookup_delete_Some in Hn as [_ Hn]. apply (Hp k v). by exists n, q, w.
Qed.

Record evicted_to (c : RadixCache) (G : ghost) (a : A) (L : list nat) (rest : list Z)
    (c' : RadixCache) (G' : ghost) (a' : A) (n : Z) : Prop := {
  et_ok : cache_ok ps c' G';
  et_locks : locks_ok c' G' L;
  et_pages : pages_ok ps G';
  et_ghost : G' ⊆ G;
  et_owns : kv_owns a' (tree_slots c' G' ++ rest);
  et_available : kv_available a' = kv_available a + n;
  et_psize : kv_page_size a' = ps;
  et_evictable : evictable_size_ c' = evictable_size_ c - n;
  et_protected : protected_size_ c' = protected_size_ c;
  et_root : root_node c' = root_node c;
  et_nonneg : 0 <= n;
}.

Lemma evict_loop_ok fuel c G a heap num got L rest :
  cache_ok ps c G -> locks_ok c G L -> pages_ok ps G -> heap_ok c heap ->
  kv_owns a (tree_slots c G ++ rest) -> kv_page_size a = ps ->
  (base.size (dom G) < fuel)%nat ->
  exists n c' G' a' xs, evict_loop cfg sha256 fuel c a heap num got = Ok (got + n, c', a')
    /\ evicted_to c G a L rest c' G' a' n /\ evictions c G xs c' G'
    /\ (num <= got + n \/ evictable_leaves c' = ∅).
Proof.
  revert c G a heap got. induction fuel as [|fuel IH]; intros c G a heap got Hok HL Hpg Hh Hown Hsz Hf; [lia|].
  assert (exists n c' G' a' xs, Ok (got, c, a) = Ok (got + n, c', a')
    /\ evicted_to c G a L rest c' G' a' n /\ evictions c G xs c' G'
    /\ n = 0 /\ c' = c) as (n0 & c0 & G0 & a0 & xs0 & Hstop & Hst1 & Hst2 & Hn0 & Hc0).
  { exists 0, c, G, a, []. rewrite Z.add_0_r. split_and!; [done| |constructor|done|done].
    split; (done || lia). }
  cbn [evict_loop]. destruct (Z.ltb_spec got num) as [Hlt|Hge].
  2:{ exists n0, c0, G0, a0, xs0. split_and!; [done..|]. left. lia. }
  destruct (heappop heap) as [[[e x] heap']|] eqn:Hpop.
  2:{ exists n0, c0, G0, a0, xs0. split_and!; [done..|]. right. apply heappop_nil in Hpop as ->.
      subst c0. apply set_eq. intros i. rewrite <- (hp_leaves _ _ Hh). simpl. clear. set_solver. }
  pose proof (heappop_perm _ _ _ Hpop) as HP.
  assert (x ∈ evictable_leaves c) as Hx.
  { apply (hp_leaves _ _ Hh). rewrite HP. by left. }
  destruct (delete_leaf_spec c G x Hok Hx)
    as (nd & v & p & q & qp & wp & c1 & Hnd & Hv & Hpar & HGx & HGp & Hr & Hdel & Hd).
  rewrite (deref_store _ _ _ Hnd). cbn [res_bind]. rewrite Hv.
  pose proof (dl_slots _ _ _ _ _ _ _ Hd) as Hslots.
  assert (kv_owns a (v ++ tree_slots c1 (delete x G) ++ rest)) as Hown1.
  { eapply kv_owns_perm; [|exact Hown]. rewrite app_assoc. by rewrite Hslots. }
  assert (page_closed (kv_page_size a) v) as Hpc.
  { rewrite Hsz. apply (node_page_closed ps c G x q (wp ++ v) p (qp, wp) v Hps (ok_tree _ _ _ Hok) Hpg HGx HGp eq_refl).
    pose proof (kv_owns_NoDup _ _ Hown1) as Hn. by apply NoDup_app in Hn as (? & _). }
  destruct (kv_free_closed a v _ ltac:(rewrite Hsz; lia) Hpc Hown1) as (a1 & Hfree & Hown2 & Hps1 & Hav1).
  rewrite Hfree. cbn [res_bind]. cbv zeta. rewrite Hdel. cbn [res_bind].
  destruct (dl_parent _ _ _ _ _ _ _ Hd) as (pn & Hpn & HGp1 & Hpx & _).
  rewrite Hpar, (deref_store _ _ _ Hpn). cbn [res_bind]. change (default 0%nat (Some p)) with p.
  pose proof (heap_step c G x nd v p c1 pn e heap heap' Hh Hpop Hd Hpn) as Hh1.
  pose proof (dl_ok _ _ _ _ _ _ _ Hd) as Hok1.
  pose proof (live_hashable cfg Hps c G x nd (ok_tree _ _ _ Hok) ltac:(eauto) Hr Hnd) as Hhb.
  assert (hashable cfg c1 (delete x G) x nd) as Hhb1.
  { destruct Hhb as [_ B2 B3 B4 _]. split; try done; [by apply Hd|]. exists p, pn. split_and!; try done.
    eapply (live_hash cfg c1 (delete x G) p pn (ok_tree _ _ _ Hok1)); [|done]. by rewrite lookup_delete_ne. }
  assert (x <> root_node c1) as Hr1 by (by rewrite (dl_root _ _ _ _ _ _ _ Hd)).
  destruct (record_remove_event_ok cfg sha256 Hps Hsha c1 (delete x G) x nd None Hok1 Hr1 Hhb1)
    as (c2 & Hrec & (Hok2 & Hk2 & _ & Hlv2 & Hfr2 & _)).
  rewrite Hrec. cbn [res_bind].
  assert (heap_ok c2 (if bool_decide (children pn = ∅) && (lock_ref pn =? 0)
              then entry_of strat p pn :: heap' else heap')) as Hh2.
  { eapply heap_ok_rank; [exact Hh1|done|]. intros i y Hy.
    destruct (Hfr2 i y Hy) as (y' & Hy' & _ & _ & _ & _ & _ & E1 & E2 & E3 & E4). by exists y'. }
  destruct (IH c2 (delete x G) a1 _ (got + zlen v) Hok2
              (keeps_locks _ _ _ _ _ Hk2 L (dl_locks _ _ _ _ _ _ _ Hd L HL)) (pages_ok_delete G x Hpg) Hh2)
    as (n & c' & G' & a' & xs & Hrun & Het & Hev & Hend).
  { eapply kv_owns_perm; [|exact Hown2]. by rewrite (keeps_slots _ _ _ _ _ Hk2). }
  { congruence. }
  { rewrite dom_delete_L. assert (x ∈ dom G) as Hxd by (apply elem_of_dom; eauto).
    rewrite size_difference by (clear -Hxd; set_solver). rewrite size_singleton.
    assert (0 < base.size (dom G))%nat; [|lia].
    destruct (base.size (dom G)) eqn:E; [|lia]. apply size_empty_inv in E. clear -E Hxd. set_solver. }
  exists (zlen v + n), c', G', a', (x :: xs). split_and!.
  - by rewrite Z.add_assoc.
  - destruct Het. split; try done.
    + etrans; [exact et_ghost0|]. apply delete_subseteq.
    + rewrite et_available0, Hav1. lia.
    + rewrite et_evictable0, (keeps_evictable _ _ _ _ _ Hk2), (dl_evictable _ _ _ _ _ _ _ Hd). lia.
    + by rewrite et_protected0, (keeps_protected _ _ _ _ _ Hk2), (dl_protected _ _ _ _ _ _ _ Hd).
    + by rewrite et_root0, (keeps_root _ _ _ _ _ Hk2), (dl_root _ _ _ _ _ _ _ Hd).
    + pose proof (zlen_nonneg v). lia.
  - eapply ev_step; [exact Hx|exact Hnd| |exact Hdel|exact Hrec|exact Hev].
    intros y ndy Hy Hndy. apply (hp_leaves _ _ Hh) in Hy. apply list_elem_of_fmap in Hy as ([ey y'] & Ey & Hin).
    simpl in Ey. subst y'. destruct (hp_entry _ _ Hh ey y Hin) as (nd1 & Hnd1 & ->).
    rewrite Hndy in Hnd1. injection Hnd1 as <-.
    destruct (hp_entry _ _ Hh e x) as (nd2 & Hnd2 & ->); [rewrite HP; by left|].
    rewrite Hnd in Hnd2. injection Hnd2 as <-.
    by apply (heappop_least heap ((entry_of strat x nd).1, x) heap' ((entry_of strat y ndy).1, y)).
  - destruct Hend; [left; lia|by right].
Qed.

(** ** No evictable leaf, nothing evictable *)

Lemma lock_count_anc G L i j : anc G i j = true -> lock_count G L j <= lock_count G L i.
Proof.
  intros Hij. unfold lock_count. induction L as [|l L IH]; [done|].
  rewrite !filter_cons. destruct (anc G j l) eqn:Hj.
  - assert (anc G i l = true) as ->.
    { unfold anc in *. destruct (G !! i) as [[qi ?]|]; [|done]. destruct (G !! j) as [[qj ?]|]; [|done].
      destruct (G !! l) as [[ql ?]|]; [|done]. apply bool_decide_eq_true in Hij, Hj.
      apply bool_decide_eq_true. rewrite Hij at 1. rewrite Hj, take_take. f_equal.
      apply (f_equal length) in Hij. rewrite length_take in Hij. lia. }
    rewrite decide_True, decide_True, !zlen_cons by done. lia.
  - rewrite (decide_False (P := false = true)) by done. case_decide; [rewrite zlen_cons|]; lia.
Qed.

Lemma unlocked_has_leaf c G L n nd : cache_ok ps c G -> locks_ok c G L -> is_Some (G !! n) ->
  n <> root_node c -> store c !! n = Some nd -> lock_ref nd = 0 -> exists x, x ∈ evictable_leaves c.
Proof.
  intros Hok HL. pose proof (ok_tree _ _ _ Hok) as Ht.
  assert (forall k n nd q w, G !! n = Some (q, w) -> (base.size (dom G) - base.size (below G (length q)) < k)%nat ->
    n <> root_node c -> store c !! n = Some nd -> lock_ref nd = 0 -> exists x, x ∈ evictable_leaves c) as Hind.
  { induction k as [|k IH]; intros n0 nd0 q w HG Hk Hr Hs Hlock; [lia|].
    destruct (decide (children nd0 = ∅)) as [He|Hne].
    { exists n0. apply (ok_leaves _ _ _ Hok). split_and!; [done|eauto|]. by exists nd0. }
    apply map_choose in Hne as (ck & ch & Hch).
    destruct (ok_child _ _ _ Ht n0 nd0 ck ch ltac:(eauto) Hs Hch) as (Hcr & [[qc wc] HGc] & chn & Hchn & Hcp & _).
    destruct (node_parent ps Hps _ _ _ _ _ Ht HGc Hcr) as (p & qp & wp & nd' & E1 & E2 & E3 & E4 & E5 & E6 & _).
    rewrite Hchn in E1. injection E1 as <-. rewrite Hcp in E2. injection E2 as <-.
    rewrite HG in E3. injection E3 as <- <-.
    apply (IH ch chn qc wc HGc); [|done|done|].
    - pose proof (below_parent G (length qc) (length q) ch qc wc HGc ltac:(lia)).
      assert (base.size (below G (length qc)) <= base.size (dom G))%nat; [|lia].
      apply subseteq_size. intros i Hi. apply elem_of_below in Hi as (? & ? & ? & _). apply elem_of_dom. eauto.
    - pose proof (lk_count _ _ _ HL ch chn ltac:(eauto) Hcr Hchn) as Hlc.
      pose proof (lk_count _ _ _ HL n0 nd0 ltac:(eauto) Hr Hs) as Hl0.
      pose proof (lock_count_anc G L n0 ch) as Hmono. rewrite (anc_spec _ _ _ _ _ _ _ HG HGc) in Hmono.
      specialize (Hmono E6). pose proof (lock_count_nonneg G L ch). lia. }
  intros [[q w] HG] Hr Hs Hlk. by apply (Hind (S (base.size (dom G))) n nd q w HG ltac:(lia) Hr Hs Hlk).
Qed.

Lemma no_leaves_no_evictable c G L : cache_ok ps c G -> locks_ok c G L -> evictable_leaves c = ∅ ->
  evictable_size_ c = 0.
Proof.
  intros Hok HL He. rewrite (ok_evictable _ _ (ok_sizes _ _ _ Hok)).
  rewrite (gsum_ext _ (fun _ => 0)).
  - unfold gsum. induction (elements (tree_nodes c G)); [done|]. unfold zsum in *. simpl. lia.
  - intros n Hn. unfold tree_nodes in Hn. rewrite elem_of_difference, elem_of_dom, elem_of_singleton in Hn.
    destruct Hn as [HG Hr]. destruct (live_store _ _ _ n (ok_tree _ _ _ Hok) HG) as [nd Hnd].
    unfold evictable_of. rewrite Hnd. destruct (Z.eqb_spec (lock_ref nd) 0) as [H0|]; [|done].
    destruct (unlocked_has_leaf c G L n nd Hok HL HG Hr Hnd H0) as [x Hx]. rewrite He in Hx.
    by apply not_elem_of_empty in Hx.
Qed.

Lemma evict_ok c G a num L rest :
  cfg_disable cfg = false -> cache_ok ps c G -> locks_ok c G L -> pages_ok ps G ->
  kv_owns a (tree_slots c G ++ rest) -> kv_page_size a = ps ->
  exists n c' G' a' xs, evict cfg sha256 c a num = Ok (n, c', a')
    /\ evicted_to c G a L rest c' G' a' n /\ evictions c G xs c' G'
    /\ (num <= n \/ evictable_size_ c' = 0).
Proof.
  intros Hdis Hok HL Hpg Hown Hsz. unfold evict. rewrite Hdis.
  destruct (heap_init c G Hok) as (heap & -> & Hh). cbn [res_bind].
  destruct (evict_loop_ok (S (base.size (store c))) c G a heap num 0 L rest Hok HL Hpg Hh Hown Hsz)
    as (n & c' & G' & a' & xs & -> & Het & Hev & Hend).
  { apply Nat.lt_succ_r. rewrite <- (size_dom (store c)). apply subseteq_size. intros i Hi.
    apply elem_of_dom. apply elem_of_dom in Hi. by eapply live_store; [apply Hok|]. }
  exists n, c', G', a', xs. split_and!; [done..|]. destruct Hend as [?|Hemp]; [by left|right].
  destruct Het. by eapply no_leaves_no_evictable.
Qed.
End Evict.
