(* ===== verification/RadixReq.v ===== *)
(** Requests and the cache: when a request finishes or is chunked,
    [cache_finished_req] and [cache_unfinished_req] hand every page the request
    holds either to the tree or back to the allocator, exactly once, and move its
    lock. *)

From S2P Require Export RadixEvict.
From S2P Require Import AllocKernels Allocator.

(** ** Runs of pages *)

Definition prange (pages : list Z) (i j : Z) : list Z := take (Z.to_nat (j - i)) (drop (Z.to_nat i) pages).

Lemma expand_drop ps A m : 0 < ps -> (ps | Z.of_nat m) ->
  drop m (expand_pages ps A) = expand_pages ps (drop (Z.to_nat (Z.of_nat m / ps)) A).
Proof.
  intros Hps Hm. pose proof (take_drop m (expand_pages ps A)) as Heq.
  rewrite (expand_take ps A m Hps Hm) in Heq. symmetry in Heq.
  destruct (decide (Z.to_nat (Z.of_nat m / ps) <= length A)%nat) as [Hle|Hgt].
  - apply expand_suffix in Heq; [|done]. rewrite Heq. f_equal. rewrite length_take. f_equal. lia.
  - rewrite (drop_ge A) by lia. destruct Hm as [n Hn]. rewrite Hn, Z.div_mul in Hgt by lia.
    rewrite drop_ge; [done|].
    assert (zlen (expand_pages ps A) <= Z.of_nat m) as E; [|unfold zlen in E; lia].
    rewrite zlen_expand_pages by lia. unfold zlen. nia.
Qed.

Lemma drop_split_pages ps pages i j : 0 < ps -> 0 <= i <= j ->
  expand_pages ps (drop (Z.to_nat i) pages)
  = expand_pages ps (prange pages i j) ++ expand_pages ps (drop (Z.to_nat j) pages).
Proof.
  intros Hps Hij. rewrite <- expand_pages_app. f_equal. unfold prange.
  rewrite <- (take_drop (Z.to_nat (j - i)) (drop (Z.to_nat i) pages)) at 1. f_equal.
  rewrite drop_drop. f_equal. lia.
Qed.

(** The pages of a run that ends inside (or at the end of) its last page. *)
Lemma expand_take_pages ps B m p : 0 < ps -> (zlen B - 1) * ps < Z.of_nat m <= zlen B * ps ->
  p ∈ B <-> p ∈ map (fun s => s / ps) (take m (expand_pages ps B)).
Proof.
  intros Hps. revert m. induction B as [|b B IH]; intros m Hm.
  { rewrite (zlen_nil (A := Z)) in Hm. assert (m = 0%nat) as -> by lia. simpl. done. }
  assert (forall o, 0 <= o < ps -> (b * ps + o) / ps = b) as Hdiv.
  { intros o Ho. rewrite Z.div_add_l, Z.div_small by lia. lia. }
  set (chunk := map (fun o => b * ps + o) (zrange 0 ps)).
  assert (length chunk = Z.to_nat ps) as Hcl.
  { unfold chunk. rewrite length_map. pose proof (zlen_zrange 0 ps ltac:(lia)). unfold zlen in *. lia. }
  assert (Hin : forall k, (0 < k)%nat -> p ∈ map (fun s => s / ps) (take k chunk) <-> p = b).
  { intros k Hk. unfold chunk. rewrite firstn_map, map_map. split.
    - intros H. apply list_elem_of_In, in_map_iff in H as (o & <- & Ho).
      apply list_elem_of_In, elem_of_take in Ho as (i & Hi & _).
      apply list_elem_of_lookup_2, elem_of_zrange in Hi. by apply Hdiv.
    - intros ->. apply list_elem_of_In, in_map_iff. exists 0. split; [apply Hdiv; lia|].
      apply list_elem_of_In, elem_of_take. exists 0%nat. split; [|done].
      unfold zrange. rewrite lookup_seqZ_lt by lia. done. }
  rewrite zlen_cons in Hm. change (expand_pages ps (b :: B)) with (chunk ++ expand_pages ps B).
  rewrite elem_of_cons. destruct B as [|b' B].
  - rewrite (zlen_nil (A := Z)) in Hm. change (expand_pages ps []) with (@nil Z). rewrite app_nil_r, Hin by lia.
    rewrite elem_of_nil. naive_solver.
  - rewrite zlen_cons in *. pose proof (zlen_nonneg B).
    rewrite take_app_ge by (rewrite Hcl; nia). rewrite map_app, elem_of_app.
    rewrite <- (IH (m - length chunk)%nat) by (rewrite Hcl; nia).
    rewrite <- (take_ge chunk (length chunk)) at 1 by lia. rewrite Hin by lia. done.
Qed.

Section Pages.
Context {A : Type} `{Pool : KVPool A} (ps : Z) (Hps : 1 <= ps).
Context (kv pages : list Z).
(** [pages] are the pages of the slots [kv], the last one possibly in part. *)
Context (Hkv : kv = take (length kv) (expand_pages ps pages)).

Lemma slice_pages lo hi : (ps | lo) -> (ps | hi) -> 0 <= lo <= hi -> hi <= zlen kv ->
  py_slice kv lo hi = expand_pages ps (prange pages (lo / ps) (hi / ps)).
Proof.
  intros Hlo Hhi Hl Hh. rewrite py_slice_nonneg by lia. rewrite Hkv, take_drop_commute, take_take.
  unfold zlen in Hh. replace ((Z.to_nat lo + Z.to_nat (hi - lo)) `min` length kv)%nat with (Z.to_nat hi) by lia.
  rewrite expand_take by (lia || by rewrite Z2Nat.id by lia).
  rewrite expand_drop by (lia || by rewrite Z2Nat.id by lia). rewrite !Z2Nat.id by lia.
  unfold prange. rewrite take_drop_commute. do 3 f_equal.
  pose proof (Z.div_pos lo ps ltac:(lia) ltac:(lia)). pose proof (Z.div_le_mono lo hi ps ltac:(lia) ltac:(lia)). lia.
Qed.

Lemma free_slice a lo hi X : kv_page_size a = ps ->
  (ps | lo) -> (ps | hi) -> 0 <= lo <= hi -> hi <= zlen kv ->
  kv_owns a (expand_pages ps (prange pages (lo / ps) (hi / ps)) ++ X) ->
  exists a', kv_free a (py_slice kv lo hi) = Ok a' /\ kv_owns a' X /\ kv_page_size a' = ps.
Proof.
  intros Hsz Hlo Hhi Hl Hh Ho. rewrite slice_pages by done.
  pose proof (kv_owns_NoDup _ _ Ho) as Hnd. apply NoDup_app in Hnd as (Hnd & _).
  apply NoDup_of_expand in Hnd; [|lia].
  destruct (kv_free_closed a (expand_pages ps (prange pages (lo / ps) (hi / ps))) X)
    as (a' & H1 & H2 & H3 & _); [lia| |done|].
  - rewrite Hsz. by eexists.
  - exists a'. split_and!; [done..|congruence].
Qed.

Context (Hcount : (zlen pages - 1) * ps < zlen kv <= zlen pages * ps).

Lemma tail_pages lo : (ps | lo) -> 0 <= lo <= zlen kv ->
  let B := drop (Z.to_nat (lo / ps)) pages in
  py_from kv lo = take (length kv - Z.to_nat lo) (expand_pages ps B)
  /\ (zlen B - 1) * ps < Z.of_nat (length kv - Z.to_nat lo) <= zlen B * ps.
Proof.
  intros [x ->] Hl. cbn zeta. rewrite Z.div_mul by lia. unfold zlen in *. split.
  - rewrite py_from_nonneg by lia. rewrite Hkv at 1. rewrite <- (Nat.add_0_r (Z.to_nat (x * ps))) at 1.
    replace (length kv) with (Z.to_nat (x * ps) + (length kv - Z.to_nat (x * ps)))%nat at 1 by lia.
    rewrite Nat.add_0_r, <- take_drop_commute.
    rewrite expand_drop by (lia || (rewrite Z2Nat.id by lia; by exists x)).
    rewrite Z2Nat.id, Z.div_mul by lia. done.
  - rewrite length_drop. assert (0 <= x) by nia. assert (x <= Z.of_nat (length pages)) by nia.
    rewrite !Nat2Z.inj_sub, !Z2Nat.id by lia. nia.
Qed.

Lemma free_tail a lo X : kv_page_size a = ps -> (ps | lo) -> 0 <= lo <= zlen kv ->
  kv_owns a (expand_pages ps (drop (Z.to_nat (lo / ps)) pages) ++ X) ->
  exists a', kv_free a (py_from kv lo) = Ok a' /\ kv_owns a' X /\ kv_page_size a' = ps.
Proof.
  intros Hsz Hlo Hl Ho. destruct (tail_pages lo Hlo Hl) as [Ht Hc]. rewrite Ht.
  set (B := drop (Z.to_nat (lo / ps)) pages) in *.
  pose proof (kv_owns_NoDup _ _ Ho) as Hnd. apply NoDup_app in Hnd as (Hnd & _).
  destruct (kv_free_ok a (take (length kv - Z.to_nat lo) (expand_pages ps B)) B X) as (a' & H1 & H2 & H3 & _).
  - rewrite Hsz. split_and!.
    + apply (NoDup_of_expand ps); [lia|done].
    + intros p. apply expand_take_pages; [lia|done].
    + intros _. rewrite <- (take_drop (length kv - Z.to_nat lo) (expand_pages ps B)) in Hnd.
      by apply NoDup_app in Hnd as (? & _).
  - by rewrite Hsz.
  - exists a'. split_and!; [done..|congruence].
Qed.
End Pages.

(** ** Requests *)

Lemma pages_ok_inserted cfg c G K V n c' G' pv : 1 <= cfg_page_size cfg ->
  pages_ok (cfg_page_size cfg) G -> V = expand_pages (cfg_page_size cfg) pv ->
  inserted cfg c G K V n c' G' -> pages_ok (cfg_page_size cfg) G'.
Proof.
  intros Hps Hpg HV Hins k v Hc. destruct (ins_hit _ _ _ _ _ _ _ _ Hins) as (w & Hw & Hiff).
  destruct (proj1 (Hiff k v) Hc) as [Hc'|(Hd & _ & _ & Hv)]; [by apply (Hpg k v)|].
  destruct (Hpg _ _ Hw) as [pw Hpw]. pose proof (ins_range _ _ _ _ _ _ _ _ Hins).
  pose proof (ins_page _ _ _ _ _ _ _ _ Hins). rewrite Hv, HV, Hpw, expand_drop by (lia || by rewrite Z2Nat.id by lia).
  rewrite <- expand_pages_app, expand_take by (lia || done). eauto.
Qed.

Lemma pages_ok_keeps ps c G c' G' : pages_ok ps G -> keeps ps c G c' G' -> pages_ok ps G'.
Proof. intros Hpg Hk k v Hc. apply (keeps_cached _ _ _ _ _ Hk) in Hc. by apply (Hpg k v). Qed.

Section Requests.
Context (cfg : CacheConfig) (monotonic : nat -> Z) (sha256 : list Z -> list Z).
Abbreviation ps := (cfg_page_size cfg).
Context (Hps : 1 <= ps).
Context (Hsha : forall l, Forall is_byte (sha256 l) /\ 8 <= zlen (sha256 l)).
Context {A : Type} `{Pool : KVPool A}.
Context (Hdis : cfg_disable cfg = false).

(** The key of the tokens [toks] of a request. *)
Definition req_key (req : Req) (toks : list Z) : RadixKey :=
  page_aligned (MkRadixKey toks (req_extra_key req) (cfg_is_eagle cfg)) ps.

Lemma page_aligned_idem k : units (page_aligned (page_aligned k ps) ps) = units (page_aligned k ps)
  /\ key_len (page_aligned (page_aligned k ps) ps) = key_len (page_aligned k ps).
Proof.
  assert (key_len (page_aligned (page_aligned k ps) ps) = key_len (page_aligned k ps)) as Hl.
  { rewrite !page_aligned_len by done. rewrite Z.div_mul by lia. done. }
  split; [|done]. rewrite page_aligned_units by done. apply take_ge.
  rewrite <- page_aligned_len, Hl by done. pose proof (zlen_units (page_aligned k ps)). unfold zlen in *. lia.
Qed.

Lemma page_aligned_bigram k : is_bigram (page_aligned k ps) = is_bigram k.
Proof. unfold page_aligned. case_match; [done|apply key_slice_bigram]. Qed.

Lemma norm_req_key req toks : units (norm_key cfg (req_key req toks)) = units (req_key req toks)
  /\ key_len (norm_key cfg (req_key req toks)) = key_len (req_key req toks).
Proof.
  unfold norm_key, maybe_to_bigram_view, req_key. rewrite page_aligned_bigram. simpl.
  rewrite andb_negb_r. simpl. apply page_aligned_idem.
Qed.

Lemma req_key_len req toks : 0 <= key_len (req_key req toks) <= zlen toks.
Proof.
  split; [apply key_len_nonneg|]. unfold req_key. rewrite page_aligned_len by done.
  pose proof (key_len_tokens (MkRadixKey toks (req_extra_key req) (cfg_is_eagle cfg))) as H. simpl in H.
  pose proof (Z.mul_div_le (key_len (MkRadixKey toks (req_extra_key req) (cfg_is_eagle cfg))) ps). lia.
Qed.

(** A request between two steps of the scheduler: its row of the table holds the
    slots [kv] of its tokens, which fill [pages] (the last one possibly in part);
    its locked node [n] has the path [q], the protected prefix of its key. *)
Record req_holds (G : ghost) (pool : ReqToTokenPool) (req : Req) (toks kv pages : list Z)
    (n : nat) (q : list unit_) : Prop := {
  rh_row : read_row pool (req_pool_idx req) (zlen toks) = Ok kv;
  rh_len : zlen kv = zlen toks;
  rh_kv : kv = take (length kv) (expand_pages ps pages);
  rh_count : (zlen pages - 1) * ps < zlen kv <= zlen pages * ps;
  rh_node : last_node req = Some n;
  rh_live : G !! n = Some (q, take (length q) kv);
  rh_protected : cache_protected_len req = zlen q;
  rh_prefix : q = take (length q) (units (req_key req toks));
  rh_le : zlen q <= key_len (req_key req toks);
  rh_tokens : tokens32 (req_key req toks);
}.

(** The pages that belong to the request and not to the tree. *)
Definition req_pages (pages : list Z) (q : list unit_) : list Z :=
  expand_pages ps (drop (Z.to_nat (zlen q / ps)) pages).

(** Inserting the key of a request: the duplicates are freed, the tree takes the
    rest of the aligned part. *)
Lemma req_insert_ok c G a pool req toks kv pages n q L rest prio chunked :
  cache_ok ps c G -> locks_ok c G L -> pages_ok ps G ->
  kv_owns a (tree_slots c G ++ req_pages pages q ++ rest) -> kv_page_size a = ps ->
  req_holds G pool req toks kv pages n q ->
  let rk := req_key req toks in
  exists m c1 G1 a1,
    insert cfg monotonic sha256 c rk (Some (py_upto kv (key_len rk))) prio chunked = Ok (m, c1)
    /\ kv_free a (py_slice kv (cache_protected_len req) m) = Ok a1
    /\ cache_ok ps c1 G1 /\ locks_ok c1 G1 L /\ pages_ok ps G1 /\ kv_page_size a1 = ps
    /\ inserted cfg c G (units rk) (py_upto kv (key_len rk)) m c1 G1
    /\ kv_owns a1 (tree_slots c1 G1 ++ expand_pages ps (drop (Z.to_nat (key_len rk / ps)) pages) ++ rest).
Proof.
  intros Hok HL Hpg Hown Hsz Hrh. cbn zeta. destruct Hrh. set (rk := req_key req toks) in *.
  pose proof (req_key_len req toks) as Hrl. fold rk in Hrl.
  destruct (norm_req_key req toks) as [Hnu Hnl]. fold rk in Hnu, Hnl.
  assert (zlen (py_upto kv (key_len rk)) = key_len rk) as Hvl by (apply zlen_py_upto; lia).
  destruct (insert_ok cfg monotonic sha256 Hps Hsha c G rk (Some (py_upto kv (key_len rk))) prio chunked)
    as (m & c1 & G1 & Hins & Hok1 & HI); [done|done|done|lia|].
  assert (insert_value cfg rk (Some (py_upto kv (key_len rk))) = py_upto kv (key_len rk)) as HV.
  { unfold insert_value. simpl. apply take_ge. unfold zlen in *. lia. }
  rewrite Hnu, HV in HI.
  destruct (path_lengths ps Hps _ _ _ _ _ (ok_tree _ _ _ Hok) rh_live0) as [_ Hdq].
  assert (aligned ps rk) as Hal by (by apply page_aligned_aligned). unfold aligned in Hal.
  destruct (ins_range _ _ _ _ _ _ _ _ HI) as [Hm0 Hm1]. rewrite zlen_units in Hm1.
  pose proof (ins_page _ _ _ _ _ _ _ _ HI) as Hmd.
  assert (zlen q <= m) as Hqm.
  { pose proof (zlen_units rk) as Hzu. unfold zlen in rh_le0, Hzu |- *.
    apply (ins_max _ _ _ _ _ _ _ _ HI (length q) (take (length q) kv)); [|lia].
    rewrite <- rh_prefix0. eapply cached_path; [done|by apply ok_tree|done]. }
  pose proof (zlen_nonneg q) as Hq0.
  assert (0 <= zlen q / ps <= m / ps) as Hd1
    by (split; [apply Z.div_pos; lia|apply Z.div_le_mono; lia]).
  assert (m / ps <= key_len rk / ps) as Hd2 by (apply Z.div_le_mono; lia).
  assert (py_upto kv (key_len rk) = py_slice kv 0 (key_len rk)) as Hup by done.
  assert (drop (Z.to_nat m) (py_upto kv (key_len rk)) = expand_pages ps (prange pages (m / ps) (key_len rk / ps))) as Hmid.
  { rewrite <- (slice_pages ps Hps kv pages rh_kv0) by (done || lia).
    rewrite py_upto_nonneg, py_slice_nonneg by lia. rewrite take_drop_commute. do 2 f_equal. lia. }
  pose proof (ins_slots _ _ _ _ _ _ _ _ HI) as Hslots. rewrite Hmid in Hslots.
  assert (Permutation (tree_slots c G ++ req_pages pages q ++ rest)
    (expand_pages ps (prange pages (zlen q / ps) (m / ps)) ++ tree_slots c1 G1
     ++ expand_pages ps (drop (Z.to_nat (key_len rk / ps)) pages) ++ rest)) as HP.
  { unfold req_pages. rewrite (drop_split_pages ps pages (zlen q / ps) (m / ps)) by lia.
    rewrite (drop_split_pages ps pages (m / ps) (key_len rk / ps)) by lia.
    rewrite Hslots. clear. perm_solver. }
  destruct (free_slice ps Hps kv pages rh_kv0 a (zlen q) m
              (tree_slots c1 G1 ++ expand_pages ps (drop (Z.to_nat (key_len rk / ps)) pages) ++ rest) Hsz Hdq Hmd)
    as (a1 & Hf & Ho1 & Hs1); [lia|lia|by eapply kv_owns_perm|].
  exists m, c1, G1, a1. split_and!; try done.
  - by rewrite rh_protected0.
  - by apply (ins_locks _ _ _ _ _ _ _ _ HI).
  - eapply (pages_ok_inserted cfg c G _ _ m c1 G1 _ Hps Hpg); [|exact HI].
    rewrite Hup. apply (slice_pages ps Hps kv pages rh_kv0); [apply Z.divide_0_r|done|lia|lia].
Qed.

Lemma cache_finished_req_ok c G a pool req is_insert toks kv pages n q L rest :
  cache_ok ps c G -> locks_ok c G (n :: L) -> pages_ok ps G ->
  kv_owns a (tree_slots c G ++ req_pages pages q ++ rest) -> kv_page_size a = ps ->
  kv_committed_freed req = false ->
  toks = py_upto (origin_input_ids req ++ output_ids req) (cache_commit_len (cfg_strip_thinking_cache cfg) req) ->
  req_holds G pool req toks kv pages n q ->
  exists c' a' req' G',
    cache_finished_req cfg monotonic sha256 c a pool req is_insert = Ok (c', a', req')
    /\ cache_ok ps c' G' /\ locks_ok c' G' L /\ pages_ok ps G'
    /\ kv_owns a' (tree_slots c' G' ++ rest) /\ kv_page_size a' = ps
    /\ req' = set_req_freed req true (kv_overallocated_freed req)
    /\ (forall k v, cached ps G k v -> cached ps G' k v)
    /\ (is_insert = true -> cfg_disable_finished_insert cfg = false ->
        exists v, cached ps G' (units (req_key req toks)) v)
    /\ G ⊆ G'.
Proof.
  intros Hok HL Hpg Hown Hsz Hfree Htoks Hrh. unfold cache_finished_req, pop_committed_kv_cache.
  rewrite Hfree, Hdis. cbn [negb py_assert res_bind].
  change (cache_commit_len (cfg_strip_thinking_cache cfg) (set_req_freed req true (kv_overallocated_freed req)))
    with (cache_commit_len (cfg_strip_thinking_cache cfg) req).
  change (origin_input_ids (set_req_freed req true (kv_overallocated_freed req))) with (origin_input_ids req).
  change (output_ids (set_req_freed req true (kv_overallocated_freed req))) with (output_ids req).
  rewrite <- Htoks. change (req_pool_idx (set_req_freed req true (kv_overallocated_freed req))) with (req_pool_idx req).
  rewrite (rh_row _ _ _ _ _ _ _ _ Hrh). cbn [res_bind].
  change (page_aligned (MkRadixKey toks (req_extra_key (set_req_freed req true (kv_overallocated_freed req))) (cfg_is_eagle cfg)) ps)
    with (req_key req toks).
  change (req_priority (set_req_freed req true (kv_overallocated_freed req))) with (req_priority req).
  change (cache_protected_len (set_req_freed req true (kv_overallocated_freed req))) with (cache_protected_len req).
  change (last_node (set_req_freed req true (kv_overallocated_freed req))) with (last_node req).
  cbv zeta. set (rk := req_key req toks).
  set (do_insert := if cfg_disable_finished_insert cfg then false else is_insert).
  pose proof (req_key_len req toks) as Hrl. fold rk in Hrl. pose proof Hrh as []. fold rk in rh_le0, rh_prefix0, rh_tokens0.
  destruct (path_lengths ps Hps _ _ _ _ _ (ok_tree _ _ _ Hok) rh_live0) as [_ Hdq].
  assert (aligned ps rk) as Hal by (by apply page_aligned_aligned). unfold aligned in Hal.
  pose proof (zlen_nonneg q) as Hq0.
  (* the tree and the pool after the aligned part *)
  assert (exists c1 G1 a1,
    (if do_insert
     then let* (prefix_len, c1) := insert cfg monotonic sha256 c rk (Some (py_upto kv (key_len rk)))
                                     (Some (default 0 (req_priority req))) false in
          let* a1 := kv_free a (py_slice kv (cache_protected_len req) prefix_len) in Ok (c1, a1)
     else let* a1 := kv_free a (py_slice kv (cache_protected_len req) (key_len rk)) in Ok (c, a1)) = Ok (c1, a1)
    /\ cache_ok ps c1 G1 /\ locks_ok c1 G1 (n :: L) /\ pages_ok ps G1 /\ kv_page_size a1 = ps
    /\ kv_owns a1 (tree_slots c1 G1 ++ expand_pages ps (drop (Z.to_nat (key_len rk / ps)) pages) ++ rest)
    /\ (forall k v, cached ps G k v -> cached ps G1 k v)
    /\ (do_insert = true -> exists v, cached ps G1 (units rk) v) /\ G ⊆ G1)
    as (c1 & G1 & a1 & -> & Hok1 & HL1 & Hpg1 & Hsz1 & Hown1 & Hmono & Hfull & Hsub).
  { destruct do_insert.
    - destruct (req_insert_ok c G a pool req toks kv pages n q (n :: L) rest (Some (default 0 (req_priority req))) false
                  Hok HL Hpg Hown Hsz Hrh) as (m & c1 & G1 & a1 & Hi & Hf & H1 & H2 & H3 & H4 & H5 & H6).
      fold rk in Hi, H5, H6. rewrite Hi. cbn [res_bind]. rewrite Hf. cbn [res_bind].
      exists c1, G1, a1. split_and!; try done.
      + destruct (ins_hit _ _ _ _ _ _ _ _ H5) as (w & _ & Hiff). intros k v Hc. apply Hiff. by left.
      + intros _. destruct (ins_full _ _ _ _ _ _ _ _ H5) as (x & w & Hx).
        exists w. by eapply cached_path; [done|apply ok_tree|].
      + apply (ins_ghost _ _ _ _ _ _ _ _ H5).
    - destruct (free_slice ps Hps kv pages rh_kv0 a (zlen q) (key_len rk)
              (tree_slots c G ++ expand_pages ps (drop (Z.to_nat (key_len rk / ps)) pages) ++ rest) Hsz Hdq Hal)
        as (a1 & Hf & Ho1 & Hs1); [lia|lia| |].
      { eapply kv_owns_perm; [|exact Hown]. unfold req_pages.
        rewrite (drop_split_pages ps pages (zlen q / ps) (key_len rk / ps)); [clear; perm_solver|lia|].
        split; [apply Z.div_pos; lia|apply Z.div_le_mono; lia]. }
      rewrite rh_protected0, Hf. cbn [res_bind]. exists c, G, a1. by split_and!. }
  cbn [res_bind].
  destruct (free_tail ps Hps kv pages rh_kv0 rh_count0 a1 (key_len rk) (tree_slots c1 G1 ++ rest) Hsz1 Hal)
    as (a2 & Hf2 & Ho2 & Hs2); [lia| |].
  { eapply kv_owns_perm; [|exact Hown1]. clear. perm_solver. }
  rewrite Hf2. cbn [res_bind]. rewrite rh_node0.
  destruct (dec_lock_ref_ok cfg Hps c1 G1 L n Hdis Hok1 HL1) as (d & c2 & Hdec & Hok2 & HL2 & _ & _ & _ & Hsl2 & _).
  rewrite Hdec. cbn [res_bind]. eexists c2, a2, _, G1. split; [reflexivity|]. split_and!; try done.
  - by rewrite Hsl2.
  - intros Hi Hc. apply Hfull. unfold do_insert. by rewrite Hc.
Qed.

(** KV indices fit the int32 entries of the table. *)
Definition fits32 (i : Z) : Prop := to_int32 i = i.
Definition slots32 (G : ghost) : Prop := forall k v, cached ps G k v -> Forall fits32 v.

Lemma slots32_keeps c G c' G' : slots32 G -> keeps ps c G c' G' -> slots32 G'.
Proof. intros Hs Hk k v Hc. apply (keeps_cached _ _ _ _ _ Hk) in Hc. by apply (Hs k v). Qed.

Lemma slots32_inserted c G K V n c' G' : slots32 G -> Forall fits32 V -> inserted cfg c G K V n c' G' -> slots32 G'.
Proof.
  intros Hs HV Hins k v Hc. destruct (ins_hit _ _ _ _ _ _ _ _ Hins) as (w & Hw & Hiff).
  destruct (proj1 (Hiff k v) Hc) as [Hc'|(_ & _ & _ & Hv)]; [by apply (Hs k v)|]. rewrite Hv.
  apply Forall_take, Forall_app. split; [by apply (Hs _ _ Hw)|by apply Forall_drop].
Qed.

Lemma map_fits32 l : Forall fits32 l -> map to_int32 l = l.
Proof. induction 1 as [|i l Hi _ IH]; [done|]. simpl. by rewrite Hi, IH. Qed.

(** Writing [v] from [lo] on into the row of a request whose first [lo] entries
    already agree with [v]. *)
Lemma write_row_ok pool i n kv v lo :
  read_row pool i n = Ok kv -> zlen kv = n -> 0 <= lo <= zlen v -> zlen v <= zlen kv -> Forall fits32 v ->
  take (Z.to_nat lo) v = take (Z.to_nat lo) kv ->
  exists pool', write_row pool i lo (zlen v) (py_from v lo) = Ok pool'
    /\ read_row pool' i n = Ok (v ++ drop (length v) kv) /\ free_slots pool' = free_slots pool.
Proof.
  intros Hr Hn Hlo Hv Hf Ht. unfold read_row, write_row in *. destruct i as [i|]; [|done].
  destruct (row_at pool i) as [[j row]|] eqn:Hrow; [|done].
  injection Hr as Hkv. pose proof (zlen_nonneg kv).
  assert (kv = take (Z.to_nat n) row) as Hkv' by (rewrite <- Hkv; apply py_upto_nonneg; lia).
  assert (n <= zlen row) as Hrl.
  { apply (f_equal zlen) in Hkv'. unfold zlen in *. rewrite length_take in Hkv'. lia. }
  set (vals := py_from v lo).
  assert (vals = drop (Z.to_nat lo) v) as Hvals by (apply py_from_nonneg; lia).
  assert (zlen (py_slice row lo (zlen v)) = zlen vals) as Hsl.
  { rewrite py_slice_nonneg by lia. rewrite Hvals. unfold zlen in *. rewrite length_take, !length_drop. lia. }
  assert (match vals with [x] => repeat x (Z.to_nat (zlen (py_slice row lo (zlen v)))) | _ => vals end = vals) as ->.
  { destruct vals as [|x [|y l]]; [done| |done]. rewrite Hsl. done. }
  rewrite Hsl, Z.eqb_refl. eexists; split; [done|]. split; [|done].
  rewrite (row_at_update _ _ _ _ _ Hrow). f_equal.
  rewrite clamp_idx_nonneg, Z.min_l by (unfold zlen in *; lia).
  rewrite map_fits32 by (rewrite Hvals; by apply Forall_drop).
  assert (take (Z.to_nat lo) row = take (Z.to_nat lo) v) as Hpre.
  { rewrite Ht, Hkv', take_take. f_equal. unfold zlen in *. lia. }
  assert (length vals = length v - Z.to_nat lo)%nat as Hvl by (rewrite Hvals; apply length_drop).
  rewrite Hpre, app_assoc, Hvals, take_drop. rewrite py_upto_nonneg by lia.
  rewrite <- Hvals, Hvl. replace (Z.to_nat lo + (length v - Z.to_nat lo))%nat with (length v) by (unfold zlen in *; lia).
  rewrite take_app_ge by (unfold zlen in *; lia). f_equal.
  rewrite Hkv', take_drop_commute. do 2 f_equal. unfold zlen in *. lia.
Qed.

Lemma cache_unfinished_req_ok c G a pool req chunked kv pages n q L rest :
  cache_ok ps c G -> locks_ok c G (n :: L) -> pages_ok ps G -> slots32 G -> Forall fits32 kv ->
  kv_owns a (tree_slots c G ++ req_pages pages q ++ rest) -> kv_page_size a = ps ->
  req_holds G pool req (fill_ids req) kv pages n q ->
  exists c' a' pool' req' G' kv' pages' n',
    cache_unfinished_req cfg monotonic sha256 c a pool req chunked = Ok (c', a', pool', req')
    /\ cache_ok ps c' G' /\ locks_ok c' G' (n' :: L) /\ pages_ok ps G' /\ slots32 G' /\ Forall fits32 kv'
    /\ kv_owns a' (tree_slots c' G' ++ req_pages pages' (units (req_key req (fill_ids req))) ++ rest)
    /\ kv_page_size a' = ps /\ fill_ids req' = fill_ids req
    /\ req_holds G' pool' req' (fill_ids req') kv' pages' n' (units (req_key req (fill_ids req)))
    /\ prefix_indices req' = kv' /\ (forall k v, cached ps G k v -> cached ps G' k v).
Proof.
  intros Hok HL Hpg H32 Hkv32 Hown Hsz Hrh. unfold cache_unfinished_req. rewrite Hdis. cbv zeta.
  rewrite (rh_row _ _ _ _ _ _ _ _ Hrh). cbn [res_bind].
  change (page_aligned (MkRadixKey (fill_ids req) (req_extra_key req) (cfg_is_eagle cfg)) ps)
    with (req_key req (fill_ids req)).
  set (rk := req_key req (fill_ids req)).
  destruct (req_insert_ok c G a pool req (fill_ids req) kv pages n q (n :: L) rest
              (Some (default 0 (req_priority req))) chunked Hok HL Hpg Hown Hsz Hrh)
    as (m & c1 & G1 & a1 & Hi & Hf & Hok1 & HL1 & Hpg1 & Hsz1 & HI & Hown1).
  fold rk in Hi, HI, Hown1. rewrite Hi. cbn [res_bind]. rewrite Hf. cbn [res_bind].
  pose proof (req_key_len req (fill_ids req)) as Hrl. fold rk in Hrl.
  pose proof Hrh as []. fold rk in rh_le0, rh_prefix0, rh_tokens0.
  destruct (norm_req_key req (fill_ids req)) as [Hnu Hnl]. fold rk in Hnu, Hnl.
  assert (aligned ps rk) as Hal by (by apply page_aligned_aligned). unfold aligned in Hal.
  pose proof (zlen_units rk) as Hzu.
  (* the key is fully cached now *)
  destruct (match_prefix_ok cfg monotonic Hps c1 G1 rk Hdis Hok1)
    as (v2 & n2 & c2 & G2 & q2 & Hm & Hok2 & Hk2 & [Lg1 Lg2 Lg3 Lg4]). rewrite Hnu in Lg2, Lg3, Lg4.
  destruct (ins_full _ _ _ _ _ _ _ _ HI) as (x & wx & Hx).
  assert (q2 = units rk) as ->.
  { assert (length (units rk) <= length q2)%nat as Hge.
    { apply (Lg4 _ wx); [|lia]. rewrite (take_ge (units rk)) by lia. apply (keeps_cached _ _ _ _ _ Hk2).
      by eapply cached_path; [done|apply ok_tree|]. }
    rewrite Lg2. apply take_ge. lia. }
  rewrite Hm. cbn [res_bind].
  destruct (path_lengths ps Hps _ _ _ _ _ (ok_tree _ _ _ Hok2) Lg1) as [Hlv2 _].
  assert (zlen v2 = key_len rk) as Hzv by (unfold zlen in *; lia).
  unfold py_assert. rewrite Hzv, Z.eqb_refl. cbn [res_bind].
  assert (slots32 G2) as H322.
  { eapply slots32_keeps; [|exact Hk2]. eapply slots32_inserted; [exact H32| |exact HI].
    rewrite py_upto_nonneg by lia. by apply Forall_take. }
  assert (Forall fits32 v2) as Hv32.
  { apply (H322 (units rk) v2). by eapply cached_path; [done|apply ok_tree|]. }
  assert (G ⊆ G2) as HGG by (etrans; [apply (ins_ghost _ _ _ _ _ _ _ _ HI)|apply Hk2]).
  assert (take (length q) v2 = take (length q) kv) as Hagree.
  { apply (cached_functional ps Hps c2 G2 q); [by apply ok_tree| |].
    - destruct (path_lengths ps Hps _ _ _ _ _ (ok_tree _ _ _ Hok) rh_live0) as [_ Hdq].
      exists n2, (units rk), v2. unfold zlen in *. split_and!; [done|done|lia|done|done].
    - eapply cached_path; [done|by apply ok_tree|]. by eapply lookup_weaken. }
  destruct (write_row_ok pool (req_pool_idx req) (zlen (fill_ids req)) kv v2 (zlen q) rh_row0 rh_len0)
    as (pool' & Hw & Hr' & _).
  { pose proof (zlen_nonneg q). lia. } { lia. } { done. }
  { unfold zlen. by rewrite Nat2Z.id. }
  rewrite Hzv in Hw. rewrite rh_protected0, Hw. cbn [res_bind]. rewrite Hr'. cbn [res_bind].
  set (kv' := v2 ++ drop (length v2) kv) in *.
  rewrite rh_node0.
  destruct (dec_lock_ref_ok cfg Hps c2 G2 L n Hdis Hok2 (keeps_locks _ _ _ _ _ Hk2 _ HL1))
    as (d & c3 & Hdec & Hok3 & HL3 & _ & _ & _ & Hsl3 & _).
  rewrite Hdec. cbn [res_bind].
  destruct (inc_lock_ref_ok cfg Hps c3 G2 L n2 Hdis Hok3 HL3 ltac:(eauto))
    as (d' & c4 & Hinc & Hok4 & HL4 & _ & _ & _ & Hsl4 & _).
  rewrite Hinc. cbn [res_bind].
  assert (pages_ok ps G2) as Hpg2 by (eapply pages_ok_keeps; eauto).
  destruct (Hpg2 (units rk) v2) as [pv Hpv]. { by eapply cached_path; [done|apply ok_tree|]. }
  assert (zlen pv * ps = key_len rk) as Hpvl.
  { apply (f_equal zlen) in Hpv. rewrite zlen_expand_pages in Hpv by lia. lia. }
  assert (zlen kv' = zlen kv) as Hkl.
  { unfold kv'. rewrite zlen_app. unfold zlen in *. rewrite length_drop. lia. }
  set (j := Z.to_nat (key_len rk / ps)).
  assert (j = length pv) as Hj.
  { unfold j. rewrite <- Hpvl, Z.div_mul by lia. unfold zlen. lia. }
  set (pages' := pv ++ drop j pages).
  assert (req_pages pages' (units rk) = expand_pages ps (drop j pages)) as Hrp.
  { unfold req_pages. rewrite Hzu. fold j. unfold pages'. rewrite Hj at 1. by rewrite drop_app_length. }
  destruct (tail_pages ps Hps kv pages rh_kv0 rh_count0 (key_len rk) Hal ltac:(lia)) as [Htail Htc].
  fold j in Htail, Htc.
  assert (drop (length v2) kv = py_from kv (key_len rk)) as Hdrop.
  { rewrite py_from_nonneg by lia. f_equal. unfold zlen in *. lia. }
  eexists c4, a1, pool', _, G2, kv', pages', n2. split; [reflexivity|].
  assert (keeps ps c1 G1 c2 G2) as Hk2' by done.
  split_and!; try done.
  - unfold kv'. apply Forall_app. split; [done|]. by apply Forall_drop.
  - rewrite Hrp, Hsl4, Hsl3. eapply kv_owns_perm; [|exact Hown1].
    by rewrite (keeps_slots _ _ _ _ _ Hk2).
  - split; try done.
    + simpl. lia.
    + unfold kv' at 1. rewrite Hdrop, Htail. unfold pages'. rewrite expand_pages_app, <- Hpv.
      rewrite take_app_ge by (unfold zlen in *; lia). f_equal. f_equal. unfold zlen in *. lia.
    + unfold pages'. rewrite zlen_app, Hkl. unfold zlen in *. nia.
    + simpl. rewrite Lg1. f_equal. f_equal. unfold kv'. rewrite <- Hlv2. by rewrite take_app_length.
    + change (req_key (set_req_prefix _ _ _ _) _) with rk. lia.
  - simpl. destruct (Z.ltb_spec (key_len rk) (zlen kv')).
    + unfold kv'. f_equal. rewrite py_from_nonneg by lia.
      rewrite drop_app_length'; [done|]. unfold zlen in *. lia.
    + unfold kv'. rewrite drop_ge; [by rewrite app_nil_r|]. unfold zlen in *. lia.
  - intros k v Hc. apply (keeps_cached _ _ _ _ _ Hk2).
    destruct (ins_hit _ _ _ _ _ _ _ _ HI) as (w & _ & Hiff). apply Hiff. by left.
Qed.
End Requests.
