(* ===== verification/RadixProps.v ===== *)
(** The theorems about the prefix cache, with an executable instance of every
    parameter for their witnesses. *)

From S2P Require Export RadixReq.
From S2P Require Import AllocKernels Allocator.

(** ** Initial and reset states *)

Lemma reset_ok cfg monotonic c : 1 <= cfg_page_size cfg ->
  (forall i, is_Some (store c !! i) -> (i < counter c)%nat) ->
  let G : ghost := {[ counter c := ([], []) ]} in
  let c' := reset cfg monotonic c in
  cache_ok (cfg_page_size cfg) c' G /\ locks_ok c' G [] /\ pages_ok (cfg_page_size cfg) G
  /\ tree_slots c' G = [] /\ root_node c' = counter c.
Proof.
  intros Hps Hf. cbn zeta. set (G := {[ counter c := ([], []) ]}).
  set (c' := reset cfg monotonic c).
  assert (sim (set_queue c' []) c') as Hsim by (symmetry; apply set_queue_sim).
  assert (root_node c' = counter c /\ counter c' = S (counter c) /\ evictable_size_ c' = 0
    /\ protected_size_ c' = 0 /\ evictable_leaves c' = ∅
    /\ exists r, store c' = <[counter c := r]> (store c) /\ key r = MkRadixKey [] None false
         /\ value r = Some [] /\ lock_ref r = 1 /\ hash_value r = Some [] /\ children r = ∅)
    as (R1 & R2 & R3 & R4 & R5 & r & R6 & R7 & R8 & R9 & R10 & R11).
  { unfold c', reset, record_all_cleared_event. simpl.
    destruct (cfg_enable_kv_cache_events cfg); simpl; (split_and!; [done..|]); eexists; by split_and!. }
  assert (forall i x, G !! i = Some x -> i = counter c) as HGi.
  { intros i x Hi. unfold G in Hi. by apply lookup_singleton_Some in Hi as [? _]. }
  assert (tree_nodes c' G = ∅) as Hn.
  { unfold tree_nodes, G. rewrite dom_singleton_L, R1. clear. set_solver. }
  assert (forall k v, cached (cfg_page_size cfg) G k v -> v = []) as Hc.
  { intros k v (i & q & w & Hi & _ & _ & _ & ->). unfold G in Hi.
    apply lookup_singleton_Some in Hi as [_ [= <- <-]]. apply take_nil. }
  split_and!.
  - split.
    + split.
      * rewrite R1. unfold G. apply lookup_singleton_eq.
      * exists r. rewrite R1, R6, lookup_insert_eq, R7, R8, R9, R10. split_and!; try done.
      * intros i q w Hi Hne. apply HGi in Hi. congruence.
      * intros i nd ck ch [x Hi] Hs Hch. apply HGi in Hi. subst i. rewrite R6, lookup_insert_eq in Hs.
        injection Hs as <-. by rewrite R11, lookup_empty in Hch.
      * intros i [x Hi]. rewrite R2. rewrite R6 in Hi. destruct (decide (i = counter c)) as [->|Hne]; [lia|].
        rewrite lookup_insert_ne in Hi by done. pose proof (Hf i ltac:(eauto)). lia.
    + intros i. rewrite R5. split; [clear; set_solver|]. intros (Hne & [x Hi] & _). apply HGi in Hi. congruence.
    + split; rewrite Hn, ?R3, ?R4; done.
  - split; [constructor|]. intros i nd [x Hi] Hne _. apply HGi in Hi. congruence.
  - intros k v Hv. apply Hc in Hv as ->. by exists [].
  - unfold tree_slots. by rewrite Hn.
  - done.
Qed.

Lemma cache_init_ok cfg monotonic : 1 <= cfg_page_size cfg ->
  let c := cache_init cfg monotonic in
  let G : ghost := {[ 0%nat := ([], []) ]} in
  cache_ok (cfg_page_size cfg) c G /\ locks_ok c G [] /\ pages_ok (cfg_page_size cfg) G /\ tree_slots c G = [].
Proof.
  intros Hps. destruct (reset_ok cfg monotonic (MkCache ∅ 0 0 0 0 0 ∅ []) Hps) as (H1 & H2 & H3 & H4 & _).
  - intros i [x Hi]. simpl in Hi. by rewrite lookup_empty in Hi.
  - done.
Qed.

(** ** A heap *)

Lemma lex_lt_irrefl p : lex_lt p p = false.
Proof. induction p as [|x p IH]; [done|]. simpl. rewrite Z.ltb_irrefl, Z.eqb_refl, IH. done. Qed.

Lemma lex_lt_cotrans p q r : lex_lt p r = true -> lex_lt p q = true \/ lex_lt q r = true.
Proof.
  revert q r. induction p as [|x p IH]; intros [|y q] [|z r]; simpl; try (by auto).
  intros H. destruct (Z.ltb_spec x y), (Z.eqb_spec x y), (Z.ltb_spec y z), (Z.eqb_spec y z),
    (Z.ltb_spec x z), (Z.eqb_spec x z); simpl in *; try lia; auto.
Qed.

Lemma lex_lt_asym p q : lex_lt p q = true -> lex_lt q p = false.
Proof.
  revert q. induction p as [|a p IH]; intros [|b q]; simpl; try done.
  destruct (Z.ltb_spec a b), (Z.eqb_spec a b), (Z.ltb_spec b a), (Z.eqb_spec b a); simpl; try lia; try done; eauto.
Qed.

(** The first least entry of a list. *)
Fixpoint pop_min (l : list entry) : option (entry * list entry) :=
  match l with
  | [] => None
  | x :: l' =>
      match pop_min l' with
      | None => Some (x, [])
      | Some (y, r) => if lex_lt y.1 x.1 then Some (y, x :: r) else Some (x, l')
      end
  end.

Lemma pop_min_nil l : pop_min l = None <-> l = [].
Proof. destruct l as [|x l]; [done|]. simpl. split; [|done]. destruct (pop_min l) as [[y r]|]; [case_match|]; done. Qed.

Lemma pop_min_perm l x l' : pop_min l = Some (x, l') -> Permutation l (x :: l').
Proof.
  revert x l'. induction l as [|y l IH]; intros x l'; [done|]. simpl.
  destruct (pop_min l) as [[z r]|] eqn:E.
  - specialize (IH z r eq_refl). case_match; intros [= <- <-]; [|done]. rewrite IH. constructor.
  - apply pop_min_nil in E as ->. by intros [= <- <-].
Qed.

Lemma pop_min_least l x l' y : pop_min l = Some (x, l') -> y ∈ l -> lex_lt y.1 x.1 = false.
Proof.
  revert x l'. induction l as [|z l IH]; intros x l'; [done|]. simpl.
  destruct (pop_min l) as [[w r]|] eqn:E.
  - destruct (lex_lt w.1 z.1) eqn:Hwz; intros [= <- <-] Hy; apply elem_of_cons in Hy as [->|Hy].
    + by apply lex_lt_asym.
    + by eapply IH.
    + apply lex_lt_irrefl.
    + destruct (lex_lt y.1 z.1) eqn:Hyz; [|done].
      destruct (lex_lt_cotrans y.1 w.1 z.1 Hyz) as [H|H]; [|congruence].
      rewrite (IH w r eq_refl Hy) in H. done.
  - apply pop_min_nil in E as ->. intros [= <- <-] Hy. apply list_elem_of_singleton in Hy as ->. apply lex_lt_irrefl.
Qed.

#[export] Instance list_heap : HeapQ := {
  heappop := pop_min;
  heappop_nil := pop_min_nil;
  heappop_perm := pop_min_perm;
  heappop_least := pop_min_least;
}.

(** ** Reachable states *)

Section System.
Context (cfg : CacheConfig) (monotonic : nat -> Z) (sha256 : list Z -> list Z).
Abbreviation ps := (cfg_page_size cfg).
Context {A : Type} `{Pool : KVPool A} `{Heap : HeapQ}.

(** The cache with its allocator, the nodes locked by clients (one entry per lock)
    and the KV indices the clients hold. *)
Record system : Type := MkSystem {
  sys_cache : RadixCache;
  sys_pool : A;
  sys_locks : list nat;
  sys_held : list Z
}.

Inductive cache_step : system -> system -> Prop :=
  | cs_match c a L h k v n c' :
      match_prefix cfg monotonic c k = Ok (v, n, c') ->
      cache_step (MkSystem c a L h) (MkSystem c' a L h)
  | cs_lock c a L h k v n c' d c'' :
      match_prefix cfg monotonic c k = Ok (v, n, c') -> inc_lock_ref cfg c' (Some n) = Ok (d, c'') ->
      cache_step (MkSystem c a L h) (MkSystem c'' a (n :: L) h)
  | cs_unlock c a L L' h n d c' :
      Permutation L (n :: L') -> dec_lock_ref cfg c (Some n) = Ok (d, c') ->
      cache_step (MkSystem c a L h) (MkSystem c' a L' h)
  | cs_insert c a L h h' k v pv prio chunked n c' :
      tokens32 k -> key_len (norm_key cfg k) <= zlen v ->
      insert_value cfg k (Some v) = expand_pages ps pv ->
      insert cfg monotonic sha256 c k (Some v) prio chunked = Ok (n, c') ->
      Permutation h (drop (Z.to_nat n) (insert_value cfg k (Some v)) ++ h') ->
      cache_step (MkSystem c a L h) (MkSystem c' a L h')
  | cs_evict c a L h num n c' a' :
      evict cfg sha256 c a num = Ok (n, c', a') ->
      cache_step (MkSystem c a L h) (MkSystem c' a' L h)
  | cs_free c a L h h' l pages a' :
      page_cover ps l pages -> Permutation h (expand_pages ps pages ++ h') -> kv_free a l = Ok a' ->
      cache_step (MkSystem c a L h) (MkSystem c a' L h').

Definition system_ok (s : system) : Prop :=
  exists G, cache_ok ps (sys_cache s) G /\ locks_ok (sys_cache s) G (sys_locks s) /\ pages_ok ps G
    /\ kv_owns (sys_pool s) (tree_slots (sys_cache s) G ++ sys_held s) /\ kv_page_size (sys_pool s) = ps.

Context (Hps : 1 <= ps) (Hdis : cfg_disable cfg = false).
Context (Hsha : forall l, Forall is_byte (sha256 l) /\ 8 <= zlen (sha256 l)).

Lemma cache_step_ok s s' : cache_step s s' -> system_ok s -> system_ok s'.
Proof.
  intros Hstep (G & Hok & HL & Hpg & Hown & Hsz). destruct Hstep; simpl in *.
  - destruct (match_prefix_ok cfg monotonic Hps c G k Hdis Hok) as (v' & n' & c2 & G' & q & Hm & Hok' & Hk & _).
    rewrite H in Hm. injection Hm as <- <- <-. exists G'. split_and!; simpl; try done.
    + by apply (keeps_locks _ _ _ _ _ Hk).
    + by eapply pages_ok_keeps.
    + eapply kv_owns_perm; [|exact Hown]. by rewrite (keeps_slots _ _ _ _ _ Hk).
  - destruct (match_prefix_ok cfg monotonic Hps c G k Hdis Hok) as (v' & n' & c2 & G' & q & Hm & Hok' & Hk & Hlg).
    rewrite H in Hm. injection Hm as <- <- <-.
    destruct (inc_lock_ref_ok cfg Hps c' G' L n Hdis Hok' (keeps_locks _ _ _ _ _ Hk _ HL))
      as (d' & c3 & Hi & Hok3 & HL3 & _ & _ & _ & Hsl & _); [rewrite (lg_live _ _ _ _ _ _ _ Hlg); eauto|].
    rewrite H0 in Hi. injection Hi as <- <-. exists G'. split_and!; simpl; try done.
    + by eapply pages_ok_keeps.
    + rewrite Hsl. eapply kv_owns_perm; [|exact Hown]. by rewrite (keeps_slots _ _ _ _ _ Hk).
  - destruct (dec_lock_ref_ok cfg Hps c G L' n Hdis Hok (locks_ok_perm _ _ _ _ H HL))
      as (d' & c3 & Hi & Hok3 & HL3 & _ & _ & _ & Hsl & _).
    rewrite H0 in Hi. injection Hi as <- <-. exists G. split_and!; simpl; try done. by rewrite Hsl.
  - destruct (insert_ok cfg monotonic sha256 Hps Hsha c G k (Some v) prio chunked Hdis Hok H H0)
      as (n' & c2 & G' & Hi & Hok' & HI).
    rewrite H2 in Hi. injection Hi as <- <-. exists G'. split_and!; simpl; try done.
    + by apply (ins_locks _ _ _ _ _ _ _ _ HI).
    + by eapply pages_ok_inserted.
    + eapply kv_owns_perm; [|exact Hown]. rewrite (ins_slots _ _ _ _ _ _ _ _ HI), H3. clear. perm_solver.
  - destruct (evict_ok cfg sha256 Hps Hsha c G a num L h Hdis Hok HL Hpg Hown Hsz)
      as (n' & c2 & G' & a2 & xs & He & Het & _).
    rewrite H in He. injection He as <- <- <-. exists G'. destruct Het. by split_and!.
  - destruct (kv_free_ok a l pages (tree_slots c G ++ h')) as (a2 & Hf & Hown' & Hsz' & _).
    { by rewrite Hsz. }
    { rewrite Hsz. eapply kv_owns_perm; [|exact Hown]. rewrite H0. clear. perm_solver. }
    rewrite H1 in Hf. injection Hf as <-. exists G. split_and!; try done. simpl. congruence.
Qed.

Lemma reachable_ok a0 h0 s : kv_owns a0 h0 -> kv_page_size a0 = ps ->
  rtc cache_step (MkSystem (cache_init cfg monotonic) a0 [] h0) s -> system_ok s.
Proof.
  intros Ho Hsz Hr. remember (MkSystem (cache_init cfg monotonic) a0 [] h0) as s0 eqn:E0.
  assert (system_ok s0) as Hs0.
  { subst s0. destruct (cache_init_ok cfg monotonic Hps) as (H1 & H2 & H3 & H4).
    eexists. split_and!; simpl; try done. by rewrite H4. }
  clear E0 Ho. induction Hr as [s|s1 s2 s3 Hstep _ IH]; [done|]. apply IH. by eapply cache_step_ok.
Qed.

Lemma total_sizes c G : cache_ok ps c G ->
  evictable_size_ c + protected_size_ c = zlen (tree_slots c G) /\ 0 <= evictable_size_ c /\ 0 <= protected_size_ c.
Proof.
  intros Hok. destruct (ok_sizes _ _ _ Hok) as [He Hp]. rewrite He, Hp. unfold tree_slots.
  rewrite zlen_gcat, <- gsum_plus. split_and!.
  - apply gsum_ext. intros n Hn. unfold tree_nodes in Hn.
    rewrite elem_of_difference, elem_of_dom, elem_of_singleton in Hn. destruct Hn as [[[q w] HG] Hr].
    destruct (ok_node _ _ _ (ok_tree _ _ _ Hok) _ _ _ HG Hr)
      as (nd & p & pn & qp & wp & v & ck & H1 & _ & _ & _ & H5 & _ & _ & H8 & _).
    unfold evictable_of, protected_of, slots_of. rewrite H1, H5. simpl. case_match; lia.
  - apply gsum_nonneg. intros n _. unfold evictable_of. repeat case_match; try lia. apply key_len_nonneg.
  - apply gsum_nonneg. intros n _. unfold protected_of. repeat case_match; try lia. apply key_len_nonneg.
Qed.
End System.

Arguments MkSystem {A}.
Arguments sys_cache {A}.
Arguments sys_pool {A}.
Arguments sys_locks {A}.
Arguments sys_held {A}.
#[global] Arguments cache_step cfg monotonic sha256 {A Pool Heap} _ _.
#[global] Arguments system_ok cfg {A Pool} _.

(** ** Sample instances *)

Definition sample_cfg : CacheConfig := MkConfig false 2 true false false LRUStrategy false.
Definition sample_clock (n : nat) : Z := Z.of_nat n.
Definition sample_digest (l : list Z) : list Z := map (fun i => (i * 7 + zsum l) mod 256) (zrange 0 32).
Definition plain_key (toks : list Z) : RadixKey := MkRadixKey toks None false.

Lemma sample_digest_ok l : Forall is_byte (sample_digest l) /\ 8 <= zlen (sample_digest l).
Proof.
  split; [|done]. unfold sample_digest. apply Forall_map, Forall_forall. intros i _.
  unfold is_byte. apply Z.mod_pos_bound. lia.
Qed.

(** The pages 1 to 5 of a pool of six pages are in use. *)
Definition sample_pool : allocator := MkAllocator 12 2 false false [6] [] true [].

Lemma sample_pool_owns : kv_owns (KVPool := paged_pool) sample_pool [2; 3; 4; 5; 8; 9; 6; 7; 10; 11].
Proof.
  exists [1; 2; 4; 3; 5]. split_and!; [done| |done..]. unfold paged_owned. simpl.
  change (zrange 1 (num_pages sample_pool + 1)) with [1; 2; 3; 4; 5; 6]. perm_solver.
Qed.

Definition run_insert (c : RadixCache) (toks kv : list Z) : RadixCache :=
  match insert sample_cfg sample_clock sample_digest c (plain_key toks) (Some kv) None false with
  | Ok (_, c') => c'
  | Raise _ => c
  end.

Definition sample_empty : RadixCache := cache_init sample_cfg sample_clock.
Definition sample_one : RadixCache := run_insert sample_empty [11; 12; 13; 14] [2; 3; 4; 5].

(** Two sequences that share their first page; the second one's copy of it is the
    page 4, which the client still holds, with page 5. *)
Definition sample_cache : RadixCache := run_insert sample_one [11; 12; 17; 18] [8; 9; 6; 7].

#[global] Strategy 1000 [run_insert sample_one sample_cache].

Definition sample_system : system := MkSystem sample_cache sample_pool [] [8; 9; 10; 11].

Lemma sample_reachable :
  rtc (cache_step (Pool := paged_pool) sample_cfg sample_clock sample_digest)
    (MkSystem (cache_init sample_cfg sample_clock) sample_pool [] [2; 3; 4; 5; 8; 9; 6; 7; 10; 11])
    sample_system.
Proof.
  eapply rtc_l; [|eapply rtc_l; [|apply rtc_refl]].
  - apply (cs_insert _ _ _ sample_empty sample_pool [] _ [8; 9; 6; 7; 10; 11] (plain_key [11; 12; 13; 14])
             [2; 3; 4; 5] [1; 2] None false 0 sample_one).
    + repeat constructor; done.
    + vm_compute. discriminate.
    + vm_compute. reflexivity.
    + vm_compute. reflexivity.
    + reflexivity.
  - apply (cs_insert _ _ _ sample_one sample_pool [] _ [8; 9; 10; 11] (plain_key [11; 12; 17; 18])
             [8; 9; 6; 7] [4; 3] None false 2 sample_cache).
    + repeat constructor; done.
    + vm_compute. discriminate.
    + vm_compute. reflexivity.
    + vm_compute. reflexivity.
    + change (Permutation [8; 9; 6; 7; 10; 11] ([6; 7] ++ [8; 9; 10; 11])). simpl. perm_solver.
Qed.

Lemma sample_system_ok : system_ok (Pool := paged_pool) sample_cfg sample_system.
Proof.
  eapply (reachable_ok sample_cfg sample_clock sample_digest (Pool := paged_pool));
    [done|done|apply sample_digest_ok|apply sample_pool_owns|done|apply sample_reachable].
Qed.

Lemma sample_ok : exists G, cache_ok (cfg_page_size sample_cfg) sample_cache G /\ locks_ok sample_cache G []
  /\ pages_ok (cfg_page_size sample_cfg) G
  /\ kv_owns (KVPool := paged_pool) sample_pool (tree_slots sample_cache G ++ [8; 9; 10; 11]).
Proof.
  destruct sample_system_ok as (G & H1 & H2 & H3 & H4 & _). unfold sample_system in *.
  cbn [sys_cache sys_pool sys_held sys_locks] in *. exists G. exact (conj H1 (conj H2 (conj H3 H4))).
Qed.

(** ** Matching and insertion *)

(** C6: [match_prefix] never raises on a well-formed cache.  It returns the KV indices
    of the longest cached page-aligned prefix of the (bigram-converted, page-aligned)
    key, and the node it returns ends exactly there; splitting a node on the way
    changes neither what is cached nor the evictable and protected sizes. *)
Theorem match_prefix_correct cfg monotonic c G k
    (Hps : 1 <= cfg_page_size cfg) (Hdis : cfg_disable cfg = false) (Hok : cache_ok (cfg_page_size cfg) c G) :
  let ps := cfg_page_size cfg in
  let K := units (norm_key cfg k) in
  exists v n c' G', match_prefix cfg monotonic c k = Ok (v, n, c')
    /\ cache_ok ps c' G' /\ G' !! n = Some (take (length v) K, v)
    /\ cached ps G (take (length v) K) v
    /\ (forall m w, (m <= length K)%nat -> cached ps G (take m K) w -> (m <= length v)%nat)
    /\ (forall j w, cached ps G' j w <-> cached ps G j w)
    /\ evictable_size_ c' = evictable_size_ c /\ protected_size_ c' = protected_size_ c.
Proof.
  cbn zeta. destruct (match_prefix_ok cfg monotonic Hps c G k Hdis Hok)
    as (v & n & c' & G' & q & Hm & Hok' & Hk & [Hl Hp Hle Hmax]).
  destruct (path_lengths _ ltac:(done) c' G' n q v (ok_tree _ _ _ Hok') Hl) as [Hlen Hdiv].
  rewrite <- Hlen in *. exists v, n, c', G'. split_and!; try (by destruct Hk).
  - by rewrite <- Hp.
  - apply (keeps_cached _ _ _ _ _ Hk). rewrite <- Hp. exists n, q, v. split_and!; [done|done|lia| |].
    + by rewrite take_ge by lia.
    + by rewrite take_ge by lia.
  - intros m w Hm' Hc. apply (Hmax m w); [|done]. by apply (keeps_cached _ _ _ _ _ Hk).
Qed.

Lemma match_prefix_correct_witness :
  exists G v n c' G', match_prefix sample_cfg sample_clock sample_cache (plain_key [11; 12; 17; 19]) = Ok (v, n, c')
    /\ cache_ok (cfg_page_size sample_cfg) c' G' /\ cached (cfg_page_size sample_cfg) G (take (length v) (units (norm_key sample_cfg (plain_key [11; 12; 17; 19])))) v.
Proof.
  destruct sample_ok as (G & Hok & _). exists G.
  destruct (match_prefix_correct sample_cfg sample_clock sample_cache G (plain_key [11; 12; 17; 19])
              ltac:(done) eq_refl Hok) as (v & n & c' & G' & Hm & Hok' & _ & Hc & _).
  exists v, n, c', G'. exact (conj Hm (conj Hok' Hc)).
Defined.

Lemma cached_length ps c G k v : 1 <= ps -> tree_ok ps c G -> cached ps G k v -> length v = length k.
Proof.
  intros Hps Hok (n & q & w & Hn & _ & Hle & _ & ->).
  destruct (path_lengths _ ltac:(done) c G n q w Hok Hn) as [Hw _]. rewrite length_take. lia.
Qed.

Lemma take_spliced (w v : list Z) n m l : length w = n -> (m <= l)%nat ->
  take m (w ++ drop n (take l v)) = take m (w ++ drop n v).
Proof. intros Hw Hm. rewrite skipn_firstn_comm, !take_app, take_take. do 2 f_equal. lia. Qed.

(** C7: [insert] on a well-formed cache returns the length of the longest cached
    prefix of the key; the cache then holds what it held before and, beyond that
    length, every page-aligned prefix of the key with the given KV indices (the
    indices already cached for the matched part are kept).  Exactly the indices past
    the returned length move into the tree, and they count as evictable. *)
Theorem insert_correct cfg monotonic sha256 c G k v prio chunked
    (Hps : 1 <= cfg_page_size cfg) (Hdis : cfg_disable cfg = false)
    (Hsha : forall l, Forall is_byte (sha256 l) /\ 8 <= zlen (sha256 l))
    (Hok : cache_ok (cfg_page_size cfg) c G) (Htk : tokens32 k)
    (Hv : key_len (norm_key cfg k) <= zlen v) :
  let ps := cfg_page_size cfg in
  let K := units (norm_key cfg k) in
  exists n c' G' w, insert cfg monotonic sha256 c k (Some v) prio chunked = Ok (n, c')
    /\ cache_ok ps c' G' /\ 0 <= n <= zlen K /\ cached ps G (take (Z.to_nat n) K) w
    /\ (forall m u, (m <= length K)%nat -> cached ps G (take m K) u -> Z.of_nat m <= n)
    /\ (forall j u, cached ps G' j u <-> cached ps G j u \/
          ((ps | zlen j) /\ n < zlen j <= zlen K /\ j = take (length j) K
           /\ u = take (length j) (w ++ drop (Z.to_nat n) v)))
    /\ Permutation (tree_slots c' G') (drop (Z.to_nat n) (take (length K) v) ++ tree_slots c G)
    /\ evictable_size_ c' = evictable_size_ c + (zlen K - n) /\ protected_size_ c' = protected_size_ c.
Proof.
  cbn zeta. destruct (insert_ok cfg monotonic sha256 Hps Hsha c G k (Some v) prio chunked Hdis Hok Htk Hv)
    as (n & c' & G' & Hi & Hok' & HI). pose proof HI as [Hr Hpg (w & Hw & Hc) Hmax Hgh Hfull Hsl Hrt He Hp HL].
  assert (insert_value cfg k (Some v) = take (length (units (norm_key cfg k))) v) as Hval.
  { unfold insert_value. simpl. rewrite <- zlen_units. unfold zlen. by rewrite Nat2Z.id. }
  exists n, c', G', w. split_and!; try done; try lia.
  - intros m u Hm Hu. by apply (Hmax m u).
  - assert (length w = Z.to_nat n) as Hwl.
    { rewrite (cached_length _ _ _ _ _ Hps (ok_tree _ _ _ Hok) Hw), length_take. unfold zlen in Hr. lia. }
    intros j u. rewrite Hc, Hval. split; (intros [?|(H1 & H2 & H3 & ->)]; [by left|right]);
      (split_and!; [done|lia|lia|done|]); rewrite take_spliced; try done; unfold zlen in H2; lia.
  - by rewrite <- Hval.
Qed.

Lemma insert_correct_witness :
  exists G n c' G', insert sample_cfg sample_clock sample_digest sample_cache (plain_key [11; 12; 13; 15])
      (Some [8; 9; 10; 11]) None false = Ok (n, c')
    /\ cache_ok (cfg_page_size sample_cfg) c' G' /\ evictable_size_ c' = evictable_size_ sample_cache + (4 - n) /\ cache_ok (cfg_page_size sample_cfg) sample_cache G.
Proof.
  destruct sample_ok as (G & Hok & _). exists G.
  destruct (insert_correct sample_cfg sample_clock sample_digest sample_cache G (plain_key [11; 12; 13; 15])
              [8; 9; 10; 11] None false ltac:(done) eq_refl sample_digest_ok Hok
              ltac:(repeat constructor; done) ltac:(vm_compute; discriminate))
    as (n & c' & G' & w & Hi & Hok' & _ & _ & _ & _ & _ & He & _).
  exists n, c', G'. exact (conj Hi (conj Hok' (conj He Hok))).
Defined.

(** C29: what was inserted is found again.  After [insert] of a key, [match_prefix] of
    the same key returns KV indices for the whole page-aligned key: those cached
    before for the matched prefix, then the ones that were inserted. *)
Theorem insert_match_roundtrip cfg monotonic sha256 c G k v prio chunked n c' w
    (Hps : 1 <= cfg_page_size cfg) (Hdis : cfg_disable cfg = false)
    (Hsha : forall l, Forall is_byte (sha256 l) /\ 8 <= zlen (sha256 l))
    (Hok : cache_ok (cfg_page_size cfg) c G) (Htk : tokens32 k)
    (Hv : key_len (norm_key cfg k) <= zlen v)
    (Hins : insert cfg monotonic sha256 c k (Some v) prio chunked = Ok (n, c'))
    (Hw : cached (cfg_page_size cfg) G (take (Z.to_nat n) (units (norm_key cfg k))) w) :
  exists node c'', match_prefix cfg monotonic c' k
    = Ok (w ++ drop (Z.to_nat n) (insert_value cfg k (Some v)), node, c'').
Proof.
  destruct (insert_ok cfg monotonic sha256 Hps Hsha c G k (Some v) prio chunked Hdis Hok Htk Hv)
    as (n' & c1 & G' & Hi & Hok' & [Hr Hpg (w' & Hw' & Hc) _ _ (x & u & Hx) _ _ _ _ _]).
  rewrite Hins in Hi. injection Hi as <- <-.
  assert (w' = w) as -> by (by eapply (cached_functional _ ltac:(done)); [apply Hok|..]).
  set (K := units (norm_key cfg k)) in *. set (V := insert_value cfg k (Some v)) in *.
  assert (length V = length K) as HVK.
  { pose proof (zlen_insert_value cfg k (Some v) Hv) as HV. rewrite <- zlen_units in HV.
    fold V K in HV. unfold zlen in HV. lia. }
  pose proof (cached_length _ _ _ _ _ Hps (ok_tree _ _ _ Hok) Hw) as Hlw. rewrite length_take in Hlw.
  assert (cached (cfg_page_size cfg) G' K (w ++ drop (Z.to_nat n) V)) as Hfull.
  { apply Hc. destruct (decide (zlen K = n)) as [He|Hne].
    - left. rewrite drop_ge, app_nil_r by (unfold zlen in *; lia).
      by rewrite take_ge in Hw by (unfold zlen in *; lia).
    - right. split_and!; [unfold K; rewrite zlen_units; apply norm_key_aligned; done|lia|done|by rewrite take_ge|].
      rewrite take_ge; [done|]. rewrite length_app, length_drop. unfold zlen in *. lia. }
  destruct (match_prefix_ok cfg monotonic Hps c' G' k Hdis Hok')
    as (v2 & node & c2 & G2 & q & Hm & Hok2 & Hk & [Hl Hp Hle Hmax]).
  exists node, c2. rewrite Hm. do 3 f_equal. fold K in Hp, Hle, Hmax.
  apply (keeps_cached _ _ _ _ _ Hk) in Hfull.
  assert (length K <= length q)%nat as Hge by (apply (Hmax (length K) (w ++ drop (Z.to_nat n) V)); [by rewrite take_ge|lia]).
  rewrite take_ge in Hp by lia. subst q.
  eapply (cached_functional _ ltac:(done)); [apply Hok2| |exact Hfull].
  exact (cached_path _ Hps c2 G2 node _ _ (ok_tree _ _ _ Hok2) Hl).
Qed.

Lemma ok_pair_inj {A B} (x x' : A) (y y' : B) : Ok (x, y) = Ok (x', y') -> x = x' /\ y = y'.
Proof. by intros [= -> ->]. Qed.

(** The first page of the sample sequences is cached. *)
Lemma sample_shared_page : exists G w, cache_ok (cfg_page_size sample_cfg) sample_cache G
  /\ cached (cfg_page_size sample_cfg) G (take 2 (units (norm_key sample_cfg (plain_key [11; 12; 13; 15])))) w.
Proof.
  destruct sample_ok as (G & Hok & _). exists G.
  destruct (insert_ok sample_cfg sample_clock sample_digest ltac:(done) sample_digest_ok sample_cache G
              (plain_key [11; 12; 13; 15]) (Some [8; 9; 10; 11]) None false eq_refl Hok)
    as (n & c' & G' & Hi & _ & HI); [repeat constructor; done|vm_compute; discriminate|].
  destruct (ins_hit _ _ _ _ _ _ _ _ HI) as (w & Hw & _).
  assert (insert sample_cfg sample_clock sample_digest sample_cache (plain_key [11; 12; 13; 15])
    (Some [8; 9; 10; 11]) None false = Ok (2, run_insert sample_cache [11; 12; 13; 15] [8; 9; 10; 11])) as E
    by (vm_compute; reflexivity).
  rewrite E in Hi. apply ok_pair_inj in Hi as [<- _]. exists w. exact (conj Hok Hw).
Qed.

Lemma insert_match_roundtrip_witness :
  exists G w node c'', cached (cfg_page_size sample_cfg) G (take 2 (units (norm_key sample_cfg (plain_key [11; 12; 13; 15])))) w
    /\ match_prefix sample_cfg sample_clock (run_insert sample_cache [11; 12; 13; 15] [8; 9; 10; 11])
      (plain_key [11; 12; 13; 15]) = Ok (w ++ [10; 11], node, c'').
Proof.
  destruct sample_shared_page as (G & w & Hok & Hw). exists G.
  destruct (insert_match_roundtrip sample_cfg sample_clock sample_digest sample_cache G (plain_key [11; 12; 13; 15])
              [8; 9; 10; 11] None false 2 (run_insert sample_cache [11; 12; 13; 15] [8; 9; 10; 11]) w
              ltac:(done) eq_refl sample_digest_ok Hok
              ltac:(repeat constructor; done) ltac:(vm_compute; discriminate) ltac:(vm_compute; reflexivity) Hw)
    as (node & c'' & Hm).
  exists w, node, c''. exact (conj Hw Hm).
Defined.

(** ** Reachable states, locks and eviction *)

(** C3: in every state reached by matching, locking, unlocking, inserting, evicting and
    freeing, with any allocator that satisfies [KVPool], the tree is well formed, every
    KV index is held once (by one node or by one client), all of them are owned by the
    allocator, and the two size counters add up to the indices in the tree. *)
Theorem radix_reachable_ok cfg monotonic sha256 {A : Type} {Pool : KVPool A} {Heap : HeapQ} (a0 : A) h0 s
    (Hps : 1 <= cfg_page_size cfg) (Hdis : cfg_disable cfg = false)
    (Hsha : forall l, Forall is_byte (sha256 l) /\ 8 <= zlen (sha256 l))
    (Hown : kv_owns a0 h0) (Hsz : kv_page_size a0 = cfg_page_size cfg)
    (Hreach : rtc (cache_step cfg monotonic sha256) (MkSystem (cache_init cfg monotonic) a0 [] h0) s) :
  exists G, cache_ok (cfg_page_size cfg) (sys_cache s) G /\ locks_ok (sys_cache s) G (sys_locks s)
    /\ NoDup (tree_slots (sys_cache s) G ++ sys_held s)
    /\ kv_owns (sys_pool s) (tree_slots (sys_cache s) G ++ sys_held s)
    /\ evictable_size (sys_cache s) + protected_size (sys_cache s) = zlen (tree_slots (sys_cache s) G)
    /\ 0 <= evictable_size (sys_cache s) /\ 0 <= protected_size (sys_cache s).
Proof.
  destruct (reachable_ok cfg monotonic sha256 Hps Hdis Hsha a0 h0 s Hown Hsz Hreach)
    as (G & Hok & HL & _ & Ho & _).
  destruct (total_sizes _ _ _ Hok) as (H1 & H2 & H3). exists G. split_and!; try done.
  by eapply kv_owns_NoDup.
Qed.

Lemma radix_reachable_ok_witness : exists G, NoDup (tree_slots sample_cache G ++ [8; 9; 10; 11])
  /\ evictable_size sample_cache + protected_size sample_cache = zlen (tree_slots sample_cache G).
Proof.
  destruct (radix_reachable_ok sample_cfg sample_clock sample_digest (Pool := paged_pool) sample_pool
              [2; 3; 4; 5; 8; 9; 6; 7; 10; 11] sample_system ltac:(done) eq_refl sample_digest_ok
              sample_pool_owns eq_refl sample_reachable) as (G & _ & _ & Hnd & _ & Hs & _).
  exists G. exact (conj Hnd Hs).
Defined.

(** Locking and unlocking a node restores every node and both sizes. *)
Lemma lock_roundtrip_ok cfg c G L n : 1 <= cfg_page_size cfg -> cfg_disable cfg = false ->
  cache_ok (cfg_page_size cfg) c G -> locks_ok c G L -> is_Some (G !! n) ->
  exists d d' c1 c2, inc_lock_ref cfg c (Some n) = Ok (d, c1) /\ dec_lock_ref cfg c1 (Some n) = Ok (d', c2)
    /\ cache_ok (cfg_page_size cfg) c1 G /\ cache_ok (cfg_page_size cfg) c2 G
    /\ locks_ok c1 G (n :: L) /\ locks_ok c2 G L /\ tree_slots c1 G = tree_slots c G /\ tree_slots c2 G = tree_slots c G
    /\ (forall i, is_Some (G !! i) -> i <> root_node c -> store c2 !! i = store c !! i)
    /\ evictable_size_ c2 = evictable_size_ c /\ protected_size_ c2 = protected_size_ c /\ d' = - d
    /\ evictable_size_ c1 <= evictable_size_ c.
Proof.
  intros Hps Hdis Hok HL Hn. destruct (inc_lock_ref_ok cfg Hps c G L n Hdis Hok HL Hn)
    as (d & c1 & Hi & Hok1 & HL1 & Hr1 & He1 & Hp1 & Hs1 & Hb1).
  destruct (dec_lock_ref_ok cfg Hps c1 G L n Hdis Hok1 HL1)
    as (d' & c2 & Hd & Hok2 & HL2 & Hr2 & He2 & Hp2 & Hs2 & Hb2).
  assert (forall i, is_Some (G !! i) -> i <> root_node c -> store c2 !! i = store c !! i) as Hsame.
  { intros i Hli Hne. destruct (live_store _ _ _ i (ok_tree _ _ _ Hok2) Hli) as [nd2 Hnd2].
    destruct (but_locks_lookup _ _ _ _ Hb2 Hnd2) as (nd1 & Hnd1 & E2).
    destruct (but_locks_lookup _ _ _ _ Hb1 Hnd1) as (nd & Hnd & E1).
    pose proof (lk_count _ _ _ HL i nd Hli Hne Hnd) as Hc.
    pose proof (lk_count _ _ _ HL2 i nd2 Hli ltac:(congruence) Hnd2) as Hc2.
    rewrite Hnd2, Hnd, E2, E1. f_equal. destruct nd. unfold set_lock_ref. simpl in *. congruence. }
  assert (evictable_size_ c2 = evictable_size_ c) as He.
  { rewrite (ok_evictable _ _ (ok_sizes _ _ _ Hok2)), (ok_evictable _ _ (ok_sizes _ _ _ Hok)).
    unfold tree_nodes. rewrite Hr2, Hr1. apply gsum_ext. intros i Hi'. unfold evictable_of.
    rewrite elem_of_difference, elem_of_dom, elem_of_singleton in Hi'. by rewrite Hsame by tauto. }
  exists d, d', c1, c2. split_and!; try done; try lia; [congruence|].
  rewrite (ok_evictable _ _ (ok_sizes _ _ _ Hok1)), (ok_evictable _ _ (ok_sizes _ _ _ Hok)).
  unfold tree_nodes. rewrite Hr1. apply gsum_mono. intros i Hi'.
  rewrite elem_of_difference, elem_of_dom, elem_of_singleton in Hi'. destruct Hi' as [Hli Hne]. unfold evictable_of.
  destruct (live_store _ _ _ i (ok_tree _ _ _ Hok1) Hli) as [nd1 Hnd1].
  destruct (but_locks_lookup _ _ _ _ Hb1 Hnd1) as (nd & Hnd & E1).
  pose proof (lk_count _ _ _ HL i nd Hli Hne Hnd) as Hc.
  pose proof (lk_count _ _ _ HL1 i nd1 Hli ltac:(congruence) Hnd1) as Hc1. rewrite lock_count_cons in Hc1.
  rewrite Hnd1, Hnd. assert (key nd1 = key nd) as -> by (by rewrite E1). pose proof (key_len_nonneg (key nd)). pose proof (lock_count_nonneg G L i).
  destruct (anc G i n), (Z.eqb_spec (lock_ref nd1) 0), (Z.eqb_spec (lock_ref nd) 0); lia.
Qed.

(** locking and then unlocking a node of a well-formed cache raises nothing and
    restores every node below the root and both sizes; while the lock is held, no
    node on the path to the root can be evicted. *)
Theorem lock_unlock_roundtrip cfg c G L n
    (Hps : 1 <= cfg_page_size cfg) (Hdis : cfg_disable cfg = false) (Hok : cache_ok (cfg_page_size cfg) c G)
    (HL : locks_ok c G L) (Hn : is_Some (G !! n)) :
  exists d d' c1 c2, inc_lock_ref cfg c (Some n) = Ok (d, c1) /\ dec_lock_ref cfg c1 (Some n) = Ok (d', c2)
    /\ cache_ok (cfg_page_size cfg) c1 G /\ cache_ok (cfg_page_size cfg) c2 G
    /\ (forall i, anc G i n = true -> i ∉ evictable_leaves c1)
    /\ (forall i, is_Some (G !! i) -> i <> root_node c -> store c2 !! i = store c !! i)
    /\ evictable_size_ c2 = evictable_size_ c /\ protected_size_ c2 = protected_size_ c /\ d' = - d.
Proof.
  destruct (lock_roundtrip_ok cfg c G L n Hps Hdis Hok HL Hn)
    as (d & d' & c1 & c2 & H1 & H2 & Hok1 & Hok2 & HL1 & _ & _ & _ & Hsame & He & Hp & Hd & _).
  exists d, d', c1, c2. split_and!; try done.
  intros i Ha Hi'. apply (ok_leaves _ _ _ Hok1) in Hi' as (Hne & Hli & nd & Hnd & Hz & _).
  rewrite (lk_count _ _ _ HL1 i nd), lock_count_cons, Ha in Hz by done.
  pose proof (lock_count_nonneg G L i). lia.
Qed.

Lemma lock_unlock_roundtrip_witness :
  exists G d c1 c2, inc_lock_ref sample_cfg sample_cache (Some (root_node sample_cache)) = Ok (d, c1)
    /\ dec_lock_ref sample_cfg c1 (Some (root_node sample_cache)) = Ok (- d, c2)
    /\ evictable_size_ c2 = evictable_size_ sample_cache /\ cache_ok (cfg_page_size sample_cfg) sample_cache G.
Proof.
  destruct sample_ok as (G & Hok & HL & _). exists G.
  destruct (lock_unlock_roundtrip sample_cfg sample_cache G [] (root_node sample_cache) ltac:(done) eq_refl Hok HL
              (ex_intro _ _ (ok_root _ _ _ (ok_tree _ _ _ Hok))))
    as (d & d' & c1 & c2 & Hi & Hd & _ & _ & _ & _ & He & _ & ->).
  exists d, c1, c2. exact (conj Hi (conj Hd (conj He Hok))).
Defined.

(** C21: [evict] on a well-formed cache raises nothing and frees whole nodes: the
    number it returns is what the allocator gains and the evictable size loses, and
    every freed index was held by the tree.  The victims are taken one at a time, each
    an evictable leaf of least priority among the evictable leaves of that moment;
    locked paths stay cached.  It stops short of the request only when nothing
    evictable is left. *)
Theorem evict_correct cfg sha256 {A : Type} {Pool : KVPool A} {Heap : HeapQ} c G (a : A) num L rest
    (Hps : 1 <= cfg_page_size cfg) (Hdis : cfg_disable cfg = false)
    (Hsha : forall l, Forall is_byte (sha256 l) /\ 8 <= zlen (sha256 l))
    (Hok : cache_ok (cfg_page_size cfg) c G) (HL : locks_ok c G L) (Hpg : pages_ok (cfg_page_size cfg) G)
    (Hown : kv_owns a (tree_slots c G ++ rest)) (Hsz : kv_page_size a = cfg_page_size cfg) :
  exists n c' G' a' xs, evict cfg sha256 c a num = Ok (n, c', a')
    /\ cache_ok (cfg_page_size cfg) c' G' /\ evictions cfg sha256 c G xs c' G'
    /\ kv_owns a' (tree_slots c' G' ++ rest) /\ kv_available a' = kv_available a + n
    /\ evictable_size_ c' = evictable_size_ c - n /\ protected_size_ c' = protected_size_ c
    /\ G' ⊆ G /\ Forall (fun l => G' !! l = G !! l) L
    /\ (num <= n \/ evictable_size_ c' = 0).
Proof.
  destruct (evict_ok cfg sha256 Hps Hsha c G a num L rest Hdis Hok HL Hpg Hown Hsz)
    as (n & c' & G' & a' & xs & He & [] & Hev & Hend).
  exists n, c', G', a', xs. split_and!; try done.
  eapply Forall_impl; [apply (lk_live _ _ _ et_locks)|]. intros l [x Hl]. rewrite Hl. symmetry.
  by eapply lookup_weaken.
Qed.

Lemma evict_correct_witness :
  exists (G : ghost) n c' (G' : ghost) a', evict sample_cfg sample_digest (H := paged_pool) sample_cache sample_pool 3 = Ok (n, c', a')
    /\ available_size a' = available_size sample_pool + n
    /\ (3 <= n \/ evictable_size_ c' = 0) /\ G' ⊆ G.
Proof.
  destruct sample_ok as (G & Hok & HL & Hpg & Hown). exists G.
  destruct (evict_correct sample_cfg sample_digest (Pool := paged_pool) sample_cache G sample_pool 3 [] [8; 9; 10; 11]
              ltac:(done) eq_refl sample_digest_ok Hok HL Hpg Hown eq_refl)
    as (n & c' & G' & a' & xs & He & _ & _ & _ & Hav & _ & _ & Hsub & _ & Hend).
  exists n, c', G', a'. exact (conj He (conj Hav (conj Hend Hsub))).
Defined.

(** ** Requests *)

(** A request that holds the pages 4 and 5: it matched nothing, its prompt is
    [11; 12; 17] and one token has been generated. *)
Definition sample_req : Req :=
  MkReq (Some 1) [11; 12; 17] [21] [11; 12; 17; 21] None None [] (Some (root_node sample_cache)) 0 0 4 4
    false false 0.
Definition sample_rows : ReqToTokenPool := MkReqPool 2 4 [[0; 0; 0; 0]; [8; 9; 10; 11]] [0].

Lemma sample_req_holds G toks : toks = [11; 12; 17; 21] -> cache_ok (cfg_page_size sample_cfg) sample_cache G ->
  req_holds sample_cfg G sample_rows sample_req toks [8; 9; 10; 11] [4; 5] (root_node sample_cache) [].
Proof.
  intros -> Hok. split.
  - vm_compute. reflexivity.
  - reflexivity.
  - vm_compute. reflexivity.
  - change (zlen [4; 5]) with 2. change (zlen [8; 9; 10; 11]) with 4. simpl. lia.
  - reflexivity.
  - exact (ok_root _ _ _ (ok_tree _ _ _ Hok)).
  - reflexivity.
  - reflexivity.
  - vm_compute. discriminate.
  - repeat constructor; done.
Qed.

(** C27: [cache_finished_req] of a request that holds its pages through a lock raises
    nothing and gives every page of the request away exactly once: what the tree does
    not take is freed, so that afterwards the allocator owns the indices of the tree
    and those of the other clients and nothing else.  The request's lock is released,
    nothing cached is lost, and with insertion enabled the page-aligned committed
    sequence is cached. *)
Theorem cache_finished_req_conserves cfg monotonic sha256 {A : Type} {Pool : KVPool A}
    c G (a : A) pool req is_insert toks kv pages n q L rest
    (Hps : 1 <= cfg_page_size cfg) (Hdis : cfg_disable cfg = false)
    (Hsha : forall l, Forall is_byte (sha256 l) /\ 8 <= zlen (sha256 l))
    (Hok : cache_ok (cfg_page_size cfg) c G) (HL : locks_ok c G (n :: L)) (Hpg : pages_ok (cfg_page_size cfg) G)
    (Hown : kv_owns a (tree_slots c G ++ req_pages cfg pages q ++ rest))
    (Hsz : kv_page_size a = cfg_page_size cfg) (Hfree : kv_committed_freed req = false)
    (Htoks : toks = py_upto (origin_input_ids req ++ output_ids req)
               (cache_commit_len (cfg_strip_thinking_cache cfg) req))
    (Hreq : req_holds cfg G pool req toks kv pages n q) :
  exists c' a' req' G',
    cache_finished_req cfg monotonic sha256 c a pool req is_insert = Ok (c', a', req')
    /\ cache_ok (cfg_page_size cfg) c' G' /\ locks_ok c' G' L
    /\ kv_owns a' (tree_slots c' G' ++ rest) /\ kv_committed_freed req' = true
    /\ (forall k v, cached (cfg_page_size cfg) G k v -> cached (cfg_page_size cfg) G' k v)
    /\ (is_insert = true -> cfg_disable_finished_insert cfg = false ->
        exists v, cached (cfg_page_size cfg) G' (units (req_key cfg req toks)) v).
Proof.
  destruct (cache_finished_req_ok cfg monotonic sha256 Hps Hsha Hdis c G a pool req is_insert toks kv pages
              n q L rest Hok HL Hpg Hown Hsz Hfree Htoks Hreq)
    as (c' & a' & req' & G' & H1 & H2 & H3 & H4 & H5 & H6 & -> & H8 & H9 & _).
  eexists c', a', _, G'. by split_and!.
Qed.

(** A lock on the root is held by every request that matched nothing. *)
Lemma sample_root_lock : exists G, cache_ok (cfg_page_size sample_cfg) sample_cache G
  /\ locks_ok sample_cache G [root_node sample_cache] /\ pages_ok (cfg_page_size sample_cfg) G
  /\ kv_owns (KVPool := paged_pool) sample_pool (tree_slots sample_cache G ++ [8; 9; 10; 11]).
Proof.
  destruct sample_ok as (G & Hok & HL & Hpg & Hown). exists G. refine (conj Hok (conj _ (conj Hpg Hown))).
  pose proof (ok_root _ _ _ (ok_tree _ _ _ Hok)) as Hr. split; [constructor; [eauto|constructor]|].
  intros n nd [[q w] Hn] Hne Hnd. rewrite (lk_count _ _ _ HL n nd) by eauto. rewrite lock_count_cons.
  destruct (anc G n (root_node sample_cache)) eqn:E; [|done].
  apply (anc_spec _ _ _ _ _ _ _ Hn Hr) in E. destruct q as [|x q]; [|done].
  exfalso. apply Hne. exact (root_path (cfg_page_size sample_cfg) ltac:(done) sample_cache G n w (ok_tree _ _ _ Hok) Hn).
Qed.

Lemma cache_finished_req_conserves_witness :
  exists c' a' req' G',
    cache_finished_req sample_cfg sample_clock sample_digest (H := paged_pool) sample_cache sample_pool sample_rows
      sample_req true = Ok (c', a', req')
    /\ kv_owns (KVPool := paged_pool) a' (tree_slots c' G' ++ []).
Proof.
  destruct sample_root_lock as (G & Hok & HL & Hpg & Hown).
  destruct (cache_finished_req_conserves sample_cfg sample_clock sample_digest (Pool := paged_pool) sample_cache G
              sample_pool sample_rows sample_req true [11; 12; 17; 21] [8; 9; 10; 11] [4; 5]
              (root_node sample_cache) [] [] [] ltac:(done) eq_refl sample_digest_ok Hok HL Hpg
              Hown eq_refl eq_refl eq_refl (sample_req_holds G _ eq_refl Hok))
    as (c' & a' & req' & G' & H1 & _ & _ & H4 & _).
  exists c', a', req', G'. exact (conj H1 H4).
Defined.

(** C28: [cache_unfinished_req] keeps a running request consistent with the cache.  It
    raises nothing; afterwards the request locks the node that ends its page-aligned
    sequence, its row of the request table and [prefix_indices] list the cached KV
    indices followed by its own tail, its duplicates of cached pages are freed, and no
    page is lost or held twice. *)
Theorem cache_unfinished_req_consistent cfg monotonic sha256 {A : Type} {Pool : KVPool A}
    c G (a : A) pool req chunked kv pages n q L rest
    (Hps : 1 <= cfg_page_size cfg) (Hdis : cfg_disable cfg = false)
    (Hsha : forall l, Forall is_byte (sha256 l) /\ 8 <= zlen (sha256 l))
    (Hok : cache_ok (cfg_page_size cfg) c G) (HL : locks_ok c G (n :: L)) (Hpg : pages_ok (cfg_page_size cfg) G)
    (H32 : slots32 cfg G) (Hkv : Forall fits32 kv)
    (Hown : kv_owns a (tree_slots c G ++ req_pages cfg pages q ++ rest))
    (Hsz : kv_page_size a = cfg_page_size cfg)
    (Hreq : req_holds cfg G pool req (fill_ids req) kv pages n q) :
  let K := units (req_key cfg req (fill_ids req)) in
  exists c' a' pool' req' G' kv' pages' n',
    cache_unfinished_req cfg monotonic sha256 c a pool req chunked = Ok (c', a', pool', req')
    /\ cache_ok (cfg_page_size cfg) c' G' /\ locks_ok c' G' (n' :: L)
    /\ req_holds cfg G' pool' req' (fill_ids req') kv' pages' n' K
    /\ fill_ids req' = fill_ids req /\ prefix_indices req' = kv'
    /\ kv_owns a' (tree_slots c' G' ++ req_pages cfg pages' K ++ rest)
    /\ (forall k v, cached (cfg_page_size cfg) G k v -> cached (cfg_page_size cfg) G' k v).
Proof.
  cbn zeta. destruct (cache_unfinished_req_ok cfg monotonic sha256 Hps Hsha Hdis c G a pool req chunked kv pages
              n q L rest Hok HL Hpg H32 Hkv Hown Hsz Hreq)
    as (c' & a' & pool' & req' & G' & kv' & pages' & n' & H1 & H2 & H3 & H4 & H5 & H6 & H7 & H8 & H9 & H10 & H11 & H12).
  exists c', a', pool', req', G', kv', pages', n'. by split_and!.
Qed.

(** The KV indices along a path are held by the tree. *)
Lemma path_slots ps c G n q w : 1 <= ps -> tree_ok ps c G -> G !! n = Some (q, w) ->
  Forall (fun i => i ∈ tree_slots c G) w.
Proof.
  intros Hps Hok. remember (length q) as m eqn:Hm. revert n q w Hm.
  induction m as [m IH] using lt_wf_ind. intros n q w Hm Hn.
  destruct (decide (n = root_node c)) as [->|Hr].
  { rewrite (ok_root _ _ _ Hok) in Hn. injection Hn as <- <-. constructor. }
  destruct (ok_node _ _ _ Hok _ _ _ Hn Hr)
    as (nd & p & pn & qp & wp & v & ck & Hs & _ & _ & Hp & Hv & -> & -> & _ & Hlen & _).
  rewrite length_app in Hm. pose proof (zlen_units (key nd)) as Hu. unfold zlen in Hu.
  apply Forall_app. split; [eapply (IH (length qp)); [lia|done|exact Hp]|].
  apply Forall_forall. intros i Hi. unfold tree_slots. rewrite (gcat_remove _ n).
  - apply elem_of_app. left. unfold slots_of. by rewrite Hs, Hv.
  - unfold tree_nodes. rewrite elem_of_difference, elem_of_dom, elem_of_singleton. eauto.
Qed.

(** KV indices of the sample are small. *)
Lemma sample_slots32 G : cache_ok (cfg_page_size sample_cfg) sample_cache G ->
  kv_owns (KVPool := paged_pool) sample_pool (tree_slots sample_cache G ++ [8; 9; 10; 11]) ->
  slots32 sample_cfg G.
Proof.
  intros Hok (pages & HP & Ho & _) k v (n & q & w & Hn & _ & _ & _ & ->). apply Forall_take.
  eapply Forall_impl; [exact (path_slots (cfg_page_size sample_cfg) _ G n q w ltac:(done) (ok_tree _ _ _ Hok) Hn)|].
  intros i Hi. cbv beta in Hi.
  assert (i ∈ expand_pages 2 pages) as Hx by (rewrite <- HP; apply elem_of_app; by left).
  unfold expand_pages in Hx. apply list_elem_of_bind in Hx as (p & Hx & Hp).
  assert (p ∈ zrange 1 7) as Hr.
  { unfold paged_owned in Ho. change (num_pages sample_pool + 1) with 7 in Ho. rewrite <- Ho, !elem_of_app. tauto. }
  apply list_elem_of_In, in_map_iff in Hx as (o & <- & Ho'). apply list_elem_of_In, elem_of_zrange in Ho'.
  apply elem_of_zrange in Hr. unfold fits32, to_int32.
  rewrite Z.mod_small; lia.
Qed.

Lemma cache_unfinished_req_consistent_witness :
  exists c' a' pool' req',
    cache_unfinished_req sample_cfg sample_clock sample_digest (H := paged_pool) sample_cache sample_pool sample_rows
      sample_req false = Ok (c', a', pool', req')
    /\ fill_ids req' = [11; 12; 17; 21].
Proof.
  destruct sample_root_lock as (G & Hok & HL & Hpg & Hown).
  destruct (cache_unfinished_req_consistent sample_cfg sample_clock sample_digest (Pool := paged_pool) sample_cache G
              sample_pool sample_rows sample_req false [8; 9; 10; 11] [4; 5]
              (root_node sample_cache) [] [] [] ltac:(done) eq_refl sample_digest_ok Hok HL Hpg
              (sample_slots32 G Hok Hown) ltac:(repeat constructor) Hown eq_refl
              (sample_req_holds G _ eq_refl Hok))
    as (c' & a' & pool' & req' & G' & kv' & pages' & n' & H1 & _ & _ & _ & H5 & _).
  exists c', a', pool', req'. exact (conj H1 H5).
Defined.
