(* ===== verification/RadixBase.v ===== *)
(** The radix cache as an instance of [BasePrefixCache]: the theorems of
    [RadixEvict.v] and [RadixReq.v] discharge the contract that [common.py] relies on. *)

From S2P Require Export ChunkCache RadixCache RadixTree RadixLock RadixEvict RadixReq RadixProps.

Lemma Forall2_perm_l {A B} (R : A -> B -> Prop) l l' k : Permutation l l' -> Forall2 R l k ->
  exists k', Forall2 R l' k' /\ Permutation k k'.
Proof.
  intros HP. revert k. induction HP as [|x l l' HP IH|x y l|l1 l2 l3 H1 IH1 H2 IH2]; intros k HF.
  - eauto.
  - inversion HF as [|? z ? k0 Hx Hl]; subst. destruct (IH k0 Hl) as (k' & HF' & HP'). exists (z :: k'). split; [by constructor|by rewrite HP'].
  - inversion HF as [|? z ? k0 Hx Hl]; subst. inversion Hl as [|? z' ? k1 Hy Hl']; subst.
    exists (z' :: z :: k1). split; [by repeat constructor|apply perm_swap].
  - destruct (IH1 k HF) as (k1 & HF1 & HP1). destruct (IH2 k1 HF1) as (k2 & HF2 & HP2). exists k2. split; [done|by rewrite HP1].
Qed.

Section RadixInstance.
Context (cfg : CacheConfig) (monotonic : nat -> Z) (sha256 : list Z -> list Z).
Context (Hps : 1 <= cfg_page_size cfg) (Hdis : cfg_disable cfg = false).
Context (Hsha : forall l, Forall is_byte (sha256 l) /\ 8 <= zlen (sha256 l)).
Context {A : Type} (Pool : KVPool A) {Heap : HeapQ}.

(** [n] is the committed length of a request locked at [node]. *)
Definition radix_holds_at (G : ghost) (pool : ReqToTokenPool) (h : holding) (node : nat) : Prop :=
  let '(req, n, own) := h in
  exists kv pages q,
    let toks := py_upto (origin_input_ids req ++ output_ids req) n in
    n = cache_commit_len (cfg_strip_thinking_cache cfg) req /\ zlen toks = n
    /\ req_holds cfg G pool req toks kv pages node q /\ own = req_pages cfg pages q.

(** The locks of the running requests are among the locks of the tree. *)
Definition radix_holds (g : ghost * list nat) (pool : ReqToTokenPool) (hs : list holding) : Prop :=
  exists nodes L', Permutation g.2 (nodes ++ L') /\ Forall2 (radix_holds_at g.1 pool) hs nodes.

(** Growing the tree, or shrinking it above the locked nodes, leaves a request alone. *)
Lemma holds_at_mono G G' pool h node : (forall x, G !! node = Some x -> G' !! node = Some x) ->
  radix_holds_at G pool h node -> radix_holds_at G' pool h node.
Proof.
  intros HG. destruct h as [[req n] own]. intros (kv & pages & q & Hn & Hl & [] & Hown). exists kv, pages, q.
  split_and!; try done. split; auto.
Qed.

Lemma radix_holds_mono G G' L pool hs : (forall n x, n ∈ L -> G !! n = Some x -> G' !! n = Some x) ->
  radix_holds (G, L) pool hs -> radix_holds (G', L) pool hs.
Proof.
  intros HG (nodes & L' & HP & HF). exists nodes, L'. split; [done|]. simpl in *.
  assert (forall n, n ∈ nodes -> n ∈ L) as Hin by (intros n Hn; rewrite HP; set_solver). clear HP.
  induction HF as [|h node hs nodes Hh HF IH]; constructor.
  - eapply holds_at_mono; [|exact Hh]. intros x. apply HG, Hin. by left.
  - apply IH. intros n Hn. apply Hin. by right.
Qed.

Definition radix_ok (c : RadixCache) (g : ghost * list nat) : Prop :=
  cache_ok (cfg_page_size cfg) c g.1 /\ locks_ok c g.1 g.2 /\ pages_ok (cfg_page_size cfg) g.1.

(** A match is no longer than the key and whole pages. *)
Lemma match_len c G k n q w : cache_ok (cfg_page_size cfg) c G ->
  longest cfg c G (units (norm_key cfg k)) n q w ->
  zlen w <= zlen (token_ids k) /\ (cfg_page_size cfg | zlen w).
Proof.
  intros Hok []. destruct (path_lengths _ Hps c G n q w (ok_tree _ _ _ Hok) lg_live) as [Hl Hd].
  pose proof (zlen_units (norm_key cfg k)) as Hu. unfold norm_key in Hu. rewrite page_aligned_len in Hu by done.
  set (k1 := (maybe_to_bigram_view k (cfg_is_eagle cfg) None).1) in *.
  assert (key_len k1 <= zlen (token_ids k)).
  { pose proof (zlen_nonneg (token_ids k)). unfold k1, maybe_to_bigram_view. destruct (_ && _); simpl; unfold key_len; simpl;
      [destruct (Z.ltb_spec 0 (zlen (token_ids k))); lia|]. destruct (is_bigram k); [destruct (Z.ltb_spec 0 (zlen (token_ids k)))|]; lia. }
  pose proof (Z.mul_div_le (key_len k1) (cfg_page_size cfg) ltac:(lia)). change (page_aligned k1 (cfg_page_size cfg)) with (norm_key cfg k) in Hu.
  unfold zlen in *. rewrite Hl. split; [lia|done].
Qed.

#[export] Program Instance radix_prefix_cache : BasePrefixCache RadixCache A Pool := {
  tc_page_size _ := cfg_page_size cfg;
  tc_is_chunk_cache := false;
  tc_disable := cfg_disable cfg;
  tc_evictable_size := evictable_size;
  tc_match_prefix c k := let* (v, n, c) := match_prefix cfg monotonic c k in Ok (v, Some n, c);
  tc_evict := evict cfg sha256;
  tc_inc_lock_ref := inc_lock_ref cfg;
  tc_dec_lock_ref := dec_lock_ref cfg;
  tc_cache_finished_req := cache_finished_req cfg monotonic sha256;
  tc_ghost := (ghost * list nat)%type;
  tc_ok := radix_ok;
  tc_slots c g := tree_slots c g.1;
  tc_holds _ := radix_holds;
  tc_lockable g n := exists x, n = Some x /\ is_Some (g.1 !! x);
}.
Next Obligation. done. Qed.
Next Obligation. intros c g (Hok & _). apply (total_sizes cfg c g.1 Hok). Qed.
Next Obligation. done. Qed.
Next Obligation.
  intros c [G L] k (Hok & HL & Hpg). simpl in *.
  destruct (match_prefix_ok cfg monotonic Hps c G k Hdis Hok) as (v & n & c' & G' & q & -> & Hok' & Hk & Hl).
  destruct (match_len c' G' k n q v Hok' Hl) as [Hlen Hdv]. cbn [res_bind].
  exists v, (Some n), c', (G', L). simpl. split_and!; try done.
  - split_and!; [done|by apply (keeps_locks _ _ _ _ _ Hk)|by eapply pages_ok_keeps].
  - apply (keeps_slots _ _ _ _ _ Hk).
  - apply (keeps_evictable _ _ _ _ _ Hk).
  - exists n. split; [done|]. destruct Hl. eauto.
  - intros m (x & -> & [y Hx]). exists x. split; [done|]. exists y. by apply (lookup_weaken _ _ _ _ Hx (keeps_ghost _ _ _ _ _ Hk)).
  - intros pool hs. apply radix_holds_mono. intros m x _ Hx. by apply (lookup_weaken _ _ _ _ Hx (keeps_ghost _ _ _ _ _ Hk)).
Qed.
Next Obligation.
  intros c [G L] a num rest (Hok & HL & Hpg) Hown Hsz. simpl in *.
  destruct (evict_ok cfg sha256 Hps Hsha c G a num L rest Hdis Hok HL Hpg Hown Hsz)
    as (n & c' & G' & a' & xs & He & [] & _ & Hend).
  exists n, c', a', (G', L). unfold evictable_size. rewrite et_psize, Hsz. split_and!; try done.
  intros pool hs. apply radix_holds_mono. intros x y Hx Hy.
  destruct (proj1 (Forall_forall _ _) (lk_live _ _ _ et_locks) x Hx) as [z Hz]. rewrite Hz.
  pose proof (lookup_weaken _ _ _ _ Hz et_ghost) as Hz'. congruence.
Qed.
Next Obligation.
  intros c [G L] a pool req n own hs is_insert rest (Hok & HL & Hpg) (nodes & L' & HP & HF) Hown Hsz Hf. simpl in *.
  inversion HF as [|? node ? nodes' Hat HF']; subst. destruct Hat as (kv & pages & q & Hn & Hl & Hrh & ->). simpl in HP.
  destruct (cache_finished_req_ok cfg monotonic sha256 Hps Hsha Hdis c G a pool req is_insert (py_upto (origin_input_ids req ++ output_ids req) n) kv pages
              node q (nodes' ++ L') rest Hok (locks_ok_perm _ _ _ _ HP HL) Hpg Hown Hsz Hf ltac:(by rewrite Hn) Hrh)
    as (c' & a' & req' & G' & H1 & H2 & H3 & H4 & H5 & H6 & -> & _ & _ & Hsub).
  exists c', a', (G', nodes' ++ L'). rewrite H6, Hsz. split_and!; try done.
  apply (radix_holds_mono G G'); [intros x y _ Hx; by apply (lookup_weaken _ _ _ _ Hx Hsub)|]. by exists nodes', L'.
Qed.
Next Obligation.
  intros c [G L] n (Hok & HL & Hpg) (x & -> & Hx). simpl in *.
  destruct (lock_roundtrip_ok cfg c G L x Hps Hdis Hok HL Hx)
    as (d & d' & c1 & c2 & H1 & H2 & Hok1 & Hok2 & HL1 & HL2 & Hs1 & Hs2 & _ & He & _ & _ & Hle).
  exists d, c1, (G, x :: L), d', c2, (G, L). split_and!; try done.
  intros pool hs (nodes & L' & HP & HF). split; [|by exists nodes, L']. exists nodes, (x :: L'). split; [|done].
  simpl in *. rewrite HP. apply Permutation_middle.
Qed.
Next Obligation.
  intros c g pool hs (nodes & L' & _ & HF). induction HF as [|[[req n] own] node hs nodes Hat _ IH]; constructor; [|done].
  destruct Hat as (kv & pages & q & _ & _ & Hrh & _). destruct Hrh. unfold read_row in rh_row. simpl. destruct (req_pool_idx req); [eauto|done].
Qed.
Next Obligation.
  intros c g pool hs hs' HP (nodes & L' & HL & HF). destruct (Forall2_perm_l _ _ _ _ HP HF) as (nodes' & HF' & HP').
  exists nodes', L'. split; [by rewrite HL, HP'|done].
Qed.
Next Obligation.
  intros c g pool pool' hs Hrow (nodes & L' & HL & HF). exists nodes, L'. split; [done|]. clear HL.
  induction HF as [|[[req n] own] node hs nodes Hat HF IH]; constructor.
  - destruct Hat as (kv & pages & q & Hn & Hl & Hrh & Hown). exists kv, pages, q. split_and!; try done. apply Forall_cons in Hrow as [Hr _]. simpl in Hr. destruct Hrh. split; try done.
    rewrite Hl in *. by rewrite Hr.
  - apply IH. by apply Forall_cons in Hrow as [_ ?].
Qed.
End RadixInstance.
