(* ===== verification/KVCommon.v ===== *)
(** KV memory for batches: [mem_cache/common.py].  The functions work against the
    interfaces [KVAllocator] and [BasePrefixCache]; each returns the new cache and
    allocator beside its result.  Sliding-window and Mamba pools, which need the
    hybrid allocators, are not modelled: the branches guarded by them are absent. *)

From S2P Require Export Prelude KVAlloc KVTable ChunkCache.

(** ** Page arithmetic *)

(** [kv_indices[::page_size] // page_size], for a positive page size *)
Definition kv_to_page_indices (kv_indices : list Z) (page_size : Z) : list Z :=
  if page_size =? 1 then kv_indices
  else omap (fun '(i, x) => if Z.of_nat i mod page_size =? 0 then Some (x / page_size) else None)
         (imap pair kv_indices).

Definition kv_to_page_num (num_kv_indices page_size : Z) : Z := (num_kv_indices + page_size - 1) / page_size.

Definition page_align_floor (length page_size : Z) : Z := length / page_size * page_size.

Definition ceil_align (x y : Z) : Z := (x + y - 1) / y * y.

(** ** Allocation *)

(** The fields of [ScheduleBatch] that allocation reads. *)
Record ScheduleBatch : Type := MkBatch {
  b_reqs : list Req;
  b_prefix_lens : list Z;
  b_extend_lens : list Z;
  b_seq_lens : list Z;
  b_extend_num_tokens : Z;
  b_req_pool_indices : list Z
}.

Section Common.
Context {T A : Type} {Alloc : KVAllocator A} {Cache : BasePrefixCache T A kva_pool}.

(** The tree cache is never [None] here. *)
Definition evict_from_tree_cache (t : T) (a : A) (num_tokens : Z) : res (T * A) :=
  if tc_is_chunk_cache then Ok (t, a)
  else if kv_available a <? num_tokens then
    let* (_, t, a) := tc_evict t a num_tokens in Ok (t, a)
  else Ok (t, a).

Definition alloc_token_slots (t : T) (a : A) (num_tokens : Z) (backup_state : bool)
    : res (list Z * option (list Z * list Z) * T * A) :=
  let* (t, a) := evict_from_tree_cache t a num_tokens in
  let state := if backup_state then Some (kv_backup_state a) else None in
  let* (out_cache_loc, a) := kv_alloc a num_tokens in
  match out_cache_loc with
  | None => Raise RuntimeError
  | Some out_cache_loc => Ok (out_cache_loc, state, t, a)
  end.

Definition alloc_paged_token_slots_extend (t : T) (a : A) (prefix_lens seq_lens last_loc : list Z)
    (extend_num_tokens : Z) (backup_state : bool) : res (list Z * option (list Z * list Z) * T * A) :=
  let num_tokens := extend_num_tokens + zlen seq_lens * kv_page_size a in
  let* (t, a) := evict_from_tree_cache t a num_tokens in
  let state := if backup_state then Some (kv_backup_state a) else None in
  let* (out_cache_loc, a) := kv_alloc_extend a prefix_lens seq_lens last_loc extend_num_tokens in
  match out_cache_loc with
  | None => Raise RuntimeError
  | Some out_cache_loc => Ok (out_cache_loc, state, t, a)
  end.

Definition alloc_req_slots (pool : ReqToTokenPool) (reqs : list Req) : res (list (option Z) * list Req * ReqToTokenPool) :=
  let* r := pool_alloc pool reqs in
  match r with
  | None => Raise RuntimeError
  | Some x => Ok x
  end.

(** [torch.tensor(req_pool_indices)]: every entry must be an integer. *)
Fixpoint as_tensor (l : list (option Z)) : res (list Z) :=
  match l with
  | [] => Ok []
  | Some i :: l => let* r := as_tensor l in Ok (i :: r)
  | None :: _ => Raise TypeError
  end.

Context (oob : Z -> Z) (support_triton : bool) (order : list Z).

(** Returns the new KV indices, the rows of the requests, and the new cache, allocator,
    request table and requests. *)
Definition alloc_for_extend (t : T) (a : A) (pool : ReqToTokenPool) (batch : ScheduleBatch)
    : res (list Z * list Z * T * A * ReqToTokenPool * list Req) :=
  let prefix_tensors := map prefix_indices (b_reqs batch) in
  let prefix_lens := b_prefix_lens batch in
  let extend_lens := b_extend_lens batch in
  let* (req_pool_indices, reqs, pool) := alloc_req_slots pool (b_reqs batch) in
  let* req_pool_indices := as_tensor req_pool_indices in
  let* (out_cache_loc, _, t, a) :=
    if tc_page_size t =? 1 then alloc_token_slots t a (b_extend_num_tokens batch) false
    else
      let last_loc := map (fun l => default (-1) (last l)) prefix_tensors in
      alloc_paged_token_slots_extend t a prefix_lens (b_seq_lens batch) last_loc (b_extend_num_tokens batch) false in
  let* pool := write_cache_indices oob support_triton order out_cache_loc req_pool_indices prefix_lens
                 (b_seq_lens batch) extend_lens prefix_tensors pool in
  Ok (out_cache_loc, req_pool_indices, t, a, pool, reqs).

Definition alloc_paged_token_slots_decode (t : T) (a : A) (seq_lens last_loc : list Z) : res (list Z * T * A) :=
  let num_tokens := zlen seq_lens * kv_page_size a in
  let* (t, a) := evict_from_tree_cache t a num_tokens in
  let* (out_cache_loc, a) := kv_alloc_decode a seq_lens last_loc in
  match out_cache_loc with
  | None => Raise RuntimeError
  | Some out_cache_loc => Ok (out_cache_loc, t, a)
  end.

(** [req_to_token_pool.write((rows, cols), values)] for index tensors *)
Fixpoint write_entries (tab : list (list Z)) (rows cols values : list Z) : res (list (list Z)) :=
  match rows, cols, values with
  | [], [], [] => Ok tab
  | i :: rows, j :: cols, v :: values =>
      match wrap_index (zlen tab) i with
      | None => Raise IndexError
      | Some r =>
          let row := default [] (tab !! r) in
          match wrap_index (zlen row) j with
          | None => Raise IndexError
          | Some k => write_entries (<[r := <[k := v]> row]> tab) rows cols values
          end
      end
  | _, _, _ => Raise RuntimeError
  end.

(** [encoder_lens] is given for encoder-decoder models. *)
Definition alloc_for_decode (encoder_lens : option (list Z)) (t : T) (a : A) (pool : ReqToTokenPool)
    (batch : ScheduleBatch) (token_per_req : Z) : res (list Z * T * A * ReqToTokenPool) :=
  let bs := zlen (b_seq_lens batch) in
  let* (out_cache_loc, t, a) :=
    if tc_page_size t =? 1 then
      let* (out_cache_loc, _, t, a) := alloc_token_slots t a (bs * token_per_req) false in Ok (out_cache_loc, t, a)
    else
      let* last_loc := gather2 (req_to_token pool) (b_req_pool_indices batch) (map (fun s => s - 1) (b_seq_lens batch)) in
      let seq_lens_next := map (fun s => s + token_per_req) (b_seq_lens batch) in
      alloc_paged_token_slots_decode t a seq_lens_next last_loc in
  let locs :=
    match encoder_lens with
    | Some e => zip_with Z.add e (b_seq_lens batch)
    | None => b_seq_lens batch
    end in
  let* tab := write_entries (req_to_token pool) (b_req_pool_indices batch) locs (map to_int32 out_cache_loc) in
  Ok (out_cache_loc, t, a, set_table pool tab).

(** ** Release *)

(** The server arguments that [release_kv_cache] reads. *)
Record release_args : Type := MkReleaseArgs {
  ra_page_size : Z;
  ra_speculative : bool;
  ra_strip_thinking_cache : bool
}.

(** [req_to_token[i][a:b]] *)
Definition read_slice (pool : ReqToTokenPool) (i : option Z) (a b : Z) : res (list Z) :=
  match i with
  | None => Raise TypeError
  | Some i =>
      match row_at pool i with
      | Some (_, row) => Ok (py_slice row a b)
      | None => Raise IndexError
      end
  end.

(** [skip] is [req.skip_radix_cache_insert].  Only the Mamba cache frees a request that
    has no row. *)
Definition release_kv_cache (args : release_args) (t : T) (a : A) (pool : ReqToTokenPool) (req : Req)
    (skip is_insert : bool) : res (T * A * ReqToTokenPool * Req) :=
  if has_slot req then
    let* (t, a, req) := tc_cache_finished_req t a pool req (is_insert && negb skip) in
    if has_slot req then
      let* (start_p, end_p, req) := pop_overallocated_kv_cache (ra_strip_thinking_cache args) req in
      let* _ := if negb (ra_speculative args) && negb (ra_strip_thinking_cache args)
                then py_assert (start_p =? end_p) else Ok tt in
      let start_p := if 1 <? ra_page_size args then ceil_align start_p (ra_page_size args) else start_p in
      let* a :=
        if start_p <? end_p then
          let* indices_to_free := read_slice pool (req_pool_idx req) start_p end_p in
          kv_free a indices_to_free
        else Ok a in
      let* (pool, req) := pool_free pool req in
      Ok (t, a, pool, req)
    else Ok (t, a, pool, req)
  else Raise AssertionError.
End Common.

(** ** Lemmas: request slots *)

(** Every row is free or held by a request. *)
Definition pool_owned (p : ReqToTokenPool) (held : list Z) : Prop :=
  Permutation (free_slots p ++ held) (zrange 1 (pool_size p + 1)).

(** The requests without a row. *)
Definition unplaced (reqs : list Req) : list Req := filter (fun r => has_slot r = false) reqs.

Lemma reusing_split reqs :
  zlen reqs - zlen (filter (fun r => has_slot r = true) reqs) = zlen (unplaced reqs).
Proof.
  unfold unplaced. induction reqs as [|r reqs IH]; [done|]. rewrite !filter_cons. destruct (has_slot r); simpl;
    rewrite !zlen_cons; lia.
Qed.

(** Only the row of a request changes. *)
Definition placed_as (r r' : Req) : Prop := r' = set_req_pool_idx r (req_pool_idx r').

Lemma set_same_idx r : r = set_req_pool_idx r (req_pool_idx r).
Proof. by destruct r. Qed.

Lemma assign_slots_ok reqs sel : zlen sel = zlen (unplaced reqs) ->
  exists rs idxs, assign_slots reqs sel = Ok rs /\ map req_pool_idx rs = map Some idxs
    /\ Permutation idxs (sel ++ omap req_pool_idx reqs) /\ Forall2 placed_as reqs rs.
Proof.
  revert sel. induction reqs as [|r reqs IH]; intros sel Hl.
  { apply zlen_zero_inv in Hl as ->. exists [], []. by split_and!. }
  unfold unplaced in Hl. rewrite filter_cons in Hl. simpl. destruct (has_slot r) eqn:Hs; simpl in Hl.
  - destruct (IH sel Hl) as (rs & idxs & -> & Hi & HP & HF). simpl. unfold has_slot in Hs.
    destruct (req_pool_idx r) as [i|] eqn:Hr; [|done]. exists (r :: rs), (i :: idxs). simpl. rewrite Hr, Hi.
    split_and!; [done|done|rewrite HP; apply Permutation_middle|]. constructor; [apply set_same_idx|done].
  - rewrite zlen_cons in Hl. destruct sel as [|i sel]; [rewrite zlen_nil in Hl; pose proof (zlen_nonneg (unplaced reqs)); unfold unplaced in *; lia|].
    rewrite zlen_cons in Hl. destruct (IH sel) as (rs & idxs & -> & Hi & HP & HF); [unfold unplaced; lia|]. simpl.
    unfold has_slot in Hs. destruct (req_pool_idx r) as [j|] eqn:Hr; [done|].
    exists (set_req_pool_idx r (Some i) :: rs), (i :: idxs). simpl. rewrite Hi. split_and!; [done|done|by rewrite HP|].
    constructor; [done|done].
Qed.

Lemma as_tensor_some idxs : as_tensor (map Some idxs) = Ok idxs.
Proof. induction idxs as [|i l IH]; [done|]. simpl. by rewrite IH. Qed.

Lemma pool_alloc_ok p reqs held :
  pool_owned p (omap req_pool_idx reqs ++ held) -> zlen (unplaced reqs) <= zlen (free_slots p) ->
  Forall (fun r => has_slot r = true -> 0 < is_chunked r \/ 0 < kv_committed_len r) reqs ->
  exists idxs rs p', alloc_req_slots p reqs = Ok (map Some idxs, rs, p') /\ map req_pool_idx rs = map Some idxs
    /\ Forall2 placed_as reqs rs /\ p' = set_free_slots p (free_slots p') /\ pool_owned p' (idxs ++ held).
Proof.
  intros Ho Hl Hre. unfold alloc_req_slots, pool_alloc. rewrite reusing_split.
  assert (forallb (fun r => (0 <? is_chunked r) || (0 <? kv_committed_len r)) (filter (fun r => has_slot r = true) reqs) = true) as ->.
  { apply forallb_forall. intros r Hr%list_elem_of_In. apply list_elem_of_filter in Hr as [Hs Hr].
    rewrite Forall_forall in Hre. apply orb_true_iff. rewrite !Z.ltb_lt. by apply Hre. }
  cbn [py_assert res_bind]. destruct (Z.ltb_spec (zlen (free_slots p)) (zlen (unplaced reqs))); [lia|].
  destruct (assign_slots_ok reqs (py_upto (free_slots p) (zlen (unplaced reqs)))) as (rs & idxs & -> & Hi & HP & HF).
  { apply zlen_py_upto. split; [apply zlen_nonneg|done]. }
  cbn [res_bind]. rewrite Hi. eexists idxs, rs, _. split; [done|]. split_and!; [done|done|done|].
  unfold pool_owned in *. cbn [free_slots set_free_slots pool_size]. rewrite <- Ho, HP.
  rewrite <- (py_upto_from (free_slots p) (zlen (unplaced reqs))) at 3 by apply zlen_nonneg.
  set (x := py_from _ _). set (y := py_upto _ _). clear. perm_solver.
Qed.

(** ** Lemmas: eviction before an allocation *)

Section Proofs.
Context {T A : Type} {Alloc : KVAllocator A} {Cache : BasePrefixCache T A kva_pool}.

(** The cache and the allocator agree on who holds which index. *)
Definition in_sync (t : T) (g : tc_ghost) (a : A) (rest : list Z) : Prop :=
  tc_ok t g /\ kv_owns a (tc_slots t g ++ rest) /\ kv_page_size a = tc_page_size t.

(** Eviction before an allocation moves slots from the cache to the pool, enough of
    them unless nothing evictable is left, and leaves the running requests alone. *)
Lemma evict_any t g a rest num : in_sync t g a rest ->
  exists t' a' g', evict_from_tree_cache t a num = Ok (t', a') /\ in_sync t' g' a' rest
    /\ (num <= kv_available a' \/ tc_evictable_size t' = 0) /\ kv_available a <= kv_available a'
    /\ kv_page_size a' = kv_page_size a /\ tc_page_size t' = tc_page_size t
    /\ kv_available a' + tc_evictable_size t' = kv_available a + tc_evictable_size t
    /\ (forall pool hs, tc_holds t g pool hs -> tc_holds t' g' pool hs).
Proof.
  intros Hs. pose proof Hs as (Hok & Hown & Hps). unfold evict_from_tree_cache.
  destruct tc_is_chunk_cache eqn:Hc;
    [pose proof (tc_chunk_evictable t Hc); exists t, a, g; split_and!; try done; by right|].
  destruct (Z.ltb_spec (kv_available a) num); [|exists t, a, g; split_and!; try done; by left].
  destruct (tc_evict_law t g a num rest Hok Hown Hps) as (n & t' & a' & g' & -> & Hok' & Hown' & Hp & Ht & Hn & Ha & He & Hend & Hh).
  pose proof (kv_available_nonneg a _ Hown). cbn [res_bind]. exists t', a', g'.
  split_and!; try done; try lia. unfold in_sync. rewrite Hp, Ht. by split_and!.
Qed.

Lemma evict_enough t g a rest num : in_sync t g a rest -> num <= kv_available a + tc_evictable_size t ->
  exists t' a' g', evict_from_tree_cache t a num = Ok (t', a') /\ in_sync t' g' a' rest
    /\ num <= kv_available a' /\ kv_page_size a' = kv_page_size a /\ tc_page_size t' = tc_page_size t
    /\ kv_available a' + tc_evictable_size t' = kv_available a + tc_evictable_size t
    /\ (forall pool hs, tc_holds t g pool hs -> tc_holds t' g' pool hs).
Proof.
  intros Hs Hnum. destruct (evict_any t g a rest num Hs) as (t' & a' & g' & He & Hs' & Hend & _ & H1 & H2 & H3 & H4).
  exists t', a', g'. split_and!; try done; lia.
Qed.

Lemma alloc_token_slots_ok t g a rest n backup : in_sync t g a rest -> tc_page_size t = 1 -> 0 <= n ->
  n <= kv_available a + tc_evictable_size t ->
  exists out st t' a' g', alloc_token_slots t a n backup = Ok (out, st, t', a') /\ zlen out = n
    /\ in_sync t' g' a' (out ++ rest) /\ (forall pool hs, tc_holds t g pool hs -> tc_holds t' g' pool hs)
    /\ tc_page_size t' = tc_page_size t.
Proof.
  intros Hs H1 Hn Hm. unfold alloc_token_slots.
  destruct (evict_enough t g a rest n Hs Hm) as (t1 & a1 & g1 & -> & (Hok & Hown & Hps) & Hav & _ & Ht & _ & Hkeep). cbn [res_bind].
  destruct (kv_alloc_law a1 _ n (eq_trans Hps (eq_trans Ht H1)) Hown Hn) as (r & a2 & -> & Hp2 & Hr). cbn [res_bind].
  destruct r as [out|]; [|lia]. destruct Hr as (Hl & Ho & _). eexists _, _, _, _, g1. split; [done|].
  split; [done|]. split; [|done]. split_and!; [done| |congruence]. eapply kv_owns_perm; [|exact Ho]. apply Permutation_app_swap_app.
Qed.

Lemma extendable_mono ps u u' pre seq last_loc : (forall x, x ∈ u -> x ∈ u') ->
  extendable ps u pre seq last_loc -> extendable ps u' pre seq last_loc.
Proof. intros Hu (H1 & H2 & H3 & H4). split_and!; [done..|]. intros i Hi Ht. destruct (H4 i Hi Ht). auto. Qed.

Lemma zlen_placement ps u pre seq last_loc pages : 0 < ps -> extendable ps u pre seq last_loc ->
  get_num_new_pages seq ps pre <= zlen pages ->
  zlen (extend_result ps pre seq last_loc pages) = zsum (ext_lens pre seq).
Proof. intros Hps (H1 & H2 & H3 & _) Hk. apply zlen_extend_result. by split. Qed.

(** Where the tokens of a batch went: [fresh] are the slots taken from the pool. *)
Definition placement (ps : Z) (pre seq last_loc out fresh : list Z) : Prop :=
  if ps =? 1 then fresh = out
  else exists pages, out = extend_result ps pre seq last_loc pages
    /\ fresh = expand_pages ps (take (Z.to_nat (get_num_new_pages seq ps pre)) pages).

Lemma alloc_extend_ok t g a rest pre seq last_loc n backup : in_sync t g a rest -> 1 < tc_page_size t ->
  extendable (tc_page_size t) rest pre seq last_loc -> n = zsum (ext_lens pre seq) ->
  n + zlen seq * tc_page_size t <= kv_available a + tc_evictable_size t ->
  exists out st t' a' g' fresh, alloc_paged_token_slots_extend t a pre seq last_loc n backup = Ok (out, st, t', a')
    /\ zlen out = n /\ in_sync t' g' a' (fresh ++ rest) /\ placement (tc_page_size t) pre seq last_loc out fresh.
Proof.
  intros Hs H1 He -> Hm. pose proof Hs as (_ & _ & Hps). unfold alloc_paged_token_slots_extend. rewrite Hps.
  destruct (evict_enough t g a rest _ Hs Hm) as (t1 & a1 & g1 & -> & (Hok & Hown & Hps1) & Hav & Hpa & Ht & _). cbn [res_bind].
  assert (kv_page_size a1 = tc_page_size t) as Hp1 by congruence. assert (1 < kv_page_size a1) as Hgt by lia.
  destruct (kv_extend_law a1 _ pre seq last_loc Hgt Hown) as (r & a2 & -> & Hp2 & Hr).
  { rewrite Hp1. eapply extendable_mono; [|exact He]. intros x Hx. apply elem_of_app. by right. }
  rewrite Hp1 in Hr. cbn [res_bind]. pose proof He as (Hl & _ & Hn & _).
  assert (0 < tc_page_size t) as Hpos by lia.
  destruct (num_new_pages_bound (tc_page_size t) pre seq Hpos Hl Hn) as [_ Hk]. pose proof (zlen_nonneg seq).
  destruct r as [out|]; [|nia]. destruct Hr as (pages & -> & Hkp & Ho & _).
  eexists _, _, t1, a2, g1, _. split; [done|]. split; [apply (zlen_placement _ rest); [lia|done|lia]|]. split.
  - split_and!; [done| |congruence]. eapply kv_owns_perm; [|exact Ho]. apply Permutation_app_swap_app.
  - unfold placement. destruct (Z.eqb_spec (tc_page_size t) 1); [lia|]. eauto.
Qed.

(** ** The whole of [alloc_for_extend] *)

(** What the scheduler hands to [alloc_for_extend]: [held] are the rows of the other
    requests, [rest] the KV indices outside the tree. *)
Record batch_ready (pool : ReqToTokenPool) (batch : ScheduleBatch) (held : list Z) : Prop := {
  br_pool : pool_owned pool (omap req_pool_idx (b_reqs batch) ++ held);
  br_rows : zlen (req_to_token pool) = pool_size pool + 1;
  br_cols : 0 <= max_context_len pool;
  br_table : Forall (fun r => zlen r = max_context_len pool) (req_to_token pool);
  br_reuse : Forall (fun r => has_slot r = true -> 0 < is_chunked r \/ 0 < kv_committed_len r) (b_reqs batch);
  br_slots : zlen (unplaced (b_reqs batch)) <= zlen (free_slots pool);
  br_prefix : b_prefix_lens batch = map (fun r => zlen (prefix_indices r)) (b_reqs batch);
  br_extend : length (b_extend_lens batch) = length (b_reqs batch);
  br_nonneg : Forall (fun e => 0 <= e) (b_extend_lens batch);
  br_seq : b_seq_lens batch = zip_with Z.add (b_prefix_lens batch) (b_extend_lens batch);
  br_num : b_extend_num_tokens batch = zsum (b_extend_lens batch);
  br_fits : Forall (fun s => s <= max_context_len pool) (b_seq_lens batch);
}.

(** The slot before the end of each prefix. *)
Definition last_locs (batch : ScheduleBatch) : list Z :=
  map (fun l => default (-1) (last l)) (map prefix_indices (b_reqs batch)).

Lemma ready_batch_ok pool pool' batch held idxs : batch_ready pool batch held ->
  pool' = set_free_slots pool (free_slots pool') -> length idxs = length (b_reqs batch) -> pool_owned pool' (idxs ++ held) ->
  batch_ok pool' idxs (b_prefix_lens batch) (b_seq_lens batch) (b_extend_lens batch) (map prefix_indices (b_reqs batch)).
Proof.
  intros [] Hp Hl Ho. assert (NoDup (free_slots pool' ++ idxs ++ held)) as Hnd by (rewrite Ho; apply NoDup_zrange).
  apply NoDup_app in Hnd as (_ & _ & Hnd). apply NoDup_app in Hnd as (Hnd & _ & _). rewrite Hp. simpl.
  split_and!; [done|done|done|simpl; lia|]. intros p Hlt.
  destruct (lookup_lt_is_Some_2 idxs p Hlt) as [i Hi]. destruct (lookup_lt_is_Some_2 (b_reqs batch) p) as [r Hr]; [lia|].
  destruct (lookup_lt_is_Some_2 (b_extend_lens batch) p) as [e He]; [lia|].
  assert (b_prefix_lens batch !! p = Some (zlen (prefix_indices r))) as Hpl by (rewrite br_prefix0, list_lookup_fmap, Hr; done).
  assert (b_seq_lens batch !! p = Some (zlen (prefix_indices r) + e)) as Hs by (rewrite br_seq0, lookup_zip_with, Hpl, He; done).
  exists i, (zlen (prefix_indices r)), (zlen (prefix_indices r) + e), e, (prefix_indices r). split; try done.
  - rewrite list_lookup_fmap, Hr. done.
  - simpl. rewrite br_rows0. assert (i ∈ zrange 1 (pool_size pool' + 1)) as Hz.
    { rewrite <- Ho, !elem_of_app. right. left. by eapply list_elem_of_lookup_2. }
    rewrite Hp in Hz. simpl in Hz. apply elem_of_zrange in Hz. lia.
  - lia.
  - rewrite Forall_lookup in br_nonneg0. by apply (br_nonneg0 p).
  - rewrite Forall_lookup in br_fits0. by apply (br_fits0 p).
Qed.

Lemma ready_ext_lens pool batch held : batch_ready pool batch held ->
  ext_lens (b_prefix_lens batch) (b_seq_lens batch) = b_extend_lens batch.
Proof.
  intros []. unfold ext_lens. rewrite br_seq0. assert (length (b_prefix_lens batch) = length (b_extend_lens batch)) as Hl
    by (rewrite br_prefix0, length_map; lia). revert Hl. generalize (b_prefix_lens batch), (b_extend_lens batch). clear.
  induction l as [|p l IH]; intros [|e l'] Hl; simpl in *; try lia; [done|]. f_equal; [lia|]. apply IH. lia.
Qed.

(** The slots of the batch, whichever way they are allocated. *)
Lemma alloc_slots_ok t g a rest pool batch held : in_sync t g a rest -> batch_ready pool batch held ->
  (1 < tc_page_size t -> extendable (tc_page_size t) rest (b_prefix_lens batch) (b_seq_lens batch) (last_locs batch)) ->
  b_extend_num_tokens batch + (if tc_page_size t =? 1 then 0 else zlen (b_reqs batch) * tc_page_size t)
    <= kv_available a + tc_evictable_size t ->
  exists out st t' a' g' fresh,
    (if tc_page_size t =? 1 then alloc_token_slots t a (b_extend_num_tokens batch) false
     else alloc_paged_token_slots_extend t a (b_prefix_lens batch) (b_seq_lens batch) (last_locs batch)
            (b_extend_num_tokens batch) false) = Ok (out, st, t', a')
    /\ zlen out = b_extend_num_tokens batch /\ in_sync t' g' a' (fresh ++ rest)
    /\ placement (tc_page_size t) (b_prefix_lens batch) (b_seq_lens batch) (last_locs batch) out fresh.
Proof.
  intros Hs Hr He Hm. pose proof Hs as (Hok & _). pose proof (tc_page_size_pos t g Hok) as Hp1. unfold placement.
  destruct (Z.eqb_spec (tc_page_size t) 1) as [H1|H1].
  - rewrite Z.add_0_r in Hm. pose proof Hr as []. assert (0 <= b_extend_num_tokens batch) as H0 by (rewrite br_num0; by apply zsum_nonneg).
    destruct (alloc_token_slots_ok t g a rest _ false Hs H1 H0 Hm) as (out & st & t' & a' & g' & -> & Hl & Hs' & _).
    by exists out, st, t', a', g', out.
  - assert (1 < tc_page_size t) as Hgt by lia.
    destruct (alloc_extend_ok t g a rest _ _ _ (b_extend_num_tokens batch) false Hs Hgt (He Hgt))
      as (out & st & t' & a' & g' & fresh & Hal & Hl & Hs' & Hpl).
    + rewrite (ready_ext_lens _ _ _ Hr). apply Hr.
    + destruct Hr. rewrite br_seq0. replace (zlen (zip_with Z.add _ _)) with (zlen (b_reqs batch)); [done|].
      unfold zlen. rewrite length_zip_with, br_prefix0, length_map. lia.
    + rewrite Hal. exists out, st, t', a', g', fresh. split_and!; [done..|]. unfold placement in Hpl.
      by destruct (Z.eqb_spec (tc_page_size t) 1).
Qed.

Lemma read_written pool pool' batch idxs out p i r e :
  batch_ok pool idxs (b_prefix_lens batch) (b_seq_lens batch) (b_extend_lens batch) (map prefix_indices (b_reqs batch)) ->
  zsum (b_extend_lens batch) <= zlen out ->
  written 0 idxs (b_seq_lens batch) (b_extend_lens batch) (map prefix_indices (b_reqs batch)) out (req_to_token pool) (req_to_token pool') ->
  idxs !! p = Some i -> b_reqs batch !! p = Some r -> b_extend_lens batch !! p = Some e ->
  read_row pool' (Some i) (zlen (prefix_indices r) + e) = Ok (new_row out (prefix_indices r) (zsum (take p (b_extend_lens batch))) e).
Proof.
  intros Hb Hz (Hl & Hw & _) Hi Hrp He.
  destruct (ext_sums _ _ _ _ _ _ out p e Hb Hz He) as [H0 H1].
  destruct Hb as (_ & _ & _ & _ & Hent). destruct (Hent p) as (i' & pl & s & e' & pf & [Ei Epl Es Ee Epf Hir Hpl Hel Hen Hfit]);
    [by eapply lookup_lt_Some|].
  rewrite list_lookup_fmap, Hrp in Epf. simpl in Epf. simplify_eq.
  destruct (lookup_lt_is_Some_2 (req_to_token pool) (Z.to_nat i)) as [row Hrow]; [unfold zlen in *; lia|].
  unfold read_row, row_at. rewrite wrap_index_in by (unfold zlen in *; lia).
  rewrite (Hw p i s _ (prefix_indices r) row) by (done || by rewrite list_lookup_fmap, Hrp).
  f_equal. pose proof (zlen_nonneg (prefix_indices r)). rewrite py_upto_nonneg by lia. apply take_app_length'.
  pose proof (zlen_new_row out (prefix_indices r) (zsum (take p (b_extend_lens batch))) (s - zlen (prefix_indices r))) as Hn.
  unfold zlen in *. lia.
Qed.

Context (oob : Z -> Z) (support_triton : bool) (order : list Z).

Lemma write_indices_ok pool idx pre seq ext prefixes out : batch_ok pool idx pre seq ext prefixes ->
  zsum ext <= zlen out -> Permutation order (zrange 0 (zlen idx)) ->
  exists tab, write_cache_indices oob support_triton order out idx pre seq ext prefixes pool = Ok (set_table pool tab)
    /\ written 0 idx seq ext prefixes out (req_to_token pool) tab.
Proof.
  intros Hb Hout Hord. destruct support_triton; [by apply write_kernel_written|].
  by apply write_loop_written.
Qed.

Lemma alloc_for_extend_ok t g a rest pool batch held : in_sync t g a rest -> batch_ready pool batch held ->
  (1 < tc_page_size t -> extendable (tc_page_size t) rest (b_prefix_lens batch) (b_seq_lens batch) (last_locs batch)) ->
  b_extend_num_tokens batch + (if tc_page_size t =? 1 then 0 else zlen (b_reqs batch) * tc_page_size t)
    <= kv_available a + tc_evictable_size t ->
  Permutation order (zrange 0 (zlen (b_reqs batch))) ->
  exists out idxs t' a' g' pool' reqs' fresh,
    alloc_for_extend oob support_triton order t a pool batch = Ok (out, idxs, t', a', pool', reqs')
    /\ in_sync t' g' a' (fresh ++ rest) /\ zlen out = b_extend_num_tokens batch
    /\ placement (tc_page_size t) (b_prefix_lens batch) (b_seq_lens batch) (last_locs batch) out fresh
    /\ pool_owned pool' (idxs ++ held) /\ map req_pool_idx reqs' = map Some idxs /\ Forall2 placed_as (b_reqs batch) reqs'
    /\ (forall p i r e, idxs !! p = Some i -> b_reqs batch !! p = Some r -> b_extend_lens batch !! p = Some e ->
          read_row pool' (Some i) (zlen (prefix_indices r) + e)
          = Ok (new_row out (prefix_indices r) (zsum (take p (b_extend_lens batch))) e)).
Proof.
  intros Hs Hr He Hm Hord. unfold alloc_for_extend.
  destruct (pool_alloc_ok pool (b_reqs batch) held (br_pool _ _ _ Hr) (br_slots _ _ _ Hr) (br_reuse _ _ _ Hr))
    as (idxs & reqs' & p1 & -> & Hi & HF & Hp1 & Ho1). cbn [res_bind]. rewrite as_tensor_some. cbn [res_bind].
  fold (last_locs batch).
  destruct (alloc_slots_ok t g a rest pool batch held Hs Hr He Hm) as (out & st & t' & a' & g' & fresh & -> & Hl & Hs' & Hpl).
  cbn [res_bind]. assert (length idxs = length (b_reqs batch)) as Hli.
  { apply Forall2_length in HF. apply (f_equal length) in Hi. rewrite !length_map in Hi. lia. }
  pose proof (ready_batch_ok pool p1 batch held idxs Hr Hp1 Hli Ho1) as Hb. pose proof (br_num _ _ _ Hr) as Hn.
  destruct (write_indices_ok p1 idxs (b_prefix_lens batch) (b_seq_lens batch) (b_extend_lens batch)
              (map prefix_indices (b_reqs batch)) out Hb) as (tab & -> & Hw); [lia|unfold zlen in *; by rewrite Hli|].
  cbn [res_bind]. eexists out, idxs, t', a', g', _, reqs', fresh. split; [done|]. split_and!; try done.
  intros p i r e H1 H2 H3. apply (read_written p1 (set_table p1 tab) batch idxs); try done. lia.
Qed.

(** ** Release *)

(** The whole pages past the committed tokens that were allocated ahead of need. *)
Definition overallocated (ps : Z) (pool : ReqToTokenPool) (req : Req) (n : Z) (over : list Z) : Prop :=
  if ceil_align n ps <? kv_allocated_len req
  then exists l pages, read_slice pool (req_pool_idx req) (ceil_align n ps) (kv_allocated_len req) = Ok l
         /\ page_cover ps l pages /\ over = expand_pages ps pages
  else over = [].

Lemma ceil_align_one n : ceil_align n 1 = n.
Proof. unfold ceil_align. rewrite Z.div_1_r. lia. Qed.

Lemma release_ok args t g a pool req skip is_insert n own hs over held rest i :
  in_sync t g a (own ++ over ++ rest) -> tc_holds t g pool ((req, n, own) :: hs) ->
  overallocated (tc_page_size t) pool req n over -> ra_page_size args = tc_page_size t ->
  n = cache_commit_len (ra_strip_thinking_cache args) req ->
  (ra_speculative args = false -> ra_strip_thinking_cache args = false -> n = kv_allocated_len req) ->
  kv_committed_freed req = false -> kv_overallocated_freed req = false ->
  req_pool_idx req = Some i -> pool_owned pool (i :: held) ->
  exists t' a' g' pool' req', release_kv_cache args t a pool req skip is_insert = Ok (t', a', pool', req')
    /\ in_sync t' g' a' rest /\ tc_holds t' g' pool' hs /\ tc_page_size t' = tc_page_size t
    /\ pool_owned pool' held /\ req_to_token pool' = req_to_token pool
    /\ req' = set_req_pool_idx (set_req_freed req true true) None.
Proof.
  intros (Hok & Hown & Hps) Hh Hov Hra Hn Hsp Hf1 Hf2 Hi Hpo. unfold release_kv_cache.
  assert (has_slot req = true) as Hhs by (unfold has_slot; by rewrite Hi). rewrite Hhs.
  destruct (tc_finished_law t g a pool req n own hs (is_insert && negb skip) (over ++ rest) Hok Hh Hown Hps Hf1)
    as (t' & a' & g' & -> & Hok' & Hown' & Hps' & Ht' & Hh'). cbn [res_bind].
  set (req1 := set_req_freed req true _). assert (has_slot req1 = true) as -> by done.
  unfold pop_overallocated_kv_cache. change (kv_overallocated_freed req1) with (kv_overallocated_freed req). rewrite Hf2.
  cbn [negb py_assert res_bind]. change (cache_commit_len _ (set_req_freed req1 _ _)) with (cache_commit_len (ra_strip_thinking_cache args) req).
  change (kv_allocated_len (set_req_freed req1 _ _)) with (kv_allocated_len req). rewrite <- Hn.
  assert ((if negb (ra_speculative args) && negb (ra_strip_thinking_cache args) then py_assert (n =? kv_allocated_len req) else Ok tt) = Ok tt) as ->.
  { destruct (ra_speculative args), (ra_strip_thinking_cache args); try done. simpl. rewrite (Hsp eq_refl eq_refl) at 1. by rewrite Z.eqb_refl. }
  cbn [res_bind]. rewrite Hra. pose proof (tc_page_size_pos t g Hok) as Hp1.
  assert ((if 1 <? tc_page_size t then ceil_align n (tc_page_size t) else n) = ceil_align n (tc_page_size t)) as ->.
  { destruct (Z.ltb_spec 1 (tc_page_size t)); [done|]. replace (tc_page_size t) with 1 by lia. symmetry. apply ceil_align_one. }
  change (req_pool_idx (set_req_freed req1 _ _)) with (req_pool_idx req).
  assert (exists a2, (if ceil_align n (tc_page_size t) <? kv_allocated_len req
             then let* l := read_slice pool (req_pool_idx req) (ceil_align n (tc_page_size t)) (kv_allocated_len req) in kv_free a' l
             else Ok a') = Ok a2 /\ kv_owns a2 (tc_slots t' g' ++ rest) /\ kv_page_size a2 = kv_page_size a') as (a2 & -> & Ho2 & Hp2).
  { unfold overallocated in Hov. destruct (_ <? _); [|subst over; eauto].
    destruct Hov as (l & pages & -> & Hc & ->). cbn [res_bind]. rewrite <- Hps, <- Hps' in Hc, Hown'.
    destruct (kv_free_ok a' l pages (tc_slots t' g' ++ rest) Hc) as (a2 & -> & Ho & Hp & _); [|eauto].
    eapply kv_owns_perm; [|exact Hown']. apply Permutation_app_swap_app. }
  cbn [res_bind]. unfold pool_free. change (req_pool_idx (set_req_freed req1 _ _)) with (req_pool_idx req). rewrite Hi. cbn [res_bind].
  eexists t', a2, g', _, _. split; [done|]. split_and!; [split_and!; [done|done|congruence]| |done| |done|done].
  { eapply tc_holds_rows; [|exact Hh']. by apply Forall_forall. }
  unfold pool_owned in *. simpl. rewrite <- Hpo. clear. perm_solver.
Qed.
End Proofs.
