(* ===== verification/KVMemory.v ===== *)
(** The life of a batch's KV memory: the main properties of [mem_cache/common.py]
    over any allocator and prefix cache that meet their contracts. *)

From S2P Require Export KVCommon RadixBase.

(** C24: [alloc_for_extend] succeeds whenever what is free plus what the prefix cache
    can evict covers the new tokens and, with pages, one extra page per request (the
    over-estimate the code evicts for).  Every request gets a row of its own; its row
    lists its prefix followed by its new KV indices (as int32); the new indices come
    from pages that nobody held, apart from the free tail of the request's own last
    page, and the cache, the allocator and the other clients still account for every
    index exactly once. *)
Theorem alloc_for_extend_succeeds {T A : Type} {Alloc : KVAllocator A} {Cache : BasePrefixCache T A kva_pool}
    oob support_triton order t g (a : A) rest pool batch held
    (Hsync : in_sync t g a rest) (Hready : batch_ready pool batch held)
    (Htails : 1 < tc_page_size t ->
       extendable (tc_page_size t) rest (b_prefix_lens batch) (b_seq_lens batch) (last_locs batch))
    (Hmem : b_extend_num_tokens batch + (if tc_page_size t =? 1 then 0 else zlen (b_reqs batch) * tc_page_size t)
       <= kv_available a + tc_evictable_size t)
    (Hord : Permutation order (zrange 0 (zlen (b_reqs batch)))) :
  exists out idxs t' a' g' pool' reqs' fresh,
    alloc_for_extend oob support_triton order t a pool batch = Ok (out, idxs, t', a', pool', reqs')
    /\ in_sync t' g' a' (fresh ++ rest) /\ zlen out = b_extend_num_tokens batch
    /\ placement (tc_page_size t) (b_prefix_lens batch) (b_seq_lens batch) (last_locs batch) out fresh
    /\ pool_owned pool' (idxs ++ held) /\ map req_pool_idx reqs' = map Some idxs
    /\ (forall p i r e, idxs !! p = Some i -> b_reqs batch !! p = Some r -> b_extend_lens batch !! p = Some e ->
          read_row pool' (Some i) (zlen (prefix_indices r) + e)
          = Ok (new_row out (prefix_indices r) (zsum (take p (b_extend_lens batch))) e)).
Proof.
  destruct (alloc_for_extend_ok oob support_triton order t g a rest pool batch held Hsync Hready Htails Hmem Hord)
    as (out & idxs & t' & a' & g' & pool' & reqs' & fresh & H1 & H2 & H3 & H4 & H5 & H6 & _ & H8).
  exists out, idxs, t', a', g', pool', reqs', fresh. by split_and!.
Qed.

(** The radix cache of [RadixProps.v] over the paged allocator: one free page of two
    slots, six evictable slots. *)
Definition zero_fill (n : Z) : list Z := repeat 0 (Z.to_nat n).

Lemma zero_fill_len n : 0 <= n -> zlen (zero_fill n) = n.
Proof. intros. unfold zlen, zero_fill. rewrite repeat_length. lia. Qed.

#[local] Instance sample_allocator : KVAllocator allocator := paged_allocator (fun i => i) 0 zero_fill zero_fill_len.
#[local] Instance sample_prefix_cache : BasePrefixCache RadixCache allocator paged_pool :=
  radix_prefix_cache sample_cfg sample_clock sample_digest ltac:(done) eq_refl sample_digest_ok paged_pool.

Definition fresh_req : Req :=
  MkReq None [31; 32; 33] [] [31; 32; 33] None None [] (Some (root_node sample_cache)) 0 0 0 0 false false 0.
Definition sample_rows3 : ReqToTokenPool := MkReqPool 2 4 [[0; 0; 0; 0]; [8; 9; 10; 11]; [0; 0; 0; 0]] [2].
Definition sample_batch : ScheduleBatch := MkBatch [fresh_req] [0] [3] [3] 3 [].

Lemma sample_in_sync : exists g, in_sync (Cache := sample_prefix_cache) sample_cache g sample_pool [8; 9; 10; 11]
  /\ g.2 = [root_node sample_cache] /\ cache_ok (cfg_page_size sample_cfg) sample_cache g.1.
Proof.
  destruct sample_root_lock as (G & Hok & HL & Hpg & Hown). exists (G, [root_node sample_cache]).
  exact (conj (conj (conj Hok (conj HL Hpg)) (conj Hown eq_refl)) (conj eq_refl Hok)).
Qed.

Lemma sample_batch_ready : batch_ready sample_rows3 sample_batch [1].
Proof.
  split.
  - unfold pool_owned. change (zrange 1 (pool_size sample_rows3 + 1)) with [1; 2]. simpl. apply perm_swap.
  - reflexivity.
  - vm_compute. discriminate.
  - repeat constructor.
  - constructor; [done|constructor].
  - vm_compute. discriminate.
  - reflexivity.
  - reflexivity.
  - constructor; [lia|constructor].
  - reflexivity.
  - reflexivity.
  - constructor; [simpl; lia|constructor].
Qed.

Lemma alloc_for_extend_succeeds_witness : exists out idxs t' a' pool' reqs',
  alloc_for_extend (Alloc := sample_allocator) (Cache := sample_prefix_cache) (fun i => i) true [0] sample_cache sample_pool
    sample_rows3 sample_batch = Ok (out, idxs, t', a', pool', reqs') /\ zlen out = 3.
Proof.
  destruct sample_in_sync as (g & Hsync & _).
  destruct (alloc_for_extend_succeeds (Alloc := sample_allocator) (Cache := sample_prefix_cache) (fun i => i) true [0]
              sample_cache g sample_pool [8; 9; 10; 11] sample_rows3 sample_batch [1] Hsync sample_batch_ready)
    as (out & idxs & t' & a' & g' & pool' & reqs' & fresh & H1 & _ & H3 & _).
  - intros _. split_and!; [reflexivity|reflexivity| |].
    + intros [|i] Hi; simpl in *; lia.
    + intros [|i] Hi Ht; simpl in *; [|lia]. destruct Ht as [Ht _]. exfalso. apply Ht. reflexivity.
  - vm_compute. discriminate.
  - reflexivity.
  - exists out, idxs, t', a', pool', reqs'. exact (conj H1 H3).
Defined.

(** C25: [release_kv_cache] gives back everything a finished request holds, exactly
    once: the committed tokens go to the prefix cache or the allocator, the pages
    allocated ahead of need go to the allocator, the row goes back to the request
    table, and afterwards the cache and the other clients account for every index,
    and the requests [others] that run at the same time still hold theirs.
    A second release of the request is refused. *)
Theorem release_kv_cache_conserves {T A : Type} {Alloc : KVAllocator A} {Cache : BasePrefixCache T A kva_pool}
    args t g (a : A) pool req skip is_insert n own others over held rest i
    (Hsync : in_sync t g a (own ++ over ++ rest)) (Hholds : tc_holds t g pool ((req, n, own) :: others))
    (Hover : overallocated (tc_page_size t) pool req n over) (Hps : ra_page_size args = tc_page_size t)
    (Hn : n = cache_commit_len (ra_strip_thinking_cache args) req)
    (Hspec : ra_speculative args = false -> ra_strip_thinking_cache args = false -> n = kv_allocated_len req)
    (Hc : kv_committed_freed req = false) (Ho : kv_overallocated_freed req = false)
    (Hi : req_pool_idx req = Some i) (Hpool : pool_owned pool (i :: held)) :
  exists t' a' g' pool' req', release_kv_cache args t a pool req skip is_insert = Ok (t', a', pool', req')
    /\ in_sync t' g' a' rest /\ tc_holds t' g' pool' others
    /\ pool_owned pool' held /\ req_to_token pool' = req_to_token pool
    /\ kv_committed_freed req' = true /\ kv_overallocated_freed req' = true
    /\ release_kv_cache args t' a' pool' req' skip is_insert = Raise AssertionError.
Proof.
  destruct (release_ok args t g a pool req skip is_insert n own others over held rest i Hsync Hholds Hover Hps Hn Hspec Hc Ho Hi Hpool)
    as (t' & a' & g' & pool' & req' & H1 & H2 & H3 & _ & H4 & H5 & ->).
  exists t', a', g', pool', (set_req_pool_idx (set_req_freed req true true) None). by split_and!.
Qed.

(** The request of [RadixProps.v] holds the pages 4 and 5 in row 1. *)
Lemma release_kv_cache_conserves_witness : exists t' a' pool' req',
  release_kv_cache (Alloc := sample_allocator) (Cache := sample_prefix_cache) (MkReleaseArgs 2 false false) sample_cache sample_pool
    sample_rows3 sample_req false true = Ok (t', a', pool', req') /\ kv_committed_freed req' = true.
Proof.
  destruct sample_in_sync as ([G L] & Hsync & HL & Hok). simpl in HL, Hok. subst L.
  destruct (release_kv_cache_conserves (Alloc := sample_allocator) (Cache := sample_prefix_cache) (MkReleaseArgs 2 false false)
              sample_cache (G, [root_node sample_cache]) sample_pool sample_rows3 sample_req false true 4 [8; 9; 10; 11] [] [] [] [] 1)
    as (t' & a' & g' & pool' & req' & H1 & _ & _ & _ & _ & H5 & _).
  - exact Hsync.
  - exists [root_node sample_cache], []. split; [reflexivity|]. constructor; [|constructor].
    exists [8; 9; 10; 11], [4; 5], []. split_and!; [reflexivity|reflexivity| |reflexivity].
    pose proof (sample_req_holds G [11; 12; 17; 21] eq_refl Hok) as []. split; assumption.
  - reflexivity.
  - reflexivity.
  - reflexivity.
  - intros _ _. reflexivity.
  - reflexivity.
  - reflexivity.
  - reflexivity.
  - unfold pool_owned. change (zrange 1 (pool_size sample_rows3 + 1)) with [1; 2]. simpl. apply perm_swap.
  - exists t', a', pool', req'. exact (conj H1 H5).
Defined.
