(* ===== verification/PyNum.v ===== *)
(** Python numbers where the scheduler mixes integers and floats.

    A finite double is an integer multiple of [2^-1074], so a float is represented by
    that multiple and arithmetic is exact arithmetic on integers followed by rounding
    to 53 significant bits, ties to even.  Infinities and NaN are not represented: the
    scheduler's floats are token counts weighted by [new_token_ratio]. *)

From S2P Require Export Prelude.

(** One, in units of the smallest positive double. *)
Definition float_one : Z := 2 ^ 1074.

(** Rounding of a non-negative magnitude. *)
Definition round_pos (z : Z) : Z :=
  let k := Z.max 0 (Z.log2 z - 52) in
  let q := z / 2 ^ k in
  let r := z mod 2 ^ k in
  let q := if (2 ^ k <? 2 * r) || ((2 * r =? 2 ^ k) && Z.odd q) then q + 1 else q in
  q * 2 ^ k.

Definition round_float (z : Z) : Z := if z <? 0 then - round_pos (- z) else round_pos z.

Inductive num : Type :=
  | PInt (n : Z)
  | PFloat (z : Z).

(** The exact value, in units. *)
Definition units_of (x : num) : Z :=
  match x with PInt n => n * float_one | PFloat z => z end.

(** [float(n)] *)
Definition to_float (x : num) : Z :=
  match x with PInt n => round_float (n * float_one) | PFloat z => z end.

Definition num_add (x y : num) : num :=
  match x, y with
  | PInt a, PInt b => PInt (a + b)
  | _, _ => PFloat (round_float (to_float x + to_float y))
  end.

Definition num_sub (x y : num) : num :=
  match x, y with
  | PInt a, PInt b => PInt (a - b)
  | _, _ => PFloat (round_float (to_float x - to_float y))
  end.

(** [n * f] for an integer [n]: the conversion of [n] is a whole number of ones. *)
Definition num_mul_int (n : Z) (y : num) : num :=
  match y with
  | PInt b => PInt (n * b)
  | PFloat z => PFloat (round_float (to_float (PInt n) / float_one * z))
  end.

(** Comparisons of integers with floats are exact. *)
Definition num_leb (x y : num) : bool := units_of x <=? units_of y.
Definition num_ltb (x y : num) : bool := units_of x <? units_of y.

(** [int(x)] truncates towards zero. *)
Definition num_int (x : num) : Z :=
  match x with PInt n => n | PFloat z => Z.quot z float_one end.

(** [min(x, y)] keeps the first of equals. *)
Definition num_min (x y : num) : num := if num_ltb y x then y else x.

(** [max(x, y)] keeps the first of equals. *)
Definition num_max (x y : num) : num := if num_ltb x y then y else x.

(** The double nearest to [p / q] units, ties to even. *)
Definition round_ratio (p q : Z) : Z :=
  let k := Z.max 0 (Z.log2 (p / q) - 52) in
  let d := q * 2 ^ k in
  let n := p / d in
  let r := p mod d in
  (if (d <? 2 * r) || ((2 * r =? d) && Z.odd n) then n + 1 else n) * 2 ^ k.

(** [a / b] on integers is correctly rounded. *)
Definition int_truediv (a b : Z) : res num :=
  if b =? 0 then Raise ZeroDivisionError
  else Ok (PFloat (Z.sgn a * Z.sgn b * round_ratio (Z.abs a * float_one) (Z.abs b))).

(** [sum(l)] starts from the integer 0. *)
Definition num_sum (l : list num) : num := foldl num_add (PInt 0) l.

(** ** Rounding is monotone and exact on small integers *)

Lemma round_pos_bracket z : 0 < z ->
  let k := Z.max 0 (Z.log2 z - 52) in
  z / 2 ^ k * 2 ^ k <= round_pos z <= (z / 2 ^ k + 1) * 2 ^ k.
Proof.
  intros Hz k. unfold round_pos. fold k. assert (0 < 2 ^ k) by (apply Z.pow_pos_nonneg; lia). case_match; nia.
Qed.

(** Within one binade: rounding an integer number of quarters. *)
Lemma round_pos_same x y : 0 < x -> x <= y ->
  Z.max 0 (Z.log2 x - 52) = Z.max 0 (Z.log2 y - 52) -> round_pos x <= round_pos y.
Proof.
  intros Hx Hxy Hk. unfold round_pos. rewrite Hk. set (k := Z.max 0 (Z.log2 y - 52)).
  assert (0 < 2 ^ k) as Hp by (apply Z.pow_pos_nonneg; lia).
  apply Z.mul_le_mono_nonneg_r; [lia|].
  pose proof (Z.div_mod x (2 ^ k) ltac:(lia)) as Dx. pose proof (Z.div_mod y (2 ^ k) ltac:(lia)) as Dy.
  pose proof (Z.mod_pos_bound x (2 ^ k) Hp). pose proof (Z.mod_pos_bound y (2 ^ k) Hp).
  pose proof (Z.div_le_mono x y (2 ^ k) Hp Hxy) as Hq.
  destruct (Z.eq_dec (x / 2 ^ k) (y / 2 ^ k)) as [E|E].
  - rewrite E in *. destruct (Z.ltb_spec (2 ^ k) (2 * (x mod 2 ^ k))), (Z.ltb_spec (2 ^ k) (2 * (y mod 2 ^ k))),
      (Z.eqb_spec (2 * (x mod 2 ^ k)) (2 ^ k)), (Z.eqb_spec (2 * (y mod 2 ^ k)) (2 ^ k)); simpl;
      destruct (Z.odd (y / 2 ^ k)); simpl; lia.
  - repeat case_match; lia.
Qed.

(** A rounded number stays between the powers of two around it. *)
Lemma round_pos_range z : 0 < z -> 2 ^ Z.log2 z <= round_pos z <= 2 ^ (Z.log2 z + 1).
Proof.
  intros Hz. pose proof (Z.log2_spec z Hz) as [Hl Hu]. pose proof (Z.log2_nonneg z) as Hn.
  destruct (round_pos_bracket z Hz) as [H1 H2]. set (k := Z.max 0 (Z.log2 z - 52)) in *.
  assert (0 < 2 ^ k) as Hp by (apply Z.pow_pos_nonneg; lia).
  assert (2 ^ Z.log2 z = 2 ^ (Z.log2 z - k) * 2 ^ k) as E by (rewrite <- Z.pow_add_r by lia; f_equal; lia).
  assert (2 ^ Z.succ (Z.log2 z) = 2 * 2 ^ (Z.log2 z - k) * 2 ^ k) as E'
    by (rewrite Z.pow_succ_r by lia; rewrite E; lia).
  split.
  - etrans; [|exact H1]. rewrite E. apply Z.mul_le_mono_nonneg_r; [lia|]. apply Z.div_le_lower_bound; [done|]. lia.
  - etrans; [exact H2|]. replace (Z.log2 z + 1) with (Z.succ (Z.log2 z)) by lia. rewrite E'.
    apply Z.mul_le_mono_nonneg_r; [lia|]. assert (z / 2 ^ k < 2 * 2 ^ (Z.log2 z - k)); [|lia].
    apply Z.div_lt_upper_bound; [done|]. lia.
Qed.

Lemma round_pos_mono x y : 0 <= x <= y -> round_pos x <= round_pos y.
Proof.
  intros [Hx Hxy]. destruct (Z.eq_dec x 0) as [->|Hx0].
  { change (round_pos 0) with 0. destruct (Z.eq_dec y 0) as [->|]; [done|].
    destruct (round_pos_range y ltac:(lia)) as [H _]. pose proof (Z.pow_pos_nonneg 2 (Z.log2 y)). pose proof (Z.log2_nonneg y). lia. }
  pose proof (Z.log2_le_mono x y Hxy) as Hl.
  destruct (Z.eq_dec (Z.log2 x) (Z.log2 y)) as [E|E]; [apply round_pos_same; rewrite ?E; lia|].
  etrans; [apply round_pos_range; lia|]. etrans; [|apply round_pos_range; lia].
  apply Z.pow_le_mono_r; lia.
Qed.

Lemma round_pos_nonneg z : 0 <= z -> 0 <= round_pos z.
Proof. intros. change 0 with (round_pos 0). apply round_pos_mono. lia. Qed.

Lemma round_float_mono x y : x <= y -> round_float x <= round_float y.
Proof.
  intros Hxy. unfold round_float. destruct (Z.ltb_spec x 0), (Z.ltb_spec y 0); try lia.
  - apply Z.opp_le_mono. rewrite !Z.opp_involutive. apply round_pos_mono. lia.
  - pose proof (round_pos_nonneg (- x)). pose proof (round_pos_nonneg y). lia.
  - apply round_pos_mono. lia.
Qed.

Lemma round_pos_exact z : 0 <= z -> (2 ^ Z.max 0 (Z.log2 z - 52) | z) -> round_pos z = z.
Proof.
  intros Hz Hd. unfold round_pos. set (k := Z.max 0 (Z.log2 z - 52)) in *.
  assert (0 < 2 ^ k) as Hp by (apply Z.pow_pos_nonneg; lia).
  rewrite (proj2 (Z.mod_divide z (2 ^ k) ltac:(lia)) Hd). destruct (Z.ltb_spec (2 ^ k) (2 * 0)); [lia|].
  destruct (Z.eqb_spec (2 * 0) (2 ^ k)); [lia|]. simpl. symmetry. rewrite Z.mul_comm. by apply Z.div_exact, Z.mod_divide; try lia.
Qed.

(** Integers of at most 53 bits are doubles. *)
Lemma round_int n : Z.abs n <= 2 ^ 53 -> round_float (n * float_one) = n * float_one.
Proof.
  assert (forall m, 0 <= m <= 2 ^ 53 -> round_pos (m * float_one) = m * float_one) as H.
  { intros m Hm. assert (0 < float_one) as Hf by (unfold float_one; apply Z.pow_pos_nonneg; lia).
    apply round_pos_exact; [nia|].
    destruct (Z.eq_dec m 0) as [->|H0]; [apply Z.divide_0_r|].
    unfold float_one. rewrite Z.log2_mul_pow2 by lia. pose proof (Z.log2_nonneg m).
    destruct (Z.eq_dec m (2 ^ 53)) as [->|Hne].
    - rewrite Z.log2_pow2 by lia. change (Z.max 0 (1074 + 53 - 52)) with 1075.
      exists (2 ^ 52). rewrite <- !Z.pow_add_r by lia. done.
    - assert (Z.log2 m < 53) by (apply Z.log2_lt_pow2; lia).
      apply Z.divide_mul_r. exists (2 ^ (1074 - Z.max 0 (1074 + Z.log2 m - 52))). rewrite <- Z.pow_add_r by lia. f_equal. lia. }
  intros Hn. unfold round_float. assert (0 < float_one) as Hf by (unfold float_one; apply Z.pow_pos_nonneg; lia).
  destruct (Z.ltb_spec (n * float_one) 0); [|apply H; nia].
  replace (- (n * float_one)) with ((- n) * float_one) by lia. rewrite H by nia. lia.
Qed.

(** ** Quotients *)

Lemma round_ratio_int z : round_ratio z 1 = round_pos z.
Proof. unfold round_ratio, round_pos. by rewrite Z.div_1_r, Z.mul_1_l. Qed.

Lemma round_ratio_nonneg p q : 0 <= p -> 0 < q -> 0 <= round_ratio p q.
Proof.
  intros Hp Hq. unfold round_ratio. set (k := Z.max 0 _). assert (0 < 2 ^ k) by (apply Z.pow_pos_nonneg; lia).
  pose proof (Z.div_pos p (q * 2 ^ k) Hp ltac:(nia)). case_match; nia.
Qed.

(** ** Bounds that survive rounding *)

Lemma float_one_pos : 0 < float_one.
Proof. unfold float_one. apply Z.pow_pos_nonneg; lia. Qed.

#[global] Opaque float_one.

Lemma to_float_lower x n : 0 <= n <= 2 ^ 53 -> n * float_one <= units_of x -> n * float_one <= to_float x.
Proof.
  intros Hn Hx. destruct x as [m|z]; simpl in *; [|done]. rewrite <- (round_int n) by lia. by apply round_float_mono.
Qed.

(** Adding an integer to a number that is at least [n]. *)
Lemma num_add_lower x n k k' : 0 <= n -> 0 <= k' <= k -> n + k' <= 2 ^ 53 -> n * float_one <= units_of x ->
  (n + k') * float_one <= units_of (num_add x (PInt k)).
Proof.
  intros Hn Hk Hb Hx. pose proof float_one_pos. destruct x as [m|z]; simpl in *; [nia|].
  rewrite <- (round_int (n + k')) by lia. apply round_float_mono.
  pose proof (to_float_lower (PInt k) k' ltac:(lia)) as Ht. simpl in Ht. specialize (Ht ltac:(nia)). nia.
Qed.

(** Subtracting a number that is at least [n] from an integer. *)
Lemma num_sub_upper y n m : 0 <= n <= 2 ^ 53 -> Z.abs m <= 2 ^ 53 -> Z.abs (m - n) <= 2 ^ 53 -> n * float_one <= units_of y ->
  units_of (num_sub (PInt m) y) <= (m - n) * float_one.
Proof.
  intros Hn Hm Hmn Hy. pose proof float_one_pos. destruct y as [k|z]; simpl in *; [nia|].
  rewrite (round_int m) by done. rewrite <- (round_int (m - n)) by done. apply round_float_mono. nia.
Qed.

Lemma num_add_nonneg x y : 0 <= units_of x -> 0 <= units_of y -> 0 <= units_of (num_add x y).
Proof.
  intros Hx Hy. pose proof float_one_pos. pose proof (to_float_lower x 0 ltac:(lia) ltac:(lia)).
  pose proof (to_float_lower y 0 ltac:(lia) ltac:(lia)).
  assert (0 <= round_float (to_float x + to_float y)).
  { change 0 with (round_float 0). apply round_float_mono. lia. }
  destruct x, y; simpl in *; nia.
Qed.

Lemma num_sum_nonneg l : Forall (fun x => 0 <= units_of x) l -> 0 <= units_of (num_sum l).
Proof.
  unfold num_sum. assert (0 <= units_of (PInt 0)) as H0 by done. revert H0. generalize (PInt 0) as acc.
  induction l as [|x l IH]; intros acc Ha Hl; [done|]. apply Forall_cons in Hl as [Hx Hl]. simpl. apply IH; [|done].
  by apply num_add_nonneg.
Qed.

Lemma num_mul_nonneg n y : 0 <= n -> 0 <= units_of y -> 0 <= units_of (num_mul_int n y).
Proof.
  intros Hn Hy. pose proof float_one_pos. destruct y as [b|z]; simpl in *; [nia|]. change 0 with (round_float 0).
  apply round_float_mono. assert (0 <= round_float (n * float_one)).
  { change 0 with (round_float 0). apply round_float_mono. nia. }
  apply Z.mul_nonneg_nonneg; [|done]. apply Z.div_pos; lia.
Qed.
