(* ===== verification/PrefillAdder.v ===== *)
(** Admission of requests to a prefill batch: [PrefillAdder] of
    [managers/schedule_policy.py] for a standard (not hybrid) allocator and tree.

    The adder reads [available_size()] of the allocator and [evictable_size()] of the
    tree cache and locks tree nodes; the tree is threaded through the operations. *)

From S2P Require Export Prelude PyNum ReqPool KVAlloc ChunkCache.
From S2P Require Import KVCommon.

(** The fields of [Req] the scheduler reads, beside those of [ReqPool.v].
    [wait_queue_entry_time] is only compared; [has_input_embeds] and
    [has_embed_overrides] say that [input_embeds] and [positional_embed_overrides] are set. *)
Record SchedReq : Type := MkSched {
  sr_req : Req;
  rid : string;
  extend_input_len : Z;
  extend_logprob_start_len : Z;
  host_hit_length : Z;
  max_new_tokens : Z;
  ignore_eos : bool;
  return_logprob : bool;
  logprob_start_len : Z;
  has_input_embeds : bool;
  has_embed_overrides : bool;
  wait_queue_entry_time : Z;
  routing_key : option string;
  sr_finished : bool;
  skip_radix_cache_insert : bool
}.

#[export] Instance Req_eq_dec : EqDecision Req.
Proof. solve_decision. Defined.
#[export] Instance SchedReq_eq_dec : EqDecision SchedReq.
Proof. solve_decision. Defined.

Definition set_sr_req (r : SchedReq) (q : Req) : SchedReq :=
  MkSched q (rid r) (extend_input_len r) (extend_logprob_start_len r) (host_hit_length r) (max_new_tokens r) (ignore_eos r)
    (return_logprob r) (logprob_start_len r) (has_input_embeds r) (has_embed_overrides r) (wait_queue_entry_time r) (routing_key r) (sr_finished r)
    (skip_radix_cache_insert r).

Definition set_sr_lens (r : SchedReq) (ext start host : Z) : SchedReq :=
  MkSched (sr_req r) (rid r) ext start host (max_new_tokens r) (ignore_eos r)
    (return_logprob r) (logprob_start_len r) (has_input_embeds r) (has_embed_overrides r) (wait_queue_entry_time r) (routing_key r) (sr_finished r)
    (skip_radix_cache_insert r).

Definition set_fill_ids (r : Req) (l : list Z) : Req :=
  MkReq (req_pool_idx r) (origin_input_ids r) (output_ids r) l (req_extra_key r) (req_priority r)
    (prefix_indices r) (last_node r) (cache_protected_len r) (is_chunked r) (kv_committed_len r)
    (kv_allocated_len r) (kv_committed_freed r) (kv_overallocated_freed r) (reasoning_tokens r).

Definition set_extend_input_len (r : SchedReq) (n : Z) : SchedReq :=
  let q := sr_req r in
  let start :=
    if logprob_start_len r =? -1 then zlen (fill_ids q) else Z.max (logprob_start_len r) (zlen (prefix_indices q)) in
  set_sr_lens r n (Z.min (start - zlen (prefix_indices q)) n) (host_hit_length r).

(** [req.set_extend_input_len(n)] followed by [req.fill_ids = req.fill_ids[:m]]. *)
Definition truncate_req (r : SchedReq) (n m : Z) : SchedReq :=
  let r := set_extend_input_len r n in
  set_sr_req r (set_fill_ids (sr_req r) (py_upto (fill_ids (sr_req r)) m)).

Inductive AddReqResult : Type := CONTINUE | NO_TOKEN | OTHER.

#[export] Instance AddReqResult_eq_dec : EqDecision AddReqResult.
Proof. solve_decision. Defined.

(** What does not change after construction.  [ac_delayer] is the decision of the
    prefill delayer, which is negotiated once per pass; [ac_dllm_block] is the block
    size of a diffusion model. *)
Record AdderConfig : Type := MkAdderConfig {
  ac_page_size : Z;
  ac_new_token_ratio : num;
  ac_clip_max_new_tokens : Z;
  ac_preemption_threshold : Z;
  ac_nsa_prefill_cp_in_seq_split : bool;
  ac_prefill_context_parallel_enabled : bool;
  ac_prefill_max_requests : option Z;
  ac_delayer : option bool;
  ac_dllm_block : option Z
}.

Record PrefillAdder : Type := MkAdder {
  running_batch : option (list SchedReq);
  rem_input_tokens : Z;
  rem_chunk_tokens : option Z;
  rem_dllm_tokens : Z;
  rem_total_token_offset : num;
  cur_rem_token_offset : Z;
  req_states : option (list (num * Z));
  can_run_list : list SchedReq;
  preempt_list : list SchedReq;
  new_chunked_req : option SchedReq;
  log_hit_tokens : Z;
  log_input_tokens : Z
}.

Definition set_states (s : PrefillAdder) (l : list (num * Z)) : PrefillAdder :=
  MkAdder (running_batch s) (rem_input_tokens s) (rem_chunk_tokens s) (rem_dllm_tokens s) (rem_total_token_offset s)
    (cur_rem_token_offset s) (Some l) (can_run_list s) (preempt_list s) (new_chunked_req s) (log_hit_tokens s) (log_input_tokens s).

(** [can_run_list.append(req)] *)
Definition push_run (s : PrefillAdder) (r : SchedReq) : PrefillAdder :=
  MkAdder (running_batch s) (rem_input_tokens s) (rem_chunk_tokens s) (rem_dllm_tokens s) (rem_total_token_offset s)
    (cur_rem_token_offset s) (req_states s) (can_run_list s ++ [r]) (preempt_list s) (new_chunked_req s) (log_hit_tokens s) (log_input_tokens s).

Definition set_chunked (s : PrefillAdder) (r : SchedReq) : PrefillAdder :=
  MkAdder (running_batch s) (rem_input_tokens s) (rem_chunk_tokens s) (rem_dllm_tokens s) (rem_total_token_offset s)
    (cur_rem_token_offset s) (req_states s) (can_run_list s) (preempt_list s) (Some r) (log_hit_tokens s) (log_input_tokens s).

Definition IGNORE_EOS_RESERVE_TOKENS : Z := 1.

(** [list.sort(key=...)]: stable, by the strict order of the keys. *)
Section PySort.
Context {B : Type} (lt : B -> B -> bool).

Fixpoint sort_insert (x : B) (l : list B) : list B :=
  match l with
  | [] => [x]
  | y :: l' => if lt y x then y :: sort_insert x l' else x :: l
  end.

Definition py_sort (l : list B) : list B := foldr sort_insert [] l.
End PySort.

Section Adder.
Context (cfg : AdderConfig).
Context {T A : Type} {Alloc : KVAllocator A} {Cache : BasePrefixCache T A kva_pool}.
Abbreviation page_size := (ac_page_size cfg).
Abbreviation CLIP_MAX_NEW_TOKENS := (ac_clip_max_new_tokens cfg).

Definition running_request_total_token_offset (r : SchedReq) : num :=
  num_mul_int (Z.min (max_new_tokens r - zlen (output_ids (sr_req r))) CLIP_MAX_NEW_TOKENS) (ac_new_token_ratio cfg).

(** [dllm_running] is [max_running_requests] of the diffusion configuration. *)
Definition adder_init (running : option (list SchedReq)) (rem_input : Z) (rem_chunk : option Z)
    (num_mixed_decode_tokens dllm_running : Z) : PrefillAdder :=
  let offset := PInt num_mixed_decode_tokens in
  let offset :=
    match running with
    | Some reqs => num_add offset (num_sum (map running_request_total_token_offset reqs))
    | None => offset
    end in
  MkAdder running (rem_input - num_mixed_decode_tokens) (option_map (fun c => c - num_mixed_decode_tokens) rem_chunk)
    (match ac_dllm_block cfg with Some b => dllm_running * b | None => 0 end) offset num_mixed_decode_tokens None [] [] None 0 0.

Definition rem_total_tokens (t : T) (a : A) (s : PrefillAdder) : num :=
  num_sub (PInt (kv_available a + tc_evictable_size t)) (rem_total_token_offset s).

Definition cur_rem_tokens (t : T) (a : A) (s : PrefillAdder) : Z :=
  kv_available a + tc_evictable_size t - cur_rem_token_offset s.

Definition ceil_paged_tokens (tokens : Z) : Z := - (- tokens / page_size) * page_size.

Definition budget_state (t : T) (a : A) (s : PrefillAdder) : AddReqResult :=
  if num_leb (rem_total_tokens t a s) (PInt 0) || (cur_rem_tokens t a s <=? 0) then NO_TOKEN
  else if rem_input_tokens s <=? 0 then OTHER
  else
    match ac_dllm_block cfg with
    | Some _ => if rem_dllm_tokens s <=? 0 then OTHER else CONTINUE
    | None =>
        match rem_chunk_tokens s with
        | Some c => if c <=? 0 then OTHER else CONTINUE
        | None => CONTINUE
        end
    end.

Definition update_prefill_budget (s : PrefillAdder) (prefix_len extend_input_len max_new_tokens : Z) : PrefillAdder :=
  let extend_input_len := ceil_paged_tokens extend_input_len in
  let page_overhead := page_size in
  let is_dllm := match ac_dllm_block cfg with Some _ => true | None => false end in
  MkAdder (running_batch s) (rem_input_tokens s - extend_input_len)
    (if is_dllm then rem_chunk_tokens s else option_map (fun c => c - extend_input_len) (rem_chunk_tokens s))
    (if is_dllm then rem_dllm_tokens s - extend_input_len else rem_dllm_tokens s)
    (num_add (rem_total_token_offset s) (PInt (extend_input_len + max_new_tokens + page_overhead)))
    (cur_rem_token_offset s + (extend_input_len + page_overhead))
    (req_states s) (can_run_list s) (preempt_list s) (new_chunked_req s)
    (log_hit_tokens s + prefix_len) (log_input_tokens s + extend_input_len).

(** *** Diffusion requests *)

Definition get_dllm_remain_tokens (block : Z) (t : T) (a : A) (s : PrefillAdder) : Z :=
  let _rem_tokens := Z.min (Z.min (rem_dllm_tokens s) block) (num_int (rem_total_tokens t a s)) in
  if _rem_tokens <=? 0 then rem_dllm_tokens s else _rem_tokens.

Definition add_dllm_req (block : Z) (s : PrefillAdder) (req : SchedReq) (prefix_len : Z) : PrefillAdder * SchedReq :=
  let trunc_len := Z.min (rem_dllm_tokens s) block / page_size * page_size in
  let req := truncate_req req trunc_len (prefix_len + trunc_len) in
  (update_prefill_budget (push_run s req) prefix_len trunc_len 0, req).

Definition prefix_len_of (req : SchedReq) : Z := zlen (prefix_indices (sr_req req)).

Definition add_dllm_staging_req (t : T) (a : A) (s : PrefillAdder) (req : SchedReq) : res (AddReqResult * PrefillAdder * SchedReq) :=
  match ac_dllm_block cfg with
  | None => Raise AssertionError
  | Some block =>
      let _rem_tokens := get_dllm_remain_tokens block t a s in
      if _rem_tokens <=? 0 then Ok (NO_TOKEN, s, req)
      else
        let truncated := _rem_tokens <? extend_input_len req in
        let n := Z.min (extend_input_len req) _rem_tokens in
        let req := truncate_req req n (prefix_len_of req + n) in
        let s := push_run s req in
        let max_new := if negb truncated then Z.min (max_new_tokens req) CLIP_MAX_NEW_TOKENS else 0 in
        let s := update_prefill_budget s 0 (extend_input_len req) max_new in
        Ok (if get_dllm_remain_tokens block t a s <=? 0 then NO_TOKEN else CONTINUE, s, req)
  end.

(** *** The chunked request of the last pass *)

(** Returns the request when its prefill is not finished by this chunk. *)
Definition add_chunked_req (t : T) (a : A) (s : PrefillAdder) (req : SchedReq) : res (option SchedReq * PrefillAdder * SchedReq) :=
  let* _rem_tokens :=
    match ac_dllm_block cfg with
    | Some block => Ok (get_dllm_remain_tokens block t a s)
    | None =>
        match rem_chunk_tokens s with
        | None => Raise TypeError
        | Some c =>
            let _rem_tokens := Z.min c (num_int (rem_total_tokens t a s)) in
            Ok (if _rem_tokens <=? 0 then c else _rem_tokens)
        end
    end in
  let truncated := _rem_tokens <? extend_input_len req in
  let n := Z.min (extend_input_len req) _rem_tokens in
  let req := truncate_req req n (prefix_len_of req + n) in
  let s := push_run s req in
  let s := update_prefill_budget s 0 (extend_input_len req)
             (if negb truncated then Z.min (max_new_tokens req) CLIP_MAX_NEW_TOKENS else 0) in
  Ok (if truncated then Some req else None, s, req).

(** *** Requests that ignore EOS, without a prefix cache *)

(** [None]: the request adds no state. *)
Definition req_state (r : SchedReq) : option (num * Z) :=
  let new_token_ratio := if ignore_eos r then PFloat float_one else ac_new_token_ratio cfg in
  let tokens_left := num_sub (num_mul_int (max_new_tokens r) new_token_ratio) (PInt (zlen (output_ids (sr_req r)))) in
  let tokens_occupied := zlen (origin_input_ids (sr_req r)) + zlen (output_ids (sr_req r)) in
  if num_leb tokens_left (PInt 0) then None else Some (tokens_left, tokens_occupied).

Definition append_state (l : list (num * Z)) (r : SchedReq) : list (num * Z) :=
  match req_state r with Some x => l ++ [x] | None => l end.

(** The loop leaves the index of the first state that is not smaller, or the last
    index when there is none (0 for an empty list). *)
Fixpoint insert_position (x : num) (l : list (num * Z)) : nat :=
  match l with
  | [] => 0
  | y :: l' => if num_leb x y.1 then 0 else match l' with [] => 0 | _ => S (insert_position x l') end
  end.

Definition insert_state (l : list (num * Z)) (r : SchedReq) : list (num * Z) :=
  match req_state r with
  | Some x => let i := insert_position x.1 l in take i l ++ x :: drop i l
  | None => l
  end.

(** The walk over the states: does the memory last until each of them ends? *)
Fixpoint states_fit (cur_rem : Z) (tokens_freed : Z) (l : list (num * Z)) : bool :=
  match l with
  | [] => true
  | (tokens_left, tokens_occupied) :: l' =>
      let bs := zlen l in
      let min_free_tokens := num_sub (PInt (cur_rem + tokens_freed)) (num_mul_int bs tokens_left) in
      if num_leb min_free_tokens (PInt (IGNORE_EOS_RESERVE_TOKENS * bs)) then false
      else states_fit cur_rem (tokens_freed + tokens_occupied) l'
  end.

Definition delayed : bool := match ac_delayer cfg with Some allow => negb allow | None => false end.

Definition add_one_req_ignore_eos (t : T) (a : A) (s : PrefillAdder) (req : SchedReq)
    : res (AddReqResult * PrefillAdder * SchedReq) :=
  let paged_input := ceil_paged_tokens (extend_input_len req) in
  if num_ltb (num_min (PInt (cur_rem_tokens t a s)) (rem_total_tokens t a s)) (PInt paged_input) then Ok (NO_TOKEN, s, req)
  else
    let states :=
      match req_states s with
      | None =>
          let l := append_state [] req in
          let l := match running_batch s with Some rs => foldl append_state l rs | None => l end in
          let l := foldl append_state l (can_run_list s) in
          py_sort (fun x y => num_ltb x.1 y.1) l
      | Some l => insert_state l req
      end in
    let s := set_states s states in
    if negb (states_fit (cur_rem_tokens t a s - ceil_paged_tokens (extend_input_len req)) 0 states) then Ok (NO_TOKEN, s, req)
    else if delayed then Ok (OTHER, s, req)
    else
      match ac_dllm_block cfg with
      | Some block =>
          if rem_dllm_tokens s <=? 0 then Ok (OTHER, s, req)
          else let '(s, req) := add_dllm_req block s req 0 in Ok (budget_state t a s, s, req)
      | None =>
          let last_chunk := match rem_chunk_tokens s with None => true | Some c => extend_input_len req <=? c end in
          if last_chunk then
            let s := push_run s req in
            let s := update_prefill_budget s 0 (extend_input_len req) (Z.min (max_new_tokens req) CLIP_MAX_NEW_TOKENS) in
            Ok (budget_state t a s, s, req)
          else
            let trunc_len := default 0 (rem_chunk_tokens s) in
            if trunc_len <=? 0 then Ok (OTHER, s, req)
            else
              let req := truncate_req req trunc_len trunc_len in
              let s := set_chunked (push_run s req) req in
              let s := update_prefill_budget s 0 trunc_len 0 in
              Ok (budget_state t a s, s, req)
      end.

(** *** One waiting request *)

(** The body of the [with self._lock_node(...)] block, run with the node locked. *)
Definition add_locked (truncation_align_size : option Z) (t : T) (a : A) (s : PrefillAdder) (req : SchedReq) (total_tokens : Z)
    : res (option AddReqResult * T * PrefillAdder * SchedReq) :=
  if num_leb (rem_total_tokens t a s) (PInt total_tokens) then Ok (Some NO_TOKEN, t, s, req)
  else if 0 <? host_hit_length req then Raise NotImplementedError
  else
    let prefix_len := prefix_len_of req in
    let input_tokens := ceil_paged_tokens (extend_input_len req) in
    if (rem_input_tokens s <=? input_tokens) && negb (zlen (can_run_list s) =? 0) then Ok (Some OTHER, t, s, req)
    else
      match ac_dllm_block cfg with
      | Some block =>
          if rem_dllm_tokens s <=? 0 then Ok (Some OTHER, t, s, req)
          else
            let* _ := py_assert (match truncation_align_size with None => true | Some _ => false end) in
            let '(s, req) := add_dllm_req block s req prefix_len in
            let* (_, t) := tc_inc_lock_ref t (last_node (sr_req req)) in
            Ok (None, t, s, req)
      | None =>
          let whole := match rem_chunk_tokens s with None => true | Some c => input_tokens <=? c end in
          if whole then
            let s := push_run s req in
            let* (_, t) := tc_inc_lock_ref t (last_node (sr_req req)) in
            let s := update_prefill_budget s prefix_len input_tokens (Z.min (max_new_tokens req) CLIP_MAX_NEW_TOKENS) in
            Ok (None, t, s, req)
          else
            let trunc_len := default 0 (rem_chunk_tokens s) / page_size * page_size in
            if trunc_len <=? 0 then Ok (Some OTHER, t, s, req)
            else
              let short := match truncation_align_size with Some al => trunc_len <? al | None => false end in
              if short then Ok (Some OTHER, t, s, req)
              else
                let trunc_len :=
                  match truncation_align_size with Some al => al * (trunc_len / al) | None => trunc_len end in
                let now_input_len := trunc_len + prefix_len in
                let now_input_len := now_input_len / page_size * page_size in
                let trunc_len := now_input_len - prefix_len in
                if trunc_len <=? 0 then Ok (Some OTHER, t, s, req)
                else
                  let req := truncate_req req trunc_len (prefix_len + trunc_len) in
                  let s := set_chunked (push_run s req) req in
                  let* (_, t) := tc_inc_lock_ref t (last_node (sr_req req)) in
                  let s := update_prefill_budget s prefix_len trunc_len 0 in
                  Ok (None, t, s, req)
      end.

(** [has_chunked_req] is not used by the code.  Loading back host memory
    ([host_hit_length > 0]) needs a hierarchical cache; the base class refuses it. *)
Definition add_one_req (truncation_align_size : option Z) (t : T) (a : A) (s : PrefillAdder) (req : SchedReq)
    : res (AddReqResult * T * PrefillAdder * SchedReq) :=
  if delayed then Ok (OTHER, t, s, req)
  else if (ac_nsa_prefill_cp_in_seq_split cfg || ac_prefill_context_parallel_enabled cfg) && (1 <=? zlen (can_run_list s))
  then Ok (OTHER, t, s, req)
  else if match ac_prefill_max_requests cfg with Some x => x <=? zlen (can_run_list s) | None => false end
  then Ok (OTHER, t, s, req)
  else if ignore_eos req && tc_disable then
    let* (r, s, req) := add_one_req_ignore_eos t a s req in Ok (r, t, s, req)
  else
    let max_new := Z.min (Z.max (max_new_tokens req - zlen (output_ids (sr_req req))) 0) CLIP_MAX_NEW_TOKENS in
    let total_tokens := extend_input_len req + max_new + page_size in
    let real_input_tokens := ceil_paged_tokens (extend_input_len req - host_hit_length req) in
    if num_leb (rem_total_tokens t a s) (PInt total_tokens) then Ok (NO_TOKEN, t, s, req)
    else if (rem_input_tokens s <=? real_input_tokens) && negb (zlen (can_run_list s) =? 0) then Ok (OTHER, t, s, req)
    else
      let node := last_node (sr_req req) in
      let* (_, t) := tc_inc_lock_ref t node in
      let* (early, t, s, req) := add_locked truncation_align_size t a s req total_tokens in
      let* (_, t) := tc_dec_lock_ref t node in
      match early with
      | Some r => Ok (r, t, s, req)
      | None => Ok (budget_state t a s, t, s, req)
      end.

(** *** Preemption *)

(** [x.priority]: priority scheduling gives every request a priority. *)
Definition priority_of (r : SchedReq) : res Z :=
  match req_priority (sr_req r) with Some p => Ok p | None => Raise TypeError end.

Fixpoint with_priority (l : list SchedReq) : res (list (Z * SchedReq)) :=
  match l with
  | [] => Ok []
  | r :: l => let* p := priority_of r in let* rs := with_priority l in Ok ((p, r) :: rs)
  end.

(** The running requests to preempt, in order, and what remains to be freed. *)
Fixpoint choose_preemptible (priority_sign req_priority : Z) (min_tokens_to_remove : num) (l : list (Z * SchedReq))
    : list SchedReq * num :=
  match l with
  | [] => ([], min_tokens_to_remove)
  | (p, r) :: l =>
      let priority_diff := (req_priority - p) * (- priority_sign) in
      if ac_preemption_threshold cfg <? priority_diff then
        let m := num_sub min_tokens_to_remove (running_request_total_token_offset r) in
        if num_leb m (PInt 0) then ([r], m)
        else let '(rs, m) := choose_preemptible priority_sign req_priority m l in (r :: rs, m)
      else ([], min_tokens_to_remove)
  end.

Definition reset_for_retract (r : SchedReq) : SchedReq :=
  let q := sr_req r in
  set_sr_lens
    (set_sr_req r (MkReq (req_pool_idx q) (origin_input_ids q) (if has_input_embeds r then [] else output_ids q) (fill_ids q)
                     (req_extra_key q) (req_priority q) [] None 0 0 0 0 false false (reasoning_tokens q)))
    0 0 (host_hit_length r).

(** [ScheduleBatch.release_req], without disaggregation; [steps] is
    [SGLANG_RETRACT_DECODE_STEPS]. *)
Definition release_req (args : release_args) (steps : Z) (t : T) (a : A) (pool : ReqToTokenPool) (r : SchedReq)
    (remaining_req_count : Z) : res (T * A * ReqToTokenPool * SchedReq) :=
  let* (t, a, pool, q) := release_kv_cache args t a pool (sr_req r) (skip_radix_cache_insert r) false in
  let* (t, a) := evict_from_tree_cache t a (remaining_req_count * steps) in
  Ok (t, a, pool, reset_for_retract (set_sr_req r q)).

(** The loop over the running batch; [total] is its length. *)
Fixpoint preempt_loop (args : release_args) (steps : Z) (chosen : list SchedReq) (total released : Z) (l : list SchedReq)
    (offset : num) (t : T) (a : A) (pool : ReqToTokenPool)
    : res (list SchedReq * list SchedReq * num * T * A * ReqToTokenPool) :=
  match l with
  | [] => Ok ([], [], offset, t, a, pool)
  | r :: l =>
      if bool_decide (r ∈ chosen) then
        let offset := num_sub offset (running_request_total_token_offset r) in
        let released := released + 1 in
        let* (t, a, pool, r') := release_req args steps t a pool r (total - released) in
        let* (kept, gone, offset, t, a, pool) := preempt_loop args steps chosen total released l offset t a pool in
        Ok (kept, r' :: gone, offset, t, a, pool)
      else
        let* (kept, gone, offset, t, a, pool) := preempt_loop args steps chosen total released l offset t a pool in
        Ok (r :: kept, gone, offset, t, a, pool)
  end.

(** [low_first] is [schedule_low_priority_values_first].  A missing running batch has
    no [reqs].  The preempted requests are appended in batch order; the code leaves
    their order to a set. *)
Definition preempt_to_schedule (args : release_args) (steps : Z) (low_first : bool) (t : T) (a : A) (pool : ReqToTokenPool)
    (s : PrefillAdder) (req : SchedReq) : res (bool * T * A * ReqToTokenPool * PrefillAdder) :=
  let priority_sign := if low_first then 1 else -1 in
  match running_batch s with
  | None => Raise AttributeError
  | Some running =>
      let valid := filter (fun r => (r ∉ preempt_list s) /\ sr_finished r = false) running in
      let* valid := with_priority valid in
      let key (x : Z * SchedReq) := (x.1 * - priority_sign, - wait_queue_entry_time x.2) in
      let sorted := py_sort (fun x y => ((key x).1 <? (key y).1) || (((key x).1 =? (key y).1) && ((key x).2 <? (key y).2))) valid in
      let min_tokens_to_remove :=
        num_sub (PInt (extend_input_len req + Z.min (max_new_tokens req) CLIP_MAX_NEW_TOKENS)) (rem_total_tokens t a s) in
      let* p := match sorted with [] => Ok 0 | _ => priority_of req end in
      let '(preemptible, min_tokens_to_remove) := choose_preemptible priority_sign p min_tokens_to_remove sorted in
      if (zlen preemptible =? 0) || num_ltb (PInt 0) min_tokens_to_remove then Ok (false, t, a, pool, s)
      else
        let* (kept, gone, offset, t, a, pool) :=
          preempt_loop args steps preemptible (zlen running) 0 running (rem_total_token_offset s) t a pool in
        Ok (true, t, a, pool,
            MkAdder (Some kept) (rem_input_tokens s) (rem_chunk_tokens s) (rem_dllm_tokens s) offset (cur_rem_token_offset s)
              (req_states s) (can_run_list s) (preempt_list s ++ gone) (new_chunked_req s) (log_hit_tokens s) (log_input_tokens s))
  end.
End Adder.
