(* ===== verification/PrefillProps.v ===== *)
(** Properties of [PrefillAdder]: what it admits fits in memory, and what it truncates
    ends at a page boundary. *)

From S2P Require Export PrefillAdder KVCommon.
From S2P Require Import KVMemory.

(** ** Sorting *)

Section PySortFacts.
Context {B : Type} (lt : B -> B -> bool).

Lemma sort_insert_perm x l : Permutation (sort_insert lt x l) (x :: l).
Proof.
  induction l as [|y l IH]; [done|]. simpl. destruct (lt y x); [|done]. rewrite IH. apply perm_swap.
Qed.

Lemma py_sort_perm l : Permutation (py_sort lt l) l.
Proof. induction l as [|x l IH]; [done|]. simpl. by rewrite sort_insert_perm, IH. Qed.

Context (Htrans : forall x y z, lt x y = true -> lt y z = true -> lt x z = true).
Context (Hirr : forall x, lt x x = false).
Context (Htot : forall x y z, lt y x = false -> lt z y = false -> lt z x = false).

(** Sorted: no element is below an earlier one. *)
Abbreviation in_order := (StronglySorted (fun x y => lt y x = false)).

Lemma sort_insert_sorted x l : in_order l -> in_order (sort_insert lt x l).
Proof.
  induction 1 as [|y l Hl IH Hy]; [repeat constructor|]. simpl. destruct (lt y x) eqn:E.
  - constructor; [done|]. rewrite sort_insert_perm. constructor; [|done].
    destruct (lt x y) eqn:E'; [|done]. pose proof (Htrans _ _ _ E E') as H. by rewrite Hirr in H.
  - constructor; [by constructor|]. constructor; [done|].
    eapply Forall_impl; [exact Hy|]. intros z Hz. by apply (Htot x y z).
Qed.

Lemma py_sort_sorted l : in_order (py_sort lt l).
Proof. induction l as [|x l IH]; [constructor|]. simpl. by apply sort_insert_sorted. Qed.
End PySortFacts.

(** ** Budget arithmetic *)

Section Budget.
Context (cfg : AdderConfig).
Abbreviation ps := (ac_page_size cfg).

Lemma ceil_paged_spec n : 0 < ps -> n <= ceil_paged_tokens cfg n < n + ps /\ (ps | ceil_paged_tokens cfg n).
Proof.
  intros Hps. unfold ceil_paged_tokens. pose proof (Z.div_mod (- n) ps ltac:(lia)). pose proof (Z.mod_pos_bound (- n) ps Hps).
  split; [lia|]. apply Z.divide_factor_r.
Qed.

Lemma floor_paged_spec n : 0 < ps -> n - ps < n / ps * ps <= n.
Proof. intros Hps. pose proof (Z.div_mod n ps ltac:(lia)). pose proof (Z.mod_pos_bound n ps Hps). lia. Qed.

(** What the admitted requests will ask of the allocator. *)
Definition committed (s : PrefillAdder) : Z := zsum (map (fun r => extend_input_len r + ps) (can_run_list s)).

Lemma committed_push s r : committed (push_run s r) = committed s + (extend_input_len r + ps).
Proof. unfold committed. simpl. rewrite map_app, zsum_app. unfold zsum at 2. simpl. lia. Qed.

Context {T A : Type} {Alloc : KVAllocator A} {Cache : BasePrefixCache T A kva_pool}.

(** The budget: the admitted requests fit in what is free or evictable, and the offset
    has counted them.  The sizes are small enough for doubles to be exact on them. *)
Record budget_ok (t : T) (a : A) (s : PrefillAdder) : Prop := {
  bo_fits : committed s <= kv_available a + tc_evictable_size t;
  bo_nonneg : 0 <= committed s;
  bo_offset : committed s * float_one <= units_of (rem_total_token_offset s);
  bo_small : kv_available a + tc_evictable_size t <= 2 ^ 53;
}.

(** A request as the scheduler offers it. *)
Record offer (g : tc_ghost) (r : SchedReq) : Prop := {
  of_extend : 0 <= extend_input_len r;
  of_new : 0 <= max_new_tokens r;
  of_host : host_hit_length r = 0;
  of_node : tc_lockable g (last_node (sr_req r));
}.

Context (Hps : 0 < ps) (Hclip : 0 <= ac_clip_max_new_tokens cfg) (Hdllm : ac_dllm_block cfg = None).
Context (a : A).

(** Below the limit of [rem_total_tokens] there is room beside what is committed. *)
Lemma room_left t g s n : tc_ok t g -> 0 <= kv_available a -> kv_available a + tc_evictable_size t <= 2 ^ 53 ->
  0 <= committed s <= 2 ^ 53 -> committed s * float_one <= units_of (rem_total_token_offset s) ->
  num_leb (rem_total_tokens t a s) (PInt n) = false -> committed s + n < kv_available a + tc_evictable_size t.
Proof.
  intros Hok Hav Hs Hc Hoff Hle. unfold num_leb in Hle. apply Z.leb_gt in Hle. unfold rem_total_tokens in Hle.
  pose proof (tc_evictable_nonneg t g Hok).
  set (m := kv_available a + tc_evictable_size t) in *. assert (0 <= m) as Hm by (unfold m; lia).
  pose proof (num_sub_upper (rem_total_token_offset s) (committed s) m ltac:(lia) ltac:(lia) ltac:(lia) Hoff) as Hu.
  change (units_of (PInt n)) with (n * float_one) in Hle.
  assert (n < m - committed s); [|lia]. apply (Z.mul_lt_mono_pos_r float_one); [apply float_one_pos|lia].
Qed.

Lemma budget_update t s r prefix_len ext max_new : 0 <= committed s ->
  committed s * float_one <= units_of (rem_total_token_offset s) -> kv_available a + tc_evictable_size t <= 2 ^ 53 ->
  0 <= extend_input_len r -> extend_input_len r <= ext -> 0 <= max_new ->
  committed s + (extend_input_len r + ps) <= kv_available a + tc_evictable_size t ->
  forall s1, can_run_list s1 = can_run_list s ++ [r] -> rem_total_token_offset s1 = rem_total_token_offset s ->
  budget_ok t a (update_prefill_budget cfg s1 prefix_len ext max_new).
Proof.
  intros bo_nonneg0 bo_offset0 Hs H0 Hr Hm Hroom s1 Hrun Hoff.
  assert (committed (update_prefill_budget cfg s1 prefix_len ext max_new) = committed s + (extend_input_len r + ps)) as Hc.
  { unfold committed. simpl. rewrite Hrun, map_app, zsum_app. unfold zsum at 2. simpl. lia. }
  destruct (ceil_paged_spec ext Hps) as [Hce _].
  split; try rewrite Hc; [done|lia| |done]. unfold update_prefill_budget. cbn [rem_total_token_offset]. rewrite Hoff.
  apply num_add_lower; lia || done.
Qed.

(** How long a truncated chunk is. *)
Lemma trunc_bounds c ext align prefix_len :
  c < ceil_paged_tokens cfg ext -> match align with Some al => 0 < al | None => True end ->
  let trunc_len := c / ps * ps in
  let trunc_len := match align with Some al => al * (trunc_len / al) | None => trunc_len end in
  let now_input_len := (trunc_len + prefix_len) / ps * ps in
  now_input_len - prefix_len <= ext /\ (ps | now_input_len).
Proof.
  intros Hc Hal. cbv zeta. destruct (ceil_paged_spec ext Hps) as [H1 H2]. pose proof (floor_paged_spec c Hps) as H3.
  assert (c / ps * ps + ps <= ceil_paged_tokens cfg ext) as H4
    by (apply divide_lt_step; [done|apply Z.divide_factor_r|done|lia]).
  set (tl := match align with Some al => al * (c / ps * ps / al) | None => c / ps * ps end).
  assert (tl <= c / ps * ps) as H5.
  { unfold tl. destruct align as [al|]; [|done]. pose proof (Z.mul_div_le (c / ps * ps) al Hal). lia. }
  pose proof (floor_paged_spec (tl + prefix_len) Hps). split; [lia|apply Z.divide_factor_r].
Qed.

(** All of the request, or its first [n] new tokens. *)
Definition chunk_of (req req' : SchedReq) : Prop :=
  req' = req \/ exists n, 0 <= n <= extend_input_len req /\ req' = truncate_req req n (prefix_len_of req + n).

Definition same_batches (s s' : PrefillAdder) : Prop :=
  preempt_list s' = preempt_list s /\ running_batch s' = running_batch s.

(** The outcome of the locked part: the request is left alone, or it is appended and
    its node locked once more. *)
Definition locked_outcome (align : option Z) (t1 : T) (s : PrefillAdder) (req : SchedReq)
    (early : option AddReqResult) (t2 : T) (s' : PrefillAdder) (req' : SchedReq) : Prop :=
  match early with
  | Some _ => t2 = t1 /\ s' = s /\ req' = req
  | None => (exists d, tc_inc_lock_ref t1 (last_node (sr_req req)) = Ok (d, t2))
      /\ can_run_list s' = can_run_list s ++ [req'] /\ budget_ok t1 a s'
      /\ 0 <= extend_input_len req' <= extend_input_len req
      /\ (extend_input_len req' < extend_input_len req -> new_chunked_req s' = Some req'
           /\ (ps | prefix_len_of req' + extend_input_len req'))
      /\ chunk_of req req' /\ same_batches s s'
  end.

Lemma add_locked_ok align t1 g1 s req max_new : tc_ok t1 g1 -> offer g1 req -> 0 <= kv_available a ->
  kv_available a + tc_evictable_size t1 <= 2 ^ 53 -> match align with Some al => 0 < al | None => True end -> 0 <= max_new ->
  0 <= committed s <= 2 ^ 53 -> committed s * float_one <= units_of (rem_total_token_offset s) ->
  exists early t2 s' req', add_locked cfg align t1 a s req (extend_input_len req + max_new + ps) = Ok (early, t2, s', req')
    /\ locked_outcome align t1 s req early t2 s' req'.
Proof.
  intros Hok [] Hav Hs Hal Hmax Hc Hoff. unfold add_locked. rewrite of_host0, Hdllm. cbn [Z.ltb Z.compare].
  destruct (num_leb _ _) eqn:Hroom; [by eexists _, _, _, _|].
  apply (room_left t1 g1 s _ Hok Hav Hs Hc Hoff) in Hroom.
  destruct (_ && _); [by eexists _, _, _, _|].
  destruct (tc_lock_law t1 g1 _ Hok of_node0) as (d & t2 & g2 & _ & _ & _ & Hinc & _).
  destruct (ceil_paged_spec (extend_input_len req) Hps) as [Hce _].
  destruct (match rem_chunk_tokens s with None => true | Some c => _ end) eqn:Hwhole.
  - rewrite Hinc. cbn [res_bind]. eexists None, t2, _, req. split; [done|]. split_and!; [eauto|done| |lia|lia|lia|by left|done].
    apply (budget_update t1 s req); try done; try lia.
  - destruct (rem_chunk_tokens s) as [c|]; [|done]. apply Z.leb_gt in Hwhole. cbn [default from_option id].
    destruct (_ <=? 0); [by eexists _, _, _, _|].
    destruct (match align with Some al => _ | None => false end); [by eexists _, _, _, _|].
    pose proof (trunc_bounds c (extend_input_len req) align (prefix_len_of req) Hwhole Hal) as [Htr Hdv].
    cbv zeta in Htr, Hdv. set (now := (_ + prefix_len_of req) / ps * ps) in *.
    destruct (Z.leb_spec (now - prefix_len_of req) 0); [by eexists _, _, _, _|].
    change (last_node (sr_req (truncate_req _ _ _))) with (last_node (sr_req req)). rewrite Hinc. cbn [res_bind].
    eexists None, t2, _, _. split; [done|]. split_and!; [eauto|done| |simpl; lia|simpl; lia|intros _; split; [done|]|right; eexists; split; [|done]; lia|done].
    + apply (budget_update t1 s (truncate_req req (now - prefix_len_of req) (prefix_len_of req + (now - prefix_len_of req))));
        simpl; try done; lia.
    + unfold prefix_len_of at 1. simpl. fold (prefix_len_of req). by replace (prefix_len_of req + (now - prefix_len_of req)) with now by lia.
Qed.

(** What [add_one_req] did: nothing, or it admitted [req'], all of [req] or a chunk that
    ends at a page boundary. *)
Definition admitted (s s' : PrefillAdder) (req req' : SchedReq) : Prop :=
  (s' = s /\ req' = req)
  \/ (can_run_list s' = can_run_list s ++ [req'] /\ chunk_of req req' /\ same_batches s s'
      /\ 0 <= extend_input_len req' <= extend_input_len req
      /\ (extend_input_len req' < extend_input_len req -> new_chunked_req s' = Some req'
           /\ (ps | prefix_len_of req' + extend_input_len req'))).

Lemma budget_ok_size t t' s : tc_evictable_size t' = tc_evictable_size t -> budget_ok t a s -> budget_ok t' a s.
Proof. intros He []. split; rewrite ?He; done. Qed.

Lemma add_one_req_ok align t g s req : tc_ok t g -> offer g req -> 0 <= kv_available a ->
  match align with Some al => 0 < al | None => True end -> ignore_eos req && tc_disable = false -> budget_ok t a s ->
  exists r t' g' s' req', add_one_req cfg align t a s req = Ok (r, t', s', req')
    /\ tc_ok t' g' /\ tc_slots t' g' = tc_slots t g /\ tc_page_size t' = tc_page_size t
    /\ (forall m, tc_lockable g m -> tc_lockable g' m) /\ budget_ok t' a s' /\ admitted s s' req req'.
Proof.
  intros Hok Hof Hav Hal Hie Hb. unfold add_one_req. rewrite Hie. clear Hie.
  assert (forall r : AddReqResult, exists r' t' g' s' req', Ok (r, t, s, req) = Ok (r', t', s', req')
    /\ tc_ok t' g' /\ tc_slots t' g' = tc_slots t g /\ tc_page_size t' = tc_page_size t
    /\ (forall m, tc_lockable g m -> tc_lockable g' m) /\ budget_ok t' a s' /\ admitted s s' req req') as Hskip.
  { intros r. exists r, t, g, s, req. split_and!; try done. by left. }
  destruct (delayed cfg); [apply Hskip|]. destruct (_ && _); [apply Hskip|].
  destruct (match ac_prefill_max_requests cfg with Some _ => _ | None => _ end); [apply Hskip|].
  destruct (num_leb _ _); [apply Hskip|]. destruct (_ && _); [apply Hskip|].
  destruct (tc_lock_law t g _ Hok (of_node _ _ Hof)) as (d & t1 & g1 & d' & t1' & g1' & Hinc & Hok1 & Hsl1 & Hp1 & Hlk1 & Hdec & Hok1' & Hsl1' & Hp1' & Hlk1' & He1' & Hle1 & _).
  rewrite Hinc. cbn [res_bind]. set (max_new := Z.min _ (ac_clip_max_new_tokens cfg)).
  assert (0 <= max_new) as Hmn by (unfold max_new; lia). pose proof Hb as [Hb1 Hb2 Hb3 Hb4].
  assert (offer g1 req) as Hof1 by (destruct Hof; split; auto).
  destruct (add_locked_ok align t1 g1 s req max_new Hok1 Hof1 Hav ltac:(lia) Hal Hmn ltac:(lia) Hb3) as (early & t2 & s' & req' & -> & Hout).
  cbn [res_bind]. destruct early as [r|].
  - destruct Hout as (-> & -> & ->). rewrite Hdec. cbn [res_bind]. exists r, t1', g1', s, req.
    split_and!; try done; [by apply (budget_ok_size t)|by left].
  - destruct Hout as ([d2 Hinc2] & Hrun & Hbud & Hext & Hchunk & Hpre & Hsame).
    destruct (tc_lock_law t1 g1 _ Hok1 (of_node _ _ Hof1)) as (e & t2' & g2 & e' & t3 & g3 & Hinc3 & _ & _ & _ & _ & Hdec3 & Hok3 & Hsl3 & Hp3 & Hlk3 & He3 & _).
    rewrite Hinc2 in Hinc3. injection Hinc3 as -> ->. rewrite Hdec3. cbn [res_bind].
    eexists _, t3, g3, s', req'. split_and!; [done|done|congruence|congruence|auto|by apply (budget_ok_size t1)|by right].
Qed.

(** ** The start *)

(** A running request has not produced more than it may. *)
Definition running_ok (r : SchedReq) : Prop := zlen (output_ids (sr_req r)) <= max_new_tokens r.

Lemma adder_init_budget t g running rem_input rem_chunk mixed dllm : tc_ok t g -> 0 <= kv_available a ->
  kv_available a + tc_evictable_size t <= 2 ^ 53 -> 0 <= units_of (ac_new_token_ratio cfg) -> 0 <= mixed ->
  Forall running_ok running -> budget_ok t a (adder_init cfg (Some running) rem_input rem_chunk mixed dllm).
Proof.
  intros Hok Hav Hs Hratio Hmix Hrun. pose proof (tc_evictable_nonneg t g Hok). pose proof float_one_pos.
  split; [unfold committed, zsum; simpl; lia|done| |done]. change (committed _ * float_one) with 0. cbn [adder_init rem_total_token_offset].
  apply num_add_nonneg; [simpl; nia|]. apply num_sum_nonneg, Forall_map. eapply Forall_impl; [exact Hrun|].
  intros r Hr. simpl. unfold running_request_total_token_offset. apply num_mul_nonneg; [unfold running_ok in Hr; lia|done].
Qed.
End Budget.
