(* ===== verification/SchedulePolicy.v ===== *)
(** The order of the waiting queue: [SchedulePolicy] of [managers/schedule_policy.py].

    [TreeView] is how the depth-first policy reads the tree cache: its root and the
    children of a node in dictionary order.  The waiting requests are mutated in place by
    prefix matching, so every operation returns the queue. *)

From S2P Require Export Prelude RadixKey RadixCache ChunkCache PrefillAdder.

Class TreeView (T : Type) : Type := {
  tv_root : T -> nat;
  tv_children : T -> nat -> list nat;
  tv_size : T -> nat
}.

Inductive Policy : Type :=
  | LPM
  | DFS_WEIGHT
  | FCFS
  | LOF
  | RANDOM
  | ROUTING_KEY.

#[export] Instance Policy_eq_dec : EqDecision Policy.
Proof. solve_decision. Defined.

(** [isinstance(policy, CacheAwarePolicy)] *)
Definition is_cache_aware (p : Policy) : bool :=
  match p with LPM | DFS_WEIGHT => true | _ => false end.

(** [CacheAwarePolicy(policy)] *)
Definition cache_aware_policy (policy : string) : res Policy :=
  if decide (policy = "lpm") then Ok LPM
  else if decide (policy = "dfs-weight") then Ok DFS_WEIGHT
  else Raise ValueError.

(** [CacheAgnosticPolicy(policy)] *)
Definition cache_agnostic_policy (policy : string) : res Policy :=
  if decide (policy = "fcfs") then Ok FCFS
  else if decide (policy = "lof") then Ok LOF
  else if decide (policy = "random") then Ok RANDOM
  else if decide (policy = "routing-key") then Ok ROUTING_KEY
  else Raise ValueError.

(** [disable] is that of the tree cache. *)
Definition validate_and_adjust_policy (policy : string) (disable : bool) : res Policy :=
  match cache_aware_policy policy with
  | Ok p => Ok (if disable then FCFS else p)
  | Raise _ => cache_agnostic_policy policy
  end.

Definition determine_active_policy (policy : Policy) (waiting_queue : list SchedReq) : Policy :=
  if decide (policy = LPM) then (if 128 <? zlen waiting_queue then FCFS else policy) else policy.

(** ** The orders *)

(** [None] is [float("inf")]. *)
Definition prefix_key (deprioritized : gset string) (r : SchedReq) : option Z :=
  if decide (rid r ∈ deprioritized) then None else Some (- prefix_len_of r).

Definition inf_ltb (x y : option Z) : bool :=
  match x, y with
  | Some a, Some b => a <? b
  | Some _, None => true
  | None, _ => false
  end.

Definition sort_by_longest_prefix (deprioritized : gset string) (q : list SchedReq) : list SchedReq :=
  py_sort (fun x y => inf_ltb (prefix_key deprioritized x) (prefix_key deprioritized y)) q.

(** Comparison of pairs. *)
Definition pair_ltb (x y : Z * Z) : bool := (x.1 <? y.1) || ((x.1 =? y.1) && (x.2 <? y.2)).

Definition sort_by_longest_output (enable_priority_scheduling : bool) (priority_sign : Z) (q : list SchedReq)
    : res (list SchedReq) :=
  if enable_priority_scheduling then
    let* q := with_priority q in
    let key (x : Z * SchedReq) := (x.1 * priority_sign, - max_new_tokens x.2) in
    Ok (map snd (py_sort (fun x y => pair_ltb (key x) (key y)) q))
  else Ok (py_sort (fun x y => - max_new_tokens x <? - max_new_tokens y) q).

Definition sort_by_priority_and_fcfs (priority_sign : Z) (q : list SchedReq) : res (list SchedReq) :=
  let* q := with_priority q in
  let key (x : Z * SchedReq) := (x.1 * priority_sign, wait_queue_entry_time x.2) in
  Ok (map snd (py_sort (fun x y => pair_ltb (key x) (key y)) q)).

(** [r.routing_key] when it is truthy. *)
Definition truthy_key (r : SchedReq) : option string :=
  match routing_key r with
  | Some k => if decide (k = EmptyString) then None else Some k
  | None => None
  end.

(** [Counter] of the routing keys of the running batch. *)
Definition routing_key_counts (running : list SchedReq) : list string := omap truthy_key running.

Definition routing_sort_key (keys : list string) (r : SchedReq) : Z * Z * string :=
  match truthy_key r with
  | Some k => if decide (k ∈ keys) then (0, - Z.of_nat (count_occ String.string_dec keys k), k) else (1, 0, k)
  | None => (1, 0, EmptyString)
  end.

Definition routing_ltb (x y : Z * Z * string) : bool :=
  pair_ltb x.1 y.1 || ((x.1.1 =? y.1.1) && (x.1.2 =? y.1.2) && String.ltb x.2 y.2).

Definition sort_by_routing_key (running q : list SchedReq) : list SchedReq :=
  let keys := routing_key_counts running in
  if decide (keys = []) then q
  else py_sort (fun x y => routing_ltb (routing_sort_key keys x) (routing_sort_key keys y)) q.

(** *** Depth first *)

Section Dfs.
Context {T : Type} {View : TreeView T} (t : T).

(** [node_to_weight[n]], a [defaultdict(int)] *)
Definition weight (w : gmap (option nat) Z) (n : nat) : Z := default 0 (w !! Some n).

(** [fuel] bounds the depth of the recursion. *)
Fixpoint calc_weight (fuel : nat) (cur_node : nat) (w : gmap (option nat) Z) : res (gmap (option nat) Z) :=
  match fuel with
  | O => Raise RuntimeError
  | S fuel =>
      (fix children (l : list nat) (w : gmap (option nat) Z) : res (gmap (option nat) Z) :=
         match l with
         | [] => Ok w
         | child :: l =>
             let* w := calc_weight fuel child w in
             children l (<[Some cur_node := weight w cur_node + weight w child]> w)
         end) (tv_children t cur_node) w
  end.

Fixpoint get_dfs_priority (fuel : nat) (cur_node : nat) (w : gmap (option nat) Z)
    (last_node_to_reqs : gmap (option nat) (list SchedReq)) (q : list SchedReq) : res (list SchedReq) :=
  match fuel with
  | O => Raise RuntimeError
  | S fuel =>
      let* q := (fix children (l : list nat) (q : list SchedReq) : res (list SchedReq) :=
         match l with
         | [] => Ok q
         | child :: l =>
             let* q := get_dfs_priority fuel child w last_node_to_reqs q in
             children l q
         end) (py_sort (fun x y => - weight w x <? - weight w y) (tv_children t cur_node)) q in
      Ok (q ++ default [] (last_node_to_reqs !! Some cur_node))
  end.

Definition last_node_to_reqs (q : list SchedReq) : gmap (option nat) (list SchedReq) :=
  foldl (fun m r => <[last_node (sr_req r) := default [] (m !! last_node (sr_req r)) ++ [r]]> m) ∅ q.

Definition sort_by_dfs_weight (q : list SchedReq) : res (list SchedReq) :=
  let m := last_node_to_reqs q in
  let node_to_weight := zlen <$> m in
  let* w := calc_weight (tv_size t) (tv_root t) node_to_weight in
  get_dfs_priority (tv_size t) (tv_root t) w m [].
End Dfs.

(** ** Matching the waiting queue *)

(** What does not change after construction.  [sp_random] is [random.shuffle]. *)
Record PolicyConfig : Type := MkPolicyConfig {
  sp_policy : Policy;
  sp_enable_priority_scheduling : bool;
  sp_schedule_low_priority_values_first : bool;
  sp_check_threshold : Z;
  sp_deprioritize_threshold : Z;
  sp_random : list SchedReq -> list SchedReq
}.

Definition priority_sign (cfg : PolicyConfig) : Z :=
  if sp_schedule_low_priority_values_first cfg then 1 else -1.

(** [RadixCache.create_simulated()] *)
Definition simulated_cfg : CacheConfig := MkConfig false 1 false false false LRUStrategy false.

Section Matching.
Context {T A : Type} {Pool : KVPool A} {Cache : BasePrefixCache T A Pool} {View : TreeView T}.
Context (cfg : PolicyConfig) (monotonic : nat -> Z) (sha256 : list Z -> list Z) (torch_empty : Z -> list Z).

Definition set_match (q : Req) (indices : list Z) (node : option nat) : Req :=
  MkReq (req_pool_idx q) (origin_input_ids q) (output_ids q) (fill_ids q) (req_extra_key q) (req_priority q)
    indices node (cache_protected_len q) (is_chunked q) (kv_committed_len q)
    (kv_allocated_len q) (kv_committed_freed q) (kv_overallocated_freed q) (reasoning_tokens q).

(** The caches of this development match on the device only, and leave
    [cache_protected_len] and [mamba_branching_seqlen] of the result unset. *)
Definition match_prefix_for_req (t : T) (r : SchedReq) (token_ids : option (list Z)) : res (T * SchedReq) :=
  let q := sr_req r in
  let token_ids := match token_ids with Some l => l | None => origin_input_ids q ++ output_ids q end in
  let* (indices, node, t) := tc_match_prefix t (MkRadixKey token_ids (req_extra_key q) false) in
  Ok (t, set_sr_lens (set_sr_req r (set_match q indices node)) (extend_input_len r) (extend_logprob_start_len r) 0).

(** One turn of the loop: [sim] is [waiting_queue_radix_tree]. *)
Definition match_one (t : T) (sim : RadixCache) (deprioritized : gset string) (r : SchedReq)
    : res (T * RadixCache * gset string * SchedReq) :=
  let prefix_ids := origin_input_ids (sr_req r) ++ output_ids (sr_req r) in
  let* (t, r) := match_prefix_for_req t r (Some prefix_ids) in
  if prefix_len_of r <=? sp_check_threshold cfg then
    let k := MkRadixKey prefix_ids (req_extra_key (sr_req r)) false in
    let* (in_batch, _, sim) := match_prefix simulated_cfg monotonic sim k in
    if sp_deprioritize_threshold cfg <=? zlen in_batch then Ok (t, sim, {[rid r]} ∪ deprioritized, r)
    else
      let* (_, sim) := RadixCache.insert simulated_cfg monotonic sha256 sim k (Some (torch_empty (zlen prefix_ids))) None false in
      Ok (t, sim, deprioritized, r)
  else Ok (t, sim, deprioritized, r).

Fixpoint match_loop_queue (t : T) (sim : RadixCache) (deprioritized : gset string) (q : list SchedReq)
    : res (T * RadixCache * gset string * list SchedReq) :=
  match q with
  | [] => Ok (t, sim, deprioritized, [])
  | r :: q =>
      let* (t, sim, deprioritized, r) := match_one t sim deprioritized r in
      let* (t, sim, deprioritized, q) := match_loop_queue t sim deprioritized q in
      Ok (t, sim, deprioritized, r :: q)
  end.

Definition compute_prefix_matches (t : T) (sim : RadixCache) (q : list SchedReq)
    : res (T * RadixCache * gset string * list SchedReq) :=
  match_loop_queue t (reset simulated_cfg monotonic sim) ∅ q.

(** Returns [prefix_computed], the tree caches and the queue. *)
Definition calc_priority (t : T) (sim : RadixCache) (q : list SchedReq) (running : option (list SchedReq))
    : res (bool * T * RadixCache * list SchedReq) :=
  if decide (sp_policy cfg = FCFS) then
    let* q := if sp_enable_priority_scheduling cfg then sort_by_priority_and_fcfs (priority_sign cfg) q else Ok q in
    Ok (false, t, sim, q)
  else
    match determine_active_policy (sp_policy cfg) q with
    | LPM =>
        let* (t, sim, deprioritized, q) := compute_prefix_matches t sim q in
        Ok (true, t, sim, sort_by_longest_prefix deprioritized q)
    | DFS_WEIGHT =>
        let* (t, sim, _, q) := compute_prefix_matches t sim q in
        let* q := sort_by_dfs_weight t q in
        Ok (true, t, sim, q)
    | FCFS => Ok (false, t, sim, q)
    | LOF =>
        let* q := sort_by_longest_output (sp_enable_priority_scheduling cfg) (priority_sign cfg) q in
        Ok (false, t, sim, q)
    | RANDOM => Ok (false, t, sim, sp_random cfg q)
    | ROUTING_KEY =>
        Ok (false, t, sim, match running with Some running => sort_by_routing_key running q | None => q end)
    end.
End Matching.
