(* ===== verification/PolicyProps.v ===== *)
(** Properties of the waiting-queue orders of [SchedulePolicy.v]: every policy permutes
    the queue, sorts are stable and by their key, and the depth-first order visits every
    node of the tree once. *)

From Stdlib Require Import Ascii.
From S2P Require Export SchedulePolicy PrefillProps.
From S2P Require Import RadixTree RadixMatch RadixInsert RadixLock RadixReq RadixProps.

(** ** Keys *)

(** A strict weak order, as [list.sort] needs one. *)
Class WeakOrder {B : Type} (lt : B -> B -> bool) : Prop := {
  wo_irr x : lt x x = false;
  wo_trans x y z : lt x y = true -> lt y z = true -> lt x z = true;
  wo_tot x y z : lt y x = false -> lt z y = false -> lt z x = false;
}.

Lemma wo_key {B C} (lt : B -> B -> bool) (key : C -> B) : WeakOrder lt -> WeakOrder (fun x y => lt (key x) (key y)).
Proof. intros []. split; intros; eauto. Qed.

(** The order of a sort with [reverse=True]. *)
Lemma wo_flip {B} (lt : B -> B -> bool) : WeakOrder lt -> WeakOrder (fun x y => lt y x).
Proof. intros []. split; intros; eauto. Qed.

#[export] Instance wo_Z : WeakOrder Z.ltb.
Proof. split; intros; rewrite ?Z.ltb_lt, ?Z.ltb_ge in *; lia. Qed.

#[export] Instance wo_inf : WeakOrder inf_ltb.
Proof.
  split; [intros [x|]|intros [x|] [y|] [z|]|intros [x|] [y|] [z|]]; simpl; intros; try done; rewrite ?Z.ltb_lt, ?Z.ltb_ge in *; lia.
Qed.

#[export] Instance wo_pair : WeakOrder pair_ltb.
Proof.
  unfold pair_ltb. split; intros; repeat match goal with x : Z * Z |- _ => destruct x end; simpl in *;
    rewrite ?orb_true_iff, ?orb_false_iff, ?andb_true_iff, ?andb_false_iff, ?Z.ltb_lt, ?Z.ltb_ge, ?Z.eqb_eq, ?Z.eqb_neq in *; lia.
Qed.

(** The order of strings, character by character. *)
Lemma string_ltb_cons a s b s' :
  String.ltb (String a s) (String b s')
  = (N_of_ascii a <? N_of_ascii b)%N || ((N_of_ascii a =? N_of_ascii b)%N && String.ltb s s').
Proof.
  unfold String.ltb. simpl. unfold Ascii.compare, N.ltb. rewrite N.eqb_compare.
  by destruct (N_of_ascii a ?= N_of_ascii b)%N.
Qed.

#[export] Instance wo_string : WeakOrder String.ltb.
Proof.
  split.
  - induction x as [|a x IH]; [done|]. rewrite string_ltb_cons, IH, N.ltb_irrefl, andb_false_r. done.
  - intros x y. revert x. induction y as [|b y IH]; intros [|a x] [|c z]; try done. rewrite !string_ltb_cons.
    rewrite !orb_true_iff, !andb_true_iff, !N.ltb_lt, !N.eqb_eq. intros [H|[H H']] [K|[K K']]; [left; lia..|].
    right. split; [lia|]. by apply IH.
  - intros x y. revert x. induction y as [|b y IH]; intros [|a x] [|c z]; try done. rewrite !string_ltb_cons.
    rewrite !orb_false_iff, !andb_false_iff, !N.ltb_ge, !N.eqb_neq. intros [H H'] [K K']. split; [lia|].
    destruct H' as [?|H']; [left; lia|]. destruct K' as [?|K']; [left; lia|]. right. by apply (IH x).
Qed.

#[export] Instance wo_routing : WeakOrder routing_ltb.
Proof.
  unfold routing_ltb. split.
  - intros [[a b] s]. simpl. pose proof (wo_irr (lt := pair_ltb) (a, b)) as ->.
    pose proof (wo_irr (lt := String.ltb) s) as ->. by rewrite andb_false_r.
  - intros [[a b] s] [[a1 b1] s1] [[a2 b2] s2]. unfold pair_ltb. simpl.
    rewrite !orb_true_iff, !andb_true_iff, !Z.ltb_lt, !Z.eqb_eq.
    intros [?|[? H]] [?|[? K]]; [left; lia..|]. right. split; [lia|]. by apply (wo_trans (lt := String.ltb) _ s1).
  - intros [[a b] s] [[a1 b1] s1] [[a2 b2] s2]. unfold pair_ltb. simpl.
    rewrite !orb_false_iff, !andb_false_iff, !Z.ltb_ge, !Z.eqb_neq. intros [H ?] [K ?]. split; [lia|].
    destruct (String.ltb s2 s) eqn:E; [|by right]. left.
    destruct (String.ltb s1 s) eqn:E1; [lia|]. destruct (String.ltb s2 s1) eqn:E2; [lia|].
    by rewrite (wo_tot (lt := String.ltb) s s1 s2 E1 E2) in E.
Qed.

(** ** Sorting is by the key and stable *)

Lemma sorted_weaken {B} (R R' : B -> B -> Prop) l : StronglySorted R l -> (forall x y, R x y -> R' x y) -> StronglySorted R' l.
Proof. intros H HR. induction H as [|x l Hl IH Hx]; constructor; [done|]. eapply Forall_impl; [exact Hx|]. auto. Qed.

Section Stable.
Context {B : Type} (lt : B -> B -> bool) `{!WeakOrder lt}.

Lemma sorted_by l : StronglySorted (fun x y => lt y x = false) (py_sort lt l).
Proof. apply py_sort_sorted; [apply wo_trans|apply wo_irr|apply wo_tot]. Qed.

(** Elements with equal keys keep their order. *)
Lemma sort_insert_stable (P : B -> Prop) `{!forall x, Decision (P x)} x l :
  (forall y z, P y -> P z -> lt y z = false) -> filter P (sort_insert lt x l) = filter P (x :: l).
Proof.
  intros HP. induction l as [|y l IH]; [done|]. simpl sort_insert. destruct (lt y x) eqn:E; [|done].
  rewrite (filter_cons P y), IH, !(filter_cons P x), (filter_cons P y).
  destruct (decide (P x)) as [Hx|], (decide (P y)) as [Hy|]; try done. by rewrite (HP y x Hy Hx) in E.
Qed.

Lemma py_sort_stable (P : B -> Prop) `{!forall x, Decision (P x)} l :
  (forall y z, P y -> P z -> lt y z = false) -> filter P (py_sort lt l) = filter P l.
Proof.
  intros HP. induction l as [|x l IH]; [done|]. simpl py_sort. rewrite sort_insert_stable by done.
  by rewrite !filter_cons, IH.
Qed.
End Stable.

(** Sorting by priority needs every request to have one. *)
Lemma with_priority_ok q : Forall (fun r => is_Some (req_priority (sr_req r))) q ->
  exists l, with_priority q = Ok l /\ map snd l = q.
Proof.
  induction 1 as [|r q [p Hp] _ (l & E & Hl)]; [by exists []|]. exists ((p, r) :: l). simpl. unfold priority_of.
  rewrite Hp. cbn [res_bind]. rewrite E. cbn [res_bind]. by rewrite <- Hl.
Qed.

(** ** The tree below a node *)

(** [subtree n l]: [l] lists the nodes of the tree below [n]. *)
Section Trees.
Context {T : Type} {View : TreeView T} (t : T).

Inductive subtree : nat -> list nat -> Prop :=
  | subtree_node n l : forest (tv_children t n) l -> subtree n (n :: l)
with forest : list nat -> list nat -> Prop :=
  | forest_nil : forest [] []
  | forest_cons n ns l l' : subtree n l -> forest ns l' -> forest (n :: ns) (l ++ l').

Scheme subtree_mut := Minimality for subtree Sort Prop
  with forest_mut := Minimality for forest Sort Prop.

Lemma forest_app ns ns' l : forest (ns ++ ns') l <-> exists l1 l2, forest ns l1 /\ forest ns' l2 /\ l = l1 ++ l2.
Proof.
  revert l. induction ns as [|n ns IH]; intros l; simpl; split.
  - intros H. exists [], l. by repeat constructor.
  - intros (l1 & l2 & H1 & H2 & ->). by inversion H1; subst.
  - inversion 1 as [|? ? l1 l2 H1 H2]; subst. apply IH in H2 as (k1 & k2 & H2 & H3 & ->).
    exists (l1 ++ k1), k2. split_and!; [by constructor|done|by rewrite app_assoc].
  - intros (l1 & l2 & H1 & H2 & ->). inversion H1 as [|? ? k1 k2 K1 K2]; subst.
    rewrite <- app_assoc. constructor; [done|]. apply IH. eauto.
Qed.

Lemma forest_perm ns ns' l : forest ns l -> Permutation ns ns' -> exists l', forest ns' l' /\ Permutation l l'.
Proof.
  intros H HP. revert l H. induction HP as [|n ns ns' HP IH|n m ns|ns1 ns2 ns3 H1 IH1 H2 IH2]; intros l H.
  - eauto.
  - inversion H as [|? ? l1 l2 K1 K2]; subst. destruct (IH l2 K2) as (l' & K3 & K4).
    exists (l1 ++ l'). split; [by constructor|by rewrite K4].
  - inversion H as [|? ? l1 l2 K1 K2]; subst. inversion K2 as [|? ? l3 l4 K3 K4]; subst.
    exists (l3 ++ l1 ++ l4). split; [by repeat constructor|]. rewrite !app_assoc. apply Permutation_app_tail, Permutation_app_comm.
  - destruct (IH1 l H) as (l1 & K1 & K2). destruct (IH2 l1 K1) as (l2 & K3 & K4). exists l2. split; [done|by rewrite K2].
Qed.

(** *** The order of the requests *)

Lemma dfs_visits w m :
  (forall n l, subtree n l -> forall fuel q, (length l <= fuel)%nat ->
     exists out, get_dfs_priority t fuel n w m q = Ok (q ++ out)
       /\ Permutation out (concat (map (fun x => default [] (m !! Some x)) l))).
Proof.
  intros n l H fuel. revert n l H. induction fuel as [|fuel IH]; intros n l H q Hl.
  { destruct H. simpl in Hl. lia. }
  destruct H as [n l Hf]. cbn [get_dfs_priority].
  destruct (forest_perm _ _ _ Hf (symmetry (py_sort_perm (fun x y => - weight w x <? - weight w y) (tv_children t n)))) as (l' & Hf' & HP).
  set (ns := py_sort _ _) in *. clearbody ns. assert (length l' <= fuel)%nat as Hl' by (rewrite <- HP; simpl in Hl; lia).
  set (go := fix children (l : list nat) (q : list SchedReq) := _).
  assert (forall ns l q, forest ns l -> (length l <= fuel)%nat ->
    exists out, go ns q = Ok (q ++ out) /\ Permutation out (concat (map (fun x => default [] (m !! Some x)) l))) as Hgo.
  { clear -IH. intros ns l. revert l. induction ns as [|n ns IHn]; intros l q Hf Hl; inversion Hf as [|? ? l1 l2 K1 K2]; subst.
    - exists []. simpl. by rewrite app_nil_r.
    - rewrite length_app in Hl. destruct (IH n l1 K1 q ltac:(lia)) as (o1 & E1 & P1).
      destruct (IHn l2 (q ++ o1) K2 ltac:(lia)) as (o2 & E2 & P2). exists (o1 ++ o2). cbn [go]. rewrite E1. cbn [res_bind].
      rewrite E2, app_assoc. split; [done|]. by rewrite map_app, concat_app, P1, P2. }
  destruct (Hgo ns l' q Hf' Hl') as (out & E & HP'). rewrite E. cbn [res_bind]. eexists. rewrite <- app_assoc. split; [done|].
  simpl. rewrite HP', HP. apply Permutation_app_comm.
Qed.

(** *** The weights *)

Lemma subtree_det n l l' : subtree n l -> subtree n l' -> l = l'.
Proof.
  intros H. revert n l H l'.
  apply (subtree_mut (fun n l => forall l', subtree n l' -> l = l') (fun ns l => forall l', forest ns l' -> l = l')).
  - intros n l _ IH l' H. inversion H; subst. f_equal. by apply IH.
  - intros l' H. by inversion H.
  - intros n ns l l2 _ IH1 _ IH2 l' H. inversion H; subst. f_equal; [by apply IH1|by apply IH2].
Qed.

(** The tree below a node of the tree is part of it. *)
Lemma subtree_incl n l : subtree n l -> forall m lm, m ∈ l -> subtree m lm -> lm ⊆ l.
Proof.
  revert n l. apply (subtree_mut (fun n l => forall m lm, m ∈ l -> subtree m lm -> lm ⊆ l)
                (fun ns l => forall m lm, m ∈ l -> subtree m lm -> lm ⊆ l)).
  - intros n l Hf IH m lm Hm Hs. apply elem_of_cons in Hm as [->|Hm].
    + by rewrite (subtree_det _ _ _ Hs (subtree_node _ _ Hf)).
    + pose proof (IH m lm Hm Hs). set_solver.
  - intros m lm Hm. by apply not_elem_of_nil in Hm.
  - intros n ns l l' _ IH1 _ IH2 m lm Hm Hs. apply elem_of_app in Hm as [Hm|Hm];
      [pose proof (IH1 m lm Hm Hs)|pose proof (IH2 m lm Hm Hs)]; set_solver.
Qed.

Lemma subtree_head n l : subtree n l -> n ∈ l.
Proof. destruct 1. set_solver. Qed.

Lemma weight_insert w n z m : weight (<[Some n := z]> w) m = if decide (n = m) then z else weight w m.
Proof.
  unfold weight. destruct (decide (n = m)) as [->|H]; [by rewrite lookup_insert_eq|]. by rewrite lookup_insert_ne by congruence.
Qed.

Lemma sum_weights_ext w w' l : (forall m, m ∈ l -> weight w' m = weight w m) ->
  zsum (map (weight w') l) = zsum (map (weight w) l).
Proof. intros H. f_equal. apply map_ext_in. intros m Hm. by apply H, list_elem_of_In. Qed.

(** What a call of [_calc_weight] on the nodes [l] does. *)
Definition weighed (l : list nat) (w w' : gmap (option nat) Z) : Prop :=
  (forall m, m ∉ l -> weight w' m = weight w m)
  /\ (forall m lm, m ∈ l -> subtree m lm -> weight w' m = zsum (map (weight w) lm)).

Lemma forest_incl ns l : forest ns l -> forall m lm, m ∈ l -> subtree m lm -> lm ⊆ l.
Proof.
  induction 1 as [|n ns l l' Hs Hf IH]; intros m lm Hm Hsm; [by apply not_elem_of_nil in Hm|].
  apply elem_of_app in Hm as [Hm|Hm]; [pose proof (subtree_incl _ _ Hs m lm Hm Hsm)|pose proof (IH m lm Hm Hsm)]; set_solver.
Qed.

Lemma weighed_nodes n ns l l' w w1 w2 z : subtree n l -> forest ns l' -> NoDup (l ++ l') -> (forall m, m ∈ l ++ l' -> m <> z) ->
  (forall m, m <> z -> m ∉ l -> weight w1 m = weight w m) ->
  (forall m lm, m ∈ l -> subtree m lm -> weight w1 m = zsum (map (weight w) lm)) ->
  (forall m, m <> z -> m ∉ l' -> weight w2 m = weight w1 m) ->
  (forall m lm, m ∈ l' -> subtree m lm -> weight w2 m = zsum (map (weight w1) lm)) ->
  forall m lm, m ∈ l ++ l' -> subtree m lm -> weight w2 m = zsum (map (weight w) lm).
Proof.
  intros Hs Hf Hnd Hz H1 H2 H3 H4 m lm Hm Hsm. apply NoDup_app in Hnd as (_ & Hdis & _).
  apply elem_of_app in Hm as [Hm|Hm].
  - rewrite H3; [by apply H2|apply Hz; set_solver|by apply Hdis].
  - rewrite (H4 m lm Hm Hsm). apply sum_weights_ext. intros x Hx.
    assert (x ∈ l') by by apply (forest_incl ns l' Hf m lm Hm Hsm).
    apply H1; [apply Hz; set_solver|]. intros Hx'. by apply (Hdis x Hx').
Qed.

Lemma calc_weight_ok fuel : forall n l w, subtree n l -> NoDup l -> (length l <= fuel)%nat ->
  exists w', calc_weight t fuel n w = Ok w' /\ weighed l w w'.
Proof.
  induction fuel as [|fuel IH]; intros n l w H Hnd Hl; [destruct H; simpl in Hl; lia|].
  destruct H as [n l Hf]. cbn [calc_weight]. set (go := fix children (l : list nat) (w : gmap (option nat) Z) := _).
  assert (forall ns l w, forest ns l -> NoDup (n :: l) -> (length l <= fuel)%nat ->
    exists w', go ns w = Ok w' /\ (forall m, m <> n -> m ∉ l -> weight w' m = weight w m)
      /\ weight w' n = weight w n + zsum (map (weight w) l)
      /\ (forall m lm, m ∈ l -> subtree m lm -> weight w' m = zsum (map (weight w) lm))) as Hgo.
  { clear -IH. intros ns l w Hf. revert w. induction Hf as [|c ns l l' Hs Hf IHf]; intros w Hnd Hl.
    - exists w. rewrite Z.add_0_r. split_and!; try done. intros m lm Hm. by apply not_elem_of_nil in Hm.
    - rewrite length_app in Hl. apply NoDup_cons in Hnd as [Hn Hnd]. pose proof Hnd as Hnd2. apply NoDup_app in Hnd2 as (Hn1 & Hdis & Hn2).
      destruct (IH c l w Hs Hn1 ltac:(lia)) as (w1 & E1 & Hw1).
      set (w1' := <[Some n := weight w1 n + weight w1 c]> w1).
      destruct (IHf w1' ltac:(apply NoDup_cons; split; [set_solver|done]) ltac:(lia)) as (w2 & E2 & K1 & K2 & K3).
      pose proof (subtree_head _ _ Hs) as Hc. assert (n <> c) as Hnc by set_solver.
      assert (forall m, m <> n -> weight w1' m = weight w1 m) as Hw1' by (intros m Hm; unfold w1'; rewrite weight_insert, decide_False; done).
      exists w2. cbn [go]. rewrite E1. cbn [res_bind]. fold w1'. rewrite E2. split; [done|].
      assert (forall m, m ∈ l' -> weight w1' m = weight w m) as Hsame.
      { intros m Hm. rewrite Hw1' by set_solver. apply Hw1. intros Hm'. by apply (Hdis m). }
      split_and!.
      + intros m Hmn Hm. rewrite K1 by set_solver. rewrite Hw1' by done. apply Hw1. set_solver.
      + rewrite K2, (sum_weights_ext w) by done. unfold w1' at 1. rewrite weight_insert, decide_True by done.
        destruct Hw1 as [Hw1 Hw2]. rewrite (Hw1 n) by set_solver. rewrite (Hw2 c l Hc Hs), map_app, zsum_app. lia.
      + destruct Hw1 as [Hw1 Hw2]. apply (weighed_nodes c ns l l' w w1' w2 n Hs Hf Hnd); [set_solver| | |done|done].
        * intros m Hmn Hm. rewrite Hw1' by done. by apply Hw1.
        * intros m lm Hm Hsm. rewrite Hw1' by set_solver. by apply Hw2. }
  pose proof Hnd as Hnd2. apply NoDup_cons in Hnd2 as [Hn _]. destruct (Hgo _ l w Hf Hnd ltac:(simpl in Hl; lia)) as (w' & E & K1 & K2 & K3).
  exists w'. split; [done|]. split; [set_solver|]. intros m lm Hm Hsm. apply elem_of_cons in Hm as [->|Hm]; [|by apply K3].
  rewrite (subtree_det _ _ _ Hsm (subtree_node _ _ Hf)), K2. unfold zsum. simpl. lia.
Qed.
End Trees.

Lemma last_node_to_reqs_spec q x :
  last_node_to_reqs q !! x = (if decide (filter (fun r => last_node (sr_req r) = x) q = []) then None
                              else Some (filter (fun r => last_node (sr_req r) = x) q)).
Proof.
  unfold last_node_to_reqs. induction q as [|r q IH] using rev_ind; [by rewrite decide_True by done|].
  rewrite foldl_snoc, filter_app. set (m := foldl _ ∅ q) in *.
  destruct (decide (last_node (sr_req r) = x)) as [<-|Hne].
  - assert (filter (fun r0 => last_node (sr_req r0) = last_node (sr_req r)) [r] = [r]) as -> by (by rewrite filter_cons, decide_True, filter_nil).
    rewrite lookup_insert_eq, IH. set (l := filter _ q). destruct (decide (l = [])) as [->|Hl]; [done|].
    rewrite decide_False; [done|]. intros H. by apply app_eq_nil in H as [? _].
  - assert (filter (fun r0 => last_node (sr_req r0) = x) [r] = []) as -> by (by rewrite filter_cons, decide_False, filter_nil).
    by rewrite lookup_insert_ne, IH, app_nil_r.
Qed.

Lemma reqs_at_node q n : default [] (last_node_to_reqs q !! Some n) = filter (fun r => last_node (sr_req r) = Some n) q.
Proof. rewrite last_node_to_reqs_spec. case_decide as E; [by rewrite E|done]. Qed.

(** Grouping by the last node loses nothing. *)
Lemma grouped q l : NoDup l -> Forall (fun r => exists n, last_node (sr_req r) = Some n /\ n ∈ l) q ->
  Permutation (concat (map (fun n => filter (fun r => last_node (sr_req r) = Some n) q) l)) q.
Proof.
  intros Hnd. induction 1 as [|r q (n & Hn & Hin) Hq IH].
  { induction l as [|n l IHl]; [done|]. simpl. apply IHl. by apply NoDup_cons in Hnd as [_ ?]. }
  transitivity (r :: concat (map (fun n => filter (fun r => last_node (sr_req r) = Some n) q) l)); [|by rewrite IH].
  clear IH Hq. induction l as [|m l IHl]; [by apply not_elem_of_nil in Hin|].
  apply NoDup_cons in Hnd as [Hm Hnd]. simpl. rewrite filter_cons. destruct (decide (m = n)) as [->|Hne].
  - rewrite decide_True by done. simpl. apply perm_skip, Permutation_app_head. rewrite (map_ext_in _ (fun x => filter (fun r0 => last_node (sr_req r0) = Some x) q)); [done|].
    intros x Hx. apply list_elem_of_In in Hx. rewrite filter_cons, decide_False; [done|]. rewrite Hn. intros [= ->]. done.
  - rewrite decide_False by congruence. apply elem_of_cons in Hin as [?|Hin]; [congruence|].
    rewrite (IHl Hnd Hin). rewrite <- Permutation_middle. done.
Qed.

Section DfsSort.
Context {T : Type} {View : TreeView T} (t : T).

Lemma sort_by_dfs_weight_ok q l : subtree t (tv_root t) l -> NoDup l -> (length l <= tv_size t)%nat ->
  Forall (fun r => exists n, last_node (sr_req r) = Some n /\ n ∈ l) q ->
  exists q', sort_by_dfs_weight t q = Ok q' /\ Permutation q' q.
Proof.
  intros Hs Hnd Hl Hq. unfold sort_by_dfs_weight.
  destruct (calc_weight_ok t (tv_size t) _ l (zlen <$> last_node_to_reqs q) Hs Hnd Hl) as (w & -> & _). cbn [res_bind].
  destruct (dfs_visits t w (last_node_to_reqs q) _ l Hs (tv_size t) [] Hl) as (out & -> & HP). exists out. split; [done|].
  rewrite HP, <- (grouped q l Hnd Hq) at 1. f_equiv. rewrite (map_ext _ _ (reqs_at_node q)). done.
Qed.
End DfsSort.
