(* ===== verification/PolicyQueue.v ===== *)
(** Matching and ordering the waiting queue: [calc_priority] keeps the queue, the tree and the
    memory it accounts for; the depth-first policy reaches every live node of the radix tree
    once from the root. *)

From S2P Require Export PolicyProps.
From S2P Require Import RadixTree RadixMatch RadixLock RadixReq RadixProps RadixBase RadixInsert KVMemory.

(** * The radix tree as the depth-first policy sees it *)

Section RadixView.
(** [dict.values()], in insertion order; the tree keeps its children in a finite map. *)
Context (dict_values : gmap pyval nat -> list nat).
Context (Hdict : forall m, Permutation (dict_values m) (map snd (map_to_list m))).
Context (ps : Z) (Hps : 1 <= ps).

#[export] Instance radix_view : TreeView RadixCache := {
  tv_root := root_node;
  tv_children c n := match store c !! n with Some nd => dict_values (children nd) | None => [] end;
  tv_size c := base.size (store c)
}.

Context (c : RadixCache) (G : ghost) (Ht : tree_ok ps c G).

Lemma elem_of_children n nd ch : store c !! n = Some nd ->
  ch ∈ tv_children c n <-> exists ck, children nd !! ck = Some ch.
Proof.
  intros Hn. simpl. rewrite Hn, Hdict, list_elem_of_In, in_map_iff. split.
  - intros ([ck x] & <- & Hx). exists ck. by apply elem_of_map_to_list, list_elem_of_In.
  - intros [ck Hck]. exists (ck, ch). split; [done|]. by apply list_elem_of_In, elem_of_map_to_list.
Qed.

Lemma children_unique n : is_Some (G !! n) -> NoDup (tv_children c n).
Proof.
  intros Hn. destruct (live_store _ _ _ n Ht Hn) as [nd Hnd]. simpl. rewrite Hnd, Hdict.
  apply (NoDup_fmap_2_strong snd); [|apply NoDup_map_to_list].
  intros [k x] [k' x'] Hk Hk' E. simpl in E. subst x'. apply elem_of_map_to_list in Hk, Hk'. f_equal.
  destruct (ok_child _ _ _ Ht n nd k x Hn Hnd Hk) as (_ & _ & y & Hy & _ & Hc1).
  destruct (ok_child _ _ _ Ht n nd k' x Hn Hnd Hk') as (_ & _ & y' & Hy' & _ & Hc2). congruence.
Qed.

Lemma child_spec n ch : is_Some (G !! n) -> ch ∈ tv_children c n <->
  ch <> root_node c /\ is_Some (G !! ch) /\ exists chn, store c !! ch = Some chn /\ parent chn = Some n.
Proof.
  intros Hn. destruct (live_store _ _ _ n Ht Hn) as [nd Hnd]. rewrite (elem_of_children n nd ch Hnd). split.
  - intros [ck Hck]. destruct (ok_child _ _ _ Ht n nd ck ch Hn Hnd Hck) as (Hr & Hl & chn & Hc & Hp & _). eauto 6.
  - intros (Hr & [[q w] Hl] & chn & Hc & Hp).
    destruct (ok_node _ _ _ Ht ch q w Hl Hr) as (nd' & p & pn & qp & wp & v & ck & E1 & E2 & E3 & _ & _ & _ & _ & _ & _ & _ & _ & E4 & _).
    exists ck. congruence.
Qed.

(** The nodes at or below [n]. *)
Definition under (n : nat) : gset nat := filter (fun m => anc G n m = true) (dom G).

Lemma elem_of_under n m q w : G !! n = Some (q, w) ->
  m ∈ under n <-> exists qm wm, G !! m = Some (qm, wm) /\ q = take (length q) qm.
Proof.
  intros Hn. unfold under. rewrite elem_of_filter, elem_of_dom. split.
  - intros [Ha [[qm wm] Hm]]. apply (anc_spec _ _ _ _ _ _ _ Hn Hm) in Ha. eauto.
  - intros (qm & wm & Hm & Ha). split; [by apply (anc_spec _ _ _ _ _ _ _ Hn Hm)|eauto].
Qed.

(** A child is strictly below. *)
Lemma child_path n q w ch : G !! n = Some (q, w) -> ch ∈ tv_children c n ->
  exists qc wc, G !! ch = Some (qc, wc) /\ (length q < length qc)%nat /\ q = take (length q) qc.
Proof.
  intros Hn Hch. apply child_spec in Hch as (Hr & [[qc wc] Hl] & chn & Hc & Hp); [|eauto].
  destruct (node_parent ps Hps _ _ _ _ _ Ht Hl Hr) as (p & qp & wp & nd & E1 & E2 & E3 & _ & Hlt & Hq & _).
  assert (p = n) as -> by congruence. assert (qp = q) as -> by congruence. eauto 6.
Qed.

Lemma under_child n ch : is_Some (G !! n) -> ch ∈ tv_children c n -> under ch ⊂ under n.
Proof.
  intros [[q w] Hn] Hch. destruct (child_path n q w ch Hn Hch) as (qc & wc & Hc & Hlt & Hq). split.
  - intros m. rewrite (elem_of_under _ _ _ _ Hc), (elem_of_under _ _ _ _ Hn). intros (qm & wm & Hm & Hqm).
    exists qm, wm. split; [done|]. rewrite Hq, Hqm, take_take at 1. f_equal. lia.
  - intros Hsub. assert (n ∈ under ch) as Hin.
    { apply Hsub, (elem_of_under _ _ _ _ Hn). exists q, w. split; [done|]. by rewrite take_ge by lia. }
    apply (elem_of_under _ _ _ _ Hc) in Hin as (q' & w' & E & Hq'). assert (q' = q) as -> by congruence.
    apply (f_equal length) in Hq'. rewrite length_take in Hq'. lia.
Qed.

(** The trees below two children do not meet. *)
Lemma under_disjoint n ch ch' m : is_Some (G !! n) -> ch ∈ tv_children c n -> ch' ∈ tv_children c n ->
  m ∈ under ch -> m ∈ under ch' -> ch = ch'.
Proof.
  intros [[q w] Hn] Hch Hch'.
  assert (forall x y qx wx qy wy, x ∈ tv_children c n -> y ∈ tv_children c n -> G !! x = Some (qx, wx) -> G !! y = Some (qy, wy) ->
    (length q < length qx <= length qy)%nat -> m ∈ under x -> m ∈ under y -> x = y) as Haux.
  { intros x y qx wx qy wy Hx Hy Gx Gy Hl Ux Uy. apply child_spec in Hy as (Hr & _ & yn & Hyn & Hp); [|eauto].
    unfold under in Ux, Uy. rewrite elem_of_filter, elem_of_dom in Ux, Uy. destruct Ux as [Ux Um], Uy as [Uy _].
    by apply (anc_between ps c G m y qy wy n q w yn x qx wx). }
  destruct (child_path n q w ch Hn Hch) as (qc & wc & Hc & Hlt & _).
  destruct (child_path n q w ch' Hn Hch') as (qc' & wc' & Hc' & Hlt' & _). intros U U'.
  destruct (le_lt_dec (length qc) (length qc')).
  - by apply (Haux ch ch' qc wc qc' wc'); try lia.
  - symmetry. by apply (Haux ch' ch qc' wc' qc wc); try lia.
Qed.

(** Everything below a node is the node or below one of its children. *)
Lemma under_step n m : is_Some (G !! n) -> m ∈ under n -> m <> n -> exists ch, ch ∈ tv_children c n /\ m ∈ under ch.
Proof.
  intros [[q w] Hn]. remember (length (default ([], []) (G !! m)).1) as k eqn:Hk. revert m Hk.
  induction (lt_wf k) as [k _ IH]. intros m Hk Hm Hne. pose proof Hm as Hm2. unfold under in Hm2. rewrite elem_of_filter in Hm2.
  apply (elem_of_under _ _ _ _ Hn) in Hm as (qm & wm & Hm & Hq). rewrite Hm in Hk. simpl in Hk.
  assert (m <> root_node c) as Hr.
  { intros ->. rewrite (ok_root _ _ _ Ht) in Hm. injection Hm as <- <-. rewrite take_nil in Hq. subst q.
    destruct (decide (n = root_node c)); [congruence|]. destruct (node_parent ps Hps _ _ _ _ _ Ht Hn n0) as (? & ? & ? & ? & _ & _ & _ & _ & Hlt & _).
    simpl in Hlt. lia. }
  destruct (node_parent ps Hps _ _ _ _ _ Ht Hm Hr) as (p & qp & wp & nd & E1 & E2 & E3 & _ & Hlt & Hqp & _).
  destruct (decide (p = n)) as [->|Hpn].
  { exists m. split; [apply child_spec; eauto 8|]. apply (elem_of_under _ _ _ _ Hm). exists qm, wm. by rewrite take_ge by lia. }
  assert (length q <= length qp)%nat as Hle.
  { destruct (le_lt_dec (length q) (length qp)); [done|]. exfalso. apply Hne. symmetry.
    apply (anc_between ps c G m m qm wm p qp wp nd n q w Hps Ht (mk_is_Some _ _ Hm) (anc_self _ _ (mk_is_Some _ _ Hm)) (proj1 Hm2)); try done.
    split; [lia|]. apply (f_equal length) in Hq. rewrite length_take in Hq. lia. }
  destruct (IH (length qp) ltac:(lia) p) as (ch & Hch & Hu); [by rewrite E3| |done|].
  - apply (elem_of_under _ _ _ _ Hn). exists qp, wp. split; [done|]. rewrite Hqp, take_take, Hq at 1. f_equal. lia.
  - exists ch. split; [done|]. destruct (child_path n q w ch Hn Hch) as (qc & wc & Hc & _).
    destruct (proj1 (elem_of_under _ _ _ _ Hc) Hu) as (q' & w' & E & Hq'). assert (q' = qp) as -> by congruence.
    apply (elem_of_under _ _ _ _ Hc). exists qm, wm. split; [done|]. rewrite Hq', Hqp, take_take at 1. f_equal.
    apply (f_equal length) in Hq'. rewrite length_take in Hq'. lia.
Qed.

Lemma under_self n : is_Some (G !! n) -> n ∈ under n.
Proof. intros [[q w] Hn]. apply (elem_of_under _ _ _ _ Hn). exists q, w. by rewrite take_ge by lia. Qed.

Lemma children_forest n cs : is_Some (G !! n) -> NoDup cs -> (forall ch, ch ∈ cs -> ch ∈ tv_children c n) ->
  (forall ch, ch ∈ cs -> exists l, subtree c ch l /\ NoDup l /\ forall m, m ∈ l <-> m ∈ under ch) ->
  exists l, forest c cs l /\ NoDup l /\ forall m, m ∈ l <-> exists ch, ch ∈ cs /\ m ∈ under ch.
Proof.
  intros Hn Hnd Hch IH. induction cs as [|ch cs IHcs].
  { exists []. split_and!; [constructor|constructor|]. clear. set_solver. }
  apply NoDup_cons in Hnd as [Hni Hnd]. destruct (IH ch ltac:(by left)) as (l1 & H1 & N1 & E1).
  destruct (IHcs Hnd) as (l2 & H2 & N2 & E2); [intros x Hx; apply Hch; by right|intros x Hx; apply IH; by right|].
  exists (l1 ++ l2). split_and!; [by constructor| |].
  - apply NoDup_app. split_and!; [done| |done]. intros m Hm Hm2. apply E1 in Hm. apply E2 in Hm2 as (ch' & Hc' & Hu).
    apply Hni. rewrite (under_disjoint n ch ch' m Hn); [done|apply Hch; by left|apply Hch; by right|done|done].
  - intros m. rewrite elem_of_app, E1, E2. clear. setoid_rewrite elem_of_cons. naive_solver.
Qed.

Lemma live_subtree n : is_Some (G !! n) -> exists l, subtree c n l /\ NoDup l /\ forall m, m ∈ l <-> m ∈ under n.
Proof.
  remember (base.size (under n)) as k eqn:Hk. revert n Hk. induction (lt_wf k) as [k _ IH]. intros n Hk Hn.
  destruct (children_forest n (tv_children c n) Hn (children_unique n Hn) ltac:(done)) as (l & Hf & Hnd & Hl).
  { intros ch Hch. apply (IH (base.size (under ch))); [rewrite Hk; by apply subset_size, under_child|done|].
    destruct Hn as [[q w] Hn]. destruct (child_path n q w ch Hn Hch) as (qc & wc & Hc & _). eauto. }
  exists (n :: l). split_and!; [by constructor| |].
  - apply NoDup_cons. split; [|done]. rewrite Hl. intros (ch & Hch & Hu). destruct (under_child n ch Hn Hch) as [_ Hnot].
    apply Hnot. intros m Hm. destruct Hn as [[q w] Hn]. destruct (child_path n q w ch Hn Hch) as (qc & wc & Hc & Hlt & _).
    destruct (proj1 (elem_of_under _ _ _ _ Hc) Hu) as (q' & w' & E & Hq'). assert (q' = q) as -> by congruence.
    apply (f_equal length) in Hq'. rewrite length_take in Hq'. lia.
  - intros m. rewrite elem_of_cons, Hl. split.
    + intros [->|(ch & Hch & Hu)]; [by apply under_self|]. by apply (under_child n ch Hn Hch).
    + intros Hm. destruct (decide (m = n)) as [->|Hne]; [by left|right]. by apply under_step.
Qed.

(** The depth-first walk from the root reaches every live node exactly once. *)
Lemma root_subtree : exists l, subtree c (root_node c) l /\ NoDup l /\ (forall n, n ∈ l <-> is_Some (G !! n))
  /\ (length l <= tv_size c)%nat.
Proof.
  pose proof (ok_root _ _ _ Ht) as Hr. destruct (live_subtree (root_node c) ltac:(eauto)) as (l & Hs & Hnd & Hl).
  assert (forall n, n ∈ l <-> is_Some (G !! n)) as Hlive.
  { intros n. rewrite Hl, (elem_of_under _ _ _ _ Hr). split; [intros (q & w & Hn & _); eauto|].
    intros [[q w] Hn]. exists q, w. split; [done|]. by rewrite take_0. }
  exists l. split_and!; [done..|]. simpl. rewrite <- (size_dom (store c)), <- (size_list_to_set (C := gset nat) l Hnd).
  apply subseteq_size. intros n Hn. apply elem_of_list_to_set, Hlive in Hn. apply elem_of_dom. by eapply live_store; eauto.
Qed.
End RadixView.

(** * The waiting queue *)

(** The request with another matched prefix. *)
Definition rematched (r r' : SchedReq) : Prop :=
  r' = set_sr_lens (set_sr_req r (set_match (sr_req r) (prefix_indices (sr_req r')) (last_node (sr_req r'))))
         (extend_input_len r) (extend_logprob_start_len r) (host_hit_length r').

Lemma rematched_refl r : rematched r r.
Proof. unfold rematched. destruct r as [q]. by destruct q. Qed.

Lemma rematched_refl_list q : Forall2 rematched q q.
Proof. induction q; constructor; [apply rematched_refl|done]. Qed.

(** Object identifiers of a cache are handed out in order. *)
Definition ids_fresh (c : RadixCache) : Prop := forall i, is_Some (store c !! i) -> (i < counter c)%nat.

Lemma cache_init_fresh cfg monotonic : 1 <= cfg_page_size cfg -> ids_fresh (cache_init cfg monotonic).
Proof.
  intros Hps i. destruct (reset_ok cfg monotonic (MkCache ∅ 0 0 0 0 0 ∅ []) Hps) as (Hok & _); [intros j [x Hj]; simpl in Hj; by rewrite lookup_empty in Hj|].
  apply (ok_fresh _ _ _ (ok_tree _ _ _ Hok)).
Qed.

Definition tokens_ok (r : SchedReq) : Prop :=
  Forall (fun x => 0 <= x < 2 ^ 32) (origin_input_ids (sr_req r) ++ output_ids (sr_req r)).

Section Queue.
Context {T A : Type} {Pool : KVPool A} {Cache : BasePrefixCache T A Pool} {View : TreeView T}.
Context (cfg : PolicyConfig) (monotonic : nat -> Z) (sha256 : list Z -> list Z) (torch_empty : Z -> list Z).
Context (Hsha : forall l, Forall is_byte (sha256 l) /\ 8 <= zlen (sha256 l)).
Context (Hempty : forall n, 0 <= n -> zlen (torch_empty n) = n).

(** The tree after matching some requests. *)
Record tree_kept (t : T) (g : tc_ghost) (t' : T) (g' : tc_ghost) : Prop := {
  tk_ok : tc_ok t' g';
  tk_slots : Permutation (tc_slots t' g') (tc_slots t g);
  tk_page : tc_page_size t' = tc_page_size t;
  tk_evictable : tc_evictable_size t' = tc_evictable_size t;
  tk_lockable m : tc_lockable g m -> tc_lockable g' m;
}.

Lemma tree_kept_refl t g : tc_ok t g -> tree_kept t g t g.
Proof. by split. Qed.

Lemma tree_kept_trans t1 g1 t2 g2 t3 g3 : tree_kept t1 g1 t2 g2 -> tree_kept t2 g2 t3 g3 -> tree_kept t1 g1 t3 g3.
Proof. intros [] []. split; [done|by etrans|congruence|congruence|auto]. Qed.

Lemma match_for_req_ok t g r ids : tc_ok t g ->
  exists t' g' r', match_prefix_for_req t r ids = Ok (t', r') /\ tree_kept t g t' g' /\ rematched r r'
    /\ tc_lockable g' (last_node (sr_req r')).
Proof.
  intros Hok. unfold match_prefix_for_req. set (k := MkRadixKey _ _ _).
  destruct (tc_match_law t g k Hok) as (v & n & t' & g' & -> & H1 & H2 & H3 & H4 & H5 & H6 & _). cbn [res_bind].
  eexists t', g', _. split; [done|]. split_and!; [by split|done|done].
Qed.

Lemma simulated_insert sim G r : cache_ok 1 sim G -> tokens_ok r ->
  let ids := origin_input_ids (sr_req r) ++ output_ids (sr_req r) in
  forall ek, exists n sim' G', RadixCache.insert simulated_cfg monotonic sha256 sim (MkRadixKey ids ek false)
    (Some (torch_empty (zlen ids))) None false = Ok (n, sim') /\ cache_ok 1 sim' G'.
Proof.
  intros Hok Htk ids ek.
  destruct (insert_ok simulated_cfg monotonic sha256 ltac:(done) Hsha sim G (MkRadixKey ids ek false) (Some (torch_empty (zlen ids)))
              None false eq_refl Hok) as (n & sim' & G' & E & Hok' & _); eauto.
  unfold norm_key. pose proof (zlen_nonneg ids). rewrite page_aligned_len by done. rewrite Hempty by done. simpl. rewrite Z.div_1_r, Z.mul_1_r. done.
Qed.

Lemma match_one_ok t g sim G dep r : tc_ok t g -> cache_ok 1 sim G -> tokens_ok r ->
  exists t' g' sim' G' dep' r', match_one cfg monotonic sha256 torch_empty t sim dep r = Ok (t', sim', dep', r')
    /\ tree_kept t g t' g' /\ cache_ok 1 sim' G' /\ rematched r r' /\ tc_lockable g' (last_node (sr_req r')).
Proof.
  intros Hok Hsim Hr. unfold match_one.
  destruct (match_for_req_ok t g r (Some (origin_input_ids (sr_req r) ++ output_ids (sr_req r))) Hok) as (t1 & g1 & r1 & -> & Hk & Hre & Hlk).
  cbn [res_bind]. destruct (_ <=? _); [|by exists t1, g1, sim, G, dep, r1]. set (k := MkRadixKey _ _ _).
  destruct (match_prefix_ok simulated_cfg monotonic ltac:(done) sim G k eq_refl Hsim) as (v & n & s1 & G1 & p & -> & Hs1 & _).
  cbn [res_bind]. destruct (_ <=? _); [by eexists t1, g1, s1, G1, _, r1|].
  destruct (simulated_insert s1 G1 r Hs1 Hr (req_extra_key (sr_req r1))) as (x & s2 & G2 & E & Hs2). fold k in E. rewrite E. cbn [res_bind].
  by exists t1, g1, s2, G2, dep, r1.
Qed.

Lemma match_loop_queue_ok q : forall t g sim G dep, tc_ok t g -> cache_ok 1 sim G -> Forall tokens_ok q ->
  exists t' g' sim' G' dep' q', match_loop_queue cfg monotonic sha256 torch_empty t sim dep q = Ok (t', sim', dep', q')
    /\ tree_kept t g t' g' /\ cache_ok 1 sim' G' /\ Forall2 rematched q q'
    /\ Forall (fun r => tc_lockable g' (last_node (sr_req r))) q'.
Proof.
  induction q as [|r q IH]; intros t g sim G dep Hok Hsim Htk.
  { exists t, g, sim, G, dep, []. by split_and!. }
  apply Forall_cons in Htk as [Hr Htk]. cbn [match_loop_queue].
  destruct (match_one_ok t g sim G dep r Hok Hsim Hr) as (t1 & g1 & sim1 & G1 & dep1 & r1 & -> & Hk & Hsim1 & Hre & Hlk).
  cbn [res_bind]. destruct (IH t1 g1 sim1 G1 dep1 (tk_ok _ _ _ _ Hk) Hsim1 Htk) as (t' & g' & sim' & G' & dep' & q' & -> & Hk' & Hs' & Hq' & Hl').
  exists t', g', sim', G', dep', (r1 :: q'). split_and!; [done|by eapply tree_kept_trans|done|by constructor|].
  constructor; [by apply (tk_lockable _ _ _ _ Hk')|done].
Qed.

Lemma compute_prefix_matches_ok t g sim q : tc_ok t g -> ids_fresh sim -> Forall tokens_ok q ->
  exists t' g' sim' dep q', compute_prefix_matches cfg monotonic sha256 torch_empty t sim q = Ok (t', sim', dep, q')
    /\ tree_kept t g t' g' /\ ids_fresh sim' /\ Forall2 rematched q q'
    /\ Forall (fun r => tc_lockable g' (last_node (sr_req r))) q'.
Proof.
  intros Hok Hsim Htk. destruct (reset_ok simulated_cfg monotonic sim ltac:(done) Hsim) as (Hs & _).
  destruct (match_loop_queue_ok q t g _ _ ∅ Hok Hs Htk) as (t' & g' & sim' & G' & dep & q' & E & H1 & H2 & H3 & H4).
  exists t', g', sim', dep, q'. split_and!; try done. intros i. apply (ok_fresh _ _ _ (ok_tree _ _ _ H2)).
Qed.

(** The tree the depth-first policy walks holds every node a request may be matched to. *)
Definition view_ok : Prop := forall t g, tc_ok t g ->
  exists l, subtree t (tv_root t) l /\ NoDup l /\ (length l <= tv_size t)%nat
    /\ forall n, tc_lockable g n -> exists x, n = Some x /\ x ∈ l.

(** When the policy sorts by priority, every request has one. *)
Definition priorities_ok (q : list SchedReq) : Prop :=
  sp_enable_priority_scheduling cfg = true -> Forall (fun r => is_Some (req_priority (sr_req r))) q.

Lemma sort_pairs_perm (lt : Z * SchedReq -> Z * SchedReq -> bool) l q : map snd l = q -> Permutation (map snd (py_sort lt l)) q.
Proof. intros <-. by rewrite py_sort_perm. Qed.

Definition reordered (q q' : list SchedReq) : Prop := exists q1, Forall2 rematched q q1 /\ Permutation q' q1.

Lemma reordered_perm q q' : Permutation q' q -> reordered q q'.
Proof. intros HP. exists q. split; [apply rematched_refl_list|done]. Qed.

Lemma active_policy p q : determine_active_policy p q = p \/ determine_active_policy p q = FCFS.
Proof. unfold determine_active_policy. case_decide; [|by left]. destruct (128 <? zlen q); [by right|by left]. Qed.

Lemma calc_priority_ok t g sim q running : tc_ok t g -> ids_fresh sim -> Forall tokens_ok q -> priorities_ok q ->
  (sp_policy cfg = RANDOM -> Permutation (sp_random cfg q) q) -> (sp_policy cfg = DFS_WEIGHT -> view_ok) ->
  exists pc t' g' sim' q', calc_priority cfg monotonic sha256 torch_empty t sim q running = Ok (pc, t', sim', q')
    /\ tree_kept t g t' g' /\ ids_fresh sim' /\ reordered q q'.
Proof.
  intros Hok Hsim Htk Hpr Hrand Hview. unfold calc_priority. pose proof (tree_kept_refl t g Hok) as Hrefl.
  assert (forall (pc : bool) (q' : list SchedReq), Permutation q' q -> exists pc0 t' g' sim' q0, Ok (pc, t, sim, q') = Ok (pc0, t', sim', q0)
    /\ tree_kept t g t' g' /\ ids_fresh sim' /\ reordered q q0) as Hkeep.
  { intros pc q' HP. exists pc, t, g, sim, q'. split_and!; try done. by apply reordered_perm. }
  destruct (decide (sp_policy cfg = FCFS)) as [_|Hn].
  { destruct (sp_enable_priority_scheduling cfg) eqn:E; [|by apply Hkeep]. unfold sort_by_priority_and_fcfs.
    destruct (with_priority_ok q (Hpr E)) as (l & -> & Hl). cbn [res_bind]. by apply Hkeep, sort_pairs_perm. }
  pose proof (active_policy (sp_policy cfg) q) as Hact. destruct (determine_active_policy (sp_policy cfg) q).
  - destruct (compute_prefix_matches_ok t g sim q Hok Hsim Htk) as (t' & g' & sim' & dep & q' & -> & H1 & H2 & H3 & _).
    cbn [res_bind]. eexists _, t', g', sim', _. split_and!; try done. exists q'. split; [done|apply py_sort_perm].
  - destruct (compute_prefix_matches_ok t g sim q Hok Hsim Htk) as (t' & g' & sim' & dep & q' & -> & H1 & H2 & H3 & H4).
    cbn [res_bind]. assert (sp_policy cfg = DFS_WEIGHT) as Hdfs by (destruct Hact; congruence).
    destruct (Hview Hdfs t' g' (tk_ok _ _ _ _ H1)) as (l & Hs & Hnd & Hlen & Hin).
    destruct (sort_by_dfs_weight_ok t' q' l Hs Hnd Hlen) as (q2 & -> & HP); [apply (Forall_impl _ _ _ H4); eauto|].
    cbn [res_bind]. exists true, t', g', sim', q2. split_and!; try done. by exists q'.
  - by apply Hkeep.
  - unfold sort_by_longest_output. destruct (sp_enable_priority_scheduling cfg) eqn:E; [|by apply Hkeep, py_sort_perm].
    destruct (with_priority_ok q (Hpr E)) as (l & -> & Hl). cbn [res_bind]. by apply Hkeep, sort_pairs_perm.
  - apply Hkeep, Hrand. destruct Hact; congruence.
  - apply Hkeep. destruct running; [|done]. unfold sort_by_routing_key. case_decide; [done|apply py_sort_perm].
Qed.
End Queue.

(** ** The radix cache *)

Section RadixQueue.
Context (rcfg : CacheConfig) (clock : nat -> Z) (digest : list Z -> list Z).
Context (Hps : 1 <= cfg_page_size rcfg) (Hdis : cfg_disable rcfg = false).
Context (Hdigest : forall l, Forall is_byte (digest l) /\ 8 <= zlen (digest l)).
Context {A : Type} (Pool : KVPool A) {Heap : HeapQ}.
Context (dict_values : gmap pyval nat -> list nat).
Context (Hdict : forall m, Permutation (dict_values m) (map snd (map_to_list m))).

Lemma radix_view_ok :
  view_ok (Cache := radix_prefix_cache rcfg clock digest Hps Hdis Hdigest Pool) (View := radix_view dict_values).
Proof.
  intros c [G L] (Hok & _ & _). destruct (root_subtree dict_values Hdict _ Hps c G (ok_tree _ _ _ Hok)) as (l & Hs & Hnd & Hl & Hlen).
  exists l. split_and!; try done. intros n (x & -> & Hx). exists x. split; [done|]. by apply Hl.
Qed.
End RadixQueue.

(** C30: Whatever the policy, [calc_priority] over a radix cache raises nothing and returns
    the waiting queue reordered: every request once, changed at most in its matched
    prefix.  The tree stays well formed and holds the same KV indices, and nothing
    becomes or stops being evictable. *)
Theorem calc_priority_permutes {A : Type} (Pool : KVPool A) {Heap : HeapQ} rcfg clock digest Hps Hdis Hdigest dict_values
    cfg monotonic sha256 torch_empty c g sim q running
    (Hdict : forall m, Permutation (dict_values m) (map snd (map_to_list m)))
    (Hsha : forall l, Forall is_byte (sha256 l) /\ 8 <= zlen (sha256 l)) (Hempty : forall n, 0 <= n -> zlen (torch_empty n) = n)
    (Hok : radix_ok rcfg c g) (Hsim : ids_fresh sim) (Htk : Forall tokens_ok q) (Hpr : priorities_ok cfg q)
    (Hrand : sp_policy cfg = RANDOM -> Permutation (sp_random cfg q) q) :
  exists pc c' g' sim' q1 q',
    calc_priority (Cache := radix_prefix_cache rcfg clock digest Hps Hdis Hdigest Pool) (View := radix_view dict_values)
      cfg monotonic sha256 torch_empty c sim q running = Ok (pc, c', sim', q')
    /\ Forall2 rematched q q1 /\ Permutation q' q1
    /\ radix_ok rcfg c' g' /\ Permutation (tree_slots c' g'.1) (tree_slots c g.1) /\ evictable_size_ c' = evictable_size_ c.
Proof.
  destruct (calc_priority_ok (Cache := radix_prefix_cache rcfg clock digest Hps Hdis Hdigest Pool) (View := radix_view dict_values)
              cfg monotonic sha256 torch_empty Hsha Hempty c g sim q running Hok Hsim Htk Hpr Hrand)
    as (pc & c' & g' & sim' & q' & E & [] & _ & q1 & H1 & H2); [intros _; by apply radix_view_ok|].
  exists pc, c', g', sim', q1, q'. by split_and!.
Qed.

Definition waiting_sample (name : string) (toks : list Z) (node : option nat) : SchedReq :=
  MkSched (MkReq None toks [] toks None (Some 0) [] node 0 0 0 0 false false 0) name (zlen toks) 0 0 2 false false (-1) false false 0 None
    false false.

Definition sample_dict (m : gmap pyval nat) : list nat := map snd (map_to_list m).
Definition sample_policy (p : Policy) : PolicyConfig := MkPolicyConfig p false false 32 32 (fun q => q).

Lemma calc_priority_permutes_witness : exists pc c' sim' q',
  calc_priority (Cache := sample_prefix_cache) (View := radix_view sample_dict) (sample_policy DFS_WEIGHT) sample_clock sample_digest
    zero_fill sample_cache (cache_init simulated_cfg sample_clock)
    [waiting_sample "a" [31; 32; 33] None; waiting_sample "b" [11; 12; 17; 18; 19] None] None = Ok (pc, c', sim', q')
  /\ length q' = 2%nat.
Proof.
  destruct sample_ok as (G & Hok & HL & Hpg & _).
  destruct (calc_priority_permutes paged_pool sample_cfg sample_clock sample_digest ltac:(done) eq_refl sample_digest_ok sample_dict
    (sample_policy DFS_WEIGHT) sample_clock sample_digest zero_fill sample_cache (G, []) (cache_init simulated_cfg sample_clock)
    [waiting_sample "a" [31; 32; 33] None; waiting_sample "b" [11; 12; 17; 18; 19] None] None)
    as (pc & c' & g' & sim' & q1 & q' & H1 & H2 & H3 & _).
  - reflexivity.
  - exact sample_digest_ok.
  - exact zero_fill_len.
  - exact (conj Hok (conj HL Hpg)).
  - exact (cache_init_fresh simulated_cfg sample_clock ltac:(done)).
  - repeat constructor; lia.
  - discriminate.
  - discriminate.
  - exists pc, c', sim', q'. split; [exact H1|]. apply Permutation_length in H3. apply Forall2_length in H2. rewrite H3, <- H2. reflexivity.
Defined.


(** ** Weights *)

Definition waits_at (l : list nat) (r : SchedReq) : bool :=
  match last_node (sr_req r) with Some n => bool_decide (n ∈ l) | None => false end.

Lemma waits_at_cons m l q : m ∉ l ->
  zlen (filter (fun r => waits_at (m :: l) r = true) q)
  = zlen (filter (fun r => last_node (sr_req r) = Some m) q) + zlen (filter (fun r => waits_at l r = true) q).
Proof.
  intros Hm. induction q as [|r q IH]; [done|]. rewrite !filter_cons.
  destruct (last_node (sr_req r)) as [n|] eqn:E.
  - assert (waits_at (m :: l) r = bool_decide (n = m) || waits_at l r) as Hw.
    { unfold waits_at. rewrite E. rewrite <- bool_decide_or. apply bool_decide_ext. by rewrite elem_of_cons. }
    destruct (decide (n = m)) as [->|Hne].
    + assert (waits_at l r = false) as Hf by (unfold waits_at; rewrite E; by apply bool_decide_eq_false).
      rewrite Hw, Hf, bool_decide_true, decide_True, decide_True, decide_False by done. rewrite !zlen_cons. lia.
    + rewrite Hw, bool_decide_false by done. cbn [orb]. rewrite (decide_False (P := Some n = Some m)) by congruence.
      destruct (decide (waits_at l r = true)); rewrite ?zlen_cons; lia.
  - assert (waits_at (m :: l) r = false /\ waits_at l r = false) as [-> ->] by (unfold waits_at; by rewrite E).
    by rewrite !decide_False by done.
Qed.

Lemma count_requests q l : NoDup l ->
  zsum (map (weight (zlen <$> last_node_to_reqs q)) l) = zlen (filter (fun r => waits_at l r = true) q).
Proof.
  induction 1 as [|m l Hm _ IH].
  - induction q as [|r q IHq]; [done|]. rewrite filter_cons, decide_False; [done|]. unfold waits_at. by destruct (last_node _).
  - rewrite waits_at_cons, <- IH by done. simpl. unfold zsum at 1. simpl. f_equal. unfold weight.
    rewrite lookup_fmap, <- reqs_at_node. by destruct (last_node_to_reqs q !! Some m).
Qed.

(** C39: [_calc_weight] from the root of a well-formed radix tree ends (the recursion is no
    deeper than the tree has nodes), and the weight it leaves at every node is the number
    of waiting requests whose last matched node is that node or below it. *)
Theorem dfs_weight_counts rcfg dict_values c G q
    (Hdict : forall m, Permutation (dict_values m) (map snd (map_to_list m)))
    (Hps : 1 <= cfg_page_size rcfg) (Hok : cache_ok (cfg_page_size rcfg) c G) :
  exists w, calc_weight (View := radix_view dict_values) c (base.size (store c)) (root_node c) (zlen <$> last_node_to_reqs q) = Ok w
    /\ forall n, is_Some (G !! n) ->
         weight w n = zlen (filter (fun r => (match last_node (sr_req r) with Some m => anc G n m | None => false end) = true) q).
Proof.
  pose proof (ok_tree _ _ _ Hok) as Ht.
  destruct (root_subtree dict_values Hdict _ Hps c G Ht) as (l & Hs & Hnd & Hl & Hlen).
  destruct (calc_weight_ok (View := radix_view dict_values) c _ _ l (zlen <$> last_node_to_reqs q) Hs Hnd Hlen) as (w & E & _ & Hw).
  exists w. split; [exact E|]. intros n Hn.
  destruct (live_subtree dict_values Hdict _ Hps c G Ht n Hn) as (ln & Hsn & Hndn & Hln).
  rewrite (Hw n ln) by (done || by apply Hl). rewrite count_requests by done. f_equal. apply list_filter_iff.
  intros r. unfold waits_at. destruct (last_node (sr_req r)) as [m|]; [|done].
  rewrite bool_decide_eq_true, Hln. unfold under. rewrite elem_of_filter, elem_of_dom. unfold anc.
  destruct Hn as [[qn wn] ->]. destruct (G !! m) as [[qm wm]|]; naive_solver.
Qed.

Lemma dfs_weight_counts_witness : exists G w,
  calc_weight (View := radix_view sample_dict) sample_cache (base.size (store sample_cache)) (root_node sample_cache)
    (zlen <$> last_node_to_reqs [waiting_sample "a" [31] (Some (root_node sample_cache))]) = Ok w
  /\ weight w (root_node sample_cache)
     = zlen (filter (fun r => (match last_node (sr_req r) with Some m => anc G (root_node sample_cache) m | None => false end) = true)
               [waiting_sample "a" [31] (Some (root_node sample_cache))]).
Proof.
  destruct sample_ok as (G & Hok & _). exists G.
  destruct (dfs_weight_counts sample_cfg sample_dict sample_cache G [waiting_sample "a" [31] (Some (root_node sample_cache))])
    as (w & E & Hw); [reflexivity|done|exact Hok|]. exists w. split; [exact E|].
  apply Hw. exact (ex_intro _ _ (ok_root _ _ _ (ok_tree _ _ _ Hok))).
Defined.

(** The order of [_sort_by_longest_prefix]: the queue permuted, longer matched prefixes
    first, the temporarily deprioritized requests after all others, and requests that
    match equally long (or are deprioritized) in their original order. *)
Theorem longest_prefix_order deprioritized q :
  let q' := sort_by_longest_prefix deprioritized q in
  Permutation q' q
  /\ StronglySorted (fun x y => (rid y ∈ deprioritized)
       \/ ((rid x ∉ deprioritized) /\ prefix_len_of y <= prefix_len_of x)) q'
  /\ (forall k, filter (fun r => prefix_key deprioritized r = k) q' = filter (fun r => prefix_key deprioritized r = k) q).
Proof.
  cbv zeta. unfold sort_by_longest_prefix. set (lt := fun x y : SchedReq => _).
  assert (WeakOrder lt) as Hwo by apply (wo_key inf_ltb), wo_inf. split_and!.
  - apply py_sort_perm.
  - apply (sorted_weaken _ _ _ (sorted_by lt q)). intros x y. unfold lt, prefix_key. intros H.
    destruct (decide (rid y ∈ deprioritized)); [by left|]. right. destruct (decide (rid x ∈ deprioritized)); [done|].
    simpl in H. apply Z.ltb_ge in H. split; [done|lia].
  - intros k. apply py_sort_stable. intros y z Hy Hz. unfold lt. rewrite Hy, Hz. apply wo_inf.
Qed.
