(* ===== verification/AdmitQueue.v ===== *)
(** Requests entering the waiting queue: [Scheduler._add_request_to_queue] without
    disaggregation, [_set_or_validate_priority] and [_abort_on_queued_limit] of
    [managers/scheduler.py].

    An aborted request is reported by its [rid]; the time stamps are values of
    [time.perf_counter()]. *)

From S2P Require Export SchedulePolicy PolicyProps.

Record QueueConfig : Type := MkQueueConfig {
  qc_enable_priority_scheduling : bool;
  qc_schedule_low_priority_values_first : bool;
  qc_abort_on_priority_when_disabled : bool;
  qc_max_queued_requests : option Z
}.

Definition sys_maxsize : Z := 2 ^ 63 - 1.

Definition set_req_priority (r : SchedReq) (p : Z) : SchedReq :=
  let q := sr_req r in
  set_sr_req r
    (MkReq (req_pool_idx q) (origin_input_ids q) (output_ids q) (fill_ids q) (req_extra_key q) (Some p)
       (prefix_indices q) (last_node q) (cache_protected_len q) (is_chunked q) (kv_committed_len q)
       (kv_allocated_len q) (kv_committed_freed q) (kv_overallocated_freed q) (reasoning_tokens q)).

Definition set_entry_time (r : SchedReq) (now : Z) : SchedReq :=
  MkSched (sr_req r) (rid r) (extend_input_len r) (extend_logprob_start_len r) (host_hit_length r) (max_new_tokens r) (ignore_eos r)
    (return_logprob r) (logprob_start_len r) (has_input_embeds r) (has_embed_overrides r) now (routing_key r) (sr_finished r)
    (skip_radix_cache_insert r).

Section Admit.
Context (cfg : QueueConfig).

(** Whether the request is accepted. *)
Definition set_or_validate_priority (r : SchedReq) : bool * SchedReq :=
  match req_priority (sr_req r) with
  | None =>
      if qc_enable_priority_scheduling cfg
      then (true, set_req_priority r (if qc_schedule_low_priority_values_first cfg then sys_maxsize else - sys_maxsize - 1))
      else (true, r)
  | Some _ =>
      if negb (qc_enable_priority_scheduling cfg) && qc_abort_on_priority_when_disabled cfg then (false, r) else (true, r)
  end.

Definition direction : Z := if qc_schedule_low_priority_values_first cfg then 1 else -1.

(** [key_fn] *)
Definition abort_key (x : Z * SchedReq) : Z * Z := (direction * x.1, wait_queue_entry_time x.2).

(** [max(enumerate(l), key=key_fn)]: the first of the greatest, with its index. *)
Fixpoint max_by_key (best : nat * (Z * SchedReq)) (i : nat) (l : list (Z * SchedReq)) : nat * (Z * SchedReq) :=
  match l with
  | [] => best
  | x :: l => max_by_key (if pair_ltb (abort_key best.2) (abort_key x) then (i, x) else best) (S i) l
  end.

(** Returns whether the incoming request is aborted, the queue, and who was aborted. *)
Definition abort_on_queued_limit (queue : list SchedReq) (recv_req : SchedReq) : res (bool * list SchedReq * list string) :=
  if match qc_max_queued_requests cfg with None => true | Some m => zlen queue + 1 <=? m end then Ok (false, queue, [])
  else
    let* (req_to_abort, queue) :=
      if qc_enable_priority_scheduling cfg then
        let* l := with_priority queue in
        match l with
        | [] => Raise ValueError
        | x :: l =>
            let '(idx, (p, candidate_req)) := max_by_key (0%nat, x) 1 l in
            let* rp := priority_of recv_req in
            if direction * rp <? direction * p then Ok (candidate_req, delete idx queue) else Ok (recv_req, queue)
        end
      else Ok (recv_req, queue) in
    Ok (bool_decide (rid req_to_abort = rid recv_req), queue, [rid req_to_abort]).

(** Returns the queue and the aborted requests. *)
Definition add_request_to_queue (now : Z) (queue : list SchedReq) (req : SchedReq) : res (list SchedReq * list string) :=
  let '(accepted, req) := set_or_validate_priority req in
  if negb accepted then Ok (queue, [rid req])
  else
    let* (aborted, queue, out) := abort_on_queued_limit queue req in
    if aborted then Ok (queue, out) else Ok (queue ++ [set_entry_time req now], out).
End Admit.

(** ** Properties *)

Section Facts.
Context (cfg : QueueConfig).

Abbreviation key := (abort_key cfg).

(** The scan returns a member of the list that no member exceeds. *)
Lemma max_by_key_spec l : forall best pre, pre !! best.1 = Some best.2 ->
  Forall (fun y => pair_ltb (key best.2) (key y) = false) pre ->
  let r := max_by_key cfg best (length pre) l in
  (pre ++ l) !! r.1 = Some r.2 /\ Forall (fun y => pair_ltb (key r.2) (key y) = false) (pre ++ l).
Proof.
  induction l as [|x l IH]; intros best pre Hb Hpre; cbn [max_by_key]; [by rewrite app_nil_r|].
  replace (S (length pre)) with (length (pre ++ [x])) by (rewrite length_app; simpl; lia).
  replace (pre ++ x :: l) with ((pre ++ [x]) ++ l) by (by rewrite <- app_assoc). apply IH.
  - destruct (pair_ltb _ _); simpl; [by rewrite lookup_app_r, Nat.sub_diag by lia|by apply lookup_app_l_Some].
  - destruct (pair_ltb (key best.2) (key x)) eqn:E; simpl; apply Forall_app; (split; [|constructor; [|done]]); try done.
    + eapply Forall_impl; [exact Hpre|]. intros y Hy. simpl in Hy.
      destruct (pair_ltb (key x) (key y)) eqn:E'; [|done]. by rewrite (wo_trans (lt := pair_ltb) _ _ _ E E') in Hy.
    + apply (wo_irr (lt := pair_ltb)).
Qed.

Lemma with_priority_lookup q l i p r : with_priority q = Ok l -> l !! i = Some (p, r) ->
  q !! i = Some r /\ req_priority (sr_req r) = Some p.
Proof.
  revert l i. induction q as [|x q IH]; intros l i; simpl; [intros [= <-]; done|].
  unfold priority_of. destruct (req_priority (sr_req x)) as [px|] eqn:Ex; [|done]. cbn [res_bind].
  destruct (with_priority q) as [l'|] eqn:E; [|done]. cbn [res_bind]. intros [= <-] Hi.
  destruct i as [|i]; [by simplify_eq/=|]. by apply (IH l').
Qed.

(** [x] is displaced by a request of priority [rp]: it is the least preferred of the
    queue, the latest of equals, and strictly less preferred than the newcomer. *)
Definition displaced (queue : list SchedReq) (x : SchedReq) (rp : Z) : Prop :=
  exists p, req_priority (sr_req x) = Some p /\ direction cfg * rp < direction cfg * p
    /\ forall y py, y ∈ queue -> req_priority (sr_req y) = Some py -> pair_ltb (key (p, x)) (key (py, y)) = false.

Definition has_priority (r : SchedReq) : Prop := is_Some (req_priority (sr_req r)).

Lemma set_priority_given r : qc_enable_priority_scheduling cfg = true -> has_priority (set_or_validate_priority cfg r).2.
Proof. intros He. unfold set_or_validate_priority, has_priority. rewrite He. destruct (req_priority (sr_req r)) eqn:E; simpl; eauto. Qed.

Lemma set_priority_rid r : rid (set_or_validate_priority cfg r).2 = rid r.
Proof. unfold set_or_validate_priority. repeat case_match; done. Qed.

(** The limit: the newcomer is refused, or someone is displaced, or there was room. *)
Lemma abort_on_queued_limit_ok queue r m : qc_max_queued_requests cfg = Some m -> 1 <= m -> zlen queue <= m ->
  rid r ∉ map rid queue -> (qc_enable_priority_scheduling cfg = true -> Forall has_priority queue /\ has_priority r) ->
  (abort_on_queued_limit cfg queue r = Ok (false, queue, []) /\ zlen queue + 1 <= m)
  \/ abort_on_queued_limit cfg queue r = Ok (true, queue, [rid r])
  \/ exists i x rp, queue !! i = Some x /\ req_priority (sr_req r) = Some rp /\ displaced queue x rp
       /\ abort_on_queued_limit cfg queue r = Ok (false, delete i queue, [rid x]).
Proof.
  intros Hm H1 Hl Hr Hp. unfold abort_on_queued_limit. rewrite Hm.
  destruct (Z.leb_spec (zlen queue + 1) m) as [?|Hfull]; [by left|right].
  assert (bool_decide (rid r = rid r) = true) as Hself by (by apply bool_decide_eq_true).
  destruct (qc_enable_priority_scheduling cfg) eqn:E; [|cbn [res_bind]; rewrite Hself; by left].
  destruct (Hp eq_refl) as [Hq [rp Hrp]]. destruct (with_priority_ok queue Hq) as (l & El & Hsnd). rewrite El. cbn [res_bind].
  destruct l as [|x l]; [subst queue; simpl in Hfull; unfold zlen in Hfull; simpl in Hfull; lia|].
  destruct (max_by_key_spec l (0%nat, x) [x] eq_refl) as [Hi Hmax]; [by constructor; [apply (wo_irr (lt := pair_ltb))|]|].
  change (length [x]) with 1%nat in *. destruct (max_by_key cfg (0%nat, x) 1 l) as [idx [p cand]]. cbn [fst snd app] in Hi, Hmax.
  assert (priority_of r = Ok rp) as -> by (unfold priority_of; by rewrite Hrp). cbn [res_bind].
  destruct (Z.ltb_spec (direction cfg * rp) (direction cfg * p)) as [Hlt|]; cbn [res_bind]; [|rewrite Hself; by left]. right.
  destruct (with_priority_lookup _ _ _ _ _ El Hi) as [Hx Hpx]. exists idx, cand, rp. split_and!; try done.
  - exists p. split_and!; try done. intros y py Hy Hpy. apply list_elem_of_lookup in Hy as [j Hj].
    assert (exists pj, (x :: l) !! j = Some (pj, y)) as [pj Hpj].
    { rewrite <- Hsnd in Hj. rewrite list_lookup_fmap in Hj. destruct ((x :: l) !! j) as [[pj yj]|]; [|done]. simpl in Hj. injection Hj as ->. eauto. }
    destruct (with_priority_lookup _ _ _ _ _ El Hpj) as [_ Hpy']. assert (pj = py) as -> by congruence.
    rewrite Forall_lookup in Hmax. by apply (Hmax j).
  - rewrite bool_decide_false; [done|]. intros Heq. apply Hr. rewrite <- Heq. apply list_elem_of_In, in_map, list_elem_of_In.
    by eapply list_elem_of_lookup_2.
Qed.
End Facts.

(** C40: A request entering a queue with a limit [m] never makes it longer than [m], and
    nobody disappears silently.  Either the request is appended (with its default
    priority and entry time), or it is refused and reported and the queue is unchanged,
    or it takes the place of one reported request: the least preferred of the queue, the
    latest among equals, and strictly less preferred than the newcomer. *)
Theorem add_request_bounded cfg now queue req m (Hm : qc_max_queued_requests cfg = Some m) (H1 : 1 <= m) (Hl : zlen queue <= m)
    (Hrid : rid req ∉ map rid queue) (Hpr : qc_enable_priority_scheduling cfg = true -> Forall has_priority queue) :
  exists queue' out, add_request_to_queue cfg now queue req = Ok (queue', out) /\ zlen queue' <= m
    /\ (qc_enable_priority_scheduling cfg = true -> Forall has_priority queue')
    /\ let req' := set_entry_time (set_or_validate_priority cfg req).2 now in
       (queue' = queue ++ [req'] /\ out = [])
       \/ (queue' = queue /\ out = [rid req])
       \/ exists i x rp, queue !! i = Some x /\ req_priority (sr_req req') = Some rp /\ displaced cfg queue x rp
            /\ queue' = delete i queue ++ [req'] /\ out = [rid x].
Proof.
  unfold add_request_to_queue. pose proof (set_priority_given cfg req) as Hgiven. pose proof (set_priority_rid cfg req) as Hsame.
  destruct (set_or_validate_priority cfg req) as [acc r]. simpl in Hgiven, Hsame. cbn [snd]. destruct acc; cbn [negb].
  2: { exists queue, [rid r]. rewrite Hsame. split_and!; try done. right. by left. }
  rewrite <- Hsame in Hrid.
  destruct (abort_on_queued_limit_ok cfg queue r m Hm H1 Hl Hrid) as [(-> & Hroom)|[->|(i & x & rp & Hi & Hrp & Hd & ->)]]; [auto| | |];
    cbn [res_bind].
  - eexists _, []. split; [done|]. split_and!; [rewrite zlen_app; unfold zlen at 2; simpl; lia| |by left].
    intros He. apply Forall_app. split; [auto|]. constructor; [by apply Hgiven|done].
  - exists queue, [rid r]. split_and!; try done. right. left. by rewrite Hsame.
  - eexists _, _. split; [done|]. split_and!.
    + apply lookup_lt_Some in Hi as Hlt. unfold zlen in *. rewrite length_app. rewrite length_delete by eauto. simpl. lia.
    + intros He. apply Forall_app. split; [by apply Forall_delete, Hpr|]. constructor; [by apply Hgiven|done].
    + right. right. by exists i, x, rp.
Qed.

Definition queued_sample (name : string) (p : Z) (time : Z) : SchedReq :=
  MkSched (MkReq None [1] [] [1] None (Some p) [] None 0 0 0 0 false false 0) name 1 0 0 16 false false (-1) false false time None
    false false.

Lemma add_request_bounded_witness :
  exists queue' out, add_request_to_queue (MkQueueConfig true false true (Some 2)) 9 [queued_sample "a" 1 3; queued_sample "b" 1 4]
    (queued_sample "c" 5 0) = Ok (queue', out) /\ zlen queue' <= 2 /\ out = ["b"].
Proof.
  destruct (add_request_bounded (MkQueueConfig true false true (Some 2)) 9 [queued_sample "a" 1 3; queued_sample "b" 1 4]
    (queued_sample "c" 5 0) 2) as (q & out & E & Hl & _).
  - reflexivity.
  - lia.
  - vm_compute. discriminate.
  - simpl. rewrite !elem_of_cons, elem_of_nil. intros [H|[H|H]]; done.
  - intros _. repeat constructor; eexists; reflexivity.
  - exists q, out. split; [exact E|]. split; [exact Hl|]. vm_compute in E. injection E as _ <-. reflexivity.
Defined.
