(* ===== verification/PrefillSchedule.v ===== *)
(** Building a prefill batch: [Scheduler._get_new_batch_prefill_raw] of
    [managers/scheduler.py], [Req.init_next_round_input] and
    [ScheduleBatch.prepare_for_extend] of [managers/schedule_batch.py].

    Modelled without LoRA, hierarchical caches, disaggregation, dynamic chunk sizes,
    sessions and diffusion models, with an empty grammar queue; the tensors that only
    feed the model (embeddings, multimodal inputs, sampling parameters) are left out. *)

From S2P Require Export PrefillAdder SchedulePolicy AdmitQueue KVCommon.

(** ** The next round of a request *)

Section Round.
Context {T A : Type} {Pool : KVPool A} {Cache : BasePrefixCache T A Pool}.

Definition set_prefix (q : Req) (indices : list Z) (node : option nat) : Req :=
  MkReq (req_pool_idx q) (origin_input_ids q) (output_ids q) (fill_ids q) (req_extra_key q) (req_priority q)
    indices node (zlen indices) (is_chunked q) (kv_committed_len q)
    (kv_allocated_len q) (kv_committed_freed q) (kv_overallocated_freed q) (reasoning_tokens q).

(** How much of the input may be matched; [input_len] is [len(fill_ids)]. *)
Definition max_prefix_len (r : SchedReq) (input_len : Z) : Z :=
  let m := input_len - 1 in
  let m := if return_logprob r && (0 <=? logprob_start_len r) then Z.min m (logprob_start_len r) else m in
  Z.max m 0.

(** [tree_cache] is [None] for the chunked request, which keeps its prefix. *)
Definition init_next_round_input (tree_cache : option T) (r : SchedReq) : res (option T * SchedReq) :=
  let q := sr_req r in
  let r := set_sr_req r (set_fill_ids q (origin_input_ids q ++ output_ids q)) in
  let fill := fill_ids (sr_req r) in
  let token_ids := if has_embed_overrides r then [] else py_upto fill (max_prefix_len r (zlen fill)) in
  let* (tree_cache, r) :=
    match tree_cache with
    | None => Ok (None, r)
    | Some t =>
        let* (indices, node, t) := tc_match_prefix t (MkRadixKey token_ids (req_extra_key q) false) in
        Ok (Some t, set_sr_lens (set_sr_req r (set_prefix (sr_req r) indices node)) (extend_input_len r) (extend_logprob_start_len r) 0)
    end in
  Ok (tree_cache, set_extend_input_len r (zlen fill - zlen (prefix_indices (sr_req r)))).
End Round.

(** ** The scheduler *)

Record SchedulerConfig : Type := MkSchedulerConfig {
  sc_adder : AdderConfig;
  sc_policy : PolicyConfig;
  sc_queue : QueueConfig;
  sc_release : release_args;
  sc_retract_decode_steps : Z;
  sc_enable_priority_preemption : bool;
  sc_pp_max_micro_batch_size : Z;
  sc_max_prefill_tokens : Z;
  sc_chunked_prefill_size : option Z;
  sc_is_mixed_chunk : bool;
  sc_truncation_align_size : option Z
}.

(** [aborted_rids] are the abort messages sent to the tokenizer. *)
Record Scheduler : Type := MkScheduler {
  waiting_queue : list SchedReq;
  running_reqs : list SchedReq;
  batch_is_full : bool;
  chunked_req : option SchedReq;
  waiting_queue_radix_tree : RadixCache;
  aborted_rids : list string
}.

Section Schedule.
Context (cfg : SchedulerConfig).
Context {T A : Type} {Alloc : KVAllocator A} {Cache : BasePrefixCache T A kva_pool} {View : TreeView T}.
Context (monotonic : nat -> Z) (sha256 : list Z -> list Z) (torch_empty : Z -> list Z).
Context (oob : Z -> Z) (support_triton : bool) (order : Z -> list Z) (perf_counter : nat -> Z).

Definition get_num_allocatable_reqs (pool : ReqToTokenPool) (running_bs : Z) : Z :=
  Z.min (sc_pp_max_micro_batch_size cfg - running_bs) (pool_available_size pool).

(** [self.running_batch.reqs], which preemption shortens. *)
Definition running_of (s : PrefillAdder) : list SchedReq := default [] (running_batch s).

(** The loop over the waiting queue.  Returns the queue with the requests that were
    touched, [batch_is_full], and the rest of the state. *)
Fixpoint waiting_loop (queue : list SchedReq) (full : bool) (t : T) (a : A) (pool : ReqToTokenPool) (s : PrefillAdder)
    : res (list SchedReq * bool * T * A * ReqToTokenPool * PrefillAdder) :=
  match queue with
  | [] => Ok ([], full, t, a, pool, s)
  | req :: rest =>
      let full := full || (get_num_allocatable_reqs pool (zlen (running_of s)) <=? zlen (can_run_list s)) in
      let* (go, t, a, pool, s) :=
        if full then
          if sc_enable_priority_preemption cfg then
            preempt_to_schedule (sc_adder cfg) (sc_release cfg) (sc_retract_decode_steps cfg)
              (sp_schedule_low_priority_values_first (sc_policy cfg)) t a pool s req
          else Ok (false, t, a, pool, s)
        else Ok (true, t, a, pool, s) in
      if negb go then Ok (req :: rest, full, t, a, pool, s)
      else
        let* (ot, req) := init_next_round_input (Some t) req in
        let* (r, t, s, req) := add_one_req (sc_adder cfg) (sc_truncation_align_size cfg) (default t ot) a s req in
        match r with
        | CONTINUE =>
            let* (rest, full, t, a, pool, s) := waiting_loop rest full t a pool s in
            Ok (req :: rest, full, t, a, pool, s)
        | NO_TOKEN => Ok (req :: rest, true, t, a, pool, s)
        | OTHER => Ok (req :: rest, full, t, a, pool, s)
        end
  end.

(** [_add_request_to_queue] for every preempted request; [i] counts the clock readings. *)
Fixpoint requeue (i : nat) (queue : list SchedReq) (out : list string) (preempted : list SchedReq)
    : res (list SchedReq * list string) :=
  match preempted with
  | [] => Ok (queue, out)
  | r :: preempted =>
      let* (queue, o) := add_request_to_queue (sc_queue cfg) (perf_counter i) queue r in
      requeue (S i) queue (out ++ o) preempted
  end.

Definition bump_chunked (r : SchedReq) : SchedReq :=
  let q := sr_req r in
  set_sr_req r
    (MkReq (req_pool_idx q) (origin_input_ids q) (output_ids q) (fill_ids q) (req_extra_key q) (req_priority q)
       (prefix_indices q) (last_node q) (cache_protected_len q) (is_chunked q + 1) (kv_committed_len q)
       (kv_allocated_len q) (kv_committed_freed q) (kv_overallocated_freed q) (reasoning_tokens q)).

(** [self.chunked_req.is_chunked += 1] also shows in the batch, which shares the object. *)
Definition bump_in (c : SchedReq) (l : list SchedReq) : list SchedReq :=
  map (fun r => if decide (r = c) then bump_chunked r else r) l.

(** Everything before the batch object: the requests that will run, and the scheduler. *)
Definition select_prefill (st : Scheduler) (t : T) (a : A) (pool : ReqToTokenPool)
    : res (option (list SchedReq) * Scheduler * T * A * ReqToTokenPool) :=
  let '(MkScheduler queue running full chunked sim out) := st in
  let full := if sc_enable_priority_preemption cfg then false else full in
  let no_chunk := match chunked with None => true | Some _ => false end in
  if (full || (zlen queue =? 0)) && no_chunk then Ok (None, MkScheduler queue running full chunked sim out, t, a, pool)
  else
    let running_bs := zlen running in
    if (get_num_allocatable_reqs pool running_bs <=? 0) && no_chunk && negb (sc_enable_priority_preemption cfg) then
      Ok (None, MkScheduler queue running true chunked sim out, t, a, pool)
    else
      let* (_, t, sim, queue) := calc_priority (sc_policy cfg) monotonic sha256 torch_empty t sim queue (Some running) in
      let s := adder_init (sc_adder cfg) (Some running) (sc_max_prefill_tokens cfg) (sc_chunked_prefill_size cfg)
                 (if sc_is_mixed_chunk cfg then running_bs else 0) 0 in
      let* (chunked, s) :=
        match chunked with
        | Some r =>
            let* (_, r) := init_next_round_input None r in
            let* (chunked, s, _) := add_chunked_req (sc_adder cfg) t a s r in
            Ok (chunked, s)
        | None => Ok (None, s)
        end in
      let* (queue, full, t, a, pool, s) := waiting_loop queue full t a pool s in
      if zlen (can_run_list s) =? 0 then Ok (None, MkScheduler queue (running_of s) full chunked sim out, t, a, pool)
      else
        let queue := filter (fun x => x ∉ can_run_list s) queue in
        let* (queue, out) := requeue 0 queue out (preempt_list s) in
        let* chunked :=
          match new_chunked_req s with
          | Some r => match chunked with None => Ok (Some r) | Some _ => Raise AssertionError end
          | None => Ok chunked
          end in
        let can_run := match chunked with Some c => bump_in c (can_run_list s) | None => can_run_list s end in
        Ok (Some can_run, MkScheduler queue (running_of s) full (option_map bump_chunked chunked) sim out, t, a, pool).

(** ** [prepare_for_extend] *)

(** The tokens whose log-probabilities are returned for one request: the next input
    tokens, padded with 0. *)
Definition logprob_tokens (r : SchedReq) : list Z :=
  let q := sr_req r in
  let logprob_start := if logprob_start_len r =? -1 then zlen (origin_input_ids q) else logprob_start_len r in
  let global_start_idx := zlen (prefix_indices q) in
  let global_end_idx := zlen (fill_ids q) in
  let global_start_idx := if global_start_idx <? logprob_start then logprob_start else global_start_idx in
  let logprob_token_ids := py_slice (origin_input_ids q) (global_start_idx + 1) (global_end_idx + 1) in
  logprob_token_ids ++ repeat 0 (Z.to_nat (extend_input_len r - extend_logprob_start_len r - zlen logprob_token_ids)).

(** The request after its memory was allocated. *)
Definition set_allocated (r : SchedReq) (idx : Z) (seq_len : Z) : SchedReq :=
  let q := sr_req r in
  set_sr_req r
    (MkReq (Some idx) (origin_input_ids q) (output_ids q) (fill_ids q) (req_extra_key q) (req_priority q)
       (prefix_indices q) (last_node q) (cache_protected_len q) (is_chunked q) seq_len seq_len
       (kv_committed_freed q) (kv_overallocated_freed q) (reasoning_tokens q)).

Fixpoint allocated_reqs (reqs : list SchedReq) (idxs : list Z) : res (list SchedReq) :=
  match reqs, idxs with
  | [], _ => Ok []
  | r :: reqs, i :: idxs =>
      let seq_len := zlen (fill_ids (sr_req r)) in
      let* _ := py_assert (seq_len - zlen (prefix_indices (sr_req r)) =? extend_input_len r) in
      let* rs := allocated_reqs reqs idxs in
      Ok (set_allocated r i seq_len :: rs)
  | _ :: _, [] => Raise IndexError
  end.

(** The batch handed to [alloc_for_extend]. *)
Definition prefill_batch (reqs : list SchedReq) : ScheduleBatch :=
  let input_ids := map (fun r => py_from (fill_ids (sr_req r)) (zlen (prefix_indices (sr_req r)))) reqs in
  MkBatch (map sr_req reqs) (map (fun r => zlen (prefix_indices (sr_req r))) reqs) (map extend_input_len reqs)
    (map (fun r => zlen (fill_ids (sr_req r))) reqs) (zsum (map zlen input_ids)) [].

Record ExtendBatch : Type := MkExtend {
  eb_reqs : list SchedReq;
  eb_input_ids : list Z;
  eb_out_cache_loc : list Z;
  eb_req_pool_indices : list Z;
  eb_seq_lens : list Z;
  eb_seq_lens_sum : Z;
  eb_extend_input_logprob_token_ids : option (list Z);
  eb_extend_logprob_start_lens : list Z
}.

(** [batch_logprob] is [self.return_logprob]; [vocab_size] that of the model. *)
Definition prepare_for_extend (batch_logprob : bool) (vocab_size : Z) (t : T) (a : A) (pool : ReqToTokenPool) (reqs : list SchedReq)
    : res (ExtendBatch * T * A * ReqToTokenPool) :=
  let batch := prefill_batch reqs in
  let input_ids := concat (map (fun r => py_from (fill_ids (sr_req r)) (zlen (prefix_indices (sr_req r)))) reqs) in
  let* (out_cache_loc, idxs, t, a, pool, _) := alloc_for_extend oob support_triton (order (zlen reqs)) t a pool batch in
  let* reqs' := allocated_reqs reqs idxs in
  let logprob_ids :=
    if batch_logprob then Some (map (fun x => Z.min (Z.max x 0) (vocab_size - 1)) (concat (map logprob_tokens reqs'))) else None in
  Ok (MkExtend reqs' input_ids out_cache_loc idxs (b_seq_lens batch) (zsum (b_seq_lens batch)) logprob_ids
        (map extend_logprob_start_len reqs'), t, a, pool).

(** The whole pass, without the mixing of prefill and decode; [init_new] sets
    [return_logprob] when a request asks for it. *)
Definition get_new_batch_prefill (vocab_size : Z) (st : Scheduler) (t : T) (a : A) (pool : ReqToTokenPool)
    : res (option ExtendBatch * Scheduler * T * A * ReqToTokenPool) :=
  let* (can_run, st, t, a, pool) := select_prefill st t a pool in
  match can_run with
  | None => Ok (None, st, t, a, pool)
  | Some reqs =>
      let* (b, t, a, pool) := prepare_for_extend (existsb return_logprob reqs) vocab_size t a pool reqs in
      Ok (Some b, st, t, a, pool)
  end.
End Schedule.
