(* ===== verification/PrefillPass.v ===== *)
(** A pass of the scheduler over the waiting queue: what it selects gets its memory. *)

From S2P Require Export PrefillSchedule PrefillProps PolicyQueue.
From S2P Require Import KVMemory.

(** ** One round *)

Section Rounds.
Context {T A : Type} {Alloc : KVAllocator A} {Cache : BasePrefixCache T A kva_pool}.
Abbreviation tree_kept := (tree_kept (Cache := Cache)).

(** The input of a request. *)
Definition input_of (r : SchedReq) : list Z := origin_input_ids (sr_req r) ++ output_ids (sr_req r).

(** A request of the waiting queue; it holds no row of the table. *)
Record waiting_ok (max_context : Z) (r : SchedReq) : Prop := {
  wk_row : req_pool_idx (sr_req r) = None;
  wk_new : 0 <= max_new_tokens r;
  wk_len : zlen (input_of r) <= max_context;
  wk_tokens : tokens_ok r;
  wk_eos : ignore_eos r && tc_disable = false;
}.

Lemma waiting_ok_rematched m r r' : rematched r r' -> waiting_ok m r -> waiting_ok m r'.
Proof. unfold rematched. intros -> []. by split. Qed.

(** A request ready to extend: its matched prefix is whole pages and its input is the
    prefix followed by the new tokens. *)
Record run_ok (ps max_context : Z) (r : SchedReq) : Prop := {
  rn_row : req_pool_idx (sr_req r) = None;
  rn_extend : 0 <= extend_input_len r;
  rn_fill : zlen (fill_ids (sr_req r)) = prefix_len_of r + extend_input_len r;
  rn_len : zlen (fill_ids (sr_req r)) <= max_context;
  rn_pages : (ps | prefix_len_of r);
}.

Lemma max_prefix_len_bound r n : 0 <= n -> 0 <= max_prefix_len r n <= n.
Proof. intros. unfold max_prefix_len. destruct (_ && _); lia. Qed.

(** [init_next_round_input] with a tree: the matched prefix and what remains. *)
Lemma next_round_ok t g m r : tc_ok t g -> waiting_ok m r ->
  exists t' g' r', init_next_round_input (Some t) r = Ok (Some t', r') /\ tree_kept t g t' g'
    /\ run_ok (tc_page_size t) m r' /\ offer g' r' /\ waiting_ok m r' /\ rid r' = rid r.
Proof.
  intros Hok []. unfold init_next_round_input. cbn [sr_req set_sr_req fill_ids set_fill_ids]. fold (input_of r).
  set (toks := if has_embed_overrides _ then _ else _).
  assert (zlen toks <= zlen (input_of r)) as Htoks.
  { unfold toks. destruct (has_embed_overrides _); [unfold zlen at 1; simpl; apply zlen_nonneg|].
    match goal with |- context [max_prefix_len ?x ?n] => pose proof (max_prefix_len_bound x n (zlen_nonneg _)) end.
    rewrite zlen_py_upto; lia. }
  destruct (tc_match_law t g (MkRadixKey toks (req_extra_key (sr_req r)) false) Hok)
    as (v & n & t' & g' & -> & H1 & H2 & H3 & H4 & H5 & H6 & H7 & H8 & _). cbn [res_bind]. simpl in H7.
  eexists t', g', _. split; [done|]. pose proof (zlen_nonneg v). split_and!; [by split| | | |done].
  - split; unfold prefix_len_of; simpl; try done; lia.
  - split; simpl; try done; lia.
  - by split.
Qed.

(** A chunk of a ready request is ready. *)
Lemma chunk_run_ok ps m req req' : chunk_of req req' -> run_ok ps m req -> run_ok ps m req' /\ rid req' = rid req.
Proof.
  intros [->|(n & Hn & ->)] []; [done|]. pose proof (zlen_nonneg (prefix_indices (sr_req req))) as Hp.
  unfold prefix_len_of in *. split; [|done].
  assert (zlen (py_upto (fill_ids (sr_req req)) (zlen (prefix_indices (sr_req req)) + n)) = zlen (prefix_indices (sr_req req)) + n) as Hl
    by (apply zlen_py_upto; lia).
  split; unfold prefix_len_of; simpl; try done; rewrite ?Hl; lia.
Qed.
End Rounds.

(** ** The loop *)

Section Pass.
Context (cfg : SchedulerConfig).
Context {T A : Type} {Alloc : KVAllocator A} {Cache : BasePrefixCache T A kva_pool}.
Abbreviation ps := (ac_page_size (sc_adder cfg)).
Context (Hps : 0 < ps) (Hclip : 0 <= ac_clip_max_new_tokens (sc_adder cfg)) (Hdllm : ac_dllm_block (sc_adder cfg) = None).
Context (Halign : match sc_truncation_align_size cfg with Some al => 0 < al | None => True end).
Context (Hpreempt : sc_enable_priority_preemption cfg = false).
Context (a : A) (rest : list Z) (pool : ReqToTokenPool) (mc : Z) (Hav : 0 <= kv_available a).

Record loop_ok (t : T) (g : tc_ghost) (s : PrefillAdder) : Prop := {
  lo_sync : in_sync t g a rest;
  lo_page : tc_page_size t = ps;
  lo_budget : budget_ok (sc_adder cfg) t a s;
  lo_run : Forall (run_ok ps mc) (can_run_list s);
  lo_rows : zlen (can_run_list s) <= pool_available_size pool;
  lo_preempt : preempt_list s = [];
}.

Lemma in_sync_kept t g t' g' : in_sync t g a rest -> tree_kept t g t' g' -> in_sync t' g' a rest.
Proof.
  intros (Hok & Hown & Hp) []. split_and!; [done| |congruence].
  eapply kv_owns_perm; [|exact Hown]. by rewrite tk_slots.
Qed.

Lemma add_one_keeps t g s req t' g' s' req' : loop_ok t g s -> run_ok ps mc req -> zlen (can_run_list s) < pool_available_size pool ->
  tc_ok t' g' -> tc_slots t' g' = tc_slots t g -> tc_page_size t' = tc_page_size t -> budget_ok (sc_adder cfg) t' a s' ->
  admitted (sc_adder cfg) s s' req req' ->
  loop_ok t' g' s' /\ rid req' = rid req /\ running_of s' = running_of s
  /\ (can_run_list s' = can_run_list s \/ can_run_list s' = can_run_list s ++ [req']).
Proof.
  intros [Hs Hp Hb Hr Hn Hpe] Hreq Hroom Hok' Hsl Hp' Hb' Hadm.
  assert (in_sync t' g' a rest) as Hs'.
  { destruct Hs as (_ & Hown & Hpg). split_and!; [done|by rewrite Hsl|congruence]. }
  destruct Hadm as [[-> ->]|(Hrun & Hch & [Hpl Hrb] & _)].
  - split_and!; try done; [split; (done || congruence)|by left].
  - destruct (chunk_run_ok ps mc req req' Hch Hreq) as [Hreq' Hrid].
    split_and!; try done; [|unfold running_of; by rewrite Hrb|by right].
    split; try done; try congruence.
    + rewrite Hrun. apply Forall_app. by split; [|constructor].
    + rewrite Hrun, zlen_app. unfold zlen at 2. simpl. lia.
Qed.

Lemma waiting_loop_ok queue : forall full t g s, loop_ok t g s -> Forall (waiting_ok mc) queue ->
  exists queue' full' t' g' s' added, waiting_loop cfg queue full t a pool s = Ok (queue', full', t', a, pool, s')
    /\ loop_ok t' g' s' /\ running_of s' = running_of s
    /\ can_run_list s' = can_run_list s ++ added /\ added `sublist_of` queue' /\ map rid queue' = map rid queue.
Proof.
  induction queue as [|req queue IH]; intros full t g s Hlo Hq.
  { exists [], full, t, g, s, []. by rewrite app_nil_r. }
  cbn [waiting_loop]. rewrite Hpreempt. set (f := full || _).
  destruct f eqn:Ef; cbn [res_bind negb].
  { exists (req :: queue), true, t, g, s, []. rewrite app_nil_r. split_and!; try done. apply sublist_nil_l. }
  unfold f in Ef. apply orb_false_iff in Ef as [_ Ef]. apply Z.leb_gt in Ef. unfold get_num_allocatable_reqs in Ef.
  apply Forall_cons in Hq as [Hreq Hq]. pose proof Hlo as [Hs Hp _ _ _ _].
  destruct (next_round_ok t g mc req (proj1 Hs) Hreq) as (t1 & g1 & r1 & -> & Hk & Hrun1 & Hof & Hw1 & Hrid1). cbn [res_bind from_option id].
  assert (loop_ok t1 g1 s) as Hlo1.
  { destruct Hlo. split; try done; [by eapply in_sync_kept|by rewrite (tk_page _ _ _ _ Hk)|].
    eapply budget_ok_size; [|done]. apply (tk_evictable _ _ _ _ Hk). }
  rewrite Hp in Hrun1.
  destruct (add_one_req_ok (sc_adder cfg) Hps Hclip Hdllm a (sc_truncation_align_size cfg) t1 g1 s r1)
    as (r & t2 & g2 & s2 & r2 & -> & Hok2 & Hsl2 & Hp2 & _ & Hb2 & Hadm); try done; [apply (tk_ok _ _ _ _ Hk)|apply (wk_eos _ _ Hw1)|apply Hlo1|].
  cbn [res_bind].
  destruct (add_one_keeps t1 g1 s r1 t2 g2 s2 r2 Hlo1 Hrun1 ltac:(lia) Hok2 Hsl2 Hp2 Hb2 Hadm) as (Hlo2 & Hrid2 & Hrb2 & Hcan).
  assert (exists ad, can_run_list s2 = can_run_list s ++ ad /\ ad `sublist_of` [r2]) as (ad & Hcan2 & Had).
  { destruct Hcan as [Hcan|Hcan]; [exists []|exists [r2]]; rewrite Hcan, ?app_nil_r; by split; [|repeat constructor]. }
  assert (forall f' : bool, exists (queue' : list SchedReq) full' t' g' s' added, Ok (r2 :: queue, f', t2, a, pool, s2) = Ok (queue', full', t', a, pool, s')
    /\ loop_ok t' g' s' /\ running_of s' = running_of s
    /\ can_run_list s' = can_run_list s ++ added /\ added `sublist_of` queue' /\ map rid queue' = map rid (req :: queue)) as Hstop.
  { intros f'. exists (r2 :: queue), f', t2, g2, s2, ad. split_and!; try done; [|simpl; by rewrite Hrid2, Hrid1].
    etrans; [exact Had|]. apply sublist_skip, sublist_nil_l. }
  destruct r; [|by apply Hstop..].
  destruct (IH false t2 g2 s2 Hlo2 Hq) as (q' & f' & t' & g' & s' & added & -> & Hlo' & Hrb' & Hc' & Hsub & Hm'). cbn [res_bind].
  exists (r2 :: q'), f', t', g', s', (ad ++ added). split_and!; try done; [congruence|by rewrite Hc', Hcan2, app_assoc| |simpl; congruence].
  by apply (sublist_app ad [r2] added q').
Qed.
End Pass.

(** ** The batch *)

(** The table as the scheduler keeps it; [held] are the rows of running requests. *)
Record table_ok (pool : ReqToTokenPool) (held : list Z) : Prop := {
  tb_owned : pool_owned pool held;
  tb_rows : zlen (req_to_token pool) = pool_size pool + 1;
  tb_cols : 0 <= max_context_len pool;
  tb_table : Forall (fun r => zlen r = max_context_len pool) (req_to_token pool);
}.

Section Batch.
Context (ps : Z) (Hps : 0 < ps) (pool : ReqToTokenPool) (held : list Z) (Htab : table_ok pool held).
Abbreviation ready := (Forall (run_ok ps (max_context_len pool))).

Lemma no_rows reqs : ready reqs -> omap req_pool_idx (map sr_req reqs) = [] /\ unplaced (map sr_req reqs) = map sr_req reqs.
Proof.
  unfold unplaced. induction 1 as [|r l [Hr _ _ _ _] _ [IH1 IH2]]; [done|]. simpl. rewrite Hr. split; [done|].
  rewrite filter_cons, decide_True by (unfold has_slot; by rewrite Hr). by rewrite IH2.
Qed.

Lemma new_tokens reqs : ready reqs ->
  zsum (map zlen (map (fun r => py_from (fill_ids (sr_req r)) (zlen (prefix_indices (sr_req r)))) reqs))
  = zsum (map extend_input_len reqs).
Proof.
  induction 1 as [|r l [_ He Hf _ _] _ IH]; [done|]. unfold zsum in *. simpl. rewrite IH. f_equal. unfold prefix_len_of in Hf.
  pose proof (zlen_nonneg (prefix_indices (sr_req r))). rewrite zlen_py_from; lia.
Qed.

Lemma prefill_batch_ready reqs : ready reqs -> zlen reqs <= pool_available_size pool -> batch_ready pool (prefill_batch reqs) held.
Proof.
  intros Hrun Hn. destruct (no_rows reqs Hrun) as [H1 H2]. destruct Htab. split; cbn [prefill_batch b_reqs b_prefix_lens b_extend_lens b_seq_lens b_extend_num_tokens];
    try done.
  - by rewrite H1.
  - apply Forall_map. eapply Forall_impl; [exact Hrun|]. intros r [Hr _ _ _ _] Hs. unfold has_slot in Hs. by rewrite Hr in Hs.
  - rewrite H2. unfold zlen in *. by rewrite length_map.
  - by rewrite map_map.
  - by rewrite !length_map.
  - apply Forall_map. eapply Forall_impl; [exact Hrun|]. by intros r [].
  - clear -Hrun. induction Hrun as [|r l [] _ IH]; [done|]. simpl. f_equal; done.
  - by apply new_tokens.
  - apply Forall_map. eapply Forall_impl; [exact Hrun|]. by intros r [].
Qed.

Lemma prefill_batch_tails reqs rest : ready reqs ->
  extendable ps rest (b_prefix_lens (prefill_batch reqs)) (b_seq_lens (prefill_batch reqs)) (last_locs (prefill_batch reqs)).
Proof.
  intros Hrun. unfold extendable, last_locs, prefill_batch. cbn [b_prefix_lens b_seq_lens b_reqs]. rewrite !length_map.
  assert (forall i, (i < length reqs)%nat -> exists r, nth i (map (fun r => zlen (prefix_indices (sr_req r))) reqs) 0 = prefix_len_of r
    /\ nth i (map (fun r => zlen (fill_ids (sr_req r))) reqs) 0 = zlen (fill_ids (sr_req r)) /\ run_ok ps (max_context_len pool) r) as Hnth.
  { intros i Hi. destruct (lookup_lt_is_Some_2 reqs i Hi) as [r Hr]. exists r. rewrite Forall_lookup in Hrun.
    split_and!; [apply nth_lookup_Some; by rewrite list_lookup_fmap, Hr..|by apply (Hrun i)]. }
  split_and!; try done.
  - intros i Hi. destruct (Hnth i Hi) as (r & -> & -> & []). unfold prefix_len_of in *. pose proof (zlen_nonneg (prefix_indices (sr_req r))). lia.
  - intros i Hi Ht. exfalso. destruct (Hnth i Hi) as (r & E1 & _ & []). destruct Ht as [Ht _]. apply Ht. rewrite E1. by apply Z.mod_divide; [lia|].
Qed.
End Batch.

Lemma zlen_concat {B} (ls : list (list B)) : zlen (concat ls) = zsum (map zlen ls).
Proof. induction ls as [|l ls IH]; [done|]. cbn [concat map]. by rewrite zlen_app, zsum_cons, IH. Qed.

Lemma bump_in_same {B} (f : SchedReq -> B) c l : (forall r, f (bump_chunked r) = f r) -> map f (bump_in c l) = map f l.
Proof.
  intros Hf. unfold bump_in. rewrite map_map. apply map_ext. intros r. case_decide; [apply Hf|done].
Qed.

Lemma bump_in_run_ok ps m c l : Forall (run_ok ps m) l -> Forall (run_ok ps m) (bump_in c l).
Proof.
  intros H. unfold bump_in. apply Forall_map. eapply Forall_impl; [exact H|]. intros r [].
  case_decide; [|by split]. by split.
Qed.

Lemma allocated_reqs_ok ps m reqs : forall idxs, Forall (run_ok ps m) reqs -> length idxs = length reqs ->
  exists reqs', allocated_reqs reqs idxs = Ok reqs' /\ map rid reqs' = map rid reqs
    /\ map (fun r => req_pool_idx (sr_req r)) reqs' = map Some idxs
    /\ Forall (fun r => kv_committed_len (sr_req r) = zlen (fill_ids (sr_req r)) /\ kv_allocated_len (sr_req r) = zlen (fill_ids (sr_req r))) reqs'.
Proof.
  induction reqs as [|r reqs IH]; intros [|i idxs] Hrun Hl; try done.
  { exists []. by repeat split. }
  apply Forall_cons in Hrun as [[_ _ Hf _ _] Hrun]. cbn [allocated_reqs]. unfold prefix_len_of in Hf.
  replace (_ =? extend_input_len r) with true by (symmetry; apply Z.eqb_eq; lia). cbn [py_assert res_bind].
  destruct (IH idxs Hrun ltac:(simpl in Hl; lia)) as (rs & -> & H1 & H2 & H3). cbn [res_bind].
  eexists. split; [done|]. split_and!; [simpl; by rewrite H1|simpl; by rewrite H2|by constructor].
Qed.

Section Prepare.
Context {T A : Type} {Alloc : KVAllocator A} {Cache : BasePrefixCache T A kva_pool}.
Context (oob : Z -> Z) (support_triton : bool) (order : Z -> list Z).
Context (Hord : forall n, Permutation (order n) (zrange 0 n)).

(** A batch with its memory: a row per request that lists its prefix and its new
    indices, and fresh indices for the new tokens. *)
Record batch_placed (ps : Z) (reqs : list SchedReq) (b : ExtendBatch) (pool' : ReqToTokenPool)
    (fresh held : list Z) : Prop := {
  bp_rids : map rid (eb_reqs b) = map rid reqs;
  bp_idxs : map (fun r => req_pool_idx (sr_req r)) (eb_reqs b) = map Some (eb_req_pool_indices b);
  bp_rows : pool_owned pool' (eb_req_pool_indices b ++ held);
  bp_out : zlen (eb_out_cache_loc b) = zlen (eb_input_ids b);
  bp_fresh : placement ps (b_prefix_lens (prefill_batch reqs)) (b_seq_lens (prefill_batch reqs))
               (last_locs (prefill_batch reqs)) (eb_out_cache_loc b) fresh;
  bp_lens : Forall (fun r => kv_committed_len (sr_req r) = zlen (fill_ids (sr_req r))) (eb_reqs b);
  bp_table p i r : eb_req_pool_indices b !! p = Some i -> reqs !! p = Some r ->
    read_row pool' (Some i) (zlen (fill_ids (sr_req r)))
    = Ok (new_row (eb_out_cache_loc b) (prefix_indices (sr_req r)) (zsum (take p (map extend_input_len reqs))) (extend_input_len r));
}.

Lemma prepare_for_extend_ok logprob vocab t g a rest pool held reqs : in_sync t g a rest -> table_ok pool held ->
  Forall (run_ok (tc_page_size t) (max_context_len pool)) reqs -> zlen reqs <= pool_available_size pool ->
  zsum (map (fun r => extend_input_len r + tc_page_size t) reqs) <= kv_available a + tc_evictable_size t ->
  exists b t' a' g' pool' fresh, prepare_for_extend oob support_triton order logprob vocab t a pool reqs = Ok (b, t', a', pool')
    /\ in_sync t' g' a' (fresh ++ rest) /\ batch_placed (tc_page_size t) reqs b pool' fresh held.
Proof.
  intros Hs Htab Hrun Hn Hmem. pose proof (tc_page_size_pos t g (proj1 Hs)) as Hps. assert (0 < tc_page_size t) as Hps0 by lia.
  assert (zsum (map (fun r => extend_input_len r + tc_page_size t) reqs) = zsum (map extend_input_len reqs) + zlen reqs * tc_page_size t) as Hsum.
  { clear. induction reqs as [|r reqs IH]; [done|]. cbn [map]. rewrite !zsum_cons, zlen_cons. lia. }
  pose proof (prefill_batch_ready (tc_page_size t) pool held Htab reqs Hrun Hn) as Hr.
  pose proof (br_num _ _ _ Hr) as Hnum.
  destruct (alloc_for_extend_ok oob support_triton (order (zlen reqs)) t g a rest pool (prefill_batch reqs) held Hs Hr)
    as (out & idxs & t' & a' & g' & pool' & reqs1 & fresh & E & Hs' & Hout & Hpl & Hown & Hidx & HF & Htabl).
  { intros _. apply (prefill_batch_tails (tc_page_size t) Hps0 pool reqs rest Hrun). }
  { rewrite Hnum. cbn [prefill_batch b_extend_lens b_reqs]. rewrite zlen_map. pose proof (zlen_nonneg reqs). destruct (_ =? 1); nia. }
  { cbn [prefill_batch b_reqs]. rewrite zlen_map. apply Hord. }
  unfold prepare_for_extend. rewrite E. cbn [res_bind].
  assert (length idxs = length reqs) as Hli.
  { apply Forall2_length in HF. apply (f_equal length) in Hidx. cbn [prefill_batch b_reqs] in HF. rewrite !length_map in *. lia. }
  destruct (allocated_reqs_ok _ _ reqs idxs Hrun Hli) as (reqs' & -> & H1 & H2 & H3). cbn [res_bind].
  eexists _, t', a', g', pool', fresh. split; [done|]. split; [done|].
  split; cbn [eb_reqs eb_req_pool_indices eb_out_cache_loc eb_input_ids]; try done.
  - rewrite Hout. cbn [prefill_batch b_extend_num_tokens]. by rewrite zlen_concat.
  - eapply Forall_impl; [exact H3|]. by intros r [? _].
  - intros p i r Hi Hp. rewrite Forall_lookup in Hrun. destruct (Hrun p r Hp) as [_ _ -> _ _].
    apply (Htabl p i (sr_req r)); [done|cbn [prefill_batch b_reqs]; by rewrite list_lookup_fmap, Hp|cbn [prefill_batch b_extend_lens]; by rewrite list_lookup_fmap, Hp].
Qed.
End Prepare.

(** ** The pass *)

Lemma split_by_list (l k : list SchedReq) : NoDup l -> k `sublist_of` l -> Permutation (filter (fun x => x ∉ k) l ++ k) l.
Proof.
  intros Hnd Hsub. assert (Permutation (filter (fun x => x ∈ k) l) k) as Hk.
  { apply NoDup_Permutation; [by apply NoDup_filter|by eapply sublist_NoDup|]. intros x. rewrite list_elem_of_filter.
    split; [tauto|]. intros Hx. split; [done|]. by eapply elem_of_sublist. }
  transitivity (filter (fun x => x ∉ k) l ++ filter (fun x => x ∈ k) l); [by rewrite Hk|].
  clear. induction l as [|x l IH]; [done|]. rewrite !filter_cons.
  destruct (decide (x ∈ k)).
  - rewrite decide_False by tauto. rewrite <- Permutation_middle. by rewrite IH.
  - rewrite decide_True by tauto. simpl. by rewrite IH.
Qed.

Record config_ok (cfg : SchedulerConfig) : Prop := {
  co_page : 0 < ac_page_size (sc_adder cfg);
  co_clip : 0 <= ac_clip_max_new_tokens (sc_adder cfg);
  co_ratio : 0 <= units_of (ac_new_token_ratio (sc_adder cfg));
  co_dllm : ac_dllm_block (sc_adder cfg) = None;
  co_align : match sc_truncation_align_size cfg with Some al => 0 < al | None => True end;
  co_preempt : sc_enable_priority_preemption cfg = false;
  co_random : sp_policy (sc_policy cfg) = RANDOM -> forall q, Permutation (sp_random (sc_policy cfg) q) q;
}.

Section Select.
Context (cfg : SchedulerConfig) (Hcfg : config_ok cfg).
Context {T A : Type} {Alloc : KVAllocator A} {Cache : BasePrefixCache T A kva_pool} {View : TreeView T}.
Context (monotonic : nat -> Z) (sha256 : list Z -> list Z) (torch_empty : Z -> list Z).
Context (Hsha : forall l, Forall is_byte (sha256 l) /\ 8 <= zlen (sha256 l)).
Context (Hempty : forall n, 0 <= n -> zlen (torch_empty n) = n).
Context (Hview : sp_policy (sc_policy cfg) = DFS_WEIGHT -> view_ok).
Context (perf_counter : nat -> Z).

Record pass_ready (st : Scheduler) (t : T) (g : tc_ghost) (a : A) (rest : list Z) (pool : ReqToTokenPool) (held : list Z) : Prop := {
  pr_sync : in_sync t g a rest;
  pr_page : tc_page_size t = ac_page_size (sc_adder cfg);
  pr_small : kv_available a + tc_evictable_size t <= 2 ^ 53;
  pr_table : table_ok pool held;
  pr_chunked : chunked_req st = None;
  pr_waiting : Forall (waiting_ok (max_context_len pool)) (waiting_queue st);
  pr_rids : NoDup (map rid (waiting_queue st));
  pr_running : Forall running_ok (running_reqs st);
  pr_sim : ids_fresh (waiting_queue_radix_tree st);
  pr_priorities : priorities_ok (sc_policy cfg) (waiting_queue st);
}.

(** What a selection leaves: nothing was allocated, and every waiting request is still
    waiting or selected, exactly once. *)
Definition selected (st st' : Scheduler) (t' : T) (a : A) (pool : ReqToTokenPool) (can_run : option (list SchedReq)) : Prop :=
  match can_run with
  | None => Permutation (map rid (waiting_queue st')) (map rid (waiting_queue st))
  | Some reqs => Permutation (map rid (waiting_queue st') ++ map rid reqs) (map rid (waiting_queue st))
      /\ Forall (run_ok (tc_page_size t') (max_context_len pool)) reqs /\ reqs <> []
      /\ zlen reqs <= pool_available_size pool
      /\ zsum (map (fun r => extend_input_len r + tc_page_size t') reqs) <= kv_available a + tc_evictable_size t'
  end.

Lemma reordered_waiting m q q' : reordered q q' -> Forall (waiting_ok m) q ->
  Forall (waiting_ok m) q' /\ Permutation (map rid q') (map rid q).
Proof.
  intros (q1 & HF & HP) Hq. rewrite HP. clear HP. induction HF as [|r r1 q q1 Hr HF IH]; [done|].
  apply Forall_cons in Hq as [Hr' Hq]. destruct (IH Hq) as [H1 H2]. split; [constructor; [by eapply waiting_ok_rematched|done]|].
  simpl. rewrite H2. unfold rematched in Hr. by rewrite Hr.
Qed.

Lemma select_prefill_ok st t g a rest pool held : pass_ready st t g a rest pool held ->
  exists can_run st' t' g', select_prefill cfg monotonic sha256 torch_empty perf_counter st t a pool = Ok (can_run, st', t', a, pool)
    /\ in_sync t' g' a rest /\ tc_page_size t' = ac_page_size (sc_adder cfg)
    /\ running_reqs st' = running_reqs st /\ selected st st' t' a pool can_run.
Proof.
  intros [Hs Hpg Hsm Htab Hch Hw Hrid Hrun Hsim Hpr]. destruct st as [queue running full chunked sim out]. simpl in *. subst chunked.
  destruct Hcfg. unfold select_prefill. rewrite co_preempt0. rewrite !andb_true_r. cbn [negb].
  destruct (full || (zlen queue =? 0)); [eexists None, _, t, g; split_and!; [done..|simpl; done]|].
  destruct (_ <=? 0); [eexists None, _, t, g; split_and!; [done..|simpl; done]|].
  destruct (calc_priority_ok (sc_policy cfg) monotonic sha256 torch_empty Hsha Hempty t g sim queue (Some running) (proj1 Hs) Hsim)
    as (pc & t1 & g1 & sim1 & q1 & -> & Hk & _ & Hre); [|done|by intros E; apply co_random0|done|].
  { eapply Forall_impl; [exact Hw|]. by intros r []. }
  cbn [res_bind]. destruct (reordered_waiting _ _ _ Hre Hw) as [Hw1 HP1].
  pose proof (kv_available_nonneg a _ (proj1 (proj2 Hs))) as Hav.
  set (s0 := adder_init _ _ _ _ _ _).
  assert (loop_ok cfg a rest pool (max_context_len pool) t1 g1 s0) as Hlo.
  { split; [by eapply in_sync_kept|by rewrite (tk_page _ _ _ _ Hk)| |constructor|apply zlen_nonneg|done].
    apply (adder_init_budget (sc_adder cfg) co_clip0 a t1 g1); try done; [apply (tk_ok _ _ _ _ Hk)|by rewrite (tk_evictable _ _ _ _ Hk)|].
    destruct (sc_is_mixed_chunk cfg); [apply zlen_nonneg|lia]. }
  destruct (waiting_loop_ok cfg co_page0 co_clip0 co_dllm0 co_align0 co_preempt0 a rest pool (max_context_len pool) Hav q1 full t1 g1 s0 Hlo Hw1)
    as (q2 & full2 & t2 & g2 & s2 & added & -> & [Hs2 Hp2 Hb2 Hr2 Hn2 Hpe2] & Hrb2 & Hc2 & Hsub & Hm2).
  cbn [res_bind]. simpl in Hc2. rewrite <- Hm2 in HP1. rewrite Hrb2.
  destruct (zlen (can_run_list s2) =? 0) eqn:Ez; [eexists None, _, t2, g2; split_and!; [done..|simpl; done]|]. rewrite Hpe2. cbn [requeue res_bind].
  assert (NoDup q2) as Hnd by (apply (NoDup_fmap_1 rid); by rewrite HP1).
  assert (forall l, map rid l = map rid (can_run_list s2) ->
    Permutation (map rid (filter (fun x => x ∉ can_run_list s2) q2) ++ map rid l) (map rid queue)) as Hall.
  { intros l ->. rewrite <- map_app, Hc2, split_by_list by done. done. }
  apply Z.eqb_neq in Ez. set (fq := filter _ q2) in *.
  assert (exists x c2, match new_chunked_req s2 with Some r => Ok (Some r) | None => Ok None end = Ok x :> res (option SchedReq)
    /\ match x with Some c => bump_in c (can_run_list s2) | None => can_run_list s2 end = c2
    /\ (c2 = can_run_list s2 \/ exists c, c2 = bump_in c (can_run_list s2))) as (x & c2 & -> & Hc & Hcases).
  { destruct (new_chunked_req s2) as [r|]; eexists _, _; split_and!; eauto. }
  cbn [res_bind]. rewrite Hc. eexists (Some c2), _, t2, g2. split; [done|]. split; [done|]. split; [done|]. split; [done|].
  assert (forall B (f : SchedReq -> B), (forall r, f (bump_chunked r) = f r) -> map f c2 = map f (can_run_list s2)) as Hsame.
  { intros B f Hf. destruct Hcases as [->|[c ->]]; [done|]. by apply bump_in_same. }
  assert (zlen c2 = zlen (can_run_list s2)) as Hlen by (unfold zlen; by rewrite <- !(length_map rid), Hsame).
  unfold selected. cbn [waiting_queue]. rewrite Hp2. split_and!.
  - by apply Hall, Hsame.
  - destruct Hcases as [->|[c ->]]; [done|]. by apply bump_in_run_ok.
  - intros ->. by rewrite <- Hlen in Ez.
  - by rewrite Hlen.
  - rewrite Hsame by done. apply (bo_fits _ _ _ _ Hb2).
Qed.
End Select.


(** The cache of [KVMemory.v] with one free page, six evictable slots, and one free row. *)
Definition sample_scheduler_cfg : SchedulerConfig :=
  MkSchedulerConfig (MkAdderConfig 2 (PFloat (2 ^ 1073)) 4096 10 false false None None None) (sample_policy DFS_WEIGHT)
    (MkQueueConfig false false false None) (MkReleaseArgs 2 false false) 20 false 8 1024 (Some 512) false None.

Definition sample_scheduler : Scheduler :=
  MkScheduler [waiting_sample "a" [31; 32; 33] None] [] false None (cache_init simulated_cfg sample_clock) [].

