(* ===== verification/PrefillClaims.v ===== *)
(** Single steps of the prefill pass: admission of one request, the tokens whose
    log-probabilities are returned, preemption, and the state list of requests that
    ignore EOS. *)

From S2P Require Export PrefillPass.
From S2P Require Import KVMemory.



(** ** Log-probabilities *)

(** A slice padded with zeros reads past the end of the list as 0. *)
Lemma padded_slice (l : list Z) g e : 0 <= g -> 0 <= e ->
  let s := py_slice l (g + 1) (e + 1) in
  s ++ repeat 0 (Z.to_nat (Z.max 0 (e - g) - zlen s)) = map (fun j => nth (Z.to_nat (g + 1 + j)) l 0) (zrange 0 (Z.max 0 (e - g))).
Proof.
  intros Hg He. cbv zeta. rewrite py_slice_nonneg by lia. set (m := Z.to_nat (e + 1 - (g + 1))). set (i := Z.to_nat (g + 1)).
  assert (Z.max 0 (e - g) = Z.of_nat m) as -> by lia.
  assert (length (take m (drop i l)) = Nat.min m (length l - i)) as Hl by (rewrite length_take, length_drop; lia).
  apply (nth_ext _ _ 0 0).
  - rewrite length_app, repeat_length, length_map. unfold zlen, zrange. rewrite length_seqZ. lia.
  - intros j Hj. rewrite length_app, repeat_length in Hj. unfold zlen in Hj.
    rewrite (nth_lookup_Some (map _ _) j 0 (nth (Z.to_nat (g + 1 + Z.of_nat j)) l 0)).
    2: { rewrite list_lookup_fmap. assert (zrange 0 (Z.of_nat m) !! j = Some (Z.of_nat j)) as -> by (apply lookup_zrange; lia). done. }
    replace (Z.to_nat (g + 1 + Z.of_nat j)) with (i + j)%nat by lia.
    destruct (Nat.lt_ge_cases j (length (take m (drop i l)))).
    + rewrite app_nth1 by done. rewrite nth_lookup, lookup_take_lt, lookup_drop by lia. by rewrite nth_lookup.
    + rewrite app_nth2 by done. rewrite nth_repeat_lt by (unfold zlen; lia). symmetry. apply nth_overflow. lia.
Qed.

(** For a request whose first [n] new tokens run, [prepare_for_extend] collects exactly
    [extend_input_len - extend_logprob_start_len] token ids: the input tokens that follow
    each position from the requested start (or the end of the cached prefix) on, and 0 for
    positions past the end of the prompt. *)
Theorem logprob_tokens_spec r n
    (Hfill : fill_ids (sr_req r) = origin_input_ids (sr_req r) ++ output_ids (sr_req r)) (Hlsl : -1 <= logprob_start_len r)
    (Hn : 0 <= n) (Hlen : prefix_len_of r + n <= zlen (fill_ids (sr_req r))) :
  let r' := truncate_req r n (prefix_len_of r + n) in
  let origin := origin_input_ids (sr_req r) in
  let start := Z.max (prefix_len_of r) (if logprob_start_len r =? -1 then zlen origin else logprob_start_len r) in
  0 <= extend_input_len r' - extend_logprob_start_len r'
  /\ logprob_tokens r' = map (fun j => nth (Z.to_nat (start + 1 + j)) origin 0) (zrange 0 (extend_input_len r' - extend_logprob_start_len r')).
Proof.
  cbv zeta. unfold truncate_req, set_extend_input_len. cbn [sr_req set_sr_req set_sr_lens fill_ids set_fill_ids extend_input_len extend_logprob_start_len].
  pose proof (zlen_nonneg (prefix_indices (sr_req r))) as Hp. unfold prefix_len_of in *. set (p := zlen (prefix_indices (sr_req r))) in *.
  set (fill := fill_ids (sr_req r)) in *. set (origin := origin_input_ids (sr_req r)) in *.
  assert (zlen origin <= zlen fill) as Ho by (rewrite Hfill, zlen_app; pose proof (zlen_nonneg (output_ids (sr_req r))); lia).
  set (start := Z.max p _). pose proof (zlen_nonneg origin).
  set (st := Z.min _ n).
  assert (n - st = Z.max 0 (p + n - start) \/ (logprob_start_len r = -1 /\ n - st = 0)) as Hneed.
  { unfold st, start. destruct (Z.eqb_spec (logprob_start_len r) (-1)); [right; lia|left; lia]. }
  split; [lia|]. unfold logprob_tokens. cbn [sr_req set_sr_req set_sr_lens fill_ids set_fill_ids extend_input_len extend_logprob_start_len
    logprob_start_len origin_input_ids prefix_indices]. fold p origin fill.
  replace (if p <? _ then _ else p) with start by (unfold start; destruct (Z.ltb_spec p (if logprob_start_len r =? -1 then zlen origin else logprob_start_len r)); lia).
  rewrite zlen_py_upto by lia. fold st.
  destruct Hneed as [->|[Hm ->]]; [apply padded_slice; lia|].
  assert (start >= zlen origin) by (unfold start; rewrite Hm; simpl; lia).
  rewrite py_slice_nonneg, drop_ge by (unfold zlen in *; lia). by rewrite take_nil.
Qed.

Lemma logprob_tokens_spec_witness :
  let r := MkSched (MkReq None [5; 6; 7; 8] [] [5; 6; 7; 8] None None [90] None 0 0 0 0 false false 0) "a" 3 0 0 4 false true 0 false false 0
             None false false in
  logprob_tokens (truncate_req r 3 4) = [7; 8; 0].
Proof.
  cbv zeta.
  destruct (logprob_tokens_spec (MkSched (MkReq None [5; 6; 7; 8] [] [5; 6; 7; 8] None None [90] None 0 0 0 0 false false 0) "a" 3 0 0 4 false true
              0 false false 0 None false false) 3 eq_refl ltac:(simpl; lia) ltac:(lia) ltac:(vm_compute; discriminate)) as [_ H].
  exact H.
Defined.

(** ** Preemption *)

Section Preempt.
Context (cfg : AdderConfig).
Context {T A : Type} {Alloc : KVAllocator A} {Cache : BasePrefixCache T A kva_pool}.

Lemma choose_preemptible_spec sign rp (P : SchedReq -> Prop) l :
  (forall p r, (p, r) ∈ l -> ac_preemption_threshold cfg < (rp - p) * - sign -> P r) ->
  forall m rs m', choose_preemptible cfg sign rp m l = (rs, m') -> Forall P rs.
Proof.
  induction l as [|[p r] l IH]; intros HP m rs m'; cbn [choose_preemptible]; [by intros [= <- _]|].
  destruct (Z.ltb_spec (ac_preemption_threshold cfg) ((rp - p) * - sign)) as [Hlt|]; [|by intros [= <- _]].
  assert (P r) as Hr by (apply (HP p); [by left|done]). destruct (num_leb _ _); [intros [= <- _]; by constructor|].
  destruct (choose_preemptible cfg sign rp _ l) as [rs1 m1] eqn:E. intros [= <- _].
  constructor; [done|]. eapply IH; [|exact E]. intros p' r' Hin. apply HP. by right.
Qed.

Lemma preempt_loop_spec args steps chosen total : forall l released off t a pool kept gone off' t' a' pool',
  preempt_loop cfg args steps chosen total released l off t a pool = Ok (kept, gone, off', t', a', pool') ->
  kept = filter (fun r => r ∉ chosen) l /\ map rid gone = map rid (filter (fun r => r ∈ chosen) l).
Proof.
  induction l as [|r l IH]; intros released off t a pool kept gone off' t' a' pool'; cbn [preempt_loop]; [by intros [= <- <- _ _ _ _]|].
  rewrite !filter_cons. destruct (bool_decide (r ∈ chosen)) eqn:Eb.
  - apply bool_decide_eq_true in Eb. rewrite decide_False, decide_True by tauto.
    destruct (release_req _ _ _ _ _ _ _) as [[[[t1 a1] pool1] r1]|] eqn:Er; [|done]. cbn [res_bind].
    destruct (preempt_loop _ _ _ _ _ _ _ _ _ _ _) as [[[[[[k1 g1] o1] t2] a2] p2]|] eqn:El; [|done]. cbn [res_bind].
    intros [= <- <- <- <- <- <-]. destruct (IH _ _ _ _ _ _ _ _ _ _ _ El) as [-> Hg]. split; [done|]. simpl. rewrite Hg. f_equal.
    unfold release_req in Er. destruct (release_kv_cache _ _ _ _ _ _ _) as [[[[t3 a3] p3] q3]|]; [|done]. cbn [res_bind] in Er.
    destruct (evict_from_tree_cache _ _ _) as [[t4 a4]|]; [|done]. cbn [res_bind] in Er. by injection Er as <- <- <- <-.
  - apply bool_decide_eq_false in Eb. rewrite decide_True, decide_False by tauto.
    destruct (preempt_loop _ _ _ _ _ _ _ _ _ _ _) as [[[[[[k1 g1] o1] t2] a2] p2]|] eqn:El; [|done]. cbn [res_bind].
    intros [= <- <- <- <- <- <-]. destruct (IH _ _ _ _ _ _ _ _ _ _ _ El) as [-> Hg]. by split.
Qed.

(** The running requests that may be preempted for [req]. *)
Definition preemptible (low_first : bool) (s : PrefillAdder) (running : list SchedReq) (req r : SchedReq) : Prop :=
  r ∈ running /\ (r ∉ preempt_list s) /\ sr_finished r = false
  /\ exists p rp, req_priority (sr_req r) = Some p /\ req_priority (sr_req req) = Some rp
       /\ ac_preemption_threshold cfg < (rp - p) * - (if low_first then 1 else -1).

Lemma sorted_choice (low_first : bool) (s : PrefillAdder) (running : list SchedReq) req l rp m rs m' lt :
  with_priority (filter (fun r : SchedReq => (r ∉ preempt_list s) /\ sr_finished r = false) running) = Ok l ->
  (py_sort lt l <> [] -> priority_of req = Ok rp) ->
  choose_preemptible cfg (if low_first then 1 else -1) rp m (py_sort lt l) = (rs, m') ->
  Forall (preemptible low_first s running req) rs.
Proof.
  intros Hl Hrp Hc. eapply choose_preemptible_spec; [|exact Hc]. intros p r Hin Hlt.
  assert (priority_of req = Ok rp) as Hr by (apply Hrp; intros E; rewrite E in Hin; by apply not_elem_of_nil in Hin).
  rewrite py_sort_perm in Hin. apply list_elem_of_lookup in Hin as [i Hi].
  destruct (with_priority_lookup _ _ _ _ _ Hl Hi) as [Hv Hp]. apply list_elem_of_lookup_2 in Hv.
  apply list_elem_of_filter in Hv as [[H1 H2] H3]. unfold priority_of in Hr.
  destruct (req_priority (sr_req req)) as [x|] eqn:E; [|done]. injection Hr as ->. split_and!; try done. by exists p, rp.
Qed.
End Preempt.

(** [preempt_to_schedule] preempts only running requests that have not finished (their
    memory was not given back yet), were not preempted before, and whose priority is below
    the new request's by more than the threshold.  A refusal leaves everything as it was;
    otherwise exactly the preempted requests leave the running batch, in order, and join
    the preempted list. *)
Theorem preempt_only_lower {T A : Type} {Alloc : KVAllocator A} {Cache : BasePrefixCache T A kva_pool}
    cfg args steps low_first t (a : A) pool s req running ok t' a' pool' s'
    (Hrun : running_batch s = Some running)
    (Hcall : preempt_to_schedule cfg args steps low_first t a pool s req = Ok (ok, t', a', pool', s')) :
  if ok then
    exists chosen gone, chosen <> [] /\ Forall (preemptible cfg low_first s running req) chosen
      /\ running_batch s' = Some (filter (fun r => r ∉ chosen) running)
      /\ preempt_list s' = preempt_list s ++ gone /\ map rid gone = map rid (filter (fun r => r ∈ chosen) running)
      /\ can_run_list s' = can_run_list s
  else t' = t /\ a' = a /\ pool' = pool /\ s' = s.
Proof.
  unfold preempt_to_schedule in Hcall. rewrite Hrun in Hcall. destruct (with_priority _) as [l|] eqn:El; [|done]. cbn [res_bind] in Hcall.
  cbv zeta in Hcall. set (lt := fun x y : Z * SchedReq => _) in Hcall. set (m0 := num_sub _ _) in Hcall.
  set (mp := match py_sort lt l with [] => Ok 0 | _ => priority_of req end) in Hcall.
  destruct mp as [rp|] eqn:Emp; [|done]. cbn [res_bind] in Hcall.
  destruct (choose_preemptible cfg _ rp m0 (py_sort lt l)) as [rs m1] eqn:Ec.
  destruct ((zlen rs =? 0) || num_ltb (PInt 0) m1) eqn:Eb; [by injection Hcall as <- <- <- <- <-|].
  apply orb_false_iff in Eb as [Hne _]. apply Z.eqb_neq in Hne.
  destruct (preempt_loop _ _ _ _ _ _ _ _ _ _ _) as [[[[[[k g] o] t2] a2] p2]|] eqn:Elp; [|done]. cbn [res_bind] in Hcall.
  injection Hcall as <- <- <- <- <-. destruct (preempt_loop_spec cfg _ _ _ _ _ _ _ _ _ _ _ _ _ _ _ _ Elp) as [-> Hg].
  exists rs, g. split_and!; try done; [by intros ->|]. eapply sorted_choice; [exact El| |exact Ec].
  intros Hs. unfold mp in Emp. by destruct (py_sort lt l).
Qed.

(** The request of [RadixProps.v], running with priority 0, makes place for one of
    priority 20. *)
Definition running_sample : SchedReq :=
  MkSched (sr_req (set_req_priority (MkSched sample_req "r" 0 0 0 8 false false (-1) false false 0 None false false) 0)) "r" 0 0 0 8 false false (-1)
    false false 0 None false false.
Definition urgent_sample : SchedReq := set_req_priority (waiting_sample "u" [31; 32; 33] None) 20.

Lemma preempt_only_lower_witness : exists t' a' pool' s',
  preempt_to_schedule (Alloc := sample_allocator) (Cache := sample_prefix_cache) (sc_adder sample_scheduler_cfg) (MkReleaseArgs 2 false false) 0
    false sample_cache sample_pool sample_rows3 (adder_init (sc_adder sample_scheduler_cfg) (Some [running_sample]) 1024 None 0 0) urgent_sample
  = Ok (true, t', a', pool', s')
  /\ exists chosen, Forall (preemptible (sc_adder sample_scheduler_cfg) false
       (adder_init (sc_adder sample_scheduler_cfg) (Some [running_sample]) 1024 None 0 0) [running_sample] urgent_sample) chosen.
Proof.
  destruct (preempt_to_schedule (Alloc := sample_allocator) (Cache := sample_prefix_cache) (sc_adder sample_scheduler_cfg)
    (MkReleaseArgs 2 false false) 0 false sample_cache sample_pool sample_rows3
    (adder_init (sc_adder sample_scheduler_cfg) (Some [running_sample]) 1024 None 0 0) urgent_sample)
    as [[[[[ok t'] a'] pool'] s']|e] eqn:E; [|exfalso; revert E; vm_compute; discriminate].
  assert (ok = true) as -> by (revert E; vm_compute; intros [= <- _ _ _ _]; reflexivity).
  destruct (preempt_only_lower (Alloc := sample_allocator) (Cache := sample_prefix_cache) (sc_adder sample_scheduler_cfg)
    (MkReleaseArgs 2 false false) 0 false sample_cache sample_pool sample_rows3
    (adder_init (sc_adder sample_scheduler_cfg) (Some [running_sample]) 1024 None 0 0) urgent_sample [running_sample] true t' a' pool' s' eq_refl E)
    as (chosen & gone & _ & H & _).
  exists t', a', pool', s'. split; [reflexivity|]. exists chosen. exact H.
Defined.

(** ** The states of requests that ignore EOS *)

(** [add_req_state(r, insert_sort=True)] looks for the first state that is not smaller;
    when every state is smaller the index stays at the last one, so the new state goes
    before it and the list is no longer sorted. *)
Lemma insert_state_unsorted :
  let cfg := sc_adder sample_scheduler_cfg in
  let r := MkSched (sr_req (waiting_sample "a" [1] None)) "a" 1 0 0 9 true false (-1) false false 0 None false false in
  map (fun x => num_int x.1) (insert_state cfg [(PInt 4, 1); (PInt 6, 1)] r) = [4; 9; 6].
Proof. vm_compute. reflexivity. Qed.

(** ** Preemption without admission *)

(** [preempt_to_schedule] reads the extend length the request has before it is matched and
    asks for no page of slack, so [add_one_req] can still refuse the request.  The pass
    then returns before it puts the preempted requests back into the queue. *)
Definition preempt_scheduler_cfg : SchedulerConfig :=
  MkSchedulerConfig (sc_adder sample_scheduler_cfg) (MkPolicyConfig FCFS true false 32 32 (fun q => q))
    (MkQueueConfig true false false None) (MkReleaseArgs 2 false false) 0 true 1 1024 None false None.

Definition large_sample : SchedReq :=
  set_extend_input_len (set_req_priority (waiting_sample "u" [31; 32; 33; 34; 35; 36; 37; 38; 39; 40; 41; 42] None) 20) 0.

(** The running request "r" ends up neither running nor waiting, and no batch is built. *)
Lemma preempted_request_lost :
  match get_new_batch_prefill (Alloc := sample_allocator) (Cache := sample_prefix_cache) (View := radix_view sample_dict)
          preempt_scheduler_cfg sample_clock sample_digest zero_fill (fun i => i) true (fun n => zrange 0 n) (fun _ => 0) 32000
          (MkScheduler [large_sample] [running_sample] false None (cache_init simulated_cfg sample_clock) [])
          sample_cache sample_pool sample_rows3 with
  | Ok (b, st', _, _, _) => b = None /\ map rid (running_reqs st') = [] /\ map rid (waiting_queue st') = ["u"] /\ aborted_rids st' = []
  | Raise _ => False
  end.
Proof. vm_compute. repeat split. Qed.
