(* ===== verification/SpecKernels.v ===== *)
(** The device kernels of speculative decoding: [verify_tree_greedy] of the NPU
    kernel package and the Triton kernels of [speculative/spec_utils.py] that lay
    out accepted tokens and their KV indices.

    As in [Triton.v], [oob] is what memory outside a buffer holds, [undef] what a
    masked-off lane of a load without [other] holds.  Two-dimensional tensors are
    flattened row by row. *)

From S2P Require Export Prelude Triton.

Section Kernels.
Context (oob : Z -> Z) (undef : Z).

(** ** Greedy verification on the NPU *)

(** The three output tensors. *)
Record verify_out : Type := MkVerifyOut {
  predicts : list Z;
  accept_index : list Z;
  accept_token_num : list Z
}.

(** The loop-carried variables. *)
Record verify_vars : Type := MkVerifyVars {
  v_out : verify_out;
  last_accepted_idx : Z;
  num_accepted : Z;
  rejected : bool
}.

Definition store_predict (out : verify_out) (i v : Z) : option verify_out :=
  p ← store1 (predicts out) (i, v); Some (MkVerifyOut p (accept_index out) (accept_token_num out)).
Definition store_accept (out : verify_out) (i v : Z) : option verify_out :=
  a ← store1 (accept_index out) (i, v); Some (MkVerifyOut (predicts out) a (accept_token_num out)).
Definition store_num (out : verify_out) (i v : Z) : option verify_out :=
  n ← store1 (accept_token_num out) (i, v); Some (MkVerifyOut (predicts out) (accept_index out) n).

Section Row.
Context (cur_candidates cur_retrive_index cur_target : list Z) (num_draft_tokens req_idx : Z).

(** One iteration of the loop over the draft tokens. *)
Definition verify_step (i : Z) (s : verify_vars) : option verify_vars :=
  if rejected s then Some s
  else
    let draft_token := tl_load oob cur_candidates i in
    let target_token := tl_load oob cur_target (i - 1) in
    if draft_token =? target_token then
      let draft_idx := tl_load oob cur_retrive_index i in
      out ← store_predict (v_out s) (last_accepted_idx s) target_token;
      let num_accepted := num_accepted s + 1 in
      out ← store_accept out (req_idx * num_draft_tokens + num_accepted) draft_idx;
      Some (MkVerifyVars out draft_idx num_accepted false)
    else Some (MkVerifyVars (v_out s) (last_accepted_idx s) (num_accepted s) true).
End Row.

Definition verify_tree_greedy_kernel (candidates retrive_index target_predict : list Z)
    (num_draft_tokens pad_num_draft_tokens : Z) (req_idx : Z) (out : verify_out) : option verify_out :=
  let row buf := lanes oob 0 buf (req_idx * num_draft_tokens) pad_num_draft_tokens
                   (fun o => o <? num_draft_tokens) in
  let cur_candidates := row candidates in
  let cur_retrive_index := row retrive_index in
  let cur_target := row target_predict in
  let last_accepted_idx0 := tl_load oob cur_retrive_index 0 in
  out ← store_accept out (req_idx * num_draft_tokens) last_accepted_idx0;
  s ← tl_run (zrange 1 num_draft_tokens)
        (verify_step cur_candidates cur_retrive_index cur_target num_draft_tokens req_idx)
        (MkVerifyVars out last_accepted_idx0 0 false);
  let target_token := tl_load oob cur_target (last_accepted_idx s - num_draft_tokens * req_idx) in
  out ← store_num (v_out s) req_idx (num_accepted s);
  store_predict out (last_accepted_idx s) target_token.

(** [order] is the order in which the programs of the grid run;
    [triton_next_power_of_2] is Triton's function. *)
Definition verify_tree_greedy (triton_next_power_of_2 : Z -> Z) (order : list Z) (out : verify_out)
    (candidates retrive_index target_predict : list Z) (num_draft_tokens : Z) : option verify_out :=
  tl_run order
    (verify_tree_greedy_kernel candidates retrive_index target_predict num_draft_tokens
       (triton_next_power_of_2 num_draft_tokens)) out.

(** ** Layout of the accepted tokens *)

Definition create_extend_after_decode_spec_info (verified_id seq_lens accept_lens : list Z)
    (bs_upper pid : Z) (st : list Z * list Z) : option (list Z * list Z) :=
  let '(positions, new_verified_id) := st in
  let seq_length := tl_load oob seq_lens pid in
  let accept_len := tl_load oob accept_lens pid in
  let accept_len_cumsum := zsum (lanes oob 0 accept_lens 0 bs_upper (fun o => o <? pid)) in
  positions ← tl_store positions bs_upper (fun o => accept_len_cumsum + o)
                (fun o => seq_length - accept_len + o) (fun o => o <? accept_len);
  let accept_len_cumsum := accept_len_cumsum + (accept_len - 1) in
  let verified_id_data := tl_load oob verified_id accept_len_cumsum in
  new_verified_id ← store1 new_verified_id (pid, verified_id_data);
  Some (positions, new_verified_id).

Definition assign_req_to_token_pool (req_pool_indices start_offset end_offset out_cache_loc : list Z)
    (pool_len bs_upper pid : Z) (req_to_token : list Z) : option (list Z) :=
  let BLOCK_SIZE := 32 in
  let kv_start := tl_load oob start_offset pid in
  let kv_end := tl_load oob end_offset pid in
  let token_pool := tl_load oob req_pool_indices pid * pool_len in
  let start := lanes oob 0 start_offset 0 bs_upper (fun o => o <? pid) in
  let end_ := lanes oob 0 end_offset 0 bs_upper (fun o => o <? pid) in
  let out_offset := zsum (zip_with Z.sub end_ start) in
  let num_loop := cdiv (kv_end - kv_start) BLOCK_SIZE in
  tl_for (zrange 0 num_loop)
    (fun i b =>
       tl_store b BLOCK_SIZE
         (fun o => token_pool + (o + kv_start + i * BLOCK_SIZE))
         (fun o => to_int32 (tl_load oob out_cache_loc (out_offset + (o + i * BLOCK_SIZE))))
         (fun o => o + kv_start + i * BLOCK_SIZE <? kv_end)) req_to_token.

(** The mask tensor holds 1 for [True]. *)
Definition align_evict_mask_to_page_size (seq_lens : list Z) (page_size num_draft_tokens block_size bid : Z)
    (evict_mask : list Z) : option (list Z) :=
  let seq_len := tl_load oob seq_lens bid in
  let mask_row := lanes oob 0 evict_mask (bid * num_draft_tokens) block_size
                    (fun o => o <? num_draft_tokens) in
  let num_trues := zsum mask_row in
  let num_false := num_draft_tokens - num_trues in
  let start := (seq_len + num_false - 1) / page_size * page_size - seq_len in
  tl_for (zrange (Z.max start 0) (Z.min (start + page_size) num_draft_tokens))
    (fun i b => store1 b (bid * num_draft_tokens + i, 0)) evict_mask.

Definition get_target_cache_loc (num_accepted_drafts to_free_num_slots out_cache_loc : list Z)
    (num_verify_tokens num_verify_tokens_upper bs_upper bid : Z) (st : list Z * list Z)
    : option (list Z * list Z) :=
  let '(tgt_cache_loc, to_free_slots) := st in
  let accept_len_all := lanes oob undef num_accepted_drafts 0 bs_upper (fun o => o <? bid) in
  let tgt_cache_loc_start := zsum accept_len_all + bid in
  let copy_len := tl_load oob num_accepted_drafts bid + 1 in
  tgt_cache_loc ←
    tl_store tgt_cache_loc num_verify_tokens_upper (fun o => tgt_cache_loc_start + o)
      (fun o => tl_load oob out_cache_loc (bid * num_verify_tokens + o)) (fun o => o <? copy_len);
  let to_free_num_slots_all := lanes oob undef to_free_num_slots 0 bs_upper (fun o => o <? bid) in
  let to_free_num_slots_cur := tl_load oob to_free_num_slots bid in
  let out_cache_loc_start := num_verify_tokens - to_free_num_slots_cur in
  let to_free_slots_start := zsum to_free_num_slots_all in
  to_free_slots ←
    tl_store to_free_slots num_verify_tokens_upper (fun o => to_free_slots_start + o)
      (fun o => tl_load oob out_cache_loc (bid * num_verify_tokens + out_cache_loc_start + o))
      (fun o => o <? to_free_num_slots_cur);
  Some (tgt_cache_loc, to_free_slots).

Definition filter_finished_cache_loc_kernel (tgt_cache_loc num_accepted_drafts num_accepted_drafts_filter : list Z)
    (bs_upper num_verify_tokens_upper bid : Z) (out_cache_loc : list Z) : option (list Z) :=
  let num_accepted_drafts_all := lanes oob undef num_accepted_drafts 0 bs_upper (fun o => o <? bid) in
  let old_start := zsum num_accepted_drafts_all + bid in
  let num_accepted_drafts_filter_all :=
    lanes oob undef num_accepted_drafts_filter 0 bs_upper (fun o => o <? bid) in
  let new_start := zsum num_accepted_drafts_filter_all in
  let copy_len := tl_load oob num_accepted_drafts_filter bid in
  tl_store out_cache_loc num_verify_tokens_upper (fun o => new_start + o)
    (fun o => tl_load oob tgt_cache_loc (old_start + o)) (fun o => o <? copy_len).

(** ** Tensor helpers

    [empty n] is an uninitialised tensor of [n] entries. *)

Context (empty : Z -> list Z).

Definition get_src_tgt_cache_loc (seq_lens out_cache_loc accept_index num_accepted_drafts : list Z)
    (draft_token_num page_size : Z) : res (list Z * list Z * list Z) :=
  let* src_cache_loc := gather out_cache_loc accept_index in
  let tgt_cache_loc := empty (zlen src_cache_loc) in
  let extended_len := map (fun s => s + draft_token_num) seq_lens in
  let keep_len :=
    zip_with Z.min
      (zip_with (fun s a => (s + a + 1 + page_size - 1) / page_size * page_size) seq_lens num_accepted_drafts)
      extended_len in
  let to_free_num_slots := zip_with Z.sub extended_len keep_len in
  Ok (src_cache_loc, tgt_cache_loc, to_free_num_slots).

(** Returns the filter and the updated sequence lengths. *)
Definition create_num_accepted_drafts_filter (num_accepted_drafts unfinished_index_device seq_lens : list Z)
    : res (list Z * list Z) :=
  let num_accepted_drafts_filter := map (fun _ => 0) num_accepted_drafts in
  let* unfinished := gather num_accepted_drafts unfinished_index_device in
  let* num_accepted_drafts_filter :=
    scatter num_accepted_drafts_filter unfinished_index_device (map (fun a => a + 1) unfinished) in
  Ok (num_accepted_drafts_filter, zip_with (fun s a => s + (a + 1)) seq_lens num_accepted_drafts).
End Kernels.

(** ** Specifications *)

(** The number of leading draft tokens that agree with the target's choices. *)
Fixpoint accepted_drafts (drafts targets : list Z) : nat :=
  match drafts, targets with
  | d :: drafts, t :: targets => if d =? t then S (accepted_drafts drafts targets) else 0
  | _, _ => 0
  end.

(** Autoregressive greedy decoding: [n] tokens after [ctx]. *)
Fixpoint greedy (model : list Z -> Z) (ctx : list Z) (n : nat) : list Z :=
  match n with
  | O => []
  | S n => let t := model ctx in t :: greedy model (ctx ++ [t]) n
  end.

(** Row [r] of a tensor with rows of [n]. *)
Definition row (n : Z) (buf : list Z) (r : Z) : list Z :=
  take (Z.to_nat n) (drop (Z.to_nat (r * n)) buf).

Lemma accepted_drafts_le ds ts : (accepted_drafts ds ts <= length ds)%nat.
Proof. revert ts; induction ds as [|d ds IH]; intros [|t ts]; simpl; try lia. case_match; [|lia]. specialize (IH ts). lia. Qed.

Lemma accepted_drafts_prefix ds ts :
  take (accepted_drafts ds ts) ds = take (accepted_drafts ds ts) ts.
Proof.
  revert ts; induction ds as [|d ds IH]; intros [|t ts]; simpl; try done.
  destruct (Z.eqb_spec d t) as [->|]; simpl; [by rewrite IH|done].
Qed.

Lemma accepted_drafts_stop ds ts d t :
  ds !! accepted_drafts ds ts = Some d -> ts !! accepted_drafts ds ts = Some t -> d <> t.
Proof.
  revert ts; induction ds as [|d' ds IH]; intros [|t' ts]; simpl; try done.
  destruct (Z.eqb_spec d' t') as [->|Hne]; simpl; [apply IH|]. by intros [= ->] [= ->].
Qed.

(** What greedy verification emits is what greedy decoding would have produced. *)
Lemma accepted_is_greedy model ctx ds ts :
  length ts = S (length ds) ->
  (forall i t, ts !! i = Some t -> t = model (ctx ++ take i ds)) ->
  take (S (accepted_drafts ds ts)) ts = greedy model ctx (S (accepted_drafts ds ts)).
Proof.
  revert ctx ts. induction ds as [|d ds IH]; intros ctx [|t ts] Hlen Ht; simpl in Hlen; try lia.
  - simpl. rewrite (Ht 0%nat t eq_refl), app_nil_r. done.
  - assert (t = model ctx) as Ht0 by (rewrite (Ht 0%nat t eq_refl); by rewrite app_nil_r).
    simpl accepted_drafts. destruct (Z.eqb_spec d t) as [->|]; [|simpl; by rewrite Ht0].
    change (take (S (S (accepted_drafts ds ts))) (t :: ts)) with (t :: take (S (accepted_drafts ds ts)) ts).
    rewrite (IH (ctx ++ [t]) ts); [|lia|].
    + change (greedy model ctx (S (S (accepted_drafts ds ts))))
        with (model ctx :: greedy model (ctx ++ [model ctx]) (S (accepted_drafts ds ts))). by rewrite <- Ht0.
    + intros i x Hi. rewrite (Ht (S i) x Hi). by rewrite <- app_assoc.
Qed.

Lemma zlen_row n buf r : 0 <= r -> 0 <= n -> r * n + n <= zlen buf -> zlen (row n buf r) = n.
Proof. intros. unfold row, zlen in *. rewrite length_take, length_drop. nia. Qed.

Lemma load_row oob n buf r i x : 0 <= r -> 0 <= i < n -> row n buf r !! Z.to_nat i = Some x ->
  tl_load oob buf (r * n + i) = x.
Proof.
  intros Hr Hi Hx. apply tl_load_in; [nia|]. unfold row in Hx. rewrite lookup_take_lt, lookup_drop in Hx by lia.
  rewrite <- Hx. f_equal. nia.
Qed.

Lemma load_lane oob other buf base n (m : Z -> bool) o : 0 <= o < n -> m o = true ->
  tl_load oob (lanes oob other buf base n m) o = tl_load oob buf (base + o).
Proof.
  intros Ho Hm. apply tl_load_in; [lia|]. unfold lanes. rewrite list_lookup_fmap. unfold zrange.
  rewrite lookup_seqZ_lt by lia. simpl. replace (0 + Z.of_nat (Z.to_nat o)) with o by lia. by rewrite Hm.
Qed.

(** Programs that each overwrite the start of their own row. *)
Lemma rows_run n bs (seg : Z -> list Z) order b b' :
  Permutation order (zrange 0 bs) -> 1 <= n -> bs * n <= zlen b ->
  (forall r, 0 <= r < bs -> zlen (seg r) <= n) ->
  tl_run order (fun r b => Some (splice b (r * n) (seg r))) b = Some b' ->
  (forall r k, 0 <= r < bs -> 0 <= k < zlen (seg r) -> b' !! Z.to_nat (r * n + k) = seg r !! Z.to_nat k)
  /\ (forall r k, 0 <= r < bs -> zlen (seg r) <= k < n -> b' !! Z.to_nat (r * n + k) = b !! Z.to_nat (r * n + k))
  /\ zlen b' = zlen b.
Proof.
  intros Hord Hn Hb Hseg Hrun.
  assert (forall r, r ∈ order <-> 0 <= r < bs) as Hin by (intros r; rewrite Hord; apply elem_of_zrange).
  destruct (splices_run (fun r => r * n) seg (zlen b) (fun r b => Some (splice b (r * n) (seg r))) order b)
    as (b2 & E & Hl & HI & HO); [done|done| | |].
  { intros r Hr%Hin. pose proof (Hseg r Hr). nia. }
  { intros r r' i Hr%Hin Hr'%Hin. pose proof (Hseg r Hr). pose proof (Hseg r' Hr'). unfold in_range. nia. }
  rewrite Hrun in E. injection E as <-. split_and!; [| |done].
  - intros r k Hr Hk. apply HI; [by apply Hin|done].
  - intros r k Hr Hk. pose proof (zlen_nonneg (seg r)). apply HO; [nia|]. intros r' Hr'%Hin.
    pose proof (Hseg r' Hr'). unfold in_range. destruct (decide (r' = r)) as [->|]; [lia|]. nia.
Qed.

(** *** One request of the verification kernel *)

Section VerifyRow.
Context (oob : Z -> Z) (cands retr targ : list Z) (n pad r : Z) (c t : list Z).
Context (Hn : 1 <= n) (Hpad : n <= pad) (Hr : 0 <= r).
Context (Hlc : zlen c = n) (Hlt : zlen t = n).
Context (Hc : forall i x, c !! Z.to_nat i = Some x -> 0 <= i < n -> tl_load oob cands i = x).
Context (Ht : forall i x, t !! Z.to_nat i = Some x -> 0 <= i < n -> tl_load oob targ i = x).
Context (Hx : forall i, 0 <= i < n -> tl_load oob retr i = r * n + i).
Context (P A N : list Z).
Context (HP : r * n + n <= zlen P) (HA : r * n + n <= zlen A) (HN : r < zlen N).

Let base := r * n.
Let step := verify_step oob cands retr targ n r.

(** The buffers after [k] accepted draft tokens. *)
Definition after (k : nat) : verify_out :=
  MkVerifyOut (splice P base (take k t)) (splice A base (zrange base (base + Z.of_nat k + 1))) N.

Lemma step_rejected l s : rejected s = true -> tl_run l step s = Some s.
Proof.
  intros Hs. induction l as [|i l IH]; [done|].
  cbn [tl_run]. assert (step i s = Some s) as -> by (unfold step, verify_step; by rewrite Hs). exact IH.
Qed.

Lemma base_nonneg : 0 <= base.
Proof. unfold base. nia. Qed.

Lemma after_accept k x y : (S k < length c)%nat -> t !! k = Some x ->
  (o ← store_predict (after k) (base + Z.of_nat k) x; store_accept o (base + (Z.of_nat k + 1)) y)
  = (if y =? base + Z.of_nat k + 1 then Some (after (S k)) else
     store_accept (MkVerifyOut (splice P base (take (S k) t)) (accept_index (after k)) N) (base + (Z.of_nat k + 1)) y).
Proof.
  intros Hk Hx'. pose proof base_nonneg. assert (zlen (take k t) = Z.of_nat k) as Hlk.
  { unfold zlen in *. rewrite length_take. lia. }
  unfold store_predict, after. simpl predicts.
  replace (base + Z.of_nat k, x) with (base + zlen (take k t), x) by (by rewrite Hlk).
  rewrite store1_snoc_splice; [|lia|unfold zlen, base in *; lia]. simpl.
  rewrite <- (take_S_r _ _ _ Hx'). destruct (Z.eqb_spec y (base + Z.of_nat k + 1)) as [->|]; [|done].
  unfold store_accept. simpl accept_index.
  assert (zlen (zrange base (base + Z.of_nat k + 1)) = Z.of_nat k + 1) as Hlz by (rewrite zlen_zrange; lia).
  replace (base + (Z.of_nat k + 1)) with (base + zlen (zrange base (base + Z.of_nat k + 1))) at 1 by lia.
  rewrite store1_snoc_splice; [|lia|unfold zlen, base in *; lia]. simpl. do 2 f_equal.
  rewrite <- (zrange_snoc base (base + Z.of_nat k + 1)) by lia. do 2 f_equal. lia.
Qed.

(** The loop accepts drafts until the first disagreement. *)
Lemma verify_loop k : (k < length c)%nat ->
  let acc := (k + accepted_drafts (drop (S k) c) (drop k t))%nat in
  exists b, tl_run (zrange (Z.of_nat k + 1) n) step
      (MkVerifyVars (after k) (base + Z.of_nat k) (Z.of_nat k) false)
    = Some (MkVerifyVars (after acc) (base + Z.of_nat acc) (Z.of_nat acc) b).
Proof.
  cbn zeta. remember (length c - k)%nat as d eqn:Hd. revert k Hd.
  induction d as [|d IH]; intros k Hd Hk; [lia|].
  destruct (decide (S k = length c)) as [He|Hne].
  { rewrite zrange_empty by (unfold zlen in *; lia). rewrite (drop_ge c) by lia. simpl.
    rewrite Nat.add_0_r. by exists false. }
  rewrite (zrange_cons (Z.of_nat k + 1)) by (unfold zlen in *; lia). cbn [tl_run]. unfold step at 2, verify_step.
  cbn [rejected v_out last_accepted_idx num_accepted].
  destruct (lookup_lt_is_Some_2 c (S k)) as [d0 Hd0]; [lia|].
  destruct (lookup_lt_is_Some_2 t k) as [t0 Ht0]; [unfold zlen in *; lia|].
  rewrite (Hc (Z.of_nat k + 1) d0); [|rewrite <- Hd0; f_equal; lia|unfold zlen in *; lia].
  rewrite (Ht (Z.of_nat k + 1 - 1) t0); [|rewrite <- Ht0; f_equal; lia|unfold zlen in *; lia].
  rewrite (drop_S c d0 (S k) Hd0), (drop_S t t0 k Ht0). simpl accepted_drafts.
  destruct (Z.eqb_spec d0 t0) as [->|].
  - rewrite Hx by (unfold zlen in *; lia). fold base.
    assert ((o ← store_predict (after k) (base + Z.of_nat k) t0;
             store_accept o (base + (Z.of_nat k + 1)) (base + (Z.of_nat k + 1))) = Some (after (S k))) as HS.
    { rewrite after_accept by (done || lia). rewrite (proj2 (Z.eqb_eq _ _)) by lia. done. }
    destruct (store_predict (after k) (base + Z.of_nat k) t0) as [o|]; [|done]. simpl in HS |- *.
    fold base. rewrite HS. simpl.
    destruct (IH (S k) ltac:(lia) ltac:(lia)) as [b IHb]. exists b.
    replace (Z.of_nat (S k) + 1) with (Z.of_nat k + 1 + 1) in IHb by lia.
    replace (Z.of_nat (S k)) with (Z.of_nat k + 1) in IHb by lia.
    rewrite Nat.add_succ_r. exact IHb.
  - exists true. simpl. rewrite step_rejected by done. by rewrite Nat.add_0_r.
Qed.
End VerifyRow.

(** The drafts of request [r] that are accepted. *)
Definition accepted_of (n : Z) (candidates target_predict : list Z) (r : Z) : nat :=
  accepted_drafts (drop 1 (row n candidates r)) (row n target_predict r).

Section VerifyKernel.
Context (oob : Z -> Z) (candidates retrive_index target_predict : list Z) (n pad bs : Z).
Context (Hn : 1 <= n) (Hpad : n <= pad) (Hbs : 0 <= bs).
Context (Hlc : zlen candidates = bs * n) (Hlt : zlen target_predict = bs * n).
Context (Hretr : retrive_index = zrange 0 (bs * n)).

Abbreviation acc r := (accepted_of n candidates target_predict r).

Lemma acc_bound r : 0 <= r < bs -> Z.of_nat (acc r) < n.
Proof.
  intros Hr. unfold accepted_of. pose proof (accepted_drafts_le (drop 1 (row n candidates r)) (row n target_predict r)) as H.
  rewrite length_drop in H. pose proof (zlen_row n candidates r) as Hl. unfold zlen in *. nia.
Qed.

Definition predict_seg (r : Z) : list Z := take (S (acc r)) (row n target_predict r).
Definition accept_seg (r : Z) : list Z := zrange (r * n) (r * n + Z.of_nat (acc r) + 1).
Definition num_seg (r : Z) : list Z := [Z.of_nat (acc r)].

Lemma zlen_predict_seg r : 0 <= r < bs -> zlen (predict_seg r) = Z.of_nat (acc r) + 1.
Proof.
  intros Hr. pose proof (acc_bound r Hr). unfold predict_seg, zlen. rewrite length_take.
  pose proof (zlen_row n target_predict r) as Hl. unfold zlen in *. nia.
Qed.

Lemma verify_kernel_row r out : 0 <= r < bs ->
  bs * n <= zlen (predicts out) -> bs * n <= zlen (accept_index out) -> bs <= zlen (accept_token_num out) ->
  verify_tree_greedy_kernel oob candidates retrive_index target_predict n pad r out
  = Some (MkVerifyOut (splice (predicts out) (r * n) (predict_seg r))
            (splice (accept_index out) (r * n) (accept_seg r)) (splice (accept_token_num out) r (num_seg r))).
Proof.
  intros Hr HP HA HN. set (c := row n candidates r). set (t := row n target_predict r).
  assert (r * n + n <= bs * n) as Hrn by nia. assert (0 <= r * n) by nia.
  assert (zlen c = n /\ zlen t = n) as [Hc Ht] by (split; apply zlen_row; lia).
  unfold verify_tree_greedy_kernel. cbv zeta.
  set (lc := lanes oob 0 candidates (r * n) pad (fun o => o <? n)).
  set (lr := lanes oob 0 retrive_index (r * n) pad (fun o => o <? n)).
  set (lt := lanes oob 0 target_predict (r * n) pad (fun o => o <? n)).
  assert (forall buf i, 0 <= i < n -> tl_load oob (lanes oob 0 buf (r * n) pad (fun o => o <? n)) i
    = tl_load oob buf (r * n + i)) as Hlane.
  { intros buf i Hi. apply load_lane; [lia|]. apply Z.ltb_lt. lia. }
  assert (forall i x, c !! Z.to_nat i = Some x -> 0 <= i < n -> tl_load oob lc i = x) as Hlc'.
  { intros i x Hi Hb. unfold lc. rewrite Hlane by done. by apply load_row; [lia|..]. }
  assert (forall i x, t !! Z.to_nat i = Some x -> 0 <= i < n -> tl_load oob lt i = x) as Hlt'.
  { intros i x Hi Hb. unfold lt. rewrite Hlane by done. by apply load_row; [lia|..]. }
  assert (forall i, 0 <= i < n -> tl_load oob lr i = r * n + i) as Hlr.
  { intros i Hi. unfold lr. rewrite Hlane, Hretr by done. apply tl_load_in; [lia|]. unfold zrange.
    rewrite lookup_seqZ_lt by lia. f_equal. lia. }
  destruct out as [P A N]. simpl in HP, HA, HN.
  rewrite (Hlr 0) by lia. rewrite Z.add_0_r.
  assert (store_accept (MkVerifyOut P A N) (r * n) (r * n) = Some (after n r t P A N 0)) as ->.
  { unfold store_accept, after. simpl. rewrite splice_nil.
    pose proof (store1_snoc_splice A (r * n) [] (r * n)) as Hs. rewrite splice_nil in Hs. simpl in Hs.
    rewrite Z.add_0_r in Hs. rewrite Hs by (change (zlen []) with 0; lia). simpl. do 3 f_equal.
    rewrite zrange_cons by lia. by rewrite zrange_empty by lia. }
  destruct (verify_loop oob lc lr lt n r c t ltac:(lia) ltac:(lia) Hc Ht Hlc' Hlt' Hlr P A N ltac:(lia) ltac:(lia) 0)
    as [b Hb]; [unfold zlen in *; lia|].
  change (Z.of_nat 0) with 0 in Hb. rewrite Z.add_0_r, Z.add_0_l, drop_0 in Hb. cbn [mbind option_bind]. rewrite Hb.
  cbn [mbind option_bind]. fold c t. change (accepted_drafts (drop 1 c) t) with (acc r).
  rewrite Nat.add_0_l. cbn [last_accepted_idx v_out num_accepted]. pose proof (acc_bound r Hr) as Hacc.
  destruct (lookup_lt_is_Some_2 t (acc r)) as [x Hx]; [unfold zlen in *; lia|].
  rewrite (Hlt' (r * n + Z.of_nat (acc r) - n * r) x); [|rewrite <- Hx; f_equal; lia|lia].
  unfold store_num, after. simpl accept_token_num.
  pose proof (store1_snoc_splice N r [] (Z.of_nat (acc r))) as Hs. rewrite splice_nil in Hs. simpl in Hs.
  rewrite Z.add_0_r in Hs. rewrite Hs by (change (zlen []) with 0; lia). cbn [mbind option_bind].
  unfold store_predict. cbn [predicts accept_index accept_token_num].
  assert (zlen (take (acc r) t) = Z.of_nat (acc r)) as Hl by (unfold zlen in *; rewrite length_take; lia).
  replace (r * n + Z.of_nat (acc r), x) with (r * n + zlen (take (acc r) t), x) by (by rewrite Hl).
  rewrite store1_snoc_splice by (unfold zlen in *; lia). cbn [mbind option_bind].
  rewrite <- (take_S_r _ _ _ Hx). done.
Qed.

(** The three buffers evolve independently. *)
Lemma verify_run order out : Forall (fun r => 0 <= r < bs) order ->
  bs * n <= zlen (predicts out) -> bs * n <= zlen (accept_index out) -> bs <= zlen (accept_token_num out) ->
  exists out', tl_run order (verify_tree_greedy_kernel oob candidates retrive_index target_predict n pad) out = Some out'
    /\ tl_run order (fun r b => Some (splice b (r * n) (predict_seg r))) (predicts out) = Some (predicts out')
    /\ tl_run order (fun r b => Some (splice b (r * n) (accept_seg r))) (accept_index out) = Some (accept_index out')
    /\ tl_run order (fun r b => Some (splice b (r * 1) (num_seg r))) (accept_token_num out) = Some (accept_token_num out').
Proof.
  intros Hall. revert out. induction Hall as [|r order Hr Hall IH]; intros out HP HA HN; cbn [tl_run].
  { by exists out. }
  pose proof (acc_bound r Hr). rewrite (verify_kernel_row r out Hr HP HA HN), Z.mul_1_r. cbn [mbind option_bind].
  apply IH; cbn [predicts accept_index accept_token_num]; rewrite zlen_splice; try done; try lia; try nia.
  - rewrite zlen_predict_seg by done. nia.
  - unfold accept_seg. rewrite zlen_zrange by lia. nia.
  - unfold num_seg. change (zlen [Z.of_nat (acc r)]) with 1. lia.
Qed.

(** Every program order writes the accepted prefix of every request and nothing else. *)
Lemma verify_grid order out : Permutation order (zrange 0 bs) ->
  bs * n <= zlen (predicts out) -> zlen (accept_index out) = bs * n -> zlen (accept_token_num out) = bs ->
  exists out', tl_run order (verify_tree_greedy_kernel oob candidates retrive_index target_predict n pad) out = Some out'
    /\ zlen (accept_index out') = bs * n /\ zlen (accept_token_num out') = bs
    /\ forall r, 0 <= r < bs ->
      accept_token_num out' !! Z.to_nat r = Some (Z.of_nat (acc r))
      /\ (forall k, 0 <= k < n -> accept_index out' !! Z.to_nat (r * n + k)
            = if k <=? Z.of_nat (acc r) then Some (r * n + k) else accept_index out !! Z.to_nat (r * n + k))
      /\ (forall k, 0 <= k <= Z.of_nat (acc r) ->
            predicts out' !! Z.to_nat (r * n + k) = row n target_predict r !! Z.to_nat k).
Proof.
  intros Hord HP HA HN.
  assert (Forall (fun r => 0 <= r < bs) order) as Hall.
  { apply Forall_forall. intros r. rewrite Hord. apply elem_of_zrange. }
  destruct (verify_run order out Hall) as (out' & Hrun & HrP & HrA & HrN); [lia..|].
  assert (forall r, 0 <= r < bs -> zlen (accept_seg r) = Z.of_nat (acc r) + 1) as Hla
    by (intros; unfold accept_seg; rewrite zlen_zrange; lia).
  apply (rows_run n bs predict_seg order _ _ Hord) in HrP as (HinP & _ & _); [|lia|lia|].
  2:{ intros r Hr. rewrite zlen_predict_seg by done. pose proof (acc_bound r Hr). lia. }
  apply (rows_run n bs accept_seg order _ _ Hord) in HrA as (HinA & HoutA & HlA); [|lia|lia|].
  2:{ intros r Hr. rewrite Hla by done. pose proof (acc_bound r Hr). lia. }
  apply (rows_run 1 bs num_seg order _ _ Hord) in HrN as (HinN & _ & HlN); [|lia|lia|done].
  exists out'. split_and!; [done|lia|lia|]. intros r Hr. split_and!.
  - specialize (HinN r 0 Hr). rewrite Z.mul_1_r, Z.add_0_r in HinN. by apply HinN.
  - intros k Hk. destruct (Z.leb_spec k (Z.of_nat (acc r))).
    + rewrite (HinA r k Hr) by (rewrite Hla by done; lia). unfold accept_seg, zrange.
      rewrite lookup_seqZ_lt by lia. f_equal. lia.
    + apply HoutA; [done|]. rewrite Hla by done. lia.
  - intros k Hk. rewrite (HinP r k Hr) by (rewrite zlen_predict_seg by done; lia). unfold predict_seg.
    apply lookup_take_lt. lia.
Qed.
End VerifyKernel.

(** ** Layout kernels *)

(** *** Which kernels pack *)

Section Packed.
Context (oob : Z -> Z).

Lemma sum_before (l : list Z) i n up : l !! i = Some n -> zlen l <= up ->
  zsum (lanes oob 0 l 0 up (fun o => o <? Z.of_nat i)) = zsum (take i l).
Proof.
  intros Hi Hup. apply lookup_lt_Some in Hi. rewrite sum_lanes_before by (unfold zlen in *; lia). by rewrite Nat2Z.id.
Qed.

Lemma store_cell b p v : 0 <= p < zlen b -> store1 b (p, v) = Some (splice b p [v]).
Proof.
  intros Hp. pose proof (store1_snoc_splice b p [] v) as H. rewrite splice_nil in H. simpl in H.
  rewrite Z.add_0_r in H. apply H; change (zlen []) with 0; lia.
Qed.

(** One value per program. *)
Lemma cells_grid (vs : list Z) body order out :
  (forall i v b, vs !! i = Some v -> zlen b = zlen vs -> body (Z.of_nat i) b = store1 b (Z.of_nat i, v)) ->
  Permutation order (zrange 0 (zlen vs)) -> zlen out = zlen vs -> tl_run order body out = Some vs.
Proof.
  intros Hb Hord Hout. rewrite tl_run_tl_for.
  assert (forall l : list Z, concat (map (fun v => [v]) l) = l) as Hc by (intros l; induction l; simpl; congruence).
  assert (zlen (map (fun v : Z => [v]) vs) = zlen vs) as Hl by apply zlen_map.
  transitivity (Some (concat (map (fun v => [v]) vs))); [|by rewrite Hc].
  apply grid_launch; [|by rewrite Hl|by rewrite Hc].
  intros i s b Hs Hlen. rewrite list_lookup_fmap in Hs. destruct (vs !! i) as [v|] eqn:Hi; [|done].
  injection Hs as <-. rewrite Hc in Hlen. pose proof (lookup_lt_Some _ _ _ Hi).
  rewrite (Hb i v b Hi) by (unfold zlen; lia). rewrite store_cell by (unfold zlen; lia).
  do 2 f_equal. unfold seg_start. rewrite <- fmap_take. change (fmap (fun v : Z => [v])) with (map (fun v : Z => [v])).
  rewrite Hc, length_take. lia.
Qed.

Lemma order_index order n p : Permutation order (zrange 0 n) -> p ∈ order -> 0 <= p < n.
Proof. intros Hord Hp. rewrite Hord in Hp. by apply elem_of_zrange. Qed.

Lemma extend_after_decode_grid verified_id seq_lens accept_lens up order positions ids :
  zlen seq_lens = zlen accept_lens -> zlen accept_lens <= up ->
  Forall (fun a => 1 <= a <= up) accept_lens -> zlen verified_id = zsum accept_lens ->
  Permutation order (zrange 0 (zlen accept_lens)) ->
  zlen positions = zsum accept_lens -> zlen ids = zlen accept_lens ->
  tl_run order (create_extend_after_decode_spec_info oob verified_id seq_lens accept_lens up) (positions, ids)
  = Some (packed accept_lens (fun i o => tl_load oob seq_lens i - tl_load oob accept_lens i + o),
          imap (fun i _ => tl_load oob verified_id (zsum (take (S i) accept_lens) - 1)) accept_lens).
Proof.
  intros Hls Hup Hal Hver Hord Hpos Hids.
  set (vs := imap (fun i _ => tl_load oob verified_id (zsum (take (S i) accept_lens) - 1)) accept_lens).
  set (before := fun p => zsum (lanes oob 0 accept_lens 0 up (fun o => o <? p))).
  eapply (tl_run_pair order
    (fun p b => tl_store b up (fun o => before p + o)
       (fun o => tl_load oob seq_lens p - tl_load oob accept_lens p + o) (fun o => o <? tl_load oob accept_lens p))
    (fun p b => store1 b (p, tl_load oob verified_id (before p + (tl_load oob accept_lens p - 1))))).
  - done.
  - apply pack_grid with up; [eapply Forall_impl; [exact Hal|simpl; lia]..| |done|done].
    intros i n b Hi. rewrite (load_lookup oob _ _ _ Hi). unfold before. by rewrite (sum_before _ _ _ up Hi).
  - assert (zlen vs = zlen accept_lens) as Hv by (unfold vs, zlen; by rewrite length_imap).
    apply cells_grid; [|by rewrite Hv|by rewrite Hv].
    intros i v b Hv' _. unfold vs in Hv'. rewrite list_lookup_imap in Hv'.
    destruct (accept_lens !! i) as [n|] eqn:Hi; [|done]. injection Hv' as <-. unfold before.
    rewrite (sum_before _ _ _ up Hi Hup), (load_lookup oob _ _ _ Hi), (zsum_take_next _ _ _ Hi). do 3 f_equal. lia.
Qed.

Lemma target_cache_loc_grid num_accepted free_num out_loc n nup up order tgt free :
  zlen num_accepted = zlen free_num -> zlen num_accepted <= up -> n <= nup ->
  Forall (fun a => 0 <= a < n) num_accepted -> Forall (fun a => 0 <= a <= n) free_num ->
  Permutation order (zrange 0 (zlen num_accepted)) ->
  zlen tgt = zsum (map (fun a => a + 1) num_accepted) -> zlen free = zsum free_num ->
  tl_run order (get_target_cache_loc oob 0 num_accepted free_num out_loc n nup up) (tgt, free)
  = Some (packed (map (fun a => a + 1) num_accepted) (fun b o => tl_load oob out_loc (b * n + o)),
          packed free_num (fun b o => tl_load oob out_loc (b * n + (n - tl_load oob free_num b) + o))).
Proof.
  intros Hl Hup Hn Ha Hf Hord Ht Hfr.
  eapply (tl_run_pair order
    (fun p b => tl_store b nup
       (fun o => zsum (lanes oob 0 num_accepted 0 up (fun o => o <? p)) + p + o)
       (fun o => tl_load oob out_loc (p * n + o)) (fun o => o <? tl_load oob num_accepted p + 1))
    (fun p b => tl_store b nup
       (fun o => zsum (lanes oob 0 free_num 0 up (fun o => o <? p)) + o)
       (fun o => tl_load oob out_loc (p * n + (n - tl_load oob free_num p) + o))
       (fun o => o <? tl_load oob free_num p))).
  - done.
  - apply pack_grid with nup; [| | |by rewrite zlen_map|done].
    + apply Forall_map. eapply Forall_impl; [exact Ha|simpl; lia].
    + apply Forall_map. eapply Forall_impl; [exact Ha|simpl; lia].
    + intros i m b Hi. rewrite list_lookup_fmap in Hi. destruct (num_accepted !! i) as [a|] eqn:Hai; [|done].
      injection Hi as <-. rewrite (load_lookup oob _ _ _ Hai), (sum_before _ _ _ up Hai Hup).
      apply tl_store_ext; [|done|done]. intros o. f_equal. clear -Hai. revert i Hai.
      induction num_accepted as [|x l IH]; intros [|i] Hi; try done.
      rewrite firstn_cons. simpl map. rewrite firstn_cons, !zsum_cons, Nat2Z.inj_succ.
      specialize (IH i Hi). lia.
  - apply pack_grid with nup; [eapply Forall_impl; [exact Hf|simpl; lia]..| |by rewrite <- Hl|done].
    intros i m b Hi. by rewrite (load_lookup oob _ _ _ Hi), (sum_before _ _ _ up Hi ltac:(lia)).
Qed.

Lemma filter_finished_grid tgt num_accepted filt nup up order out :
  zlen num_accepted = zlen filt -> zlen filt <= up -> Forall (fun a => 0 <= a <= nup) filt ->
  Permutation order (zrange 0 (zlen filt)) -> zlen out = zsum filt ->
  tl_run order (filter_finished_cache_loc_kernel oob 0 tgt num_accepted filt up nup) out
  = Some (packed filt (fun b o => tl_load oob tgt
            (zsum (lanes oob 0 num_accepted 0 up (fun o => o <? b)) + b + o))).
Proof.
  intros Hl Hup Hf Hord Hout.
  apply pack_grid with nup; [eapply Forall_impl; [exact Hf|simpl; lia]..| |done|done].
  intros i m b Hi. unfold filter_finished_cache_loc_kernel.
  by rewrite (load_lookup oob _ _ _ Hi), (sum_before _ _ _ up Hi Hup).
Qed.
End Packed.

(** *** Programs that update their own row *)

Lemma row_splice n b r r' l : 0 <= n -> 0 <= r -> 0 <= r' -> zlen l = n -> r * n + n <= zlen b ->
  r' * n + n <= zlen b -> row n (splice b (r * n) l) r' = if decide (r' = r) then l else row n b r'.
Proof.
  intros Hn Hr Hr' Hl Hb Hb'. apply list_eq_same_length with (Z.to_nat n).
  - case_decide; [unfold zlen in Hl; lia|]. pose proof (zlen_row n b r' Hr' Hn Hb') as H1. unfold zlen in H1. lia.
  - pose proof (zlen_row n (splice b (r * n) l) r' Hr' Hn) as H. rewrite zlen_splice in H by lia.
    specialize (H Hb'). unfold zlen in H. lia.
  - intros k x y Hk. unfold row at 1. rewrite lookup_take_lt, lookup_drop by lia.
    replace (r * n) with (Z.of_nat (Z.to_nat (r * n))) by nia.
    rewrite splice_lookup by (unfold zlen in *; nia).
    destruct (decide (r' = r)) as [Hrr|Hrr]; [subst r'|]; case_decide; intros Hx Hy.
    + replace (Z.to_nat (r * n) + k - Z.to_nat (r * n))%nat with k in Hx by lia. congruence.
    + unfold zlen in *. lia.
    + unfold zlen in *. nia.
    + unfold row in Hy. rewrite lookup_take_lt, lookup_drop in Hy by lia. congruence.
Qed.

Lemma rows_local_run n bs (f : Z -> list Z -> list Z) body order b :
  0 <= n -> NoDup order -> Forall (fun r => 0 <= r < bs) order -> zlen b = bs * n ->
  (forall r l, zlen l = n -> zlen (f r l) = n) ->
  (forall r b, r ∈ order -> zlen b = bs * n -> body r b = Some (splice b (r * n) (f r (row n b r)))) ->
  exists b', tl_run order body b = Some b' /\ zlen b' = bs * n
    /\ forall r, 0 <= r < bs -> row n b' r = if decide (r ∈ order) then f r (row n b r) else row n b r.
Proof.
  intros Hn Hnd Hall Hb Hf. revert b Hb. induction Hall as [|p order Hp Hall IH]; intros b Hb Hbody.
  { exists b. split_and!; [done|done|]. intros r Hr. rewrite decide_False by set_solver. done. }
  apply NoDup_cons in Hnd as [Hni Hnd']. cbn [tl_run]. rewrite Hbody by (done || set_solver). cbn [mbind option_bind].
  assert (zlen (row n b p) = n) as Hrp by (apply zlen_row; nia).
  assert (zlen (f p (row n b p)) = n) as Hfp by by apply Hf.
  destruct (IH Hnd' (splice b (p * n) (f p (row n b p)))) as (b' & Hr & Hl & Hrows).
  - rewrite zlen_splice; nia.
  - intros; apply Hbody; [set_solver|done].
  - exists b'. split_and!; [done|done|]. intros r Hrr. rewrite Hrows by done.
    rewrite !row_splice by nia. destruct (decide (r = p)) as [He|He]; [subst r|]; repeat case_decide; done || set_solver.
Qed.

(** *** The eviction mask *)

Section Align.
Context (oob : Z -> Z) (seq_lens : list Z) (ps n block bs : Z).
Context (Hps : 1 <= ps) (Hn : 1 <= n) (Hblock : n <= block).

(** The mask row after alignment. *)
Definition align_row (s : Z) (l : list Z) : list Z :=
  let start := (s + (n - zsum l) - 1) / ps * ps - s in
  map (fun i => if (start <=? i) && (i <? start + ps) then 0 else nth (Z.to_nat i) l 0) (zrange 0 n).

Lemma lanes_row b r : 0 <= r -> r * n + n <= zlen b ->
  zsum (lanes oob 0 b (r * n) block (fun o => o <? n)) = zsum (row n b r).
Proof.
  intros Hr Hb. unfold lanes. rewrite (zrange_app 0 n block), map_app, zsum_app by lia.
  rewrite (map_ext_in _ (fun _ => 0) (zrange n block)).
  2:{ intros o Ho%list_elem_of_In. apply elem_of_zrange in Ho. by destruct (Z.ltb_spec o n); [lia|]. }
  rewrite zsum_zeros, Z.add_0_r. f_equal. unfold row. rewrite <- (tl_load_slice oob) by nia.
  apply map_ext_in. intros o Ho%list_elem_of_In. apply elem_of_zrange in Ho. by destruct (Z.ltb_spec o n); [|lia].
Qed.

Lemma tl_for_store1 l (g h : Z -> Z) b :
  tl_for l (fun i b => store1 b (g i, h i)) b = store_list b (map (fun i => (g i, h i)) l).
Proof. revert b. induction l as [|i l IH]; intros b; [done|]. simpl. destruct (store1 b _); simpl; [apply IH|done]. Qed.

Lemma store_zeros b base lo hi : 0 <= base + lo -> base + hi <= zlen b ->
  exists b', store_list b (map (fun i => (base + i, 0)) (zrange lo hi)) = Some b' /\ zlen b' = zlen b
    /\ forall p, (p < length b)%nat ->
         b' !! p = if decide (base + lo <= Z.of_nat p < base + hi) then Some 0 else b !! p.
Proof.
  intros Hlo Hhi. destruct (Z.le_gt_cases lo hi) as [Hle|Hgt].
  - rewrite store_range by lia. eexists. split; [done|].
    assert (zlen (map (fun _ => 0) (zrange lo hi)) = hi - lo) as Hz by (rewrite zlen_map, zlen_zrange; lia).
    split; [rewrite zlen_splice; lia|]. intros p Hp.
    replace (base + lo) with (Z.of_nat (Z.to_nat (base + lo))) at 1 by lia.
    rewrite splice_lookup by (unfold zlen in *; lia). unfold zlen in Hz.
    repeat case_decide; try lia; [|done].
    rewrite list_lookup_fmap. unfold zrange. rewrite lookup_seqZ_lt by lia. done.
  - rewrite zrange_empty by lia. exists b. split_and!; [done..|]. intros p Hp. rewrite decide_False by lia. done.
Qed.

Lemma align_row_body r b s : 0 <= r -> seq_lens !! Z.to_nat r = Some s -> r * n + n <= zlen b ->
  align_evict_mask_to_page_size oob seq_lens ps n block r b = Some (splice b (r * n) (align_row s (row n b r))).
Proof.
  intros Hr Hs Hb. unfold align_evict_mask_to_page_size. cbv zeta.
  rewrite (tl_load_in _ _ _ _ Hr Hs), lanes_row by lia.
  pose proof (zlen_row n b r Hr ltac:(lia) Hb) as Hlr.
  set (l := row n b r) in *. unfold align_row.
  set (start := (s + (n - zsum l) - 1) / ps * ps - s).
  set (lo := Z.max start 0). set (hi := Z.min (start + ps) n).
  assert (forall j, 0 <= j < n -> l !! Z.to_nat j = b !! Z.to_nat (r * n + j)) as Hl.
  { intros j Hj. unfold l, row. rewrite lookup_take_lt, lookup_drop by lia. f_equal. nia. }
  rewrite (tl_for_store1 _ (fun i => r * n + i) (fun _ => 0)).
  destruct (store_zeros b (r * n) lo hi) as (b' & -> & Hlb & Hb'); [unfold lo; nia|unfold hi; nia|].
  f_equal. apply list_eq_same_length with (length b); [|unfold zlen in Hlb; lia|].
  { pose proof (zlen_splice b (r * n) (map (fun i => if (start <=? i) && (i <? start + ps) then 0 else nth (Z.to_nat i) l 0) (zrange 0 n))) as H.
    rewrite zlen_map, zlen_zrange in H by lia. unfold zlen in *. specialize (H ltac:(nia) ltac:(nia)). lia. }
  intros p x y Hp Hx Hy. rewrite Hb' in Hx by done.
  replace (r * n) with (Z.of_nat (Z.to_nat (r * n))) in Hy at 1 by nia.
  assert (length (map (fun i => if (start <=? i) && (i <? start + ps) then 0 else nth (Z.to_nat i) l 0) (zrange 0 n)) = Z.to_nat n) as Hln.
  { rewrite length_map. unfold zrange. rewrite length_seqZ. lia. }
  rewrite splice_lookup in Hy by (unfold zlen in *; nia). rewrite Hln in Hy. case_decide as Hin.
  - rewrite list_lookup_fmap in Hy. unfold zrange in Hy. rewrite lookup_seqZ_lt in Hy by lia. simpl in Hy.
    injection Hy as <-. set (j := Z.of_nat (p - Z.to_nat (r * n))). replace (0 + j) with j by lia.
    assert (Z.of_nat p = r * n + j) as Hpj by (unfold j; nia).
    assert (0 <= j < n) as Hj by (unfold j; nia).
    assert (nth (Z.to_nat j) l 0 = default 0 (b !! p)) as ->.
    { rewrite nth_lookup, Hl by done. do 2 f_equal. lia. }
    destruct (Z.leb_spec start j), (Z.ltb_spec j (start + ps)); simpl; case_decide; unfold lo, hi in *; try lia;
      try congruence; by rewrite Hx.
  - case_decide; [unfold lo, hi in *; nia|]. congruence.
Qed.
End Align.

(** *** Writing the request table *)

Lemma zsum_sub (l k : list Z) : length l = length k -> zsum (zip_with Z.sub l k) = zsum l - zsum k.
Proof.
  revert k. induction l as [|x l IH]; intros [|y k] Hl; simpl in Hl; try lia; [done|].
  simpl zip_with. rewrite !zsum_cons, IH by lia. lia.
Qed.

Section Assign.
Context (oob : Z -> Z) (idx st en out_loc : list Z) (pool_len up rows : Z).
Context (Hlen1 : length st = length idx) (Hlen2 : length en = length idx) (Hup : zlen idx <= up).

Definition ext : list Z := zip_with Z.sub en st.

Lemma assign_body p i s e b : idx !! p = Some i -> st !! p = Some s -> en !! p = Some e ->
  0 <= i < rows -> 0 <= s <= e -> e <= pool_len -> zlen b = rows * pool_len ->
  0 <= zsum (take p ext) -> zsum (take p ext) + (e - s) <= zlen out_loc ->
  assign_req_to_token_pool oob idx st en out_loc pool_len up (Z.of_nat p) b
  = Some (splice b (i * pool_len + s) (map to_int32 (take (Z.to_nat (e - s)) (drop (Z.to_nat (zsum (take p ext))) out_loc)))).
Proof.
  intros Hi Hs He Hr Hse Hpl Hb H0 H1. unfold assign_req_to_token_pool. cbv zeta.
  pose proof (lookup_lt_Some _ _ _ Hi) as Hp.
  rewrite (load_lookup oob _ _ _ Hi), (load_lookup oob _ _ _ Hs), (load_lookup oob _ _ _ He).
  rewrite zsum_sub by (unfold lanes; by rewrite !length_map).
  rewrite (sum_before oob _ _ _ up He), (sum_before oob _ _ _ up Hs) by (unfold zlen in *; lia).
  assert (zsum (take p en) - zsum (take p st) = zsum (take p ext)) as ->.
  { unfold ext. rewrite zip_with_take. rewrite zsum_sub; [done|]. rewrite !length_take. lia. }
  rewrite <- (tl_load_slice oob), map_map by lia.
  apply (tl_for_blocks _ _ _ _ _ (fun o => to_int32 (tl_load oob out_loc (zsum (take p ext) + o)))).
  - intros; lia.
  - done.
  - intros j o. destruct (Z.ltb_spec (o + s + j * 32) e), (Z.ltb_spec (o + j * 32) (e - s)); lia.
  - nia.
  - pose proof (cdiv_covers (e - s) 32). lia.
  - lia.
  - nia.
Qed.

Context (Hidx : NoDup idx) (Hrows : Forall (fun i => 0 <= i < rows) idx).
Context (Hrange : forall p s e, st !! p = Some s -> en !! p = Some e -> 0 <= s <= e /\ e <= pool_len).
Context (Hout : zlen out_loc = zsum ext).

Lemma ext_lookup p : (p < length idx)%nat ->
  exists i s e, idx !! p = Some i /\ st !! p = Some s /\ en !! p = Some e /\ ext !! p = Some (e - s)
    /\ 0 <= i < rows /\ 0 <= s <= e /\ e <= pool_len.
Proof.
  intros Hp. destruct (lookup_lt_is_Some_2 idx p Hp) as [i Hi].
  destruct (lookup_lt_is_Some_2 st p) as [s Hs]; [lia|]. destruct (lookup_lt_is_Some_2 en p) as [e He]; [lia|].
  destruct (Hrange p s e Hs He). rewrite Forall_lookup in Hrows. pose proof (Hrows p i Hi).
  exists i, s, e. split_and!; try done; try lia. unfold ext. rewrite lookup_zip_with, He, Hs. done.
Qed.

Lemma ext_prefix p : (p < length idx)%nat ->
  0 <= zsum (take p ext) /\ zsum (take (S p) ext) <= zlen out_loc.
Proof.
  intros Hp. assert (Forall (fun x => 0 <= x) ext) as Hnn.
  { apply Forall_lookup. intros q x Hq.
    assert (q < length idx)%nat as Hql.
    { apply lookup_lt_Some in Hq. unfold ext in Hq. rewrite length_zip_with in Hq. lia. }
    destruct (ext_lookup q Hql) as (i & s & e & _ & _ & _ & Hx & _ & ? & _). rewrite Hq in Hx. injection Hx as ->. lia. }
  split; [apply zsum_nonneg; by apply Forall_take|].
  rewrite Hout. rewrite <- (take_drop (S p) ext) at 2. rewrite zsum_app.
  pose proof (zsum_nonneg (drop (S p) ext) ltac:(by apply Forall_drop)). lia.
Qed.

Definition assign_start (q : Z) : Z := tl_load oob idx q * pool_len + tl_load oob st q.
Definition assign_seg (q : Z) : list Z :=
  map to_int32
    (take (Z.to_nat (tl_load oob en q - tl_load oob st q)) (drop (Z.to_nat (zsum (take (Z.to_nat q) ext))) out_loc)).

Lemma assign_facts q : 0 <= q < zlen idx -> exists p i s e, q = Z.of_nat p /\ idx !! p = Some i
    /\ st !! p = Some s /\ en !! p = Some e /\ 0 <= i < rows /\ 0 <= s <= e /\ e <= pool_len
    /\ assign_start q = i * pool_len + s /\ zlen (assign_seg q) = e - s
    /\ assign_seg q = map to_int32 (take (Z.to_nat (e - s)) (drop (Z.to_nat (zsum (take p ext))) out_loc))
    /\ 0 <= zsum (take p ext) /\ zsum (take p ext) + (e - s) <= zlen out_loc.
Proof.
  intros Hq. unfold zlen in Hq.
  destruct (ext_lookup (Z.to_nat q) ltac:(lia)) as (i & s & e & Hi & Hs & He & Hx & ? & ? & ?).
  destruct (ext_prefix (Z.to_nat q) ltac:(lia)) as [Hz0 Hz1]. rewrite (zsum_take_next _ _ _ Hx) in Hz1.
  exists (Z.to_nat q), i, s, e. unfold assign_start, assign_seg.
  rewrite (tl_load_in oob idx q i), (tl_load_in oob st q s), (tl_load_in oob en q e) by (done || lia).
  split_and!; try done; try lia. unfold zlen in *. rewrite length_map, length_take, length_drop. lia.
Qed.

(** Every program writes its request's slice of the table and nothing else. *)
Lemma assign_grid order b : zlen b = rows * pool_len -> Permutation order (zrange 0 (zlen idx)) ->
  exists b', tl_run order (assign_req_to_token_pool oob idx st en out_loc pool_len up) b = Some b' /\ zlen b' = zlen b
    /\ (forall p i s e k, idx !! p = Some i -> st !! p = Some s -> en !! p = Some e -> 0 <= k < e - s ->
          b' !! Z.to_nat (i * pool_len + s + k) = to_int32 <$> out_loc !! Z.to_nat (zsum (take p ext) + k))
    /\ (forall j, 0 <= j -> (forall p i s e, idx !! p = Some i -> st !! p = Some s -> en !! p = Some e ->
          ~ i * pool_len + s <= j < i * pool_len + e) -> b' !! Z.to_nat j = b !! Z.to_nat j).
Proof.
  intros Hb Hord. assert (forall q, q ∈ order <-> 0 <= q < zlen idx) as Hin
    by (intros q; rewrite Hord; apply elem_of_zrange).
  destruct (splices_run assign_start assign_seg (rows * pool_len)
              (assign_req_to_token_pool oob idx st en out_loc pool_len up) order b Hb) as (b' & Hrun & Hl & HI & HO).
  - intros q c Hq%Hin Hc.
    destruct (assign_facts q Hq) as (p & i & s & e & -> & Hi & Hs & He & ? & ? & ? & Hst & _ & Hsg & ? & ?).
    by rewrite (assign_body p i s e c Hi Hs He), Hst, Hsg.
  - intros q Hq%Hin. destruct (assign_facts q Hq) as (p & i & s & e & _ & _ & _ & _ & ? & ? & ? & -> & -> & _). nia.
  - intros q q' j Hq%Hin Hq'%Hin.
    destruct (assign_facts q Hq) as (p & i & s & e & -> & Hi & _ & _ & ? & ? & ? & Hst & Hw & _).
    destruct (assign_facts q' Hq') as (p' & i' & s' & e' & -> & Hi' & _ & _ & ? & ? & ? & Hst' & Hw' & _).
    unfold in_range. rewrite Hst, Hw, Hst', Hw'. intros. assert (i = i') as <- by nia.
    f_equal. by eapply NoDup_lookup.
  - exists b'. split_and!; [done|lia| |].
    + intros p i s e k Hi Hs He Hk. pose proof (lookup_lt_Some _ _ _ Hi) as Hp.
      assert (0 <= Z.of_nat p < zlen idx) as Hq by (unfold zlen; lia).
      destruct (assign_facts _ Hq) as (p' & i' & s' & e' & Ep & Hi' & Hs' & He' & _ & _ & _ & Hst & Hw & Hsg & ? & ?).
      apply Nat2Z.inj in Ep as <-. rewrite Hi in Hi'. rewrite Hs in Hs'. rewrite He in He'. simplify_eq.
      rewrite <- Hst, HI, Hsg by (apply Hin || lia; done).
      rewrite list_lookup_fmap, lookup_take_lt, lookup_drop by lia. do 2 f_equal. lia.
    + intros j Hj Hn. apply HO; [done|]. intros q Hq%Hin.
      destruct (assign_facts q Hq) as (p & i & s & e & _ & Hi & Hs & He & _ & _ & _ & Hst & Hw & _).
      unfold in_range. rewrite Hst, Hw. specialize (Hn p i s e Hi Hs He). lia.
Qed.
End Assign.
