(* ===== verification/SpecProps.v ===== *)
(** The theorems about the kernels of speculative decoding. *)

From S2P Require Export SpecKernels.

Lemma row_lookup n buf r k : 0 <= r -> 0 <= k < n -> row n buf r !! Z.to_nat k = buf !! Z.to_nat (r * n + k).
Proof.
  intros Hr Hk. unfold row. rewrite lookup_take_lt, lookup_drop by lia. f_equal. nia.
Qed.

(** C8: greedy speculative decoding is lossless.  Let [target_predict] hold, at every
    draft position of every request, the token the target model chooses after the
    request's context and the drafts up to that position.  For a chain of drafts
    (identity [retrive_index]) [verify_tree_greedy], in any program order, stores only
    in range, and for every request the tokens it emits, read off [predicts] at the
    accepted indices, are exactly the next tokens of greedy decoding with the target
    model alone; as many drafts are accepted as agree with it. *)
Theorem verify_tree_greedy_lossless oob np2 order out candidates retrive_index target_predict bs n
    (model : list Z -> Z) (ctx : Z -> list Z)
    (Hn : 1 <= n) (Hpad : n <= np2 n) (Hbs : 0 <= bs) (Horder : Permutation order (zrange 0 bs))
    (Hlc : zlen candidates = bs * n) (Hlt : zlen target_predict = bs * n)
    (Hretr : retrive_index = zrange 0 (bs * n))
    (HP : bs * n <= zlen (predicts out)) (HA : zlen (accept_index out) = bs * n)
    (HN : zlen (accept_token_num out) = bs)
    (Htarget : forall r i x, 0 <= r < bs -> row n target_predict r !! i = Some x ->
       x = model (ctx r ++ take (S i) (row n candidates r))) :
  exists out', verify_tree_greedy oob np2 order out candidates retrive_index target_predict n = Some out'
    /\ forall r, 0 <= r < bs -> exists acc d0 drafts,
      row n candidates r = d0 :: drafts /\ (acc <= length drafts)%nat
      /\ accept_token_num out' !! Z.to_nat r = Some (Z.of_nat acc)
      /\ (forall k, (k <= acc)%nat -> accept_index out' !! Z.to_nat (r * n + Z.of_nat k) = Some (r * n + Z.of_nat k))
      /\ (forall k, (acc < k)%nat -> Z.of_nat k < n ->
            accept_index out' !! Z.to_nat (r * n + Z.of_nat k) = accept_index out !! Z.to_nat (r * n + Z.of_nat k))
      /\ (forall k, (k <= acc)%nat ->
            predicts out' !! Z.to_nat (r * n + Z.of_nat k) = greedy model (ctx r ++ [d0]) (S acc) !! k)
      /\ take acc drafts = take acc (greedy model (ctx r ++ [d0]) (S acc))
      /\ drafts !! acc <> greedy model (ctx r ++ [d0]) (S acc) !! acc.
Proof.
  destruct (verify_grid oob candidates retrive_index target_predict n (np2 n) bs Hn Hpad Hbs Hlc Hlt Hretr
              order out Horder HP HA HN) as (out' & Hrun & _ & _ & Hres).
  exists out'. split; [done|]. intros r Hr. destruct (Hres r Hr) as (H1 & H2 & H3).
  pose proof (zlen_row n candidates r ltac:(lia) ltac:(lia) ltac:(nia)) as Hlr.
  pose proof (zlen_row n target_predict r ltac:(lia) ltac:(lia) ltac:(nia)) as Hlt'.
  unfold accepted_of in *. set (t := row n target_predict r) in *.
  destruct (row n candidates r) as [|d0 drafts] eqn:Hrow; [unfold zlen in Hlr; simpl in Hlr; lia|].
  change (drop 1 (d0 :: drafts)) with drafts in *. set (acc := accepted_drafts drafts t) in *.
  pose proof (accepted_drafts_le drafts t) as Hle. fold acc in Hle.
  assert (length t = S (length drafts)) as Hlen by (unfold zlen in *; simpl in *; lia).
  assert (take (S acc) t = greedy model (ctx r ++ [d0]) (S acc)) as Hg.
  { apply accepted_is_greedy; [done|]. intros i x Hi. rewrite (Htarget r i x Hr Hi), Hrow.
    by rewrite <- app_assoc. }
  exists acc, d0, drafts. split_and!; try done.
  - intros k Hk. rewrite H2 by (unfold zlen in *; simpl in *; lia). destruct (Z.leb_spec (Z.of_nat k) (Z.of_nat acc)); [done|lia].
  - intros k Hk Hkn. rewrite H2 by lia. destruct (Z.leb_spec (Z.of_nat k) (Z.of_nat acc)); [lia|done].
  - intros k Hk. rewrite H3 by lia. rewrite Nat2Z.id, <- Hg. rewrite lookup_take_lt by lia. done.
  - rewrite <- Hg, take_take, Nat.min_l by lia. apply accepted_drafts_prefix.
  - rewrite <- Hg, lookup_take_lt by lia. destruct (drafts !! acc) as [d|] eqn:Hd.
    + destruct (t !! acc) as [x|] eqn:Hx; [|done]. intros [= ->].
      by apply (accepted_drafts_stop drafts t x x Hd Hx).
    + intros Hx. symmetry in Hx. apply lookup_ge_None_1 in Hx. lia.
Qed.

(** A target model that counts up, two requests, two drafts each. *)
Definition count_model (l : list Z) : Z := default 0 (last l) + 1.

Lemma verify_tree_greedy_lossless_witness :
  exists out', verify_tree_greedy (fun i => i) (fun n => n) [1; 0]
      (MkVerifyOut [0; 0; 0; 0; 0; 0; 0] [-1; -1; -1; -1; -1; -1] [0; 0])
      [5; 6; 9; 20; 21; 22] [0; 1; 2; 3; 4; 5] [6; 7; 10; 21; 22; 23] 3 = Some out'
    /\ accept_token_num out' !! 1%nat = Some 2
    /\ predicts out' !! 5%nat = greedy count_model [3; 20] 3 !! 2%nat.
Proof.
  destruct (verify_tree_greedy_lossless (fun i => i) (fun n => n) [1; 0]
      (MkVerifyOut [0; 0; 0; 0; 0; 0; 0] [-1; -1; -1; -1; -1; -1] [0; 0])
      [5; 6; 9; 20; 21; 22] [0; 1; 2; 3; 4; 5] [6; 7; 10; 21; 22; 23] 2 3 count_model (fun _ => [3]))
    as (out' & Hrun & _).
  - lia.
  - lia.
  - lia.
  - apply perm_swap.
  - reflexivity.
  - reflexivity.
  - reflexivity.
  - vm_compute. discriminate.
  - reflexivity.
  - reflexivity.
  - intros r i x Hr. assert (r = 0 \/ r = 1) as [-> | ->] by lia;
      do 3 (destruct i as [|i]; [by intros [= <-]|]); done.
  - exists out'. split; [exact Hrun|]. vm_compute in Hrun. injection Hrun as <-. done.
Defined.

(** Alignment of the mask of a chain. *)
Lemma align_row_chain ps n s k i : 1 <= ps -> 1 <= k <= n -> 0 <= i < n ->
  align_row ps n s (repeat 0 (Z.to_nat k) ++ repeat 1 (Z.to_nat (n - k))) !! Z.to_nat i
  = Some (if (s + k - 1) / ps <? (s + i) / ps then 1 else 0).
Proof.
  intros Hps Hkn Hi. unfold align_row.
  assert (zsum (repeat 0 (Z.to_nat k) ++ repeat 1 (Z.to_nat (n - k))) = n - k) as ->.
  { rewrite zsum_app. assert (forall v m, zsum (repeat v m) = v * Z.of_nat m) as Hz
      by (intros v m; induction m as [|m IHm]; [unfold zsum; simpl; lia|simpl repeat; rewrite zsum_cons, IHm; lia]).
    rewrite !Hz. lia. }
  replace (s + (n - (n - k)) - 1) with (s + k - 1) by lia.
  rewrite list_lookup_fmap. unfold zrange. rewrite lookup_seqZ_lt by lia. simpl. f_equal.
  replace (0 + Z.of_nat (Z.to_nat i)) with i by lia.
  pose proof (Z.div_mod (s + k - 1) ps ltac:(lia)) as Hd. pose proof (Z.mod_pos_bound (s + k - 1) ps ltac:(lia)) as Hm.
  pose proof (Z.div_mod (s + i) ps ltac:(lia)) as Hd'. pose proof (Z.mod_pos_bound (s + i) ps ltac:(lia)) as Hm'.
  set (q := (s + k - 1) / ps) in *. set (q' := (s + i) / ps) in *.
  destruct (Z.lt_ge_cases i k) as [Hik|Hik].
  + rewrite app_nth1, nth_repeat_lt by (rewrite ?repeat_length; lia).
    destruct (Z.ltb_spec q q') as [Hqq|Hqq]; [exfalso; nia|]. by case_match.
  + rewrite app_nth2, repeat_length, nth_repeat_lt by (rewrite ?repeat_length; lia).
    destruct (Z.leb_spec (q * ps - s) i), (Z.ltb_spec i (q * ps - s + ps)), (Z.ltb_spec q q'); simpl; try done; exfalso; nia.
Qed.

(** [align_evict_mask_to_page_size] keeps whole pages.  For draft chains, where the
    first [keep] drafts of a request are kept and the others marked for eviction, the
    aligned mask marks exactly the drafts whose page comes after the page of the last
    kept token: a page that holds a kept token is never freed, and every later page is. *)
Theorem align_evict_mask_pages oob seq_lens keep ps n block order mask
    (Hps : 1 <= ps) (Hn : 1 <= n) (Hblock : n <= block)
    (Hlen : length keep = length seq_lens) (Hmask : zlen mask = zlen seq_lens * n)
    (Horder : Permutation order (zrange 0 (zlen seq_lens)))
    (Hrows : forall r k, keep !! r = Some k -> 1 <= k <= n
       /\ row n mask (Z.of_nat r) = repeat 0 (Z.to_nat k) ++ repeat 1 (Z.to_nat (n - k))) :
  exists mask', tl_run order (align_evict_mask_to_page_size oob seq_lens ps n block) mask = Some mask'
    /\ zlen mask' = zlen mask
    /\ forall r s k i, seq_lens !! r = Some s -> keep !! r = Some k -> 0 <= i < n ->
       mask' !! Z.to_nat (Z.of_nat r * n + i)
       = Some (if (s + k - 1) / ps <? (s + i) / ps then 1 else 0).
Proof.
  destruct (rows_local_run n (zlen seq_lens) (fun r => align_row ps n (default 0 (seq_lens !! Z.to_nat r)))
              (align_evict_mask_to_page_size oob seq_lens ps n block) order mask) as (mask' & Hrun & Hl & Hres).
  - lia.
  - rewrite Horder. apply NoDup_zrange.
  - apply Forall_forall. intros r Hr. by apply (order_index _ _ _ Horder).
  - done.
  - intros r l Hl. unfold align_row. rewrite zlen_map, zlen_zrange; lia.
  - intros r b Hr Hb. apply (order_index _ _ _ Horder) in Hr.
    destruct (lookup_lt_is_Some_2 seq_lens (Z.to_nat r)) as [s Hs]; [unfold zlen in Hr; lia|].
    rewrite Hs. simpl. apply align_row_body; try done; nia.
  - exists mask'. split_and!; [done|lia|]. intros r s k i Hs Hk Hi. destruct (Hrows r k Hk) as [Hkn Hrow].
    pose proof (lookup_lt_Some _ _ _ Hs) as Hr. rewrite <- row_lookup by lia.
    rewrite Hres by (unfold zlen; lia). rewrite decide_True by (rewrite Horder, elem_of_zrange; unfold zlen; lia).
    rewrite Nat2Z.id, Hs, Hrow. simpl. by apply align_row_chain.
Qed.

Lemma align_evict_mask_pages_witness :
  exists mask', tl_run [1; 0] (align_evict_mask_to_page_size (fun i => i) [6; 3] 4 4 4) [0; 1; 1; 1; 0; 0; 1; 1]
      = Some mask' /\ mask' !! 2%nat = Some 1.
Proof.
  destruct (align_evict_mask_pages (fun i => i) [6; 3] [1; 2] 4 4 4 [1; 0] [0; 1; 1; 1; 0; 0; 1; 1])
    as (mask' & Hrun & _ & Hres).
  - lia.
  - lia.
  - lia.
  - reflexivity.
  - reflexivity.
  - apply perm_swap.
  - intros [|[|r]] k; simpl; [intros [= <-]; split; [lia|reflexivity]..|done].
  - exists mask'. split; [exact Hrun|]. exact (Hres 0%nat 6 1 2 eq_refl eq_refl ltac:(lia)).
Defined.

(** The packed output as a concatenation of row slices. *)
Lemma packed_rows oob lens (f : Z -> Z -> Z) (lo : nat -> Z) buf n :
  Forall (fun m => 0 <= m) lens ->
  (forall b o, f (Z.of_nat b) o = tl_load oob buf (Z.of_nat b * n + lo b + o)) ->
  (forall b m, lens !! b = Some m -> 0 <= lo b /\ lo b + m <= n /\ Z.of_nat b * n + n <= zlen buf) ->
  packed lens f
  = concat (imap (fun b m => take (Z.to_nat m) (drop (Z.to_nat (lo b)) (row n buf (Z.of_nat b)))) lens).
Proof.
  intros Hnn Hf Hb. unfold packed, pack_segs. f_equal. apply imap_ext. intros b m Hm.
  rewrite Forall_lookup in Hnn. specialize (Hnn b m Hm). destruct (Hb b m Hm) as (H1 & H2 & H3).
  rewrite (map_ext _ _ (Hf b)), tl_load_slice by nia. unfold row. rewrite skipn_firstn_comm, take_take, drop_drop.
  f_equal; [lia|]. f_equal. nia.
Qed.

(** What [get_src_tgt_cache_loc] decides to free. *)
Lemma src_tgt_free empty seq_lens out_loc accept_index num_accepted n ps src tgt free_num :
  1 <= ps -> length seq_lens = length num_accepted -> Forall (fun a => 0 <= a < n) num_accepted ->
  get_src_tgt_cache_loc empty seq_lens out_loc accept_index num_accepted n ps = Ok (src, tgt, free_num) ->
  zlen src = zlen accept_index /\ tgt = empty (zlen src) /\ length free_num = length num_accepted
  /\ forall b s a f, seq_lens !! b = Some s -> num_accepted !! b = Some a -> free_num !! b = Some f ->
     a + 1 <= n - f <= a + ps /\ 0 <= f /\ (0 < f -> (s + (n - f)) mod ps = 0).
Proof.
  intros Hps Hlen Hacc Hsrc.
  unfold get_src_tgt_cache_loc in Hsrc. destruct (gather out_loc accept_index) as [src'|] eqn:Hg; [|done].
  cbn [res_bind] in Hsrc. injection Hsrc as <- <- Hfn. apply gather_length in Hg.
  split_and!; [unfold zlen; lia|done|rewrite <- Hfn, !length_zip_with, !length_map; lia|].
  intros b s a f Hs Ha Hfr.
  assert (f = s + n - Z.min ((s + a + 1 + ps - 1) / ps * ps) (s + n)) as ->.
  { rewrite <- Hfn, !lookup_zip_with, list_lookup_fmap, Hs, Ha in Hfr. simpl in Hfr. by injection Hfr as <-. }
  rewrite Forall_lookup in Hacc. specialize (Hacc b a Ha).
  pose proof (ceil_div_spec (s + a + 1) ps ltac:(lia)) as Hc. split_and!; try lia. intros Hpos.
  replace (s + (n - (s + n - Z.min ((s + a + 1 + ps - 1) / ps * ps) (s + n))))
    with ((s + a + 1 + ps - 1) / ps * ps) by lia. apply Z.mod_mul. lia.
Qed.

(** after verification with [topk > 1] and pages, the KV slots of every request are
    split at page boundaries.  [get_src_tgt_cache_loc] and [get_target_cache_loc]
    together put the first [accepted + 1] slots of every row into [tgt_cache_loc] and the
    tail of every row into [to_free_slots]; the freed tail never reaches the accepted
    part, starts on a page boundary, and leaves less than a page unused. *)
Theorem accepted_cache_layout oob empty seq_lens out_loc accept_index num_accepted n ps nup up order src tgt free_num free
    (Hps : 1 <= ps) (Hup : zlen num_accepted <= up) (Hnup : n <= nup)
    (Hlen : length seq_lens = length num_accepted) (Hout : zlen out_loc = zlen num_accepted * n)
    (Hacc : Forall (fun a => 0 <= a < n) num_accepted)
    (Hempty : forall m, 0 <= m -> zlen (empty m) = m)
    (Hidx : zlen accept_index = zsum (map (fun a => a + 1) num_accepted))
    (Hsrc : get_src_tgt_cache_loc empty seq_lens out_loc accept_index num_accepted n ps = Ok (src, tgt, free_num))
    (Hfree : zlen free = zsum free_num)
    (Horder : Permutation order (zrange 0 (zlen num_accepted))) :
  tl_run order (get_target_cache_loc oob 0 num_accepted free_num out_loc n nup up) (tgt, free)
  = Some (concat (imap (fun b a => take (Z.to_nat (a + 1)) (row n out_loc (Z.of_nat b))) num_accepted),
          concat (imap (fun b f => drop (Z.to_nat (n - f)) (row n out_loc (Z.of_nat b))) free_num))
  /\ forall b s a f, seq_lens !! b = Some s -> num_accepted !! b = Some a -> free_num !! b = Some f ->
     a + 1 <= n - f <= a + ps /\ 0 <= f /\ (0 < f -> (s + (n - f)) mod ps = 0).
Proof.
  destruct (src_tgt_free _ _ _ _ _ _ _ _ _ _ Hps Hlen Hacc Hsrc) as (Hls & -> & Hlf & Hspec).
  split; [|done].
  assert (forall b f, free_num !! b = Some f -> 0 <= f <= n) as Hfb.
  { intros b f Hfr. pose proof (lookup_lt_Some _ _ _ Hfr).
    destruct (lookup_lt_is_Some_2 seq_lens b) as [s Hs]; [lia|].
    destruct (lookup_lt_is_Some_2 num_accepted b) as [a Ha]; [lia|].
    destruct (Hspec b s a f Hs Ha Hfr) as (? & ? & _). rewrite Forall_lookup in Hacc. specialize (Hacc b a Ha). lia. }
  rewrite (target_cache_loc_grid oob); try done.
  - do 2 f_equal.
    + rewrite (packed_rows oob _ _ (fun _ => 0) out_loc n).
      * by rewrite imap_fmap.
      * apply Forall_map. eapply Forall_impl; [exact Hacc|simpl; lia].
      * intros b o. f_equal. lia.
      * intros b m Hm. rewrite list_lookup_fmap in Hm. destruct (num_accepted !! b) as [a|] eqn:Ha; [|done].
        injection Hm as <-. rewrite Forall_lookup in Hacc. specialize (Hacc b a Ha).
        pose proof (lookup_lt_Some _ _ _ Ha). unfold zlen in *. nia.
    + rewrite (packed_rows oob _ _ (fun b => n - tl_load oob free_num (Z.of_nat b)) out_loc n).
      * f_equal. apply imap_ext. intros b f Hfr. rewrite (load_lookup oob _ _ _ Hfr). apply take_ge.
        pose proof (Hfb b f Hfr). pose proof (lookup_lt_Some _ _ _ Hfr).
        rewrite length_drop. pose proof (zlen_row n out_loc (Z.of_nat b)) as Hl. unfold zlen in *. nia.
      * apply Forall_lookup. intros b f Hfr. by apply Hfb in Hfr as [? _].
      * done.
      * intros b f Hfr. rewrite (load_lookup oob _ _ _ Hfr). pose proof (Hfb b f Hfr).
        pose proof (lookup_lt_Some _ _ _ Hfr). unfold zlen in *. nia.
  - unfold zlen. lia.
  - apply Forall_lookup. apply Hfb.
  - rewrite Hempty by apply zlen_nonneg. lia.
Qed.

Lemma accepted_cache_layout_witness :
  tl_run [0; 1] (get_target_cache_loc (fun i => i) 0 [1; 0] [1; 1] [8; 9; 10; 16; 17; 18] 3 4 2) ([0; 0; 0], [0; 0])
  = Some ([8; 9; 16], [10; 18]).
Proof.
  destruct (accepted_cache_layout (fun i => i) (fun m => repeat 0 (Z.to_nat m)) [2; 2] [8; 9; 10; 16; 17; 18] [0; 2; 3]
              [1; 0] 3 2 4 2 [0; 1] [8; 10; 16] [0; 0; 0] [1; 1] [0; 0]) as [Hrun _].
  - lia.
  - vm_compute. discriminate.
  - lia.
  - reflexivity.
  - reflexivity.
  - repeat constructor; lia.
  - intros m Hm. unfold zlen. rewrite repeat_length. lia.
  - reflexivity.
  - reflexivity.
  - reflexivity.
  - reflexivity.
  - exact Hrun.
Defined.

Lemma accepted_filter num_accepted unfinished seq_lens filt seq_lens' :
  NoDup unfinished -> Forall (fun i => 0 <= i < zlen num_accepted) unfinished ->
  create_num_accepted_drafts_filter num_accepted unfinished seq_lens = Ok (filt, seq_lens') ->
  length filt = length num_accepted
  /\ forall b a, num_accepted !! b = Some a ->
     filt !! b = Some (if decide (Z.of_nat b ∈ unfinished) then a + 1 else 0).
Proof.
  intros Hun Hunr Hfilt. unfold create_num_accepted_drafts_filter in Hfilt.
  destruct (gather_ok num_accepted unfinished Hunr) as (l & Hg & Hll & Hlk). rewrite Hg in Hfilt. cbn [res_bind] in Hfilt.
  destruct (scatter_ok (map (fun _ => 0) num_accepted) unfinished (map (fun a => a + 1) l))
    as (t' & Hs & Hlt & Hin & Hout); [by rewrite zlen_map|by rewrite length_map|done|].
  rewrite Hs in Hfilt. cbn [res_bind] in Hfilt. injection Hfilt as -> _. rewrite length_map in Hlt.
  split; [done|]. intros b a Ha. case_decide as Hb.
  - apply list_elem_of_lookup in Hb as [k Hk].
    specialize (Hin k (Z.of_nat b) (a + 1) Hk). rewrite Nat2Z.id in Hin. apply Hin.
    rewrite list_lookup_fmap, (Hlk k _ Hk), Nat2Z.id, Ha. done.
  - rewrite Hout by done. rewrite list_lookup_fmap, Ha. done.
Qed.

Lemma zsum_accepted (l : list Z) : zsum (map (fun a => a + 1) l) = zsum l + zlen l.
Proof. induction l as [|a l IH]; [done|]. simpl map. rewrite !zsum_cons, zlen_cons, IH. lia. Qed.

(** compaction after requests finish.  With the filter that
    [create_num_accepted_drafts_filter] builds, [filter_finished_cache_loc_kernel] copies
    exactly the accepted slots of the unfinished requests, in batch order, and drops
    those of the finished ones. *)
Theorem filter_finished_keeps_unfinished oob num_accepted unfinished seq_lens filt seq_lens' tgt nup up order out
    (Hup : zlen num_accepted <= up) (Hacc : Forall (fun a => 0 <= a < nup) num_accepted)
    (Hun : NoDup unfinished) (Hunr : Forall (fun i => 0 <= i < zlen num_accepted) unfinished)
    (Htgt : zlen tgt = zsum (map (fun a => a + 1) num_accepted))
    (Hfilt : create_num_accepted_drafts_filter num_accepted unfinished seq_lens = Ok (filt, seq_lens'))
    (Hout : zlen out = zsum filt) (Horder : Permutation order (zrange 0 (zlen num_accepted))) :
  tl_run order (filter_finished_cache_loc_kernel oob 0 tgt num_accepted filt up nup) out
  = Some (concat (imap (fun b a =>
      if decide (Z.of_nat b ∈ unfinished)
      then take (Z.to_nat (a + 1)) (drop (Z.to_nat (zsum (map (fun a => a + 1) (take b num_accepted)))) tgt)
      else []) num_accepted)).
Proof.
  destruct (accepted_filter _ _ _ _ _ Hun Hunr Hfilt) as [Hlf Hf].
  assert (forall b f, filt !! b = Some f -> exists a, num_accepted !! b = Some a /\ 0 <= a < nup
    /\ f = if decide (Z.of_nat b ∈ unfinished) then a + 1 else 0) as Hinv.
  { intros b f Hb. destruct (lookup_lt_is_Some_2 num_accepted b) as [a Ha]; [apply lookup_lt_Some in Hb; lia|].
    rewrite (Hf b a Ha) in Hb. injection Hb as <-. rewrite Forall_lookup in Hacc. eauto. }
  assert (zlen num_accepted = zlen filt) as Hlz by (unfold zlen; lia).
  rewrite (filter_finished_grid oob); [|done|lia| |by rewrite <- Hlz|done].
  2:{ apply Forall_lookup. intros b f (a & _ & Ha & ->)%Hinv. case_decide; lia. }
  f_equal. unfold packed, pack_segs. f_equal. apply list_eq. intros b. rewrite !list_lookup_imap.
  destruct (num_accepted !! b) as [a|] eqn:Ha.
  2:{ apply lookup_ge_None in Ha. rewrite (proj2 (lookup_ge_None filt b)) by lia. done. }
  rewrite (Hf b a Ha). simpl. f_equal. case_decide; [|by rewrite zrange_empty by lia].
  rewrite (sum_before oob _ _ _ up Ha) by done.
  assert (zsum (map (fun a => a + 1) (take b num_accepted)) = zsum (take b num_accepted) + Z.of_nat b) as Hz.
  { rewrite zsum_accepted. unfold zlen. rewrite length_take. apply lookup_lt_Some in Ha. f_equal. lia. }
  rewrite Forall_lookup in Hacc. pose proof (Hacc b a Ha).
  rewrite tl_load_slice; [by rewrite Hz| |lia|].
  - rewrite <- Hz. apply zsum_nonneg. apply Forall_map, Forall_take, Forall_lookup. intros j x Hx.
    specialize (Hacc j x Hx). lia.
  - rewrite Htgt, <- Hz. rewrite <- (take_drop (S b) num_accepted) at 2.
    rewrite map_app, zsum_app, (take_S_r _ _ _ Ha), map_app, zsum_app. simpl map. unfold zsum at 3. simpl.
    pose proof (zsum_nonneg (map (fun a => a + 1) (drop (S b) num_accepted))) as Hnn.
    rewrite Z.add_0_r. enough (0 <= zsum (map (fun a => a + 1) (drop (S b) num_accepted))) by lia.
    apply Hnn. apply Forall_map, Forall_drop, Forall_lookup. intros j x Hx. specialize (Hacc j x Hx). lia.
Qed.

Lemma filter_finished_keeps_unfinished_witness :
  tl_run [2; 0; 1] (filter_finished_cache_loc_kernel (fun i => i) 0 [8; 9; 16; 24; 25; 26] [1; 0; 2] [2; 0; 3] 4 4)
    [0; 0; 0; 0; 0] = Some [8; 9; 24; 25; 26].
Proof.
  pose proof (filter_finished_keeps_unfinished (fun i => i) [1; 0; 2] [0; 2] [7; 8; 9] [2; 0; 3] [9; 9; 12]
                [8; 9; 16; 24; 25; 26] 4 4 [2; 0; 1] [0; 0; 0; 0; 0]) as H.
  refine (H _ _ _ _ eq_refl eq_refl eq_refl _).
  - vm_compute. discriminate.
  - repeat constructor; lia.
  - apply (bool_decide_unpack _). vm_compute. exact I.
  - repeat constructor; lia.
  - change (zrange 0 (zlen [1; 0; 2])) with [0; 1; 2].
    transitivity [0; 2; 1]; [apply perm_swap|]. apply perm_skip, perm_swap.
Defined.

(** [assign_req_to_token_pool] writes, in any program order, the slice
    [start_offset, end_offset) of each request's row of the request table with the
    request's part of [out_cache_loc] (as int32), and changes no other entry of the table. *)
Theorem assign_req_to_token_pool_correct oob idx st en out_loc pool_len up rows order b
    (Hst : length st = length idx) (Hen : length en = length idx) (Hup : zlen idx <= up)
    (Hidx : NoDup idx) (Hrows : Forall (fun i => 0 <= i < rows) idx)
    (Hrange : forall p s e, st !! p = Some s -> en !! p = Some e -> 0 <= s <= e /\ e <= pool_len)
    (Hout : zlen out_loc = zsum (zip_with Z.sub en st))
    (Hb : zlen b = rows * pool_len) (Horder : Permutation order (zrange 0 (zlen idx))) :
  exists b', tl_run order (assign_req_to_token_pool oob idx st en out_loc pool_len up) b = Some b' /\ zlen b' = zlen b
    /\ (forall p i s e k, idx !! p = Some i -> st !! p = Some s -> en !! p = Some e -> 0 <= k < e - s ->
          b' !! Z.to_nat (i * pool_len + s + k)
          = to_int32 <$> out_loc !! Z.to_nat (zsum (take p (zip_with Z.sub en st)) + k))
    /\ (forall j, 0 <= j -> (forall p i s e, idx !! p = Some i -> st !! p = Some s -> en !! p = Some e ->
          ~ i * pool_len + s <= j < i * pool_len + e) -> b' !! Z.to_nat j = b !! Z.to_nat j).
Proof. by apply assign_grid with rows. Qed.

Lemma assign_req_to_token_pool_correct_witness :
  exists b', tl_run [1; 0] (assign_req_to_token_pool (fun i => i) [2; 0] [1; 0] [3; 1] [50; 51; 60] 4 2)
      [0; 0; 0; 0; 0; 0; 0; 0; 0; 0; 0; 0] = Some b' /\ b' !! 10%nat = Some 51.
Proof.
  destruct (assign_req_to_token_pool_correct (fun i => i) [2; 0] [1; 0] [3; 1] [50; 51; 60] 4 2 3 [1; 0]
              [0; 0; 0; 0; 0; 0; 0; 0; 0; 0; 0; 0]) as (b' & Hrun & _ & Hin & _).
  - reflexivity.
  - reflexivity.
  - vm_compute. discriminate.
  - apply (bool_decide_unpack _). vm_compute. exact I.
  - repeat constructor; lia.
  - intros [|[|p]] s e; simpl; [intros [= <-] [= <-]; lia..|done].
  - reflexivity.
  - reflexivity.
  - apply perm_swap.
  - exists b'. split; [exact Hrun|]. exact (Hin 0%nat 2 1 3 1 eq_refl eq_refl eq_refl ltac:(lia)).
Defined.

(** [create_extend_after_decode_spec_info] gives the accepted tokens of a request the
    positions just below its new length, and takes its last accepted token as the next
    one to extend from. *)
Theorem extend_after_decode_positions oob verified_id seq_lens accept_lens up order positions ids
    (Hlen : length seq_lens = length accept_lens) (Hup : zlen accept_lens <= up)
    (Hacc : Forall (fun a => 1 <= a <= up) accept_lens) (Hver : zlen verified_id = zsum accept_lens)
    (Horder : Permutation order (zrange 0 (zlen accept_lens)))
    (Hpos : zlen positions = zsum accept_lens) (Hids : zlen ids = zlen accept_lens) :
  exists new_ids,
    tl_run order (create_extend_after_decode_spec_info oob verified_id seq_lens accept_lens up) (positions, ids)
    = Some (concat (zip_with (fun s a => zrange (s - a) s) seq_lens accept_lens), new_ids)
    /\ length new_ids = length accept_lens
    /\ forall i, (i < length accept_lens)%nat ->
         new_ids !! i = verified_id !! Z.to_nat (zsum (take (S i) accept_lens) - 1).
Proof.
  eexists. split; [|split].
  - rewrite (extend_after_decode_grid oob); try done; [|unfold zlen; lia]. do 2 f_equal.
    unfold packed, pack_segs. f_equal. apply list_eq. intros i.
    rewrite list_lookup_imap, lookup_zip_with. destruct (accept_lens !! i) as [a|] eqn:Ha; simpl.
    2:{ by destruct (seq_lens !! i). }
    destruct (lookup_lt_is_Some_2 seq_lens i) as [s Hs]; [apply lookup_lt_Some in Ha; lia|]. rewrite Hs. simpl. f_equal.
    rewrite (load_lookup oob _ _ _ Hs), (load_lookup oob _ _ _ Ha).
    replace (zrange (s - a) s) with (zrange (s - a + 0) (s - a + a)) by (f_equal; lia).
    by rewrite zrange_shift.
  - by rewrite length_imap.
  - intros i Hi. rewrite list_lookup_imap. destruct (lookup_lt_is_Some_2 accept_lens i Hi) as [a Ha]. rewrite Ha. simpl.
    assert (1 <= zsum (take (S i) accept_lens) <= zlen verified_id) as Hb.
    { rewrite Hver, (zsum_take_next _ _ _ Ha). rewrite <- (take_drop (S i) accept_lens) at 3.
      rewrite zsum_app, (zsum_take_next _ _ _ Ha). rewrite Forall_lookup in Hacc. pose proof (Hacc i a Ha).
      pose proof (zsum_nonneg (take i accept_lens)) as H1. pose proof (zsum_nonneg (drop (S i) accept_lens)) as H2.
      assert (Forall (fun x => 0 <= x) accept_lens) as Hnn by (apply Forall_lookup; intros j x Hx; specialize (Hacc j x Hx); lia).
      specialize (H1 ltac:(by apply Forall_take)). specialize (H2 ltac:(by apply Forall_drop)). lia. }
    destruct (lookup_lt_is_Some_2 verified_id (Z.to_nat (zsum (take (S i) accept_lens) - 1))) as [v Hv]; [unfold zlen in *; lia|].
    rewrite Hv. f_equal. apply tl_load_in; [lia|done].
Qed.

Lemma extend_after_decode_positions_witness :
  exists new_ids, tl_run [1; 0] (create_extend_after_decode_spec_info (fun i => i) [31; 32; 41] [10; 7] [2; 1] 2)
      ([0; 0; 0], [0; 0]) = Some ([8; 9; 6], new_ids) /\ new_ids !! 0%nat = Some 32.
Proof.
  destruct (extend_after_decode_positions (fun i => i) [31; 32; 41] [10; 7] [2; 1] 2 [1; 0] [0; 0; 0] [0; 0])
    as (ids & Hrun & _ & Hids).
  - reflexivity.
  - vm_compute. discriminate.
  - repeat constructor; lia.
  - reflexivity.
  - apply perm_swap.
  - reflexivity.
  - reflexivity.
  - exists ids. split; [exact Hrun|]. exact (Hids 0%nat ltac:(simpl; lia)).
Defined.
