(* ===== verification/Grammar.v ===== *)
(** Grammar masks for speculative decoding: [traverse_tree] and
    [generate_token_bitmask] of [speculative/spec_utils.py], against the interface of
    grammar objects, and [XGrammarGrammar] of [constrained/xgrammar_backend.py] as an
    implementation of that interface over a third-party matcher. *)

From S2P Require Export Prelude.

(** Bit [t] of a packed mask: 32 booleans per word. *)
Definition mask_bit (bitmask : list Z) (t : Z) : res bool :=
  let* word := tensor_at bitmask (t / 32) in
  Ok (negb (Z.land word (Z.shiftl 1 (t mod 32)) =? 0)).

(** What the tree traversal relies on: a grammar that has not terminated accepts the
    tokens its mask allows, and accepting is undone by rolling back one token. *)
Class GrammarObject (G : Type) : Type := {
  accept_token : G -> Z -> res G;
  rollback : G -> Z -> res G;
  is_terminated : G -> bool;
  vocab_mask : G -> list Z;
  accept_allowed : forall g t, is_terminated g = false -> mask_bit (vocab_mask g) t = Ok true ->
    exists g', accept_token g t = Ok g' /\ rollback g' 1 = Ok g
}.

Section Traverse.
Context {G : Type} `{Grammar : GrammarObject G}.

(** [fill_vocab_mask(rows, i)] *)
Definition fill_vocab_mask (rows : list (list Z)) (i : Z) (g : G) : res (list (list Z)) :=
  match wrap_index (zlen rows) i with
  | Some j => Ok (<[j := vocab_mask g]> rows)
  | None => Raise IndexError
  end.

Section Tree.
Context (retrieve_next_token retrieve_next_sibling draft_tokens : list Z) (vocab_size : option Z).

(** Whether the current token is accepted after its parent. *)
Definition token_accepted (rows : list (list Z)) (curr parent_pos : Z) : res bool :=
  if curr =? 0 then Ok true
  else
    let* parent_bitmask := tensor_at rows parent_pos in
    let* curr_token_id := tensor_at draft_tokens curr in
    match vocab_size with
    | Some v => if negb (v =? 0) && (v <=? curr_token_id) then Ok false
                else mask_bit parent_bitmask curr_token_id
    | None => mask_bit parent_bitmask curr_token_id
    end.

(** The nested function [dfs]; [fuel] bounds the number of visited nodes. *)
Fixpoint dfs (fuel : nat) (curr parent_pos : Z) (g : G) (rows : list (list Z)) : res (G * list (list Z)) :=
  match fuel with
  | O => Raise RuntimeError
  | S fuel =>
      let* accepted := token_accepted rows curr parent_pos in
      let* (g, rows) :=
        if accepted then
          let* g := if curr =? 0 then Ok g
                    else let* t := tensor_at draft_tokens curr in accept_token g t in
          let* (g, rows) :=
            if is_terminated g then Ok (g, rows)
            else
              let* rows := fill_vocab_mask rows curr g in
              let* child := tensor_at retrieve_next_token curr in
              if child =? -1 then Ok (g, rows) else dfs fuel child curr g rows in
          let* g := if curr =? 0 then Ok g else rollback g 1 in
          Ok (g, rows)
        else Ok (g, rows) in
      let* sibling := tensor_at retrieve_next_sibling curr in
      if sibling =? -1 then Ok (g, rows) else dfs fuel sibling parent_pos g rows
  end.

Definition traverse_tree (g : G) (rows : list (list Z)) : res (G * list (list Z)) :=
  let* _ := py_assert ((zlen retrieve_next_token =? zlen retrieve_next_sibling)
                       && (zlen retrieve_next_sibling =? zlen draft_tokens)) in
  dfs (S (length draft_tokens)) 0 (-1) g rows.
End Tree.

(** The loop over the batch: [rows] is the mask of the whole batch, [None] while no
    request needed one; [alloc n] is [allocate_vocab_mask] for [n] rows.  Returns the
    mask, the requests' grammars and the grammar of the verification input. *)
Fixpoint bitmask_loop (vocab_size : Z) (alloc : G -> Z -> list (list Z)) (i num_draft_tokens total : Z)
    (next sib toks : list (list Z)) (reqs : list (option G)) (rows : option (list (list Z))) (grammar : option G)
    : res (option (list (list Z)) * list (option G) * option G) :=
  match reqs, next, sib, toks with
  | req :: reqs, nx :: next, sb :: sib, tk :: toks =>
      match req with
      | None =>
          let* (rows, reqs, grammar) :=
            bitmask_loop vocab_size alloc (i + 1) num_draft_tokens total next sib toks reqs rows grammar in
          Ok (rows, None :: reqs, grammar)
      | Some g =>
          let rows := default (alloc g total) rows in
          let lo := i * num_draft_tokens in
          let hi := (i + 1) * num_draft_tokens in
          let* (g, slice) := traverse_tree nx sb tk (Some vocab_size) g (py_slice rows lo hi) in
          let rows := py_upto rows lo ++ slice ++ py_from rows hi in
          let* (rows, reqs, grammar) :=
            bitmask_loop vocab_size alloc (i + 1) num_draft_tokens total next sib toks reqs (Some rows) (Some g) in
          Ok (rows, Some g :: reqs, grammar)
      end
  | _, _, _, _ => Ok (rows, reqs, grammar)
  end.

Definition generate_token_bitmask (vocab_size : Z) (alloc : G -> Z -> list (list Z)) (num_draft_tokens : Z)
    (next sib toks : list (list Z)) (reqs : list (option G))
    : res (option (list (list Z)) * list (option G) * option G) :=
  let* _ := py_assert (zlen reqs =? zlen next) in
  bitmask_loop vocab_size alloc 0 num_draft_tokens (zlen toks * num_draft_tokens) next sib toks reqs None None.
End Traverse.

(** ** The traversal visits the permitted part of the tree *)

(** First-child/next-sibling trees. *)
Inductive fcns : Type :=
  | Leaf
  | Branch (i : Z) (child sibling : fcns).

Fixpoint tree_nodes_of (t : fcns) : list Z :=
  match t with Leaf => [] | Branch i c s => i :: tree_nodes_of c ++ tree_nodes_of s end.

Section Spec.
Context {G : Type} `{Grammar : GrammarObject G}.
Context (next sib toks : list Z) (vocab_size : option Z).

(** The arrays hold the tree [t] at index [i]; [-1] is the empty tree. *)
Inductive encodes : Z -> fcns -> Prop :=
  | enc_leaf : encodes (-1) Leaf
  | enc_branch i c s tc ts : 0 <= i < zlen toks -> next !! Z.to_nat i = Some c -> sib !! Z.to_nat i = Some s ->
      encodes c tc -> encodes s ts -> encodes i (Branch i tc ts).

Definition in_vocab (t : Z) : bool :=
  match vocab_size with Some v => (v =? 0) || (t <? v) | None => true end.

(** Token [t] may follow in state [g]. *)
Definition permits (g : G) (t : Z) : Prop := in_vocab t = true /\ mask_bit (vocab_mask g) t = Ok true.

(** [reaches g t j h]: walking down [t] from state [g] along permitted tokens reaches
    node [j], and the grammar is then in state [h]. *)
Inductive reaches : G -> fcns -> Z -> G -> Prop :=
  | reaches_here g i c s t g' : toks !! Z.to_nat i = Some t -> permits g t -> accept_token g t = Ok g' ->
      reaches g (Branch i c s) i g'
  | reaches_child g i c s t g' j h : toks !! Z.to_nat i = Some t -> permits g t -> accept_token g t = Ok g' ->
      is_terminated g' = false -> reaches g' c j h -> reaches g (Branch i c s) j h
  | reaches_sibling g i c s j h : reaches g s j h -> reaches g (Branch i c s) j h.

(** The rows [rows'] are [rows] with the mask of every reached node filled in. *)
Definition filled (g : G) (t : fcns) (rows rows' : list (list Z)) : Prop :=
  length rows' = length rows
  /\ (forall j h, 0 <= j -> reaches g t j h -> is_terminated h = false -> rows' !! Z.to_nat j = Some (vocab_mask h))
  /\ (forall j, 0 <= j -> (forall h, reaches g t j h -> is_terminated h = true) -> rows' !! Z.to_nat j = rows !! Z.to_nat j).

Lemma reaches_node g t j h : reaches g t j h -> j ∈ tree_nodes_of t.
Proof. induction 1; simpl; set_solver. Qed.

Lemma encodes_nodes i t : encodes i t -> Forall (fun j => 0 <= j < zlen toks) (tree_nodes_of t).
Proof. induction 1; simpl; [constructor|]. constructor; [done|]. by apply Forall_app. Qed.

Lemma encodes_root i t : encodes i t -> i <> -1 -> exists c s, t = Branch i c s.
Proof. destruct 1; [done|eauto]. Qed.

(** The mask of the tokens is long enough for every mask lookup. *)
Context (Hmask : forall g t, t ∈ toks -> in_vocab t = true -> exists b, mask_bit (vocab_mask g) t = Ok b).

Lemma token_accepted_eq rows i p g t : i <> 0 -> 0 <= i -> toks !! Z.to_nat i = Some t ->
  0 <= p -> rows !! Z.to_nat p = Some (vocab_mask g) ->
  exists b, token_accepted toks vocab_size rows i p = Ok b /\ (b = true <-> permits g t).
Proof.
  intros Hi H0 Ht Hp Hr. unfold token_accepted. destruct (Z.eqb_spec i 0); [done|].
  rewrite (tensor_at_in rows p _ Hp Hr). cbn [res_bind]. rewrite (tensor_at_in toks i t H0 Ht). cbn [res_bind].
  assert (in_vocab t = true -> exists b, mask_bit (vocab_mask g) t = Ok b /\ (b = true <-> permits g t)) as Hin.
  { intros Hv. destruct (Hmask g t) as [b Hb]; [by eapply list_elem_of_lookup_2|done|]. exists b. split; [done|].
    unfold permits. rewrite Hb. split; [by intros ->|]. by intros [_ [= ->]]. }
  unfold in_vocab in Hin. destruct vocab_size as [v|] eqn:Ev; [|by apply Hin].
  destruct (Z.eqb_spec v 0), (Z.leb_spec v t); simpl in *; try (by apply Hin);
    try (apply Hin; apply Z.ltb_lt; lia).
  exists false. split; [done|]. split; [done|]. unfold permits, in_vocab. rewrite Ev. intros [Hv _].
  destruct (Z.eqb_spec v 0); [done|]. simpl in Hv. apply Z.ltb_lt in Hv. lia.
Qed.

Lemma reaches_split g i tc ts j h : reaches g (Branch i tc ts) j h <->
  reaches g (Branch i tc Leaf) j h \/ reaches g ts j h.
Proof.
  split.
  - intros H. inversion H; subst; [left; by eapply reaches_here|left; by eapply reaches_child|by right].
  - intros [H|H]; [|by apply reaches_sibling].
    inversion H as [| |? ? ? ? ? ? Hl]; subst; [by eapply reaches_here|by eapply reaches_child|inversion Hl].
Qed.

Lemma filled_sibling g i tc ts rows rows1 rows2 : NoDup (tree_nodes_of (Branch i tc ts)) ->
  filled g (Branch i tc Leaf) rows rows1 -> filled g ts rows1 rows2 -> filled g (Branch i tc ts) rows rows2.
Proof.
  intros Hnd (L1 & A1 & B1) (L2 & A2 & B2).
  assert (forall j h, reaches g (Branch i tc Leaf) j h -> j ∉ tree_nodes_of ts) as Hdis.
  { intros j h Hr%reaches_node. simpl in Hr, Hnd. rewrite app_nil_r in Hr.
    apply NoDup_cons in Hnd as [Hni Hnd]. apply NoDup_app in Hnd as (_ & Hd & _).
    apply elem_of_cons in Hr as [->|Hr]; [set_solver|by apply Hd]. }
  split_and!; [lia| |].
  - intros j h H0 Hr Ht. apply reaches_split in Hr as [Hr|Hr]; [|by apply A2].
    rewrite B2; [by apply A1|done|]. intros h' Hr'%reaches_node. by apply (Hdis j h) in Hr'.
  - intros j Hj Hn. rewrite B2, B1; [done|done| |done|]; intros h Hr; apply Hn, reaches_split; tauto.
Qed.

Lemma filled_child g i t g' tc rows rows1 : 0 <= i < zlen rows -> toks !! Z.to_nat i = Some t -> permits g t ->
  accept_token g t = Ok g' -> is_terminated g' = false -> i ∉ tree_nodes_of tc ->
  filled g' tc (<[Z.to_nat i := vocab_mask g']> rows) rows1 -> filled g (Branch i tc Leaf) rows rows1.
Proof.
  intros Hi Ht Hp Ha Hg Hni (L1 & A1 & B1). rewrite length_insert in L1.
  assert (forall j h, reaches g (Branch i tc Leaf) j h <-> (j = i /\ h = g') \/ reaches g' tc j h) as Hr.
  { intros j h. split.
    - intros H. inversion H as [? ? ? ? t' ? Ht'|? ? ? ? t' g2 ? ? Ht' _ Ha' _ Hc|? ? ? ? ? ? Hl]; subst; [..|inversion Hl];
        rewrite Ht in Ht'; injection Ht' as <-; [left|right]; split_and?; congruence.
    - intros [[-> ->]|Hc]; [by eapply reaches_here|by eapply reaches_child]. }
  split_and!; [done| |].
  - intros j h H0 [[-> ->]|Hc]%Hr Hh; [|by apply A1].
    rewrite B1; [|done|intros h' Hr'%reaches_node; done].
    apply list_lookup_insert_eq. unfold zlen in Hi. lia.
  - intros j Hj Hn. rewrite B1; [|done|intros h Hc; apply Hn, Hr; by right].
    apply list_lookup_insert_ne. intros He. assert (j = i) as -> by lia.
    specialize (Hn g' ltac:(apply Hr; by left)). congruence.
Qed.

Lemma filled_stop g i tc rows : 
  (forall t, toks !! Z.to_nat i = Some t -> permits g t -> exists g', accept_token g t = Ok g' /\ is_terminated g' = true) ->
  filled g (Branch i tc Leaf) rows rows.
Proof.
  intros Hs. assert (forall j h, reaches g (Branch i tc Leaf) j h -> is_terminated h = true) as Hr.
  { intros j h H. inversion H as [? ? ? ? t' ? Ht' Hp Ha|? ? ? ? t' g2 ? ? Ht' Hp Ha Hg|? ? ? ? ? ? Hl]; subst; [..|inversion Hl];
      destruct (Hs t' Ht' Hp) as (g3 & Ha' & Hg3); congruence. }
  split_and!; [done| |done]. intros j h _ H Hh. specialize (Hr j h H). congruence.
Qed.

Lemma branch_facts i tc ts x : x ∉ tree_nodes_of (Branch i tc ts) ->
  x <> i /\ (x ∉ tree_nodes_of tc) /\ (x ∉ tree_nodes_of ts).
Proof. simpl. rewrite not_elem_of_cons, not_elem_of_app. done. Qed.

Lemma branch_NoDup i tc ts : NoDup (tree_nodes_of (Branch i tc ts)) ->
  (i ∉ tree_nodes_of tc) /\ NoDup (tree_nodes_of tc) /\ NoDup (tree_nodes_of ts).
Proof. simpl. rewrite NoDup_cons, not_elem_of_app, NoDup_app. tauto. Qed.

Lemma filled_leaf g rows : filled g Leaf rows rows.
Proof. split_and!; [done| |done]. intros j h _ Hr. inversion Hr. Qed.

(** [dfs] restores the grammar and fills exactly the rows of the reached nodes. *)
Definition dfs_spec (fuel : nat) : Prop := forall i t p g rows,
  encodes i t -> i <> -1 -> NoDup (tree_nodes_of t) -> 0 ∉ tree_nodes_of t -> p ∉ tree_nodes_of t -> 0 <= p ->
  zlen rows = zlen toks -> rows !! Z.to_nat p = Some (vocab_mask g) -> is_terminated g = false ->
  (length (tree_nodes_of t) <= fuel)%nat ->
  exists rows', dfs next sib toks vocab_size fuel i p g rows = Ok (g, rows') /\ filled g t rows rows'.

(** Visiting the children of node [i] in a live state. *)
Lemma dfs_children fuel i c tc g rows : dfs_spec fuel ->
  encodes c tc -> NoDup (tree_nodes_of tc) -> i ∉ tree_nodes_of tc -> 0 ∉ tree_nodes_of tc ->
  0 <= i < zlen toks -> next !! Z.to_nat i = Some c -> zlen rows = zlen toks -> is_terminated g = false ->
  (length (tree_nodes_of tc) <= fuel)%nat ->
  exists rows1,
    (let* rows := fill_vocab_mask rows i g in
     let* child := tensor_at next i in
     if child =? -1 then Ok (g, rows) else dfs next sib toks vocab_size fuel child i g rows) = Ok (g, rows1)
    /\ filled g tc (<[Z.to_nat i := vocab_mask g]> rows) rows1.
Proof.
  intros IH Hec Hnd Hitc H0 Hir Hnx Hl Hg Hf. unfold fill_vocab_mask. rewrite wrap_index_in by lia. cbn [res_bind].
  rewrite (tensor_at_in next i c ltac:(lia) Hnx). cbn [res_bind].
  destruct (Z.eqb_spec c (-1)) as [->|Hc].
  - inversion Hec; subst; [|lia]. eexists. split; [done|]. apply filled_leaf.
  - apply IH; try done; try lia.
    + unfold zlen in *. by rewrite length_insert.
    + apply list_lookup_insert_eq. unfold zlen in *. lia.
Qed.

Lemma dfs_ok fuel : dfs_spec fuel.
Proof.
  induction fuel as [|fuel IH]; intros i t p g rows He Hi Hnd H0 Hp Hp0 Hl Hpr Hg Hf;
    destruct (encodes_root _ _ He Hi) as (tc & ts & ->); [simpl in Hf; lia|].
  inversion He as [|? c s ? ? Hir Hnx Hsb Hec Hes]; subst.
  apply branch_facts in H0 as (Hi0 & H0c & H0s). apply branch_facts in Hp as (Hpi & Hpc & Hps).
  destruct (branch_NoDup _ _ _ Hnd) as (Hitc & Hndc & Hnds). simpl in Hf. rewrite length_app in Hf.
  destruct (lookup_lt_is_Some_2 toks (Z.to_nat i)) as [t Ht]; [unfold zlen in Hir; lia|].
  destruct (token_accepted_eq rows i p g t ltac:(lia) ltac:(lia) Ht Hp0 Hpr) as (b & Hb & Hbp).
  cbn [dfs]. rewrite Hb. cbn [res_bind]. rewrite !(proj2 (Z.eqb_neq i 0)) by lia.
  match goal with |- context [res_bind ?m _] => set (node := m) end.
  assert (exists rows1, node = Ok (g, rows1) /\ filled g (Branch i tc Leaf) rows rows1) as (rows1 & -> & Hfill).
  { unfold node. destruct b.
    2:{ exists rows. split; [done|]. apply filled_stop. intros t' Ht' Hperm. rewrite Ht in Ht'. injection Ht' as <-.
        by apply Hbp in Hperm. }
    assert (permits g t) as Hperm by (by apply Hbp).
    destruct (accept_allowed g t Hg (proj2 Hperm)) as (g' & Ha & Hroll).
    rewrite (tensor_at_in toks i t ltac:(lia) Ht). cbn [res_bind]. rewrite Ha. cbn [res_bind].
    destruct (is_terminated g') eqn:Hg'; cbn [res_bind].
    { rewrite Hroll. cbn [res_bind]. exists rows. split; [done|]. apply filled_stop. intros t' Ht' _.
      rewrite Ht in Ht'. injection Ht' as <-. by exists g'. }
    destruct (dfs_children fuel i c tc g' rows IH Hec Hndc Hitc H0c Hir Hnx Hl Hg' ltac:(lia)) as (rows1 & -> & Hf1).
    cbn [res_bind]. rewrite Hroll. cbn [res_bind]. exists rows1. split; [done|].
    apply (filled_child g i t g' tc rows rows1); (done || lia). }
  cbn [res_bind]. rewrite (tensor_at_in sib i s ltac:(lia) Hsb). cbn [res_bind].
  destruct (Z.eqb_spec s (-1)) as [->|Hs].
  { inversion Hes; subst; [|lia]. by exists rows1. }
  destruct (IH s ts p g rows1) as (rows2 & HR & Hf2); try done; try lia.
  - destruct Hfill as (? & _). unfold zlen in *. lia.
  - destruct Hfill as (_ & _ & HB). rewrite HB; [done|done|]. intros h Hr%reaches_node. simpl in Hr.
    rewrite app_nil_r in Hr. apply elem_of_cons in Hr as [->|Hr]; done.
  - exists rows2. split; [done|]. by eapply filled_sibling.
Qed.
End Spec.

(** ** Grammars over a matcher *)

(** The third-party matcher: an accepted token is one its mask allows, and rolling
    back one token undoes an acceptance. *)
Class GrammarMatcher (M : Type) : Type := {
  matcher_accept : M -> Z -> option M;
  matcher_rollback : M -> Z -> M;
  matcher_terminated : M -> bool;
  matcher_bitmask : M -> list Z;
  matcher_allowed : forall m t, matcher_terminated m = false -> mask_bit (matcher_bitmask m) t = Ok true ->
    exists m', matcher_accept m t = Some m' /\ matcher_rollback m' 1 = m
}.

(** [current_token] is left out: only [__repr__] reads it. *)
Record XGrammarGrammar (M : Type) : Type := MkXGrammar {
  matcher : M;
  accepted_tokens : list Z
}.
Arguments MkXGrammar {M}.
Arguments matcher {M}.
Arguments accepted_tokens {M}.

Section XGrammar.
Context {M : Type} `{Matcher : GrammarMatcher M}.

Definition xgrammar_accept_token (g : XGrammarGrammar M) (token : Z) : res (XGrammarGrammar M) :=
  if matcher_terminated (matcher g) then Ok g
  else match matcher_accept (matcher g) token with
       | None => Raise ValueError
       | Some m => Ok (MkXGrammar m (accepted_tokens g ++ [token]))
       end.

Definition xgrammar_rollback (g : XGrammarGrammar M) (k : Z) : res (XGrammarGrammar M) :=
  Ok (MkXGrammar (matcher_rollback (matcher g) k) (py_upto (accepted_tokens g) (- k))).

Lemma py_upto_drop_last {A} (l : list A) x : py_upto (l ++ [x]) (-1) = l.
Proof.
  unfold py_upto, py_slice. rewrite zlen_app. change (zlen [x]) with 1. unfold clamp_idx. simpl.
  pose proof (zlen_nonneg l). rewrite (Z.min_l 0), Z.max_r, drop_0 by lia.
  replace (Z.to_nat (-1 + (zlen l + 1) - 0)) with (length l) by (unfold zlen in *; lia). by rewrite take_app_length.
Qed.

#[export] Program Instance xgrammar_object : GrammarObject (XGrammarGrammar M) := {
  accept_token := xgrammar_accept_token;
  rollback := xgrammar_rollback;
  is_terminated g := matcher_terminated (matcher g);
  vocab_mask g := matcher_bitmask (matcher g);
}.
Next Obligation.
  intros [m l] t Ht Hb. simpl in *. destruct (matcher_allowed m t Ht Hb) as (m' & Ha & Hr).
  exists (MkXGrammar m' (l ++ [t])). unfold xgrammar_accept_token, xgrammar_rollback. simpl. rewrite Ht, Ha, Hr.
  split; [done|]. by rewrite py_upto_drop_last.
Qed.
End XGrammar.

(** ** The theorem *)

(** C33: [traverse_tree] computes the masks of structured output for a draft tree.  For
    arrays that hold a tree rooted at node 0, with any grammar that satisfies
    [GrammarObject], the traversal raises nothing, leaves the grammar in the state it
    found it in, and fills row [j] of the mask exactly for the nodes [j] that are
    reached from the root along tokens the grammar permits, each with the mask of the
    grammar after that path; rows of other nodes are not touched. *)
Theorem traverse_tree_masks {G : Type} {Grammar : GrammarObject G} next sib toks vocab_size (g : G) rows c tc
    (Hmask : forall (g : G) t, t ∈ toks -> in_vocab vocab_size t = true -> exists b, mask_bit (vocab_mask g) t = Ok b)
    (Hnext : length next = length toks) (Hsib : length sib = length toks) (Hrows : zlen rows = zlen toks)
    (Hroot : next !! 0%nat = Some c) (Hroots : sib !! 0%nat = Some (-1))
    (Htree : encodes next sib toks c tc) (Hnodes : NoDup (0 :: tree_nodes_of tc)) :
  exists rows', traverse_tree next sib toks vocab_size g rows = Ok (g, rows') /\ length rows' = length rows
    /\ (is_terminated g = true -> rows' = rows)
    /\ (is_terminated g = false -> rows' !! 0%nat = Some (vocab_mask g)
        /\ (forall j h, reaches toks vocab_size g tc j h -> is_terminated h = false ->
              rows' !! Z.to_nat j = Some (vocab_mask h))
        /\ (forall j, 0 < j -> (forall h, reaches toks vocab_size g tc j h -> is_terminated h = true) ->
              rows' !! Z.to_nat j = rows !! Z.to_nat j)).
Proof.
  apply NoDup_cons in Hnodes as [H0 Hnd]. pose proof (lookup_lt_Some _ _ _ Hroot) as H0n.
  assert (0 <= 0 < zlen toks) as Hz by (unfold zlen; lia).
  unfold traverse_tree. unfold zlen. rewrite Hnext, Hsib, !Z.eqb_refl. cbn [andb py_assert res_bind].
  cbn [dfs]. change (token_accepted toks vocab_size rows 0 (-1)) with (Ok true : res bool).
  cbn [res_bind Z.eqb]. pose proof (tensor_at_in sib 0 (-1) ltac:(lia) Hroots) as Hs.
  destruct (is_terminated g) eqn:Hg; cbn [res_bind].
  { rewrite Hs. cbn [res_bind]. exists rows. by split_and!. }
  pose proof (Forall_forall (fun j => 0 <= j < zlen toks) (tree_nodes_of tc)) as Hfa.
  pose proof (proj1 Hfa (encodes_nodes next sib toks c tc Htree)) as Hin.
  destruct (dfs_children next sib toks vocab_size (length toks) 0 c tc g rows (dfs_ok _ _ _ _ Hmask _) Htree Hnd H0 H0 Hz Hroot Hrows Hg)
    as (rows1 & -> & (Hl & HA & HB)).
  { assert (length (tree_nodes_of tc) <= length (zrange 0 (zlen toks)))%nat as Hle.
    { apply submseteq_length, NoDup_submseteq; [done|]. intros j Hj. apply elem_of_zrange, Hin, Hj. }
    unfold zrange in Hle. rewrite length_seqZ in Hle. unfold zlen in *. lia. }
  cbn [res_bind]. rewrite Hs. cbn [res_bind]. rewrite length_insert in Hl. exists rows1. split_and!; try done. intros _. split_and!.
  - change 0%nat with (Z.to_nat 0). rewrite (HB 0 ltac:(lia)); [|by intros h Hr%reaches_node]. apply list_lookup_insert_eq. unfold zlen in *. lia.
  - intros j h Hr Hh. apply (HA j h); [|done|done]. apply reaches_node, Hin in Hr. lia.
  - intros j Hj Hn. rewrite (HB j ltac:(lia) Hn). apply list_lookup_insert_ne. lia.
Qed.

(** A matcher that allows the tokens 1 and 2 and ends after three tokens. *)
Definition sample_accept (m : list Z) (t : Z) : option (list Z) :=
  match mask_bit [6] t with Ok true => Some (t :: m) | _ => None end.

#[export] Program Instance sample_matcher : GrammarMatcher (list Z) := {
  matcher_accept := sample_accept;
  matcher_rollback m k := drop (Z.to_nat k) m;
  matcher_terminated m := (3 <=? zlen m);
  matcher_bitmask _ := [6]
}.
Next Obligation. intros m t Ht Hb. unfold sample_accept. rewrite Hb. by exists (t :: m). Qed.

(** The chain 0 - 1 - 3 with the sibling 2 of node 1; token 5 is not permitted. *)
Lemma traverse_tree_masks_witness :
  exists rows', traverse_tree [1; 3; -1; -1] [-1; 2; -1; -1] [9; 1; 5; 2] (Some 32)
      (MkXGrammar ([] : list Z) []) [[0]; [0]; [0]; [0]] = Ok (MkXGrammar [] [], rows')
    /\ rows' !! 3%nat = Some [6].
Proof.
  destruct (traverse_tree_masks [1; 3; -1; -1] [-1; 2; -1; -1] [9; 1; 5; 2] (Some 32)
              (MkXGrammar ([] : list Z) []) [[0]; [0]; [0]; [0]] 1
              (Branch 1 (Branch 3 Leaf Leaf) (Branch 2 Leaf Leaf))) as (rows' & Hrun & _ & _ & Hlive).
  - intros g t Ht _. exists (match mask_bit [6] t with Ok b => b | Raise _ => false end).
    rewrite !elem_of_cons in Ht. destruct Ht as [->|[->|[->|[->|Ht]]]]; [reflexivity..|by apply not_elem_of_nil in Ht].
  - reflexivity.
  - reflexivity.
  - reflexivity.
  - reflexivity.
  - reflexivity.
  - repeat first [apply enc_leaf | eapply enc_branch; [vm_compute; intuition discriminate|reflexivity|reflexivity|..]].
  - apply (bool_decide_unpack _). vm_compute. exact I.
  - exists rows'. split; [exact Hrun|]. destruct (Hlive eq_refl) as (_ & Hr & _).
    refine (Hr 3 (MkXGrammar [2; 1] [1; 2]) _ eq_refl).
    eapply reaches_child; [reflexivity|by split|reflexivity|reflexivity|].
    eapply reaches_here; [reflexivity|by split|reflexivity].
Defined.
