(* ===== verification/Adaptive.v ===== *)
(** Adaptive speculative decoding: [AdaptiveSpeculativeParams] and
    [adaptive_unsupported_reason] of [speculative/adaptive_spec_params.py] and
    [AdaptiveController] of [speculative/adaptive_runtime_state.py].

    Python floats are the binary64 numbers of the Standard Library's [SpecFloat].
    Integers are converted exactly up to [2^53], which bounds the step and token
    counts that occur here. *)

From Stdlib Require Import Floats.SpecFloat.
From stdpp Require Export gmap strings pretty.
From S2P Require Export Prelude.

(** ** Floats *)

Abbreviation pyfloat := spec_float.
Definition float_of_int (z : Z) : pyfloat := binary_normalize 53 1024 z 0 false.
Definition fadd : pyfloat -> pyfloat -> pyfloat := SFadd 53 1024.
Definition fsub : pyfloat -> pyfloat -> pyfloat := SFsub 53 1024.
Definition fmul : pyfloat -> pyfloat -> pyfloat := SFmul 53 1024.
Definition fdiv : pyfloat -> pyfloat -> pyfloat := SFdiv 53 1024.
Definition fleb : pyfloat -> pyfloat -> bool := SFleb.
Definition fltb : pyfloat -> pyfloat -> bool := SFltb.

(** Float literals *)
Definition lit_half : pyfloat := fdiv (float_of_int 1) (float_of_int 2).
Definition lit_0_2 : pyfloat := fdiv (float_of_int 2) (float_of_int 10).
Definition lit_m0_25 : pyfloat := fdiv (float_of_int (-1)) (float_of_int 4).
Definition lit_0 : pyfloat := float_of_int 0.

(** ** When adaptive decoding is supported *)

Record ServerArgs : Type := MkServerArgs {
  speculative_algorithm : option string;
  speculative_eagle_topk : option Z;
  enable_dp_attention : bool;
  disable_overlap_schedule : bool;
  enable_multi_layer_eagle : bool;
  enable_two_batch_overlap : bool;
  enable_pdmux : bool
}.

Definition show_opt_string (s : option string) : string := match s with Some s => s | None => "None" end.
Definition show_opt_int (z : option Z) : string := match z with Some z => pretty z | None => "None" end.

Definition adaptive_unsupported_reason (server_args : ServerArgs) : option string :=
  if negb (bool_decide (speculative_algorithm server_args = Some "EAGLE"%string)
           || bool_decide (speculative_algorithm server_args = Some "EAGLE3"%string)) then
    Some ("speculative_algorithm=" +:+ show_opt_string (speculative_algorithm server_args)
          +:+ " (only EAGLE/EAGLE3 are supported)")%string
  else if negb (bool_decide (speculative_eagle_topk server_args = Some 1)) then
    Some ("speculative_eagle_topk=" +:+ show_opt_int (speculative_eagle_topk server_args)
          +:+ " (only topk=1 is supported)")%string
  else if enable_dp_attention server_args then
    Some ("enable_dp_attention=True is not supported "
          +:+ "(adaptive tier decisions are not synchronized across DP ranks)")%string
  else if negb (disable_overlap_schedule server_args) then
    Some ("the overlap scheduler (spec v2) is enabled "
          +:+ "(adaptive is only implemented for EAGLEWorker v1)")%string
  else if enable_multi_layer_eagle server_args then
    Some ("enable_multi_layer_eagle=True is not supported "
          +:+ "(MultiLayerEagleWorker does not implement adaptive)")%string
  else if enable_two_batch_overlap server_args then
    Some ("enable_two_batch_overlap=True is not supported "
          +:+ "(adaptive state swap would discard the TboAttnBackend wrapper)")%string
  else if enable_pdmux server_args then
    Some ("enable_pdmux=True is not supported "
          +:+ "(adaptive state swap does not update decode_attn_backend_group)")%string
  else None.

(** ** Parameters *)

(** The keys of the configuration object; [None] is a missing key. *)
Record adaptive_config : Type := MkAdaptiveConfig {
  c_candidate_steps : option (list Z);
  c_ema_alpha : option pyfloat;
  c_update_interval : option Z;
  c_warmup_batches : option Z;
  c_down_hysteresis : option pyfloat;
  c_up_hysteresis : option pyfloat
}.

Definition empty_config : adaptive_config := MkAdaptiveConfig None None None None None None.

(** A parsed JSON document, as far as the loader distinguishes: an object or not. *)
Inductive json : Type :=
  | JObject (cfg : adaptive_config)
  | JOther.

(** [read_json] opens and parses the file. *)
Definition load_adaptive_config (read_json : string -> res json) (path : option string) : res adaptive_config :=
  match path with
  | None => Ok empty_config
  | Some path =>
      let* cfg := read_json path in
      match cfg with
      | JObject cfg => Ok cfg
      | JOther => Raise ValueError
      end
  end.

Record AdaptiveSpeculativeParams : Type := MkAdaptive {
  candidate_steps : list Z;
  min_steps : Z;
  max_steps : Z;
  ema_alpha : pyfloat;
  update_interval : Z;
  warmup_batches : Z;
  down_hysteresis : pyfloat;
  up_hysteresis : pyfloat;
  current_steps : Z;
  ema_accept_len : pyfloat;
  batch_count : Z
}.

(** [sorted(set(l))] *)
Definition sorted_set (l : list Z) : list Z := merge_sort Z.le (remove_dups l).

(** [min(l, key=lambda step: (abs(step - initial), -step))]: the first of the least. *)
Definition key_lt (initial a b : Z) : bool :=
  (Z.abs (a - initial) <? Z.abs (b - initial))
  || ((Z.abs (a - initial) =? Z.abs (b - initial)) && (- a <? - b)).

Fixpoint min_by (initial best : Z) (l : list Z) : Z :=
  match l with
  | [] => best
  | x :: l => min_by initial (if key_lt initial x best then x else best) l
  end.

Definition adaptive_init (initial_steps : Z) (cfg : adaptive_config) : res AdaptiveSpeculativeParams :=
  let candidate_steps := sorted_set (default [1; 3; 7] (c_candidate_steps cfg)) in
  let* _ := py_assert (2 <=? zlen candidate_steps) in
  match candidate_steps, last candidate_steps with
  | first :: rest, Some max_steps =>
      let current_steps := min_by initial_steps first rest in
      Ok (MkAdaptive candidate_steps first max_steps
            (default lit_0_2 (c_ema_alpha cfg)) (default 5 (c_update_interval cfg))
            (default 10 (c_warmup_batches cfg)) (default lit_m0_25 (c_down_hysteresis cfg))
            (default lit_0 (c_up_hysteresis cfg)) current_steps
            (float_of_int (current_steps - 1)) 0)
  | _, _ => Raise IndexError
  end.

Definition set_ema (p : AdaptiveSpeculativeParams) (ema : pyfloat) (count : Z) : AdaptiveSpeculativeParams :=
  MkAdaptive (candidate_steps p) (min_steps p) (max_steps p) (ema_alpha p) (update_interval p) (warmup_batches p)
    (down_hysteresis p) (up_hysteresis p) (current_steps p) ema count.

Definition set_steps (p : AdaptiveSpeculativeParams) (steps : Z) : AdaptiveSpeculativeParams :=
  MkAdaptive (candidate_steps p) (min_steps p) (max_steps p) (ema_alpha p) (update_interval p) (warmup_batches p)
    (down_hysteresis p) (up_hysteresis p) steps (ema_accept_len p) (batch_count p).

(** [l.index(x)] *)
Fixpoint list_index (l : list Z) (x : Z) : res nat :=
  match l with
  | [] => Raise ValueError
  | y :: l => if y =? x then Ok 0%nat else let* i := list_index l x in Ok (S i)
  end.

Definition drop_threshold (p : AdaptiveSpeculativeParams) (prev_step : Z) : pyfloat :=
  fadd (fsub (float_of_int prev_step) lit_half) (down_hysteresis p).
Definition rise_threshold (p : AdaptiveSpeculativeParams) (current_step : Z) : pyfloat :=
  fadd (fsub (float_of_int current_step) lit_half) (up_hysteresis p).

(** The first loop: it only decreases the index. *)
Fixpoint drop_loop (p : AdaptiveSpeculativeParams) (current_idx : nat) : nat :=
  match current_idx with
  | O => O
  | S i =>
      let prev_step := nth i (candidate_steps p) 0 in
      if fleb (ema_accept_len p) (drop_threshold p prev_step) then drop_loop p i else S i
  end.

(** The second loop; [fuel] is the number of candidates above the index. *)
Fixpoint rise_loop (p : AdaptiveSpeculativeParams) (fuel current_idx : nat) : nat :=
  match fuel with
  | O => current_idx
  | S fuel =>
      let current_step := nth current_idx (candidate_steps p) 0 in
      if fltb (rise_threshold p current_step) (ema_accept_len p) then rise_loop p fuel (S current_idx)
      else current_idx
  end.

Definition recompute_params (p : AdaptiveSpeculativeParams) : res (bool * AdaptiveSpeculativeParams) :=
  let old_steps := current_steps p in
  let* current_idx := list_index (candidate_steps p) old_steps in
  let current_idx := drop_loop p current_idx in
  let current_idx := rise_loop p (length (candidate_steps p) - 1 - current_idx) current_idx in
  let target := nth current_idx (candidate_steps p) 0 in
  if negb (target =? old_steps) then Ok (true, set_steps p target) else Ok (false, p).

Definition update (p : AdaptiveSpeculativeParams) (num_accepted_drafts_per_req : list Z)
    : res (bool * AdaptiveSpeculativeParams) :=
  match num_accepted_drafts_per_req with
  | [] => Ok (false, p)
  | _ =>
      let batch_avg := fdiv (float_of_int (zsum num_accepted_drafts_per_req))
                            (float_of_int (zlen num_accepted_drafts_per_req)) in
      let ema := fadd (fmul (fsub (float_of_int 1) (ema_alpha p)) (ema_accept_len p))
                      (fmul (ema_alpha p) batch_avg) in
      let p := set_ema p ema (batch_count p + 1) in
      if batch_count p <=? warmup_batches p then Ok (false, p)
      else if update_interval p =? 0 then Raise ZeroDivisionError
      else if negb ((batch_count p - warmup_batches p) mod update_interval p =? 0) then Ok (false, p)
      else recompute_params p
  end.

(** ** The controller *)

Section Controller.
(** [SpecRuntimeState] and the worker's [build_adaptive_runtime_state]. *)
Context {State : Type} (state_num_steps : State -> Z) (build : Z -> Z -> State).

(** The worker is represented by the runtime state it runs with. *)
Record AdaptiveController : Type := MkController {
  worker_state : option State;
  params : AdaptiveSpeculativeParams;
  states : gmap Z State
}.

Definition controller_init (read_json : string -> res json) (worker_num_steps : Z) (config_path : option string)
    : res AdaptiveController :=
  let* cfg := load_adaptive_config read_json config_path in
  let* params := adaptive_init worker_num_steps cfg in
  Ok (MkController None params ∅).

Definition register (c : AdaptiveController) (state : State) (steps : option Z) : AdaptiveController :=
  let key := match steps with Some s => s | None => state_num_steps state end in
  MkController (worker_state c) (params c) (<[key := state]> (states c)).

Definition activate (c : AdaptiveController) (speculative_num_steps : Z) : res AdaptiveController :=
  match states c !! speculative_num_steps with
  | None => Raise ValueError
  | Some state => Ok (MkController (Some state) (params c) (states c))
  end.

(** The loop of [init_states]. *)
Fixpoint build_states (steps : list Z) (m : gmap Z State) : gmap Z State :=
  match steps with
  | [] => m
  | s :: steps =>
      match m !! s with
      | Some _ => build_states steps m
      | None => build_states steps (<[s := build s (s + 1)]> m)
      end
  end.

Definition init_states (c : AdaptiveController) : res AdaptiveController :=
  let c := MkController (worker_state c) (params c) (build_states (candidate_steps (params c)) (states c)) in
  activate c (current_steps (params c)).

Definition on_verify_complete (c : AdaptiveController) (num_accepted_drafts_per_req : list Z)
    : res AdaptiveController :=
  let* (changed, p) := update (params c) num_accepted_drafts_per_req in
  let c := MkController (worker_state c) p (states c) in
  if changed then activate c (current_steps p) else Ok c.
End Controller.
Arguments MkController {State}.
Arguments worker_state {State}.
Arguments params {State}.
Arguments states {State}.

(** ** The order of floats *)

(** [SFcompare] is a lexicographic comparison of class, exponent and mantissa. *)
Definition float_rank (f : pyfloat) : option (Z * Z * Z) :=
  match f with
  | S754_nan => None
  | S754_infinity s => Some (if s then -2 else 2, 0, 0)
  | S754_zero _ => Some (0, 0, 0)
  | S754_finite s m e => Some (if s then (-1, - e, - Zpos m) else (1, e, Zpos m))
  end.

Definition rank_compare (a b : Z * Z * Z) : comparison :=
  match Z.compare a.1.1 b.1.1 with
  | Eq => match Z.compare a.1.2 b.1.2 with Eq => Z.compare a.2 b.2 | c => c end
  | c => c
  end.

Lemma SFcompare_rank f g :
  SFcompare f g = match float_rank f, float_rank g with Some a, Some b => Some (rank_compare a b) | _, _ => None end.
Proof.
  destruct f as [s|s| |s m e], g as [s'|s'| |s' m' e']; try destruct s; try destruct s'; try done; simpl;
    unfold rank_compare; simpl.
  assert ((- e ?= - e') = CompOpp (e ?= e')) as -> by (destruct (Z.compare_spec e e'), (Z.compare_spec (- e) (- e')); done || lia).
  by destruct (e ?= e').
Qed.

Lemma rank_lt_le_trans a b c : rank_compare b c = Lt -> rank_compare a b <> Gt -> rank_compare c a = Gt.
Proof.
  destruct a as [[a1 a2] a3], b as [[b1 b2] b3], c as [[c1 c2] c3]. unfold rank_compare. simpl.
  intros H1 H2.
  repeat match goal with
    | H : context [Z.compare ?x ?y] |- _ => destruct (Z.compare_spec x y); try done; try lia
    | |- context [Z.compare ?x ?y] => destruct (Z.compare_spec x y); try done; try lia
    end.
Qed.

(** [d <= r < e] excludes [e <= d]. *)
Lemma float_between d r e : fleb d r = true -> fltb r e = true -> fleb e d = false.
Proof.
  unfold fleb, fltb, SFleb, SFltb. rewrite !SFcompare_rank.
  destruct (float_rank d) as [a|]; [|done]. destruct (float_rank r) as [b|]; [|done].
  destruct (float_rank e) as [c|]; [|done]. intros H1 H2.
  rewrite (rank_lt_le_trans a b c); [done|by destruct (rank_compare b c)|by destruct (rank_compare a b)].
Qed.

(** ** Invariants *)

Lemma elem_of_sorted_set l x : x ∈ sorted_set l <-> x ∈ l.
Proof. unfold sorted_set. rewrite merge_sort_Permutation. apply elem_of_remove_dups. Qed.

Lemma sorted_set_NoDup l : NoDup (sorted_set l).
Proof. unfold sorted_set. rewrite merge_sort_Permutation. apply NoDup_remove_dups. Qed.

Lemma min_by_elem initial best l : min_by initial best l ∈ best :: l.
Proof.
  revert best. induction l as [|x l IH]; intros best; simpl; [set_solver|].
  specialize (IH (if key_lt initial x best then x else best)). case_match; set_solver.
Qed.

Lemma list_index_ok l x : x ∈ l -> exists i, list_index l x = Ok i /\ l !! i = Some x.
Proof.
  induction l as [|y l IH]; intros Hx; [by apply not_elem_of_nil in Hx|]. simpl.
  destruct (Z.eqb_spec y x) as [->|Hne]; [by exists 0%nat|].
  apply elem_of_cons in Hx as [->|Hx]; [done|]. destruct (IH Hx) as (i & -> & Hi). by exists (S i).
Qed.

(** The invariant of the parameters. *)
Record params_ok (p : AdaptiveSpeculativeParams) : Prop := {
  po_current : current_steps p ∈ candidate_steps p;
  po_nodup : NoDup (candidate_steps p)
}.

Lemma adaptive_init_ok initial cfg p : adaptive_init initial cfg = Ok p ->
  params_ok p /\ candidate_steps p = sorted_set (default [1; 3; 7] (c_candidate_steps cfg)) /\ batch_count p = 0.
Proof.
  unfold adaptive_init. set (cs := sorted_set _). destruct (2 <=? zlen cs); [|done]. cbn [py_assert res_bind].
  pose proof (sorted_set_NoDup (default [1; 3; 7] (c_candidate_steps cfg))) as Hnd. fold cs in Hnd.
  destruct cs as [|x rest]; [done|]. destruct (last (x :: rest)) as [m|]; [|done]. intros [= <-]. simpl.
  split_and!; [|done|done]. split; simpl; [apply min_by_elem|done].
Qed.

Lemma drop_loop_spec p i :
  (drop_loop p i <= i)%nat
  /\ (drop_loop p i = 0%nat \/ exists j, drop_loop p i = S j
        /\ fleb (ema_accept_len p) (drop_threshold p (nth j (candidate_steps p) 0)) = false)
  /\ (forall k, (drop_loop p i <= k < i)%nat ->
        fleb (ema_accept_len p) (drop_threshold p (nth k (candidate_steps p) 0)) = true).
Proof.
  induction i as [|i (IH1 & IH2 & IH3)]; simpl; [split_and!; [lia|by left|lia]|].
  destruct (fleb _ _) eqn:E; [|split_and!; [lia|right; by exists i|lia]].
  split_and!; [lia|done|]. intros k Hk. destruct (decide (k = i)) as [->|]; [done|]. apply IH3. lia.
Qed.

Lemma rise_loop_spec p fuel i :
  (i <= rise_loop p fuel i <= i + fuel)%nat
  /\ (rise_loop p fuel i = (i + fuel)%nat
      \/ fltb (rise_threshold p (nth (rise_loop p fuel i) (candidate_steps p) 0)) (ema_accept_len p) = false)
  /\ (forall k, (i <= k < rise_loop p fuel i)%nat ->
        fltb (rise_threshold p (nth k (candidate_steps p) 0)) (ema_accept_len p) = true).
Proof.
  revert i. induction fuel as [|fuel IH]; intros i; simpl; [split_and!; [lia|lia|left; lia|lia]|].
  destruct (fltb _ _) eqn:E; [|split_and!; [lia|lia|by right|lia]].
  destruct (IH (S i)) as (H1 & H2 & H3). split_and!; [lia|lia|destruct H2; [left; lia|by right]|].
  intros k Hk. destruct (decide (k = i)) as [->|]; [done|]. apply H3. lia.
Qed.

(** Candidate [i] needs no change for the observed acceptance length. *)
Definition stable (p : AdaptiveSpeculativeParams) (i : nat) : Prop :=
  (forall j, i = S j -> fleb (ema_accept_len p) (drop_threshold p (nth j (candidate_steps p) 0)) = false)
  /\ ((S i < length (candidate_steps p))%nat ->
      fltb (rise_threshold p (nth i (candidate_steps p) 0)) (ema_accept_len p) = false).

(** The thresholds of a candidate are in order: no candidate is both left downwards
    and upwards. *)
Definition hysteresis_ok (p : AdaptiveSpeculativeParams) : Prop :=
  Forall (fun s => fleb (drop_threshold p s) (rise_threshold p s) = true) (candidate_steps p).

Definition target_idx (p : AdaptiveSpeculativeParams) (i : nat) : nat :=
  rise_loop p (length (candidate_steps p) - 1 - drop_loop p i) (drop_loop p i).

Lemma target_idx_lt p i : (i < length (candidate_steps p))%nat -> (target_idx p i < length (candidate_steps p))%nat.
Proof.
  intros Hi. unfold target_idx. destruct (drop_loop_spec p i) as (H1 & _).
  destruct (rise_loop_spec p (length (candidate_steps p) - 1 - drop_loop p i) (drop_loop p i)) as (H2 & _). lia.
Qed.

Lemma target_idx_stable p i : hysteresis_ok p -> (i < length (candidate_steps p))%nat -> stable p (target_idx p i).
Proof.
  intros Hh Hi. unfold target_idx. destruct (drop_loop_spec p i) as (H1 & H2 & _).
  set (d := drop_loop p i) in *. set (f := (length (candidate_steps p) - 1 - d)%nat).
  destruct (rise_loop_spec p f d) as (H3 & H4 & H5). set (r := rise_loop p f d) in *. split.
  - intros j Hj. destruct (decide (r = d)) as [He|He].
    + destruct H2 as [Hz|(j' & Hd & Hf)]; [lia|]. assert (j' = j) as <- by lia. done.
    + unfold hysteresis_ok in Hh. rewrite Forall_lookup in Hh.
      destruct (lookup_lt_is_Some_2 (candidate_steps p) j) as [s Hs]; [unfold f in *; lia|].
      pose proof (Hh j s Hs) as Hds. pose proof (H5 j ltac:(lia)) as Hr.
      rewrite (nth_lookup_Some _ _ _ _ Hs) in Hr |- *. by eapply float_between.
  - intros Hlt. destruct H4 as [He|]; [unfold f in *; lia|done].
Qed.

Lemma stable_target p i : (i < length (candidate_steps p))%nat -> stable p i -> target_idx p i = i.
Proof.
  intros Hi [Hd Hr]. assert (drop_loop p i = i) as Hdl.
  { destruct i as [|j]; [done|]. simpl. by rewrite (Hd j eq_refl). }
  unfold target_idx. rewrite Hdl. destruct (length (candidate_steps p) - 1 - i)%nat eqn:E; [done|].
  simpl. by rewrite (Hr ltac:(lia)).
Qed.

Lemma index_unique p i x : NoDup (candidate_steps p) -> candidate_steps p !! i = Some x ->
  list_index (candidate_steps p) x = Ok i.
Proof.
  intros Hnd Hi. destruct (list_index_ok (candidate_steps p) x) as (j & Hj & Hx); [by eapply list_elem_of_lookup_2|].
  rewrite Hj. f_equal. by eapply NoDup_lookup.
Qed.

Lemma recompute_ok p : params_ok p -> exists b p', recompute_params p = Ok (b, p') /\ params_ok p'
  /\ candidate_steps p' = candidate_steps p /\ update_interval p' = update_interval p
  /\ (b = true <-> current_steps p' <> current_steps p) /\ (b = false -> p' = p)
  /\ exists i, candidate_steps p !! i = Some (current_steps p) /\
       current_steps p' = nth (target_idx p i) (candidate_steps p) 0 /\ p' = set_steps p (current_steps p').
Proof.
  intros [Hc Hnd]. unfold recompute_params. destruct (list_index_ok _ _ Hc) as (i & -> & Hi). cbn [res_bind].
  fold (target_idx p i). pose proof (target_idx_lt p i (lookup_lt_Some _ _ _ Hi)) as Hlt.
  set (t := nth (target_idx p i) (candidate_steps p) 0).
  assert (t ∈ candidate_steps p) as Ht.
  { destruct (lookup_lt_is_Some_2 _ _ Hlt) as [y Hy]. unfold t. rewrite (nth_lookup_Some _ _ _ _ Hy).
    by eapply list_elem_of_lookup_2. }
  destruct (Z.eqb_spec t (current_steps p)) as [He|Hne]; cbn [negb].
  - exists false, p. split_and!; try done. exists i. split_and!; [done|by rewrite <- He|by destruct p].
  - exists true, (set_steps p t). split_and!; try done. by exists i.
Qed.

Lemma update_ok p obs : params_ok p -> update_interval p <> 0 -> exists b p', update p obs = Ok (b, p') /\ params_ok p'
  /\ candidate_steps p' = candidate_steps p /\ update_interval p' = update_interval p
  /\ (b = true <-> current_steps p' <> current_steps p).
Proof.
  intros Hp Hu. unfold update. destruct obs as [|x obs].
  { exists false, p. by split_and!. }
  match goal with |- context [set_ema p ?e ?n] => set (q := set_ema p e n) end.
  assert (params_ok q) as Hq by (destruct Hp; by split). change (update_interval q) with (update_interval p).
  destruct (batch_count q <=? warmup_batches q); [exists false, q; by split_and!|].
  rewrite (proj2 (Z.eqb_neq _ _) Hu). case_match; [exists false, q; by split_and!|].
  destruct (recompute_ok q Hq) as (b & p' & Hr & Hp' & Hc & Hi & Hb & _). exists b, p'. by split_and!.
Qed.

Section ControllerProps.
Context {State : Type} (state_num_steps : State -> Z) (build : Z -> Z -> State).

Lemma build_states_spec steps m s : (s ∈ steps -> is_Some (build_states build steps m !! s))
  /\ (is_Some (m !! s) -> build_states build steps m !! s = m !! s).
Proof.
  revert m. induction steps as [|x steps IH]; intros m; simpl; [split; [set_solver|done]|].
  destruct (m !! x) as [st|] eqn:Hx.
  - destruct (IH m) as [IH1 IH2]. split; [|done].
    intros [->|Hs]%elem_of_cons; [rewrite IH2; by eauto|by apply IH1].
  - destruct (IH (<[x := build x (x + 1)]> m)) as [IH1 IH2]. split.
    + intros [->|Hs]%elem_of_cons; [|by apply IH1]. rewrite IH2; rewrite lookup_insert_eq; eauto.
    + intros Hs. assert (s <> x) by (intros ->; rewrite Hx in Hs; by destruct Hs).
      rewrite IH2; rewrite lookup_insert_ne; done.
Qed.

(** After initialisation the worker runs with the state of the current steps, and
    every candidate has a state. *)
Record controller_ok (c : AdaptiveController (State := State)) : Prop := {
  co_params : params_ok (params c);
  co_interval : update_interval (params c) <> 0;
  co_states s : s ∈ candidate_steps (params c) -> is_Some (states c !! s);
  co_worker : worker_state c = states c !! current_steps (params c)
}.

Lemma init_states_ok c : params_ok (params c) -> update_interval (params c) <> 0 ->
  exists c', init_states build c = Ok c' /\ controller_ok c' /\ params c' = params c
    /\ (forall s st, states c !! s = Some st -> states c' !! s = Some st).
Proof.
  intros Hp Hu. unfold init_states, activate. simpl.
  set (m := build_states build (candidate_steps (params c)) (states c)).
  destruct (build_states_spec (candidate_steps (params c)) (states c) (current_steps (params c))) as [[st Hst] _];
    [apply Hp|]. fold m in Hst. rewrite Hst. eexists. split; [done|]. split_and!; [|done|].
  - split; simpl; [done..| |done]. intros s Hs. by apply build_states_spec.
  - intros s st' Hs. simpl. unfold m. rewrite (proj2 (build_states_spec _ _ s)); by rewrite Hs.
Qed.

Lemma on_verify_ok c obs : controller_ok c -> exists c', on_verify_complete c obs = Ok c' /\ controller_ok c'
  /\ states c' = states c /\ candidate_steps (params c') = candidate_steps (params c).
Proof.
  intros [Hp Hu Hs Hw]. unfold on_verify_complete.
  destruct (update_ok (params c) obs Hp Hu) as (b & p & -> & Hp' & Hc & Hi & Hb). cbn [res_bind].
  destruct b.
  - unfold activate. simpl. destruct (Hs (current_steps p)) as [st Hst]; [rewrite <- Hc; apply Hp'|].
    rewrite Hst. eexists. split_and!; [done| |done|done]. split; simpl; try done; [congruence|by rewrite Hc].
  - eexists. split_and!; [done| |done|done]. split; simpl; try done; [congruence|by rewrite Hc|].
    rewrite Hw. f_equal. destruct (decide (current_steps p = current_steps (params c))) as [->|Hne]; [done|].
    by apply Hb in Hne.
Qed.

(** The worker's calls after every verification, in order. *)
Fixpoint observe (c : AdaptiveController (State := State)) (history : list (list Z)) : res AdaptiveController :=
  match history with
  | [] => Ok c
  | obs :: history => let* c := on_verify_complete c obs in observe c history
  end.

Lemma observe_ok c history : controller_ok c -> exists c', observe c history = Ok c' /\ controller_ok c'
  /\ states c' = states c /\ candidate_steps (params c') = candidate_steps (params c).
Proof.
  revert c. induction history as [|obs history IH]; intros c Hc; simpl; [by exists c|].
  destruct (on_verify_ok c obs Hc) as (c1 & -> & Hc1 & Hs1 & Hcs1). cbn [res_bind].
  destruct (IH c1 Hc1) as (c2 & H2 & Hc2 & Hs2 & Hcs2). exists c2. split_and!; try done; congruence.
Qed.
End ControllerProps.

(** ** Theorems *)

(** [_recompute_params] settles.  When the two thresholds of every candidate are in
    order, it never raises, moves to a candidate at which neither the drop nor the rise
    condition holds any more, reports a change exactly when the step count changed, and
    running it again without new observations changes nothing. *)
Theorem recompute_settles p (Hp : params_ok p) (Hh : hysteresis_ok p) :
  exists b p' i, recompute_params p = Ok (b, p') /\ candidate_steps p !! i = Some (current_steps p')
    /\ stable p i /\ (b = true <-> current_steps p' <> current_steps p)
    /\ recompute_params p' = Ok (false, p').
Proof.
  destruct (recompute_ok p Hp) as (b & p' & Hr & Hp' & Hc & Hu & Hb & Hf & i & Hi & Ht & Hset).
  pose proof (target_idx_lt p i (lookup_lt_Some _ _ _ Hi)) as Hlt.
  destruct (lookup_lt_is_Some_2 _ _ Hlt) as [y Hy]. rewrite (nth_lookup_Some _ _ _ _ Hy) in Ht.
  pose proof (target_idx_stable p i Hh (lookup_lt_Some _ _ _ Hi)) as Hst.
  exists b, p', (target_idx p i). split; [done|]. split; [by rewrite Ht|].
  split; [done|]. split; [done|]. rewrite Hset. unfold recompute_params. simpl.
  rewrite (index_unique p (target_idx p i) (current_steps p') (po_nodup _ Hp)) by (by rewrite Ht). cbn [res_bind].
  assert (stable (set_steps p (current_steps p')) (target_idx p i)) as Hst' by exact Hst.
  pose proof (stable_target (set_steps p (current_steps p')) (target_idx p i) Hlt Hst') as Hfix.
  unfold target_idx in Hfix at 1. simpl in Hfix. rewrite Hfix.
  rewrite (nth_lookup_Some _ _ _ _ Hy), Ht, Z.eqb_refl. by destruct p.
Qed.

(** The parameters with the default configuration, after a run of long acceptances. *)
Definition sample_params : AdaptiveSpeculativeParams :=
  MkAdaptive [1; 3; 7] 1 7 lit_0_2 5 10 lit_m0_25 lit_0 3 (float_of_int 4) 15.

Lemma recompute_settles_witness :
  exists b p' i, recompute_params sample_params = Ok (b, p') /\ [1; 3; 7] !! i = Some (current_steps p')
    /\ stable sample_params i.
Proof.
  destruct (recompute_settles sample_params) as (b & p' & i & Hr & Hi & Hs & _).
  - split; [right; left|]. apply (bool_decide_unpack _). vm_compute. exact I.
  - repeat constructor.
  - exists b, p', i. exact (conj Hr (conj Hi Hs)).
Defined.


