(* ===== verification/SpecInfo.v ===== *)
(** Speculative algorithms and their registry: [speculative/spec_info.py] and
    [speculative/spec_registry.py].

    Strings are ASCII.  Plugin algorithms use the class [CustomSpecAlgo] itself; a
    factory is identified by the worker it returns. *)

From S2P Require Export Prelude Adaptive.

(** [s.upper()] *)
Fixpoint py_upper (s : string) : string :=
  match s with
  | EmptyString => EmptyString
  | String c s =>
      let n := Ascii.nat_of_ascii c in
      String (if Nat.leb 97 n && Nat.leb n 122 then Ascii.ascii_of_nat (n - 32) else c) (py_upper s)
  end.

Inductive SpeculativeAlgorithm : Type :=
  | DFLASH | EAGLE | EAGLE3 | FROZEN_KV_MTP | STANDALONE | NGRAM | NONE.

#[export] Instance SpeculativeAlgorithm_eq_dec : EqDecision SpeculativeAlgorithm.
Proof. solve_decision. Defined.

(** The worker classes that [create_worker] can return. *)
Inductive Worker : Type :=
  | DFlashWorker | FrozenKVMTPWorker
  | MultiLayerEagleWorker | MultiLayerEagleWorkerV2
  | EAGLEWorker | EAGLEWorkerV2
  | StandaloneWorker | StandaloneWorkerV2
  | NGRAMWorker
  | PluginWorker (n : nat).

(** *** Builtin algorithms *)

(** [cls[upper]] *)
Definition member (upper : string) : option SpeculativeAlgorithm :=
  if String.eqb upper "DFLASH" then Some DFLASH
  else if String.eqb upper "EAGLE" then Some EAGLE
  else if String.eqb upper "EAGLE3" then Some EAGLE3
  else if String.eqb upper "FROZEN_KV_MTP" then Some FROZEN_KV_MTP
  else if String.eqb upper "STANDALONE" then Some STANDALONE
  else if String.eqb upper "NGRAM" then Some NGRAM
  else if String.eqb upper "NONE" then Some NONE
  else None.

Definition is_none (a : SpeculativeAlgorithm) : bool := bool_decide (a = NONE).
Definition is_speculative (a : SpeculativeAlgorithm) : bool := negb (bool_decide (a = NONE)).
Definition is_eagle (a : SpeculativeAlgorithm) : bool :=
  match a with EAGLE | EAGLE3 | FROZEN_KV_MTP => true | _ => false end.
Definition is_eagle3 (a : SpeculativeAlgorithm) : bool := bool_decide (a = EAGLE3).
Definition is_frozen_kv_mtp (a : SpeculativeAlgorithm) : bool := bool_decide (a = FROZEN_KV_MTP).
Definition is_dflash (a : SpeculativeAlgorithm) : bool := bool_decide (a = DFLASH).
Definition is_standalone (a : SpeculativeAlgorithm) : bool := bool_decide (a = STANDALONE).
Definition is_ngram (a : SpeculativeAlgorithm) : bool := bool_decide (a = NGRAM).
Definition supports_spec_v2 (a : SpeculativeAlgorithm) : bool :=
  (is_eagle a && negb (is_frozen_kv_mtp a)) || is_standalone a.

Definition create_worker (a : SpeculativeAlgorithm) (server_args : ServerArgs) : res Worker :=
  let* _ := py_assert (negb (is_none a)) in
  let enable_overlap := negb (disable_overlap_schedule server_args) in
  if is_dflash a then (if enable_overlap then Raise ValueError else Ok DFlashWorker)
  else if is_frozen_kv_mtp a then (if enable_overlap then Raise ValueError else Ok FrozenKVMTPWorker)
  else if is_eagle a && enable_multi_layer_eagle server_args then
    Ok (if enable_overlap then MultiLayerEagleWorkerV2 else MultiLayerEagleWorker)
  else if is_eagle a then Ok (if enable_overlap then EAGLEWorkerV2 else EAGLEWorker)
  else if is_standalone a then Ok (if enable_overlap then StandaloneWorkerV2 else StandaloneWorker)
  else if is_ngram a then (if enable_overlap then Raise ValueError else Ok NGRAMWorker)
  else Raise ValueError.

(** *** Plugin algorithms *)

Record CustomSpecAlgo : Type := MkCustom {
  custom_name : string;
  factory : ServerArgs -> res Worker;
  supports_overlap : bool;
  validate_server_args : option (ServerArgs -> res unit)
}.

(** The [is_*] methods a plugin algorithm has; there is no [is_frozen_kv_mtp]. *)
Definition custom_supports_spec_v2 (c : CustomSpecAlgo) : bool := supports_overlap c.

Definition custom_create_worker (c : CustomSpecAlgo) (server_args : ServerArgs) : res Worker :=
  if negb (disable_overlap_schedule server_args) && negb (supports_overlap c) then Raise ValueError
  else factory c server_args.

(** What [from_string] returns. *)
Inductive spec_algorithm : Type :=
  | Builtin (a : SpeculativeAlgorithm)
  | Custom (c : CustomSpecAlgo).

Abbreviation registry := (gmap string CustomSpecAlgo).

Definition _RESERVED_NAMES : list string :=
  ["DFLASH"; "EAGLE"; "EAGLE3"; "NEXTN"; "STANDALONE"; "NGRAM"; "NONE"]%string.

(** The check when the decorator is made, and the registration when it is applied to
    a factory: two steps, since a decorator can be kept and applied later. *)
Definition register_algorithm (r : registry) (name : string) : res string :=
  let upper := py_upper name in
  if bool_decide (upper ∈ _RESERVED_NAMES) then Raise ValueError
  else match r !! upper with
       | Some _ => Raise ValueError
       | None => Ok upper
       end.

Definition decorator (r : registry) (upper : string) (supports_overlap : bool)
    (validate : option (ServerArgs -> res unit)) (f : ServerArgs -> res Worker) : registry :=
  <[upper := MkCustom upper f supports_overlap validate]> r.

Definition get_spec (r : registry) (name : option string) : option CustomSpecAlgo :=
  match name with
  | None => None
  | Some name => r !! py_upper name
  end.

Definition from_string (r : registry) (name : option string) : res spec_algorithm :=
  match name with
  | None => Ok (Builtin NONE)
  | Some name =>
      let upper := py_upper name in
      match member upper with
      | Some a => Ok (Builtin a)
      | None =>
          match get_spec r (Some upper) with
          | Some spec => Ok (Custom spec)
          | None => Raise ValueError
          end
      end
  end.

(** *** Uniform dispatch *)

Definition algo_is_eagle (s : spec_algorithm) : res bool :=
  match s with Builtin a => Ok (is_eagle a) | Custom _ => Ok false end.
Definition algo_is_frozen_kv_mtp (s : spec_algorithm) : res bool :=
  match s with Builtin a => Ok (is_frozen_kv_mtp a) | Custom _ => Raise AttributeError end.
Definition algo_supports_spec_v2 (s : spec_algorithm) : bool :=
  match s with Builtin a => supports_spec_v2 a | Custom c => custom_supports_spec_v2 c end.
Definition algo_create_worker (s : spec_algorithm) (server_args : ServerArgs) : res Worker :=
  match s with
  | Builtin a => create_worker a server_args
  | Custom c => custom_create_worker c server_args
  end.

(** *** Inputs *)

Inductive SpecInputType : Type :=
  | EAGLE_DRAFT | EAGLE_VERIFY | FROZEN_KV_MTP_DRAFT | FROZEN_KV_MTP_VERIFY | DFLASH_DRAFT | DFLASH_VERIFY
  | NGRAM_VERIFY.

Definition is_draft_input (t : SpecInputType) : bool :=
  match t with EAGLE_DRAFT | FROZEN_KV_MTP_DRAFT | DFLASH_DRAFT => true | _ => false end.
Definition is_verify_input (t : SpecInputType) : bool :=
  match t with EAGLE_VERIFY | FROZEN_KV_MTP_VERIFY | DFLASH_VERIFY | NGRAM_VERIFY => true | _ => false end.

(** [coefficient] is the result of [get_spec_adjust_token_coefficient]. *)
Definition get_spec_adjusted_global_num_tokens (coefficient : Z * Z)
    (global_num_tokens global_num_tokens_for_logprob : list Z) : list Z * list Z :=
  let '(c1, c2) := coefficient in
  (map (fun x => x * c1) global_num_tokens, map (fun x => x * c2) global_num_tokens_for_logprob).

(** ** Theorems *)

Definition overlap_worker (w : Worker) : bool :=
  match w with MultiLayerEagleWorkerV2 | EAGLEWorkerV2 | StandaloneWorkerV2 => true | _ => false end.

Lemma create_worker_spec a args :
  ((exists w, create_worker a args = Ok w) <->
     a <> NONE /\ (disable_overlap_schedule args = true \/ supports_spec_v2 a = true))
  /\ forall w, create_worker a args = Ok w -> overlap_worker w = negb (disable_overlap_schedule args).
Proof.
  destruct args as [alg topk dp ovl multi tbo pdm]; destruct a, ovl, multi; cbn; (split; [split|]);
    try (by intros [? [=]]); try (intros [? [?|?]]; done); try (intros w [= <-]; done); try done; try (by eauto);
    try (intros _; by split; [|auto]).
Qed.

Lemma py_upper_idem s : py_upper (py_upper s) = py_upper s.
Proof.
  induction s as [|c s IH]; [done|]. simpl. f_equal; [|done].
  destruct c as [[] [] [] [] [] [] [] []]; reflexivity.
Qed.

Lemma member_reserved upper a : member upper = Some a -> upper ∈ _RESERVED_NAMES \/ upper = "FROZEN_KV_MTP"%string.
Proof.
  unfold member, _RESERVED_NAMES. intros H.
  repeat match type of H with context [String.eqb ?x ?y] => destruct (String.eqb_spec x y) as [->|] end;
    try done; try (by right); left; set_solver.
Qed.

Lemma register_Ok r name upper : register_algorithm r name = Ok upper ->
  upper = py_upper name /\ (upper ∉ _RESERVED_NAMES) /\ r !! upper = None.
Proof.
  unfold register_algorithm. case_bool_decide; [done|]. destruct (r !! py_upper name) eqn:E; [done|].
  by intros [= <-].
Qed.

(** A plugin algorithm that could be registered is found again.  Unless its name is
    FROZEN_KV_MTP, after [register_algorithm] and the decorator every spelling of the
    name resolves to the plugin, every other name resolves as before, and registering
    the name again is refused. *)
Theorem registered_algorithm_found r name upper overlap validate f
    (Hreg : register_algorithm r name = Ok upper) (Hname : upper <> "FROZEN_KV_MTP"%string) :
  let r' := decorator r upper overlap validate f in
  (forall n, py_upper n = upper -> from_string r' (Some n) = Ok (Custom (MkCustom upper f overlap validate)))
  /\ (forall n, py_upper n <> upper -> from_string r' (Some n) = from_string r (Some n))
  /\ register_algorithm r' name = Raise ValueError.
Proof.
  cbn zeta. destruct (register_Ok _ _ _ Hreg) as (Hu & Hnr & Hfree). unfold decorator.
  assert (member upper = None) as Hm.
  { destruct (member upper) as [a|] eqn:E; [|done]. by apply member_reserved in E as [?|?]. }
  split_and!.
  - intros n Hn. unfold from_string, get_spec. rewrite Hn, Hm, Hu, py_upper_idem, <- Hu, lookup_insert_eq. done.
  - intros n Hn. unfold from_string, get_spec. rewrite py_upper_idem, lookup_insert_ne by done. done.
  - unfold register_algorithm. rewrite <- Hu, bool_decide_eq_false_2 by done. by rewrite lookup_insert_eq.
Qed.

Lemma registered_algorithm_found_witness :
  from_string (decorator ∅ "MY_SPEC" false None (fun _ => Ok (PluginWorker 0))) (Some "my_Spec"%string)
  = Ok (Custom (MkCustom "MY_SPEC" (fun _ => Ok (PluginWorker 0)) false None)).
Proof.
  apply (registered_algorithm_found ∅ "My_spec" "MY_SPEC" false None (fun _ => Ok (PluginWorker 0))).
  - vm_compute. reflexivity.
  - discriminate.
  - reflexivity.
Defined.

(** FROZEN_KV_MTP is not reserved: a plugin can be registered under that name, and is
    then never returned. *)
Lemma frozen_kv_mtp_not_reserved r f : r !! "FROZEN_KV_MTP"%string = None ->
  register_algorithm r "FROZEN_KV_MTP" = Ok "FROZEN_KV_MTP"%string
  /\ from_string (decorator r "FROZEN_KV_MTP" false None f) (Some "FROZEN_KV_MTP"%string) = Ok (Builtin FROZEN_KV_MTP).
Proof.
  intros Hr. unfold register_algorithm. rewrite bool_decide_eq_false_2; [simpl; by rewrite Hr|].
  intros H. repeat (apply elem_of_cons in H as [H|H]; [discriminate|]). by apply not_elem_of_nil in H.
Qed.

(** overlap scheduling and [supports_spec_v2] agree.  A builtin algorithm creates a
    worker exactly when it is not NONE and either overlap scheduling is disabled or it
    supports spec v2, and the worker is a v2 worker exactly when overlap is enabled; a
    plugin hands the arguments to its factory under the same condition and is refused
    otherwise. *)
Theorem create_worker_overlap s args :
  match s with
  | Builtin a =>
      ((exists w, algo_create_worker s args = Ok w) <->
         a <> NONE /\ (disable_overlap_schedule args = true \/ algo_supports_spec_v2 s = true))
      /\ forall w, algo_create_worker s args = Ok w -> overlap_worker w = negb (disable_overlap_schedule args)
  | Custom c =>
      algo_create_worker s args =
        if disable_overlap_schedule args || algo_supports_spec_v2 s then factory c args else Raise ValueError
  end.
Proof.
  destruct s as [a|c]; [apply create_worker_spec|].
  simpl. unfold custom_create_worker, custom_supports_spec_v2.
  by destruct (disable_overlap_schedule args), (supports_overlap c).
Qed.
