(* ===== verification/DecodeSchedule.v ===== *)
(** Decoding: [ScheduleBatch.filter_batch], [merge_batch], [check_decode_mem],
    [retract_decode], [retract_all] and [prepare_for_decode] of
    [managers/schedule_batch.py], [Scheduler.update_running_batch] of
    [managers/scheduler.py], and the memory side of
    [EagleDraftInputV2Mixin.prepare_for_decode] of [speculative/eagle_info_v2.py].

    Modelled without disaggregation, sparse or Mamba state, encoder-decoder models and
    context parallelism; the sampling parameters, the penalties, the multimodal inputs
    and the draft model's own tensors, which only feed the models, are left out. *)

From S2P Require Export PrefillSchedule.
From S2P Require Import SpecInfo SpecKernels Triton KVTable.

(** ** The batch *)

(** The tensors of a running batch, one entry per request. *)
Record DecodeBatch : Type := MkDecode {
  db_reqs : list SchedReq;
  db_req_pool_indices : list Z;
  db_seq_lens : list Z;
  db_seq_lens_cpu : list Z;
  db_orig_seq_lens : list Z;
  db_seq_lens_sum : Z;
  db_input_ids : option (list Z);
  db_output_ids : option (list Z);
  db_out_cache_loc : option (list Z);
  db_return_logprob : bool;
  db_top_logprobs_nums : option (list Z);
  db_token_ids_logprobs : option (list (option (list Z)));
  db_is_prefill_only : bool;
  db_batch_is_full : bool
}.

Definition batch_size (b : DecodeBatch) : Z := zlen (db_reqs b).
Definition is_empty (b : DecodeBatch) : bool := zlen (db_reqs b) =? 0.

Definition set_reqs (b : DecodeBatch) (reqs : list SchedReq) : DecodeBatch :=
  MkDecode reqs (db_req_pool_indices b) (db_seq_lens b) (db_seq_lens_cpu b) (db_orig_seq_lens b) (db_seq_lens_sum b)
    (db_input_ids b) (db_output_ids b) (db_out_cache_loc b) (db_return_logprob b) (db_top_logprobs_nums b)
    (db_token_ids_logprobs b) (db_is_prefill_only b) (db_batch_is_full b).

Definition set_batch_is_full (b : DecodeBatch) (full : bool) : DecodeBatch :=
  MkDecode (db_reqs b) (db_req_pool_indices b) (db_seq_lens b) (db_seq_lens_cpu b) (db_orig_seq_lens b) (db_seq_lens_sum b)
    (db_input_ids b) (db_output_ids b) (db_out_cache_loc b) (db_return_logprob b) (db_top_logprobs_nums b)
    (db_token_ids_logprobs b) (db_is_prefill_only b) full.

(** [[l[i] for i in indices]], and [l[indices]] for an index tensor *)
Fixpoint take_indices {B} (l : list B) (indices : list nat) : res (list B) :=
  match indices with
  | [] => Ok []
  | i :: indices =>
      match l !! i with
      | None => Raise IndexError
      | Some x => let* xs := take_indices l indices in Ok (x :: xs)
      end
  end.

(** The same for an attribute that may be [None]. *)
Definition take_indices_of {B} (l : option (list B)) (indices : list nat) : res (list B) :=
  match l with
  | None => Raise TypeError
  | Some l => take_indices l indices
  end.

(** [keep_indices], when they are not given. *)
Definition default_keep (exclude : list SchedReq) (reqs : list SchedReq) : list nat :=
  filter (fun i => match reqs !! i with
                   | Some r => negb (sr_finished r) && bool_decide (r ∉ exclude)
                   | None => false
                   end = true) (seq 0 (length reqs)).

Definition filter_batch (exclude : list SchedReq) (keep_indices : option (list nat)) (b : DecodeBatch) : res DecodeBatch :=
  let keep := match keep_indices with Some l => l | None => default_keep exclude (db_reqs b) end in
  if zlen keep =? 0 then Ok (set_reqs b [])
  else if zlen keep =? zlen (db_reqs b) then Ok b
  else
    let* reqs := take_indices (db_reqs b) keep in
    let* req_pool_indices := take_indices (db_req_pool_indices b) keep in
    let* seq_lens := take_indices (db_seq_lens b) keep in
    let* seq_lens_cpu := take_indices (db_seq_lens_cpu b) keep in
    let* orig_seq_lens := take_indices (db_orig_seq_lens b) keep in
    let* output_ids :=
      match db_output_ids b with
      | None => Ok None
      | Some l => let* l := take_indices l keep in Ok (Some l)
      end in
    let logprob := existsb return_logprob reqs in
    let* (top, toks) :=
      if logprob then
        let* top := take_indices_of (db_top_logprobs_nums b) keep in
        let* toks := take_indices_of (db_token_ids_logprobs b) keep in
        Ok (Some top, Some toks)
      else Ok (None, None) in
    Ok (MkDecode reqs req_pool_indices seq_lens seq_lens_cpu orig_seq_lens (zsum seq_lens) (db_input_ids b) output_ids None
          logprob top toks (db_is_prefill_only b) (db_batch_is_full b)).

(** [l.extend(k)] on an attribute that may be [None]. *)
Definition py_extend {B} (l : option (list B)) (k : list B) : res (option (list B)) :=
  match l with
  | None => Raise AttributeError
  | Some l => Ok (Some (l ++ k))
  end.

(** [l + k] where [k] may be [None] *)
Definition py_concat {B} (l : list B) (k : option (list B)) : res (option (list B)) :=
  match k with
  | None => Raise TypeError
  | Some k => Ok (Some (l ++ k))
  end.

Definition merge_batch (b o : DecodeBatch) : res DecodeBatch :=
  let* output_ids :=
    match db_output_ids b with
    | None => Ok None
    | Some l => py_concat l (db_output_ids o)
    end in
  let n := length (db_reqs o) in
  let* (top, toks) :=
    if db_return_logprob b && db_return_logprob o then
      match db_top_logprobs_nums o, db_token_ids_logprobs o with
      | Some top, Some toks =>
          let* top := py_extend (db_top_logprobs_nums b) top in
          let* toks := py_extend (db_token_ids_logprobs b) toks in
          Ok (top, toks)
      | _, _ => Raise TypeError
      end
    else if db_return_logprob b then
      let* top := py_extend (db_top_logprobs_nums b) (repeat 0 n) in
      let* toks := py_extend (db_token_ids_logprobs b) (repeat None n) in
      Ok (top, toks)
    else if db_return_logprob o then
      let* top := py_concat (repeat 0 (length (db_reqs b))) (db_top_logprobs_nums o) in
      let* toks := py_concat (repeat None (length (db_reqs b))) (db_token_ids_logprobs o) in
      Ok (top, toks)
    else Ok (db_top_logprobs_nums b, db_token_ids_logprobs b) in
  Ok (MkDecode (db_reqs b ++ db_reqs o) (db_req_pool_indices b ++ db_req_pool_indices o) (db_seq_lens b ++ db_seq_lens o)
        (db_seq_lens_cpu b ++ db_seq_lens_cpu o) (db_orig_seq_lens b ++ db_orig_seq_lens o)
        (db_seq_lens_sum b + db_seq_lens_sum o) (db_input_ids b) output_ids None
        (db_return_logprob b || db_return_logprob o) top toks (db_is_prefill_only b && db_is_prefill_only o) (db_batch_is_full b)).

(** The part of [get_next_batch_to_run] that joins the last prefill batch [last] to the
    running batch; [chunked] are the requests whose prefill is not complete. *)
Definition merge_last_batch (chunked : list SchedReq) (running last : DecodeBatch) : res DecodeBatch :=
  let last_bs := batch_size last in
  let* last := filter_batch chunked None last in
  let running := if batch_size last <? last_bs then set_batch_is_full running false else running in
  if is_empty last then Ok running
  else if is_empty running then Ok last
  else merge_batch running last.

(** Finished requests of a batch that does not decode leave at once. *)
Definition clean_prefill_only (running : DecodeBatch) : res DecodeBatch :=
  if db_is_prefill_only running then
    let* running := filter_batch [] None running in
    Ok (if is_empty running then set_batch_is_full running false else running)
  else Ok running.

(** ** Memory for the next step *)

(** [dc_spec] is the batch's speculative algorithm, [dc_test_retract] says that a test
    asks for a retraction in this step. *)
Record DecodeConfig : Type := MkDecodeConfig {
  dc_sched : SchedulerConfig;
  dc_spec : spec_algorithm;
  dc_enable_overlap : bool;
  dc_speculative_num_steps : option Z;
  dc_speculative_eagle_topk : option Z;
  dc_speculative_num_draft_tokens : option Z;
  dc_new_token_ratio_decay : num;
  dc_min_new_token_ratio : num;
  dc_test_retract : bool
}.

Definition algo_is_none (s : spec_algorithm) : bool :=
  match s with Builtin a => is_none a | Custom _ => false end.

(** [x or d] *)
Definition py_or (x : option Z) (d : Z) : Z :=
  match x with
  | Some x => if x =? 0 then d else x
  | None => d
  end.

(** [max(x, y)] where [y] may be [None] *)
Definition max_opt (x : Z) (y : option Z) : res Z :=
  match y with
  | Some y => Ok (Z.max x y)
  | None => Raise TypeError
  end.

Section Decode.
Context (cfg : DecodeConfig).
Abbreviation args := (sc_release (dc_sched cfg)).
Abbreviation steps := (sc_retract_decode_steps (dc_sched cfg)).

Definition is_spec_v2 : res bool :=
  let ret := dc_enable_overlap cfg && negb (algo_is_none (dc_spec cfg)) in
  let* _ := py_assert (negb ret || algo_supports_spec_v2 (dc_spec cfg)) in
  Ok ret.

Definition get_alloc_len_per_decode : res Z :=
  if negb (ra_speculative args) then Ok 1
  else
    let spec_steps := py_or (dc_speculative_num_steps cfg) 1 in
    let spec_topk := py_or (dc_speculative_eagle_topk cfg) 1 in
    if (ra_page_size args =? 1) || (spec_topk =? 1) then
      max_opt (spec_steps * spec_topk) (dc_speculative_num_draft_tokens cfg)
    else Raise NotImplementedError.

Definition new_tokens_required_next_decode_spec_v2 (requests : list SchedReq) (page_size : Z) : res Z :=
  let* alloc_len := get_alloc_len_per_decode in
  Ok (zsum (map (fun r =>
        let q := sr_req r in
        let x := Z.max 0 (kv_committed_len q + 2 * alloc_len - kv_allocated_len q) in
        let cur := kv_allocated_len q in
        let nxt := cur + x in
        ceil_align nxt page_size - ceil_align cur page_size) requests)).

Definition new_tokens_required_next_decode (page_size : Z) (requests : list SchedReq) : res Z :=
  if algo_is_none (dc_spec cfg) then
    Ok (zlen (filter (fun r => kv_committed_len (sr_req r) mod page_size = 0) requests) * page_size)
  else
    let* v2 := is_spec_v2 in
    if (v2 : bool) then new_tokens_required_next_decode_spec_v2 requests page_size
    else
      let len_per_topk := py_or (dc_speculative_num_steps cfg) 1 in
      let spec_topk := py_or (dc_speculative_eagle_topk cfg) 1 in
      match dc_speculative_num_draft_tokens cfg with
      | None => Raise TypeError
      | Some spec_tokens =>
          let '(len_per_topk, spec_tokens) :=
            if (1 <? page_size) && (1 <? spec_topk) then
              (ceil_align (len_per_topk + page_size) page_size, ceil_align spec_tokens page_size)
            else if 1 <? page_size then (ceil_align len_per_topk page_size, ceil_align spec_tokens page_size)
            else (len_per_topk, spec_tokens) in
          Ok (Z.max (len_per_topk * spec_topk) spec_tokens * zlen requests)
      end.

Context {T A : Type} {Alloc : KVAllocator A} {Cache : BasePrefixCache T A kva_pool}.

Definition check_decode_mem (b : DecodeBatch) (selected_indices : option (list nat)) (t : T) (a : A) : res (bool * T * A) :=
  let* requests :=
    match selected_indices with
    | None => Ok (db_reqs b)
    | Some l => take_indices (db_reqs b) l
    end in
  let* num_tokens := new_tokens_required_next_decode (kv_page_size a) requests in
  let* (t, a) := evict_from_tree_cache t a num_tokens in
  Ok (num_tokens <=? kv_available a, t, a).

(** ** Retraction *)

Definition retract_key (r : SchedReq) : Z * Z :=
  (zlen (output_ids (sr_req r)), - zlen (origin_input_ids (sr_req r))).

(** The order in which requests are kept; a sort with [reverse=True] is stable. *)
Definition retract_order (reqs : list SchedReq) : list nat :=
  let indices := seq 0 (length reqs) in
  let key i := match reqs !! i with Some r => retract_key r | None => (0, 0) end in
  if ra_speculative args then indices else py_sort (fun i j => pair_ltb (key j) (key i)) indices.

(** The loop; [stack] is [sorted_indices] in reverse, so that [pop()] takes its head.
    A request that was popped is not looked up in the batch again. *)
Fixpoint retract_loop (b : DecodeBatch) (first_iter : bool) (stack : list nat) (t : T) (a : A) (pool : ReqToTokenPool)
    : res (list nat * list SchedReq * T * A * ReqToTokenPool) :=
  let* (enough, t, a) := if first_iter then Ok (false, t, a) else check_decode_mem b (Some (rev stack)) t a in
  if (enough : bool) then Ok (stack, [], t, a, pool)
  else
    match stack with
    | [] => Raise IndexError
    | [_] => Ok (stack, [], t, a, pool)
    | idx :: stack =>
        match db_reqs b !! idx with
        | None => Raise IndexError
        | Some req =>
            let* (t, a, pool, req) := release_req args steps t a pool req (zlen stack) in
            let* (stack, retracted, t, a, pool) := retract_loop b false stack t a pool in
            Ok (stack, req :: retracted, t, a, pool)
        end
    end.

(** The last request, when it does not fit. *)
Definition retract_last (b : DecodeBatch) (stack : list nat) (t : T) (a : A) (pool : ReqToTokenPool)
    : res (list nat * list SchedReq * T * A * ReqToTokenPool) :=
  if zlen stack <=? 1 then
    let* (enough, t, a) := check_decode_mem b (Some (rev stack)) t a in
    if (enough : bool) then Ok (stack, [], t, a, pool)
    else
      match stack with
      | [] => Raise IndexError
      | last_idx :: stack =>
          match db_reqs b !! last_idx with
          | None => Raise IndexError
          | Some last_req =>
              let* (t, a, pool, last_req) := release_req args steps t a pool last_req 0 in
              Ok (stack, [last_req], t, a, pool)
          end
      end
  else Ok (stack, [], t, a, pool).

Definition estimate_ratio (reqs : list SchedReq) : res num :=
  let total_decoded_tokens := zsum (map (fun r => zlen (output_ids (sr_req r))) reqs) in
  let total_max_new_tokens := zsum (map max_new_tokens reqs) in
  let* new_estimate_ratio := int_truediv (total_decoded_tokens + steps * zlen reqs) (total_max_new_tokens + 1) in
  Ok (num_min (PFloat float_one) new_estimate_ratio).

(** Returns the batch, the retracted requests, the new estimate and the requests to abort. *)
Definition retract_decode (b : DecodeBatch) (t : T) (a : A) (pool : ReqToTokenPool)
    : res (DecodeBatch * list SchedReq * num * list SchedReq * T * A * ReqToTokenPool) :=
  let* (stack, retracted, t, a, pool) := retract_loop b true (rev (retract_order (db_reqs b))) t a pool in
  let* (stack, aborted, t, a, pool) := retract_last b stack t a pool in
  let* b := filter_batch [] (Some (rev stack)) b in
  let* ratio := estimate_ratio (db_reqs b) in
  Ok (b, retracted, ratio, aborted, t, a, pool).

(** [reqs] is what remains of the loop over [range(len(self.reqs))]. *)
Fixpoint release_all (reqs : list SchedReq) (t : T) (a : A) (pool : ReqToTokenPool)
    : res (list SchedReq * T * A * ReqToTokenPool) :=
  match reqs with
  | [] => Ok ([], t, a, pool)
  | r :: reqs =>
      let* (t, a, pool, r) := release_req args steps t a pool r (zlen reqs + 1) in
      let* (rs, t, a, pool) := release_all reqs t a pool in
      Ok (r :: rs, t, a, pool)
  end.

Definition retract_all (b : DecodeBatch) (t : T) (a : A) (pool : ReqToTokenPool)
    : res (DecodeBatch * list SchedReq * T * A * ReqToTokenPool) :=
  let* (retracted, t, a, pool) := release_all (db_reqs b) t a pool in
  let* b := filter_batch retracted None (set_reqs b retracted) in
  Ok (b, retracted, t, a, pool).

(** ** The decode step *)

Definition set_kv_lens (r : SchedReq) (committed allocated : Z) : SchedReq :=
  let q := sr_req r in
  set_sr_req r
    (MkReq (req_pool_idx q) (origin_input_ids q) (output_ids q) (fill_ids q) (req_extra_key q) (req_priority q)
       (prefix_indices q) (last_node q) (cache_protected_len q) (is_chunked q) committed allocated
       (kv_committed_freed q) (kv_overallocated_freed q) (reasoning_tokens q)).

Context (oob : Z -> Z) (torch_empty : Z -> list Z) (order : Z -> list Z).
Context (_is_hip : bool) (attn_backend : string).

(** The rows of the flat buffer a kernel wrote. *)
Fixpoint table_rows (width : Z) (rows : nat) (buf : list Z) : list (list Z) :=
  match rows with
  | O => []
  | S rows => take (Z.to_nat width) buf :: table_rows width rows (drop (Z.to_nat width) buf)
  end.

Definition assign_req_to_token_pool_func (pool : ReqToTokenPool) (req_pool_indices start_offset end_offset out_cache_loc : list Z)
    (batch_size : Z) : res ReqToTokenPool :=
  let* buf := of_grid (tl_run (order batch_size)
      (assign_req_to_token_pool oob req_pool_indices start_offset end_offset out_cache_loc (max_context_len pool)
         (next_power_of_2 batch_size)) (concat (req_to_token pool))) in
  Ok (set_table pool (table_rows (max_context_len pool) (length (req_to_token pool)) buf)).

(** [EagleDraftInputV2Mixin.prepare_for_decode] *)
Definition draft_prepare_for_decode (b : DecodeBatch) (t : T) (a : A) (pool : ReqToTokenPool)
    : res (DecodeBatch * T * A * ReqToTokenPool) :=
  let bs := batch_size b in
  let page_size := kv_page_size a in
  let* alloc_len_per_decode := get_alloc_len_per_decode in
  let double_alloc := alloc_len_per_decode + alloc_len_per_decode in
  let cur_kv_lens := map (fun r => kv_allocated_len (sr_req r)) (db_reqs b) in
  let nxt_kv_lens := map (fun r => kv_committed_len (sr_req r) + double_alloc) (db_reqs b) in
  let num_needed_tokens := zsum (zip_with Z.sub nxt_kv_lens cur_kv_lens) in
  let reqs := map (fun r => set_kv_lens r (kv_committed_len (sr_req r) + 1) (kv_committed_len (sr_req r) + double_alloc)) (db_reqs b) in
  let* (out_cache_loc, t, a) :=
    if page_size =? 1 then
      let* (out_cache_loc, _, t, a) := alloc_token_slots t a num_needed_tokens false in Ok (out_cache_loc, t, a)
    else
      let* last_loc := get_last_loc oob torch_empty (order (cdiv bs 256)) _is_hip false attn_backend pool (db_req_pool_indices b) cur_kv_lens in
      let* (out_cache_loc, _, t, a) :=
        alloc_paged_token_slots_extend t a cur_kv_lens nxt_kv_lens last_loc num_needed_tokens false in
      Ok (out_cache_loc, t, a) in
  let* pool := assign_req_to_token_pool_func pool (db_req_pool_indices b) cur_kv_lens nxt_kv_lens out_cache_loc bs in
  Ok (MkDecode reqs (db_req_pool_indices b) (db_seq_lens b) (db_seq_lens b) (db_orig_seq_lens b) (zsum (db_seq_lens b))
        (db_input_ids b) (db_output_ids b) (db_out_cache_loc b) (db_return_logprob b) (db_top_logprobs_nums b)
        (db_token_ids_logprobs b) (db_is_prefill_only b) (db_batch_is_full b), t, a, pool).

Definition prepare_for_decode (b : DecodeBatch) (t : T) (a : A) (pool : ReqToTokenPool)
    : res (DecodeBatch * T * A * ReqToTokenPool) :=
  let* v2 := is_spec_v2 in
  let* (b, t, a, pool) := if (v2 : bool) then draft_prepare_for_decode b t a pool else Ok (b, t, a, pool) in
  if negb (algo_is_none (dc_spec cfg)) then Ok (b, t, a, pool)
  else
    let bs := batch_size b in
    let batch := MkBatch (map sr_req (db_reqs b)) [] [] (db_seq_lens b) 0 (db_req_pool_indices b) in
    let* (out_cache_loc, t, a, pool) := alloc_for_decode None t a pool batch 1 in
    let bump r := set_kv_lens r (kv_committed_len (sr_req r) + 1) (kv_allocated_len (sr_req r) + 1) in
    Ok (MkDecode (map bump (db_reqs b)) (db_req_pool_indices b) (map (fun x => x + 1) (db_seq_lens b))
          (map (fun x => x + 1) (db_seq_lens_cpu b)) (map (fun x => x + 1) (db_orig_seq_lens b)) (db_seq_lens_sum b + bs)
          (db_output_ids b) None (Some out_cache_loc) (db_return_logprob b) (db_top_logprobs_nums b)
          (db_token_ids_logprobs b) (db_is_prefill_only b) (db_batch_is_full b), t, a, pool).

Context (perf_counter : nat -> Z).

(** Returns the batch, the waiting queue, the abort messages and [new_token_ratio]. *)
Definition update_running_batch (b : DecodeBatch) (queue : list SchedReq) (out : list string) (new_token_ratio : num)
    (t : T) (a : A) (pool : ReqToTokenPool)
    : res (DecodeBatch * list SchedReq * list string * num * T * A * ReqToTokenPool) :=
  let initial_bs := batch_size b in
  let* b := filter_batch [] None b in
  if is_empty b then Ok (set_batch_is_full b false, queue, out, new_token_ratio, t, a, pool)
  else
    let* (enough, t, a) := check_decode_mem b None t a in
    let* (b, queue, out, new_token_ratio, t, a, pool) :=
      if negb enough || dc_test_retract cfg then
        let* (b, retracted, ratio, aborted, t, a, pool) := retract_decode b t a pool in
        let* (queue, out) := requeue (dc_sched cfg) perf_counter 0 queue (out ++ map rid aborted) retracted in
        Ok (b, queue, out, ratio, t, a, pool)
      else
        Ok (b, queue, out, num_max (num_sub new_token_ratio (dc_new_token_ratio_decay cfg)) (dc_min_new_token_ratio cfg), t, a, pool) in
    let b := if batch_size b <? initial_bs then set_batch_is_full b false else b in
    if is_empty b then Ok (b, queue, out, new_token_ratio, t, a, pool)
    else
      let* (b, t, a, pool) := prepare_for_decode b t a pool in
      Ok (b, queue, out, new_token_ratio, t, a, pool).
End Decode.
