(* ===== verification/BatchAlign.v ===== *)
(** The running batch as a data structure: its tensors stay aligned with its requests
    when requests leave ([filter_batch]) and when a prefill batch joins ([merge_batch]). *)

From S2P Require Export DecodeSchedule.

(** ** Selecting by indices *)

Definition select {B} (l : list B) (indices : list nat) : list B := omap (fun i => l !! i) indices.

Definition valid_indices {B} (l : list B) (indices : list nat) : Prop := Forall (fun i => i < length l)%nat indices.

Lemma take_indices_ok {B} (l : list B) indices : valid_indices l indices -> take_indices l indices = Ok (select l indices).
Proof.
  unfold select. induction 1 as [|i indices Hi _ IH]; [done|]. simpl. destruct (lookup_lt_is_Some_2 l i Hi) as [x ->]. by rewrite IH.
Qed.

Lemma length_select {B} (l : list B) indices : valid_indices l indices -> length (select l indices) = length indices.
Proof.
  unfold select. induction 1 as [|i indices Hi _ IH]; [done|]. simpl. destruct (lookup_lt_is_Some_2 l i Hi) as [x ->]. simpl. by f_equal.
Qed.

Lemma select_map {B C} (f : B -> C) l indices : select (map f l) indices = map f (select l indices).
Proof.
  unfold select. induction indices as [|i indices IH]; [done|]. simpl. rewrite list_lookup_fmap.
  destruct (l !! i); simpl; [by f_equal|done].
Qed.

Lemma select_app {B} (l : list B) i1 i2 : select l (i1 ++ i2) = select l i1 ++ select l i2.
Proof. apply omap_app. Qed.

Lemma select_rev {B} (l : list B) indices : select l (rev indices) = rev (select l indices).
Proof.
  unfold select. induction indices as [|i indices IH]; [done|]. cbn [rev]. rewrite omap_app, IH.
  cbn [omap list_omap]. destruct (l !! i); simpl; [done|]. by rewrite app_nil_r.
Qed.

Lemma select_cons {B} (l : list B) i indices x : l !! i = Some x -> select l (i :: indices) = x :: select l indices.
Proof. unfold select. simpl. by intros ->. Qed.

Lemma select_perm {B} (l : list B) i1 i2 : Permutation i1 i2 -> Permutation (select l i1) (select l i2).
Proof. apply omap_Permutation. Qed.

Lemma select_seq {B} (l : list B) : select l (seq 0 (length l)) = l.
Proof.
  unfold select. induction l as [|x l IH]; [done|]. simpl. f_equal. rewrite <- fmap_S_seq.
  etrans; [|exact IH]. generalize (seq 0 (length l)) as k. induction k as [|i k IHi]; [done|]. simpl. destruct (l !! i); [by f_equal|exact IHi].
Qed.

(** Distinct valid indices, as many as there are entries, are all of them. *)
Lemma select_all {B} (l : list B) indices : valid_indices l indices -> NoDup indices -> length indices = length l ->
  Permutation (select l indices) l.
Proof.
  intros Hv Hn Hl. rewrite <- (select_seq l) at 2. apply select_perm.
  apply submseteq_length_Permutation; [|rewrite length_seq; lia]. apply NoDup_submseteq; [done|].
  intros i Hi. unfold valid_indices in Hv. rewrite Forall_forall in Hv. apply elem_of_seq. specialize (Hv i Hi). lia.
Qed.

Lemma existsb_select {B} (f : B -> bool) l indices : existsb f (select l indices) = true -> existsb f l = true.
Proof.
  rewrite !existsb_exists. intros (x & Hx & Hf). exists x. split; [|done].
  apply list_elem_of_In in Hx. apply list_elem_of_omap in Hx as (i & _ & Hi). apply list_elem_of_In. by eapply list_elem_of_lookup_2.
Qed.

Lemma length_select_as {B C} (l : list B) (k : list C) indices : length l = length k -> valid_indices k indices ->
  length (select l indices) = length (select k indices).
Proof. unfold valid_indices. intros Hl Hv. rewrite !length_select; unfold valid_indices; by rewrite ?Hl. Qed.

Lemma valid_length {B C} (l : list B) (k : list C) indices : length l = length k -> valid_indices l indices -> valid_indices k indices.
Proof. unfold valid_indices. by intros ->. Qed.

(** ** Alignment *)

(** Per-request data, when there is any, has one entry for each request. *)
Definition entries_for {B} (reqs : list SchedReq) (l : option (list B)) : Prop :=
  exists k, l = Some k /\ length k = length reqs.

Record batch_aligned (b : DecodeBatch) : Prop := {
  al_rows : map (fun r => req_pool_idx (sr_req r)) (db_reqs b) = map Some (db_req_pool_indices b);
  al_seq : length (db_seq_lens b) = length (db_reqs b);
  al_cpu : db_seq_lens_cpu b = db_seq_lens b;
  al_orig : length (db_orig_seq_lens b) = length (db_reqs b);
  al_sum : db_seq_lens_sum b = zsum (db_seq_lens b);
  al_out : db_output_ids b = None \/ entries_for (db_reqs b) (db_output_ids b);
  al_logprob : db_return_logprob b = existsb return_logprob (db_reqs b);
  al_top : db_return_logprob b = true ->
    entries_for (db_reqs b) (db_top_logprobs_nums b) /\ entries_for (db_reqs b) (db_token_ids_logprobs b);
}.

(** The lengths are those the requests have committed, as without speculation. *)
Definition synced (b : DecodeBatch) : Prop := db_seq_lens b = map (fun r => kv_committed_len (sr_req r)) (db_reqs b).

(** A batch without requests keeps stale tensors. *)
Definition realigned (b b' : DecodeBatch) : Prop := db_reqs b' = [] \/ batch_aligned b' /\ (synced b -> synced b').

Lemma al_rows_len b : batch_aligned b -> length (db_req_pool_indices b) = length (db_reqs b).
Proof. intros []. apply (f_equal length) in al_rows0. by rewrite !length_map in al_rows0. Qed.

Definition keep_of (exclude : list SchedReq) (keep : option (list nat)) (b : DecodeBatch) : list nat :=
  match keep with Some l => l | None => default_keep exclude (db_reqs b) end.

Lemma default_keep_valid exclude reqs : valid_indices reqs (default_keep exclude reqs).
Proof.
  apply Forall_forall. intros i Hi. apply list_elem_of_filter in Hi as [_ Hi]. apply elem_of_seq in Hi. lia.
Qed.

Lemma default_keep_NoDup exclude reqs : NoDup (default_keep exclude reqs).
Proof. apply NoDup_filter, NoDup_seq. Qed.

(** Without indices, the unfinished requests that are not excluded are kept, in order. *)
Lemma default_keep_select exclude reqs :
  select reqs (default_keep exclude reqs) = filter (fun r => sr_finished r = false /\ r ∉ exclude) reqs.
Proof.
  unfold default_keep. set (P := fun i => _ = true).
  assert (forall l k, (forall j, (j < length l)%nat -> reqs !! (k + j)%nat = l !! j) ->
    select reqs (filter P (seq k (length l))) = filter (fun r => sr_finished r = false /\ r ∉ exclude) l) as H.
  { induction l as [|r l IH]; intros k Hk; [done|]. simpl seq.
    pose proof (Hk 0%nat ltac:(simpl; lia)) as Hr. rewrite Nat.add_0_r in Hr. simpl in Hr.
    assert (select reqs (filter P (seq (S k) (length l))) = filter (fun r => sr_finished r = false /\ r ∉ exclude) l) as E.
    { apply IH. intros j Hj. replace (S k + j)%nat with (k + S j)%nat by lia. by rewrite Hk by (simpl; lia). }
    destruct (decide (sr_finished r = false /\ r ∉ exclude)) as [[Hf He]|Hn].
    - rewrite (filter_cons_True _ r) by done. rewrite filter_cons_True, (select_cons _ _ _ _ Hr) by
        (unfold P; rewrite Hr, Hf; simpl; by rewrite bool_decide_eq_true_2). by rewrite E.
    - rewrite (filter_cons_False _ r) by done. rewrite filter_cons_False, E; [done|]. unfold P. rewrite Hr.
      destruct (sr_finished r); [done|]. simpl. case_bool_decide; [|done]. intros _. apply Hn. by split. }
  apply (H reqs 0%nat). done.
Qed.

Lemma aligned_select b indices top toks : batch_aligned b -> valid_indices (db_reqs b) indices ->
  let reqs := select (db_reqs b) indices in
  (existsb return_logprob reqs = true -> entries_for reqs top /\ entries_for reqs toks) ->
  batch_aligned (MkDecode reqs (select (db_req_pool_indices b) indices) (select (db_seq_lens b) indices) (select (db_seq_lens_cpu b) indices)
    (select (db_orig_seq_lens b) indices) (zsum (select (db_seq_lens b) indices)) (db_input_ids b)
    ((fun l => select l indices) <$> db_output_ids b) None (existsb return_logprob reqs) top toks (db_is_prefill_only b) (db_batch_is_full b)).
Proof.
  intros Ha Hv reqs Htop. pose proof Ha as []. split; simpl; try done.
  - unfold reqs. rewrite <- (select_map Some), <- al_rows0. symmetry. apply select_map.
  - by apply length_select_as.
  - by rewrite al_cpu0.
  - by apply length_select_as.
  - destruct al_out0 as [->|(l & -> & Hl)]; [by left|]. right. eexists. split; [done|].
    by apply length_select_as.
Qed.

(** [filter_batch] on valid indices. *)
Lemma filter_batch_ok exclude keep b : batch_aligned b -> valid_indices (db_reqs b) (keep_of exclude keep b) ->
  exists b', filter_batch exclude keep b = Ok b' /\ realigned b b'
    /\ db_reqs b' = (if zlen (keep_of exclude keep b) =? zlen (db_reqs b) then db_reqs b else select (db_reqs b) (keep_of exclude keep b))
    /\ (is_Some (db_output_ids b) -> is_Some (db_output_ids b')).
Proof.
  intros Ha Hv. unfold filter_batch. fold (keep_of exclude keep b). set (ks := keep_of exclude keep b) in *.
  destruct (Z.eqb_spec (zlen ks) 0) as [E0|Hne].
  { exists (set_reqs b []). split_and!; [done|by left| |done]. rewrite E0. apply zlen_zero_inv in E0 as ->.
    destruct (Z.eqb_spec 0 (zlen (db_reqs b))) as [E|_]; [|done]. symmetry. by apply zlen_zero_inv. }
  destruct (Z.eqb_spec (zlen ks) (zlen (db_reqs b))) as [E|_]; [exists b; split_and!; [done|by right|done|done]|].
  pose proof Ha as []. pose proof (al_rows_len b Ha) as Hrl.
  rewrite !take_indices_ok by (apply (valid_length (db_reqs b)); congruence). cbn [res_bind].
  assert (match db_output_ids b with None => Ok None | Some l => let* l := take_indices l ks in Ok (Some l) end
    = Ok ((fun l => select l ks) <$> db_output_ids b)) as ->.
  { destruct al_out0 as [->|(l & -> & Hl)]; [done|]. rewrite take_indices_ok; [done|]. by apply (valid_length (db_reqs b)). }
  cbn [res_bind]. set (reqs := select (db_reqs b) ks).
  assert (synced b -> select (db_seq_lens b) ks = map (fun r => kv_committed_len (sr_req r)) reqs) as Hsync by (intros ->; apply select_map).
  destruct (existsb return_logprob reqs) eqn:El; cbn [res_bind].
  - destruct (al_top0 ltac:(rewrite al_logprob0; by eapply existsb_select)) as [(top & Ht & Htl) (toks & Hk & Hkl)].
    unfold take_indices_of. rewrite Ht, Hk, !take_indices_ok by (by apply (valid_length (db_reqs b))). cbn [res_bind].
    eexists. split; [done|]. split_and!; [right; split; [|done]|done|simpl; intros H; by apply fmap_is_Some]. rewrite <- El. apply aligned_select; [done..|]. intros _.
    split; eexists; (split; [done|]); by apply length_select_as.
  - eexists. split; [done|]. split_and!; [right; split; [|done]|done|simpl; intros H; by apply fmap_is_Some]. rewrite <- El. apply aligned_select; [done..|]. fold reqs. by rewrite El.
Qed.

(** Without indices, the unfinished requests that are not excluded stay, in order. *)
Lemma filter_default_ok exclude b : batch_aligned b ->
  exists b', filter_batch exclude None b = Ok b' /\ realigned b b'
    /\ db_reqs b' = filter (fun r => sr_finished r = false /\ r ∉ exclude) (db_reqs b)
    /\ (is_Some (db_output_ids b) -> is_Some (db_output_ids b')).
Proof.
  intros Ha. destruct (filter_batch_ok exclude None b Ha (default_keep_valid _ _)) as (b' & -> & Hr & Heq & Ho).
  exists b'. split_and!; [done|done| |done]. rewrite Heq. cbn [keep_of]. rewrite default_keep_select.
  destruct (Z.eqb_spec (zlen (default_keep exclude (db_reqs b))) (zlen (db_reqs b))) as [E|_]; [|done].
  symmetry. apply filter_all, Forall_forall. intros r Hr'. apply dec_stable. intros Hn.
  pose proof (length_filter_lt (fun r => sr_finished r = false /\ r ∉ exclude) (db_reqs b) r Hr' Hn) as Hlt.
  rewrite <- default_keep_select, length_select in Hlt by apply default_keep_valid. unfold zlen in E. lia.
Qed.

Lemma entries_app {B} reqs reqs' (l k : list B) : length l = length reqs -> length k = length reqs' ->
  entries_for (reqs ++ reqs') (Some (l ++ k)).
Proof. intros. eexists. split; [done|]. rewrite !length_app. lia. Qed.

Lemma merge_batch_ok b o : batch_aligned b -> batch_aligned o -> (db_output_ids b = None \/ is_Some (db_output_ids o)) ->
  exists b', merge_batch b o = Ok b' /\ batch_aligned b' /\ db_reqs b' = db_reqs b ++ db_reqs o.
Proof.
  intros Hb Ho Hout. unfold merge_batch. pose proof Hb as [B1 B2 B3 B4 B5 B6 B7 B8]. pose proof Ho as [O1 O2 O3 O4 O5 O6 O7 O8].
  assert (exists out, match db_output_ids b with None => Ok None | Some l => py_concat l (db_output_ids o) end = Ok out
    /\ (out = None \/ entries_for (db_reqs b ++ db_reqs o) out)) as (out & -> & Hout').
  { destruct B6 as [->|(l & Hb6 & Hl)]; [eexists; split; [done|by left]|]. rewrite Hb6. destruct Hout as [|[k Hk]]; [congruence|]. rewrite Hk. simpl.
    eexists. split; [done|]. right. destruct O6 as [O6|(k' & O6 & Hkl)]; [congruence|]. apply entries_app; congruence. }
  cbn [res_bind].
  assert (forall top toks, (db_return_logprob b || db_return_logprob o = true ->
      entries_for (db_reqs b ++ db_reqs o) top /\ entries_for (db_reqs b ++ db_reqs o) toks) ->
    batch_aligned (MkDecode (db_reqs b ++ db_reqs o) (db_req_pool_indices b ++ db_req_pool_indices o) (db_seq_lens b ++ db_seq_lens o)
        (db_seq_lens_cpu b ++ db_seq_lens_cpu o) (db_orig_seq_lens b ++ db_orig_seq_lens o)
        (db_seq_lens_sum b + db_seq_lens_sum o) (db_input_ids b) out None
        (db_return_logprob b || db_return_logprob o) top toks (db_is_prefill_only b && db_is_prefill_only o) (db_batch_is_full b))) as Hall.
  { intros top toks Htop. split; simpl; try done; rewrite ?length_app, ?map_app, ?zsum_app, ?existsb_app; congruence. }
  destruct (db_return_logprob b) eqn:Eb, (db_return_logprob o) eqn:Eo; cbn [andb orb] in *.
  - destruct (B8 eq_refl) as [(l & -> & ?) (k & -> & ?)], (O8 eq_refl) as [(l' & -> & ?) (k' & -> & ?)]. simpl.
    eexists. split_and!; [done| |done]. apply Hall. intros _. split; by apply entries_app.
  - destruct (B8 eq_refl) as [(l & -> & ?) (k & -> & ?)]. simpl. eexists. split_and!; [done| |done]. apply Hall. intros _.
    split; apply entries_app; by rewrite ?repeat_length.
  - destruct (O8 eq_refl) as [(l & -> & ?) (k & -> & ?)]. simpl. eexists. split_and!; [done| |done]. apply Hall. intros _.
    split; apply entries_app; by rewrite ?repeat_length.
  - cbn [res_bind]. eexists. split_and!; [done| |done]. by apply Hall.
Qed.

(** ** Joining the last prefill batch *)

Lemma set_full_aligned b full : batch_aligned b -> batch_aligned (set_batch_is_full b full).
Proof. intros []. by split. Qed.

Lemma merge_last_ok chunked running last : (db_reqs running = [] \/ batch_aligned running) -> batch_aligned last ->
  (db_output_ids running = None \/ is_Some (db_output_ids last)) ->
  exists b, merge_last_batch chunked running last = Ok b
    /\ db_reqs b = db_reqs running ++ filter (fun r => sr_finished r = false /\ r ∉ chunked) (db_reqs last)
    /\ (db_reqs b = [] \/ batch_aligned b).
Proof.
  intros Hrun Hlast Hout. unfold merge_last_batch.
  destruct (filter_default_ok chunked last Hlast) as (l & Hf & Hre & Hl & Ho). rewrite Hf. cbn [res_bind]. rewrite <- Hl.
  set (r := if batch_size l <? batch_size last then set_batch_is_full running false else running).
  assert (db_reqs r = db_reqs running) as Hr by (unfold r; by case_match).
  assert (db_output_ids r = db_output_ids running) as Hor by (unfold r; by case_match).
  assert (db_reqs r = [] \/ batch_aligned r) as Har.
  { rewrite Hr. destruct Hrun; [by left|right]. unfold r. case_match; [by apply set_full_aligned|done]. }
  unfold is_empty. destruct (Z.eqb_spec (zlen (db_reqs l)) 0) as [E|E].
  { apply zlen_zero_inv in E. exists r. rewrite E, app_nil_r. split_and!; [done|done|done]. }
  destruct Hre as [Hre|[Hal _]]; [by rewrite Hre in E|].
  destruct (Z.eqb_spec (zlen (db_reqs r)) 0) as [E'|E'].
  { apply zlen_zero_inv in E'. exists l. rewrite <- Hr, E'. split_and!; [done|done|by right]. }
  destruct Har as [Har|Har]; [by rewrite Har in E'|].
  destruct (merge_batch_ok r l Har Hal) as (b & -> & Hb & Hrb).
  { rewrite Hor. destruct Hout as [|Hs]; [by left|right]. by apply Ho. }
  exists b. rewrite Hrb, Hr. split_and!; [done|done|by right].
Qed.

Lemma clean_prefill_ok m : (db_reqs m = [] \/ batch_aligned m) ->
  exists b, clean_prefill_only m = Ok b
    /\ db_reqs b = (if db_is_prefill_only m then filter (fun r => sr_finished r = false /\ r ∉ []) (db_reqs m) else db_reqs m)
    /\ (db_reqs b = [] \/ batch_aligned b).
Proof.
  intros Ham. unfold clean_prefill_only. destruct (db_is_prefill_only m); [|by exists m].
  destruct Ham as [E|Ha].
  - exists (set_batch_is_full (set_reqs m []) false). unfold filter_batch, default_keep. rewrite E. simpl. split_and!; [done|done|by left].
  - destruct (filter_default_ok [] m Ha) as (b & -> & Hre & Hb & _). cbn [res_bind].
    exists (if is_empty b then set_batch_is_full b false else b).
    assert (db_reqs (if is_empty b then set_batch_is_full b false else b) = db_reqs b) as -> by (by case_match).
    split_and!; [done|done|]. destruct Hre as [|[Hal _]]; [by left|right]. case_match; [by apply set_full_aligned|done].
Qed.
