(* ===== verification/DecodeRetract.v ===== *)
(** Retraction: when the running batch does not fit, requests give back their memory,
    in the documented order, until the rest fits. *)

From S2P Require Export BatchAlign KVMemory PolicyProps.

(** ** Running requests and what they hold *)

(** A running request with its row of the table, the pages it holds alone, and the
    pages allocated ahead of need. *)
Record seat : Type := MkSeat {
  st_req : SchedReq;
  st_row : Z;
  st_own : list Z;
  st_over : list Z
}.

Definition seat_slots (s : seat) : list Z := st_own s ++ st_over s.

Section Seats.
Context {T A : Type} {Alloc : KVAllocator A} {Cache : BasePrefixCache T A kva_pool}.
Context (args : release_args).

Definition commit_of (r : SchedReq) : Z := cache_commit_len (ra_strip_thinking_cache args) (sr_req r).

Definition seat_hold (s : seat) : holding := (sr_req (st_req s), commit_of (st_req s), st_own s).

Record seat_ok (ps : Z) (pool : ReqToTokenPool) (s : seat) : Prop := {
  so_row : req_pool_idx (sr_req (st_req s)) = Some (st_row s);
  so_over : overallocated ps pool (sr_req (st_req s)) (commit_of (st_req s)) (st_over s);
  so_exact : ra_speculative args = false -> ra_strip_thinking_cache args = false ->
    commit_of (st_req s) = kv_allocated_len (sr_req (st_req s));
  so_committed : kv_committed_freed (sr_req (st_req s)) = false;
  so_overallocated : kv_overallocated_freed (sr_req (st_req s)) = false;
}.

(** The running requests, the cache and the other clients account for all memory. *)
Record seats_ok (t : T) (g : tc_ghost) (a : A) (pool : ReqToTokenPool) (seats : list seat) (rest held : list Z) : Prop := {
  ss_sync : in_sync t g a (concat (map seat_slots seats) ++ rest);
  ss_holds : tc_holds t g pool (map seat_hold seats);
  ss_rows : pool_owned pool (map st_row seats ++ held);
  ss_seats : Forall (seat_ok (tc_page_size t) pool) seats;
  ss_page : ra_page_size args = tc_page_size t;
}.

Lemma concat_perm {B} (l k : list (list B)) : Permutation l k -> Permutation (concat l) (concat k).
Proof. induction 1 as [| | |]; simpl; [done|by f_equiv|by rewrite !app_assoc, (Permutation_app_comm y x)|by etrans]. Qed.

Lemma seats_perm t g a pool seats seats' rest held : Permutation seats seats' ->
  seats_ok t g a pool seats rest held -> seats_ok t g a pool seats' rest held.
Proof.
  intros HP [(Hok & Hown & Hps) Hh Hr Hs Hp]. split; try done.
  - split_and!; try done. eapply kv_owns_perm; [|exact Hown]. do 2 f_equiv. by apply concat_perm, Permutation_map.
  - eapply tc_holds_perm; [|exact Hh]. by apply Permutation_map.
  - unfold pool_owned in *. by rewrite <- HP.
  - by rewrite <- HP.
Qed.

(** The request as it goes back to the waiting queue. *)
Definition retracted (r : SchedReq) : SchedReq :=
  reset_for_retract (set_sr_req r (set_req_pool_idx (set_req_freed (sr_req r) true true) None)).

Lemma seat_ok_table ps pool pool' s : req_to_token pool' = req_to_token pool -> seat_ok ps pool s -> seat_ok ps pool' s.
Proof.
  intros Ht []. split; try done. unfold overallocated, read_slice, row_at in *. by rewrite Ht.
Qed.

Lemma evict_seats t g a pool seats rest held num : seats_ok t g a pool seats rest held ->
  exists t' a' g', evict_from_tree_cache t a num = Ok (t', a') /\ seats_ok t' g' a' pool seats rest held
    /\ kv_available a <= kv_available a' /\ tc_page_size t' = tc_page_size t
    /\ kv_available a' + tc_evictable_size t' = kv_available a + tc_evictable_size t
    /\ (num <= kv_available a' \/ tc_evictable_size t' = 0).
Proof.
  intros [Hsync Hh Hr Hs Hp]. destruct (evict_any t g a _ num Hsync) as (t' & a' & g' & -> & Hs' & Hend & Hle & _ & Ht & Hsum & Hkeep).
  exists t', a', g'. split; [done|]. split_and!; try done. split; try done; [by apply Hkeep|by rewrite Ht|congruence].
Qed.

(** [release_req]: the request's memory is free, or evicted, and the others run on. *)
Lemma release_req_ok steps t g a pool s seats rest held k : seats_ok t g a pool (s :: seats) rest held ->
  exists t' a' g' pool', release_req args steps t a pool (st_req s) k = Ok (t', a', pool', retracted (st_req s))
    /\ seats_ok t' g' a' pool' seats rest held /\ req_to_token pool' = req_to_token pool
    /\ tc_page_size t' = tc_page_size t.
Proof.
  intros [Hsync Hh Hr Hs Hp]. apply Forall_cons in Hs as [[] Hs]. cbn [map concat] in *. unfold release_req.
  unfold seat_slots in Hsync at 1. rewrite <- !app_assoc in Hsync.
  destruct (release_ok args t g a pool (sr_req (st_req s)) (skip_radix_cache_insert (st_req s)) false (commit_of (st_req s)) (st_own s)
              (map seat_hold seats) (st_over s) (map st_row seats ++ held) _ (st_row s) Hsync Hh so_over0 Hp eq_refl so_exact0
              so_committed0 so_overallocated0 so_row0 Hr)
    as (t1 & a1 & g1 & pool' & q & -> & Hs1 & Hh1 & Hpg1 & Hr1 & Htab & ->). cbn [res_bind].
  assert (seats_ok t1 g1 a1 pool' seats rest held) as H1.
  { split; try done; [|congruence]. rewrite Hpg1. eapply Forall_impl; [exact Hs|]. intros x. by apply seat_ok_table. }
  destruct (evict_seats t1 g1 a1 pool' seats rest held (k * steps) H1) as (t' & a' & g' & -> & H2 & _ & Hpg & _). cbn [res_bind].
  exists t', a', g', pool'. split_and!; try done. congruence.
Qed.
End Seats.

(** ** The memory check *)

Section Retract.
Context (cfg : DecodeConfig).
Context {T A : Type} {Alloc : KVAllocator A} {Cache : BasePrefixCache T A kva_pool}.
Abbreviation args := (sc_release (dc_sched cfg)).
Abbreviation required := (new_tokens_required_next_decode cfg).
Abbreviation steps := (sc_retract_decode_steps (dc_sched cfg)).
Abbreviation seats_ok := (seats_ok (Cache := Cache) args).

(** The configuration gives a number of tokens for every batch. *)
Definition required_defined : Prop := forall ps reqs, exists n, required ps reqs = Ok n.

(** [reqs] fit into what is free. *)
Definition fits (a : A) (reqs : list SchedReq) : Prop :=
  exists n, required (kv_page_size a) reqs = Ok n /\ n <= kv_available a.

(** The order of the requests does not matter. *)
Lemma required_perm ps reqs reqs' : Permutation reqs reqs' -> required ps reqs = required ps reqs'.
Proof.
  intros HP. unfold new_tokens_required_next_decode, new_tokens_required_next_decode_spec_v2.
  destruct (algo_is_none (dc_spec cfg)).
  - do 2 f_equal. apply zlen_perm. by rewrite HP.
  - destruct (is_spec_v2 cfg) as [v2|]; [|done]. cbn [res_bind].
    destruct v2.
    + destruct (get_alloc_len_per_decode cfg) as [k|]; [|done]. cbn [res_bind]. f_equal. apply zsum_perm. by apply Permutation_map.
    + by rewrite (zlen_perm _ _ HP).
Qed.

Lemma fits_perm a reqs reqs' : Permutation reqs reqs' -> fits a reqs -> fits a reqs'.
Proof. intros HP (n & Hn & Hle). exists n. by rewrite <- (required_perm _ _ _ HP). Qed.

Lemma check_decode_mem_ok b sel reqs t g a pool seats rest held : required_defined -> seats_ok t g a pool seats rest held ->
  (match sel with None => Ok (db_reqs b) | Some l => take_indices (db_reqs b) l end) = Ok reqs ->
  exists enough t' a' g', check_decode_mem cfg b sel t a = Ok (enough, t', a') /\ seats_ok t' g' a' pool seats rest held
    /\ tc_page_size t' = tc_page_size t /\ if (enough : bool) then fits a' reqs else ~ fits a' reqs /\ tc_evictable_size t' = 0.
Proof.
  intros Hdef Hs Hsel. unfold check_decode_mem. rewrite Hsel. cbn [res_bind].
  destruct (Hdef (kv_page_size a) reqs) as [n Hn]. rewrite Hn. cbn [res_bind].
  destruct (evict_seats args t g a pool seats rest held n Hs) as (t' & a' & g' & -> & Hs' & _ & Hpg & _ & Hend). cbn [res_bind].
  exists (n <=? kv_available a'), t', a', g'. split_and!; try done.
  assert (kv_page_size a' = kv_page_size a) as Hpa.
  { destruct Hs as [(_ & _ & H1) _ _ _ _], Hs' as [(_ & _ & H2) _ _ _ _]. congruence. }
  destruct (Z.leb_spec n (kv_available a')) as [Hle|Hgt]; [exists n; by rewrite Hpa|].
  split; [|destruct Hend; [lia|done]]. intros (m & Hm & Hle). rewrite Hpa in Hm. assert (m = n) by congruence. lia.
Qed.

(** ** The loop *)

(** The indices [l] of the batch are those of [seats]. *)
Abbreviation seated := (fun b => Forall2 (fun i s => db_reqs b !! i = Some (st_req s))).

Lemma seated_select b l seats : seated b l seats -> take_indices (db_reqs b) l = Ok (map st_req seats).
Proof. induction 1 as [|i s l seats Hi _ IH]; [done|]. simpl. by rewrite Hi, IH. Qed.

Lemma seated_rev b l seats : seated b l seats -> seated b (rev l) (rev seats).
Proof. induction 1 as [|i s l seats Hi _ IH]; [constructor|]. simpl. by apply Forall2_app; [|repeat constructor]. Qed.

(** The state between two iterations: the requests that gave back their memory come
    first, and what is left fits or is a single request. *)
Lemma retract_loop_ok b stack : required_defined -> forall seats first t g a pool rest held,
  seated b stack seats -> stack <> [] -> seats_ok t g a pool seats rest held ->
  exists gone kept stack' t' a' g' pool',
    retract_loop cfg b first stack t a pool = Ok (stack', map (fun s => retracted (st_req s)) gone, t', a', pool')
    /\ seats = gone ++ kept /\ stack' = drop (length gone) stack /\ kept <> []
    /\ seats_ok t' g' a' pool' kept rest held /\ req_to_token pool' = req_to_token pool /\ tc_page_size t' = tc_page_size t
    /\ (length kept = 1%nat \/ fits a' (map st_req kept)) /\ (first = true -> (2 <= length stack)%nat -> gone <> []).
Proof.
  intros Hdef. induction stack as [|idx stack IH]; [done|]. intros seats first t g a pool rest held Hse _ Hs.
  assert (exists enough t1 a1 g1, (if first then Ok (false, t, a) else check_decode_mem cfg b (Some (rev (idx :: stack))) t a)
    = Ok (enough, t1, a1) /\ seats_ok t1 g1 a1 pool seats rest held /\ tc_page_size t1 = tc_page_size t
    /\ (enough = true -> first = false /\ fits a1 (map st_req seats))) as (enough & t1 & a1 & g1 & Hc & Hs1 & Hp1 & He).
  { destruct first; [by exists false, t, a, g|].
    destruct (check_decode_mem_ok b (Some (rev (idx :: stack))) _ t g a pool seats rest held Hdef Hs
                (seated_select _ _ _ (seated_rev _ _ _ Hse))) as (e & t1 & a1 & g1 & -> & H1 & H2 & H3).
    exists e, t1, a1, g1. split_and!; try done. intros ->. split; [done|]. eapply fits_perm; [|exact H3].
    apply Permutation_map. symmetry. apply Permutation_rev. }
  cbn [retract_loop]. rewrite Hc. cbn [res_bind]. destruct enough.
  { destruct (He eq_refl) as [-> Hf]. exists [], seats, (idx :: stack), t1, a1, g1, pool. split_and!; try done; [|by right].
    intros ->. inversion Hse. }
  inversion Hse as [|? s ? seats' Hi Hse']; subst. destruct stack as [|idx' stack].
  { inversion Hse'; subst. exists [], [s], [idx], t1, a1, g1, pool. split_and!; try done; [by left|]. simpl. lia. }
  rewrite Hi. destruct (release_req_ok args steps t1 g1 a1 pool s seats' rest held (zlen (idx' :: stack)) Hs1)
    as (t2 & a2 & g2 & pool2 & -> & Hs2 & Ht2 & Hp2). cbn [res_bind].
  destruct (IH seats' false t2 g2 a2 pool2 rest held Hse' ltac:(done) Hs2)
    as (gone & kept & stack' & t' & a' & g' & pool' & -> & -> & -> & Hk & Hs' & Ht' & Hp' & Hfit & _). cbn [res_bind].
  exists (s :: gone), kept, (drop (length gone) (idx' :: stack)), t', a', g', pool'. split_and!; try done; congruence.
Qed.

(** ** The last request *)

Lemma retract_last_ok b stack seats t g a pool rest held : required_defined -> seated b stack seats -> stack <> [] ->
  seats_ok t g a pool seats rest held -> (length seats = 1%nat \/ fits a (map st_req seats)) ->
  exists aborted kept stack' t' a' g' pool',
    retract_last cfg b stack t a pool = Ok (stack', map (fun s => retracted (st_req s)) aborted, t', a', pool')
    /\ seats = aborted ++ kept /\ stack' = drop (length aborted) stack
    /\ seats_ok t' g' a' pool' kept rest held /\ req_to_token pool' = req_to_token pool /\ tc_page_size t' = tc_page_size t
    /\ (aborted = [] /\ fits a' (map st_req kept) \/ length aborted = 1%nat /\ kept = []).
Proof.
  intros Hdef Hse Hne Hs Hfit. unfold retract_last. destruct (Z.leb_spec (zlen stack) 1) as [Hle|Hgt].
  - destruct stack as [|i [|i' stack]]; [done| |unfold zlen in Hle; simpl in Hle; lia].
    destruct (check_decode_mem_ok b (Some (rev [i])) _ t g a pool seats rest held Hdef Hs
                (seated_select _ _ _ (seated_rev _ _ _ Hse))) as (e & t1 & a1 & g1 & -> & Hs1 & Hp1 & He). cbn [res_bind].
    inversion Hse as [|? s ? seats' Hi Hse']; subst. inversion Hse'; subst. destruct e.
    { exists [], [s], [i], t1, a1, g1, pool. split_and!; try done. by left. }
    rewrite Hi. destruct (release_req_ok args steps t1 g1 a1 pool s [] rest held 0 Hs1) as (t2 & a2 & g2 & pool2 & -> & Hs2 & Ht2 & Hp2).
    cbn [res_bind]. exists [s], [], [], t2, a2, g2, pool2. split_and!; try done; [congruence|by right].
  - exists [], seats, stack, t, a, g, pool. split_and!; try done. left. split; [done|]. destruct Hfit as [H|H]; [|done].
    apply Forall2_length in Hse. unfold zlen in Hgt. lia.
Qed.

(** ** The order of retraction *)

Lemma retract_order_perm reqs : Permutation (retract_order cfg reqs) (seq 0 (length reqs)).
Proof. unfold retract_order. destruct (ra_speculative args); [done|apply py_sort_perm]. Qed.

(** Requests with more output, then with less input, are kept. *)
Definition kept_before (r r' : SchedReq) : Prop :=
  ra_speculative args = false -> pair_ltb (retract_key r) (retract_key r') = false.

Lemma sorted_app {B} (R : B -> B -> Prop) l k : StronglySorted R (l ++ k) -> forall x y, x ∈ l -> y ∈ k -> R x y.
Proof.
  induction l as [|z l IH]; intros Hs x y Hx Hy; [by apply elem_of_nil in Hx|]. inversion Hs as [|? ? Hl Hz]; subst.
  apply elem_of_cons in Hx as [->|Hx]; [|by apply IH]. rewrite Forall_forall in Hz. apply Hz. set_solver.
Qed.

Lemma retract_order_sorted b gone kept stack seats : rev (retract_order cfg (db_reqs b)) = stack ->
  Forall2 (fun i s => db_reqs b !! i = Some (st_req s)) stack seats -> seats = gone ++ kept ->
  forall x y, x ∈ kept -> y ∈ gone -> kept_before (st_req x) (st_req y).
Proof.
  intros Hst Hse -> x y Hx Hy Hsp. apply Forall2_app_inv_r in Hse as (l1 & l2 & H1 & H2 & ->).
  assert (retract_order cfg (db_reqs b) = rev l2 ++ rev l1) as Ho by (by rewrite <- rev_app_distr, <- Hst, rev_involutive).
  unfold retract_order in Ho. rewrite Hsp in Ho.
  set (key := fun i => match db_reqs b !! i with Some r => retract_key r | None => (0, 0) end) in Ho.
  pose proof (sorted_by _ (WeakOrder0 := wo_flip _ (wo_key _ key wo_pair)) (seq 0 (length (db_reqs b)))) as Hsort. cbv beta in Hsort.
  change (py_sort (fun i j => pair_ltb (key j) (key i)) (seq 0 (length (db_reqs b))) = rev l2 ++ rev l1) in Ho.
  rewrite Ho in Hsort. apply list_elem_of_lookup in Hx as [p Hx], Hy as [q Hy].
  destruct (Forall2_lookup_r _ _ _ _ _ H2 Hx) as (i & Hi & Ei). destruct (Forall2_lookup_r _ _ _ _ _ H1 Hy) as (j & Hj & Ej).
  pose proof (sorted_app _ _ _ Hsort i j) as H. unfold key in H. rewrite Ei, Ej in H. apply H.
  - rewrite list_elem_of_In, <- in_rev, <- list_elem_of_In. by eapply list_elem_of_lookup_2.
  - rewrite list_elem_of_In, <- in_rev, <- list_elem_of_In. by eapply list_elem_of_lookup_2.
Qed.

(** ** The new estimate *)

Lemma estimate_ratio_ok reqs : 0 <= steps -> Forall (fun r => 0 <= max_new_tokens r) reqs ->
  exists x, estimate_ratio cfg reqs = Ok x /\ 0 <= units_of x <= float_one.
Proof.
  intros Hst Hm. unfold estimate_ratio. set (d := zsum (map (fun r => zlen (output_ids (sr_req r))) reqs) + steps * zlen reqs).
  set (m := zsum (map max_new_tokens reqs)).
  assert (0 <= m) as Hm0 by (apply zsum_nonneg, Forall_map; exact Hm).
  assert (0 <= d) as Hd0.
  { assert (0 <= zsum (map (fun r => zlen (output_ids (sr_req r))) reqs)).
    { apply zsum_nonneg, Forall_map, Forall_forall. intros. apply zlen_nonneg. }
    pose proof (zlen_nonneg reqs). nia. }
  unfold int_truediv. destruct (Z.eqb_spec (m + 1) 0); [lia|]. cbn [res_bind]. eexists. split; [done|].
  pose proof float_one_pos. pose proof (round_ratio_nonneg (Z.abs d * float_one) (Z.abs (m + 1)) ltac:(nia) ltac:(lia)) as Hr.
  unfold num_min, num_ltb. cbn [units_of]. set (x := Z.sgn d * Z.sgn (m + 1) * _).
  assert (0 <= x) by (unfold x; pose proof (Z.sgn_nonneg d); pose proof (Z.sgn_nonneg (m + 1)); nia).
  destruct (Z.ltb_spec x float_one); simpl; lia.
Qed.

(** ** [retract_decode] *)

Lemma seated_of b seats l : map st_req seats = db_reqs b -> valid_indices (db_reqs b) l ->
  Forall2 (fun i s => db_reqs b !! i = Some (st_req s)) l (select seats l).
Proof.
  intros Hm. unfold select. induction 1 as [|i l Hi _ IH]; [constructor|]. simpl.
  rewrite <- Hm, length_map in Hi. destruct (lookup_lt_is_Some_2 seats i Hi) as [s Hs]. rewrite Hs. constructor; [|done].
  by rewrite <- Hm, list_lookup_fmap, Hs.
Qed.

Lemma order_valid reqs : valid_indices reqs (rev (retract_order cfg reqs)).
Proof.
  apply Forall_forall. intros i. rewrite list_elem_of_In, <- in_rev, <- list_elem_of_In, retract_order_perm, elem_of_seq. lia.
Qed.

Lemma order_seats {B} (seats : list B) reqs : length seats = length reqs -> Permutation (select seats (rev (retract_order cfg reqs))) seats.
Proof.
  intros Hl. rewrite <- (select_seq seats) at 2. apply select_perm. by rewrite <- Permutation_rev, retract_order_perm, Hl.
Qed.

(** The batch after the requests before [kept] in [stack] left. *)
Lemma filter_kept b stack seats gone kept : batch_aligned b -> Forall2 (fun i s => db_reqs b !! i = Some (st_req s)) stack seats ->
  valid_indices (db_reqs b) stack -> Permutation (map st_req seats) (db_reqs b) -> seats = gone ++ kept ->
  exists b', filter_batch [] (Some (rev (drop (length gone) stack))) b = Ok b' /\ realigned b b'
    /\ Permutation (db_reqs b') (map st_req kept).
Proof.
  intros Ha Hse Hv HP ->. apply Forall2_app_inv_r in Hse as (l1 & l2 & H1 & H2 & ->).
  rewrite <- (Forall2_length _ _ _ H1), drop_app_length. apply Forall_app in Hv as [_ Hv].
  assert (valid_indices (db_reqs b) (keep_of [] (Some (rev l2)) b)) as Hv2.
  { unfold valid_indices. simpl. by rewrite <- Permutation_rev. }
  destruct (filter_batch_ok [] (Some (rev l2)) b Ha Hv2) as (b' & Hf & Hal & Hr & _). exists b'. split_and!; [done|done|].
  pose proof (seated_select _ _ _ (seated_rev _ _ _ H2)) as Hsel. rewrite take_indices_ok in Hsel by done. injection Hsel as Hsel.
  rewrite Hr. cbn [keep_of]. rewrite Hsel. destruct (Z.eqb_spec (zlen (rev l2)) (zlen (db_reqs b))) as [E|_].
  - rewrite <- HP, map_app. assert (gone = []) as ->; [|done].
    apply Permutation_length in HP. apply Forall2_length in H1, H2. unfold zlen in E. rewrite length_rev in E.
    rewrite length_map, length_app in HP. destruct gone; [done|]. simpl in *. lia.
  - apply Permutation_map. symmetry. apply Permutation_rev.
Qed.

Lemma retract_decode_ok b seats t g a pool rest held : required_defined -> 0 <= steps -> batch_aligned b ->
  map st_req seats = db_reqs b -> db_reqs b <> [] -> Forall (fun r => 0 <= max_new_tokens r) (db_reqs b) ->
  seats_ok t g a pool seats rest held ->
  exists b' gone aborted kept ratio t' a' g' pool',
    retract_decode cfg b t a pool
      = Ok (b', map (fun s => retracted (st_req s)) gone, ratio, map (fun s => retracted (st_req s)) aborted, t', a', pool')
    /\ Permutation seats (gone ++ aborted ++ kept) /\ Permutation (db_reqs b') (map st_req kept)
    /\ realigned b b' /\ seats_ok t' g' a' pool' kept rest held
    /\ req_to_token pool' = req_to_token pool /\ tc_page_size t' = tc_page_size t
    /\ (aborted = [] /\ kept <> [] /\ fits a' (db_reqs b') \/ length aborted = 1%nat /\ kept = [])
    /\ ((2 <= length seats)%nat -> gone <> []) /\ 0 <= units_of ratio <= float_one
    /\ forall x y, x ∈ aborted ++ kept -> y ∈ gone -> kept_before (st_req x) (st_req y).
Proof.
  intros Hdef Hst Ha Hm Hne Hmax Hs. unfold retract_decode. set (stack := rev (retract_order cfg (db_reqs b))).
  assert (length seats = length (db_reqs b)) as Hlen by (by rewrite <- Hm, length_map).
  pose proof (order_valid (db_reqs b)) as Hv. pose proof (order_seats seats (db_reqs b) Hlen) as HP.
  pose proof (seated_of b seats _ Hm Hv) as Hse. fold stack in Hv, HP, Hse.
  assert (length stack = length (db_reqs b)) as Hls.
  { unfold stack. by rewrite length_rev, retract_order_perm, length_seq. }
  destruct (retract_loop_ok b stack Hdef (select seats stack) true t g a pool rest held Hse) as
    (gone & kept1 & ? & t1 & a1 & g1 & pool1 & -> & Hsplit & -> & Hk1 & Hs1 & Ht1 & Hp1 & Hfit & Hgone);
    [intros E; rewrite E in Hls; by destruct (db_reqs b)|by eapply seats_perm; [symmetry|]|]. cbn [res_bind].
  pose proof (retract_order_sorted b gone kept1 stack _ eq_refl Hse Hsplit) as Hord.
  assert (Forall2 (fun i s => db_reqs b !! i = Some (st_req s)) (drop (length gone) stack) kept1) as Hse1.
  { rewrite Hsplit in Hse. apply (Forall2_drop _ _ _ (length gone)) in Hse. by rewrite drop_app_length in Hse. }
  destruct (retract_last_ok b (drop (length gone) stack) kept1 t1 g1 a1 pool1 rest held Hdef Hse1) as
    (aborted & kept & ? & t' & a' & g' & pool' & -> & -> & -> & Hs' & Ht' & Hp' & Hend);
    [intros E; rewrite E in Hse1; by inversion Hse1; subst|done..|]. cbn [res_bind].
  rewrite drop_drop, <- length_app.
  destruct (filter_kept b stack (select seats stack) (gone ++ aborted) kept Ha Hse Hv) as (b' & -> & Hal & Hb');
    [rewrite <- Hm; by apply Permutation_map|by rewrite <- app_assoc|]. cbn [res_bind].
  assert (Permutation seats (gone ++ aborted ++ kept)) as HPs by (by rewrite <- Hsplit, HP).
  destruct (estimate_ratio_ok (db_reqs b') Hst) as (ratio & -> & Hr).
  { rewrite Hb'. apply Forall_forall. intros r Hin. rewrite Forall_forall in Hmax. apply Hmax. rewrite <- Hm, HPs, !map_app. set_solver. }
  cbn [res_bind]. exists b', gone, aborted, kept, ratio, t', a', g', pool'. split_and!; try done; try congruence; try lia.
  - destruct Hend as [[-> Hf]|Hend]; [left|by right]. split_and!; [done|done|by eapply fits_perm].
  - intros H2. apply Hgone; [done|]. lia.
Qed.
End Retract.
