(* ===== verification/DecodeStep.v ===== *)
(** A decode step without speculation: [prepare_for_decode] and [update_running_batch]
    always give every request that stays in the batch a slot for its next token. *)

From S2P Require Export KVMemory DecodeRetract.
From S2P Require Import SpecInfo.

(** * Allocating for a decode step *)

(** ** Writing one entry per row *)

Lemma write_entries_ok rows : forall (tab : list (list Z)) cols vals, length cols = length rows -> length vals = length rows -> NoDup rows ->
  (forall p i c, rows !! p = Some i -> cols !! p = Some c ->
     0 <= i /\ exists row, tab !! Z.to_nat i = Some row /\ 0 <= c < zlen row) ->
  exists tab', write_entries tab rows cols vals = Ok tab' /\ length tab' = length tab
    /\ (forall p i c v row, rows !! p = Some i -> cols !! p = Some c -> vals !! p = Some v -> tab !! Z.to_nat i = Some row ->
          tab' !! Z.to_nat i = Some (<[Z.to_nat c := v]> row))
    /\ (forall j, (forall i, i ∈ rows -> Z.to_nat i <> j) -> tab' !! j = tab !! j).
Proof.
  induction rows as [|i rows IH]; intros tab [|c cols] [|v vals] Hc Hv Hnd Hin; simpl in Hc, Hv; try lia; [by exists tab|].
  apply NoDup_cons in Hnd as [Hi Hnd].
  destruct (Hin 0%nat i c eq_refl eq_refl) as (Hi0 & row & Hrow & Hcr). simpl.
  pose proof (lookup_lt_Some _ _ _ Hrow) as Hlt. rewrite wrap_index_in by (unfold zlen; lia). rewrite Hrow. cbn [from_option id].
  rewrite wrap_index_in by done. set (tab1 := <[Z.to_nat i := _]> tab).
  assert (forall j, j ∈ rows -> 0 <= j -> tab1 !! Z.to_nat j = tab !! Z.to_nat j) as Hother.
  { intros j Hj Hj0. apply list_lookup_insert_ne. intros E. assert (i = j) as -> by lia. done. }
  destruct (IH tab1 cols vals ltac:(lia) ltac:(lia) Hnd) as (tab' & -> & Hl & Hw & Ho).
  { intros p j c' Hj Hc'. destruct (Hin (S p) j c' Hj Hc') as (Hj0 & row' & Hr' & Hb). split; [done|]. exists row'.
    rewrite Hother by (done || by eapply list_elem_of_lookup_2). done. }
  exists tab'. split_and!; [done|by rewrite Hl; unfold tab1; rewrite length_insert| |].
  - intros [|p] j c' v' row' Hj Hc' Hv' Hr'; simpl in Hj, Hc', Hv'.
    + simplify_eq. rewrite Ho; [|intros j' Hj' E; destruct (list_elem_of_lookup_1 _ _ Hj') as [p Hp];
        destruct (Hin (S p) j' (default 0 (cols !! p))) as [H0 _]; [done| |assert (j' = j) as -> by lia; done]].
      * unfold tab1. rewrite list_lookup_insert_eq by done. done.
      * simpl. destruct (lookup_lt_is_Some_2 cols p) as [x ->]; [|done]. apply lookup_lt_Some in Hp. lia.
    + eapply Hw; [done..|]. destruct (Hin (S p) j c' Hj Hc') as (H0 & _). by rewrite Hother by (done || by eapply list_elem_of_lookup_2).
  - intros j Hj. rewrite Ho by (intros j' Hj'; apply Hj; by right). apply list_lookup_insert_ne. apply Hj. by left.
Qed.

(** ** The last slot of every request *)

Lemma gather_entries (tab : list (list Z)) rows : forall cols, length cols = length rows ->
  (forall p i c, rows !! p = Some i -> cols !! p = Some c ->
     0 <= i /\ exists row, tab !! Z.to_nat i = Some row /\ 0 <= c < zlen row) ->
  exists l, gather2 tab rows cols = Ok l /\ length l = length rows
    /\ forall p i c row, rows !! p = Some i -> cols !! p = Some c -> tab !! Z.to_nat i = Some row -> l !! p = row !! Z.to_nat c.
Proof.
  induction rows as [|i rows IH]; intros [|c cols] Hc Hin; simpl in Hc; try lia; [by exists []|].
  destruct (Hin 0%nat i c eq_refl eq_refl) as (Hi0 & row & Hrow & Hcr).
  destruct (lookup_lt_is_Some_2 row (Z.to_nat c)) as [x Hx]; [unfold zlen in Hcr; lia|].
  destruct (IH cols ltac:(lia)) as (l & Hl & Hlen & Hat); [intros p j c' Hj Hc'; by apply (Hin (S p))|].
  exists (x :: l). simpl. rewrite (tensor_at_in tab i row) by done. cbn [res_bind]. rewrite (tensor_at_in row c x) by (done || lia).
  cbn [res_bind]. rewrite Hl. split_and!; [done|simpl; lia|]. intros [|p] j c' row' Hj Hc' Hr'; simpl in *; simplify_eq; [done|by eapply Hat].
Qed.

(** ** How many pages a decode step needs *)

(** The count of [new_tokens_required_next_decode] is that of the kernel. *)
Lemma decode_pages ps lens : 2 <= ps -> Forall (fun s => 1 <= s) lens ->
  get_num_new_pages (map (fun s => s + 1) lens) ps lens = zlen (filter (fun s => s mod ps = 0) lens).
Proof.
  intros Hps Hl. unfold get_num_new_pages. induction Hl as [|s lens Hs _ IH]; [done|]. cbn [map zip_with].
  rewrite zsum_cons, IH, filter_cons.
  pose proof (Z.div_mod s ps ltac:(lia)) as Hdm. pose proof (Z.mod_pos_bound s ps ltac:(lia)) as Hm.
  assert ((s + 1 + ps - 1) / ps = s / ps + 1) as ->.
  { symmetry. apply (Z.div_unique _ _ _ (s mod ps)); [left; lia|]. lia. }
  destruct (decide (s mod ps = 0)) as [E|E].
  - rewrite zlen_cons. assert ((s + ps - 1) / ps = s / ps) as ->; [|lia].
    symmetry. apply (Z.div_unique _ _ _ (ps - 1)); [left; lia|]. lia.
  - assert ((s + ps - 1) / ps = s / ps + 1) as ->; [|lia]. symmetry. apply (Z.div_unique _ _ _ (s mod ps - 1)); [left; lia|]. lia.
Qed.

Lemma pred_succ_map (lens : list Z) : map (fun x => x - 1) (map (fun s => s + 1) lens) = lens.
Proof. rewrite map_map. rewrite <- (map_id lens) at 2. apply map_ext. lia. Qed.

(** ** [alloc_for_decode] *)

(** A request of row [i] with [s] tokens: its row has room for one more, and when its
    last page is not full, the slot of its last token is one of [held]. *)
Definition decode_entry (ps : Z) (pool : ReqToTokenPool) (held : list Z) (i s : Z) : Prop :=
  0 <= i /\ exists row, req_to_token pool !! Z.to_nat i = Some row /\ 1 <= s < zlen row
    /\ (s mod ps <> 0 -> exists x, row !! Z.to_nat (s - 1) = Some x /\ (x + 1) mod ps = s mod ps /\ x ∈ held).

(** The table after the step: the slot of the new token in the next column. *)
Definition decode_written (tab tab' : list (list Z)) (rows lens out : list Z) : Prop :=
  (forall p i s x row, rows !! p = Some i -> lens !! p = Some s -> out !! p = Some x -> tab !! Z.to_nat i = Some row ->
     tab' !! Z.to_nat i = Some (<[Z.to_nat s := to_int32 x]> row))
  /\ (forall j, (forall i, i ∈ rows -> Z.to_nat i <> j) -> tab' !! j = tab !! j).

Section Decode.
Context {T A : Type} {Alloc : KVAllocator A} {Cache : BasePrefixCache T A kva_pool}.

Lemma decode_extendable ps pool held rows lens last : Forall2 (decode_entry ps pool held) rows lens ->
  length last = length rows -> 1 < ps ->
  (forall p i s row, rows !! p = Some i -> lens !! p = Some s -> req_to_token pool !! Z.to_nat i = Some row ->
     last !! p = row !! Z.to_nat (s - 1)) ->
  extendable ps held lens (map (fun s => s + 1) lens) last.
Proof.
  intros HF Hl Hps Hlast. pose proof (Forall2_length _ _ _ HF) as Hrl. split_and!; [by rewrite length_map|lia| |].
  - intros p Hp. destruct (lookup_lt_is_Some_2 lens p Hp) as [s Hs]. destruct (Forall2_lookup_r _ _ _ _ _ HF Hs) as (i & Hi & _ & row & _ & Hb & _).
    rewrite (nth_lookup_Some lens p 0 s Hs), (nth_lookup_Some (map _ lens) p 0 (s + 1)); [lia|]. by rewrite list_lookup_fmap, Hs.
  - intros p Hp [Ht _]. destruct (lookup_lt_is_Some_2 lens p Hp) as [s Hs]. destruct (Forall2_lookup_r _ _ _ _ _ HF Hs) as (i & Hi & _ & row & Hr & Hb & Hx).
    rewrite (nth_lookup_Some lens p 0 s Hs) in Ht |- *. destruct (Hx Ht) as (x & Ex & Hm & Hin).
    rewrite (nth_lookup_Some last p 0 x); [done|]. by rewrite (Hlast p i s row).
Qed.

Lemma decode_lens_pos ps pool held rows lens : Forall2 (decode_entry ps pool held) rows lens -> Forall (fun s => 1 <= s) lens.
Proof. intros HF. eapply Forall2_Forall_r; [exact HF|]. apply Forall_forall. intros i _ s (_ & row & _ & H & _). lia. Qed.

(** The slots: from the pool, or the next slot of the last page. *)
Lemma decode_slots_ok t g a held pool rows lens : kv_decode_slack = 0 -> in_sync t g a held ->
  Forall2 (decode_entry (tc_page_size t) pool held) rows lens ->
  zlen (filter (fun s => s mod tc_page_size t = 0) lens) * tc_page_size t <= kv_available a ->
  exists out t' a' g' fresh last,
    (if tc_page_size t =? 1 then
       let* (out_cache_loc, _, t, a) := alloc_token_slots t a (zlen lens * 1) false in Ok (out_cache_loc, t, a)
     else
       let* last_loc := gather2 (req_to_token pool) rows (map (fun s => s - 1) lens) in
       alloc_paged_token_slots_decode t a (map (fun s => s + 1) lens) last_loc) = Ok (out, t', a')
    /\ zlen out = zlen lens /\ in_sync t' g' a' (fresh ++ held)
    /\ placement (tc_page_size t) lens (map (fun s => s + 1) lens) last out fresh
    /\ (forall pool hs, tc_holds t g pool hs -> tc_holds t' g' pool hs).
Proof.
  intros Hsl Hs HF Hav. pose proof (decode_lens_pos _ _ _ _ _ HF) as Hpos. pose proof Hs as (Hok & Hown & Hpg).
  pose proof (tc_page_size_pos t g Hok) as Hp1. pose proof (tc_evictable_nonneg t g Hok) as Hev.
  destruct (Z.eqb_spec (tc_page_size t) 1) as [E|E].
  - rewrite E in Hav. assert (zlen lens <= kv_available a) as Hle.
    { rewrite filter_all in Hav by (apply Forall_forall; intros; apply Z.mod_1_r). lia. }
    rewrite Z.mul_1_r. assert (zlen lens <= kv_available a + tc_evictable_size t) as Hle' by lia.
    destruct (alloc_token_slots_ok t g a held (zlen lens) false Hs E (zlen_nonneg _) Hle')
      as (out & st & t' & a' & g' & -> & Hl & Hs' & Hk & _). cbn [res_bind].
    exists out, t', a', g', out, []. split_and!; try done. unfold placement. by rewrite E.
  - destruct (gather_entries (req_to_token pool) rows (map (fun s => s - 1) lens)) as (last & -> & Hll & Hlast).
    { rewrite length_map. symmetry. by eapply Forall2_length. }
    { intros p i c Hi Hc. rewrite list_lookup_fmap in Hc. destruct (lens !! p) as [s|] eqn:Es; [|done]. simpl in Hc. injection Hc as <-.
      destruct (Forall2_lookup_lr _ _ _ _ _ _ HF Hi Es) as (H0 & row & Hr & Hb & _). split; [done|]. exists row. split; [done|lia]. }
    cbn [res_bind]. unfold alloc_paged_token_slots_decode.
    destruct (evict_any t g a held (zlen (map (fun s => s + 1) lens) * kv_page_size a) Hs)
      as (t1 & a1 & g1 & -> & (Hok1 & Hown1 & Hpg1) & _ & Hge & Hpa & Ht & _ & Hk). cbn [res_bind].
    assert (1 < tc_page_size t) as Hgt by lia. assert (kv_page_size a1 = tc_page_size t) as Ep by congruence.
    assert (extendable (tc_page_size t) held lens (map (fun s => s + 1) lens) last) as Hext.
    { apply (decode_extendable _ pool held rows); try done. intros p i s row Hi Hs1 Hr. apply (Hlast p i (s - 1) row Hi); [|done].
      by rewrite list_lookup_fmap, Hs1. }
    pose proof (kv_decode_law a1 (tc_slots t1 g1 ++ held) (map (fun s => s + 1) lens) last) as Hlaw. cbv zeta in Hlaw.
    rewrite Ep, pred_succ_map, decode_pages, Hsl, Z.add_0_r in Hlaw by (done || lia).
    destruct Hlaw as (pages & a2 & -> & Hp2 & Hkp & Ho & _); [done|done|apply Forall_map; eapply Forall_impl; [exact Hpos|]; simpl; lia|
      eapply extendable_mono; [|exact Hext]; intros x Hx; apply elem_of_app; by right|lia|]. cbn [res_bind].
    eexists _, t1, a2, g1, _, last. split; [done|]. split_and!; [|split_and!; [done| |congruence]| |done].
    + rewrite (zlen_placement (tc_page_size t) held); [|lia|done|rewrite decode_pages by (done || lia); lia].
      clear. unfold ext_lens. induction lens as [|s lens IH]; [done|]. cbn [map zip_with]. rewrite zsum_cons, zlen_cons, IH. lia.
    + eapply kv_owns_perm; [|exact Ho]. apply Permutation_app_swap_app.
    + unfold placement. destruct (Z.eqb_spec (tc_page_size t) 1); [lia|]. exists pages. rewrite decode_pages by (done || lia). done.
Qed.

(** A running request of another row, or whose tokens end before the new column. *)
Definition undisturbed (rows lens : list Z) (h : holding) : Prop :=
  exists i, req_pool_idx (h_req h) = Some i /\ 0 <= i /\ 0 <= h_len h
    /\ forall p s, rows !! p = Some i -> lens !! p = Some s -> h_len h <= s.

Lemma decode_written_row pool pool' rows lens out h : length lens = length rows -> length out = length rows ->
  Forall (fun i => 0 <= i) rows -> (forall i, i ∈ rows -> is_Some (req_to_token pool !! Z.to_nat i)) ->
  length (req_to_token pool') = length (req_to_token pool) ->
  decode_written (req_to_token pool) (req_to_token pool') rows lens out -> undisturbed rows lens h ->
  read_row pool' (req_pool_idx (h_req h)) (h_len h) = read_row pool (req_pool_idx (h_req h)) (h_len h).
Proof.
  intros Hl1 Hl2 Hpos Hin Hlen (Hw & Ho) (i & Hi & Hi0 & Hn0 & Hn). rewrite Hi. unfold read_row, row_at.
  unfold zlen. rewrite Hlen. fold (zlen (req_to_token pool)). destruct (wrap_index _ i) as [j|] eqn:Ej; [|done].
  assert (j = Z.to_nat i) as ->.
  { unfold wrap_index in Ej. destruct (Z.ltb_spec i 0); [lia|]. destruct (_ && _); [|done]. by injection Ej. }
  destruct (decide (i ∈ rows)) as [Hr|Hr].
  - destruct (Hin i Hr) as [row Hrow]. apply list_elem_of_lookup in Hr as [p Hp]. pose proof (lookup_lt_Some _ _ _ Hp) as Hlt.
    destruct (lookup_lt_is_Some_2 lens p) as [s Hs]; [lia|]. destruct (lookup_lt_is_Some_2 out p) as [x Hx]; [lia|].
    rewrite (Hw p i s x row Hp Hs Hx Hrow), Hrow. f_equal. specialize (Hn p s Hp Hs).
    rewrite !py_upto_nonneg by done. apply take_insert_ge. lia.
  - rewrite Ho; [done|]. intros i' Hi' E. rewrite Forall_forall in Hpos. specialize (Hpos i' Hi').
    assert (i' = i) as -> by lia. done.
Qed.

Lemma alloc_for_decode_ok t g a held pool batch : kv_decode_slack = 0 -> in_sync t g a held ->
  let rows := b_req_pool_indices batch in let lens := b_seq_lens batch in
  NoDup rows -> Forall2 (decode_entry (tc_page_size t) pool held) rows lens ->
  zlen (filter (fun s => s mod tc_page_size t = 0) lens) * tc_page_size t <= kv_available a ->
  exists out t' a' g' pool' fresh last,
    alloc_for_decode None t a pool batch 1 = Ok (out, t', a', pool')
    /\ zlen out = zlen lens /\ in_sync t' g' a' (fresh ++ held)
    /\ placement (tc_page_size t) lens (map (fun s => s + 1) lens) last out fresh
    /\ pool' = set_table pool (req_to_token pool') /\ decode_written (req_to_token pool) (req_to_token pool') rows lens out
    /\ (forall hs, Forall (undisturbed rows lens) hs -> tc_holds t g pool hs -> tc_holds t' g' pool' hs).
Proof.
  intros Hsl Hs rows lens Hnd HF Hav. unfold alloc_for_decode. fold rows lens.
  destruct (decode_slots_ok t g a held pool rows lens Hsl Hs HF Hav) as (out & t' & a' & g' & fresh & last & -> & Hl & Hs' & Hpl & Hk).
  cbn [res_bind]. pose proof (Forall2_length _ _ _ HF) as Hrl.
  destruct (write_entries_ok rows (req_to_token pool) lens (map to_int32 out)) as (tab & -> & Hlt & Hw & Ho);
    [done|rewrite length_map; unfold zlen in Hl; lia|done| |].
  { intros p i s Hi Hs1. destruct (Forall2_lookup_lr _ _ _ _ _ _ HF Hi Hs1) as (H0 & row & Hr & Hb & _). split; [done|]. exists row. split; [done|lia]. }
  cbn [res_bind]. exists out, t', a', g', (set_table pool tab), fresh, last.
  assert (decode_written (req_to_token pool) tab rows lens out) as Hdw.
  { split; [|done]. intros p i s x row Hi Hs1 Hx Hr. apply (Hw p i s (to_int32 x) row); try done. by rewrite list_lookup_fmap, Hx. }
  split_and!; try done. intros hs Hu Hh. eapply tc_holds_rows; [|by apply Hk]. eapply Forall_impl; [exact Hu|]. intros h Hh'.
  apply (decode_written_row pool _ rows lens out); try done; [unfold zlen in Hl; lia| |].
  - eapply Forall2_Forall_l; [exact HF|]. apply Forall_forall. by intros s _ i [H _].
  - intros i Hi. apply list_elem_of_lookup in Hi as [p Hp]. destruct (Forall2_lookup_l _ _ _ _ _ HF Hp) as (s & _ & _ & row & Hr & _). eauto.
Qed.
End Decode.

(** * The step *)

(** ** Rows and entries *)

Lemma pool_owned_NoDup pool rows held : pool_owned pool (rows ++ held) -> NoDup rows /\ Forall (fun i => 1 <= i) rows.
Proof.
  unfold pool_owned. intros HP.
  assert (NoDup (free_slots pool ++ rows ++ held)) as Hnd by (rewrite HP; apply NoDup_zrange).
  apply NoDup_app in Hnd as (_ & _ & Hnd). apply NoDup_app in Hnd as (Hnd & _). split; [done|].
  apply Forall_forall. intros i Hi. assert (i ∈ zrange 1 (pool_size pool + 1)) as H by (rewrite <- HP; set_solver).
  apply elem_of_zrange in H. lia.
Qed.

Lemma entry_mono ps pool h h' i s : (forall x, x ∈ h -> x ∈ h') -> decode_entry ps pool h i s -> decode_entry ps pool h' i s.
Proof.
  intros Hh (H0 & row & Hr & Hb & Hx). split; [done|]. exists row. split_and!; try done; try lia. intros Hm.
  destruct (Hx Hm) as (x & H1 & H2 & H3). eauto.
Qed.

Lemma map_perm_inv {B C} (f : B -> C) l k : Permutation l (map f k) -> exists k', map f k' = l /\ Permutation k k'.
Proof. intros HP. destruct (Permutation_map_inv _ _ HP) as (k' & -> & HP'). eauto. Qed.

(** ** The step of one batch *)

Section Step.
Context (cfg : DecodeConfig).
Context {T A : Type} {Alloc : KVAllocator A} {Cache : BasePrefixCache T A kva_pool}.
Context (oob : Z -> Z) (torch_empty : Z -> list Z) (order : Z -> list Z) (_is_hip : bool) (attn_backend : string).
Abbreviation args := (sc_release (dc_sched cfg)).
Abbreviation seats_ok := (seats_ok (Cache := Cache) args).
Abbreviation prepare := (prepare_for_decode cfg oob torch_empty order _is_hip attn_backend).
Context (Hnone : algo_is_none (dc_spec cfg) = true) (Hstrip : ra_strip_thinking_cache args = false).
Context (Hslack : kv_decode_slack = 0).

(** A running request that can take one more token. *)
Definition seat_ready (ps : Z) (pool : ReqToTokenPool) (s : seat) : Prop :=
  decode_entry ps pool (st_own s) (st_row s) (kv_committed_len (sr_req (st_req s))).

(** The request after the step. *)
Definition stepped (r : SchedReq) : SchedReq :=
  set_kv_lens r (kv_committed_len (sr_req r) + 1) (kv_allocated_len (sr_req r) + 1).

Lemma required_none : required_defined cfg.
Proof. intros ps reqs. unfold new_tokens_required_next_decode. rewrite Hnone. eauto. Qed.

Lemma is_spec_v2_none : is_spec_v2 cfg = Ok false.
Proof. unfold is_spec_v2. rewrite Hnone. by rewrite andb_false_r. Qed.

Lemma commit_of_none r : commit_of args r = kv_committed_len (sr_req r).
Proof. unfold commit_of, cache_commit_len. by rewrite Hstrip. Qed.

Lemma seat_rows b seats ps pool : batch_aligned b -> map st_req seats = db_reqs b -> Forall (seat_ok args ps pool) seats ->
  db_req_pool_indices b = map st_row seats.
Proof.
  intros Ha Hm Hs. pose proof (al_rows b Ha) as Hr. rewrite <- Hm, map_map in Hr.
  apply (inj (map Some)). rewrite <- Hr, map_map. apply map_ext_Forall. eapply Forall_impl; [exact Hs|]. by intros s [].
Qed.

Lemma fits_filter a seats : fits cfg a (map st_req seats) ->
  zlen (filter (fun s => s mod kv_page_size a = 0) (map (fun s => kv_committed_len (sr_req (st_req s))) seats)) * kv_page_size a
    <= kv_available a.
Proof.
  unfold fits, new_tokens_required_next_decode. rewrite Hnone. intros (n & [= <-] & Hle). etrans; [|exact Hle].
  apply Z.eq_le_incl. f_equal. clear Hle. induction seats as [|s seats IH]; [done|]. cbn [map]. rewrite !filter_cons.
  destruct (decide _); [|done]. rewrite !zlen_cons. by rewrite IH.
Qed.

(** The batch after the step. *)
Lemma stepped_aligned b out : batch_aligned b ->
  batch_aligned (MkDecode (map stepped (db_reqs b)) (db_req_pool_indices b) (map (fun x => x + 1) (db_seq_lens b))
    (map (fun x => x + 1) (db_seq_lens_cpu b)) (map (fun x => x + 1) (db_orig_seq_lens b)) (db_seq_lens_sum b + batch_size b)
    (db_output_ids b) None (Some out) (db_return_logprob b) (db_top_logprobs_nums b)
    (db_token_ids_logprobs b) (db_is_prefill_only b) (db_batch_is_full b)).
Proof.
  intros []. split; simpl; rewrite ?length_map; try done.
  - by rewrite map_map.
  - by rewrite al_cpu.
  - unfold batch_size, zlen. rewrite <- al_seq, al_sum. clear. induction (db_seq_lens b) as [|x l IH]; [done|].
    simpl length. cbn [map]. rewrite !zsum_cons, <- IH. lia.
  - by left.
  - rewrite al_logprob. clear. induction (db_reqs b) as [|r l IH]; [done|]. simpl. by rewrite IH.
  - unfold entries_for. rewrite length_map. done.
Qed.

(** No request's tokens reach the column another request writes. *)
Lemma seats_undisturbed ps pool seats held : pool_owned pool (map st_row seats ++ held) -> Forall (seat_ok args ps pool) seats ->
  Forall (seat_ready ps pool) seats ->
  Forall (undisturbed (map st_row seats) (map (fun s => kv_committed_len (sr_req (st_req s))) seats)) (map (seat_hold args) seats).
Proof.
  intros Hrows Hok Hready. destruct (pool_owned_NoDup pool (map st_row seats) held Hrows) as [Hnd Hpos].
  apply Forall_map, Forall_forall. intros s Hin. rewrite Forall_forall in Hok, Hready.
  destruct (Hok s Hin) as [Hrow _ _ _ _]. exists (st_row s). simpl. split; [done|].
  rewrite Forall_map, Forall_forall in Hpos. specialize (Hpos s Hin).
  destruct (Hready s Hin) as (_ & row & _ & Hb & _). rewrite commit_of_none. split_and!; [lia|lia|].
  intros p l Hp Hl'. rewrite list_lookup_fmap in Hp, Hl'.
  destruct (seats !! p) as [s'|] eqn:Es; [|done]. simpl in Hp, Hl'. injection Hp as Hp. injection Hl' as <-.
  apply list_elem_of_lookup in Hin as [q Hq].
  assert (p = q) as -> by (apply (NoDup_lookup (map st_row seats) p q (st_row s) Hnd); by rewrite list_lookup_fmap, ?Es, ?Hq; simpl; f_equal).
  assert (s' = s) as -> by congruence. lia.
Qed.

Lemma prepare_for_decode_ok b seats t g a pool rest held : batch_aligned b -> synced b -> map st_req seats = db_reqs b ->
  seats_ok t g a pool seats rest held -> Forall (seat_ready (tc_page_size t) pool) seats -> fits cfg a (db_reqs b) ->
  exists b' t' a' g' pool' out fresh last,
    prepare b t a pool = Ok (b', t', a', pool') /\ batch_aligned b' /\ synced b' /\ db_reqs b' = map stepped (db_reqs b)
    /\ db_req_pool_indices b' = db_req_pool_indices b /\ db_batch_is_full b' = db_batch_is_full b
    /\ db_out_cache_loc b' = Some out /\ zlen out = batch_size b
    /\ placement (tc_page_size t) (db_seq_lens b) (map (fun s => s + 1) (db_seq_lens b)) last out fresh
    /\ decode_written (req_to_token pool) (req_to_token pool') (db_req_pool_indices b) (db_seq_lens b) out
    /\ in_sync t' g' a' (fresh ++ concat (map seat_slots seats) ++ rest)
    /\ tc_holds t' g' pool' (map (seat_hold args) seats) /\ pool_owned pool' (map st_row seats ++ held).
Proof.
  intros Ha Hsy Hm Hs Hready Hfit. pose proof Hs as [Hsync Hh Hrows Hok Hpg]. unfold prepare_for_decode.
  rewrite is_spec_v2_none. cbn [res_bind]. rewrite Hnone. cbn [negb].
  pose proof (seat_rows b seats _ pool Ha Hm Hok) as Hr. pose proof Hsy as Hl. unfold synced in Hl. rewrite <- Hm, map_map in Hl.
  destruct (pool_owned_NoDup pool (map st_row seats) held Hrows) as [Hnd Hpos].
  set (batch := MkBatch _ _ _ _ _ _).
  destruct (alloc_for_decode_ok t g a (concat (map seat_slots seats) ++ rest) pool batch Hslack Hsync)
    as (out & t' & a' & g' & pool' & fresh & last & -> & Hlen & Hs' & Hpl & Hpool & Hw & Hk).
  - simpl. by rewrite Hr.
  - simpl. rewrite Hr, Hl. apply Forall2_fmap_r, Forall2_fmap_l, Forall_Forall2_diag.
    apply Forall_forall. intros s Hin. rewrite Forall_forall in Hready. eapply entry_mono; [|by apply Hready].
    intros x Hx. apply elem_of_app. left. apply list_elem_of_In, in_concat. exists (seat_slots s).
    split; [by apply in_map, list_elem_of_In|]. apply list_elem_of_In. unfold seat_slots. set_solver.
  - simpl. rewrite Hl. destruct Hsync as (_ & _ & Hpa). rewrite <- Hpa. apply fits_filter. by rewrite Hm.
  - cbn [res_bind]. simpl in Hlen, Hpl, Hw. eexists _, t', a', g', pool', out, fresh, last. split; [done|].
    assert (map (fun x => x + 1) (db_seq_lens b) = map (fun r => kv_committed_len (sr_req r)) (map stepped (db_reqs b))) as Hsy'.
    { rewrite Hsy, !map_map. done. }
    split_and!; try done; simpl.
    + by apply stepped_aligned.
    + rewrite Hlen, Hl. unfold batch_size. rewrite <- Hm. unfold zlen. by rewrite !length_map.
    + apply Hk; [|done]. simpl. rewrite Hr, Hl. by eapply seats_undisturbed.
    + rewrite Hpool. exact Hrows.
Qed.

(** ** Back to the waiting queue *)

Context (perf_counter : nat -> Z).
Abbreviation queue_cfg := (sc_queue (dc_sched cfg)).

(** A request waits again, with its priority and a new entry time. *)
Definition requeued (r r' : SchedReq) : Prop :=
  exists now, r' = set_entry_time (set_or_validate_priority queue_cfg r).2 now.

Lemma requeue_all rs : qc_max_queued_requests queue_cfg = None -> qc_abort_on_priority_when_disabled queue_cfg = false ->
  forall i queue out, exists back, requeue (dc_sched cfg) perf_counter i queue out rs = Ok (queue ++ back, out) /\ Forall2 requeued rs back.
Proof.
  intros Hmax Hab. induction rs as [|r rs IH]; intros i queue out; [exists []; by rewrite app_nil_r|].
  cbn [requeue]. unfold add_request_to_queue, abort_on_queued_limit. rewrite Hmax.
  assert ((set_or_validate_priority queue_cfg r).1 = true) as Hacc.
  { unfold set_or_validate_priority. rewrite Hab, andb_false_r. repeat case_match; done. }
  destruct (set_or_validate_priority queue_cfg r) as [acc r'] eqn:E. simpl in Hacc. subst acc. cbn [negb res_bind].
  rewrite app_nil_r. destruct (IH (S i) (queue ++ [set_entry_time r' (perf_counter i)]) out) as (back & -> & HF).
  exists (set_entry_time r' (perf_counter i) :: back). rewrite <- app_assoc. split; [done|]. constructor; [|done].
  exists (perf_counter i). by rewrite E.
Qed.

(** ** [update_running_batch] *)

(** The memory after a step for [kept]: every request has a slot for its next token,
    recorded in its row, and nothing else in the table changed. *)
Definition step_memory (ps : Z) (pool : ReqToTokenPool) (rest : list Z) (kept : list seat)
    (b' : DecodeBatch) (t' : T) (g' : tc_ghost) (a' : A) (pool' : ReqToTokenPool) : Prop :=
  (kept = [] /\ db_reqs b' = [] /\ req_to_token pool' = req_to_token pool /\ in_sync t' g' a' rest)
  \/ (kept <> [] /\ batch_aligned b' /\ synced b' /\ exists lens out fresh last,
        db_seq_lens b' = map (fun s => s + 1) lens /\ db_out_cache_loc b' = Some out /\ zlen out = zlen kept
        /\ placement ps lens (map (fun s => s + 1) lens) last out fresh
        /\ decode_written (req_to_token pool) (req_to_token pool') (db_req_pool_indices b') lens out
        /\ in_sync t' g' a' (fresh ++ concat (map seat_slots kept) ++ rest)).

(** The outcome of a step: [kept] run on, with their memory. *)
Record step_done (n ps : Z) (pool : ReqToTokenPool) (rest held : list Z) (kept : list seat)
    (b' : DecodeBatch) (t' : T) (g' : tc_ghost) (a' : A) (pool' : ReqToTokenPool) : Prop := {
  sd_reqs : Permutation (db_reqs b') (map (fun s => stepped (st_req s)) kept);
  sd_full : zlen kept < n -> db_batch_is_full b' = false;
  sd_memory : step_memory ps pool rest kept b' t' g' a' pool';
  sd_holds : tc_holds t' g' pool' (map (seat_hold args) kept);
  sd_rows : pool_owned pool' (map st_row kept ++ held);
}.

Lemma seats_ready_perm ps pool seats seats' : Permutation seats seats' -> Forall (seat_ready ps pool) seats -> Forall (seat_ready ps pool) seats'.
Proof. by intros ->. Qed.

(** The end of [update_running_batch]: [n] is the initial size of the batch. *)
Lemma step_tail n b kept t g a pool rest held : Permutation (db_reqs b) (map st_req kept) ->
  (db_reqs b = [] \/ batch_aligned b /\ synced b) -> seats_ok t g a pool kept rest held ->
  Forall (seat_ready (tc_page_size t) pool) kept -> (kept <> [] -> fits cfg a (db_reqs b)) ->
  exists b' t' a' g' pool',
    (let b := if batch_size b <? n then set_batch_is_full b false else b in
     if is_empty b then Ok (b, t, a, pool) else prepare b t a pool) = Ok (b', t', a', pool')
    /\ step_done n (tc_page_size t) pool rest held kept b' t' g' a' pool'.
Proof.
  intros HP Hal Hs Hready Hfit. set (b1 := if batch_size b <? n then set_batch_is_full b false else b).
  assert (db_reqs b1 = db_reqs b) as Hr1 by (unfold b1; by case_match).
  assert (zlen kept < n -> db_batch_is_full b1 = false) as Hfull.
  { intros Hlt. unfold b1. assert (batch_size b = zlen kept) as ->.
    { unfold batch_size, zlen. by rewrite HP, length_map. }
    by destruct (Z.ltb_spec (zlen kept) n); [|lia]. }
  cbv zeta. unfold is_empty. rewrite Hr1. destruct (Z.eqb_spec (zlen (db_reqs b)) 0) as [E|E].
  - apply zlen_zero_inv in E. rewrite E in HP. apply Permutation_nil_l in HP. destruct kept; [|done].
    exists b1, t, a, g, pool. split; [done|]. destruct Hs. split; try done; [by rewrite Hr1, E|].
    left. split_and!; try done. by rewrite Hr1, E.
  - destruct Hal as [Hal|[Ha Hsy]]; [rewrite Hal in E; done|].
    assert (batch_aligned b1) as Ha1 by (unfold b1; case_match; [destruct Ha; by split|done]).
    assert (synced b1) as Hsy1 by (unfold b1; by case_match).
    destruct (map_perm_inv st_req (db_reqs b) kept HP) as (kept' & Hm & HPk).
    assert (kept <> []) as Hk by (intros ->; apply Permutation_nil_r in HP; by rewrite HP in E).
    destruct (prepare_for_decode_ok b1 kept' t g a pool rest held Ha1 Hsy1 ltac:(congruence) ltac:(by eapply seats_perm)
                ltac:(by eapply seats_ready_perm) ltac:(rewrite Hr1; by apply Hfit))
      as (b' & t' & a' & g' & pool' & out & fresh & last & -> & Ha' & Hsy' & Hr' & Hix & Hfl & Hout & Hlo & Hpl & Hw & Hsync & Hh & Hro).
    exists b', t', a', g', pool'. split; [done|]. split.
    + rewrite Hr', Hr1, HP, map_map. done.
    + intros Hlt. rewrite Hfl. by apply Hfull.
    + right. split_and!; try done. exists (db_seq_lens b1), out, fresh, last. rewrite Hix. split_and!; try done.
      * unfold synced in Hsy'. rewrite Hsy', Hr'. rewrite Hsy1, !map_map. done.
      * rewrite Hlo. unfold batch_size, zlen. by rewrite Hr1, HP, length_map.
      * destruct Hsync as (H1 & H2 & H3). split_and!; try done. eapply kv_owns_perm; [|exact H2]. do 3 f_equiv.
        symmetry. by apply concat_perm, Permutation_map.
    + eapply tc_holds_perm; [|exact Hh]. symmetry. by apply Permutation_map.
    + unfold pool_owned in *. by rewrite HPk.
Qed.

(** The batch that is left once there is room: [kept] fit, [gone] wait again and the
    [aborted] request, if any, was the last one. *)
Record room_made (ps : Z) (pool : ReqToTokenPool) (seats : list seat) (rest held : list Z) (kept gone aborted : list seat)
    (b' : DecodeBatch) (t' : T) (g' : tc_ghost) (a' : A) (pool' : ReqToTokenPool) : Prop := {
  rm_split : Permutation seats (gone ++ aborted ++ kept);
  rm_reqs : Permutation (db_reqs b') (map st_req kept);
  rm_aligned : db_reqs b' = [] \/ batch_aligned b' /\ synced b';
  rm_seats : seats_ok t' g' a' pool' kept rest held;
  rm_table : req_to_token pool' = req_to_token pool;
  rm_page : tc_page_size t' = ps;
  rm_fits : kept <> [] -> fits cfg a' (db_reqs b');
  rm_aborted : aborted = [] \/ length aborted = 1%nat /\ kept = [];
  rm_order x y : x ∈ aborted ++ kept -> y ∈ gone -> kept_before cfg (st_req x) (st_req y);
}.

(** The middle of [update_running_batch]: after [check_decode_mem] said [enough]. *)
Lemma make_room (enough : bool) b seats queue out ratio t g a pool rest held : 0 <= sc_retract_decode_steps (dc_sched cfg) ->
  qc_max_queued_requests queue_cfg = None -> qc_abort_on_priority_when_disabled queue_cfg = false ->
  batch_aligned b -> synced b -> db_reqs b <> [] -> map st_req seats = db_reqs b ->
  Forall (fun s => 0 <= max_new_tokens (st_req s)) seats -> seats_ok t g a pool seats rest held ->
  (enough = true -> fits cfg a (db_reqs b)) ->
  exists b' back ratio' t' a' g' pool' kept gone aborted,
    (if negb enough || dc_test_retract cfg then
        let* (b, rs, ratio, ab, t, a, pool) := retract_decode cfg b t a pool in
        let* (queue, out) := requeue (dc_sched cfg) perf_counter 0 queue (out ++ map rid ab) rs in
        Ok (b, queue, out, ratio, t, a, pool)
      else Ok (b, queue, out, num_max (num_sub ratio (dc_new_token_ratio_decay cfg)) (dc_min_new_token_ratio cfg), t, a, pool))
      = Ok (b', queue ++ back, out ++ map (fun s => rid (st_req s)) aborted, ratio', t', a', pool')
    /\ Forall2 requeued (map (fun s => retracted (st_req s)) gone) back
    /\ room_made (tc_page_size t) pool seats rest held kept gone aborted b' t' g' a' pool'.
Proof.
  intros Hsteps Hmax Hprio Ha Hsy Hne Hm Hnew Hs He. pose proof required_none as Hdef.
  destruct (negb enough || dc_test_retract cfg) eqn:Er.
  - destruct (retract_decode_ok cfg b seats t g a pool rest held Hdef Hsteps Ha Hm Hne)
      as (b2 & gone & aborted & kept & r2 & t2 & a2 & g2 & pool2 & -> & HP & Hb2 & Hre2 & Hs2 & Ht2 & Hp2 & Hend & _ & _ & Hord);
      [rewrite <- Hm; by apply Forall_map|done|]. cbn [res_bind].
    destruct (requeue_all (map (fun s => retracted (st_req s)) gone) Hmax Hprio 0 queue
                (out ++ map rid (map (fun s => retracted (st_req s)) aborted))) as (back & -> & Hback). cbn [res_bind].
    exists b2, back, r2, t2, a2, g2, pool2, kept, gone, aborted. rewrite map_map. split_and!; try done. split; try done.
    + destruct Hre2 as [|[? Hs']]; [by left|right]. by split; [|apply Hs'].
    + destruct Hend as [(_ & _ & Hf)|[_ ->]]; [by intros _|done].
    + destruct Hend as [(-> & _)|]; [by left|by right].
  - destruct enough; [|done]. eexists b, [], _, t, a, g, pool, seats, [], []. cbn [map]. rewrite !app_nil_r.
    split_and!; try done. split; try done; [by rewrite Hm|by right|intros _; by apply He|by left|].
    intros x y _ Hy. by apply elem_of_nil in Hy.
Qed.
End Step.
