(* ===== verification/DraftStep.v ===== *)
(** The decode step of overlapped speculation: [EagleDraftInputV2Mixin.prepare_for_decode]
    allocates, for every request, the slots up to twice the draft length past its
    committed tokens; [new_tokens_required_next_decode] predicts exactly how many. *)

From S2P Require Export DecodeStep DecodeClaims.
From S2P Require Import Triton KVTable SpecKernels SpecProps SpecInfo.

(** ** The table as a flat buffer *)

Definition entry (tab : list (list Z)) (i j : Z) : option Z := tab !! Z.to_nat i ≫= fun row => row !! Z.to_nat j.

Lemma length_table_rows w n : forall buf, length (table_rows w n buf) = n.
Proof. induction n as [|n IH]; intros buf; [done|]. simpl. by rewrite IH. Qed.

Lemma table_rows_lookup w n : 0 <= w -> forall buf i, zlen buf = Z.of_nat n * w -> (i < n)%nat ->
  exists row, table_rows w n buf !! i = Some row /\ zlen row = w
    /\ forall j, 0 <= j < w -> row !! Z.to_nat j = buf !! Z.to_nat (Z.of_nat i * w + j).
Proof.
  intros Hw. induction n as [|n IH]; intros buf i Hb Hi; [lia|]. simpl.
  assert (Z.to_nat w <= length buf)%nat as Hle by (unfold zlen in Hb; nia).
  destruct i as [|i]; simpl.
  - exists (take (Z.to_nat w) buf). split_and!; [done|unfold zlen; rewrite length_take; lia|].
    intros j Hj. rewrite lookup_take_lt by lia. f_equal.
  - destruct (IH (drop (Z.to_nat w) buf) i) as (row & Hr & Hl & Hat); [unfold zlen in *; rewrite length_drop; nia|lia|].
    exists row. split_and!; [done|done|]. intros j Hj. rewrite Hat, lookup_drop by done. f_equal. nia.
Qed.

Lemma table_rows_uniform w n buf : 0 <= w -> zlen buf = Z.of_nat n * w -> Forall (fun r => zlen r = w) (table_rows w n buf).
Proof.
  intros Hw Hb. apply Forall_lookup. intros i row Hi. pose proof (lookup_lt_Some _ _ _ Hi) as Hlt. rewrite length_table_rows in Hlt.
  destruct (table_rows_lookup w n Hw buf i Hb Hlt) as (row' & Hr & Hl & _). congruence.
Qed.

(** Each request's slice holds its part of [out]; the other entries are as before. *)
Definition slices_written (w : Z) (tab tab' : list (list Z)) (rows st en out : list Z) : Prop :=
  (forall p i s e k, rows !! p = Some i -> st !! p = Some s -> en !! p = Some e -> 0 <= k < e - s ->
     entry tab' i (s + k) = to_int32 <$> out !! Z.to_nat (zsum (take p (zip_with Z.sub en st)) + k))
  /\ (forall i j, 0 <= i < zlen tab -> 0 <= j < w ->
        (forall p s e, rows !! p = Some i -> st !! p = Some s -> en !! p = Some e -> ~ s <= j < e) -> entry tab' i j = entry tab i j).

Lemma assign_func_ok oob order pool rows st en out : 0 <= max_context_len pool ->
  Forall (fun r => zlen r = max_context_len pool) (req_to_token pool) ->
  length st = length rows -> length en = length rows -> NoDup rows -> Forall (fun i => 0 <= i < zlen (req_to_token pool)) rows ->
  (forall p s e, st !! p = Some s -> en !! p = Some e -> 0 <= s <= e /\ e <= max_context_len pool) ->
  zlen out = zsum (zip_with Z.sub en st) -> Permutation (order (zlen rows)) (zrange 0 (zlen rows)) ->
  exists tab, assign_req_to_token_pool_func oob order pool rows st en out (zlen rows) = Ok (set_table pool tab)
    /\ length tab = length (req_to_token pool) /\ Forall (fun r => zlen r = max_context_len pool) tab
    /\ slices_written (max_context_len pool) (req_to_token pool) tab rows st en out.
Proof.
  intros Hw Hu Hs He Hnd Hr Hrange Hout Hord. unfold assign_req_to_token_pool_func.
  pose proof (zlen_concat_uniform _ (req_to_token pool) Hu) as Hb.
  destruct (assign_grid oob rows st en out (max_context_len pool) (next_power_of_2 (zlen rows)) (zlen (req_to_token pool)) Hs He
              (next_power_of_2_ge _) Hnd Hr Hrange Hout (order (zlen rows)) (concat (req_to_token pool)) Hb Hord)
    as (b' & -> & Hl & Hin & Hkeep). cbn [of_grid res_bind]. rewrite Hb in Hl.
  set (tab := table_rows _ _ b'). exists tab. split_and!; [done|by unfold tab; rewrite length_table_rows|by apply table_rows_uniform|].
  assert (forall i j, 0 <= i < zlen (req_to_token pool) -> 0 <= j < max_context_len pool ->
    entry tab i j = b' !! Z.to_nat (i * max_context_len pool + j)) as Hat.
  { intros i j Hi Hj. unfold zlen in Hi. destruct (table_rows_lookup (max_context_len pool) (length (req_to_token pool)) Hw b' (Z.to_nat i) Hl
      ltac:(lia)) as (row & Hrow & _ & H). unfold entry, tab. rewrite Hrow. simpl. rewrite H by done. by rewrite Z2Nat.id by lia. }
  split.
  - intros p i s e k Hi Hs1 He1 Hk. destruct (Hrange p s e Hs1 He1). rewrite Forall_lookup in Hr. specialize (Hr p i Hi).
    rewrite Hat by lia. rewrite Z.add_assoc. by apply (Hin p i s e k).
  - intros i j Hi Hj Hno. rewrite Hat by done. rewrite Hkeep.
    + destruct (lookup_lt_is_Some_2 (req_to_token pool) (Z.to_nat i)) as [row Hrow]; [unfold zlen in Hi; lia|].
      unfold entry. rewrite Hrow. simpl. rewrite <- (concat_uniform _ Hw _ _ _ Hu Hrow j Hj). by rewrite Z2Nat.id by lia.
    + nia.
    + intros p i' s e Hi' Hs1 He1. destruct (Hrange p s e Hs1 He1). rewrite Forall_lookup in Hr. specialize (Hr p i' Hi').
      specialize (Hno p s e). destruct (decide (i' = i)) as [->|Hne]; [specialize (Hno Hi' Hs1 He1); nia|]. nia.
Qed.

(** ** The slots *)

(** A request of row [i] that grows from [cur] to [nxt] slots: when the last page is not
    full, the slot before the end is one of [held]. *)
Definition draft_entry (ps : Z) (pool : ReqToTokenPool) (held : list Z) (i : Z) (lens : Z * Z) : Prop :=
  let '(cur, nxt) := lens in
  0 <= i < zlen (req_to_token pool) /\ 0 <= cur <= nxt /\ nxt <= max_context_len pool
  /\ (cur mod ps <> 0 -> exists x, entry (req_to_token pool) i (cur - 1) = Some x /\ (x + 1) mod ps = cur mod ps /\ x ∈ held).

(** The table: rows of the context length, of 32-bit entries. *)
Record table_ok (pool : ReqToTokenPool) : Prop := {
  to_cols : 1 <= max_context_len pool;
  to_rows : Forall (fun r => zlen r = max_context_len pool) (req_to_token pool);
  to_int : Forall (Forall (fun x => to_int32 x = x)) (req_to_token pool);
}.

Section Slots.
Context {T A : Type} {Alloc : KVAllocator A} {Cache : BasePrefixCache T A kva_pool}.
Context (oob : Z -> Z) (torch_empty : Z -> list Z) (order : Z -> list Z) (_is_hip : bool) (attn_backend : string).
Context (Hempty : forall n, 0 <= n -> zlen (torch_empty n) = n) (Horder : forall n, Permutation (order n) (zrange 0 n)).

(** [alloc_paged_token_slots_extend] when the new pages are free. *)
Lemma alloc_extend_fits t g a held pre seq last : in_sync t g a held -> 1 < tc_page_size t ->
  extendable (tc_page_size t) held pre seq last ->
  get_num_new_pages seq (tc_page_size t) pre * tc_page_size t <= kv_available a ->
  exists out st t' a' g' fresh, alloc_paged_token_slots_extend t a pre seq last (zsum (ext_lens pre seq)) false = Ok (out, st, t', a')
    /\ zlen out = zsum (ext_lens pre seq) /\ in_sync t' g' a' (fresh ++ held) /\ placement (tc_page_size t) pre seq last out fresh
    /\ zlen fresh = get_num_new_pages seq (tc_page_size t) pre * tc_page_size t
    /\ (forall pool hs, tc_holds t g pool hs -> tc_holds t' g' pool hs) /\ tc_page_size t' = tc_page_size t.
Proof.
  intros Hs H1 He Hm. unfold alloc_paged_token_slots_extend.
  destruct (evict_any t g a held (zsum (ext_lens pre seq) + zlen seq * kv_page_size a) Hs)
    as (t1 & a1 & g1 & -> & (Hok & Hown & Hps1) & _ & Hge & Hpa & Ht & _ & Hk). cbn [res_bind].
  assert (kv_page_size a1 = tc_page_size t) as Hp1 by congruence. assert (1 < kv_page_size a1) as Hgt by lia.
  destruct (kv_extend_law a1 _ pre seq last Hgt Hown) as (r & a2 & -> & Hp2 & Hr).
  { rewrite Hp1. eapply extendable_mono; [|exact He]. intros x Hx. apply elem_of_app. by right. }
  rewrite Hp1 in Hr. cbn [res_bind]. destruct r as [out|]; [|lia]. destruct Hr as (pages & -> & Hkp & Ho & _).
  eexists _, _, t1, a2, g1, _. split; [done|]. split_and!; [apply (zlen_placement _ held); [lia|done|lia]|split_and!; [done| |congruence]| | |done|congruence].
  - eapply kv_owns_perm; [|exact Ho]. apply Permutation_app_swap_app.
  - unfold placement. destruct (Z.eqb_spec (tc_page_size t) 1); [lia|]. eauto.
  - rewrite zlen_expand_pages by lia. f_equal. unfold zlen in *. rewrite length_take. lia.
Qed.

Lemma draft_extendable ps pool held rows cur nxt : Forall2 (draft_entry ps pool held) rows (zip cur nxt) -> length nxt = length cur ->
  length rows = length cur -> extendable ps held cur nxt (zip_with (last_entry pool) rows cur).
Proof.
  intros HF Hn Hr. split_and!; [done|rewrite length_zip_with; lia| |].
  - intros p Hp. destruct (lookup_lt_is_Some_2 cur p Hp) as [c Hc]. destruct (lookup_lt_is_Some_2 nxt p) as [n Hnx]; [lia|].
    assert (zip cur nxt !! p = Some (c, n)) as Hz by (by rewrite lookup_zip_with, Hc; simpl; rewrite Hnx).
    destruct (Forall2_lookup_r _ _ _ _ _ HF Hz) as (i & Hi & _ & Hb & _).
    by rewrite (nth_lookup_Some cur p 0 c Hc), (nth_lookup_Some nxt p 0 n Hnx).
  - intros p Hp [Ht _]. destruct (lookup_lt_is_Some_2 cur p Hp) as [c Hc]. destruct (lookup_lt_is_Some_2 nxt p) as [n Hnx]; [lia|].
    assert (zip cur nxt !! p = Some (c, n)) as Hz by (by rewrite lookup_zip_with, Hc; simpl; rewrite Hnx).
    destruct (Forall2_lookup_r _ _ _ _ _ HF Hz) as (i & Hi & _ & Hb & _ & Hx).
    rewrite (nth_lookup_Some cur p 0 c Hc) in Ht |- *. destruct (Hx Ht) as (x & Ex & Hm & Hin).
    assert (0 < c) by (destruct (Z.eq_dec c 0) as [->|]; [by destruct ps|lia]).
    rewrite (nth_lookup_Some _ p 0 x); [done|]. rewrite lookup_zip_with, Hi. simpl. rewrite Hc. simpl. f_equal.
    unfold last_entry. destruct (Z.ltb_spec 0 c); [|lia]. fold (entry (req_to_token pool) i (c - 1)). by rewrite Ex.
Qed.

Lemma draft_slots_ok t g a held pool rows cur nxt : table_ok pool -> in_sync t g a held ->
  Forall2 (draft_entry (tc_page_size t) pool held) rows (zip cur nxt) -> length nxt = length cur -> length rows = length cur ->
  get_num_new_pages nxt (tc_page_size t) cur * tc_page_size t <= kv_available a ->
  exists out t' a' g' fresh,
    (if kv_page_size a =? 1 then
      let* (out_cache_loc, _, t, a) := alloc_token_slots t a (zsum (zip_with Z.sub nxt cur)) false in Ok (out_cache_loc, t, a)
    else
      let* last_loc := get_last_loc oob torch_empty (order (cdiv (zlen cur) 256)) _is_hip false attn_backend pool rows cur in
      let* (out_cache_loc, _, t, a) :=
        alloc_paged_token_slots_extend t a cur nxt last_loc (zsum (zip_with Z.sub nxt cur)) false in
      Ok (out_cache_loc, t, a)) = Ok (out, t', a')
    /\ zlen out = zsum (zip_with Z.sub nxt cur) /\ in_sync t' g' a' (fresh ++ held)
    /\ placement (tc_page_size t) cur nxt (zip_with (last_entry pool) rows cur) out fresh
    /\ zlen fresh = get_num_new_pages nxt (tc_page_size t) cur * tc_page_size t
    /\ (forall pool hs, tc_holds t g pool hs -> tc_holds t' g' pool hs) /\ tc_page_size t' = tc_page_size t.
Proof.
  intros [Hcols Hrows Hint] Hs HF Hn Hr Hav. pose proof Hs as (Hok & Hown & Hpg). rewrite Hpg.
  pose proof (tc_page_size_pos t g Hok) as Hp1. pose proof (tc_evictable_nonneg t g Hok) as Hev.
  pose proof (draft_extendable _ _ _ _ _ _ HF Hn Hr) as Hext. change (zip_with Z.sub nxt cur) with (ext_lens cur nxt).
  destruct (Z.eqb_spec (tc_page_size t) 1) as [E|E].
  - assert (get_num_new_pages nxt 1 cur = zsum (ext_lens cur nxt)) as Hk1.
    { unfold get_num_new_pages, ext_lens. do 2 f_equal; (rewrite <- map_id; apply map_ext; intros x; rewrite Z.div_1_r; lia). }
    rewrite E, Hk1, Z.mul_1_r in *. assert (0 <= zsum (ext_lens cur nxt) <= kv_available a) as Hle.
    { destruct Hext as (_ & _ & Hb & _). destruct (num_new_pages_bound 1 cur nxt ltac:(lia) Hn Hb) as [H0 H1]. lia. }
    assert (zsum (ext_lens cur nxt) <= kv_available a + tc_evictable_size t) as Hle' by lia.
    destruct (alloc_token_slots_ok t g a held _ false Hs E (proj1 Hle) Hle') as (out & st & t' & a' & g' & -> & Hl & Hs' & Hk & Hpt).
    cbn [res_bind]. exists out, t', a', g', out. split_and!; try done. congruence.
  - rewrite (last_loc_ok oob torch_empty pool Hrows Hint rows cur Hempty Hcols) by first
      [done | lia | apply Horder | eapply Forall2_Forall_l; [exact HF|]; apply Forall_forall; intros [c n] _ i (Hb & _); exact Hb
      | apply Forall_lookup; intros p c Hc; destruct (lookup_lt_is_Some_2 nxt p) as [n Hnx]; [apply lookup_lt_Some in Hc; lia|];
        destruct (Forall2_lookup_r _ _ _ p (c, n) HF) as (i & _ & _ & Hb & Hb' & _); [by rewrite lookup_zip_with, Hc; simpl; rewrite Hnx|lia]].
    cbn [res_bind]. assert (1 < tc_page_size t) as Hgt by lia.
    destruct (alloc_extend_fits t g a held cur nxt _ Hs Hgt Hext Hav) as (out & st & t' & a' & g' & fresh & -> & Hl & Hs' & Hpl & Hfr & Hk & Hpt).
    cbn [res_bind]. exists out, t', a', g', fresh. by split_and!.
Qed.
End Slots.

(** ** The step *)

Section Draft.
Context (cfg : DecodeConfig).
Context {T A : Type} {Alloc : KVAllocator A} {Cache : BasePrefixCache T A kva_pool}.
Context (oob : Z -> Z) (torch_empty : Z -> list Z) (order : Z -> list Z) (_is_hip : bool) (attn_backend : string).
Abbreviation args := (sc_release (dc_sched cfg)).
Abbreviation seats_ok := (seats_ok (Cache := Cache) args).

Definition cur_len (r : SchedReq) : Z := kv_allocated_len (sr_req r).

(** [L] is the length of a draft. *)
Definition nxt_len (L : Z) (r : SchedReq) : Z := kv_committed_len (sr_req r) + (L + L).

(** The estimate is the number of slots of the pages that the step takes from the pool. *)
Lemma required_v2 L ps reqs : get_alloc_len_per_decode cfg = Ok L -> Forall (fun r => cur_len r <= nxt_len L r) reqs ->
  new_tokens_required_next_decode_spec_v2 cfg reqs ps = Ok (get_num_new_pages (map (nxt_len L) reqs) ps (map cur_len reqs) * ps).
Proof.
  intros HL Hle. unfold new_tokens_required_next_decode_spec_v2. rewrite HL. cbn [res_bind]. f_equal. unfold get_num_new_pages.
  induction Hle as [|r reqs Hr _ IH]; [done|]. cbn [map zip_with]. rewrite !zsum_cons, IH. unfold ceil_align, cur_len, nxt_len in *.
  rewrite Z.max_r by lia. replace (kv_allocated_len (sr_req r) + (kv_committed_len (sr_req r) + 2 * L - kv_allocated_len (sr_req r)))
    with (kv_committed_len (sr_req r) + (L + L)) by lia. lia.
Qed.

Lemma fits_v2 L (a : A) ps reqs : algo_is_none (dc_spec cfg) = false -> is_spec_v2 cfg = Ok true -> get_alloc_len_per_decode cfg = Ok L ->
  kv_page_size a = ps -> Forall (fun r => cur_len r <= nxt_len L r) reqs -> fits cfg a reqs ->
  let k := get_num_new_pages (map (nxt_len L) reqs) ps (map cur_len reqs) in
  new_tokens_required_next_decode cfg ps reqs = Ok (k * ps) /\ k * ps <= kv_available a.
Proof.
  intros Hnone Hv2 HL Hps Hle (n & Hn & Hav) k. rewrite Hps in Hn. unfold new_tokens_required_next_decode in *. rewrite Hnone, Hv2 in *.
  cbn [res_bind] in *. rewrite (required_v2 L ps reqs HL Hle) in *. injection Hn as <-. done.
Qed.

(** A running request whose allocation can grow to twice the draft length. *)
Definition draft_ready (L ps : Z) (pool : ReqToTokenPool) (s : seat) : Prop :=
  draft_entry ps pool (seat_slots s) (st_row s) (cur_len (st_req s), nxt_len L (st_req s))
  /\ 0 <= commit_of args (st_req s) <= cur_len (st_req s).

Definition drafted (L : Z) (r : SchedReq) : SchedReq := set_kv_lens r (kv_committed_len (sr_req r) + 1) (nxt_len L r).

Lemma draft_entry_mono ps pool h h' i l : (forall x, x ∈ h -> x ∈ h') -> draft_entry ps pool h i l -> draft_entry ps pool h' i l.
Proof.
  destruct l as [cur nxt]. intros Hh (H0 & H1 & H2 & Hx). split_and!; try done; try lia. intros Hm.
  destruct (Hx Hm) as (x & E1 & E2 & E3). eauto.
Qed.

(** The rows of the running requests still start with their committed tokens. *)
Lemma slices_keep_rows L pool tab seats held out : length tab = length (req_to_token pool) ->
  Forall (fun r => zlen r = max_context_len pool) (req_to_token pool) -> Forall (fun r => zlen r = max_context_len pool) tab ->
  pool_owned pool (map st_row seats ++ held) -> Forall (seat_ok args (ra_page_size args) pool) seats ->
  Forall (draft_ready L (ra_page_size args) pool) seats ->
  slices_written (max_context_len pool) (req_to_token pool) tab (map st_row seats) (map (fun s => cur_len (st_req s)) seats)
    (map (fun s => nxt_len L (st_req s)) seats) out ->
  Forall (fun h => read_row (set_table pool tab) (req_pool_idx (h_req h)) (h_len h) = read_row pool (req_pool_idx (h_req h)) (h_len h))
    (map (seat_hold args) seats).
Proof.
  intros Hl Hu Hu' Hro Hok Hready [_ Hkeep]. destruct (pool_owned_NoDup pool (map st_row seats) held Hro) as [Hnd _].
  apply Forall_map, Forall_forall. intros s Hin. rewrite Forall_forall in Hok, Hready.
  destruct (Hok s Hin) as [Hrow _ _ _ _]. destruct (Hready s Hin) as [(Hi & Hb & Hc & _) Hcm]. simpl. rewrite Hrow. unfold read_row, row_at. cbn [req_to_token set_table].
  unfold zlen. rewrite Hl. fold (zlen (req_to_token pool)). rewrite wrap_index_in by done.
  destruct (lookup_lt_is_Some_2 (req_to_token pool) (Z.to_nat (st_row s))) as [row Hr]; [unfold zlen in Hi; lia|].
  destruct (lookup_lt_is_Some_2 tab (Z.to_nat (st_row s))) as [row' Hr']; [unfold zlen in Hi; lia|]. rewrite Hr, Hr'. f_equal.
  pose proof (proj1 (Forall_lookup _ _) Hu _ _ Hr) as Hlr. pose proof (proj1 (Forall_lookup _ _) Hu' _ _ Hr') as Hlr'. cbv beta in Hlr, Hlr'.
  rewrite !py_upto_nonneg by lia. apply list_eq. intros j.
  destruct (decide (j < Z.to_nat (commit_of args (st_req s)))%nat) as [Hj|Hj]; [|by rewrite !lookup_take_ge by lia].
  rewrite !lookup_take_lt by done.
  assert (entry tab (st_row s) (Z.of_nat j) = entry (req_to_token pool) (st_row s) (Z.of_nat j)) as He.
  { apply Hkeep; [done|lia|]. intros p c e Hp Hc' _. rewrite list_lookup_fmap in Hp, Hc'.
    destruct (seats !! p) as [s'|] eqn:Es; [|done]. simpl in Hp, Hc'. injection Hp as Hp. injection Hc' as <-.
    apply list_elem_of_lookup in Hin as [q Hq].
    assert (p = q) as -> by (apply (NoDup_lookup (map st_row seats) p q (st_row s) Hnd); by rewrite list_lookup_fmap, ?Es, ?Hq; simpl; f_equal).
    assert (s' = s) as -> by congruence. lia. }
  unfold entry in He. rewrite Hr, Hr' in He. simpl in He. by rewrite Nat2Z.id in He.
Qed.
End Draft.

Lemma seats_entries cfg L ps pool seats rest : Forall (draft_ready cfg L ps pool) seats ->
  Forall2 (draft_entry ps pool (concat (map seat_slots seats) ++ rest)) (map st_row seats)
    (zip (map (fun s => cur_len (st_req s)) seats) (map (fun s => nxt_len L (st_req s)) seats)).
Proof.
  intros HF. apply Forall2_same_length_lookup_2; [rewrite length_zip_with, !length_map; lia|]. intros p i [c e] Hi Hce.
  rewrite lookup_zip_with, !list_lookup_fmap in Hce. rewrite list_lookup_fmap in Hi. destruct (seats !! p) as [s|] eqn:Es; [|done].
  simpl in Hi, Hce. injection Hi as <-. injection Hce as <- <-. rewrite Forall_lookup in HF. destruct (HF p s Es) as [He _].
  eapply draft_entry_mono; [|exact He]. intros x Hx. apply elem_of_app. left. apply list_elem_of_In, in_concat. exists (seat_slots s).
  split; [apply in_map, list_elem_of_In; by eapply list_elem_of_lookup_2|by apply list_elem_of_In].
Qed.


(** *** Sample: a request of two tokens, drafts of length two, pages of size 2. *)

#[local] Instance paged4 : KVAllocator allocator := paged_allocator (fun i => i) 0 zero_fill zero_fill_len.
#[local] Instance chunk4 : BasePrefixCache ChunkCache allocator paged_pool := chunk_prefix_cache false paged_pool.

Definition draft_pool : allocator := MkAllocator 8 2 false false [2; 3; 4] [] true [].
Definition draft_rows : ReqToTokenPool := MkReqPool 1 8 [[0; 0; 0; 0; 0; 0; 0; 0]; [2; 3; 0; 0; 0; 0; 0; 0]] [].
Definition draft_batch : DecodeBatch :=
  MkDecode [req_a] [1] [2] [2] [2] 2 None (Some [9]) None false None None false false.
Definition draft_cfg : DecodeConfig :=
  MkDecodeConfig
    (MkSchedulerConfig (MkAdderConfig 2 (PFloat (2 ^ 1073)) 4096 10 false false None None None)
       (MkPolicyConfig FCFS false false 32 128 (fun q => q)) (MkQueueConfig false false false None) (MkReleaseArgs 2 true false) 20 false 8 1024
       (Some 512) false None)
    (Builtin EAGLE) true (Some 1) (Some 1) (Some 2) (PFloat (2 ^ 1060)) (PFloat (2 ^ 1070)) false.

Lemma draft_seats_ok : seats_ok (Cache := chunk4) (MkReleaseArgs 2 true false) (MkChunkCache 2) tt draft_pool draft_rows
  [MkSeat req_a 1 [2; 3] []] [] [].
Proof.
  split.
  - split_and!; [simpl; lia| |done]. exists [1]. split_and!; try done. vm_compute. symmetry. apply (Permutation_cons_append [2; 3; 4] 1).
  - apply Forall_singleton. split; [done|]. split; [by eexists|]. exists [2; 3], [1]. split_and!; try done. by apply page_of_two.
  - apply Permutation_refl.
  - repeat constructor; done.
  - done.
Qed.

