(* ===== verification/Finish.v ===== *)
(** When a request ends: [Req.check_finished] of [managers/schedule_batch.py] with its
    token, vocabulary and string checks, and [Req.output_ids_through_stop].

    The tokenizer and the regular expressions are parameters; a set is the list of its
    elements in iteration order, and a missing set is empty, which the code treats alike. *)

From stdpp Require Import strings.
From S2P Require Export Prelude.

Inductive FinishReason : Type :=
  | FINISH_MATCHED_TOKEN (matched : Z)
  | FINISH_MATCHED_STR (matched : string)
  | FINISHED_MATCHED_REGEX (matched : string)
  | FINISH_LENGTH (length : Z)
  | FINISH_ABORT (message : string).

(** The sampling parameters that end a request. *)
Record SamplingParams : Type := MkSampling {
  pm_max_new_tokens : Z;
  pm_ignore_eos : bool;
  pm_stop_token_ids : list Z;
  pm_stop_strs : list string;
  pm_stop_regex_strs : list string;
  pm_stop_str_max_len : Z;
  pm_stop_regex_max_len : Z
}.

Record Tokenizer : Type := MkTokenizer {
  tk_eos_token_id : option Z;
  tk_additional_stop_token_ids : list Z;
  tk_decode : list Z -> string
}.

(** The fields of [Req] that [check_finished] reads and writes. *)
Record FinishState : Type := MkFinish {
  fs_params : SamplingParams;
  fs_eos_token_ids : list Z;
  fs_vocab_size : Z;
  fs_decoded_text : string;
  fs_to_finish : option FinishReason;
  fs_finished_reason : option FinishReason;
  fs_finished_len : option Z
}.

Definition set_finished (f : FinishState) (reason : FinishReason) (len : option Z) : FinishState :=
  MkFinish (fs_params f) (fs_eos_token_ids f) (fs_vocab_size f) (fs_decoded_text f) (fs_to_finish f) (Some reason)
    (match len with Some n => Some n | None => fs_finished_len f end).

Definition finished (f : FinishState) : bool := match fs_finished_reason f with Some _ => true | None => false end.

Definition output_ids_through_stop (f : FinishState) (output_ids : list Z) : list Z :=
  match fs_finished_len f with
  | Some n => py_upto output_ids n
  | None => output_ids
  end.

(** [s in t] on strings *)
Definition str_in (s t : string) : bool := match String.index 0 s t with Some _ => true | None => false end.

(** [l[-n:]] *)
Definition py_last {A} (l : list A) (n : Z) : list A := py_from l (- n).

Section Finish.
Context (tokenizer : option Tokenizer) (re_search : string -> string -> bool).

Definition tail_str (f : FinishState) (output_ids : list Z) : res string :=
  let p := fs_params f in
  if (zlen (pm_stop_strs p) =? 0) && (zlen (pm_stop_regex_strs p) =? 0) then Ok ""%string
  else
    let max_len_tail_str := Z.max (pm_stop_str_max_len p + 1) (pm_stop_regex_max_len p + 1) in
    let tail_len := Z.min max_len_tail_str (zlen output_ids) in
    match tokenizer with
    | None => Raise AttributeError
    | Some tk => Ok (tk_decode tk (py_last output_ids tail_len))
    end.

(** A token that ends the request. *)
Definition matches_stop (f : FinishState) (token_id : Z) : bool :=
  bool_decide (token_id ∈ pm_stop_token_ids (fs_params f))
  || bool_decide (token_id ∈ fs_eos_token_ids f)
  || match tokenizer with
     | None => false
     | Some tk => bool_decide (tk_eos_token_id tk = Some token_id) || bool_decide (token_id ∈ tk_additional_stop_token_ids tk)
     end.

(** The loop over the new tokens; [pos] is the position of the next one. *)
Fixpoint token_loop (f : FinishState) (pos : Z) (new_accepted_tokens : list Z) : option FinishState :=
  match new_accepted_tokens with
  | [] => None
  | token_id :: rest =>
      if matches_stop f token_id then Some (set_finished f (FINISH_MATCHED_TOKEN token_id) (Some (pos + 1)))
      else token_loop f (pos + 1) rest
  end.

Definition check_token_based_finish (f : FinishState) (output_ids new_accepted_tokens : list Z) : option FinishState :=
  if pm_ignore_eos (fs_params f) then None
  else token_loop f (zlen output_ids - zlen new_accepted_tokens) new_accepted_tokens.

(** The first id outside the vocabulary is replaced by a stop token, if there is one. *)
Fixpoint vocab_loop (f : FinishState) (output_ids : list Z) (pos : Z) (new_accepted_tokens : list Z)
    : option (list Z * FinishState) :=
  match new_accepted_tokens with
  | [] => None
  | token_id :: rest =>
      if (fs_vocab_size f <? token_id) || (token_id <? 0) then
        let output_ids :=
          match pm_stop_token_ids (fs_params f) with
          | [] => output_ids
          | t :: _ => <[Z.to_nat pos := t]> output_ids
          end in
        let output_ids :=
          match fs_eos_token_ids f with
          | [] => output_ids
          | t :: _ => <[Z.to_nat pos := t]> output_ids
          end in
        Some (output_ids, set_finished f (FINISH_MATCHED_STR "NaN happened") (Some (pos + 1)))
      else vocab_loop f output_ids (pos + 1) rest
  end.

Definition check_vocab_boundary_finish (f : FinishState) (output_ids new_accepted_tokens : list Z) : option (list Z * FinishState) :=
  vocab_loop f output_ids (zlen output_ids - zlen new_accepted_tokens) new_accepted_tokens.

Definition check_str_based_finish (f : FinishState) (output_ids : list Z) : res (option FinishState) :=
  let p := fs_params f in
  if (0 <? zlen (pm_stop_strs p)) || (0 <? zlen (pm_stop_regex_strs p)) then
    let* tail := tail_str f output_ids in
    match List.find (fun s => str_in s tail || str_in s (fs_decoded_text f)) (pm_stop_strs p) with
    | Some s => Ok (Some (set_finished f (FINISH_MATCHED_STR s) None))
    | None =>
        match List.find (fun s => re_search s tail) (pm_stop_regex_strs p) with
        | Some s => Ok (Some (set_finished f (FINISHED_MATCHED_REGEX s) None))
        | None => Ok None
        end
    end
  else Ok None.

(** [terminated] is [self.grammar.is_terminated()], when there is a grammar. *)
Definition check_finished (terminated : option bool) (new_accepted_len : Z) (output_ids : list Z) (f : FinishState)
    : res (list Z * FinishState) :=
  if finished f then Ok (output_ids, f)
  else
    match fs_to_finish f with
    | Some r =>
        Ok (output_ids, MkFinish (fs_params f) (fs_eos_token_ids f) (fs_vocab_size f) (fs_decoded_text f) None (Some r) (fs_finished_len f))
    | None =>
        let max_new_tokens := pm_max_new_tokens (fs_params f) in
        if max_new_tokens <=? zlen output_ids then
          Ok (output_ids, set_finished f (FINISH_LENGTH max_new_tokens) (Some max_new_tokens))
        else
          let* grammar_end :=
            match terminated with
            | Some true => match last output_ids with Some t => Ok (Some t) | None => Raise IndexError end
            | _ => Ok None
            end in
          match grammar_end with
          | Some t => Ok (output_ids, set_finished f (FINISH_MATCHED_TOKEN t) None)
          | None =>
              let new_accepted_tokens := py_last output_ids new_accepted_len in
              match check_token_based_finish f output_ids new_accepted_tokens with
              | Some f => Ok (output_ids, f)
              | None =>
                  match check_vocab_boundary_finish f output_ids new_accepted_tokens with
                  | Some (output_ids, f) => Ok (output_ids, f)
                  | None =>
                      let* r := check_str_based_finish f output_ids in
                      match r with
                      | Some f => Ok (output_ids, f)
                      | None => Ok (output_ids, f)
                      end
                  end
              end
          end
    end.

(** ** Accepting tokens one by one and all at once *)

(** One token per step, as decoding without speculation does: append and check. *)
Fixpoint feed (tokens : list Z) (output_ids : list Z) (f : FinishState) : res (list Z * FinishState) :=
  match tokens with
  | [] => Ok (output_ids, f)
  | t :: tokens =>
      let* (output_ids, f) := check_finished None 1 (output_ids ++ [t]) f in
      if finished f then Ok (output_ids, f) else feed tokens output_ids f
  end.

(** All accepted tokens of a step, as the decode post-processing does with overlapped
    speculation: extend and check once. *)
Definition accept_all (tokens : list Z) (output_ids : list Z) (f : FinishState) : res (list Z * FinishState) :=
  check_finished None (zlen tokens) (output_ids ++ tokens) f.
End Finish.

(** ** Lemmas *)

Lemma py_last_app {A} (l k : list A) : k <> [] -> py_last (l ++ k) (zlen k) = k.
Proof.
  intros Hk. assert (0 < zlen k) by (destruct k; [done|]; unfold zlen; simpl; lia). unfold py_last, py_from, py_slice, clamp_idx.
  rewrite zlen_app. pose proof (zlen_nonneg l). destruct (Z.ltb_spec (- zlen k) 0); [|lia]. destruct (Z.ltb_spec (zlen l + zlen k) 0); [lia|].
  rewrite Z.max_r, Z.min_l by lia. replace (- zlen k + (zlen l + zlen k)) with (zlen l) by lia.
  replace (Z.to_nat (zlen l)) with (length l) by (unfold zlen; lia). rewrite drop_app_length. apply take_ge. unfold zlen. lia.
Qed.

Section FinishFacts.
Context (tokenizer : option Tokenizer) (re_search : string -> string -> bool).
Abbreviation check := (check_finished tokenizer re_search None).

(** A request that runs on and has no stop strings. *)
Record running (f : FinishState) : Prop := {
  ru_reason : fs_finished_reason f = None;
  ru_len : fs_finished_len f = None;
  ru_to : fs_to_finish f = None;
  ru_strs : pm_stop_strs (fs_params f) = [];
  ru_regex : pm_stop_regex_strs (fs_params f) = [];
}.

(** Ids the vocabulary check accepts. *)
Abbreviation in_vocab := (fun f t => 0 <= t <= fs_vocab_size f).

(** A token that ends the request, unless [ignore_eos]. *)
Definition ends (f : FinishState) (t : Z) : bool := negb (pm_ignore_eos (fs_params f)) && matches_stop tokenizer f t.

Lemma vocab_none f toks : Forall (in_vocab f) toks -> forall out pos, vocab_loop f out pos toks = None.
Proof.
  induction 1 as [|t toks Ht _ IH]; intros out pos; [done|]. simpl.
  destruct (Z.ltb_spec (fs_vocab_size f) t), (Z.ltb_spec t 0); simpl; try lia. apply IH.
Qed.

Definition token_end (f : FinishState) (pos : Z) (toks : list Z) : option FinishState :=
  if pm_ignore_eos (fs_params f) then None else token_loop tokenizer f pos toks.

Lemma token_end_cons f pos t toks :
  token_end f pos (t :: toks) = if ends f t then Some (set_finished f (FINISH_MATCHED_TOKEN t) (Some (pos + 1))) else token_end f (pos + 1) toks.
Proof. unfold token_end, ends. destruct (pm_ignore_eos (fs_params f)); [done|]. done. Qed.

(** The check after [toks] were appended. *)
Lemma check_new f out toks : running f -> toks <> [] -> Forall (in_vocab f) toks ->
  check (zlen toks) (out ++ toks) f
  = Ok (out ++ toks,
        if pm_max_new_tokens (fs_params f) <=? zlen out + zlen toks
        then set_finished f (FINISH_LENGTH (pm_max_new_tokens (fs_params f))) (Some (pm_max_new_tokens (fs_params f)))
        else default f (token_end f (zlen out) toks)).
Proof.
  intros [H1 H2 H3 H4 H5] Hne Hv. unfold check_finished, finished. rewrite H1, H3. cbv zeta. rewrite zlen_app.
  destruct (_ <=? _); [done|]. cbn [res_bind]. rewrite py_last_app by done.
  unfold check_token_based_finish, check_vocab_boundary_finish. rewrite zlen_app.
  replace (zlen out + zlen toks - zlen toks) with (zlen out) by lia. fold (token_end f (zlen out) toks).
  destruct (token_end f (zlen out) toks); [done|]. rewrite vocab_none by done.
  unfold check_str_based_finish. by rewrite H4, H5.
Qed.

(** A token that does not end the request can be accepted first. *)
Lemma accept_all_cons f out t toks : running f -> toks <> [] -> Forall (in_vocab f) (t :: toks) -> ends f t = false ->
  accept_all tokenizer re_search (t :: toks) out f = accept_all tokenizer re_search toks (out ++ [t]) f.
Proof.
  intros Hr Hne Hv He. unfold accept_all. rewrite (check_new f out (t :: toks)) by done.
  rewrite (check_new f (out ++ [t]) toks); [|done|done|by apply Forall_cons in Hv as [_ ?]].
  rewrite <- app_assoc. cbn [app]. rewrite (zlen_app out [t]), zlen_cons, token_end_cons, He. change (zlen [t]) with 1.
  replace (zlen out + 1 + zlen toks) with (zlen out + (1 + zlen toks)) by lia. done.
Qed.

Lemma through_length f out toks n : zlen out <= n -> n <= zlen out + zlen toks ->
  output_ids_through_stop (set_finished f (FINISH_LENGTH n) (Some n)) (out ++ toks) = out ++ take (Z.to_nat (n - zlen out)) toks.
Proof.
  intros H1 H2. pose proof (zlen_nonneg out). unfold output_ids_through_stop. simpl. rewrite py_upto_nonneg by lia.
  rewrite take_app. f_equal; [apply take_ge; unfold zlen in *; lia|]. f_equal. unfold zlen. lia.
Qed.

(** One token appended to a request with room for it. *)
Lemma check_one f out t : running f -> in_vocab f t ->
  check 1 (out ++ [t]) f
  = Ok (out ++ [t],
        if pm_max_new_tokens (fs_params f) <=? zlen out + 1
        then set_finished f (FINISH_LENGTH (pm_max_new_tokens (fs_params f))) (Some (pm_max_new_tokens (fs_params f)))
        else if ends f t then set_finished f (FINISH_MATCHED_TOKEN t) (Some (zlen out + 1)) else f).
Proof.
  intros Hr Ht. transitivity (check (zlen [t]) (out ++ [t]) f); [done|].
  rewrite (check_new f out [t]); [|done|done|by apply Forall_singleton]. change (zlen [t]) with 1.
  destruct (_ <=? _); [done|]. rewrite token_end_cons. destruct (ends f t); [done|].
  unfold token_end. by destruct (pm_ignore_eos _).
Qed.

(** What the caller sees of a result: the delivered ids and the reason. *)
Definition delivered (r : res (list Z * FinishState)) : res (list Z * option FinishReason) :=
  let* (out, f) := r in Ok (output_ids_through_stop f out, fs_finished_reason f).

Lemma feed_cons f out t toks : running f -> in_vocab f t ->
  zlen out + 1 < pm_max_new_tokens (fs_params f) -> ends f t = false ->
  feed tokenizer re_search (t :: toks) out f = feed tokenizer re_search toks (out ++ [t]) f.
Proof.
  intros Hr Ht Hm He. cbn [feed]. rewrite check_one by done. destruct (Z.leb_spec (pm_max_new_tokens (fs_params f)) (zlen out + 1)); [lia|].
  rewrite He. cbn [res_bind]. unfold finished. by rewrite (ru_reason f Hr).
Qed.

Lemma accept_stop f out t toks : running f -> Forall (in_vocab f) (t :: toks) -> ends f t = true ->
  zlen out + zlen (t :: toks) < pm_max_new_tokens (fs_params f) ->
  delivered (accept_all tokenizer re_search (t :: toks) out f) = Ok (out ++ [t], Some (FINISH_MATCHED_TOKEN t)).
Proof.
  intros Hr Hv He Hm. unfold accept_all. rewrite check_new by done.
  destruct (Z.leb_spec (pm_max_new_tokens (fs_params f)) (zlen out + zlen (t :: toks))); [lia|].
  rewrite token_end_cons, He. cbn. unfold output_ids_through_stop. simpl. pose proof (zlen_nonneg out).
  rewrite py_upto_nonneg by lia. do 2 f_equal. rewrite cons_middle, app_assoc. apply take_app_length'.
  rewrite length_app. unfold zlen. simpl. lia.
Qed.

Lemma accept_full f out toks : running f -> toks <> [] -> Forall (in_vocab f) toks ->
  zlen out <= pm_max_new_tokens (fs_params f) <= zlen out + zlen toks ->
  delivered (accept_all tokenizer re_search toks out f)
  = Ok (out ++ take (Z.to_nat (pm_max_new_tokens (fs_params f) - zlen out)) toks, Some (FINISH_LENGTH (pm_max_new_tokens (fs_params f)))).
Proof.
  intros Hr Hne Hv Hm. unfold accept_all. rewrite check_new by done.
  destruct (Z.leb_spec (pm_max_new_tokens (fs_params f)) (zlen out + zlen toks)); [|lia].
  unfold delivered. cbn [res_bind]. by rewrite through_length by lia.
Qed.

(** The three ways one token at a time goes on. *)
Lemma feed_full f out t toks : running f -> in_vocab f t -> pm_max_new_tokens (fs_params f) = zlen out + 1 ->
  delivered (feed tokenizer re_search (t :: toks) out f) = Ok (out ++ [t], Some (FINISH_LENGTH (pm_max_new_tokens (fs_params f)))).
Proof.
  intros Hr Ht E. cbn [feed]. rewrite check_one by done. destruct (Z.leb_spec (pm_max_new_tokens (fs_params f)) (zlen out + 1)); [|lia].
  cbn [res_bind finished set_finished fs_finished_reason delivered]. rewrite through_length by (change (zlen [t]) with 1; lia).
  by replace (Z.to_nat (pm_max_new_tokens (fs_params f) - zlen out)) with 1%nat by lia.
Qed.

Lemma feed_stop f out t toks : running f -> in_vocab f t -> zlen out + 1 < pm_max_new_tokens (fs_params f) -> ends f t = true ->
  delivered (feed tokenizer re_search (t :: toks) out f) = Ok (out ++ [t], Some (FINISH_MATCHED_TOKEN t)).
Proof.
  intros Hr Ht Hm He. rewrite <- (accept_stop f out t []); [|done|by apply Forall_singleton|done|change (zlen [t]) with 1; lia].
  cbn [feed]. unfold accept_all. change (zlen [t]) with 1. rewrite check_one by done.
  destruct (Z.leb_spec (pm_max_new_tokens (fs_params f)) (zlen out + 1)); [lia|]. by rewrite He.
Qed.

(** The last accepted token leaves the request running. *)
Lemma accept_last f out t : running f -> in_vocab f t -> zlen out + 1 < pm_max_new_tokens (fs_params f) -> ends f t = false ->
  delivered (accept_all tokenizer re_search [t] out f) = Ok (out ++ [t], None).
Proof.
  intros Hr Ht Hm He. unfold accept_all. change (zlen [t]) with 1. rewrite check_one by done.
  destruct (Z.leb_spec (pm_max_new_tokens (fs_params f)) (zlen out + 1)); [lia|]. rewrite He. cbn.
  unfold output_ids_through_stop. by rewrite (ru_len f Hr), (ru_reason f Hr).
Qed.
End FinishFacts.


(** Two requests with stop token 7: one with room, one the accepted tokens fill. *)
Definition ex_finish (max_new : Z) : FinishState :=
  MkFinish (MkSampling max_new false [7] [] [] 0 0) [] 100 "" None None None.


(** Without that condition the two differ: with stop token 7 second among the accepted tokens
    and [max_new_tokens] reached by the third, the length check comes first and the token after
    the stop token is delivered. *)
Lemma accept_all_delivers_past_stop :
  delivered (feed None (fun _ _ => false) [4; 7; 9] [1; 2] (ex_finish 5)) = Ok ([1; 2; 4; 7], Some (FINISH_MATCHED_TOKEN 7))
  /\ delivered (accept_all None (fun _ _ => false) [4; 7; 9] [1; 2] (ex_finish 5)) = Ok ([1; 2; 4; 7; 9], Some (FINISH_LENGTH 5)).
Proof. by split. Qed.

(** The first id past the vocabulary passes the vocabulary check. *)
Lemma vocab_size_not_caught :
  delivered (accept_all None (fun _ _ => false) [100] [1] (ex_finish 5)) = Ok ([1; 100], None)
  /\ delivered (accept_all None (fun _ _ => false) [101] [1] (ex_finish 5)) = Ok ([1; 7], Some (FINISH_MATCHED_STR "NaN happened")).
Proof. by split. Qed.
