(* ===== verification/EagleVerify.v ===== *)
(** The verification step of EAGLE: [prepare_for_verify] and [verify] of [EagleVerifyInput]
    in [speculative/eagle_info.py], for greedy sampling on the NPU and a batch that is not idle.

    The target model's choices ([torch.argmax] of the logits) are an argument; the grammar
    of a request is an object of the class [GrammarObject], the tokenizer and the regular
    expressions are parameters as in [Finish.v].  Hidden states are opaque rows, and moving
    KV data from one slot to another is an output of the model. *)

From stdpp Require Import strings.
From S2P Require Export DraftStep Finish Grammar.
From S2P Require Import Triton KVTable SpecKernels SpecProps SpecInfo.

(** ** Requests and batches *)

Section Data.
Context {G H : Type}.

Record VerifyReq : Type := MkVerifyReq {
  vr_req : SchedReq;
  vr_finish : FinishState;
  vr_grammar : option G;
  vr_require_reasoning : bool;
  vr_is_reasoning_over : bool;
  vr_spec_verify_ct : Z;
  vr_spec_accepted_drafts : Z;
  vr_spec_acceptance_histogram : list Z
}.

Record VerifyBatch : Type := MkVerifyBatch {
  vb_reqs : list VerifyReq;
  vb_req_pool_indices : list Z;
  vb_seq_lens : list Z;
  vb_seq_lens_cpu : list Z;
  vb_input_ids : list Z;
  vb_out_cache_loc : list Z
}.

Record EagleVerifyInput : Type := MkVerifyInput {
  ev_draft_token : list Z;
  ev_retrieve_index : list (list Z);
  ev_spec_steps : Z;
  ev_topk : Z;
  ev_draft_token_num : Z
}.

(** The fields of [EagleDraftInput] that [verify] sets. *)
Record EagleDraftInput : Type := MkDraftInput {
  di_hidden_states : list H;
  di_verified_id : list Z;
  di_num_accepted_drafts : list Z;
  di_num_accepted_tokens : list Z;
  di_num_accepted_drafts_cpu : list Z;
  di_num_accepted_tokens_cpu : list Z;
  di_seq_lens_for_draft_extend : list Z;
  di_seq_lens_for_draft_extend_cpu : list Z;
  di_req_pool_indices_for_draft_extend : list Z
}.

(** [vo_kv_move] is the pair of target and source slots of [move_kv_cache]. *)
Record EagleVerifyOutput : Type := MkVerifyOutput {
  vo_draft_input : EagleDraftInput;
  vo_verified_id : list Z;
  vo_num_accepted_drafts_per_req_cpu : list Z;
  vo_accepted_indices : list Z;
  vo_kv_move : option (list Z * list Z)
}.

End Data.
#[global] Arguments VerifyReq : clear implicits.
#[global] Arguments VerifyBatch : clear implicits.
#[global] Arguments EagleDraftInput : clear implicits.
#[global] Arguments EagleVerifyOutput : clear implicits.

Definition draft_idle_input {H} : EagleDraftInput H := MkDraftInput [] [] [] [] [] [] [] [] [].

(** [t[mask]] for a boolean mask of ones and zeros *)
Definition mask_select (l mask : list Z) : res (list Z) :=
  if (length mask =? length l)%nat then Ok (map fst (filter (fun p => p.2 <> 0) (zip l mask))) else Raise IndexError.

(** The entries of [accept_index] that are not [-1]. *)
Definition accepted_entries (rows : list (list Z)) : list Z := filter (fun i => i <> -1) (concat rows).

(** [req.finished_reason] is what [finished()] of the scheduler's request looks at. *)
Definition set_output (r : SchedReq) (output : list Z) (reasoning : Z) (fin : bool) : SchedReq :=
  let q := sr_req r in
  MkSched (MkReq (req_pool_idx q) (origin_input_ids q) output (fill_ids q) (req_extra_key q) (req_priority q)
       (prefix_indices q) (last_node q) (cache_protected_len q) (is_chunked q) (kv_committed_len q) (kv_allocated_len q)
       (kv_committed_freed q) (kv_overallocated_freed q) reasoning)
    (rid r) (extend_input_len r) (extend_logprob_start_len r) (host_hit_length r) (max_new_tokens r) (ignore_eos r)
    (return_logprob r) (logprob_start_len r) (has_input_embeds r) (has_embed_overrides r) (wait_queue_entry_time r)
    (routing_key r) fin (skip_radix_cache_insert r).

(** The count of reasoning tokens and whether reasoning is over.  A single token is passed
    as a list of one. *)
Definition update_reasoning_tokens (tokens : Z) (over : bool) (token_id : list Z) (think_end_id : Z) : Z * bool :=
  if over then (tokens, over)
  else
    match list_find (fun x => x = think_end_id) token_id with
    | Some (end_pos, _) => (tokens + (Z.of_nat end_pos + 1), true)
    | None => (tokens + zlen token_id, over)
    end.

Definition update_spec_acceptance_histogram (histogram : list Z) (accepted_draft_tokens : Z) : res (list Z) :=
  let histogram :=
    if zlen histogram <=? accepted_draft_tokens
    then histogram ++ repeat 0 (Z.to_nat (accepted_draft_tokens - zlen histogram + 1)) else histogram in
  match wrap_index (zlen histogram) accepted_draft_tokens with
  | Some j => Ok (alter (fun x => x + 1) j histogram)
  | None => Raise IndexError
  end.

Section Verify.
Context {G H : Type} {Gram : GrammarObject G} {T A : Type} {Alloc : KVAllocator A} {Cache : BasePrefixCache T A kva_pool}.
Context (tokenizer : option Tokenizer) (re_search : string -> string -> bool) (think_end_id : option Z).
Context (oob : Z -> Z) (undef : Z) (torch_empty : Z -> list Z) (triton_next_power_of_2 : Z -> Z) (order : Z -> list Z).
Context (_is_hip : bool) (attn_backend : string).

(** ** Memory for the drafted tokens *)

Definition prepare_for_verify (v : EagleVerifyInput) (batch : VerifyBatch G) (page_size : Z) (t : T) (a : A) (pool : ReqToTokenPool)
    : res (VerifyBatch G * T * A * ReqToTokenPool) :=
  let input_ids := ev_draft_token v in
  let end_offset := map (fun s => s + ev_draft_token_num v) (vb_seq_lens batch) in
  let* (out_cache_loc, t, a) :=
    if page_size =? 1 then
      let* (out_cache_loc, _, t, a) := alloc_token_slots t a (zlen input_ids) false in Ok (out_cache_loc, t, a)
    else
      let prefix_lens := vb_seq_lens batch in
      let* last_loc := get_last_loc oob torch_empty (order (cdiv (zlen prefix_lens) 256)) _is_hip false attn_backend pool
                         (vb_req_pool_indices batch) prefix_lens in
      let* (out_cache_loc, _, t, a) :=
        alloc_paged_token_slots_extend t a prefix_lens end_offset last_loc (zlen input_ids) false in
      Ok (out_cache_loc, t, a) in
  let bs := zlen (vb_reqs batch) in
  let* pool := assign_req_to_token_pool_func oob order pool (vb_req_pool_indices batch) (vb_seq_lens batch) end_offset out_cache_loc bs in
  Ok (MkVerifyBatch (vb_reqs batch) (vb_req_pool_indices batch) (vb_seq_lens batch) (vb_seq_lens_cpu batch) input_ids out_cache_loc,
      t, a, pool).

(** ** Accepting tokens *)

(** One accepted token: append it and check whether the request has finished, again after
    the grammar has accepted it. *)
Definition accept_one (r : VerifyReq G) (id : Z) : res (VerifyReq G) :=
  let q := sr_req (vr_req r) in
  let output := output_ids q ++ [id] in
  let '(reasoning, over) :=
    match think_end_id with
    | Some e => if vr_require_reasoning r then update_reasoning_tokens (reasoning_tokens q) (vr_is_reasoning_over r) [id] e
                else (reasoning_tokens q, vr_is_reasoning_over r)
    | None => (reasoning_tokens q, vr_is_reasoning_over r)
    end in
  let* (output, f) := check_finished tokenizer re_search (is_terminated <$> vr_grammar r) 1 output (vr_finish r) in
  let* (output, f, grammar) :=
    match vr_grammar r with
    | Some g =>
        if finished f then Ok (output, f, Some g)
        else
          let* g := accept_token g id in
          let* (output, f) := check_finished tokenizer re_search (Some (is_terminated g)) 1 output f in
          Ok (output, f, Some g)
    | None => Ok (output, f, None)
    end in
  Ok (MkVerifyReq (set_output (vr_req r) output reasoning (finished f)) f grammar (vr_require_reasoning r) over
        (vr_spec_verify_ct r) (vr_spec_accepted_drafts r) (vr_spec_acceptance_histogram r)).

(** The inner loop: the request, [num_accepted], and whether the loop ended because the
    request finished. *)
Fixpoint accept_row (predict_cpu : list Z) (accept_index_row : list Z) (r : VerifyReq G) : res (VerifyReq G * nat * bool) :=
  match accept_index_row with
  | [] => Ok (r, 0%nat, false)
  | idx :: row =>
      if idx =? -1 then Ok (r, 0%nat, false)
      else
        let* id := tensor_at predict_cpu idx in
        let* r := accept_one r id in
        if finished (vr_finish r) then Ok (r, 1%nat, true)
        else
          let* (r, num_accepted, hit) := accept_row predict_cpu row r in
          Ok (r, S num_accepted, hit)
  end.

(** The counters after the inner loop. *)
Definition commit_accepted (r : VerifyReq G) (num_accepted : nat) (accept_index_row : list Z) : res (VerifyReq G) :=
  let committed := kv_committed_len (sr_req (vr_req r)) + Z.of_nat num_accepted in
  let accepted_draft_tokens := zlen (filter (fun i => i <> -1) accept_index_row) - 1 in
  let* histogram := update_spec_acceptance_histogram (vr_spec_acceptance_histogram r) accepted_draft_tokens in
  Ok (MkVerifyReq (set_kv_lens (vr_req r) committed committed) (vr_finish r) (vr_grammar r) (vr_require_reasoning r)
        (vr_is_reasoning_over r) (vr_spec_verify_ct r + 1) (vr_spec_accepted_drafts r + accepted_draft_tokens) histogram).

(** The outer loop: the requests, the rows with the entries after a finish cleared, the
    number of tokens each request accepted, and [has_finished]. *)
Fixpoint accept_reqs (predict_cpu : list Z) (reqs : list (VerifyReq G)) (rows : list (list Z))
    : res (list (VerifyReq G) * list (list Z) * list nat * bool) :=
  match reqs, rows with
  | r :: reqs, row :: rows =>
      let* (r, num_accepted, hit) := accept_row predict_cpu row r in
      let row' := if (hit : bool) then take num_accepted row ++ repeat (-1) (length row - num_accepted) else row in
      let* r := commit_accepted r num_accepted row in
      let* (reqs, rows, ns, has_finished) := accept_reqs predict_cpu reqs rows in
      Ok (r :: reqs, row' :: rows, num_accepted :: ns, hit || has_finished)
  | _, _ => Ok (reqs, rows, [], false)
  end.

(** The requests that go on, and their accepted entries. *)
Definition unfinished_positions (reqs : list (VerifyReq G)) : list nat :=
  filter (fun i => (match reqs !! i with Some r => negb (finished (vr_finish r)) | None => false end) = true) (seq 0 (length reqs)).

Definition unfinished_entries (unfinished_index : list nat) (rows : list (list Z)) (ns : list nat) : list Z :=
  concat (omap (fun i => row ← rows !! i; n ← ns !! i; Some (take n row)) unfinished_index).

(** ** The step *)

(** Free the slots of the tokens that were not accepted.  The last branch, for several
    drafts per step and pages, moves the accepted tokens to the front of each request's
    slots; it also returns the target and source slots. *)
Definition free_unaccepted (v : EagleVerifyInput) (batch : VerifyBatch G) (page_size : Z)
    (accept_index num_accepted_drafts evict_mask : list Z) (a : A) : res (A * option (list Z * list Z)) :=
  let bs := zlen (ev_retrieve_index v) in
  let n := ev_draft_token_num v in
  if page_size =? 1 then
    let* freed := mask_select (vb_out_cache_loc batch) evict_mask in
    let* a := kv_free a freed in Ok (a, None)
  else if ev_topk v =? 1 then
    let* evict_mask := of_grid (tl_run (order (zlen (vb_seq_lens batch)))
      (align_evict_mask_to_page_size oob (vb_seq_lens batch) page_size n (next_power_of_2 n)) evict_mask) in
    let* freed := mask_select (vb_out_cache_loc batch) evict_mask in
    let* a := kv_free a freed in Ok (a, None)
  else
    let* (src_cache_loc, tgt_cache_loc, to_free_num_slots) :=
      get_src_tgt_cache_loc torch_empty (vb_seq_lens batch) (vb_out_cache_loc batch) accept_index num_accepted_drafts n page_size in
    let to_free_slots := torch_empty (zsum to_free_num_slots) in
    match tl_run (order bs)
            (get_target_cache_loc oob undef num_accepted_drafts to_free_num_slots (vb_out_cache_loc batch) n
               (next_power_of_2 n) (next_power_of_2 bs)) (tgt_cache_loc, to_free_slots) with
    | Some (tgt_cache_loc, to_free_slots) =>
        let* a := kv_free a to_free_slots in Ok (a, Some (tgt_cache_loc, src_cache_loc))
    | None => Raise RuntimeError
    end.

(** The input of the next draft and the batch, when some request has finished. *)
Definition output_finished (v : EagleVerifyInput) (batch : VerifyBatch G) (reqs : list (VerifyReq G)) (rows : list (list Z)) (ns : list nat)
    (predict num_accepted_drafts : list Z) (hidden_states : list H) (in_place : bool)
    (kv_move : option (list Z * list Z)) : res (EagleDraftInput H * VerifyBatch G) :=
  let bs := zlen (ev_retrieve_index v) in
  let num_accepted_tokens := map (fun x => x + 1) num_accepted_drafts in
  let new_lens := zip_with Z.add (vb_seq_lens batch) num_accepted_tokens in
  let new_lens_cpu := zip_with Z.add (vb_seq_lens_cpu batch) num_accepted_tokens in
  let unfinished_index := unfinished_positions reqs in
  let unfinished_index_device := map Z.of_nat unfinished_index in
  let unfinished_accept_index := unfinished_entries unfinished_index rows ns in
  if (0 <? length unfinished_index)%nat then
    let* unfinished_drafts := gather num_accepted_drafts unfinished_index_device in
    let unfinished_tokens := map (fun x => x + 1) unfinished_drafts in
    let* out_cache_loc :=
      match kv_move with
      | None => gather (vb_out_cache_loc batch) unfinished_accept_index
      | Some (tgt_cache_loc, _) =>
          let* (num_accepted_drafts_filter, _) :=
            create_num_accepted_drafts_filter num_accepted_drafts unfinished_index_device (vb_seq_lens batch) in
          of_grid (tl_run (order bs)
            (filter_finished_cache_loc_kernel oob undef tgt_cache_loc num_accepted_drafts num_accepted_drafts_filter
               (next_power_of_2 bs) (next_power_of_2 (ev_draft_token_num v)))
            (torch_empty (zlen unfinished_drafts + zsum unfinished_drafts)))
      end in
    let* hidden := gather hidden_states unfinished_accept_index in
    let* unfinished_ids := gather predict unfinished_accept_index in
    let* lens := gather new_lens unfinished_index_device in
    let* lens_cpu := gather new_lens_cpu unfinished_index_device in
    let* indices := gather (vb_req_pool_indices batch) unfinished_index_device in
    Ok (MkDraftInput hidden unfinished_ids unfinished_drafts unfinished_tokens unfinished_drafts unfinished_tokens lens lens_cpu indices,
        MkVerifyBatch reqs (vb_req_pool_indices batch) new_lens new_lens_cpu (vb_input_ids batch) out_cache_loc)
  else
    let '(new_lens, new_lens_cpu) := if in_place then (new_lens, new_lens_cpu) else (vb_seq_lens batch, vb_seq_lens_cpu batch) in
    Ok (draft_idle_input,
        MkVerifyBatch reqs (vb_req_pool_indices batch) new_lens new_lens_cpu (vb_input_ids batch) (vb_out_cache_loc batch)).

(** [EagleVerifyInput.verify].  With several drafts per step and pages, [seq_lens] grows
    inside [create_num_accepted_drafts_filter] when a request has finished, by the same
    amounts. *)
Definition verify (v : EagleVerifyInput) (batch : VerifyBatch G) (target_predict : list Z) (hidden_states : list H)
    (page_size : Z) (a : A) (pool : ReqToTokenPool)
    : res (EagleVerifyOutput H * VerifyBatch G * A * ReqToTokenPool) :=
  let bs := zlen (ev_retrieve_index v) in
  let n := ev_draft_token_num v in
  let width := ev_spec_steps v + 1 in
  let* _ := if (zlen (ev_draft_token v) =? bs * n) && (zlen target_predict =? bs * n) then Ok tt else Raise RuntimeError in
  let out := MkVerifyOut (torch_empty (zlen target_predict + 1)) (repeat (-1) (Z.to_nat (bs * width))) (torch_empty bs) in
  let* out :=
    match verify_tree_greedy oob triton_next_power_of_2 (order bs) out (ev_draft_token v) (concat (ev_retrieve_index v)) target_predict n with
    | Some out => Ok out
    | None => Raise RuntimeError
    end in
  let predict := predicts out in
  let* (reqs, rows, ns, has_finished) :=
    accept_reqs predict (vb_reqs batch) (table_rows width (length (ev_retrieve_index v)) (accept_index out)) in
  let num_accepted_drafts :=
    if (has_finished : bool) then map (fun row => zlen (filter (fun i => i <> -1) row) - 1) rows else accept_token_num out in
  let accepted := accepted_entries rows in
  let* verified_id := gather predict accepted in
  let* evict_mask := scatter (map (fun _ => 1) (ev_draft_token v)) accepted (map (fun _ => 0) accepted) in
  let* (a, kv_move) := free_unaccepted v batch page_size accepted num_accepted_drafts evict_mask a in
  let in_place := (page_size =? 1) || (ev_topk v =? 1) in
  let num_accepted_tokens := map (fun x => x + 1) num_accepted_drafts in
  let new_lens := zip_with Z.add (vb_seq_lens batch) num_accepted_tokens in
  let new_lens_cpu := zip_with Z.add (vb_seq_lens_cpu batch) num_accepted_tokens in
  let* accepted_loc := gather (vb_out_cache_loc batch) accepted in
  let* pool :=
    if in_place then assign_req_to_token_pool_func oob order pool (vb_req_pool_indices batch) (vb_seq_lens batch) new_lens accepted_loc bs
    else Ok pool in
  let* (draft_input, batch) :=
    if has_finished then output_finished v batch reqs rows ns predict num_accepted_drafts hidden_states in_place kv_move
    else
      let out_cache_loc := match kv_move with Some (tgt_cache_loc, _) => tgt_cache_loc | None => accepted_loc end in
      let* hidden := gather hidden_states accepted in
      Ok (MkDraftInput hidden verified_id num_accepted_drafts num_accepted_tokens num_accepted_drafts num_accepted_tokens
            new_lens new_lens_cpu (vb_req_pool_indices batch),
          MkVerifyBatch reqs (vb_req_pool_indices batch) new_lens new_lens_cpu (vb_input_ids batch) out_cache_loc) in
  Ok (MkVerifyOutput draft_input verified_id num_accepted_drafts accepted kv_move, batch, a, pool).

(** [EAGLEWorker.verify]: [forward] is the target's forward pass over the prepared batch, its
    greedy choice at every draft and the hidden states. *)
Definition worker_verify (forward : VerifyBatch G -> list Z * list H) (v : EagleVerifyInput) (batch : VerifyBatch G) (page_size : Z)
    (t : T) (a : A) (pool : ReqToTokenPool) : res (EagleVerifyOutput H * VerifyBatch G * T * A * ReqToTokenPool) :=
  let* (batch, t, a, pool) := prepare_for_verify v batch page_size t a pool in
  let '(target_predict, hidden_states) := forward batch in
  let* (out, batch, a, pool) := verify v batch target_predict hidden_states page_size a pool in
  Ok (out, batch, t, a, pool).
End Verify.
