(* ===== verification/EagleAccept.v ===== *)
(** Acceptance of drafted tokens: the loop of [EagleVerifyInput.verify] over the accepted
    indices is greedy decoding one token at a time, which stops where the request finishes. *)

From stdpp Require Import strings.
From S2P Require Export EagleVerify.
From S2P Require Import Triton SpecKernels SpecProps.

Section Accept.
Context {G : Type} {Gram : GrammarObject G}.
Context (tokenizer : option Tokenizer) (re_search : string -> string -> bool) (think_end_id : option Z).
Abbreviation accept_one := (accept_one tokenizer re_search think_end_id).
Abbreviation accept_row := (accept_row tokenizer re_search think_end_id).
Abbreviation accept_reqs := (accept_reqs tokenizer re_search think_end_id).

(** ** Decoding one token at a time *)

(** Greedy decoding of up to [k] tokens: the request, how many tokens it got, and whether
    it finished. *)
Fixpoint greedy_decode (model : list Z -> Z) (k : nat) (r : VerifyReq G) : res (VerifyReq G * nat * bool) :=
  match k with
  | O => Ok (r, 0%nat, false)
  | S k =>
      let q := sr_req (vr_req r) in
      let* r := accept_one r (model (origin_input_ids q ++ output_ids q)) in
      if finished (vr_finish r) then Ok (r, 1%nat, true)
      else
        let* (r, n, hit) := greedy_decode model k r in
        Ok (r, S n, hit)
  end.

(** The inner loop over given tokens. *)
Fixpoint accept_tokens (ids : list Z) (r : VerifyReq G) : res (VerifyReq G * nat * bool) :=
  match ids with
  | [] => Ok (r, 0%nat, false)
  | id :: ids =>
      let* r := accept_one r id in
      if finished (vr_finish r) then Ok (r, 1%nat, true)
      else
        let* (r, n, hit) := accept_tokens ids r in
        Ok (r, S n, hit)
  end.

Lemma accept_row_tokens predict idxs ids rest : (rest = [] \/ exists l, rest = -1 :: l) ->
  Forall2 (fun idx id => idx <> -1 /\ tensor_at predict idx = Ok id) idxs ids ->
  forall r, accept_row predict (idxs ++ rest) r = accept_tokens ids r.
Proof.
  intros Hrest HF. induction HF as [|idx id idxs ids [Hi Ht] _ IH]; intros r; simpl.
  - by destruct Hrest as [-> | [l ->]].
  - destruct (Z.eqb_spec idx (-1)); [done|]. rewrite Ht. cbn [res_bind]. destruct (accept_one r id); [|done]. cbn [res_bind].
    by rewrite IH.
Qed.

(** ** Requests that are served without a grammar *)

(** The checks need a tokenizer only for stop strings. *)
Definition serveable (r : VerifyReq G) : Prop :=
  vr_grammar r = None
  /\ (tokenizer = None -> pm_stop_strs (fs_params (vr_finish r)) = [] /\ pm_stop_regex_strs (fs_params (vr_finish r)) = []).

Lemma set_finished_params f r n : fs_params (set_finished f r n) = fs_params f.
Proof. done. Qed.

Lemma token_loop_params f toks f' : forall pos, token_loop tokenizer f pos toks = Some f' -> fs_params f' = fs_params f /\ finished f' = true.
Proof. induction toks as [|t toks IH]; intros pos; simpl; [done|]. case_match; [by intros [= <-]|apply IH]. Qed.

Lemma vocab_loop_params f toks out out' f' : forall pos, vocab_loop f out pos toks = Some (out', f') -> fs_params f' = fs_params f /\ finished f' = true.
Proof. induction toks as [|t toks IH]; intros pos; simpl; [done|]. case_match; [by intros [= <- <-]|apply IH]. Qed.

Lemma str_finish_ok f out : (tokenizer = None -> pm_stop_strs (fs_params f) = [] /\ pm_stop_regex_strs (fs_params f) = []) ->
  exists o, check_str_based_finish tokenizer re_search f out = Ok o
    /\ forall f', o = Some f' -> fs_params f' = fs_params f /\ finished f' = true.
Proof.
  intros Ht. unfold check_str_based_finish. case_match; [|by exists None].
  assert (exists s, tail_str tokenizer f out = Ok s) as [s ->].
  { unfold tail_str. case_match; [eauto|]. destruct tokenizer as [tk|]; [eauto|]. destruct (Ht eq_refl) as [E1 E2]. rewrite E1, E2 in *. done. }
  cbn [res_bind]. case_match; [eexists; split; [done|]; by intros f' [= <-]|].
  case_match; eexists; (split; [done|]); [by intros f' [= <-]|done].
Qed.

(** Without a grammar the check always returns; a request that goes on keeps its output. *)
Lemma check_finished_total n out f : (tokenizer = None -> pm_stop_strs (fs_params f) = [] /\ pm_stop_regex_strs (fs_params f) = []) ->
  exists out' f', check_finished tokenizer re_search None n out f = Ok (out', f') /\ fs_params f' = fs_params f
    /\ (finished f' = false -> out' = out).
Proof.
  intros Ht. unfold check_finished. destruct (finished f) eqn:Ef; [by exists out, f|]. destruct (fs_to_finish f) as [r|]; [by eexists _, _|].
  cbv zeta. case_match; [by eexists _, _|]. cbn [res_bind].
  destruct (check_token_based_finish _ _ _ _) as [f1|] eqn:E1.
  { unfold check_token_based_finish in E1. case_match; [done|]. apply token_loop_params in E1 as [??]. by exists out, f1. }
  destruct (check_vocab_boundary_finish _ _ _) as [[out2 f2]|] eqn:E2.
  { apply vocab_loop_params in E2 as [? Hf]. exists out2, f2. split_and!; try done. by rewrite Hf. }
  destruct (str_finish_ok f out Ht) as (o & -> & Ho). cbn [res_bind].
  destruct o as [f3|]; [destruct (Ho f3 eq_refl); by exists out, f3|by exists out, f].
Qed.

(** What accepting a token leaves alone. *)
Record same_request (r r' : VerifyReq G) : Prop := {
  sa_grammar : vr_grammar r' = vr_grammar r;
  sa_row : req_pool_idx (sr_req (vr_req r')) = req_pool_idx (sr_req (vr_req r));
  sa_input : origin_input_ids (sr_req (vr_req r')) = origin_input_ids (sr_req (vr_req r));
  sa_committed : kv_committed_len (sr_req (vr_req r')) = kv_committed_len (sr_req (vr_req r));
  sa_params : fs_params (vr_finish r') = fs_params (vr_finish r);
  sa_verify_ct : vr_spec_verify_ct r' = vr_spec_verify_ct r;
  sa_histogram : vr_spec_acceptance_histogram r' = vr_spec_acceptance_histogram r;
}.

#[export] Instance same_request_preorder : PreOrder same_request.
Proof. split; [by split|]. intros x y z [] []. split; congruence. Qed.

Lemma accept_one_ok r id : serveable r -> exists r', accept_one r id = Ok r' /\ serveable r' /\ same_request r r'
  /\ (finished (vr_finish r') = false -> output_ids (sr_req (vr_req r')) = output_ids (sr_req (vr_req r)) ++ [id]).
Proof.
  intros [Hg Ht]. unfold EagleVerify.accept_one. rewrite Hg. cbv zeta. cbn [fmap option_fmap option_map].
  set (p := match think_end_id with Some _ => _ | None => _ end). destruct p as [reasoning over].
  destruct (check_finished_total 1 (output_ids (sr_req (vr_req r)) ++ [id]) (vr_finish r) Ht) as (out' & f' & -> & Hp & Ho).
  cbn [res_bind]. eexists. split; [done|]. split_and!; [|by split|done].
  split; [done|]. simpl. by rewrite Hp.
Qed.

Lemma accept_tokens_ok ids : forall r, serveable r -> exists r' n hit, accept_tokens ids r = Ok (r', n, hit)
  /\ same_request r r' /\ (n <= length ids)%nat /\ (hit = false -> n = length ids) /\ (ids <> [] -> 1 <= n)%nat
  /\ (ids <> [] -> finished (vr_finish r') = hit).
Proof.
  induction ids as [|id ids IH]; intros r Hs; simpl; [by exists r, 0%nat, false; split_and!|].
  destruct (accept_one_ok r id Hs) as (r1 & -> & Hs1 & Hsame & _). cbn [res_bind]. destruct (finished (vr_finish r1)) eqn:Ef.
  - exists r1, 1%nat, true. split_and!; try done; lia.
  - destruct (IH r1 Hs1) as (r2 & n & hit & Hrun & Hsame2 & Hn & Hh & _ & Hf). rewrite Hrun. cbn [res_bind].
    exists r2, (S n), hit. split_and!; try done; [by etrans|lia|intros H; rewrite (Hh H); lia|lia|]. intros _.
    destruct ids as [|id' ids]; [|by apply Hf]. simpl in *. simplify_eq. done.
Qed.

(** The tokens of greedy decoding, accepted one by one, are greedy decoding. *)
Lemma accept_greedy model k : forall r ctx, serveable r -> ctx = origin_input_ids (sr_req (vr_req r)) ++ output_ids (sr_req (vr_req r)) ->
  accept_tokens (greedy model ctx k) r = greedy_decode model k r.
Proof.
  induction k as [|k IH]; intros r ctx Hs ->; [done|]. cbn [greedy accept_tokens greedy_decode].
  destruct (accept_one_ok r (model (origin_input_ids (sr_req (vr_req r)) ++ output_ids (sr_req (vr_req r)))) Hs)
    as (r1 & -> & Hs1 & Hsame & Ho). cbn [res_bind]. destruct (finished (vr_finish r1)) eqn:Ef; [done|].
  rewrite IH; [done|done|]. by rewrite (sa_input _ _ Hsame), Ho, app_assoc by done.
Qed.
End Accept.
