(* ===== verification/EagleRows.v ===== *)
(** The tensors of [EagleVerifyInput.verify] as rows: the accepted indices, the mask of the
    slots to free, and the slots of the accepted tokens of every request. *)

From stdpp Require Import strings.
From S2P Require Export EagleAccept.
From S2P Require Import Triton KVTable SpecKernels SpecProps.

(** ** Gathering and masking by rows *)

Lemma gather_app {B} (l : list B) i1 i2 o1 o2 : gather l i1 = Ok o1 -> gather l i2 = Ok o2 -> gather l (i1 ++ i2) = Ok (o1 ++ o2).
Proof.
  revert o1. induction i1 as [|i i1 IH]; intros o1 H1 H2; simpl in *; [by injection H1 as <-|].
  destruct (tensor_at l i) as [x|]; [|done]. cbn [res_bind] in *. destruct (gather l i1) as [xs|]; [|done]. cbn [res_bind] in *.
  injection H1 as <-. by rewrite (IH xs).
Qed.

Lemma gather_concat {B} (l : list B) idxs outs : Forall2 (fun idx out => gather l idx = Ok out) idxs outs ->
  gather l (concat idxs) = Ok (concat outs).
Proof. induction 1 as [|idx out idxs outs H _ IH]; [done|]. simpl. by apply gather_app. Qed.

Lemma gather_zrange {B} (l : list B) a b : 0 <= a <= b -> b <= zlen l ->
  gather l (zrange a b) = Ok (take (Z.to_nat (b - a)) (drop (Z.to_nat a) l)).
Proof.
  intros Ha Hb. destruct (gather_ok l (zrange a b)) as (o & -> & Hl & Hat).
  { apply Forall_forall. intros x Hx. apply elem_of_zrange in Hx. lia. }
  f_equal. apply list_eq. intros k. pose proof (zlen_zrange a b ltac:(lia)) as Hz.
  destruct (zrange a b !! k) as [x|] eqn:Ex.
  - rewrite (Hat k x Ex). apply lookup_zrange in Ex as [-> Hx]. rewrite lookup_take_lt, lookup_drop by lia. f_equal. lia.
  - apply lookup_ge_None in Ex. rewrite (proj2 (lookup_ge_None o k)) by lia. symmetry. apply lookup_ge_None.
    rewrite length_take. unfold zlen in *. lia.
Qed.

(** The mask of a row that keeps [k] slots. *)
Definition mask_row (n : nat) (k : nat) : list Z := repeat 0 k ++ repeat 1 (n - k).

Lemma length_mask_row n k : (k <= n)%nat -> length (mask_row n k) = n.
Proof. intros H. unfold mask_row. rewrite length_app, !repeat_length. lia. Qed.

Lemma mask_row_select (l : list Z) k : (k <= length l)%nat ->
  map fst (filter (fun p => p.2 <> 0) (zip l (mask_row (length l) k))) = drop k l.
Proof.
  revert k. induction l as [|x l IH]; intros k Hk; [by destruct k|]. simpl in Hk. destruct k as [|k].
  - specialize (IH 0%nat ltac:(lia)). unfold mask_row in *. rewrite !Nat.sub_0_r in *. cbn [repeat app length zip_with] in *.
    rewrite filter_cons_True by done. cbn [map fst]. by rewrite IH.
  - specialize (IH k ltac:(lia)). unfold mask_row in *. cbn [repeat app length zip_with Nat.sub] in *.
    rewrite filter_cons_False by (simpl; lia). exact IH.
Qed.

Lemma mask_select_rows n rows ks : Forall2 (fun row k => length row = n /\ (k <= n)%nat) rows ks ->
  mask_select (concat rows) (concat (map (mask_row n) ks)) = Ok (concat (zip_with drop ks rows)).
Proof.
  intros HF. unfold mask_select.
  assert (length (concat (map (mask_row n) ks)) = length (concat rows)
    /\ map fst (filter (fun p => p.2 <> 0) (zip (concat rows) (concat (map (mask_row n) ks)))) = concat (zip_with drop ks rows))
    as [-> ->]; [|by rewrite Nat.eqb_refl].
  induction HF as [|row k rows ks [Hr Hk] _ [IH1 IH2]]; [done|]. cbn [map concat zip_with]. rewrite !length_app, length_mask_row by done.
  split; [lia|]. rewrite zip_with_app by (by rewrite length_mask_row). rewrite filter_app, map_app, IH2. f_equal.
  rewrite <- Hr. apply mask_row_select. lia.
Qed.

(** A flat tensor with given rows. *)
Lemma concat_rows (n : nat) (rows : list (list Z)) l : length l = (length rows * n)%nat ->
  (forall i row, rows !! i = Some row -> length row = n /\ forall k, (k < n)%nat -> l !! (i * n + k)%nat = row !! k) -> l = concat rows.
Proof.
  revert l. induction rows as [|r rows IH]; intros l Hl Hat; [by destruct l|]. simpl.
  destruct (Hat 0%nat r eq_refl) as [Hr Hk]. rewrite <- (take_drop n l). f_equal.
  - apply list_eq. intros k. destruct (decide (k < n)%nat) as [Hlt|Hge]; [|rewrite lookup_take_ge, (proj2 (lookup_ge_None r k)) by lia; done].
    rewrite lookup_take_lt by done. by apply (Hk k).
  - apply IH; [rewrite length_drop; simpl in Hl; lia|]. intros i row Hi. destruct (Hat (S i) row Hi) as [Hl' Hat']. split; [done|].
    intros k Hlt. rewrite lookup_drop. rewrite <- Hat' by done. f_equal. lia.
Qed.

Lemma length_concat_rows {B} (n : nat) (rows : list (list B)) : Forall (fun r => length r = n) rows -> length (concat rows) = (length rows * n)%nat.
Proof. induction 1 as [|r rows Hr _ IH]; [done|]. simpl. rewrite length_app, IH, Hr. done. Qed.

Lemma concat_lookup_row {B} (n : nat) (rows : list (list B)) i row k : Forall (fun r => length r = n) rows -> rows !! i = Some row -> (k < n)%nat ->
  concat rows !! (i * n + k)%nat = row !! k.
Proof.
  intros HF. revert i. induction HF as [|r rows Hr _ IH]; intros i Hi Hk; [done|]. destruct i as [|i]; simpl in *.
  - injection Hi as <-. by rewrite lookup_app_l by lia.
  - rewrite lookup_app_r by lia. rewrite <- (IH i Hi Hk). f_equal. lia.
Qed.

Lemma table_rows_concat w : 0 <= w -> forall n buf, zlen buf = Z.of_nat n * w -> concat (table_rows w n buf) = buf.
Proof.
  intros Hw. induction n as [|n IH]; intros buf Hb; simpl; [by destruct buf|].
  rewrite IH by (unfold zlen in *; rewrite length_drop; nia). apply take_drop.
Qed.

(** ** Rows of accepted indices *)

(** The row of request [i] when [c] of its [n] entries are accepted. *)
Definition index_row (n i : nat) (c : nat) : list Z :=
  zrange (Z.of_nat (i * n)) (Z.of_nat (i * n + c)) ++ repeat (-1) (n - c).

Lemma length_index_row n i c : (c <= n)%nat -> length (index_row n i c) = n.
Proof.
  intros Hc. unfold index_row. rewrite length_app, repeat_length.
  pose proof (zlen_zrange (Z.of_nat (i * n)) (Z.of_nat (i * n + c)) ltac:(lia)) as H. unfold zlen in H. lia.
Qed.

Lemma filter_minus_one k : filter (fun i => i <> -1) (repeat (-1) k) = [].
Proof. induction k as [|k IH]; [done|]. cbn [repeat]. by rewrite filter_cons_False by (intros H; by apply H). Qed.

Lemma index_row_entries n i c : filter (fun j => j <> -1) (index_row n i c) = zrange (Z.of_nat (i * n)) (Z.of_nat (i * n + c)).
Proof.
  unfold index_row. rewrite filter_app, filter_minus_one, app_nil_r. apply filter_all. apply Forall_forall. intros x Hx.
  apply elem_of_zrange in Hx. lia.
Qed.

Lemma index_row_cut n i c c' : (c' <= c)%nat -> (c <= n)%nat ->
  take c' (index_row n i c) ++ repeat (-1) (length (index_row n i c) - c') = index_row n i c'.
Proof.
  intros H1 H2. rewrite length_index_row by done. unfold index_row at 1. rewrite take_app_le.
  2:{ pose proof (zlen_zrange (Z.of_nat (i * n)) (Z.of_nat (i * n + c)) ltac:(lia)) as H. unfold zlen in H. lia. }
  unfold index_row. f_equal.
  rewrite <- (take_zrange (Z.of_nat (i * n)) (Z.of_nat (i * n + c')) (Z.of_nat (i * n + c))) by lia. f_equal. lia.
Qed.

(** [accept_index] without its [-1] entries, when request [i] accepts [cs !! i] tokens. *)
Definition kept_from (n j : nat) (cs : list nat) : list Z :=
  concat (imap (fun i c => zrange (Z.of_nat ((j + i) * n)) (Z.of_nat ((j + i) * n + c))) cs).
Definition kept_index (n : nat) (cs : list nat) : list Z := kept_from n 0 cs.

Lemma kept_from_cons n j c cs : kept_from n j (c :: cs) = zrange (Z.of_nat (j * n)) (Z.of_nat (j * n + c)) ++ kept_from n (S j) cs.
Proof.
  unfold kept_from. cbn [imap concat]. rewrite Nat.add_0_r. do 2 f_equal. apply imap_ext. intros i x _. unfold compose.
  by rewrite Nat.add_succ_r.
Qed.

Lemma index_rows_cons n j c cs : imap (fun i => index_row n (j + i)) (c :: cs) = index_row n j c :: imap (fun i => index_row n (S j + i)) cs.
Proof. cbn [imap]. rewrite Nat.add_0_r. f_equal. apply imap_ext. intros i x _. unfold compose. by rewrite Nat.add_succ_r. Qed.

Lemma index_rows_entries n cs : forall j, filter (fun i => i <> -1) (concat (imap (fun i => index_row n (j + i)) cs)) = kept_from n j cs.
Proof.
  induction cs as [|c cs IH]; intros j; [done|]. rewrite index_rows_cons, kept_from_cons. cbn [concat].
  by rewrite filter_app, index_row_entries, IH.
Qed.

Lemma index_rows_count n cs : forall j, map (fun row => zlen (filter (fun i => i <> -1) row) - 1) (imap (fun i => index_row n (j + i)) cs)
  = map (fun c => Z.of_nat c - 1) cs.
Proof.
  induction cs as [|c cs IH]; intros j; [done|]. rewrite index_rows_cons. cbn [map]. rewrite IH, index_row_entries, zlen_zrange by lia. f_equal. lia.
Qed.

Lemma elem_of_kept_from n cs x : forall j, x ∈ kept_from n j cs <-> exists i c, cs !! i = Some c /\ Z.of_nat ((j + i) * n) <= x < Z.of_nat ((j + i) * n + c).
Proof.
  induction cs as [|c cs IH]; intros j; [split; [by intros Hx%elem_of_nil|by intros (i & c & H & _)]|].
  rewrite kept_from_cons, elem_of_app, elem_of_zrange, IH. split.
  - intros [Hx|(i & c' & Hc & Hx)]; [exists 0%nat, c; rewrite Nat.add_0_r; done|exists (S i), c'; rewrite Nat.add_succ_r; done].
  - intros ([|i] & c' & Hc & Hx); simpl in Hc; [injection Hc as <-; rewrite Nat.add_0_r in Hx; by left|].
    right. exists i, c'. rewrite Nat.add_succ_r in Hx. done.
Qed.

Lemma NoDup_kept_from n cs : Forall (fun c => c <= n)%nat cs -> forall j, NoDup (kept_from n j cs).
Proof.
  induction 1 as [|c cs Hc _ IH]; intros j; [constructor|]. rewrite kept_from_cons. apply NoDup_app.
  split_and!; [apply NoDup_zrange| |done]. intros x Hx Hx'. apply elem_of_zrange in Hx. apply elem_of_kept_from in Hx' as (i & c' & _ & Hx'). lia.
Qed.

(** The first [c] entries of row [i]. *)
Lemma gather_row_take {B} n (rows : list (list B)) i row c : Forall (fun r => length r = n) rows -> rows !! i = Some row -> (c <= n)%nat ->
  gather (concat rows) (zrange (Z.of_nat (i * n)) (Z.of_nat (i * n + c))) = Ok (take c row).
Proof.
  intros HF Er Hc. pose proof (length_concat_rows n rows HF) as Hlen. pose proof (lookup_lt_Some _ _ _ Er) as Hlt.
  rewrite gather_zrange; [|lia|unfold zlen; nia]. f_equal.
  replace (Z.to_nat (Z.of_nat (i * n + c) - Z.of_nat (i * n))) with c by lia. rewrite Nat2Z.id.
  apply list_eq. intros k. destruct (decide (k < c)%nat); [|by rewrite !lookup_take_ge by lia].
  rewrite !lookup_take_lt, lookup_drop by done. apply (concat_lookup_row n); [done|done|lia].
Qed.

(** The slots of the accepted entries. *)
Lemma gather_kept {B} n (rows : list (list B)) cs l : length cs = length rows ->
  (forall i c row, cs !! i = Some c -> rows !! i = Some row -> gather l (zrange (Z.of_nat (i * n)) (Z.of_nat (i * n + c))) = Ok (take c row)) ->
  gather l (kept_index n cs) = Ok (concat (zip_with take cs rows)).
Proof.
  intros Hl Hg. apply gather_concat. apply Forall2_same_length_lookup_2; [rewrite length_imap, length_zip_with; lia|].
  intros i idx out Hi Ho. rewrite list_lookup_imap in Hi. rewrite lookup_zip_with in Ho.
  destruct (cs !! i) as [c|] eqn:Ec; [|done]. simpl in Hi, Ho. injection Hi as <-. destruct (rows !! i) as [row|] eqn:Er; [|done].
  simpl in Ho. injection Ho as <-. by apply Hg.
Qed.

Lemma repeat_lookup {B} (x : B) k i : (i < k)%nat -> repeat x k !! i = Some x.
Proof. revert i. induction k as [|k IH]; intros [|i] Hi; simpl; [lia..|done|]. apply IH. lia. Qed.

Lemma mask_row_lookup n c k : (k < n)%nat -> (c <= n)%nat -> mask_row n c !! k = Some (if (k <? c)%nat then 0 else 1).
Proof.
  intros Hk Hc. unfold mask_row. destruct (Nat.ltb_spec k c).
  - rewrite lookup_app_l by (rewrite repeat_length; lia). by apply repeat_lookup.
  - rewrite lookup_app_r, repeat_length by (rewrite repeat_length; lia). apply repeat_lookup. lia.
Qed.

(** The mask after the accepted entries are cleared. *)
Lemma scatter_kept n (draft : list Z) cs : length draft = (length cs * n)%nat -> Forall (fun c => c <= n)%nat cs ->
  scatter (map (fun _ => 1) draft) (kept_index n cs) (map (fun _ => 0) (kept_index n cs)) = Ok (concat (map (mask_row n) cs)).
Proof.
  intros Hl Hc. pose proof (elem_of_kept_from n cs) as Hin.
  assert (forall i c, cs !! i = Some c -> (i * n + n <= length cs * n /\ c <= n)%nat) as Hb.
  { intros i c Ec. rewrite Forall_lookup in Hc. specialize (Hc i c Ec). pose proof (lookup_lt_Some _ _ _ Ec). nia. }
  destruct (scatter_ok (map (fun _ => 1) draft) (kept_index n cs) (map (fun _ => 0) (kept_index n cs))) as (m & -> & Hm & Hset & Hkeep).
  - apply Forall_forall. intros x (i & c & Ec & Hx)%Hin. rewrite zlen_map. destruct (Hb i c Ec). unfold zlen. lia.
  - by rewrite length_map.
  - by apply NoDup_kept_from.
  - f_equal. apply (concat_rows n); [rewrite Hm, !length_map; done|]. intros i row Hi. rewrite list_lookup_fmap in Hi.
    destruct (cs !! i) as [c|] eqn:Ec; [|done]. injection Hi as <-. destruct (Hb i c Ec) as [Hb1 Hb2]. split; [by apply length_mask_row|].
    intros k Hk. rewrite mask_row_lookup by done. destruct (Nat.ltb_spec k c) as [Hkc|Hkc].
    + assert (Z.of_nat (i * n + k) ∈ kept_index n cs) as Hx by (apply Hin; exists i, c; split; [done|lia]).
      apply list_elem_of_lookup in Hx as [p Hp]. specialize (Hset p _ 0 Hp). rewrite Nat2Z.id in Hset. apply Hset.
      by rewrite list_lookup_fmap, Hp.
    + rewrite Hkeep; [rewrite list_lookup_fmap; destruct (lookup_lt_is_Some_2 draft (i * n + k)%nat) as [y ->]; [lia|done]|].
      intros (i' & c' & Ec' & Hx)%Hin. destruct (Hb i' c' Ec') as [_ Hc']. assert (i' = i) as -> by nia.
      assert (c' = c) as -> by congruence. lia.
Qed.
