(* ===== verification/EagleMemory.v ===== *)
(** The memory of a verification step: freeing the slots of rejected drafts leaves exactly
    what allocating the accepted tokens alone would have taken. *)

From S2P Require Export EagleRows.
From S2P Require Import Triton KVTable SpecKernels SpecProps.

(** ** Slots of one request *)

Section OneRequest.
Context (ps : Z) (Hps : 1 <= ps).
Abbreviation np := (npages ps).

(** The slot of token [x] of a request with prefix [p], last slot [l] and the pages [pages]. *)
Definition slot_of (p l : Z) (pages : list Z) (x : Z) : Z :=
  if x <? np p * ps then l + 1 + (x - p) else nth (Z.to_nat (x / ps - np p)) pages 0 * ps + x mod ps.

Lemma npages_bound x : np x * ps - ps < x <= np x * ps.
Proof. unfold npages. pose proof (ceil_div_spec x ps ltac:(lia)). lia. Qed.

Lemma npages_mono x y : x <= y -> np x <= np y.
Proof. intros. unfold npages. apply ceil_div_mono; lia. Qed.

(** A token is on the pages that its length needs. *)
Lemma div_lt_npages x y : x < y -> x / ps < np y.
Proof. intros. pose proof (npages_bound y). apply Z.div_lt_upper_bound; lia. Qed.

Lemma npages_le_div x y : np y * ps <= x -> np y <= x / ps.
Proof. intros. apply Z.div_le_lower_bound; lia. Qed.

Lemma num_new_pages_nonneg pre : forall sq, Forall2 Z.le pre sq -> Forall (fun k => 0 <= k) (new_pages ps pre sq).
Proof.
  intros sq HF. unfold new_pages. induction HF as [|p q pre sq H _ IH]; [constructor|]. simpl. constructor; [|done].
  pose proof (npages_mono p q H). lia.
Qed.

Lemma token_loc_cons p pre q sq l last pages i x : p <= q -> Forall2 Z.le pre sq ->
  token_loc ps (p :: pre) (q :: sq) (l :: last) pages (S i) x
  = token_loc ps pre sq last (drop (Z.to_nat (np q - np p)) pages) i x.
Proof.
  intros Hpq HF. unfold token_loc. cbn [nth]. destruct (Z.ltb_spec x (npages ps (nth i pre 0) * ps)); [done|]. cbv zeta. do 2 f_equal.
  pose proof (npages_mono p q Hpq). pose proof (zsum_take_nonneg _ i (num_new_pages_nonneg pre sq HF)) as Hz.
  pose proof (npages_le_div x (nth i pre 0) ltac:(lia)).
  assert (zsum (take (S i) (new_pages ps (p :: pre) (q :: sq))) = (np q - np p) + zsum (take i (new_pages ps pre sq))) as -> by done.
  rewrite nth_skipn. f_equal. lia.
Qed.

(** The slots of a batch, request by request. *)
Lemma extend_segs_cons p pre q sq l last pages : p <= q -> Forall2 Z.le pre sq ->
  extend_segs ps (p :: pre) (q :: sq) (l :: last) pages
  = map (slot_of p l pages) (zrange p q) :: extend_segs ps pre sq last (drop (Z.to_nat (np q - np p)) pages).
Proof.
  intros Hpq HF. unfold extend_segs. cbn [length seq map]. f_equal.
  rewrite <- seq_shift, map_map. apply map_ext. intros i. unfold extend_seg. cbn [nth]. apply map_ext. intros x. by apply token_loc_cons.
Qed.

(** ** Accepted and rejected tokens of one request *)

(** The slots that are kept for [c] accepted tokens out of [n] after [s]: whole pages. *)
Definition keep_len (n : nat) (s : Z) (c : nat) : nat := Nat.min n (Z.to_nat (np (s + Z.of_nat c) * ps - s)).

Context (n : nat) (s l : Z) (c : nat) (Hc : (c <= n)%nat).
Abbreviation m := (s + Z.of_nat n).
Abbreviation e := (s + Z.of_nat c).

Lemma accepted_slots pages rest : (Z.to_nat (np e - np s) <= length pages)%nat ->
  take c (map (slot_of s l pages) (zrange s m)) = map (slot_of s l (take (Z.to_nat (np e - np s)) pages ++ rest)) (zrange s e).
Proof.
  intros Hlen. rewrite firstn_map.
  replace c with (Z.to_nat (e - s)) at 1 by lia. rewrite take_zrange by lia. apply map_ext_in. intros x Hx.
  apply list_elem_of_In, elem_of_zrange in Hx. unfold slot_of. destruct (Z.ltb_spec x (np s * ps)) as [|Hge]; [done|]. do 2 f_equal.
  pose proof (npages_le_div x s Hge). pose proof (div_lt_npages x e ltac:(lia)).
  rewrite app_nth1 by (rewrite length_take; lia). rewrite nth_firstn. destruct (Nat.ltb_spec (Z.to_nat (x / ps - np s)) (Z.to_nat (np e - np s))); [done|lia].
Qed.

Lemma rejected_pages pages p : (Z.to_nat (np m - np s) <= length pages)%nat ->
  p ∈ drop (Z.to_nat (np e - np s)) (take (Z.to_nat (np m - np s)) pages)
  <-> p ∈ map (fun x => x / ps) (drop (keep_len n s c) (map (slot_of s l pages) (zrange s m))).
Proof.
  intros Hlen. pose proof (npages_mono s e ltac:(lia)). pose proof (npages_mono e m ltac:(lia)).
  pose proof (npages_bound e). pose proof (npages_bound m).
  assert (forall x, np e * ps <= x -> slot_of s l pages x / ps = nth (Z.to_nat (x / ps - np s)) pages 0) as Hslot.
  { intros x Hx. unfold slot_of. destruct (Z.ltb_spec x (np s * ps)); [nia|]. rewrite Z.div_add_l by lia.
    rewrite (Z.div_small (x mod ps) ps) by (apply Z.mod_pos_bound; lia). lia. }
  rewrite list_elem_of_lookup, list_elem_of_In, in_map_iff. split.
  - intros [k Hk]. rewrite lookup_drop in Hk. pose proof (lookup_lt_Some _ _ _ Hk) as Hlt. rewrite length_take in Hlt.
    rewrite lookup_take_lt in Hk by lia. set (j := (Z.to_nat (np e - np s) + k)%nat) in *. set (x := (np s + Z.of_nat j) * ps).
    assert (np e * ps <= x < m) as Hx by (unfold x, j; nia). exists (slot_of s l pages x). split.
    + rewrite Hslot by lia. unfold x. rewrite Z.div_mul by lia. replace (Z.to_nat (np s + Z.of_nat j - np s)) with j by lia.
      by apply nth_lookup_Some.
    + apply list_elem_of_In, list_elem_of_lookup. exists (Z.to_nat (x - s) - keep_len n s c)%nat. rewrite lookup_drop, list_lookup_fmap.
      assert (keep_len n s c <= Z.to_nat (x - s))%nat as Hk' by (unfold keep_len; lia).
      replace (keep_len n s c + (Z.to_nat (x - s) - keep_len n s c))%nat with (Z.to_nat (x - s)) by lia.
      rewrite (proj2 (lookup_zrange s m (Z.to_nat (x - s)) x)) by lia. done.
  - intros (y & <- & Hy). apply list_elem_of_In, list_elem_of_lookup in Hy as [k Hk]. rewrite lookup_drop, list_lookup_fmap in Hk.
    destruct (zrange s m !! (keep_len n s c + k)%nat) as [x|] eqn:Ex; [|done]. simpl in Hk. injection Hk as <-.
    apply lookup_zrange in Ex as [Ex Hx]. assert (np e * ps <= x) as Hge by (unfold keep_len in Ex; lia). rewrite Hslot by done.
    pose proof (npages_le_div x e Hge). pose proof (div_lt_npages x m ltac:(lia)).
    exists (Z.to_nat (x / ps - np s) - Z.to_nat (np e - np s))%nat. rewrite lookup_drop.
    replace (Z.to_nat (np e - np s) + _)%nat with (Z.to_nat (x / ps - np s)) by lia. rewrite lookup_take_lt by lia.
    destruct (lookup_lt_is_Some_2 pages (Z.to_nat (x / ps - np s))) as [z Hz]; [lia|]. rewrite Hz. f_equal. symmetry. by apply nth_lookup_Some.
Qed.
End OneRequest.

(** ** The batch *)

(** The lengths after the accepted tokens. *)
Definition grown (lens : list Z) (cs : list nat) : list Z := zip_with (fun s c => s + Z.of_nat c) lens cs.

Definition keep_lens (ps : Z) (n : nat) (lens : list Z) (cs : list nat) : list nat := zip_with (keep_len ps n) lens cs.

Lemma grown_le lens cs : length cs = length lens -> Forall2 Z.le lens (grown lens cs).
Proof.
  revert cs. induction lens as [|s lens IH]; intros [|c cs] Hl; simpl in Hl; try lia; [constructor|]. constructor; [lia|]. apply IH. lia.
Qed.

Lemma drafted_le n lens : Forall2 Z.le lens (map (fun s => s + Z.of_nat n) lens).
Proof. induction lens; constructor; [lia|done]. Qed.

(** The pages of a batch split into those of accepted and those of rejected tokens. *)
Lemma placement_split ps n : 1 <= ps -> forall lens cs last pages, length cs = length lens -> length last = length lens ->
  Forall (fun c => c <= n)%nat cs ->
  let drafted := map (fun s => s + Z.of_nat n) lens in
  get_num_new_pages drafted ps lens <= zlen pages ->
  let rows := extend_segs ps lens drafted last pages in
  exists kept freed, Permutation (take (Z.to_nat (get_num_new_pages drafted ps lens)) pages) (kept ++ freed)
    /\ concat (zip_with take cs rows) = extend_result ps lens (grown lens cs) last kept
    /\ zlen kept = get_num_new_pages (grown lens cs) ps lens
    /\ (forall p, p ∈ freed <-> p ∈ map (fun x => x / ps) (concat (zip_with drop (keep_lens ps n lens cs) rows))).
Proof.
  intros Hps. induction lens as [|s lens IH]; intros [|c cs] [|l last] pages Hlc Hll Hc drafted Hk rows; simpl in Hlc, Hll; try lia.
  { by exists [], []. }
  apply Forall_cons in Hc as [Hc Hcs]. set (d := map (fun s => s + Z.of_nat n) lens) in *.
  assert (forall q sq, get_num_new_pages (q :: sq) ps (s :: lens) = (npages ps q - npages ps s) + get_num_new_pages sq ps lens) as Hcons by done.
  pose proof (npages_mono ps Hps s (s + Z.of_nat c) ltac:(lia)). pose proof (npages_mono ps Hps (s + Z.of_nat c) (s + Z.of_nat n) ltac:(lia)).
  assert (0 <= get_num_new_pages d ps lens) as Hd0.
  { apply zsum_nonneg. apply (num_new_pages_nonneg ps Hps). apply drafted_le. }
  unfold drafted in *. cbn [map] in *. fold d in Hk |- *. rewrite Hcons in Hk |- *.
  set (u := Z.to_nat (npages ps (s + Z.of_nat n) - npages ps s)) in *. set (v := Z.to_nat (npages ps (s + Z.of_nat c) - npages ps s)).
  assert (v <= u /\ u <= length pages)%nat as [Hvu Hul] by (unfold u, v, zlen in *; lia).
  destruct (IH cs last (drop u pages) ltac:(lia) ltac:(lia) Hcs) as (kept & freed & HP & Hacc & Hlen & Hfr).
  { fold d. unfold zlen in *. rewrite length_drop. lia. }
  fold d in HP, Hacc, Hfr. subst rows. fold d. rewrite extend_segs_cons by (lia || by apply drafted_le). fold u.
  exists (take v pages ++ kept), (drop v (take u pages) ++ freed). split_and!.
  - replace (Z.to_nat (npages ps (s + Z.of_nat n) - npages ps s + get_num_new_pages d ps lens))
      with (u + Z.to_nat (get_num_new_pages d ps lens))%nat by lia.
    rewrite <- take_take_drop, HP. rewrite <- (take_drop v (take u pages)) at 1. rewrite take_take, Nat.min_l by lia. clear. perm_solver.
  - cbn [zip_with concat]. rewrite (accepted_slots ps Hps n s l c Hc pages kept) by (fold v; lia). fold v.
    unfold extend_result. unfold grown in *. cbn [zip_with]. rewrite extend_segs_cons by (lia || by apply grown_le; lia). cbn [concat]. f_equal.
    rewrite drop_app_length' by (rewrite length_take; unfold v; lia). exact Hacc.
  - rewrite zlen_app, Hlen. unfold grown. cbn [zip_with]. rewrite Hcons. f_equal. unfold zlen. rewrite length_take. lia.
  - intros p. unfold keep_lens in *. cbn [zip_with concat]. rewrite map_app, !elem_of_app, Hfr.
    pose proof (rejected_pages ps Hps n s l c Hc pages p) as Hr. fold u v in Hr. by rewrite Hr by lia.
Qed.

Lemma NoDup_pages_of ps pages : 1 <= ps -> NoDup (expand_pages ps pages) -> NoDup pages.
Proof.
  intros Hps. induction pages as [|p pages IH]; [constructor|]. unfold expand_pages. rewrite bind_cons. intros (H1 & H2 & H3)%NoDup_app.
  constructor; [|by apply IH]. intros Hin. apply (H2 (p * ps + 0)).
  - apply list_elem_of_In, in_map_iff. exists 0. split; [done|]. apply list_elem_of_In, elem_of_zrange. lia.
  - apply list_elem_of_bind. exists p. split; [|done]. apply list_elem_of_In, in_map_iff. exists 0. split; [done|].
    apply list_elem_of_In, elem_of_zrange. lia.
Qed.

(** The kept slots of one row cover its accepted tokens. *)
Lemma keep_len_bounds ps n s c : 1 <= ps -> (c <= n)%nat -> (c <= keep_len ps n s c <= n)%nat.
Proof. intros Hps Hc. pose proof (npages_bound ps Hps (s + Z.of_nat c)). unfold keep_len. lia. Qed.

Lemma keep_len_one n s c : (c <= n)%nat -> keep_len 1 n s c = c.
Proof. intros Hc. unfold keep_len, npages. rewrite Z.div_1_r. lia. Qed.

(** A draft is kept when its page holds an accepted token. *)
Lemma keep_len_page ps n s c k : 1 <= ps -> (k < n)%nat ->
  (k <? keep_len ps n s c)%nat = negb ((s + Z.of_nat c - 1) / ps <? (s + Z.of_nat k) / ps).
Proof.
  intros Hps Hk. pose proof (npages_bound ps Hps (s + Z.of_nat c)) as Hb. unfold keep_len.
  assert ((s + Z.of_nat c - 1) / ps = npages ps (s + Z.of_nat c) - 1) as ->.
  { symmetry. apply (Z.div_unique_pos _ _ _ (s + Z.of_nat c - 1 - ps * (npages ps (s + Z.of_nat c) - 1))); lia. }
  set (q := npages ps (s + Z.of_nat c)) in *.
  pose proof (Z.div_lt_upper_bound (s + Z.of_nat k) ps q). pose proof (Z.div_le_lower_bound (s + Z.of_nat k) ps q).
  destruct (Nat.ltb_spec k (Nat.min n (Z.to_nat (q * ps - s)))), (Z.ltb_spec (q - 1) ((s + Z.of_nat k) / ps)); simpl; try done; lia.
Qed.

(** The rows of the slots that were allocated for the drafts. *)
Lemma zip_take_drop (cs : list nat) : forall rows : list (list Z), length cs = length rows ->
  Permutation (concat rows) (concat (zip_with take cs rows) ++ concat (zip_with drop cs rows)).
Proof.
  induction cs as [|c cs IH]; intros [|row rows] Hl; simpl in Hl; try lia; [done|]. cbn [zip_with concat].
  rewrite (IH rows) by lia. rewrite <- (take_drop c row) at 1. clear. perm_solver.
Qed.

Lemma extend_segs_rows ps lens sq last pages n : length sq = length lens -> length last = length lens ->
  sq = map (fun s => s + Z.of_nat n) lens ->
  extend_segs ps lens sq last pages = table_rows (Z.of_nat n) (length lens) (extend_result ps lens sq last pages).
Proof.
  intros Hl1 Hl2 Hsq. unfold extend_result.
  assert (Forall (fun r => length r = n) (extend_segs ps lens sq last pages) /\ length (extend_segs ps lens sq last pages) = length lens) as [HF Hlen].
  { unfold extend_segs. rewrite length_map, length_seq. split; [|done]. apply Forall_map, Forall_forall. intros i Hi%elem_of_seq.
    unfold extend_seg. rewrite length_map. destruct (lookup_lt_is_Some_2 lens i) as [s Hs]; [lia|].
    rewrite (nth_lookup_Some lens i 0 s Hs), (nth_lookup_Some sq i 0 (s + Z.of_nat n)) by (by rewrite Hsq, list_lookup_fmap, Hs).
    pose proof (zlen_zrange s (s + Z.of_nat n) ltac:(lia)) as H. unfold zlen in H. lia. }
  rewrite <- Hlen. clear -HF. induction HF as [|r rows Hr _ IH]; [done|]. cbn [length table_rows concat]. rewrite Nat2Z.id.
  rewrite take_app_length', drop_app_length' by done. by f_equal.
Qed.

Section Free.
Context {T A : Type} {Alloc : KVAllocator A} {Cache : BasePrefixCache T A kva_pool}.

(** Page size 1: the slots of the accepted tokens are what is kept. *)
Lemma zlen_accepted n lens : forall cs out, length cs = length lens -> Forall (fun c => c <= n)%nat cs -> zlen out = Z.of_nat (length lens) * Z.of_nat n ->
  zlen (concat (zip_with take cs (table_rows (Z.of_nat n) (length lens) out))) = get_num_new_pages (grown lens cs) 1 lens.
Proof.
  unfold get_num_new_pages, grown. induction lens as [|s lens IH]; intros [|c cs] out Hl Hc Hout; simpl in Hl; try lia; [done|].
  apply Forall_cons in Hc as [Hc Hcs]. cbn [length table_rows zip_with concat map]. rewrite zlen_app, zsum_cons, !Z.div_1_r.
  cbn [length] in Hout. rewrite (IH cs) by (done || lia || (unfold zlen in *; rewrite length_drop; lia)).
  unfold zlen in Hout |- *. rewrite take_take, length_take. nia.
Qed.

Lemma keep_lens_one n lens : forall cs, length cs = length lens -> Forall (fun c => c <= n)%nat cs -> keep_lens 1 n lens cs = cs.
Proof.
  unfold keep_lens. induction lens as [|s lens IH]; intros [|c cs] Hl Hc; simpl in Hl; try lia; [done|]. apply Forall_cons in Hc as [Hc Hcs].
  cbn [zip_with]. rewrite keep_len_one by done. f_equal. apply IH; [lia|done].
Qed.

Lemma NoDup_fresh (t : T) g (a : A) fresh held : kv_owns a (tc_slots t g ++ fresh ++ held) -> NoDup fresh.
Proof. intros Ho%kv_owns_NoDup. apply NoDup_app in Ho as (_ & _ & Ho). by apply NoDup_app in Ho as (Ho & _ & _). Qed.

Lemma free_rejected_slots (t : T) g (a : A) held cs n lens out : tc_page_size t = 1 -> in_sync t g a (out ++ held) ->
  length cs = length lens -> Forall (fun c => c <= n)%nat cs -> zlen out = Z.of_nat (length lens) * Z.of_nat n ->
  let rows := table_rows (Z.of_nat n) (length lens) out in let kept := concat (zip_with take cs rows) in
  exists a', kv_free a (concat (zip_with drop cs rows)) = Ok a' /\ in_sync t g a' (kept ++ held)
    /\ zlen kept = get_num_new_pages (grown lens cs) 1 lens /\ kv_available a' = kv_available a + (zlen out - zlen kept).
Proof.
  intros E (Hok & Hown & Hpg) Hlc Hc Hout rows kept. assert (concat rows = out) as Hcr by (apply table_rows_concat; lia).
  assert (length rows = length lens) as Hlr by apply length_table_rows.
  pose proof (zip_take_drop cs rows ltac:(lia)) as HP. rewrite Hcr in HP. fold kept in HP. set (freed := concat (zip_with drop cs rows)) in *.
  pose proof (NoDup_fresh _ _ _ _ _ Hown) as Hnd. rewrite HP in Hnd. apply NoDup_app in Hnd as (_ & _ & Hnd).
  destruct (kv_free_ok a freed freed (tc_slots t g ++ kept ++ held)) as (a' & -> & Ho' & Hp' & Ha').
  - rewrite Hpg, E. split_and!; try done. intros p. rewrite (map_ext _ (fun x => x)), map_id by apply Z.div_1_r. done.
  - rewrite Hpg, E, expand_pages_one. eapply kv_owns_perm; [|exact Hown]. rewrite HP. clear. perm_solver.
  - exists a'. split_and!; [done|split_and!; [done|done|congruence]|by apply zlen_accepted|].
    rewrite Ha', Hpg, E, (zlen_perm _ _ HP), zlen_app. lia.
Qed.

Lemma free_rejected_pages (t : T) g (a : A) held lens cs last pages n : let ps := tc_page_size t in
  let drafted := map (fun s => s + Z.of_nat n) lens in let k := get_num_new_pages drafted ps lens in
  1 < ps -> in_sync t g a (expand_pages ps (take (Z.to_nat k) pages) ++ held) -> length cs = length lens -> length last = length lens ->
  Forall (fun c => c <= n)%nat cs -> k <= zlen pages -> let rows := extend_segs ps lens drafted last pages in
  exists a' kept, kv_free a (concat (zip_with drop (keep_lens ps n lens cs) rows)) = Ok a' /\ in_sync t g a' (expand_pages ps kept ++ held)
    /\ concat (zip_with take cs rows) = extend_result ps lens (grown lens cs) last kept
    /\ zlen kept = get_num_new_pages (grown lens cs) ps lens /\ kv_available a' = kv_available a + (k - zlen kept) * ps.
Proof.
  intros ps drafted k Hps (Hok & Hown & Hpg) Hlc Hll Hc Hkp rows. fold ps in Hpg.
  assert (0 <= k) as Hk0 by (apply zsum_nonneg; apply (num_new_pages_nonneg ps ltac:(lia)); apply drafted_le).
  destruct (placement_split ps n ltac:(lia) lens cs last pages Hlc Hll Hc Hkp) as (kept & freed & HP & Hacc & Hlen & Hfr).
  fold drafted in HP, Hacc, Hfr. fold k in HP. fold rows in Hacc, Hfr.
  pose proof (NoDup_fresh _ _ _ _ _ Hown) as Hnd. apply NoDup_pages_of in Hnd; [|lia]. rewrite HP in Hnd. apply NoDup_app in Hnd as (_ & _ & Hnd).
  set (l := concat (zip_with drop _ _)) in *.
  destruct (kv_free_ok a l freed (tc_slots t g ++ expand_pages ps kept ++ held)) as (a' & -> & Ho' & Hp' & Ha').
  - rewrite Hpg. split_and!; [done|done|lia].
  - rewrite Hpg. eapply kv_owns_perm; [|exact Hown]. rewrite (expand_pages_perm ps _ _ HP), expand_pages_app. clear. perm_solver.
  - exists a', kept. split_and!; [done|split_and!; [done|done|by rewrite Hp', Hpg]|done|done|]. rewrite Ha', Hpg.
    assert (zlen (take (Z.to_nat k) pages) = k) as Hz by (unfold zlen in *; rewrite length_take; lia).
    rewrite (zlen_perm _ _ HP), zlen_app in Hz. f_equal. f_equal. lia.
Qed.

(** Freeing the rejected slots leaves the pages of the accepted tokens, as if only these
    had been allocated. *)
Lemma free_rejected (t : T) g (a : A) held lens cs last out fresh n : let ps := tc_page_size t in
  let drafted := map (fun s => s + Z.of_nat n) lens in let rows := table_rows (Z.of_nat n) (length lens) out in
  in_sync t g a (fresh ++ held) -> placement ps lens drafted last out fresh -> length cs = length lens -> length last = length lens ->
  Forall (fun c => c <= n)%nat cs -> zlen fresh = get_num_new_pages drafted ps lens * ps ->
  zlen out = Z.of_nat (length lens) * Z.of_nat n ->
  exists a' kept, kv_free a (concat (zip_with drop (keep_lens ps n lens cs) rows)) = Ok a' /\ in_sync t g a' (kept ++ held)
    /\ placement ps lens (grown lens cs) last (concat (zip_with take cs rows)) kept
    /\ zlen kept = get_num_new_pages (grown lens cs) ps lens * ps
    /\ kv_available a' = kv_available a + (zlen fresh - zlen kept).
Proof.
  intros ps drafted rows Hs Hpl Hlc Hll Hc Hfz Hout. pose proof Hs as (Hok & _ & _). assert (1 <= ps) as Hps by exact (tc_page_size_pos t g Hok).
  unfold placement in *. destruct (Z.eqb_spec ps 1) as [E|E].
  - subst fresh. destruct (free_rejected_slots t g a held cs n lens out E Hs Hlc Hc Hout) as (a' & Hf & Hs' & Hk & Ha).
    exists a', (concat (zip_with take cs rows)). rewrite E, keep_lens_one, Z.mul_1_r by done. done.
  - destruct Hpl as (pages & -> & ->). rewrite zlen_expand_pages in Hfz |- * by lia. apply Z.mul_reg_r in Hfz; [|lia].
    assert (0 <= get_num_new_pages drafted ps lens) as Hk0 by (apply zsum_nonneg; apply (num_new_pages_nonneg ps Hps); apply drafted_le).
    assert (get_num_new_pages drafted ps lens <= zlen pages) as Hkp by (unfold zlen in *; rewrite length_take in Hfz; lia).
    unfold rows. rewrite <- (extend_segs_rows ps lens drafted last pages n) by (done || by unfold drafted; rewrite length_map).
    destruct (free_rejected_pages t g a held lens cs last pages n ltac:(fold ps; lia) Hs Hlc Hll Hc Hkp) as (a' & kept & Hf & Hs' & Hacc & Hlen & Ha).
    exists a', (expand_pages ps kept). rewrite zlen_expand_pages by lia. split_and!; [done|done| |by f_equal|].
    + exists kept. split; [done|]. fold ps in Hlen. rewrite <- Hlen. unfold zlen. by rewrite Nat2Z.id, take_ge by lia.
    + rewrite Ha, Hfz. fold ps drafted. lia.
Qed.
End Free.
