(* ===== verification/EagleStep.v ===== *)
(** One verification step of EAGLE for a chain of drafts: [verify] returns, every request has
    decoded greedily until it finished or the target disagreed, and its memory is that of the
    accepted tokens. *)

From stdpp Require Import strings.
From S2P Require Export EagleRows EagleMemory.
From S2P Require Import Triton KVTable SpecKernels SpecProps.

(** * The loop over accepted tokens *)

(** ** The kernel *)

Section Kernel.
Context (oob : Z -> Z) (torch_empty : Z -> list Z) (np2 : Z -> Z) (order : Z -> list Z).
Context (Hempty : forall n, 0 <= n -> zlen (torch_empty n) = n) (Horder : forall n, Permutation (order n) (zrange 0 n)).
Context (Hnp2 : forall n, n <= np2 n).

(** The drafts of each request that the target agrees with. *)
Definition agreed (n : nat) (draft target : list Z) (bs : nat) : list nat :=
  map (fun i => accepted_of (Z.of_nat n) draft target (Z.of_nat i)) (seq 0 bs).

Lemma agreed_lookup n draft target bs i a : agreed n draft target bs !! i = Some a ->
  (i < bs)%nat /\ a = accepted_of (Z.of_nat n) draft target (Z.of_nat i).
Proof.
  unfold agreed. rewrite list_lookup_fmap. destruct (seq 0 bs !! i) as [j|] eqn:Ej; [|done]. intros [= <-].
  apply lookup_seq in Ej as [-> Hlt]. done.
Qed.

Lemma verify_kernel_rows n bs draft target : (1 <= n)%nat -> length draft = (bs * n)%nat -> length target = (bs * n)%nat ->
  let accs := agreed n draft target bs in
  exists out, verify_tree_greedy oob np2 (order (Z.of_nat bs))
      (MkVerifyOut (torch_empty (zlen target + 1)) (repeat (-1) (Z.to_nat (Z.of_nat bs * Z.of_nat n))) (torch_empty (Z.of_nat bs)))
      draft (zrange 0 (Z.of_nat bs * Z.of_nat n)) target (Z.of_nat n) = Some out
    /\ table_rows (Z.of_nat n) bs (accept_index out) = imap (fun i a => index_row n i (S a)) accs
    /\ accept_token_num out = map Z.of_nat accs
    /\ Forall (fun a => a < n)%nat accs
    /\ forall i a k id, accs !! i = Some a -> (k <= a)%nat -> row (Z.of_nat n) target (Z.of_nat i) !! k = Some id ->
         tensor_at (predicts out) (Z.of_nat (i * n + k)) = Ok id.
Proof.
  intros Hn Hd Ht accs. set (out0 := MkVerifyOut _ _ _).
  assert (zlen draft = Z.of_nat bs * Z.of_nat n /\ zlen target = Z.of_nat bs * Z.of_nat n) as [Hd' Ht'] by (unfold zlen; lia).
  destruct (verify_grid oob draft (zrange 0 (Z.of_nat bs * Z.of_nat n)) target (Z.of_nat n) (np2 (Z.of_nat n)) (Z.of_nat bs)
    ltac:(lia) (Hnp2 _) ltac:(lia) Hd' Ht' eq_refl (order (Z.of_nat bs)) out0 (Horder _)) as (out & Hrun & HlA & HlN & Hres).
  { unfold out0. cbn [predicts]. rewrite Hempty; lia. }
  { unfold out0, zlen. cbn [accept_index]. rewrite repeat_length. lia. }
  { unfold out0. cbn [accept_token_num]. rewrite Hempty; lia. }
  exists out. split; [exact Hrun|].
  assert (forall i a, accs !! i = Some a -> 0 <= Z.of_nat i < Z.of_nat bs /\ (a < n)%nat
     /\ a = accepted_of (Z.of_nat n) draft target (Z.of_nat i)) as Hacc.
  { intros i a [Hi ->]%agreed_lookup. split_and!; [lia..| |done].
    pose proof (acc_bound draft target (Z.of_nat n) (Z.of_nat bs) ltac:(lia) Hd' (Z.of_nat i) ltac:(lia)). lia. }
  assert (length accs = bs) as Hla by (unfold accs, agreed; rewrite length_map, length_seq; done).
  split_and!.
  - apply list_eq. intros i. rewrite list_lookup_imap. destruct (accs !! i) as [a|] eqn:Ea; simpl.
    2:{ apply lookup_ge_None in Ea. apply lookup_ge_None. rewrite length_table_rows. lia. }
    destruct (Hacc i a Ea) as (Hi & Han & Ha). destruct (Hres (Z.of_nat i) Hi) as (_ & Hidx & _).
    destruct (table_rows_lookup (Z.of_nat n) bs ltac:(lia) (accept_index out) i HlA ltac:(lia)) as (r & -> & Hlr & Hat).
    f_equal. pose proof (length_index_row n i (S a) ltac:(lia)) as Hli. apply list_eq. intros k.
    destruct (decide (k < n)%nat) as [Hk|Hk]; [|rewrite !(proj2 (lookup_ge_None _ k)) by (unfold zlen in *; lia); done].
    pose proof (Hat (Z.of_nat k) ltac:(lia)) as E. rewrite Nat2Z.id in E. rewrite E, (Hidx (Z.of_nat k)), <- Ha by lia. unfold index_row.
    pose proof (zlen_zrange (Z.of_nat (i * n)) (Z.of_nat (i * n + S a)) ltac:(lia)) as Hz. unfold zlen in Hz.
    destruct (Z.leb_spec (Z.of_nat k) (Z.of_nat a)).
    + rewrite lookup_app_l by lia. symmetry. apply lookup_zrange. lia.
    + rewrite lookup_app_r by lia. rewrite repeat_lookup by lia. unfold out0. cbn [accept_index]. apply repeat_lookup. nia.
  - apply list_eq. intros i. rewrite list_lookup_fmap. destruct (accs !! i) as [a|] eqn:Ea; simpl.
    + destruct (Hacc i a Ea) as (Hi & _ & ->). destruct (Hres (Z.of_nat i) Hi) as (Hnum & _). by rewrite Nat2Z.id in Hnum.
    + apply lookup_ge_None in Ea. apply lookup_ge_None. unfold zlen in HlN. lia.
  - apply Forall_lookup. intros i a Ea. by destruct (Hacc i a Ea) as (_ & ? & _).
  - intros i a k id Ea Hk Hid. destruct (Hacc i a Ea) as (Hi & _ & ->). destruct (Hres (Z.of_nat i) Hi) as (_ & _ & Hp).
    apply tensor_at_in; [lia|]. rewrite <- Hid. rewrite <- (Nat2Z.id k) at 2. rewrite <- (Hp (Z.of_nat k)) by lia. f_equal. lia.
Qed.
End Kernel.

(** ** The loop *)

Section Loop.
Context {G : Type} {Gram : GrammarObject G}.
Context (tokenizer : option Tokenizer) (re_search : string -> string -> bool) (think_end_id : option Z).
Abbreviation accept_tokens := (accept_tokens tokenizer re_search think_end_id).
Abbreviation accept_reqs := (accept_reqs tokenizer re_search think_end_id).
Abbreviation serveable := (serveable tokenizer).

Lemma histogram_ok h n : 0 <= n -> exists h', update_spec_acceptance_histogram h n = Ok h'.
Proof.
  intros Hn. unfold update_spec_acceptance_histogram. cbv zeta. set (h1 := if zlen h <=? n then _ else _).
  assert (n < zlen h1) as Hlt.
  { unfold h1. destruct (Z.leb_spec (zlen h) n); [|lia]. unfold zlen in *. rewrite length_app, repeat_length. lia. }
  rewrite wrap_index_in by lia. eauto.
Qed.

Lemma commit_accepted_ok (r : VerifyReq G) c n i m : (1 <= m)%nat -> exists r', commit_accepted r c (index_row n i m) = Ok r'.
Proof.
  intros Hm. unfold commit_accepted. rewrite index_row_entries, zlen_zrange by lia.
  destruct (histogram_ok (vr_spec_acceptance_histogram r) (Z.of_nat (i * n + m) - Z.of_nat (i * n) - 1)) as [h ->]; [lia|].
  cbn [res_bind]. by eexists.
Qed.

(** The inner loop over the row of request [j]. *)
Lemma accept_index_row predict n j a ids r : length ids = n -> (a < n)%nat ->
  (forall k id, (k <= a)%nat -> ids !! k = Some id -> tensor_at predict (Z.of_nat (j * n + k)) = Ok id) ->
  accept_row tokenizer re_search think_end_id predict (index_row n j (S a)) r = accept_tokens (take (S a) ids) r.
Proof.
  intros Hl Ha Hp. apply accept_row_tokens; [destruct (n - S a)%nat; [by left|right; by eexists]|].
  pose proof (zlen_zrange (Z.of_nat (j * n)) (Z.of_nat (j * n + S a)) ltac:(lia)) as Hz.
  apply Forall2_same_length_lookup_2; [rewrite length_take; unfold zlen in Hz; lia|]. intros k x id [-> Hx]%lookup_zrange Hid. split; [lia|].
  rewrite lookup_take_lt in Hid by lia. rewrite <- (Hp k id) by (done || lia). f_equal. lia.
Qed.

(** What became of request [r], number [i] of the batch, when the target agrees with [a]
    drafts and chooses the tokens [ids]. *)
Definition accepted_as (n i : nat) (r : VerifyReq G) (a : nat) (ids : list Z) (r' : VerifyReq G) (c : nat) (hit : bool) : Prop :=
  exists r1, accept_tokens (take (S a) ids) r = Ok (r1, c, hit) /\ commit_accepted r1 c (index_row n i (S a)) = Ok r'.

Lemma accept_reqs_ok predict n : forall reqs accs idss j, length accs = length reqs -> length idss = length reqs ->
  Forall serveable reqs -> Forall (fun a => a < n)%nat accs -> Forall (fun ids => length ids = n) idss ->
  (forall i a ids k id, accs !! i = Some a -> idss !! i = Some ids -> (k <= a)%nat -> ids !! k = Some id ->
     tensor_at predict (Z.of_nat ((j + i) * n + k)) = Ok id) ->
  exists reqs' cs hits, accept_reqs predict reqs (imap (fun i a => index_row n (j + i) (S a)) accs)
      = Ok (reqs', imap (fun i c => index_row n (j + i) c) cs, cs, existsb id hits)
    /\ length reqs' = length reqs /\ length cs = length reqs /\ length hits = length reqs
    /\ (forall i r a ids, reqs !! i = Some r -> accs !! i = Some a -> idss !! i = Some ids -> exists r' c hit,
          reqs' !! i = Some r' /\ cs !! i = Some c /\ hits !! i = Some hit /\ accepted_as n (j + i) r a ids r' c hit
          /\ (1 <= c <= S a)%nat /\ (hit = false -> c = S a) /\ finished (vr_finish r') = hit).
Proof.
  induction reqs as [|r reqs IH]; intros [|a accs] [|ids idss] j Hl1 Hl2 Hs Ha Hi Hp; simpl in Hl1, Hl2; try lia.
  { by exists [], [], []. }
  apply Forall_cons in Hs as [Hsr Hs]. apply Forall_cons in Ha as [Har Ha]. apply Forall_cons in Hi as [Hir Hi].
  assert (forall (f : nat -> nat -> list Z) (l : list nat), imap ((fun i => f (j + i)%nat) ∘ S) l = imap (fun i => f (S j + i)%nat) l) as Hsh
    by (intros; apply imap_ext; intros; unfold compose; by rewrite Nat.add_succ_r).
  cbn [imap EagleVerify.accept_reqs]. rewrite Nat.add_0_r. change (imap ((fun i a => index_row n (j + i) (S a)) ∘ S) accs)
    with (imap ((fun i => (fun m a => index_row n m (S a)) (j + i)%nat) ∘ S) accs). rewrite (Hsh (fun m a => index_row n m (S a))).
  rewrite (accept_index_row predict n j a ids r Hir Har).
  2:{ intros k id Hk Hid. rewrite <- (Hp 0%nat a ids k id) by done. by rewrite Nat.add_0_r. }
  assert (length (take (S a) ids) = S a) as Hlt by (rewrite length_take; lia).
  destruct (accept_tokens_ok tokenizer re_search think_end_id (take (S a) ids) r Hsr) as (r1 & c & hit & Hacc & _ & Hc & Hnh & Hc1 & Hfin).
  rewrite Hlt in Hc, Hnh. assert (take (S a) ids <> []) as Hne by (intros E; by rewrite E in Hlt). specialize (Hc1 Hne). specialize (Hfin Hne).
  rewrite Hacc. cbn [res_bind].
  assert ((if hit then take c (index_row n j (S a)) ++ repeat (-1) (length (index_row n j (S a)) - c) else index_row n j (S a))
    = index_row n j c) as -> by (destruct hit; [apply index_row_cut; lia|by rewrite Hnh]).
  destruct (commit_accepted_ok r1 c n j (S a) ltac:(lia)) as [r' Hcm]. rewrite Hcm.
  cbn [res_bind]. destruct (IH accs idss (S j) ltac:(lia) ltac:(lia) Hs Ha Hi) as (reqs' & cs & hits & -> & Hr' & Hcs & Hh & Hat).
  { intros i a' ids' k id H1 H2 H3 H4. rewrite <- (Hp (S i) a' ids' k id) by done. do 2 f_equal. lia. }
  cbn [res_bind]. exists (r' :: reqs'), (c :: cs), (hit :: hits). split_and!; try (simpl; lia).
  - cbn [imap existsb]. rewrite Nat.add_0_r. rewrite (Hsh (fun m c => index_row n m c)). done.
  - intros [|i] r0 a0 ids0 H1 H2 H3; simpl in H1, H2, H3.
    + injection H1 as <-. injection H2 as <-. injection H3 as <-. exists r', c, hit. rewrite Nat.add_0_r. split_and!; try done; [by exists r1|].
      rewrite <- Hfin. unfold commit_accepted in Hcm. destruct (update_spec_acceptance_histogram _ _); [|done]. by injection Hcm as <-.
    + rewrite Nat.add_succ_r. by apply (Hat i r0 a0 ids0).
Qed.
End Loop.

(** * The step *)

(** ** Tensor lemmas *)

Lemma gather_pointwise {B} (l : list B) idx xs : Forall2 (fun i x => tensor_at l i = Ok x) idx xs -> gather l idx = Ok xs.
Proof. induction 1 as [|i x idx xs Hi _ IH]; [done|]. simpl. rewrite Hi. cbn [res_bind]. by rewrite IH. Qed.

Lemma zip_add_grown lens cs : zip_with Z.add lens (map (fun x => x + 1) (map (fun c => Z.of_nat c - 1) cs)) = grown lens cs.
Proof.
  unfold grown. revert cs. induction lens as [|s lens IH]; intros [|c cs]; cbn [map zip_with]; try done. rewrite IH. f_equal. lia.
Qed.

Lemma length_grown lens cs : length cs = length lens -> length (grown lens cs) = length lens.
Proof. intros H. unfold grown. rewrite length_zip_with. lia. Qed.

Lemma zsum_grown lens : forall cs, length cs = length lens -> zsum (zip_with Z.sub (grown lens cs) lens) = zsum (map Z.of_nat cs).
Proof.
  unfold grown. induction lens as [|s lens IH]; intros [|c cs] Hl; simpl in Hl; try lia; [done|]. cbn [map zip_with]. rewrite !zsum_cons, IH by lia. lia.
Qed.

Lemma zlen_zip_take n cs : forall rows : list (list Z), length cs = length rows -> Forall (fun r => length r = n) rows ->
  Forall (fun c => c <= n)%nat cs -> zlen (concat (zip_with take cs rows)) = zsum (map Z.of_nat cs).
Proof.
  induction cs as [|c cs IH]; intros [|r rows] Hl HF Hc; simpl in Hl; try lia; [done|]. apply Forall_cons in HF as [Hr HF].
  apply Forall_cons in Hc as [Hc Hcs]. cbn [zip_with concat map]. rewrite zlen_app, zsum_cons, IH by (done || lia). f_equal.
  unfold zlen. rewrite length_take. lia.
Qed.

Lemma gather_select {B} (l : list B) U : valid_indices l U -> gather l (map Z.of_nat U) = Ok (select l U).
Proof.
  induction 1 as [|i U Hi _ IH]; [done|]. destruct (lookup_lt_is_Some_2 l i Hi) as [x Hx]. cbn [map gather].
  rewrite (tensor_at_in l (Z.of_nat i) x) by (by rewrite ?Nat2Z.id || lia). cbn [res_bind]. rewrite IH. by rewrite (select_cons l i U x Hx).
Qed.

(** The accepted entries of the requests [U]. *)
Lemma gather_unfinished {B} n cs (rows : list (list B)) l U : length rows = length cs -> valid_indices cs U -> Forall (fun c => c <= n)%nat cs ->
  (forall i c row, cs !! i = Some c -> rows !! i = Some row -> gather l (zrange (Z.of_nat (i * n)) (Z.of_nat (i * n + c))) = Ok (take c row)) ->
  gather l (unfinished_entries U (imap (index_row n) cs) cs) = Ok (concat (select (zip_with take cs rows) U)).
Proof.
  intros Hl HU Hc Hg. unfold unfinished_entries. induction HU as [|i U Hi _ IH]; [done|].
  destruct (lookup_lt_is_Some_2 cs i Hi) as [c Ec]. destruct (lookup_lt_is_Some_2 rows i) as [row Er]; [lia|].
  rewrite (select_cons _ i U (take c row)) by (by rewrite lookup_zip_with, Ec; simpl; rewrite Er).
  cbn [omap list_omap concat]. rewrite list_lookup_imap, Ec. cbn [fmap option_fmap option_map mbind option_bind concat].
  apply gather_app; [|done]. rewrite <- (Hg i c row Ec Er). f_equal. unfold index_row.
  apply take_app_length'. pose proof (zlen_zrange (Z.of_nat (i * n)) (Z.of_nat (i * n + c)) ltac:(lia)) as Hz. unfold zlen in Hz. lia.
Qed.

Lemma gather_hidden_row {B} n cs (l : list B) : Forall (fun c => c <= n)%nat cs -> (length cs * n <= length l)%nat ->
  forall i c r, cs !! i = Some c -> map (fun i => drop (i * n) l) (seq 0 (length cs)) !! i = Some r ->
  gather l (zrange (Z.of_nat (i * n)) (Z.of_nat (i * n + c))) = Ok (take c r).
Proof.
  intros Hc Hl i c r Ec Er. pose proof (lookup_lt_Some _ _ _ Ec) as Hi. rewrite list_lookup_fmap, lookup_seq_lt in Er by done. injection Er as <-.
  rewrite Forall_lookup in Hc. specialize (Hc i c Ec). rewrite gather_zrange; [|lia|unfold zlen; nia]. rewrite Nat2Z.id. do 2 f_equal. lia.
Qed.

Lemma gather_hidden {B} n cs (l : list B) U : valid_indices cs U -> Forall (fun c => c <= n)%nat cs -> (length cs * n <= length l)%nat ->
  gather l (unfinished_entries U (imap (index_row n) cs) cs)
  = Ok (concat (select (zip_with take cs (map (fun i => drop (i * n) l) (seq 0 (length cs)))) U)).
Proof. intros HU Hc Hl. apply gather_unfinished; [by rewrite length_map, length_seq|done|done|]. by apply gather_hidden_row. Qed.

(** ** The mask *)

Section Mask.
Context (oob : Z -> Z) (order : Z -> list Z) (Horder : forall n, Permutation (order n) (zrange 0 n)).

Lemma aligned_mask ps n lens cs : 1 <= ps -> (1 <= n)%nat -> length cs = length lens -> Forall (fun c => 1 <= c <= n)%nat cs ->
  tl_run (order (zlen lens)) (align_evict_mask_to_page_size oob lens ps (Z.of_nat n) (next_power_of_2 (Z.of_nat n))) (concat (map (mask_row n) cs))
  = Some (concat (map (mask_row n) (keep_lens ps n lens cs))).
Proof.
  intros Hps Hn Hl Hc.
  assert (forall ks, Forall (fun k => k <= n)%nat ks -> Forall (fun r => length r = n) (map (mask_row n) ks)) as Hrows.
  { intros ks Hk. apply Forall_map. eapply Forall_impl; [exact Hk|]. intros k Hk'. by apply length_mask_row. }
  assert (Forall (fun c => c <= n)%nat cs) as Hc' by (eapply Forall_impl; [exact Hc|]; simpl; lia).
  destruct (align_evict_mask_pages oob lens (map Z.of_nat cs) ps (Z.of_nat n) (next_power_of_2 (Z.of_nat n)) (order (zlen lens)) (concat (map (mask_row n) cs)))
    as (mask' & -> & Hlm & Hat).
  - done.
  - lia.
  - apply next_power_of_2_ge.
  - by rewrite length_map.
  - unfold zlen. rewrite (length_concat_rows n), length_map by (by apply Hrows). lia.
  - apply Horder.
  - intros r k Hk. rewrite list_lookup_fmap in Hk. destruct (cs !! r) as [c|] eqn:Ec; [|done]. simpl in Hk. injection Hk as <-.
    rewrite Forall_lookup in Hc. specialize (Hc r c Ec). split; [lia|]. unfold row. rewrite !Nat2Z.id.
    replace (Z.to_nat (Z.of_nat n - Z.of_nat c)) with (n - c)%nat by lia. fold (mask_row n c). apply list_eq. intros k.
    destruct (decide (k < n)%nat) as [Hk|Hk].
    + rewrite lookup_take_lt, lookup_drop by done. replace (Z.to_nat (Z.of_nat r * Z.of_nat n) + k)%nat with (r * n + k)%nat by lia.
      apply (concat_lookup_row n); [by apply Hrows|by rewrite list_lookup_fmap, Ec|done].
    + rewrite lookup_take_ge by lia. symmetry. apply lookup_ge_None. rewrite length_mask_row; lia.
  - f_equal. apply (concat_rows n).
    + unfold zlen in Hlm. rewrite (length_concat_rows n), length_map in Hlm by (by apply Hrows). unfold keep_lens. rewrite length_map, length_zip_with. lia.
    + intros i r Hi. unfold keep_lens in Hi. rewrite list_lookup_fmap, lookup_zip_with in Hi. destruct (lens !! i) as [s|] eqn:Es; [|done].
      simpl in Hi. destruct (cs !! i) as [c|] eqn:Ec; [|done]. simpl in Hi. injection Hi as <-.
      rewrite Forall_lookup in Hc. specialize (Hc i c Ec). pose proof (keep_len_bounds ps n s c Hps ltac:(lia)) as Hkb.
      split; [apply length_mask_row; lia|]. intros k Hk. rewrite mask_row_lookup by lia.
      pose proof (Hat i s (Z.of_nat c) (Z.of_nat k) Es ltac:(by rewrite list_lookup_fmap, Ec) ltac:(lia)) as E.
      replace (Z.to_nat (Z.of_nat i * Z.of_nat n + Z.of_nat k)) with (i * n + k)%nat in E by lia. rewrite E. f_equal.
      rewrite (keep_len_page ps n s c k Hps Hk). by destruct (_ <? _).
Qed.
End Mask.

(** ** The step *)

Section Step.
Context {G H : Type} {Gram : GrammarObject G} {T A : Type} {Alloc : KVAllocator A} {Cache : BasePrefixCache T A kva_pool}.
Context (tokenizer : option Tokenizer) (re_search : string -> string -> bool) (think_end_id : option Z).
Context (oob : Z -> Z) (undef : Z) (torch_empty : Z -> list Z) (np2 : Z -> Z) (order : Z -> list Z).
Context (Hempty : forall n, 0 <= n -> zlen (torch_empty n) = n) (Horder : forall n, Permutation (order n) (zrange 0 n)).
Context (Hnp2 : forall n, n <= np2 n).
Abbreviation free_unaccepted := (free_unaccepted (A := A) oob undef torch_empty order).
Abbreviation verify := (verify (H := H) (A := A) tokenizer re_search think_end_id oob undef torch_empty np2 order).

(** A batch whose drafts form one chain of [n] tokens per request. *)
Record chain_batch (n : nat) (v : EagleVerifyInput) (batch : VerifyBatch G) (target : list Z) (hidden : list H) : Prop := {
  cb_n : (1 <= n)%nat;
  cb_num : ev_draft_token_num v = Z.of_nat n;
  cb_steps : ev_spec_steps v + 1 = Z.of_nat n;
  cb_bs : length (ev_retrieve_index v) = length (vb_reqs batch);
  cb_chain : concat (ev_retrieve_index v) = zrange 0 (Z.of_nat (length (vb_reqs batch)) * Z.of_nat n);
  cb_draft : length (ev_draft_token v) = (length (vb_reqs batch) * n)%nat;
  cb_target : length target = (length (vb_reqs batch) * n)%nat;
  cb_hidden : (length (vb_reqs batch) * n <= length hidden)%nat;
  cb_rows : length (vb_req_pool_indices batch) = length (vb_reqs batch);
  cb_lens : length (vb_seq_lens batch) = length (vb_reqs batch);
  cb_lens_cpu : length (vb_seq_lens_cpu batch) = length (vb_reqs batch);
}.

(** The slots of the drafts, one row per request. *)
Definition slot_rows (n : nat) (batch : VerifyBatch G) : list (list Z) :=
  table_rows (Z.of_nat n) (length (vb_reqs batch)) (vb_out_cache_loc batch).

Lemma slot_rows_ok n batch : length (vb_out_cache_loc batch) = (length (vb_reqs batch) * n)%nat ->
  concat (slot_rows n batch) = vb_out_cache_loc batch /\ length (slot_rows n batch) = length (vb_reqs batch)
  /\ Forall (fun r => length r = n) (slot_rows n batch).
Proof.
  intros Hout. unfold slot_rows. assert (zlen (vb_out_cache_loc batch) = Z.of_nat (length (vb_reqs batch)) * Z.of_nat n) as Hz by (unfold zlen; lia).
  split_and!; [apply table_rows_concat; lia|apply length_table_rows|].
  eapply Forall_impl; [apply table_rows_uniform; [|exact Hz]; lia|]. intros r Hr. unfold zlen in Hr. lia.
Qed.

(** Freeing: the rejected slots of whole pages. *)
Lemma free_unaccepted_ok n v batch target hidden t g a held last fresh cs idx nums : let ps := tc_page_size t in let lens := vb_seq_lens batch in
  chain_batch n v batch target hidden -> length (vb_out_cache_loc batch) = (length (vb_reqs batch) * n)%nat -> (ps = 1 \/ ev_topk v = 1) ->
  in_sync t g a (fresh ++ held) -> placement ps lens (map (fun s => s + Z.of_nat n) lens) last (vb_out_cache_loc batch) fresh ->
  zlen fresh = get_num_new_pages (map (fun s => s + Z.of_nat n) lens) ps lens * ps -> length last = length lens ->
  length cs = length lens -> Forall (fun c => 1 <= c <= n)%nat cs ->
  exists a' kept, free_unaccepted v batch ps idx nums (concat (map (mask_row n) cs)) a = Ok (a', None)
    /\ in_sync t g a' (kept ++ held) /\ placement ps lens (grown lens cs) last (concat (zip_with take cs (slot_rows n batch))) kept
    /\ zlen kept = get_num_new_pages (grown lens cs) ps lens * ps /\ kv_available a' = kv_available a + (zlen fresh - zlen kept).
Proof.
  intros ps lens Hb Hout Htop Hs Hpl Hfz Hll Hlc Hc. destruct (slot_rows_ok n batch Hout) as (Hcat & Hlr & HF). pose proof Hs as (Hok & _ & _).
  assert (1 <= ps) as Hps by exact (tc_page_size_pos t g Hok).
  assert (Forall (fun c => c <= n)%nat cs) as Hc' by (eapply Forall_impl; [exact Hc|]; simpl; lia).
  assert (forall ks, length ks = length lens -> Forall (fun k => k <= n)%nat ks ->
    mask_select (vb_out_cache_loc batch) (concat (map (mask_row n) ks)) = Ok (concat (zip_with drop ks (slot_rows n batch)))) as Hsel.
  { intros ks Hk Hkn. rewrite <- Hcat. apply mask_select_rows. pose proof (cb_lens _ _ _ _ _ Hb) as Hbl. fold lens in Hbl.
    apply Forall2_same_length_lookup_2; [lia|]. intros i r k Hr Hi. split; [by apply (proj1 (Forall_lookup _ _) HF i)|by apply (proj1 (Forall_lookup _ _) Hkn i)]. }
  destruct (free_rejected t g a held lens cs last (vb_out_cache_loc batch) fresh n Hs Hpl Hlc Hll Hc' Hfz) as (a' & kept & Hf & Hs' & Hpl' & Hk & Ha).
  { unfold zlen. rewrite Hout. unfold lens. rewrite (cb_lens _ _ _ _ _ Hb). lia. }
  fold ps in Hf. unfold lens in Hf. rewrite (cb_lens _ _ _ _ _ Hb) in Hf. fold lens in Hf. fold (slot_rows n batch) in Hf.
  exists a', kept. split_and!; try done.
  - unfold EagleVerify.free_unaccepted. cbv zeta. destruct (Z.eqb_spec ps 1) as [E|E].
    + rewrite E, keep_lens_one in Hf by done. rewrite Hsel by done. cbn [res_bind]. by rewrite Hf.
    + destruct (Z.eqb_spec (ev_topk v) 1); [|tauto]. rewrite (cb_num _ _ _ _ _ Hb). fold lens.
      rewrite (aligned_mask oob order Horder) by (done || apply (cb_n _ _ _ _ _ Hb)). cbn [of_grid res_bind].
      rewrite Hsel; [cbn [res_bind]; by rewrite Hf|unfold keep_lens; rewrite length_zip_with; lia|].
      apply Forall_lookup. intros i k Hi. unfold keep_lens in Hi. rewrite lookup_zip_with in Hi. destruct (lens !! i) as [s|]; [|done].
      simpl in Hi. destruct (cs !! i) as [c|] eqn:Ec; [|done]. simpl in Hi. injection Hi as <-. rewrite Forall_lookup in Hc.
      specialize (Hc i c Ec). apply keep_len_bounds; lia.
  - unfold slot_rows. rewrite <- (cb_lens _ _ _ _ _ Hb). exact Hpl'.
Qed.

(** The tokens the target chooses at the drafts of every request. *)
Definition target_rows (n bs : nat) (target : list Z) : list (list Z) := map (fun i => row (Z.of_nat n) target (Z.of_nat i)) (seq 0 bs).

Lemma target_rows_ok n bs target : length target = (bs * n)%nat ->
  length (target_rows n bs target) = bs /\ Forall (fun r => length r = n) (target_rows n bs target)
  /\ (forall i, (i < bs)%nat -> target_rows n bs target !! i = Some (row (Z.of_nat n) target (Z.of_nat i))).
Proof.
  intros Ht. unfold target_rows. rewrite length_map, length_seq. split_and!; [done| |].
  - apply Forall_map, Forall_forall. intros i Hi%elem_of_seq. pose proof (zlen_row (Z.of_nat n) target (Z.of_nat i)) as H1.
    unfold zlen in *. enough (Z.of_nat (length (row (Z.of_nat n) target (Z.of_nat i))) = Z.of_nat n) by lia. apply H1; nia.
  - intros i Hi. rewrite list_lookup_fmap, lookup_seq_lt by done. done.
Qed.

(** What the next draft starts from: the requests that go on. *)
Definition draft_from (di : EagleDraftInput H) (batch : VerifyBatch G) (cs : list nat) (toks : list (list Z)) (reqs : list (VerifyReq G)) : Prop :=
  let U := unfinished_positions reqs in
  di_verified_id di = concat (select (zip_with take cs toks) U)
  /\ di_seq_lens_for_draft_extend di = select (grown (vb_seq_lens batch) cs) U
  /\ di_req_pool_indices_for_draft_extend di = select (vb_req_pool_indices batch) U
  /\ di_num_accepted_tokens_cpu di = map Z.of_nat (select cs U) /\ di_num_accepted_tokens di = di_num_accepted_tokens_cpu di.

Lemma unfinished_valid (reqs : list (VerifyReq G)) : valid_indices reqs (unfinished_positions reqs).
Proof. apply Forall_forall. intros i Hi. apply list_elem_of_filter in Hi as [_ Hi]. apply elem_of_seq in Hi. lia. Qed.

Lemma valid_indices_length {B C} (l : list B) (k : list C) U : length k = length l -> valid_indices l U -> valid_indices k U.
Proof. intros E HF. eapply Forall_impl; [exact HF|]. simpl. lia. Qed.

Lemma output_finished_ok n v batch target hidden reqs cs predict : chain_batch n v batch target hidden ->
  length (vb_out_cache_loc batch) = (length (vb_reqs batch) * n)%nat ->
  length reqs = length (vb_reqs batch) -> length cs = length (vb_reqs batch) -> Forall (fun c => c <= n)%nat cs ->
  (forall i c, cs !! i = Some c -> gather predict (zrange (Z.of_nat (i * n)) (Z.of_nat (i * n + c))) = Ok (take c (row (Z.of_nat n) target (Z.of_nat i)))) ->
  let lens := grown (vb_seq_lens batch) cs in let lens_cpu := grown (vb_seq_lens_cpu batch) cs in
  exists di loc, output_finished oob undef torch_empty order v batch reqs (imap (index_row n) cs) cs predict (map (fun c => Z.of_nat c - 1) cs) hidden true None
    = Ok (di, MkVerifyBatch reqs (vb_req_pool_indices batch) lens lens_cpu (vb_input_ids batch) loc)
    /\ draft_from di batch cs (target_rows n (length (vb_reqs batch)) target) reqs.
Proof.
  intros Hb Hout Hr Hlc Hc Hp lens lens_cpu. destruct (slot_rows_ok n batch Hout) as (Hcat & Hlr & HF).
  destruct (target_rows_ok n (length (vb_reqs batch)) target (cb_target _ _ _ _ _ Hb)) as (Hlt & _ & Hat).
  unfold output_finished. cbv zeta. rewrite !zip_add_grown. fold lens lens_cpu. pose proof (unfinished_valid reqs) as HU.
  unfold draft_from. cbv zeta. set (U := unfinished_positions reqs) in *. destruct (Nat.ltb_spec 0 (length U)) as [Hu|Hu].
  2:{ destruct U; [|simpl in Hu; lia]. by eexists _, _. }
  pose proof (length_grown (vb_seq_lens batch) cs ltac:(rewrite Hlc; symmetry; apply (cb_lens _ _ _ _ _ Hb))) as Hgl. fold lens in Hgl.
  pose proof (length_grown (vb_seq_lens_cpu batch) cs ltac:(rewrite Hlc; symmetry; apply (cb_lens_cpu _ _ _ _ _ Hb))) as Hgc. fold lens_cpu in Hgc.
  rewrite (cb_lens _ _ _ _ _ Hb) in Hgl. rewrite (cb_lens_cpu _ _ _ _ _ Hb) in Hgc.
  assert (valid_indices cs U) as HUc by (eapply valid_indices_length; [|exact HU]; lia).
  rewrite (gather_select (map (fun c => Z.of_nat c - 1) cs)) by (eapply valid_indices_length; [|exact HUc]; by rewrite length_map). cbn [res_bind].
  rewrite (gather_unfinished n cs (slot_rows n batch) _ U ltac:(lia) HUc Hc).
  2:{ intros i c r Ec Er. rewrite <- Hcat. apply gather_row_take; [done|done|]. rewrite Forall_lookup in Hc. by apply (Hc i). }
  cbn [res_bind]. rewrite (gather_hidden n cs hidden U HUc Hc) by (pose proof (cb_hidden _ _ _ _ _ Hb); lia).
  cbn [res_bind]. rewrite (gather_unfinished n cs (target_rows n (length (vb_reqs batch)) target) predict U ltac:(lia) HUc Hc).
  2:{ intros i c r Ec Er. rewrite (Hp i c Ec). f_equal. rewrite Hat in Er by (apply lookup_lt_Some in Ec; lia). by injection Er as ->. }
  cbn [res_bind]. rewrite !gather_select by (eapply valid_indices_length; [|exact HU]; try lia; rewrite (cb_rows _ _ _ _ _ Hb); lia). cbn [res_bind].
  eexists _, _. split; [done|]. split_and!; try done. cbn [di_num_accepted_tokens_cpu]. rewrite select_map, map_map. apply map_ext. intros c. lia.
Qed.

(** The table has room for the drafts of every request. *)
Record rows_ready (n : nat) (batch : VerifyBatch G) (pool : ReqToTokenPool) : Prop := {
  rr_cols : 0 <= max_context_len pool;
  rr_table : Forall (fun r => zlen r = max_context_len pool) (req_to_token pool);
  rr_nodup : NoDup (vb_req_pool_indices batch);
  rr_range : Forall (fun i => 0 <= i < zlen (req_to_token pool)) (vb_req_pool_indices batch);
  rr_room : Forall (fun s => 0 <= s /\ s + Z.of_nat n <= max_context_len pool) (vb_seq_lens batch);
}.

Lemma assign_accepted n v batch target hidden pool cs : chain_batch n v batch target hidden ->
  length (vb_out_cache_loc batch) = (length (vb_reqs batch) * n)%nat -> rows_ready n batch pool ->
  length cs = length (vb_reqs batch) -> Forall (fun c => c <= n)%nat cs ->
  let lens := vb_seq_lens batch in let acc := concat (zip_with take cs (slot_rows n batch)) in
  exists tab, assign_req_to_token_pool_func oob order pool (vb_req_pool_indices batch) lens (grown lens cs) acc (zlen (ev_retrieve_index v))
      = Ok (set_table pool tab)
    /\ length tab = length (req_to_token pool) /\ Forall (fun r => zlen r = max_context_len pool) tab
    /\ slices_written (max_context_len pool) (req_to_token pool) tab (vb_req_pool_indices batch) lens (grown lens cs) acc.
Proof.
  intros Hb Hout [Hcols Huni Hnd Hrange Hroom] Hlc Hc lens acc. destruct (slot_rows_ok n batch Hout) as (_ & Hlr & HF).
  assert (zlen (ev_retrieve_index v) = zlen (vb_req_pool_indices batch)) as ->.
  { unfold zlen. by rewrite (cb_bs _ _ _ _ _ Hb), (cb_rows _ _ _ _ _ Hb). }
  pose proof (cb_lens _ _ _ _ _ Hb) as Hll. fold lens in Hll. pose proof (cb_rows _ _ _ _ _ Hb) as Hlp.
  apply assign_func_ok; try done; try lia.
  - rewrite length_grown; lia.
  - intros p s e Hs He. unfold grown in He. rewrite lookup_zip_with in He. unfold lens in *. rewrite Hs in He. simpl in He.
    destruct (cs !! p) as [c|] eqn:Ec; [|done]. simpl in He. injection He as <-. rewrite Forall_lookup in Hroom. destruct (Hroom p s Hs).
    rewrite Forall_lookup in Hc. specialize (Hc p c Ec). lia.
  - rewrite zsum_grown by lia. unfold acc. apply (zlen_zip_take n); [lia|done|done].
Qed.

Lemma unfinished_all (reqs : list (VerifyReq G)) : Forall (fun r => finished (vr_finish r) = false) reqs ->
  unfinished_positions reqs = seq 0 (length reqs).
Proof.
  intros HF. apply filter_all. apply Forall_forall. intros i Hi%elem_of_seq. destruct (lookup_lt_is_Some_2 reqs i) as [r Hr]; [lia|].
  rewrite Hr. rewrite Forall_lookup in HF. by rewrite (HF i r Hr).
Qed.

Lemma draft_from_all di batch cs toks (reqs : list (VerifyReq G)) : Forall (fun r => finished (vr_finish r) = false) reqs ->
  length cs = length reqs -> length toks = length reqs -> length (vb_seq_lens batch) = length reqs -> length (vb_req_pool_indices batch) = length reqs ->
  di_verified_id di = concat (zip_with take cs toks) -> di_seq_lens_for_draft_extend di = grown (vb_seq_lens batch) cs ->
  di_req_pool_indices_for_draft_extend di = vb_req_pool_indices batch -> di_num_accepted_tokens_cpu di = map Z.of_nat cs ->
  di_num_accepted_tokens di = di_num_accepted_tokens_cpu di -> draft_from di batch cs toks reqs.
Proof.
  intros HF H1 H2 H3 H4 E1 E2 E3 E4 E5. unfold draft_from. rewrite unfinished_all by done. cbv zeta.
  assert (forall (B : Type) (l : list B), length l = length reqs -> select l (seq 0 (length reqs)) = l) as Hsel by (intros B l <-; apply select_seq).
  rewrite !Hsel by (rewrite ?length_zip_with, ?length_grown; lia). done.
Qed.

(** The kernel's tokens at the accepted entries. *)
Lemma gather_predict n bs target predict (accs : list nat) : length target = (bs * n)%nat ->
  (forall i a k id, accs !! i = Some a -> (k <= a)%nat -> row (Z.of_nat n) target (Z.of_nat i) !! k = Some id ->
     tensor_at predict (Z.of_nat (i * n + k)) = Ok id) ->
  forall i a c, (i < bs)%nat -> accs !! i = Some a -> (c <= S a)%nat -> (c <= n)%nat ->
  gather predict (zrange (Z.of_nat (i * n)) (Z.of_nat (i * n + c))) = Ok (take c (row (Z.of_nat n) target (Z.of_nat i))).
Proof.
  intros Ht Hp i a c Hi Ea Hc Hcn. apply gather_pointwise. pose proof (zlen_zrange (Z.of_nat (i * n)) (Z.of_nat (i * n + c)) ltac:(lia)) as Hz.
  destruct (target_rows_ok n bs target Ht) as (_ & HF & Hat). rewrite Forall_lookup in HF. pose proof (HF i _ (Hat i Hi)) as Hr. simpl in Hr.
  apply Forall2_same_length_lookup_2; [rewrite length_take; unfold zlen in Hz; lia|]. intros k x id [-> Hx]%lookup_zrange Hid.
  pose proof (lookup_lt_Some _ _ _ Hid) as Hk. rewrite length_take in Hk. rewrite lookup_take_lt in Hid by lia.
  rewrite <- Nat2Z.inj_add. apply (Hp i a); [done|lia|done].
Qed.

(** What happened to request number [i]. *)
Definition served (n : nat) (v : EagleVerifyInput) (target : list Z) (i : nat) (r r' : VerifyReq G) (c : nat) : Prop :=
  exists a hit, a = accepted_of (Z.of_nat n) (ev_draft_token v) target (Z.of_nat i) /\ (1 <= c <= S a)%nat /\ (S a <= n)%nat
    /\ accepted_as tokenizer re_search think_end_id n i r a (row (Z.of_nat n) target (Z.of_nat i)) r' c hit
    /\ finished (vr_finish r') = hit /\ (hit = false -> c = S a).

(** The kernel and the loop. *)
Lemma chain_loop n v batch target hidden : chain_batch n v batch target hidden -> Forall (serveable tokenizer) (vb_reqs batch) ->
  let bs := length (vb_reqs batch) in
  exists out reqs cs hf,
    verify_tree_greedy oob np2 (order (Z.of_nat bs))
      (MkVerifyOut (torch_empty (zlen target + 1)) (repeat (-1) (Z.to_nat (Z.of_nat bs * Z.of_nat n))) (torch_empty (Z.of_nat bs)))
      (ev_draft_token v) (zrange 0 (Z.of_nat bs * Z.of_nat n)) target (Z.of_nat n) = Some out
    /\ accept_reqs tokenizer re_search think_end_id (predicts out) (vb_reqs batch) (table_rows (Z.of_nat n) bs (accept_index out))
       = Ok (reqs, imap (index_row n) cs, cs, hf)
    /\ length reqs = bs /\ length cs = bs /\ Forall (fun c => 1 <= c <= n)%nat cs
    /\ (forall i r, vb_reqs batch !! i = Some r -> exists r' c, reqs !! i = Some r' /\ cs !! i = Some c /\ served n v target i r r' c)
    /\ (if hf then map (fun row => zlen (filter (fun i => i <> -1) row) - 1) (imap (index_row n) cs) else accept_token_num out)
       = map (fun c => Z.of_nat c - 1) cs
    /\ (hf = false -> Forall (fun r => finished (vr_finish r) = false) reqs)
    /\ (forall i c, cs !! i = Some c -> gather (predicts out) (zrange (Z.of_nat (i * n)) (Z.of_nat (i * n + c)))
          = Ok (take c (row (Z.of_nat n) target (Z.of_nat i)))).
Proof.
  intros Hb Hsv bs. pose proof (cb_n _ _ _ _ _ Hb) as Hn.
  destruct (target_rows_ok n bs target (cb_target _ _ _ _ _ Hb)) as (Hlt & HFt & Htat).
  destruct (verify_kernel_rows oob torch_empty np2 order Hempty Horder Hnp2 n bs (ev_draft_token v) target Hn (cb_draft _ _ _ _ _ Hb) (cb_target _ _ _ _ _ Hb))
    as (out & Hk & Hrows & Hnum & Hacc & Hpred). set (accs := agreed n (ev_draft_token v) target bs) in *.
  assert (length accs = bs) as Hla by (unfold accs, agreed; by rewrite length_map, length_seq).
  destruct (accept_reqs_ok tokenizer re_search think_end_id (predicts out) n (vb_reqs batch) accs (target_rows n bs target) 0)
    as (reqs & cs & hits & Hloop & Hlreq & Hlc & Hlh & Hat); try done.
  { intros i a0 ids k id Ea Ei Hk0 Hid. apply (Hpred i a0 k id Ea Hk0). rewrite Htat in Ei by (apply lookup_lt_Some in Ea; lia). by injection Ei as <-. }
  assert (forall i, (i < bs)%nat -> exists r r' a c, vb_reqs batch !! i = Some r /\ accs !! i = Some a /\ reqs !! i = Some r' /\ cs !! i = Some c
            /\ hits !! i = Some (finished (vr_finish r')) /\ served n v target i r r' c /\ (1 <= c <= S a)%nat /\ (a < n)%nat
            /\ (finished (vr_finish r') = false -> c = S a)) as Hserved.
  { intros i Hi. destruct (lookup_lt_is_Some_2 (vb_reqs batch) i Hi) as [r Er]. destruct (lookup_lt_is_Some_2 accs i) as [a0 Ea]; [lia|].
    destruct (Hat i r a0 (row (Z.of_nat n) target (Z.of_nat i)) Er Ea (Htat i Hi)) as (r' & c & hit & E1 & E2 & E3 & E4 & E5 & E6 & E7).
    rewrite Forall_lookup in Hacc. pose proof (Hacc i a0 Ea). exists r, r', a0, c. rewrite E7. split_and!; try done; try lia. exists a0, hit.
    apply agreed_lookup in Ea as [_ Ea]. split_and!; [done|lia|lia|lia|exact E4|done|done]. }
  exists out, reqs, cs, (existsb id hits). split_and!; try done.
  - rewrite Hrows. exact Hloop.
  - apply Forall_lookup. intros i c Ec. destruct (Hserved i) as (r & r' & a & c' & _ & _ & _ & Ec' & _ & _ & Hca & Han & _); [apply lookup_lt_Some in Ec; lia|].
    assert (c' = c) as -> by congruence. lia.
  - intros i r Er. destruct (Hserved i) as (r0 & r' & a & c & Er0 & _ & E1 & E2 & _ & Hs & _); [by apply lookup_lt_Some in Er|].
    assert (r0 = r) as -> by congruence. eauto.
  - destruct (existsb id hits) eqn:Eh; [apply (index_rows_count n cs 0)|]. rewrite Hnum. apply list_eq. intros i. rewrite !list_lookup_fmap.
    destruct (decide (i < bs)%nat) as [Hi|Hi]; [|by rewrite !(proj2 (lookup_ge_None _ i)) by lia].
    destruct (Hserved i Hi) as (r & r' & a & c & _ & Ea & _ & Ec & Eh' & _ & _ & _ & Hc). rewrite Ea, Ec. simpl. f_equal.
    rewrite Hc; [lia|]. destruct (finished (vr_finish r')) eqn:Ef; [|done].
    rewrite (proj2 (existsb_exists id hits)) in Eh; [done|]. exists true. split; [|done]. apply list_elem_of_In. by eapply list_elem_of_lookup_2.
  - intros Eh. apply Forall_lookup. intros i r' Er'. destruct (Hserved i) as (r & r1 & a & c & _ & _ & E1 & _ & Eh' & _); [apply lookup_lt_Some in Er'; lia|].
    assert (r1 = r') as -> by congruence. destruct (finished (vr_finish r')) eqn:Ef; [|done].
    rewrite (proj2 (existsb_exists id hits)) in Eh; [done|]. exists true. split; [|done]. apply list_elem_of_In. by eapply list_elem_of_lookup_2.
  - intros i c Ec. pose proof (lookup_lt_Some _ _ _ Ec) as Hi. destruct (Hserved i ltac:(lia)) as (r & r' & a & c' & _ & Ea & _ & Ec' & _ & _ & Hca & Han & _).
    assert (c' = c) as -> by congruence. apply (gather_predict n bs target (predicts out) accs (cb_target _ _ _ _ _ Hb) Hpred i a c); try done; lia.
Qed.

Lemma verify_chain n v batch target hidden t g a held last fresh pool : let ps := tc_page_size t in let lens := vb_seq_lens batch in
  chain_batch n v batch target hidden -> length (vb_out_cache_loc batch) = (length (vb_reqs batch) * n)%nat -> 
  rows_ready n batch pool -> Forall (serveable tokenizer) (vb_reqs batch) -> (ps = 1 \/ ev_topk v = 1) ->
  in_sync t g a (fresh ++ held) -> placement ps lens (map (fun s => s + Z.of_nat n) lens) last (vb_out_cache_loc batch) fresh ->
  zlen fresh = get_num_new_pages (map (fun s => s + Z.of_nat n) lens) ps lens * ps -> length last = length lens ->
  exists out reqs cs loc a' tab kept, let acc := concat (zip_with take cs (slot_rows n batch)) in
    verify v batch target hidden ps a pool
    = Ok (out, MkVerifyBatch reqs (vb_req_pool_indices batch) (grown lens cs) (grown (vb_seq_lens_cpu batch) cs) (vb_input_ids batch) loc,
          a', set_table pool tab)
    /\ length reqs = length (vb_reqs batch) /\ length cs = length (vb_reqs batch)
    /\ (forall i r, vb_reqs batch !! i = Some r -> exists r' c, reqs !! i = Some r' /\ cs !! i = Some c /\ served n v target i r r' c)
    /\ draft_from (vo_draft_input out) batch cs (target_rows n (length (vb_reqs batch)) target) reqs
    /\ vo_verified_id out = concat (zip_with take cs (target_rows n (length (vb_reqs batch)) target))
    /\ vo_num_accepted_drafts_per_req_cpu out = map (fun c => Z.of_nat c - 1) cs
    /\ in_sync t g a' (kept ++ held) /\ placement ps lens (grown lens cs) last acc kept
    /\ zlen kept = get_num_new_pages (grown lens cs) ps lens * ps /\ kv_available a' = kv_available a + (zlen fresh - zlen kept)
    /\ length tab = length (req_to_token pool) /\ Forall (fun r => zlen r = max_context_len pool) tab
    /\ slices_written (max_context_len pool) (req_to_token pool) tab (vb_req_pool_indices batch) lens (grown lens cs) acc.
Proof.
  intros ps lens Hb Hout Hrr Hsv Htop Hs Hpl Hfz Hll. destruct (slot_rows_ok n batch Hout) as (Hcat & Hlr & HF). pose proof (cb_lens _ _ _ _ _ Hb) as Hbl.
  destruct (chain_loop n v batch target hidden Hb Hsv) as (out & reqs & cs & hf & Hk & Hloop & Hlreq & Hlc & HFc & Hserved & Hnums & Hnf & Hgp).
  set (bs := length (vb_reqs batch)) in *. assert (Forall (fun c => c <= n)%nat cs) as HFc' by (eapply Forall_impl; [exact HFc|]; simpl; lia).
  destruct (target_rows_ok n bs target (cb_target _ _ _ _ _ Hb)) as (Hlt & _ & Htat).
  assert (accepted_entries (imap (index_row n) cs) = kept_index n cs) as Hent by apply (index_rows_entries n cs 0).
  destruct (free_unaccepted_ok n v batch target hidden t g a held last fresh cs (kept_index n cs) (map (fun c => Z.of_nat c - 1) cs) Hb Hout Htop Hs Hpl Hfz Hll
              ltac:(lia) HFc) as (a' & kept & Hfree & Hs' & Hpl' & Hkz & Hav).
  destruct (assign_accepted n v batch target hidden pool cs Hb Hout Hrr Hlc HFc') as (tab & Hasg & Htab & Huni & Hsl). fold lens in Hasg, Hsl.
  destruct (output_finished_ok n v batch target hidden reqs cs (predicts out) Hb Hout Hlreq Hlc HFc' Hgp) as (di & loc & Hof & Hdi).
  assert (zlen (ev_retrieve_index v) = Z.of_nat bs) as Hbs by (unfold zlen, bs; by rewrite (cb_bs _ _ _ _ _ Hb)).
  unfold EagleVerify.verify. cbv zeta. rewrite (cb_num _ _ _ _ _ Hb), (cb_steps _ _ _ _ _ Hb), Hbs, (cb_chain _ _ _ _ _ Hb), (cb_bs _ _ _ _ _ Hb). fold bs.
  assert ((zlen (ev_draft_token v) =? Z.of_nat bs * Z.of_nat n) && (zlen target =? Z.of_nat bs * Z.of_nat n) = true) as ->.
  { unfold zlen. rewrite (cb_draft _ _ _ _ _ Hb), (cb_target _ _ _ _ _ Hb). fold bs. rewrite Nat2Z.inj_mul, Z.eqb_refl. done. }
  cbn [res_bind]. rewrite Hk. cbn [res_bind]. rewrite Hloop. cbn [res_bind]. rewrite Hnums, Hent.
  rewrite (gather_kept n (target_rows n bs target) cs (predicts out)) by (lia || (intros i c r Ec Er; rewrite (Hgp i c Ec); f_equal;
    rewrite Htat in Er by (apply lookup_lt_Some in Ec; lia); by injection Er as ->)).
  cbn [res_bind]. rewrite (scatter_kept n (ev_draft_token v) cs) by (done || rewrite (cb_draft _ _ _ _ _ Hb), Hlc; done). cbn [res_bind].
  fold ps in Hfree. rewrite Hfree. cbn [res_bind].
  rewrite (gather_kept n (slot_rows n batch) cs) by (lia || (intros i c r Ec Er; rewrite <- Hcat; apply gather_row_take; [done|done|];
    rewrite Forall_lookup in HFc'; by apply (HFc' i))).
  cbn [res_bind]. rewrite !zip_add_grown. fold lens.
  assert ((ps =? 1) || (ev_topk v =? 1) = true) as -> by (apply orb_true_iff; rewrite !Z.eqb_eq; exact Htop).
  rewrite Hbs in Hasg. rewrite Hasg. cbn [res_bind]. destruct hf.
  - rewrite Hof. cbn [res_bind]. eexists _, reqs, cs, loc, a', tab, kept. cbv zeta. split; [done|]. by split_and!.
  - rewrite (gather_kept n (map (fun i => drop (i * n) hidden) (seq 0 (length cs))) cs hidden) by (by rewrite ?length_map, ?length_seq ||
      (apply gather_hidden_row; [done|rewrite Hlc; apply (cb_hidden _ _ _ _ _ Hb)])).
    cbn [res_bind]. eexists _, reqs, cs, _, a', tab, kept. cbv zeta. split; [done|]. split_and!; try done.
    apply draft_from_all; try done; try lia; [by apply Hnf|rewrite Hlreq; apply (cb_rows _ _ _ _ _ Hb)|].
    cbn [vo_draft_input di_num_accepted_tokens_cpu]. rewrite map_map. apply map_ext. intros c. lia.
Qed.
End Step.
