(* ===== verification/EagleClaims.v ===== *)
(** The properties of a speculative round: [prepare_for_verify], the target's forward pass
    and [verify], for a chain of drafts. *)

From stdpp Require Import strings.
From S2P Require Export EagleStep.
From S2P Require Import Triton KVTable SpecKernels SpecProps SpecInfo.

(** ** Rows that the round leaves alone *)

Lemma to_int32_idem x : to_int32 (to_int32 x) = to_int32 x.
Proof. unfold to_int32. replace ((x + 2 ^ 31) mod 2 ^ 32 - 2 ^ 31 + 2 ^ 31) with ((x + 2 ^ 31) mod 2 ^ 32) by lia. by rewrite Z.mod_mod. Qed.

Lemma entry_row (tab : list (list Z)) i row j x : tab !! i = Some row -> row !! j = Some x -> entry tab (Z.of_nat i) (Z.of_nat j) = Some x.
Proof. intros Hi Hj. unfold entry. rewrite !Nat2Z.id, Hi. done. Qed.

(** Written entries are 32-bit, the others were. *)
Lemma written_table_ok pool tab rows lens nxt out : table_ok pool -> length tab = length (req_to_token pool) ->
  Forall (fun r => zlen r = max_context_len pool) tab -> length lens = length rows -> length nxt = length rows ->
  slices_written (max_context_len pool) (req_to_token pool) tab rows lens nxt out -> table_ok (set_table pool tab).
Proof.
  intros [Hcols Hrows Hint] Hl Hu Ll Ln [Hin Hout]. split; cbn; try done. apply Forall_lookup. intros i row Hi. apply Forall_lookup. intros j x Hj.
  pose proof (entry_row tab i row j x Hi Hj) as Ex. pose proof (lookup_lt_Some _ _ _ Hi). pose proof (lookup_lt_Some _ _ _ Hj).
  pose proof (proj1 (Forall_lookup _ _) Hu i row Hi) as Hz. cbv beta in Hz.
  destruct (decide (Exists (fun q : Z * (Z * Z) => q.1 = Z.of_nat i /\ q.2.1 <= Z.of_nat j < q.2.2) (zip rows (zip lens nxt)))) as [Hd|Hd].
  - apply list.Exists_exists in Hd as ([i' [s e]] & Hq & Hp' & Hse). cbn in Hp', Hse. subst i'. apply list_elem_of_lookup in Hq as (p & Hq).
    apply lookup_zip_Some in Hq as [Hp [Hs He]%lookup_zip_Some]. pose proof (Hin p _ s e (Z.of_nat j - s) Hp Hs He ltac:(lia)) as Ew.
    replace (s + (Z.of_nat j - s)) with (Z.of_nat j) in Ew by lia. rewrite Ex in Ew. destruct (out !! _); [|done]. injection Ew as ->. apply to_int32_idem.
  - assert (entry (req_to_token pool) (Z.of_nat i) (Z.of_nat j) = Some x) as Eo.
    { rewrite <- Ex. symmetry. apply Hout; unfold zlen in *; try lia. intros p s e Hp Hs He Hse. apply Hd, list.Exists_exists.
      exists (Z.of_nat i, (s, e)). split; [|done]. apply (list_elem_of_lookup_2 _ p). apply lookup_zip_Some. split; [done|]. by apply lookup_zip_Some. }
    unfold entry in Eo. rewrite !Nat2Z.id in Eo. destruct (req_to_token pool !! i) as [old|] eqn:Eold; [|done]. cbn in Eo.
    exact (proj1 (Forall_lookup _ _) (proj1 (Forall_lookup _ _) Hint i old Eold) j x Eo).
Qed.

(** The table after the round: every request's accepted slots follow its tokens, and
    nothing outside the columns of the drafts has changed. *)
Definition round_written (w : Z) (tab tab' : list (list Z)) (rows lens drafted new out : list Z) : Prop :=
  (forall p i s e k, rows !! p = Some i -> lens !! p = Some s -> new !! p = Some e -> 0 <= k < e - s ->
     entry tab' i (s + k) = to_int32 <$> out !! Z.to_nat (zsum (take p (zip_with Z.sub new lens)) + k))
  /\ (forall i j, 0 <= i < zlen tab -> 0 <= j < w ->
        (forall p s e, rows !! p = Some i -> lens !! p = Some s -> drafted !! p = Some e -> ~ s <= j < e) -> entry tab' i j = entry tab i j).

Lemma round_written_trans w tab tab1 tab2 rows lens drafted new out0 out : length tab1 = length tab -> length drafted = length lens -> length new = length lens ->
  (forall p e e', new !! p = Some e -> drafted !! p = Some e' -> e <= e') ->
  slices_written w tab tab1 rows lens drafted out0 -> slices_written w tab1 tab2 rows lens new out ->
  round_written w tab tab2 rows lens drafted new out.
Proof.
  intros Hl Hl1 Hl2 Hle [_ H1] [H2 H3]. split; [exact H2|]. intros i j Hi Hj Hno. rewrite H3; [by apply H1| |done|].
  - unfold zlen in *. lia.
  - intros p s e Hp Hs He Hse. destruct (lookup_lt_is_Some_2 drafted p) as [e' He']; [apply lookup_lt_Some in Hs; lia|].
    apply (Hno p s e' Hp Hs He'). specialize (Hle p e e' He He'). lia.
Qed.

Lemma round_undisturbed pool tab rows lens drafted new out h : length tab = length (req_to_token pool) ->
  Forall (fun r => zlen r = max_context_len pool) (req_to_token pool) -> Forall (fun r => zlen r = max_context_len pool) tab ->
  round_written (max_context_len pool) (req_to_token pool) tab rows lens drafted new out -> undisturbed rows lens h ->
  read_row (set_table pool tab) (req_pool_idx (h_req h)) (h_len h) = read_row pool (req_pool_idx (h_req h)) (h_len h).
Proof.
  intros Hl Hu Hu' [_ Hkeep] (i & Hi & Hi0 & Hn0 & Hn). rewrite Hi. unfold read_row, row_at. cbn [req_to_token set_table].
  unfold zlen. rewrite Hl. fold (zlen (req_to_token pool)). destruct (wrap_index _ i) as [j|] eqn:Ej; [|done].
  assert (j = Z.to_nat i /\ i < zlen (req_to_token pool)) as [-> Hlt].
  { unfold wrap_index in Ej. destruct (Z.ltb_spec i 0); [lia|]. destruct (Z.leb_spec 0 i), (Z.ltb_spec i (zlen (req_to_token pool))); simpl in Ej; try done. by injection Ej. }
  destruct (lookup_lt_is_Some_2 (req_to_token pool) (Z.to_nat i)) as [row Hr]; [unfold zlen in Hlt; lia|].
  destruct (lookup_lt_is_Some_2 tab (Z.to_nat i)) as [row' Hr']; [unfold zlen in Hlt; lia|]. rewrite Hr, Hr'. f_equal.
  pose proof (proj1 (Forall_lookup _ _) Hu _ _ Hr) as Hlr. pose proof (proj1 (Forall_lookup _ _) Hu' _ _ Hr') as Hlr'. cbv beta in Hlr, Hlr'.
  rewrite !py_upto_nonneg by lia. apply list_eq. intros j. destruct (decide (j < Z.to_nat (h_len h))%nat) as [Hj|Hj]; [|by rewrite !lookup_take_ge by lia].
  rewrite !lookup_take_lt by done. destruct (decide (Z.of_nat j < max_context_len pool)) as [Hjw|Hjw].
  - assert (entry tab i (Z.of_nat j) = entry (req_to_token pool) i (Z.of_nat j)) as He.
    { apply Hkeep; [lia|lia|]. intros p s e Hp Hs _. specialize (Hn p s Hp Hs). lia. }
    unfold entry in He. rewrite Hr, Hr' in He. simpl in He. by rewrite Nat2Z.id in He.
  - rewrite !(proj2 (lookup_ge_None _ j)) by (unfold zlen in *; lia). done.
Qed.

(** ** The memory check covers the drafts *)

Lemma drafted_pages ps n lens : 1 <= ps ->
  get_num_new_pages (map (fun s => s + Z.of_nat n) lens) ps lens * ps <= ceil_align (Z.of_nat n) ps * zlen lens.
Proof.
  intros Hps. unfold get_num_new_pages, ceil_align. induction lens as [|s lens IH]; [change (zlen (@nil Z)) with 0; by rewrite Z.mul_0_r|]. cbn [map zip_with]. rewrite zsum_cons, zlen_cons.
  pose proof (ceil_div_spec (s + Z.of_nat n) ps ltac:(lia)). pose proof (ceil_div_spec s ps ltac:(lia)). pose proof (ceil_div_spec (Z.of_nat n) ps ltac:(lia)).
  assert ((s + Z.of_nat n + ps - 1) / ps - (s + ps - 1) / ps <= (Z.of_nat n + ps - 1) / ps) by nia. nia.
Qed.

(** [new_tokens_required_next_decode] without overlap is enough for the drafts. *)
Lemma fits_v1 {A} {Alloc : KVAllocator A} cfg (a : A) n lens reqs : algo_is_none (dc_spec cfg) = false -> is_spec_v2 cfg = Ok false ->
  dc_speculative_num_draft_tokens cfg = Some (Z.of_nat n) -> 1 <= kv_page_size a -> length lens = length reqs -> fits cfg a reqs ->
  get_num_new_pages (map (fun s => s + Z.of_nat n) lens) (kv_page_size a) lens * kv_page_size a <= kv_available a.
Proof.
  intros Hnone Hv2 Hn Hps Hl (m & Hm & Hav). unfold new_tokens_required_next_decode in Hm. rewrite Hnone, Hv2, Hn in Hm. cbn [res_bind] in Hm.
  pose proof (drafted_pages (kv_page_size a) n lens Hps) as Hd. assert (zlen lens = zlen reqs) as Hz by (unfold zlen; lia). rewrite Hz in Hd.
  pose proof (zlen_nonneg reqs). set (ps := kv_page_size a) in *.
  assert (ceil_align (Z.of_nat n) ps * zlen reqs <= m) as Hle; [|lia].
  destruct (Z.ltb_spec 1 ps) as [Hgt|Hle1]; cbn [andb] in Hm.
  - destruct (1 <? _); injection Hm as <-; apply Z.mul_le_mono_nonneg_r; lia.
  - assert (ps = 1) as E by lia. injection Hm as <-. rewrite E, ceil_align_one. apply Z.mul_le_mono_nonneg_r; lia.
Qed.

(** ** The round *)

Section Round.
Context {G H : Type} {Gram : GrammarObject G} {T A : Type} {Alloc : KVAllocator A} {Cache : BasePrefixCache T A kva_pool}.
Context (tokenizer : option Tokenizer) (re_search : string -> string -> bool) (think_end_id : option Z).
Context (oob : Z -> Z) (undef : Z) (torch_empty : Z -> list Z) (np2 : Z -> Z) (order : Z -> list Z) (_is_hip : bool) (attn_backend : string).
Context (Hempty : forall n, 0 <= n -> zlen (torch_empty n) = n) (Horder : forall n, Permutation (order n) (zrange 0 n)).
Context (Hnp2 : forall n, n <= np2 n).
Abbreviation prepare := (prepare_for_verify (G := G) (T := T) (A := A) oob torch_empty order _is_hip attn_backend).
Abbreviation verify := (verify (H := H) (A := A) tokenizer re_search think_end_id oob undef torch_empty np2 order).
Abbreviation worker_verify := (worker_verify (G := G) (H := H) (T := T) (A := A) tokenizer re_search think_end_id oob undef torch_empty np2 order _is_hip attn_backend).

(** Every request's row has room for the drafts, and the slot before a partly filled page. *)
Record round_ready (n : nat) (v : EagleVerifyInput) (batch : VerifyBatch G) (target : list Z) (hidden : list H)
    (t : T) (g : tc_ghost) (a : A) (pool : ReqToTokenPool) (held : list Z) : Prop := {
  rd_chain : chain_batch n v batch target hidden;
  rd_requests : Forall (serveable tokenizer) (vb_reqs batch);
  rd_topk : tc_page_size t = 1 \/ ev_topk v = 1;
  rd_table : table_ok pool;
  rd_rows : NoDup (vb_req_pool_indices batch);
  rd_sync : in_sync t g a held;
  rd_entries : Forall2 (draft_entry (tc_page_size t) pool held) (vb_req_pool_indices batch)
    (zip (vb_seq_lens batch) (map (fun s => s + Z.of_nat n) (vb_seq_lens batch)));
}.

(** Rows in range, from the entries. *)
Lemma entries_ready ps pool held (batch : VerifyBatch G) n : table_ok pool -> NoDup (vb_req_pool_indices batch) ->
  length (vb_seq_lens batch) = length (vb_req_pool_indices batch) ->
  Forall2 (draft_entry ps pool held) (vb_req_pool_indices batch) (zip (vb_seq_lens batch) (map (fun s => s + Z.of_nat n) (vb_seq_lens batch))) ->
  rows_ready n batch pool.
Proof.
  intros [Hcols Hu _] Hnd Hl HF. split; [lia|done|done| |].
  - eapply Forall2_Forall_l; [exact HF|]. apply Forall_forall. by intros [c e] _ i (Hi & _).
  - apply Forall_lookup. intros p s Hs. destruct (Forall2_lookup_r _ _ _ p (s, s + Z.of_nat n) HF) as (i & _ & _ & Hb & Hb' & _); [|lia].
    rewrite lookup_zip_with, Hs. simpl. by rewrite list_lookup_fmap, Hs.
Qed.

Lemma prepare_ok n v batch target hidden t g a pool held : round_ready n v batch target hidden t g a pool held ->
  get_num_new_pages (map (fun s => s + Z.of_nat n) (vb_seq_lens batch)) (tc_page_size t) (vb_seq_lens batch) * tc_page_size t <= kv_available a ->
  let lens := vb_seq_lens batch in let drafted := map (fun s => s + Z.of_nat n) lens in
  exists out t' a' g' tab fresh,
    prepare v batch (tc_page_size t) t a pool
    = Ok (MkVerifyBatch (vb_reqs batch) (vb_req_pool_indices batch) lens (vb_seq_lens_cpu batch) (ev_draft_token v) out, t', a', set_table pool tab)
    /\ length out = (length (vb_reqs batch) * n)%nat /\ in_sync t' g' a' (fresh ++ held) /\ tc_page_size t' = tc_page_size t
    /\ placement (tc_page_size t) lens drafted (zip_with (last_entry pool) (vb_req_pool_indices batch) lens) out fresh
    /\ zlen fresh = get_num_new_pages drafted (tc_page_size t) lens * tc_page_size t
    /\ length tab = length (req_to_token pool) /\ Forall (fun r => zlen r = max_context_len pool) tab
    /\ slices_written (max_context_len pool) (req_to_token pool) tab (vb_req_pool_indices batch) lens drafted out
    /\ (forall pool hs, tc_holds t g pool hs -> tc_holds t' g' pool hs).
Proof.
  intros [Hb Hsv Htop Htab Hnd Hs HF] Hm lens drafted. pose proof (cb_lens _ _ _ _ _ Hb) as Hl. pose proof (cb_rows _ _ _ _ _ Hb) as Hr.
  fold lens in Hl, HF, Hm. fold drafted in HF, Hm. pose proof Hs as (Hok & _ & Hpg).
  destruct (draft_slots_ok oob torch_empty order _is_hip attn_backend Hempty Horder t g a held pool (vb_req_pool_indices batch) lens drafted Htab Hs HF)
    as (out & t' & a' & g' & fresh & Hrun & Hlo & Hs' & Hpl & Hfz & Hk & Hpt); [unfold drafted; by rewrite length_map|lia|done|].
  assert (zsum (zip_with Z.sub drafted lens) = Z.of_nat (length lens) * Z.of_nat n) as Hz.
  { unfold drafted. clear. induction lens as [|s lens IH]; [done|]. cbn [map zip_with length]. rewrite zsum_cons, IH. lia. }
  rewrite Hpg in Hrun. unfold prepare_for_verify. cbv zeta. rewrite (cb_num _ _ _ _ _ Hb). fold lens. fold drafted.
  assert (zlen (ev_draft_token v) = zsum (zip_with Z.sub drafted lens)) as -> by (rewrite Hz; unfold zlen; rewrite (cb_draft _ _ _ _ _ Hb); lia).
  setoid_rewrite Hrun. cbn [res_bind]. pose proof (entries_ready _ _ _ batch n Htab Hnd (eq_trans Hl (eq_sym Hr)) HF) as [Hcols Hu _ Hrange Hroom].
  assert (zlen (vb_reqs batch) = zlen (vb_req_pool_indices batch)) as -> by (unfold zlen; lia).
  destruct (assign_func_ok oob order pool (vb_req_pool_indices batch) lens drafted out) as (tab & -> & Hlt & Hut & Hsl); try done; try lia.
  { unfold drafted. rewrite length_map. lia. }
  { intros p s e Hs1 He. unfold drafted in He. rewrite list_lookup_fmap, Hs1 in He. injection He as <-. rewrite Forall_lookup in Hroom. destruct (Hroom p s Hs1). lia. }
  cbn [res_bind]. exists out, t', a', g', tab, fresh. split; [done|]. split_and!; try done.
  unfold zlen in Hlo. lia.
Qed.

(** The whole round. *)
Lemma round_ok forward n v batch target hidden t g a pool held : round_ready n v batch target hidden t g a pool held ->
  get_num_new_pages (map (fun s => s + Z.of_nat n) (vb_seq_lens batch)) (tc_page_size t) (vb_seq_lens batch) * tc_page_size t <= kv_available a ->
  (forall loc, forward (MkVerifyBatch (vb_reqs batch) (vb_req_pool_indices batch) (vb_seq_lens batch) (vb_seq_lens_cpu batch) (ev_draft_token v) loc) = (target, hidden)) ->
  let lens := vb_seq_lens batch in let ps := tc_page_size t in let last := zip_with (last_entry pool) (vb_req_pool_indices batch) lens in
  exists out reqs cs loc t' g' a' tab acc kept,
    worker_verify forward v batch ps t a pool
    = Ok (out, MkVerifyBatch reqs (vb_req_pool_indices batch) (grown lens cs) (grown (vb_seq_lens_cpu batch) cs) (ev_draft_token v) loc,
          t', a', set_table pool tab)
    /\ length reqs = length (vb_reqs batch) /\ length cs = length (vb_reqs batch)
    /\ (forall i r, vb_reqs batch !! i = Some r -> exists r' c, reqs !! i = Some r' /\ cs !! i = Some c
          /\ served tokenizer re_search think_end_id n v target i r r' c)
    /\ draft_from (vo_draft_input out) batch cs (target_rows n (length (vb_reqs batch)) target) reqs
    /\ vo_verified_id out = concat (zip_with take cs (target_rows n (length (vb_reqs batch)) target))
    /\ in_sync t' g' a' (kept ++ held) /\ placement ps lens (grown lens cs) last acc kept
    /\ zlen kept = get_num_new_pages (grown lens cs) ps lens * ps
    /\ round_written (max_context_len pool) (req_to_token pool) tab (vb_req_pool_indices batch) lens (map (fun s => s + Z.of_nat n) lens) (grown lens cs) acc
    /\ (forall hs, Forall (undisturbed (vb_req_pool_indices batch) lens) hs -> tc_holds t g pool hs -> tc_holds t' g' (set_table pool tab) hs)
    /\ tc_page_size t' = ps /\ table_ok (set_table pool tab) /\ length tab = length (req_to_token pool).
Proof.
  intros Hrd Hm Hfw lens ps last. pose proof Hrd as [Hb Hsv Htop Htab Hnd Hs HF].
  destruct (prepare_ok n v batch target hidden t g a pool held Hrd Hm) as (loc & t1 & a1 & g1 & tab1 & fresh & Hprep & Hll & Hs1 & Hpt & Hpl & Hfz & Hlt1 & Hu1 & Hsl1 & Hk).
  unfold EagleVerify.worker_verify. fold ps in Hprep. rewrite Hprep. cbn [res_bind]. rewrite Hfw. set (batch1 := MkVerifyBatch _ _ _ _ _ _).
  pose proof (cb_lens _ _ _ _ _ Hb) as Hl. pose proof (cb_rows _ _ _ _ _ Hb) as Hr. pose proof Htab as [Hcols Hu Hint].
  assert (chain_batch n v batch1 target hidden) as Hb1 by (destruct Hb; by split).
  assert (rows_ready n batch1 (set_table pool tab1)) as Hrr.
  { destruct (entries_ready _ _ _ batch n Htab Hnd (eq_trans Hl (eq_sym Hr)) HF) as [H1 _ H2 H3 H4]. split; try done.
    eapply Forall_impl; [exact H3|]. intros i Hi. cbn [req_to_token set_table]. unfold zlen in *. lia. }
  destruct (verify_chain tokenizer re_search think_end_id oob undef torch_empty np2 order Hempty Horder Hnp2 n v batch1 target hidden t1 g1 a1 held last fresh
    (set_table pool tab1) Hb1 Hll Hrr Hsv) as (out & reqs & cs & loc2 & a2 & tab2 & kept & Hv & Hlr & Hlc & Hserved & Hdi & Hvid & _ & Hs2 & Hpl2 & Hkz & _ & Hlt2 & Hu2 & Hsl2);
    try (rewrite ?Hpt; done).
  { unfold last, lens. rewrite length_zip_with. change (vb_seq_lens batch1) with (vb_seq_lens batch). lia. }
  cbv zeta in Hv. cbn [batch1 vb_req_pool_indices vb_seq_lens vb_seq_lens_cpu vb_input_ids vb_reqs] in *. rewrite Hpt in Hv, Hpl2, Hkz. fold ps lens in Hv, Hpl2, Hkz.
  rewrite Hv. cbn [res_bind].
  assert (round_written (max_context_len pool) (req_to_token pool) tab2 (vb_req_pool_indices batch) lens (map (fun s => s + Z.of_nat n) lens) (grown lens cs)
    (concat (zip_with take cs (slot_rows n batch1)))) as Hrw.
  { eapply (round_written_trans _ _ tab1); [done|by rewrite length_map|apply length_grown; fold lens in Hl; lia| |exact Hsl1|exact Hsl2].
    intros p e e' He He'. unfold grown in He. rewrite lookup_zip_with in He. rewrite list_lookup_fmap in He'. destruct (lens !! p) as [s|] eqn:Es; [|done].
    simpl in He, He'. destruct (cs !! p) as [c|] eqn:Ec; [|done]. simpl in He. injection He as <-. injection He' as <-.
    destruct (lookup_lt_is_Some_2 (vb_reqs batch) p) as [r Er]; [apply lookup_lt_Some in Ec; lia|].
    destruct (Hserved p r Er) as (r' & c' & _ & Ec' & (a0 & hit & _ & Hc1 & Hc2 & _)). assert (c' = c) as -> by congruence. lia. }
  eexists out, reqs, cs, loc2, t1, g1, a2, tab2, _, kept. split; [done|]. split_and!; try done.
  - intros hs Hun Hh. eapply tc_holds_rows; [|by apply Hk]. eapply Forall_impl; [exact Hun|]. intros h Hd.
    eapply round_undisturbed; [cbn in Hlt2; lia|done|exact Hu2|exact Hrw|done].
  - assert (table_ok (set_table pool tab1)) as Ht1 by (eapply written_table_ok; [done|done|exact Hu1| | |exact Hsl1]; rewrite ?length_map; fold lens in Hl |- *; lia).
    assert (length (grown lens cs) = length lens) as Hgl by (apply length_grown; fold lens in Hl; lia).
    eapply (written_table_ok (set_table pool tab1) tab2); [exact Ht1|exact Hlt2|exact Hu2| | |exact Hsl2]; fold lens in Hl |- *; lia.
  - cbn in Hlt2. lia.
Qed.
End Round.

(** The memory check of the scheduler covers the round. *)
Lemma round_memory {G H T A : Type} {Gram : GrammarObject G} {Alloc : KVAllocator A} {Cache : BasePrefixCache T A kva_pool}
    tokenizer cfg n v (batch : VerifyBatch G) target (hidden : list H) (t : T) g (a : A) pool held :
  algo_is_none (dc_spec cfg) = false -> is_spec_v2 cfg = Ok false -> dc_speculative_num_draft_tokens cfg = Some (Z.of_nat n) ->
  round_ready tokenizer n v batch target hidden t g a pool held -> fits cfg a (map vr_req (vb_reqs batch)) ->
  get_num_new_pages (map (fun s => s + Z.of_nat n) (vb_seq_lens batch)) (tc_page_size t) (vb_seq_lens batch) * tc_page_size t <= kv_available a.
Proof.
  intros H1 H2 H3 [Hb _ _ _ _ (Hok & _ & Hpg) _] Hf. rewrite <- Hpg. apply (fits_v1 cfg a n _ (map vr_req (vb_reqs batch))); try done.
  - rewrite Hpg. exact (tc_page_size_pos t g Hok).
  - rewrite length_map. apply (cb_lens _ _ _ _ _ Hb).
Qed.

(** The tokens that the kernel accepts for one request are those of greedy decoding. *)
Lemma accepted_run {G : Type} {Gram : GrammarObject G} tokenizer re_search think_end_id model n v target i (r : VerifyReq G) : serveable tokenizer r -> (1 <= n)%nat ->
  zlen (row (Z.of_nat n) target (Z.of_nat i)) = Z.of_nat n -> zlen (row (Z.of_nat n) (ev_draft_token v) (Z.of_nat i)) = Z.of_nat n ->
  (forall k x, row (Z.of_nat n) target (Z.of_nat i) !! k = Some x ->
     x = model (origin_input_ids (sr_req (vr_req r)) ++ output_ids (sr_req (vr_req r)) ++ take k (drop 1 (row (Z.of_nat n) (ev_draft_token v) (Z.of_nat i))))) ->
  let k := S (accepted_of (Z.of_nat n) (ev_draft_token v) target (Z.of_nat i)) in
  accept_tokens tokenizer re_search think_end_id (take k (row (Z.of_nat n) target (Z.of_nat i))) r = greedy_decode tokenizer re_search think_end_id model k r.
Proof.
  intros Hs Hn Ht Hd Hm k. assert (take k (row (Z.of_nat n) target (Z.of_nat i))
    = greedy model (origin_input_ids (sr_req (vr_req r)) ++ output_ids (sr_req (vr_req r))) k) as ->; [|by apply accept_greedy].
  unfold k, accepted_of. apply accepted_is_greedy.
  - rewrite length_drop. unfold zlen in *. lia.
  - intros j x Hj. rewrite (Hm j x Hj). by rewrite <- app_assoc.
Qed.

(** What the loop did to one request is greedy decoding. *)
Lemma served_greedy {G : Type} {Gram : GrammarObject G} tokenizer re_search think_end_id model n v target i (r r' : VerifyReq G) c :
  serveable tokenizer r -> served tokenizer re_search think_end_id n v target i r r' c ->
  zlen (row (Z.of_nat n) target (Z.of_nat i)) = Z.of_nat n -> zlen (row (Z.of_nat n) (ev_draft_token v) (Z.of_nat i)) = Z.of_nat n ->
  (forall k x, row (Z.of_nat n) target (Z.of_nat i) !! k = Some x ->
     x = model (origin_input_ids (sr_req (vr_req r)) ++ output_ids (sr_req (vr_req r)) ++ take k (drop 1 (row (Z.of_nat n) (ev_draft_token v) (Z.of_nat i))))) ->
  exists r1 hit, let k := S (accepted_of (Z.of_nat n) (ev_draft_token v) target (Z.of_nat i)) in
    (1 <= c <= k)%nat /\ (k <= n)%nat /\ greedy_decode tokenizer re_search think_end_id model k r = Ok (r1, c, hit) /\ finished (vr_finish r1) = hit
    /\ vr_finish r' = vr_finish r1
    /\ sr_req (vr_req r') = sr_req (set_kv_lens (vr_req r1) (kv_committed_len (sr_req (vr_req r)) + Z.of_nat c) (kv_committed_len (sr_req (vr_req r)) + Z.of_nat c)).
Proof.
  intros Hs (a & hit & -> & H1 & H2 & (r1 & Hacc & Hcm) & Hfin & _) Ht Hd Hm. set (k := S (accepted_of _ _ _ _)) in *.
  pose proof (accepted_run tokenizer re_search think_end_id model n v target i r Hs ltac:(lia) Ht Hd Hm) as Hrun. cbv zeta in Hrun. fold k in Hrun.
  pose proof Hacc as Hacc'. rewrite Hrun in Hacc'. exists r1, hit. cbv zeta.
  unfold commit_accepted in Hcm. destruct (update_spec_acceptance_histogram _ _) as [h|]; [|done]. cbn [res_bind] in Hcm. injection Hcm as <-.
  cbn [vr_finish vr_req] in *. split_and!; try done; try lia.
  assert (same_request r r1) as Hsame.
  { destruct (accept_tokens_ok tokenizer re_search think_end_id (take k (row (Z.of_nat n) target (Z.of_nat i))) r Hs) as (r2 & c2 & h2 & E & Hsm & _).
    rewrite Hacc in E. by injection E as <- _ _. }
  by rewrite (sa_committed _ _ Hsame).
Qed.

(** A speculative round is greedy decoding.  For every running batch that passed the
    memory check, when the target's choice at every draft is that of [model] after the request's
    tokens and the drafts before it, [EAGLEWorker.verify] returns, and every request is what
    decoding one token at a time with [model] makes of it, with the finish check after every
    token: as many steps as drafts agree with [model], plus one, or fewer when the request
    finishes first.  Its KV length advances by the number of tokens it got. *)
Theorem speculative_round_is_greedy {G H T A : Type} {Gram : GrammarObject G} {Alloc : KVAllocator A} {Cache : BasePrefixCache T A kva_pool}
    tokenizer re_search think_end_id oob undef torch_empty np2 order is_hip attn_backend cfg model forward
    n v (batch : VerifyBatch G) target (hidden : list H) (t : T) g (a : A) pool held
    (Hempty : forall n, 0 <= n -> zlen (torch_empty n) = n) (Horder : forall n, Permutation (order n) (zrange 0 n)) (Hnp2 : forall n, n <= np2 n)
    (Hnone : algo_is_none (dc_spec cfg) = false) (Hv1 : is_spec_v2 cfg = Ok false) (Hnum : dc_speculative_num_draft_tokens cfg = Some (Z.of_nat n))
    (Hready : round_ready tokenizer n v batch target hidden t g a pool held) (Hfits : fits cfg a (map vr_req (vb_reqs batch)))
    (Hforward : forall loc, forward (MkVerifyBatch (vb_reqs batch) (vb_req_pool_indices batch) (vb_seq_lens batch) (vb_seq_lens_cpu batch)
                  (ev_draft_token v) loc) = (target, hidden))
    (Hmodel : forall i r k x, vb_reqs batch !! i = Some r -> row (Z.of_nat n) target (Z.of_nat i) !! k = Some x ->
       x = model (origin_input_ids (sr_req (vr_req r)) ++ output_ids (sr_req (vr_req r))
                  ++ take k (drop 1 (row (Z.of_nat n) (ev_draft_token v) (Z.of_nat i))))) :
  exists out batch' t' a' pool',
    worker_verify tokenizer re_search think_end_id oob undef torch_empty np2 order is_hip attn_backend forward v batch (tc_page_size t) t a pool
    = Ok (out, batch', t', a', pool')
    /\ length (vb_reqs batch') = length (vb_reqs batch)
    /\ forall i r, vb_reqs batch !! i = Some r -> exists r' r1 c hit,
       let k := S (accepted_of (Z.of_nat n) (ev_draft_token v) target (Z.of_nat i)) in
       let new_len := kv_committed_len (sr_req (vr_req r)) + Z.of_nat c in
       vb_reqs batch' !! i = Some r' /\ (1 <= c <= k)%nat /\ (k <= n)%nat
       /\ greedy_decode tokenizer re_search think_end_id model k r = Ok (r1, c, hit) /\ finished (vr_finish r1) = hit
       /\ vr_finish r' = vr_finish r1 /\ sr_req (vr_req r') = sr_req (set_kv_lens (vr_req r1) new_len new_len)
       /\ vb_seq_lens batch' !! i = (fun s => s + Z.of_nat c) <$> vb_seq_lens batch !! i.
Proof.
  pose proof (round_memory _ _ _ _ _ _ _ _ _ _ _ _ Hnone Hv1 Hnum Hready Hfits) as Hm. pose proof (rd_chain _ _ _ _ _ _ _ _ _ _ _ Hready) as Hb.
  destruct (round_ok tokenizer re_search think_end_id oob undef torch_empty np2 order is_hip attn_backend Hempty Horder Hnp2 forward n v batch target hidden
    t g a pool held Hready Hm Hforward) as (out & reqs & cs & loc & t' & g' & a' & tab & acc & kept & E & Hl & Hlc & Hserved & _).
  eexists out, _, t', a', _. split; [exact E|]. split; [done|]. cbn [vb_reqs vb_seq_lens]. intros i r Er.
  destruct (Hserved i r Er) as (r' & c & Er' & Ec & Hs). pose proof (lookup_lt_Some _ _ _ Er) as Hi.
  pose proof (cb_target _ _ _ _ _ Hb) as Htg. pose proof (cb_draft _ _ _ _ _ Hb) as Hdr.
  destruct (served_greedy tokenizer re_search think_end_id model n v target i r r' c) as (r1 & hit & H1 & H2 & H3 & H4 & H5 & H6); [|done|..].
  - apply (proj1 (Forall_lookup _ _) (rd_requests _ _ _ _ _ _ _ _ _ _ _ Hready) i r Er).
  - apply zlen_row; unfold zlen; nia.
  - apply zlen_row; unfold zlen; nia.
  - intros k x Hx. by apply (Hmodel i).
  - exists r', r1, c, hit. cbv zeta. split_and!; try done; try lia. unfold grown. rewrite lookup_zip_with.
    destruct (vb_seq_lens batch !! i); [|done]. simpl. by rewrite Ec.
Qed.


(** *** Sample: one request, two drafts of which the target agrees with the first. *)

#[local] Instance paged5 : KVAllocator allocator := paged_allocator (fun i => i) 0 zero_fill zero_fill_len.
#[local] Instance chunk5 : BasePrefixCache ChunkCache allocator paged_pool := chunk_prefix_cache false paged_pool.
#[local] Program Instance no_grammar : GrammarObject Empty_set := {
  accept_token g _ := match g with end;
  rollback g _ := match g with end;
  is_terminated g := match g with end;
  vocab_mask g := match g with end
}.
Next Obligation. by intros []. Qed.

Definition round_req : VerifyReq Empty_set := MkVerifyReq req_a (ex_finish 10) None false false 0 0 [].
Definition round_batch : VerifyBatch Empty_set := MkVerifyBatch [round_req] [1] [2] [2] [9] [].
Definition round_input : EagleVerifyInput := MkVerifyInput [9; 10; 99] [[0; 1; 2]] 2 1 3.
Definition round_cfg : DecodeConfig :=
  MkDecodeConfig (dc_sched draft_cfg) (Builtin EAGLE) false (Some 2) (Some 1) (Some 3) (PFloat (2 ^ 1060)) (PFloat (2 ^ 1070)) false.

Lemma round_sample_ready : round_ready (Alloc := paged5) (Cache := chunk5) None 3 round_input round_batch [10; 11; 100] [tt; tt; tt]
  (MkChunkCache 2) tt draft_pool draft_rows [2; 3].
Proof.
  split; try done.
  - split; simpl; try done; lia.
  - apply Forall_singleton. split; [done|]. intros _. split; done.
  - by right.
  - split; [vm_compute; discriminate|repeat constructor|repeat constructor].
  - repeat constructor. by intros ?%elem_of_nil.
  - split_and!; [simpl; lia| |done]. exists [1]. split_and!; try done. vm_compute. symmetry. apply (Permutation_cons_append [2; 3; 4] 1).
  - constructor; [|constructor]. split_and!; simpl; try (vm_compute; discriminate); try done; lia.
Qed.

(** The counters include the drafts after the token that finished the request: with stop
    token 7 the request gets one token of three, and two accepted drafts are counted. *)
Lemma accepted_drafts_past_finish : exists r rows,
  accept_reqs None (fun _ _ => false) None [7; 8; 9] [round_req] [[0; 1; 2]] = Ok ([r], rows, [1%nat], true)
  /\ output_ids (sr_req (vr_req r)) = [8; 9; 7] /\ vr_spec_accepted_drafts r = 2 /\ vr_spec_acceptance_histogram r = [0; 0; 1].
Proof. eexists _, _. split; [vm_compute; reflexivity|]. by vm_compute. Qed.

Definition round_lens {X Y Z' : Type} (r : res (X * VerifyBatch Empty_set * Y * Z' * ReqToTokenPool)) : option (list Z) :=
  match r with Ok (_, b, _, _, _) => Some (vb_seq_lens b) | Raise _ => None end.

Lemma round_sample_lens : round_lens (worker_verify (Alloc := paged5) (Cache := chunk5) None (fun _ _ => false) None (fun i => i) 0 zero_fill
  next_power_of_2 (fun n => zrange 0 n) false "ascend" (fun _ => ([10; 11; 100], [tt; tt; tt])) round_input round_batch 2
  (MkChunkCache 2) draft_pool draft_rows) = Some [4].
Proof. vm_compute. reflexivity. Qed.

Lemma speculative_round_is_greedy_witness : exists out batch' t' a' pool' r',
  worker_verify (Alloc := paged5) (Cache := chunk5) None (fun _ _ => false) None (fun i => i) 0 zero_fill next_power_of_2 (fun n => zrange 0 n) false "ascend"
    (fun _ => ([10; 11; 100], [tt; tt; tt])) round_input round_batch 2 (MkChunkCache 2) draft_pool draft_rows = Ok (out, batch', t', a', pool')
  /\ vb_reqs batch' !! 0%nat = Some r' /\ output_ids (sr_req (vr_req r')) = [8; 9; 10; 11] /\ vb_seq_lens batch' !! 0%nat = Some 4.
Proof.
  destruct (speculative_round_is_greedy (Alloc := paged5) (Cache := chunk5) None (fun _ _ => false) None (fun i => i) 0 zero_fill next_power_of_2 (fun n => zrange 0 n)
    false "ascend" round_cfg count_model (fun _ => ([10; 11; 100], [tt; tt; tt])) 3 round_input round_batch [10; 11; 100] [tt; tt; tt]
    (MkChunkCache 2) tt draft_pool draft_rows [2; 3]) as (out & batch' & t' & a' & pool' & E & _ & Hr).
  - exact zero_fill_len.
  - intros n. apply Permutation_refl.
  - exact next_power_of_2_ge.
  - reflexivity.
  - reflexivity.
  - reflexivity.
  - exact round_sample_ready.
  - eexists. split; [reflexivity|]. vm_compute. discriminate.
  - reflexivity.
  - intros [|i] r k x [= <-] Hx. do 3 (destruct k as [|k]; [injection Hx as <-; reflexivity|]). done.
  - destruct (Hr 0%nat round_req eq_refl) as (r' & r1 & c & hit & Hr' & _ & _ & Hg & _ & _ & Hs & Hl).
    exists out, batch', t', a', pool', r'. split; [exact E|]. split; [exact Hr'|]. vm_compute in Hg. injection Hg as <- <- <-. rewrite Hs, Hl. by split.
Defined.

