(* ===== verification/DraftKernels.v ===== *)
(** The kernels that lay out the KV slots of draft tokens: [assign_draft_cache_locs] and the
    helpers around it in [speculative/spec_utils.py] and [speculative/eagle_worker.py].

    With one draft per step, or pages of one slot, every request's slots go to its row of the
    table one after the other.  With several drafts per step and larger pages, every branch
    starts on a page of its own, so the last partial page of the prefix is duplicated, and the
    slots of the drafts alone are moved to the front of [out_cache_loc]. *)

From stdpp Require Import strings.
From S2P Require Export DraftStep.
From S2P Require Import Triton KVTable SpecKernels SpecProps SpecInfo.

(** The buffers the kernel writes. *)
Record draft_bufs : Type := MkDraftBufs {
  db_table : list Z;
  db_out : list Z;
  db_source : list Z;
  db_target : list Z
}.

Section Kernel.
Context (oob : Z -> Z) (undef : Z).

(** Part 2 for one branch: the slots of the partial page and of its copy. *)
Definition duplicate_page (tab : list Z) (base prefix_base last_page_len num_new_pages page_size topk_id : Z) (bufs : list Z * list Z)
    : option (list Z * list Z) :=
  let '(source, target) := bufs in
  let ptr := base + (topk_id - 1) * last_page_len in
  source ← tl_store source page_size (fun o => ptr + o) (fun o => to_int32 (tl_load oob tab (prefix_base + o))) (fun o => o <? last_page_len);
  target ← tl_store target page_size (fun o => ptr + o)
             (fun o => to_int32 (tl_load oob tab (prefix_base + topk_id * num_new_pages * page_size + o))) (fun o => o <? last_page_len);
  Some (source, target).

Definition assign_draft_cache_locs (req_pool_indices seq_lens extend_lens num_new_pages_per_topk last_page_lens_cumsum : list Z)
    (duplicate_cache_len pool_len topk speculative_num_steps page_size bs_upper iter_upper pid : Z) (st : draft_bufs) : option draft_bufs :=
  let BLOCK_SIZE := 128 in
  let '(copy_len, out_cache_ptr) :=
    if (page_size =? 1) || (topk =? 1) then (topk * speculative_num_steps, pid * topk * speculative_num_steps)
    else (tl_load oob extend_lens pid, zsum (lanes oob undef extend_lens 0 bs_upper (fun o => o <? pid))) in
  let kv_start := tl_load oob seq_lens pid in
  let token_pool := tl_load oob req_pool_indices pid * pool_len in
  let num_loop := cdiv copy_len BLOCK_SIZE in
  tab ← tl_for (zrange 0 num_loop)
          (fun i b =>
             tl_store b BLOCK_SIZE (fun o => token_pool + kv_start + (o + i * BLOCK_SIZE))
               (fun o => to_int32 (tl_load oob (db_out st) (out_cache_ptr + (o + i * BLOCK_SIZE))))
               (fun o => o + i * BLOCK_SIZE <? copy_len)) (db_table st);
  if negb (page_size =? 1) && negb (topk =? 1) && (0 <? duplicate_cache_len) then
    let prefix_len := tl_load oob seq_lens pid in
    let last_page_len := prefix_len mod page_size in
    let num_new_pages := tl_load oob num_new_pages_per_topk pid in
    let prefix_base := token_pool + prefix_len - last_page_len in
    let base := (topk - 1) * (tl_load oob last_page_lens_cumsum pid - last_page_len) in
    bufs ← tl_run (zrange 1 topk) (duplicate_page tab base prefix_base last_page_len num_new_pages page_size) (db_source st, db_target st);
    let ptr_offset := pid * speculative_num_steps * topk in
    out ← tl_for (zrange 0 topk)
            (fun topk_id b =>
               tl_store b iter_upper (fun o => ptr_offset + topk_id * speculative_num_steps - last_page_len + o)
                 (fun o => tl_load oob tab (prefix_base + topk_id * num_new_pages * page_size + o))
                 (fun o => (o <? speculative_num_steps + last_page_len) && (last_page_len <=? o))) (db_out st);
    Some (MkDraftBufs tab out bufs.1 bufs.2)
  else Some (MkDraftBufs tab (db_out st) (db_source st) (db_target st)).
End Kernel.

(** ** Lengths and the last slot *)

Section Lens.
Context (oob : Z -> Z) (torch_empty : Z -> list Z) (order : Z -> list Z) (_is_hip : bool) (attn_backend : string).

Definition get_last_loc_large_page_size_top_k_1 (pool : ReqToTokenPool) (req_pool_indices seq_lens : list Z) (speculative_num_steps : Z)
    : res (list Z * list Z * list Z) :=
  let prefix_lens := seq_lens in
  let seq_lens := map (fun s => s + speculative_num_steps) prefix_lens in
  let* last_loc := get_last_loc oob torch_empty (order (cdiv (zlen prefix_lens) 256)) _is_hip false attn_backend pool req_pool_indices prefix_lens in
  Ok (prefix_lens, seq_lens, last_loc).

(** Returns [prefix_lens], [seq_lens], [last_loc], [num_new_pages_per_topk], [extend_lens]
    and [last_page_lens]. *)
Definition get_last_loc_large_page_size_large_top_k (pool : ReqToTokenPool) (req_pool_indices seq_lens : list Z)
    (speculative_num_steps topk page_size : Z) : res (list Z * list Z * list Z * list Z * list Z * list Z) :=
  let prefix_lens := seq_lens in
  let last_page_lens := map (fun s => s mod page_size) prefix_lens in
  let num_new_pages_per_topk := map (fun l => (l + speculative_num_steps + page_size - 1) / page_size) last_page_lens in
  let seq_lens := zip_with (fun p n => p / page_size * page_size + n * (page_size * topk)) prefix_lens num_new_pages_per_topk in
  let extend_lens := zip_with Z.sub seq_lens prefix_lens in
  let* last_loc := get_last_loc oob torch_empty (order (cdiv (zlen prefix_lens) 256)) _is_hip false attn_backend pool req_pool_indices prefix_lens in
  Ok (prefix_lens, seq_lens, last_loc, num_new_pages_per_topk, extend_lens, last_page_lens).
End Lens.

(** ** One draft per step, or pages of one slot *)

Lemma zsum_const {A} (c : Z) (l : list A) : zsum (map (fun _ => c) l) = zlen l * c.
Proof. induction l as [|x l IH]; [done|]. cbn [map]. rewrite zsum_cons, IH, zlen_cons. lia. Qed.

Section Chain.
Context (oob : Z -> Z) (undef : Z) (idx lens ext_ npt cum : list Z) (dup pool_len topk steps page_size up iup : Z).
Context (Hchain : page_size = 1 \/ topk = 1) (Hnn : 0 <= topk * steps) (Hlen : length lens = length idx).
Abbreviation grown := (map (fun s => s + topk * steps) lens).
Abbreviation kernel := (assign_draft_cache_locs oob undef idx lens ext_ npt cum dup pool_len topk steps page_size up iup).

Lemma draft_ext p : (p <= length idx)%nat -> zsum (take p (ext lens grown)) = Z.of_nat p * (topk * steps).
Proof.
  intros Hp. assert (ext lens grown = map (fun _ => topk * steps) lens) as ->.
  { unfold ext. clear. induction lens as [|s l IH]; [done|]. cbn [map zip_with]. rewrite IH. f_equal. lia. }
  rewrite firstn_map, zsum_const. unfold zlen. rewrite length_take. f_equal. lia.
Qed.

(** The kernel writes what [assign_req_to_token_pool] writes. *)
Lemma draft_body rows p i s b out src tgt : idx !! p = Some i -> lens !! p = Some s ->
  0 <= i < rows -> 0 <= s -> s + topk * steps <= pool_len -> zlen b = rows * pool_len -> zlen idx <= up -> zlen out = zlen idx * (topk * steps) ->
  kernel (Z.of_nat p) (MkDraftBufs b out src tgt)
  = (b' ← assign_req_to_token_pool oob idx lens grown out pool_len up (Z.of_nat p) b; Some (MkDraftBufs b' out src tgt)).
Proof.
  intros Hi Hs Hr Hs0 Hpl Hb Hup Hout. pose proof (lookup_lt_Some _ _ _ Hi) as Hp.
  assert (lookup (K := nat) p grown = Some (s + topk * steps)) as He by (by rewrite list_lookup_fmap, Hs).
  pose proof (draft_ext p ltac:(lia)) as Hz. assert (Z.of_nat p + 1 <= zlen idx) as Hpz by (unfold zlen; lia).
  rewrite (assign_body oob idx lens grown out pool_len up rows Hlen ltac:(rewrite length_map; exact Hlen) Hup p i s _ b Hi Hs He)
    by (rewrite ?Hz; done || nia). rewrite Hz.
  unfold assign_draft_cache_locs. cbn [db_table db_out db_source db_target].
  replace ((page_size =? 1) || (topk =? 1)) with true by (destruct Hchain as [-> | ->]; by rewrite ?orb_true_r). cbv beta iota zeta.
  replace (negb (page_size =? 1) && negb (topk =? 1)) with false by (destruct Hchain as [-> | ->]; by rewrite ?andb_false_r). cbn [andb].
  rewrite (load_lookup oob _ _ _ Hi), (load_lookup oob _ _ _ Hs).
  replace (s + topk * steps - s) with (topk * steps) by lia.
  rewrite <- (tl_load_slice oob), map_map by nia.
  rewrite (tl_for_blocks b (i * pool_len + s) _ _ _ (fun o => to_int32 (tl_load oob out (Z.of_nat p * (topk * steps) + o))) (topk * steps)); [done|..].
  - intros; lia.
  - intros j o. do 2 f_equal. lia.
  - done.
  - nia.
  - pose proof (cdiv_covers (topk * steps) 128). lia.
  - lia.
  - nia.
Qed.

Lemma draft_run rows order b out src tgt : Forall (fun q => 0 <= q < zlen idx) order -> Forall (fun i => 0 <= i < rows) idx ->
  Forall (fun s => 0 <= s /\ s + topk * steps <= pool_len) lens -> zlen b = rows * pool_len -> zlen idx <= up ->
  zlen out = zlen idx * (topk * steps) ->
  tl_run order kernel (MkDraftBufs b out src tgt)
  = (b' ← tl_run order (assign_req_to_token_pool oob idx lens grown out pool_len up) b; Some (MkDraftBufs b' out src tgt)).
Proof.
  intros Hord Hrows Hroom Hb Hup Hout. revert b Hb. induction Hord as [|q order Hq _ IH]; intros b Hb; [done|]. cbn [tl_run].
  unfold zlen in Hq. destruct (lookup_lt_is_Some_2 idx (Z.to_nat q)) as [i Hi]; [lia|].
  destruct (lookup_lt_is_Some_2 lens (Z.to_nat q)) as [s Hs]; [lia|]. rewrite Forall_lookup in Hrows. pose proof (Hrows _ _ Hi) as Hir.
  pose proof (proj1 (Forall_lookup _ _) Hroom _ _ Hs) as [Hs0 Hse]. cbv beta in Hs0, Hse.
  pose proof (draft_body rows (Z.to_nat q) i s b out src tgt Hi Hs Hir Hs0 Hse Hb Hup Hout) as E. rewrite Z2Nat.id in E by lia. rewrite E.
  assert (lookup (K := nat) (Z.to_nat q) grown = Some (s + topk * steps)) as He by (by rewrite list_lookup_fmap, Hs).
  pose proof (draft_ext (Z.to_nat q) ltac:(lia)) as Hz. assert (q + 1 <= zlen idx) as Hqz by (unfold zlen; lia).
  pose proof (assign_body oob idx lens grown out pool_len up rows Hlen ltac:(rewrite length_map; exact Hlen) Hup (Z.to_nat q) i s _ b Hi Hs He) as Ea.
  rewrite Z2Nat.id in Ea by lia. rewrite Ea by (rewrite ?Hz, ?Z2Nat.id; done || nia). rewrite Hz, Z2Nat.id by lia. cbn [option_bind]. cbn.
  apply IH. rewrite zlen_splice; [done|nia|]. rewrite zlen_map. unfold zlen in *. rewrite length_take, length_drop. nia.
Qed.
End Chain.

(** ** Several drafts per step and larger pages

    Pages of 4 slots, 5 steps, 2 branches.  Two requests of 1 token each: a branch takes 2
    pages, so a request extends by 15 slots of which 10 are drafts. *)

Definition two_branches (order : list Z) : option draft_bufs :=
  tl_run order (assign_draft_cache_locs (fun i => i) 0 [0; 1] [1; 1] [15; 15] [2; 2] [1; 2] 2 20 2 5 4 2 16)
    (MkDraftBufs (100 :: repeat 0 19 ++ 200 :: repeat 0 19) (zrange 101 116 ++ zrange 201 216) [0; 0] [0; 0]).

(** In the order of the requests, request 0 drafts into the slots after its prefix and, for
    the second branch, into the pages after the copy of its partial page. *)
Lemma draft_slots_in_order : exists st, two_branches [0; 1] = Some st
  /\ take 20 (db_out st) = zrange 101 106 ++ zrange 109 114 ++ zrange 201 206 ++ zrange 209 214
  /\ db_source st = [100; 200] /\ db_target st = [108; 208].
Proof. eexists. split; [vm_compute; reflexivity|]. by vm_compute. Qed.

(** In the other order, request 1 moves its drafts over slots that request 0 has not read
    yet: the second branch of request 0 gets slots of request 1. *)
Lemma draft_slots_race : exists st, two_branches [1; 0] = Some st
  /\ take 10 (db_out st) = zrange 101 106 ++ [109; 110; 201; 202; 203].
Proof. eexists. split; [vm_compute; reflexivity|]. by vm_compute. Qed.

(** When every prefix ends at a page boundary there is nothing to duplicate and the drafts
    are not moved to the front: the second branch of a request with 4 tokens is given the
    padding of the first, not the slots its row of the table lists. *)
Lemma draft_slots_not_moved : exists st,
  tl_run [0] (assign_draft_cache_locs (fun i => i) 0 [0] [4] [16] [2] [0] 0 20 2 5 4 1 16)
    (MkDraftBufs (zrange 100 104 ++ repeat 0 16) (zrange 104 120) [] []) = Some st
  /\ take 5 (drop 5 (db_out st)) = zrange 109 114 /\ take 5 (drop 12 (db_table st)) = zrange 112 117.
Proof. eexists. split; [vm_compute; reflexivity|]. by vm_compute. Qed.
