(* ===== verification/EagleDraft.v ===== *)
(** The memory of a draft: [EAGLEWorker._draft_preprocess_decode] of
    [speculative/eagle_worker.py].

    The slots of the drafts are borrowed: the worker allocates them, records them in the
    table for the draft model's attention, and restores the state of the allocator at once;
    verification allocates again.  The class [KVBackup] is what the worker assumes of
    [backup_state] and [restore_state]. *)

From stdpp Require Import strings.
From S2P Require Export DraftKernels EagleClaims.
From S2P Require Import Triton KVTable SpecKernels SpecProps SpecInfo.

(** ** Backup and restore *)

Class KVBackup (A : Type) `{Alloc : KVAllocator A} : Type := {
  kv_restore_state : A -> list Z * list Z -> A;
  kv_restore_alloc : forall (a : A) n r a', kv_alloc a n = Ok (r, a') -> kv_restore_state a' (kv_backup_state a) = a;
  kv_restore_extend : forall (a : A) pre seq last_loc n r a',
    kv_alloc_extend a pre seq last_loc n = Ok (r, a') -> kv_restore_state a' (kv_backup_state a) = a;
}.

Lemma npu_extend_restore oob undef empty s pre seq last_loc n r s' :
  npu_alloc_extend oob undef empty s pre seq last_loc n None = Ok (r, s') -> restore_state s' (backup_state s) = s.
Proof.
  unfold npu_alloc_extend. intros Ha. apply res_bind_Ok in Ha as (_ & _ & Ha). cbv zeta in Ha.
  set (b := need_sort s && _) in Ha. fold (maybe_merge b s) in Ha. destruct (maybe_merge_fields b s) as (H1 & H2 & H3 & H4 & H5 & H6).
  assert (exists f rel, s' = set_pages (maybe_merge b s) f rel) as (f & rel & ->).
  { assert (forall m, m = set_pages m (free_pages m) (release_pages m)) as Hself by by intros [].
    destruct (zlen (free_pages (maybe_merge b s)) <? _); [injection Ha as _ <-; eauto|]. apply res_bind_Ok in Ha as (l & _ & Ha). apply res_bind_Ok in Ha as (_ & _ & Ha).
    injection Ha as _ <-. eauto. }
  destruct s, (maybe_merge b _); simpl in *. unfold restore_state, set_pages; simpl. congruence.
Qed.

Section Instances.
Context (oob : Z -> Z) (undef : Z) (empty : Z -> list Z) (Hempty : forall n, 0 <= n -> zlen (empty n) = n).

#[export] Program Instance paged_backup : KVBackup allocator (Alloc := paged_allocator oob undef empty Hempty) := {
  kv_restore_state := restore_state
}.
Next Obligation. intros s n r s' Ha. by apply (alloc_backup_restore oob undef empty s [] [] [] n None r); auto. Qed.
Next Obligation. intros s pre seq last_loc n r s' Ha. apply (alloc_backup_restore oob undef empty s pre seq last_loc n None r). by left. Qed.

#[export] Program Instance npu_backup : KVBackup allocator (Alloc := npu_allocator oob undef empty Hempty) := {
  kv_restore_state := restore_state
}.
Next Obligation. intros s n r s' Ha. by apply (alloc_backup_restore oob undef empty s [] [] [] n None r); auto. Qed.
Next Obligation. intros s pre seq last_loc n r s' Ha. exact (npu_extend_restore _ _ _ _ _ _ _ _ _ _ Ha). Qed.

#[export] Program Instance token_backup : KVBackup allocator (Alloc := token_allocator) := {
  kv_restore_state := restore_state
}.
Next Obligation.
  intros s n r s' Ha. injection Ha as Ha. apply (alloc_backup_restore oob undef empty s [] [] [] n None r). auto.
Qed.
Next Obligation. done. Qed.
End Instances.

(** ** The draft's slots *)

(** What the allocation leaves to the kernel: the slots, the saved state of the allocator,
    and the lengths of the layout with several branches. *)
Record draft_slots : Type := MkDraftSlots {
  ds_out_cache_loc : list Z;
  ds_backup : option (list Z * list Z);
  ds_extend_lens : list Z;
  ds_num_new_pages_per_topk : list Z;
  ds_last_page_lens : list Z;
  ds_last_page_lens_cpu : list Z
}.

Section Draft.
Context {G H : Type} {T A : Type} {Alloc : KVAllocator A} {Backup : KVBackup A} {Cache : BasePrefixCache T A kva_pool}.
Context (oob : Z -> Z) (undef : Z) (torch_empty : Z -> list Z) (order : Z -> list Z) (_is_hip : bool) (attn_backend : string).

Definition alloc_draft_slots (page_size topk speculative_num_steps : Z) (batch : VerifyBatch G) (t : T) (a : A) (pool : ReqToTokenPool)
    : res (draft_slots * T * A) :=
  let num_seqs := zlen (vb_reqs batch) in
  if page_size =? 1 then
    let alloc_len_per_decode := speculative_num_steps * topk in
    let* (out_cache_loc, backup, t, a) := alloc_token_slots t a (num_seqs * alloc_len_per_decode) true in
    Ok (MkDraftSlots out_cache_loc backup [] [] [] [], t, a)
  else if topk =? 1 then
    let* (prefix_lens, seq_lens, last_loc) :=
      get_last_loc_large_page_size_top_k_1 oob torch_empty order _is_hip attn_backend pool (vb_req_pool_indices batch) (vb_seq_lens batch)
        speculative_num_steps in
    let extend_num_tokens := num_seqs * speculative_num_steps in
    let* (out_cache_loc, backup, t, a) := alloc_paged_token_slots_extend t a prefix_lens seq_lens last_loc extend_num_tokens true in
    Ok (MkDraftSlots out_cache_loc backup [] [] [] [], t, a)
  else
    let* (prefix_lens, seq_lens, last_loc, num_new_pages_per_topk, extend_lens, last_page_lens) :=
      get_last_loc_large_page_size_large_top_k oob torch_empty order _is_hip attn_backend pool (vb_req_pool_indices batch) (vb_seq_lens batch)
        speculative_num_steps topk page_size in
    let prefix_lens_cpu := vb_seq_lens_cpu batch in
    let last_page_lens_cpu := map (fun p => p mod page_size) prefix_lens_cpu in
    let num_new_pages_per_topk_cpu := map (fun l => (l + speculative_num_steps + page_size - 1) / page_size) last_page_lens_cpu in
    let seq_lens_cpu := zip_with (fun p n => p / page_size * page_size + n * (page_size * topk)) prefix_lens_cpu num_new_pages_per_topk_cpu in
    let extend_num_tokens := zsum (zip_with Z.sub seq_lens_cpu prefix_lens_cpu) in
    let* (out_cache_loc, backup, t, a) := alloc_paged_token_slots_extend t a prefix_lens seq_lens last_loc extend_num_tokens true in
    Ok (MkDraftSlots out_cache_loc backup extend_lens num_new_pages_per_topk last_page_lens last_page_lens_cpu, t, a).

(** Returns the draft's [out_cache_loc] and [positions], and the target and source slots of
    [move_kv_cache]. *)
Definition draft_preprocess_decode (page_size topk speculative_num_steps : Z) (batch : VerifyBatch G) (t : T) (a : A) (pool : ReqToTokenPool)
    : res (list Z * list Z * option (list Z * list Z) * T * A * ReqToTokenPool) :=
  let num_seqs := zlen (vb_reqs batch) in
  let* (slots, t, a) := alloc_draft_slots page_size topk speculative_num_steps batch t a pool in
  let branches := (1 <? page_size) && (1 <? topk) in
  let duplicate_cache_len := if branches then zsum (ds_last_page_lens_cpu slots) * (topk - 1) else 0 in
  let zeros := repeat 0 (Z.to_nat duplicate_cache_len) in
  match tl_run (order num_seqs)
          (assign_draft_cache_locs oob undef (vb_req_pool_indices batch) (vb_seq_lens batch) (ds_extend_lens slots)
             (ds_num_new_pages_per_topk slots) (cumsum (ds_last_page_lens slots)) duplicate_cache_len (max_context_len pool) topk
             speculative_num_steps page_size (next_power_of_2 num_seqs) (next_power_of_2 (speculative_num_steps + page_size)))
          (MkDraftBufs (concat (req_to_token pool)) (ds_out_cache_loc slots) zeros zeros) with
  | None => Raise RuntimeError
  | Some bufs =>
      let pool := set_table pool (table_rows (max_context_len pool) (length (req_to_token pool)) (db_table bufs)) in
      let moved := if branches && (0 <? duplicate_cache_len) then Some (db_target bufs, db_source bufs) else None in
      let out_cache_loc := if branches then py_upto (db_out bufs) (num_seqs * topk * speculative_num_steps) else db_out bufs in
      let positions := concat (map (fun s => repeat s (Z.to_nat topk)) (vb_seq_lens batch)) in
      let a := match ds_backup slots with Some state => kv_restore_state a state | None => a end in
      Ok (out_cache_loc, positions, moved, t, a, pool)
  end.

(** *** Allocation with a backup *)

Lemma borrow_token (t : T) (a : A) n out st t' a' : alloc_token_slots t a n false = Ok (out, st, t', a') ->
  exists a1, evict_from_tree_cache t a n = Ok (t', a1) /\ alloc_token_slots t a n true = Ok (out, Some (kv_backup_state a1), t', a')
    /\ kv_restore_state a' (kv_backup_state a1) = a1.
Proof.
  unfold alloc_token_slots. intros E. apply res_bind_Ok in E as ([t1 a1] & -> & E). cbn [res_bind].
  apply res_bind_Ok in E as ([r a2] & Ha & E). destruct r; [|done]. injection E as <- <- <- <-. exists a1. rewrite Ha. cbn [res_bind].
  split_and!; [done|done|]. by eapply kv_restore_alloc.
Qed.

Lemma borrow_extend (t : T) (a : A) pre sq last_loc n out st t' a' : alloc_paged_token_slots_extend t a pre sq last_loc n false = Ok (out, st, t', a') ->
  exists a1, evict_from_tree_cache t a (n + zlen sq * kv_page_size a) = Ok (t', a1)
    /\ alloc_paged_token_slots_extend t a pre sq last_loc n true = Ok (out, Some (kv_backup_state a1), t', a')
    /\ kv_restore_state a' (kv_backup_state a1) = a1.
Proof.
  unfold alloc_paged_token_slots_extend. intros E. apply res_bind_Ok in E as ([t1 a1] & -> & E). cbn [res_bind].
  apply res_bind_Ok in E as ([r a2] & Ha & E). destruct r; [|done]. injection E as <- <- <- <-. exists a1. rewrite Ha. cbn [res_bind].
  split_and!; [done|done|]. by eapply kv_restore_extend.
Qed.

(** *** One branch, or pages of one slot *)

Context (Hempty : forall n, 0 <= n -> zlen (torch_empty n) = n) (Horder : forall n, Permutation (order n) (zrange 0 n)).

(** What the draft needs: a row with room for every request, and the slot before a partly
    filled page. *)
Record drafting_ready (topk steps : Z) (batch : VerifyBatch G) (t : T) (g : tc_ghost) (a : A) (pool : ReqToTokenPool) (held : list Z) : Prop := {
  dr_topk : 1 <= topk;
  dr_steps : 0 <= steps;
  dr_chain : tc_page_size t = 1 \/ topk = 1;
  dr_table : table_ok pool;
  dr_rows : NoDup (vb_req_pool_indices batch);
  dr_len_rows : length (vb_req_pool_indices batch) = length (vb_reqs batch);
  dr_len : length (vb_seq_lens batch) = length (vb_reqs batch);
  dr_sync : in_sync t g a held;
  dr_entries : Forall2 (draft_entry (tc_page_size t) pool held) (vb_req_pool_indices batch)
    (zip (vb_seq_lens batch) (map (fun s => s + topk * steps) (vb_seq_lens batch)));
  dr_memory : get_num_new_pages (map (fun s => s + topk * steps) (vb_seq_lens batch)) (tc_page_size t) (vb_seq_lens batch) * tc_page_size t
    <= kv_available a
}.

Lemma zsum_drafts k lens : zsum (zip_with Z.sub (map (fun s => s + k) lens) lens) = zlen lens * k.
Proof. induction lens as [|s l IH]; [done|]. cbn [map zip_with]. rewrite zsum_cons, IH, zlen_cons. lia. Qed.

Lemma alloc_draft_ok topk steps batch t g a pool held : drafting_ready topk steps batch t g a pool held ->
  let lens := vb_seq_lens batch in let nxt := map (fun s => s + topk * steps) lens in
  exists out a1 t' a' num,
    alloc_draft_slots (tc_page_size t) topk steps batch t a pool = Ok (MkDraftSlots out (Some (kv_backup_state a1)) [] [] [] [], t', a')
    /\ zlen out = zlen lens * (topk * steps) /\ evict_from_tree_cache t a num = Ok (t', a1) /\ kv_restore_state a' (kv_backup_state a1) = a1
    /\ exists g' fresh, in_sync t' g' a' (fresh ++ held)
       /\ placement (tc_page_size t) lens nxt (zip_with (last_entry pool) (vb_req_pool_indices batch) lens) out fresh.
Proof.
  intros [Htk Hst Hch Htab Hnd Hlr Hl Hs HF Hm] lens nxt. fold lens in Hl, HF, Hm. fold nxt in HF, Hm. pose proof Hs as (Hok & _ & Hpg).
  destruct (draft_slots_ok oob torch_empty order _is_hip attn_backend Hempty Horder t g a held pool (vb_req_pool_indices batch) lens nxt Htab Hs HF)
    as (out & t' & a' & g' & fresh & Hrun & Hlo & Hs' & Hpl & _); [unfold nxt; by rewrite length_map|lia|done|].
  assert (zsum (zip_with Z.sub nxt lens) = zlen lens * (topk * steps)) as Hzs by apply zsum_drafts.
  rewrite Hpg in Hrun. rewrite Hzs in Hrun, Hlo. unfold alloc_draft_slots.
  assert (zlen (vb_reqs batch) = zlen lens) as -> by (unfold zlen; lia). destruct (Z.eqb_spec (tc_page_size t) 1) as [E|E].
  - apply res_bind_Ok in Hrun as ([[[o st] t1] a1] & Ha & Hrun). injection Hrun as -> -> ->.
    destruct (borrow_token _ _ _ _ _ _ _ Ha) as (a1 & He & Hb & Hre). rewrite (Z.mul_comm steps topk), Hb. cbn [res_bind].
    exists out, a1, t', a'. eexists. split_and!; try done. by exists g', fresh.
  - destruct Hch as [|Ht]; [done|]. assert (topk * steps = steps) as Hts by (rewrite Ht; lia). rewrite Hts in Hrun, Hlo.
    destruct (Z.eqb_spec topk 1) as [_|]; [|done]. unfold get_last_loc_large_page_size_top_k_1.
    apply res_bind_Ok in Hrun as (last_loc & Hlast & Hrun). fold lens. setoid_rewrite Hlast. cbn [res_bind].
    apply res_bind_Ok in Hrun as ([[[o st] t1] a1] & Ha & Hrun). injection Hrun as -> -> ->.
    destruct (borrow_extend _ _ _ _ _ _ _ _ _ _ Ha) as (a1 & He & Hb & Hre). unfold nxt in Hb, He. rewrite Hts in Hb, He. rewrite Hb. cbn [res_bind].
    exists out, a1, t', a'. eexists. split_and!; try done. { by rewrite Hts. } by exists g', fresh.
Qed.

(** The slots are borrowed: afterwards the allocator is as the eviction left it. *)
Lemma draft_preprocess_ok topk steps batch t g a pool held : drafting_ready topk steps batch t g a pool held ->
  let lens := vb_seq_lens batch in let nxt := map (fun s => s + topk * steps) lens in
  exists out positions t' a1 g1 tab,
    draft_preprocess_decode (tc_page_size t) topk steps batch t a pool = Ok (out, positions, None, t', a1, set_table pool tab)
    /\ zlen out = zlen lens * (topk * steps) /\ in_sync t' g1 a1 held /\ kv_available a <= kv_available a1 /\ tc_page_size t' = tc_page_size t
    /\ (forall pool hs, tc_holds t g pool hs -> tc_holds t' g1 pool hs)
    /\ length tab = length (req_to_token pool) /\ Forall (fun r => zlen r = max_context_len pool) tab
    /\ slices_written (max_context_len pool) (req_to_token pool) tab (vb_req_pool_indices batch) lens nxt out
    /\ exists a' g' fresh, in_sync t' g' a' (fresh ++ held)
       /\ placement (tc_page_size t) lens nxt (zip_with (last_entry pool) (vb_req_pool_indices batch) lens) out fresh.
Proof.
  intros Hd lens nxt. destruct (alloc_draft_ok topk steps batch t g a pool held Hd) as (out & a1 & t' & a' & num & Halloc & Hlo & Hev & Hre & g' & fresh & Hs' & Hpl).
  pose proof Hd as [Htk Hst Hch [Hcols Hrows Hint] Hnd Hlr Hl Hs HF Hm]. fold lens in Hl, HF, Hlo. fold nxt in HF. unfold draft_preprocess_decode. rewrite Halloc.
  cbn [res_bind ds_out_cache_loc ds_backup ds_extend_lens ds_num_new_pages_per_topk ds_last_page_lens ds_last_page_lens_cpu].
  replace ((1 <? tc_page_size t) && (1 <? topk)) with false by (destruct Hch as [-> | ->]; by rewrite ?andb_false_r). cbn [andb].
  assert (zlen (vb_reqs batch) = zlen (vb_req_pool_indices batch)) as -> by (unfold zlen; lia).
  assert (zlen lens = zlen (vb_req_pool_indices batch)) as Hz by (unfold zlen; lia). rewrite Hz in Hlo.
  assert (Forall (fun i => 0 <= i < zlen (req_to_token pool)) (vb_req_pool_indices batch)) as Hrange.
  { eapply Forall2_Forall_l; [exact HF|]. apply Forall_forall. by intros [c e] _ i (Hi & _). }
  assert (Forall (fun s => 0 <= s /\ s + topk * steps <= max_context_len pool) lens) as Hroom.
  { apply Forall_lookup. intros p s Hs1. destruct (Forall2_lookup_r _ _ _ p (s, s + topk * steps) HF) as (i & _ & _ & Hb & Hb' & _); [|lia].
    unfold nxt. rewrite lookup_zip_with, Hs1. simpl. by rewrite list_lookup_fmap, Hs1. }
  assert (0 <= topk * steps) as Hnn by nia. assert (length lens = length (vb_req_pool_indices batch)) as Hll by lia.
  rewrite (draft_run oob undef (vb_req_pool_indices batch) lens _ _ _ _ _ _ _ _ _ _ Hch Hnn Hll (zlen (req_to_token pool))); try done.
  2:{ apply Forall_forall. intros q Hq. rewrite Horder in Hq. by apply elem_of_zrange in Hq. }
  2:{ by apply zlen_concat_uniform. }
  2:{ apply next_power_of_2_ge. }
  destruct (assign_func_ok oob order pool (vb_req_pool_indices batch) lens nxt out) as (tab & Hassign & Hlt & Hut & Hsl); try done; try lia.
  { unfold nxt. rewrite length_map. lia. }
  { intros p s e Hs1 He. unfold nxt in He. rewrite list_lookup_fmap, Hs1 in He. injection He as <-. rewrite Forall_lookup in Hroom. destruct (Hroom p s Hs1). nia. }
  { unfold nxt. rewrite zsum_drafts. lia. }
  unfold assign_req_to_token_pool_func in Hassign. fold nxt. destruct (tl_run _ (assign_req_to_token_pool _ _ _ _ _ _ _) _) as [buf|]; [|done].
  cbn [of_grid res_bind option_bind] in Hassign |- *. injection Hassign as Hassign. cbn. rewrite Hre.
  destruct (evict_any t g a held num Hs) as (t2 & a2 & g2 & Hev2 & Hs2 & _ & Hav & _ & Hpt & _ & Hk). rewrite Hev in Hev2. injection Hev2 as <- <-.
  eexists out, _, t', a1, g2, tab. split; [by rewrite <- Hassign|]. split_and!; try done; [lia|]. by exists a', g', fresh.
Qed.
End Draft.
