(* ===== verification/BuildTree.v ===== *)
(** Building the tree of draft tokens: [build_tree_efficient_native] of
    [sgl_kernel_npu/speculative.py], the reference of the native kernel.

    The draft tokens of a request are numbered 0 to [draft_token_num - 1]; 0 is the last
    verified token, the root.  [selected_index] lists the selected entries of the score table
    in increasing order; the parent of entry [s] is [parent_list[s // topk]], and the first
    [topk] entries are children of the root.  The tree is stored as first-child and
    next-sibling links. *)

From S2P Require Export Grammar.
From S2P Require Import AllocKernels.

Inductive TreeMaskMode : Type := FULL_MASK | QLEN_ONLY | QLEN_ONLY_BITPACKING.

Definition is_full_mask (m : TreeMaskMode) : bool := match m with FULL_MASK => true | _ => false end.

(** [t[i] = v] *)
Definition tensor_set {X} (t : list X) (i : Z) (v : X) : res (list X) := scatter t [i] [v].

(** [down t p]: [p] leads from the roots of the forest [t] downwards. *)
Inductive down : fcns -> list Z -> Prop :=
  | down_nil t : down t []
  | down_here i c s p : down c p -> down (Branch i c s) (i :: p)
  | down_next i c s p : down s p -> down (Branch i c s) p.

(** ** One request *)

Section Row.
Context (parent_list selected_index : list Z) (topk draft_token_num : Z).

(** [for _ in range(n): if selected_index[p] == token: break; p += 1] *)
Fixpoint scan (n : nat) (token p : Z) : res (Z * bool) :=
  match n with
  | O => Ok (p, false)
  | S n =>
      let* x := tensor_at selected_index p in
      if x =? token then Ok (p, true) else scan n token (p + 1)
  end.

(** Node [i] becomes the first child of its parent. *)
Definition link_one (i : Z) (links : list Z * list Z) : res (list Z * list Z) :=
  let '(retrive_next_token, retrive_next_sibling) := links in
  let* s := tensor_at selected_index (i - 1) in
  let parent_tb_idx := s / topk in
  let* parent_position :=
    if 0 <? parent_tb_idx then
      let* parent_token_idx := tensor_at parent_list parent_tb_idx in
      let* (p, found) := scan (Z.to_nat draft_token_num) parent_token_idx 0 in
      Ok (if (found : bool) then p + 1 else p)
    else Ok 0 in
  if parent_position =? draft_token_num then Ok links
  else
    let* first := tensor_at retrive_next_token parent_position in
    let* retrive_next_sibling :=
      if negb (first =? -1) then tensor_set retrive_next_sibling i first else Ok retrive_next_sibling in
    let* retrive_next_token := tensor_set retrive_next_token parent_position i in
    Ok (retrive_next_token, retrive_next_sibling).

Fixpoint link_loop (l : list Z) (links : list Z * list Z) : res (list Z * list Z) :=
  match l with
  | [] => Ok links
  | i :: l => let* links := link_one i links in link_loop l links
  end.

(** The [while True] loop: the number of steps to the root.  An index past the selected
    entries raises, whichever of the two tensors it is read from. *)
Fixpoint climb (fuel : nat) (cur_position position : Z) : res Z :=
  match fuel with
  | O => Raise RuntimeError
  | S fuel =>
      let position := position + 1 in
      let* s := tensor_at selected_index cur_position in
      let parent_tb_idx := s / topk in
      if parent_tb_idx =? 0 then Ok position
      else
        let* token_idx := tensor_at parent_list parent_tb_idx in
        let* (p, _) := scan (Z.to_nat draft_token_num) token_idx 0 in
        climb fuel p position
  end.

Fixpoint climb_all (tids : list Z) : res (list Z) :=
  match tids with
  | [] => Ok []
  | tid :: tids =>
      let* position := climb (Z.to_nat draft_token_num) (tid - 1) 0 in
      let* positions := climb_all tids in Ok (position :: positions)
  end.

(** The links and the positions of one request. *)
Definition build_row (seq_len : Z) (links : list Z * list Z) : res (list Z * (list Z * list Z)) :=
  let* links := link_loop (reverse (zrange 1 draft_token_num)) links in
  let* depths := climb_all (zrange 1 draft_token_num) in
  Ok (map (fun d => seq_len + d) (0 :: depths), links).
End Row.

(** ** The batch *)

Fixpoint build_rows (topk draft_token_num : Z) (parent_list selected_index : list (list Z)) (verified_seq_len : list Z)
    (retrive_next_token retrive_next_sibling : list (list Z)) : res (list Z * list (list Z) * list (list Z)) :=
  match verified_seq_len, parent_list, selected_index, retrive_next_token, retrive_next_sibling with
  | [], _, _, _, _ => Ok ([], retrive_next_token, retrive_next_sibling)
  | seq_len :: lens, parents :: parent_list, selected :: selected_index, next :: nexts, sib :: sibs =>
      let* (positions, links) := build_row parents selected topk draft_token_num seq_len (next, sib) in
      let* (rest, nexts, sibs) := build_rows topk draft_token_num parent_list selected_index lens nexts sibs in
      Ok (positions ++ rest, links.1 :: nexts, links.2 :: sibs)
  | _, _, _, _, _ => Raise IndexError
  end.

(** The first entry of every token's row of the mask, plus one. *)
Definition token_tree_indices (verified_seq_len : list Z) (draft_token_num : Z) (mode : TreeMaskMode) (bs : Z) : list Z :=
  let cum_seq_len := take (length verified_seq_len) (0 :: cumsum (map (fun s => s * draft_token_num) verified_seq_len)) in
  concat (zip_with (fun b sc =>
    if is_full_mask mode then
      map (fun t => draft_token_num * draft_token_num * b + sc.2 + (sc.1 + draft_token_num) * t + sc.1 + 1) (zrange 0 draft_token_num)
    else map (fun t => b * draft_token_num ^ 2 + t * draft_token_num + 1) (zrange 0 draft_token_num))
    (zrange 0 bs) (zip verified_seq_len cum_seq_len)).

Definition build_tree_efficient_native (parent_list selected_index : list (list Z)) (verified_seq_len : list Z) (tree_mask : list bool)
    (retrive_next_token retrive_next_sibling : list (list Z)) (topk draft_token_num : Z) (mode : TreeMaskMode) (bs : Z)
    : res (list Z * list (list Z) * list (list Z) * list (list Z) * list bool) :=
  let retrive_index := map (fun b => map (fun t => b * draft_token_num + t) (zrange 0 draft_token_num)) (zrange 0 bs) in
  if (draft_token_num =? 2) && (topk =? 1) && is_full_mask mode then
    let positions := concat (map (fun s => [s + 0; s + 1]) verified_seq_len) in
    Ok (positions, retrive_index, map (fun _ => [1; -1]) retrive_next_token, retrive_next_sibling, tree_mask)
  else
    let indices := token_tree_indices verified_seq_len draft_token_num mode bs in
    let* tree_mask := scatter tree_mask (map (fun i => i - 1) indices) (map (fun _ => true) indices) in
    let draft_columns := concat (map (fun i => map (fun o => i + o) (zrange 0 (draft_token_num - 1))) indices) in
    let* tree_mask := scatter tree_mask draft_columns (map (fun _ => false) draft_columns) in
    let* tree_mask := scatter tree_mask draft_columns (map (fun _ => true) draft_columns) in
    let* (positions, nexts, sibs) := build_rows topk draft_token_num parent_list selected_index verified_seq_len
                                       retrive_next_token retrive_next_sibling in
    Ok (positions, retrive_index, nexts, sibs, tree_mask).

(** ** What is built *)

Section Tree.
Context (parents sel : list Z) (k n steps : Z).

(** The step that made entry [s], from 1: the first has [k] entries, the others [k * k]. *)
Definition level (s : Z) : Z := if s <? k then 1 else 2 + (s - k) / (k * k).

(** The selected entries are increasing, and the parent of every one of them is the root or
    an entry of the step before that is selected too. *)
Record tree_rows : Prop := {
  tr_n : 1 <= n;
  tr_k : 1 <= k;
  tr_len : zlen sel = n - 1;
  tr_sorted : forall i j x y, (i < j)%nat -> sel !! i = Some x -> sel !! j = Some y -> x < y;
  tr_nonneg : Forall (fun s => 0 <= s) sel;
  tr_closed : forall s, s ∈ sel -> k <= s -> exists s', parents !! Z.to_nat (s / k) = Some s' /\ s' ∈ sel /\ s' < s /\ level s = level s' + 1;
  tr_steps : forall s, s ∈ sel -> level s <= steps
}.

(** The parent of node [j]. *)
Definition par (j : Z) : Z :=
  match sel !! Z.to_nat (j - 1) with
  | Some s =>
      if s / k =? 0 then 0
      else match parents !! Z.to_nat (s / k) with
           | Some s' => match list_find (fun x => x = s') sel with Some (p, _) => Z.of_nat p + 1 | None => 0 end
           | None => 0
           end
  | None => 0
  end.

(** The nodes of a forest below [p] have the parents that [par] says. *)
Fixpoint parents_ok (p : Z) (t : fcns) : Prop :=
  match t with
  | Leaf => True
  | Branch i c s => par i = p /\ parents_ok i c /\ parents_ok p s
  end.

Context (Htr : tree_rows).

Lemma sel_inj i j x : sel !! i = Some x -> sel !! j = Some x -> i = j.
Proof.
  intros Hi Hj. destruct (lt_eq_lt_dec i j) as [[Hlt| ->]|Hlt]; [|done|].
  - pose proof (tr_sorted Htr i j x x Hlt Hi Hj). lia.
  - pose proof (tr_sorted Htr j i x x Hlt Hj Hi). lia.
Qed.

Lemma scan_found m p tok : sel !! p = Some tok -> forall q, (q <= p)%nat -> (p - q < m)%nat -> scan sel m tok (Z.of_nat q) = Ok (Z.of_nat p, true).
Proof.
  intros Hp. induction m as [|m IH]; intros q Hq Hm; [lia|]. cbn [scan].
  destruct (lookup_lt_is_Some_2 sel q) as [x Hx]; [apply lookup_lt_Some in Hp; lia|].
  rewrite (tensor_at_in sel _ x) by (lia || by rewrite Nat2Z.id). cbn [res_bind]. destruct (Z.eqb_spec x tok) as [-> | Hne].
  - do 3 f_equal. by eapply sel_inj.
  - assert (q <> p) by congruence. replace (Z.of_nat q + 1) with (Z.of_nat (S q)) by lia. apply IH; lia.
Qed.

(** The parent of a node, as the code finds it. *)
Lemma par_spec j : 1 <= j < n -> exists s, sel !! Z.to_nat (j - 1) = Some s /\ 0 <= s
  /\ ((s / k = 0 /\ par j = 0)
      \/ (0 < s / k /\ exists s' p, parents !! Z.to_nat (s / k) = Some s' /\ sel !! p = Some s' /\ (p < Z.to_nat (j - 1))%nat /\ par j = Z.of_nat p + 1
          /\ level s = level s' + 1)).
Proof.
  intros Hj. pose proof Htr as [Hn Hk Hlen Hso Hnn Hcl _]. unfold zlen in Hlen.
  destruct (lookup_lt_is_Some_2 sel (Z.to_nat (j - 1))) as [s Hs]; [lia|]. exists s. split; [done|].
  pose proof (proj1 (Forall_lookup _ _) Hnn _ _ Hs) as H0. cbv beta in H0. split; [done|]. unfold par. rewrite Hs.
  destruct (Z.eqb_spec (s / k) 0) as [E|E]; [by left|]. right. assert (0 < s / k) as Hpos by (pose proof (Z.div_pos s k); lia). split; [done|].
  assert (k <= s) as Hks. { destruct (Z.lt_ge_cases s k); [|done]. rewrite Z.div_small in E by lia. done. }
  destruct (Hcl s ltac:(by eapply list_elem_of_lookup_2) Hks) as (s' & -> & Hin & Hlt & Hlev). apply list_elem_of_lookup_1 in Hin as [p Hp].
  exists s', p. assert (p < Z.to_nat (j - 1))%nat as Hpj.
  { destruct (lt_eq_lt_dec p (Z.to_nat (j - 1))) as [[?| ->]|Hgt]; [done|rewrite Hs in Hp; injection Hp; lia|]. pose proof (Hso _ _ _ _ Hgt Hs Hp). lia. }
  split_and!; try done. destruct (list_find (fun x => x = s') sel) as [[q y]|] eqn:Ef.
  - apply list_find_Some in Ef as (Hq & -> & _). by rewrite (sel_inj q p s').
  - rewrite list_find_None, Forall_lookup in Ef. by destruct (Ef p s' Hp).
Qed.

Lemma par_lt j : 1 <= j < n -> 0 <= par j < j.
Proof. intros Hj. destruct (par_spec j Hj) as (s & _ & _ & [(_ & ->)|(_ & s' & p & _ & _ & Hp & -> & _)]); lia. Qed.

Lemma link_one_par i next sib : 1 <= i < n -> length next = Z.to_nat n -> length sib = Z.to_nat n ->
  exists first, next !! Z.to_nat (par i) = Some first
    /\ link_one parents sel k n i (next, sib)
       = Ok (<[Z.to_nat (par i) := i]> next, if first =? -1 then sib else <[Z.to_nat i := first]> sib).
Proof.
  intros Hi Hln Hls. pose proof (par_lt i Hi) as Hp. destruct (lookup_lt_is_Some_2 next (Z.to_nat (par i))) as [first Hf]; [lia|].
  exists first. split; [done|]. destruct (par_spec i Hi) as (s & Hs & H0 & Hcase). unfold link_one.
  rewrite (tensor_at_in sel _ s) by (lia || done). cbn [res_bind].
  assert ((if 0 <? s / k then let* parent_token_idx := tensor_at parents (s / k) in
             let* (p, found) := scan sel (Z.to_nat n) parent_token_idx 0 in Ok (if (found : bool) then p + 1 else p) else Ok 0) = Ok (par i)) as ->.
  { destruct Hcase as [(E & ->)|(Hpos & s' & p & Hs' & Hq & Hlt & -> & _)]; [by rewrite E|].
    destruct (Z.ltb_spec 0 (s / k)); [|lia]. rewrite (tensor_at_in parents _ s') by (lia || done). cbn [res_bind].
    rewrite (scan_found _ p s' Hq 0) by lia. done. }
  cbn [res_bind]. destruct (Z.eqb_spec (par i) n); [lia|]. rewrite (tensor_at_in next _ first) by (lia || done). cbn [res_bind].
  unfold tensor_set, scatter. rewrite !wrap_index_in by (unfold zlen; lia). by destruct (first =? -1).
Qed.

(** *** The links *)

Context (toks : list Z) (Htoks : zlen toks = n).

Lemma encodes_ext next sib next' sib' c t : encodes next sib toks c t ->
  (forall v, v ∈ tree_nodes_of t -> next' !! Z.to_nat v = next !! Z.to_nat v /\ sib' !! Z.to_nat v = sib !! Z.to_nat v) ->
  encodes next' sib' toks c t.
Proof.
  induction 1 as [|i c s tc ts Hi Hc Hs _ IHc _ IHs]; intros Heq; [constructor|]. cbn [tree_nodes_of] in Heq.
  destruct (Heq i) as [E1 E2]; [set_solver|]. econstructor; [done|by rewrite E1|by rewrite E2|apply IHc|apply IHs]; intros v Hv; apply Heq; set_solver.
Qed.

Lemma concat_update {X} (f f' : Z -> list X) p x l : NoDup l -> p ∈ l -> f' p = x ++ f p -> (forall j, j <> p -> f' j = f j) ->
  Permutation (concat (map f' l)) (x ++ concat (map f l)).
Proof.
  intros Hnd Hp Ep Ej. induction l as [|j l IH]; [by apply not_elem_of_nil in Hp|]. apply NoDup_cons in Hnd as [Hj Hnd]. cbn [map concat].
  apply elem_of_cons in Hp as [<-|Hp].
  - rewrite Ep. assert (map f' l = map f l) as ->; [|by rewrite app_assoc].
    apply map_ext_in. intros j Hin. apply Ej. intros ->. apply Hj. by apply list_elem_of_In.
  - rewrite Ej by (intros ->; done). rewrite IH by done. rewrite !app_assoc. by rewrite (Permutation_app_comm (f j) x).
Qed.

(** Nodes [i] to [n - 1] have been linked: [C j] is the forest of the children of [j]. *)
Record linked (i : Z) (next sib : list Z) (C : Z -> fcns) : Prop := {
  lk_next : length next = Z.to_nat n;
  lk_sib : length sib = Z.to_nat n;
  lk_free : forall j, 0 <= j < i -> sib !! Z.to_nat j = Some (-1);
  lk_forest : forall j, 0 <= j < n -> exists c, next !! Z.to_nat j = Some c /\ encodes next sib toks c (C j);
  lk_parents : forall j, 0 <= j < n -> parents_ok j (C j);
  lk_bound : forall j v, 0 <= j < n -> v ∈ tree_nodes_of (C j) -> i <= v < n;
  lk_nodes : Permutation (concat (map (fun j => tree_nodes_of (C j)) (zrange 0 i))) (zrange i n)
}.

Lemma linked_init : linked n (repeat (-1) (Z.to_nat n)) (repeat (-1) (Z.to_nat n)) (fun _ => Leaf).
Proof.
  assert (forall j, 0 <= j < n -> repeat (-1) (Z.to_nat n) !! Z.to_nat j = Some (-1)) as Hat.
  { intros j Hj. assert (Z.to_nat j < Z.to_nat n)%nat as Hlt by lia. revert Hlt. generalize (Z.to_nat j) (Z.to_nat n). clear.
    intros j n. revert j. induction n as [|n IH]; intros [|j] Hlt; simpl; [lia|lia|done|]. apply IH. lia. }
  split; try apply repeat_length; try done.
  - intros j Hj. exists (-1). split; [by apply Hat|constructor].
  - intros j v _ Hv. by apply not_elem_of_nil in Hv.
  - rewrite (zrange_empty n n) by lia. induction (zrange 0 n); [done|]. simpl. done.
Qed.

Lemma linked_step i next sib C : 1 <= i < n -> linked (i + 1) next sib C ->
  exists next' sib' C', link_one parents sel k n i (next, sib) = Ok (next', sib') /\ linked i next' sib' C'.
Proof.
  intros Hi [Hln Hls Hfree Hfor Hpar Hb Hnodes]. destruct (link_one_par i next sib Hi Hln Hls) as (first & Hfirst & ->). pose proof (par_lt i Hi) as Hp.
  set (next' := <[Z.to_nat (par i) := i]> next). set (sib' := if first =? -1 then sib else _). set (C' := fun j => if j =? par i then Branch i (C i) (C (par i)) else C j).
  exists next', sib', C'. split; [done|].
  assert (forall v, 0 <= v -> v <> par i -> next' !! Z.to_nat v = next !! Z.to_nat v) as En by (intros v Hv Hne; apply list_lookup_insert_ne; lia).
  assert (forall v, 0 <= v -> v <> i -> sib' !! Z.to_nat v = sib !! Z.to_nat v) as Es.
  { intros v Hv Hne. unfold sib'. destruct (first =? -1); [done|]. apply list_lookup_insert_ne. lia. }
  assert (sib' !! Z.to_nat i = Some first) as Esi.
  { unfold sib'. destruct (Z.eqb_spec first (-1)) as [-> |]; [apply Hfree; lia|]. apply list_lookup_insert_eq. lia. }
  assert (forall c j, 0 <= j < n -> encodes next sib toks c (C j) -> encodes next' sib' toks c (C j)) as Hext.
  { intros c j Hj He. eapply encodes_ext; [exact He|]. intros v Hv. specialize (Hb j v Hj Hv). rewrite En, Es by lia. done. }
  assert (C' (par i) = Branch i (C i) (C (par i))) as Cp by (unfold C'; by rewrite Z.eqb_refl).
  assert (forall j, j <> par i -> C' j = C j) as Cj by (intros j Hj; unfold C'; by destruct (Z.eqb_spec j (par i))).
  split.
  - unfold next'. by rewrite length_insert.
  - unfold sib'. destruct (first =? -1); [done|]. by rewrite length_insert.
  - intros j Hj. rewrite Es by lia. apply Hfree. lia.
  - intros j Hj. destruct (decide (j = par i)) as [-> |Hne].
    + exists i. split; [apply list_lookup_insert_eq; lia|]. rewrite Cp. destruct (Hfor i) as (ci & Hci & Hei); [lia|].
      destruct (Hfor (par i)) as (cp & Hcp & Hep); [lia|]. rewrite Hfirst in Hcp. injection Hcp as <-.
      econstructor; [lia|by rewrite En by lia|done|apply Hext; [lia|done]|apply Hext; [lia|done]].
    + rewrite Cj, En by (lia || done). destruct (Hfor j Hj) as (c & Hc & He). eauto.
  - intros j Hj. destruct (decide (j = par i)) as [-> |Hne]; [rewrite Cp|rewrite Cj by done; by apply Hpar].
    split_and!; [done|apply Hpar; lia|apply Hpar; lia].
  - intros j v Hj Hv. destruct (decide (j = par i)) as [-> |Hne].
    + rewrite Cp in Hv. cbn [tree_nodes_of] in Hv. apply elem_of_cons in Hv as [-> |Hv]; [lia|].
      apply elem_of_app in Hv as [Hv|Hv]; [specialize (Hb i v ltac:(lia) Hv)|specialize (Hb (par i) v ltac:(lia) Hv)]; lia.
    + rewrite Cj in Hv by done. specialize (Hb j v Hj Hv). lia.
  - rewrite (concat_update (fun j => tree_nodes_of (C j)) _ (par i) (i :: tree_nodes_of (C i))).
    + rewrite (zrange_cons i n) by lia. cbn [app]. apply perm_skip. rewrite <- Hnodes, zrange_snoc by lia. rewrite map_app, concat_app. cbn. rewrite app_nil_r. apply Permutation_app_comm.
    + apply NoDup_zrange.
    + apply elem_of_zrange. lia.
    + by rewrite Cp.
    + intros j Hj. by rewrite Cj.
Qed.

(** The links hold the tree of all nodes, every node below its parent. *)
Lemma links_encode : exists next sib c,
  link_loop parents sel k n (reverse (zrange 1 n)) (repeat (-1) (Z.to_nat n), repeat (-1) (Z.to_nat n)) = Ok (next, sib)
  /\ length next = Z.to_nat n /\ length sib = Z.to_nat n
  /\ encodes next sib toks 0 (Branch 0 c Leaf) /\ parents_ok 0 c /\ Permutation (tree_nodes_of c) (zrange 1 n).
Proof.
  pose proof (tr_n Htr) as Hn.
  assert (forall m next sib C, Z.of_nat m + 1 <= n -> linked (Z.of_nat m + 1) next sib C -> exists next' sib' C',
    link_loop parents sel k n (reverse (zrange 1 (Z.of_nat m + 1))) (next, sib) = Ok (next', sib') /\ linked 1 next' sib' C') as Hrun.
  { induction m as [|m IH]; intros next sib C Hm Hl; [by exists next, sib, C|].
    replace (Z.of_nat (S m) + 1) with (Z.of_nat m + 1 + 1) in * by lia. rewrite zrange_snoc, reverse_snoc by lia. cbn [link_loop].
    destruct (linked_step (Z.of_nat m + 1) next sib C ltac:(lia) Hl) as (next' & sib' & C' & -> & Hl'). cbn [res_bind]. apply (IH _ _ C'); [lia|done]. }
  destruct (Hrun (Z.to_nat (n - 1)) (repeat (-1) (Z.to_nat n)) (repeat (-1) (Z.to_nat n)) (fun _ => Leaf)) as (next & sib & C & E & Hl).
  { lia. } { rewrite Z2Nat.id by lia. replace (n - 1 + 1) with n by lia. apply linked_init. }
  rewrite Z2Nat.id in E by lia. replace (n - 1 + 1) with n in E by lia. destruct Hl as [Hln Hls Hfree Hfor Hpar _ Hnodes].
  destruct (Hfor 0) as (c & Hc & He); [lia|]. exists next, sib, (C 0). split_and!; try done.
  - econstructor; [lia|done|apply Hfree; lia|done|constructor].
  - apply Hpar. lia.
  - change (zrange 0 1) with [0] in Hnodes. cbn [map concat] in Hnodes. by rewrite app_nil_r in Hnodes.
Qed.

(** *** The positions *)

Inductive at_depth : Z -> Z -> Prop :=
  | depth_root : at_depth 0 0
  | depth_below j d : 1 <= j < n -> at_depth (par j) d -> at_depth j (d + 1).

(** Depths are levels, so no deeper than the number of steps. *)
Lemma depth_level j d : at_depth j d -> 1 <= j -> exists s, sel !! Z.to_nat (j - 1) = Some s /\ d = level s /\ d <= steps.
Proof.
  induction 1 as [|j d Hj Hd IH]; intros Hj1; [lia|]. destruct (par_spec j Hj) as (s & Hs & H0 & Hcase). exists s. split; [done|].
  assert (level s <= steps) as Hle by (apply (tr_steps Htr); by eapply list_elem_of_lookup_2). assert (d + 1 = level s); [|lia].
  destruct Hcase as [(E & Hp)|(_ & s' & p & _ & Hs' & _ & Hp & Hlev)].
  - rewrite Hp in Hd. inversion Hd; [|lia]. unfold level. pose proof (tr_k Htr). destruct (Z.ltb_spec s k) as [|Hge]; [lia|].
    assert (1 <= s / k) by (apply Z.div_le_lower_bound; lia). lia.
  - destruct IH as (s2 & Hs2 & -> & _); [lia|]. replace (Z.to_nat (par j - 1)) with p in Hs2 by lia. rewrite Hs' in Hs2. injection Hs2 as <-. lia.
Qed.

(** The way from the root to a node, without the root. *)
Inductive trail : Z -> list Z -> Prop :=
  | trail_root : trail 0 []
  | trail_below j p : 1 <= j < n -> trail (par j) p -> trail j (p ++ [j]).

Lemma trail_depth j p : trail j p -> at_depth j (Z.of_nat (length p)).
Proof.
  induction 1 as [|j p Hj _ IH]; [constructor|]. rewrite length_app. simpl. replace (Z.of_nat (length p + 1)) with (Z.of_nat (length p) + 1) by lia. by constructor.
Qed.

(** Walking down a forest below node [u] follows the trails. *)
Lemma down_trail t q : down t q -> forall u p, parents_ok u t -> Forall (fun v => 1 <= v < n) (tree_nodes_of t) -> trail u p -> trail (List.last (u :: q) 0) (p ++ q).
Proof.
  induction 1 as [t|i c s q _ IH|i c s q _ IH]; intros u p Hp HF Ht.
  - by rewrite app_nil_r.
  - destruct Hp as (Hpi & Hpc & _). cbn [tree_nodes_of] in HF. apply Forall_cons in HF as [Hi HF]. apply Forall_app in HF as [HF _].
    replace (p ++ i :: q) with ((p ++ [i]) ++ q) by (by rewrite <- app_assoc). apply IH; [done|done|]. constructor; [done|]. by rewrite Hpi.
  - destruct Hp as (_ & _ & Hps). cbn [tree_nodes_of] in HF. apply Forall_cons in HF as [_ HF]. apply Forall_app in HF as [_ HF]. by apply IH.
Qed.

Lemma climb_depth j : 1 <= j < n -> exists d, at_depth j d /\ forall fuel pos, (Z.to_nat j <= fuel)%nat ->
  climb parents sel k n fuel (j - 1) pos = Ok (pos + d).
Proof.
  induction (Z.lt_wf 0 j) as [j _ IH]. intros Hj. destruct (par_spec j Hj) as (s & Hs & H0 & Hcase). pose proof (par_lt j Hj) as Hp.
  destruct Hcase as [(E & Hpar)|(Hpos & s' & p & Hs' & Hq & Hlt & Hpar & _)].
  - exists (0 + 1). split; [constructor; [done|rewrite Hpar; constructor]|]. intros [|fuel] pos Hf; [lia|]. cbn [climb].
    rewrite (tensor_at_in sel _ s) by (lia || done). cbn [res_bind]. by rewrite E.
  - destruct (IH (par j)) as (d & Hd & Hrun); [lia|lia|]. exists (d + 1). split; [by constructor|]. intros [|fuel] pos Hf; [lia|]. cbn [climb].
    rewrite (tensor_at_in sel _ s) by (lia || done). cbn [res_bind]. destruct (Z.eqb_spec (s / k) 0); [lia|].
    rewrite (tensor_at_in parents _ s') by (lia || done). cbn [res_bind]. pose proof (scan_found (Z.to_nat n) p s' Hq 0 ltac:(lia) ltac:(lia)) as Hscan.
    change (Z.of_nat 0) with 0 in Hscan. rewrite Hscan. cbn [res_bind]. replace (Z.of_nat p) with (par j - 1) by lia. rewrite Hrun by lia. f_equal. lia.
Qed.

Lemma climb_all_depth tids : Forall (fun j => 1 <= j < n) tids -> exists ds, climb_all parents sel k n tids = Ok ds
  /\ Forall2 at_depth tids ds.
Proof.
  induction 1 as [|j tids Hj _ (ds & E & HF)]; [by exists []|]. destruct (climb_depth j Hj) as (d & Hd & Hrun).
  exists (d :: ds). cbn [climb_all]. rewrite Hrun, E by lia. cbn [res_bind]. split; [by rewrite Z.add_0_l|by constructor].
Qed.

Lemma build_row_ok seq_len : exists positions next sib c,
  build_row parents sel k n seq_len (repeat (-1) (Z.to_nat n), repeat (-1) (Z.to_nat n)) = Ok (positions, (next, sib))
  /\ encodes next sib toks 0 (Branch 0 c Leaf) /\ parents_ok 0 c /\ Permutation (tree_nodes_of c) (zrange 1 n)
  /\ length positions = Z.to_nat n
  /\ forall j, 0 <= j < n -> exists d, at_depth j d /\ positions !! Z.to_nat j = Some (seq_len + d).
Proof.
  pose proof (tr_n Htr) as Hn. destruct links_encode as (next & sib & c & E & _ & _ & He & Hp & Hnodes). unfold build_row. rewrite E. cbn [res_bind].
  destruct (climb_all_depth (zrange 1 n)) as (ds & Ed & HF). { apply Forall_forall. intros j Hj%elem_of_zrange. done. }
  rewrite Ed. cbn [res_bind]. pose proof (Forall2_length _ _ _ HF) as Hl. pose proof (zlen_zrange 1 n) as Hz. unfold zlen in Hz.
  eexists _, next, sib, c. split_and!; try done. { cbn [map length]. rewrite length_map. lia. }
  intros j Hj. destruct (decide (j = 0)) as [-> |Hne]; [exists 0; split; [constructor|done]|].
  destruct (Forall2_lookup_l _ _ _ (Z.to_nat (j - 1)) j HF) as (d & Hd & Hat).
  { apply lookup_zrange. lia. }
  exists d. split; [done|]. rewrite list_lookup_fmap. replace (Z.to_nat j) with (S (Z.to_nat (j - 1))) by lia. simpl. by rewrite Hd.
Qed.
End Tree.

(** *** The batch *)

Definition no_links (n : Z) {X} (l : list X) : list (list Z) := map (fun _ => repeat (-1) (Z.to_nat n)) l.

(** Request [b]'s links and positions are those of the tree that [par] describes. *)
Definition row_built (k n : Z) (parents sel : list Z) (seq_len : Z) (next sib positions : list Z) : Prop :=
  exists c, encodes next sib (zrange 0 n) 0 (Branch 0 c Leaf) /\ parents_ok parents sel k 0 c /\ Permutation (tree_nodes_of c) (zrange 1 n)
    /\ length positions = Z.to_nat n
    /\ forall j, 0 <= j < n -> exists d, at_depth parents sel k n j d /\ positions !! Z.to_nat j = Some (seq_len + d).

Lemma build_rows_ok k n steps : forall parent_list selected_index verified_seq_len,
  length parent_list = length verified_seq_len -> length selected_index = length verified_seq_len ->
  (forall b parents sel, parent_list !! b = Some parents -> selected_index !! b = Some sel -> tree_rows parents sel k n steps) ->
  exists positions nexts sibs,
    build_rows k n parent_list selected_index verified_seq_len (no_links n verified_seq_len) (no_links n verified_seq_len)
    = Ok (concat positions, nexts, sibs)
    /\ length positions = length verified_seq_len /\ length nexts = length verified_seq_len /\ length sibs = length verified_seq_len
    /\ forall b parents sel seq_len, parent_list !! b = Some parents -> selected_index !! b = Some sel -> verified_seq_len !! b = Some seq_len ->
         exists next sib pos, nexts !! b = Some next /\ sibs !! b = Some sib /\ positions !! b = Some pos
           /\ row_built k n parents sel seq_len next sib pos.
Proof.
  intros pl sl lens. revert pl sl. induction lens as [|s lens IH]; intros [|p pl] [|se sl] H1 H2 Hall; simpl in H1, H2; try lia.
  { exists [], [], []. split_and!; try done. }
  pose proof (Hall 0%nat p se eq_refl eq_refl) as Htr. pose proof (tr_n _ _ _ _ _ Htr) as Hn.
  destruct (build_row_ok p se k n steps Htr (zrange 0 n) ltac:(rewrite zlen_zrange; lia) s) as (pos & next & sib & c & E & He & Hp & Hnodes & Hl & Hpos).
  destruct (IH pl sl) as (poss & nexts & sibs & Er & L1 & L2 & L3 & Hb); [lia|lia|intros b; apply (Hall (S b))|].
  exists (pos :: poss), (next :: nexts), (sib :: sibs). cbn [build_rows no_links map]. rewrite E. cbn [res_bind].
  unfold no_links in Er. rewrite Er. cbn [res_bind]. split_and!; [done|simpl; lia..|].
  intros [|b] parents sel seq_len; cbn [lookup list_lookup]; [|by apply Hb]. intros [= <-] [= <-] [= <-].
  exists next, sib, pos. split_and!; try done. by exists c.
Qed.
