(* ===== verification/EagleTree.v ===== *)
(** Growing the tree of drafts: [draft_forward] of [speculative/eagle_worker.py],
    [select_top_k_tokens] of [spec_utils.py] and [organize_draft_results] of [eagle_utils.py].

    Every step expands the [topk] best nodes of the step before by their [topk] best tokens;
    the score of a node is the product of the probabilities on its path.  At the end the best
    nodes of all steps are selected.  Scores are an abstract type with a product and a strict
    order; [torch.topk] and [torch.max] are parameters, and so is the draft model. *)

From S2P Require Export BuildTree.
From S2P Require Import EagleRows.

Fixpoint res_map {X Y} (f : X -> res Y) (l : list X) : res (list Y) :=
  match l with
  | [] => Ok []
  | x :: l => let* y := f x in let* ys := res_map f l in Ok (y :: ys)
  end.

(** [t.view(-1, k)] for the rows of a tensor *)
Fixpoint take_chunks {X} (m k : nat) (l : list X) : list (list X) :=
  match m with
  | O => []
  | S m => take k l :: take_chunks m k (drop k l)
  end.

Definition chunks {X} (k : Z) (l : list X) : list (list X) := take_chunks (length l / Z.to_nat k) (Z.to_nat k) l.

(** [torch.cat(ts, dim=1)] *)
Definition cat_rows {X} (ts : list (list (list X))) : list (list X) :=
  match ts with
  | [] => []
  | t :: ts => foldl (zip_with app) t ts
  end.

Section Draft.
Context {Score H : Type} (score_mul : Score -> Score -> Score).
Context (torch_max : list Score -> Score * Z) (torch_topk : list Score -> Z -> list (Score * Z)).

(** Scores, tokens and parents of one step, a row per request. *)
Record tree_info : Type := MkTreeInfo {
  ti_scores : list (list Score);
  ti_tokens : list (list Z);
  ti_parents : list (list Z)
}.

Definition topk_checked (values : list Score) (k : Z) : res (list (Score * Z)) :=
  if k <=? zlen values then Ok (torch_topk values k) else Raise RuntimeError.

Definition fast_topk (values : list Score) (topk : Z) : res (list (Score * Z)) :=
  if topk =? 1 then match values with [] => Raise IndexError | _ => Ok [torch_max values] end
  else topk_checked values topk.

Definition select_top_k_tokens_first (topk_p : list (list Score)) (topk_index : list (list Z)) (hidden_states : list H) (topk : Z)
    : list Z * list H * list (list Score) * tree_info :=
  let input_ids := concat topk_index in
  let hidden_states := concat (map (fun h => repeat h (Z.to_nat topk)) hidden_states) in
  (input_ids, hidden_states, topk_p, MkTreeInfo topk_p topk_index (map (fun _ => zrange (-1) topk) topk_p)).

Fixpoint gather_rows (rows : list (list Z)) (idx : list (list Z)) : res (list (list Z)) :=
  match rows, idx with
  | row :: rows, i :: idx => let* x := gather row i in let* xs := gather_rows rows idx in Ok (x :: xs)
  | _, _ => Ok []
  end.

Definition select_top_k_tokens_later (i : Z) (topk_p : list (list Score)) (topk_index : list (list Z)) (hidden_states : list H)
    (scores : list (list Score)) (topk : Z) : res (list Z * list H * list (list Score) * tree_info) :=
  let topk_sq := topk * topk in
  let expand_scores := zip_with (fun s rows => concat (zip_with (fun x row => map (score_mul x) row) s rows)) scores (chunks topk topk_p) in
  let* topk_cs := res_map (fun row => fast_topk row topk) expand_scores in
  let topk_cs_p := map (map fst) topk_cs in
  let topk_cs_index := map (map snd) topk_cs in
  let topk_index := map (@concat Z) (chunks topk topk_index) in
  let* input_ids := gather_rows topk_index topk_cs_index in
  let* hidden_states :=
    if 0 <? zlen hidden_states then
      let batch_offsets := map (fun b => Z.of_nat b * topk) (seq 0 (length topk_cs_index)) in
      let selected_input_index := concat (zip_with (fun b row => map (fun j => j / topk + b) row) batch_offsets topk_cs_index) in
      gather hidden_states selected_input_index
    else Ok hidden_states in
  Ok (concat input_ids, hidden_states, topk_cs_p,
      MkTreeInfo expand_scores topk_index (map (map (fun j => j + (topk_sq * (i - 1) + topk))) topk_cs_index)).

Definition select_top_k_tokens (i : Z) (topk_p : list (list Score)) (topk_index : list (list Z)) (hidden_states : list H)
    (scores : list (list Score)) (topk : Z) : res (list Z * list H * list (list Score) * tree_info) :=
  if i =? 0 then Ok (select_top_k_tokens_first topk_p topk_index hidden_states topk)
  else select_top_k_tokens_later i topk_p topk_index hidden_states scores topk.

(** [hot_token_id[topk_index]] *)
Definition map_hot (hot_token_id : option (list Z)) (topk_index : list (list Z)) : res (list (list Z)) :=
  match hot_token_id with
  | Some hot => res_map (gather hot) topk_index
  | None => Ok topk_index
  end.

(** The draft model: the probabilities of the next token and the hidden state of every input,
    from the step, the inputs, their slots, positions and hidden states. *)
Context (draft_runner : Z -> list Z -> list Z -> list Z -> list H -> list (list Score) * list H).
Context (hot_token_id : option (list Z)) (topk : Z).

(** The steps from [i] on, [todo] of them. *)
Fixpoint draft_steps (todo : nat) (i : Z) (slots : list (list Z)) (topk_p : list (list Score)) (topk_index : list (list Z))
    (hidden_states : list H) (scores : list (list Score)) (positions : list Z) : res (list tree_info) :=
  match todo with
  | O => Ok []
  | S todo =>
      let* (input_ids, hidden_states, scores, info) := select_top_k_tokens i topk_p topk_index hidden_states scores topk in
      match todo with
      | O => Ok [info]
      | S _ =>
          let out_cache_loc := omap (fun row => row !! Z.to_nat i) slots in
          let positions := map (fun p => p + 1) positions in
          let '(probs, hidden_states) := draft_runner i input_ids out_cache_loc positions hidden_states in
          let* top := res_map (fun row => fast_topk row topk) probs in
          let* topk_index := map_hot hot_token_id (map (map snd) top) in
          let* infos := draft_steps todo (i + 1) slots (map (map fst) top) topk_index hidden_states scores positions in
          Ok (info :: infos)
      end
  end.

(** [parents_list[:-1]], or no columns when there is only one step *)
Definition parents_of_expanded (parents_list : list (list (list Z))) : list (list Z) :=
  if (1 <? length parents_list)%nat then cat_rows (take (length parents_list - 1) parents_list)
  else match parents_list with [] => [] | p :: _ => map (fun _ => []) p end.

Definition organize_draft_results (infos : list tree_info) (num_draft_token : Z) : res (list (list Z) * list (list Z) * list (list Z)) :=
  let score_list := cat_rows (map ti_scores infos) in
  let ss_token_list := cat_rows (map ti_tokens infos) in
  let* top_scores := res_map (fun row => topk_checked row (num_draft_token - 1)) score_list in
  let top_scores_index := map (fun row => tsort (map snd row)) top_scores in
  let* draft_tokens := gather_rows ss_token_list top_scores_index in
  Ok (parents_of_expanded (map ti_parents infos), top_scores_index, draft_tokens).

Definition draft_forward (speculative_num_steps speculative_num_draft_tokens : Z) (topk_p : list (list Score)) (topk_index : list (list Z))
    (hidden_states : list H) (out_cache_loc positions : list Z) : res (list (list Z) * list (list Z) * list (list Z)) :=
  let* topk_index := map_hot hot_token_id topk_index in
  let slots := chunks speculative_num_steps out_cache_loc in
  let* infos := draft_steps (Z.to_nat speculative_num_steps) 0 slots topk_p topk_index hidden_states [] positions in
  organize_draft_results infos speculative_num_draft_tokens.
End Draft.
#[global] Arguments tree_info : clear implicits.

(** ** Shapes *)

Lemma length_take_chunks {X} m k : forall l : list X, length (take_chunks m k l) = m.
Proof. induction m as [|m IH]; intros l; [done|]. simpl. by rewrite IH. Qed.

Lemma take_chunks_lookup {X} m k : forall (l : list X) r, (r < m)%nat -> take_chunks m k l !! r = Some (take k (drop (r * k) l)).
Proof.
  induction m as [|m IH]; intros l [|r] Hr; [lia|lia|done|]. cbn [take_chunks lookup list_lookup]. rewrite IH by lia. by rewrite drop_drop.
Qed.

Lemma length_chunks {X} (k : Z) (l : list X) (bs : nat) : 1 <= k -> length l = (bs * Z.to_nat k)%nat -> length (chunks k l) = bs.
Proof. intros Hk Hl. unfold chunks. rewrite length_take_chunks, Hl. apply Nat.div_mul. lia. Qed.

Lemma chunks_lookup {X} (k : Z) (l : list X) (bs r : nat) : 1 <= k -> length l = (bs * Z.to_nat k)%nat -> (r < bs)%nat ->
  exists c, chunks k l !! r = Some c /\ length c = Z.to_nat k /\ forall x, x ∈ c -> x ∈ l.
Proof.
  intros Hk Hl Hr. unfold chunks. rewrite Hl, Nat.div_mul by lia. rewrite take_chunks_lookup by done. eexists. split; [done|]. split.
  - rewrite length_take, length_drop, Hl. nia.
  - intros x Hx. apply elem_of_take in Hx as (i & Hi & _). rewrite lookup_drop in Hi. by eapply list_elem_of_lookup_2.
Qed.

Lemma res_map_ok {X Y} (f : X -> res Y) (P : X -> Y -> Prop) l : Forall (fun x => exists y, f x = Ok y /\ P x y) l ->
  exists ys, res_map f l = Ok ys /\ Forall2 P l ys.
Proof.
  induction 1 as [|x l (y & E & Hy) _ (ys & Es & HF)]; [by exists []|]. exists (y :: ys). simpl. rewrite E, Es. split; [done|by constructor].
Qed.

Lemma gather_rows_ok (rows idx : list (list Z)) : length rows = length idx ->
  (forall r row i, rows !! r = Some row -> idx !! r = Some i -> Forall (fun j => 0 <= j < zlen row) i) ->
  exists out, gather_rows rows idx = Ok out /\ length out = length idx
    /\ forall r row i, rows !! r = Some row -> idx !! r = Some i -> exists o, out !! r = Some o /\ gather row i = Ok o /\ length o = length i.
Proof.
  revert idx. induction rows as [|row rows IH]; intros [|i idx] Hl Hin; simpl in Hl; try lia. { exists []. by split_and!. }
  destruct (gather_ok row i (Hin 0%nat row i eq_refl eq_refl)) as (x & Ex & Hlx & _).
  destruct (IH idx ltac:(lia) (fun r => Hin (S r))) as (xs & Es & Hls & Hat). exists (x :: xs). simpl. rewrite Ex, Es.
  split_and!; [done|simpl; lia|]. intros [|r] row' i'; simpl; [|apply Hat]. intros [= <-] [= <-]. eauto.
Qed.

Lemma concat_square {X} (k : nat) (rows : list (list X)) q x : (0 < k)%nat -> Forall (fun r => length r = k) rows -> concat rows !! q = Some x ->
  exists row, rows !! (q / k)%nat = Some row /\ row !! (q mod k)%nat = Some x.
Proof.
  intros Hk HF Hq. pose proof (lookup_lt_Some _ _ _ Hq) as Hlt. rewrite (length_concat_rows k) in Hlt by done.
  destruct (lookup_lt_is_Some_2 rows (q / k)%nat) as [row Hr]; [apply Nat.Div0.div_lt_upper_bound; lia|].
  exists row. split; [done|]. rewrite <- (concat_lookup_row k rows _ row _ HF Hr) by (apply Nat.mod_upper_bound; lia).
  rewrite <- Hq. f_equal. pose proof (Nat.div_mod_eq q k). lia.
Qed.

(** ** The tree *)

Section Laws.
Context {Score H : Type} (score_mul : Score -> Score -> Score).
Context (torch_max : list Score -> Score * Z) (torch_topk : list Score -> Z -> list (Score * Z)).
Context (lt : Score -> Score -> Prop) (prob : Score -> Prop).

(** [r] are values of [l] with their indices, and no value left out is better than one of them. *)
Definition top_of (l : list Score) (k : Z) (r : list (Score * Z)) : Prop :=
  zlen r = k /\ NoDup (map snd r) /\ Forall (fun p => 0 <= p.2 /\ l !! Z.to_nat p.2 = Some p.1) r
  /\ forall i x, l !! i = Some x -> Z.of_nat i ∉ map snd r -> Forall (fun p => ~ lt p.1 x) r.

Context (Hmax : forall l, l <> [] -> top_of l 1 [torch_max l]) (Htopk : forall l k, 0 <= k <= zlen l -> top_of l k (torch_topk l k)).
Context (Hmul : forall x p, prob p -> lt (score_mul x p) x).
Context (k : Z) (Hk : 1 <= k).
Abbreviation fast_topk := (fast_topk torch_max torch_topk).

Lemma fast_topk_ok l : k <= zlen l -> exists r, fast_topk l k = Ok r /\ top_of l k r.
Proof.
  intros Hl. unfold EagleTree.fast_topk. destruct (Z.eqb_spec k 1) as [-> |].
  - destruct l as [|x l]; [unfold zlen in Hl; simpl in Hl; lia|]. eexists. split; [done|]. by apply Hmax.
  - unfold topk_checked. destruct (Z.leb_spec k (zlen l)); [|lia]. eexists. split; [done|]. apply Htopk. lia.
Qed.

(** After step [i]: the scores and parents so far and the scores of the [k] nodes that the
    next step expands.  Entry [s] is below entry [parents[s / k]], and has a lower score. *)
Record tree_inv (i : Z) (flat : list Score) (parents : list Z) (scores : list Score) : Prop := {
  iv_flat : zlen flat = k + i * (k * k);
  iv_parents : zlen parents = 1 + (i + 1) * k;
  iv_scores : zlen scores = k;
  iv_frontier : forall a x, scores !! a = Some x -> exists s, parents !! (Z.to_nat (1 + i * k) + a)%nat = Some s
    /\ 0 <= s < zlen flat /\ flat !! Z.to_nat s = Some x /\ level k s = i + 1;
  iv_edge : forall s y, k <= s -> flat !! Z.to_nat s = Some y -> exists s' x, parents !! Z.to_nat (s / k) = Some s'
    /\ 0 <= s' < s /\ flat !! Z.to_nat s' = Some x /\ lt y x /\ level k s = level k s' + 1
}.

Lemma tree_inv_first row : zlen row = k -> tree_inv 0 row (zrange (-1) k) row.
Proof.
  intros Hl. split; [lia|rewrite zlen_zrange; lia|done| |].
  - intros a x Hx. exists (Z.of_nat a). pose proof (lookup_lt_Some _ _ _ Hx). split_and!; [|lia|unfold zlen in *; lia|by rewrite Nat2Z.id|].
    + apply lookup_zrange. unfold zlen in Hl. lia.
    + unfold level. unfold zlen in Hl. destruct (Z.ltb_spec (Z.of_nat a) k); lia.
  - intros s y Hs Hy. apply lookup_lt_Some in Hy. unfold zlen in Hl. lia.
Qed.

Lemma expand_blocks (scores : list Score) rows : zlen scores = k -> zlen rows = k -> Forall (fun r => zlen r = k /\ Forall prob r) rows ->
  Forall (fun r => length r = Z.to_nat k) (zip_with (fun x row => map (score_mul x) row) scores rows)
  /\ zlen (concat (zip_with (fun x row => map (score_mul x) row) scores rows)) = k * k.
Proof.
  intros Hs Hr HF. set (blocks := zip_with _ scores rows). unfold zlen in *. assert (Forall (fun r => length r = Z.to_nat k) blocks) as HB.
  { apply Forall_lookup. intros a b Hb. unfold blocks in Hb. rewrite lookup_zip_with in Hb. destruct (scores !! a) as [x|]; [|done]. simpl in Hb.
    destruct (rows !! a) as [row|] eqn:Er; [|done]. injection Hb as <-. rewrite Forall_lookup in HF. destruct (HF a row Er) as [Hrow _].
    rewrite length_map. lia. }
  split; [done|]. rewrite (length_concat_rows (Z.to_nat k)) by done. unfold blocks. rewrite length_zip_with. nia.
Qed.

Lemma tree_inv_step i flat parents scores rows cs : 1 <= i -> tree_inv (i - 1) flat parents scores ->
  zlen rows = k -> Forall (fun r => zlen r = k /\ Forall prob r) rows ->
  let expand := concat (zip_with (fun x row => map (score_mul x) row) scores rows) in top_of expand k cs ->
  zlen expand = k * k /\ tree_inv i (flat ++ expand) (parents ++ map (fun j => j + (k * k * (i - 1) + k)) (map snd cs)) (map fst cs).
Proof.
  intros Hi [Hf Hp Hs Hfr Hed] Hr HF expand (Hlc & _ & Hat & _). replace (i - 1 + 1) with i in Hp by lia.
  destruct (expand_blocks scores rows Hs Hr HF) as [HB Hle]. set (blocks := zip_with _ scores rows) in *. fold expand in Hle. unfold zlen in *.
  assert (forall q, 0 <= q < k * k -> level k (k * k * (i - 1) + k + q) = i + 1) as Hlev.
  { intros q Hq. unfold level. destruct (Z.ltb_spec (k * k * (i - 1) + k + q) k); [nia|].
    replace (k * k * (i - 1) + k + q - k) with ((i - 1) * (k * k) + q) by lia. rewrite Z.div_add_l, Z.div_small by nia. lia. }
  split; [lia|]. split; unfold zlen; rewrite ?length_app, ?length_map; try nia.
  - intros a x Hx. rewrite list_lookup_fmap in Hx. destruct (cs !! a) as [[v j]|] eqn:Ea; [|done]. simpl in Hx. injection Hx as ->.
    rewrite Forall_lookup in Hat. destruct (Hat a _ Ea) as [Hj Hv]. simpl in Hj, Hv. exists (j + (k * k * (i - 1) + k)).
    pose proof (lookup_lt_Some _ _ _ Hv). split_and!; [|nia|nia| |replace (j + (k * k * (i - 1) + k)) with (k * k * (i - 1) + k + j) by lia; apply Hlev; lia].
    + rewrite lookup_app_r by lia. replace (Z.to_nat (1 + i * k) + a - length parents)%nat with a by lia. by rewrite !list_lookup_fmap, Ea.
    + rewrite lookup_app_r by nia. rewrite <- Hv. f_equal. nia.
  - intros s y Hs1 Hy. destruct (decide (Z.to_nat s < length flat)%nat) as [Hlt|Hge].
    + rewrite lookup_app_l in Hy by done. destruct (Hed s y Hs1 Hy) as (s' & x & H1 & H2 & H3 & H4 & H5). exists s', x.
      pose proof (lookup_lt_Some _ _ _ H1). rewrite !lookup_app_l by lia. done.
    + rewrite lookup_app_r in Hy by lia. unfold expand in Hy. apply (concat_square (Z.to_nat k)) in Hy as (b & Hb & Hyb); [|lia|done].
      set (q := (Z.to_nat s - length flat)%nat) in *. unfold blocks in Hb. rewrite lookup_zip_with in Hb.
      destruct (scores !! (q / Z.to_nat k)%nat) as [x|] eqn:Ex; [|done]. simpl in Hb. destruct (rows !! (q / Z.to_nat k)%nat) as [row|] eqn:Er; [|done].
      injection Hb as <-. rewrite list_lookup_fmap in Hyb. destruct (row !! _) as [p|] eqn:Ep; [|done]. injection Hyb as <-.
      rewrite Forall_lookup in HF. destruct (HF _ row Er) as [_ Hprob]. rewrite Forall_lookup in Hprob. specialize (Hprob _ p Ep).
      destruct (Hfr _ x Ex) as (s' & Hs' & Hrange & Hxs & Hls'). exists s', x.
      assert (s / k = 1 + (i - 1) * k + Z.of_nat (q / Z.to_nat k)) as Hdiv.
      { rewrite Nat2Z.inj_div, Z2Nat.id by lia. replace s with ((1 + (i - 1) * k) * k + Z.of_nat q) by (unfold q; nia).
        by rewrite Z.div_add_l by lia. }
      split_and!; [|lia|lia|rewrite lookup_app_l by lia; done|by apply Hmul|].
      2:{ replace s with (k * k * (i - 1) + k + Z.of_nat q) by (unfold q; nia). rewrite Hlev, Hls'; [lia|]. pose proof (lookup_lt_Some _ _ _ Ex).
          pose proof (Nat.div_mod_eq q (Z.to_nat k)). pose proof (Nat.mod_upper_bound q (Z.to_nat k)). nia. }
      pose proof (lookup_lt_Some _ _ _ Hs'). rewrite lookup_app_l by (rewrite Hdiv; nia). rewrite <- Hs'. f_equal. rewrite Hdiv. nia.
Qed.

(** *** The batch *)

Context (bs : nat).

(** The rows of all requests, with as many tokens as scores. *)
Record rows_inv (i : Z) (flats : list (list Score)) (tokens parents : list (list Z)) (scores : list (list Score)) : Prop := {
  ri_flats : length flats = bs;
  ri_tokens : length tokens = bs;
  ri_parents : length parents = bs;
  ri_scores : length scores = bs;
  ri_tree : forall r f p s, flats !! r = Some f -> parents !! r = Some p -> scores !! r = Some s -> tree_inv i f p s;
  ri_width : forall r t, tokens !! r = Some t -> zlen t = k + i * (k * k)
}.

(** What a step is given: for every expanded node the [k] best tokens and their probabilities. *)
Record step_input (topk_p : list (list Score)) (topk_index : list (list Z)) : Prop := {
  si_p : length topk_p = (bs * Z.to_nat k)%nat;
  si_index : length topk_index = (bs * Z.to_nat k)%nat;
  si_rows : Forall (fun r => zlen r = k /\ Forall prob r) topk_p;
  si_tokens : Forall (fun r => zlen r = k) topk_index
}.

Lemma select_later_ok i topk_p topk_index (hidden : list H) flats tokens parents scores : 1 <= i ->
  rows_inv (i - 1) flats tokens parents scores -> step_input topk_p topk_index -> length hidden = (bs * Z.to_nat k)%nat ->
  exists ids hidden' scores' info,
    select_top_k_tokens_later score_mul torch_max torch_topk i topk_p topk_index hidden scores k = Ok (ids, hidden', scores', info)
    /\ length ids = (bs * Z.to_nat k)%nat
    /\ rows_inv i (zip_with app flats (ti_scores info)) (zip_with app tokens (ti_tokens info)) (zip_with app parents (ti_parents info)) scores'
    /\ length (ti_parents info) = bs /\ Forall (fun r => zlen r = k) (ti_parents info).
Proof.
  intros Hi [Hlf Hlt Hlp Hls Htree Hw] [Hp Hx Hrows Htoks] Hh. unfold select_top_k_tokens_later.
  set (expand := zip_with _ scores (chunks k topk_p)). pose proof (length_chunks k topk_p bs Hk Hp) as Hcp. pose proof (length_chunks k topk_index bs Hk Hx) as Hci.
  assert (length expand = bs) as Hle by (unfold expand; rewrite length_zip_with; lia).
  assert (forall r, (r < bs)%nat -> exists f p s c, flats !! r = Some f /\ parents !! r = Some p /\ scores !! r = Some s /\ chunks k topk_p !! r = Some c
    /\ expand !! r = Some (concat (zip_with (fun x row => map (score_mul x) row) s c)) /\ tree_inv (i - 1) f p s
    /\ zlen c = k /\ Forall (fun r => zlen r = k /\ Forall prob r) c) as Hat.
  { intros r Hr. destruct (lookup_lt_is_Some_2 flats r) as [f Ef]; [lia|]. destruct (lookup_lt_is_Some_2 parents r) as [p Ep]; [lia|].
    destruct (lookup_lt_is_Some_2 scores r) as [s Es]; [lia|]. destruct (chunks_lookup k topk_p bs r Hk Hp Hr) as (c & Ec & Hlc & Hin).
    exists f, p, s, c. split_and!; try done; [unfold expand; by rewrite lookup_zip_with, Es, Ec|by eapply Htree|unfold zlen; lia|].
    rewrite Forall_forall in Hrows. apply Forall_forall. auto. }
  destruct (res_map_ok (fun row => fast_topk row k) (fun row cs => top_of row k cs) expand) as (css & Ecs & HFcs).
  { apply Forall_lookup. intros r row Er. destruct (Hat r) as (f & p & s & c & _ & _ & _ & _ & E & Ht & Hc & HF); [apply lookup_lt_Some in Er; lia|].
    rewrite Er in E. injection E as ->. apply fast_topk_ok. destruct (expand_blocks s c (iv_scores _ _ _ _ Ht) Hc HF) as [_ ->]. nia. }
  rewrite Ecs. cbn [res_bind]. pose proof (Forall2_length _ _ _ HFcs) as Hlcs. set (rows := map (@concat Z) (chunks k topk_index)).
  assert (forall r row, rows !! r = Some row -> zlen row = k * k) as Hrw.
  { intros r row Er. unfold rows in Er. rewrite list_lookup_fmap in Er. destruct (chunks k topk_index !! r) as [c|] eqn:Ec; [|done]. injection Er as <-.
    destruct (chunks_lookup k topk_index bs r Hk Hx) as (c' & Ec' & Hlc & Hin); [apply lookup_lt_Some in Ec; lia|]. rewrite Ec in Ec'. injection Ec' as <-.
    unfold zlen. rewrite (length_concat_rows (Z.to_nat k)); [nia|]. apply Forall_forall. intros x Hxc. rewrite Forall_forall in Htoks.
    specialize (Htoks x (Hin x Hxc)). unfold zlen in Htoks. lia. }
  assert (forall r cs, css !! r = Some cs -> exists row, expand !! r = Some row /\ zlen row = k * k /\ top_of row k cs
    /\ Forall (fun j => 0 <= j < k * k) (map snd cs)) as Hcs.
  { intros r cs Er. destruct (Forall2_lookup_r _ _ _ r cs HFcs Er) as (row & Erow & Htop). exists row.
    destruct (Hat r) as (f & p & s & c & _ & _ & _ & _ & E & Ht & Hc & HF); [apply lookup_lt_Some in Erow; lia|]. rewrite Erow in E. injection E as ->.
    destruct (expand_blocks s c (iv_scores _ _ _ _ Ht) Hc HF) as [_ Hz]. split_and!; try done. destruct Htop as (_ & _ & HF' & _).
    apply List.Forall_map. eapply Forall_impl; [exact HF'|]. intros [v j] [H0 Hj]. simpl in *. apply lookup_lt_Some in Hj. unfold zlen in Hz. lia. }
  destruct (gather_rows_ok rows (map (map snd) css)) as (ids & Eids & Hlids & Hids).
  { unfold rows. rewrite !length_map. lia. }
  { intros r row idx Er Ei. rewrite list_lookup_fmap in Ei. destruct (css !! r) as [cs|] eqn:Ec; [|done]. injection Ei as <-.
    rewrite (Hrw r row Er). by destruct (Hcs r cs Ec) as (_ & _ & _ & _ & HF). }
  rewrite Eids. cbn [res_bind]. rewrite length_map in Hlids.
  assert (exists h', (if 0 <? zlen hidden then gather hidden (concat (zip_with (fun b row => map (fun j => j / k + b) row)
    (map (fun b => Z.of_nat b * k) (seq 0 (length (map (map snd) css)))) (map (map snd) css))) else Ok hidden) = Ok h') as [h' ->].
  { destruct (Z.ltb_spec 0 (zlen hidden)); [|eauto]. edestruct (gather_ok hidden) as (h' & -> & _); [|eauto].
    apply Forall_concat, Forall_lookup. intros r row Er. rewrite lookup_zip_with in Er. rewrite !list_lookup_fmap in Er.
    destruct (seq 0 _ !! r) as [b|] eqn:Eb; [|done]. simpl in Er. apply lookup_seq in Eb as [-> _]. destruct (css !! r) as [cs|] eqn:Ec; [|done].
    simpl in Er. injection Er as <-. destruct (Hcs r cs Ec) as (_ & _ & _ & _ & HF). apply List.Forall_map. eapply Forall_impl; [exact HF|].
    intros j Hj. cbv beta in Hj |- *. apply lookup_lt_Some in Ec. assert (0 <= j / k < k) by (split; [apply Z.div_pos; lia|apply Z.div_lt_upper_bound; lia]).
    unfold zlen. rewrite Hh. nia. }
  cbn [res_bind]. eexists _, h', _, _. split; [done|]. cbn [ti_scores ti_tokens ti_parents]. split.
  { rewrite (length_concat_rows (Z.to_nat k)); [lia|]. apply Forall_lookup. intros r o Eo. pose proof (lookup_lt_Some _ _ _ Eo) as Hr.
    destruct (lookup_lt_is_Some_2 rows r) as [row Er]; [unfold rows; rewrite length_map; lia|]. destruct (lookup_lt_is_Some_2 css r) as [cs Ec]; [lia|].
    destruct (Hids r row (map snd cs) Er) as (o' & Eo' & _ & Hlo); [by rewrite list_lookup_fmap, Ec|]. rewrite Eo in Eo'. injection Eo' as <-.
    destruct (Hcs r cs Ec) as (_ & _ & _ & (Hz & _) & _). rewrite Hlo, length_map. unfold zlen in Hz. lia. }
  split; [|split; [rewrite !length_map; lia|]].
  2:{ apply Forall_lookup. intros r row Er. rewrite !list_lookup_fmap in Er. destruct (css !! r) as [cs|] eqn:Ec; [|done]. simpl in Er. injection Er as <-.
    destruct (Hcs r cs Ec) as (_ & _ & _ & (Hz & _) & _). unfold zlen in *. by rewrite !length_map. }
  split; rewrite ?length_zip_with, ?length_map; try (unfold rows; rewrite ?length_map); try lia.
  - intros r f p s Ef Ep Es. rewrite lookup_zip_with in Ef. rewrite lookup_zip_with in Ep. destruct (flats !! r) as [f0|] eqn:Ef0; [|done]. destruct (parents !! r) as [p0|] eqn:Ep0; [|done].
    cbn in Ef, Ep. rewrite !list_lookup_fmap in Ep. rewrite list_lookup_fmap in Es. destruct (css !! r) as [cs|] eqn:Ec; [|done]. cbn in Ep, Es.
    injection Ep as <-. injection Es as <-. destruct (Hat r) as (f1 & p1 & s1 & c & E1 & E2 & _ & _ & Ee & Ht & Hc & HF); [apply lookup_lt_Some in Ef0; lia|].
    rewrite E1 in Ef0. rewrite E2 in Ep0. injection Ef0 as ->. injection Ep0 as ->. rewrite Ee in Ef. injection Ef as <-.
    destruct (Hcs r cs Ec) as (row & Er & _ & Htop & _). rewrite Ee in Er. injection Er as <-. by apply (tree_inv_step i f0 p0 s1 c cs Hi Ht Hc HF).
  - intros r t Et. fold rows in Et. rewrite lookup_zip_with in Et. destruct (tokens !! r) as [t0|] eqn:Et0; [|done]. destruct (rows !! r) as [row|] eqn:Er; [|done].
    injection Et as <-. rewrite zlen_app, (Hw r t0 Et0), (Hrw r row Er). lia.
Qed.

(** *** The steps *)

Context (draft_runner : Z -> list Z -> list Z -> list Z -> list H -> list (list Score) * list H) (hot_token_id : option (list Z)).

(** The draft model answers every input with probabilities for at least [k] tokens, all of
    them known to the table of hot tokens. *)
Definition runner_ok : Prop := forall i ids loc pos h, let '(probs, h') := draft_runner i ids loc pos h in
  length probs = length ids /\ length h' = length ids
  /\ Forall (fun row => k <= zlen row /\ Forall prob row /\ match hot_token_id with Some t => zlen row <= zlen t | None => True end) probs.

Lemma top_input probs : length probs = (bs * Z.to_nat k)%nat ->
  Forall (fun row => k <= zlen row /\ Forall prob row /\ match hot_token_id with Some t => zlen row <= zlen t | None => True end) probs ->
  exists top idx, res_map (fun row => fast_topk row k) probs = Ok top /\ map_hot hot_token_id (map (map snd) top) = Ok idx
    /\ step_input (map (map fst) top) idx.
Proof.
  intros Hl HF. destruct (res_map_ok (fun row => fast_topk row k) (fun row r => top_of row k r) probs) as (top & -> & HT).
  { eapply Forall_impl; [exact HF|]. intros row (Hz & _). by apply fast_topk_ok. }
  pose proof (Forall2_length _ _ _ HT) as Hlt.
  assert (forall r t, top !! r = Some t -> exists row, probs !! r = Some row /\ top_of row k t) as Hat.
  { intros r t Et. destruct (Forall2_lookup_r _ _ _ r t HT Et) as (row & Er & Htop). eauto. }
  assert (exists idx, map_hot hot_token_id (map (map snd) top) = Ok idx /\ length idx = length top /\ Forall (fun r => zlen r = k) idx) as (idx & Ei & Hli & Hzi).
  { assert (Forall (fun r => zlen r = k) (map (map snd) top)) as Hw.
    { apply Forall_lookup. intros r row Er. rewrite list_lookup_fmap in Er. destruct (top !! r) as [t|] eqn:Et; [|done]. simpl in Er. injection Er as <-.
      destruct (Hat r t Et) as (row & _ & Hz & _). unfold zlen in *. by rewrite length_map. }
    unfold map_hot. destruct hot_token_id as [hot|]; [|exists (map (map snd) top); by rewrite length_map].
    destruct (res_map_ok (gather hot) (fun i o => length o = length i) (map (map snd) top)) as (idx & -> & Hidx).
    { apply Forall_lookup. intros r row Er. rewrite list_lookup_fmap in Er. destruct (top !! r) as [t|] eqn:Et; [|done]. simpl in Er. injection Er as <-.
      destruct (Hat r t Et) as (row & Erow & _ & _ & HF' & _). rewrite Forall_lookup in HF. destruct (HF r row Erow) as (_ & _ & Hz).
      destruct (gather_ok hot (map snd t)) as (o & Eo & Hlo & _); [|eauto]. apply List.Forall_map. eapply Forall_impl; [exact HF'|].
      intros [v j] [H0 Hj]. simpl in *. apply lookup_lt_Some in Hj. unfold zlen in *. lia. }
    exists idx. split; [done|]. pose proof (Forall2_length _ _ _ Hidx) as Hl2. rewrite length_map in Hl2. split; [lia|].
    apply Forall_lookup. intros r o Eo. destruct (Forall2_lookup_r _ _ _ r o Hidx Eo) as (i & Ei & Hlo). rewrite Forall_lookup in Hw. specialize (Hw r i Ei).
    unfold zlen in *. lia. }
  exists top, idx. split_and!; try done. split; rewrite ?length_map; try lia; [|done].
  apply Forall_lookup. intros r row Er. rewrite list_lookup_fmap in Er. destruct (top !! r) as [t|] eqn:Et; [|done]. simpl in Er. injection Er as <-.
  destruct (Hat r t Et) as (row & Erow & Hz & _ & HF' & _). unfold zlen in *. rewrite length_map. split; [done|]. apply List.Forall_map.
  rewrite Forall_lookup in HF. destruct (HF r row Erow) as (_ & Hp & _). rewrite Forall_lookup in Hp. eapply Forall_impl; [exact HF'|].
  intros [v j] [H0 Hj]. simpl in *. exact (Hp _ v Hj).
Qed.

Context (Hrunner : runner_ok).
Abbreviation draft_steps := (draft_steps score_mul torch_max torch_topk draft_runner hot_token_id k).
Abbreviation cat := (foldl (zip_with app)).

Lemma draft_steps_ok slots : forall todo i topk_p topk_index hidden scores positions flats tokens parents, 1 <= i ->
  rows_inv (i - 1) flats tokens parents scores -> step_input topk_p topk_index -> length hidden = (bs * Z.to_nat k)%nat ->
  exists infos scores', draft_steps todo i slots topk_p topk_index hidden scores positions = Ok infos /\ length infos = todo
    /\ rows_inv (i - 1 + Z.of_nat todo) (cat flats (map ti_scores infos)) (cat tokens (map ti_tokens infos)) (cat parents (map ti_parents infos)) scores'
    /\ Forall (fun info => length (ti_parents info) = bs /\ Forall (fun r => zlen r = k) (ti_parents info)) infos.
Proof.
  induction todo as [|todo IH]; intros i topk_p topk_index hidden scores positions flats tokens parents Hi Hinv Hin Hh.
  { exists [], scores. split_and!; try done. cbn. by rewrite Z.add_0_r. }
  cbn [EagleTree.draft_steps]. unfold select_top_k_tokens. destruct (Z.eqb_spec i 0); [lia|].
  destruct (select_later_ok i topk_p topk_index hidden flats tokens parents scores Hi Hinv Hin Hh) as (ids & h' & scores' & info & -> & Hids & Hinv' & Hpar).
  cbn [res_bind]. destruct todo as [|todo].
  { exists [info], scores'. split_and!; try done; [|by constructor]. cbn [map foldl]. by replace (i - 1 + Z.of_nat 1) with i by lia. }
  specialize (Hrunner i ids (omap (fun row => row !! Z.to_nat i) slots) (map (fun p => p + 1) positions) h').
  destruct (draft_runner i ids _ _ h') as [probs h2]. destruct Hrunner as (Hl1 & Hl2 & HF). rewrite Hids in Hl1, Hl2.
  destruct (top_input probs Hl1 HF) as (top & idx & -> & Ei & Hst). cbn [res_bind]. rewrite Ei. cbn [res_bind].
  destruct (IH (i + 1) (map (map fst) top) idx h2 scores' (map (fun p => p + 1) positions) _ _ _ ltac:(lia)
    ltac:(replace (i + 1 - 1) with i by lia; exact Hinv') Hst Hl2) as (infos & scores2 & -> & Hlen & Hfin & HP).
  cbn [res_bind]. exists (info :: infos), scores2. split_and!; [done|simpl; lia| |by constructor]. cbn [map foldl].
  by replace (i - 1 + Z.of_nat (S (S todo))) with (i + 1 - 1 + Z.of_nat (S todo)) by lia.
Qed.

Lemma zip_app_lookup {X} (l l' : list (list X)) r : (zip_with app l l' !! r) = x ← l !! r; y ← l' !! r; Some (x ++ y).
Proof. rewrite lookup_zip_with. by destruct (l !! r), (l' !! r). Qed.

(** The parents without those of the last step are enough for every edge. *)
Lemma parents_before (steps : Z) f p s (last : list Z) : zlen last = k -> tree_inv steps f (p ++ last) s ->
  forall x y, k <= x -> f !! Z.to_nat x = Some y -> exists x' z, p !! Z.to_nat (x / k) = Some x' /\ 0 <= x' < x /\ f !! Z.to_nat x' = Some z /\ lt y z /\ level k x = level k x' + 1.
Proof.
  intros Hlast [Hf Hp _ _ Hed] x y Hx Hy. destruct (Hed x y Hx Hy) as (x' & z & H1 & H2 & H3 & H4 & H5). exists x', z. split_and!; try done; try lia.
  rewrite lookup_app_l in H1; [done|]. apply lookup_lt_Some in Hy. unfold zlen in *. rewrite length_app in Hp.
  assert (x / k < 1 + steps * k) by (apply Z.div_lt_upper_bound; nia). nia.
Qed.

Lemma sorted_indices l : NoDup l -> forall i j x y, (i < j)%nat -> tsort l !! i = Some x -> tsort l !! j = Some y -> x < y.
Proof.
  intros Hnd i j x y Hij Hx Hy. pose proof (tsort_sorted l) as Hs. pose proof (tsort_perm l) as Hp.
  assert (x <= y).
  { clear Hp. revert i j Hij Hx Hy. induction Hs as [|a l' _ IH HF]; intros [|i] [|j] Hij Hx Hy; try done; try lia; simpl in Hx, Hy.
    - injection Hx as <-. by apply (proj1 (Forall_lookup _ _) HF j y).
    - apply (IH i j); try done. lia. }
  assert (x <> y); [|lia]. intros ->. assert (NoDup (tsort l)) as Hnd' by (by rewrite Hp). pose proof (NoDup_lookup _ _ _ _ Hnd' Hx Hy). lia.
Qed.

(** Selecting the best entries of one request's table gives a tree. *)
Lemma selection_closed i f p s parents top n : 0 <= i -> tree_inv i f p s -> 1 <= n -> top_of f (n - 1) top ->
  (forall x y, k <= x -> f !! Z.to_nat x = Some y -> exists x' z, parents !! Z.to_nat (x / k) = Some x' /\ 0 <= x' < x /\ f !! Z.to_nat x' = Some z /\ lt y z /\ level k x = level k x' + 1) ->
  tree_rows parents (tsort (map snd top)) k n (i + 1).
Proof.
  intros Hi Hinv Hn (Hlen & Hnd & HF & Hbest) Hpar. pose proof (tsort_perm (map snd top)) as Hperm.
  split; [done|done| |by apply sorted_indices| | |].
  - rewrite (zlen_perm _ _ Hperm). by rewrite zlen_map.
  - rewrite Hperm. apply List.Forall_map. eapply Forall_impl; [exact HF|]. by intros [v j] [H0 _].
  - intros x Hx Hkx. rewrite Hperm in Hx. apply list_elem_of_fmap in Hx as ([v j] & -> & Hin). simpl in Hkx |- *.
    rewrite Forall_forall in HF. destruct (HF _ Hin) as [H0 Hv]. simpl in H0, Hv. destruct (Hpar j v Hkx Hv) as (x' & z & Hp & Hr & Hz & Hlt & Hlev).
    exists x'. split_and!; [done| |lia|done]. rewrite Hperm. destruct (decide (x' ∈ map snd top)) as [|Hout]; [done|].
    exfalso. specialize (Hbest (Z.to_nat x') z Hz). rewrite Z2Nat.id in Hbest by lia. specialize (Hbest Hout).
    rewrite Forall_forall in Hbest. by apply (Hbest _ Hin).
  - intros x Hx. rewrite Hperm in Hx. apply list_elem_of_fmap in Hx as ([v j] & -> & Hin). rewrite Forall_forall in HF. destruct (HF _ Hin) as [H0 Hv].
    simpl in H0, Hv |- *. apply lookup_lt_Some in Hv. pose proof (iv_flat _ _ _ _ Hinv) as Hz. unfold zlen in Hz. unfold level.
    destruct (Z.ltb_spec j k); [lia|]. assert ((j - k) / (k * k) < i) by (apply Z.div_lt_upper_bound; nia). lia.
Qed.

Lemma cat_snoc {X} (ts : list (list (list X))) t : ts <> [] -> cat_rows (ts ++ [t]) = zip_with app (cat_rows ts) t.
Proof. destruct ts as [|t0 ts]; [done|]. intros _. cbn [app cat_rows]. by rewrite foldl_app. Qed.

(** All steps together. *)
Lemma draft_infos_ok steps topk_p topk_index hidden slots positions : 1 <= steps ->
  length topk_p = bs -> length topk_index = bs -> length hidden = bs ->
  Forall (fun r => zlen r = k) topk_p -> Forall (fun r => zlen r = k) topk_index ->
  exists infos scores, draft_steps (Z.to_nat steps) 0 slots topk_p topk_index hidden [] positions = Ok infos /\ length infos = Z.to_nat steps
    /\ rows_inv (steps - 1) (cat_rows (map ti_scores infos)) (cat_rows (map ti_tokens infos)) (cat_rows (map ti_parents infos)) scores
    /\ Forall (fun info => length (ti_parents info) = bs) infos /\ Forall (fun info => Forall (fun r => zlen r = k) (ti_parents info)) (drop 1 infos).
Proof.
  intros Hs Hlp Hli Hlh Hp Hx. destruct (Z.to_nat steps) as [|todo] eqn:Et; [lia|]. cbn [EagleTree.draft_steps]. unfold select_top_k_tokens, select_top_k_tokens_first.
  cbn [Z.eqb res_bind]. set (info0 := MkTreeInfo topk_p topk_index _).
  assert (rows_inv 0 topk_p topk_index (ti_parents info0) topk_p) as Hinv.
  { split; try done; [by cbn; rewrite length_map| |].
    - intros r f p s Ef Ep Es. rewrite Ef in Es. injection Es as <-. cbn [info0 ti_parents] in Ep. rewrite list_lookup_fmap, Ef in Ep. injection Ep as <-.
      apply tree_inv_first. by apply (proj1 (Forall_lookup _ _) Hp r f).
    - intros r t Er. rewrite (proj1 (Forall_lookup _ _) Hx r t Er). lia. }
  destruct todo as [|todo].
  { exists [info0], topk_p. split_and!; try done; [|apply Forall_singleton; cbn; by rewrite length_map]. cbn [map cat_rows foldl info0 ti_scores ti_tokens]. by replace (steps - 1) with 0 by lia. }
  set (ids := concat topk_index). set (h1 := concat _). set (pos := map _ positions). pose proof (Hrunner 0 ids (omap (fun row => row !! Z.to_nat 0) slots) pos h1) as Hrun.
  destruct (draft_runner 0 ids _ pos h1) as [probs h2]. destruct Hrun as (Hl1 & Hl2 & HF).
  assert (length ids = (bs * Z.to_nat k)%nat) as Hids.
  { unfold ids. rewrite (length_concat_rows (Z.to_nat k)); [lia|]. eapply Forall_impl; [exact Hx|]. intros r Hr. unfold zlen in Hr. lia. }
  rewrite Hids in Hl1, Hl2. destruct (top_input probs Hl1 HF) as (top & idx & -> & Ei & Hst). cbn [res_bind]. rewrite Ei. cbn [res_bind].
  destruct (draft_steps_ok slots (S todo) 1 (map (map fst) top) idx h2 topk_p pos topk_p topk_index (ti_parents info0) ltac:(lia) Hinv Hst Hl2)
    as (infos & scores & E & Hlen & Hfin & HP). change (0 + 1) with 1. rewrite E. cbn [res_bind]. exists (info0 :: infos), scores.
  split_and!; [done|simpl; lia| |constructor; [cbn; by rewrite length_map|]; eapply Forall_impl; [exact HP|]; by intros ? []
    |eapply Forall_impl; [exact HP|]; by intros ? []]. cbn [map cat_rows]. by replace (steps - 1) with (1 - 1 + Z.of_nat (S todo)) by lia.
Qed.

Lemma length_cat {X} (ts : list (list (list X))) : ts <> [] -> Forall (fun t => length t = bs) ts -> length (cat_rows ts) = bs.
Proof.
  intros Hne HF. destruct ts as [|t ts]; [done|]. apply Forall_cons in HF as [Ht HF]. cbn [cat_rows]. clear Hne. revert t Ht.
  induction HF as [|u ts Hu _ IH]; intros t Ht; [done|]. cbn [foldl]. apply IH. rewrite length_zip_with. lia.
Qed.

(** Dropping the parents of the last step loses no edge. *)
Lemma expanded_edges (P : list (list (list Z))) : P <> [] -> Forall (fun t => length t = bs) P -> Forall (Forall (fun r => zlen r = k)) (drop 1 P) ->
  length (parents_of_expanded P) = bs
  /\ forall r parents f p s, parents_of_expanded P !! r = Some parents -> cat_rows P !! r = Some p -> tree_inv (Z.of_nat (length P) - 1) f p s ->
     forall x y, k <= x -> f !! Z.to_nat x = Some y -> exists x' z, parents !! Z.to_nat (x / k) = Some x' /\ 0 <= x' < x /\ f !! Z.to_nat x' = Some z /\ lt y z /\ level k x = level k x' + 1.
Proof.
  intros HP Hl HF. unfold parents_of_expanded. destruct (Nat.ltb_spec 1 (length P)) as [Hgt|Hle].
  - destruct (exists_last HP) as (P' & last & ->). rewrite length_app in Hgt |- *. simpl in Hgt |- *.
    assert (P' <> []) as Hne by (destruct P'; [simpl in Hgt; lia|done]). rewrite (cat_snoc P' last Hne). replace (length P' + 1 - 1)%nat with (length P') by lia.
    rewrite take_app_length. apply Forall_app in Hl as [Hl _].
    assert (Forall (fun r => zlen r = k) last) as Hlast.
    { rewrite drop_app_le in HF by (destruct P'; [done|simpl; lia]). apply Forall_app in HF as [_ HF2]. exact (proj1 (Forall_singleton _ _) HF2). }
    split; [by apply length_cat|]. intros r parents f p s Er Ep Ht. rewrite lookup_zip_with, Er in Ep. simpl in Ep.
    destruct (last !! r) as [lr|] eqn:El; [|done]. injection Ep as <-. eapply parents_before; [|exact Ht]. by apply (proj1 (Forall_lookup _ _) Hlast r lr).
  - destruct P as [|p0 [|]]; [done| |simpl in Hle; lia]. apply (proj1 (Forall_singleton _ _)) in Hl. cbv beta in Hl. split; [simpl; rewrite length_map; exact Hl|].
    intros r parents f p s _ _ Ht x y Hx Hy. change (Z.of_nat (length [p0]) - 1) with 0 in Ht. pose proof (iv_flat _ _ _ _ Ht). apply lookup_lt_Some in Hy. unfold zlen in *. lia.
Qed.

Abbreviation draft_forward := (draft_forward score_mul torch_max torch_topk draft_runner hot_token_id k).

(** Drafting returns, for every request, a selection of [n - 1] entries that is a tree, and
    their tokens. *)
Lemma draft_forward_ok steps n topk_p topk_index hidden out positions : 1 <= steps -> 1 <= n -> n - 1 <= k + (steps - 1) * (k * k) ->
  length topk_p = bs -> length topk_index = bs -> length hidden = bs -> Forall (fun r => zlen r = k) topk_p ->
  Forall (fun r => zlen r = k /\ match hot_token_id with Some t => Forall (fun j => 0 <= j < zlen t) r | None => True end) topk_index ->
  exists parent_list sels draft_tokens,
    draft_forward steps n topk_p topk_index hidden out positions = Ok (parent_list, sels, draft_tokens)
    /\ length parent_list = bs /\ length sels = bs /\ length draft_tokens = bs
    /\ (forall r parents sel, parent_list !! r = Some parents -> sels !! r = Some sel -> tree_rows parents sel k n steps)
    /\ Forall (fun t => zlen t = n - 1) draft_tokens.
Proof.
  intros Hs Hn Hle Hlp Hli Hlh Hp Hx. unfold EagleTree.draft_forward.
  assert (exists idx, map_hot hot_token_id topk_index = Ok idx /\ length idx = bs /\ Forall (fun r => zlen r = k) idx) as (idx & -> & Hli' & Hx').
  { unfold map_hot. destruct hot_token_id as [t|]; [|exists topk_index; split_and!; try done; eapply Forall_impl; [exact Hx|]; by intros r []].
    destruct (res_map_ok (gather t) (fun i o => length o = length i) topk_index) as (idx & E & HF).
    { eapply Forall_impl; [exact Hx|]. intros r [_ Hr]. destruct (gather_ok t r Hr) as (o & Eo & Hlo & _). eauto. }
    exists idx. split; [done|]. pose proof (Forall2_length _ _ _ HF). split; [lia|]. apply Forall_lookup. intros r o Eo.
    destruct (Forall2_lookup_r _ _ _ r o HF Eo) as (i & Ei & Hlo). destruct (proj1 (Forall_lookup _ _) Hx r i Ei) as [Hz _]. unfold zlen in *. lia. }
  cbn [res_bind]. destruct (draft_infos_ok steps topk_p idx hidden (chunks steps out) positions Hs Hlp Hli' Hlh Hp Hx') as (infos & scores & -> & Hlen & Hinv & HP1 & HP2).
  cbn [res_bind]. unfold organize_draft_results. pose proof Hinv as [Hlf Hlt Hlpar Hls Htree Hw].
  set (flats := cat_rows (map ti_scores infos)) in *. set (tokens := cat_rows (map ti_tokens infos)) in *. set (pars := cat_rows (map ti_parents infos)) in *.
  assert (forall r f, flats !! r = Some f -> exists p s, pars !! r = Some p /\ scores !! r = Some s /\ tree_inv (steps - 1) f p s) as Hat.
  { intros r f Ef. pose proof (lookup_lt_Some _ _ _ Ef). destruct (lookup_lt_is_Some_2 pars r) as [p Ep]; [lia|].
    destruct (lookup_lt_is_Some_2 scores r) as [s Es]; [lia|]. exists p, s. split_and!; try done. by apply (Htree r). }
  destruct (res_map_ok (fun row => topk_checked torch_topk row (n - 1)) (fun row t => top_of row (n - 1) t) flats) as (tops & -> & HT).
  { apply Forall_lookup. intros r f Ef. destruct (Hat r f Ef) as (p & s & _ & _ & Ht). unfold topk_checked. pose proof (iv_flat _ _ _ _ Ht) as Hz.
    destruct (Z.leb_spec (n - 1) (zlen f)); [|lia]. eexists. split; [done|]. apply Htopk. lia. }
  cbn [res_bind]. pose proof (Forall2_length _ _ _ HT) as HlT. set (sels := map (fun row => tsort (map snd row)) tops).
  assert (forall r sel, sels !! r = Some sel -> exists f t, flats !! r = Some f /\ tops !! r = Some t /\ sel = tsort (map snd t) /\ top_of f (n - 1) t) as Hsel.
  { intros r sel Er. unfold sels in Er. rewrite list_lookup_fmap in Er. destruct (tops !! r) as [t|] eqn:Et; [|done]. injection Er as <-.
    destruct (Forall2_lookup_r _ _ _ r t HT Et) as (f & Ef & Htop). eauto 10. }
  destruct (gather_rows_ok tokens sels) as (toks & -> & Hltoks & Htoks).
  { unfold sels. rewrite length_map. lia. }
  { intros r row sel Er Es. destruct (Hsel r sel Es) as (f & t & Ef & _ & -> & (_ & _ & HF & _)). rewrite (Hw r row Er).
    destruct (Hat r f Ef) as (p & s & _ & _ & Ht). pose proof (iv_flat _ _ _ _ Ht) as Hz. rewrite (tsort_perm (map snd t)). apply List.Forall_map.
    eapply Forall_impl; [exact HF|]. intros [v j] [H0 Hj]. simpl in *. apply lookup_lt_Some in Hj. unfold zlen in Hz. lia. }
  assert (length sels = bs) as Hlsel by (unfold sels; rewrite length_map; lia). cbn [res_bind]. eexists _, sels, toks. split; [done|].
  destruct (expanded_edges (map ti_parents infos)) as [Hlpl Hedge].
  { destruct infos; [simpl in Hlen; lia|done]. }
  { by apply List.Forall_map. }
  { rewrite skipn_map. by apply List.Forall_map. }
  rewrite length_map, Hlen, Z2Nat.id in Hedge by lia.
  split_and!; try done; [lia| |].
  - intros r parents sel Er Es. destruct (Hsel r sel Es) as (f & t & Ef & _ & -> & Htop). destruct (Hat r f Ef) as (p & s & Ep & _ & Ht).
    replace steps with (steps - 1 + 1) by lia. apply (selection_closed (steps - 1) f p s); try done; [lia|]. by apply (Hedge r parents f p s).
  - apply Forall_lookup. intros r o Eo. pose proof (lookup_lt_Some _ _ _ Eo). destruct (lookup_lt_is_Some_2 sels r) as [sel Es]; [lia|].
    destruct (lookup_lt_is_Some_2 tokens r) as [row Er]; [lia|]. destruct (Htoks r row sel Er Es) as (o' & Eo' & _ & Hlo). rewrite Eo in Eo'. injection Eo' as <-.
    destruct (Hsel r sel Es) as (f & t & _ & _ & -> & (Hz & _)). unfold zlen in *. rewrite Hlo, (Permutation_length (tsort_perm (map snd t))), length_map. lia.
Qed.
End Laws.
