(* ===== verification/TreeVerify.v ===== *)
(** Greedy verification of a tree of drafts: [verify_tree_greedy_native] of
    [sgl_kernel_npu/speculative.py]. *)

From S2P Require Export BuildTree.
From S2P Require Import SpecKernels EagleRows.

Section Row.
Context (candidates retrive_index retrive_next_token retrive_next_sibling target_predict : list Z) (bx num_draft_tokens : Z).

(** The [while cur_node != -1] loop: the first sibling whose token is the target's choice, with
    its index and the token. *)
Fixpoint find_sibling (fuel : nat) (cur_node last_accepted_idx : Z) : res (option (Z * Z * Z)) :=
  match fuel with
  | O => Raise RuntimeError
  | S fuel =>
      if cur_node =? -1 then Ok None
      else
        let* draft_idx := tensor_at retrive_index cur_node in
        let* draft_token := tensor_at candidates cur_node in
        let* target_token := tensor_at target_predict (last_accepted_idx - num_draft_tokens * bx) in
        if draft_token =? target_token then Ok (Some (cur_node, draft_idx, target_token))
        else
          let* cur_node := tensor_at retrive_next_sibling cur_node in
          find_sibling fuel cur_node last_accepted_idx
  end.

(** The state of the walk: [predicts], the row of [accept_index], [num_accepted] and
    [last_accepted_idx]. *)
Fixpoint walk (todo : nat) (cur_node : Z) (st : list Z * list Z * Z * Z) : res (list Z * list Z * Z * Z) :=
  match todo with
  | O => Ok st
  | S todo =>
      let '(predicts, accept_index, num_accepted, last_accepted_idx) := st in
      let* cur_node := tensor_at retrive_next_token cur_node in
      let* found := find_sibling (S (length candidates)) cur_node last_accepted_idx in
      match found with
      | None => Ok st
      | Some (cur_node, draft_idx, target_token) =>
          let* predicts := tensor_set predicts last_accepted_idx target_token in
          let num_accepted := num_accepted + 1 in
          let* accept_index := tensor_set accept_index num_accepted draft_idx in
          walk todo cur_node (predicts, accept_index, num_accepted, draft_idx)
      end
  end.

Definition verify_row (predicts accept_index : list Z) : res (list Z * list Z * Z) :=
  let* last_accepted_idx := tensor_at retrive_index 0 in
  let* accept_index := tensor_set accept_index 0 last_accepted_idx in
  let* (predicts, accept_index, num_accepted, last_accepted_idx) :=
    walk (Z.to_nat (num_draft_tokens - 1)) 0 (predicts, accept_index, 0, last_accepted_idx) in
  let* target_token := tensor_at target_predict (last_accepted_idx - num_draft_tokens * bx) in
  let* predicts := tensor_set predicts last_accepted_idx target_token in
  Ok (predicts, accept_index, num_accepted).
End Row.

(** The loop over the batch. *)
Fixpoint verify_rows (bx num_draft_tokens : Z) (candidates retrive_index next sib target : list (list Z)) (predicts : list Z)
    (accept_index : list (list Z)) : res (list Z * list (list Z) * list Z) :=
  match candidates, retrive_index, next, sib, target, accept_index with
  | [], _, _, _, _, _ => Ok (predicts, accept_index, [])
  | c :: candidates, ri :: retrive_index, nx :: next, sb :: sib, tg :: target, row :: accept_index =>
      let* (predicts, row, num) := verify_row c ri nx sb tg bx num_draft_tokens predicts row in
      let* (predicts, accept_index, nums) := verify_rows (bx + 1) num_draft_tokens candidates retrive_index next sib target predicts accept_index in
      Ok (predicts, row :: accept_index, num :: nums)
  | _, _, _, _, _, _ => Raise IndexError
  end.

(** [candidates[:, 1] == target_predict[:, 0]] *)
Fixpoint drafts_agree (candidates target : list (list Z)) : res (list bool) :=
  match candidates, target with
  | c :: candidates, t :: target =>
      let* x := tensor_at c 1 in let* y := tensor_at t 0 in
      let* l := drafts_agree candidates target in Ok ((x =? y) :: l)
  | _, _ => Ok []
  end.

Definition verify_tree_greedy_native (predicts : list Z) (accept_index : list (list Z)) (candidates retrive_index next sib target : list (list Z))
    (num_draft_tokens width topk : Z) : res (list Z * list (list Z) * list Z) :=
  if (num_draft_tokens =? 2) && (width =? 2) && (topk =? 1) then
    let* agree := drafts_agree candidates target in
    let rows := zip_with (fun b (ok : bool) => [2 * Z.of_nat b; if ok then 2 * Z.of_nat b + 1 else -1]) (seq 0 (length agree)) agree in
    Ok (concat target, rows, map (fun ok : bool => if ok then 1 else 0) agree)
  else verify_rows 0 num_draft_tokens candidates retrive_index next sib target predicts accept_index.

(** ** What is accepted *)

Section Spec.
Context (cand tgt : list Z) (n : Z).

Definition tok_at (l : list Z) (u : Z) : Z := default 0 (l !! Z.to_nat u).

(** The first tree of a forest whose root holds token [x]: the root and its children. *)
Fixpoint find_child (t : fcns) (x : Z) : option (Z * fcns) :=
  match t with
  | Leaf => None
  | Branch i c s => if tok_at cand i =? x then Some (i, c) else find_child s x
  end.

(** The walk from node [u] with children [c] down the target's choices. *)
Inductive walks : Z -> fcns -> list Z -> Prop :=
  | walks_stop u c : find_child c (tok_at tgt u) = None -> walks u c [u]
  | walks_down u c v c' path : find_child c (tok_at tgt u) = Some (v, c') -> walks v c' path -> walks u c (u :: path).

Lemma find_child_nodes t x v c : find_child t x = Some (v, c) -> v ∈ tree_nodes_of t /\ tok_at cand v = x
  /\ (length (tree_nodes_of c) < length (tree_nodes_of t))%nat /\ (forall w, w ∈ tree_nodes_of c -> w ∈ tree_nodes_of t).
Proof.
  induction t as [|i c0 _ s IH]; [done|]. cbn [find_child tree_nodes_of length]. rewrite length_app. destruct (Z.eqb_spec (tok_at cand i) x) as [E|E].
  - intros [= <- <-]. split_and!; [set_solver|done|lia|set_solver].
  - intros H. destruct (IH H) as (H1 & H2 & H3 & H4). split_and!; [set_solver|done|lia|set_solver].
Qed.

Lemma walks_total u c : exists path, walks u c path /\ (length path <= S (length (tree_nodes_of c)))%nat.
Proof.
  remember (length (tree_nodes_of c)) as m eqn:Em. revert u c Em. induction (lt_wf m) as [m _ IH]. intros u c ->.
  destruct (find_child c (tok_at tgt u)) as [[v c']|] eqn:Ef.
  - destruct (find_child_nodes _ _ _ _ Ef) as (_ & _ & Hlt & _). destruct (IH _ Hlt v c' eq_refl) as (path & Hw & Hl).
    exists (u :: path). split; [by econstructor|]. simpl. lia.
  - exists [u]. split; [by constructor|]. simpl. lia.
Qed.

Lemma walks_det u c path : walks u c path -> forall path', walks u c path' -> path' = path.
Proof.
  induction 1 as [u c Hn|u c v c' path Hf _ IH]; intros path' Hw; inversion Hw as [? ? Hn'|? ? ? ? p Hf' Hp]; subst; [done|congruence|congruence|].
  rewrite Hf in Hf'. injection Hf' as <- <-. f_equal. by apply IH.
Qed.

Lemma walks_head u c path : walks u c path -> exists rest, path = u :: rest.
Proof. destruct 1; eauto. Qed.

(** *** Lossless *)

Lemma find_child_down t x v c p : find_child t x = Some (v, c) -> down c p -> down t (v :: p).
Proof.
  induction t as [|i c0 _ s IH]; [done|]. cbn [find_child]. destruct (Z.eqb_spec (tok_at cand i) x) as [E|E].
  - intros [= <- <-]. by constructor.
  - intros H Hd. apply down_next. by apply IH.
Qed.

(** When the target's choice at a node is that of [model] after the tokens on the way to it,
    the choices along the walk are greedy decoding. *)
Lemma walks_greedy model : forall u c path, walks u c path -> forall ctx,
  (forall p v, down c p -> v = List.last (u :: p) 0 -> tok_at tgt v = model (ctx ++ map (tok_at cand) p)) ->
  map (tok_at tgt) path = greedy model ctx (length path).
Proof.
  induction 1 as [u c Hn|u c v c' path Hf Hw IH]; intros ctx Hm.
  - cbn. f_equal. rewrite (Hm [] u); [by rewrite app_nil_r|constructor|done].
  - cbn [map length greedy]. assert (tok_at tgt u = model ctx) as Hu.
    { rewrite (Hm [] u); [by rewrite app_nil_r|constructor|done]. }
    rewrite Hu. f_equal. destruct (find_child_nodes _ _ _ _ Hf) as (_ & Hv & _). apply IH. intros p w Hd ->.
    rewrite (Hm (v :: p) (List.last (v :: p) 0)); [|by eapply find_child_down|done]. cbn [map]. rewrite Hv, Hu. by rewrite <- app_assoc.
Qed.
End Spec.

(** ** What the walk writes *)

Section Writes.
Context (tgt : list Z) (bx n : Z) (Hbx : 0 <= bx).

Fixpoint write_predicts (path : list Z) (predicts : list Z) : list Z :=
  match path with
  | [] => predicts
  | u :: path => write_predicts path (<[Z.to_nat (bx * n + u) := tok_at tgt u]> predicts)
  end.

Fixpoint write_accept (path : list Z) (j : nat) (row : list Z) : list Z :=
  match path with
  | [] => row
  | u :: path => write_accept path (S j) (<[j := bx * n + u]> row)
  end.

Lemma length_write_predicts path : forall predicts, length (write_predicts path predicts) = length predicts.
Proof. induction path as [|u path IH]; intros p; [done|]. simpl. by rewrite IH, length_insert. Qed.

Lemma write_predicts_app pre v : forall predicts, write_predicts (pre ++ [v]) predicts = <[Z.to_nat (bx * n + v) := tok_at tgt v]> (write_predicts pre predicts).
Proof. induction pre as [|u pre IH]; intros p; [done|]. simpl. apply IH. Qed.

Lemma write_predicts_out path i : (forall u, u ∈ path -> i <> Z.to_nat (bx * n + u)) -> forall predicts, write_predicts path predicts !! i = predicts !! i.
Proof.
  induction path as [|u path IH]; intros Hi p; [done|]. simpl. rewrite IH by set_solver. apply list_lookup_insert_ne. intros E. apply (Hi u); [set_solver|done].
Qed.

Lemma write_predicts_in path u : u ∈ path -> Forall (fun v => 0 <= v < n) path -> forall predicts, bx * n + n <= zlen predicts ->
  write_predicts path predicts !! Z.to_nat (bx * n + u) = Some (tok_at tgt u).
Proof.
  intros Hin HF. induction path as [|v path IH]; intros p Hp; [by apply not_elem_of_nil in Hin|]. apply Forall_cons in HF as [Hv HF]. simpl.
  destruct (decide (u ∈ path)) as [Hu|Hu]; [apply IH; try done; unfold zlen in *; by rewrite length_insert|].
  apply elem_of_cons in Hin as [-> |]; [|done]. rewrite write_predicts_out.
  - apply list_lookup_insert_eq. unfold zlen in Hp. nia.
  - intros w Hw E. apply Hu. rewrite Forall_forall in HF. specialize (HF w Hw). cbv beta in HF. assert (v = w) as -> by nia. done.
Qed.

Lemma write_accept_rows path : forall a b, (length path <= length b)%nat ->
  write_accept path (length a) (a ++ b) = a ++ map (fun u => bx * n + u) path ++ drop (length path) b.
Proof.
  induction path as [|u path IH]; intros a b Hb; [done|]. destruct b as [|x b]; [simpl in Hb; lia|]. cbn [write_accept map length drop app].
  rewrite insert_app_r_alt, Nat.sub_diag by lia. cbn [insert list_insert]. replace (a ++ bx * n + u :: b) with ((a ++ [bx * n + u]) ++ b) by (by rewrite <- app_assoc).
  replace (S (length a)) with (length (a ++ [bx * n + u])) by (rewrite length_app; simpl; lia). rewrite IH by (simpl in Hb; lia). by rewrite <- app_assoc.
Qed.

End Writes.

(** ** The walk through the links *)

Lemma drop_repeat {X} (x : X) k : forall n, drop k (repeat x n) = repeat x (n - k).
Proof. induction k as [|k IH]; intros [|n]; try done. simpl. apply IH. Qed.

Section Walk.
Context (cand tgt next sib : list Z) (bx n : Z).
Context (Hcand : zlen cand = n) (Htgt : zlen tgt = n) (Hbx : 0 <= bx).
Abbreviation ridx := (map (fun t => bx * n + t) (zrange 0 n)).
Abbreviation encodes := (encodes next sib cand).
Abbreviation write_predicts := (write_predicts tgt bx n).
Abbreviation write_accept := (write_accept bx n).

Lemma tok_lookup (l : list Z) u : zlen l = n -> 0 <= u < n -> tensor_at l u = Ok (tok_at l u).
Proof.
  intros Hl Hu. unfold tok_at. destruct (lookup_lt_is_Some_2 l (Z.to_nat u)) as [x Hx]; [unfold zlen in Hl; lia|].
  rewrite (tensor_at_in l u x) by (lia || done). by rewrite Hx.
Qed.

Lemma ridx_at u : 0 <= u < n -> tensor_at ridx u = Ok (bx * n + u).
Proof.
  intros Hu. apply tensor_at_in; [lia|]. rewrite list_lookup_fmap. rewrite (proj2 (lookup_zrange 0 n (Z.to_nat u) u)) by lia. done.
Qed.

Lemma find_sibling_ok cur t u : encodes cur t -> 0 <= u < n -> forall fuel, (length (tree_nodes_of t) < fuel)%nat ->
  find_sibling cand ridx sib tgt bx n fuel cur (bx * n + u)
  = Ok (match find_child cand t (tok_at tgt u) with Some (v, _) => Some (v, bx * n + v, tok_at tgt u) | None => None end).
Proof.
  intros He Hu. induction He as [|i c s tc ts Hi Hc Hs _ _ _ IHs]; intros [|fuel] Hf; [lia|done|lia|]. cbn [find_sibling tree_nodes_of length find_child] in *.
  rewrite length_app in Hf. destruct (Z.eqb_spec i (-1)); [lia|]. rewrite Hcand in Hi. rewrite ridx_at, (tok_lookup cand) by (done || lia). cbn [res_bind].
  replace (bx * n + u - n * bx) with u by lia. rewrite (tok_lookup tgt u Htgt Hu). cbn [res_bind]. destruct (Z.eqb_spec (tok_at cand i) (tok_at tgt u)) as [E|E]; [done|].
  rewrite (tensor_at_in sib i s) by (lia || done). cbn [res_bind]. apply IHs. lia.
Qed.

Lemma find_child_encodes cur t x v c : encodes cur t -> find_child cand t x = Some (v, c) ->
  0 <= v < n /\ exists cv, next !! Z.to_nat v = Some cv /\ encodes cv c.
Proof.
  induction 1 as [|i ci s tc ts Hi Hc Hs Hec _ _ IHs]; [done|]. cbn [find_child]. rewrite Hcand in Hi. destruct (Z.eqb_spec (tok_at cand i) x).
  - intros [= <- <-]. eauto.
  - exact IHs.
Qed.

Lemma set_at (l : list Z) i v : 0 <= i < zlen l -> tensor_set l i v = Ok (<[Z.to_nat i := v]> l).
Proof. intros Hi. unfold tensor_set, scatter. by rewrite wrap_index_in. Qed.

Lemma encodes_fuel cur t : encodes cur t -> NoDup (tree_nodes_of t) -> (length (tree_nodes_of t) <= length cand)%nat.
Proof.
  intros He Hnd. pose proof (encodes_nodes _ _ _ _ _ He) as HF.
  assert (tree_nodes_of t ⊆+ zrange 0 n) as Hsub.
  { apply NoDup_submseteq; [done|]. intros x Hx. rewrite Forall_forall in HF. specialize (HF x Hx). rewrite Hcand in HF. by apply elem_of_zrange. }
  apply submseteq_length in Hsub. pose proof (zlen_zrange 0 n). unfold zlen in *. lia.
Qed.

Lemma walk_ok : forall u c path, walks cand tgt u c path -> 0 <= u < n -> (exists cu, next !! Z.to_nat u = Some cu /\ encodes cu c) ->
  NoDup (tree_nodes_of c) ->
  forall todo predicts row j, (length path <= S todo)%nat -> (j + length path <= length row)%nat -> bx * n + n <= zlen predicts ->
  exists v pre, path = pre ++ [v] /\ 0 <= v < n
    /\ walk cand ridx next sib tgt bx n todo u (predicts, row, Z.of_nat j, bx * n + u)
       = Ok (write_predicts pre predicts, write_accept (drop 1 path) (S j) row, Z.of_nat j + Z.of_nat (length path) - 1, bx * n + v).
Proof.
  induction 1 as [u c Hn|u c v c' path Hf Hw IH]; intros Hu (cu & Hcu & He) Hnd todo predicts row j Htodo Hrow Hpred.
  - exists u, []. split_and!; try done; try lia. destruct todo as [|todo]; cbn [walk]; [do 3 f_equal; simpl; lia|].
    rewrite (tensor_at_in next u cu) by (lia || done). cbn [res_bind]. rewrite (find_sibling_ok cu c u He Hu) by (pose proof (encodes_fuel _ _ He Hnd); lia).
    rewrite Hn. cbn [res_bind]. do 3 f_equal; simpl; lia.
  - destruct todo as [|todo]. { inversion Hw; subst; simpl in Htodo; lia. }
    cbn [walk]. rewrite (tensor_at_in next u cu) by (lia || done). cbn [res_bind].
    rewrite (find_sibling_ok cu c u He Hu) by (pose proof (encodes_fuel _ _ He Hnd); lia). rewrite Hf. cbn [res_bind].
    destruct (find_child_encodes cu c _ v c' He Hf) as (Hv & Hcv). simpl in Htodo, Hrow.
    assert (1 <= length path)%nat as Hp1 by (inversion Hw; simpl; lia).
    rewrite (set_at predicts) by (unfold zlen in *; nia). cbn [res_bind]. rewrite (set_at row) by (unfold zlen; lia). cbn [res_bind].
    replace (Z.of_nat j + 1) with (Z.of_nat (S j)) by lia. rewrite Nat2Z.id.
    destruct (IH Hv Hcv) with (todo := todo) (predicts := <[Z.to_nat (bx * n + u) := tok_at tgt u]> predicts) (row := <[S j := bx * n + v]> row) (j := S j)
      as (w & pre & -> & Hwn & E).
    + clear -Hf Hnd. revert Hf Hnd. induction c as [|i ci _ s IHs]; [done|]. cbn [find_child tree_nodes_of].
      intros Hf (_ & (H1 & _ & H3)%NoDup_app)%NoDup_cons. destruct (_ =? _); [by injection Hf as _ <-|by apply IHs].
    + lia.
    + rewrite length_insert. lia.
    + unfold zlen in *. rewrite length_insert. lia.
    + exists w, (u :: pre). split_and!; [done|lia|lia|]. rewrite E. destruct (walks_head _ _ _ _ _ Hw) as [rest Hrest]. rewrite Hrest in *.
      cbn [drop TreeVerify.write_accept TreeVerify.write_predicts length]. do 3 f_equal. lia.
Qed.

(** *** One request *)

Lemma walks_bounds u c path : walks cand tgt u c path -> 0 <= u < n -> (exists cu, encodes cu c) -> Forall (fun v => 0 <= v < n) path.
Proof.
  induction 1 as [u c _|u c v c' path Hf _ IH]; intros Hu [cu He]; [by constructor|]. constructor; [done|].
  destruct (find_child_encodes cu c _ v c' He Hf) as (Hv & cv & _ & He'). apply IH; eauto.
Qed.

(** Depth of the walk. *)
Lemma walks_down_path u c path : walks cand tgt u c path -> exists p, path = u :: p /\ down c p.
Proof.
  induction 1 as [u c _|u c v c' path Hf _ (p & -> & Hd)]; [exists []; split; [done|constructor]|].
  exists (v :: p). split; [done|]. by eapply find_child_down.
Qed.

Lemma verify_row_ok c path predicts (width : nat) : encodes 0 (Branch 0 c Leaf) -> NoDup (tree_nodes_of (Branch 0 c Leaf)) -> walks cand tgt 0 c path ->
  (length path <= width)%nat -> bx * n + n <= zlen predicts ->
  verify_row cand ridx next sib tgt bx n predicts (repeat (-1) width)
  = Ok (write_predicts path predicts, map (fun u => bx * n + u) path ++ repeat (-1) (width - length path), Z.of_nat (length path) - 1).
Proof.
  intros He Hnd Hw Hwidth Hp. pose proof (encodes_fuel _ _ He Hnd) as Hlen. inversion He as [|? cu s0 ? ? Hi Hcu Hs0 Hec Hes]. rewrite Hcand in Hi.
  cbn [tree_nodes_of length] in Hlen. rewrite app_nil_r in Hlen. unfold verify_row. rewrite ridx_at by lia. cbn [res_bind]. rewrite Z.add_0_r.
  assert (exists rest, path = 0 :: rest) as [rest Hrest] by (by eapply walks_head).
  rewrite (set_at (repeat (-1) width) 0) by (unfold zlen; rewrite repeat_length; subst path; simpl in Hwidth; lia). cbn [res_bind].
  assert (length path <= S (Z.to_nat (n - 1)))%nat as Hfuel.
  { destruct (walks_total cand tgt 0 c) as (path' & Hw' & Hl). assert (path' = path) as <- by (by eapply walks_det). unfold zlen in Hcand. lia. }
  destruct (walk_ok 0 c path Hw ltac:(lia)) with (todo := Z.to_nat (n - 1)) (predicts := predicts) (row := <[Z.to_nat 0 := bx * n]> (repeat (-1) width)) (j := 0%nat)
    as (v & pre & Epath & Hv & E).
  - eauto.
  - cbn [tree_nodes_of] in Hnd. rewrite app_nil_r in Hnd. by apply NoDup_cons in Hnd as [_ ?].
  - done.
  - rewrite length_insert, repeat_length. lia.
  - done.
  - rewrite Z.add_0_r in E. change (Z.of_nat 0) with 0 in E. rewrite E. cbn [res_bind]. replace (bx * n + v - n * bx) with v by lia.
    rewrite (tok_lookup tgt v Htgt Hv). cbn [res_bind]. rewrite set_at by (unfold zlen in *; rewrite length_write_predicts; nia). cbn [res_bind].
    do 2 f_equal. f_equal; [by rewrite Epath, write_predicts_app|].
    pose proof (write_accept_rows bx n path [] (repeat (-1) width) ltac:(rewrite repeat_length; lia)) as Hacc. cbn [length app] in Hacc.
    rewrite Hrest in Hacc. cbn [TreeVerify.write_accept] in Hacc. rewrite Z.add_0_r in Hacc. rewrite Hrest. cbn [drop]. change (Z.to_nat 0) with 0%nat.
    rewrite drop_0, Hacc. do 2 f_equal. apply drop_repeat.
Qed.
End Walk.

(** *** The batch *)

(** The links of request [r] hold the tree [t] of its candidates, no deeper than the rows of
    [accept_index] are wide. *)
Record row_tree (n : Z) (width : nat) (c tg nx sb : list Z) (t : fcns) : Prop := {
  rt_cand : zlen c = n;
  rt_target : zlen tg = n;
  rt_encodes : encodes nx sb c 0 (Branch 0 t Leaf);
  rt_nodes : Permutation (tree_nodes_of t) (zrange 1 n);
  rt_depth : forall p, down t p -> (length p < width)%nat
}.

(** What one request gets. *)
Definition row_accepted (n b : Z) (width : nat) (c tg : list Z) (t : fcns) (predicts row : list Z) (num : Z) : Prop :=
  exists path, walks c tg 0 t path /\ row = map (fun u => b * n + u) path ++ repeat (-1) (width - length path)
    /\ num = Z.of_nat (length path) - 1 /\ forall u, u ∈ path -> 0 <= u < n /\ predicts !! Z.to_nat (b * n + u) = Some (tok_at tg u).

Definition index_rows_from (b n : Z) (m : nat) : list (list Z) :=
  map (fun r => map (fun t => (b + Z.of_nat r) * n + t) (zrange 0 n)) (seq 0 m).

Lemma index_rows_from_S b n m : index_rows_from b n (S m) = map (fun t => b * n + t) (zrange 0 n) :: index_rows_from (b + 1) n m.
Proof.
  unfold index_rows_from. cbn [seq map]. f_equal; [by rewrite Z.add_0_r|]. rewrite <- seq_shift, map_map. apply map_ext. intros r. apply map_ext. intros t. lia.
Qed.

Lemma verify_rows_ok n width : 0 <= n -> forall cands nexts sibs tgts ts b predicts, 0 <= b ->
  length nexts = length cands -> length sibs = length cands -> length tgts = length cands -> length ts = length cands ->
  (forall r c nx sb tg t, cands !! r = Some c -> nexts !! r = Some nx -> sibs !! r = Some sb -> tgts !! r = Some tg -> ts !! r = Some t -> row_tree n width c tg nx sb t) ->
  (b + zlen cands) * n <= zlen predicts ->
  exists predicts' rows nums,
    verify_rows b n cands (index_rows_from b n (length cands)) nexts sibs tgts predicts (map (fun _ => repeat (-1) width) cands) = Ok (predicts', rows, nums)
    /\ length predicts' = length predicts /\ length rows = length cands /\ length nums = length cands
    /\ (forall i, Z.of_nat i < b * n -> predicts' !! i = predicts !! i)
    /\ forall r c tg t, cands !! r = Some c -> tgts !! r = Some tg -> ts !! r = Some t ->
         exists row num, rows !! r = Some row /\ nums !! r = Some num /\ row_accepted n (b + Z.of_nat r) width c tg t predicts' row num.
Proof.
  intros Hn. induction cands as [|c cands IH]; intros [|nx nexts] [|sb sibs] [|tg tgts] [|t ts] b predicts Hb L1 L2 L3 L4 Hrow Hp; simpl in L1, L2, L3, L4; try lia.
  { exists predicts, [], []. by split_and!. }
  destruct (Hrow 0%nat c nx sb tg t eq_refl eq_refl eq_refl eq_refl eq_refl) as [Hc Ht He Hnodes Hdep].
  assert (NoDup (tree_nodes_of (Branch 0 t Leaf))) as Hnd.
  { cbn [tree_nodes_of]. rewrite app_nil_r. constructor; [|rewrite Hnodes; apply NoDup_zrange]. intros H0. rewrite Hnodes in H0. apply elem_of_zrange in H0. lia. }
  destruct (walks_total c tg 0 t) as (path & Hw & _). destruct (walks_down_path c tg 0 t path Hw) as (p & Epath & Hd). specialize (Hdep p Hd).
  rewrite zlen_cons in Hp. pose proof (zlen_nonneg cands). assert (1 <= n) as Hn1. { inversion He. lia. }
  assert (Forall (fun v => 0 <= v < n) path) as Hbd.
  { inversion He. eapply walks_bounds; [exact Hc|exact Hw|lia|eauto]. }
  cbn [length]. rewrite index_rows_from_S. cbn [verify_rows map].
  rewrite (verify_row_ok c tg nx sb b n Hc Ht Hb t path predicts width He Hnd Hw) by (subst path; simpl; lia || nia). cbn [res_bind].
  destruct (IH nexts sibs tgts ts (b + 1) (write_predicts tg b n path predicts)) as (pr & rows & nums & E & Hlp & Hlr & Hln & Hout & Hin); try lia.
  { intros r. exact (Hrow (S r)). }
  { unfold zlen in *. rewrite length_write_predicts. nia. }
  rewrite E. cbn [res_bind]. eexists pr, _, _. split; [done|]. rewrite length_write_predicts in Hlp. split_and!; [done|simpl; lia|simpl; lia| |].
  - intros i Hi. rewrite Hout by nia. apply write_predicts_out; [done|]. intros u Hu Ei. rewrite Forall_forall in Hbd. specialize (Hbd u Hu). cbv beta in Hbd. nia.
  - intros [|r] c' tg' t'; cbn [lookup list_lookup].
    + intros [= <-] [= <-] [= <-]. eexists _, _. split_and!; [done|done|]. exists path. rewrite Z.add_0_r. split_and!; try done.
      intros u Hu. rewrite Forall_forall in Hbd. pose proof (Hbd u Hu) as Hun. cbv beta in Hun. split; [done|]. rewrite Hout by nia.
      apply write_predicts_in; try done; [by apply Forall_forall|nia].
    + intros H1 H2 H3. destruct (Hin r c' tg' t' H1 H2 H3) as (row & num & E1 & E2 & Hacc). exists row, num. split_and!; try done.
      by replace (b + Z.of_nat (S r)) with (b + 1 + Z.of_nat r) by lia.
Qed.

(** The special case of one draft: comparing the two tokens is the walk. *)
Lemma fast_row b c tg nx sb t : row_tree 2 2 c tg nx sb t ->
  t = Branch 1 Leaf Leaf /\ exists x0 x1 y0 y1, c = [x0; x1] /\ tg = [y0; y1]
  /\ forall predicts, predicts !! Z.to_nat (b * 2) = Some y0 -> predicts !! Z.to_nat (b * 2 + 1) = Some y1 ->
     row_accepted 2 b 2 c tg t predicts [2 * b; if x1 =? y0 then 2 * b + 1 else -1] (if x1 =? y0 then 1 else 0).
Proof.
  intros [Hc Ht _ Hnodes _]. change (zrange 1 2) with [1] in Hnodes. apply Permutation_singleton_r in Hnodes.
  assert (t = Branch 1 Leaf Leaf) as ->.
  { destruct t as [|i c0 s0]; [done|]. cbn [tree_nodes_of] in Hnodes. injection Hnodes as -> Happ. apply app_eq_nil in Happ as [E1 E2].
    destruct c0; [|done]. by destruct s0. }
  split; [done|]. destruct c as [|x0 [|x1 [|]]]; try (unfold zlen in Hc; simpl in Hc; lia). destruct tg as [|y0 [|y1 [|]]]; try (unfold zlen in Ht; simpl in Ht; lia).
  exists x0, x1, y0, y1. split_and!; try done. intros predicts P0 P1. destruct (Z.eqb_spec x1 y0) as [E|E].
  - exists [0; 1]. split_and!; try done.
    + apply (walks_down _ _ 0 _ 1 Leaf [1]); [|by constructor]. cbn [find_child]. change (tok_at [x0; x1] 1) with x1. by rewrite E, Z.eqb_refl.
    + cbn. do 2 f_equal; lia.
    + intros u Hu. apply elem_of_cons in Hu as [-> |Hu%list_elem_of_singleton]; [rewrite Z.add_0_r|subst u]; by split.
  - exists [0]. split_and!; try done.
    + apply walks_stop. cbn [find_child]. change (tok_at [x0; x1] 1) with x1. change (tok_at [y0; y1] 0) with y0. apply Z.eqb_neq in E. by rewrite E.
    + cbn. do 2 f_equal; lia.
    + intros u ->%list_elem_of_singleton. rewrite Z.add_0_r. by split.
Qed.

Section Native.
Context (n : Z) (width : nat) (cands nexts sibs tgts : list (list Z)) (ts : list fcns).
Context (Hnexts : length nexts = length cands) (Hsibs : length sibs = length cands) (Htgts : length tgts = length cands) (Hts : length ts = length cands).
Context (Hrow : forall r c nx sb tg t, cands !! r = Some c -> nexts !! r = Some nx -> sibs !! r = Some sb -> tgts !! r = Some tg -> ts !! r = Some t ->
  row_tree n width c tg nx sb t).

Definition batch_accepted (predicts : list Z) (rows : list (list Z)) (nums : list Z) : Prop :=
  length rows = length cands /\ length nums = length cands
  /\ forall r c tg t, cands !! r = Some c -> tgts !! r = Some tg -> ts !! r = Some t ->
       exists row num, rows !! r = Some row /\ nums !! r = Some num /\ row_accepted n (Z.of_nat r) width c tg t predicts row num.

Lemma drafts_agree_ok cs tgs : length tgs = length cs -> Forall (fun c => zlen c = 2) cs -> Forall (fun t => zlen t = 2) tgs ->
  drafts_agree cs tgs = Ok (zip_with (fun c t => tok_at c 1 =? tok_at t 0) cs tgs).
Proof.
  revert tgs. induction cs as [|c cs IH]; intros [|t tgs] Hl HFc HFt; try done. apply Forall_cons in HFc as [Hc HFc], HFt as [Ht HFt]. simpl in Hl.
  cbn [drafts_agree zip_with]. rewrite (tok_lookup 2 c 1), (tok_lookup 2 t 0) by (done || lia). cbn [res_bind]. by rewrite IH by (done || lia).
Qed.

(** The trees of the special case, row by row. *)
Lemma fast_batch : n = 2 -> width = 2%nat -> forall agree, agree = zip_with (fun c t => tok_at c 1 =? tok_at t 0) cands tgts ->
  batch_accepted (concat tgts) (zip_with (fun b (ok : bool) => [2 * Z.of_nat b; if ok then 2 * Z.of_nat b + 1 else -1]) (seq 0 (length agree)) agree)
    (map (fun ok : bool => if ok then 1 else 0) agree).
Proof.
  intros En Ew agree Ea. assert (length agree = length cands) as Hla by (rewrite Ea, length_zip_with; lia).
  split_and!; [rewrite length_zip_with, length_seq; lia|by rewrite length_map|]. intros r c tg t Hc Htg Ht.
  pose proof (lookup_lt_Some _ _ _ Hc) as Hr. destruct (lookup_lt_is_Some_2 nexts r) as [nx Hnx]; [lia|]. destruct (lookup_lt_is_Some_2 sibs r) as [sb Hsb]; [lia|].
  pose proof (Hrow r c nx sb tg t Hc Hnx Hsb Htg Ht) as Hrt. rewrite En, Ew in Hrt |- *.
  destruct (fast_row (Z.of_nat r) c tg nx sb t Hrt) as (_ & x0 & x1 & y0 & y1 & Ec & Et & Hacc).
  assert (agree !! r = Some (x1 =? y0)) as Har by (rewrite Ea, lookup_zip_with, Hc, Htg; subst; done).
  assert (forall j, (j < 2)%nat -> concat tgts !! (r * 2 + j)%nat = tg !! j) as Hcat.
  { intros j Hj. apply (concat_lookup_row 2 tgts r tg j); [|done|done]. apply Forall_lookup. intros r' tg' Htg'. pose proof (lookup_lt_Some _ _ _ Htg').
    destruct (lookup_lt_is_Some_2 cands r') as [c' Hc']; [lia|]. destruct (lookup_lt_is_Some_2 nexts r') as [nx' Hnx']; [lia|].
    destruct (lookup_lt_is_Some_2 sibs r') as [sb' Hsb']; [lia|]. destruct (lookup_lt_is_Some_2 ts r') as [t' Ht']; [lia|].
    pose proof (rt_target _ _ _ _ _ _ _ (Hrow r' c' nx' sb' tg' t' Hc' Hnx' Hsb' Htg' Ht')) as Hz. rewrite En in Hz. unfold zlen in Hz. lia. }
  eexists _, _. split_and!; [rewrite lookup_zip_with, lookup_seq_lt, Har by lia; done|rewrite list_lookup_fmap, Har; done|]. apply Hacc.
  - replace (Z.to_nat (Z.of_nat r * 2)) with (r * 2 + 0)%nat by lia. rewrite Hcat by lia. by subst tg.
  - replace (Z.to_nat (Z.of_nat r * 2 + 1)) with (r * 2 + 1)%nat by lia. rewrite Hcat by lia. by subst tg.
Qed.

(** Both paths of the native function accept the walks. *)
Lemma verify_native_ok topk predicts : 0 <= n -> zlen cands * n <= zlen predicts -> exists predicts' rows nums,
  verify_tree_greedy_native predicts (map (fun _ => repeat (-1) width) cands) cands (index_rows_from 0 n (length cands)) nexts sibs tgts n (Z.of_nat width) topk
  = Ok (predicts', rows, nums) /\ batch_accepted predicts' rows nums.
Proof.
  intros Hn Hp. unfold verify_tree_greedy_native. destruct (_ && _ && _) eqn:Efast.
  - apply andb_prop in Efast as [[En%Z.eqb_eq Ew%Z.eqb_eq]%andb_prop _]. assert (width = 2%nat) as Ew' by lia.
    assert (forall r c tg, cands !! r = Some c -> tgts !! r = Some tg -> zlen c = 2 /\ zlen tg = 2) as H2.
    { intros r c tg Hc Htg. pose proof (lookup_lt_Some _ _ _ Hc). destruct (lookup_lt_is_Some_2 nexts r) as [nx ?]; [lia|].
      destruct (lookup_lt_is_Some_2 sibs r) as [sb ?]; [lia|]. destruct (lookup_lt_is_Some_2 ts r) as [t ?]; [lia|].
      destruct (Hrow r c nx sb tg t) as [? ? _ _ _]; try done. by rewrite <- En. }
    rewrite drafts_agree_ok; [|done| |].
    + cbn [res_bind]. eexists _, _, _. split; [done|]. by apply fast_batch.
    + apply Forall_lookup. intros r c Hc. destruct (lookup_lt_is_Some_2 tgts r) as [tg Htg]; [apply lookup_lt_Some in Hc; lia|]. by destruct (H2 r c tg Hc Htg).
    + apply Forall_lookup. intros r tg Htg. destruct (lookup_lt_is_Some_2 cands r) as [c Hc]; [apply lookup_lt_Some in Htg; lia|]. by destruct (H2 r c tg Hc Htg).
  - destruct (verify_rows_ok n width Hn cands nexts sibs tgts ts 0 predicts) as (pr & rows & nums & E & _ & Hr & Hnm & _ & Hacc); try done.
    exists pr, rows, nums. by split_and!.
Qed.
End Native.
