(* ===== verification/TreeRound.v ===== *)
(** A tree of drafts end to end: [build_tree_kernel_efficient] of [eagle_utils.py] and the
    part of [EagleWorker.draft] between the draft model and the target model.  The tree kernel
    is a parameter; its reference is [build_tree_efficient_native]. *)

From S2P Require Export EagleTree TreeVerify.
From S2P Require Import SpecKernels EagleRows.

(** A mask of booleans, or of unsigned integers of so many bits. *)
Inductive TreeMask : Type := BoolMask (l : list bool) | PackedMask (bits : Z) (l : list Z).

Definition is_bitpacking (m : TreeMaskMode) : bool := match m with QLEN_ONLY_BITPACKING => true | _ => false end.

(** [tree_mask.fill_(v)] *)
Definition fill_mask (m : TreeMask) (v : bool) : TreeMask :=
  match m with
  | BoolMask l => BoolMask (map (fun _ => v) l)
  | PackedMask bits l => PackedMask bits (map (fun _ => if v then 1 else 0) l)
  end.

Definition packed_dtypes : list Z := [8; 16; 32].

Definition tree_mask_init (mode : TreeMaskMode) (tree_mask_buf : option TreeMask) (seq_lens_sum num_verify_tokens bs : Z) : res TreeMask :=
  match tree_mask_buf with
  | Some m => Ok (fill_mask m (negb (is_bitpacking mode)))
  | None =>
      match mode with
      | QLEN_ONLY => Ok (BoolMask (repeat true (Z.to_nat (num_verify_tokens * bs * num_verify_tokens))))
      | QLEN_ONLY_BITPACKING =>
          let q := (num_verify_tokens + 7) / 8 in
          let* packed_dtype_idx := if q <=? 0 then Raise ValueError else Ok (Z.log2_up q) in
          let* bits := match packed_dtypes !! Z.to_nat packed_dtype_idx with Some b => Ok b | None => Raise IndexError end in
          Ok (PackedMask bits (repeat 0 (Z.to_nat (num_verify_tokens * bs))))
      | FULL_MASK => Ok (BoolMask (repeat true (Z.to_nat (seq_lens_sum * num_verify_tokens + num_verify_tokens * num_verify_tokens * bs))))
      end
  end.

(** What [build_tree_kernel_efficient] returns. *)
Record BuiltTree : Type := MkBuiltTree {
  bt_tree_mask : TreeMask;
  bt_positions : list Z;
  bt_retrieve_index : list (list Z);
  bt_retrieve_next_token : list (list Z);
  bt_retrieve_next_sibling : list (list Z);
  bt_draft_tokens : list Z
}.

(** The kernel: the mask, the positions and the three tables of links after it ran. *)
Definition tree_kernel : Type := list (list Z) -> list (list Z) -> list Z -> TreeMask -> list (list Z) -> list (list Z) -> list (list Z) ->
  Z -> Z -> Z -> TreeMaskMode -> res (TreeMask * list Z * list (list Z) * list (list Z) * list (list Z)).

Definition build_tree_kernel_efficient (kernel : tree_kernel) (verified_id : list Z) (parent_list top_scores_index draft_tokens : list (list Z))
    (seq_lens : list Z) (seq_lens_sum topk spec_steps num_verify_tokens : Z) (tree_mask_mode : TreeMaskMode) (tree_mask_buf : option TreeMask)
    : res BuiltTree :=
  let draft_tokens := concat (zip_with cons verified_id draft_tokens) in
  let bs := zlen seq_lens in
  let* tree_mask := tree_mask_init tree_mask_mode tree_mask_buf seq_lens_sum num_verify_tokens bs in
  let empty_links := no_links num_verify_tokens seq_lens in
  let* (tree_mask, positions, retrieve_index, retrieve_next_token, retrieve_next_sibling) :=
    kernel parent_list top_scores_index seq_lens tree_mask empty_links empty_links empty_links topk spec_steps num_verify_tokens tree_mask_mode in
  Ok (MkBuiltTree tree_mask positions retrieve_index retrieve_next_token retrieve_next_sibling draft_tokens).

(** ** The native kernel *)

Lemma scatter_const {A} (v : A) idx : forall t : list A, Forall (fun i => 0 <= i < zlen t) idx ->
  exists t', scatter t idx (map (fun _ => v) idx) = Ok t' /\ length t' = length t
    /\ forall j x, t' !! j = Some x -> (x = v /\ Z.of_nat j ∈ idx) \/ (t !! j = Some x /\ Z.of_nat j ∉ idx).
Proof.
  induction idx as [|i idx IH]; intros t HF; [exists t; split_and!; try done; intros j x Hx; right; split; [done|apply not_elem_of_nil]|].
  apply Forall_cons in HF as [Hi HF]. cbn [map scatter]. rewrite wrap_index_in by lia.
  destruct (IH (<[Z.to_nat i := v]> t)) as (t' & E & Hl & Hat).
  { eapply Forall_impl; [exact HF|]. intros x Hx. unfold zlen in *. by rewrite length_insert. }
  rewrite length_insert in Hl. exists t'. split_and!; try done. intros j x Hx. destruct (Hat j x Hx) as [[-> Hj]|[Hx' Hj]]; [left; set_solver|].
  destruct (decide (j = Z.to_nat i)) as [->|Hne].
  - rewrite list_lookup_insert_eq in Hx' by (unfold zlen in Hi; lia). injection Hx' as <-. left. split; [done|]. rewrite Z2Nat.id by lia. set_solver.
  - rewrite list_lookup_insert_ne in Hx' by done. right. split; [done|]. apply not_elem_of_cons. split; [lia|done].
Qed.

(** Clearing and setting the same columns leaves a mask that was all [True] as it was. *)
Lemma mask_rewritten (m : list bool) roots columns : Forall (fun x => x = true) m ->
  Forall (fun i => 0 <= i < zlen m) roots -> Forall (fun i => 0 <= i < zlen m) columns ->
  exists m1 m2, scatter m roots (map (fun _ => true) roots) = Ok m1 /\ scatter m1 columns (map (fun _ => false) columns) = Ok m2
    /\ scatter m2 columns (map (fun _ => true) columns) = Ok m.
Proof.
  intros Hm Hr Hc. destruct (scatter_const true roots m Hr) as (m1 & E1 & L1 & H1).
  assert (forall l : list bool, length l = length m -> Forall (fun i => 0 <= i < zlen l) columns) as Hc' by (intros l Hl; unfold zlen in *; by rewrite Hl).
  destruct (scatter_const false columns m1 (Hc' _ L1)) as (m2 & E2 & L2 & H2). rewrite L1 in L2.
  destruct (scatter_const true columns m2 (Hc' _ L2)) as (m3 & E3 & L3 & H3). rewrite L2 in L3. exists m1, m2. split_and!; try done. rewrite E3. f_equal.
  rewrite Forall_lookup in Hm. apply list_eq. intros j. destruct (m3 !! j) as [x|] eqn:Ej.
  - destruct (lookup_lt_is_Some_2 m j) as [y Ey]; [apply lookup_lt_Some in Ej; lia|]. rewrite Ey, (Hm j y Ey). f_equal.
    destruct (H3 j x Ej) as [[-> _]|[Ej2 Hn]]; [done|]. destruct (H2 j x Ej2) as [[_ Hj]|[Ej1 _]]; [done|].
    destruct (H1 j x Ej1) as [[-> _]|[E0 _]]; [done|]. exact (Hm j x E0).
  - apply lookup_ge_None in Ej. symmetry. apply lookup_ge_None. lia.
Qed.

Lemma zsum_scaled n l : zsum (map (fun s => s * n) l) = zsum l * n.
Proof. induction l as [|x l IH]; [done|]. cbn [map]. rewrite !zsum_cons, IH. lia. Qed.

Lemma zsum_take_le l (b : nat) s : Forall (fun x => 0 <= x) l -> l !! b = Some s -> 0 <= zsum (take b l) /\ zsum (take b l) + s <= zsum l.
Proof.
  intros HF Hb. split; [apply zsum_nonneg; by apply Forall_take|]. rewrite <- (take_drop_middle l b s Hb) at 2. rewrite zsum_app, zsum_cons.
  assert (0 <= zsum (drop (S b) l)) by (apply zsum_nonneg; by apply Forall_drop). lia.
Qed.

(** The rows of the full mask lie in the mask. *)
Lemma full_mask_rows lens n i : Forall (fun s => 0 <= s) lens -> 1 <= n -> i ∈ token_tree_indices lens n FULL_MASK (zlen lens) ->
  1 <= i /\ i + (n - 1) <= zsum lens * n + n * n * zlen lens.
Proof.
  intros HF Hn Hi. unfold token_tree_indices in Hi. apply list_elem_of_In, in_concat in Hi as (row & Hrow & Hi).
  apply list_elem_of_In, list_elem_of_lookup in Hrow as (b & Hb). rewrite lookup_zip_with in Hb.
  destruct (zrange 0 (zlen lens) !! b) as [b'|] eqn:Eb; [|done]. apply lookup_zrange in Eb as [Eb Hlt]. cbn in Hb.
  rewrite lookup_zip_with in Hb. destruct (lens !! b) as [s|] eqn:Es; [|done]. cbn in Hb.
  destruct (take (length lens) (0 :: cumsum (map (fun s => s * n) lens)) !! b) as [c|] eqn:Ec; [|done]. cbn in Hb. injection Hb as <-.
  assert (c = zsum (take b lens) * n) as Hc.
  { rewrite lookup_take_lt in Ec by (apply lookup_lt_Some in Es; done). destruct b as [|b]; [cbn in Ec; injection Ec as <-; done|]. cbn in Ec.
    destruct (lookup_lt_is_Some_2 lens b) as [s' Es']; [apply lookup_lt_Some in Es; lia|].
    rewrite (cumsum_lookup _ b (s' * n)) in Ec by (by rewrite list_lookup_fmap, Es'). injection Ec as <-.
    rewrite (take_S_r _ _ _ Es'), zsum_app, zsum_cons, zsum_nil, firstn_map, zsum_scaled. lia. }
  apply in_map_iff in Hi as (t & <- & Ht). apply list_elem_of_In, elem_of_zrange in Ht. destruct (zsum_take_le lens b s HF Es) as [H1 H2].
  apply Forall_lookup_1 with (i := b) (x := s) in HF; [|done]. cbv beta in HF. subst c. apply lookup_lt_Some in Es. unfold zlen in *. cbn [fst snd]. nia.
Qed.

Lemma fast_links k parents sel steps s : tree_rows parents sel k 2 steps ->
  row_built k 2 parents sel s [1; -1] [-1; -1] [s + 0; s + 1].
Proof.
  intros Htr. pose proof (par_lt _ _ _ _ _ Htr 1 ltac:(lia)) as Hp. assert (par parents sel k 1 = 0) as Hp0 by lia.
  exists (Branch 1 Leaf Leaf). split_and!; [|done|done|done|].
  - apply (enc_branch _ _ _ 0 1 (-1)); [done|done|done| |constructor]. apply (enc_branch _ _ _ 1 (-1) (-1)); try done; constructor.
  - intros j Hj. assert (j = 0 \/ j = 1) as [-> | ->] by lia; [exists 0; split; [constructor|done]|].
    exists (0 + 1). split; [constructor; [lia|rewrite Hp0; constructor]|done].
Qed.

(** The native kernel on the tables that [build_tree_kernel_efficient] allocates: the links
    and positions are those of the tree, and the mask stays all [True]. *)
Lemma build_native_ok k n steps parent_list selected_index lens :
  length parent_list = length lens -> length selected_index = length lens -> Forall (fun s => 0 <= s) lens -> 1 <= n ->
  (forall b parents sel, parent_list !! b = Some parents -> selected_index !! b = Some sel -> tree_rows parents sel k n steps) ->
  let mask := repeat true (Z.to_nat (zsum lens * n + n * n * zlen lens)) in
  exists positions nexts sibs,
    build_tree_efficient_native parent_list selected_index lens mask (no_links n lens) (no_links n lens) k n FULL_MASK (zlen lens)
    = Ok (concat positions, index_rows_from 0 n (length lens), nexts, sibs, mask)
    /\ length positions = length lens /\ length nexts = length lens /\ length sibs = length lens
    /\ forall b parents sel seq_len, parent_list !! b = Some parents -> selected_index !! b = Some sel -> lens !! b = Some seq_len ->
         exists next sib pos, nexts !! b = Some next /\ sibs !! b = Some sib /\ positions !! b = Some pos
           /\ row_built k n parents sel seq_len next sib pos.
Proof.
  intros Hpl Hsl Hpos Hn Htr mask. assert (map (fun b => map (fun t => b * n + t) (zrange 0 n)) (zrange 0 (zlen lens)) = index_rows_from 0 n (length lens)) as Eidx.
  { apply list_eq. intros b. unfold index_rows_from. rewrite !list_lookup_fmap. destruct (decide (b < length lens)%nat).
    - rewrite lookup_seq_lt by done. rewrite (proj2 (lookup_zrange 0 (zlen lens) b (Z.of_nat b))) by (unfold zlen; lia). done.
    - rewrite (lookup_ge_None_2 (seq _ _)) by (rewrite length_seq; lia). rewrite (lookup_ge_None_2 (zrange _ _)); [done|].
      pose proof (zlen_zrange 0 (zlen lens)). unfold zlen in *. lia. }
  unfold build_tree_efficient_native. rewrite Eidx. destruct (_ && _ && _) eqn:Efast.
  - apply andb_prop in Efast as [[->%Z.eqb_eq ->%Z.eqb_eq]%andb_prop _].
    eexists (map (fun s => [s + 0; s + 1]) lens), _, _. split; [done|]. unfold no_links. rewrite !length_map. split_and!; try done.
    intros b parents sel s Hp Hs Hl. exists [1; -1], [-1; -1], [s + 0; s + 1]. rewrite !list_lookup_fmap, Hl. split_and!; try done.
    apply (fast_links 1 parents sel steps). by eapply Htr.
  - destruct (build_rows_ok k n steps parent_list selected_index lens Hpl Hsl Htr) as (positions & nexts & sibs & E & L1 & L2 & L3 & Hb).
    assert (Forall (fun x => x = true) mask) as Hmask by (apply Forall_forall; intros x Hx%list_elem_of_In%repeat_spec; done).
    assert (zlen mask = zsum lens * n + n * n * zlen lens) as Hzm.
    { unfold mask, zlen. rewrite repeat_length. pose proof (zsum_nonneg lens Hpos). nia. }
    set (idx := token_tree_indices lens n FULL_MASK (zlen lens)). assert (forall i, i ∈ idx -> 1 <= i /\ i + (n - 1) <= zlen mask) as Hidx.
    { intros i Hi. rewrite Hzm. by apply full_mask_rows. }
    destruct (mask_rewritten mask (map (fun i => i - 1) idx) (concat (map (fun i => map (fun o => i + o) (zrange 0 (n - 1))) idx)) Hmask)
      as (m1 & m2 & S1 & S2 & S3).
    { apply List.Forall_map, Forall_forall. intros i Hi%Hidx. lia. }
    { apply Forall_concat, List.Forall_map, Forall_forall. intros i Hi%Hidx. apply List.Forall_map, Forall_forall. intros o Ho%elem_of_zrange. lia. }
    rewrite map_map in S1. rewrite S1. cbn [res_bind]. rewrite S2. cbn [res_bind]. rewrite S3. cbn [res_bind]. rewrite E. cbn [res_bind].
    exists positions, nexts, sibs. by split_and!.
Qed.

(** The kernel writes the links and the positions that the reference writes. *)
Definition kernel_agrees (kernel : tree_kernel) : Prop :=
  forall parent_list selected_index lens mask ri nexts sibs topk steps n positions ri' nexts' sibs' mask',
    build_tree_efficient_native parent_list selected_index lens mask nexts sibs topk n FULL_MASK (zlen lens) = Ok (positions, ri', nexts', sibs', mask') ->
    exists m, kernel parent_list selected_index lens (BoolMask mask) ri nexts sibs topk steps n FULL_MASK = Ok (m, positions, ri', nexts', sibs').

(** The reference as a kernel. *)
Definition native_kernel : tree_kernel := fun parent_list selected_index lens mask ri nexts sibs topk steps n mode =>
  match mask with
  | BoolMask l =>
      let* (positions, ri, nexts, sibs, l) := build_tree_efficient_native parent_list selected_index lens l nexts sibs topk n mode (zlen lens) in
      Ok (BoolMask l, positions, ri, nexts, sibs)
  | PackedMask _ _ => Raise RuntimeError
  end.

Lemma native_kernel_agrees : kernel_agrees native_kernel.
Proof. intros pl sl lens mask ri nexts sibs topk steps n positions ri' nexts' sibs' mask' E. cbn. rewrite E. eexists. done. Qed.

(** The trees a batch of drafts has, request by request. *)
Definition trees_built (k n steps : Z) (lens : list Z) (parent_list sels draft_tokens : list (list Z)) (verified_id : list Z) (v : BuiltTree) : Prop :=
  bt_draft_tokens v = concat (zip_with cons verified_id draft_tokens)
  /\ bt_retrieve_index v = index_rows_from 0 n (length lens)
  /\ length (bt_retrieve_next_token v) = length lens /\ length (bt_retrieve_next_sibling v) = length lens
  /\ exists positions, bt_positions v = concat positions /\ length positions = length lens
  /\ forall r parents sel s, parent_list !! r = Some parents -> sels !! r = Some sel -> lens !! r = Some s ->
       tree_rows parents sel k n steps /\ exists next sib pos, bt_retrieve_next_token v !! r = Some next /\ bt_retrieve_next_sibling v !! r = Some sib
         /\ positions !! r = Some pos /\ row_built k n parents sel s next sib pos.

Lemma build_tree_ok kernel k n steps parent_list sels draft_tokens lens verified_id :
  kernel_agrees kernel -> length parent_list = length lens -> length sels = length lens -> Forall (fun s => 0 <= s) lens -> 1 <= n ->
  (forall b parents sel, parent_list !! b = Some parents -> sels !! b = Some sel -> tree_rows parents sel k n steps) ->
  exists v, build_tree_kernel_efficient kernel verified_id parent_list sels draft_tokens lens (zsum lens) k steps n FULL_MASK None = Ok v
    /\ trees_built k n steps lens parent_list sels draft_tokens verified_id v.
Proof.
  intros Hk Hpl Hsl Hpos Hn Htr. destruct (build_native_ok k n steps parent_list sels lens Hpl Hsl Hpos Hn Htr) as (positions & nexts & sibs & E & L1 & L2 & L3 & Hb).
  unfold build_tree_kernel_efficient. cbn [tree_mask_init res_bind].
  destruct (Hk _ _ _ _ (no_links n lens) _ _ _ steps _ _ _ _ _ _ E) as [m ->]. cbn [res_bind].
  eexists. split; [done|]. unfold trees_built. cbn. split_and!; try done. exists positions. split_and!; try done.
  intros r parents sel s Hp Hs Hl. split; [by eapply Htr|]. by eapply Hb.
Qed.

(** ** The tokens that are accepted *)

Lemma encodes_toks next sib toks toks' c t : zlen toks = zlen toks' -> encodes next sib toks c t -> encodes next sib toks' c t.
Proof. intros Hz. induction 1 as [|i c s tc ts Hi Hc Hs _ IHc _ IHs]; [constructor|]. econstructor; try done. by rewrite <- Hz. Qed.

(** The links of a request hold a tree no deeper than the number of steps. *)
Lemma row_built_tree k n steps parents sel s next sib pos (c tg : list Z) : tree_rows parents sel k n steps -> 0 <= steps ->
  row_built k n parents sel s next sib pos -> zlen c = n -> zlen tg = n ->
  exists t, row_tree n (Z.to_nat (steps + 1)) c tg next sib t /\ forall p, down t p -> trail parents sel k n (List.last (0 :: p) 0) p.
Proof.
  intros Htr Hsteps (t & He & Hpar & Hperm & _ & _) Hc Ht. pose proof (tr_n _ _ _ _ _ Htr) as Hn.
  assert (forall p, down t p -> trail parents sel k n (List.last (0 :: p) 0) p) as Hd.
  { intros p Hp. apply (down_trail parents sel k n t p Hp 0 []); [done| |constructor]. rewrite Hperm. apply Forall_forall. by intros v Hv%elem_of_zrange. }
  exists t. split; [|exact Hd]. split; try done.
  - eapply encodes_toks; [|exact He]. rewrite zlen_zrange; lia.
  - intros p Hp. pose proof (trail_depth _ _ _ _ _ _ (Hd p Hp)) as Hdep. destruct p as [|u p]; [simpl; lia|].
    remember (List.last (0 :: u :: p) 0) as j eqn:Ej. assert (1 <= j) as Hj by (inversion Hdep; lia).
    destruct (depth_level _ _ _ _ _ Htr _ _ Hdep Hj) as (_ & _ & _ & Hle). lia.
Qed.

(** What the walk emits: the target's choices along the accepted path. *)
Lemma accepted_gather n r width c tg t predicts row num : 0 <= r -> 0 <= n -> row_accepted n r width c tg t predicts row num ->
  exists path, walks c tg 0 t path /\ num + 1 = zlen path /\ (length path >= 1)%nat
    /\ gather predicts (take (Z.to_nat (num + 1)) row) = Ok (map (tok_at tg) path).
Proof.
  intros Hr Hn (path & Hw & -> & -> & Hat). exists path. split; [done|]. split; [unfold zlen; lia|]. split; [inversion Hw; simpl; lia|].
  replace (Z.to_nat (Z.of_nat (length path) - 1 + 1)) with (length (map (fun u => r * n + u) path)) by (rewrite length_map; lia).
  rewrite take_app_length. clear Hw. induction path as [|u path IH]; [done|]. cbn [map gather].
  destruct (Hat u ltac:(set_solver)) as [Hu Hpu]. assert (0 <= r * n + u) as H0 by nia. rewrite (tensor_at_in _ _ _ H0 Hpu). cbn [res_bind].
  rewrite IH by (intros v Hv; apply Hat; set_solver). done.
Qed.

Section Round.
Context {Score H : Type} (score_mul : Score -> Score -> Score).
Context (torch_max : list Score -> Score * Z) (torch_topk : list Score -> Z -> list (Score * Z)).
Context (draft_runner : Z -> list Z -> list Z -> list Z -> list H -> list (list Score) * list H) (hot_token_id : option (list Z)).
Context (kernel : tree_kernel) (topk speculative_num_steps speculative_num_draft_tokens : Z).

(** [EagleWorker.draft] after the slots of the drafts have been assigned. *)
Definition draft_tree (verified_id seq_lens : list Z) (topk_p : list (list Score)) (topk_index : list (list Z))
    (hidden_states : list H) (out_cache_loc positions : list Z) : res BuiltTree :=
  let* (parent_list, top_scores_index, draft_tokens) :=
    draft_forward score_mul torch_max torch_topk draft_runner hot_token_id topk speculative_num_steps speculative_num_draft_tokens
      topk_p topk_index hidden_states out_cache_loc positions in
  build_tree_kernel_efficient kernel verified_id parent_list top_scores_index draft_tokens seq_lens (zsum seq_lens)
    topk speculative_num_steps speculative_num_draft_tokens FULL_MASK None.
End Round.
