(* ===== verification/TreeClaims.v ===== *)
(** Speculation with a tree of drafts: what [EagleWorker.draft] builds, what greedy
    verification accepts of it, and where the NPU kernel and ties depart from it. *)

From S2P Require Export TreeRound.
From S2P Require Import SpecKernels EagleRows.

Lemma chunks_concat {X} (n : Z) (rows : list (list X)) : 1 <= n -> Forall (fun r => zlen r = n) rows -> chunks n (concat rows) = rows.
Proof.
  intros Hn HF. unfold chunks. assert (length (concat rows) / Z.to_nat n = length rows)%nat as ->.
  { rewrite (length_concat_rows (Z.to_nat n)); [apply Nat.div_mul; lia|]. eapply Forall_impl; [exact HF|]. unfold zlen. lia. }
  induction HF as [|r rows Hr _ IH]; [done|]. unfold zlen in Hr. cbn [length take_chunks concat].
  replace (Z.to_nat n) with (length r) at 1 3 by lia. by rewrite take_app_length, drop_app_length, IH.
Qed.

Lemma choose_rows {T} (P : nat -> T -> Prop) (m : nat) : (forall r, (r < m)%nat -> exists t, P r t) ->
  exists ts, length ts = m /\ forall r t, ts !! r = Some t -> P r t.
Proof.
  induction m as [|m IH]; intros H; [by exists []|]. destruct IH as (ts & Hl & Hts); [intros r Hr; apply H; lia|].
  destruct (H m ltac:(lia)) as [t Ht]. exists (ts ++ [t]). rewrite length_app. split; [simpl; lia|]. intros r u Hu.
  apply lookup_app_Some in Hu as [Hu|[Hr Hu]]; [by apply Hts|]. apply list_lookup_singleton_Some in Hu as [Hz <-]. by replace r with m by lia.
Qed.

(** What is assumed of [torch.topk], [torch.max] and the probabilities: a product with a
    probability is smaller. *)
Record score_laws {Score} (score_mul : Score -> Score -> Score) (torch_max : list Score -> Score * Z)
    (torch_topk : list Score -> Z -> list (Score * Z)) (lt : Score -> Score -> Prop) (prob : Score -> Prop) : Prop := {
  sl_max : forall l, l <> [] -> top_of lt l 1 [torch_max l];
  sl_topk : forall l k, 0 <= k <= zlen l -> top_of lt l k (torch_topk l k);
  sl_mul : forall x p, prob p -> lt (score_mul x p) x
}.

(** The shapes of a batch of [bs] requests that starts drafting. *)
Record draft_inputs {Score H} (bs : nat) (k n steps : Z) (hot_token_id : option (list Z)) (verified_id lens : list Z) (topk_p : list (list Score))
    (topk_index : list (list Z)) (hidden : list H) : Prop := {
  in_k : 1 <= k;
  in_steps : 1 <= steps;
  in_n : 1 <= n;
  in_table : n - 1 <= k + (steps - 1) * (k * k);
  in_verified : length verified_id = bs;
  in_lens : length lens = bs /\ Forall (fun s => 0 <= s) lens;
  in_p : length topk_p = bs /\ Forall (fun r => zlen r = k) topk_p;
  in_index : length topk_index = bs
    /\ Forall (fun r => zlen r = k /\ match hot_token_id with Some t => Forall (fun j => 0 <= j < zlen t) r | None => True end) topk_index;
  in_hidden : length hidden = bs
}.

Section Claims.
Context {Score H : Type} (score_mul : Score -> Score -> Score).
Context (torch_max : list Score -> Score * Z) (torch_topk : list Score -> Z -> list (Score * Z)) (lt : Score -> Score -> Prop) (prob : Score -> Prop).
Context (draft_runner : Z -> list Z -> list Z -> list Z -> list H -> list (list Score) * list H) (hot_token_id : option (list Z)).
Context (kernel : tree_kernel) (bs : nat) (k steps n : Z) (verified_id lens : list Z) (topk_p : list (list Score)) (topk_index : list (list Z))
  (hidden : list H) (out positions : list Z).
Abbreviation draft_forward := (draft_forward score_mul torch_max torch_topk draft_runner hot_token_id k steps n topk_p topk_index hidden out positions).
Abbreviation draft_tree := (draft_tree score_mul torch_max torch_topk draft_runner hot_token_id kernel k steps n verified_id lens topk_p topk_index hidden out positions).

Lemma draft_tree_ok : score_laws score_mul torch_max torch_topk lt prob -> runner_ok prob k draft_runner hot_token_id -> kernel_agrees kernel ->
  draft_inputs bs k n steps hot_token_id verified_id lens topk_p topk_index hidden ->
  exists parent_list sels draft_tokens v,
    draft_forward = Ok (parent_list, sels, draft_tokens) /\ draft_tree = Ok v
    /\ length parent_list = bs /\ length sels = bs /\ trees_built k n steps lens parent_list sels draft_tokens verified_id v
    /\ length (zip_with cons verified_id draft_tokens) = bs /\ Forall (fun c => zlen c = n) (zip_with cons verified_id draft_tokens).
Proof.
  intros [Hmax Htopk Hmul] Hrun Hker [Hk Hs Hn Htab Hv [Hl Hpos] [Hp HFp] [Hi HFi] Hh].
  destruct (draft_forward_ok score_mul torch_max torch_topk lt prob Hmax Htopk Hmul k Hk bs draft_runner hot_token_id Hrun
    steps n topk_p topk_index hidden out positions Hs Hn Htab Hp Hi Hh HFp HFi) as (pl & sels & toks & E & L1 & L2 & L3 & Htr & HFt).
  destruct (build_tree_ok kernel k n steps pl sels toks lens verified_id Hker ltac:(lia) ltac:(lia) Hpos Hn Htr) as (v & Ev & Hb).
  exists pl, sels, toks, v. unfold TreeRound.draft_tree. rewrite E. cbn [res_bind]. split_and!; try done; [rewrite length_zip_with; lia|].
  apply Forall_lookup. intros r c Hc. apply lookup_zip_with_Some in Hc as (x & t & -> & _ & Ht). rewrite zlen_cons.
  pose proof (proj1 (Forall_lookup _ _) HFt r t Ht) as Hz. cbv beta in Hz. lia.
Qed.

(** The target's choice at every node of request [r]'s tree is that of [model] after [ctx] and
    the tokens on the way from the root to the node. *)
Definition target_of (model : list Z -> Z) (ctxs : list (list Z)) (parent_list sels cands tgts : list (list Z)) : Prop :=
  forall r ctx parents sel cand tg u p, ctxs !! r = Some ctx -> parent_list !! r = Some parents -> sels !! r = Some sel ->
    cands !! r = Some cand -> tgts !! r = Some tg -> trail parents sel k n u p -> tok_at tg u = model (ctx ++ map (tok_at cand) p).

(** Greedy verification of the built trees with the target's choices. *)
Lemma verify_built model ctxs parent_list sels draft_tokens v cands tgts predicts : 1 <= n -> 0 <= steps -> length lens = bs -> length parent_list = bs -> length sels = bs ->
  trees_built k n steps lens parent_list sels draft_tokens verified_id v ->
  length cands = bs -> Forall (fun c => zlen c = n) cands -> length ctxs = bs -> length tgts = bs -> Forall (fun t => zlen t = n) tgts ->
  target_of model ctxs parent_list sels cands tgts -> Z.of_nat bs * n <= zlen predicts ->
  exists predicts' rows nums,
    verify_tree_greedy_native predicts (map (fun _ => repeat (-1) (Z.to_nat (steps + 1))) cands) cands (bt_retrieve_index v) (bt_retrieve_next_token v)
      (bt_retrieve_next_sibling v) tgts n (steps + 1) k = Ok (predicts', rows, nums)
    /\ length rows = bs /\ length nums = bs
    /\ forall r ctx, ctxs !! r = Some ctx -> exists row num, rows !! r = Some row /\ nums !! r = Some num /\ 0 <= num <= steps
         /\ gather predicts' (take (Z.to_nat (num + 1)) row) = Ok (greedy model ctx (Z.to_nat (num + 1))).
Proof.
  intros Hn Hs Hl Lp Ls (_ & Eri & Ln & Lsb & pos & _ & Lpos & Hb) Lc HFc Lx Lt HFt Htgt Hpred.
  destruct (choose_rows (fun r t => forall c nx sb tg, cands !! r = Some c -> bt_retrieve_next_token v !! r = Some nx -> bt_retrieve_next_sibling v !! r = Some sb ->
    tgts !! r = Some tg -> row_tree n (Z.to_nat (steps + 1)) c tg nx sb t
    /\ forall ctx p, ctxs !! r = Some ctx -> down t p -> tok_at tg (List.last (0 :: p) 0) = model (ctx ++ map (tok_at c) p)) bs) as (ts & Lts & Hts).
  { intros r Hr. destruct (lookup_lt_is_Some_2 parent_list r) as [pa Epa]; [lia|]. destruct (lookup_lt_is_Some_2 sels r) as [se Ese]; [lia|].
    destruct (lookup_lt_is_Some_2 lens r) as [s Es]; [lia|]. destruct (Hb r pa se s Epa Ese Es) as (Htr & nx & sb & po & Enx & Esb & _ & Hbuilt).
    destruct (lookup_lt_is_Some_2 cands r) as [c Ec]; [lia|]. destruct (lookup_lt_is_Some_2 tgts r) as [tg Etg]; [lia|].
    pose proof (proj1 (Forall_lookup _ _) HFc r c Ec) as Hzc. pose proof (proj1 (Forall_lookup _ _) HFt r tg Etg) as Hzt. cbv beta in Hzc, Hzt.
    destruct (row_built_tree k n steps pa se s nx sb po c tg Htr Hs Hbuilt Hzc Hzt) as (t & Hrt & Hd). exists t. intros c' nx' sb' tg' E1 E2 E3 E4.
    simplify_eq. split; [done|]. intros ctx p Ectx Hp. by eapply Htgt; [..|apply Hd]. }
  destruct (verify_native_ok n (Z.to_nat (steps + 1)) cands (bt_retrieve_next_token v) (bt_retrieve_next_sibling v) tgts ts) with (topk := k) (predicts := predicts)
    as (pr & rows & nums & E & Lr & Lnm & Hacc); try lia.
  { intros r c nx sb tg t H1 H2 H3 H4 H5. by apply (Hts r t H5). }
  { unfold zlen at 1. rewrite Lc. lia. }
  rewrite Z2Nat.id, Lc in E by lia. rewrite Eri, Hl, E. eexists pr, rows, nums. split_and!; try done; try lia.
  intros r ctx Hctx. pose proof (lookup_lt_Some _ _ _ Hctx).
  destruct (lookup_lt_is_Some_2 cands r) as [c Hc]; [lia|]. destruct (lookup_lt_is_Some_2 tgts r) as [tg Htg]; [lia|].
  destruct (lookup_lt_is_Some_2 ts r) as [t Ht]; [lia|]. destruct (lookup_lt_is_Some_2 (bt_retrieve_next_token v) r) as [nx Hnx]; [lia|].
  destruct (lookup_lt_is_Some_2 (bt_retrieve_next_sibling v) r) as [sb Hsb]; [lia|].
  destruct (Hts r t Ht c nx sb tg Hc Hnx Hsb Htg) as [Hrt Hmod]. destruct (Hacc r c tg t Hc Htg Ht) as (row & num & Er & En & Hra).
  destruct (accepted_gather n (Z.of_nat r) (Z.to_nat (steps + 1)) c tg t pr row num ltac:(lia) ltac:(lia) Hra) as (path & Hw & Hnum & Hge & Hg).
  destruct (walks_down_path c tg 0 t path Hw) as (p & Epath & Hd). pose proof (rt_depth _ _ _ _ _ _ _ Hrt p Hd) as Hdep.
  exists row, num. split_and!; try done; [unfold zlen in Hnum; lia|unfold zlen in Hnum; subst path; simpl in Hnum; lia|].
  rewrite Hg. f_equal. replace (Z.to_nat (num + 1)) with (length path) by (unfold zlen in Hnum; lia). apply (walks_greedy c tg model 0 t path Hw ctx).
  intros q u Hq ->. by apply Hmod.
Qed.
End Claims.

(** ** An example

    Scores are integers, logarithms of probabilities, and [topk] sorts. *)

Definition by_score (a b : Z * Z) : Prop := b.1 <= a.1.

#[local] Instance by_score_dec : RelDecision by_score.
Proof. intros a b. unfold by_score. apply _. Defined.

#[local] Instance by_score_total : Total by_score.
Proof. intros a b. unfold by_score. lia. Qed.

#[local] Instance by_score_trans : Transitive by_score.
Proof. intros a b c. unfold by_score. lia. Qed.

Definition sample_topk (l : list Z) (k : Z) : list (Z * Z) := take (Z.to_nat k) (merge_sort by_score (zip l (zrange 0 (zlen l)))).

Definition sample_max (l : list Z) : Z * Z := default (0, 0) (head (sample_topk l 1)).

Lemma sample_topk_top l k : 0 <= k <= zlen l -> top_of Z.lt l k (sample_topk l k).
Proof.
  intros Hk. set (z := zip l (zrange 0 (zlen l))). set (s := merge_sort by_score z).
  assert (Permutation s z) as Hperm by apply merge_sort_Permutation.
  assert (length z = length l) as Hlz by (unfold z; rewrite length_zip_with; pose proof (zlen_zrange 0 (zlen l)); unfold zlen in *; lia).
  assert (map snd z = zrange 0 (zlen l)) as Hsnd by (apply snd_zip; pose proof (zlen_zrange 0 (zlen l)); unfold zlen in *; lia).
  assert (NoDup (map snd s)) as Hnd by (rewrite Hperm, Hsnd; apply NoDup_zrange).
  assert (forall v i, (v, i) ∈ z <-> 0 <= i /\ l !! Z.to_nat i = Some v) as Hin.
  { intros v i. unfold z. rewrite list_elem_of_lookup. split.
    - intros (j & [Hj Hi]%lookup_zip_Some). apply lookup_zrange in Hi as [-> _]. split; [lia|]. by rewrite Z.add_0_l, Nat2Z.id.
    - intros [H0 Hv]. exists (Z.to_nat i). apply lookup_zip_Some. split; [done|]. apply lookup_zrange. apply lookup_lt_Some in Hv. unfold zlen. lia. }
  unfold sample_topk. fold z s. rewrite <- (take_drop (Z.to_nat k) s) in Hnd. rewrite map_app in Hnd. apply NoDup_app in Hnd as (Hnd & _ & _).
  split_and!; [unfold zlen; rewrite length_take, (Permutation_length Hperm), Hlz; unfold zlen in Hk; lia|done| |].
  - apply Forall_take. rewrite Hperm. apply Forall_forall. intros [v i] Hvi. by apply Hin.
  - intros i x Hx Hni. assert ((x, Z.of_nat i) ∈ drop (Z.to_nat k) s) as Hd.
    { assert ((x, Z.of_nat i) ∈ s) as Hxs by (rewrite Hperm; apply Hin; split; [lia|by rewrite Nat2Z.id]).
      rewrite <- (take_drop (Z.to_nat k) s) in Hxs. apply elem_of_app in Hxs as [Hxs|]; [|done]. destruct Hni. by apply (list_elem_of_fmap_2 snd) in Hxs. }
    assert (StronglySorted by_score s) as Hss by (apply Sorted_StronglySorted; [apply _|apply (Sorted_merge_sort by_score)]).
    rewrite <- (take_drop (Z.to_nat k) s) in Hss. apply Forall_forall. intros [v j] Hv. pose proof (StronglySorted_app_1_elem_of by_score _ _ _ _ Hss Hv Hd) as Hle.
    unfold by_score in Hle. simpl in *. lia.
Qed.

Lemma sample_laws : score_laws Z.add sample_max sample_topk Z.lt (fun p => p < 0).
Proof.
  split; [|intros l k; apply sample_topk_top|intros; lia]. intros l Hl. assert (1 <= zlen l) as H1 by (destruct l; [done|]; rewrite zlen_cons; pose proof (zlen_nonneg l); lia).
  pose proof (sample_topk_top l 1 ltac:(lia)) as Htop. unfold sample_max. destruct Htop as [Hz Hrest]. destruct (sample_topk l 1) as [|a [|b r]] eqn:E.
  - done.
  - by split.
  - rewrite !zlen_cons in Hz. pose proof (zlen_nonneg r). lia.
Qed.

(** A draft model that gives token 0 the best score, and two requests; two branches, two
    steps, four tokens. *)
Definition sample_runner (i : Z) (ids loc pos : list Z) (h : list unit) : list (list Z) * list unit :=
  (map (fun t => if t =? 0 then [-1; -3; -2] else [-2; -1; -3]) ids, map (fun _ => tt) ids).

Lemma sample_runner_ok : runner_ok (fun p => p < 0) 2 sample_runner None.
Proof.
  intros i ids loc pos h. unfold sample_runner. rewrite !length_map. split_and!; try done. apply List.Forall_map, Forall_forall. intros t _.
  destruct (t =? 0); (split_and!; [done| |done]); repeat constructor; lia.
Qed.

Definition sample_p : list (list Z) := [[-1; -2]; [-1; -2]].
Definition sample_index : list (list Z) := [[1; 0]; [2; 1]].

Lemma sample_inputs : draft_inputs 2 2 4 2 None [0; 1] [5; 7] sample_p sample_index [tt; tt].
Proof. split; try (repeat split; repeat constructor; try done; unfold zlen; simpl; lia). Qed.

Definition sample_forward := draft_forward Z.add sample_max sample_topk sample_runner None 2 2 4 sample_p sample_index [tt; tt] [10; 11; 12; 13; 20; 21; 22; 23] [5; 5; 7; 7].
Definition sample_tree := draft_tree Z.add sample_max sample_topk sample_runner None native_kernel 2 2 4 [0; 1] [5; 7] sample_p sample_index [tt; tt]
  [10; 11; 12; 13; 20; 21; 22; 23] [5; 5; 7; 7].

(** Both requests get the tree in which node 3 is below node 1, and nodes 1 and 2 are below
    the root. *)
Lemma sample_tree_links : exists m, sample_tree = Ok (MkBuiltTree m [5; 6; 6; 7; 7; 8; 8; 9] [[0; 1; 2; 3]; [4; 5; 6; 7]] [[1; 3; -1; -1]; [1; 3; -1; -1]]
  [[-1; 2; -1; -1]; [-1; 2; -1; -1]] [0; 1; 0; 1; 1; 2; 1; 1]).
Proof. eexists. vm_compute. reflexivity. Qed.

(** A target whose choice depends on the last token. *)
Definition sample_model (ctx : list Z) : Z := (List.last ctx 0 + 1) mod 3.
Definition sample_targets : list (list Z) := [[1; 2; 1; 2]; [2; 0; 2; 2]].

Lemma sample_targets_of parent_list sels : target_of 2 4 sample_model [[9; 0]; [9; 1]] parent_list sels [[0; 1; 0; 1]; [1; 2; 1; 1]] sample_targets.
Proof.
  intros r ctx parents sel cand tg u p Hx _ _ Hc Ht Htr. assert (exists d, ctx = [9; d] /\ tok_at cand 0 = d
    /\ forall v, 0 <= v < 4 -> tok_at tg v = (tok_at cand v + 1) mod 3) as (d & -> & Hd & Hv).
  { destruct r as [|[|r]]; cbn in Hx, Hc, Ht; simplify_eq; eexists; (split_and!; [done|done|]); intros v Hv;
      assert (v = 0 \/ v = 1 \/ v = 2 \/ v = 3) as [-> |[-> |[-> | ->]]] by lia; done. }
  unfold sample_model. inversion Htr as [|j q Hj Hq]; subst.
  - rewrite app_nil_r. apply Hv. lia.
  - rewrite map_app, app_assoc. cbn [map]. rewrite List.last_last. apply Hv. lia.
Qed.

(** *** Where the laws matter *)

(** The NPU kernel takes the drafts as a chain and reads no links: on the tree above it
    accepts node 2 after node 1, although node 2 is not below node 1. *)
Lemma npu_kernel_ignores_links :
  verify_tree_greedy_native (repeat 0 4) [[-1; -1; -1; -1]] [[0; 1; 2; 3]] [[0; 1; 2; 3]] [[1; 3; -1; -1]] [[-1; 2; -1; -1]] [[1; 2; 9; 7]] 4 4 2
    = Ok ([1; 2; 0; 0], [[0; 1; -1; -1]], [1])
  /\ verify_tree_greedy (fun _ => 0) (fun _ => 4) [0] (MkVerifyOut (repeat 0 4) (repeat (-1) 4) [0]) [0; 1; 2; 3] [0; 1; 2; 3] [1; 2; 9; 7] 4
    = Some (MkVerifyOut [1; 2; 9; 0] [0; 1; 2; -1] [2]).
Proof. split; vm_compute; reflexivity. Qed.

(** A [topk] that prefers the later of two equal scores. *)
Definition late_score (a b : Z * Z) : Prop := b.1 < a.1 \/ (b.1 = a.1 /\ b.2 <= a.2).

#[local] Instance late_score_dec : RelDecision late_score.
Proof. intros a b. unfold late_score. apply _. Defined.

Definition late_topk (l : list Z) (k : Z) : list (Z * Z) := take (Z.to_nat k) (merge_sort late_score (zip l (zrange 0 (zlen l)))).

Definition certain_runner (i : Z) (ids loc pos : list Z) (h : list unit) : list (list Z) * list unit :=
  (map (fun _ => [0; -9]) ids, map (fun _ => tt) ids).

(** A token of probability 1 has the score of its parent; then the token may be selected
    without the parent, and there is no tree to build. *)
Lemma tie_selects_an_orphan :
  draft_forward Z.add sample_max late_topk certain_runner None 2 2 2 [[-1; -2]] [[1; 0]] [tt] [10; 11; 12; 13] [5; 5] = Ok ([[-1; 0; 1]], [[2]], [[0]])
  /\ build_rows 2 2 [[-1; 0; 1]] [[2]] [5] [[-1; -1]] [[-1; -1]] = Raise IndexError.
Proof. split; vm_compute; reflexivity. Qed.




