(* ===== verification/EagleRound.v ===== *)
(** A decode round of EAGLE: the decode branch of [EAGLEWorker.forward_batch_generation] of
    [speculative/eagle_worker.py].  The worker borrows slots for the drafts, drafts, builds
    the tree and verifies; the models, the tree kernel and the score arithmetic are
    parameters.  The theorem is about chains ([topk = 1]), the only shape the NPU kernel
    verifies. *)

From stdpp Require Import strings.
From S2P Require Export EagleDraft TreeClaims.
From S2P Require Import Triton KVTable SpecKernels SpecProps SpecInfo EagleRows.

(** What the last round left for drafting: fields of [EagleDraftInput]. *)
Record draft_seed (Score H : Type) : Type := MkDraftSeed {
  sd_verified_id : list Z;
  sd_topk_p : list (list Score);
  sd_topk_index : list (list Z);
  sd_hidden_states : list H
}.
Arguments MkDraftSeed {Score H}.
Arguments sd_verified_id {Score H}.
Arguments sd_topk_p {Score H}.
Arguments sd_topk_index {Score H}.
Arguments sd_hidden_states {Score H}.

Section Round.
Context {G H Score : Type} {Gram : GrammarObject G} {T A : Type} {Alloc : KVAllocator A} {Backup : KVBackup A} {Cache : BasePrefixCache T A kva_pool}.
Context (tokenizer : option Tokenizer) (re_search : string -> string -> bool) (think_end_id : option Z).
Context (oob : Z -> Z) (undef : Z) (torch_empty : Z -> list Z) (np2 : Z -> Z) (order : Z -> list Z) (_is_hip : bool) (attn_backend : string).
Context (score_mul : Score -> Score -> Score) (torch_max : list Score -> Score * Z) (torch_topk : list Score -> Z -> list (Score * Z)).
Context (draft_runner : Z -> list Z -> list Z -> list Z -> list H -> list (list Score) * list H) (hot_token_id : option (list Z)) (kernel : tree_kernel).
Context (forward : VerifyBatch G -> list Z * list H) (topk speculative_num_steps speculative_num_draft_tokens : Z).

Definition decode_round (seed : draft_seed Score H) (batch : VerifyBatch G) (page_size : Z) (t : T) (a : A) (pool : ReqToTokenPool)
    : res (EagleVerifyOutput H * VerifyBatch G * T * A * ReqToTokenPool) :=
  let* (out_cache_loc, positions, _, t, a, pool) :=
    draft_preprocess_decode oob undef torch_empty order _is_hip attn_backend page_size topk speculative_num_steps batch t a pool in
  let* tree := draft_tree score_mul torch_max torch_topk draft_runner hot_token_id kernel topk speculative_num_steps speculative_num_draft_tokens
                 (sd_verified_id seed) (vb_seq_lens batch) (sd_topk_p seed) (sd_topk_index seed) (sd_hidden_states seed) out_cache_loc positions in
  let spec_info := MkVerifyInput (bt_draft_tokens tree) (bt_retrieve_index tree) speculative_num_steps topk speculative_num_draft_tokens in
  worker_verify tokenizer re_search think_end_id oob undef torch_empty np2 order _is_hip attn_backend forward spec_info batch page_size t a pool.
End Round.

(** ** The table after drafting *)

(** The slot before the drafts is not written. *)
Lemma written_entries ps pool tab held rows lens (k n : Z) out : NoDup rows -> length lens = length rows -> 0 <= k <= n ->
  length tab = length (req_to_token pool) ->
  slices_written (max_context_len pool) (req_to_token pool) tab rows lens (map (fun s => s + k) lens) out ->
  Forall2 (draft_entry ps pool held) rows (zip lens (map (fun s => s + n) lens)) ->
  Forall2 (draft_entry ps (set_table pool tab) held) rows (zip lens (map (fun s => s + n) lens)).
Proof.
  intros Hnd Hl Hk Hlt [_ Hout] HF. apply Forall2_same_length_lookup. split; [by eapply Forall2_length|]. intros p i [c e] Ei E2.
  destruct (Forall2_lookup_lr _ _ _ p i (c, e) HF Ei E2) as (Hi & Hc & He & Hx).
  split_and!; cbn; try done; try lia; [unfold zlen in *; lia|]. intros Hm. destruct (Hx Hm) as (x & Ex & Hmod & Hheld). exists x. split_and!; try done.
  apply lookup_zip_Some in E2 as [Elen _].
  assert (0 <= c - 1) as Hc1. { destruct (Z.eq_dec c 0) as [-> |]; [by rewrite Zmod_0_l in Hm|lia]. }
  rewrite Hout; try done; [lia|]. intros q s e' Hq Hs _ Hse. assert (q = p) as -> by (eapply NoDup_lookup; eauto). assert (s = c) as -> by congruence. lia.
Qed.

Lemma concat_index_rows n : 0 <= n -> forall m b, 0 <= b -> concat (index_rows_from b n m) = zrange (b * n) ((b + Z.of_nat m) * n).
Proof.
  intros Hn. induction m as [|m IH]; intros b Hb.
  - change (concat _) with (@nil Z). unfold zrange. by replace ((b + Z.of_nat 0) * n - b * n) with 0 by lia.
  - rewrite index_rows_from_S. cbn [concat]. rewrite IH by lia. apply list_eq. intros j.
    assert (length (map (fun t => b * n + t) (zrange 0 n)) = Z.to_nat n) as Hl by (rewrite length_map; pose proof (zlen_zrange 0 n); unfold zlen in *; lia).
    destruct (decide (j < Z.to_nat n)%nat).
    + rewrite lookup_app_l by lia. rewrite list_lookup_fmap, (proj2 (lookup_zrange 0 n j (Z.of_nat j))) by lia. symmetry. apply lookup_zrange. cbn. nia.
    + rewrite lookup_app_r by lia. rewrite Hl. destruct (decide (Z.of_nat j < n + Z.of_nat m * n)).
      * transitivity (Some (b * n + Z.of_nat j)); [|symmetry]; apply lookup_zrange; nia.
      * rewrite !lookup_ge_None_2; [done|..]; match goal with |- (length (zrange ?x ?y) <= _)%nat => pose proof (zlen_zrange x y) end; unfold zlen in *; nia.
Qed.

Lemma pages_mono ps lens k n : 1 <= ps -> k <= n ->
  get_num_new_pages (map (fun s => s + k) lens) ps lens <= get_num_new_pages (map (fun s => s + n) lens) ps lens.
Proof.
  intros Hps Hk. unfold get_num_new_pages. induction lens as [|s lens IH]; [done|]. cbn [map zip_with]. rewrite !zsum_cons.
  assert ((s + k + ps - 1) / ps <= (s + n + ps - 1) / ps) by (apply Z.div_le_mono; lia). lia.
Qed.

Lemma entries_shorter ps pool held rows lens k n : 0 <= k <= n -> Forall2 (draft_entry ps pool held) rows (zip lens (map (fun s => s + n) lens)) ->
  Forall2 (draft_entry ps pool held) rows (zip lens (map (fun s => s + k) lens)).
Proof.
  intros Hk HF. apply Forall2_same_length_lookup. split; [rewrite (Forall2_length _ _ _ HF), !length_zip_with, !length_map; done|].
  intros p i [c e] Ei [Ec Ee]%lookup_zip_Some. rewrite list_lookup_fmap, Ec in Ee. injection Ee as <-.
  destruct (Forall2_lookup_lr _ _ _ p i (c, c + n) HF Ei) as (Hi & Hc & He & Hx); [by rewrite lookup_zip_with, list_lookup_fmap, Ec|].
  split_and!; try done; lia.
Qed.

(** A running batch before a round: requests that can be served, rows with room for the
    drafts, memory in order, and what the last round left. *)
Record round_start {G H Score T A : Type} {Gram : GrammarObject G} {Alloc : KVAllocator A} {Cache : BasePrefixCache T A kva_pool}
    (tokenizer : option Tokenizer) (steps : Z) (hot_token_id : option (list Z)) (seed : draft_seed Score H) (batch : VerifyBatch G)
    (t : T) (g : tc_ghost) (a : A) (pool : ReqToTokenPool) (held : list Z) : Prop := {
  rs_seed : draft_inputs (length (vb_reqs batch)) 1 (steps + 1) steps hot_token_id (sd_verified_id seed) (vb_seq_lens batch) (sd_topk_p seed) (sd_topk_index seed)
    (sd_hidden_states seed);
  rs_requests : Forall (serveable tokenizer) (vb_reqs batch);
  rs_len_rows : length (vb_req_pool_indices batch) = length (vb_reqs batch);
  rs_lens_cpu : length (vb_seq_lens_cpu batch) = length (vb_reqs batch);
  rs_table : table_ok pool;
  rs_rows : NoDup (vb_req_pool_indices batch);
  rs_sync : in_sync t g a held;
  rs_entries : Forall2 (draft_entry (tc_page_size t) pool held) (vb_req_pool_indices batch)
    (zip (vb_seq_lens batch) (map (fun s => s + (steps + 1)) (vb_seq_lens batch)))
}.

Section Drafted.
Context {G H Score : Type} {Gram : GrammarObject G} {T A : Type} {Alloc : KVAllocator A} {Backup : KVBackup A} {Cache : BasePrefixCache T A kva_pool}.
Context (tokenizer : option Tokenizer).
Context (oob : Z -> Z) (undef : Z) (torch_empty : Z -> list Z) (order : Z -> list Z) (_is_hip : bool) (attn_backend : string).
Context (Hempty : forall n, 0 <= n -> zlen (torch_empty n) = n) (Horder : forall n, Permutation (order n) (zrange 0 n)).
Context (score_mul : Score -> Score -> Score) (torch_max : list Score -> Score * Z) (torch_topk : list Score -> Z -> list (Score * Z))
  (lt : Score -> Score -> Prop) (prob : Score -> Prop).
Context (draft_runner : Z -> list Z -> list Z -> list Z -> list H -> list (list Score) * list H) (hot_token_id : option (list Z)) (kernel : tree_kernel).
Context (Hlaws : score_laws score_mul torch_max torch_topk lt prob) (Hrunner : runner_ok prob 1 draft_runner hot_token_id) (Hkernel : kernel_agrees kernel).

(** Drafting leaves a batch that is ready for verification, with the memory it had. *)
Lemma drafted_ready steps seed (batch : VerifyBatch G) (t : T) g (a : A) pool held :
  round_start tokenizer steps hot_token_id seed batch t g a pool held ->
  get_num_new_pages (map (fun s => s + (steps + 1)) (vb_seq_lens batch)) (tc_page_size t) (vb_seq_lens batch) * tc_page_size t <= kv_available a ->
  exists out positions t1 g1 a1 pool1 tree,
    draft_preprocess_decode oob undef torch_empty order _is_hip attn_backend (tc_page_size t) 1 steps batch t a pool = Ok (out, positions, None, t1, a1, pool1)
    /\ draft_tree score_mul torch_max torch_topk draft_runner hot_token_id kernel 1 steps (steps + 1) (sd_verified_id seed) (vb_seq_lens batch) (sd_topk_p seed)
         (sd_topk_index seed) (sd_hidden_states seed) out positions = Ok tree
    /\ tc_page_size t1 = tc_page_size t /\ kv_available a <= kv_available a1
    /\ length (bt_draft_tokens tree) = (length (vb_reqs batch) * Z.to_nat (steps + 1))%nat
    /\ (forall i v, sd_verified_id seed !! i = Some v -> row (steps + 1) (bt_draft_tokens tree) (Z.of_nat i) !! 0%nat = Some v)
    /\ max_context_len pool1 = max_context_len pool
    /\ forall target hidden, length target = (length (vb_reqs batch) * Z.to_nat (steps + 1))%nat -> (length (vb_reqs batch) * Z.to_nat (steps + 1) <= length hidden)%nat ->
         round_ready (H := H) tokenizer (Z.to_nat (steps + 1)) (MkVerifyInput (bt_draft_tokens tree) (bt_retrieve_index tree) steps 1 (steps + 1)) batch target hidden
           t1 g1 a1 pool1 held.
Proof.
  intros [Hseed Hreq Hlr Hlc Htab Hnd Hs HF] Hm. pose proof Hseed as [_ Hst Hn _ _ [Hl Hpos] _ _ _]. pose proof Hs as (Hok & _ & Hpg).
  assert (1 <= tc_page_size t) as Hps by exact (tc_page_size_pos t g Hok).
  assert (drafting_ready 1 steps batch t g a pool held) as Hdr.
  { split; try done; try lia; [apply (entries_shorter _ _ _ _ _ (1 * steps) (steps + 1)); [lia|done]|].
    pose proof (pages_mono (tc_page_size t) (vb_seq_lens batch) (1 * steps) (steps + 1) Hps ltac:(lia)). nia. }
  destruct (draft_preprocess_ok oob undef torch_empty order _is_hip attn_backend Hempty Horder 1 steps batch t g a pool held Hdr)
    as (out & positions & t1 & a1 & g1 & tab & Epre & _ & Hs1 & Hav & Hpt & _ & Hlt & Hu & Hsl & _).
  destruct (draft_tree_ok score_mul torch_max torch_topk lt prob draft_runner hot_token_id kernel (length (vb_reqs batch)) 1 steps (steps + 1) (sd_verified_id seed)
    (vb_seq_lens batch) (sd_topk_p seed) (sd_topk_index seed) (sd_hidden_states seed) out positions Hlaws Hrunner Hkernel Hseed)
    as (pl & sels & toks & tree & _ & Etree & _ & _ & (Etok & Eri & _) & Lz & HFz).
  assert (length (bt_draft_tokens tree) = (length (vb_reqs batch) * Z.to_nat (steps + 1))%nat) as Ltok.
  { rewrite Etok, (length_concat_rows (Z.to_nat (steps + 1))), Lz; [done|]. eapply Forall_impl; [exact HFz|]. unfold zlen. intros c Hc. lia. }
  assert (Forall (fun c => length c = Z.to_nat (steps + 1)) (zip_with cons (sd_verified_id seed) toks)) as HFn.
  { eapply Forall_impl; [exact HFz|]. unfold zlen. intros c Hc. lia. }
  exists out, positions, t1, g1, a1, (set_table pool tab), tree. split_and!; try done.
  { intros i v Ev. rewrite Etok. pose proof (lookup_lt_Some _ _ _ Ev) as Hi. rewrite (in_verified _ _ _ _ _ _ _ _ _ _ Hseed) in Hi.
    destruct (lookup_lt_is_Some_2 (zip_with cons (sd_verified_id seed) toks) i) as [c Ec]; [lia|]. pose proof Ec as (v' & l & -> & Ev' & _)%lookup_zip_with_Some.
    assert (v' = v) as -> by congruence. unfold row. rewrite lookup_take_lt, lookup_drop by lia.
    replace (Z.to_nat (Z.of_nat i * (steps + 1)) + 0)%nat with (i * Z.to_nat (steps + 1) + 0)%nat by lia. by rewrite (concat_lookup_row _ _ _ _ 0 HFn Ec) by lia. }
  intros target hidden Ltg Lhid. split; try done.
  - split; cbn; rewrite ?Eri, ?Z2Nat.id by lia; try done; try lia; [by unfold index_rows_from; rewrite length_map, length_seq|].
    rewrite concat_index_rows by lia. by rewrite Hl.
  - by right.
  - eapply written_table_ok; [done|done|done| | |exact Hsl]; rewrite ?length_map; lia.
  - rewrite Hpt, Z2Nat.id by lia. apply (written_entries _ _ _ _ _ _ (1 * steps) (steps + 1) out); try done; lia.
Qed.
End Drafted.

(** The whole round, from what drafting needs: the drafts [toks], and everything the
    verification says of them. *)
Lemma decode_round_run {G H Score T A : Type} {Gram : GrammarObject G} {Alloc : KVAllocator A} {Backup : KVBackup A} {Cache : BasePrefixCache T A kva_pool}
    tokenizer re_search think_end_id oob undef torch_empty np2 order is_hip attn_backend cfg
    score_mul torch_max torch_topk lt prob draft_runner hot_token_id kernel forward (target : list Z -> list Z * list H)
    steps (seed : draft_seed Score H) (batch : VerifyBatch G) (t : T) g (a : A) pool held :
  (forall n, 0 <= n -> zlen (torch_empty n) = n) -> (forall n, Permutation (order n) (zrange 0 n)) -> (forall n, n <= np2 n) ->
  score_laws score_mul torch_max torch_topk lt prob -> runner_ok prob 1 draft_runner hot_token_id -> kernel_agrees kernel ->
  algo_is_none (dc_spec cfg) = false -> is_spec_v2 cfg = Ok false -> dc_speculative_num_draft_tokens cfg = Some (steps + 1) ->
  round_start tokenizer steps hot_token_id seed batch t g a pool held -> fits cfg a (map vr_req (vb_reqs batch)) ->
  (forall toks loc, forward (MkVerifyBatch (vb_reqs batch) (vb_req_pool_indices batch) (vb_seq_lens batch) (vb_seq_lens_cpu batch) toks loc) = target toks) ->
  (forall toks, length toks = (length (vb_reqs batch) * Z.to_nat (steps + 1))%nat -> length (target toks).1 = length toks /\ (length toks <= length (target toks).2)%nat) ->
  let n := Z.to_nat (steps + 1) in let lens := vb_seq_lens batch in let rows := vb_req_pool_indices batch in let ps := tc_page_size t in
  exists v out reqs cs loc t' g' a' pool1 tab acc kept, let toks := ev_draft_token v in
    decode_round tokenizer re_search think_end_id oob undef torch_empty np2 order is_hip attn_backend score_mul torch_max torch_topk draft_runner hot_token_id kernel
      forward 1 steps (steps + 1) seed batch ps t a pool
    = Ok (out, MkVerifyBatch reqs rows (grown lens cs) (grown (vb_seq_lens_cpu batch) cs) toks loc, t', a', set_table pool1 tab)
    /\ length toks = (length (vb_reqs batch) * n)%nat
    /\ (forall i x, sd_verified_id seed !! i = Some x -> row (steps + 1) toks (Z.of_nat i) !! 0%nat = Some x)
    /\ length reqs = length (vb_reqs batch) /\ length cs = length (vb_reqs batch)
    /\ (forall i r, vb_reqs batch !! i = Some r -> exists r' c, reqs !! i = Some r' /\ cs !! i = Some c
          /\ served tokenizer re_search think_end_id n v (target toks).1 i r r' c)
    /\ draft_from (vo_draft_input out) batch cs (target_rows n (length (vb_reqs batch)) (target toks).1) reqs
    /\ in_sync t' g' a' (kept ++ held) /\ tc_page_size t' = ps /\ table_ok (set_table pool1 tab)
    /\ max_context_len pool1 = max_context_len pool /\ length tab = length (req_to_token pool1)
    /\ Forall2 (draft_entry ps pool1 held) rows (zip lens (map (fun s => s + Z.of_nat n) lens))
    /\ placement ps lens (grown lens cs) (zip_with (last_entry pool1) rows lens) acc kept
    /\ zlen kept = get_num_new_pages (grown lens cs) ps lens * ps
    /\ round_written (max_context_len pool1) (req_to_token pool1) tab rows lens (map (fun s => s + Z.of_nat n) lens) (grown lens cs) acc.
Proof.
  intros Hempty Horder Hnp2 Hlaws Hrunner Hkernel Hnone Hv1 Hnum Hstart Hfits Hforward Hshape n lens rows ps.
  pose proof Hstart as [Hseed Hreq _ _ _ _ (Hok & _ & Hpg) _]. pose proof Hseed as [_ Hst _ _ _ [Hl _] _ _ _].
  assert (steps + 1 = Z.of_nat n) as En by lia.
  assert (get_num_new_pages (map (fun s => s + (steps + 1)) (vb_seq_lens batch)) (tc_page_size t) (vb_seq_lens batch) * tc_page_size t <= kv_available a) as Hm.
  { rewrite En, <- Hpg. apply (fits_v1 cfg a n _ (map vr_req (vb_reqs batch))); rewrite ?length_map; try done; [by rewrite <- En|]. rewrite Hpg. exact (tc_page_size_pos t g Hok). }
  destruct (drafted_ready tokenizer oob undef torch_empty order is_hip attn_backend Hempty Horder score_mul torch_max torch_topk lt prob draft_runner hot_token_id kernel
    Hlaws Hrunner Hkernel steps seed batch t g a pool held Hstart Hm) as (loc & pos & t1 & g1 & a1 & pool1 & tree & E1 & E2 & Hpt & Hav & Ltok & Hfirst & Hmax & Hrd).
  fold n in Ltok, Hrd. destruct (target (bt_draft_tokens tree)) as [tg hidden] eqn:Etg. destruct (Hshape (bt_draft_tokens tree) Ltok) as [Ltg Lhid].
  rewrite Etg in Ltg, Lhid. cbn in Ltg, Lhid. specialize (Hrd tg hidden ltac:(lia) ltac:(lia)). pose proof (rd_entries _ _ _ _ _ _ _ _ _ _ _ Hrd) as Hent.
  set (v := MkVerifyInput _ _ _ _ _) in Hrd.
  destruct (round_ok tokenizer re_search think_end_id oob undef torch_empty np2 order is_hip attn_backend Hempty Horder Hnp2 forward n v batch tg hidden t1 g1 a1 pool1 held Hrd)
    as (out & reqs & cs & loc' & t' & g' & a' & tab & acc & kept & E & Hlr & Hlc & Hserved & Hdi & _ & Hs & Hpl & Hkz & Hw & _ & Hps & Htab & Hlt).
  { rewrite Hpt, <- En. lia. }
  { intros loc0. by rewrite Hforward. }
  rewrite Hpt in Hent, Hpl, Hkz, Hps, E.
  exists v, out, reqs, cs, loc', t', g', a', pool1, tab, acc, kept. cbv zeta. cbn [v ev_draft_token] in *. rewrite Etg. split_and!; try done.
  unfold decode_round, ps. rewrite E1. cbn [res_bind]. rewrite E2. exact E.
Qed.

(** *** Sample: one request, two steps; the draft model proposes token 0 after token 10. *)

#[local] Instance paged6 : KVAllocator allocator := paged_allocator (fun i => i) 0 zero_fill zero_fill_len.
#[local] Instance backup6 : KVBackup allocator := paged_backup (fun i => i) 0 zero_fill zero_fill_len.
#[local] Instance chunk6 : BasePrefixCache ChunkCache allocator paged_pool := chunk_prefix_cache false paged_pool.

Definition zero_runner (i : Z) (ids loc pos : list Z) (h : list unit) : list (list Z) * list unit := (map (fun _ => [-1; -2]) ids, map (fun _ => tt) ids).
Definition round_seed : draft_seed Z unit := MkDraftSeed [9] [[-1]] [[10]] [tt].
Definition round_target (toks : list Z) : list Z * list unit := (10 :: map (fun t => t + 1) (drop 1 toks), map (fun _ => tt) toks).

Lemma zero_runner_ok : runner_ok (fun p => p < 0) 1 zero_runner None.
Proof. intros i ids loc pos h. unfold zero_runner. rewrite !length_map. split_and!; try done. apply List.Forall_map, Forall_forall. intros t _. split_and!; try done. repeat constructor; lia. Qed.

Lemma round_sample_start : round_start (Gram := no_grammar) None 2 None round_seed round_batch (MkChunkCache 2) tt draft_pool draft_rows [2; 3].
Proof.
  destruct round_sample_ready as [_ H1 _ H2 H3 H4 H5]. split; try done. split; try (repeat split; repeat constructor; try done; unfold zlen; simpl; lia).
Qed.

Abbreviation sample_round := (decode_round (Gram := no_grammar) None (fun _ _ => false) None (fun i => i) 0 zero_fill next_power_of_2 (fun n => zrange 0 n) false "ascend"
  Z.add sample_max sample_topk zero_runner None native_kernel (fun b => round_target (vb_input_ids b)) 1 2 3 round_seed round_batch 2
  (MkChunkCache 2) draft_pool draft_rows).

(** The draft 10 is accepted, the draft 0 is not: the request gets 10 and 11. *)
Lemma round_sample_tokens : match sample_round with
  | Ok (_, b, _, _, _) => map (fun r => output_ids (sr_req (vr_req r))) (vb_reqs b) = [[8; 9; 10; 11]] /\ vb_seq_lens b = [4]
  | Raise _ => False
  end.
Proof. vm_compute. by split. Qed.


