(* ===== verification/EagleCarry.v ===== *)
(** What EAGLE carries from one round to the next: the draft extension after a prefill and
    after a verification ([forward_draft_extend], [forward_draft_extend_after_decode] and
    [capture_for_decode] of [speculative/eagle_worker.py]), and [prepare_for_extend],
    [prepare_extend_after_decode], [filter_batch] and [merge_batch] of [EagleDraftInput] in
    [speculative/eagle_info.py].

    [extend_runner] is the forward pass of the draft model over the tokens of every request:
    from the tokens, their positions, the lengths, the rows of the table, the slots, the
    number of tokens of each request and the hidden states, the probabilities of the next token and the
    hidden state at each request's last token.  Batches are not idle and DP attention is off. *)

From stdpp Require Import strings.
From S2P Require Export EagleRound.
From S2P Require Import Triton KVTable SpecKernels SpecProps SpecInfo EagleRows.

(** ** Operations *)

Section Extend.
Context {G H Score : Type}.
Context (oob : Z -> Z) (torch_empty : Z -> list Z) (order : Z -> list Z).
Context (torch_max : list Score -> Score * Z) (torch_topk : list Score -> Z -> list (Score * Z)).
Context (extend_runner : list Z -> list Z -> list Z -> list Z -> list Z -> list Z -> list H -> list (list Score) * list H).
Context (topk speculative_num_steps : Z).

(** The loop of [prepare_for_extend] from request [i] and token [pt] on: the tokens of a
    request move one to the left, its new token comes last.  A slice of the tensor is
    assigned as far as it reaches. *)
Fixpoint shift_tokens (verified_id : list Z) (extend_lens : list Z) (i pt : Z) (input_ids : list Z) : res (list Z) :=
  match extend_lens with
  | [] => Ok input_ids
  | extend_len :: rest =>
      let seg := py_slice input_ids pt (pt + extend_len) in
      let* v := tensor_at verified_id i in
      let input_ids :=
        py_upto input_ids pt ++ take (length seg) (drop 1 seg ++ [v]) ++ py_from input_ids (pt + zlen seg) in
      shift_tokens verified_id rest (i + 1) (pt + extend_len) input_ids
  end.

Definition draft_prepare_for_extend (verified_id seq_lens extend_lens input_ids : list Z) : res (list Z) :=
  let* _ := py_assert (zlen verified_id =? zlen seq_lens) in
  shift_tokens verified_id extend_lens 0 0 input_ids.

Definition capture_for_decode (verified_id : list Z) (probs : list (list Score)) (hidden_states : list H) : res (draft_seed Score H) :=
  let* top := res_map (fun row => fast_topk torch_max torch_topk row topk) probs in
  Ok (MkDraftSeed verified_id (map (map fst) top) (map (map snd) top) hidden_states).

(** After a prefill: the changed [input_ids] and what drafting starts from.  The positions
    and slots are those of the prefill. *)
Definition forward_draft_extend (hidden_states : list H) (next_token_ids positions seq_lens req_pool_indices out_cache_loc extend_lens input_ids : list Z)
    : res (list Z * draft_seed Score H) :=
  let* input_ids := draft_prepare_for_extend next_token_ids seq_lens extend_lens input_ids in
  let '(probs, hidden_states) := extend_runner input_ids positions seq_lens req_pool_indices out_cache_loc extend_lens hidden_states in
  let* seed := capture_for_decode next_token_ids probs hidden_states in
  Ok (input_ids, seed).

(** The batch of the extension, the positions of its tokens and the last token of each
    request. *)
Definition prepare_extend_after_decode (di : EagleDraftInput H) (batch : VerifyBatch G) : res (VerifyBatch G * list Z * list Z) :=
  let input_ids := di_verified_id di in
  let seq_lens := di_seq_lens_for_draft_extend di in
  let batch := MkVerifyBatch (vb_reqs batch) (di_req_pool_indices_for_draft_extend di) seq_lens
                 (di_seq_lens_for_draft_extend_cpu di) input_ids (vb_out_cache_loc batch) in
  let positions := torch_empty (zlen input_ids) in
  let verified_id := torch_empty (zlen (di_num_accepted_tokens di)) in
  match tl_run (order (zlen seq_lens))
          (create_extend_after_decode_spec_info oob input_ids seq_lens (di_num_accepted_tokens di)
             (next_power_of_2 (Z.max (speculative_num_steps + 1) (zlen seq_lens)))) (positions, verified_id) with
  | Some (positions, verified_id) => Ok (batch, positions, verified_id)
  | None => Raise RuntimeError
  end.

(** The lengths and rows of the batch are restored, its [input_ids] are not. *)
Definition forward_draft_extend_after_decode (di : EagleDraftInput H) (batch : VerifyBatch G) : res (VerifyBatch G * draft_seed Score H) :=
  let* (ext, positions, verified_id) := prepare_extend_after_decode di batch in
  let '(probs, hidden_states) :=
    extend_runner (vb_input_ids ext) positions (vb_seq_lens ext) (vb_req_pool_indices ext) (vb_out_cache_loc ext)
      (di_num_accepted_tokens_cpu di) (di_hidden_states di) in
  let* seed := capture_for_decode verified_id probs hidden_states in
  Ok (MkVerifyBatch (vb_reqs ext) (vb_req_pool_indices batch) (vb_seq_lens batch) (vb_seq_lens_cpu batch) (vb_input_ids ext)
        (vb_out_cache_loc ext), seed).
End Extend.

(** [EagleDraftInput] in the scheduler: indices of results that are still to come, and the
    tensors, absent until they are set. *)
Record spec_info (Score H : Type) : Type := MkSpecInfo {
  si_future_indices : option (list Z);
  si_tensors : option (draft_seed Score H)
}.
Arguments MkSpecInfo {Score H}.
Arguments si_future_indices {Score H}.
Arguments si_tensors {Score H}.

Section Carried.
Context {Score H : Type}.

(** [strict_check] is the environment's [SGLANG_SPEC_ENABLE_STRICT_FILTER_CHECK]. *)
Definition filter_spec_info (strict_check : bool) (s : spec_info Score H) (new_indices : list nat) (has_been_filtered : bool) : res (spec_info Score H) :=
  match si_future_indices s with
  | Some indices => let* indices := take_indices indices new_indices in Ok (MkSpecInfo (Some indices) (si_tensors s))
  | None =>
      match si_tensors s with
      | None => Raise TypeError
      | Some d =>
          if has_been_filtered then
            let n := length new_indices in
            if negb (n =? length (sd_topk_p d))%nat && strict_check then Raise ValueError
            else Ok (MkSpecInfo None (Some (MkDraftSeed (take n (sd_verified_id d)) (take n (sd_topk_p d)) (take n (sd_topk_index d))
                       (take n (sd_hidden_states d)))))
          else
            let* topk_p := take_indices (sd_topk_p d) new_indices in
            let* topk_index := take_indices (sd_topk_index d) new_indices in
            let* hidden_states := take_indices (sd_hidden_states d) new_indices in
            let* verified_id := take_indices (sd_verified_id d) new_indices in
            Ok (MkSpecInfo None (Some (MkDraftSeed verified_id topk_p topk_index hidden_states)))
      end
  end.

Definition merge_spec_info (s o : spec_info Score H) : res (spec_info Score H) :=
  match si_future_indices s with
  | Some indices =>
      match si_future_indices o with
      | None => Raise AssertionError
      | Some more => Ok (MkSpecInfo (Some (indices ++ more)) (si_tensors s))
      end
  | None =>
      match si_tensors s, si_tensors o with
      | None, _ => Ok (MkSpecInfo None (si_tensors o))
      | Some _, None => Ok s
      | Some d, Some d' =>
          Ok (MkSpecInfo None (Some (MkDraftSeed (sd_verified_id d ++ sd_verified_id d') (sd_topk_p d ++ sd_topk_p d')
                (sd_topk_index d ++ sd_topk_index d') (sd_hidden_states d ++ sd_hidden_states d'))))
      end
  end.
End Carried.

(** [ScheduleBatch.filter_batch] without requests to exclude, for the fields that a round
    uses; [out_cache_loc] is set to [None], here no slots. *)
Definition filter_round_batch {G Score H : Type} (strict_check v1_spec_info_filtered : bool) (batch : VerifyBatch G) (s : spec_info Score H)
    : res (VerifyBatch G * spec_info Score H) :=
  let keep_indices := unfinished_positions (vb_reqs batch) in
  if (length keep_indices =? 0)%nat then
    Ok (MkVerifyBatch [] (vb_req_pool_indices batch) (vb_seq_lens batch) (vb_seq_lens_cpu batch) (vb_input_ids batch) (vb_out_cache_loc batch), s)
  else if (length keep_indices =? length (vb_reqs batch))%nat then Ok (batch, s)
  else
    let* reqs := take_indices (vb_reqs batch) keep_indices in
    let* req_pool_indices := take_indices (vb_req_pool_indices batch) keep_indices in
    let* seq_lens := take_indices (vb_seq_lens batch) keep_indices in
    let* seq_lens_cpu := take_indices (vb_seq_lens_cpu batch) keep_indices in
    let* s := filter_spec_info strict_check s keep_indices v1_spec_info_filtered in
    Ok (MkVerifyBatch reqs req_pool_indices seq_lens seq_lens_cpu (vb_input_ids batch) [], s).

(** [ScheduleBatch.merge_batch], for the fields that a round uses. *)
Definition merge_round_batch {G Score H : Type} (b o : VerifyBatch G) (s s' : spec_info Score H) : res (VerifyBatch G * spec_info Score H) :=
  let* s := merge_spec_info s s' in
  Ok (MkVerifyBatch (vb_reqs b ++ vb_reqs o) (vb_req_pool_indices b ++ vb_req_pool_indices o) (vb_seq_lens b ++ vb_seq_lens o)
        (vb_seq_lens_cpu b ++ vb_seq_lens_cpu o) (vb_input_ids b) [], s).

(** ** Selecting requests *)

Lemma select_lookup {B} (l : list B) U j : valid_indices l U -> select l U !! j = i ← U !! j; l !! i.
Proof.
  intros HU. revert j. induction HU as [|i U Hi _ IH]; intros j; [by destruct j|]. destruct (lookup_lt_is_Some_2 l i Hi) as [x Hx].
  rewrite (select_cons _ _ _ _ Hx). destruct j as [|j]; [by simpl|]. apply IH.
Qed.

Lemma Forall_select {B} (P : B -> Prop) l U : Forall P l -> Forall P (select l U).
Proof. intros HF. apply Forall_forall. intros x Hx. apply list_elem_of_omap in Hx as (i & _ & Hi). by apply (proj1 (Forall_lookup _ _) HF i). Qed.

Lemma Forall2_select {B C} (P : B -> C -> Prop) l k U : Forall2 P l k -> valid_indices l U -> Forall2 P (select l U) (select k U).
Proof.
  intros HF HU. pose proof (Forall2_length _ _ _ HF) as Hl. assert (valid_indices k U) as HU' by (by eapply valid_length).
  apply Forall2_same_length_lookup. split; [by rewrite !length_select|]. intros j x y. rewrite !select_lookup by done.
  destruct (U !! j); [|done]. simpl. by apply Forall2_lookup_lr.
Qed.

Lemma NoDup_select {B} (l : list B) U : NoDup l -> NoDup U -> valid_indices l U -> NoDup (select l U).
Proof.
  intros Hl HU Hv. apply NoDup_alt. intros j j' x. rewrite !select_lookup by done. destruct (U !! j) as [i|] eqn:Ei; [|done].
  destruct (U !! j') as [i'|] eqn:Ei'; [|done]. simpl. intros H1 H2. assert (i = i') as -> by exact (NoDup_lookup _ _ _ _ Hl H1 H2). exact (NoDup_lookup _ _ _ _ HU Ei Ei').
Qed.

Lemma select_zip_with {B C D} (f : B -> C -> D) l k U : length l = length k -> valid_indices l U ->
  select (zip_with f l k) U = zip_with f (select l U) (select k U).
Proof.
  intros Hl HU. assert (valid_indices k U) by (by eapply valid_length). assert (valid_indices (zip_with f l k) U).
  { eapply valid_length; [|exact HU]. rewrite length_zip_with. lia. }
  apply list_eq. intros j. rewrite lookup_zip_with, !select_lookup by done. destruct (U !! j); [|done]. simpl. by rewrite lookup_zip_with.
Qed.

Lemma unfinished_lookup {G} (reqs : list (VerifyReq G)) j i : unfinished_positions reqs !! j = Some i ->
  exists r, reqs !! i = Some r /\ finished (vr_finish r) = false.
Proof.
  intros Hj%list_elem_of_lookup_2. apply list_elem_of_filter in Hj as [Hf _]. destruct (reqs !! i) as [r|]; [|done].
  exists r. split; [done|]. by destruct (finished _).
Qed.

Lemma NoDup_unfinished {G} (reqs : list (VerifyReq G)) : NoDup (unfinished_positions reqs).
Proof. apply NoDup_filter, NoDup_seq. Qed.

(** ** Segments of known lengths *)

Lemma seg_start_sums (segs : list (list Z)) lens : Forall2 (fun s l => zlen s = l) segs lens ->
  forall j, Z.of_nat (seg_start segs j) = zsum (take j lens).
Proof.
  unfold seg_start. induction 1 as [|s l segs lens Hs HF IH]; intros [|j]; cbn [take concat]; try done.
  rewrite zsum_cons, length_app, Nat2Z.inj_add, IH. unfold zlen in Hs. lia.
Qed.

Lemma segments_lookup (segs : list (list Z)) lens j s k : Forall2 (fun s l => zlen s = l) segs lens -> segs !! j = Some s ->
  (k < length s)%nat -> concat segs !! Z.to_nat (zsum (take j lens) + Z.of_nat k) = s !! k.
Proof.
  intros HF Hj Hk. rewrite <- (seg_start_sums segs lens HF j), <- Nat2Z.inj_add, Nat2Z.id. by apply concat_lookup_seg.
Qed.

(** The last element of a segment. *)
Lemma segments_last (segs : list (list Z)) lens j s : Forall2 (fun s l => zlen s = l) segs lens -> segs !! j = Some s -> s <> [] ->
  concat segs !! Z.to_nat (zsum (take (S j) lens) - 1) = last s.
Proof.
  intros HF Hj Hs. destruct (Forall2_lookup_l _ _ _ j s HF Hj) as (l & Hl & Hz). assert (0 < length s)%nat by (destruct s; [done|simpl; lia]).
  rewrite (zsum_take_next _ _ _ Hl), last_lookup. rewrite <- (segments_lookup segs lens j s (pred (length s)) HF Hj) by lia. f_equal. unfold zlen in Hz. lia.
Qed.

(** ** The draft extension *)

Section ExtendOk.
Context {G H Score : Type}.
Context (oob : Z -> Z) (torch_empty : Z -> list Z) (order : Z -> list Z).
Context (Hempty : forall n, 0 <= n -> zlen (torch_empty n) = n) (Horder : forall n, Permutation (order n) (zrange 0 n)).
Context (score_mul : Score -> Score -> Score) (torch_max : list Score -> Score * Z) (torch_topk : list Score -> Z -> list (Score * Z))
  (lt : Score -> Score -> Prop) (prob : Score -> Prop) (Hlaws : score_laws score_mul torch_max torch_topk lt prob).
Context (extend_runner : list Z -> list Z -> list Z -> list Z -> list Z -> list Z -> list H -> list (list Score) * list H) (hot_token_id : option (list Z)).
Context (topk steps : Z) (Hk : 1 <= topk).

(** A row of probabilities that drafting can start from. *)
Definition candidates (row : list Score) : Prop := topk <= zlen row /\ match hot_token_id with Some t => zlen row <= zlen t | None => True end.

(** The draft model answers every request with the probabilities of at least [topk] tokens. *)
Definition extend_runner_ok : Prop := forall ids pos lens rows loc ext h, let '(probs, h') := extend_runner ids pos lens rows loc ext h in
  length probs = length lens /\ length h' = length lens /\ Forall candidates probs.

(** The tensors of a batch of [bs] requests, with the last token of each. *)
Record seeded (bs : nat) (verified_id : list Z) (seed : draft_seed Score H) : Prop := {
  se_verified : sd_verified_id seed = verified_id;
  se_bs : length verified_id = bs;
  se_p : length (sd_topk_p seed) = bs /\ Forall (fun r => zlen r = topk) (sd_topk_p seed);
  se_index : length (sd_topk_index seed) = bs
    /\ Forall (fun r => zlen r = topk /\ match hot_token_id with Some t => Forall (fun j => 0 <= j < zlen t) r | None => True end) (sd_topk_index seed);
  se_hidden : length (sd_hidden_states seed) = bs
}.

Lemma capture_ok bs verified_id probs (hidden : list H) : length verified_id = bs -> length probs = bs -> length hidden = bs -> Forall candidates probs ->
  exists seed, capture_for_decode torch_max torch_topk topk verified_id probs hidden = Ok seed /\ seeded bs verified_id seed.
Proof.
  intros Hv Hp Hh HF. destruct Hlaws as [Hmax Htop _]. unfold capture_for_decode.
  destruct (res_map_ok (fun row => fast_topk torch_max torch_topk row topk) (fun row r => candidates row /\ top_of lt row topk r) probs) as (top & -> & HT).
  { eapply Forall_impl; [exact HF|]. intros row Hc. destruct (fast_topk_ok torch_max torch_topk lt Hmax Htop topk Hk row) as (r & E & Hr); [apply Hc|]. eauto. }
  pose proof (Forall2_length _ _ _ HT) as Hl. cbn [res_bind]. eexists. split; [done|].
  split; cbn [sd_verified_id sd_topk_p sd_topk_index sd_hidden_states]; try done; rewrite length_map; (split; [lia|]); apply List.Forall_map, Forall_lookup;
    intros j r Hj; destruct (Forall2_lookup_r _ _ _ j r HT Hj) as (row & _ & [_ Hc] & Hz & _ & Hin & _); unfold zlen in *; rewrite length_map; [done|].
  split; [done|]. destruct hot_token_id as [t|]; [|done]. apply List.Forall_map. eapply Forall_impl; [exact Hin|]. intros [x i] [H0 Hi]. cbn in *.
  apply lookup_lt_Some in Hi. lia.
Qed.

Lemma seeded_inputs bs n verified_id lens seed : seeded bs verified_id seed -> 1 <= steps -> 1 <= n -> n - 1 <= topk + (steps - 1) * (topk * topk) ->
  length lens = bs -> Forall (fun s => 0 <= s) lens ->
  draft_inputs bs topk n steps hot_token_id (sd_verified_id seed) lens (sd_topk_p seed) (sd_topk_index seed) (sd_hidden_states seed).
Proof. intros [-> ? ? ? ?] ? ? ? ? ?. by split. Qed.

(** The extension returns the last accepted token of every request that goes on. *)
Lemma extend_after_decode_ok n di (batch0 batch : VerifyBatch G) cs toks reqs : extend_runner_ok -> draft_from di batch0 cs toks reqs ->
  (1 <= n)%nat -> steps + 1 = Z.of_nat n -> length cs = length reqs -> length toks = length reqs -> length (vb_seq_lens batch0) = length reqs ->
  Forall (fun c => 1 <= c <= n)%nat cs -> Forall (fun row => length row = n) toks ->
  let U := unfinished_positions reqs in
  exists verified_id seed,
    forward_draft_extend_after_decode oob torch_empty order torch_max torch_topk extend_runner topk steps di batch
    = Ok (MkVerifyBatch (vb_reqs batch) (vb_req_pool_indices batch) (vb_seq_lens batch) (vb_seq_lens_cpu batch) (di_verified_id di) (vb_out_cache_loc batch), seed)
    /\ seeded (length U) verified_id seed
    /\ forall j i c row, U !! j = Some i -> cs !! i = Some c -> toks !! i = Some row -> verified_id !! j = last (take c row).
Proof.
  intros Hrun (Hv & Hlens & _ & Hcpu & Hnum) Hn Hsteps Hlc Hlt Hls Hcs Htoks U.
  assert (valid_indices reqs U) as HU by apply unfinished_valid. assert (valid_indices cs U) as HUc by (by eapply valid_length).
  assert (valid_indices (zip_with take cs toks) U) as HUz by (eapply valid_length; [|exact HU]; rewrite length_zip_with; lia).
  assert (valid_indices (grown (vb_seq_lens batch0) cs) U) as HUg by (eapply valid_length; [|exact HU]; rewrite length_grown; lia).
  set (accept := map Z.of_nat (select cs U)) in *. set (segs := select (zip_with take cs toks) U) in *.
  assert (Forall2 (fun s l => zlen s = l) segs accept) as HF.
  { unfold segs, accept. rewrite <- (select_map Z.of_nat cs). apply Forall2_select; [|done]. apply Forall2_same_length_lookup.
    rewrite length_zip_with, length_map. split; [lia|]. intros i s l (c & row & -> & Ec & Er)%lookup_zip_with_Some El. rewrite list_lookup_fmap, Ec in El.
    injection El as <-. pose proof (proj1 (Forall_lookup _ _) Hcs i c Ec) as Hc. cbv beta in Hc. pose proof (proj1 (Forall_lookup _ _) Htoks i row Er) as Hr. cbv beta in Hr.
    unfold zlen. rewrite length_take. lia. }
  assert (length accept = length U) as Hla by (unfold accept; by rewrite length_map, length_select).
  assert (length (di_seq_lens_for_draft_extend di) = length U) as Hll by (rewrite Hlens; by apply length_select).
  assert (zlen (concat segs) = zsum accept) as Hver.
  { pose proof (seg_start_sums segs accept HF (length U)) as Hs. unfold seg_start in Hs. rewrite !take_ge in Hs by (rewrite ?(Forall2_length _ _ _ HF); lia). exact Hs. }
  assert (zlen (di_seq_lens_for_draft_extend di) = zlen accept) as Hz by (unfold zlen; lia).
  assert (0 <= zsum accept) by (rewrite <- Hver; apply zlen_nonneg).
  unfold forward_draft_extend_after_decode, prepare_extend_after_decode. cbv zeta. rewrite Hv, Hnum, Hcpu. fold U segs accept. rewrite Hz.
  destruct (extend_after_decode_positions oob (concat segs) (di_seq_lens_for_draft_extend di) accept (next_power_of_2 (Z.max (steps + 1) (zlen accept)))
    (order (zlen accept)) (torch_empty (zlen (concat segs))) (torch_empty (zlen accept))) as (ids & -> & Hli & Hids); try done; try lia.
  - pose proof (next_power_of_2_ge (Z.max (steps + 1) (zlen accept))). lia.
  - pose proof (next_power_of_2_ge (Z.max (steps + 1) (zlen accept))) as Hup. set (up := next_power_of_2 _) in *. assert (steps + 1 <= up) as Hup' by lia.
    apply List.Forall_map. eapply Forall_impl; [exact (Forall_select _ cs U Hcs)|]. intros c Hc. cbv beta in *. lia.
  - rewrite Hempty; [done|apply zlen_nonneg].
  - apply Hempty, zlen_nonneg.
  - cbn [res_bind vb_input_ids vb_seq_lens vb_req_pool_indices vb_out_cache_loc vb_reqs].
    match goal with |- context [extend_runner ?a ?b ?c ?d ?e ?f ?g] => specialize (Hrun a b c d e f g); destruct (extend_runner a b c d e f g) as [probs hidden] end.
    destruct Hrun as (H1 & H2 & HFp). destruct (capture_ok (length U) ids probs hidden) as (seed & -> & Hseed); try done; try lia.
    cbn [res_bind]. exists ids, seed. split; [done|]. split; [done|]. intros j i c row Ej Ec Er. pose proof (lookup_lt_Some _ _ _ Ej).
    rewrite Hids by lia. apply segments_last; [done|unfold segs; rewrite select_lookup, Ej by done; simpl; by rewrite lookup_zip_with, Ec, Er|].
    pose proof (proj1 (Forall_lookup _ _) Hcs i c Ec) as Hc. pose proof (proj1 (Forall_lookup _ _) Htoks i row Er) as Hr. cbv beta in Hr, Hc.
    intros E%(f_equal length). rewrite length_take in E. simpl in E. lia.
Qed.

(** *** After a prefill *)

Lemma shift_tokens_ok vs : forall segs pre_v pre, length segs = length vs -> Forall (fun seg => seg <> []) segs ->
  shift_tokens (pre_v ++ vs) (map zlen segs) (zlen pre_v) (zlen pre) (pre ++ concat segs) = Ok (pre ++ concat (zip_with (fun seg v => drop 1 seg ++ [v]) segs vs)).
Proof.
  induction vs as [|v vs IH]; intros [|seg segs] pre_v pre Hl HF; simpl in Hl; try lia; [done|]. apply Forall_cons in HF as [Hne HF].
  cbn [map shift_tokens zip_with concat]. rewrite (tensor_at_in _ _ v) by (try apply zlen_nonneg; unfold zlen; rewrite Nat2Z.id; by apply list_lookup_middle).
  cbn [res_bind]. assert (py_slice (pre ++ seg ++ concat segs) (zlen pre) (zlen pre + zlen seg) = seg) as Eseg.
  { rewrite py_slice_nonneg by (pose proof (zlen_nonneg pre); pose proof (zlen_nonneg seg); lia). unfold zlen.
    rewrite Nat2Z.id, drop_app_length. apply take_app_length'. lia. }
  rewrite Eseg. assert (length (drop 1 seg ++ [v]) = length seg) as Ls by (rewrite length_app, length_drop; destruct seg; [done|simpl; lia]).
  rewrite take_ge by lia. assert (py_upto (pre ++ seg ++ concat segs) (zlen pre) = pre) as ->.
  { rewrite py_upto_nonneg by apply zlen_nonneg. unfold zlen. rewrite Nat2Z.id. by apply take_app_length. }
  assert (py_from (pre ++ seg ++ concat segs) (zlen pre + zlen seg) = concat segs) as ->.
  { rewrite <- zlen_app, app_assoc. rewrite py_from_nonneg by apply zlen_nonneg. unfold zlen. rewrite Nat2Z.id. by apply drop_app_length. }
  rewrite app_assoc. replace (zlen pre_v + 1) with (zlen (pre_v ++ [v])) by (rewrite zlen_app; done).
  replace (zlen pre + zlen seg) with (zlen (pre ++ drop 1 seg ++ [v])) by (unfold zlen; rewrite length_app, Ls; lia).
  replace (pre_v ++ v :: vs) with ((pre_v ++ [v]) ++ vs) by (by rewrite <- app_assoc). rewrite IH by (done || lia). by rewrite <- !app_assoc.
Qed.

(** The draft model reads the prompt shifted by one, with the new token last, and drafting
    starts from the new tokens. *)
Lemma draft_extend_ok hidden next positions lens rows loc segs : extend_runner_ok -> length segs = length next -> length lens = length next ->
  Forall (fun seg => seg <> []) segs ->
  exists seed, forward_draft_extend torch_max torch_topk extend_runner topk hidden next positions lens rows loc (map zlen segs) (concat segs)
    = Ok (concat (zip_with (fun seg v => drop 1 seg ++ [v]) segs next), seed) /\ seeded (length next) next seed.
Proof.
  intros Hrun Hl Hll HF. unfold forward_draft_extend, draft_prepare_for_extend. assert ((zlen next =? zlen lens) = true) as -> by (apply Z.eqb_eq; unfold zlen; lia).
  cbn [py_assert res_bind]. pose proof (shift_tokens_ok next segs [] [] Hl HF) as Hsh. cbn [app] in Hsh. change (zlen (@nil Z)) with 0 in Hsh. rewrite Hsh. cbn [res_bind].
  match goal with |- context [extend_runner ?a ?b ?c ?d ?e ?f ?g] => specialize (Hrun a b c d e f g); destruct (extend_runner a b c d e f g) as [probs hidden'] end.
  destruct Hrun as (H1 & H2 & HFp). destruct (capture_ok (length next) next probs hidden') as (seed & -> & Hseed); try done; try lia. cbn [res_bind]. by exists seed.
Qed.
End ExtendOk.
