(* ===== verification/EagleNext.v ===== *)
(** What the next round starts from.  Greedy decoding over several rounds: runs compose, depend
    on the text of a request only, and end.  And the memory: the slots that a round leaves with
    its requests are the ones the next round extends. *)

From stdpp Require Import strings.
From S2P Require Export EagleAccept EagleCarry.
From S2P Require Import Triton SpecKernels SpecProps KVTable SpecInfo EagleRows.

(** * Greedy decoding over several rounds *)

(** Requests that differ in their memory and statistics only. *)
Record same_text {G} (r r' : VerifyReq G) : Prop := {
  tx_rid : rid (vr_req r') = rid (vr_req r);
  tx_input : origin_input_ids (sr_req (vr_req r')) = origin_input_ids (sr_req (vr_req r));
  tx_output : output_ids (sr_req (vr_req r')) = output_ids (sr_req (vr_req r));
  tx_reasoning : reasoning_tokens (sr_req (vr_req r')) = reasoning_tokens (sr_req (vr_req r));
  tx_finish : vr_finish r' = vr_finish r;
  tx_grammar : vr_grammar r' = vr_grammar r;
  tx_require : vr_require_reasoning r' = vr_require_reasoning r;
  tx_over : vr_is_reasoning_over r' = vr_is_reasoning_over r;
}.

#[export] Instance same_text_equivalence {G} : Equivalence (@same_text G).
Proof. split; [by split|intros x y []; by split|intros x y z [] []; split; congruence]. Qed.

Section Runs.
Context {G : Type} {Gram : GrammarObject G}.
Context (tokenizer : option Tokenizer) (re_search : string -> string -> bool) (think_end_id : option Z).
Abbreviation accept_one := (accept_one (G := G) tokenizer re_search think_end_id).
Abbreviation accept_tokens := (accept_tokens (G := G) tokenizer re_search think_end_id).
Abbreviation greedy_decode := (greedy_decode (G := G) tokenizer re_search think_end_id).
Abbreviation serveable := (serveable (G := G) tokenizer).

Lemma accept_one_text r r1 id r' : same_text r r1 -> accept_one r id = Ok r' -> exists r1', accept_one r1 id = Ok r1' /\ same_text r' r1'.
Proof.
  intros [H1 H2 H3 H4 H5 H6 H7 H8]. unfold EagleVerify.accept_one. rewrite H3, H4, H5, H6, H7, H8. case_match. intros Hc.
  apply res_bind_Ok in Hc as ([out f] & -> & Hc). cbn [res_bind]. apply res_bind_Ok in Hc as ([[out' f'] g] & -> & Hc). cbn [res_bind].
  injection Hc as <-. eexists. split; [done|]. by split; cbn.
Qed.

Lemma greedy_decode_text model k : forall r r1 r' c hit, same_text r r1 -> greedy_decode model k r = Ok (r', c, hit) ->
  exists r1', greedy_decode model k r1 = Ok (r1', c, hit) /\ same_text r' r1'.
Proof.
  induction k as [|k IH]; intros r r1 r' c hit Ht; cbn [EagleAccept.greedy_decode].
  { intros [= <- <- <-]. by exists r1. }
  rewrite (tx_input _ _ Ht), (tx_output _ _ Ht). intros Hc. apply res_bind_Ok in Hc as (q & Hq & Hc).
  destruct (accept_one_text _ _ _ _ Ht Hq) as (q1 & -> & Hs). cbn [res_bind]. rewrite (tx_finish _ _ Hs).
  destruct (finished (vr_finish q)); [injection Hc as <- <- <-; by exists q1|].
  apply res_bind_Ok in Hc as ([[q' c'] hit'] & Hd & Hc). destruct (IH q q1 q' c' hit' Hs Hd) as (q1' & -> & Hs'). cbn [res_bind].
  injection Hc as <- <- <-. by exists q1'.
Qed.

(** A run that has not finished goes on. *)
Lemma greedy_decode_app model k2 r2 c2 hit : forall k1 r r1 c1, greedy_decode model k1 r = Ok (r1, c1, false) -> greedy_decode model k2 r1 = Ok (r2, c2, hit) ->
  greedy_decode model (k1 + k2) r = Ok (r2, (c1 + c2)%nat, hit).
Proof.
  induction k1 as [|k1 IH]; intros r r1 c1; cbn [EagleAccept.greedy_decode Nat.add]; [by intros [= <- <-]|]. intros Hc Hd.
  apply res_bind_Ok in Hc as (q & -> & Hc). cbn [res_bind]. destruct (finished (vr_finish q)); [done|].
  apply res_bind_Ok in Hc as ([[q' c'] hit'] & Hr & Hc). injection Hc as <- <- ->. rewrite (IH q q' c' Hr Hd). done.
Qed.

(** A request that goes on is shorter than its limit. *)
Lemma check_unfinished n out f out' f' : check_finished tokenizer re_search None n out f = Ok (out', f') -> finished f' = false ->
  zlen out < pm_max_new_tokens (fs_params f).
Proof.
  unfold check_finished. destruct (finished f) eqn:Ef; [intros [= <- <-]; congruence|]. destruct (fs_to_finish f); [by intros [= <- <-]|]. cbv zeta.
  destruct (Z.leb_spec (pm_max_new_tokens (fs_params f)) (zlen out)); [by intros [= <- <-]|done].
Qed.

Lemma accept_one_short r id r' : serveable r -> accept_one r id = Ok r' -> finished (vr_finish r') = false ->
  zlen (output_ids (sr_req (vr_req r'))) < pm_max_new_tokens (fs_params (vr_finish r)).
Proof.
  intros Hs Hr Hf. destruct (accept_one_ok tokenizer re_search think_end_id r id Hs) as (r1 & E & _ & _ & Ho).
  rewrite Hr in E. injection E as <-. rewrite (Ho Hf). destruct Hs as [Hg _]. unfold EagleVerify.accept_one in Hr. rewrite Hg in Hr. cbv zeta in Hr.
  cbn [fmap option_fmap option_map] in Hr. case_match. apply res_bind_Ok in Hr as ([out f] & Hc & Hr). injection Hr as <-. cbn in Hf.
  exact (check_unfinished _ _ _ _ _ Hc Hf).
Qed.

(** Tokens accepted without a finish are the request's new tokens. *)
Lemma accept_tokens_text ids : forall r r' c, serveable r -> accept_tokens ids r = Ok (r', c, false) ->
  serveable r' /\ same_request r r' /\ rid (vr_req r') = rid (vr_req r) /\ output_ids (sr_req (vr_req r')) = output_ids (sr_req (vr_req r)) ++ ids
  /\ (ids <> [] -> zlen (output_ids (sr_req (vr_req r'))) < pm_max_new_tokens (fs_params (vr_finish r)) /\ finished (vr_finish r') = false).
Proof.
  induction ids as [|id ids IH]; intros r r' c Hs; cbn [EagleAccept.accept_tokens].
  { intros [= <- <-]. rewrite app_nil_r. by split_and!. }
  destruct (accept_one_ok tokenizer re_search think_end_id r id Hs) as (r1 & E & Hs1 & Hsame & Ho). rewrite E. cbn [res_bind].
  assert (rid (vr_req r1) = rid (vr_req r)) as Hrid.
  { unfold EagleVerify.accept_one in E. cbv zeta in E. case_match. apply res_bind_Ok in E as ([o f] & _ & E). apply res_bind_Ok in E as ([[o' f'] g] & _ & E).
    by injection E as <-. }
  destruct (finished (vr_finish r1)) eqn:Ef; [done|]. intros Hc. apply res_bind_Ok in Hc as ([[q c'] hit] & Hq & Hc). injection Hc as -> <- ->.
  destruct (IH r1 r' c' Hs1 Hq) as (H1 & H2 & H3 & H4 & H5). split_and!; [done|by etrans|congruence|rewrite H4, Ho, <- app_assoc by done; done|].
  intros _. destruct ids as [|id' ids]; [|rewrite <- (sa_params _ _ Hsame); by apply H5].
  injection Hq as <- _. split; [exact (accept_one_short r id r1 Hs E Ef)|done].
Qed.

(** A run that goes on has decoded one token per step. *)
Lemma greedy_decode_len model k : forall r r' c, serveable r -> greedy_decode model k r = Ok (r', c, false) ->
  zlen (output_ids (sr_req (vr_req r'))) = zlen (output_ids (sr_req (vr_req r))) + Z.of_nat k /\ fs_params (vr_finish r') = fs_params (vr_finish r).
Proof.
  induction k as [|k IH]; intros r r' c Hs; cbn [EagleAccept.greedy_decode]; [intros [= <- <-]; split; [lia|done]|]. intros Hc.
  destruct (accept_one_ok tokenizer re_search think_end_id r (model (origin_input_ids (sr_req (vr_req r)) ++ output_ids (sr_req (vr_req r)))) Hs) as (q & E & Hq & Hsame & Ho).
  rewrite E in Hc. cbn [res_bind] in Hc. destruct (finished (vr_finish q)); [done|]. apply res_bind_Ok in Hc as ([[q' c'] hit'] & Hr & Hc). injection Hc as <- <- ->.
  destruct (IH q q' c' Hq Hr) as [H1 H2]. rewrite H1, H2, (sa_params _ _ Hsame), Ho, zlen_app by done. split; [|done]. unfold zlen at 2. simpl length. lia.
Qed.
End Runs.

(** * The slots of the next round *)

(** ** Whole pages *)

Definition whole_pages (ps : Z) (l : list Z) : Prop := forall x y, x ∈ l -> y / ps = x / ps -> y ∈ l.

Lemma elem_of_expand ps pages x : 1 <= ps -> x ∈ expand_pages ps pages <-> x / ps ∈ pages.
Proof.
  intros Hps. unfold expand_pages. rewrite list_elem_of_bind. split.
  - intros (p & Hx & Hp). apply list_elem_of_fmap in Hx as (o & -> & Ho%elem_of_zrange). by rewrite Z.add_comm, Z.div_add, Z.div_small by lia.
  - intros Hx. exists (x / ps). split; [|done]. apply list_elem_of_fmap. exists (x mod ps). pose proof (Z.div_mod x ps ltac:(lia)).
    pose proof (Z.mod_pos_bound x ps ltac:(lia)). split; [lia|]. apply elem_of_zrange. lia.
Qed.

Lemma whole_expand ps pages : 1 <= ps -> whole_pages ps (expand_pages ps pages).
Proof. intros Hps x y. rewrite !elem_of_expand by done. by intros Hx ->. Qed.

Lemma whole_app ps l k : whole_pages ps l -> whole_pages ps k -> whole_pages ps (l ++ k).
Proof. intros Hl Hk x y [Hx|Hx]%elem_of_app Hy; apply elem_of_app; [left; by apply (Hl x)|right; by apply (Hk x)]. Qed.

Lemma whole_one l : whole_pages 1 l.
Proof. intros x y Hx. rewrite !Z.div_1_r. by intros ->. Qed.

Lemma placement_whole ps pre seq last out fresh : 1 <= ps -> placement ps pre seq last out fresh -> whole_pages ps fresh.
Proof.
  intros Hps Hpl. unfold placement in Hpl. destruct (Z.eqb_spec ps 1) as [-> |]; [apply whole_one|]. destruct Hpl as (pages & _ & ->). by apply whole_expand.
Qed.

(** ** Placed tokens *)

(** Token [k] after the [s] tokens of request [p] has the offset of its position, in a page
    that its request holds. *)
Lemma placed_slot ps held lens new last acc kept p s e k : 1 < ps -> whole_pages ps held -> extendable ps held lens new last ->
  placement ps lens new last acc kept -> zlen kept = get_num_new_pages new ps lens * ps ->
  lens !! p = Some s -> new !! p = Some e -> 0 <= k < e - s ->
  exists x, acc !! Z.to_nat (zsum (take p (zip_with Z.sub new lens)) + k) = Some x /\ x mod ps = (s + k) mod ps /\ x ∈ kept ++ held.
Proof.
  intros Hps Hw (Hl & Hll & Hb & Ht) Hpl Hz Hs He Hk. unfold placement in Hpl. destruct (Z.eqb_spec ps 1); [lia|]. destruct Hpl as (pages & -> & ->).
  pose proof (lookup_lt_Some _ _ _ Hs) as Hp. assert (nth p lens 0 = s) as Es by by apply nth_lookup_Some. assert (nth p new 0 = e) as Ee by by apply nth_lookup_Some.
  destruct (num_new_pages_bound ps lens new ltac:(lia) Hl Hb) as [Hn0 _].
  assert (extend_batch ps lens new last pages) as eb.
  { split; try done; try lia. change (zsum (new_pages ps lens new)) with (get_num_new_pages new ps lens).
    rewrite zlen_expand_pages in Hz by lia. unfold zlen in *. rewrite length_take in Hz. nia. }
  pose proof (extend_segs_lookup ps lens new last pages p Hp) as Hseg. pose proof (zlen_extend_seg _ _ _ _ _ eb p Hp) as Hzs. rewrite Es, Ee in Hzs.
  pose proof (extend_seg_start _ _ _ _ _ eb p ltac:(lia)) as Hst.
  assert (extend_result ps lens new last pages !! Z.to_nat (zsum (take p (zip_with Z.sub new lens)) + k)
    = Some (token_loc ps lens new last pages p (s + k))) as Hat.
  { change (zip_with Z.sub new lens) with (ext_lens lens new). rewrite <- Hst. replace (Z.to_nat _) with (seg_start (extend_segs ps lens new last pages) p + Z.to_nat k)%nat by lia.
    unfold extend_result. rewrite (concat_lookup_seg _ _ _ _ Hseg) by (unfold zlen in Hzs; lia).
    unfold extend_seg. rewrite list_lookup_fmap, Es, Ee, (proj2 (lookup_zrange s e (Z.to_nat k) (s + k))); [done|lia]. }
  eexists. split; [exact Hat|]. split.
  - unfold token_loc. rewrite Es. destruct (Z.ltb_spec (s + k) (npages ps s * ps)) as [Hlt|Hge].
    + destruct (Ht p Hp) as [Hm _]; [split; rewrite Es, ?Ee; [|lia]|].
      { intros Hz0. unfold npages in Hlt. pose proof (Z.div_mod s ps ltac:(lia)). replace ((s + ps - 1) / ps) with (s / ps) in Hlt; [lia|].
        symmetry. rewrite ceil_floor_div by lia. rewrite Hz0. simpl. lia. }
      rewrite Es in Hm. replace (nth p last 0 + 1 + (s + k - s)) with (nth p last 0 + 1 + k) by lia. rewrite <- Z.add_mod_idemp_l, Hm, Z.add_mod_idemp_l by lia. done.
    + rewrite Z.add_comm, Z.mod_add, Z.mod_mod by lia. done.
  - apply elem_of_app. destruct (extend_result_pages_inv ps lens new last pages eb) with (x := token_loc ps lens new last pages p (s + k) / ps) as [Hin|(i & Hi & Hti & E)].
    + intros i Hi Hti. by apply Ht.
    + apply list_elem_of_fmap. eexists. split; [done|]. by eapply list_elem_of_lookup_2.
    + left. apply elem_of_expand; [lia|]. exact Hin.
    + right. apply (Hw (nth i last 0)); [by apply Ht|done].
Qed.

(** ** The next round's entries *)

Lemma grown_lookup lens cs p e : grown lens cs !! p = Some e -> exists s c, lens !! p = Some s /\ cs !! p = Some c /\ e = s + Z.of_nat c.
Proof. unfold grown. intros (s & c & -> & Hs & Hc)%lookup_zip_with_Some. eauto. Qed.

Lemma entries_between ps pool held rows lens nxt nxt' : length nxt' = length lens -> length nxt = length lens ->
  (forall p s e e', lens !! p = Some s -> nxt !! p = Some e -> nxt' !! p = Some e' -> s <= e' <= e) ->
  Forall2 (draft_entry ps pool held) rows (zip lens nxt) -> Forall2 (draft_entry ps pool held) rows (zip lens nxt').
Proof.
  intros Hl Hl' Hb HF. apply Forall2_same_length_lookup. split; [rewrite (Forall2_length _ _ _ HF), !length_zip_with; lia|].
  intros p i [s e'] Ei [Es Ee']%lookup_zip_Some. destruct (lookup_lt_is_Some_2 nxt p) as [e Ee]; [apply lookup_lt_Some in Es; lia|].
  destruct (Forall2_lookup_lr _ _ _ p i (s, e) HF Ei) as (Hi & Hc & He & Hx); [by apply lookup_zip_Some|]. specialize (Hb p s e e' Es Ee Ee').
  split_and!; try done; lia.
Qed.

(** A request of [s] tokens has room for [room] more. *)
Definition has_room (pool : ReqToTokenPool) (room s : Z) : Prop := 0 <= s /\ s + room <= max_context_len pool.

Lemma next_entries ps n pool tab held rows lens cs acc kept room : 1 <= ps -> whole_pages ps held ->
  Forall (fun x => to_int32 x = x) (kept ++ held) -> 0 <= room ->
  length rows = length lens -> length cs = length lens -> Forall (fun c => 1 <= c <= n)%nat cs -> length tab = length (req_to_token pool) ->
  Forall2 (draft_entry ps pool held) rows (zip lens (map (fun s => s + Z.of_nat n) lens)) ->
  placement ps lens (grown lens cs) (zip_with (last_entry pool) rows lens) acc kept ->
  zlen kept = get_num_new_pages (grown lens cs) ps lens * ps ->
  round_written (max_context_len pool) (req_to_token pool) tab rows lens (map (fun s => s + Z.of_nat n) lens) (grown lens cs) acc ->
  forall p i e, rows !! p = Some i -> grown lens cs !! p = Some e -> has_room pool room e ->
  draft_entry ps (set_table pool tab) (kept ++ held) i (e, e + room).
Proof.
  intros Hps Hw Hint Hroom Hr Hc HFc Hlt HF Hpl Hz [Hwr _] p i e Ei Ee [He0 He]. pose proof Ee as (s & c & Es & Ec & ->)%grown_lookup.
  pose proof (proj1 (Forall_lookup _ _) HFc p c Ec) as Hcn. cbv beta in Hcn.
  assert (length (grown lens cs) = length lens) as Hlg by by apply length_grown.
  assert (Forall2 (draft_entry ps pool held) rows (zip lens (grown lens cs))) as HF'.
  { apply (entries_between _ _ _ _ _ (map (fun s => s + Z.of_nat n) lens)); try done; [by rewrite length_map|].
    intros q s1 e1 e1' Es1 Ee1 (s2 & c2 & Es2 & Ec2 & ->)%grown_lookup. rewrite list_lookup_fmap, Es1 in Ee1. injection Ee1 as <-.
    pose proof (proj1 (Forall_lookup _ _) HFc q c2 Ec2) as Hq. cbv beta in Hq. assert (s2 = s1) as -> by congruence. lia. }
  destruct (Forall2_lookup_lr _ _ _ p i (s, s + Z.of_nat c) HF' Ei) as (Hi & Hs & _ & _); [by apply lookup_zip_Some|].
  split_and!; cbn; try lia; [unfold zlen in *; rewrite Hlt; lia..|]. intros Hmod.
  destruct (Z.eq_dec ps 1) as [-> |Hne]; [by rewrite Z.mod_1_r in Hmod|].
  destruct (placed_slot ps held lens (grown lens cs) (zip_with (last_entry pool) rows lens) acc kept p s (s + Z.of_nat c) (Z.of_nat c - 1)) as (x & Hx & Hm & Hin);
    try done; try lia; [by apply draft_extendable|].
  pose proof (Hwr p i s _ (Z.of_nat c - 1) Ei Es Ee ltac:(lia)) as Hent. rewrite Hx in Hent. cbn in Hent. rewrite Forall_forall in Hint. rewrite (Hint x Hin) in Hent.
  exists x. split_and!; [|rewrite <- Z.add_mod_idemp_l, Hm, Z.add_mod_idemp_l by lia; f_equal; lia|done].
  rewrite <- Hent. f_equal. lia.
Qed.
