(* ===== verification/EagleServe.v ===== *)
(** Serving with EAGLE, round after round: the decode branch of
    [EAGLEWorker.forward_batch_generation] with the draft extension, then the scheduler drops
    the requests that have finished; between rounds other requests join and memory is taken
    and given back.  Drafts are chains, without DP attention.

    [target] is the target model's forward pass: its greedy choice at every draft and the
    hidden states, from the requests and the drafted tokens. *)

From stdpp Require Import strings.
From S2P Require Export EagleNext.
From S2P Require Import Triton KVTable SpecKernels SpecProps SpecInfo EagleRows.

(** The running batch, its [spec_info], the cache, the allocator and the table. *)
Record serve_state (G H Score T A : Type) : Type := MkServe {
  ss_batch : VerifyBatch G;
  ss_info : spec_info Score H;
  ss_cache : T;
  ss_alloc : A;
  ss_pool : ReqToTokenPool
}.
Arguments MkServe {G H Score T A}.
Arguments ss_batch {G H Score T A}.
Arguments ss_info {G H Score T A}.
Arguments ss_cache {G H Score T A}.
Arguments ss_alloc {G H Score T A}.
Arguments ss_pool {G H Score T A}.

(** ** Operations *)

Section Serve.
Context {G H Score : Type} {Gram : GrammarObject G} {T A : Type} {Alloc : KVAllocator A} {Backup : KVBackup A} {Cache : BasePrefixCache T A kva_pool}.
Context (tokenizer : option Tokenizer) (re_search : string -> string -> bool) (think_end_id : option Z).
Context (oob : Z -> Z) (undef : Z) (torch_empty : Z -> list Z) (np2 : Z -> Z) (order : Z -> list Z) (_is_hip : bool) (attn_backend : string).
Context (score_mul : Score -> Score -> Score) (torch_max : list Score -> Score * Z) (torch_topk : list Score -> Z -> list (Score * Z)).
Context (draft_runner : Z -> list Z -> list Z -> list Z -> list H -> list (list Score) * list H)
  (extend_runner : list Z -> list Z -> list Z -> list Z -> list Z -> list Z -> list H -> list (list Score) * list H)
  (hot_token_id : option (list Z)) (kernel : tree_kernel) (target : list (VerifyReq G) -> list Z -> list Z * list H).
Context (topk speculative_num_steps speculative_num_draft_tokens : Z) (strict_check : bool).

(** The decode branch of [forward_batch_generation]: the batch and what the next round drafts
    from. *)
Definition worker_round (seed : draft_seed Score H) (batch : VerifyBatch G) (page_size : Z) (t : T) (a : A) (pool : ReqToTokenPool)
    : res (VerifyBatch G * draft_seed Score H * T * A * ReqToTokenPool) :=
  let* (out, batch, t, a, pool) :=
    decode_round tokenizer re_search think_end_id oob undef torch_empty np2 order _is_hip attn_backend score_mul torch_max torch_topk draft_runner hot_token_id kernel
      (fun b => target (vb_reqs b) (vb_input_ids b)) topk speculative_num_steps speculative_num_draft_tokens seed batch page_size t a pool in
  let di := vo_draft_input out in
  if 0 <? zlen (di_verified_id di) then
    let* (batch, seed) :=
      forward_draft_extend_after_decode oob torch_empty order torch_max torch_topk extend_runner topk speculative_num_steps di batch in
    Ok (batch, seed, t, a, pool)
  else Ok (batch, MkDraftSeed [] [] [] [], t, a, pool).

(** A round of the running batch and the requests that leave it: [update_running_batch]
    filters before the next round. *)
Definition serve_round (s : serve_state G H Score T A) : res (serve_state G H Score T A * list (VerifyReq G)) :=
  match si_tensors (ss_info s) with
  | None => Raise AttributeError
  | Some seed =>
      let* (batch, seed, t, a, pool) :=
        worker_round seed (ss_batch s) (tc_page_size (ss_cache s)) (ss_cache s) (ss_alloc s) (ss_pool s) in
      let left := filter (fun r => finished (vr_finish r) = true) (vb_reqs batch) in
      let* (batch, info) := filter_round_batch strict_check true batch (MkSpecInfo None (Some seed)) in
      Ok (MkServe batch info t a pool, left)
  end.

(** The last prefill batch joins the running one: [get_next_batch_to_run]. *)
Definition serve_join (s : serve_state G H Score T A) (last_batch : VerifyBatch G) (info : spec_info Score H) : res (serve_state G H Score T A) :=
  let* (last_batch, info) := filter_round_batch strict_check false last_batch info in
  if (length (vb_reqs last_batch) =? 0)%nat then Ok s
  else if (length (vb_reqs (ss_batch s)) =? 0)%nat then Ok (MkServe last_batch info (ss_cache s) (ss_alloc s) (ss_pool s))
  else
    let* (batch, info) := merge_round_batch (ss_batch s) last_batch (ss_info s) info in
    Ok (MkServe batch info (ss_cache s) (ss_alloc s) (ss_pool s)).
End Serve.

(** ** Running requests *)

(** A request of [len] tokens in memory whose last token [v] is the one to draft from: the
    last token is not in memory yet, and the limit on new tokens keeps the drafts within
    the row. *)
Record running_req {G} (tokenizer : option Tokenizer) (steps max_context : Z) (v len : Z) (r : VerifyReq G) : Prop := {
  rn_serveable : serveable tokenizer r;
  rn_unfinished : finished (vr_finish r) = false;
  rn_last : last (output_ids (sr_req (vr_req r))) = Some v;
  rn_len : len + 1 = zlen (origin_input_ids (sr_req (vr_req r))) + zlen (output_ids (sr_req (vr_req r)));
  rn_committed : kv_committed_len (sr_req (vr_req r)) = len;
  rn_limit : zlen (output_ids (sr_req (vr_req r))) < pm_max_new_tokens (fs_params (vr_finish r));
  rn_room : zlen (origin_input_ids (sr_req (vr_req r))) + pm_max_new_tokens (fs_params (vr_finish r)) + steps <= max_context;
}.

Lemma running_room {G} tokenizer steps w v len (r : VerifyReq G) : running_req tokenizer steps w v len r -> 0 <= len /\ len + (steps + 1) <= w.
Proof.
  intros [_ _ Hl Hlen _ Hlim Hroom]. destruct (output_ids (sr_req (vr_req r))) as [|x o] eqn:E; [done|]. rewrite zlen_cons in *.
  pose proof (zlen_nonneg o). pose proof (zlen_nonneg (origin_input_ids (sr_req (vr_req r)))). lia.
Qed.

Section Requests.
Context {G : Type} {Gram : GrammarObject G}.
Context (tokenizer : option Tokenizer) (re_search : string -> string -> bool) (think_end_id : option Z) (model : list Z -> Z).
Abbreviation greedy_decode := (greedy_decode (G := G) tokenizer re_search think_end_id model).

(** What happened to [r], which now is [r']: greedy decoding for [least] tokens or more, or
    until it finished. *)
Definition decoded (least : nat) (r r' : VerifyReq G) : Prop :=
  exists k r1 c, greedy_decode k r = Ok (r1, c, finished (vr_finish r')) /\ same_text r1 r' /\ (least <= k)%nat.

Lemma decoded_refl r : finished (vr_finish r) = false -> decoded 0 r r.
Proof. intros Hf. exists 0%nat, r, 0%nat. rewrite Hf. by split_and!. Qed.

Lemma decoded_trans m n r r1 r2 : decoded m r r1 -> finished (vr_finish r1) = false -> decoded n r1 r2 -> decoded (m + n) r r2.
Proof.
  intros (k1 & q1 & c1 & H1 & T1 & L1) Hf (k2 & q2 & c2 & H2 & T2 & L2). rewrite Hf in H1. symmetry in T1.
  destruct (greedy_decode_text tokenizer re_search think_end_id model k2 _ _ _ _ _ T1 H2) as (q2' & H2' & T2').
  exists (k1 + k2)%nat, q2', (c1 + c2)%nat. split_and!; [by eapply greedy_decode_app|by rewrite <- T2'|lia].
Qed.

(** One round of one request. *)
Lemma served_running n v target i steps w x len (r r' : VerifyReq G) c : Z.of_nat n = steps + 1 ->
  running_req tokenizer steps w x len r -> served tokenizer re_search think_end_id n v target i r r' c ->
  zlen (row (Z.of_nat n) target (Z.of_nat i)) = Z.of_nat n -> zlen (row (Z.of_nat n) (ev_draft_token v) (Z.of_nat i)) = Z.of_nat n ->
  (forall k x, row (Z.of_nat n) target (Z.of_nat i) !! k = Some x ->
     x = model (origin_input_ids (sr_req (vr_req r)) ++ output_ids (sr_req (vr_req r)) ++ take k (drop 1 (row (Z.of_nat n) (ev_draft_token v) (Z.of_nat i))))) ->
  decoded 1 r r' /\ (finished (vr_finish r') = false -> exists y, last (take c (row (Z.of_nat n) target (Z.of_nat i))) = Some y
    /\ running_req tokenizer steps w y (len + Z.of_nat c) r').
Proof.
  intros Hn [Hs Hu Hl Hlen Hcm Hlim Hroom] (a & hit & -> & H1 & H2 & (r1 & Hacc & Hc) & Hfin & Hall) Ht Hd Hm.
  set (k := S (accepted_of _ _ _ _)) in *. set (ids := row _ target _) in *.
  pose proof (accepted_run tokenizer re_search think_end_id model n v target i r Hs ltac:(lia) Ht Hd Hm) as Hrun. cbv zeta in Hrun. fold k ids in Hrun.
  assert (same_text r1 r' /\ kv_committed_len (sr_req (vr_req r')) = kv_committed_len (sr_req (vr_req r1)) + Z.of_nat c) as [Htx Hcl].
  { unfold commit_accepted in Hc. destruct (update_spec_acceptance_histogram _ _) as [h|]; [|done]. cbn [res_bind] in Hc. injection Hc as <-. split; [by split|done]. }
  split.
  - exists k, r1, c. rewrite <- Hrun, Hfin. split_and!; [exact Hacc|done|unfold k; lia].
  - intros Hf. rewrite Hf in Hfin. subst hit. specialize (Hall eq_refl). assert (take c ids = take k ids) as Eids by (f_equal; unfold k; lia).
    destruct (accept_tokens_text tokenizer re_search think_end_id (take k ids) r r1 c Hs Hacc) as (S1 & S2 & _ & S4 & S5).
    assert (length (take k ids) = c) as Hlt by (rewrite length_take; unfold zlen in Ht; lia).
    assert (take k ids <> []) as Hne by (intros E; rewrite E in Hlt; simpl in Hlt; lia). destruct (S5 Hne) as [S6 _].
    rewrite Eids. destruct (last (take k ids)) as [y|] eqn:Ey; [|by apply last_None in Ey].
    exists y. split; [done|]. destruct S1 as [G1 G2]. split.
    + split; [by rewrite (tx_grammar _ _ Htx)|]. by rewrite (tx_finish _ _ Htx).
    + done.
    + rewrite (tx_output _ _ Htx), S4, last_app, Ey. done.
    + rewrite (tx_input _ _ Htx), (tx_output _ _ Htx), (sa_input _ _ S2), S4, zlen_app. unfold zlen in *. lia.
    + rewrite Hcl, (sa_committed _ _ S2). lia.
    + rewrite (tx_output _ _ Htx), (tx_finish _ _ Htx), (sa_params _ _ S2). done.
    + rewrite (tx_input _ _ Htx), (tx_finish _ _ Htx), (sa_params _ _ S2), (sa_input _ _ S2). done.
Qed.
End Requests.

(** ** Dropping the finished requests *)

Lemma unfinished_select {G} (reqs : list (VerifyReq G)) :
  select reqs (unfinished_positions reqs) = filter (fun r => finished (vr_finish r) = false) reqs.
Proof.
  unfold unfinished_positions. set (P := fun i => _ = true).
  assert (forall l k, (forall j, (j < length l)%nat -> reqs !! (k + j)%nat = l !! j) ->
    select reqs (filter P (seq k (length l))) = filter (fun r => finished (vr_finish r) = false) l) as Hs; [|by apply (Hs reqs 0%nat)].
  induction l as [|r l IH]; intros k Hk; [done|]. simpl seq. pose proof (Hk 0%nat ltac:(simpl; lia)) as Hr. rewrite Nat.add_0_r in Hr. simpl in Hr.
  assert (select reqs (filter P (seq (S k) (length l))) = filter (fun r => finished (vr_finish r) = false) l) as E.
  { apply IH. intros j Hj. replace (S k + j)%nat with (k + S j)%nat by lia. by rewrite Hk by (simpl; lia). }
  destruct (finished (vr_finish r)) eqn:Ef.
  - rewrite (filter_cons_False _ r), filter_cons_False, E; try done; [unfold P; by rewrite Hr, Ef|by rewrite Ef].
  - rewrite (filter_cons_True _ r), filter_cons_True, (select_cons _ _ _ _ Hr), E; try done. unfold P. by rewrite Hr, Ef.
Qed.

Lemma unfinished_full {G} (reqs : list (VerifyReq G)) : length (unfinished_positions reqs) = length reqs ->
  unfinished_positions reqs = seq 0 (length reqs).
Proof.
  intros Hl. apply filter_all, Forall_forall. intros i Hi. apply dec_stable. intros Hn. pose proof (length_filter_lt (fun i => (match reqs !! i with Some r => negb (finished (vr_finish r)) | None => false end) = true) _ i Hi Hn) as Hlt.
  rewrite length_seq in Hlt. unfold unfinished_positions in Hl. lia.
Qed.

Lemma finished_split {G} (reqs : list (VerifyReq G)) :
  Permutation (filter (fun r => finished (vr_finish r) = true) reqs ++ filter (fun r => finished (vr_finish r) = false) reqs) reqs.
Proof.
  induction reqs as [|r reqs IH]; [done|]. destruct (finished (vr_finish r)) eqn:E.
  - rewrite filter_cons_True, filter_cons_False by (done || by rewrite E). simpl. by rewrite IH.
  - rewrite filter_cons_False, filter_cons_True by (done || by rewrite E). rewrite <- Permutation_middle. by rewrite IH.
Qed.

(** The tensors of the requests with the given positions. *)
Definition select_seed {Score H} (d : draft_seed Score H) (U : list nat) : draft_seed Score H :=
  MkDraftSeed (select (sd_verified_id d) U) (select (sd_topk_p d) U) (select (sd_topk_index d) U) (select (sd_hidden_states d) U).

(** [filter_batch] keeps the positions [U] of the unfinished requests: of the batch, and of
    the tensors when the round has not dropped them already. *)
Lemma filter_round_ok {G Score H} strict (v1 : bool) (batch : VerifyBatch G) (seed : draft_seed Score H) hot topk verified_id :
  let U := unfinished_positions (vb_reqs batch) in let bs := length (vb_reqs batch) in
  seeded hot topk (if v1 then length U else bs) verified_id seed ->
  length (vb_req_pool_indices batch) = bs -> length (vb_seq_lens batch) = bs -> length (vb_seq_lens_cpu batch) = bs ->
  exists b seed', filter_round_batch strict v1 batch (MkSpecInfo None (Some seed)) = Ok (b, MkSpecInfo None (Some seed'))
    /\ vb_reqs b = filter (fun r => finished (vr_finish r) = false) (vb_reqs batch) /\ (v1 = true -> seed' = seed)
    /\ (vb_reqs b <> [] -> vb_req_pool_indices b = select (vb_req_pool_indices batch) U /\ vb_seq_lens b = select (vb_seq_lens batch) U
         /\ vb_seq_lens_cpu b = select (vb_seq_lens_cpu batch) U /\ (v1 = false -> seed' = select_seed seed U)).
Proof.
  intros U bs [<- Hv [Hp _] [Hi _] Hh] Hr Hl Hc. pose proof (unfinished_valid (vb_reqs batch)) as HU. fold U in HU.
  rewrite <- unfinished_select. fold U. unfold filter_round_batch. fold U.
  destruct (Nat.eqb_spec (length U) 0) as [E0|E0].
  { exists (MkVerifyBatch [] (vb_req_pool_indices batch) (vb_seq_lens batch) (vb_seq_lens_cpu batch) (vb_input_ids batch) (vb_out_cache_loc batch)), seed.
    split; [done|]. apply nil_length_inv in E0. by rewrite E0. }
  destruct (Nat.eqb_spec (length U) (length (vb_reqs batch))) as [E1|E1].
  { assert (forall B (l : list B), length l = bs -> select l U = l) as Hall by (intros B l El; unfold U; rewrite unfinished_full by done; fold bs; rewrite <- El; apply select_seq).
    exists batch, seed. rewrite !Hall by done. split_and!; try done. intros _. split_and!; try done. destruct v1; [done|].
    fold bs in Hv, Hp, Hi, Hh. unfold select_seed. rewrite !Hall by done. by destruct seed. }
  fold bs in HU. assert (forall B (l : list B), length l = bs -> take_indices l U = Ok (select l U)) as Hti.
  { intros B l Hlb. apply take_indices_ok. by eapply valid_length. }
  rewrite !Hti by done. cbn [res_bind]. unfold filter_spec_info. cbn [si_future_indices si_tensors]. destruct v1.
  - rewrite Hp, Nat.eqb_refl. cbn [negb andb res_bind]. eexists _, seed. rewrite !take_ge by lia. split; [by destruct seed|]. by split.
  - rewrite !Hti by done. cbn [res_bind]. eexists _, (select_seed seed U). split; [done|]. by split.
Qed.

(** ** Slots that the table can hold *)

(** An allocator whose slots fit the 32-bit entries of the table. *)
Class KVInt32 (A : Type) `{Alloc : KVAllocator A} : Prop :=
  kv_int32 : forall (a : A) own, kv_owns a own -> Forall (fun x => to_int32 x = x) own.

#[export] Instance npu_int32 oob undef empty Hempty : KVInt32 allocator (Alloc := npu_allocator oob undef empty Hempty).
Proof.
  intros s own ((pages & Hu & Ho & _ & Hps & _) & Hsz & _). apply Forall_forall. intros x Hx. rewrite Hu in Hx. apply elem_of_expand in Hx; [|lia].
  assert (x / page_size s ∈ zrange 1 (num_pages s + 1)) as Hin%elem_of_zrange by (rewrite <- Ho, !elem_of_app; auto).
  pose proof (Z.div_mod x (page_size s) ltac:(lia)). pose proof (Z.mod_pos_bound x (page_size s) Hps).
  unfold num_pages in Hin. pose proof (Z.mul_div_le (Allocator.size s) (page_size s) Hps). apply to_int32_small. nia.
Qed.

(** ** The state between rounds *)

Section State.
Context {G H Score : Type} {Gram : GrammarObject G} {T A : Type} {Alloc : KVAllocator A} {Cache : BasePrefixCache T A kva_pool}.
Context (tokenizer : option Tokenizer) (hot_token_id : option (list Z)) (steps : Z).

(** A batch and the tensors it drafts from, with slots among [held]. *)
Record seated_batch (ps : Z) (pool : ReqToTokenPool) (held : list Z) (seed : draft_seed Score H) (batch : VerifyBatch G) : Prop := {
  bo_seed : seeded hot_token_id 1 (length (vb_reqs batch)) (sd_verified_id seed) seed;
  bo_rows : length (vb_req_pool_indices batch) = length (vb_reqs batch);
  bo_lens : length (vb_seq_lens batch) = length (vb_reqs batch);
  bo_cpu : length (vb_seq_lens_cpu batch) = length (vb_reqs batch);
  bo_nodup : NoDup (vb_req_pool_indices batch);
  bo_running : forall i r len v, vb_reqs batch !! i = Some r -> vb_seq_lens batch !! i = Some len -> sd_verified_id seed !! i = Some v ->
    running_req tokenizer steps (max_context_len pool) v len r;
  bo_entries : Forall2 (draft_entry ps pool held) (vb_req_pool_indices batch)
    (zip (vb_seq_lens batch) (map (fun s => s + (steps + 1)) (vb_seq_lens batch)));
}.

(** The batch of the scheduler is empty or in order. *)
Definition batch_or_empty (ps : Z) (pool : ReqToTokenPool) (held : list Z) (info : spec_info Score H) (batch : VerifyBatch G) : Prop :=
  vb_reqs batch = [] \/ exists seed, info = MkSpecInfo None (Some seed) /\ seated_batch ps pool held seed batch.

(** Memory in order: [held] are whole pages, and every slot belongs to them, to the cache or
    to the allocator. *)
Definition memory_ok (g : tc_ghost) (held : list Z) (s : serve_state G H Score T A) : Prop :=
  table_ok (ss_pool s) /\ in_sync (ss_cache s) g (ss_alloc s) held /\ whole_pages (tc_page_size (ss_cache s)) held.

Definition state_ok (s : serve_state G H Score T A) : Prop :=
  exists g held, memory_ok g held s /\ batch_or_empty (tc_page_size (ss_cache s)) (ss_pool s) held (ss_info s) (ss_batch s).

Lemma batch_start t g a pool held seed (batch : VerifyBatch G) : 1 <= steps -> table_ok pool -> in_sync t g a held ->
  seated_batch (tc_page_size t) pool held seed batch -> round_start tokenizer steps hot_token_id seed batch t g a pool held.
Proof.
  intros Hst Htab Hs [Hseed Hr Hl Hc Hnd Hrun Hent]. pose proof Hseed as [_ Hv _ _ _]. split; try done.
  - apply seeded_inputs with (sd_verified_id seed); try done; try lia. apply Forall_lookup. intros i len El. pose proof (lookup_lt_Some _ _ _ El).
    destruct (lookup_lt_is_Some_2 (vb_reqs batch) i) as [r Er]; [lia|]. destruct (lookup_lt_is_Some_2 (sd_verified_id seed) i) as [v Ev]; [lia|].
    by destruct (running_room _ _ _ _ _ _ (Hrun i r len v Er El Ev)).
  - apply Forall_lookup. intros i r Er. pose proof (lookup_lt_Some _ _ _ Er). destruct (lookup_lt_is_Some_2 (vb_seq_lens batch) i) as [len El]; [lia|].
    destruct (lookup_lt_is_Some_2 (sd_verified_id seed) i) as [v Ev]; [lia|]. exact (rn_serveable _ _ _ _ _ _ (Hrun i r len v Er El Ev)).
Qed.

(** The unfinished requests of a round, with the slots they hold after it. *)
Lemma next_batch ps n pool tab held kept rows lens cs acc reqs (seed : draft_seed Score H) (b : VerifyBatch G) :
  let U := unfinished_positions reqs in
  1 <= ps -> 0 <= steps -> whole_pages ps held -> Forall (fun x => to_int32 x = x) (kept ++ held) ->
  length rows = length reqs -> length lens = length reqs -> length cs = length reqs -> NoDup rows ->
  Forall (fun c => 1 <= c <= n)%nat cs -> length tab = length (req_to_token pool) ->
  Forall2 (draft_entry ps pool held) rows (zip lens (map (fun s => s + Z.of_nat n) lens)) ->
  placement ps lens (grown lens cs) (zip_with (last_entry pool) rows lens) acc kept ->
  zlen kept = get_num_new_pages (grown lens cs) ps lens * ps ->
  round_written (max_context_len pool) (req_to_token pool) tab rows lens (map (fun s => s + Z.of_nat n) lens) (grown lens cs) acc ->
  seeded hot_token_id 1 (length U) (sd_verified_id seed) seed ->
  (forall j i r e, U !! j = Some i -> reqs !! i = Some r -> grown lens cs !! i = Some e ->
     exists y, sd_verified_id seed !! j = Some y /\ running_req tokenizer steps (max_context_len pool) y e r) ->
  vb_reqs b = filter (fun r => finished (vr_finish r) = false) reqs -> vb_req_pool_indices b = select rows U ->
  vb_seq_lens b = select (grown lens cs) U -> length (vb_seq_lens_cpu b) = length U ->
  seated_batch ps (set_table pool tab) (kept ++ held) seed b.
Proof.
  intros U Hps Hst Hw Hint Lr Ll Lc Hnd HFc Hlt HF Hpl Hz Hwr Hseed Hrun Eb Erows Elens Ecpu.
  assert (valid_indices reqs U) as HU by apply unfinished_valid. rewrite <- unfinished_select in Eb. fold U in Eb.
  assert (length (grown lens cs) = length reqs) as Lg by (rewrite length_grown; lia).
  assert (forall B (l : list B), length l = length reqs -> valid_indices l U) as HV by (intros B l El; by eapply valid_length).
  assert (length (vb_reqs b) = length U) as Lb by (rewrite Eb; by apply length_select).
  split; rewrite ?Lb, ?Erows, ?Elens; try done; try (apply length_select; by apply HV).
  - apply NoDup_select; [done|apply NoDup_unfinished|by apply HV].
  - intros j r e y. rewrite Eb, !select_lookup by (by apply HV). destruct (U !! j) as [i|] eqn:Ej; [|done]. simpl. intros Er Ee Ev.
    destruct (Hrun j i r e Ej Er Ee) as (y' & Ey' & Hy). assert (y' = y) as -> by congruence. exact Hy.
  - rewrite <- (select_map (fun s => s + (steps + 1))), <- (select_zip_with pair) by (rewrite ?length_map; try done; by apply HV).
    apply Forall2_same_length_lookup. split; [by rewrite !length_select by (apply HV; rewrite ?length_zip_with, ?length_map; lia)|].
    intros j i [e e'] Ei Ee. rewrite select_lookup in Ei by (by apply HV). rewrite select_lookup in Ee by (apply HV; rewrite length_zip_with, length_map; lia).
    destruct (U !! j) as [q|] eqn:Ej; [|done]. cbn in Ei, Ee. apply lookup_zip_Some in Ee as [Ee Ee']. rewrite list_lookup_fmap, Ee in Ee'. injection Ee' as <-.
    destruct (unfinished_lookup reqs j q Ej) as (r & Er & _). destruct (Hrun j q r e Ej Er Ee) as (y & _ & Hy).
    apply (next_entries ps n pool tab held rows lens cs acc kept (steps + 1)) with (p := q); try done; try lia. exact (running_room _ _ _ _ _ _ Hy).
Qed.

(** ** Requests that join *)

(** A prefilled batch with its tensors: what holds of the requests that have not finished. *)
Record arrived (ps : Z) (pool : ReqToTokenPool) (held : list Z) (seed : draft_seed Score H) (batch : VerifyBatch G) : Prop := {
  ar_seed : seeded hot_token_id 1 (length (vb_reqs batch)) (sd_verified_id seed) seed;
  ar_rows : length (vb_req_pool_indices batch) = length (vb_reqs batch);
  ar_lens : length (vb_seq_lens batch) = length (vb_reqs batch);
  ar_cpu : length (vb_seq_lens_cpu batch) = length (vb_reqs batch);
  ar_nodup : NoDup (vb_req_pool_indices batch);
  ar_running : forall i r row len v, vb_reqs batch !! i = Some r -> finished (vr_finish r) = false -> vb_req_pool_indices batch !! i = Some row ->
    vb_seq_lens batch !! i = Some len -> sd_verified_id seed !! i = Some v ->
    running_req tokenizer steps (max_context_len pool) v len r /\ draft_entry ps pool held row (len, len + (steps + 1));
}.

Lemma arrived_filter strict ps pool held seed (batch : VerifyBatch G) : arrived ps pool held seed batch ->
  exists b info, filter_round_batch strict false batch (MkSpecInfo None (Some seed)) = Ok (b, info)
    /\ vb_reqs b = filter (fun r => finished (vr_finish r) = false) (vb_reqs batch)
    /\ (vb_reqs b = [] \/ vb_req_pool_indices b = select (vb_req_pool_indices batch) (unfinished_positions (vb_reqs batch))
       /\ exists seed', info = MkSpecInfo None (Some seed') /\ seated_batch ps pool held seed' b).
Proof.
  intros [Hseed Lr Ll Lc Hnd Hrun]. pose proof Hseed as [_ Lv [Lp Hp] [Li Hi] Lh]. set (U := unfinished_positions (vb_reqs batch)) in *.
  destruct (filter_round_ok strict false batch seed hot_token_id 1 (sd_verified_id seed) Hseed Lr Ll Lc) as (b & seed' & Ef & Eb & _ & Hb). fold U in Hb.
  exists b, (MkSpecInfo None (Some seed')). split; [done|]. split; [done|]. destruct (decide (vb_reqs b = [])) as [E|E]; [by left|right].
  destruct (Hb E) as (B1 & B2 & B3 & B4). split; [done|]. rewrite (B4 eq_refl). eexists. split; [done|].
  assert (valid_indices (vb_reqs batch) U) as HU by apply unfinished_valid.
  assert (forall B (l : list B), length l = length (vb_reqs batch) -> valid_indices l U) as HV by (intros B l El; by eapply valid_length).
  rewrite <- unfinished_select in Eb. fold U in Eb. assert (length (vb_reqs b) = length U) as Lb by (rewrite Eb; by apply length_select).
  assert (forall j i r row len v, U !! j = Some i -> vb_reqs batch !! i = Some r -> vb_req_pool_indices batch !! i = Some row -> vb_seq_lens batch !! i = Some len ->
    sd_verified_id seed !! i = Some v -> running_req tokenizer steps (max_context_len pool) v len r /\ draft_entry ps pool held row (len, len + (steps + 1))) as Hrun'.
  { intros j i r row len v Ej Er Eq El Ev. destruct (unfinished_lookup _ j i Ej) as (r' & Er' & Hf). assert (r' = r) as -> by congruence. by apply (Hrun i). }
  split; rewrite ?Lb, ?B1, ?B2, ?B3; cbn [select_seed sd_verified_id]; try (apply length_select; by apply HV).
  - split; cbn; try done; rewrite ?length_select by (by apply HV); try done; (split; [done|]); by apply Forall_select.
  - apply NoDup_select; [done|apply NoDup_unfinished|by apply HV].
  - intros j r len v. rewrite Eb, !select_lookup by (by apply HV). destruct (U !! j) as [i|] eqn:Ej; [|done]. simpl. intros Er El Ev.
    destruct (lookup_lt_is_Some_2 (vb_req_pool_indices batch) i) as [row Eq]; [apply lookup_lt_Some in Er; lia|]. by apply (Hrun' j i r row len v).
  - rewrite <- (select_map (fun s => s + (steps + 1))), <- (select_zip_with pair) by (rewrite ?length_map; try done; by apply HV).
    apply Forall2_same_length_lookup. split; [by rewrite !length_select by (apply HV; rewrite ?length_zip_with, ?length_map; lia)|].
    intros j row [len e] Eq Ee. rewrite select_lookup in Eq by (by apply HV). rewrite select_lookup in Ee by (apply HV; rewrite length_zip_with, length_map; lia).
    destruct (U !! j) as [i|] eqn:Ej; [|done]. cbn in Eq, Ee. apply lookup_zip_Some in Ee as [El Ee]. rewrite list_lookup_fmap, El in Ee. injection Ee as <-.
    destruct (unfinished_lookup _ j i Ej) as (r & Er & _). destruct (lookup_lt_is_Some_2 (sd_verified_id seed) i) as [v Ev]; [apply lookup_lt_Some in Er; lia|].
    by apply (Hrun' j i r row len v).
Qed.

Lemma merge_seated ps pool held seed1 seed2 (b1 b2 : VerifyBatch G) : seated_batch ps pool held seed1 b1 -> seated_batch ps pool held seed2 b2 ->
  NoDup (vb_req_pool_indices b1 ++ vb_req_pool_indices b2) ->
  exists b seed, merge_round_batch b1 b2 (MkSpecInfo None (Some seed1)) (MkSpecInfo None (Some seed2)) = Ok (b, MkSpecInfo None (Some seed))
    /\ vb_reqs b = vb_reqs b1 ++ vb_reqs b2 /\ seated_batch ps pool held seed b.
Proof.
  intros [[_ V1 [P1 P1'] [I1 I1'] X1] R1 L1 C1 _ Q1 E1] [[_ V2 [P2 P2'] [I2 I2'] X2] R2 L2 C2 _ Q2 E2] Hnd.
  eexists _, _. split; [reflexivity|]. split; [done|]. split; cbn; rewrite ?length_app; try lia; try done.
  - split; cbn; rewrite ?length_app; try lia; try done; (split; [lia|]); by apply Forall_app.
  - intros i r len v Hr Hl Hv. destruct (decide (i < length (vb_reqs b1))%nat).
    + rewrite lookup_app_l in Hr by lia. rewrite lookup_app_l in Hl by lia. rewrite lookup_app_l in Hv by lia. by apply (Q1 i).
    + rewrite lookup_app_r in Hr by lia. rewrite lookup_app_r in Hl by lia. rewrite lookup_app_r in Hv by lia. rewrite L1 in Hl. rewrite V1 in Hv. by apply (Q2 (i - length (vb_reqs b1))%nat).
  - rewrite map_app, zip_with_app by (by rewrite length_map). by apply Forall2_app.
Qed.
End State.
