(* ===== verification/ServeClaims.v ===== *)
(** The properties of serving with EAGLE: every request gets the tokens of greedy decoding,
    whichever requests share its batch and whatever the draft model proposes, and leaves after at
    most as many rounds as it may get tokens. *)

From stdpp Require Import strings.
From S2P Require Export EagleServe.
From S2P Require Import Triton KVTable SpecKernels SpecProps SpecInfo EagleRows.

(** The target model: one choice and one hidden state for every drafted token; when the
    drafts of a request follow its last token, each choice is that of [model] after the
    request's text and the drafts before it. *)
Record target_model {G H} (n : nat) (model : list Z -> Z) (target : list (VerifyReq G) -> list Z -> list Z * list H) : Prop := {
  tm_shape : forall reqs toks, length toks = (length reqs * n)%nat -> length (target reqs toks).1 = length toks /\ (length toks <= length (target reqs toks).2)%nat;
  tm_greedy : forall reqs toks i r k x, length toks = (length reqs * n)%nat -> reqs !! i = Some r ->
    row (Z.of_nat n) toks (Z.of_nat i) !! 0%nat = last (output_ids (sr_req (vr_req r))) -> row (Z.of_nat n) (target reqs toks).1 (Z.of_nat i) !! k = Some x ->
    x = model (origin_input_ids (sr_req (vr_req r)) ++ output_ids (sr_req (vr_req r)) ++ take k (drop 1 (row (Z.of_nat n) toks (Z.of_nat i))))
}.

Section Rounds.
Context {G H Score T A : Type} {Gram : GrammarObject G} {Alloc : KVAllocator A} {Backup : KVBackup A} {Cache : BasePrefixCache T A kva_pool} {Int32 : KVInt32 A}.
Context (tokenizer : option Tokenizer) (re_search : string -> string -> bool) (think_end_id : option Z).
Context (oob : Z -> Z) (undef : Z) (torch_empty : Z -> list Z) (np2 : Z -> Z) (order : Z -> list Z) (is_hip : bool) (attn_backend : string) (cfg : DecodeConfig).
Context (score_mul : Score -> Score -> Score) (torch_max : list Score -> Score * Z) (torch_topk : list Score -> Z -> list (Score * Z))
  (lt : Score -> Score -> Prop) (prob : Score -> Prop).
Context (draft_runner : Z -> list Z -> list Z -> list Z -> list H -> list (list Score) * list H)
  (extend_runner : list Z -> list Z -> list Z -> list Z -> list Z -> list Z -> list H -> list (list Score) * list H)
  (hot_token_id : option (list Z)) (kernel : tree_kernel) (model : list Z -> Z) (target : list (VerifyReq G) -> list Z -> list Z * list H).
Context (steps : Z) (strict_check : bool).

Abbreviation serve_round := (serve_round (G := G) (H := H) (Score := Score) (T := T) (A := A) tokenizer re_search think_end_id oob undef torch_empty np2 order is_hip attn_backend
  score_mul torch_max torch_topk draft_runner extend_runner hot_token_id kernel target 1 steps (steps + 1) strict_check).
Abbreviation seated_batch := (seated_batch (G := G) (H := H) (Score := Score) tokenizer hot_token_id steps).
Abbreviation state_ok := (state_ok (G := G) (H := H) (Score := Score) (T := T) (A := A) tokenizer hot_token_id steps).
Abbreviation decoded := (decoded (G := G) tokenizer re_search think_end_id model).

(** Everything outside the repository behaves as documented. *)
Record environment : Prop := {
  en_empty : forall n, 0 <= n -> zlen (torch_empty n) = n;
  en_order : forall n, Permutation (order n) (zrange 0 n);
  en_np2 : forall n, n <= np2 n;
  en_scores : score_laws score_mul torch_max torch_topk lt prob;
  en_draft : runner_ok prob 1 draft_runner hot_token_id;
  en_extend : extend_runner_ok extend_runner hot_token_id 1;
  en_kernel : kernel_agrees kernel;
  en_target : target_model (Z.to_nat (steps + 1)) model target;
}.

(** EAGLE without overlap, with [steps + 1] draft tokens. *)
Record eagle_config : Prop := {
  ec_steps : 1 <= steps;
  ec_algorithm : algo_is_none (dc_spec cfg) = false;
  ec_v1 : is_spec_v2 cfg = Ok false;
  ec_tokens : dc_speculative_num_draft_tokens cfg = Some (steps + 1);
}.

Context (Henv : environment) (Hcfg : eagle_config).

(** One request: its new tokens, and its state when it goes on. *)
Lemma round_request ps pool held seed (batch : VerifyBatch G) v i r r' c : seated_batch ps pool held seed batch ->
  let n := Z.to_nat (steps + 1) in let toks := ev_draft_token v in let tg := (target (vb_reqs batch) toks).1 in
  length toks = (length (vb_reqs batch) * n)%nat -> (forall i x, sd_verified_id seed !! i = Some x -> row (steps + 1) toks (Z.of_nat i) !! 0%nat = Some x) ->
  vb_reqs batch !! i = Some r -> served tokenizer re_search think_end_id n v tg i r r' c ->
  decoded 1 r r' /\ (finished (vr_finish r') = false -> exists y len, last (take c (row (Z.of_nat n) tg (Z.of_nat i))) = Some y
    /\ vb_seq_lens batch !! i = Some len /\ running_req tokenizer steps (max_context_len pool) y (len + Z.of_nat c) r').
Proof.
  intros [Hseed _ Hl _ _ Hrun _] n toks tg Ltok Hfirst Er Hsv. pose proof Hseed as [_ Hv _ _ _]. destruct Henv as [_ _ _ _ _ _ _ [Hshape Hgreedy]]. fold n in Hshape, Hgreedy.
  pose proof (ec_steps Hcfg) as Hst. assert (steps + 1 = Z.of_nat n) as En by lia. pose proof (lookup_lt_Some _ _ _ Er) as Hi.
  destruct (lookup_lt_is_Some_2 (vb_seq_lens batch) i) as [len El]; [lia|]. destruct (lookup_lt_is_Some_2 (sd_verified_id seed) i) as [x Ex]; [lia|].
  pose proof (Hrun i r len x Er El Ex) as Hr. destruct (Hshape (vb_reqs batch) toks Ltok) as [Ltg _]. fold tg in Ltg.
  destruct (served_running tokenizer re_search think_end_id model n v tg i steps (max_context_len pool) x len r r' c) as [Hd Hgo]; try done.
  - apply zlen_row; unfold zlen; nia.
  - apply zlen_row; unfold zlen; fold toks; nia.
  - intros k y Hy. apply (Hgreedy (vb_reqs batch) toks i r k y Ltok Er); [|done]. rewrite <- En, (Hfirst i x Ex). symmetry. exact (rn_last _ _ _ _ _ _ Hr).
  - split; [done|]. intros Hf. destruct (Hgo Hf) as (y & Ey & Hy). eauto.
Qed.

(** The draft extension and the filter after a round. *)
Lemma worker_carries di (batch0 batch : VerifyBatch G) cs toks n : draft_from di batch0 cs toks (vb_reqs batch) -> (1 <= n)%nat -> steps + 1 = Z.of_nat n ->
  let U := unfinished_positions (vb_reqs batch) in let bs := length (vb_reqs batch) in
  length cs = bs -> length toks = bs -> length (vb_seq_lens batch0) = bs -> Forall (fun c => 1 <= c <= n)%nat cs -> Forall (fun row => length row = n) toks ->
  length (vb_req_pool_indices batch) = bs -> length (vb_seq_lens batch) = bs -> length (vb_seq_lens_cpu batch) = bs ->
  exists batch1 seed b, (if 0 <? zlen (di_verified_id di) then
      forward_draft_extend_after_decode oob torch_empty order torch_max torch_topk extend_runner 1 steps di batch
    else Ok (batch, MkDraftSeed [] [] [] [])) = Ok (batch1, seed)
    /\ vb_reqs batch1 = vb_reqs batch /\ filter_round_batch strict_check true batch1 (MkSpecInfo None (Some seed)) = Ok (b, MkSpecInfo None (Some seed))
    /\ vb_reqs b = filter (fun r => finished (vr_finish r) = false) (vb_reqs batch)
    /\ (vb_reqs b <> [] -> vb_req_pool_indices b = select (vb_req_pool_indices batch) U /\ vb_seq_lens b = select (vb_seq_lens batch) U
         /\ vb_seq_lens_cpu b = select (vb_seq_lens_cpu batch) U /\ seeded hot_token_id 1 (length U) (sd_verified_id seed) seed
         /\ forall j i c row, U !! j = Some i -> cs !! i = Some c -> toks !! i = Some row -> sd_verified_id seed !! j = last (take c row)).
Proof.
  intros Hdi Hn En U bs Lc Lt Ll HFc HFt Lr Lg Lcpu. pose proof Hdi as (Hver & _). fold U in Hver.
  destruct (Z.ltb_spec 0 (zlen (di_verified_id di))) as [Hpos|Hz].
  - destruct (extend_after_decode_ok oob torch_empty order (en_empty Henv) (en_order Henv) score_mul torch_max torch_topk lt prob (en_scores Henv) extend_runner
      hot_token_id 1 steps ltac:(lia) n di batch0 batch cs toks (vb_reqs batch) (en_extend Henv)) as (verified & seed & E & Hseed & Hlast); try done.
    fold U in Hseed, Hlast. eexists _, seed. set (batch1 := MkVerifyBatch _ _ _ _ _ _) in E.
    destruct (filter_round_ok strict_check true batch1 seed hot_token_id 1 verified Hseed) as (b & seed' & Ef & Eb & Hsd & Hb); try done.
    pose proof Hseed as [Ev _ _ _ _]. exists b. split; [exact E|]. split; [done|]. rewrite (Hsd eq_refl) in Ef.
    split_and!; try done. intros Hne. destruct (Hb Hne) as (B1 & B2 & B3 & _). rewrite Ev. by split_and!.
  - assert (U = []) as EU.
    { destruct U as [|i U'] eqn:EU; [done|]. exfalso. assert (i ∈ unfinished_positions (vb_reqs batch)) as Hi by (fold U; rewrite EU; by left).
      pose proof (unfinished_valid (vb_reqs batch)) as HU. pose proof (proj1 (Forall_forall _ _) HU i Hi) as Hib. cbv beta in Hib. fold bs in Hib.
      destruct (lookup_lt_is_Some_2 cs i) as [c Ec]; [lia|]. destruct (lookup_lt_is_Some_2 toks i) as [row Er]; [lia|].
      rewrite Hver, (select_cons _ i U' (take c row)) in Hz by (rewrite lookup_zip_with, Ec; simpl; by rewrite Er).
      pose proof (proj1 (Forall_lookup _ _) HFc i c Ec) as Hc. pose proof (proj1 (Forall_lookup _ _) HFt i row Er) as Hr. cbv beta in Hc, Hr.
      cbn [concat] in Hz. rewrite zlen_app in Hz. pose proof (zlen_nonneg (concat (select (zip_with take cs toks) U'))). unfold zlen in *. rewrite length_take in Hz. lia. }
    assert (filter (fun r => finished (vr_finish r) = false) (vb_reqs batch) = []) as Enil by (rewrite <- unfinished_select; fold U; by rewrite EU).
    eexists batch, _, _. split_and!; [done|done|unfold filter_round_batch; fold U; rewrite EU; done|by rewrite Enil|done].
Qed.

(** A round: it returns, every request decodes at least one token, and the state is in order
    again. *)
Lemma serve_round_ok s g held seed : memory_ok g held s -> ss_info s = MkSpecInfo None (Some seed) ->
  seated_batch (tc_page_size (ss_cache s)) (ss_pool s) held seed (ss_batch s) -> fits cfg (ss_alloc s) (map vr_req (vb_reqs (ss_batch s))) ->
  exists rs s', serve_round s = Ok (s', filter (fun r => finished (vr_finish r) = true) rs) /\ Forall2 (decoded 1) (vb_reqs (ss_batch s)) rs
    /\ vb_reqs (ss_batch s') = filter (fun r => finished (vr_finish r) = false) rs /\ state_ok s'.
Proof.
  intros (Htab & Hsync & Hw) Einfo Hbatch Hfits. destruct s as [batch info t a pool]. cbn [ss_batch ss_info ss_cache ss_alloc ss_pool] in *. subst info.
  pose proof Hcfg as [Hst Halg Hv1 Hnum]. pose proof Hbatch as [Hseed Lr Ll Lcpu Hnd _ _].
  pose proof (batch_start tokenizer hot_token_id steps t g a pool held seed batch Hst Htab Hsync Hbatch) as Hstart.
  destruct (decode_round_run tokenizer re_search think_end_id oob undef torch_empty np2 order is_hip attn_backend cfg score_mul torch_max torch_topk lt prob draft_runner
    hot_token_id kernel (fun b => target (vb_reqs b) (vb_input_ids b)) (target (vb_reqs batch)) steps seed batch t g a pool held)
    as (v & out & reqs & cs & loc & t' & g' & a' & pool1 & tab & acc & kept & E & Ltok & Hfirst & Lreq & Lcs & Hserved & Hdi & Hs & Hpt & Htab' & Hmax & Ltab & Hent & Hpl & Hkz & Hwr);
    try done; try apply Henv.
  set (n := Z.to_nat (steps + 1)) in *. assert (steps + 1 = Z.of_nat n) as En by lia. set (toks := ev_draft_token v) in *. set (tg := (target (vb_reqs batch) toks).1) in *.
  destruct (target_rows_ok n (length (vb_reqs batch)) tg) as (Lrow & HFrow & Hrow); [destruct (tm_shape _ _ _ (en_target Henv) (vb_reqs batch) toks Ltok) as [Ltg _]; fold tg in Ltg; lia|].
  assert (Forall (fun c => 1 <= c <= n)%nat cs) as HFc.
  { apply Forall_lookup. intros i c Ec. destruct (lookup_lt_is_Some_2 (vb_reqs batch) i) as [r Er]; [apply lookup_lt_Some in Ec; lia|].
    destruct (Hserved i r Er) as (r' & c' & _ & Ec' & (x & hit & _ & H1 & H2 & _)). assert (c' = c) as -> by congruence. lia. }
  assert (length (grown (vb_seq_lens batch) cs) = length reqs) as Lg by (rewrite length_grown; lia).
  destruct (worker_carries (vo_draft_input out) batch (MkVerifyBatch reqs (vb_req_pool_indices batch) (grown (vb_seq_lens batch) cs) (grown (vb_seq_lens_cpu batch) cs) toks loc)
    cs (target_rows n (length (vb_reqs batch)) tg) n) as (batch1 & seed' & b & Eext & Er1 & Ef & Eb & Hb); cbn [vb_reqs vb_req_pool_indices vb_seq_lens vb_seq_lens_cpu] in *;
    try done; try lia; [rewrite length_grown; lia|].
  exists reqs, (MkServe b (MkSpecInfo None (Some seed')) t' a' (set_table pool1 tab)). split_and!.
  - unfold EagleServe.serve_round. cbn [ss_info si_tensors ss_batch ss_cache ss_alloc ss_pool]. unfold worker_round. rewrite E. cbn [res_bind].
    destruct (0 <? _); [rewrite Eext|injection Eext as <- <-]; cbn [res_bind]; [rewrite Ef, Er1|rewrite Ef]; done.
  - apply Forall2_same_length_lookup. split; [lia|]. intros i r r' Er Er'. destruct (Hserved i r Er) as (r2 & c & Er2 & _ & Hsv). assert (r2 = r') as -> by congruence.
    by destruct (round_request (tc_page_size t) pool held seed batch v i r r' c Hbatch Ltok Hfirst Er Hsv).
  - exact Eb.
  - exists g', (kept ++ held). cbn [ss_batch ss_info ss_cache ss_alloc ss_pool]. assert (1 <= tc_page_size t) as Hps by (destruct Hsync as (Hok & _); exact (tc_page_size_pos t g Hok)).
    split.
    { split_and!; cbn; try done. rewrite Hpt. apply whole_app; [exact (placement_whole _ _ _ _ _ _ Hps Hpl)|done]. }
    destruct (decide (vb_reqs b = [])) as [Enil|Hne]; [by left|right]. exists seed'. split; [done|]. destruct (Hb Hne) as (B1 & B2 & B3 & B4 & B5). rewrite Hpt.
    apply (next_batch tokenizer hot_token_id steps (tc_page_size t) n pool1 tab held kept (vb_req_pool_indices batch) (vb_seq_lens batch) cs acc reqs); try done; try lia.
    + destruct Hs as (_ & Hown & _). apply (kv_int32 a') in Hown. rewrite Forall_app in Hown. apply Hown.
    + intros j i r' e Ej Er' Ee. pose proof Ee as (len & c & El & Ec & ->)%grown_lookup. destruct (lookup_lt_is_Some_2 (vb_reqs batch) i) as [r Er]; [apply lookup_lt_Some in El; lia|].
      destruct (Hserved i r Er) as (r2 & c2 & Er2 & Ec2 & Hsv). assert (r2 = r') as -> by congruence. assert (c2 = c) as -> by congruence.
      destruct (round_request (tc_page_size t) pool held seed batch v i r r' c Hbatch Ltok Hfirst Er Hsv) as [_ Hgo].
      destruct (unfinished_lookup reqs j i Ej) as (r3 & Er3 & Hun). assert (r3 = r') as -> by congruence. destruct (Hgo Hun) as (y & len2 & Ey & El2 & Hrn).
      assert (len2 = len) as -> by congruence. exists y. rewrite Hmax. split; [|done]. rewrite <- Ey. apply (B5 j i c); [done|done|]. apply Hrow. by apply lookup_lt_Some in Er.
    + rewrite B3, length_select; [done|]. eapply valid_length; [|apply unfinished_valid]. rewrite length_grown; lia.
Qed.

(** ** Joining *)

(** A prefilled batch can join: its requests and the running ones hold different rows. *)
Definition joinable (s : serve_state G H Score T A) (last_batch : VerifyBatch G) (seed : draft_seed Score H) : Prop :=
  exists g held, let ps := tc_page_size (ss_cache s) in memory_ok g held s
    /\ batch_or_empty tokenizer hot_token_id steps ps (ss_pool s) held (ss_info s) (ss_batch s)
    /\ arrived tokenizer hot_token_id steps ps (ss_pool s) held seed last_batch
    /\ (vb_reqs (ss_batch s) <> [] -> NoDup (vb_req_pool_indices (ss_batch s) ++ vb_req_pool_indices last_batch)).

Lemma serve_join_ok s last_batch seed : joinable s last_batch seed ->
  exists s', serve_join strict_check s last_batch (MkSpecInfo None (Some seed)) = Ok s' /\ state_ok s'
    /\ vb_reqs (ss_batch s') = vb_reqs (ss_batch s) ++ filter (fun r => finished (vr_finish r) = false) (vb_reqs last_batch).
Proof.
  intros (g & held & Hm & Hb & Ha & Hnd). destruct (arrived_filter tokenizer hot_token_id steps strict_check _ _ held seed last_batch Ha) as (b & info & Ef & Eb & Hf).
  unfold serve_join. rewrite Ef. cbn [res_bind]. rewrite <- Eb. destruct Hf as [Enil|(Erows & seed' & -> & Hs)].
  { rewrite Enil, app_nil_r. exists s. split_and!; [done|by exists g, held|done]. }
  destruct (Nat.eqb_spec (length (vb_reqs b)) 0) as [E0|_].
  { apply nil_length_inv in E0. rewrite E0, app_nil_r. exists s. split_and!; [done|by exists g, held|done]. }
  destruct (Nat.eqb_spec (length (vb_reqs (ss_batch s))) 0) as [E1|E1].
  { apply nil_length_inv in E1. rewrite E1. eexists. split_and!; [done| |done]. exists g, held. split; [exact Hm|]. right. by exists seed'. }
  assert (vb_reqs (ss_batch s) <> []) as Hne by (intros E; by rewrite E in E1). destruct Hb as [E|(seed0 & Einfo & Hs0)]; [done|].
  destruct (merge_seated tokenizer hot_token_id steps _ _ held seed0 seed' (ss_batch s) b Hs0 Hs) as (b' & seed'' & Em & Er & Hs').
  { rewrite Erows. pose proof (Hnd Hne) as (N1 & N2 & N3)%NoDup_app. apply NoDup_app. split_and!; [done| |].
    - intros x Hx Hin. apply (N2 x Hx). apply list_elem_of_omap in Hin as (i & _ & Hi). by eapply list_elem_of_lookup_2.
    - rewrite <- Erows. exact (bo_nodup _ _ _ _ _ _ _ _ Hs). }
  rewrite Einfo, Em. cbn [res_bind]. eexists. split_and!; [done| |done]. exists g, held. split; [exact Hm|]. right. by exists seed''.
Qed.

(** ** Runs of the server *)

(** [serves n joined left s]: after [n] rounds the state is [s]; [joined] are the requests
    that joined, with the round, and [left] are those that have left.  A round runs only on a batch
    that passed the memory check, and an empty batch waits; between rounds, prefills and other work change the memory
    and prefilled batches join. *)
Inductive serves : nat -> list (nat * VerifyReq G) -> list (VerifyReq G) -> serve_state G H Score T A -> Prop :=
  | serves_start s : state_ok s -> vb_reqs (ss_batch s) = [] -> serves 0 [] [] s
  | serves_round n joined left s s' more : serves n joined left s -> vb_reqs (ss_batch s) <> [] ->
      fits cfg (ss_alloc s) (map vr_req (vb_reqs (ss_batch s))) -> serve_round s = Ok (s', more) -> serves (S n) joined (left ++ more) s'
  | serves_idle n joined left s : serves n joined left s -> vb_reqs (ss_batch s) = [] -> serves (S n) joined left s
  | serves_memory n joined left s s' : serves n joined left s -> state_ok s' -> ss_batch s' = ss_batch s -> ss_info s' = ss_info s ->
      serves n joined left s'
  | serves_join n joined left s s' last_batch seed : serves n joined left s -> joinable s last_batch seed ->
      serve_join strict_check s last_batch (MkSpecInfo None (Some seed)) = Ok s' ->
      serves n (joined ++ map (pair n) (filter (fun r => finished (vr_finish r) = false) (vb_reqs last_batch))) left s'.

(** A request that joined, and what it is after [n] rounds. *)
Definition tracked (n : nat) (p : nat * VerifyReq G) (r' : VerifyReq G) : Prop :=
  (p.1 <= n)%nat /\ serveable tokenizer p.2 /\ decoded (if finished (vr_finish r') then 0 else n - p.1) p.2 r'.

Lemma state_running s r : state_ok s -> r ∈ vb_reqs (ss_batch s) -> exists v len, running_req tokenizer steps (max_context_len (ss_pool s)) v len r.
Proof.
  intros (g & held & _ & [E|(seed & _ & Hb)]) Hr; [rewrite E in Hr; by apply elem_of_nil in Hr|]. apply list_elem_of_lookup in Hr as (i & Er).
  pose proof (lookup_lt_Some _ _ _ Er). pose proof Hb as [[_ Lv _ _ _] _ Ll _ _ Hrun _]. destruct (lookup_lt_is_Some_2 (vb_seq_lens (ss_batch s)) i) as [len El]; [lia|].
  destruct (lookup_lt_is_Some_2 (sd_verified_id seed) i) as [v Ev]; [lia|]. exists v, len. by apply (Hrun i).
Qed.

Lemma tracked_round n l reqs rs : Forall2 (tracked n) l reqs -> Forall2 (decoded 1) reqs rs -> Forall (fun r => finished (vr_finish r) = false) reqs ->
  Forall2 (tracked (S n)) l rs.
Proof.
  intros Ht. revert rs. induction Ht as [|p r l reqs (Hp & Hs & Hd) _ IH]; intros rs HF Hu; inversion HF as [|? r' ? rs' Hr HF']; subst; [done|].
  apply Forall_cons in Hu as [Hu Hus]. constructor; [|by apply IH]. rewrite Hu in Hd. split_and!; [lia|done|].
  pose proof (decoded_trans _ _ _ _ _ _ _ _ _ Hd Hu Hr) as (k & r1 & c & Hk & Htx & Hle). exists k, r1, c. split_and!; try done. destruct (finished (vr_finish r')); lia.
Qed.

Lemma tracked_left n l left : Forall (fun r => finished (vr_finish r) = true) left -> Forall2 (tracked n) l left -> Forall2 (tracked (S n)) l left.
Proof.
  intros Hf HF. induction HF as [|p r l left (Hp & Hs & Hd) _ IH]; [done|]. apply Forall_cons in Hf as [Hf Hfs]. constructor; [|by apply IH].
  split_and!; [lia|done|]. by rewrite Hf in *.
Qed.

Lemma Forall2_rearrange {X Y} (P : X -> Y -> Prop) l k k' : Forall2 P l k -> Permutation k k' -> exists l', Permutation l l' /\ Forall2 P l' k'.
Proof. intros HF Hp. apply Forall2_flip in HF. destruct (Permutation_Forall2 Hp HF) as (l' & H1 & H2). exists l'. split; [done|]. by apply Forall2_flip. Qed.

(** The invariant of every run. *)
Lemma serves_inv n joined left s : serves n joined left s ->
  state_ok s /\ Forall (fun r => finished (vr_finish r) = true) left
  /\ exists l, Permutation l joined /\ Forall2 (tracked n) l (left ++ vb_reqs (ss_batch s)).
Proof.
  induction 1 as [s Hs E|n joined left s s' more _ (Hs & Hf & l & Hl & HF) Hne Hfit Hr|n joined left s _ (Hs & Hf & l & Hl & HF) E|n joined left s s' _ (Hs & Hf & l & Hl & HF) Hs' Eb _
    |n joined left s s' lb seed _ (Hs & Hf & l & Hl & HF) Hj Ej].
  - split_and!; [done|done|]. exists []. rewrite E. by split.
  - assert (Forall (fun r => finished (vr_finish r) = false) (vb_reqs (ss_batch s))) as Hun.
    { apply Forall_forall. intros r Hin. destruct (state_running s r Hs Hin) as (v & len & Hrn). exact (rn_unfinished _ _ _ _ _ _ Hrn). }
    destruct Hs as (g & held & Hm & [E|(seed & Einfo & Hb)]); [done|]. destruct (serve_round_ok s g held seed Hm Einfo Hb Hfit) as (rs & s2 & E2 & Hd & Er & Hok).
    rewrite Hr in E2. injection E2 as <- ->. apply Forall2_app_inv_r in HF as (l1 & l2 & HF1 & HF2 & ->). split; [done|]. split.
    { apply Forall_app. split; [done|]. apply Forall_forall. by intros r [Hfin _]%list_elem_of_filter. }
    destruct (Forall2_rearrange (tracked (S n)) l2 rs (filter (fun r => finished (vr_finish r) = true) rs ++ filter (fun r => finished (vr_finish r) = false) rs)) as (l3 & Hp & HF3).
    { by eapply tracked_round. } { symmetry. apply finished_split. }
    exists (l1 ++ l3). split; [by rewrite <- Hl, Hp|]. rewrite Er, <- app_assoc. apply Forall2_app; [|done]. by apply tracked_left.
  - split_and!; [done|done|]. exists l. rewrite E, app_nil_r in *. split; [done|]. by apply tracked_left.
  - split_and!; [done|done|]. exists l. by rewrite Eb.
  - destruct (serve_join_ok s lb seed Hj) as (s2 & E2 & Hok & Er). rewrite Ej in E2. injection E2 as <-. split_and!; [done|done|].
    eexists (l ++ map (pair n) (filter (fun r => finished (vr_finish r) = false) (vb_reqs lb))). split; [by rewrite Hl|]. rewrite Er, app_assoc. apply Forall2_app; [done|].
    apply Forall2_fmap_l. apply Forall_Forall2_diag, Forall_forall. intros r Hin. assert (r ∈ vb_reqs (ss_batch s')) as Hin' by (rewrite Er; apply elem_of_app; by right).
    destruct (state_running s' r Hok Hin') as (v & len & Hrn). apply list_elem_of_filter in Hin as [Hfin _]. split_and!; [done|exact (rn_serveable _ _ _ _ _ _ Hrn)|].
    rewrite Hfin. cbn. rewrite Nat.sub_diag. by apply decoded_refl.
Qed.

(** A request that is still running has got a token in every round. *)
Lemma tracked_len n p r' : tracked n p r' -> finished (vr_finish r') = false ->
  zlen (output_ids (sr_req (vr_req p.2))) + Z.of_nat (n - p.1) <= zlen (output_ids (sr_req (vr_req r'))) /\ fs_params (vr_finish r') = fs_params (vr_finish p.2).
Proof.
  intros (Hp & Hs & (k & r1 & c & Hd & Htx & Hle)) Hf. rewrite Hf in *.
  destruct (greedy_decode_len tokenizer re_search think_end_id model k _ _ _ Hs Hd) as [H1 H2]. rewrite (tx_output _ _ Htx), (tx_finish _ _ Htx), H1. split; [lia|done].
Qed.


End Rounds.

(** *** Sample: one request of limit 5 joins with two tokens; its first draft is right, the
    others are wrong. *)

#[local] Instance npu7 : KVAllocator allocator := npu_allocator (fun i => i) 0 zero_fill zero_fill_len.
#[local] Instance backup7 : KVBackup allocator := npu_backup (fun i => i) 0 zero_fill zero_fill_len.
#[local] Instance chunk7 : BasePrefixCache ChunkCache allocator npu_pool := chunk_prefix_cache false npu_pool.

Definition serve_req : VerifyReq Empty_set := MkVerifyReq req_a (ex_finish 5) None false false 0 0 [].
Definition serve_last : VerifyBatch Empty_set := MkVerifyBatch [serve_req] [1] [2] [2] [7] [].
Definition serve_seed : draft_seed Z unit := MkDraftSeed [9] [[-1]] [[10]] [tt].
Definition serve_empty : serve_state Empty_set unit Z ChunkCache allocator :=
  MkServe (MkVerifyBatch [] [] [] [] [] []) (MkSpecInfo None None) (MkChunkCache 2) draft_pool draft_rows.
Definition zero_extend (ids pos lens rows loc ext : list Z) (h : list unit) : list (list Z) * list unit := (map (fun _ => [-1; -2]) lens, map (fun _ => tt) lens).
Definition count_target (reqs : list (VerifyReq Empty_set)) (toks : list Z) : list Z * list unit := (map (fun t => t + 1) toks, map (fun _ => tt) toks).

Abbreviation sample_serve_round := (serve_round (Gram := no_grammar) None (fun _ _ => false) None (fun i => i) 0 zero_fill next_power_of_2 (fun n => zrange 0 n) false "ascend"
  Z.add sample_max sample_topk zero_runner zero_extend None native_kernel count_target 1 2 3 true).
Abbreviation sample_serves := (serves (Gram := no_grammar) (Backup := backup7) (Cache := chunk7) None (fun _ _ => false) None (fun i => i) 0 zero_fill next_power_of_2
  (fun n => zrange 0 n) false "ascend" round_cfg Z.add sample_max sample_topk zero_runner zero_extend None native_kernel count_target 2 true).

Definition next_state (s : serve_state Empty_set unit Z ChunkCache allocator) : serve_state Empty_set unit Z ChunkCache allocator * list (VerifyReq Empty_set) :=
  match sample_serve_round s with Ok p => p | Raise _ => (s, []) end.
Definition serve_first : serve_state Empty_set unit Z ChunkCache allocator :=
  match serve_join true serve_empty serve_last (MkSpecInfo None (Some serve_seed)) with Ok s => s | Raise _ => serve_empty end.
Definition serve_second := Eval vm_compute in (next_state serve_first).1.
Definition serve_third := Eval vm_compute in (next_state serve_second).

Lemma zero_extend_ok : extend_runner_ok zero_extend None 1.
Proof.
  intros ids pos lens rows loc ext h. unfold zero_extend. rewrite !length_map. split_and!; try done. apply List.Forall_map, Forall_forall. intros x _. by split.
Qed.

(** The choice after a text depends on its last token. *)
Lemma count_target_model : target_model 3 count_model count_target.
Proof.
  split; cbn.
  - intros reqs toks Hl. rewrite !length_map. lia.
  - intros reqs toks i r k x Hl Er H0 Hx. set (rw := row (Z.of_nat 3) toks (Z.of_nat i)) in *.
    assert (exists y, rw !! k = Some y /\ x = y + 1) as (y & Hy & ->).
    { unfold rw, row in *. rewrite <- fmap_drop, <- fmap_take, list_lookup_fmap in Hx. destruct (take _ _ !! k) as [y|]; [|done]. injection Hx as <-. eauto. }
    unfold count_model. rewrite app_assoc, last_app, last_app. destruct k as [|k].
    + rewrite H0 in Hy. cbn [take last]. by rewrite Hy.
    + destruct rw as [|z rw]; [done|]. cbn in Hy |- *. assert (last (take (S k) (drop 0 rw)) = Some y) as ->; [|done].
      rewrite drop_0, last_lookup, length_take. pose proof (lookup_lt_Some _ _ _ Hy). rewrite Nat.min_l by lia. by rewrite lookup_take_lt by (simpl; lia).
Qed.

Lemma sample_environment : environment (fun n => zero_fill n) next_power_of_2 (fun n => zrange 0 n) Z.add sample_max sample_topk Z.lt (fun p => p < 0) zero_runner zero_extend
  None native_kernel count_model count_target 2.
Proof.
  split; [exact zero_fill_len|by intros n|exact next_power_of_2_ge|exact sample_laws|exact zero_runner_ok|exact zero_extend_ok|exact native_kernel_agrees|exact count_target_model].
Qed.

Lemma sample_config : eagle_config round_cfg 2.
Proof. by split. Qed.

Lemma sample_memory : memory_ok (Cache := chunk7) tt [2; 3] serve_empty.
Proof.
  split_and!; [by split; repeat constructor| |].
  - split_and!; [simpl; lia| |done]. split_and!; [|done|done]. exists [1]. split_and!; try done. vm_compute. symmetry. apply (Permutation_cons_append [2; 3; 4] 1).
  - change [2; 3] with (expand_pages 2 [1]). by apply whole_expand.
Qed.

Lemma sample_arrived : arrived None None 2 2 draft_rows [2; 3] serve_seed serve_last.
Proof.
  split; try done; [split; cbn; try done; split; try done; by repeat constructor|apply NoDup_singleton|]. intros [|i] r row len v Er _ Eq El Ev; [|done].
  injection Er as <-. injection Eq as <-. injection El as <-. injection Ev as <-. split.
  - split; try done; cbn; lia.
  - split_and!; cbn; try done; lia.
Qed.

Lemma sample_joins : joinable (Cache := chunk7) None None 2 serve_empty serve_last serve_seed.
Proof. exists tt, [2; 3]. split_and!; [exact sample_memory|by left|exact sample_arrived|done]. Qed.

Lemma sample_starts : sample_serves 0 [(0%nat, serve_req)] [] serve_first.
Proof.
  eapply (serves_join _ _ _ _ _ _ _ _ _ _ _ _ _ _ _ _ _ _ _ _ _ 0 [] [] serve_empty serve_first serve_last serve_seed); [|exact sample_joins|vm_compute; reflexivity].
  apply serves_start; [|done]. exists tt, [2; 3]. split; [exact sample_memory|by left].
Qed.

(** The request gets 10 and 11 in the first round and 12 in the second, and leaves. *)
Lemma sample_run_serves : sample_serves 3 [(0%nat, serve_req)] serve_third.2 serve_third.1.
Proof.
  apply serves_idle; [|reflexivity]. eapply (serves_round _ _ _ _ _ _ _ _ _ _ _ _ _ _ _ _ _ _ _ _ _ 1 _ [] serve_second serve_third.1 serve_third.2).
  - eapply (serves_round _ _ _ _ _ _ _ _ _ _ _ _ _ _ _ _ _ _ _ _ _ 0 _ [] serve_first serve_second []); [exact sample_starts|done| |vm_compute; reflexivity].
    eexists. split; [vm_compute; reflexivity|]. vm_compute. discriminate.
  - done.
  - eexists. split; [vm_compute; reflexivity|]. vm_compute. discriminate.
  - vm_compute. reflexivity.
Qed.

Lemma sample_run_tokens : map (fun r => output_ids (sr_req (vr_req r))) serve_third.2 = [[8; 9; 10; 11; 12]] /\ vb_reqs (ss_batch serve_third.1) = [].
Proof. by split. Qed.


