(* ===== verification/SpecArgs.v ===== *)
(** The server arguments of speculative decoding: [_handle_speculative_decoding],
    [_resolve_speculative_algorithm_alias] and [auto_choose_speculative_params] of
    [server_args.py].

    The handler runs once, after the page size and the attention backend are chosen.  The
    arguments it assigns are the fields of [SpecArgs]; those it only reads are in [SpecOpts].
    The configurations of models, [json.loads] and the environment are parameters.  Log
    messages are left out. *)

From S2P Require Export SpecInfo.

Record SpecOpts : Type := MkSpecOpts {
  model_path : string;
  revision : option string;
  trust_remote_code : bool;
  json_model_override_args : string;
  moe_runner_backend : string;
  pp_size : Z;
  page_size_arg : option Z;
  device : string;
  attention_backend : option string;
  decode_attention_backend : option string;
  prefill_attention_backend : option string;
  speculative_skip_dp_mlp_sync : bool;
  speculative_dflash_block_size : option Z;
  speculative_dflash_draft_window_size : option Z;
  speculative_ngram_max_bfs_breadth : Z;
  speculative_ngram_external_corpus_path : option string;
  speculative_ngram_external_sam_budget : Z;
  speculative_ngram_external_corpus_max_tokens : Z
}.

Record SpecArgs : Type := MkSpecArgs {
  sa_args : ServerArgs;
  speculative_draft_model_path : option string;
  speculative_draft_model_revision : option string;
  speculative_moe_runner_backend : option string;
  speculative_num_steps : option Z;
  speculative_num_draft_tokens : option Z;
  max_running_requests : option Z;
  enable_mixed_chunk : bool;
  speculative_adaptive : bool
}.

(** *** Assignments *)

Definition set_algorithm (v : option string) (s : ServerArgs) : ServerArgs :=
  MkServerArgs v (speculative_eagle_topk s) (enable_dp_attention s) (disable_overlap_schedule s) (enable_multi_layer_eagle s)
    (enable_two_batch_overlap s) (enable_pdmux s).
Definition set_eagle_topk (v : option Z) (s : ServerArgs) : ServerArgs :=
  MkServerArgs (speculative_algorithm s) v (enable_dp_attention s) (disable_overlap_schedule s) (enable_multi_layer_eagle s)
    (enable_two_batch_overlap s) (enable_pdmux s).
Definition set_disable_overlap (v : bool) (s : ServerArgs) : ServerArgs :=
  MkServerArgs (speculative_algorithm s) (speculative_eagle_topk s) (enable_dp_attention s) v (enable_multi_layer_eagle s)
    (enable_two_batch_overlap s) (enable_pdmux s).

Definition on_args (f : ServerArgs -> ServerArgs) (s : SpecArgs) : SpecArgs :=
  MkSpecArgs (f (sa_args s)) (speculative_draft_model_path s) (speculative_draft_model_revision s) (speculative_moe_runner_backend s)
    (speculative_num_steps s) (speculative_num_draft_tokens s) (max_running_requests s) (enable_mixed_chunk s) (speculative_adaptive s).
Definition set_draft_model (p r : option string) (s : SpecArgs) : SpecArgs :=
  MkSpecArgs (sa_args s) p r (speculative_moe_runner_backend s) (speculative_num_steps s) (speculative_num_draft_tokens s)
    (max_running_requests s) (enable_mixed_chunk s) (speculative_adaptive s).
Definition set_moe_backend (v : option string) (s : SpecArgs) : SpecArgs :=
  MkSpecArgs (sa_args s) (speculative_draft_model_path s) (speculative_draft_model_revision s) v (speculative_num_steps s)
    (speculative_num_draft_tokens s) (max_running_requests s) (enable_mixed_chunk s) (speculative_adaptive s).
Definition set_params (steps tokens : option Z) (s : SpecArgs) : SpecArgs :=
  MkSpecArgs (sa_args s) (speculative_draft_model_path s) (speculative_draft_model_revision s) (speculative_moe_runner_backend s)
    steps tokens (max_running_requests s) (enable_mixed_chunk s) (speculative_adaptive s).
Definition set_scheduling (running : option Z) (mixed : bool) (s : SpecArgs) : SpecArgs :=
  MkSpecArgs (sa_args s) (speculative_draft_model_path s) (speculative_draft_model_revision s) (speculative_moe_runner_backend s)
    (speculative_num_steps s) (speculative_num_draft_tokens s) running mixed (speculative_adaptive s).
Definition set_adaptive (v : bool) (s : SpecArgs) : SpecArgs :=
  MkSpecArgs (sa_args s) (speculative_draft_model_path s) (speculative_draft_model_revision s) (speculative_moe_runner_backend s)
    (speculative_num_steps s) (speculative_num_draft_tokens s) (max_running_requests s) (enable_mixed_chunk s) v.

(** *** Python *)

(** [a > b] for an argument that may be [None] *)
Definition opt_gt (a : option Z) (b : Z) : res bool :=
  match a with Some a => Ok (b <? a) | None => Raise TypeError end.

Definition is_str (a : option string) (s : string) : bool := bool_decide (a = Some s).

Definition raise_if (c : bool) (e : exn) : res unit := if c then Raise e else Ok tt.

(** The members of [MoeRunnerBackend] *)
Definition moe_backends : list string :=
  ["auto"; "deep_gemm"; "triton"; "triton_kernel"; "flashinfer_trtllm"; "flashinfer_trtllm_routed"; "flashinfer_cutlass"; "flashinfer_mxfp4";
   "flashinfer_cutedsl"; "cutlass"; "marlin"; "aiter"]%string.

Section Handler.
(** [architectures] of the draft model's configuration; [architectures[0]] of the model's;
    [json.loads]; the block size that the draft model's configuration names. *)
Context {J : Type} (draft_architectures : string -> bool -> res (list string)) (model_arch : string) (json_loads : string -> res J).
Context (infer_block_size : option string -> bool -> option string -> J -> res (option Z)) (reg : registry) (SGLANG_ENABLE_SPEC_V2 : bool).

Definition _resolve_speculative_algorithm_alias (algorithm draft_path : option string) (trust : bool) : res (option string) :=
  let* is_gemma4_draft :=
    match draft_path with
    | Some p =>
        if String.eqb p "" then Ok false
        else let* archs := draft_architectures p trust in Ok (bool_decide ("Gemma4AssistantForCausalLM"%string ∈ archs))
    | None => Ok false
    end in
  let* _ := raise_if (is_str algorithm "EAGLE3" && is_gemma4_draft) ValueError in
  if is_str algorithm "NEXTN" || is_str algorithm "EAGLE" then
    Ok (Some (if (is_gemma4_draft : bool) then "FROZEN_KV_MTP" else "EAGLE")%string)
  else Ok algorithm.

Definition auto_choose_speculative_params (s : SpecArgs) : Z * Z * Z :=
  if is_str (speculative_algorithm (sa_args s)) "STANDALONE" then (3, 1, 4)
  else if bool_decide (model_arch ∈ ["LlamaForCausalLM"]%string) then (5, 4, 8)
  else if bool_decide (model_arch ∈ ["DeepseekV32ForCausalLM"; "DeepseekV3ForCausalLM"; "DeepseekV2ForCausalLM"; "GptOssForCausalLM"; "Glm4MoeForCausalLM";
    "Glm4MoeLiteForCausalLM"; "GlmMoeDsaForCausalLM"; "BailingMoeForCausalLM"; "BailingMoeV2ForCausalLM"; "BailingMoeV2_5ForCausalLM";
    "MistralLarge3ForCausalLM"; "PixtralForConditionalGeneration"; "MiMoV2ForCausalLM"; "MiMoV2FlashForCausalLM"]%string) then (3, 1, 4)
  else if bool_decide (model_arch ∈ ["Grok1ForCausalLM"; "Grok1VForCausalLM"]%string) then (5, 4, 8)
  else (3, 1, 4).

Context (o : SpecOpts).

(** The part before the algorithms: the draft model's revision, the MoE backend and the name
    of the algorithm. *)
Definition handle_common (s : SpecArgs) : res SpecArgs :=
  let s := match speculative_draft_model_path s, speculative_draft_model_revision s with
           | Some p, None => set_draft_model (Some p) (Some "main"%string) s
           | _, _ => s
           end in
  let* s :=
    match speculative_moe_runner_backend s with
    | None =>
        Ok (set_moe_backend (Some (if bool_decide (moe_runner_backend o ∈ ["flashinfer_trtllm"; "flashinfer_trtllm_routed"]%string)
                                   then "auto"%string else moe_runner_backend o)) s)
    | Some b =>
        let* _ := raise_if (negb (bool_decide (b ∈ moe_backends))) ValueError in
        let* _ := py_assert (negb (String.eqb b "flashinfer_trtllm")) in Ok s
    end in
  let* algorithm := _resolve_speculative_algorithm_alias (option_map py_upper (speculative_algorithm (sa_args s)))
                      (speculative_draft_model_path s) (trust_remote_code o) in
  let s := on_args (set_algorithm algorithm) s in
  let* _ :=
    match algorithm with
    | None => Ok tt
    | Some _ =>
        let* algo := from_string reg algorithm in
        match algo with
        | Custom c => match validate_server_args c with Some f => f (sa_args s) | None => Ok tt end
        | Builtin _ => Ok tt
        end
    end in
  let* _ := if speculative_skip_dp_mlp_sync o then py_assert (is_str algorithm "EAGLE") else Ok tt in
  Ok s.

Definition default_running (s : SpecArgs) : option Z := match max_running_requests s with None => Some 48 | r => r end.

Definition handle_dflash (s : SpecArgs) : res SpecArgs :=
  let* _ := raise_if (enable_dp_attention (sa_args s)) ValueError in
  let* _ := raise_if (negb (pp_size o =? 1)) ValueError in
  let* _ := raise_if (match speculative_draft_model_path s with None => true | _ => false end) ValueError in
  let s := on_args (set_eagle_topk (Some 1)) (set_params (Some 1) (speculative_num_draft_tokens s) s) in
  let* s :=
    match speculative_dflash_block_size o with
    | None => Ok s
    | Some b =>
        let* _ := raise_if (b <=? 0) ValueError in
        let* _ := raise_if (match speculative_num_draft_tokens s with Some n => negb (n =? b) | None => false end) ValueError in
        Ok (set_params (speculative_num_steps s) (Some b) s)
    end in
  let window_size := speculative_dflash_draft_window_size o in
  let* _ := raise_if (match window_size with Some w => w <=? 0 | None => false end) ValueError in
  let* s :=
    match speculative_num_draft_tokens s with
    | Some _ => Ok s
    | None =>
        let* model_override_args := json_loads (json_model_override_args o) in
        let inferred :=
          match infer_block_size (speculative_draft_model_path s) (trust_remote_code o) (speculative_draft_model_revision s) model_override_args with
          | Ok b => b
          | Raise _ => None
          end in
        Ok (set_params (speculative_num_steps s) (Some (default 16 inferred)) s)
    end in
  let* _ := match window_size, speculative_num_draft_tokens s with
            | Some w, Some n => raise_if (w <? n) ValueError
            | _, _ => Ok tt
            end in
  Ok (on_args (set_disable_overlap true) (set_scheduling (default_running s) false s)).

Definition handle_frozen_kv_mtp (s : SpecArgs) : SpecArgs :=
  on_args (set_disable_overlap true) (set_scheduling (default_running s) false s).

(** The models whose draft model is the model itself. *)
Definition mtp_archs : list string :=
  ["DeepseekV32ForCausalLM"; "DeepseekV3ForCausalLM"; "DeepseekV4ForCausalLM"; "Glm4MoeForCausalLM"; "Glm4MoeLiteForCausalLM"; "GlmMoeDsaForCausalLM";
   "BailingMoeForCausalLM"; "BailingMoeV2ForCausalLM"; "BailingMoeV2_5ForCausalLM"; "MistralLarge3ForCausalLM"; "PixtralForConditionalGeneration";
   "HYV3ForCausalLM"]%string.

(** Spec v1 or spec v2 *)
Definition eagle_overlap (s : SpecArgs) : SpecArgs :=
  if match speculative_eagle_topk (sa_args s) with Some t => 1 <? t | None => false end && negb (disable_overlap_schedule (sa_args s))
  then on_args (set_disable_overlap true) s
  else if negb SGLANG_ENABLE_SPEC_V2 && negb (disable_overlap_schedule (sa_args s)) then on_args (set_disable_overlap true) s
  else s.

Definition mtp_draft_model (s : SpecArgs) : SpecArgs :=
  if bool_decide (model_arch ∈ mtp_archs) && match speculative_draft_model_path s with None => true | _ => false end
  then set_draft_model (Some (model_path o)) (revision o) s else s.

Definition handle_eagle (s : SpecArgs) : res SpecArgs :=
  let* _ := raise_if (is_str (speculative_algorithm (sa_args s)) "STANDALONE" && enable_dp_attention (sa_args s)) ValueError in
  let s := eagle_overlap (set_scheduling (default_running s) (enable_mixed_chunk s) s) in
  let s := mtp_draft_model (set_scheduling (max_running_requests s) false s) in
  let* s :=
    match speculative_num_steps s with
    | Some _ => Ok s
    | None =>
        let* _ := py_assert (bool_decide (speculative_eagle_topk (sa_args s) = None) && bool_decide (speculative_num_draft_tokens s = None)) in
        let '(steps, topk, tokens) := auto_choose_speculative_params s in
        Ok (on_args (set_eagle_topk (Some topk)) (set_params (Some steps) (Some tokens) s))
    end in
  let* _ :=
    if is_str (attention_backend o) "trtllm_mha" || is_str (decode_attention_backend o) "trtllm_mha" || is_str (prefill_attention_backend o) "trtllm_mha"
    then let* gt := opt_gt (speculative_eagle_topk (sa_args s)) 1 in raise_if gt ValueError
    else Ok tt in
  let s := match speculative_eagle_topk (sa_args s), speculative_num_steps s with
           | Some 1, Some steps =>
               if bool_decide (speculative_num_draft_tokens s = Some (steps + 1)) then s else set_params (Some steps) (Some (steps + 1)) s
           | _, _ => s
           end in
  let* many := opt_gt (speculative_eagle_topk (sa_args s)) 1 in
  let* _ :=
    if (many : bool) then
      let* paged := opt_gt (page_size_arg o) 1 in
      raise_if (paged && negb (is_str (attention_backend o) "flashinfer" || is_str (attention_backend o) "fa3")) ValueError
    else Ok tt in
  Ok s.

Definition handle_ngram (s : SpecArgs) : res SpecArgs :=
  let* _ := raise_if (negb (String.prefix "cuda" (device o))) ValueError in
  let s := on_args (fun a => set_eagle_topk (Some (speculative_ngram_max_bfs_breadth o)) (set_disable_overlap true a)) (set_scheduling (default_running s) false s) in
  let tokens := default 12 (speculative_num_draft_tokens s) in
  let s := set_params (speculative_num_steps s) (Some tokens) s in
  let* _ :=
    match speculative_ngram_external_corpus_path o with
    | None => Ok tt
    | Some _ =>
        let* _ := raise_if (speculative_ngram_external_sam_budget o <=? 0) ValueError in
        let* _ := raise_if (speculative_ngram_external_corpus_max_tokens o <=? 0) ValueError in
        raise_if (tokens - 1 <? speculative_ngram_external_sam_budget o) ValueError
    end in
  let* _ :=
    if 1 <? speculative_ngram_max_bfs_breadth o then
      let* paged := opt_gt (page_size_arg o) 1 in
      raise_if (paged && negb (is_str (attention_backend o) "flashinfer")) ValueError
    else Ok tt in
  let* _ := raise_if (enable_dp_attention (sa_args s)) ValueError in
  Ok s.

Definition handle_adaptive (s : SpecArgs) : SpecArgs :=
  if speculative_adaptive s then
    match adaptive_unsupported_reason (sa_args s) with
    | Some _ => set_adaptive false s
    | None => s
    end
  else s.

Definition _handle_speculative_decoding (s : SpecArgs) : res SpecArgs :=
  let* s := handle_common s in
  let* s := if is_str (speculative_algorithm (sa_args s)) "DFLASH" then handle_dflash s else Ok s in
  let s := if is_str (speculative_algorithm (sa_args s)) "FROZEN_KV_MTP" then handle_frozen_kv_mtp s else s in
  let a := speculative_algorithm (sa_args s) in
  let* s := if is_str a "EAGLE" || is_str a "EAGLE3" || is_str a "STANDALONE" then handle_eagle s else Ok s in
  let* s := if is_str (speculative_algorithm (sa_args s)) "NGRAM" then handle_ngram s else Ok s in
  Ok (handle_adaptive s).
End Handler.

(** ** What the handler leaves *)

Ltac res_inv H :=
  repeat match type of H with
  | res_bind _ _ = Ok _ => apply res_bind_Ok in H as (? & ? & H)
  | Ok _ = Ok _ => injection H as H
  end.

Abbreviation alg s := (speculative_algorithm (sa_args s)).
Abbreviation topk_of s := (speculative_eagle_topk (sa_args s)).
Abbreviation no_overlap s := (disable_overlap_schedule (sa_args s)).

Section Facts.
Context {J : Type} (draft_architectures : string -> bool -> res (list string)) (model_arch : string) (json_loads : string -> res J).
Context (infer_block_size : option string -> bool -> option string -> J -> res (option Z)) (reg : registry) (spec_v2 : bool) (o : SpecOpts).
Abbreviation handle_common := (handle_common draft_architectures reg o).
Abbreviation handle_dflash := (handle_dflash json_loads infer_block_size o).
Abbreviation handle_eagle := (handle_eagle model_arch spec_v2 o).
Abbreviation handle_ngram := (handle_ngram o).
Abbreviation handle := (_handle_speculative_decoding draft_architectures model_arch json_loads infer_block_size reg spec_v2 o).

Lemma alias_upper a p t a' : _resolve_speculative_algorithm_alias draft_architectures (option_map py_upper a) p t = Ok a' -> option_map py_upper a' = a'.
Proof.
  unfold _resolve_speculative_algorithm_alias. intros E. res_inv E. destruct (_ || _); injection E as <-; [by destruct x|].
  destruct a as [a|]; [simpl; by rewrite py_upper_idem|done].
Qed.

(** The first part changes nothing but the names. *)
Lemma handle_common_ok s s' : handle_common s = Ok s' -> option_map py_upper (alg s') = alg s' /\ topk_of s' = topk_of s /\ no_overlap s' = no_overlap s
  /\ enable_dp_attention (sa_args s') = enable_dp_attention (sa_args s)
  /\ speculative_num_steps s' = speculative_num_steps s /\ speculative_num_draft_tokens s' = speculative_num_draft_tokens s.
Proof.
  intros E. unfold SpecArgs.handle_common in E. set (s1 := match speculative_draft_model_path s with Some _ => _ | None => _ end) in E.
  assert (sa_args s1 = sa_args s /\ speculative_num_steps s1 = speculative_num_steps s /\ speculative_num_draft_tokens s1 = speculative_num_draft_tokens s) as (A1 & A2 & A3).
  { unfold s1. by destruct (speculative_draft_model_path s), (speculative_draft_model_revision s). }
  clearbody s1. apply res_bind_Ok in E as (s2 & E2 & E). assert (sa_args s2 = sa_args s1 /\ speculative_num_steps s2 = speculative_num_steps s1
    /\ speculative_num_draft_tokens s2 = speculative_num_draft_tokens s1) as (B1 & B2 & B3).
  { destruct (speculative_moe_runner_backend s1); res_inv E2; by subst s2. }
  apply res_bind_Ok in E as (a & Ea & E). res_inv E. subst s'. cbn. rewrite B1, A1. split_and!; try congruence. by eapply alias_upper.
Qed.

Lemma handle_dflash_ok s s' : handle_dflash s = Ok s' -> no_overlap s' = true /\ alg s' = alg s.
Proof.
  intros E. unfold SpecArgs.handle_dflash in E. do 3 (apply res_bind_Ok in E as (? & _ & E)). set (s1 := on_args _ _) in E. assert (alg s1 = alg s) as H1 by done.
  clearbody s1. apply res_bind_Ok in E as (s2 & E2 & E). assert (alg s2 = alg s1) as H2.
  { destruct (speculative_dflash_block_size o); res_inv E2; by subst s2. }
  apply res_bind_Ok in E as (? & _ & E). apply res_bind_Ok in E as (s3 & E3 & E). assert (alg s3 = alg s2) as H3.
  { destruct (speculative_num_draft_tokens s2); res_inv E3; by subst s3. }
  res_inv E. subst s'. cbn. split; congruence.
Qed.

Lemma handle_ngram_ok s s' : handle_ngram s = Ok s' -> no_overlap s' = true /\ alg s' = alg s.
Proof. intros E. unfold SpecArgs.handle_ngram in E. res_inv E. by subst s'. Qed.

(** The parameters of EAGLE. *)
Record eagle_resolved (s s' : SpecArgs) (steps t : Z) : Prop := {
  er_alg : alg s' = alg s;
  er_steps : speculative_num_steps s' = Some steps;
  er_topk : topk_of s' = Some t;
  er_chain : t = 1 -> speculative_num_draft_tokens s' = Some (steps + 1);
  er_paged : 1 < t -> exists p, page_size_arg o = Some p /\ (p <= 1 \/ attention_backend o = Some "flashinfer"%string \/ attention_backend o = Some "fa3"%string);
  er_trtllm : 1 < t -> attention_backend o <> Some "trtllm_mha"%string /\ decode_attention_backend o <> Some "trtllm_mha"%string
    /\ prefill_attention_backend o <> Some "trtllm_mha"%string;
  er_given : forall st, speculative_num_steps s = Some st -> steps = st /\ topk_of s = Some t /\ (1 < t -> no_overlap s' = true);
  er_auto : speculative_num_steps s = None -> topk_of s = None
    /\ ((steps, t, speculative_num_draft_tokens s') = (5, 4, Some 8) \/ (steps, t, speculative_num_draft_tokens s') = (3, 1, Some 4));
  er_batch : enable_mixed_chunk s' = false /\ max_running_requests s' = default_running s
}.

(** Before the parameters are chosen. *)
Lemma eagle_overlap_ok s : let s1 := eagle_overlap spec_v2 s in alg s1 = alg s /\ topk_of s1 = topk_of s /\ speculative_num_steps s1 = speculative_num_steps s
  /\ speculative_num_draft_tokens s1 = speculative_num_draft_tokens s /\ max_running_requests s1 = max_running_requests s
  /\ forall t, topk_of s = Some t -> 1 < t -> no_overlap s1 = true.
Proof.
  unfold eagle_overlap. destruct (topk_of s) as [t|] eqn:Et; [destruct (Z.ltb_spec 1 t)|]; destruct (no_overlap s) eqn:En; destruct spec_v2;
    cbn; rewrite ?Et, ?En; split_and!; try done; intros t' [= <-]; lia.
Qed.

Lemma mtp_draft_ok s : let s1 := mtp_draft_model model_arch o s in sa_args s1 = sa_args s /\ speculative_num_steps s1 = speculative_num_steps s
  /\ speculative_num_draft_tokens s1 = speculative_num_draft_tokens s /\ max_running_requests s1 = max_running_requests s /\ enable_mixed_chunk s1 = enable_mixed_chunk s.
Proof. unfold mtp_draft_model. by destruct (_ && _). Qed.

Lemma auto_choose_cases s : auto_choose_speculative_params model_arch s = (5, 4, 8) \/ auto_choose_speculative_params model_arch s = (3, 1, 4).
Proof. unfold auto_choose_speculative_params. repeat (destruct (is_str _ _) || destruct (bool_decide _)); auto. Qed.

Lemma paged_check (t : Z) many u : (1 <? t) = many ->
  (if many then
     let* paged := opt_gt (page_size_arg o) 1 in
     raise_if (paged && negb (is_str (attention_backend o) "flashinfer" || is_str (attention_backend o) "fa3")) ValueError
   else Ok tt) = Ok u ->
  1 < t -> exists p, page_size_arg o = Some p /\ (p <= 1 \/ attention_backend o = Some "flashinfer"%string \/ attention_backend o = Some "fa3"%string).
Proof.
  intros <- Hp Ht. rewrite (proj2 (Z.ltb_lt 1 t) Ht) in Hp. apply res_bind_Ok in Hp as (paged & Hg & Hp). destruct (page_size_arg o) as [p|]; [|done].
  injection Hg as <-. exists p. split; [done|]. destruct (Z.ltb_spec 1 p); [|by left]. right. unfold raise_if, is_str in Hp.
  destruct (bool_decide_reflect (attention_backend o = Some "flashinfer"%string)); [by left|].
  destruct (bool_decide_reflect (attention_backend o = Some "fa3"%string)); [by right|done].
Qed.

Lemma trtllm_check (t : Z) u :
  (if is_str (attention_backend o) "trtllm_mha" || is_str (decode_attention_backend o) "trtllm_mha" || is_str (prefill_attention_backend o) "trtllm_mha"
   then let* gt := opt_gt (Some t) 1 in raise_if gt ValueError else Ok tt) = Ok u ->
  1 < t -> attention_backend o <> Some "trtllm_mha"%string /\ decode_attention_backend o <> Some "trtllm_mha"%string
    /\ prefill_attention_backend o <> Some "trtllm_mha"%string.
Proof.
  intros Hc Ht. cbn in Hc. rewrite (proj2 (Z.ltb_lt 1 t) Ht) in Hc. unfold is_str in Hc.
  repeat (match type of Hc with context [bool_decide ?P] => destruct (bool_decide_reflect P) end); by split_and!.
Qed.

Lemma handle_eagle_ok s s' : handle_eagle s = Ok s' -> exists steps t, eagle_resolved s s' steps t.
Proof.
  intros E. unfold SpecArgs.handle_eagle in E. apply res_bind_Ok in E as (? & _ & E).
  destruct (eagle_overlap_ok (set_scheduling (default_running s) (enable_mixed_chunk s) s)) as (A1 & A2 & A3 & A4 & A5 & A6).
  set (s1 := eagle_overlap _ _) in *. clearbody s1. cbn in A1, A2, A3, A4, A5, A6.
  destruct (mtp_draft_ok (set_scheduling (max_running_requests s1) false s1)) as (B1 & B2 & B3 & B4 & B5).
  set (s2 := mtp_draft_model _ _ _) in *. clearbody s2. cbn in B1, B2, B3, B4, B5. rewrite <- B1 in A1, A2, A6. rewrite <- B2 in A3. rewrite <- B3 in A4. rewrite <- B4 in A5.
  apply res_bind_Ok in E as (s3 & E3 & E).
  assert (exists steps, speculative_num_steps s3 = Some steps /\ alg s3 = alg s2 /\ no_overlap s3 = no_overlap s2 /\ enable_mixed_chunk s3 = false
    /\ max_running_requests s3 = max_running_requests s2 /\ (forall st, speculative_num_steps s2 = Some st -> steps = st /\ topk_of s3 = topk_of s2)
    /\ (speculative_num_steps s2 = None -> topk_of s2 = None /\ ((steps, topk_of s3, speculative_num_draft_tokens s3) = (5, Some 4, Some 8)
         \/ (steps, topk_of s3, speculative_num_draft_tokens s3) = (3, Some 1, Some 4)))) as (steps & C1 & C2 & C3 & C4 & C5 & C6 & C7).
  { destruct (speculative_num_steps s2) as [st|] eqn:Est.
    - injection E3 as <-. exists st. split_and!; try done. by intros st' [= <-].
    - apply res_bind_Ok in E3 as (? & Ha & E3). apply py_assert_Ok, andb_prop in Ha as [Ha _]. apply bool_decide_eq_true in Ha.
      destruct (auto_choose_cases s2) as [Hc|Hc]; rewrite Hc in E3; injection E3 as <-; eexists; cbn; split_and!; eauto; done. }
  clear E3. apply res_bind_Ok in E as (? & Htrt & E). set (s4 := match topk_of s3 with Some 1 => _ | _ => _ end) in E.
  assert (alg s4 = alg s3 /\ topk_of s4 = topk_of s3 /\ no_overlap s4 = no_overlap s3 /\ enable_mixed_chunk s4 = enable_mixed_chunk s3
    /\ max_running_requests s4 = max_running_requests s3 /\ speculative_num_steps s4 = Some steps
    /\ (topk_of s3 = Some 1 -> speculative_num_draft_tokens s4 = Some (steps + 1)) /\ (topk_of s3 <> Some 1 -> speculative_num_draft_tokens s4 = speculative_num_draft_tokens s3))
    as (D1 & D2 & D3 & D4 & D5 & D6 & D7 & D8).
  { unfold s4. rewrite C1. destruct (topk_of s3) as [[|[]|]|] eqn:Et; try (split_and!; done).
    destruct (bool_decide _) eqn:Eb; [apply bool_decide_eq_true in Eb|]; cbn; rewrite ?Et; split_and!; done. }
  clearbody s4. apply res_bind_Ok in E as (many & Hmany & E). destruct (topk_of s4) as [t|] eqn:Et4; [|done]. injection Hmany as Hmany.
  apply res_bind_Ok in E as (? & Hpage & E). injection E as <-. exists steps, t. rewrite <- D2 in C6, C7, D7, D8, Htrt.
  split; try done.
  - congruence.
  - intros ->. by apply D7.
  - by apply paged_check with (many := many) (u := x1).
  - by apply trtllm_check with (u := x0).
  - intros st Hst. rewrite <- A3 in Hst. destruct (C6 st Hst) as [-> Ht]. rewrite <- A2, <- Ht. split_and!; try done. intros H1. rewrite D3, C3.
    apply (A6 t); congruence.
  - intros Hst. rewrite <- A3 in Hst. rewrite <- A2. destruct (C7 Hst) as [H1 H2]. split; [done|].
    destruct H2 as [[= -> -> H3]|[= -> -> H3]]; [left; by rewrite D8, H3|right; by rewrite D7].
  - split; congruence.
Qed.
(** Adaptive speculation is supported for chains without overlap only. *)
Lemma adaptive_supported a : adaptive_unsupported_reason a = None -> speculative_eagle_topk a = Some 1 /\ disable_overlap_schedule a = true.
Proof.
  unfold adaptive_unsupported_reason. destruct (negb (_ || _)); [done|]. destruct (bool_decide_reflect (speculative_eagle_topk a = Some 1)); [|done].
  cbn [negb]. destruct (enable_dp_attention a); [done|]. by destruct (disable_overlap_schedule a).
Qed.

(** The last part switches adaptive speculation off, at most. *)
Lemma handle_adaptive_ok s : let s' := handle_adaptive s in sa_args s' = sa_args s /\ speculative_num_steps s' = speculative_num_steps s
  /\ speculative_num_draft_tokens s' = speculative_num_draft_tokens s /\ max_running_requests s' = max_running_requests s /\ enable_mixed_chunk s' = enable_mixed_chunk s
  /\ (speculative_adaptive s' = true -> adaptive_unsupported_reason (sa_args s) = None).
Proof.
  unfold handle_adaptive. destruct (speculative_adaptive s) eqn:E; [|rewrite E; by split_and!].
  destruct (adaptive_unsupported_reason (sa_args s)) eqn:Er; cbn; by split_and!.
Qed.

(** Which parts run. *)
Lemma handle_parts s s' : handle s = Ok s' -> exists s0 s1 s2 s3, handle_common s = Ok s0
  /\ (if is_str (alg s0) "DFLASH" then handle_dflash s0 else Ok s0) = Ok s1
  /\ (if is_str (alg s0) "EAGLE" || is_str (alg s0) "EAGLE3" || is_str (alg s0) "STANDALONE" then handle_eagle s2 else Ok s2) = Ok s3
  /\ s2 = (if is_str (alg s0) "FROZEN_KV_MTP" then handle_frozen_kv_mtp s1 else s1)
  /\ alg s1 = alg s0 /\ alg s2 = alg s0 /\ alg s3 = alg s0
  /\ exists s4, (if is_str (alg s0) "NGRAM" then handle_ngram s3 else Ok s3) = Ok s4 /\ alg s4 = alg s0 /\ s' = handle_adaptive s4.
Proof.
  intros E. unfold _handle_speculative_decoding in E. apply res_bind_Ok in E as (s0 & E0 & E). apply res_bind_Ok in E as (s1 & E1 & E).
  assert (alg s1 = alg s0) as H1. { destruct (is_str (alg s0) "DFLASH"); [by apply handle_dflash_ok in E1 as [_ ?]|by injection E1 as <-]. }
  set (s2 := if is_str (alg s1) "FROZEN_KV_MTP" then _ else _) in E. assert (alg s2 = alg s0) as H2 by (unfold s2; by destruct (is_str (alg s1) _)).
  apply res_bind_Ok in E as (s3 & E3 & E). rewrite H2 in E3. assert (alg s3 = alg s0) as H3.
  { destruct (_ || _ || _) in E3; [|by injection E3 as <-]. apply handle_eagle_ok in E3 as (steps & t & Hr). rewrite (er_alg _ _ _ _ Hr). done. }
  rewrite H3 in E. apply res_bind_Ok in E as (s4 & E4 & E). injection E as <-. exists s0, s1, s2, s3. split_and!; try done; [unfold s2; by rewrite H1|].
  exists s4. split_and!; try done. destruct (is_str (alg s0) "NGRAM"); [apply handle_ngram_ok in E4 as [_ ->]; done|by injection E4 as <-].
Qed.
End Facts.


Ltac names H :=
  repeat match type of H with
  | context [is_str (Some ?x) ?y] => let b := eval vm_compute in (is_str (Some x) y) in change (is_str (Some x) y) with b in H
  end; cbn [orb] in H.

(** Names of builtin algorithms. *)
Lemma member_name n a : member n = Some a ->
  n = match a with DFLASH => "DFLASH" | EAGLE => "EAGLE" | EAGLE3 => "EAGLE3" | FROZEN_KV_MTP => "FROZEN_KV_MTP" | STANDALONE => "STANDALONE" | NGRAM => "NGRAM"
      | NONE => "NONE" end%string.
Proof. unfold member. repeat (match goal with |- context [String.eqb n ?x] => destruct (String.eqb_spec n x) as [-> |] end; [by intros [= <-]|]). done. Qed.

(** C36: The resolved arguments always name a worker.  Whenever the handler returns and the
    algorithm is builtin and not NONE, the worker class is found, and it is a class for overlap
    scheduling exactly when overlap scheduling is on: the algorithms without such a class have had
    it switched off. *)
Theorem resolved_args_worker {J} draft_architectures model_arch (json_loads : string -> res J) infer_block_size reg spec_v2 o s s' a :
  _handle_speculative_decoding draft_architectures model_arch json_loads infer_block_size reg spec_v2 o s = Ok s' ->
  from_string reg (alg s') = Ok (Builtin a) -> a <> NONE ->
  exists w, algo_create_worker (Builtin a) (sa_args s') = Ok w /\ overlap_worker w = negb (no_overlap s').
Proof.
  intros E Hf Ha. destruct (handle_parts _ _ _ _ _ _ _ _ _ E) as (s0 & s1 & s2 & s3 & E0 & E1 & E3 & E2 & A1 & A2 & A3 & s4 & E4 & A4 & ->).
  destruct (handle_adaptive_ok s4) as (B1 & _). rewrite B1 in Hf |- *. rewrite A4 in Hf. destruct (handle_common_ok _ _ _ _ _ E0) as (Hu & _).
  destruct (alg s0) as [n|]; [|cbn in Hf; congruence]. cbn in Hu. injection Hu as Hu. unfold from_string in Hf. rewrite Hu in Hf.
  assert (member n = Some a) as Hm%member_name. { destruct (member n) as [b|]; [congruence|]. destruct (get_spec reg (Some n)); congruence. }
  destruct (create_worker_spec a (sa_args s4)) as [Hw Hov]. assert (exists w, create_worker a (sa_args s4) = Ok w) as [w Ew]; [|exists w; split; [exact Ew|by apply Hov]].
  apply Hw. split; [done|]. destruct a; try (by right); subst n; left; names E1; names E2; names E3; names E4.
  - simplify_eq. by apply handle_dflash_ok in E1 as [-> _].
  - by simplify_eq.
  - by apply handle_ngram_ok in E4 as [-> _].
Qed.

(** *** An example *)

Definition sample_opts : SpecOpts :=
  MkSpecOpts "meta-llama" None false "{}" "auto" 1 (Some 1) "cuda" (Some "flashinfer"%string) None None false None None 10 None 0 10000000.
Definition sample_args (steps topk tokens : option Z) : SpecArgs :=
  MkSpecArgs (MkServerArgs (Some "nextn"%string) topk false false false false false) (Some "draft"%string) None None steps tokens None true true.
Definition sample_handle (arch : string) (s : SpecArgs) : res SpecArgs :=
  _handle_speculative_decoding (fun _ _ => Ok ["LlamaForCausalLMEagle"]%string) arch (fun _ => Ok tt) (fun _ _ _ _ => Ok None) ∅ true sample_opts s.

Definition sample_resolved : SpecArgs :=
  MkSpecArgs (MkServerArgs (Some "EAGLE"%string) (Some 1) false false false false false) (Some "draft"%string) (Some "main"%string) (Some "auto"%string)
    (Some 3) (Some 4) (Some 48) false false.

Lemma sample_handled : sample_handle "Qwen3ForCausalLM" (sample_args (Some 3) (Some 1) (Some 9)) = Ok sample_resolved.
Proof. vm_compute. reflexivity. Qed.


Lemma resolved_args_worker_witness : exists w, algo_create_worker (Builtin EAGLE) (sa_args sample_resolved) = Ok w /\ overlap_worker w = true.
Proof. apply (resolved_args_worker _ _ _ _ _ _ _ _ _ EAGLE sample_handled); [vm_compute; reflexivity|discriminate]. Defined.

(** Overlap scheduling is decided before the parameters are chosen: a chosen branching factor
    of 4 leaves it on, although spec v2 supports chains only. *)
Lemma chosen_topk_keeps_overlap : exists s', sample_handle "LlamaForCausalLM" (sample_args None None None) = Ok s'
  /\ topk_of s' = Some 4 /\ algo_create_worker (Builtin EAGLE) (sa_args s') = Ok EAGLEWorkerV2.
Proof. eexists. split; [vm_compute; reflexivity|]. split; reflexivity. Qed.
