(* ===== verification/LruList.v ===== *)
(** The recency lists of the sliding-window radix cache.

    [TreeNode] and [LRUList] of [mem_cache/swa_radix_cache.py]: two doubly linked lists, one for
    the full-attention tokens and one for the sliding-window tokens, thread through the same tree
    nodes.  Nodes live in a store indexed by their [id], so that every pointer assignment of the
    source is an update of the store that all holders of the node see.  An attribute of [None]
    raises [AttributeError]; a failing [assert] raises [AssertionError]. *)

From stdpp Require Export gmap.
From S2P Require Export Prelude RadixKey.

(** ** Nodes and lists *)

Record SwaNode := MkSwaNode {
  sn_children : gmap pyval nat;
  sn_parent : option nat;
  sn_key : RadixKey;
  sn_value : option (list Z);
  swa_tombstone : bool;
  full_lock_ref : Z;
  swa_lock_ref : Z;
  sn_last_access_time : Z;
  sn_hit_count : Z;
  sn_host_value : option (list Z);
  sn_prev : option nat;
  sn_next : option nat;
  sn_swa_prev : option nat;
  sn_swa_next : option nat;
  swa_uuid : option Z
}.

(** The live objects, by [id]. *)
Abbreviation store := (gmap nat SwaNode).

Record LRUList := mkLRUList {
  is_swa_list : bool;
  lru_head : nat;
  lru_tail : nat;
  lru_cache : gset nat
}.

(** [TreeNode()]; [now] is the reading of [get_last_access_time]. *)
Definition new_tree_node (now : Z) : SwaNode :=
  MkSwaNode ∅ None (MkRadixKey [] None false) None false 0 0 now 0 None None None None None None.

(** ** Attributes

    [self.prv], [self.nxt] and [self.lock_ref] name the attributes of the list's own kind. *)

Definition get_prv (swa : bool) (n : SwaNode) : option nat := if swa then sn_swa_prev n else sn_prev n.
Definition get_nxt (swa : bool) (n : SwaNode) : option nat := if swa then sn_swa_next n else sn_next n.
Definition get_lock_ref (swa : bool) (n : SwaNode) : Z :=
  if swa then swa_lock_ref n else full_lock_ref n.

Definition set_prv (swa : bool) (v : option nat) (n : SwaNode) : SwaNode :=
  MkSwaNode (sn_children n) (sn_parent n) (sn_key n) (sn_value n) (swa_tombstone n) (full_lock_ref n)
    (swa_lock_ref n) (sn_last_access_time n) (sn_hit_count n) (sn_host_value n)
    (if swa then sn_prev n else v) (sn_next n) (if swa then v else sn_swa_prev n) (sn_swa_next n) (swa_uuid n).
Definition set_nxt (swa : bool) (v : option nat) (n : SwaNode) : SwaNode :=
  MkSwaNode (sn_children n) (sn_parent n) (sn_key n) (sn_value n) (swa_tombstone n) (full_lock_ref n)
    (swa_lock_ref n) (sn_last_access_time n) (sn_hit_count n) (sn_host_value n)
    (sn_prev n) (if swa then sn_next n else v) (sn_swa_prev n) (if swa then v else sn_swa_next n) (swa_uuid n).

(** [x.attr] where [x] may be [None] *)
Definition lru_deref (s : store) (x : option nat) : res (nat * SwaNode) :=
  match x with
  | Some i => match s !! i with Some n => Ok (i, n) | None => Raise AttributeError end
  | None => Raise AttributeError
  end.

(** [setattr(x, attr, v)] *)
Definition setattr (f : SwaNode -> SwaNode) (s : store) (x : option nat) : res store :=
  let* (i, n) := lru_deref s x in Ok (<[i := f n]> s).

(** ** Operations *)

(** [__init__]; [h] and [t] are the ids of the two dummy nodes. *)
Definition new_lru_list (swa : bool) (h t : nat) (now : Z) (s : store) : store * LRUList :=
  (<[t := set_prv swa (Some h) (new_tree_node (now + 1))]> (<[h := set_nxt swa (Some t) (new_tree_node now)]> s),
   mkLRUList swa h t ∅).

Definition add_node_after (l : LRUList) (old_node new_node : nat) (s : store) : res store :=
  let swa := is_swa_list l in
  let* s := setattr (set_prv swa (Some old_node)) s (Some new_node) in
  let* (_, o) := lru_deref s (Some old_node) in
  let* s := setattr (set_nxt swa (get_nxt swa o)) s (Some new_node) in
  let* (_, o) := lru_deref s (Some old_node) in
  let* s := setattr (set_prv swa (Some new_node)) s (get_nxt swa o) in
  setattr (set_nxt swa (Some new_node)) s (Some old_node).

Definition add_node (l : LRUList) (node : nat) (s : store) : res store :=
  add_node_after l (lru_head l) node s.

Definition unlink_node (l : LRUList) (node : nat) (s : store) : res store :=
  let swa := is_swa_list l in
  let* (_, n) := lru_deref s (Some node) in
  let* s := setattr (set_nxt swa (get_nxt swa n)) s (get_prv swa n) in
  let* (_, n) := lru_deref s (Some node) in
  setattr (set_prv swa (get_prv swa n)) s (get_nxt swa n).

Definition get_lru (l : LRUList) (s : store) : res (option nat) :=
  if decide (size (lru_cache l) = 0%nat) then Ok None
  else let* (_, t) := lru_deref s (Some (lru_tail l)) in Ok (get_prv (is_swa_list l) t).

(** [not self.is_swa_list or not node.swa_tombstone] *)
Definition listable (l : LRUList) (n : SwaNode) : bool :=
  negb (is_swa_list l) || negb (swa_tombstone n).

Definition reset_node_mru (l : LRUList) (node : nat) (s : store) : res store :=
  let* _ := py_assert (bool_decide (node ∈ lru_cache l)) in
  let* (_, n) := lru_deref s (Some node) in
  let* _ := py_assert (listable l n) in
  let* s := unlink_node l node s in
  add_node l node s.

(** The [while] loop of [reset_node_and_parents_mru]. *)
Fixpoint reset_path (fuel : nat) (l : LRUList) (root_node : nat) (node : option nat) (prev_node : nat)
    (s : store) : res store :=
  match fuel with
  | O => Raise RuntimeError
  | S fuel =>
      if decide (node = Some root_node) then Ok s
      else
        let* (i, n) := lru_deref s node in
        if listable l n then
          let* _ := py_assert (bool_decide (i ∈ lru_cache l)) in
          let* s := unlink_node l i s in
          let* s := add_node_after l prev_node i s in
          let* (_, n) := lru_deref s node in
          reset_path fuel l root_node (sn_parent n) i s
        else reset_path fuel l root_node (sn_parent n) prev_node s
  end.

Definition reset_node_and_parents_mru (l : LRUList) (node root_node : nat) (s : store) : res store :=
  reset_path (S (size s)) l root_node (Some node) (lru_head l) s.

Definition with_cache (c : gset nat) (l : LRUList) : LRUList :=
  mkLRUList (is_swa_list l) (lru_head l) (lru_tail l) c.

Definition insert_mru (l : LRUList) (node : nat) (s : store) : res (LRUList * store) :=
  let* (_, n) := lru_deref s (Some node) in
  let* _ := py_assert (listable l n) in
  let* _ := py_assert (negb (bool_decide (node ∈ lru_cache l))) in
  let l := with_cache ({[node]} ∪ lru_cache l) l in
  let* s := add_node l node s in
  Ok (l, s).

Definition remove_node (l : LRUList) (node : nat) (s : store) : res (LRUList * store) :=
  let* _ := py_assert (bool_decide (node ∈ lru_cache l)) in
  let* (_, n) := lru_deref s (Some node) in
  let* _ := py_assert (listable l n) in
  let l := with_cache (lru_cache l ∖ {[node]}) l in
  let* s := unlink_node l node s in
  Ok (l, s).

(** The [while] loops of [get_prev_no_lock] and [get_prev_leaf_no_lock]; the fuel is one more
    than the number of nodes of the list. *)
Fixpoint prev_while (skip : SwaNode -> bool) (swa : bool) (fuel : nat) (s : store) (x : option nat) : res nat :=
  match fuel with
  | O => Raise RuntimeError
  | S fuel =>
      let* (i, n) := lru_deref s x in
      if skip n then prev_while skip swa fuel s (get_prv swa n) else Ok i
  end.

Definition skip_locked (swa : bool) (n : SwaNode) : bool := 0 <? get_lock_ref swa n.
Definition skip_locked_or_internal (swa : bool) (n : SwaNode) : bool :=
  (0 <? get_lock_ref swa n) || (negb (bool_decide (size (sn_children n) = 0%nat))).

Definition get_prev_no_lock (l : LRUList) (node : nat) (check_id : bool) (s : store) : res (option nat) :=
  let* _ := (if check_id then py_assert (bool_decide (node ∈ lru_cache l)) else Ok tt) in
  let* (_, n) := lru_deref s (Some node) in
  let* x := prev_while (skip_locked (is_swa_list l)) (is_swa_list l) (S (size (lru_cache l))) s
              (get_prv (is_swa_list l) n) in
  Ok (if decide (x = lru_head l) then None else Some x).

Definition get_prev_leaf_no_lock (l : LRUList) (node : nat) (check_id : bool) (s : store) : res (option nat) :=
  let* _ := (if check_id then py_assert (bool_decide (node ∈ lru_cache l)) else Ok tt) in
  let* (_, n) := lru_deref s (Some node) in
  let* x := prev_while (skip_locked_or_internal (is_swa_list l)) (is_swa_list l) (S (size (lru_cache l))) s
              (get_prv (is_swa_list l) n) in
  Ok (if decide (x = lru_head l) then None else Some x).

Definition get_lru_no_lock (l : LRUList) (s : store) : res (option nat) :=
  get_prev_no_lock l (lru_tail l) false s.
Definition get_leaf_lru_no_lock (l : LRUList) (s : store) : res (option nat) :=
  get_prev_leaf_no_lock l (lru_tail l) false s.

Definition in_list (l : LRUList) (node : option nat) : bool :=
  match node with
  | None => false
  | Some i => bool_decide (i ∈ lru_cache l)
  end.

(** [len(node.value)] *)
Definition value_len (n : SwaNode) : res Z :=
  match sn_value n with Some v => Ok (zlen v) | None => Raise TypeError end.

Fixpoint evictable_loop (fuel : nat) (l : LRUList) (s : store) (node : option nat) (evictable_size : Z) : res Z :=
  match fuel with
  | O => Raise RuntimeError
  | S fuel =>
      if in_list l node then
        let* (i, n) := lru_deref s node in
        let* len := value_len n in
        let* node := get_prev_no_lock l i true s in
        evictable_loop fuel l s node (evictable_size + len)
      else Ok evictable_size
  end.

Definition sanity_check_evictable_size (l : LRUList) (s : store) : res Z :=
  let* node := get_lru_no_lock l s in
  evictable_loop (S (size (lru_cache l))) l s node 0.

(** ** What a list promises

    The reference: a sequence of node ids, most recently used first. *)

(** Links of one node, as partial functions. *)
Definition nxt_of (swa : bool) (s : store) (i : nat) : option nat := n ← s !! i; get_nxt swa n.
Definition prv_of (swa : bool) (s : store) (i : nat) : option nat := n ← s !! i; get_prv swa n.

(** Neighbours of [xs] point to each other. *)
Fixpoint chained (swa : bool) (s : store) (xs : list nat) : Prop :=
  match xs with
  | a :: ((b :: _) as ys) => nxt_of swa s a = Some b /\ prv_of swa s b = Some a /\ chained swa s ys
  | _ => True
  end.

(** The head and the tail are never locked and have no children. *)
Definition sentinel (n : SwaNode) : Prop :=
  full_lock_ref n = 0 /\ swa_lock_ref n = 0 /\ sn_children n = ∅.

Record lru_ok (l : LRUList) (s : store) (ns : list nat) : Prop := {
  lru_linked : chained (is_swa_list l) s (lru_head l :: ns ++ [lru_tail l]);
  lru_nodup : NoDup (lru_head l :: ns ++ [lru_tail l]);
  lru_set : lru_cache l = list_to_set ns;
  lru_sent : exists n, s !! lru_head l = Some n /\ sentinel n
}.

(** Everything of a node but its links in the list of kind [swa]. *)
Definition strip (swa : bool) (n : SwaNode) : SwaNode := set_prv swa None (set_nxt swa None n).
Definition same_but (swa : bool) (s s' : store) : Prop := strip swa <$> s' = strip swa <$> s.

#[global] Arguments lru_deref : simpl never.
#[global] Arguments setattr : simpl never.

(** ** Stores that differ in links only *)

Section Frame.
Context (swa : bool).

#[export] Instance same_but_equiv : Equivalence (same_but swa).
Proof. unfold same_but. split; intros ?; congruence. Qed.

Lemma same_but_lookup s s' i n : same_but swa s s' -> s !! i = Some n ->
  exists n', s' !! i = Some n' /\ strip swa n' = strip swa n.
Proof.
  intros E H. assert ((strip swa <$> s') !! i = Some (strip swa n)) as Hi.
  { rewrite E, lookup_fmap, H. done. }
  rewrite lookup_fmap in Hi. destruct (s' !! i) as [n'|]; [|done]. exists n'. by apply (inj Some) in Hi.
Qed.

Lemma same_but_set f s i n : s !! i = Some n -> (strip swa (f n) = strip swa n) -> same_but swa s (<[i := f n]> s).
Proof. intros H E. unfold same_but. rewrite fmap_insert, E, <- fmap_insert, insert_id; done. Qed.

Lemma strip_set_prv v n : strip swa (set_prv swa v n) = strip swa n.
Proof. by destruct swa, n. Qed.
Lemma strip_set_nxt v n : strip swa (set_nxt swa v n) = strip swa n.
Proof. by destruct swa, n. Qed.

Lemma setattr_prv v s i : i ∈ dom s -> exists s', setattr (set_prv swa v) s (Some i) = Ok s'
  /\ same_but swa s s' /\ (forall j, nxt_of swa s' j = nxt_of swa s j)
  /\ (forall j, prv_of swa s' j = if decide (j = i) then v else prv_of swa s j).
Proof.
  intros [n Hn]%elem_of_dom. unfold setattr, lru_deref. rewrite Hn. simpl. eexists. split; [done|].
  split; [by apply same_but_set; [|apply strip_set_prv]|]. unfold nxt_of, prv_of. split; intros j.
  - destruct (decide (j = i)) as [->|]; [rewrite lookup_insert_eq, Hn; by destruct swa|by rewrite lookup_insert_ne].
  - destruct (decide (j = i)) as [->|]; [rewrite lookup_insert_eq; by destruct swa|by rewrite lookup_insert_ne].
Qed.

Lemma setattr_nxt v s i : i ∈ dom s -> exists s', setattr (set_nxt swa v) s (Some i) = Ok s'
  /\ same_but swa s s' /\ (forall j, prv_of swa s' j = prv_of swa s j)
  /\ (forall j, nxt_of swa s' j = if decide (j = i) then v else nxt_of swa s j).
Proof.
  intros [n Hn]%elem_of_dom. unfold setattr, lru_deref. rewrite Hn. simpl. eexists. split; [done|].
  split; [by apply same_but_set; [|apply strip_set_nxt]|]. unfold nxt_of, prv_of. split; intros j.
  - destruct (decide (j = i)) as [->|]; [rewrite lookup_insert_eq, Hn; by destruct swa|by rewrite lookup_insert_ne].
  - destruct (decide (j = i)) as [->|]; [rewrite lookup_insert_eq; by destruct swa|by rewrite lookup_insert_ne].
Qed.

Lemma same_but_dom s s' : same_but swa s s' -> dom s' = dom s.
Proof. intros E. apply (f_equal dom) in E. set_solver. Qed.

Lemma deref_nxt s i : i ∈ dom s -> exists n, lru_deref s (Some i) = Ok (i, n) /\ get_nxt swa n = nxt_of swa s i
  /\ get_prv swa n = prv_of swa s i /\ s !! i = Some n.
Proof. intros [n Hn]%elem_of_dom. exists n. unfold lru_deref, nxt_of, prv_of. by rewrite Hn. Qed.
End Frame.

(** ** Chains of links *)

Section Chain.
Context (swa : bool).

Lemma linked_app s P x Q : chained swa s (P ++ x :: Q) <-> chained swa s (P ++ [x]) /\ chained swa s (x :: Q).
Proof.
  induction P as [|a P IH]; [simpl; tauto|]. destruct P as [|b P]; [simpl; tauto|].
  cbn [app] in *. cbn [chained]. rewrite IH. tauto.
Qed.

(** A chain only depends on the links inside it. *)
Lemma linked_ext s s' L : chained swa s L ->
  (forall i, i ∈ removelast L -> nxt_of swa s' i = nxt_of swa s i) ->
  (forall i, i ∈ tail L -> prv_of swa s' i = prv_of swa s i) -> chained swa s' L.
Proof.
  induction L as [|a L IH]; [done|]. destruct L as [|b L]; [done|]. cbn [chained tail]. intros (H1 & H2 & H3) Hn Hp.
  change (removelast (a :: b :: L)) with (a :: removelast (b :: L)) in Hn.
  rewrite Hn, Hp by set_solver. split_and!; [done|done|]. apply IH; [done|set_solver|set_solver].
Qed.

Lemma linked_ext_snoc s s' P x : chained swa s (P ++ [x]) -> (forall i, i ∈ P -> nxt_of swa s' i = nxt_of swa s i) ->
  (forall i, i ∈ P ++ [x] -> prv_of swa s' i = prv_of swa s i) -> chained swa s' (P ++ [x]).
Proof.
  intros H Hn Hp. apply (linked_ext s); [done|by rewrite removelast_last|].
  intros i Hi. apply Hp. destruct P; set_solver.
Qed.

Lemma linked_ext_cons s s' x Q : chained swa s (x :: Q) -> (forall i, i ∈ x :: Q -> nxt_of swa s' i = nxt_of swa s i) ->
  (forall i, i ∈ Q -> prv_of swa s' i = prv_of swa s i) -> chained swa s' (x :: Q).
Proof.
  intros H Hn Hp. apply (linked_ext s); [done| |done]. intros i Hi. apply Hn.
  assert (forall L : list nat, i ∈ removelast L -> i ∈ L) as E; [|by apply E].
  clear. intros L. induction L as [|a [|b L] IH]; simpl in *; set_solver.
Qed.

Lemma nxt_dom s i j : nxt_of swa s i = Some j -> i ∈ dom s.
Proof. unfold nxt_of. rewrite elem_of_dom. destruct (s !! i); [eauto|done]. Qed.
Lemma prv_dom s i j : prv_of swa s i = Some j -> i ∈ dom s.
Proof. unfold prv_of. rewrite elem_of_dom. destruct (s !! i); [eauto|done]. Qed.

Lemma linked_mid s P a b Q : chained swa s (P ++ a :: b :: Q) ->
  chained swa s (P ++ [a]) /\ nxt_of swa s a = Some b /\ prv_of swa s b = Some a /\ chained swa s (b :: Q).
Proof. rewrite linked_app. intros [H1 H2]. cbn [chained] in H2. tauto. Qed.
Lemma linked_join s P a b Q : chained swa s (P ++ [a]) -> nxt_of swa s a = Some b -> prv_of swa s b = Some a ->
  chained swa s (b :: Q) -> chained swa s (P ++ a :: b :: Q).
Proof. intros. rewrite linked_app. split; [done|]. cbn [chained]. tauto. Qed.

(** Only the links of kind [swa] in [L] matter to another list. *)
Lemma linked_other s s' L : same_but (negb swa) s s' -> chained swa s L -> chained swa s' L.
Proof.
  intros E H. assert (forall s i, nxt_of swa s i = (strip (negb swa) <$> s) !! i ≫= get_nxt swa) as En.
  { intros s0 i. unfold nxt_of. rewrite lookup_fmap. destruct (s0 !! i) as [n|]; [|done]. by destruct swa, n. }
  assert (forall s i, prv_of swa s i = (strip (negb swa) <$> s) !! i ≫= get_prv swa) as Ep.
  { intros s0 i. unfold prv_of. rewrite lookup_fmap. destruct (s0 !! i) as [n|]; [|done]. by destruct swa, n. }
  apply (linked_ext s); [done| |]; intros i _; [rewrite !En|rewrite !Ep]; by rewrite E.
Qed.
End Chain.

(** ** The two pointer routines *)

Section Pointers.
Context (l : LRUList).
Local Abbreviation swa := (is_swa_list l).

Lemma add_node_after_links s old new nx : nxt_of swa s old = Some nx -> new ∈ dom s -> nx ∈ dom s -> new <> old ->
  exists s', add_node_after l old new s = Ok s' /\ same_but swa s s'
    /\ (forall j, nxt_of swa s' j = if decide (j = old) then Some new else if decide (j = new) then Some nx else nxt_of swa s j)
    /\ (forall j, prv_of swa s' j = if decide (j = nx) then Some new else if decide (j = new) then Some old else prv_of swa s j).
Proof.
  intros Ho Hnew Hnx Hne. assert (old ∈ dom s) as Hold by by eapply nxt_dom.
  unfold add_node_after.
  destruct (setattr_prv swa (Some old) s new Hnew) as (s1 & -> & E1 & N1 & P1). simpl.
  pose proof (same_but_dom _ _ _ E1) as D1.
  destruct (deref_nxt swa s1 old) as (o & -> & Eo & _); [by rewrite D1|]. simpl. rewrite Eo.
  destruct (setattr_nxt swa (nxt_of swa s1 old) s1 new) as (s2 & -> & E2 & P2 & N2); [by rewrite D1|]. simpl.
  pose proof (same_but_dom _ _ _ E2) as D2.
  destruct (deref_nxt swa s2 old) as (o2 & -> & Eo2 & _); [by rewrite D2, D1|]. simpl.
  rewrite Eo2, N2, decide_False, N1, Ho by done.
  destruct (setattr_prv swa (Some new) s2 nx) as (s3 & -> & E3 & N3 & P3); [by rewrite D2, D1|]. simpl.
  pose proof (same_but_dom _ _ _ E3) as D3.
  destruct (setattr_nxt swa (Some new) s3 old) as (s4 & -> & E4 & P4 & N4); [by rewrite D3, D2, D1|].
  exists s4. split; [done|]. split; [by do 3 (etrans; [eassumption|])|]. split; intros j.
  - rewrite N4, N3, N2, !N1, Ho. done.
  - rewrite P4, P3, P2, P1. done.
Qed.

Lemma add_after_linked s P old nx Q new : chained swa s (P ++ old :: nx :: Q) -> NoDup (P ++ old :: nx :: Q) ->
  new ∈ dom s -> new ∉ P ++ old :: nx :: Q ->
  exists s', add_node_after l old new s = Ok s' /\ same_but swa s s' /\ chained swa s' (P ++ old :: new :: nx :: Q).
Proof.
  intros H Hnd Hd Hn. apply linked_mid in H as (H1 & H2 & H3 & H4).
  destruct (add_node_after_links s old new nx) as (s' & -> & E & N & Pv); [done|done|by eapply prv_dom|set_solver|].
  exists s'. split; [done|]. split; [done|]. apply NoDup_app in Hnd as (HP & Hd1 & [Ha Hb]%NoDup_cons).
  apply NoDup_cons in Hb as [Hb HQ].
  apply linked_join.
  - apply (linked_ext_snoc _ s); [done| |]; intros i Hi.
    + rewrite N, !decide_False; [done| |]; intros ->; set_solver.
    + rewrite Pv, !decide_False; [done| |]; intros ->; set_solver.
  - rewrite N, decide_True; done.
  - rewrite Pv, decide_False, decide_True; [done|done|set_solver].
  - change (new :: nx :: Q) with ([] ++ new :: nx :: Q). apply linked_join; [done| | |].
    + rewrite N, decide_False, decide_True; [done|done|set_solver].
    + rewrite Pv, decide_True; done.
    + apply (linked_ext_cons _ s); [done| |]; intros i Hi.
      * rewrite N, !decide_False; [done| |]; intros ->; set_solver.
      * rewrite Pv, !decide_False; [done| |]; intros ->; set_solver.
Qed.

Lemma unlink_linked s P a n b Q : chained swa s (P ++ a :: n :: b :: Q) -> NoDup (P ++ a :: n :: b :: Q) ->
  exists s', unlink_node l n s = Ok s' /\ same_but swa s s' /\ chained swa s' (P ++ a :: b :: Q).
Proof.
  intros H Hnd. apply linked_mid in H as (H1 & H2 & H3 & H4). change (n :: b :: Q) with ([] ++ n :: b :: Q) in H4.
  apply linked_mid in H4 as (_ & H4 & H5 & H6).
  assert (a ∈ dom s /\ n ∈ dom s /\ b ∈ dom s) as (Da & Dn & Db) by (split_and!; [by eapply nxt_dom|by eapply nxt_dom|by eapply prv_dom]).
  apply NoDup_app in Hnd as (HP & Hd & [Ha [Hn [Hb HQ]%NoDup_cons]%NoDup_cons]%NoDup_cons).
  unfold unlink_node. destruct (deref_nxt swa s n Dn) as (n1 & -> & En & Ep & _). simpl. rewrite En, Ep, H3, H4.
  destruct (setattr_nxt swa (Some b) s a Da) as (s1 & -> & E1 & P1 & N1). simpl. pose proof (same_but_dom _ _ _ E1) as D1.
  destruct (deref_nxt swa s1 n) as (n2 & -> & En2 & Ep2 & _); [by rewrite D1|]. simpl.
  rewrite En2, Ep2, N1, P1, decide_False, H3, H4 by set_solver.
  destruct (setattr_prv swa (Some a) s1 b) as (s2 & -> & E2 & N2 & P2); [by rewrite D1|].
  exists s2. split; [done|]. split; [by etrans|]. apply linked_join.
  - apply (linked_ext_snoc _ s); [done| |]; intros i Hi.
    + rewrite N2, N1, !decide_False; [done|]; intros ->; set_solver.
    + rewrite P2, P1, !decide_False; [done|]; intros ->; set_solver.
  - rewrite N2, N1, decide_True; done.
  - rewrite P2, decide_True; done.
  - apply (linked_ext_cons _ s); [done| |]; intros i Hi.
    + rewrite N2, N1, !decide_False; [done|]; intros ->; set_solver.
    + rewrite P2, P1, !decide_False; [done|]; intros ->; set_solver.
Qed.
End Pointers.
