(* ===== verification/LruProps.v ===== *)
(** The recency lists refine sequences of node ids.

    A list of [LruList.v] behaves as a sequence with the most recently used node first; the two
    lists of a cache do not disturb each other although they thread through the same nodes; and
    the searches used for eviction return the least recently used node that qualifies. *)

From S2P Require Export LruList.

(** ** The reference *)

(** What no list operation changes: a node without any link. *)
Definition bare (n : SwaNode) : SwaNode := strip true (strip false n).
Definition same_nodes (s s' : store) : Prop := bare <$> s' = bare <$> s.

(** The nodes from [x] up to [root], exclusive. *)
Fixpoint ancestors (fuel : nat) (s : store) (root : nat) (x : option nat) : list nat :=
  match fuel, x with
  | S fuel, Some i =>
      if decide (i = root) then []
      else match s !! i with Some n => i :: ancestors fuel s root (sn_parent n) | None => [] end
  | _, _ => []
  end.

Inductive path_to (s : store) (root : nat) : option nat -> list nat -> Prop :=
  | path_root : path_to s root (Some root) []
  | path_step i n p : i <> root -> s !! i = Some n -> path_to s root (sn_parent n) p ->
      path_to s root (Some i) (i :: p).

Definition node_listable (swa : bool) (s : store) (i : nat) : Prop :=
  exists n, s !! i = Some n /\ negb swa || negb (swa_tombstone n) = true.

#[export] Instance node_listable_dec swa s i : Decision (node_listable swa s i).
Proof.
  unfold node_listable. destruct (s !! i) as [n|]; [|right; naive_solver].
  destruct (decide (negb swa || negb (swa_tombstone n) = true)) as [E|E]; [left; eauto|right; naive_solver].
Defined.

Inductive lru_op : Type :=
  | OpInsert (node : nat)
  | OpRemove (node : nat)
  | OpReset (node : nat)
  | OpResetPath (node root_node : nat).

(** The sequence after an operation; [None] where the source's assertions refuse it. *)
Definition seq_op (swa : bool) (s : store) (op : lru_op) (ns : list nat) : option (list nat) :=
  match op with
  | OpInsert n => if decide (node_listable swa s n /\ n ∉ ns) then Some (n :: ns) else None
  | OpRemove n => if decide (node_listable swa s n /\ n ∈ ns) then Some (filter (.≠ n) ns) else None
  | OpReset n => if decide (node_listable swa s n /\ n ∈ ns) then Some (n :: filter (.≠ n) ns) else None
  | OpResetPath n root =>
      let moved := filter (node_listable swa s) (ancestors (size s) s root (Some n)) in
      if decide (moved ⊆ ns) then Some (moved ++ filter (.∉ moved) ns) else None
  end.

(** The same operation as the source performs it. *)
Definition run_op (op : lru_op) (l : LRUList) (s : store) : res (LRUList * store) :=
  match op with
  | OpInsert n => insert_mru l n s
  | OpRemove n => remove_node l n s
  | OpReset n => let* s := reset_node_mru l n s in Ok (l, s)
  | OpResetPath n root => let* s := reset_node_and_parents_mru l n root s in Ok (l, s)
  end.

(** The arguments are nodes of the tree: not one of the list's own dummies, and with a path of
    parents to the root. *)
Definition op_ok (l : LRUList) (s : store) (op : lru_op) : Prop :=
  match op with
  | OpInsert n | OpRemove n | OpReset n => n ∈ dom s /\ n <> lru_head l /\ n <> lru_tail l
  | OpResetPath n root => exists p, path_to s root (Some n) p
  end.

(** ** Nodes up to links *)

#[export] Instance same_nodes_equiv : Equivalence same_nodes.
Proof. unfold same_nodes. split; intros ?; congruence. Qed.

Lemma same_but_nodes swa s s' : same_but swa s s' -> same_nodes s s'.
Proof.
  unfold same_but, same_nodes. intros E.
  assert (forall s0 : store, bare <$> s0 = (fun n => strip (negb swa) n) <$> (strip swa <$> s0)) as H.
  { intros s0. rewrite <- map_fmap_compose. apply map_fmap_ext. intros i n _. by destruct swa, n. }
  by rewrite !H, E.
Qed.

Lemma same_nodes_lookup s s' i n : same_nodes s s' -> s !! i = Some n ->
  exists n', s' !! i = Some n' /\ bare n' = bare n.
Proof.
  intros E H. assert ((bare <$> s') !! i = Some (bare n)) as Hi by (rewrite E, lookup_fmap, H; done).
  rewrite lookup_fmap in Hi. destruct (s' !! i) as [n'|]; [|done]. exists n'. by apply (inj Some) in Hi.
Qed.

Lemma same_nodes_dom s s' : same_nodes s s' -> dom s' = dom s.
Proof. intros E. apply (f_equal dom) in E. set_solver. Qed.
Lemma same_nodes_size s s' : same_nodes s s' -> size s' = size s.
Proof. intros E. by rewrite <- !size_dom, (same_nodes_dom s s'). Qed.

Lemma bare_parent n n' : bare n' = bare n -> sn_parent n' = sn_parent n.
Proof. intros E. by apply (f_equal sn_parent) in E. Qed.
Lemma bare_tombstone n n' : bare n' = bare n -> swa_tombstone n' = swa_tombstone n.
Proof. intros E. by apply (f_equal swa_tombstone) in E. Qed.
Lemma bare_sentinel n n' : bare n' = bare n -> sentinel n -> sentinel n'.
Proof.
  unfold sentinel. intros E. pose proof (f_equal full_lock_ref E). pose proof (f_equal swa_lock_ref E).
  pose proof (f_equal sn_children E). simpl in *. intros (? & ? & ?). split_and!; congruence.
Qed.

Lemma node_listable_same swa s s' i : same_nodes s s' -> node_listable swa s i <-> node_listable swa s' i.
Proof.
  intros E. unfold node_listable. split; intros (n & H & Hl).
  - destruct (same_nodes_lookup s s' i n E H) as (n' & ? & En). exists n'. by rewrite (bare_tombstone _ _ En).
  - symmetry in E. destruct (same_nodes_lookup s' s i n E H) as (n' & ? & En). exists n'. by rewrite (bare_tombstone _ _ En).
Qed.

Lemma path_to_same s s' root x p : same_nodes s s' -> path_to s root x p -> path_to s' root x p.
Proof.
  intros E. induction 1 as [|i n p Hi Hn _ IH]; [constructor|].
  destruct (same_nodes_lookup s s' i n E Hn) as (n' & ? & En). econstructor; [done|done|]. by rewrite (bare_parent _ _ En).
Qed.

Lemma path_to_det s root x p q : path_to s root x p -> path_to s root x q -> p = q.
Proof.
  intros H. revert q. induction H as [|i n p Hi Hn Hp IH]; intros q Hq; inversion Hq; simplify_eq; [done|]. f_equal. by apply IH.
Qed.

Lemma path_to_suffix s root x p i q1 q2 : path_to s root x p -> p = q1 ++ i :: q2 -> path_to s root (Some i) (i :: q2).
Proof.
  intros H. revert q1. induction H as [|j n p Hj Hn Hp IH]; intros q1 E; [by destruct q1|].
  destruct q1 as [|k q1]; simplify_eq/=; [by econstructor|]. by eapply IH.
Qed.

Lemma path_to_nodup s root x p : path_to s root x p -> NoDup p.
Proof.
  induction 1 as [|i n p Hi Hn Hp IH]; [constructor|]. constructor; [|done]. intros (q1 & q2 & ->)%list_elem_of_split.
  pose proof (path_to_suffix _ _ _ _ i q1 q2 Hp eq_refl) as H2.
  assert (path_to s root (Some i) (i :: q1 ++ i :: q2)) as H1 by by econstructor.
  pose proof (path_to_det _ _ _ _ _ H1 H2) as E. apply (f_equal length) in E. simpl in E. rewrite length_app in E. simpl in E. lia.
Qed.

Lemma path_to_dom s root x p : path_to s root x p -> forall i, i ∈ p -> i ∈ dom s.
Proof.
  induction 1 as [|i n p Hi Hn Hp IH]; intros j; [set_solver|].
  intros [->|?]%elem_of_cons; [by eapply elem_of_dom_2|by apply IH].
Qed.

Lemma path_to_length s root x p : path_to s root x p -> (length p <= size s)%nat.
Proof.
  intros H. rewrite <- size_dom, <- (size_list_to_set (C := gset nat) p) by by eapply path_to_nodup.
  apply subseteq_size. intros i Hi%elem_of_list_to_set. by eapply path_to_dom.
Qed.

Lemma ancestors_path s root x p fuel : path_to s root x p -> (length p <= fuel)%nat -> ancestors fuel s root x = p.
Proof.
  intros H. revert fuel. induction H as [|i n p Hi Hn Hp IH]; intros fuel Hf.
  - destruct fuel; simpl; [done|]. by rewrite decide_True.
  - destruct fuel as [|fuel]; simpl in *; [lia|]. rewrite decide_False, Hn by done. f_equal. apply IH. lia.
Qed.

(** ** One operation *)

Lemma cons_snoc {A} (x : A) xs : exists P y, x :: xs = P ++ [y].
Proof. destruct (exists_last (l := x :: xs)) as (P & y & ->); [done|]. eauto. Qed.

Lemma snoc_cons {A} (xs : list A) x : exists y Q, xs ++ [x] = y :: Q.
Proof. destruct xs; simpl; eauto. Qed.

Lemma filter_ne_middle (a b : list nat) n : NoDup (a ++ n :: b) -> filter (.≠ n) (a ++ n :: b) = a ++ b.
Proof.
  intros (Ha & Hd & [Hn Hb]%NoDup_cons)%NoDup_app. rewrite filter_app, filter_cons_False by tauto.
  f_equal; apply filter_all, Forall_forall; intros x Hx ->; set_solver.
Qed.

Lemma filter_notin_cons (i : nat) (m r : list nat) : i ∉ r -> filter (.∉ i :: m) r = filter (.∉ m) r.
Proof.
  induction r as [|j r IH]; [done|]. intros Hi. apply not_elem_of_cons in Hi as [Hj Hi]. rewrite !filter_cons, IH by done.
  apply decide_ext. rewrite not_elem_of_cons. naive_solver.
Qed.

Lemma filter_skip (i : nat) (m r1 r2 : list nat) : i ∉ r1 ++ r2 -> filter (.∉ m) (r1 ++ r2) = filter (.∉ i :: m) (r1 ++ i :: r2).
Proof.
  rewrite not_elem_of_app. intros [H1 H2]. rewrite !filter_app, filter_cons_False by set_solver.
  by rewrite !filter_notin_cons.
Qed.

Lemma subset_skip (i : nat) (m r1 r2 : list nat) : i ∉ m -> i :: m ⊆ r1 ++ i :: r2 <-> m ⊆ r1 ++ r2.
Proof.
  intros Hi. split; intros H j Hj.
  - assert (j <> i) by by intros ->. specialize (H j ltac:(by right)). rewrite elem_of_app, elem_of_cons in *. tauto.
  - rewrite elem_of_app, elem_of_cons. apply elem_of_cons in Hj as [->|Hj]; [tauto|].
    specialize (H j Hj). rewrite elem_of_app in H. tauto.
Qed.

Lemma deref_lookup s i n : s !! i = Some n -> lru_deref s (Some i) = Ok (i, n).
Proof. unfold lru_deref. by intros ->. Qed.

Section OneList.
Context (l : LRUList).
Local Abbreviation swa := (is_swa_list l).
Local Abbreviation h := (lru_head l).
Local Abbreviation t := (lru_tail l).

(** The other list's pointers are not part of this one. *)
Lemma lru_ok_other s s' ns : same_but (negb swa) s s' -> lru_ok l s ns -> lru_ok l s' ns.
Proof.
  intros E []. constructor; [by eapply linked_other|done|done|].
  destruct lru_sent as (n & Hn & Hs). destruct (same_nodes_lookup s s' h n) as (n' & ? & En); [by eapply same_but_nodes|done|].
  exists n'. split; [done|]. by eapply bare_sentinel.
Qed.

Lemma sent_same s s' : same_but swa s s' -> (exists n, s !! h = Some n /\ sentinel n) ->
  exists n, s' !! h = Some n /\ sentinel n.
Proof.
  intros E (n & Hn & Hs). destruct (same_nodes_lookup s s' h n) as (n' & ? & En); [by eapply same_but_nodes|done|].
  exists n'. split; [done|]. by eapply bare_sentinel.
Qed.

Lemma lru_ok_dom s ns i : lru_ok l s ns -> i ∈ ns -> i ∈ dom s.
Proof.
  intros [H _ _ _] (a & b & ->)%list_elem_of_split. destruct (snoc_cons b t) as (y & Q & E).
  replace (h :: (a ++ i :: b) ++ [t]) with ((h :: a) ++ i :: (b ++ [t])) in H by (simpl; by rewrite <- app_assoc).
  rewrite E in H. apply linked_mid in H as (_ & H & _). by eapply nxt_dom.
Qed.

(** Taking a node out of the chain. *)
Lemma unlink_ok s a n b : lru_ok l s (a ++ n :: b) ->
  exists s', unlink_node l n s = Ok s' /\ same_but swa s s' /\ chained swa s' (h :: (a ++ b) ++ [t]).
Proof.
  intros [H Hnd _ _]. destruct (cons_snoc h a) as (P & x & EP), (snoc_cons b t) as (y & Q & EQ).
  assert (h :: (a ++ n :: b) ++ [t] = P ++ x :: n :: y :: Q) as E1.
  { rewrite <- EQ. change (h :: (a ++ n :: b) ++ [t]) with (((h :: a) ++ n :: b) ++ [t]). rewrite EP.
    by rewrite <- !app_assoc. }
  assert (h :: (a ++ b) ++ [t] = P ++ x :: y :: Q) as E2.
  { rewrite <- EQ. change (h :: (a ++ b) ++ [t]) with (((h :: a) ++ b) ++ [t]). rewrite EP. by rewrite <- !app_assoc. }
  rewrite E1 in H, Hnd. rewrite E2. by apply unlink_linked.
Qed.

(** Putting a node into the chain after [prev], the last node of [h :: d]. *)
Lemma link_ok s d r D prev n : chained swa s (h :: (d ++ r) ++ [t]) -> NoDup (h :: (d ++ n :: r) ++ [t]) ->
  h :: d = D ++ [prev] -> n ∈ dom s ->
  exists s', add_node_after l prev n s = Ok s' /\ same_but swa s s' /\ chained swa s' (h :: (d ++ n :: r) ++ [t]).
Proof.
  intros H Hnd ED Hn. destruct (snoc_cons r t) as (y & Q & EQ).
  assert (h :: (d ++ r) ++ [t] = D ++ prev :: y :: Q) as E1.
  { rewrite <- EQ. change (h :: (d ++ r) ++ [t]) with (((h :: d) ++ r) ++ [t]). rewrite ED. by rewrite <- !app_assoc. }
  assert (h :: (d ++ n :: r) ++ [t] = D ++ prev :: n :: y :: Q) as E2.
  { rewrite <- EQ. change (h :: (d ++ n :: r) ++ [t]) with (((h :: d) ++ n :: r) ++ [t]). rewrite ED. by rewrite <- !app_assoc. }
  rewrite E1 in H. rewrite E2 in Hnd |- *.
  assert (D ++ prev :: n :: y :: Q ≡ₚ n :: D ++ prev :: y :: Q) as HP by (by rewrite (Permutation_swap n prev), <- Permutation_middle).
  rewrite HP in Hnd. apply NoDup_cons in Hnd as [Hnn Hnd]. by apply add_after_linked.
Qed.

(** Moving a node of [r] behind [d]. *)
Lemma relink_ok s d r1 n r2 D prev : lru_ok l s (d ++ r1 ++ n :: r2) -> h :: d = D ++ [prev] ->
  exists s', (let* s := unlink_node l n s in add_node_after l prev n s) = Ok s' /\ same_but swa s s'
    /\ lru_ok l s' (d ++ n :: r1 ++ r2).
Proof.
  intros Hok ED. pose proof (lru_ok_dom s _ n Hok ltac:(set_solver)) as Hn.
  assert (d ++ n :: r1 ++ r2 ≡ₚ d ++ r1 ++ n :: r2) as HP by by rewrite Permutation_middle.
  destruct (unlink_ok s (d ++ r1) n r2) as (s1 & -> & E1 & L1); [by rewrite <- app_assoc|]. simpl.
  rewrite <- (app_assoc d) in L1.
  destruct (link_ok s1 d (r1 ++ r2) D prev n L1) as (s2 & -> & E2 & L2); [|done|by rewrite (same_but_dom _ _ _ E1)|].
  { rewrite HP. apply Hok. }
  exists s2. split; [done|]. split; [by etrans|]. destruct Hok as [_ Hnd Hset Hsent]. constructor; [done| | |].
  - by rewrite HP.
  - rewrite Hset. apply set_eq. intros x. rewrite !elem_of_list_to_set. by rewrite HP.
  - eapply sent_same; [|done]. by etrans.
Qed.

Lemma listable_iff s i n : s !! i = Some n -> listable l n = true <-> node_listable swa s i.
Proof. intros H. unfold listable, node_listable. split; [eauto|]. intros (n' & ? & ?). by simplify_eq. Qed.

Lemma deref_dom s i : i ∈ dom s -> exists n, lru_deref s (Some i) = Ok (i, n) /\ s !! i = Some n.
Proof. intros [n Hn]%elem_of_dom. exists n. unfold lru_deref. by rewrite Hn. Qed.

Lemma cache_mem s ns n : lru_ok l s ns -> n ∈ lru_cache l <-> n ∈ ns.
Proof. intros H. by rewrite (lru_set _ _ _ H), elem_of_list_to_set. Qed.

Lemma lru_ok_nodup s ns : lru_ok l s ns -> NoDup ns.
Proof. intros [_ [_ (H & _ & _)%NoDup_app]%NoDup_cons _ _]. done. Qed.

Definition refines (s : store) (r : res (LRUList * store)) (o : option (list nat)) : Prop :=
  match o with
  | None => r = Raise AssertionError
  | Some ns => exists l' s', r = Ok (l', s') /\ lru_ok l' s' ns /\ same_but swa s s'
      /\ is_swa_list l' = swa /\ lru_head l' = h /\ lru_tail l' = t
  end.

Lemma insert_refines s ns n : lru_ok l s ns -> n ∈ dom s -> n <> h -> n <> t ->
  refines s (insert_mru l n s) (seq_op swa s (OpInsert n) ns).
Proof.
  intros Hok Hn Hh Ht. unfold insert_mru. destruct (deref_dom s n Hn) as (nd & -> & Hnd). simpl.
  pose proof (listable_iff s n nd Hnd) as Hl. pose proof (cache_mem s ns n Hok) as Hc.
  destruct (listable l nd) eqn:El; simpl; [|rewrite decide_False by naive_solver; done].
  destruct (decide (n ∈ ns)) as [Hin|Hin].
  { rewrite decide_False, bool_decide_true by naive_solver. done. }
  rewrite decide_True, bool_decide_false by naive_solver. simpl.
  destruct Hok as [Lk Nd Set_ Sent].
  assert (NoDup (h :: ([] ++ n :: ns) ++ [t])) as Nd'.
  { simpl. rewrite (Permutation_swap n h). constructor; [|done]. set_solver. }
  unfold add_node. destruct (link_ok s [] ns [] h n) as (s' & E & Es & L'); [done|done|done|done|].
  simpl. unfold add_node_after in *. simpl in *. rewrite E. simpl. eexists _, s'. split; [done|].
  split; [|done]. constructor; [done|done| |by eapply sent_same]. simpl. by rewrite Set_.
Qed.

Lemma remove_refines s ns n : lru_ok l s ns -> n ∈ dom s ->
  refines s (remove_node l n s) (seq_op swa s (OpRemove n) ns).
Proof.
  intros Hok Hn. unfold remove_node. destruct (deref_dom s n Hn) as (nd & -> & Hnd). simpl.
  pose proof (listable_iff s n nd Hnd) as Hl. pose proof (cache_mem s ns n Hok) as Hc.
  destruct (decide (n ∈ ns)) as [Hin|Hin].
  2:{ rewrite decide_False, bool_decide_false by naive_solver. done. }
  rewrite bool_decide_true by naive_solver. simpl.
  destruct (listable l nd) eqn:El; simpl; [|rewrite decide_False by naive_solver; done].
  rewrite decide_True by naive_solver. pose proof (lru_ok_nodup s ns Hok) as Hnn.
  apply list_elem_of_split in Hin as (a & b & ->). rewrite filter_ne_middle by done.
  destruct (unlink_ok s a n b Hok) as (s' & E & Es & L'). unfold unlink_node in *. simpl in *. rewrite E. simpl.
  eexists _, s'. split; [done|]. split; [|done]. destruct Hok as [Lk Nd Set_ Sent].
  constructor; [done| | |by eapply sent_same]; simpl.
  - simpl in Nd. rewrite <- (Permutation_middle a b n) in Nd. simpl in Nd. rewrite (Permutation_swap n h) in Nd. by apply NoDup_cons in Nd as [_ ?].
  - rewrite Set_. apply set_eq. intros x. rewrite <- Permutation_middle in Hnn. apply NoDup_cons in Hnn as [Hna _].
    rewrite elem_of_difference, !elem_of_list_to_set, !elem_of_app, elem_of_cons, elem_of_singleton, <- elem_of_app in *. set_solver.
Qed.

Lemma reset_refines s ns n : lru_ok l s ns -> n ∈ dom s ->
  refines s (run_op (OpReset n) l s) (seq_op swa s (OpReset n) ns).
Proof.
  intros Hok Hn. simpl. unfold reset_node_mru. destruct (deref_dom s n Hn) as (nd & -> & Hnd). simpl.
  pose proof (listable_iff s n nd Hnd) as Hl. pose proof (cache_mem s ns n Hok) as Hc.
  destruct (decide (n ∈ ns)) as [Hin|Hin].
  2:{ rewrite decide_False, bool_decide_false by naive_solver. done. }
  rewrite bool_decide_true by naive_solver. simpl.
  destruct (listable l nd) eqn:El; simpl; [|rewrite decide_False by naive_solver; done].
  rewrite decide_True by naive_solver. pose proof (lru_ok_nodup s ns Hok) as Hnn.
  apply list_elem_of_split in Hin as (a & b & ->). rewrite filter_ne_middle by done.
  destruct (relink_ok s [] a n b [] h Hok eq_refl) as (s' & E & Es & Hok').
  unfold add_node. rewrite E. simpl. eexists l, s'. done.
Qed.
End OneList.

(** ** Moving a node and its parents *)

Section Path.
Context (l : LRUList) (s0 : store) (root : nat).
Local Abbreviation swa := (is_swa_list l).

(** The nodes of a path that belong to the list, children first. *)
Definition moved_of (p : list nat) : list nat := filter (node_listable swa s0) p.

Lemma moved_cons_listed i p : node_listable swa s0 i -> moved_of (i :: p) = i :: moved_of p.
Proof. intros. by apply filter_cons_True. Qed.
Lemma moved_cons_skipped i p : ~ node_listable swa s0 i -> moved_of (i :: p) = moved_of p.
Proof. intros. by apply filter_cons_False. Qed.

Lemma reset_path_ok p : forall fuel x s d r D prev, path_to s0 root x p -> same_nodes s0 s -> lru_ok l s (d ++ r) ->
  lru_head l :: d = D ++ [prev] -> (forall i, i ∈ p -> i ∉ d) -> (length p < fuel)%nat ->
  if decide (moved_of p ⊆ r)
  then exists s', reset_path fuel l root x prev s = Ok s' /\ same_but swa s s'
         /\ lru_ok l s' (d ++ moved_of p ++ filter (.∉ moved_of p) r)
  else reset_path fuel l root x prev s = Raise AssertionError.
Proof.
  induction p as [|i p IH]; intros fuel x s d r D prev Hp Hs Hok HD Hdis Hf;
    (destruct fuel as [|fuel]; [simpl in Hf; lia|]); inversion Hp as [|? n ? Hi Hn Hp']; subst; cbn [reset_path].
  - rewrite !decide_True by set_solver. exists s. split; [done|]. split; [done|].
    rewrite filter_all by (apply Forall_forall; set_solver). done.
  - rewrite (decide_False (P := Some i = Some root)) by congruence.
    destruct (same_nodes_lookup s0 s i n Hs Hn) as (n' & Hn' & En).
    rewrite (deref_lookup s i n' Hn'). cbn [res_bind].
    pose proof (listable_iff l s i n' Hn') as Hl. rewrite <- (node_listable_same swa s0 s i Hs) in Hl.
    pose proof (path_to_nodup _ _ _ _ Hp) as [Hip Hpn]%NoDup_cons. simpl in Hf.
    destruct (listable l n') eqn:El; cbn [res_bind].
    + rewrite moved_cons_listed by tauto. pose proof (cache_mem l s _ i Hok) as Hc.
      assert (i ∈ d ++ r <-> i ∈ r) as Hir by (rewrite elem_of_app; specialize (Hdis i ltac:(left)); tauto).
      destruct (decide (i ∈ r)) as [Hin|Hin].
      2:{ rewrite bool_decide_false, decide_False by set_solver. done. }
      rewrite bool_decide_true by tauto. cbn [res_bind].
      pose proof (lru_ok_nodup l s _ Hok) as (_ & _ & Hnr)%NoDup_app.
      apply list_elem_of_split in Hin as (r1 & r2 & ->).
      destruct (relink_ok l s d r1 i r2 D prev Hok HD) as (s1 & E & Es & Hok1).
      apply res_bind_Ok in E as (su & -> & E). cbn [res_bind]. rewrite E. cbn [res_bind].
      destruct (same_nodes_lookup s s1 i n') as (n3 & Hn3 & En3); [by eapply same_but_nodes|done|].
      rewrite (deref_lookup s1 i n3 Hn3). cbn [res_bind]. rewrite (bare_parent _ _ En3), (bare_parent _ _ En).
      assert (same_nodes s0 s1) as Hs1 by (etrans; [done|by eapply same_but_nodes]).
      assert (forall j, j ∈ p -> j ∉ d ++ [i]) as Hdis1 by (intros j Hj; specialize (Hdis j ltac:(by right)); set_solver).
      specialize (IH fuel (sn_parent n) s1 (d ++ [i]) (r1 ++ r2) (lru_head l :: d) i Hp' Hs1).
      rewrite <- (app_assoc d) in IH. specialize (IH Hok1 eq_refl Hdis1 ltac:(lia)).
      assert (NoDup (i :: r1 ++ r2)) as [Hi12 _]%NoDup_cons by by rewrite Permutation_middle.
      assert (i ∉ moved_of p) as Him by (unfold moved_of; rewrite list_elem_of_filter; tauto).
      destruct (decide (moved_of p ⊆ r1 ++ r2)) as [Hsub|Hsub].
      * rewrite decide_True by by apply subset_skip. destruct IH as (s2 & -> & Es2 & Hok2). exists s2. split; [done|].
        split; [by etrans|]. replace (filter (.∉ i :: moved_of p) (r1 ++ i :: r2)) with (filter (.∉ moved_of p) (r1 ++ r2)).
        { by rewrite <- app_assoc in Hok2. }
        by apply filter_skip.
      * rewrite decide_False; [done|]. by rewrite subset_skip.
    + rewrite moved_cons_skipped by (rewrite <- Hl; done). rewrite (bare_parent _ _ En).
      apply (IH fuel _ s d r D prev); [done|done|done|done|set_solver|lia].
Qed.
End Path.

Lemma seq_op_same swa s s' op ns : same_nodes s s' -> (forall n root, op = OpResetPath n root -> exists p, path_to s root (Some n) p) ->
  seq_op swa s' op ns = seq_op swa s op ns.
Proof.
  intros E Hp. assert (forall i, node_listable swa s i <-> node_listable swa s' i) as Hl by (intros; by apply node_listable_same).
  destruct op as [n|n|n|n root]; simpl; [by apply decide_ext; rewrite Hl..|].
  destruct (Hp n root eq_refl) as [p HP]. rewrite (same_nodes_size s s' E).
  pose proof (path_to_length _ _ _ _ HP) as Hlen. pose proof (path_to_same _ _ _ _ _ E HP) as HP'.
  rewrite (ancestors_path s root _ p), (ancestors_path s' root _ p) by done.
  rewrite (list_filter_iff (node_listable swa s') (node_listable swa s)) by (intros; symmetry; apply Hl). done.
Qed.

Lemma run_op_refines l s op ns : lru_ok l s ns -> op_ok l s op ->
  refines l s (run_op op l s) (seq_op (is_swa_list l) s op ns).
Proof.
  intros Hok Hop. destruct op as [n|n|n|n root].
  - destruct Hop as (? & ? & ?). by apply insert_refines.
  - destruct Hop as (? & ? & ?). by apply remove_refines.
  - destruct Hop as (? & ? & ?). by apply reset_refines.
  - destruct Hop as [p Hp]. cbn [run_op seq_op]. unfold reset_node_and_parents_mru. pose proof (path_to_length _ _ _ _ Hp) as Hlen.
    rewrite (ancestors_path _ _ _ p) by done.
    pose proof (reset_path_ok l s root p (S (size s)) (Some n) s [] ns [] (lru_head l) Hp) as H. rewrite !(app_nil_l _) in H.
    specialize (H ltac:(reflexivity) Hok eq_refl (fun i _ => not_elem_of_nil i) ltac:(lia)). unfold moved_of in H. cbn [run_op seq_op].
    destruct (decide _) as [Hs|Hs]; [|by rewrite H]. destruct H as (s' & -> & Es & Hok'). simpl. eexists l, s'. done.
Qed.

(** ** Both lists *)

Record lru_pair := MkLruPair { lp_full : LRUList; lp_swa : LRUList; lp_store : store }.

Fixpoint run_ops (ops : list (bool * lru_op)) (st : lru_pair) : res lru_pair :=
  match ops with
  | [] => Ok st
  | (false, op) :: ops =>
      let* (l, s) := run_op op (lp_full st) (lp_store st) in run_ops ops (MkLruPair l (lp_swa st) s)
  | (true, op) :: ops =>
      let* (l, s) := run_op op (lp_swa st) (lp_store st) in run_ops ops (MkLruPair (lp_full st) l s)
  end.

Fixpoint seq_ops (s : store) (ops : list (bool * lru_op)) (q : list nat * list nat) : option (list nat * list nat) :=
  match ops with
  | [] => Some q
  | (false, op) :: ops => ns ← seq_op false s op q.1; seq_ops s ops (ns, q.2)
  | (true, op) :: ops => ns ← seq_op true s op q.2; seq_ops s ops (q.1, ns)
  end.

Record lists_ok (st : lru_pair) (q : list nat * list nat) : Prop := {
  lo_full : lru_ok (lp_full st) (lp_store st) q.1;
  lo_swa : lru_ok (lp_swa st) (lp_store st) q.2;
  lo_kinds : is_swa_list (lp_full st) = false /\ is_swa_list (lp_swa st) = true
}.

(** An operation's node is not a dummy of either list and its path ends at the root. *)
Definition ops_ok (st : lru_pair) (ops : list (bool * lru_op)) : Prop :=
  Forall (fun o => op_ok (lp_full st) (lp_store st) o.2 /\ op_ok (lp_swa st) (lp_store st) o.2) ops.

Lemma op_ok_same l l' s s' op : lru_head l' = lru_head l -> lru_tail l' = lru_tail l -> same_nodes s s' ->
  op_ok l s op -> op_ok l' s' op.
Proof.
  intros Eh Et Es. destruct op; simpl; rewrite ?Eh, ?Et, ?(same_nodes_dom s s' Es); [done..|].
  intros [p Hp]. exists p. by eapply path_to_same.
Qed.

(** The two cases of a step differ only in which list moves. *)
Lemma step_lists st q (swa : bool) op : lists_ok st q -> let l := if swa then lp_swa st else lp_full st in
  op_ok l (lp_store st) op ->
  match seq_op swa (lp_store st) op (if swa then q.2 else q.1) with
  | None => run_op op l (lp_store st) = Raise AssertionError
  | Some ns => exists l' s', run_op op l (lp_store st) = Ok (l', s') /\ same_nodes (lp_store st) s'
      /\ lru_head l' = lru_head l /\ lru_tail l' = lru_tail l
      /\ lists_ok (if swa then MkLruPair (lp_full st) l' s' else MkLruPair l' (lp_swa st) s') (if swa then (q.1, ns) else (ns, q.2))
  end.
Proof.
  intros [Hf Hs [Kf Ks]] l Hop.
  assert (refines l (lp_store st) (run_op op l (lp_store st)) (seq_op swa (lp_store st) op (if swa then q.2 else q.1))) as H.
  { assert (is_swa_list l = swa) as Kl by (unfold l; by destruct swa). pose proof (run_op_refines l (lp_store st) op (if swa then q.2 else q.1)) as R. rewrite Kl in R.
    apply R; [|done]. unfold l. by destruct swa. }
  destruct (seq_op _ _ _ _) as [ns|]; [|done]. destruct H as (l' & s' & E & Hok & Es & K & Eh & Et).
  exists l', s'. split; [done|]. split; [by eapply same_but_nodes|]. split; [done|]. split; [done|].
  unfold l in *. destruct swa; constructor; simpl; [|done|by rewrite K| |..].
  - eapply lru_ok_other; [|done]. rewrite Kf. by rewrite Ks in Es.
  - done.
  - eapply lru_ok_other; [|done]. rewrite Ks. by rewrite Kf in Es.
  - by rewrite K.
Qed.

Lemma run_ops_refine ops : forall s0 st q, lists_ok st q -> ops_ok st ops -> same_nodes s0 (lp_store st) ->
  match seq_ops s0 ops q with
  | None => run_ops ops st = Raise AssertionError
  | Some q' => exists st', run_ops ops st = Ok st' /\ lists_ok st' q' /\ same_nodes s0 (lp_store st')
  end.
Proof.
  induction ops as [|[swa op] ops IH]; intros s0 st q Hok Hops Es; simpl; [eauto|].
  apply Forall_cons in Hops as [[Of Os] Hops]. simpl in Of, Os.
  pose proof (step_lists st q swa op Hok) as H. simpl in H.
  rewrite (seq_op_same _ s0 (lp_store st)) in H; [|done|].
  2:{ intros n root ->. destruct Of as [p Hp]. exists p. by eapply path_to_same; [symmetry|]. }
  destruct swa; (specialize (H ltac:(assumption)); destruct (seq_op _ _ _ _) as [ns|]; simpl; [|by rewrite H];
    destruct H as (l' & s' & -> & Es' & Eh & Et & Hok'); simpl; apply IH; [done| |by etrans];
    eapply Forall_impl; [done|]; intros o [??]; simpl; split; by eapply op_ok_same).
Qed.

(** ** Searches *)

Section FindUnlocked.
Context (skip : SwaNode -> bool).

Definition qualifies (s : store) (i : nat) : Prop := exists n, s !! i = Some n /\ skip n = false.
#[export] Instance qualifies_dec s i : Decision (qualifies s i).
Proof.
  unfold qualifies. destruct (s !! i) as [n|]; [|right; naive_solver].
  destruct (skip n) eqn:E; [right; intros (? & [= <-] & ?); congruence|left; eauto].
Defined.

(** The walk stops at the last node that qualifies, or at the head. *)
Lemma prev_while_ok swa s h a : forall x fuel, chained swa s (h :: a ++ [x]) -> qualifies s h -> (length a < fuel)%nat ->
  prev_while skip swa fuel s (prv_of swa s x) = Ok (default h (last (filter (qualifies s) a))).
Proof.
  induction a as [|y a IH] using rev_ind; intros x fuel H Hh Hf; (destruct fuel as [|fuel]; [lia|]).
  - simpl in H. destruct H as (_ & -> & _), Hh as (n & Hn & Hs). cbn [prev_while].
    rewrite (deref_lookup _ _ _ Hn). simpl. by rewrite Hs.
  - rewrite <- app_assoc in H. change (h :: a ++ [y] ++ [x]) with ((h :: a) ++ y :: x :: []) in H.
    apply linked_mid in H as (H & Hn & -> & _). apply nxt_dom in Hn. destruct (deref_dom s y Hn) as (n & Hd & Hy).
    cbn [prev_while]. rewrite Hd. simpl. rewrite filter_app, length_app in *. simpl in Hf.
    destruct (skip n) eqn:E.
    + rewrite filter_cons_False, filter_nil, app_nil_r by (intros (? & ? & ?); congruence).
      replace (get_prv swa n) with (prv_of swa s y) by (unfold prv_of; by rewrite Hy).
      apply IH; [done|done|lia].
    + rewrite filter_cons_True, filter_nil, last_snoc by (exists n; done). done.
Qed.

(** A search from a node of the list, or from its tail: [a] is what precedes it. *)
Lemma prev_search l s ns a x b : lru_ok l s ns -> lru_head l :: ns ++ [lru_tail l] = lru_head l :: a ++ x :: b ->
  qualifies s (lru_head l) ->
  (let* (_, n) := lru_deref s (Some x) in
   let* y := prev_while skip (is_swa_list l) (S (size (lru_cache l))) s (get_prv (is_swa_list l) n) in
   Ok (if decide (y = lru_head l) then None else Some y)) = Ok (last (filter (qualifies s) a)).
Proof.
  intros Hok E Hq. pose proof (lru_linked _ _ _ Hok) as H. pose proof (lru_nodup _ _ _ Hok) as Hnd. rewrite E in H, Hnd.
  change (lru_head l :: a ++ x :: b) with ((lru_head l :: a) ++ x :: b) in H. apply linked_app in H as [H _].
  assert (x ∈ dom s) as Hx.
  { destruct (cons_snoc (lru_head l) a) as (P & y & EP). rewrite EP, <- app_assoc in H. apply linked_mid in H as (_ & _ & H & _).
    by eapply prv_dom. }
  destruct (deref_dom s x Hx) as (n & -> & Hn). cbn [res_bind].
  replace (get_prv (is_swa_list l) n) with (prv_of (is_swa_list l) s x) by (unfold prv_of; by rewrite Hn).
  rewrite (prev_while_ok _ s (lru_head l) a); [|done|done|].
  - simpl. destruct (last (filter _ a)) as [y|] eqn:El; simpl; [|by rewrite decide_True].
    rewrite decide_False; [done|]. intros ->. apply last_Some_elem_of, list_elem_of_filter in El as [_ El].
    apply NoDup_cons in Hnd as [Hnd _]. set_solver.
  - rewrite (lru_set _ _ _ Hok), size_list_to_set by by eapply lru_ok_nodup.
    injection E as E. apply (f_equal length) in E. rewrite !length_app in E. simpl in E. lia.
Qed.
End FindUnlocked.

(** Nodes that may be evicted: not locked, and for a leaf search without children. *)
Definition unlocked (swa : bool) (s : store) (i : nat) : Prop := exists n, s !! i = Some n /\ get_lock_ref swa n <= 0.
Definition unlocked_leaf (swa : bool) (s : store) (i : nat) : Prop :=
  exists n, s !! i = Some n /\ get_lock_ref swa n <= 0 /\ sn_children n = ∅.

#[export] Instance unlocked_dec swa s i : Decision (unlocked swa s i).
Proof.
  unfold unlocked. destruct (s !! i) as [n|]; [|right; naive_solver].
  destruct (decide (get_lock_ref swa n <= 0)); [left; eauto|right; naive_solver].
Defined.
#[export] Instance unlocked_leaf_dec swa s i : Decision (unlocked_leaf swa s i).
Proof.
  unfold unlocked_leaf. destruct (s !! i) as [n|]; [|right; naive_solver].
  destruct (decide (get_lock_ref swa n <= 0 /\ sn_children n = ∅)); [left; eauto|right; naive_solver].
Defined.

Lemma unlocked_qualifies swa s i : qualifies (skip_locked swa) s i <-> unlocked swa s i.
Proof.
  unfold qualifies, unlocked, skip_locked. split; intros (n & Hn & H); exists n; (split; [done|]); [by apply Z.ltb_ge|by apply Z.ltb_ge].
Qed.
Lemma unlocked_leaf_qualifies swa s i : qualifies (skip_locked_or_internal swa) s i <-> unlocked_leaf swa s i.
Proof.
  unfold qualifies, unlocked_leaf, skip_locked_or_internal. split; intros (n & Hn & H); exists n; (split; [done|]).
  - apply orb_false_iff in H as [H1%Z.ltb_ge H2]. apply negb_false_iff, bool_decide_eq_true in H2. by apply map_size_empty_iff in H2.
  - destruct H as [H1 H2]. apply orb_false_iff. split; [by apply Z.ltb_ge|]. by rewrite H2, map_size_empty.
Qed.

Section Searches.
Context (l : LRUList) (s : store) (ns : list nat) (Hok : lru_ok l s ns).
Local Abbreviation swa := (is_swa_list l).

Lemma head_unlocked : unlocked_leaf swa s (lru_head l).
Proof. destruct (lru_sent _ _ _ Hok) as (n & Hn & H1 & H2 & H3). exists n. unfold get_lock_ref. destruct swa; split_and!; try done; lia. Qed.

Lemma get_prev_no_lock_ok a x b c : (c = true -> x ∈ ns) -> ns ++ [lru_tail l] = a ++ x :: b ->
  get_prev_no_lock l x c s = Ok (last (filter (unlocked swa s) a)).
Proof.
  intros Hc E. unfold get_prev_no_lock.
  rewrite (list_filter_iff (unlocked swa s) (qualifies (skip_locked swa) s)) by (intros; symmetry; apply unlocked_qualifies).
  pose proof (prev_search (skip_locked swa) l s ns a x b Hok ltac:(by rewrite E)) as H.
  replace (if c then _ else _) with (Ok tt).
  { apply H, unlocked_qualifies. destruct head_unlocked as (n & ? & ? & _). by exists n. }
  destruct c; [|done]. rewrite bool_decide_true; [done|]. apply (cache_mem l s ns x Hok); auto.
Qed.

Lemma get_prev_leaf_no_lock_ok a x b c : (c = true -> x ∈ ns) -> ns ++ [lru_tail l] = a ++ x :: b ->
  get_prev_leaf_no_lock l x c s = Ok (last (filter (unlocked_leaf swa s) a)).
Proof.
  intros Hc E. unfold get_prev_leaf_no_lock.
  rewrite (list_filter_iff (unlocked_leaf swa s) (qualifies (skip_locked_or_internal swa) s)) by (intros; symmetry; apply unlocked_leaf_qualifies).
  pose proof (prev_search (skip_locked_or_internal swa) l s ns a x b Hok ltac:(by rewrite E)) as H.
  replace (if c then _ else _) with (Ok tt); [apply H, unlocked_leaf_qualifies, head_unlocked|].
  destruct c; [|done]. rewrite bool_decide_true; [done|]. apply (cache_mem l s ns x Hok); auto.
Qed.

Lemma get_lru_no_lock_ok : get_lru_no_lock l s = Ok (last (filter (unlocked swa s) ns)).
Proof. by apply (get_prev_no_lock_ok ns _ []). Qed.
Lemma get_leaf_lru_no_lock_ok : get_leaf_lru_no_lock l s = Ok (last (filter (unlocked_leaf swa s) ns)).
Proof. by apply (get_prev_leaf_no_lock_ok ns _ []). Qed.

(** [len(node.value)] of a node that has one. *)
Definition vlen (i : nat) : Z := match s !! i with Some n => default 0 (zlen <$> sn_value n) | None => 0 end.
Definition has_value (i : nat) : Prop := exists n v, s !! i = Some n /\ sn_value n = Some v.

Lemma evictable_loop_ok a : forall b fuel acc, ns = a ++ b -> Forall has_value ns -> (length a < fuel)%nat ->
  evictable_loop fuel l s (last (filter (unlocked swa s) a)) acc
  = Ok (acc + zsum (map vlen (filter (unlocked swa s) a))).
Proof.
  induction a as [|y a IH] using rev_ind; intros b fuel acc E Hv Hf; (destruct fuel as [|fuel]; [lia|]); [simpl; f_equal; lia|].
  rewrite filter_app. destruct (decide (unlocked swa s y)) as [Hu|Hu].
  - rewrite filter_cons_True, filter_nil, last_snoc by done. cbn [evictable_loop].
    assert (y ∈ ns) as Hy by (rewrite E; set_solver).
    unfold in_list. rewrite bool_decide_true by by apply (cache_mem l s ns y Hok).
    destruct ((proj1 (Forall_forall _ _) Hv) y Hy) as (n & v & Hn & En). rewrite (deref_lookup _ _ _ Hn). cbn [res_bind].
    unfold value_len. rewrite En. cbn [res_bind]. rewrite <- app_assoc in E.
    rewrite (get_prev_no_lock_ok a y (b ++ [lru_tail l])); [|done|by rewrite E, <- !app_assoc]. cbn [res_bind].
    rewrite length_app in Hf. simpl in Hf. rewrite (IH ([y] ++ b)); [|done|done|lia].
    f_equal. rewrite map_app, zsum_app. simpl. unfold vlen at 3. rewrite Hn, En. simpl. lia.
  - rewrite filter_cons_False, filter_nil, app_nil_r by done. rewrite length_app in Hf. simpl in Hf.
    rewrite (IH ([y] ++ b)); [done|by rewrite E, <- app_assoc|done|lia].
Qed.

Lemma sanity_check_evictable_size_ok : Forall has_value ns ->
  sanity_check_evictable_size l s = Ok (zsum (map vlen (filter (unlocked swa s) ns))).
Proof.
  intros Hv. unfold sanity_check_evictable_size. rewrite get_lru_no_lock_ok. cbn [res_bind].
  rewrite (evictable_loop_ok ns []); [done|by rewrite app_nil_r|done|].
  rewrite (lru_set _ _ _ Hok), size_list_to_set; [lia|]. by eapply lru_ok_nodup.
Qed.
End Searches.
