(* ===== verification/SwaAllocator.v ===== *)
(** The allocator of hybrid sliding-window models.

    [SWATokenToKVPoolAllocator] of [mem_cache/swa_memory_pool.py] holds two allocators, one for
    the full-attention layers and one for the sliding-window layers, and a table from full slots
    to sliding-window slots; a client only sees full slots.  Entry 0 of the table means that the
    sliding-window slot has been given back; the entry after the last one is [-1], so that the
    index [-1] is mapped to [-1].

    The theorems are for the token-wise allocators ([page_size == 1], where [alloc] is used): at
    every moment the slots a client holds and the free ones make up the full pool, and the slots
    the table assigns to them and the free ones make up the sliding-window pool. *)

From S2P Require Export Prelude Triton AllocKernels Allocator KVAlloc.

(** ** State *)

Record swa_allocator : Type := MkSwaAllocator {
  sa_page_size : Z;
  sa_npu : bool;
  size_full : Z;
  size_swa : Z;
  full_attn_allocator : allocator;
  swa_attn_allocator : allocator;
  full_to_swa_index_mapping : list Z;
  sa_not_in_free_group : bool;
  sa_free_group : list (list Z)
}.

Definition set_pools (a : swa_allocator) (full swa : allocator) (m : list Z) : swa_allocator :=
  MkSwaAllocator (sa_page_size a) (sa_npu a) (size_full a) (size_swa a) full swa m
    (sa_not_in_free_group a) (sa_free_group a).
Definition set_swa_group (a : swa_allocator) (outside : bool) (g : list (list Z)) : swa_allocator :=
  MkSwaAllocator (sa_page_size a) (sa_npu a) (size_full a) (size_swa a) (full_attn_allocator a)
    (swa_attn_allocator a) (full_to_swa_index_mapping a) outside g.

(** ** The two allocators, by page size and platform *)

Definition sub_init (size page_size : Z) (need_sort debug : bool) : allocator :=
  if page_size =? 1 then token_init size need_sort else paged_init size page_size need_sort debug.
Definition sub_clear (a : swa_allocator) (s : allocator) : allocator :=
  if sa_page_size a =? 1 then token_clear s else paged_clear s.
Definition sub_available (a : swa_allocator) (s : allocator) : Z :=
  if sa_page_size a =? 1 then token_available_size s else available_size s.
Definition sub_free (a : swa_allocator) (s : allocator) (free_index : list Z) : res allocator :=
  if sa_page_size a =? 1 then token_free s free_index
  else if sa_npu a then npu_free s free_index else paged_free s free_index.

(** ** Methods *)

(** [__init__]; it ends with [clear()]. *)
Definition swa_clear (a : swa_allocator) : swa_allocator :=
  let m := full_to_swa_index_mapping a in
  let a := set_pools a (sub_clear a (full_attn_allocator a)) (sub_clear a (swa_attn_allocator a))
             (map (fun _ => 0) (py_upto m (zlen m - 1)) ++ py_from m (zlen m - 1)) in
  set_swa_group a true [].

Definition swa_init (npu : bool) (size size_swa page_size : Z) (need_sort debug : bool) : swa_allocator :=
  swa_clear (MkSwaAllocator page_size npu size size_swa
    (sub_init size page_size need_sort debug) (sub_init size_swa page_size need_sort debug)
    (repeat 0 (Z.to_nat (size + page_size)) ++ [-1]) true []).

Definition full_available_size (a : swa_allocator) : Z := sub_available a (full_attn_allocator a).
Definition swa_available_size (a : swa_allocator) : Z := sub_available a (swa_attn_allocator a).
Definition swa_pool_available_size (a : swa_allocator) : Z :=
  Z.min (full_available_size a) (swa_available_size a).

Definition translate_loc_from_full_to_swa (a : swa_allocator) (kv_indices : list Z) : res (list Z) :=
  let* l := gather (full_to_swa_index_mapping a) kv_indices in Ok (map to_int32 l).

(** The assignment [self.full_to_swa_index_mapping[full] = swa] that ends every allocation. *)
Definition map_slots (a : swa_allocator) (full swa : allocator) (full_indices swa_indices : list Z)
  : res (option (list Z) * swa_allocator) :=
  let* m := scatter (full_to_swa_index_mapping a) full_indices swa_indices in
  Ok (Some full_indices, set_pools a full swa m).

Definition swa_alloc (a : swa_allocator) (need_size : Z) : res (option (list Z) * swa_allocator) :=
  let* _ := py_assert (sa_page_size a =? 1) in
  if full_available_size a <? need_size then Ok (None, a) else
  if swa_available_size a <? need_size then Ok (None, a) else
  let (alloc_full_indices, full) := token_alloc (full_attn_allocator a) need_size in
  let (alloc_swa_indices, swa) := token_alloc (swa_attn_allocator a) need_size in
  match alloc_full_indices, alloc_swa_indices with
  | Some f, Some s => map_slots a full swa f s
  | _, _ => Raise AssertionError
  end.

Definition swa_free_swa (a : swa_allocator) (free_index : list Z) : res swa_allocator :=
  let* swa_indices := gather (full_to_swa_index_mapping a) free_index in
  let swa_indices := filter (fun x => 0 < x) swa_indices in
  let* swa := sub_free a (swa_attn_allocator a) swa_indices in
  let* m := scatter (full_to_swa_index_mapping a) free_index (map (fun _ => 0) free_index) in
  Ok (set_pools a (full_attn_allocator a) swa m).

Definition swa_free (a : swa_allocator) (free_index : list Z) : res swa_allocator :=
  if zlen free_index =? 0 then Ok a
  else
    let* a :=
      if sa_not_in_free_group a then
        let* full := sub_free a (full_attn_allocator a) free_index in
        swa_free_swa (set_pools a full (swa_attn_allocator a) (full_to_swa_index_mapping a)) free_index
      else Ok (set_swa_group a false (sa_free_group a ++ [free_index])) in
    let* _ := py_assert (full_available_size a <=? size (full_attn_allocator a)) in
    let* _ := py_assert (swa_available_size a <=? size (swa_attn_allocator a)) in
    Ok a.

Definition set_full_to_swa_mapping (a : swa_allocator) (full_indices swa_indices : list Z) : res swa_allocator :=
  if zlen full_indices =? 0 then Ok a
  else
    let* _ := py_assert (zlen full_indices =? zlen swa_indices) in
    let* m := scatter (full_to_swa_index_mapping a) full_indices swa_indices in
    Ok (set_pools a (full_attn_allocator a) (swa_attn_allocator a) m).

Definition swa_backup_state (a : swa_allocator) : (list Z * list Z) * (list Z * list Z) :=
  (backup_state (full_attn_allocator a), backup_state (swa_attn_allocator a)).
Definition swa_restore_state (a : swa_allocator) (state : (list Z * list Z) * (list Z * list Z)) : swa_allocator :=
  set_pools a (restore_state (full_attn_allocator a) state.1) (restore_state (swa_attn_allocator a) state.2)
    (full_to_swa_index_mapping a).

(** Inherited from [BaseTokenToKVPoolAllocator]. *)
Definition swa_free_group_begin (a : swa_allocator) : swa_allocator := set_swa_group a false [].
Definition swa_free_group_end (a : swa_allocator) : res swa_allocator :=
  let a := set_swa_group a true (sa_free_group a) in
  match sa_free_group a with [] => Ok a | g => swa_free a (concat g) end.

(** The paged allocations; [oob], [undef] and [empty] as in [Allocator.v]. *)
Section SwaExtend.
Context (oob : Z -> Z) (undef : Z) (empty : Z -> list Z).

Definition sub_alloc_extend (a : swa_allocator) (s : allocator) (prefix_lens seq_lens last_loc : list Z)
    (extend_num_tokens num_new_pages : Z) : res (option (list Z) * allocator) :=
  if sa_npu a then npu_alloc_extend oob undef empty s prefix_lens seq_lens last_loc extend_num_tokens (Some num_new_pages)
  else paged_alloc_extend oob undef empty s prefix_lens seq_lens last_loc extend_num_tokens (Some num_new_pages).
Definition sub_alloc_decode (a : swa_allocator) (s : allocator) (seq_lens last_loc : list Z)
  : res (option (list Z) * allocator) :=
  if sa_npu a then npu_alloc_decode s seq_lens last_loc else paged_alloc_decode oob undef empty s seq_lens last_loc.

Definition swa_alloc_extend (a : swa_allocator) (prefix_lens seq_lens last_loc : list Z) (extend_num_tokens : Z)
  : res (option (list Z) * swa_allocator) :=
  let* _ := py_assert (1 <? sa_page_size a) in
  let num_new_pages := get_num_new_pages seq_lens (sa_page_size a) prefix_lens in
  if full_available_size a / sa_page_size a <? num_new_pages then Ok (None, a) else
  if swa_available_size a / sa_page_size a <? num_new_pages then Ok (None, a) else
  let* swa_last_loc := translate_loc_from_full_to_swa a last_loc in
  let* (f, full) := sub_alloc_extend a (full_attn_allocator a) prefix_lens seq_lens last_loc extend_num_tokens num_new_pages in
  let* (s, swa) := sub_alloc_extend a (swa_attn_allocator a) prefix_lens seq_lens swa_last_loc extend_num_tokens num_new_pages in
  match f, s with
  | Some f, Some s => map_slots a full swa f s
  | _, _ => Raise AssertionError
  end.

(** Nothing is given back when only one of the two allocators can serve the batch. *)
Definition swa_alloc_decode (a : swa_allocator) (seq_lens last_loc : list Z) : res (option (list Z) * swa_allocator) :=
  let* _ := py_assert (1 <? sa_page_size a) in
  let* swa_last_loc := translate_loc_from_full_to_swa a last_loc in
  let* (f, full) := sub_alloc_decode a (full_attn_allocator a) seq_lens last_loc in
  let* (s, swa) := sub_alloc_decode a (swa_attn_allocator a) seq_lens swa_last_loc in
  match f, s with
  | Some f, Some s => map_slots a full swa f s
  | _, _ => Ok (None, set_pools a full swa (full_to_swa_index_mapping a))
  end.
End SwaExtend.

(** ** The invariant of the token-wise allocator *)

#[local] Existing Instance token_pool.

(** The entry of a slot, and the sliding-window slots that back a list of slots. *)
Definition swa_of (m : list Z) (x : Z) : Z := nth (Z.to_nat x) m 0.
Definition live (m U : list Z) : list Z := filter (fun x => 0 < x) (map (swa_of m) U).

(** Slots freed inside a free group. *)
Definition swa_pending (a : swa_allocator) : list Z :=
  if sa_not_in_free_group a then [] else concat (sa_free_group a).

(** The table and the sliding-window pool, for the full slots [U] that are not free. *)
Record tab_ok (a : swa_allocator) (U : list Z) : Prop := {
  tab_ps : sa_page_size a = 1;
  tab_len : zlen (full_to_swa_index_mapping a) = size_full a + 2;
  tab_zero : forall x, 0 <= x <= size_full a -> x ∉ U -> swa_of (full_to_swa_index_mapping a) x = 0;
  tab_nonneg : forall x, 0 <= x <= size_full a -> 0 <= swa_of (full_to_swa_index_mapping a) x;
  tab_last : swa_of (full_to_swa_index_mapping a) (size_full a + 1) = -1;
  tab_swa : kv_owns (swa_attn_allocator a) (live (full_to_swa_index_mapping a) U);
  tab_size : size (swa_attn_allocator a) = size_swa a /\ 0 <= size_swa a /\ 0 <= size_full a
}.

Record full_ok (a : swa_allocator) (U : list Z) : Prop := {
  full_owns : kv_owns (full_attn_allocator a) U;
  full_size : size (full_attn_allocator a) = size_full a /\ 0 <= size_full a
}.

Definition swa_inv (a : swa_allocator) (held : list Z) : Prop :=
  tab_ok a (held ++ swa_pending a) /\ full_ok a (held ++ swa_pending a).

(** What the client does: it frees slots it holds, may give back the sliding-window side of
    slots it holds, and closes the groups it opens. *)
Inductive swa_step : swa_allocator * list Z -> swa_allocator * list Z -> Prop :=
  | ss_alloc a held n out a' : 0 <= n -> swa_alloc a n = Ok (Some out, a') -> swa_step (a, held) (a', out ++ held)
  | ss_alloc_fail a held n a' : 0 <= n -> swa_alloc a n = Ok (None, a') -> swa_step (a, held) (a', held)
  | ss_free a held idx rest a' : Permutation held (idx ++ rest) -> swa_free a idx = Ok a' ->
      swa_step (a, held) (a', rest)
  | ss_free_swa a held idx rest a' : Permutation held (idx ++ rest) -> swa_free_swa a idx = Ok a' ->
      swa_step (a, held) (a', held)
  | ss_group_begin a held : sa_not_in_free_group a = true -> swa_step (a, held) (swa_free_group_begin a, held)
  | ss_group_end a held a' : sa_not_in_free_group a = false -> swa_free_group_end a = Ok a' ->
      swa_step (a, held) (a', held)
  | ss_clear a held : swa_step (a, held) (swa_clear a, []).

(** ** Lists of entries *)

Lemma live_app m U V : live m (U ++ V) = live m U ++ live m V.
Proof. unfold live. by rewrite map_app, filter_app. Qed.

#[export] Instance live_perm m : Proper (Permutation ==> Permutation) (live m).
Proof. intros U V H. unfold live. by rewrite H. Qed.

Lemma live_ext m m' U : (forall x, x ∈ U -> swa_of m' x = swa_of m x) -> live m' U = live m U.
Proof.
  intros H. unfold live. f_equal. apply map_ext_in. intros x Hx. apply H. by apply list_elem_of_In.
Qed.

Lemma live_zero m U : (forall x, x ∈ U -> swa_of m x = 0) -> live m U = [].
Proof.
  intros H. apply filter_none, Forall_forall. intros y Hy. apply list_elem_of_In, in_map_iff in Hy as (x & <- & Hx).
  rewrite H by by apply list_elem_of_In. lia.
Qed.

Lemma gather_swa m idx : Forall (fun i => 0 <= i < zlen m) idx -> gather m idx = Ok (map (swa_of m) idx).
Proof. intros H. apply gather_nth. eapply Forall_impl; [done|]. simpl. lia. Qed.

(** The table after an assignment to distinct slots. *)
Lemma scatter_swa m idx vs : Forall (fun i => 0 <= i < zlen m) idx -> length vs = length idx -> NoDup idx ->
  exists m', scatter m idx vs = Ok m' /\ zlen m' = zlen m /\ map (swa_of m') idx = vs
    /\ forall x, 0 <= x -> x ∉ idx -> swa_of m' x = swa_of m x.
Proof.
  intros H Hl Hnd. destruct (scatter_ok m idx vs H Hl Hnd) as (m' & -> & Hlen & Hin & Hout).
  exists m'. split; [done|]. split; [unfold zlen; lia|]. split.
  - apply list_eq. intros k. change (map (swa_of m') idx) with (swa_of m' <$> idx). rewrite list_lookup_fmap.
    destruct (idx !! k) as [i|] eqn:E; simpl.
    + destruct (lookup_lt_is_Some_2 vs k) as [v Hv]; [apply lookup_lt_Some in E; lia|]. rewrite Hv.
      unfold swa_of. by rewrite (nth_lookup_Some _ _ _ v) by by eapply Hin.
    + symmetry. apply lookup_ge_None. apply lookup_ge_None in E. lia.
  - intros x Hx Hn. unfold swa_of. rewrite !nth_lookup, Hout; [done|]. by rewrite Z2Nat.id.
Qed.

(** ** Slots of the pools *)

Lemma owned_range s U x : kv_owns s U -> x ∈ U -> 1 <= x <= size s.
Proof.
  intros [Ho _] Hx. simpl in Ho. unfold token_owned in Ho.
  assert (x ∈ zrange 1 (size s + 1)) as H by (rewrite <- Ho, !elem_of_app; tauto).
  apply elem_of_zrange in H. lia.
Qed.

Lemma owned_available s U : kv_owns s U -> 0 <= size s -> token_available_size s + zlen U = size s.
Proof.
  intros (Ho & Hg & _) Hs. unfold token_owned, pending in Ho. rewrite Hg in Ho. apply zlen_perm in Ho.
  rewrite !zlen_app, zlen_nil in Ho. unfold token_available_size. unfold zrange, zlen in *. rewrite length_seqZ in Ho. lia.
Qed.

Lemma token_alloc_owns s U n : kv_owns s U -> 0 <= n <= token_available_size s ->
  exists out s', token_alloc s n = (Some out, s') /\ zlen out = n /\ kv_owns s' (out ++ U) /\ size s' = size s.
Proof.
  intros Ho Hn. pose proof Ho as Ho0. destruct Ho as (Ho & Hg & Hrs). simpl in Ho.
  destruct (token_alloc s n) as [[out|] s'] eqn:Ha.
  - exists out, s'. destruct (token_alloc_some s n out s' (proj1 Hn) Ha) as (m & Hm & Hf & Hlen & Hs').
    set (b := need_sort s && (zlen (free_pages s) <? n)) in *.
    pose proof (maybe_merge_fields b s) as (Hsz & _ & Hns & _ & Hgm & _). rewrite <- Hm in *.
    split; [done|]. split; [done|]. split; [|by rewrite Hs'].
    split; [apply (token_alloc_owned s U n out s'); [lia|done|done]|]. rewrite Hs'. split; [simpl; congruence|].
    pose proof (merge_release b s Hrs) as Hr. rewrite <- Hm in Hr. done.
  - exfalso. destruct (token_alloc_none _ _ _ Ha) as [Hs' Hlt]. rewrite Hs' in Hlt.
    unfold token_available_size in Hn. pose proof (zlen_nonneg (release_pages s)).
    destruct (need_sort s) eqn:En; simpl in Hlt.
    + destruct (Z.ltb_spec (zlen (free_pages s)) n) as [Hl|Hl]; simpl in Hlt; [|lia].
      unfold merge_and_sort_free in Hlt. destruct (Z.ltb_spec 0 (zlen (release_pages s))); [|lia].
      simpl in Hlt. rewrite (zlen_perm _ _ (tsort_perm _)), zlen_app in Hlt. lia.
    + assert (zlen (release_pages s) = 0) by by rewrite (Hrs En). lia.
Qed.

Lemma token_free_owns s idx rest : kv_owns s (idx ++ rest) ->
  exists s', token_free s idx = Ok s' /\ kv_owns s' rest /\ size s' = size s.
Proof.
  intros (Ho & Hg & Hrs). simpl in Ho.
  assert (exists s', token_free s idx = Ok s') as [s' Hf] by (unfold token_free; repeat case_match; eauto).
  exists s'. destruct (token_free_pool _ _ _ Hg Hf) as (_ & Hg' & Hs).
  split; [done|]. split; [|done]. split; [by eapply token_free_owned|]. split; [done|by eapply token_free_release].
Qed.

(** ** Every operation keeps the invariant *)

Lemma tab_range a U x : full_ok a U -> x ∈ U -> 1 <= x <= size_full a.
Proof. intros [Ho [Hs _]] Hx. rewrite <- Hs. by eapply owned_range. Qed.

Lemma tab_ok_perm a U V : U ≡ₚ V -> tab_ok a U -> tab_ok a V.
Proof.
  intros HP []. split; [done|done| |done|done| |done].
  - intros x Hx Hn. apply tab_zero0; [done|]. by rewrite HP.
  - eapply kv_owns_perm; [|done]. by rewrite HP.
Qed.
Lemma full_ok_perm a U V : U ≡ₚ V -> full_ok a U -> full_ok a V.
Proof. intros HP []. split; [|done]. by eapply kv_owns_perm. Qed.

(** Giving back the sliding-window side of [idx]: the table forgets them. *)
Lemma free_swa_ok a idx rest : tab_ok a (idx ++ rest) -> NoDup (idx ++ rest) ->
  (forall x, x ∈ idx ++ rest -> 1 <= x <= size_full a) ->
  exists a', swa_free_swa a idx = Ok a' /\ tab_ok a' rest /\ tab_ok a' (idx ++ rest)
    /\ a' = set_pools a (full_attn_allocator a) (swa_attn_allocator a') (full_to_swa_index_mapping a').
Proof.
  intros [Hps Hlen Hz Hnn Hlast Hswa (Hsz & Hsz0 & Hsf0)] Hnd Hr. set (m := full_to_swa_index_mapping a) in *.
  apply NoDup_app in Hnd as (Hi & Hdis & Hrest).
  assert (Forall (fun i => 0 <= i < zlen m) idx) as Hri.
  { apply Forall_forall. intros x Hx. specialize (Hr x ltac:(set_solver)). lia. }
  unfold swa_free_swa. fold m. rewrite (gather_swa m idx Hri). cbn [res_bind].
  unfold sub_free. rewrite Hps. change (1 =? 1) with true. cbv iota. rewrite live_app in Hswa.
  destruct (token_free_owns (swa_attn_allocator a) (live m idx) (live m rest) Hswa) as (s' & E & Hs' & Hs2).
  unfold live in E. rewrite E. cbn [res_bind].
  destruct (scatter_swa m idx (map (fun _ => 0) idx) Hri) as (m' & -> & Hlen' & Hin & Hout); [by rewrite length_map|done|].
  cbn [res_bind]. eexists. split; [done|].
  assert (forall x, x ∈ idx -> swa_of m' x = 0) as Hz'.
  { intros x Hx. assert (swa_of m' x ∈ map (swa_of m') idx) as H by (apply list_elem_of_In, in_map, list_elem_of_In, Hx).
    rewrite Hin in H. apply list_elem_of_In, in_map_iff in H as (? & <- & _). done. }
  assert (live m' rest = live m rest) as Hlr.
  { apply live_ext. intros x Hx. apply Hout; [specialize (Hr x ltac:(set_solver)); lia|]. intros ?. by apply (Hdis x). }
  assert (forall V, (forall x, x ∉ V -> x ∉ idx -> x ∉ rest) -> live m' V ≡ₚ live m rest -> tab_ok
    (set_pools a (full_attn_allocator a) s' m') V) as Htab.
  { intros V HV HL. split; simpl; [done|lia| | | | |by rewrite Hs2].
    - intros x Hx Hn. destruct (decide (x ∈ idx)) as [Hxi|Hxi]; [by apply Hz'|].
      rewrite Hout by (done || lia). apply Hz; [done|]. rewrite elem_of_app. naive_solver.
    - intros x Hx. destruct (decide (x ∈ idx)) as [Hxi|Hxi]; [by rewrite Hz'|]. rewrite Hout by (done || lia). by apply Hnn.
    - rewrite Hout; [done|lia|]. intros Hx. specialize (Hr (size_full a + 1) ltac:(set_solver)). lia.
    - apply (@kv_owns_perm _ token_pool s' (live m rest) (live m' V)); [by symmetry|done]. }
  split_and!; [apply Htab; [done|by rewrite Hlr]| |done].
  apply Htab; [set_solver|]. by rewrite live_app, (live_zero m' idx Hz'), Hlr.
Qed.

Lemma swa_avail_le a U : tab_ok a U -> full_ok a U ->
  full_available_size a = size_full a - zlen U /\ swa_available_size a = size_swa a - zlen (live (full_to_swa_index_mapping a) U).
Proof.
  intros [Hps _ _ _ _ Hswa (Hsz & Hsz0 & _)] [Hf [Hfs Hfs0]]. unfold full_available_size, swa_available_size, sub_available. rewrite Hps.
  change (1 =? 1) with true. cbv iota. pose proof (owned_available _ _ Hf ltac:(lia)). pose proof (owned_available _ _ Hswa ltac:(lia)). lia.
Qed.

Lemma swa_free_ok a held idx rest : swa_inv a held -> held ≡ₚ idx ++ rest ->
  exists a', swa_free a idx = Ok a' /\ swa_inv a' rest.
Proof.
  intros [Ht Hf] HP. unfold swa_free. destruct (Z.eqb_spec (zlen idx) 0) as [H0|H0].
  { rewrite (zlen_zero_inv idx H0) in HP. exists a. split; [done|].
    split; [eapply tab_ok_perm; [|done]|eapply full_ok_perm; [|done]]; by rewrite HP. }
  assert (forall b U, tab_ok b U -> full_ok b U -> (full_available_size b <=? size (full_attn_allocator b)) = true
    /\ (swa_available_size b <=? size (swa_attn_allocator b)) = true) as Hav.
  { intros b U HT HF. destruct (swa_avail_le b U HT HF) as [E1 E2]. pose proof (zlen_nonneg U).
    pose proof (zlen_nonneg (live (full_to_swa_index_mapping b) U)).
    destruct HT as [_ _ _ _ _ _ [S1 _]], HF as [_ [S2 _]]. split; apply Z.leb_le; lia. }
  destruct (sa_not_in_free_group a) eqn:Hg.
  - unfold swa_inv, swa_pending in *. rewrite Hg, app_nil_r in *.
    assert (NoDup (idx ++ rest)) as Hnd by (rewrite <- HP; eapply kv_owns_NoDup, full_owns, Hf).
    assert (forall x, x ∈ idx ++ rest -> 1 <= x <= size_full a) as Hr by (intros x; rewrite <- HP; by apply tab_range).
    apply (tab_ok_perm _ _ _ HP) in Ht. apply (full_ok_perm _ _ _ HP) in Hf. destruct Hf as [Hf [Hfs Hfs0]].
    unfold sub_free. rewrite (tab_ps _ _ Ht). change (1 =? 1) with true. cbv iota.
    destruct (token_free_owns _ _ _ Hf) as (f' & -> & Hf' & Hfs'). cbn [res_bind].
    set (b := set_pools a f' (swa_attn_allocator a) (full_to_swa_index_mapping a)).
    assert (tab_ok b (idx ++ rest)) as Htb by by destruct Ht.
    destruct (free_swa_ok b idx rest Htb Hnd Hr) as (a' & -> & Ht' & _ & Ea). cbn [res_bind].
    assert (full_ok a' rest) as Hf2 by (rewrite Ea; split; [done|simpl; split; [congruence|done]]).
    destruct (Hav _ _ Ht' Hf2) as [-> ->]. simpl. exists a'. split; [done|].
    assert (sa_not_in_free_group a' = true) as -> by (rewrite Ea; done). by rewrite app_nil_r.
  - cbn [res_bind]. set (b := set_swa_group a false (sa_free_group a ++ [idx])).
    assert (rest ++ swa_pending b ≡ₚ held ++ swa_pending a) as HPb.
    { unfold b, swa_pending. simpl. rewrite Hg, HP, concat_app. simpl. rewrite app_nil_r. clear. perm_solver. }
    assert (swa_inv b rest) as Hb.
    { split; [eapply (tab_ok_perm _ (held ++ swa_pending a)); [done|by destruct Ht]
      |eapply (full_ok_perm _ (held ++ swa_pending a)); [done|by destruct Hf]]. }
    destruct Hb as [Hb1 Hb2]. destruct (Hav _ _ Hb1 Hb2) as [-> ->]. simpl. exists b. split; [done|by split].
Qed.

Lemma swa_alloc_ok a held n : swa_inv a held -> 0 <= n ->
  if decide (n <= swa_pool_available_size a)
  then exists out a', swa_alloc a n = Ok (Some out, a') /\ zlen out = n /\ swa_inv a' (out ++ held)
         /\ swa_pending a' = swa_pending a /\ (forall x, x ∈ out -> 0 < swa_of (full_to_swa_index_mapping a') x)
  else swa_alloc a n = Ok (None, a).
Proof.
  intros [Ht Hf] Hn. set (U := held ++ swa_pending a) in *. pose proof (tab_ps _ _ Ht) as Hps.
  unfold swa_alloc, swa_pool_available_size, full_available_size, swa_available_size, sub_available. rewrite Hps.
  change (1 =? 1) with true. cbn [py_assert res_bind].
  destruct (Z.ltb_spec (token_available_size (full_attn_allocator a)) n) as [?|Hfa]; [by rewrite decide_False by lia|].
  destruct (Z.ltb_spec (token_available_size (swa_attn_allocator a)) n) as [?|Hsa]; [by rewrite decide_False by lia|].
  rewrite decide_True by lia. pose proof Hf as [Hfo [Hfs Hfs0]]. pose proof Ht as [_ Hlen Hz Hnn Hlast Hso (Hsz & Hsz0 & _)].
  set (m := full_to_swa_index_mapping a) in *.
  destruct (token_alloc_owns _ U n Hfo ltac:(lia)) as (f & full & -> & Hlf & Hfo' & Hfs').
  destruct (token_alloc_owns _ (live m U) n Hso ltac:(lia)) as (s & swa & -> & Hls & Hso' & Hss').
  assert (forall x, x ∈ f -> 1 <= x <= size_full a) as Hfr.
  { intros x Hx. pose proof (owned_range _ _ x Hfo' ltac:(set_solver)). lia. }
  assert (NoDup (f ++ U)) as (Hnf & Hdis & _)%NoDup_app by exact (kv_owns_NoDup _ _ Hfo').
  unfold map_slots. fold m. destruct (scatter_swa m f s) as (m' & -> & Hlen' & Hin & Hout).
  { apply Forall_forall. intros x Hx. specialize (Hfr x Hx). lia. }
  { unfold zlen in *. lia. } { done. }
  cbn [res_bind]. eexists f, _. split; [done|]. split; [done|].
  assert (live m' (f ++ U) = s ++ live m U) as HL.
  { rewrite live_app. f_equal.
    - unfold live. rewrite Hin. apply filter_all, Forall_forall. intros x Hx.
      pose proof (owned_range _ _ x Hso' ltac:(set_solver)). lia.
    - apply live_ext. intros x Hx. apply Hout; [|intros ?; by apply (Hdis x)]. pose proof (tab_range a U x Hf Hx). lia. }
  assert (forall x, x ∈ f -> 0 < swa_of m' x) as Hpos.
  { intros x Hx. assert (swa_of m' x ∈ s) as Hs by (rewrite <- Hin; apply list_elem_of_In, in_map, list_elem_of_In, Hx).
    pose proof (owned_range _ _ _ Hso' ltac:(apply elem_of_app; left; exact Hs)). lia. }
  split; [|done]. unfold swa_inv. unfold swa_pending at 1 2. simpl. fold (swa_pending a). rewrite <- (app_assoc f). fold U.
  split; [|split; [exact Hfo'|simpl; split; [lia|done]]]. split; simpl; [done|lia| | | | |split; [lia|done]].
  - intros x Hx Hn'. rewrite Hout by (set_solver || lia). apply Hz; [done|set_solver].
  - intros x Hx. destruct (decide (x ∈ f)) as [Hxf|Hxf]; [specialize (Hpos x Hxf); lia|]. rewrite Hout by (done || lia). by apply Hnn.
  - rewrite Hout; [done|lia|]. intros Hx. specialize (Hfr _ Hx). lia.
  - rewrite HL. exact Hso'.
Qed.

Lemma swa_group_end_ok a held : sa_not_in_free_group a = false -> swa_inv a held ->
  exists a', swa_free_group_end a = Ok a' /\ swa_inv a' held.
Proof.
  intros Hg [Ht Hf]. unfold swa_free_group_end. simpl. set (b := set_swa_group a true (sa_free_group a)).
  unfold swa_pending in *. rewrite Hg in *.
  assert (swa_inv b (held ++ concat (sa_free_group a))) as Hb.
  { unfold swa_inv, swa_pending. simpl. rewrite app_nil_r. destruct Ht, Hf. by split. }
  destruct (sa_free_group a) as [|g gs] eqn:E.
  - exists b. split; [done|]. simpl in Hb. by rewrite app_nil_r in Hb.
  - destruct (swa_free_ok b _ (g ++ concat gs) held Hb) as (a' & -> & Ha'); [by rewrite Permutation_app_comm|]. eauto.
Qed.

Lemma swa_clear_ok a held : swa_inv a held -> swa_inv (swa_clear a) [].
Proof.
  intros [[Hps Hlen _ _ Hlast _ (Hsz & Hsz0 & Hsf0)] [_ [Hfs _]]]. set (m := full_to_swa_index_mapping a) in *.
  assert (forall x, 0 <= x <= size_full a -> swa_of (full_to_swa_index_mapping (swa_clear a)) x = 0) as Hz.
  { intros x Hx. simpl. fold m. unfold swa_of. rewrite app_nth1.
    - assert (forall k l, nth k (map (fun _ : Z => 0) l) 0 = 0) as H; [|apply H].
      intros k l. revert k. induction l; intros [|k]; simpl; auto.
    - rewrite length_map. assert (zlen (py_upto m (zlen m - 1)) = zlen m - 1) by (apply zlen_py_upto; lia). unfold zlen in *. lia. }
  assert (zlen (full_to_swa_index_mapping (swa_clear a)) = zlen m) as Hl.
  { simpl. fold m. unfold zlen at 1. rewrite length_app, length_map, Nat2Z.inj_add. fold (zlen (py_upto m (zlen m - 1))). fold (zlen (py_from m (zlen m - 1))).
    rewrite zlen_py_upto, zlen_py_from by lia. lia. }
  assert (forall s, size s = size (token_clear s) /\ token_owned (token_clear s) [] /\ is_not_in_free_group (token_clear s) = true
    /\ release_only_sorted (token_clear s)) as Hc.
  { intros s. split_and!; [done| |done|done]. unfold token_owned, pending. simpl. by rewrite !app_nil_r. }
  unfold swa_inv. replace (swa_pending (swa_clear a)) with (@nil Z) by done.
  split; split; [done|rewrite Hl; exact Hlen| | | | | | |].
  - intros x Hx _. by apply Hz.
  - intros x Hx. by rewrite Hz.
  - simpl. fold m. unfold swa_of in *. assert (zlen (py_upto m (zlen m - 1)) = zlen m - 1) as Hlu by (apply zlen_py_upto; lia).
    unfold zlen in Hlu at 1. rewrite app_nth2; rewrite length_map; [|lia].
    rewrite py_from_nonneg by lia. rewrite nth_lookup, lookup_drop, <- nth_lookup. rewrite <- Hlast at 1. f_equal. lia.
  - simpl. unfold sub_clear. rewrite Hps. apply Hc.
  - simpl. unfold sub_clear. rewrite Hps. done.
  - simpl. unfold sub_clear. rewrite Hps. apply Hc.
  - simpl. unfold sub_clear. rewrite Hps. done.
Qed.

Lemma swa_init_inv npu n k sort debug : 0 <= n -> 0 <= k -> swa_inv (swa_init npu n k 1 sort debug) [].
Proof.
  intros Hn Hk. unfold swa_init. apply (swa_clear_ok _ []). unfold swa_inv.
  match goal with |- tab_ok ?b _ /\ _ => replace (swa_pending b) with (@nil Z) by done end.
  assert (forall x, 0 <= x <= n -> swa_of (repeat 0 (Z.to_nat (n + 1)) ++ [-1]) x = 0) as Hz.
  { intros x Hx. unfold swa_of. rewrite app_nth1, nth_repeat; [done|]. rewrite repeat_length. lia. }
  assert (forall k sort, kv_owns (token_init k sort) []) as Hi by (intros; split_and!; [apply token_init_owned|done|done]).
  split; split; cbn [sa_page_size full_to_swa_index_mapping size_full size_swa swa_attn_allocator full_attn_allocator sub_init]; try done.
  - unfold zlen. rewrite length_app, repeat_length. simpl. lia.
  - intros x Hx _. by apply Hz.
  - intros x Hx. by rewrite Hz.
  - unfold swa_of. rewrite app_nth2; rewrite repeat_length; [|lia]. by replace (_ - _)%nat with 0%nat by lia.
  - exact (Hi k sort).
  - exact (Hi n sort).
Qed.

Lemma swa_inv_perm a U V : U ≡ₚ V -> swa_inv a U -> swa_inv a V.
Proof. intros HP [H1 H2]. split; [eapply tab_ok_perm; [|done]|eapply full_ok_perm; [|done]]; by rewrite HP. Qed.

(** Giving back the sliding-window side of held slots. *)
Lemma swa_free_swa_ok a held idx rest : swa_inv a held -> held ≡ₚ idx ++ rest -> exists a', swa_free_swa a idx = Ok a' /\ swa_inv a' held.
Proof.
  intros [Ht Hf] HP. assert (held ++ swa_pending a ≡ₚ idx ++ (rest ++ swa_pending a)) as HP2 by by rewrite HP, <- app_assoc.
  destruct (free_swa_ok a idx (rest ++ swa_pending a)) as (a' & E & _ & Ht2 & Ea).
  - by eapply tab_ok_perm.
  - rewrite <- HP2. apply (kv_owns_NoDup (KVPool := token_pool) (full_attn_allocator a)), Hf.
  - intros x. rewrite <- HP2. by apply tab_range.
  - exists a'. split; [done|]. assert (swa_pending a' = swa_pending a) as Ep by (rewrite Ea; done).
    split; rewrite Ep; [eapply tab_ok_perm; [symmetry; exact HP2|done]|]. rewrite Ea. by destruct Hf.
Qed.

Lemma swa_step_inv c c' : swa_step c c' -> swa_inv c.1 c.2 -> swa_inv c'.1 c'.2.
Proof.
  destruct 1 as [a held n out a' Hn E|a held n a' Hn E|a held idx rest a' HP E|a held idx rest a' HP E|a held Hg|a held a' Hg E|a held];
    simpl; intros Hi.
  - pose proof (swa_alloc_ok a held n Hi Hn) as H. destruct (decide _); [destruct H as (out2 & a2 & E2 & _ & H & _)|congruence].
    rewrite E in E2. by injection E2 as <- <-.
  - pose proof (swa_alloc_ok a held n Hi Hn) as H. destruct (decide _); [destruct H as (out2 & a2 & E2 & _ & H); congruence|].
    rewrite E in H. by injection H as ->.
  - destruct (swa_free_ok a held idx rest Hi HP) as (a2 & E2 & ?). rewrite E in E2. by injection E2 as <-.
  - destruct (swa_free_swa_ok a held idx rest Hi HP) as (a2 & E2 & ?). rewrite E in E2. by injection E2 as <-.
  - destruct Hi as [Ht Hf]. unfold swa_inv, swa_pending in *. simpl. rewrite Hg in *. simpl. destruct Ht, Hf. by split.
  - destruct (swa_group_end_ok a held Hg Hi) as (a2 & E2 & ?). rewrite E in E2. by injection E2 as <-.
  - by eapply swa_clear_ok.
Qed.

Lemma swa_free_swa_shape a idx a' : swa_free_swa a idx = Ok a' ->
  exists s m, a' = set_pools a (full_attn_allocator a) s m.
Proof.
  unfold swa_free_swa. intros (l & _ & (s & _ & (m & _ & [= <-])%res_bind_Ok)%res_bind_Ok)%res_bind_Ok. eauto.
Qed.

Lemma swa_free_sizes a idx a' : swa_free a idx = Ok a' -> size_full a' = size_full a /\ size_swa a' = size_swa a.
Proof.
  unfold swa_free. destruct (_ =? 0); [by intros [= <-]|].
  intros (b & Hb & (_ & _ & (_ & _ & [= <-])%res_bind_Ok)%res_bind_Ok)%res_bind_Ok.
  destruct (sa_not_in_free_group a); [|by injection Hb as <-].
  apply res_bind_Ok in Hb as (f & _ & (s & m & ->)%swa_free_swa_shape). done.
Qed.

Lemma swa_step_sizes c c' : swa_step c c' -> size_full c'.1 = size_full c.1 /\ size_swa c'.1 = size_swa c.1.
Proof.
  assert (forall a n r a', swa_alloc a n = Ok (r, a') -> size_full a' = size_full a /\ size_swa a' = size_swa a) as Ha.
  { intros a n r a' (_ & _ & H)%res_bind_Ok. destruct (_ <? n); [by simplify_eq|]. destruct (_ <? n); [by simplify_eq|].
    destruct (token_alloc _ _) as [[f|] ?], (token_alloc _ _) as [[s|] ?]; try done.
    by apply res_bind_Ok in H as (m & _ & [= <- <-]). }
  destruct 1 as [| | |a held idx rest a' HP E| |a held a' Hg E|]; simpl; [by eapply Ha|by eapply Ha|by eapply swa_free_sizes| |done| |done].
  - by apply swa_free_swa_shape in E as (s & m & ->).
  - unfold swa_free_group_end in E. simpl in E. destruct (sa_free_group a) as [|g gs]; [by injection E as <-|].
    by apply swa_free_sizes in E.
Qed.

Lemma swa_reachable npu n k sort debug c : 0 <= n -> 0 <= k -> rtc swa_step (swa_init npu n k 1 sort debug, []) c ->
  swa_inv c.1 c.2 /\ size_full c.1 = n /\ size_swa c.1 = k.
Proof.
  intros Hn Hk H. remember (swa_init npu n k 1 sort debug, []) as c0 eqn:E.
  assert (swa_inv c0.1 c0.2 /\ size_full c0.1 = n /\ size_swa c0.1 = k) as Hi by (subst; split; [by apply swa_init_inv|done]).
  clear E. induction H as [c|c1 c2 c3 Hs _ IH]; [done|]. apply IH. destruct Hi as (Hi & H1 & H2).
  pose proof (swa_step_sizes _ _ Hs). split; [by eapply swa_step_inv|]. lia.
Qed.

(** ** Theorems *)


(** The hybrid [alloc] succeeds exactly when both pools have enough slots; it then returns
    that many fresh full slots, each backed by its own fresh sliding-window slot, and otherwise
    it changes nothing. *)
Theorem swa_alloc_both_or_nothing npu n k sort debug a held need
  (Hn : 0 <= n) (Hk : 0 <= k) (Hneed : 0 <= need) (Hr : rtc swa_step (swa_init npu n k 1 sort debug, []) (a, held)) :
  if decide (need <= swa_pool_available_size a)
  then exists out a', swa_alloc a need = Ok (Some out, a') /\ zlen out = need
         /\ NoDup (out ++ held ++ swa_pending a)
         /\ (forall x, x ∈ out -> 0 < swa_of (full_to_swa_index_mapping a') x)
         /\ NoDup (map (swa_of (full_to_swa_index_mapping a')) out)
  else swa_alloc a need = Ok (None, a).
Proof.
  destruct (swa_reachable npu n k sort debug (a, held) Hn Hk Hr) as (Hi & Hf & _). simpl in Hi, Hf.
  pose proof (swa_alloc_ok a held need Hi Hneed) as H. destruct (decide _) as [Hd|Hd]; [|done].
  destruct H as (out & a' & E & Hl & [Ht' Hf'] & Hp & Hpos). exists out, a'. split; [done|]. split; [done|].
  rewrite Hp, <- app_assoc in Hf', Ht'. split_and!.
  - exact (kv_owns_NoDup _ _ (full_owns _ _ Hf')).
  - done.
  - pose proof (kv_owns_NoDup _ _ (tab_swa _ _ Ht')) as Hnd. rewrite live_app in Hnd. apply NoDup_app in Hnd as (Hnd & _).
    unfold live in Hnd. rewrite filter_all in Hnd; [done|]. apply Forall_forall. intros y Hy.
    apply list_elem_of_In, in_map_iff in Hy as (x & <- & Hx). apply Hpos. by apply list_elem_of_In.
Qed.

(** When only the full-attention allocator can serve a decode batch, [alloc_decode] answers
    [None] like any refused allocation, but the page it took from the full pool is not given
    back: a refused request leaves fewer full slots than it found. *)
Theorem swa_alloc_decode_leaks :
  exists a a', swa_alloc_decode (fun _ => 0) 0 zeros a [1] [-1] = Ok (None, a')
    /\ full_available_size a = 8 /\ swa_available_size a = 0
    /\ full_available_size a' = 4 /\ swa_available_size a' = 0.
Proof.
  exists (swa_init false 8 0 4 false false).
  exists (set_pools (swa_init false 8 0 4 false false) (MkAllocator 8 4 false false [2] [] true [])
            (MkAllocator 0 4 false false [] [] true []) (zeros 12 ++ [-1])).
  by vm_compute.
Qed.

(** ** Witnesses *)

Lemma swa_two_steps : exists a a' a'', swa_alloc (swa_init false 3 2 1 false false) 2 = Ok (Some [1; 2], a)
  /\ swa_free_swa a [1] = Ok a' /\ swa_free a' [2] = Ok a''.
Proof. eexists _, _, _. split; [vm_compute; reflexivity|]. split; vm_compute; reflexivity. Qed.

Lemma swa_reach_example : exists a, rtc swa_step (swa_init false 3 2 1 false false, []) (a, [1]).
Proof.
  destruct swa_two_steps as (a & a' & a'' & E1 & E2 & E3). exists a''.
  eapply rtc_l; [eapply (ss_alloc _ [] 2 [1; 2] a); [lia|exact E1]|].
  eapply rtc_l; [eapply (ss_free_swa _ [1; 2] [1] [2] a'); [reflexivity|exact E2]|].
  eapply rtc_l; [eapply (ss_free _ [1; 2] [2] [1] a''); [apply perm_swap|exact E3]|]. apply rtc_refl.
Qed.


Lemma swa_alloc_both_or_nothing_witness : exists a, if decide (5 <= swa_pool_available_size a)
  then exists out a', swa_alloc a 5 = Ok (Some out, a') /\ zlen out = 5
         /\ NoDup (out ++ [1] ++ swa_pending a)
         /\ (forall x, x ∈ out -> 0 < swa_of (full_to_swa_index_mapping a') x)
         /\ NoDup (map (swa_of (full_to_swa_index_mapping a')) out)
  else swa_alloc a 5 = Ok (None, a).
Proof.
  destruct swa_reach_example as [a Hr]. exists a.
  apply (swa_alloc_both_or_nothing false 3 2 false false a [1] 5 ltac:(lia) ltac:(lia) ltac:(lia) Hr).
Defined.
