(* ===== verification/SwaCache.v ===== *)
(** The radix cache of hybrid sliding-window models: [SWARadixCache] of
    [mem_cache/swa_radix_cache.py].  Definitions only; [SwaLock.v] and the files after it hold
    the theorems.

    The state is the record [SWARadixCache]: the store of tree nodes, the two recency lists of
    [LruList.v], the four token counters, the hybrid allocator of [SwaAllocator.v] and the class
    counters of [TreeNode].  Access times, which only a debugging check reads, are integers in
    steps of 0.00001. *)

From S2P Require Export LruList SwaAllocator.

(** ** State *)

Record SWARadixCache : Type := MkSWARadixCache {
  sc_nodes : store;
  root_node : nat;
  full_lru_list : LRUList;
  swa_lru_list : LRUList;
  full_evictable_size_ : Z;
  swa_evictable_size_ : Z;
  full_protected_size_ : Z;
  swa_protected_size_ : Z;
  node_counter : nat;
  swa_uuid_counter : Z;
  access_counter : Z;
  token_to_kv_pool_allocator : swa_allocator;
  sc_page_size : Z;
  sliding_window_size : Z;
  sc_disable : bool;
  sc_is_eagle : bool
}.

Definition with_nodes (s : store) (c : SWARadixCache) : SWARadixCache :=
  MkSWARadixCache s (root_node c) (full_lru_list c) (swa_lru_list c) (full_evictable_size_ c)
    (swa_evictable_size_ c) (full_protected_size_ c) (swa_protected_size_ c) (node_counter c)
    (swa_uuid_counter c) (access_counter c) (token_to_kv_pool_allocator c) (sc_page_size c)
    (sliding_window_size c) (sc_disable c) (sc_is_eagle c).
Definition with_lists (f w : LRUList) (c : SWARadixCache) : SWARadixCache :=
  MkSWARadixCache (sc_nodes c) (root_node c) f w (full_evictable_size_ c)
    (swa_evictable_size_ c) (full_protected_size_ c) (swa_protected_size_ c) (node_counter c)
    (swa_uuid_counter c) (access_counter c) (token_to_kv_pool_allocator c) (sc_page_size c)
    (sliding_window_size c) (sc_disable c) (sc_is_eagle c).
(** [self.full_evictable_size_ += fe], and likewise for the other three. *)
Definition add_sizes (fe se fp sp : Z) (c : SWARadixCache) : SWARadixCache :=
  MkSWARadixCache (sc_nodes c) (root_node c) (full_lru_list c) (swa_lru_list c) (full_evictable_size_ c + fe)
    (swa_evictable_size_ c + se) (full_protected_size_ c + fp) (swa_protected_size_ c + sp) (node_counter c)
    (swa_uuid_counter c) (access_counter c) (token_to_kv_pool_allocator c) (sc_page_size c)
    (sliding_window_size c) (sc_disable c) (sc_is_eagle c).
Definition with_counters (n : nat) (u t : Z) (c : SWARadixCache) : SWARadixCache :=
  MkSWARadixCache (sc_nodes c) (root_node c) (full_lru_list c) (swa_lru_list c) (full_evictable_size_ c)
    (swa_evictable_size_ c) (full_protected_size_ c) (swa_protected_size_ c) n u t
    (token_to_kv_pool_allocator c) (sc_page_size c) (sliding_window_size c) (sc_disable c) (sc_is_eagle c).
Definition with_allocator (a : swa_allocator) (c : SWARadixCache) : SWARadixCache :=
  MkSWARadixCache (sc_nodes c) (root_node c) (full_lru_list c) (swa_lru_list c) (full_evictable_size_ c)
    (swa_evictable_size_ c) (full_protected_size_ c) (swa_protected_size_ c) (node_counter c)
    (swa_uuid_counter c) (access_counter c) a (sc_page_size c) (sliding_window_size c) (sc_disable c) (sc_is_eagle c).

(** ** Attributes of nodes *)

Definition set_sn_children (x : gmap pyval nat) (n : SwaNode) : SwaNode :=
  MkSwaNode x (sn_parent n) (sn_key n) (sn_value n) (swa_tombstone n) (full_lock_ref n) (swa_lock_ref n)
    (sn_last_access_time n) (sn_hit_count n) (sn_host_value n) (sn_prev n) (sn_next n) (sn_swa_prev n) (sn_swa_next n) (swa_uuid n).
Definition set_sn_parent (x : option nat) (n : SwaNode) : SwaNode :=
  MkSwaNode (sn_children n) x (sn_key n) (sn_value n) (swa_tombstone n) (full_lock_ref n) (swa_lock_ref n)
    (sn_last_access_time n) (sn_hit_count n) (sn_host_value n) (sn_prev n) (sn_next n) (sn_swa_prev n) (sn_swa_next n) (swa_uuid n).
(** A node's key and value are always cut together. *)
Definition set_sn_kv (k : RadixKey) (v : option (list Z)) (n : SwaNode) : SwaNode :=
  MkSwaNode (sn_children n) (sn_parent n) k v (swa_tombstone n) (full_lock_ref n) (swa_lock_ref n)
    (sn_last_access_time n) (sn_hit_count n) (sn_host_value n) (sn_prev n) (sn_next n) (sn_swa_prev n) (sn_swa_next n) (swa_uuid n).
Definition set_swa_tombstone (b : bool) (n : SwaNode) : SwaNode :=
  MkSwaNode (sn_children n) (sn_parent n) (sn_key n) (sn_value n) b (full_lock_ref n) (swa_lock_ref n)
    (sn_last_access_time n) (sn_hit_count n) (sn_host_value n) (sn_prev n) (sn_next n) (sn_swa_prev n) (sn_swa_next n) (swa_uuid n).
Definition set_locks (full swa : Z) (n : SwaNode) : SwaNode :=
  MkSwaNode (sn_children n) (sn_parent n) (sn_key n) (sn_value n) (swa_tombstone n) full swa
    (sn_last_access_time n) (sn_hit_count n) (sn_host_value n) (sn_prev n) (sn_next n) (sn_swa_prev n) (sn_swa_next n) (swa_uuid n).
Definition set_sn_access (t : Z) (n : SwaNode) : SwaNode :=
  MkSwaNode (sn_children n) (sn_parent n) (sn_key n) (sn_value n) (swa_tombstone n) (full_lock_ref n) (swa_lock_ref n)
    t (sn_hit_count n) (sn_host_value n) (sn_prev n) (sn_next n) (sn_swa_prev n) (sn_swa_next n) (swa_uuid n).
Definition set_swa_uuid (u : option Z) (n : SwaNode) : SwaNode :=
  MkSwaNode (sn_children n) (sn_parent n) (sn_key n) (sn_value n) (swa_tombstone n) (full_lock_ref n) (swa_lock_ref n)
    (sn_last_access_time n) (sn_hit_count n) (sn_host_value n) (sn_prev n) (sn_next n) (sn_swa_prev n) (sn_swa_next n) u.

(** [node.attr] and [node.attr = ...] *)
Definition sc_node (c : SWARadixCache) (x : option nat) : res (nat * SwaNode) := lru_deref (sc_nodes c) x.
Definition sc_set (f : SwaNode -> SwaNode) (i : nat) (c : SWARadixCache) : res SWARadixCache :=
  let* s := setattr f (sc_nodes c) (Some i) in Ok (with_nodes s c).

(** ** Class counters *)

Definition gen_swa_uuid (c : SWARadixCache) : Z * SWARadixCache :=
  (swa_uuid_counter c + 1, with_counters (node_counter c) (swa_uuid_counter c + 1) (access_counter c) c).

Definition get_last_access_time (c : SWARadixCache) : Z * SWARadixCache :=
  (access_counter c, with_counters (node_counter c) (swa_uuid_counter c) (access_counter c + 100000) c).

(** [TreeNode()] and its first attribute assignments, [f]. *)
Definition sc_new_node (f : SwaNode -> SwaNode) (c : SWARadixCache) : nat * SWARadixCache :=
  let (now, c) := get_last_access_time c in
  let i := node_counter c in
  (i, with_counters (S i) (swa_uuid_counter c) (access_counter c) (with_nodes (<[i := f (new_tree_node now)]> (sc_nodes c)) c)).

(** ** The recency lists of a cache *)

Definition full_insert_mru (node : nat) (c : SWARadixCache) : res SWARadixCache :=
  let* (l, s) := insert_mru (full_lru_list c) node (sc_nodes c) in Ok (with_nodes s (with_lists l (swa_lru_list c) c)).
Definition swa_insert_mru (node : nat) (c : SWARadixCache) : res SWARadixCache :=
  let* (l, s) := insert_mru (swa_lru_list c) node (sc_nodes c) in Ok (with_nodes s (with_lists (full_lru_list c) l c)).
Definition full_remove_node (node : nat) (c : SWARadixCache) : res SWARadixCache :=
  let* (l, s) := remove_node (full_lru_list c) node (sc_nodes c) in Ok (with_nodes s (with_lists l (swa_lru_list c) c)).
Definition swa_remove_node (node : nat) (c : SWARadixCache) : res SWARadixCache :=
  let* (l, s) := remove_node (swa_lru_list c) node (sc_nodes c) in Ok (with_nodes s (with_lists (full_lru_list c) l c)).
Definition full_reset_node_mru (node : nat) (c : SWARadixCache) : res SWARadixCache :=
  let* s := reset_node_mru (full_lru_list c) node (sc_nodes c) in Ok (with_nodes s c).
Definition swa_reset_node_mru (node : nat) (c : SWARadixCache) : res SWARadixCache :=
  let* s := reset_node_mru (swa_lru_list c) node (sc_nodes c) in Ok (with_nodes s c).

(** ** Creation *)

(** [reset]; the dummies of the lists are created after the root. *)
Definition sc_reset (c : SWARadixCache) : SWARadixCache :=
  let (root, c) := sc_new_node (fun n => set_locks 1 1 (set_sn_kv (sn_key n) (Some []) n)) c in
  let h := node_counter c in
  let t := access_counter c in
  let (s, fl) := new_lru_list false h (S h) t (sc_nodes c) in
  let (s, wl) := new_lru_list true (S (S h)) (S (S (S h))) (t + 200000) s in
  MkSWARadixCache s root fl wl 0 0 0 0 (S (S (S (S h)))) (swa_uuid_counter c) (t + 400000)
    (token_to_kv_pool_allocator c) (sc_page_size c) (sliding_window_size c) (sc_disable c) (sc_is_eagle c).

(** [__init__], for the class counters at their first values. *)
Definition sc_init (a : swa_allocator) (page_size window : Z) (disable is_eagle : bool) : SWARadixCache :=
  sc_reset (MkSWARadixCache ∅ 0 (mkLRUList false 0 0 ∅) (mkLRUList true 0 0 ∅) 0 0 0 0 0 1 100000 a
    page_size window disable is_eagle).

(** ** Locks *)

(** The [while] loop of [inc_lock_ref]. *)
Fixpoint swa_inc_lock_loop (fuel : nat) (node : option nat) (swa_lock_size : Z) (swa_uuid_for_lock : option Z)
    (c : SWARadixCache) : res (option Z * SWARadixCache) :=
  match fuel with
  | O => Raise RuntimeError
  | S fuel =>
      if decide (node = Some (root_node c)) then Ok (swa_uuid_for_lock, c)
      else
        let* (i, n) := sc_node c node in
        let* _ := py_assert (0 <=? full_lock_ref n) in
        let* c := if full_lock_ref n =? 0 then let* len := value_len n in Ok (add_sizes (- len) 0 len 0 c) else Ok c in
        let* c := sc_set (set_locks (full_lock_ref n + 1) (swa_lock_ref n)) i c in
        if swa_lock_size <? sliding_window_size c then
          let* _ := py_assert (negb (swa_tombstone n)) in
          let* len := value_len n in
          let c := if swa_lock_ref n =? 0 then add_sizes 0 (- len) 0 len c else c in
          let* c := sc_set (set_locks (full_lock_ref n + 1) (swa_lock_ref n + 1)) i c in
          let swa_lock_size := swa_lock_size + len in
          if sliding_window_size c <=? swa_lock_size then
            match swa_uuid n with
            | Some u => swa_inc_lock_loop fuel (sn_parent n) swa_lock_size (Some u) c
            | None =>
                let (u, c) := gen_swa_uuid c in
                let* c := sc_set (set_swa_uuid (Some u)) i c in
                swa_inc_lock_loop fuel (sn_parent n) swa_lock_size (Some u) c
            end
          else swa_inc_lock_loop fuel (sn_parent n) swa_lock_size swa_uuid_for_lock c
        else swa_inc_lock_loop fuel (sn_parent n) swa_lock_size swa_uuid_for_lock c
  end.

Definition swa_inc_lock_ref (node : nat) (c : SWARadixCache) : res (option Z * SWARadixCache) :=
  if sc_disable c then Ok (None, c)
  else swa_inc_lock_loop (S (base.size (sc_nodes c))) (Some node) 0 None c.

(** [swa_uuid_for_lock and node.swa_uuid == swa_uuid_for_lock] *)
Definition uuid_hit (swa_uuid_for_lock : option Z) (n : SwaNode) : bool :=
  match swa_uuid_for_lock with
  | Some u => negb (u =? 0) && bool_decide (swa_uuid n = Some u)
  | None => false
  end.

Fixpoint swa_dec_lock_loop (fuel : nat) (node : option nat) (swa_uuid_for_lock : option Z) (dec_lock_swa : bool)
    (c : SWARadixCache) : res SWARadixCache :=
  match fuel with
  | O => Raise RuntimeError
  | S fuel =>
      if decide (node = Some (root_node c)) then Ok c
      else
        let* (i, n) := sc_node c node in
        let* _ := py_assert (0 <? full_lock_ref n) in
        let* c := if full_lock_ref n =? 1 then let* len := value_len n in Ok (add_sizes len 0 (- len) 0 c) else Ok c in
        let* c := sc_set (set_locks (full_lock_ref n - 1) (swa_lock_ref n)) i c in
        if dec_lock_swa then
          let* _ := py_assert (negb (swa_tombstone n)) in
          let* _ := py_assert (0 <? swa_lock_ref n) in
          let* c := if swa_lock_ref n =? 1 then let* len := value_len n in Ok (add_sizes 0 len 0 (- len) c) else Ok c in
          let* c := sc_set (set_locks (full_lock_ref n - 1) (swa_lock_ref n - 1)) i c in
          swa_dec_lock_loop fuel (sn_parent n) swa_uuid_for_lock (negb (uuid_hit swa_uuid_for_lock n)) c
        else swa_dec_lock_loop fuel (sn_parent n) swa_uuid_for_lock false c
  end.

Definition swa_dec_lock_ref (node : nat) (swa_uuid_for_lock : option Z) (skip_swa : bool) (c : SWARadixCache)
  : res SWARadixCache :=
  if sc_disable c then Ok c
  else swa_dec_lock_loop (S (base.size (sc_nodes c))) (Some node) swa_uuid_for_lock (negb skip_swa) c.

Fixpoint dec_swa_loop (fuel : nat) (node : option nat) (swa_uuid_for_lock : option Z) (c : SWARadixCache)
  : res SWARadixCache :=
  match fuel with
  | O => Raise RuntimeError
  | S fuel =>
      if decide (node = Some (root_node c)) then Ok c
      else
        let* (i, n) := sc_node c node in
        let* _ := py_assert (negb (swa_tombstone n)) in
        let* _ := py_assert (0 <? swa_lock_ref n) in
        let* c :=
          if swa_lock_ref n =? 1 then
            match sn_value n with
            | None => Raise TypeError
            | Some v =>
                let c := add_sizes 0 0 0 (- zlen v) c in
                if decide (base.size (sn_children n) = 0%nat) then
                  let* a := swa_free_swa (token_to_kv_pool_allocator c) v in
                  let* c := swa_remove_node i (with_allocator a c) in
                  sc_set (set_swa_tombstone true) i c
                else Ok (add_sizes 0 (zlen v) 0 0 c)
            end
          else Ok c in
        let* c := sc_set (set_locks (full_lock_ref n) (swa_lock_ref n - 1)) i c in
        if uuid_hit swa_uuid_for_lock n then Ok c
        else dec_swa_loop fuel (sn_parent n) swa_uuid_for_lock c
  end.

Definition dec_swa_lock_only (node : nat) (swa_uuid_for_lock : option Z) (c : SWARadixCache) : res SWARadixCache :=
  if sc_disable c then Ok c
  else dec_swa_loop (S (base.size (sc_nodes c))) (Some node) swa_uuid_for_lock c.
