(* ===== verification/SwaLock.v ===== *)
(** Locks of the sliding-window radix cache.

    A request that reads a prefix locks the nodes from its last node to the root: all of them on
    the full-attention side, and on the sliding-window side only the nearest ones, up to the
    first that completes the window.  [inc_lock_ref] hands the request an identifier of that
    node, with which [dec_lock_ref] finds where to stop.  The theorems show that locks of any
    number of requests balance, whatever the order of locking and unlocking. *)

From S2P Require Export LruProps SwaCache.

(** ** Sums over nodes *)

Definition node_len (n : SwaNode) : Z := default 0 (zlen <$> sn_value n).
Definition lock_weight (f : SwaNode -> Z) (s : store) (i : nat) : Z := match s !! i with Some n => f n | None => 0 end.
Definition node_total (f : SwaNode -> Z) (s : store) (ns : list nat) : Z := zsum (map (lock_weight f s) ns).

Lemma node_total_insert f s ns i n n' : NoDup ns -> i ∈ ns -> s !! i = Some n ->
  node_total f (<[i := n']> s) ns = node_total f s ns + (f n' - f n).
Proof.
  intros Hnd Hi Hn. assert (forall l, i ∉ l -> map (lock_weight f (<[i := n']> s)) l = map (lock_weight f s) l) as Hne.
  { intros l Hl. apply map_ext_in. intros j Hj. unfold lock_weight. rewrite lookup_insert_ne; [done|].
    intros ->. apply Hl. by apply list_elem_of_In. }
  apply list_elem_of_split in Hi as (a & b & ->). apply NoDup_app in Hnd as (_ & Hd & [Hib _]%NoDup_cons).
  unfold node_total. rewrite !map_app, !zsum_app. cbn [map]. rewrite !zsum_cons, !Hne by set_solver.
  unfold lock_weight at 2 5. rewrite lookup_insert_eq, Hn. lia.
Qed.

Lemma node_total_zero f s ns : (forall i n, i ∈ ns -> s !! i = Some n -> f n = 0) -> node_total f s ns = 0.
Proof.
  intros H. unfold node_total. induction ns as [|i ns IH]; [done|]. cbn [map]. rewrite zsum_cons, IH by (intros; eapply H; [by right|done]).
  unfold lock_weight. destruct (s !! i) as [n|] eqn:E; [|done]. by rewrite (H i n ltac:(left) E).
Qed.

(** ** The token counters *)

Definition full_evictable (n : SwaNode) : Z := if full_lock_ref n =? 0 then node_len n else 0.
Definition full_protected (n : SwaNode) : Z := if full_lock_ref n =? 0 then 0 else node_len n.
Definition swa_evictable (n : SwaNode) : Z :=
  if swa_tombstone n then 0 else if swa_lock_ref n =? 0 then node_len n else 0.
Definition swa_protected (n : SwaNode) : Z :=
  if swa_tombstone n then 0 else if swa_lock_ref n =? 0 then 0 else node_len n.

(** The counters are the sums they stand for, over the nodes [ns] of the tree but the root. *)
Definition swa_sizes_ok (c : SWARadixCache) (ns : list nat) : Prop :=
  full_evictable_size_ c = node_total full_evictable (sc_nodes c) ns
  /\ swa_evictable_size_ c = node_total swa_evictable (sc_nodes c) ns
  /\ full_protected_size_ c = node_total full_protected (sc_nodes c) ns
  /\ swa_protected_size_ c = node_total swa_protected (sc_nodes c) ns.

(** Everything but the nodes, the counters and the uuid counter. *)
Definition same_rest (c c' : SWARadixCache) : Prop :=
  root_node c' = root_node c /\ full_lru_list c' = full_lru_list c /\ swa_lru_list c' = swa_lru_list c
  /\ node_counter c' = node_counter c /\ access_counter c' = access_counter c
  /\ token_to_kv_pool_allocator c' = token_to_kv_pool_allocator c /\ sc_page_size c' = sc_page_size c
  /\ sliding_window_size c' = sliding_window_size c /\ sc_disable c' = sc_disable c /\ sc_is_eagle c' = sc_is_eagle c.

#[export] Instance same_rest_equiv : Equivalence same_rest.
Proof. unfold same_rest. split; intros ?; naive_solver congruence. Qed.

(** One node replaced, with the counters moved along. *)
Definition node_step (c c' : SWARadixCache) (i : nat) (n n' : SwaNode) : Prop :=
  sc_nodes c' = <[i := n']> (sc_nodes c)
  /\ full_evictable_size_ c' = full_evictable_size_ c + (full_evictable n' - full_evictable n)
  /\ swa_evictable_size_ c' = swa_evictable_size_ c + (swa_evictable n' - swa_evictable n)
  /\ full_protected_size_ c' = full_protected_size_ c + (full_protected n' - full_protected n)
  /\ swa_protected_size_ c' = swa_protected_size_ c + (swa_protected n' - swa_protected n)
  /\ same_rest c c'.

Lemma node_step_sizes c c' i n n' ns : node_step c c' i n n' -> NoDup ns -> i ∈ ns -> sc_nodes c !! i = Some n ->
  swa_sizes_ok c ns -> swa_sizes_ok c' ns.
Proof.
  intros (Es & H1 & H2 & H3 & H4 & _) Hnd Hi Hn (S1 & S2 & S3 & S4). unfold swa_sizes_ok. rewrite Es.
  rewrite !(node_total_insert _ _ ns i n n') by done. lia.
Qed.

(** ** Paths and windows *)

Definition len_of (s : store) (i : nat) : Z := lock_weight node_len s i.

(** The nodes of a path on which [inc_lock_ref] takes a sliding-window lock, and the node that
    completes the window. *)
Fixpoint window (s : store) (W acc : Z) (p : list nat) : list nat :=
  match p with
  | i :: p => if acc <? W then i :: window s W (acc + len_of s i) p else []
  | [] => []
  end.
Fixpoint window_end (s : store) (W acc : Z) (p : list nat) : option nat :=
  match p with
  | i :: p => if acc <? W then if W <=? acc + len_of s i then Some i else window_end s W (acc + len_of s i) p else None
  | [] => None
  end.

Definition uuid_of (s : store) (i : nat) : option Z := n ← s !! i; swa_uuid n.

(** Everything of a node but its locks and its window identifier. *)
Definition core (n : SwaNode) : SwaNode := set_swa_uuid None (set_locks 0 0 n).

(** [s'] is [s] with [d] added to the full locks of [P] and to the sliding-window locks of [Q]. *)
Definition locked (d : Z) (s s' : store) (P Q : list nat) : Prop :=
  forall i, match s !! i, s' !! i with
  | Some n, Some n' =>
      full_lock_ref n' = full_lock_ref n + d * Z.b2z (bool_decide (i ∈ P))
      /\ swa_lock_ref n' = swa_lock_ref n + d * Z.b2z (bool_decide (i ∈ Q))
      /\ core n' = core n /\ (forall v, swa_uuid n = Some v -> swa_uuid n' = Some v)
  | None, None => True
  | _, _ => False
  end.

(** A node that can be locked: it has a value, and no lock count is negative. *)
Definition lockable_node (s : store) (i : nat) : Prop :=
  exists n v, s !! i = Some n /\ sn_value n = Some v /\ 0 <= swa_lock_ref n <= full_lock_ref n.

(** No node of the window has given its sliding-window slots back. *)
Definition window_live (s : store) (W acc : Z) (p : list nat) : Prop :=
  forall i, i ∈ window s W acc p -> exists n, s !! i = Some n /\ swa_tombstone n = false.

(** Window identifiers belong to one node each. *)
Definition uuids_ok (s : store) (top : Z) : Prop :=
  1 <= top /\ forall i v, uuid_of s i = Some v -> 1 < v <= top /\ forall j, uuid_of s j = Some v -> j = i.

(** ** Stores equal up to locks *)

Lemma locked_core d s s' P Q : locked d s s' P Q -> core <$> s' = core <$> s.
Proof.
  intros H. apply map_eq. intros i. rewrite !lookup_fmap. specialize (H i).
  destruct (s !! i), (s' !! i); simpl; [f_equal; tauto|done|done|done].
Qed.

Lemma core_lookup (s s' : store) i n : core <$> s' = core <$> s -> s !! i = Some n ->
  exists n', s' !! i = Some n' /\ core n' = core n.
Proof.
  intros E H. assert ((core <$> s') !! i = Some (core n)) as Hi by (rewrite E, lookup_fmap, H; done).
  rewrite lookup_fmap in Hi. destruct (s' !! i) as [n'|]; [|done]. exists n'. by apply (inj Some) in Hi.
Qed.

Lemma core_parent n n' : core n' = core n -> sn_parent n' = sn_parent n.
Proof. intros E. by apply (f_equal sn_parent) in E. Qed.
Lemma core_value n n' : core n' = core n -> sn_value n' = sn_value n.
Proof. intros E. by apply (f_equal sn_value) in E. Qed.
Lemma core_tombstone n n' : core n' = core n -> swa_tombstone n' = swa_tombstone n.
Proof. intros E. by apply (f_equal swa_tombstone) in E. Qed.

Lemma path_core (s s' : store) root x p : core <$> s' = core <$> s -> path_to s root x p -> path_to s' root x p.
Proof.
  intros E. induction 1 as [|i n p Hi Hn _ IH]; [constructor|].
  destruct (core_lookup s s' i n E Hn) as (n' & ? & En). econstructor; [done|done|]. by rewrite (core_parent _ _ En).
Qed.

Lemma len_core (s s' : store) i : core <$> s' = core <$> s -> len_of s' i = len_of s i.
Proof.
  intros E. unfold len_of, lock_weight. apply (f_equal (fun m : store => m !! i)) in E. rewrite !lookup_fmap in E.
  destruct (s !! i) as [n|], (s' !! i) as [n'|]; simpl in E; [|done..]. apply (inj Some) in E.
  unfold node_len. by rewrite (core_value _ _ E).
Qed.

Lemma window_core (s s' : store) W acc p : core <$> s' = core <$> s -> window s' W acc p = window s W acc p.
Proof. intros E. revert acc. induction p as [|i p IH]; intros acc; simpl; [done|]. by rewrite (len_core s s' i E), IH. Qed.
Lemma window_end_core (s s' : store) W acc p : core <$> s' = core <$> s -> window_end s' W acc p = window_end s W acc p.
Proof. intros E. revert acc. induction p as [|i p IH]; intros acc; simpl; [done|]. by rewrite (len_core s s' i E), IH. Qed.

Lemma window_sub s W acc p i : i ∈ window s W acc p -> i ∈ p.
Proof.
  revert acc. induction p as [|j p IH]; intros acc; simpl; [done|]. destruct (acc <? W); [|set_solver].
  intros [->|H]%elem_of_cons; [by left|right; eauto].
Qed.

(** One node locked, then the rest of the path. *)
Lemma locked_cons d s s' i n n' P Q (b : bool) : s !! i = Some n -> i ∉ P -> i ∉ Q ->
  full_lock_ref n' = full_lock_ref n + d -> swa_lock_ref n' = swa_lock_ref n + d * Z.b2z b ->
  core n' = core n -> (forall v, swa_uuid n = Some v -> swa_uuid n' = Some v) ->
  locked d (<[i := n']> s) s' P Q -> locked d s s' (i :: P) (if b then i :: Q else Q).
Proof.
  intros Hn HP HQ Hf Hw Hc Hu H j. specialize (H j). destruct (decide (j = i)) as [->|Hne].
  - rewrite lookup_insert_eq in H. rewrite Hn. destruct (s' !! i) as [m|]; [|done]. destruct H as (F & S & C & U).
    rewrite (bool_decide_false (i ∈ P)), (bool_decide_false (i ∈ Q)) in * by done.
    rewrite bool_decide_true by by left. split_and!; [simpl; simpl in F; lia| |congruence|naive_solver].
    destruct b; [rewrite bool_decide_true by by left|rewrite bool_decide_false by done]; simpl in *; lia.
  - rewrite lookup_insert_ne in H by done. destruct (s !! j), (s' !! j); try done.
    rewrite (bool_decide_ext (j ∈ i :: P) (j ∈ P)) by set_solver.
    rewrite (bool_decide_ext (j ∈ (if b then i :: Q else Q)) (j ∈ Q)) by (destruct b; set_solver). done.
Qed.

Lemma locked_refl d s : locked d s s [] [].
Proof. intros i. destruct (s !! i); [|done]. rewrite !bool_decide_false by set_solver. simpl. split_and!; [lia|lia|done|done]. Qed.

Lemma uuids_insert s top i n n' : uuids_ok s top -> s !! i = Some n -> swa_uuid n' = swa_uuid n ->
  uuids_ok (<[i := n']> s) top.
Proof.
  intros [H1 H] Hn E. assert (forall j, uuid_of (<[i := n']> s) j = uuid_of s j) as Hu.
  { intros j. unfold uuid_of. destruct (decide (j = i)) as [->|]; [rewrite lookup_insert_eq, Hn; done|by rewrite lookup_insert_ne]. }
  split; [done|]. intros j v Hj. rewrite Hu in Hj. destruct (H j v Hj) as [Hr Hi]. split; [done|].
  intros k Hk. rewrite Hu in Hk. by apply Hi.
Qed.

Lemma uuids_fresh s top i n n' : uuids_ok s top -> s !! i = Some n -> swa_uuid n' = Some (top + 1) ->
  uuids_ok (<[i := n']> s) (top + 1).
Proof.
  intros [H1 H] Hn E. assert (forall j v, uuid_of (<[i := n']> s) j = Some v -> j <> i -> uuid_of s j = Some v) as Hu.
  { intros j v Hj Hne. unfold uuid_of in *. by rewrite lookup_insert_ne in Hj. }
  assert (uuid_of (<[i := n']> s) i = Some (top + 1)) as Hi by (unfold uuid_of; by rewrite lookup_insert_eq).
  split; [lia|]. intros j v Hj. destruct (decide (j = i)) as [->|Hne].
  - rewrite Hi in Hj. injection Hj as <-. split; [lia|]. intros k Hk. destruct (decide (k = i)) as [|Hk2]; [done|].
    apply Hu in Hk; [|done]. apply H in Hk as [? _]. lia.
  - apply Hu in Hj; [|done]. destruct (H j v Hj) as [Hr Hin]. split; [lia|]. intros k Hk.
    destruct (decide (k = i)) as [->|Hk2]; [rewrite Hi in Hk; injection Hk as <-; lia|]. apply Hin. by apply Hu.
Qed.

(** ** Locking *)

Lemma sc_set_ok f i n c : sc_nodes c !! i = Some n -> sc_set f i c = Ok (with_nodes (<[i := f n]> (sc_nodes c)) c).
Proof. intros H. unfold sc_set, setattr. by rewrite (deref_lookup _ _ _ H). Qed.

(** The counters of one step, by the lock counts of the node. *)
Ltac step_solver n Hv :=
  unfold node_step, full_evictable, full_protected, swa_evictable, swa_protected, node_len, same_rest; cbn; rewrite ?Hv; cbn;
  repeat match goal with |- context [?x =? ?y] => destruct (Z.eqb_spec x y); try lia; cbn end;
  try destruct (swa_tombstone n); rewrite ?insert_insert_eq; split_and!; done || lia.

(** One iteration of [inc_lock_ref]. *)
Lemma inc_iter fuel i n v acc u c : i <> root_node c -> sc_nodes c !! i = Some n -> sn_value n = Some v ->
  0 <= swa_lock_ref n <= full_lock_ref n -> (acc < sliding_window_size c -> swa_tombstone n = false) ->
  uuids_ok (sc_nodes c) (swa_uuid_counter c) ->
  let b := acc <? sliding_window_size c in
  let e := b && (sliding_window_size c <=? acc + zlen v) in
  exists n' c', swa_inc_lock_loop (S fuel) (Some i) acc u c
      = swa_inc_lock_loop fuel (sn_parent n) (if b then acc + zlen v else acc) (if e then swa_uuid n' else u) c'
    /\ node_step c c' i n n' /\ core n' = core n /\ full_lock_ref n' = full_lock_ref n + 1
    /\ swa_lock_ref n' = swa_lock_ref n + 1 * Z.b2z b /\ (forall w, swa_uuid n = Some w -> swa_uuid n' = Some w)
    /\ (e = true -> is_Some (swa_uuid n')) /\ uuids_ok (sc_nodes c') (swa_uuid_counter c').
Proof.
  intros Hi Hn Hv Hl Ht Hu b e. cbn [swa_inc_lock_loop]. rewrite decide_False by congruence.
  unfold sc_node. rewrite (deref_lookup _ _ _ Hn). cbn [res_bind]. rewrite (proj2 (Z.leb_le 0 _)) by lia. cbn [py_assert res_bind].
  unfold value_len. rewrite Hv. cbn [res_bind].
  set (c1 := if full_lock_ref n =? 0 then add_sizes (- zlen v) 0 (zlen v) 0 c else c).
  replace (if full_lock_ref n =? 0 then Ok (add_sizes (- zlen v) 0 (zlen v) 0 c) else Ok c) with (Ok c1) by (unfold c1; by destruct (_ =? 0)).
  cbn [res_bind]. assert (sc_nodes c1 = sc_nodes c) as E1 by (unfold c1; by destruct (_ =? 0)).
  rewrite (sc_set_ok _ i n) by by rewrite E1. cbn [res_bind].
  assert (sliding_window_size c1 = sliding_window_size c) as EW by (unfold c1; by destruct (_ =? 0)).
  assert (swa_uuid_counter c1 = swa_uuid_counter c) as EU by (unfold c1; by destruct (_ =? 0)).
  cbn [sliding_window_size with_nodes]. rewrite EW. fold b.
  assert (node_len n = zlen v) as Hlen by (unfold node_len; by rewrite Hv).
  destruct b eqn:Eb; cbn [andb] in e.
  2:{ exists (set_locks (full_lock_ref n + 1) (swa_lock_ref n) n). eexists. split; [reflexivity|]. split.
      - unfold c1. step_solver n Hv.
      - split_and!; simpl; [done|lia|lia|done|done|rewrite E1, EU; by eapply uuids_insert]. }
  apply Z.ltb_lt in Eb. rewrite Ht by done. cbn [negb py_assert res_bind].
  set (c2 := if swa_lock_ref n =? 0 then _ else _).
  assert (sc_nodes c2 = <[i := set_locks (full_lock_ref n + 1) (swa_lock_ref n) n]> (sc_nodes c)) as E2
    by (unfold c2; rewrite <- E1; by destruct (swa_lock_ref n =? 0)).
  assert (swa_uuid_counter c2 = swa_uuid_counter c) as EU2 by (unfold c2; rewrite <- EU; by destruct (swa_lock_ref n =? 0)).
  rewrite (sc_set_ok _ i (set_locks (full_lock_ref n + 1) (swa_lock_ref n) n)) by (rewrite E2; apply lookup_insert_eq). cbn [res_bind].
  set (n2 := set_locks (full_lock_ref n + 1) (swa_lock_ref n + 1) n).
  change (set_locks _ _ (set_locks _ _ n)) with n2. rewrite E2, insert_insert_eq.
  assert (sliding_window_size (with_nodes (<[i := n2]> (sc_nodes c)) c2) = sliding_window_size c) as EW2
    by (unfold c2; rewrite <- EW; by destruct (swa_lock_ref n =? 0)).
  rewrite EW2. fold e. destruct e eqn:Ee.
  2:{ exists n2. eexists. split; [reflexivity|]. split.
      - unfold c2, c1. step_solver n Hv.
      - split_and!; simpl; [done|lia|lia|done|done|rewrite EU2; by eapply uuids_insert]. }
  destruct (swa_uuid n) as [w|] eqn:Ew.
  { exists n2. eexists. split; [cbn; rewrite Ew; reflexivity|]. split.
    - unfold c2, c1. step_solver n Hv.
    - split_and!; simpl; [done|lia|lia|congruence|rewrite Ew; eauto|rewrite EU2; by eapply uuids_insert]. }
  cbn [gen_swa_uuid]. unfold gen_swa_uuid.
  rewrite (sc_set_ok _ i n2) by (simpl; apply lookup_insert_eq). cbn [res_bind].
  exists (set_swa_uuid (Some (swa_uuid_counter c2 + 1)) n2). eexists. split; [reflexivity|]. split.
  - unfold c2, c1. step_solver n Hv.
  - split_and!; simpl; [done|lia|lia|done|eauto|]. rewrite insert_insert_eq, EU2. by eapply uuids_fresh.
Qed.

Lemma window_done s W acc p : W <= acc -> window s W acc p = [] /\ window_end s W acc p = None.
Proof. intros H. destruct p; simpl; [done|]. by rewrite (proj2 (Z.ltb_ge _ _)). Qed.

Lemma len_of_value s i n v : s !! i = Some n -> sn_value n = Some v -> len_of s i = zlen v.
Proof. intros Hn Hv. unfold len_of, lock_weight, node_len. by rewrite Hn, Hv. Qed.

Lemma insert_core (s : store) i n n' : s !! i = Some n -> core n' = core n -> core <$> <[i := n']> s = core <$> s.
Proof. intros Hn E. rewrite fmap_insert, E. apply insert_id. by rewrite lookup_fmap, Hn. Qed.

Lemma lockable_insert (s : store) i n' j : j <> i -> lockable_node s j -> lockable_node (<[i := n']> s) j.
Proof. intros Hne (n & v & Hn & H). exists n, v. by rewrite lookup_insert_ne. Qed.

Lemma inc_loop_ok p : forall fuel x acc u c ns, path_to (sc_nodes c) (root_node c) x p ->
  (forall i, i ∈ p -> i ∈ ns /\ lockable_node (sc_nodes c) i) -> window_live (sc_nodes c) (sliding_window_size c) acc p ->
  uuids_ok (sc_nodes c) (swa_uuid_counter c) -> (length p < fuel)%nat -> NoDup ns -> swa_sizes_ok c ns ->
  exists u' c', swa_inc_lock_loop fuel x acc u c = Ok (u', c')
    /\ locked 1 (sc_nodes c) (sc_nodes c') p (window (sc_nodes c) (sliding_window_size c) acc p)
    /\ same_rest c c' /\ swa_sizes_ok c' ns /\ uuids_ok (sc_nodes c') (swa_uuid_counter c')
    /\ u' = match window_end (sc_nodes c) (sliding_window_size c) acc p with Some e => uuid_of (sc_nodes c') e | None => u end
    /\ (forall e, window_end (sc_nodes c) (sliding_window_size c) acc p = Some e -> is_Some (uuid_of (sc_nodes c') e)).
Proof.
  induction p as [|i p IH]; intros fuel x acc u c ns Hp Hns Hw Hu Hf Hnd Hs; (destruct fuel as [|fuel]; [simpl in Hf; lia|]).
  - inversion Hp; subst. cbn [swa_inc_lock_loop]. rewrite decide_True by done. exists u, c. split_and!; try done. apply locked_refl.
  - pose proof (path_to_nodup _ _ _ _ Hp) as [Hip _]%NoDup_cons. inversion Hp as [|? n ? Hi Hn Hp']; subst.
    destruct (Hns i ltac:(left)) as [Hin (n0 & v & Hn0 & Hv & Hl)]. rewrite Hn in Hn0. injection Hn0 as <-.
    set (W := sliding_window_size c) in *. set (s := sc_nodes c) in *.
    assert (acc < W -> swa_tombstone n = false) as Ht.
    { intros Ha. destruct (Hw i) as (n1 & Hn1 & ?); [simpl; rewrite (proj2 (Z.ltb_lt _ _)) by done; by left|]. congruence. }
    destruct (inc_iter fuel i n v acc u c Hi Hn Hv Hl Ht Hu) as (n' & c1 & -> & Hst & Hc & Hfl & Hsl & Hum & Hue & Hu1).
    fold W in Hsl, Hue |- *. pose proof Hst as (E1 & _ & _ & _ & _ & Hr1). fold s in E1.
    pose proof Hr1 as (Er & _ & _ & _ & _ & _ & _ & EW & _).
    assert (core <$> sc_nodes c1 = core <$> s) as Ec by (rewrite E1; by eapply insert_core).
    pose proof (len_of_value s i n v Hn Hv) as Hlen.
    set (b := acc <? W) in *. set (acc' := if b then acc + zlen v else acc). set (e := b && (W <=? acc + zlen v)) in *.
    destruct (IH fuel (sn_parent n) acc' (if e then swa_uuid n' else u) c1 ns) as (u' & c' & -> & HL & HR & HS & HU & Hu' & He).
    + rewrite Er. by eapply path_core.
    + intros j Hj. destruct (Hns j ltac:(by right)). split; [done|]. rewrite E1. apply lockable_insert; [|done]. by intros ->.
    + rewrite EW. intros j Hj. rewrite (window_core s (sc_nodes c1)) in Hj by done. fold W in Hj.
      assert (j ∈ window s W acc (i :: p)) as Hj2.
      { unfold acc', b in Hj. simpl. rewrite Hlen. destruct (Z.ltb_spec acc W); [by right|].
        by rewrite (proj1 (window_done s W acc p ltac:(lia))) in Hj. }
      destruct (Hw j Hj2) as (m & Hm & Htm). rewrite E1. exists m. split; [|done]. rewrite lookup_insert_ne; [done|].
      intros ->. apply window_sub in Hj. done.
    + done.
    + simpl in Hf. lia.
    + done.
    + by eapply node_step_sizes.
    + rewrite EW in HL, Hu', He. fold W in HL, Hu', He. rewrite (window_core s (sc_nodes c1)) in HL by done.
      rewrite (window_end_core s (sc_nodes c1)) in Hu', He by done. exists u', c'. split; [done|].
      split; [|split; [by etrans|split; [done|split; [done|]]]].
      * rewrite E1 in HL. cbn [window]. rewrite Hlen. fold b.
        replace (if b then i :: window s W (acc + zlen v) p else []) with (if b then i :: window s W acc' p else window s W acc' p).
        { eapply locked_cons; try done. by intros ?%window_sub. }
        unfold acc', b. destruct (Z.ltb_spec acc W); [done|]. apply window_done. lia.
      * assert (uuid_of (sc_nodes c') i = Some (default 0 (swa_uuid n')) \/ swa_uuid n' = None) as Hui.
        { specialize (HL i). rewrite E1, lookup_insert_eq in HL. unfold uuid_of. destruct (sc_nodes c' !! i) as [m|]; [|done].
          destruct HL as (_ & _ & _ & HL). simpl. destruct (swa_uuid n') as [w|]; [left; by apply HL|by right]. }
        cbn [window_end]. rewrite Hlen. fold b. unfold acc', e, b in *. destruct (Z.ltb_spec acc W) as [Ha|Ha].
        -- cbn [andb] in *. destruct (Z.leb_spec W (acc + zlen v)) as [He1|He1]; [|done].
           rewrite (proj2 (window_done s W (acc + zlen v) p He1)) in Hu'. destruct (Hue eq_refl) as [w Ew].
           rewrite Ew in *. destruct Hui as [Hui|?]; [|done]. simpl in Hui. rewrite Hu', Hui. split; [done|]. intros ? [= <-]. by rewrite Hui.
        -- rewrite (proj2 (window_done s W acc p ltac:(lia))) in Hu'. done.
Qed.

(** ** Unlocking *)

(** The nodes whose sliding-window lock [dec_lock_ref] releases. *)
Fixpoint released (s : store) (u : option Z) (swa : bool) (p : list nat) : list nat :=
  match p with
  | i :: p => if swa then i :: released s u (match s !! i with Some n => negb (uuid_hit u n) | None => true end) p else []
  | [] => []
  end.

Lemma released_off s u p : released s u false p = [].
Proof. by destruct p. Qed.

Lemma released_sub s u b p i : i ∈ released s u b p -> i ∈ p.
Proof.
  revert b. induction p as [|j p IH]; intros b; simpl; [done|]. destruct b; [|set_solver].
  intros [->|H]%elem_of_cons; [by left|right; eauto].
Qed.

Lemma released_ext (s s' : store) u b p : (forall i, i ∈ p -> uuid_of s' i = uuid_of s i /\ (is_Some (s' !! i) <-> is_Some (s !! i))) ->
  released s' u b p = released s u b p.
Proof.
  revert b. induction p as [|i p IH]; intros b H; simpl; [done|]. destruct b; [|done]. f_equal. destruct (H i ltac:(left)) as [E S].
  replace (match s' !! i with Some n => negb (uuid_hit u n) | None => true end)
    with (match s !! i with Some n => negb (uuid_hit u n) | None => true end).
  { apply IH. intros j Hj. apply H. by right. }
  unfold uuid_of in E. destruct (s !! i) as [n|], (s' !! i) as [n'|]; simpl in *.
  - unfold uuid_hit. by rewrite E.
  - by destruct (proj2 S (mk_is_Some _ _ eq_refl)).
  - by destruct (proj1 S (mk_is_Some _ _ eq_refl)).
  - done.
Qed.

(** One iteration of [dec_lock_ref]. *)
Lemma dec_iter fuel i n v u b c : i <> root_node c -> sc_nodes c !! i = Some n -> sn_value n = Some v ->
  0 < full_lock_ref n -> (b = true -> swa_tombstone n = false /\ 0 < swa_lock_ref n) ->
  exists n' c', swa_dec_lock_loop (S fuel) (Some i) u b c
      = swa_dec_lock_loop fuel (sn_parent n) u (b && negb (uuid_hit u n)) c'
    /\ node_step c c' i n n' /\ core n' = core n /\ full_lock_ref n' = full_lock_ref n + -1
    /\ swa_lock_ref n' = swa_lock_ref n + -1 * Z.b2z b /\ swa_uuid n' = swa_uuid n /\ swa_uuid_counter c' = swa_uuid_counter c.
Proof.
  intros Hi Hn Hv Hl Hb. cbn [swa_dec_lock_loop]. rewrite decide_False by congruence.
  unfold sc_node. rewrite (deref_lookup _ _ _ Hn). cbn [res_bind]. rewrite (proj2 (Z.ltb_lt 0 _)) by lia. cbn [py_assert res_bind].
  unfold value_len. rewrite Hv. cbn [res_bind].
  set (c1 := if full_lock_ref n =? 1 then add_sizes (zlen v) 0 (- zlen v) 0 c else c).
  replace (if full_lock_ref n =? 1 then Ok (add_sizes (zlen v) 0 (- zlen v) 0 c) else Ok c) with (Ok c1) by (unfold c1; by destruct (_ =? 1)).
  cbn [res_bind]. assert (sc_nodes c1 = sc_nodes c) as E1 by (unfold c1; by destruct (_ =? 1)).
  rewrite (sc_set_ok _ i n) by by rewrite E1. cbn [res_bind].
  assert (swa_uuid_counter c1 = swa_uuid_counter c) as EU by (unfold c1; by destruct (_ =? 1)).
  destruct b.
  2:{ exists (set_locks (full_lock_ref n - 1) (swa_lock_ref n) n). eexists. split; [reflexivity|]. split.
      - unfold c1. step_solver n Hv.
      - split_and!; simpl; done || lia. }
  destruct (Hb eq_refl) as [Ht Hsl]. rewrite Ht, (proj2 (Z.ltb_lt 0 _)) by lia. cbn [negb py_assert res_bind andb].
  set (s1 := <[i := _]> (sc_nodes c1)).
  set (c2 := if swa_lock_ref n =? 1 then add_sizes 0 (zlen v) 0 (- zlen v) (with_nodes s1 c1) else with_nodes s1 c1).
  replace (if swa_lock_ref n =? 1 then Ok (add_sizes 0 (zlen v) 0 (- zlen v) (with_nodes s1 c1)) else Ok (with_nodes s1 c1)) with (Ok c2)
    by (unfold c2; by destruct (swa_lock_ref n =? 1)).
  cbn [res_bind]. assert (sc_nodes c2 = s1) as E2 by (unfold c2; by destruct (swa_lock_ref n =? 1)).
  rewrite (sc_set_ok _ i (set_locks (full_lock_ref n - 1) (swa_lock_ref n) n)) by (rewrite E2; apply lookup_insert_eq). cbn [res_bind].
  exists (set_locks (full_lock_ref n - 1) (swa_lock_ref n - 1) n). eexists. split; [reflexivity|]. split.
  - rewrite E2. unfold s1. rewrite insert_insert_eq, E1. unfold c2, c1. step_solver n Hv.
  - split_and!; simpl; try (done || lia). rewrite <- EU. unfold c2. by destruct (swa_lock_ref n =? 1).
Qed.

(** A node that can be unlocked. *)
Definition held_node (s : store) (i : nat) : Prop :=
  exists n v, s !! i = Some n /\ sn_value n = Some v /\ 0 < full_lock_ref n.
Definition swa_held (s : store) (i : nat) : Prop :=
  exists n, s !! i = Some n /\ swa_tombstone n = false /\ 0 < swa_lock_ref n.

Lemma dec_loop_ok p : forall fuel x u b c ns, path_to (sc_nodes c) (root_node c) x p ->
  (forall i, i ∈ p -> i ∈ ns /\ held_node (sc_nodes c) i) ->
  (forall i, i ∈ released (sc_nodes c) u b p -> swa_held (sc_nodes c) i) ->
  (length p < fuel)%nat -> NoDup ns -> swa_sizes_ok c ns ->
  exists c', swa_dec_lock_loop fuel x u b c = Ok c'
    /\ locked (-1) (sc_nodes c) (sc_nodes c') p (released (sc_nodes c) u b p)
    /\ same_rest c c' /\ swa_sizes_ok c' ns /\ swa_uuid_counter c' = swa_uuid_counter c
    /\ (forall i, uuid_of (sc_nodes c') i = uuid_of (sc_nodes c) i).
Proof.
  induction p as [|i p IH]; intros fuel x u b c ns Hp Hns Hw Hf Hnd Hs; (destruct fuel as [|fuel]; [simpl in Hf; lia|]).
  - inversion Hp; subst. cbn [swa_dec_lock_loop]. rewrite decide_True by done. exists c. split_and!; try done. apply locked_refl.
  - pose proof (path_to_nodup _ _ _ _ Hp) as [Hip _]%NoDup_cons. inversion Hp as [|? n ? Hi Hn Hp']; subst.
    destruct (Hns i ltac:(left)) as [Hin (n0 & v & Hn0 & Hv & Hl)]. rewrite Hn in Hn0. injection Hn0 as <-.
    set (s := sc_nodes c) in *.
    assert (b = true -> swa_tombstone n = false /\ 0 < swa_lock_ref n) as Ht.
    { intros ->. destruct (Hw i) as (n1 & Hn1 & ?); [simpl; by left|]. rewrite Hn in Hn1. by injection Hn1 as <-. }
    destruct (dec_iter fuel i n v u b c Hi Hn Hv Hl Ht) as (n' & c1 & -> & Hst & Hc & Hfl & Hsl & Hum & Hct).
    pose proof Hst as (E1 & _ & _ & _ & _ & Hr1). fold s in E1. pose proof Hr1 as (Er & _).
    assert (core <$> sc_nodes c1 = core <$> s) as Ec by (rewrite E1; by eapply insert_core).
    assert (forall j, uuid_of (sc_nodes c1) j = uuid_of s j) as Eu.
    { intros j. rewrite E1. unfold uuid_of. destruct (decide (j = i)) as [->|]; [by rewrite lookup_insert_eq, Hn|by rewrite lookup_insert_ne]. }
    assert (forall u b, released (sc_nodes c1) u b p = released s u b p) as Erel.
    { intros u0 b0. apply released_ext. intros j Hj. split; [done|]. rewrite E1, lookup_insert_ne by by intros ->. done. }
    assert (released s u b (i :: p) = if b then i :: released s u (b && negb (uuid_hit u n)) p else released s u (b && negb (uuid_hit u n)) p) as Ei.
    { destruct b; simpl; [by rewrite Hn|by rewrite released_off]. }
    assert (i ∉ released s u (b && negb (uuid_hit u n)) p) as Hir by by intros ?%released_sub.
    destruct (IH fuel (sn_parent n) u (b && negb (uuid_hit u n)) c1 ns) as (c' & -> & HL & HR & HS & HC & HU).
    + rewrite Er. by eapply path_core.
    + intros j Hj. destruct (Hns j ltac:(by right)) as [? (m & w & ? & ?)]. split; [done|]. exists m, w. rewrite E1.
      rewrite lookup_insert_ne; [done|by intros ->].
    + intros j Hj. rewrite Erel in Hj. destruct (Hw j) as (m & ? & ?); [rewrite Ei; destruct b; [by right|done]|].
      exists m. rewrite E1, lookup_insert_ne; [done|by intros ->].
    + simpl in Hf. lia.
    + done.
    + by eapply node_step_sizes.
    + exists c'. split; [done|]. rewrite Erel in HL. rewrite Ei. split.
      { rewrite E1 in HL. eapply locked_cons; try done. by rewrite Hum. }
      split_and!; [by etrans|done|congruence|]. intros j. by rewrite HU.
Qed.

(** The window of a lock is what its release walks. *)
Lemma window_all s W acc p : acc < W -> window_end s W acc p = None -> window s W acc p = p.
Proof.
  revert acc. induction p as [|i p IH]; intros acc Ha; simpl; [done|]. rewrite (proj2 (Z.ltb_lt _ _)) by done.
  destruct (Z.leb_spec W (acc + len_of s i)); [done|]. intros E. f_equal. by apply IH.
Qed.

Lemma released_none s p : released s None true p = p.
Proof. induction p as [|i p IH]; simpl; [done|]. f_equal. by destruct (s !! i). Qed.

Lemma released_window s W acc p e v : window_end s W acc p = Some e -> v <> 0 -> uuid_of s e = Some v ->
  (forall j, uuid_of s j = Some v -> j = e) -> (forall i, i ∈ p -> is_Some (s !! i)) -> NoDup p ->
  released s (Some v) true p = window s W acc p.
Proof.
  intros He Hv Hu Huni Hd Hnd. revert acc He. induction p as [|i p IH]; intros acc; cbn [released window window_end]; [done|].
  destruct (Z.ltb_spec acc W) as [Ha|Ha]; [|done]. destruct (Hd i ltac:(left)) as [n Hn]. rewrite Hn.
  apply NoDup_cons in Hnd as [Hip Hnd].
  destruct (Z.leb_spec W (acc + len_of s i)) as [Hl|Hl].
  - intros [= <-]. rewrite (proj1 (window_done s W _ p Hl)). f_equal. unfold uuid_of in Hu. rewrite Hn in Hu. simpl in Hu.
    unfold uuid_hit. rewrite Hu, bool_decide_true, (proj2 (Z.eqb_neq _ _)) by done. apply released_off.
  - intros He. f_equal. assert (uuid_hit (Some v) n = false) as ->.
    { simpl. rewrite bool_decide_false; [apply andb_false_r|]. intros E. assert (i = e) as -> by (apply Huni; unfold uuid_of; by rewrite Hn).
      assert (forall acc p, window_end s W acc p = Some e -> e ∈ p) as Hin; [|by apply Hip, (Hin (acc + len_of s e))].
      clear. intros acc p. revert acc. induction p as [|j p IH]; intros acc; simpl; [done|].
      destruct (acc <? W); [|done]. destruct (W <=? _); [intros [= ->]; left|right; eauto]. }
    apply IH; [set_solver|done|done].
Qed.
