(* ===== verification/SwaLocks.v ===== *)
(** Any number of requests may hold locks on the sliding-window radix cache at the same time:
    the lock counts of a node are the numbers of holders whose path and window contain it, every
    release of a held lock succeeds, and the counters stay the sums they stand for. *)

From S2P Require Export SwaLock.

(** ** Requests that hold locks

    A holder is the locked node with the identifier [inc_lock_ref] returned. *)

Section Holders.
Context (s0 : store) (root : nat) (W : Z) (ns : list nat).

Definition path_of (x : nat) : list nat := ancestors (base.size s0) s0 root (Some x).
Definition window_of (x : nat) : list nat := window s0 W 0 (path_of x).
Definition end_of (x : nat) : option nat := window_end s0 W 0 (path_of x).

(** A node a request may lock: its parents lead to the root inside the tree, and its window
    still has its sliding-window slots. *)
Definition may_lock (x : nat) : Prop :=
  path_to s0 root (Some x) (path_of x) /\ (forall i, i ∈ path_of x -> i ∈ ns) /\ window_live s0 W 0 (path_of x).

(** The tree: distinct nodes with values, no window identifier used twice. *)
Record swa_tree_ok (c : SWARadixCache) : Prop := {
  tk_nodup : NoDup ns;
  tk_window : 0 < W;
  tk_value : forall i, i ∈ ns -> exists n v, s0 !! i = Some n /\ sn_value n = Some v;
  tk_init : sc_nodes c = s0 /\ root_node c = root /\ sliding_window_size c = W /\ sc_disable c = false;
  tk_free : forall i n, i ∈ ns -> s0 !! i = Some n -> full_lock_ref n = 0 /\ swa_lock_ref n = 0;
  tk_uuids : uuids_ok s0 (swa_uuid_counter c);
  tk_sizes : swa_sizes_ok c ns
}.

Abbreviation holder := (nat * option Z)%type.

Inductive swa_lock_step : SWARadixCache * list holder -> SWARadixCache * list holder -> Prop :=
  | ls_inc c H x u c' : may_lock x -> swa_inc_lock_ref x c = Ok (u, c') -> swa_lock_step (c, H) (c', (x, u) :: H)
  | ls_dec c H x u H' c' : H ≡ₚ (x, u) :: H' -> swa_dec_lock_ref x u false c = Ok c' -> swa_lock_step (c, H) (c', H').

(** How many holders have [i] among the nodes [f] gives them. *)
Definition holders_of (f : nat -> list nat) (H : list holder) (i : nat) : Z :=
  zsum (map (fun h => Z.b2z (bool_decide (i ∈ f h.1))) H).

Record swa_locks_ok (c : SWARadixCache) (H : list holder) : Prop := {
  lk_core : core <$> sc_nodes c = core <$> s0;
  lk_cfg : root_node c = root /\ sliding_window_size c = W /\ sc_disable c = false;
  lk_sizes : swa_sizes_ok c ns;
  lk_uuids : uuids_ok (sc_nodes c) (swa_uuid_counter c);
  lk_count : forall i n, i ∈ ns -> sc_nodes c !! i = Some n ->
    full_lock_ref n = holders_of path_of H i /\ swa_lock_ref n = holders_of window_of H i;
  lk_holders : forall x u, (x, u) ∈ H -> may_lock x
    /\ match end_of x with Some e => is_Some u /\ uuid_of (sc_nodes c) e = u | None => u = None end
}.

Lemma holders_cons f h H i : holders_of f (h :: H) i = Z.b2z (bool_decide (i ∈ f h.1)) + holders_of f H i.
Proof. unfold holders_of. cbn [map]. by rewrite zsum_cons. Qed.

Lemma holders_perm f H H' i : H ≡ₚ H' -> holders_of f H i = holders_of f H' i.
Proof. intros HP. unfold holders_of. induction HP; cbn [map]; rewrite ?zsum_cons; lia. Qed.

Lemma holders_le H i : 0 <= holders_of window_of H i <= holders_of path_of H i.
Proof.
  induction H as [|[x u] H IH]; [done|]. rewrite !holders_cons. cbn [fst].
  assert (Z.b2z (bool_decide (i ∈ window_of x)) <= Z.b2z (bool_decide (i ∈ path_of x))).
  { destruct (decide (i ∈ window_of x)) as [Hi|Hi]; [|rewrite (bool_decide_false (i ∈ window_of x)) by done; simpl; by case_bool_decide].
    rewrite !bool_decide_true; [done|by eapply window_sub|done]. }
  assert (0 <= Z.b2z (bool_decide (i ∈ window_of x))) by (by case_bool_decide). lia.
Qed.

Context (c0 : SWARadixCache) (Htree : swa_tree_ok c0).

Lemma locks_init : swa_locks_ok c0 [].
Proof.
  destruct Htree as [_ _ _ (E & ? & ? & ?) Hfree Hu ?]. split; [by rewrite E|done|done|by rewrite E| |by intros ? ? ?%not_elem_of_nil].
  intros i n Hi Hn. rewrite E in Hn. apply (Hfree i n Hi Hn).
Qed.

Lemma node_of c H i : swa_locks_ok c H -> i ∈ ns -> exists n v, sc_nodes c !! i = Some n /\ sn_value n = Some v
  /\ full_lock_ref n = holders_of path_of H i /\ swa_lock_ref n = holders_of window_of H i.
Proof.
  intros Hl Hi. destruct (tk_value _ Htree i Hi) as (n0 & v & Hn0 & Hv).
  destruct (core_lookup _ _ i n0 (lk_core _ _ Hl) Hn0) as (n & Hn & En). exists n, v. split; [done|].
  split; [by rewrite (core_value _ _ En)|]. by apply (lk_count _ _ Hl).
Qed.

Lemma live_core c p : core <$> sc_nodes c = core <$> s0 -> window_live s0 W 0 p -> window_live (sc_nodes c) W 0 p.
Proof.
  intros E Hl i Hi. rewrite (window_core s0) in Hi by done. destruct (Hl i Hi) as (n & Hn & Ht).
  destruct (core_lookup _ _ i n E Hn) as (n' & ? & En). exists n'. by rewrite (core_tombstone _ _ En).
Qed.

Lemma core_size c : core <$> sc_nodes c = core <$> s0 -> base.size (sc_nodes c) = base.size s0.
Proof. intros E. apply (f_equal base.size) in E. by rewrite !map_size_fmap in E. Qed.

(** Locking a node that may be locked succeeds and keeps the counts. *)
Lemma inc_holds c H x : swa_locks_ok c H -> may_lock x -> exists u c', swa_inc_lock_ref x c = Ok (u, c') /\ swa_locks_ok c' ((x, u) :: H).
Proof.
  intros Hl Hm. pose proof Hl as [Ec (Er & EW & Ed) Hs Hu Hcnt Hh]. destruct Hm as (Hp & Hsub & Hlive) eqn:Em.
  unfold swa_inc_lock_ref. rewrite Ed, (core_size c Ec).
  destruct (inc_loop_ok (path_of x) (S (base.size s0)) (Some x) 0 None c ns) as (u & c' & -> & HL & HR & HS & HU & Eu & Hend).
  - rewrite Er. by eapply path_core.
  - intros i Hi. split; [by apply Hsub|]. destruct (node_of c H i Hl (Hsub i Hi)) as (n & v & Hn & Hv & E1 & E2).
    exists n, v. split; [done|]. split; [done|]. rewrite E1, E2. apply holders_le.
  - rewrite EW. by apply live_core.
  - done.
  - pose proof (path_to_length _ _ _ _ Hp). lia.
  - apply Htree.
  - done.
  - exists u, c'. split; [done|]. rewrite EW, (window_core s0) in HL by done. rewrite EW, (window_end_core s0) in Eu, Hend by done.
    fold (end_of x) in Eu, Hend. fold (window_of x) in HL. pose proof HR as (R1 & _ & _ & _ & _ & _ & _ & R2 & R3 & _).
    assert (core <$> sc_nodes c' = core <$> s0) as Ec' by (rewrite (locked_core _ _ _ _ _ HL); done).
    split; [done|split_and!; congruence|done|done| |].
    + intros i n Hi Hn. destruct (node_of c H i Hl Hi) as (m & v & Hm' & _ & F & S). specialize (HL i). rewrite Hm', Hn in HL.
      rewrite !holders_cons. cbn [fst]. destruct HL as (-> & -> & _). rewrite F, S. split; lia.
    + intros y w [[= -> ->]|Hin]%elem_of_cons.
      * split; [done|]. destruct (end_of x) as [e|]; [|done]. rewrite Eu. split; [by apply Hend|done].
      * destruct (Hh y w Hin) as [Hmy Hy]. split; [done|]. destruct (end_of y) as [e|]; [|done]. destruct Hy as [[v ->] Hy].
        split; [eauto|]. unfold uuid_of in *. specialize (HL e). destruct (sc_nodes c !! e) as [m|]; [|done].
        destruct (sc_nodes c' !! e) as [m'|]; [|done]. simpl in *. destruct HL as (_ & _ & _ & HL). by apply HL.
Qed.

(** Releasing a held lock succeeds and keeps the counts. *)
Lemma dec_holds c H x u H' : swa_locks_ok c H -> H ≡ₚ (x, u) :: H' ->
  exists c', swa_dec_lock_ref x u false c = Ok c' /\ swa_locks_ok c' H'.
Proof.
  intros Hl HP. pose proof Hl as [Ec (Er & EW & Ed) Hs Hu Hcnt Hh].
  destruct (Hh x u) as [(Hp & Hsub & Hlive) Hend]; [rewrite HP; left|].
  assert (forall i n, i ∈ ns -> sc_nodes c !! i = Some n -> full_lock_ref n = Z.b2z (bool_decide (i ∈ path_of x)) + holders_of path_of H' i
    /\ swa_lock_ref n = Z.b2z (bool_decide (i ∈ window_of x)) + holders_of window_of H' i) as Hcnt'.
  { intros i n Hi Hn. destruct (Hcnt i n Hi Hn) as [-> ->]. by rewrite !(holders_perm _ _ _ i HP), !holders_cons. }
  assert (released (sc_nodes c) u true (path_of x) = window_of x) as Erel.
  { unfold window_of. rewrite <- (window_core s0 (sc_nodes c)) by done. destruct (end_of x) as [e|] eqn:Ee; unfold end_of in Ee.
    - destruct Hend as [[v ->] Hev]. destruct Hu as [_ Hu]. destruct (Hu e v Hev) as [Hr Huni].
      apply (released_window _ W 0 _ e); [by rewrite (window_end_core s0)|lia|done|done| |by eapply path_to_nodup].
      intros i Hi. destruct (node_of c H i Hl (Hsub i Hi)) as (n & v' & -> & _). eauto.
    - subst u. rewrite released_none, window_all; [done|apply Htree|by rewrite (window_end_core s0)]. }
  unfold swa_dec_lock_ref. rewrite Ed, (core_size c Ec). cbn [negb].
  destruct (dec_loop_ok (path_of x) (S (base.size s0)) (Some x) u true c ns) as (c' & -> & HL & HR & HS & HC & HU).
  - rewrite Er. by eapply path_core.
  - intros i Hi. split; [by apply Hsub|]. destruct (node_of c H i Hl (Hsub i Hi)) as (n & v & Hn & Hv & _). exists n, v.
    split; [done|]. split; [done|]. destruct (Hcnt' i n (Hsub i Hi) Hn) as [-> _]. rewrite bool_decide_true by done.
    pose proof (holders_le H' i). simpl. lia.
  - intros i Hi. rewrite Erel in Hi. assert (i ∈ ns) as Hins by by apply Hsub, (window_sub s0 W 0).
    destruct (node_of c H i Hl Hins) as (n & v & Hn & Hv & _). exists n. split; [done|].
    destruct (Hlive i Hi) as (n0 & Hn0 & Ht). destruct (core_lookup _ _ i n0 Ec Hn0) as (n' & Hn' & En). rewrite Hn in Hn'. injection Hn' as <-.
    rewrite (core_tombstone _ _ En). split; [done|]. destruct (Hcnt' i n Hins Hn) as [_ ->]. rewrite bool_decide_true by done.
    pose proof (holders_le H' i). simpl. lia.
  - pose proof (path_to_length _ _ _ _ Hp). lia.
  - apply Htree.
  - done.
  - exists c'. split; [done|]. rewrite Erel in HL. pose proof HR as (R1 & _ & _ & _ & _ & _ & _ & R2 & R3 & _).
    split; [rewrite (locked_core _ _ _ _ _ HL); done|split_and!; congruence|done| | |].
    + rewrite HC. destruct Hu as [H1 Hu]. split; [done|]. intros i v Hi. rewrite HU in Hi. destruct (Hu i v Hi) as [? Hi2].
      split; [done|]. intros j Hj. rewrite HU in Hj. by apply Hi2.
    + intros i n Hi Hn. destruct (node_of c H i Hl Hi) as (m & v & Hm' & _). destruct (Hcnt' i m Hi Hm') as [F S].
      specialize (HL i). rewrite Hm', Hn in HL. destruct HL as (-> & -> & _). rewrite F, S. split; lia.
    + intros y w Hin. destruct (Hh y w) as [Hmy Hy]; [rewrite HP; by right|]. split; [done|].
      destruct (end_of y) as [e|]; [|done]. by rewrite HU.
Qed.

Lemma locks_reachable c H : rtc swa_lock_step (c0, []) (c, H) -> swa_locks_ok c H.
Proof.
  intros Hr. remember (c0, []) as a eqn:Ea. remember (c, H) as b eqn:Eb.
  assert (swa_locks_ok a.1 a.2) as Ha by (subst a; apply locks_init). clear Ea.
  assert (swa_locks_ok b.1 b.2) as Hb; [|by subst b]. clear Eb.
  induction Hr as [|a1 a2 a3 Hs _ IH]; [done|]. apply IH.
  destruct Hs as [c1 H1 x u c' Hm E|c1 H1 x u H' c' HP E]; simpl in *.
  - destruct (inc_holds c1 H1 x Ha Hm) as (u2 & c2 & E2 & ?). rewrite E in E2. by injection E2 as <- <-.
  - destruct (dec_holds c1 H1 x u H' Ha HP) as (c2 & E2 & ?). rewrite E in E2. by injection E2 as <-.
Qed.
End Holders.
