(* ===== verification/SwaTree.v ===== *)
(** The tree operations of [SWARadixCache] ([mem_cache/swa_radix_cache.py]): node creation,
    splitting and deletion, [match_prefix], [insert] and [evict].  Definitions only. *)

From S2P Require Export SwaCache.

(** ** Allocator calls *)

Definition sc_free (idx : list Z) (c : SWARadixCache) : res SWARadixCache :=
  let* a := swa_free (token_to_kv_pool_allocator c) idx in Ok (with_allocator a c).
Definition sc_free_swa (idx : list Z) (c : SWARadixCache) : res SWARadixCache :=
  let* a := swa_free_swa (token_to_kv_pool_allocator c) idx in Ok (with_allocator a c).

(** [x.value] where a tensor is needed *)
Definition sn_tensor (n : SwaNode) : res (list Z) :=
  match sn_value n with Some v => Ok v | None => Raise TypeError end.

(** [node.children[k] = i], where [node] may be [None] *)
Definition set_child (node : option nat) (k : pyval) (i : nat) (c : SWARadixCache) : res SWARadixCache :=
  let* (j, m) := sc_node c node in sc_set (set_sn_children (<[k := i]> (sn_children m))) j c.

(** ** Nodes *)

Definition add_new_node (parent : nat) (key : RadixKey) (value : list Z) (tombstone : bool) (c : SWARadixCache)
  : res (nat * SWARadixCache) :=
  let* _ := py_assert (0 <? key_len key) in
  let (new_node, c) :=
    sc_new_node (fun n => set_swa_tombstone tombstone (set_sn_kv key (Some value) (set_sn_parent (Some parent) n))) c in
  let* k := child_key key (sc_page_size c) in
  let* c := set_child (Some parent) k new_node c in
  let* c := full_insert_mru new_node c in
  let c := add_sizes (zlen value) 0 0 0 c in
  if negb tombstone then
    let* c := swa_insert_mru new_node c in
    Ok (new_node, add_sizes 0 (zlen value) 0 0 c)
  else Ok (new_node, c).

Definition swa_split_node (key : RadixKey) (child : nat) (split_len : Z) (c : SWARadixCache) : res (nat * SWARadixCache) :=
  let* (_, ch) := sc_node c (Some child) in
  let* kc := child_key (key_slice key (Some split_len) None) (sc_page_size c) in
  let new_key := key_slice (sn_key ch) None (Some split_len) in
  let* _ := py_assert (0 <? key_len new_key) in
  let* v := sn_tensor ch in
  let (new_node, c) :=
    sc_new_node (fun n => set_swa_uuid (swa_uuid ch) (set_sn_kv new_key (Some (py_upto v split_len))
      (set_locks (full_lock_ref ch) (swa_lock_ref ch) (set_swa_tombstone (swa_tombstone ch)
        (set_sn_parent (sn_parent ch) (set_sn_children {[ kc := child ]} n)))))) c in
  let* c := sc_set (set_swa_uuid None) child c in
  let (now, c) := get_last_access_time c in
  let* c := sc_set (set_sn_access now) child c in
  let* c := full_remove_node child c in
  let* c := if negb (swa_tombstone ch) then swa_remove_node child c else Ok c in
  let* c := sc_set (set_sn_parent (Some new_node)) child c in
  let child_key_ := key_slice (sn_key ch) (Some split_len) None in
  let* _ := py_assert (0 <? key_len child_key_) in
  let* c := sc_set (set_sn_kv child_key_ (Some (py_from v split_len))) child c in
  let* k := child_key key (sc_page_size c) in
  let* c := set_child (sn_parent ch) k new_node c in
  let* c := full_insert_mru new_node c in
  let* c := full_insert_mru child c in
  let* c :=
    if negb (swa_tombstone ch) then
      let* c := swa_insert_mru new_node c in swa_insert_mru child c
    else Ok c in
  Ok (new_node, c).

(** [SGLANG_OPT_SWA_SPLIT_LEAF_ON_INSERT] *)
Definition maybe_split_leaf_for_swa_lock (leaf : nat) (c : SWARadixCache) : res SWARadixCache :=
  if decide (leaf = root_node c) then Ok c
  else
    let* (_, n) := sc_node c (Some leaf) in
    if (0 <? swa_lock_ref n) || swa_tombstone n then Ok c else
    let* v := sn_tensor n in
    if zlen v =? 0 then Ok c
    else
      let tail_size := (sliding_window_size c + sc_page_size c - 1) / sc_page_size c * sc_page_size c in
      if zlen v <=? tail_size then Ok c
      else
        let split_at := zlen v - tail_size in
        if (split_at <=? 0) || (zlen v <=? split_at) then Ok c
        else if (1 <? sc_page_size c)
                && (negb (split_at mod sc_page_size c =? 0) || negb (zlen v mod sc_page_size c =? 0)) then Ok c
        else let* (_, c) := swa_split_node (sn_key n) leaf split_at c in Ok c.

(** [v = node.parent.children.pop(key, None); assert v == node] *)
Definition pop_child (node : nat) (n : SwaNode) (c : SWARadixCache) : res SWARadixCache :=
  let* key := child_key (sn_key n) (sc_page_size c) in
  let* (p, m) := sc_node c (sn_parent n) in
  let* c := sc_set (set_sn_children (delete key (sn_children m))) p c in
  let* _ := py_assert (bool_decide (sn_children m !! key = Some node)) in
  Ok c.

Definition no_children (n : SwaNode) : bool := bool_decide (base.size (sn_children n) = 0%nat).

Definition swa_delete_leaf (node : nat) (c : SWARadixCache) : res SWARadixCache :=
  let* (_, n) := sc_node c (Some node) in
  let* _ := py_assert (no_children n) in
  let* c := pop_child node n c in
  let c := add_sizes (- key_len (sn_key n)) 0 0 0 c in
  Ok (if negb (swa_tombstone n) then add_sizes 0 (- key_len (sn_key n)) 0 0 c else c).

Definition tombstone_internal_node (node : nat) (c : SWARadixCache) : res SWARadixCache :=
  let* (_, n) := sc_node c (Some node) in
  let* _ := py_assert (negb (no_children n)) in
  let* c := sc_set (set_swa_tombstone true) node c in
  Ok (add_sizes 0 (- key_len (sn_key n)) 0 0 c).

Definition delete_tombstone_leaf (node : nat) (c : SWARadixCache) : res SWARadixCache :=
  let* (_, n) := sc_node c (Some node) in
  let* _ := py_assert (swa_tombstone n) in
  let* _ := py_assert (no_children n) in
  let* c := pop_child node n c in
  Ok (add_sizes (- key_len (sn_key n)) 0 0 0 c).

Fixpoint delete_tombstone_loop (fuel : nat) (node : nat) (full_num_evicted : Z) (c : SWARadixCache)
  : res (nat * Z * SWARadixCache) :=
  match fuel with
  | O => Raise RuntimeError
  | S fuel =>
      let* (_, n) := sc_node c (Some node) in
      let* (p, m) := sc_node c (sn_parent n) in
      if swa_tombstone m && no_children m && negb (bool_decide (p = root_node c)) && negb (0 <? full_lock_ref m) then
        let* _ := py_assert (swa_lock_ref m =? 0) in
        let* v := sn_tensor m in
        let* c := sc_free v c in
        let* c := full_remove_node p c in
        let* c := delete_tombstone_leaf p c in
        delete_tombstone_loop fuel p (full_num_evicted + zlen v) c
      else Ok (node, full_num_evicted, c)
  end.

Definition iteratively_delete_tombstone_leaf (node : nat) (c : SWARadixCache) : res (nat * Z * SWARadixCache) :=
  delete_tombstone_loop (S (base.size (sc_nodes c))) node 0 c.

(** ** Matching *)

(** [match_len_since_tombstone]; [None] is [float("inf")]. *)
Definition window_reached (w : Z) (len : option Z) : bool := match len with None => true | Some l => w <=? l end.

Definition match_state : Type := list (list Z) * nat * option Z * nat * nat.

(** The loop of [_match_prefix_helper] with [SGLANG_OPT_SWA_RADIX_CACHE_COMPACT] off, its
    default.  The state is [value], [node], [match_len_since_tombstone], [best_value_len] and
    [best_last_node]; the fuel is the length of the key. *)
Fixpoint swa_match_loop (fuel : nat) (key : RadixKey) (ck : pyval) (st : match_state) (c : SWARadixCache)
  : res (match_state * SWARadixCache) :=
  let '(value, node, since, best_len, best_node) := st in
  match fuel with
  | O => Raise RuntimeError
  | S fuel =>
      let* (_, nd) := sc_node c (Some node) in
      match (if 0 <? key_len key then sn_children nd !! ck else None) with
      | None => Ok (st, c)
      | Some child =>
          let* (_, ch) := sc_node c (Some child) in
          let hit := swa_tombstone ch && window_reached (sliding_window_size c) since in
          let best_len := if hit then length value else best_len in
          let best_node := if hit then node else best_node in
          let since := if swa_tombstone ch then Some 0 else since in
          let* prefix_len := key_match (sn_key ch) key (sc_page_size c) in
          if prefix_len <? key_len (sn_key ch) then
            let* (new_node, c) := swa_split_node (sn_key ch) child prefix_len c in
            let* (_, nn) := sc_node c (Some new_node) in
            let* v := sn_tensor nn in
            let since := if negb (swa_tombstone nn) then option_map (Z.add (zlen v)) since else since in
            Ok ((value ++ [v], new_node, since, best_len, best_node), c)
          else
            let* v := sn_tensor ch in
            let since := if negb (swa_tombstone ch) then option_map (Z.add (zlen v)) since else since in
            let key := key_slice key (Some prefix_len) None in
            let* ck := if negb (key_len key =? 0) then child_key key (sc_page_size c) else Ok ck in
            swa_match_loop fuel key ck (value ++ [v], child, since, best_len, best_node) c
      end
  end.

Definition swa_match_prefix_helper (key : RadixKey) (c : SWARadixCache) : res (list (list Z) * nat * nat * SWARadixCache) :=
  let* ck := child_key key (sc_page_size c) in
  let* (st, c) := swa_match_loop (S (Z.to_nat (key_len key))) key ck ([], root_node c, None, 0%nat, root_node c) c in
  let '(value, node, since, best_len, best_node) := st in
  if window_reached (sliding_window_size c) since then Ok (value, node, length value, c)
  else Ok (value, best_node, best_len, c).

Definition swa_match_pre_processor (key : RadixKey) (c : SWARadixCache) : option RadixKey :=
  let (key, _) := maybe_to_bigram_view key (sc_is_eagle c) None in
  if sc_disable c || (key_len key =? 0) then None
  else
    let key := page_aligned key (sc_page_size c) in
    if key_len key =? 0 then None else Some key.

(** The loop that stamps the path of the matched node. *)
Fixpoint stamp_loop (fuel : nat) (node : option nat) (cur_time : Z) (c : SWARadixCache) : res SWARadixCache :=
  match node with
  | None => Ok c
  | Some i =>
      match fuel with
      | O => Raise RuntimeError
      | S fuel =>
          let* (_, n) := sc_node c (Some i) in
          let* c := sc_set (set_sn_access cur_time) i c in
          stamp_loop fuel (sn_parent n) (cur_time - 1) c
      end
  end.

Definition swa_match_post_processor (value : list (list Z)) (last_node best_value_len : nat) (c : SWARadixCache)
  : res (list Z * nat * SWARadixCache) :=
  let* s := reset_node_and_parents_mru (full_lru_list c) last_node (root_node c) (sc_nodes c) in
  let* s := reset_node_and_parents_mru (swa_lru_list c) last_node (root_node c) s in
  let c := with_nodes s c in
  let (cur_time, c) := get_last_access_time c in
  let* c := stamp_loop (S (base.size (sc_nodes c))) (Some last_node) cur_time c in
  Ok (concat (take best_value_len value), last_node, c).

(** [match_prefix]: the matched slots and the node that ends them. *)
Definition swa_match_prefix (key : RadixKey) (c : SWARadixCache) : res (list Z * nat * SWARadixCache) :=
  match swa_match_pre_processor key c with
  | None => Ok ([], root_node c, c)
  | Some key =>
      let* (value, last_node, best_value_len, c) := swa_match_prefix_helper key c in
      swa_match_post_processor value last_node best_value_len c
  end.

(** ** Insertion *)

(** [node.last_access_time = get_last_access_time()] and the moves that follow it. *)
Definition touch_node (node : nat) (c : SWARadixCache) : res SWARadixCache :=
  let (now, c) := get_last_access_time c in
  let* c := sc_set (set_sn_access now) node c in
  let* c := full_reset_node_mru node c in
  let* (_, n) := sc_node c (Some node) in
  if negb (swa_tombstone n) then swa_reset_node_mru node c else Ok c.

(** [node.value = v; node.swa_tombstone = False] with the list and the counter. *)
Definition revive_node (node : nat) (v : list Z) (c : SWARadixCache) : res SWARadixCache :=
  let* c := sc_set (fun n => set_swa_tombstone false (set_sn_kv (sn_key n) (Some v) n)) node c in
  let* c := swa_insert_mru node c in
  Ok (add_sizes 0 (zlen v) 0 0 c).

(** What the loop of [_insert_helper] does with a node that holds [prefix_len] tokens of the
    key after the first [total_prefix_length]; [value] is the rest of the inserted slots. *)
Definition insert_at_node (node : nat) (value : list Z) (prefix_len total_prefix_length update_kv_after_len swa_evicted_seqlen : Z)
    (c : SWARadixCache) : res SWARadixCache :=
  if negb (update_kv_after_len <? total_prefix_length + prefix_len) then Ok c
  else
    let* (_, n) := sc_node c (Some node) in
    if swa_tombstone n then
      let* _ := py_assert (swa_lock_ref n =? 0) in
      let* _ := py_assert (swa_evicted_seqlen mod sc_page_size c =? 0) in
      if swa_evicted_seqlen <=? total_prefix_length then
        let* v := sn_tensor n in
        let* c := sc_free (py_upto v prefix_len) c in
        revive_node node (py_upto value prefix_len) c
      else if swa_evicted_seqlen <? total_prefix_length + prefix_len then
        let start_update_idx := swa_evicted_seqlen - total_prefix_length in
        let* v := sn_tensor n in
        let* c := sc_free (py_slice v start_update_idx prefix_len) c in
        let* (_, c) := swa_split_node (sn_key n) node start_update_idx c in
        let* c := sc_set (fun n => set_sn_kv (sn_key n) (Some (py_slice value start_update_idx prefix_len)) n) node c in
        let* c := sc_free (py_upto value start_update_idx) c in
        revive_node node (py_slice value start_update_idx prefix_len) c
      else sc_free (py_upto value prefix_len) c
    else sc_free (py_upto value prefix_len) c.

(** The loop of [_insert_helper]; it returns the node it ends at, the rest of the key and of the
    value, and the matched length. *)
Fixpoint swa_insert_loop (fuel : nat) (node : nat) (key : RadixKey) (ck : pyval) (value : list Z)
    (total_prefix_length update_kv_after_len swa_evicted_seqlen : Z) (c : SWARadixCache)
  : res (nat * RadixKey * list Z * Z * SWARadixCache) :=
  match fuel with
  | O => Raise RuntimeError
  | S fuel =>
      let* (_, nd) := sc_node c (Some node) in
      match (if 0 <? key_len key then sn_children nd !! ck else None) with
      | None => Ok (node, key, value, total_prefix_length, c)
      | Some child =>
          let* c := touch_node child c in
          let* (_, ch) := sc_node c (Some child) in
          let* prefix_len := key_match (sn_key ch) key (sc_page_size c) in
          let* (node, c) :=
            if prefix_len <? key_len (sn_key ch) then swa_split_node (sn_key ch) child prefix_len c else Ok (child, c) in
          let* c := insert_at_node node value prefix_len total_prefix_length update_kv_after_len swa_evicted_seqlen c in
          let key := key_slice key (Some prefix_len) None in
          let* ck := if negb (key_len key =? 0) then child_key key (sc_page_size c) else Ok ck in
          swa_insert_loop fuel node key ck (py_from value prefix_len) (total_prefix_length + prefix_len)
            update_kv_after_len swa_evicted_seqlen c
      end
  end.

(** What [_insert_helper] does with the part of the key that is not in the tree;
    [split_leaf] is [SGLANG_OPT_SWA_SPLIT_LEAF_ON_INSERT]. *)
Definition insert_rest (split_leaf : bool) (node : nat) (key : RadixKey) (value : list Z)
    (total_prefix_length swa_evicted_seqlen : Z) (c : SWARadixCache) : res (Z * SWARadixCache) :=
  if swa_evicted_seqlen =? total_prefix_length + key_len key then
    let* c := sc_free value c in Ok (total_prefix_length, c)
  else
    let* (node, key, value, c) :=
      if (total_prefix_length <? swa_evicted_seqlen) && (swa_evicted_seqlen <? total_prefix_length + key_len key) then
        let swa_tombstone_len := swa_evicted_seqlen - total_prefix_length in
        let* (node, c) := add_new_node node (key_slice key None (Some swa_tombstone_len)) (py_upto value swa_tombstone_len) true c in
        Ok (node, key_slice key (Some swa_tombstone_len) None, py_from value swa_tombstone_len, c)
      else Ok (node, key, value, c) in
    let* (new_leaf, c) := add_new_node node key value false c in
    let* c := if split_leaf then maybe_split_leaf_for_swa_lock new_leaf c else Ok c in
    Ok (total_prefix_length, c).

Definition swa_insert_helper (split_leaf : bool) (node : nat) (key : RadixKey) (value : list Z)
    (update_kv_after_len swa_evicted_seqlen : Z) (c : SWARadixCache) : res (Z * SWARadixCache) :=
  let* c :=
    if decide (node = root_node c) then
      let (now, c) := get_last_access_time c in sc_set (set_sn_access now) node c
    else touch_node node c in
  if key_len key =? 0 then Ok (0, c)
  else
    let* ck := child_key key (sc_page_size c) in
    let* (node, key, value, total_prefix_length, c) :=
      swa_insert_loop (S (Z.to_nat (key_len key))) node key ck value 0 update_kv_after_len swa_evicted_seqlen c in
    if key_len key =? 0 then Ok (total_prefix_length, c)
    else insert_rest split_leaf node key value total_prefix_length swa_evicted_seqlen c.

(** [insert]; [value] is the tensor of slots, [None] when the caller passes no slots. *)
Definition swa_insert (split_leaf : bool) (key : RadixKey) (value : option (list Z)) (prev_prefix_len swa_evicted_seqlen : Z)
    (c : SWARadixCache) : res (Z * SWARadixCache) :=
  if sc_disable c then Ok (0, c)
  else
    let (key, value) := maybe_to_bigram_view key (sc_is_eagle c) value in
    let key := page_aligned key (sc_page_size c) in
    let value := match value with Some v => py_upto v (key_len key) | None => py_upto (token_ids key) (key_len key) end in
    swa_insert_helper split_leaf (root_node c) key value prev_prefix_len swa_evicted_seqlen c.

(** ** Eviction *)

(** The first loop of [evict]: leaves, least recently used first. *)
Fixpoint evict_full_loop (fuel : nat) (x : option nat) (full_num_tokens full_num_evicted swa_num_evicted : Z) (c : SWARadixCache)
  : res (Z * Z * SWARadixCache) :=
  match fuel with
  | O => Raise RuntimeError
  | S fuel =>
      match x with
      | Some i =>
          if (full_num_evicted <? full_num_tokens) && in_list (full_lru_list c) x then
            let* (_, n) := sc_node c x in
            let* _ := py_assert (negb (bool_decide (i = root_node c))) in
            let* _ := py_assert (full_lock_ref n =? 0) in
            let* v := sn_tensor n in
            let* c := sc_free v c in
            let full_num_evicted := full_num_evicted + zlen v in
            let swa_num_evicted := if negb (swa_tombstone n) then swa_num_evicted + zlen v else swa_num_evicted in
            let* x_next := get_prev_leaf_no_lock (full_lru_list c) i true (sc_nodes c) in
            let* c := full_remove_node i c in
            let* c := if negb (swa_tombstone n) then swa_remove_node i c else Ok c in
            let* c := swa_delete_leaf i c in
            let* (j, leaf_full_num_evicted, c) := iteratively_delete_tombstone_leaf i c in
            let* (_, m) := sc_node c (Some j) in
            let* (_, p) := sc_node c (sn_parent m) in
            let* x_next := if no_children p then get_leaf_lru_no_lock (full_lru_list c) (sc_nodes c) else Ok x_next in
            evict_full_loop fuel x_next full_num_tokens (full_num_evicted + leaf_full_num_evicted) swa_num_evicted c
          else Ok (full_num_evicted, swa_num_evicted, c)
      | None => Ok (full_num_evicted, swa_num_evicted, c)
      end
  end.

(** The second loop: the sliding-window side of any node, least recently used first. *)
Fixpoint evict_swa_loop (fuel : nat) (x : option nat) (swa_num_tokens full_num_evicted swa_num_evicted : Z) (c : SWARadixCache)
  : res (Z * Z * SWARadixCache) :=
  match fuel with
  | O => Raise RuntimeError
  | S fuel =>
      match x with
      | Some i =>
          if (swa_num_evicted <? swa_num_tokens) && in_list (swa_lru_list c) x then
            let* (_, n) := sc_node c x in
            let* _ := py_assert (negb (swa_tombstone n)) in
            let* _ := py_assert (negb (bool_decide (i = root_node c))) in
            let* _ := py_assert (swa_lock_ref n =? 0) in
            let* v := sn_tensor n in
            if negb (no_children n) then
              let* c := sc_free_swa v c in
              let* x_next := get_prev_no_lock (swa_lru_list c) i true (sc_nodes c) in
              let* c := swa_remove_node i c in
              let* c := tombstone_internal_node i c in
              evict_swa_loop fuel x_next swa_num_tokens full_num_evicted (swa_num_evicted + zlen v) c
            else if 0 <? full_lock_ref n then
              let* c := sc_free_swa v c in
              let* x_next := get_prev_no_lock (swa_lru_list c) i true (sc_nodes c) in
              let* c := swa_remove_node i c in
              let* c := sc_set (set_swa_tombstone true) i (add_sizes 0 (- zlen v) 0 0 c) in
              evict_swa_loop fuel x_next swa_num_tokens full_num_evicted (swa_num_evicted + zlen v) c
            else
              let* _ := py_assert (full_lock_ref n =? 0) in
              let* c := sc_free v c in
              let* x_next := get_prev_no_lock (swa_lru_list c) i true (sc_nodes c) in
              let* c := full_remove_node i c in
              let* c := swa_remove_node i c in
              let* c := swa_delete_leaf i c in
              let* (_, _, c) := iteratively_delete_tombstone_leaf i c in
              evict_swa_loop fuel x_next swa_num_tokens (full_num_evicted + zlen v) (swa_num_evicted + zlen v) c
          else Ok (full_num_evicted, swa_num_evicted, c)
      | None => Ok (full_num_evicted, swa_num_evicted, c)
      end
  end.

(** [evict]: how many full and sliding-window tokens were evicted. *)
Definition swa_evict (full_num_tokens swa_num_tokens : Z) (c : SWARadixCache) : res (Z * Z * SWARadixCache) :=
  if sc_disable c then Ok (0, 0, c)
  else
    let fuel := S (base.size (sc_nodes c)) in
    let* (fe, se, c) :=
      if 0 <? full_num_tokens then
        let* x := get_leaf_lru_no_lock (full_lru_list c) (sc_nodes c) in
        evict_full_loop fuel x full_num_tokens 0 0 c
      else Ok (0, 0, c) in
    if se <? swa_num_tokens then
      let* x := get_lru_no_lock (swa_lru_list c) (sc_nodes c) in
      evict_swa_loop fuel x swa_num_tokens fe se c
    else Ok (fe, se, c).
