(* ===== verification/SwaWf.v ===== *)
(** Well-formed sliding-window radix caches: the recency lists hold the nodes of the tree, and
    every operation on a list or an attribute keeps them so.  [SwaMatch.v] builds on this. *)

From S2P Require Export SwaLocks SwaTree.

(** ** The bare tree

    A node without its list links, which list operations change, and without its access time,
    which only a debugging check reads. *)

Definition view (n : SwaNode) : SwaNode := set_sn_access 0 (bare n).
Abbreviation bares c := (view <$> sc_nodes c).

Lemma same_nodes_view s s' : same_nodes s s' -> view <$> s' = view <$> s.
Proof.
  intros E. assert (forall m : store, view <$> m = set_sn_access 0 <$> (bare <$> m)) as H by (intros; by rewrite <- map_fmap_compose).
  by rewrite !H, E.
Qed.

(** A node's attribute change that leaves the links alone. *)
Definition plain (f : SwaNode -> SwaNode) : Prop :=
  forall n, view (f n) = f (view n) /\ forall swa, get_nxt swa (f n) = get_nxt swa n /\ get_prv swa (f n) = get_prv swa n.

Lemma plain_children x : plain (set_sn_children x).
Proof. intros n. split; [by destruct n|intros []; by destruct n]. Qed.
Lemma plain_parent x : plain (set_sn_parent x).
Proof. intros n. split; [by destruct n|intros []; by destruct n]. Qed.
Lemma plain_kv k v : plain (set_sn_kv k v).
Proof. intros n. split; [by destruct n|intros []; by destruct n]. Qed.
Lemma plain_uuid u : plain (set_swa_uuid u).
Proof. intros n. split; [by destruct n|intros []; by destruct n]. Qed.
Lemma plain_tombstone b : plain (set_swa_tombstone b).
Proof. intros n. split; [by destruct n|intros []; by destruct n]. Qed.
Lemma plain_locks a b : plain (set_locks a b).
Proof. intros n. split; [by destruct n|intros []; by destruct n]. Qed.

Create HintDb plain.
#[export] Hint Resolve plain_children plain_parent plain_kv plain_uuid plain_tombstone plain_locks : plain.

Lemma bares_lookup c i n : sc_nodes c !! i = Some n -> bares c !! i = Some (view n).
Proof. intros H. by rewrite lookup_fmap, H. Qed.
Lemma bares_inv (c : SWARadixCache) i b : bares c !! i = Some b -> exists n, sc_nodes c !! i = Some n /\ view n = b.
Proof. rewrite lookup_fmap. destruct (sc_nodes c !! i) as [n|]; [|done]. intros [= <-]. eauto. Qed.

(** ** The two lists of a cache *)

Record lists_wf (c : SWARadixCache) (fs ss : list nat) : Prop := {
  lw_full : lru_ok (full_lru_list c) (sc_nodes c) fs;
  lw_swa : lru_ok (swa_lru_list c) (sc_nodes c) ss;
  lw_kinds : is_swa_list (full_lru_list c) = false /\ is_swa_list (swa_lru_list c) = true
}.

(** The dummies of the lists. *)
Definition dummies (c : SWARadixCache) : list nat :=
  [lru_head (full_lru_list c); lru_tail (full_lru_list c); lru_head (swa_lru_list c); lru_tail (swa_lru_list c)].

(** What list and attribute operations leave alone. *)
Definition same_frame (c c' : SWARadixCache) : Prop :=
  root_node c' = root_node c /\ dummies c' = dummies c
  /\ full_evictable_size_ c' = full_evictable_size_ c /\ swa_evictable_size_ c' = swa_evictable_size_ c
  /\ full_protected_size_ c' = full_protected_size_ c /\ swa_protected_size_ c' = swa_protected_size_ c
  /\ swa_uuid_counter c' = swa_uuid_counter c
  /\ token_to_kv_pool_allocator c' = token_to_kv_pool_allocator c /\ sc_page_size c' = sc_page_size c
  /\ sliding_window_size c' = sliding_window_size c /\ sc_disable c' = sc_disable c /\ sc_is_eagle c' = sc_is_eagle c.

#[export] Instance same_frame_equiv : Equivalence same_frame.
Proof.
  unfold same_frame. split; [intros c; tauto|intros c d; intuition congruence|intros c d e; intuition congruence].
Qed.

Lemma lru_ok_ext l (s s' : store) ns : lru_ok l s ns ->
  (forall i, i ∈ lru_head l :: ns ++ [lru_tail l] ->
     nxt_of (is_swa_list l) s' i = nxt_of (is_swa_list l) s i /\ prv_of (is_swa_list l) s' i = prv_of (is_swa_list l) s i) ->
  (forall n, s !! lru_head l = Some n -> sentinel n -> exists n', s' !! lru_head l = Some n' /\ sentinel n') -> lru_ok l s' ns.
Proof.
  intros [Hl Hnd Hs (n & Hn & Hse)] Hx Hh. split; [|done|done|by eapply Hh].
  assert (forall L : list nat, forall i, i ∈ removelast L \/ i ∈ tail L -> i ∈ L) as Hin.
  { intros L i [H|H]; [|by destruct L; [|right]]. revert H. induction L as [|a [|b L] IH]; simpl; [done|set_solver|].
    intros [->|H]%elem_of_cons; [left|right; by apply IH]. }
  apply (linked_ext _ s); [done| |]; intros i Hi; apply Hx, Hin; auto.
Qed.

Lemma lru_ok_in_dom l s ns i : lru_ok l s ns -> i ∈ lru_head l :: ns ++ [lru_tail l] -> i ∈ dom s.
Proof.
  intros H Hi. destruct (lru_sent _ _ _ H) as (n & Hn & _).
  apply elem_of_cons in Hi as [->|Hi]; [by eapply elem_of_dom_2|]. apply elem_of_app in Hi as [Hi|Hi]; [by eapply lru_ok_dom|].
  apply list_elem_of_singleton in Hi as ->. pose proof (lru_linked _ _ _ H) as Hk.
  destruct (cons_snoc (lru_head l) ns) as (P & x & EP).
  change (lru_head l :: ns ++ [lru_tail l]) with ((lru_head l :: ns) ++ [lru_tail l]) in Hk. rewrite EP, <- app_assoc in Hk.
  apply linked_mid in Hk as (_ & _ & Hk & _). by eapply prv_dom.
Qed.

(** A new object is in no list. *)
Lemma lists_wf_new c fs ss i n : lists_wf c fs ss -> i ∉ dom (sc_nodes c) ->
  lists_wf (with_nodes (<[i := n]> (sc_nodes c)) c) fs ss.
Proof.
  intros [Hf Hs Hk] Hi.
  assert (forall l ns, lru_ok l (sc_nodes c) ns -> lru_ok l (<[i := n]> (sc_nodes c)) ns) as Hok.
  { intros l ns Hl. apply (lru_ok_ext l (sc_nodes c)); [done| |].
    - intros j Hj. assert (j <> i) by (intros ->; by apply Hi, (lru_ok_in_dom l _ ns)). unfold nxt_of, prv_of. by rewrite lookup_insert_ne.
    - intros m Hm Hse. exists m. rewrite lookup_insert_ne; [done|]. intros E. apply Hi. rewrite E. by eapply elem_of_dom_2. }
  split; simpl; [by apply Hok|by apply Hok|done].
Qed.

(** Attributes that are not links may change, on nodes that are not dummies. *)
Lemma lists_wf_set c fs ss f i n : lists_wf c fs ss -> plain f -> sc_nodes c !! i = Some n -> i ∉ dummies c ->
  exists c', sc_set f i c = Ok c' /\ lists_wf c' fs ss /\ same_frame c c'
    /\ bares c' = <[i := f (view n)]> (bares c) /\ node_counter c' = node_counter c /\ sc_nodes c' = <[i := f n]> (sc_nodes c).
Proof.
  intros [Hf Hs Hk] Hp Hn Hi. eexists. split; [by eapply sc_set_ok|].
  assert (forall l ns, lru_head l <> i -> lru_ok l (sc_nodes c) ns -> lru_ok l (<[i := f n]> (sc_nodes c)) ns) as Hok.
  { intros l ns Hh Hl. apply (lru_ok_ext l (sc_nodes c)); [done| |].
    - intros j Hj. unfold nxt_of, prv_of. destruct (decide (j = i)) as [->|]; [|by rewrite lookup_insert_ne].
      rewrite lookup_insert_eq, Hn. simpl. apply Hp.
    - intros m Hm Hse. exists m. by rewrite lookup_insert_ne. }
  unfold dummies in Hi. split; [|split; [done|]].
  - split; simpl; [apply Hok; [set_solver|done]|apply Hok; [set_solver|done]|done].
  - simpl. split; [|done]. rewrite fmap_insert. by rewrite (proj1 (Hp n)).
Qed.

(** Access times may change on any node. *)
Lemma access_wf c fs ss t i n : lists_wf c fs ss -> sc_nodes c !! i = Some n ->
  exists c', sc_set (set_sn_access t) i c = Ok c' /\ lists_wf c' fs ss /\ same_frame c c' /\ bares c' = bares c
    /\ node_counter c' = node_counter c /\ access_counter c' = access_counter c.
Proof.
  intros [Hf Hs Hk] Hn. eexists. split; [by eapply sc_set_ok|].
  assert (forall l ns, lru_ok l (sc_nodes c) ns -> lru_ok l (<[i := set_sn_access t n]> (sc_nodes c)) ns) as Hok.
  { intros l ns Hl. apply (lru_ok_ext l (sc_nodes c)); [done| |].
    - intros j Hj. unfold nxt_of, prv_of. destruct (decide (j = i)) as [->|]; [|by rewrite lookup_insert_ne].
      rewrite lookup_insert_eq, Hn. simpl. by destruct (is_swa_list l).
    - intros m Hm Hse. destruct (decide (lru_head l = i)) as [<-|]; [|exists m; by rewrite lookup_insert_ne].
      rewrite lookup_insert_eq. rewrite Hn in Hm. injection Hm as ->. eexists. split; [done|]. by destruct Hse as (? & ? & ?). }
  split; [split; simpl; [by apply Hok|by apply Hok|done]|]. split; [done|]. simpl. split; [|done].
  rewrite fmap_insert. change (view (set_sn_access t n)) with (view n). apply insert_id. by rewrite lookup_fmap, Hn.
Qed.

(** The operations of a list on a cache. *)
Lemma lists_wf_full c fs ss op (run : SWARadixCache -> res SWARadixCache) ns : lists_wf c fs ss ->
  (forall c, run c = (let* (l, s) := run_op op (full_lru_list c) (sc_nodes c) in Ok (with_nodes s (with_lists l (swa_lru_list c) c)))) ->
  op_ok (full_lru_list c) (sc_nodes c) op -> seq_op false (sc_nodes c) op fs = Some ns ->
  exists c', run c = Ok c' /\ lists_wf c' ns ss /\ same_frame c c' /\ bares c' = bares c /\ node_counter c' = node_counter c.
Proof.
  intros [Hf Hs [Kf Ks]] Hrun Hop Hseq. pose proof (run_op_refines _ _ _ _ Hf Hop) as H. rewrite Kf, Hseq in H.
  destruct H as (l & s & E & Hl & Hb & K & Eh & Et). rewrite Hrun, E. cbn [res_bind]. eexists. split; [done|]. split.
  - split; simpl; [done| |by rewrite K].
    eapply lru_ok_other; [|done]. rewrite Ks. by rewrite Kf in Hb.
  - split; [|split; [by eapply same_nodes_view, same_but_nodes|done]]. unfold same_frame, dummies. simpl. by rewrite Eh, Et.
Qed.

Lemma lists_wf_swa c fs ss op (run : SWARadixCache -> res SWARadixCache) ns : lists_wf c fs ss ->
  (forall c, run c = (let* (l, s) := run_op op (swa_lru_list c) (sc_nodes c) in Ok (with_nodes s (with_lists (full_lru_list c) l c)))) ->
  op_ok (swa_lru_list c) (sc_nodes c) op -> seq_op true (sc_nodes c) op ss = Some ns ->
  exists c', run c = Ok c' /\ lists_wf c' fs ns /\ same_frame c c' /\ bares c' = bares c /\ node_counter c' = node_counter c.
Proof.
  intros [Hf Hs [Kf Ks]] Hrun Hop Hseq. pose proof (run_op_refines _ _ _ _ Hs Hop) as H. rewrite Ks, Hseq in H.
  destruct H as (l & s & E & Hl & Hb & K & Eh & Et). rewrite Hrun, E. cbn [res_bind]. eexists. split; [done|]. split.
  - split; simpl; [|done|by rewrite K].
    eapply lru_ok_other; [|done]. rewrite Kf. by rewrite Ks in Hb.
  - split; [|split; [by eapply same_nodes_view, same_but_nodes|done]]. unfold same_frame, dummies. simpl. by rewrite Eh, Et.
Qed.

(** ** The tree *)

(** [fs] are the nodes below [root], in the bare store [B]. *)
Record tree_wf (B : store) (root : nat) (ps : Z) (fs : list nat) : Prop := {
  tw_root : (exists rn, B !! root = Some rn /\ sn_parent rn = None) /\ root ∉ fs;
  tw_node : forall i, i ∈ fs -> exists n v, B !! i = Some n /\ sn_value n = Some v /\ zlen v = key_len (sn_key n)
    /\ aligned ps (sn_key n) /\ 0 < key_len (sn_key n) /\ 0 <= swa_lock_ref n <= full_lock_ref n;
  tw_path : forall i, i ∈ fs -> exists p, path_to B root (Some i) p /\ forall j, j ∈ p -> j ∈ fs;
  tw_child : forall i n k j, i ∈ root :: fs -> B !! i = Some n -> sn_children n !! k = Some j ->
    j ∈ fs /\ exists m, B !! j = Some m /\ sn_parent m = Some i /\ child_key (sn_key m) ps = Ok k;
  tw_in : forall i n q m, i ∈ fs -> B !! i = Some n -> sn_parent n = Some q -> B !! q = Some m ->
    exists k, child_key (sn_key n) ps = Ok k /\ sn_children m !! k = Some i
}.

(** The parent of a node is in the tree. *)
Lemma tree_parent B root ps fs i n q : tree_wf B root ps fs -> i ∈ fs -> B !! i = Some n -> sn_parent n = Some q ->
  exists m, B !! q = Some m /\ q ∈ root :: fs /\ exists p, path_to B root (Some q) p /\ (i ∉ p) /\ forall j, j ∈ p -> j ∈ fs.
Proof.
  intros Ht Hi Hn Hq. destruct (tw_path _ _ _ _ Ht i Hi) as (p & Hp & Hpf). pose proof (path_to_nodup _ _ _ _ Hp) as Hnd.
  inversion Hp as [E|? n2 p0 Hr Hn2 Hp2 E1 E2]; subst; [by destruct (tw_root _ _ _ _ Ht)|]. rewrite Hn in Hn2. injection Hn2 as <-. rewrite Hq in Hp2.
  apply NoDup_cons in Hnd as [Hni _]. assert (forall j, j ∈ p0 -> j ∈ fs) as Hpf' by (intros; apply Hpf; by right).
  inversion Hp2 as [E|? m ? ? ? ? E1 E2]; subst.
  - destruct (tw_root _ _ _ _ Ht) as [(rn & ? & _) _]. exists rn. split; [done|]. split; [left|]. eauto.
  - exists m. split; [done|]. split; [right; apply Hpf'; left|]. eauto.
Qed.

Record cache_wf (c : SWARadixCache) (fs ss : list nat) : Prop := {
  cw_lists : lists_wf c fs ss;
  cw_tree : tree_wf (bares c) (root_node c) (sc_page_size c) fs;
  cw_swa : forall i, i ∈ ss <-> i ∈ fs /\ node_listable true (bares c) i;
  cw_fresh : forall i, i ∈ dom (sc_nodes c) -> (i < node_counter c)%nat;
  cw_dummies : forall i, i ∈ root_node c :: fs -> i ∉ dummies c;
  cw_sizes : 1 <= sc_page_size c /\ 0 < sliding_window_size c
}.

Lemma dummies_dom c fs ss i : lists_wf c fs ss -> i ∈ dummies c -> i ∈ dom (sc_nodes c).
Proof.
  intros [Hf Hs _] Hi. unfold dummies in Hi. rewrite !elem_of_cons in Hi. destruct Hi as [->|[->|[->|[->|Hi]]]].
  - apply (lru_ok_in_dom _ _ _ _ Hf). by left.
  - apply (lru_ok_in_dom _ _ _ _ Hf). set_solver.
  - apply (lru_ok_in_dom _ _ _ _ Hs). by left.
  - apply (lru_ok_in_dom _ _ _ _ Hs). set_solver.
  - by apply not_elem_of_nil in Hi.
Qed.

Lemma listable_bares swa c i : node_listable swa (sc_nodes c) i <-> node_listable swa (bares c) i.
Proof.
  unfold node_listable. split; intros (n & H & Hl).
  - exists (view n). split; [by apply bares_lookup|by destruct n].
  - apply bares_inv in H as (m & ? & <-). exists m. split; [done|by destruct m].
Qed.

Lemma full_listable (s : store) i : i ∈ dom s -> node_listable false s i.
Proof. intros [n H]%elem_of_dom. by exists n. Qed.

(** *** Lists of a cache: one lemma per operation *)

Lemma full_remove_wf c fs ss i : lists_wf c fs ss -> i ∈ fs -> i ∉ dummies c ->
  exists c', full_remove_node i c = Ok c' /\ lists_wf c' (filter (.≠ i) fs) ss /\ same_frame c c' /\ bares c' = bares c
    /\ node_counter c' = node_counter c.
Proof.
  intros Hw Hi Hd. pose proof (lru_ok_dom _ _ _ _ (lw_full _ _ _ Hw) Hi) as Hdom.
  apply (lists_wf_full c fs ss (OpRemove i)); [done|done| |].
  - split; [done|]. unfold dummies in Hd. set_solver.
  - simpl. rewrite decide_True; [done|]. split; [by apply full_listable|done].
Qed.

Lemma swa_remove_wf c fs ss i : lists_wf c fs ss -> i ∈ ss -> node_listable true (bares c) i -> i ∉ dummies c ->
  exists c', swa_remove_node i c = Ok c' /\ lists_wf c' fs (filter (.≠ i) ss) /\ same_frame c c' /\ bares c' = bares c
    /\ node_counter c' = node_counter c.
Proof.
  intros Hw Hi Hl Hd. pose proof (lru_ok_dom _ _ _ _ (lw_swa _ _ _ Hw) Hi) as Hdom.
  apply (lists_wf_swa c fs ss (OpRemove i)); [done|done| |].
  - split; [done|]. unfold dummies in Hd. set_solver.
  - simpl. rewrite decide_True; [done|]. split; [by apply listable_bares|done].
Qed.

Lemma full_insert_wf c fs ss i : lists_wf c fs ss -> i ∉ fs -> i ∈ dom (sc_nodes c) -> i ∉ dummies c ->
  exists c', full_insert_mru i c = Ok c' /\ lists_wf c' (i :: fs) ss /\ same_frame c c' /\ bares c' = bares c
    /\ node_counter c' = node_counter c.
Proof.
  intros Hw Hi Hdom Hd. apply (lists_wf_full c fs ss (OpInsert i)); [done|done| |].
  - split; [done|]. unfold dummies in Hd. set_solver.
  - simpl. rewrite decide_True; [done|]. split; [by apply full_listable|done].
Qed.

Lemma swa_insert_wf c fs ss i : lists_wf c fs ss -> i ∉ ss -> node_listable true (bares c) i -> i ∉ dummies c ->
  exists c', swa_insert_mru i c = Ok c' /\ lists_wf c' fs (i :: ss) /\ same_frame c c' /\ bares c' = bares c
    /\ node_counter c' = node_counter c.
Proof.
  intros Hw Hi Hl Hd. apply listable_bares in Hl. apply (lists_wf_swa c fs ss (OpInsert i)); [done|done| |].
  - destruct Hl as (n & Hn & _). split; [by eapply elem_of_dom_2|]. unfold dummies in Hd. set_solver.
  - simpl. by rewrite decide_True.
Qed.

(** ** Splitting a node *)

Lemma set_wf c fs ss f i b : lists_wf c fs ss -> plain f -> bares c !! i = Some b -> i ∉ dummies c ->
  exists c', sc_set f i c = Ok c' /\ lists_wf c' fs ss /\ same_frame c c'
    /\ bares c' = <[i := f b]> (bares c) /\ node_counter c' = node_counter c.
Proof.
  intros Hw Hp Hb Hd. apply bares_inv in Hb as (n & Hn & <-).
  destruct (lists_wf_set c fs ss f i n Hw Hp Hn Hd) as (c' & ? & ? & ? & ? & ? & _). eauto 10.
Qed.

Lemma same_frame_dummies c c' : same_frame c c' -> dummies c' = dummies c.
Proof. by intros (_ & ? & _). Qed.

Lemma bares_dom c c' : bares c' = bares c -> dom (sc_nodes c') = dom (sc_nodes c).
Proof. intros E. apply (f_equal dom) in E. by rewrite !dom_fmap_L in E. Qed.

Lemma bares_in_dom c i b : bares c !! i = Some b -> i ∈ dom (sc_nodes c).
Proof. intros H. apply bares_inv in H as (n & H & _). by eapply elem_of_dom_2. Qed.

(** The two halves of a split node. *)
Definition upper_half (ch : SwaNode) (child : nat) (kc : pyval) (v : list Z) (m : Z) : SwaNode :=
  set_swa_uuid (swa_uuid ch) (set_sn_kv (key_slice (sn_key ch) None (Some m)) (Some (py_upto v m))
    (set_locks (full_lock_ref ch) (swa_lock_ref ch) (set_swa_tombstone (swa_tombstone ch)
      (set_sn_parent (sn_parent ch) (set_sn_children {[ kc := child ]} (new_tree_node 0)))))).
Definition lower_half (ch : SwaNode) (new_node : nat) (v : list Z) (m : Z) : SwaNode :=
  set_sn_kv (key_slice (sn_key ch) (Some m) None) (Some (py_from v m))
    (set_sn_parent (Some new_node) (set_swa_uuid None ch)).

(** The bare store after a split. *)
Definition split_bares (B : store) (child q nw : nat) (ch pn : SwaNode) (k kc : pyval) (v : list Z) (m : Z) : store :=
  <[q := set_sn_children (<[k := nw]> (sn_children pn)) pn]>
    (<[child := lower_half ch nw v m]> (<[nw := upper_half ch child kc v m]> B)).

Lemma filter_ne_notin (i : nat) (l : list nat) : i ∉ filter (.≠ i) l.
Proof. rewrite list_elem_of_filter. tauto. Qed.

Section Split.
Context (c : SWARadixCache) (fs ss : list nat) (child q : nat) (ch pn : SwaNode) (v : list Z) (m : Z) (k kc : pyval).
Context (Hw : lists_wf c fs ss) (Hin : child ∈ fs) (Hss : swa_tombstone ch = false -> child ∈ ss).
Context (Hch : bares c !! child = Some ch) (Hpn : bares c !! q = Some pn) (Hne : q <> child).
Context (Hv : sn_value ch = Some v) (Hq : sn_parent ch = Some q).
Context (Hkc : child_key (key_slice (sn_key ch) (Some m) None) (sc_page_size c) = Ok kc).
Context (Hk : child_key (sn_key ch) (sc_page_size c) = Ok k).
Context (Hm : 0 < m < key_len (sn_key ch)).
Context (Hfresh : forall i, i ∈ dom (sc_nodes c) -> (i < node_counter c)%nat) (Hd1 : child ∉ dummies c) (Hd2 : q ∉ dummies c).

Local Abbreviation nw := (node_counter c).

Lemma nw_fresh i b : bares c !! i = Some b -> i <> nw.
Proof. intros Hi ->. apply bares_in_dom, Hfresh in Hi. lia. Qed.

(** The new node, as [_split_node] fills it in. *)
Definition new_upper (n0 : SwaNode) (n : SwaNode) : SwaNode :=
  set_swa_uuid (swa_uuid n0) (set_sn_kv (key_slice (sn_key n0) None (Some m)) (Some (py_upto v m))
    (set_locks (full_lock_ref n0) (swa_lock_ref n0) (set_swa_tombstone (swa_tombstone n0)
      (set_sn_parent (sn_parent n0) (set_sn_children {[ kc := child ]} n))))).

(** The steps before the new node enters the lists. *)
Lemma split_detach : exists n0 c1 c2 c3 c4 c5,
  sc_node c (Some child) = Ok (child, n0) /\ view n0 = ch
  /\ sc_set (set_swa_uuid None) child (sc_new_node (new_upper n0) c).2 = Ok c1
  /\ sc_set (set_sn_access (access_counter c1)) child (get_last_access_time c1).2 = Ok c2
  /\ full_remove_node child c2 = Ok c3
  /\ (if negb (swa_tombstone ch) then swa_remove_node child c3 else Ok c3) = Ok c4
  /\ sc_set (set_sn_parent (Some nw)) child c4 = Ok c5
  /\ exists c6, sc_set (set_sn_kv (key_slice (sn_key ch) (Some m) None) (Some (py_from v m))) child c5 = Ok c6
  /\ lists_wf c6 (filter (.≠ child) fs) (if swa_tombstone ch then ss else filter (.≠ child) ss) /\ same_frame c c6
  /\ bares c6 = <[child := lower_half ch nw v m]> (<[nw := upper_half ch child kc v m]> (bares c))
  /\ node_counter c6 = S nw.
Proof.
  destruct (bares_inv c child ch Hch) as (n0 & Hn0 & Eb).
  assert (nw ∉ dom (sc_nodes c)) as Hnd by (intros ?%Hfresh; lia).
  set (nn := new_upper n0 (new_tree_node (access_counter c))). set (d := (sc_new_node (new_upper n0) c).2).
  assert (lists_wf d fs ss) as Wd by (destruct (lists_wf_new c fs ss nw nn Hw Hnd); by split).
  assert (bares d = <[nw := upper_half ch child kc v m]> (bares c)) as Bd.
  { unfold d. simpl. rewrite fmap_insert. f_equal. rewrite <- Eb. done. }
  assert (same_frame c d) as Fd by done.
  assert (forall x, x ∉ dummies c -> forall e, same_frame c e -> x ∉ dummies e) as Hdm by (intros x Hx e He; by rewrite (same_frame_dummies _ _ He)).
  assert (nw <> child) as Hnc by (symmetry; by eapply nw_fresh).
  destruct (set_wf d fs ss (set_swa_uuid None) child ch Wd) as (c1 & E1 & W1 & F1 & B1 & N1); [auto with plain|rewrite Bd, lookup_insert_ne by done; done|by apply Hdm|].
  assert (same_frame c c1) as F1' by by etrans.
  set (d1 := (get_last_access_time c1).2). assert (lists_wf d1 fs ss) as Wd1 by (destruct W1; by split).
  destruct (bares_inv c1 child (set_swa_uuid None ch)) as (n1 & Hn1 & _); [rewrite B1; apply lookup_insert_eq|].
  destruct (access_wf d1 fs ss (access_counter c1) child n1 Wd1 Hn1) as (c2 & E2 & W2 & F2 & B2 & N2 & _).
  assert (same_frame c c2) as F2' by (etrans; [exact F1'|exact F2]). change (bares d1) with (bares c1) in B2.
  destruct (full_remove_wf c2 fs ss child W2 Hin) as (c3 & E3 & W3 & F3 & B3 & N3); [by apply Hdm|].
  assert (same_frame c c3) as F3' by by etrans.
  assert (exists c4, (if negb (swa_tombstone ch) then swa_remove_node child c3 else Ok c3) = Ok c4
    /\ lists_wf c4 (filter (.≠ child) fs) (if swa_tombstone ch then ss else filter (.≠ child) ss) /\ same_frame c c4 /\ bares c4 = bares c3
    /\ node_counter c4 = node_counter c3) as (c4 & E4 & W4 & F4 & B4 & N4).
  { destruct (swa_tombstone ch) eqn:Et; [exists c3; done|].
    destruct (swa_remove_wf c3 _ ss child W3 (Hss eq_refl)) as (c4 & ? & ? & ? & ? & ?); [|by apply Hdm|exists c4; split_and!; try done; by etrans].
    rewrite B3, B2, B1. exists (set_swa_uuid None ch). rewrite lookup_insert_eq. split; [done|]. simpl. by rewrite Et. }
  destruct (set_wf c4 _ _ (set_sn_parent (Some nw)) child (set_swa_uuid None ch) W4) as (c5 & E5 & W5 & F5 & B5 & N5);
    [auto with plain|rewrite B4, B3, B2, B1; apply lookup_insert_eq|by apply Hdm|].
  assert (same_frame c c5) as F5' by by etrans.
  destruct (set_wf c5 _ _ (set_sn_kv (key_slice (sn_key ch) (Some m) None) (Some (py_from v m))) child
    (set_sn_parent (Some nw) (set_swa_uuid None ch)) W5) as (c6 & E6 & W6 & F6 & B6 & N6);
    [auto with plain|rewrite B5; apply lookup_insert_eq|by apply Hdm|].
  exists n0, c1, c2, c3, c4, c5. split_and!; [by unfold sc_node; rewrite (deref_lookup _ _ _ Hn0)|done|done|done|done|done|done|].
  exists c6. split_and!; [done|done|by etrans| |].
  - by rewrite B6, B5, B4, B3, B2, B1, Bd, !insert_insert_eq.
  - rewrite N6, N5, N4, N3, N2. change (node_counter d1) with (node_counter c1). rewrite N1. done.
Qed.

Lemma split_node_wf : exists c', swa_split_node (sn_key ch) child m c = Ok (nw, c')
  /\ lists_wf c' (child :: nw :: filter (.≠ child) fs) (if swa_tombstone ch then ss else child :: nw :: filter (.≠ child) ss)
  /\ same_frame c c' /\ bares c' = split_bares (bares c) child q nw ch pn k kc v m /\ node_counter c' = S nw.
Proof.
  destruct split_detach as (n0 & c1 & c2 & c3 & c4 & c5 & E0 & Eb & E1 & E2 & E3 & E4 & E5 & c6 & E6 & W6 & F6 & B6 & N6).
  assert (sn_key n0 = sn_key ch /\ sn_value n0 = sn_value ch /\ swa_tombstone n0 = swa_tombstone ch /\ sn_parent n0 = sn_parent ch)
    as (K1 & K2 & K3 & K4) by by rewrite <- Eb.
  assert (forall x, x ∉ dummies c -> forall e, same_frame c e -> x ∉ dummies e) as Hdm by (intros x Hx e He; by rewrite (same_frame_dummies _ _ He)).
  assert (nw <> child /\ q <> nw) as [Hnc Hqn] by (split; [symmetry|]; by eapply nw_fresh).
  assert (nw ∉ dummies c) as Hd3 by (intros Hx%(dummies_dom c fs ss); [apply Hfresh in Hx; lia|done]).
  assert (nw ∉ fs) as Hnf by (intros Hx; apply (lru_ok_dom _ _ _ _ (lw_full _ _ _ Hw)), Hfresh in Hx; lia).
  assert (nw ∉ ss) as Hns by (intros Hx; apply (lru_ok_dom _ _ _ _ (lw_swa _ _ _ Hw)), Hfresh in Hx; lia).
  destruct (set_wf c6 _ _ (set_sn_children (<[k := nw]> (sn_children pn))) q pn W6) as (c7 & E7 & W7 & F7 & B7 & N7);
    [auto with plain|rewrite B6, !lookup_insert_ne by done; done|by apply Hdm|].
  assert (bares c7 = split_bares (bares c) child q nw ch pn k kc v m) as B7' by (rewrite B7, B6; done).
  assert (same_frame c c7) as F7' by by etrans.
  assert (forall e, bares e = bares c7 -> exists a, bares e !! nw = Some a /\ swa_tombstone a = swa_tombstone ch) as Lnw.
  { intros e ->. rewrite B7'. unfold split_bares. exists (upper_half ch child kc v m). by rewrite !lookup_insert_ne, lookup_insert_eq by done. }
  assert (forall e, bares e = bares c7 -> exists a, bares e !! child = Some a /\ swa_tombstone a = swa_tombstone ch) as Lch.
  { intros e ->. rewrite B7'. unfold split_bares. exists (lower_half ch nw v m). by rewrite lookup_insert_ne, lookup_insert_eq by done. }
  destruct (full_insert_wf c7 _ _ nw W7) as (c8 & E8 & W8 & F8 & B8 & N8);
    [intros [_ ?]%list_elem_of_filter; done|destruct (Lnw c7 eq_refl) as (? & ? & _); by eapply bares_in_dom|by apply Hdm|].
  assert (same_frame c c8) as F8' by by etrans.
  destruct (full_insert_wf c8 _ _ child W8) as (c9 & E9 & W9 & F9 & B9 & N9);
    [apply not_elem_of_cons; split; [done|apply filter_ne_notin]|destruct (Lch c8 B8) as (? & ? & _); by eapply bares_in_dom|by apply Hdm|].
  assert (same_frame c c9) as F9' by by etrans. assert (bares c9 = bares c7) as B9' by congruence.
  assert (exists c', (if negb (swa_tombstone ch) then let* c := swa_insert_mru nw c9 in swa_insert_mru child c else Ok c9) = Ok c'
    /\ lists_wf c' (child :: nw :: filter (.≠ child) fs) (if swa_tombstone ch then ss else child :: nw :: filter (.≠ child) ss)
    /\ same_frame c c' /\ bares c' = bares c7 /\ node_counter c' = node_counter c9) as (c' & E' & W' & F' & B' & N').
  { destruct (swa_tombstone ch) eqn:Et; [exists c9; split_and!; done|]. simpl in W9.
    destruct (swa_insert_wf c9 _ _ nw W9) as (c10 & -> & W10 & F10 & B10 & N10);
      [intros [_ ?]%list_elem_of_filter; done|destruct (Lnw c9 B9') as (a & Ha & Hta); exists a; by rewrite Ha, Hta|by apply Hdm|].
    assert (same_frame c c10) as F10' by by etrans. assert (bares c10 = bares c7) as B10' by congruence.
    destruct (swa_insert_wf c10 _ _ child W10) as (c11 & E11 & W11 & F11 & B11 & N11);
      [apply not_elem_of_cons; split; [done|apply filter_ne_notin]|destruct (Lch c10 B10') as (a & Ha & Hta); exists a; by rewrite Ha, Hta|by apply Hdm|].
    exists c11. split_and!; [done|done|by etrans|congruence|congruence]. }
  assert (sc_page_size c6 = sc_page_size c) as Eps by (destruct F6; tauto).
  unfold swa_split_node. rewrite E0. cbn [res_bind]. rewrite Hkc. cbn [res_bind]. rewrite K1.
  rewrite key_len_upto, (proj2 (Z.ltb_lt 0 m)) by lia. cbn [py_assert res_bind]. unfold sn_tensor. rewrite K2, Hv. cbn [res_bind].
  replace (sc_new_node _ c) with (nw, (sc_new_node (new_upper n0) c).2) by (unfold new_upper; rewrite K1; done).
  rewrite E1. cbn [res_bind]. unfold get_last_access_time. unfold get_last_access_time in E2. cbn [snd] in E2. rewrite E2. cbn [res_bind].
  rewrite E3. cbn [res_bind]. rewrite K3, E4. cbn [res_bind]. rewrite E5. cbn [res_bind].
  rewrite key_len_from, (proj2 (Z.ltb_lt 0 _)) by lia. cbn [py_assert res_bind]. rewrite E6. cbn [res_bind].
  rewrite Eps, Hk. cbn [res_bind]. unfold set_child. rewrite K4, Hq. unfold sc_node.
  destruct (bares_inv c6 q pn) as (p6 & Hp6 & Ep6); [rewrite B6, !lookup_insert_ne by done; done|].
  rewrite (deref_lookup _ _ _ Hp6). cbn [res_bind].
  replace (sn_children p6) with (sn_children pn) by by rewrite <- Ep6. rewrite E7. cbn [res_bind]. rewrite E8. cbn [res_bind].
  rewrite E9. cbn [res_bind]. rewrite E'. cbn [res_bind]. exists c'. split_and!; [done|done|done|congruence|congruence].
Qed.
End Split.
