(* ===== verification/SwaMatch.v ===== *)
(** [match_prefix] on the sliding-window radix cache.

    A prefix whose sliding-window slots were given back can still be used when the request's
    whole window lies after them.  The theorems show that [match_prefix] returns the slots of a
    prefix of the key, that the window behind the node it returns is intact, and that therefore
    [inc_lock_ref] on that node succeeds. *)

From S2P Require Export SwaWf.

(** * Splitting a node *)

Section SplitTree.
Context (B : store) (root : nat) (ps : Z) (fs : list nat) (Hps : 1 <= ps) (Ht : tree_wf B root ps fs).
Context (child q nw : nat) (ch pn : SwaNode) (v : list Z) (m : Z) (k kc : pyval).
Context (Hin : child ∈ fs) (Hch : B !! child = Some ch) (Hpn : B !! q = Some pn).
Context (Hv : sn_value ch = Some v) (Hq : sn_parent ch = Some q) (Hnw : B !! nw = None).
Context (Hkc : child_key (key_slice (sn_key ch) (Some m) None) ps = Ok kc).
Context (Hk : child_key (sn_key ch) ps = Ok k).
Context (Hm : 0 < m < key_len (sn_key ch)) (Hal : (ps | m)).

Local Abbreviation B' := (split_bares B child q nw ch pn k kc v m).
Local Abbreviation fs' := (child :: nw :: filter (.≠ child) fs).

Lemma split_child_path : exists p, path_to B root (Some q) p /\ (child ∉ p) /\ q <> child /\ (forall j, j ∈ p -> j ∈ fs).
Proof.
  destruct (tw_path _ _ _ _ Ht child Hin) as (p & Hp & Hpf). pose proof (path_to_nodup _ _ _ _ Hp) as Hnd.
  inversion Hp as [E|? n ? Hr Hn Hp' E1 E2]; subst; [by destruct (tw_root _ _ _ _ Ht)|]. rewrite Hch in Hn. injection Hn as <-.
  rewrite Hq in Hp'. apply NoDup_cons in Hnd as [Hc _]. exists p0. split_and!; [done|done| |intros; apply Hpf; by right].
  intros ->. inversion Hp'; subst; [done|]. apply Hc. by left.
Qed.

Lemma split_ne : q <> child /\ q <> nw /\ nw <> child.
Proof.
  destruct split_child_path as (p & _ & _ & ? & _). split_and!; [done| |]; intros ->; congruence.
Qed.

Lemma split_at_child : B' !! child = Some (lower_half ch nw v m).
Proof. destruct split_ne as (? & ? & ?). unfold split_bares. by rewrite lookup_insert_ne, lookup_insert_eq. Qed.
Lemma split_at_new : B' !! nw = Some (upper_half ch child kc v m).
Proof. destruct split_ne as (? & ? & ?). unfold split_bares. by rewrite !lookup_insert_ne, lookup_insert_eq by done. Qed.
Lemma split_at_q : B' !! q = Some (set_sn_children (<[k := nw]> (sn_children pn)) pn).
Proof. unfold split_bares. by rewrite lookup_insert_eq. Qed.
Lemma split_at_other i : i <> child -> i <> nw -> i <> q -> B' !! i = B !! i.
Proof. intros. unfold split_bares. by rewrite !lookup_insert_ne. Qed.

(** Any old node but the split one keeps everything but its children. *)
Lemma split_old i n : B !! i = Some n -> i <> child -> exists n', B' !! i = Some n' /\ set_sn_children ∅ n' = set_sn_children ∅ n.
Proof.
  intros Hi Hne. assert (i <> nw) by congruence. destruct (decide (i = q)) as [->|Hq'].
  - rewrite Hpn in Hi. injection Hi as <-. rewrite split_at_q. eauto.
  - rewrite split_at_other by done. eauto.
Qed.

Lemma split_path x p : path_to B root x p -> (forall j, j ∈ p -> j ∈ fs) ->
  exists p', path_to B' root x p' /\ forall j, j ∈ p' -> j ∈ fs'.
Proof.
  destruct split_ne as (N1 & N2 & N3). destruct (tw_root _ _ _ _ Ht) as [(rn & Hrn & Hrp) Hrf].
  assert (nw <> root) as Hnr by congruence.
  induction 1 as [|i n p Hi Hn Hp IH]; intros Hpf; [exists []; split; [constructor|by intros ? ?%not_elem_of_nil]|].
  destruct IH as (p' & Hp' & Hpf'); [intros j Hj; apply Hpf; by right|]. destruct (decide (i = child)) as [->|Hic].
  - rewrite Hch in Hn. injection Hn as <-. rewrite Hq in Hp'. exists (child :: nw :: p'). split; [|intros j [->|[->|Hj]%elem_of_cons]%elem_of_cons; [by left|by right; left|by apply Hpf']].
    econstructor; [done|apply split_at_child|]. simpl. econstructor; [done|apply split_at_new|]. simpl. by rewrite Hq.
  - destruct (split_old i n Hn Hic) as (n' & Hn' & En). exists (i :: p'). split.
    + econstructor; [done|done|]. apply (f_equal sn_parent) in En. simpl in En. by rewrite En.
    + intros j [->|Hj]%elem_of_cons; [|by apply Hpf']. do 2 right. apply list_elem_of_filter. split; [done|]. apply Hpf. by left.
Qed.

Lemma split_upper_key : child_key (key_slice (sn_key ch) None (Some m)) ps = Ok k.
Proof.
  assert (ps <= m) by (apply Z.divide_pos_le; [lia|done]). rewrite <- Hk. apply child_key_inj; [rewrite key_len_upto by lia; lia|lia|].
  rewrite units_upto by lia. rewrite take_take. f_equal. lia.
Qed.

(** Every node is a child of its parent. *)
Lemma split_in i n q' m' : i ∈ fs' -> B' !! i = Some n -> sn_parent n = Some q' -> B' !! q' = Some m' ->
  exists k', child_key (sn_key n) ps = Ok k' /\ sn_children m' !! k' = Some i.
Proof.
  destruct split_ne as (N1 & N2 & N3). intros Hi Hn Hp Hm'. rewrite !elem_of_cons in Hi. destruct Hi as [->|[->|[Hic Hi]%list_elem_of_filter]].
  - rewrite split_at_child in Hn. injection Hn as <-. injection Hp as <-. rewrite split_at_new in Hm'. injection Hm' as <-.
    exists kc. split; [done|]. simpl. apply lookup_singleton_eq.
  - rewrite split_at_new in Hn. injection Hn as <-. simpl in Hp. rewrite Hq in Hp. injection Hp as <-. rewrite split_at_q in Hm'. injection Hm' as <-.
    exists k. split; [apply split_upper_key|]. simpl. apply lookup_insert_eq.
  - destruct (tw_node _ _ _ _ Ht i Hi) as (n0 & _ & Hn0 & _). destruct (split_old i n0 Hn0 Hic) as (n1 & Hn1 & En). rewrite Hn in Hn1. injection Hn1 as <-.
    pose proof (f_equal sn_parent En) as X1. pose proof (f_equal sn_key En) as X2. simpl in X1, X2. rewrite X1 in Hp. rewrite X2.
    destruct (tree_parent B root ps fs i n0 q' Ht Hi Hn0 Hp) as (m0 & Hm0 & _).
    destruct (tw_in _ _ _ _ Ht i n0 q' m0 Hi Hn0 Hp Hm0) as (k0 & Hk0 & Hc0). exists k0. split; [done|].
    destruct (decide (q' = child)) as [->|Hqc]; [rewrite split_at_child in Hm'; rewrite Hch in Hm0; by simplify_eq|].
    destruct (decide (q' = q)) as [->|Hqq]; [|rewrite split_at_other in Hm' by (done || congruence); congruence].
    rewrite split_at_q in Hm'. injection Hm' as <-. rewrite Hpn in Hm0. injection Hm0 as <-. simpl. rewrite lookup_insert_ne; [done|]. intros <-.
    destruct (tw_in _ _ _ _ Ht child ch q pn Hin Hch Hq Hpn) as (k1 & Hk1 & Hc1). rewrite Hk in Hk1. injection Hk1 as <-. congruence.
Qed.

Lemma split_tree_wf : tree_wf B' root ps fs'.
Proof.
  destruct split_ne as (N1 & N2 & N3). destruct (tw_root _ _ _ _ Ht) as [(rn & Hrn & Hrp) Hrf].
  assert (nw <> root) as Hnr by congruence. assert (child <> root) as Hcr by (intros ->; done).
  destruct (tw_node _ _ _ _ Ht child Hin) as (n0 & v0 & Hn0 & Hv0 & Hlen & Hala & Hpos & Hlk). rewrite Hch in Hn0. injection Hn0 as <-.
  rewrite Hv in Hv0. injection Hv0 as <-.
  assert (forall j, j ∈ fs -> j <> nw) as Hfn.
  { intros j Hj ->. destruct (tw_node _ _ _ _ Ht nw Hj) as (? & ? & ? & _). congruence. }
  split.
  - split; [|intros [E|[E|[_ E]%list_elem_of_filter]%elem_of_cons]%elem_of_cons; done]. destruct (split_old root rn Hrn ltac:(done)) as (n' & Hn' & En). exists n'. split; [done|].
    apply (f_equal sn_parent) in En. simpl in En. by rewrite En.
  - intros i [->|[->|Hi]%elem_of_cons]%elem_of_cons.
    + exists (lower_half ch nw v m), (py_from v m). split_and!; simpl; try done; try lia.
      * apply split_at_child.
      * rewrite zlen_py_from, key_len_from by lia. lia.
      * unfold aligned. rewrite key_len_from by lia. by apply Z.divide_sub_r.
      * rewrite key_len_from by lia. lia.
    + exists (upper_half ch child kc v m), (py_upto v m). split_and!; simpl; try done; try lia.
      * apply split_at_new.
      * rewrite zlen_py_upto, key_len_upto by lia. lia.
      * unfold aligned. by rewrite key_len_upto by lia.
      * rewrite key_len_upto by lia. lia.
    + apply list_elem_of_filter in Hi as [Hic Hi]. destruct (tw_node _ _ _ _ Ht i Hi) as (n & w & Hn & H).
      destruct (split_old i n Hn Hic) as (n' & Hn' & En). exists n', w. split; [done|].
      pose proof (f_equal sn_value En) as X1. pose proof (f_equal sn_key En) as X2. pose proof (f_equal swa_lock_ref En) as X3.
      pose proof (f_equal full_lock_ref En) as X4. simpl in X1, X2, X3, X4. by rewrite X1, X2, X3, X4.
  - assert (forall i, i ∈ fs -> exists p, path_to B' root (Some i) p /\ forall j, j ∈ p -> j ∈ fs') as Hold.
    { intros i Hi. destruct (tw_path _ _ _ _ Ht i Hi) as (p & Hp & Hpf). by eapply split_path. }
    intros i [->|[->|[_ Hi]%list_elem_of_filter]%elem_of_cons]%elem_of_cons; [by apply Hold| |by apply Hold].
    destruct split_child_path as (p & Hp & _ & _ & Hpf). destruct (split_path _ _ Hp Hpf) as (p' & Hp' & Hpf').
    exists (nw :: p'). split; [|intros j [->|Hj]%elem_of_cons; [by right; left|by apply Hpf']]. econstructor; [done|apply split_at_new|]. simpl. by rewrite Hq.
  - assert (forall i n j, B !! i = Some n -> forall k', j ∈ fs -> j <> child -> (exists mm, B !! j = Some mm /\ sn_parent mm = Some i /\ child_key (sn_key mm) ps = Ok k') ->
      j ∈ fs' /\ exists mm, B' !! j = Some mm /\ sn_parent mm = Some i /\ child_key (sn_key mm) ps = Ok k') as Hkeep.
    { intros i n j _ k' Hj Hjc (mm & Hmm & Hpm & Hkm). split; [do 2 right; by apply list_elem_of_filter|].
      destruct (split_old j mm Hmm Hjc) as (n' & Hn' & En). exists n'. split; [done|].
      pose proof (f_equal sn_parent En) as X1. pose proof (f_equal sn_key En) as X2. simpl in X1, X2. by rewrite X1, X2. }
    intros i n k' j Hi Hn Hc. destruct (decide (i = nw)) as [->|Hinw].
    { rewrite split_at_new in Hn. injection Hn as <-. simpl in Hc. apply lookup_singleton_Some in Hc as [<- <-].
      split; [left|]. exists (lower_half ch nw v m). split; [apply split_at_child|]. done. }
    assert (i ∈ root :: fs) as Hi' by (rewrite !elem_of_cons, list_elem_of_filter in Hi; rewrite elem_of_cons; destruct Hi as [->|[->|[->|[_ ?]]]]; tauto).
    destruct (decide (i = child)) as [->|Hic].
    { rewrite split_at_child in Hn. injection Hn as <-. simpl in Hc.
      destruct (tw_child _ _ _ _ Ht child ch k' j Hi' Hch Hc) as [Hj Hm']. apply (Hkeep child ch j Hch k'); [done| |done].
      intros ->. destruct Hm' as (mm & Hmm & Hpm & _). congruence. }
    destruct (decide (i = q)) as [->|Hiq].
    { rewrite split_at_q in Hn. injection Hn as <-. simpl in Hc. apply lookup_insert_Some in Hc as [[<- <-]|[Hkk Hc]].
      - split; [right; left|]. exists (upper_half ch child kc v m). split; [apply split_at_new|]. split; [done|]. apply split_upper_key.
      - destruct (tw_child _ _ _ _ Ht q pn k' j Hi' Hpn Hc) as [Hj Hm']. apply (Hkeep q pn j Hpn k'); [done| |done].
        intros ->. destruct Hm' as (mm & Hmm & _ & Hkm). congruence. }
    rewrite split_at_other in Hn by done. destruct (tw_child _ _ _ _ Ht i n k' j Hi' Hn Hc) as [Hj Hm'].
    apply (Hkeep i n j Hn k'); [done| |done]. intros ->. destruct Hm' as (mm & Hmm & Hpm & _). congruence.
  - exact split_in.
Qed.
End SplitTree.

(** ** A split on a cache *)

Section SplitCache.
Context (c : SWARadixCache) (fs ss : list nat) (Hc : cache_wf c fs ss).
Context (child : nat) (ch : SwaNode) (v : list Z) (m : Z).
Context (Hin : child ∈ fs) (Hch : bares c !! child = Some ch) (Hv : sn_value ch = Some v).
Context (Hm : 0 < m < key_len (sn_key ch)) (Hal : (sc_page_size c | m)).

Lemma parent_in_tree : exists q pn, sn_parent ch = Some q /\ bares c !! q = Some pn /\ q ∈ root_node c :: fs /\ q <> child.
Proof.
  pose proof (cw_tree _ _ _ Hc) as Ht. destruct (tw_path _ _ _ _ Ht child Hin) as (p & Hp & Hpf).
  pose proof (path_to_nodup _ _ _ _ Hp) as Hnd. destruct (tw_root _ _ _ _ Ht) as [(rn & Hrn & Hrp) Hrf].
  inversion Hp as [E|? n p0 Hr Hn Hp' E1 E2]; subst; [done|]. rewrite Hch in Hn. injection Hn as <-.
  apply NoDup_cons in Hnd as [Hnc _]. inversion Hp' as [E|q n p1 Hq Hn Hp1 E]; subst.
  - exists (root_node c), rn. split_and!; [done|done|left|done].
  - exists q, n. split_and!; [done|done|right; apply Hpf; right; left|]. intros ->. apply Hnc. by left.
Qed.

(** The sliding-window list holds exactly the nodes that still have their slots. *)
Lemma split_listable q pn k kc : bares c !! q = Some pn -> q <> child -> bares c !! node_counter c = None ->
  (swa_tombstone ch = false <-> child ∈ ss) ->
  forall i, i ∈ (if swa_tombstone ch then ss else child :: node_counter c :: filter (.≠ child) ss)
    <-> i ∈ child :: node_counter c :: filter (.≠ child) fs
        /\ node_listable true (split_bares (bares c) child q (node_counter c) ch pn k kc v m) i.
Proof.
  intros Hpn Hqc Hnw Hss. set (nw := node_counter c) in *. set (B' := split_bares _ _ _ _ _ _ _ _ _ _).
  pose proof (cw_swa _ _ _ Hc) as Hs. assert (q <> nw /\ nw <> child) as [Hqn Hnc] by (split; intros ->; congruence).
  assert (node_listable true B' child <-> swa_tombstone ch = false) as Lc.
  { unfold node_listable, B', split_bares. rewrite lookup_insert_ne, lookup_insert_eq by done. simpl. split.
    - intros (? & [= <-] & E). simpl in E. by destruct (swa_tombstone ch).
    - intros E. eexists. split; [done|]. simpl. by rewrite E. }
  assert (node_listable true B' nw <-> swa_tombstone ch = false) as Ln.
  { unfold node_listable, B', split_bares. rewrite !lookup_insert_ne, lookup_insert_eq by done. simpl. split.
    - intros (? & [= <-] & E). simpl in E. by destruct (swa_tombstone ch).
    - intros E. eexists. split; [done|]. simpl. by rewrite E. }
  assert (forall i, i <> child -> i <> nw -> node_listable true B' i <-> node_listable true (bares c) i) as Lo.
  { intros i H1 H2. unfold node_listable, B', split_bares. destruct (decide (i = q)) as [->|H3].
    - rewrite lookup_insert_eq, Hpn. split; intros (? & [= <-] & E); eexists; (split; [done|]); done.
    - by rewrite !lookup_insert_ne by done. }
  assert (nw ∉ ss) as Hns.
  { intros Hx%Hs. destruct Hx as [_ (? & Hx & _)]. congruence. }
  intros i. rewrite !elem_of_cons, list_elem_of_filter.
  assert (i ∈ (if swa_tombstone ch then ss else child :: nw :: filter (.≠ child) ss)
    <-> (swa_tombstone ch = false /\ (i = child \/ i = nw)) \/ (i ∈ ss /\ i <> child)) as ->.
  { destruct (swa_tombstone ch) eqn:Et.
    - split; [|naive_solver]. intros Hi. right. split; [done|]. intros ->. by apply Hss in Hi.
    - rewrite !elem_of_cons, list_elem_of_filter. tauto. }
  destruct (decide (i = child)) as [->|H1]; [rewrite Lc; tauto|].
  destruct (decide (i = nw)) as [->|H2]; [rewrite Ln; tauto|]. rewrite (Lo i H1 H2), Hs. tauto.
Qed.

Lemma split_cache_wf : exists q pn k kc c', let nw := node_counter c in
  sn_parent ch = Some q /\ q ∈ root_node c :: fs /\ bares c !! q = Some pn /\ bares c !! nw = None
  /\ child_key (key_slice (sn_key ch) (Some m) None) (sc_page_size c) = Ok kc /\ child_key (sn_key ch) (sc_page_size c) = Ok k
  /\ swa_split_node (sn_key ch) child m c = Ok (nw, c')
  /\ cache_wf c' (child :: nw :: filter (.≠ child) fs) (if swa_tombstone ch then ss else child :: nw :: filter (.≠ child) ss)
  /\ same_frame c c' /\ bares c' = split_bares (bares c) child q nw ch pn k kc v m.
Proof.
  pose proof Hc as [Hl Ht Hs Hf Hd [Hps HW]]. destruct parent_in_tree as (q & pn & Hq & Hpn & Hqin & Hqc).
  destruct (tw_node _ _ _ _ Ht child Hin) as (n0 & v0 & Hn0 & Hv0 & Hlen & Hala & Hpos & Hlk). rewrite Hch in Hn0. injection Hn0 as <-.
  assert (sc_page_size c <= m) as Hle by (apply Z.divide_pos_le; [lia|done]).
  assert (sc_page_size c <= key_len (sn_key ch) - m) as Hle2.
  { apply Z.divide_pos_le; [lia|]. apply Z.divide_sub_r; [exact Hala|done]. }
  assert (exists k, child_key (sn_key ch) (sc_page_size c) = Ok k) as [k Hk] by (rewrite child_key_encode by lia; eauto).
  assert (exists kc, child_key (key_slice (sn_key ch) (Some m) None) (sc_page_size c) = Ok kc) as [kc Hkc]
    by (rewrite child_key_encode by (rewrite key_len_from by lia; lia); eauto).
  assert (bares c !! node_counter c = None) as Hnw.
  { destruct (bares c !! node_counter c) eqn:E; [|done]. apply bares_in_dom, Hf in E. lia. }
  assert (forall i, i ∈ fs -> i <> node_counter c) as Hfn.
  { intros i Hi ->. destruct (tw_node _ _ _ _ Ht _ Hi) as (? & ? & ? & _). congruence. }
  assert (swa_tombstone ch = false <-> child ∈ ss) as Hss.
  { rewrite Hs. split; [intros E; split; [done|]; exists ch; split; [done|by rewrite E]|].
    intros [_ (n & Hn & E)]. rewrite Hch in Hn. injection Hn as <-. by destruct (swa_tombstone ch). }
  destruct (split_node_wf c fs ss child q ch pn v m k kc Hl Hin (proj1 Hss) Hch Hpn Hqc Hv Hq Hkc Hk Hm Hf) as (c' & E & Hl' & Hfr & Hb' & Hn');
    [apply Hd; by right|by apply Hd|].
  exists q, pn, k, kc, c'. split_and!; try done. pose proof Hfr as (Er & Ed & _ & _ & _ & _ & _ & _ & Eps & EW & _).
  pose proof (split_tree_wf (bares c) (root_node c) (sc_page_size c) fs Hps Ht child q (node_counter c) ch pn v m k kc
    Hin Hch Hpn Hv Hq Hnw Hkc Hk Hm Hal) as Ht'.
  split; [done|by rewrite Hb', Er, Eps| | | |by rewrite Eps, EW].
  - intros i. rewrite Hb'. apply (split_listable q pn k kc Hpn Hqc Hnw Hss).
  - intros i Hi. rewrite Hn'. assert (i ∈ dom (bares c')) as Hi' by by rewrite dom_fmap_L.
    rewrite Hb' in Hi'. unfold split_bares in Hi'. rewrite !dom_insert_L, !elem_of_union, !elem_of_singleton, dom_fmap_L in Hi'.
    destruct Hi' as [->|[->|[->|Hi']]]; [|..|apply Hf in Hi'; lia].
    + apply bares_in_dom, Hf in Hpn. lia.
    + apply bares_in_dom, Hf in Hch. lia.
    + lia.
  - intros i Hi. rewrite Er in Hi. rewrite Ed. rewrite !elem_of_cons, list_elem_of_filter in Hi.
    destruct Hi as [->|[->|[->|[_ Hi]]]]; [apply Hd; by left|apply Hd; by right| |apply Hd; by right].
    intros Hx%(dummies_dom c fs ss); [apply Hf in Hx; lia|done].
Qed.
End SplitCache.

(** * Matching *)

(** ** Counters and identifiers through a split *)

Record swa_cache_ok (c : SWARadixCache) (fs ss : list nat) : Prop := {
  ck_wf : cache_wf c fs ss;
  ck_uuids : uuids_ok (bares c) (swa_uuid_counter c);
  ck_sizes : swa_sizes_ok c fs
}.

Definition viewed (f : SwaNode -> Z) : Prop := forall n, f (view n) = f n.

Lemma node_total_view f s ns : viewed f -> node_total f (view <$> s) ns = node_total f s ns.
Proof.
  intros Hf. unfold node_total. f_equal. apply map_ext. intros i. unfold lock_weight. rewrite lookup_fmap.
  destruct (s !! i); [apply Hf|done].
Qed.

Lemma viewed_weights : viewed full_evictable /\ viewed swa_evictable /\ viewed full_protected /\ viewed swa_protected.
Proof. split_and!; intros n; reflexivity. Qed.

Lemma sizes_view c ns : swa_sizes_ok c ns <->
  full_evictable_size_ c = node_total full_evictable (bares c) ns
  /\ swa_evictable_size_ c = node_total swa_evictable (bares c) ns
  /\ full_protected_size_ c = node_total full_protected (bares c) ns
  /\ swa_protected_size_ c = node_total swa_protected (bares c) ns.
Proof. destruct viewed_weights as (? & ? & ? & ?). unfold swa_sizes_ok. by rewrite !node_total_view. Qed.

Lemma sizes_bares c c' ns : same_frame c c' -> bares c' = bares c -> swa_sizes_ok c ns -> swa_sizes_ok c' ns.
Proof. intros (_ & _ & E1 & E2 & E3 & E4 & _) Eb. by rewrite !sizes_view, Eb, E1, E2, E3, E4. Qed.

Lemma node_total_perm f s ns ns' : ns ≡ₚ ns' -> node_total f s ns = node_total f s ns'.
Proof. intros HP. unfold node_total. induction HP; cbn [map]; rewrite ?zsum_cons; lia. Qed.

Lemma node_total_ext f (s s' : store) ns : (forall i, i ∈ ns -> lock_weight f s' i = lock_weight f s i) -> node_total f s' ns = node_total f s ns.
Proof. intros H. unfold node_total. f_equal. apply map_ext_in. intros i Hi. apply H. by apply list_elem_of_In. Qed.

Section SplitCounts.
Context (B : store) (fs : list nat) (child q nw : nat) (ch pn : SwaNode) (v : list Z) (m : Z) (k kc : pyval).
Context (Hin : child ∈ fs) (Hnd : NoDup fs) (Hch : B !! child = Some ch) (Hpn : B !! q = Some pn) (Hqc : q <> child).
Context (Hnw : B !! nw = None) (Hnf : nw ∉ fs) (Hv : sn_value ch = Some v) (Hm : 0 <= m <= zlen v).
Local Abbreviation B' := (split_bares B child q nw ch pn k kc v m).

Lemma split_total f : f (lower_half ch nw v m) + f (upper_half ch child kc v m) = f ch ->
  (forall x n, f (set_sn_children x n) = f n) -> node_total f B' (child :: nw :: filter (.≠ child) fs) = node_total f B fs.
Proof.
  intros Hs Hc. assert (q <> nw /\ nw <> child) as [Hqn Hnc] by (split; intros ->; congruence).
  assert (fs ≡ₚ child :: filter (.≠ child) fs) as HP.
  { pose proof Hin as (a & b & E)%list_elem_of_split. rewrite E at 2. rewrite filter_ne_middle by by rewrite <- E.
    rewrite E. by rewrite Permutation_middle. }
  rewrite (node_total_perm f B fs _ HP). unfold node_total. cbn [map]. rewrite !zsum_cons. fold (node_total f B' (filter (.≠ child) fs)). fold (node_total f B (filter (.≠ child) fs)).
  rewrite (node_total_ext f B B').
  - unfold lock_weight, split_bares. rewrite lookup_insert_ne, lookup_insert_eq by done.
    rewrite !lookup_insert_ne, lookup_insert_eq, Hch by done. lia.
  - intros i [Hic Hi]%list_elem_of_filter. unfold lock_weight, split_bares. destruct (decide (i = q)) as [->|Hiq].
    + rewrite lookup_insert_eq, Hpn. apply Hc.
    + assert (i <> nw) by (intros ->; done). by rewrite !lookup_insert_ne.
Qed.

Lemma split_sizes c c' : same_frame c c' -> bares c = B -> bares c' = B' -> swa_sizes_ok c fs -> swa_sizes_ok c' (child :: nw :: filter (.≠ child) fs).
Proof.
  intros (_ & _ & E1 & E2 & E3 & E4 & _) Eb Eb'. rewrite !sizes_view, Eb, Eb', E1, E2, E3, E4.
  assert (zlen (py_from v m) + zlen (py_upto v m) = zlen v) as Hz by (rewrite zlen_py_from, zlen_py_upto by lia; lia).
  rewrite !split_total; [done|..]; try done;
    unfold full_evictable, swa_evictable, full_protected, swa_protected, node_len; simpl; rewrite Hv; simpl;
    repeat match goal with |- context [?b] => match type of b with bool => destruct b end end; lia.
Qed.

Lemma split_uuids top : uuids_ok B top -> uuids_ok B' top.
Proof.
  assert (q <> nw /\ nw <> child) as [Hqn Hnc] by (split; intros ->; congruence). intros [H1 H].
  assert (forall i w, uuid_of B' i = Some w -> exists j, uuid_of B j = Some w /\ ((i = nw /\ j = child) \/ (i = j /\ i <> nw /\ i <> child))) as Hb.
  { intros i w. unfold uuid_of, split_bares. destruct (decide (i = q)) as [->|H3].
    - rewrite lookup_insert_eq. intros E. exists q. rewrite Hpn. split; [exact E|right; done].
    - rewrite lookup_insert_ne by done. destruct (decide (i = child)) as [->|H4]; [rewrite lookup_insert_eq; done|].
      rewrite lookup_insert_ne by done. destruct (decide (i = nw)) as [->|H5].
      + rewrite lookup_insert_eq. intros E. exists child. rewrite Hch. split; [exact E|by left].
      + rewrite lookup_insert_ne by done. intros E. exists i. split; [exact E|by right]. }
  split; [done|]. intros i w Hi. destruct (Hb i w Hi) as (j & Hj & Hij). destruct (H j w Hj) as [Hr Hu]. split; [done|].
  intros i' Hi'. destruct (Hb i' w Hi') as (j' & Hj' & Hij'). apply Hu in Hj' as ->. naive_solver.
Qed.
End SplitCounts.

(** ** What a walk has matched *)

Definition val_of (B : store) (i : nat) : list Z := match B !! i with Some n => default [] (sn_value n) | None => [] end.
Definition node_units (B : store) (i : nat) : list (option string * atom) := match B !! i with Some n => units (sn_key n) | None => [] end.

(** The number of tokens since the nearest tombstone above; [None] when there is none. *)
Fixpoint since_of (B : store) (p : list nat) : option Z :=
  match p with
  | [] => None
  | i :: p =>
      match B !! i with
      | Some n => if swa_tombstone n then Some 0 else option_map (Z.add (node_len n)) (since_of B p)
      | None => None
      end
  end.

(** Enough tokens since the nearest tombstone: the window is intact. *)
Lemma since_window B root W x p acc : path_to B root x p ->
  window_reached W (option_map (Z.add acc) (since_of B p)) = true -> window_live B W acc p.
Proof.
  intros Hp. revert acc. induction Hp as [|i n p Hi Hn Hp IH]; intros acc Hr j Hj; [by apply not_elem_of_nil in Hj|].
  simpl in Hj, Hr. destruct (Z.ltb_spec acc W) as [Ha|Ha]; [|by apply not_elem_of_nil in Hj]. rewrite Hn in Hr.
  destruct (swa_tombstone n) eqn:Et; [simpl in Hr; apply Z.leb_le in Hr; lia|].
  assert (len_of B i = node_len n) as El by (unfold len_of, lock_weight; by rewrite Hn). rewrite El in Hj.
  apply elem_of_cons in Hj as [->|Hj]; [eauto|]. apply (IH (acc + node_len n)); [|done].
  destruct (since_of B p) as [l|]; simpl in *; [|done]. by rewrite <- Z.add_assoc.
Qed.

(** A walk of the key meets a node whose key starts with the same page. *)
Lemma key_walk ps kk k ck : 1 <= ps -> aligned ps kk -> aligned ps k -> 0 < key_len kk -> 0 < key_len k ->
  child_key kk ps = Ok ck -> child_key k ps = Ok ck ->
  exists m, key_match kk k ps = Ok m /\ ps <= m <= key_len kk /\ m <= key_len k /\ (ps | m)
    /\ take (Z.to_nat m) (units kk) = take (Z.to_nat m) (units k).
Proof.
  intros Hps Hak Ha Hk0 Hk E1 E2.
  assert (ps <= key_len kk /\ ps <= key_len k) as [L1 L2] by (split; apply Z.divide_pos_le; done).
  assert (take (Z.to_nat ps) (units kk) = take (Z.to_nat ps) (units k)) as Et by (apply child_key_inj; [lia|lia|congruence]).
  pose proof Et as [Ee _]%units_take_inj; [|lia..]. pose proof (units_head_view kk k ps ltac:(lia) L2 Et) as Eb.
  pose proof (zlen_units kk) as U1. pose proof (zlen_units k) as U2. unfold zlen in U1, U2.
  pose proof (lcp_max (units kk) (units k) (Z.to_nat ps) Et ltac:(lia) ltac:(lia)) as Hl.
  pose proof (lcp_le_l (units kk) (units k)). pose proof (lcp_le_r (units kk) (units k)).
  set (L := lcp (units kk) (units k)) in *. exists (round_down ps (Z.of_nat L)). unfold round_down.
  pose proof (Z.mul_div_le (Z.of_nat L) ps ltac:(lia)). assert (1 <= Z.of_nat L / ps) by (apply Z.div_le_lower_bound; lia).
  split; [by apply key_match_lcp|]. split; [nia|]. split; [lia|]. split; [by apply Z.divide_factor_r|].
  assert (take L (units kk) = take L (units k)) as Ht by apply lcp_take.
  apply (f_equal (take (Z.to_nat (Z.of_nat L / ps * ps)))) in Ht. rewrite !take_take in Ht.
  by replace (Z.to_nat (Z.of_nat L / ps * ps) `min` L)%nat with (Z.to_nat (Z.of_nat L / ps * ps)) in Ht by lia.
Qed.

(** *** Paths that a split leaves alone *)

Section Keep.
Context (B B' : store) (child : nat).
Context (Hold : forall i n, B !! i = Some n -> i <> child -> exists n', B' !! i = Some n' /\ set_sn_children ∅ n' = set_sn_children ∅ n).

Lemma keep_path root x p : path_to B root x p -> child ∉ p -> path_to B' root x p.
Proof.
  induction 1 as [|i n p Hi Hn Hp IH]; intros Hc; [constructor|]. apply not_elem_of_cons in Hc as [Hci Hc].
  destruct (Hold i n Hn) as (n' & Hn' & En); [done|]. econstructor; [done|done|].
  apply (f_equal sn_parent) in En. simpl in En. rewrite En. by apply IH.
Qed.

Lemma keep_views root x p : path_to B root x p -> child ∉ p ->
  map (val_of B') p = map (val_of B) p /\ map (node_units B') p = map (node_units B) p /\ since_of B' p = since_of B p.
Proof.
  induction 1 as [|i n p Hi Hn Hp IH]; intros Hc; [done|]. apply not_elem_of_cons in Hc as [Hci Hc].
  destruct (IH Hc) as (I1 & I2 & I3). destruct (Hold i n Hn) as (n' & Hn' & En); [done|].
  pose proof (f_equal sn_value En) as X1. pose proof (f_equal sn_key En) as X2. pose proof (f_equal swa_tombstone En) as X3. simpl in X1, X2, X3.
  cbn [map since_of]. rewrite I1, I2, I3, Hn, Hn', X3. unfold val_of, node_units, node_len. by rewrite Hn, Hn', X1, X2.
Qed.
End Keep.

(** ** The loop *)

(** After a part of [key0]: [p] leads from the node to the root, [k] is the rest of the key. *)
Definition match_inv (B : store) (root : nat) (W : Z) (key0 k : RadixKey) (st : match_state) (p pb : list nat) : Prop :=
  let '(value, node, since, best_len, best_node) := st in
  path_to B root (Some node) p /\ value = map (val_of B) (reverse p) /\ since = since_of B p
  /\ path_to B root (Some best_node) pb /\ pb `suffix_of` p /\ best_len = length pb /\ window_reached W (since_of B pb) = true
  /\ units key0 = concat (map (node_units B) (reverse p)) ++ units k.

Lemma tree_path_sub B root ps fs x p : tree_wf B root ps fs -> path_to B root (Some x) p -> x ∈ root :: fs -> forall j, j ∈ p -> j ∈ fs.
Proof.
  intros Ht Hp [->|Hx]%elem_of_cons j Hj.
  - inversion Hp; subst; [by apply not_elem_of_nil in Hj|done].
  - destruct (tw_path _ _ _ _ Ht x Hx) as (p' & Hp' & Hs). rewrite (path_to_det _ _ _ _ _ Hp Hp') in Hj. by apply Hs.
Qed.

Section Step.
Context (c : SWARadixCache) (fs ss : list nat) (Hc : swa_cache_ok c fs ss) (key0 k : RadixKey) (ck : pyval).
Context (value : list (list Z)) (node best_len best_node child : nat) (since : option Z) (p pb : list nat) (nd ch : SwaNode).
Local Abbreviation B := (bares c).
Local Abbreviation W := (sliding_window_size c).
Context (Hinv : match_inv B (root_node c) W key0 k (value, node, since, best_len, best_node) p pb).
Context (Hnode : node ∈ root_node c :: fs) (Hnd : B !! node = Some nd) (Hchild : sn_children nd !! ck = Some child) (Hch : B !! child = Some ch).
Context (Hcf : child ∈ fs) (Hcp : sn_parent ch = Some node).

Let hit := swa_tombstone ch && window_reached W since.
Let pb' := if hit then p else pb.

Lemma step_path : path_to B (root_node c) (Some child) (child :: p).
Proof.
  destruct Hinv as (Hp & _). econstructor; [|done|by rewrite Hcp]. intros ->. by destruct (tw_root _ _ _ _ (cw_tree _ _ _ (ck_wf _ _ _ Hc))).
Qed.

Lemma step_child_notin : child ∉ p.
Proof. pose proof (path_to_nodup _ _ _ _ step_path) as [? _]%NoDup_cons. done. Qed.

Lemma step_best : path_to B (root_node c) (Some (if hit then node else best_node)) pb' /\ pb' `suffix_of` p
  /\ (if hit then length value else best_len) = length pb' /\ window_reached W (since_of B pb') = true.
Proof.
  destruct Hinv as (Hp & Ev & Es & Hb & Hsuf & Hbl & Hr & _). unfold pb', hit. destruct (swa_tombstone ch && window_reached W since) eqn:Eh; [|done].
  split_and!; [done|done|rewrite Ev, length_map, length_reverse; done|]. apply andb_true_iff in Eh as [_ Eh]. by rewrite Es in Eh.
Qed.

(** The child's key is matched in full. *)
Lemma step_full m v : sn_value ch = Some v -> m = key_len (sn_key ch) -> take (Z.to_nat m) (units (sn_key ch)) = take (Z.to_nat m) (units k) ->
  match_inv B (root_node c) W key0 (key_slice k (Some m) None)
    (value ++ [v], child, (if negb (swa_tombstone ch) then option_map (Z.add (zlen v)) (if swa_tombstone ch then Some 0 else since) else if swa_tombstone ch then Some 0 else since),
     if hit then length value else best_len, if hit then node else best_node) (child :: p) pb'.
Proof.
  intros Hv Hm Ht. destruct step_best as (H1 & H2 & H3 & H4). destruct Hinv as (Hp & Ev & Es & _ & _ & _ & _ & Hu).
  pose proof (zlen_units (sn_key ch)) as Hz. unfold zlen in Hz. pose proof (key_len_nonneg (sn_key ch)).
  split_and!; [apply step_path| | |done|by apply suffix_cons_r|done|done|].
  - rewrite reverse_cons, map_app, Ev. cbn [map]. unfold val_of at 3. by rewrite Hch, Hv.
  - cbn [since_of]. rewrite Hch. destruct (swa_tombstone ch); simpl; [done|]. rewrite Es. unfold node_len. by rewrite Hv.
  - rewrite reverse_cons, map_app, concat_app, Hu, <- app_assoc. f_equal. cbn [map concat]. rewrite app_nil_r.
    unfold node_units. rewrite Hch, units_from by lia. rewrite <- (take_drop (Z.to_nat m) (units k)) at 1. f_equal.
    rewrite <- Ht. apply take_ge. lia.
Qed.

(** The child is split, and its upper half is matched. *)
Lemma step_split m v q pn kk kc nw c' : sn_value ch = Some v -> 0 < m <= key_len (sn_key ch) -> zlen v = key_len (sn_key ch) ->
  take (Z.to_nat m) (units (sn_key ch)) = take (Z.to_nat m) (units k) ->
  q <> child -> B !! q = Some pn -> B !! nw = None -> bares c' = split_bares B child q nw ch pn kk kc v m -> root_node c' = root_node c ->
  exists nn, bares c' !! nw = Some nn /\ swa_tombstone nn = swa_tombstone ch /\ sn_value nn = Some (py_upto v m)
  /\ match_inv (bares c') (root_node c) W key0 (key_slice k (Some m) None)
    (value ++ [py_upto v m], nw, (if negb (swa_tombstone ch) then option_map (Z.add (zlen (py_upto v m))) (if swa_tombstone ch then Some 0 else since) else if swa_tombstone ch then Some 0 else since),
     if hit then length value else best_len, if hit then node else best_node) (nw :: p) pb'.
Proof.
  intros Hv Hm Hlen Ht Hqc Hpn Hnw Eb Er. destruct step_best as (H1 & H2 & H3 & H4). pose proof step_child_notin as Hcn.
  destruct Hinv as (Hp & Ev & Es & _ & _ & _ & _ & Hu).
  assert (q <> nw /\ nw <> child) as [Hqn Hnc] by (split; intros ->; congruence).
  assert (forall i n, B !! i = Some n -> i <> child -> exists n', bares c' !! i = Some n' /\ set_sn_children ∅ n' = set_sn_children ∅ n) as Hold.
  { intros i n Hi Hic. rewrite Eb. unfold split_bares. assert (i <> nw) by congruence. destruct (decide (i = q)) as [->|].
    - rewrite Hpn in Hi. injection Hi as <-. rewrite lookup_insert_eq. eauto.
    - rewrite !lookup_insert_ne by done. eauto. }
  assert (bares c' !! nw = Some (upper_half ch child kc v m)) as Enw by (rewrite Eb; unfold split_bares; by rewrite !lookup_insert_ne, lookup_insert_eq by done).
  exists (upper_half ch child kc v m). split_and!; [done|done|done|].
  destruct (keep_views B (bares c') child Hold _ _ _ Hp Hcn) as (K1 & K2 & K3).
  assert (child ∉ pb') as Hcb by (intros Hx; destruct H2 as [z Hz]; apply Hcn; rewrite Hz; set_solver).
  destruct (keep_views B (bares c') child Hold _ _ _ H1 Hcb) as (_ & _ & K4).
  assert (nw <> root_node c) as Hnr.
  { intros E. destruct (tw_root _ _ _ _ (cw_tree _ _ _ (ck_wf _ _ _ Hc))) as [(rn & Hrn & _) _]. congruence. }
  assert (forall f g : nat -> list (option string * atom), map f p = map g p -> map f (reverse p) = map g (reverse p)) as Hrev1.
  { intros f g E. change (f <$> reverse p = g <$> reverse p). rewrite !fmap_reverse. f_equal. exact E. }
  assert (forall f g : nat -> list Z, map f p = map g p -> map f (reverse p) = map g (reverse p)) as Hrev2.
  { intros f g E. change (f <$> reverse p = g <$> reverse p). rewrite !fmap_reverse. f_equal. exact E. }
  pose proof (zlen_units (sn_key ch)) as Hz. unfold zlen in Hz.
  split_and!.
  - econstructor; [done|exact Enw|]. simpl. rewrite Hcp. by eapply keep_path.
  - rewrite reverse_cons, map_app, Ev, (Hrev2 _ _ K1). cbn [map]. unfold val_of at 3. by rewrite Enw.
  - cbn [since_of]. rewrite Enw. simpl. destruct (swa_tombstone ch); simpl; [done|]. by rewrite K3, Es.
  - by eapply keep_path.
  - by apply suffix_cons_r.
  - done.
  - by rewrite K4.
  - rewrite reverse_cons, map_app, concat_app, Hu, (Hrev1 _ _ K2), <- app_assoc. f_equal. cbn [map concat]. rewrite app_nil_r.
    unfold node_units. rewrite Enw. simpl. rewrite units_upto, units_from by lia. rewrite Ht. by rewrite take_drop.
Qed.
End Step.

Lemma lists_nodup c fs ss : lists_wf c fs ss -> NoDup fs.
Proof. intros [Hf _ _]. by eapply lru_ok_nodup. Qed.

Lemma swa_split_cache_ok c fs ss child ch v m : swa_cache_ok c fs ss -> child ∈ fs -> bares c !! child = Some ch -> sn_value ch = Some v ->
  0 < m < key_len (sn_key ch) -> (sc_page_size c | m) ->
  exists q pn k kc c', let nw := node_counter c in
    sn_parent ch = Some q /\ q <> child /\ bares c !! q = Some pn /\ bares c !! nw = None
    /\ swa_split_node (sn_key ch) child m c = Ok (nw, c') /\ same_frame c c'
    /\ bares c' = split_bares (bares c) child q nw ch pn k kc v m
    /\ swa_cache_ok c' (child :: nw :: filter (.≠ child) fs) (if swa_tombstone ch then ss else child :: nw :: filter (.≠ child) ss).
Proof.
  intros [Hw Hu Hs] Hin Hch Hv Hm Hal.
  destruct (split_cache_wf c fs ss Hw child ch v m Hin Hch Hv Hm Hal) as (q & pn & k & kc & c' & Hq & Hqi & Hpn & Hnw & Hkc & Hk & E & Hw' & Hf & Eb).
  destruct (parent_in_tree c fs ss Hw child ch Hin Hch) as (q2 & pn2 & Hq2 & _ & _ & Hqc). assert (q2 = q) as -> by congruence.
  destruct (tw_node _ _ _ _ (cw_tree _ _ _ Hw) child Hin) as (n0 & v0 & Hn0 & Hv0 & Hlen & _). rewrite Hch in Hn0. injection Hn0 as <-.
  assert (v0 = v) as -> by congruence. pose proof (lists_nodup _ _ _ (cw_lists _ _ _ Hw)) as Hnd.
  assert (node_counter c ∉ fs) as Hnf by (intros Hx; destruct (tw_node _ _ _ _ (cw_tree _ _ _ Hw) _ Hx) as (? & ? & ? & _); congruence).
  exists q, pn, k, kc, c'. split_and!; try done. split; [done| |].
  - rewrite Eb. destruct Hf as (_ & _ & _ & _ & _ & _ & -> & _). eapply split_uuids; eauto; lia.
  - eapply split_sizes; eauto; lia.
Qed.

Lemma swa_match_loop_ok key0 fuel : forall k ck st c fs ss p pb, swa_cache_ok c fs ss ->
  aligned (sc_page_size c) k -> (0 < key_len k -> child_key k (sc_page_size c) = Ok ck) -> key_len k < Z.of_nat fuel ->
  st.1.1.1.2 ∈ root_node c :: fs -> match_inv (bares c) (root_node c) (sliding_window_size c) key0 k st p pb ->
  exists st' c' fs' ss' k' p' pb', swa_match_loop fuel k ck st c = Ok (st', c') /\ swa_cache_ok c' fs' ss' /\ same_frame c c'
    /\ st'.1.1.1.2 ∈ root_node c :: fs' /\ match_inv (bares c') (root_node c) (sliding_window_size c) key0 k' st' p' pb'.
Proof.
  induction fuel as [|fuel IH]; intros k ck st c fs ss p pb Hc Hal Hck Hf Hnode Hinv; [pose proof (key_len_nonneg k); lia|].
  destruct st as [[[[value node] since] best_len] best_node]. cbn in Hnode. pose proof (ck_wf _ _ _ Hc) as Hw. pose proof (cw_tree _ _ _ Hw) as Ht.
  assert (exists nd, bares c !! node = Some nd) as [nd Hnd].
  { apply elem_of_cons in Hnode as [->|Hn]; [destruct (tw_root _ _ _ _ Ht) as [(rn & ? & _) _]; eauto|].
    destruct (tw_node _ _ _ _ Ht node Hn) as (n & ? & ? & _). eauto. }
  destruct (bares_inv c node nd Hnd) as (n1 & Hn1 & En1). cbn [swa_match_loop]. unfold sc_node at 1. rewrite (deref_lookup _ _ _ Hn1). cbn [res_bind].
  assert (sn_children n1 = sn_children nd) as -> by by rewrite <- En1.
  destruct (if 0 <? key_len k then sn_children nd !! ck else None) as [child|] eqn:Ech.
  2:{ eexists _, c, fs, ss, k, p, pb. split; [done|]. done. }
  destruct (Z.ltb_spec 0 (key_len k)) as [Hk|]; [|done]. specialize (Hck Hk).
  destruct (tw_child _ _ _ _ Ht node nd ck child Hnode Hnd Ech) as [Hcf (ch & Hch & Hcp & Hckc)].
  destruct (tw_node _ _ _ _ Ht child Hcf) as (ch0 & v & Hch0 & Hv & Hlen & Hala & Hpos & _). rewrite Hch in Hch0. injection Hch0 as <-.
  destruct (cw_sizes _ _ _ Hw) as [Hps HW].
  destruct (key_walk (sc_page_size c) (sn_key ch) k ck Hps Hala Hal Hpos Hk Hckc Hck) as (m & Em & Hm1 & Hm2 & Hdiv & Htk).
  destruct (bares_inv c child ch Hch) as (n2 & Hn2 & En2). unfold sc_node at 1. rewrite (deref_lookup _ _ _ Hn2). cbn [res_bind].
  assert (sn_key n2 = sn_key ch /\ swa_tombstone n2 = swa_tombstone ch /\ sn_value n2 = sn_value ch) as (-> & -> & Ev2) by by rewrite <- En2.
  rewrite Em. cbn [res_bind]. destruct (Z.ltb_spec m (key_len (sn_key ch))) as [Hlt|Hge].
  - destruct (swa_split_cache_ok c fs ss child ch v m Hc Hcf Hch Hv ltac:(lia) Hdiv) as (q & pn & kk & kc & c' & _ & Hqc & Hpn & Hnw & E & Hfr & Eb & Hc').
    rewrite E. cbn [res_bind]. pose proof Hfr as (Er & _).
    destruct (step_split c fs ss Hc key0 k ck value node best_len best_node child since p pb nd ch Hinv Hnode Hnd Ech Hch Hcf Hcp
      m v q pn kk kc (node_counter c) c' Hv ltac:(lia) Hlen Htk Hqc Hpn Hnw Eb Er) as (nn & Hnn & T1 & T2 & Hinv').
    destruct (bares_inv c' _ nn Hnn) as (n3 & Hn3 & En3). unfold sc_node. rewrite (deref_lookup _ _ _ Hn3). cbn [res_bind].
    assert (swa_tombstone n3 = swa_tombstone nn /\ sn_value n3 = sn_value nn) as [-> E3] by by rewrite <- En3.
    unfold sn_tensor. rewrite E3, T2, T1. cbn [res_bind]. eexists _, c', _, _, _, _, _. split; [done|]. split; [done|]. split; [done|].
    split; [cbn; right; right; left|]. done.
  - assert (m = key_len (sn_key ch)) as Emk by lia. unfold sn_tensor. rewrite Ev2, Hv. cbn [res_bind].
    pose proof (step_full c fs ss Hc key0 k ck value node best_len best_node child since p pb nd ch Hinv Ech Hch Hcf Hcp m v Hv Emk Htk) as Hinv'.
    set (k' := key_slice k (Some m) None) in *. assert (key_len k' = key_len k - m) as Ek' by (apply key_len_from; lia).
    assert (aligned (sc_page_size c) k') as Hal' by (unfold aligned; rewrite Ek'; by apply Z.divide_sub_r).
    assert (exists ck', (if negb (key_len k' =? 0) then child_key k' (sc_page_size c) else Ok ck) = Ok ck'
      /\ (0 < key_len k' -> child_key k' (sc_page_size c) = Ok ck')) as (ck' & -> & Hck').
    { destruct (Z.eqb_spec (key_len k') 0) as [E0|E0]; simpl; [exists ck; split; [done|lia]|]. pose proof (key_len_nonneg k').
      assert (sc_page_size c <= key_len k') by (apply Z.divide_pos_le; [lia|exact Hal']).
      rewrite child_key_encode by lia. eauto. }
    cbn [res_bind]. eapply (IH k' ck' _ c fs ss _ _ Hc Hal' Hck'); [lia| |exact Hinv']. cbn. by right.
Qed.

(** ** After the loop *)

Lemma path_view (s : store) root x p : path_to (view <$> s) root x p <-> path_to s root x p.
Proof.
  split.
  - induction 1 as [|i n p Hi Hn Hp IH]; [constructor|]. rewrite lookup_fmap in Hn.
    destruct (s !! i) as [m|] eqn:E; [|done]. injection Hn as <-. econstructor; [done|done|]. exact IH.
  - induction 1 as [|i n p Hi Hn Hp IH]; [constructor|]. econstructor; [done|by rewrite lookup_fmap, Hn|]. exact IH.
Qed.

Lemma tree_wf_ext B root ps fs fs' : (forall i, i ∈ fs' <-> i ∈ fs) -> tree_wf B root ps fs -> tree_wf B root ps fs'.
Proof.
  intros E [[Hr Hn] H1 H2 H3 H4]. split; [split; [done|by rewrite E]| | | |].
  - intros i Hi. apply H1. by apply E.
  - intros i Hi. destruct (H2 i) as (p & ? & Hp); [by apply E|]. exists p. split; [done|]. intros j Hj. apply E. by apply Hp.
  - intros i n k j Hi Hn' Hc. destruct (H3 i n k j) as [? ?]; [|done|done|split; [by apply E|done]].
    rewrite elem_of_cons, E, <- elem_of_cons in Hi. done.
  - intros i n q m Hi. apply H4. by apply E.
Qed.

(** Reordering the lists and stamping nodes keeps a cache sound. *)
Lemma cache_ok_reorder c c' fs ss fs' ss' : swa_cache_ok c fs ss -> lists_wf c' fs' ss' -> same_frame c c' -> bares c' = bares c ->
  node_counter c' = node_counter c -> (forall i, i ∈ fs' <-> i ∈ fs) -> (forall i, i ∈ ss' <-> i ∈ ss) -> swa_cache_ok c' fs' ss'.
Proof.
  intros [[Hl Ht Hs Hf Hd Hz] Hu Hsz] Hl' Hfr Eb En E1 E2. pose proof Hfr as (Er & Ed & _ & _ & _ & _ & Euu & _ & Eps & EW & _).
  split; [split| |].
  - done.
  - rewrite Eb, Er, Eps. by eapply tree_wf_ext.
  - intros i. by rewrite E2, E1, Eb.
  - intros i Hi. rewrite En. apply Hf. by rewrite (bares_dom c c' Eb) in Hi.
  - intros i Hi. rewrite Ed. apply Hd. rewrite Er, elem_of_cons, E1, <- elem_of_cons in Hi. done.
  - by rewrite Eps, EW.
  - by rewrite Eb, Euu.
  - assert (fs' ≡ₚ fs) as HP by (apply NoDup_Permutation; [by eapply lists_nodup|by eapply lists_nodup|done]).
    apply (sizes_bares c c' fs Hfr Eb) in Hsz. unfold swa_sizes_ok in *. by rewrite !(node_total_perm _ _ _ _ HP).
Qed.

Lemma moved_members (moved ns : list nat) i : moved ⊆ ns -> i ∈ moved ++ filter (.∉ moved) ns <-> i ∈ ns.
Proof.
  intros Hs. rewrite elem_of_app, list_elem_of_filter. specialize (Hs i). destruct (decide (i ∈ moved)); tauto.
Qed.

(** Moving the path of a node to the front of both lists. *)
Lemma full_reset_path c fs ss x p : swa_cache_ok c fs ss -> path_to (bares c) (root_node c) (Some x) p -> x ∈ root_node c :: fs ->
  exists s fs', reset_node_and_parents_mru (full_lru_list c) x (root_node c) (sc_nodes c) = Ok s
    /\ swa_cache_ok (with_nodes s c) fs' ss /\ same_frame c (with_nodes s c) /\ bares (with_nodes s c) = bares c
    /\ (forall i, i ∈ fs' <-> i ∈ fs).
Proof.
  intros Hc Hp Hx. pose proof (ck_wf _ _ _ Hc) as Hw. pose proof (proj1 (path_view _ _ _ _) Hp) as Hps. pose proof (cw_lists _ _ _ Hw) as Hl.
  set (op := OpResetPath x (root_node c)). set (moved := filter (node_listable false (sc_nodes c)) p).
  assert (moved ⊆ fs) as Hsub by (intros i [_ Hi]%list_elem_of_filter; exact (tree_path_sub _ _ _ _ x p (cw_tree _ _ _ Hw) Hp Hx i Hi)).
  pose proof (run_op_refines (full_lru_list c) (sc_nodes c) op fs (lw_full _ _ _ Hl) (ex_intro _ p Hps)) as H.
  destruct (lw_kinds _ _ _ Hl) as [Kf Ks]. rewrite Kf in H. unfold op in H. cbn [seq_op run_op] in H.
  rewrite (ancestors_path _ _ _ p) in H by (done || by eapply path_to_length). fold moved in H. rewrite decide_True in H by done.
  destruct H as (l & s & E & Hok & Hb & K & Eh & Et). apply res_bind_Ok in E as (s1 & E & [= <- <-]).
  exists s1, (moved ++ filter (.∉ moved) fs). split; [done|].
  assert (bares (with_nodes s1 c) = bares c) as Eb by (simpl; by eapply same_nodes_view, same_but_nodes).
  assert (same_frame c (with_nodes s1 c)) as Hfr by done. split; [|split; [done|split; [done|intros; by apply moved_members]]].
  eapply (cache_ok_reorder c _ fs ss); [done| |done|done|done|intros; by apply moved_members|done].
  split; simpl; [done| |done]. eapply lru_ok_other; [|apply Hl]. rewrite Ks. by rewrite Kf in Hb.
Qed.

Lemma swa_reset_path c fs ss x p : swa_cache_ok c fs ss -> path_to (bares c) (root_node c) (Some x) p -> x ∈ root_node c :: fs ->
  exists s ss', reset_node_and_parents_mru (swa_lru_list c) x (root_node c) (sc_nodes c) = Ok s
    /\ swa_cache_ok (with_nodes s c) fs ss' /\ same_frame c (with_nodes s c) /\ bares (with_nodes s c) = bares c.
Proof.
  intros Hc Hp Hx. pose proof (ck_wf _ _ _ Hc) as Hw. pose proof (proj1 (path_view _ _ _ _) Hp) as Hps. pose proof (cw_lists _ _ _ Hw) as Hl.
  set (op := OpResetPath x (root_node c)). set (moved := filter (node_listable true (sc_nodes c)) p).
  assert (moved ⊆ ss) as Hsub.
  { intros i [Hli Hi]%list_elem_of_filter. apply (cw_swa _ _ _ Hw). split; [exact (tree_path_sub _ _ _ _ x p (cw_tree _ _ _ Hw) Hp Hx i Hi)|by apply listable_bares]. }
  pose proof (run_op_refines (swa_lru_list c) (sc_nodes c) op ss (lw_swa _ _ _ Hl) (ex_intro _ p Hps)) as H.
  destruct (lw_kinds _ _ _ Hl) as [Kf Ks]. rewrite Ks in H. unfold op in H. cbn [seq_op run_op] in H.
  rewrite (ancestors_path _ _ _ p) in H by (done || by eapply path_to_length). fold moved in H. rewrite decide_True in H by done.
  destruct H as (l & s & E & Hok & Hb & K & Eh & Et). apply res_bind_Ok in E as (s1 & E & [= <- <-]).
  exists s1, (moved ++ filter (.∉ moved) ss). split; [done|].
  assert (bares (with_nodes s1 c) = bares c) as Eb by (simpl; by eapply same_nodes_view, same_but_nodes).
  assert (same_frame c (with_nodes s1 c)) as Hfr by done. split; [|done].
  eapply (cache_ok_reorder c _ fs ss); [done| |done|done|done|done|intros; by apply moved_members].
  split; simpl; [|done|done]. eapply lru_ok_other; [|apply Hl]. rewrite Kf. by rewrite Ks in Hb.
Qed.

Lemma stamp_loop_ok p : forall fuel x t c fs ss, lists_wf c fs ss -> path_to (bares c) (root_node c) x p ->
  (exists rn, bares c !! root_node c = Some rn /\ sn_parent rn = None) -> (length p < fuel)%nat ->
  exists c', stamp_loop fuel x t c = Ok c' /\ lists_wf c' fs ss /\ same_frame c c' /\ bares c' = bares c /\ node_counter c' = node_counter c.
Proof.
  assert (forall fuel i b t c fs ss, lists_wf c fs ss -> bares c !! i = Some b ->
    exists c1, stamp_loop (S fuel) (Some i) t c = stamp_loop fuel (sn_parent b) (t - 1) c1 /\ lists_wf c1 fs ss /\ same_frame c c1
      /\ bares c1 = bares c /\ node_counter c1 = node_counter c) as Hstep.
  { intros fuel i b t c fs ss Hl Hb. apply bares_inv in Hb as (n & Hn & <-). cbn [stamp_loop]. unfold sc_node.
    rewrite (deref_lookup _ _ _ Hn). cbn [res_bind]. destruct (access_wf c fs ss t i n Hl Hn) as (c1 & -> & ? & ? & ? & ? & _). eauto 10. }
  induction p as [|i p IH]; intros fuel x t c fs ss Hl Hp Hr Hf; (destruct fuel as [|fuel]; [simpl in Hf; lia|]).
  - inversion Hp; subst. destruct Hr as (rn & Hrn & Hrp). destruct (Hstep fuel _ rn t c fs ss Hl Hrn) as (c1 & -> & ? & ? & ? & ?).
    rewrite Hrp. exists c1. by destruct fuel.
  - inversion Hp as [|? n ? Hi Hn Hp']; subst. destruct (Hstep fuel i n t c fs ss Hl Hn) as (c1 & -> & Hl1 & Hf1 & Hb1 & Hn1).
    pose proof Hf1 as (Er & _). destruct (IH fuel (sn_parent n) (t - 1) c1 fs ss Hl1) as (c' & -> & ? & ? & ? & ?);
      [by rewrite Hb1, Er|by rewrite Hb1, Er|simpl in Hf; lia|]. exists c'. split_and!; [done|done|by etrans|congruence|congruence].
Qed.

(** ** [match_prefix] *)

(** The key that is looked up. *)
Definition swa_lookup_key (key : RadixKey) (c : SWARadixCache) : RadixKey :=
  page_aligned (maybe_to_bigram_view key (sc_is_eagle c) None).1 (sc_page_size c).

Lemma best_values (B : store) (p pb : list nat) : pb `suffix_of` p ->
  take (length pb) (map (val_of B) (reverse p)) = map (val_of B) (reverse pb).
Proof.
  intros [z ->]. rewrite reverse_app, map_app. apply take_app_length'. by rewrite length_map, length_reverse.
Qed.

Lemma best_units (B : store) (p pb : list nat) l r : pb `suffix_of` p -> l = concat (map (node_units B) (reverse p)) ++ r ->
  concat (map (node_units B) (reverse pb)) `prefix_of` l.
Proof.
  intros [z ->] ->. rewrite reverse_app, map_app, concat_app, <- !app_assoc. by apply prefix_app_r.
Qed.

Lemma match_post_ok value n x px c1 fs1 ss1 : swa_cache_ok c1 fs1 ss1 -> path_to (bares c1) (root_node c1) (Some x) px -> x ∈ root_node c1 :: fs1 ->
  exists c5 fs2 ss2, swa_match_post_processor value x n c1 = Ok (concat (take n value), x, c5) /\ swa_cache_ok c5 fs2 ss2
    /\ same_frame c1 c5 /\ bares c5 = bares c1 /\ (forall i, i ∈ fs2 <-> i ∈ fs1).
Proof.
  intros Hc1 Hpx Hxin. unfold swa_match_post_processor.
  destruct (full_reset_path c1 fs1 ss1 x px Hc1 Hpx Hxin) as (s2 & fs2 & -> & Hc2 & Hf2 & Hb2 & Hm2). cbn [res_bind].
  set (c2 := with_nodes s2 c1) in *.
  assert (x ∈ root_node c2 :: fs2) as Hxin2 by (rewrite elem_of_cons, Hm2, <- elem_of_cons; exact Hxin).
  destruct (swa_reset_path c2 fs2 ss1 x px Hc2) as (s3 & ss3 & E3 & Hc3 & Hf3 & Hb3); [by rewrite Hb2|done|].
  change (swa_lru_list c2) with (swa_lru_list c1) in E3. change (root_node c2) with (root_node c1) in E3. change (sc_nodes c2) with s2 in E3.
  rewrite E3. cbn [res_bind]. change (with_nodes s3 c2) with (with_nodes s3 c1) in Hc3, Hf3, Hb3. set (c3 := with_nodes s3 c1) in *.
  assert (same_frame c1 c3) as Hf13 by done. assert (bares c3 = bares c1) as Hb13 by congruence.
  unfold get_last_access_time. set (c4 := with_counters _ _ _ c3).
  pose proof (ck_wf _ _ _ Hc3) as Hw3. assert (lists_wf c4 fs2 ss3) as Hl4 by (destruct (cw_lists _ _ _ Hw3); by split).
  assert (path_to (bares c4) (root_node c4) (Some x) px) as Hp4 by (change (path_to (bares c3) (root_node c1) (Some x) px); by rewrite Hb13).
  destruct (stamp_loop_ok px (S (base.size (sc_nodes c4))) (Some x) (access_counter c3) c4 fs2 ss3 Hl4 Hp4) as (c5 & -> & Hl5 & Hf5 & Hb5 & Hn5).
  { apply (tw_root _ _ _ _ (cw_tree _ _ _ Hw3)). }
  { pose proof (path_to_length _ _ _ _ Hp4) as Hlen. rewrite map_size_fmap in Hlen. lia. }
  cbn [res_bind]. assert (same_frame c3 c5) as Hf35 by exact Hf5. assert (bares c5 = bares c1) as Hb15 by (rewrite Hb5; exact Hb13).
  exists c5, fs2, ss3. split; [done|]. split.
  { eapply (cache_ok_reorder c3 c5 fs2 ss3); [done|done|exact Hf35|exact Hb5|exact Hn5|done|done]. }
  split; [etrans; [exact Hf13|exact Hf35]|done].
Qed.

Lemma swa_match_prefix_ok key c fs ss : swa_cache_ok c fs ss ->
  exists out x c' fs' ss' p, swa_match_prefix key c = Ok (out, x, c') /\ swa_cache_ok c' fs' ss' /\ same_frame c c'
    /\ path_to (bares c') (root_node c') (Some x) p /\ (forall i, i ∈ p -> i ∈ fs')
    /\ out = concat (map (val_of (bares c')) (reverse p))
    /\ concat (map (node_units (bares c')) (reverse p)) `prefix_of` units (swa_lookup_key key c)
    /\ window_live (bares c') (sliding_window_size c') 0 p.
Proof.
  intros Hc. unfold swa_match_prefix, swa_match_pre_processor.
  assert (exists out x c' fs' ss' p, Ok ([] : list Z, root_node c, c) = Ok (out, x, c') /\ swa_cache_ok c' fs' ss' /\ same_frame c c'
    /\ path_to (bares c') (root_node c') (Some x) p /\ (forall i, i ∈ p -> i ∈ fs') /\ out = concat (map (val_of (bares c')) (reverse p))
    /\ concat (map (node_units (bares c')) (reverse p)) `prefix_of` units (swa_lookup_key key c)
    /\ window_live (bares c') (sliding_window_size c') 0 p) as Hnone.
  { exists [], (root_node c), c, fs, ss, []. split_and!; try done; [constructor|by intros ? ?%not_elem_of_nil|apply prefix_nil|by intros ? ?%not_elem_of_nil]. }
  unfold swa_lookup_key in *. destruct (maybe_to_bigram_view key (sc_is_eagle c) None) as [key1 w]. cbn [fst] in *.
  destruct (sc_disable c || (key_len key1 =? 0)); [exact Hnone|]. set (key0 := page_aligned key1 (sc_page_size c)) in *.
  destruct (Z.eqb_spec (key_len key0) 0) as [E0|E0]; [exact Hnone|]. clear Hnone.
  pose proof (ck_wf _ _ _ Hc) as Hw. destruct (cw_sizes _ _ _ Hw) as [Hps HW]. pose proof (key_len_nonneg key0) as Hk0.
  assert (aligned (sc_page_size c) key0) as Hal by by apply page_aligned_aligned.
  assert (sc_page_size c <= key_len key0) as Hle by (apply Z.divide_pos_le; [lia|exact Hal]).
  unfold swa_match_prefix_helper. destruct (child_key key0 (sc_page_size c)) as [ck|e] eqn:Eck; [|rewrite child_key_encode in Eck by lia; done].
  cbn [res_bind].
  destruct (swa_match_loop_ok key0 (S (Z.to_nat (key_len key0))) key0 ck ([], root_node c, None, 0%nat, root_node c) c fs ss [] [])
    as (st & c1 & fs1 & ss1 & k1 & p & pb & -> & Hc1 & Hf1 & Hnode & Hinv); [done|done|done|lia|cbn; left| |].
  { cbn. split_and!; try done; constructor. }
  cbn [res_bind]. destruct st as [[[[value node] since] best_len] best_node]. pose proof Hf1 as (Er & _ & _ & _ & _ & _ & _ & _ & _ & EW & _).
  destruct Hinv as (Hp & Ev & Es & Hpb & Hsuf & Hbl & Hreach & Hu). cbn in Hnode. rewrite EW.
  assert (exists x px, (if window_reached (sliding_window_size c) since then Ok (value, node, length value, c1) else Ok (value, best_node, best_len, c1))
      = Ok (value, x, length px, c1) /\ path_to (bares c1) (root_node c1) (Some x) px /\ px `suffix_of` p /\ window_reached (sliding_window_size c) (since_of (bares c1) px) = true)
    as (x & px & -> & Hpx & Hsx & Hrx).
  { rewrite Er. destruct (window_reached (sliding_window_size c) since) eqn:Ex.
    - exists node, p. rewrite Ev, length_map, length_reverse. split_and!; try done. by rewrite <- Es.
    - exists best_node, pb. by rewrite Hbl. }
  cbn [res_bind].
  pose proof (ck_wf _ _ _ Hc1) as Hw1. pose proof (cw_tree _ _ _ Hw1) as Ht1.
  assert (forall i, i ∈ px -> i ∈ fs1) as Hpf.
  { intros i Hi. apply (tree_path_sub (bares c1) (root_node c1) _ fs1 node p Ht1); [by rewrite Er|by rewrite Er|]. destruct Hsx as [z ->]. set_solver. }
  assert (x ∈ root_node c1 :: fs1) as Hxin by (inversion Hpx; subst; [left|right; apply Hpf; left]).
  destruct (match_post_ok value (length px) x px c1 fs1 ss1 Hc1 Hpx Hxin) as (c5 & fs2 & ss2 & -> & Hc5 & Hf15 & Hb15 & Hm2).
  assert (same_frame c c5) as Hf05 by by etrans. pose proof Hf05 as (Er5 & _ & _ & _ & _ & _ & _ & _ & _ & EW5 & _).
  exists (concat (take (length px) value)), x, c5, fs2, ss2, px. split; [done|]. split; [done|].
  split; [done|]. rewrite Hb15, Er5, EW5. rewrite Er in Hpx. split; [done|]. split; [intros i Hi; apply Hm2; by apply Hpf|].
  split; [by rewrite Ev, best_values|]. split; [by eapply best_units|].
  apply (since_window _ (root_node c) _ (Some x)); [done|]. destruct (since_of (bares c1) px); [|done]. exact Hrx.
Qed.
