(* ===== verification/SwaInsert.v ===== *)
(** Creating a sliding-window radix cache and adding nodes to it; locking what was matched. *)

From S2P Require Export SwaMatch.

(** ** A new node *)

Definition fresh_node (parent : nat) (key : RadixKey) (value : list Z) (tombstone : bool) : SwaNode :=
  set_swa_tombstone tombstone (set_sn_kv key (Some value) (set_sn_parent (Some parent) (new_tree_node 0))).

Definition add_bares (B : store) (parent nw : nat) (pn nn : SwaNode) (k : pyval) : store :=
  <[parent := set_sn_children (<[k := nw]> (sn_children pn)) pn]> (<[nw := nn]> B).

Section AddTree.
Context (B : store) (root : nat) (ps : Z) (fs : list nat) (Ht : tree_wf B root ps fs).
Context (parent nw : nat) (pn : SwaNode) (key : RadixKey) (value : list Z) (tomb : bool) (k : pyval).
Context (Hin : parent ∈ root :: fs) (Hpn : B !! parent = Some pn) (Hnw : B !! nw = None) (Hfree : sn_children pn !! k = None).
Context (Hk : child_key key ps = Ok k) (Hal : aligned ps key) (Hlen : 0 < key_len key) (Hv : zlen value = key_len key).

Local Abbreviation nn := (fresh_node parent key value tomb).
Local Abbreviation B' := (add_bares B parent nw pn nn k).

Lemma add_at_new : B' !! nw = Some nn.
Proof. unfold add_bares. rewrite lookup_insert_ne, lookup_insert_eq; [done|]. intros ->. congruence. Qed.

Lemma add_old i n : B !! i = Some n -> i <> nw -> exists n', B' !! i = Some n' /\ set_sn_children ∅ n' = set_sn_children ∅ n.
Proof.
  intros Hi Hne. unfold add_bares. destruct (decide (i = parent)) as [->|].
  - rewrite Hpn in Hi. injection Hi as <-. rewrite lookup_insert_eq. eauto.
  - rewrite !lookup_insert_ne by done. eauto.
Qed.

Lemma add_fresh i : i ∈ fs -> i <> nw.
Proof. intros Hi ->. destruct (tw_node _ _ _ _ Ht nw Hi) as (? & ? & ? & _). congruence. Qed.

Lemma add_path x p : path_to B root x p -> path_to B' root x p.
Proof.
  intros Hp. apply (keep_path B B' nw add_old); [done|]. intros Hi. apply (path_to_dom _ _ _ _ Hp) in Hi.
  apply elem_of_dom in Hi as [? ?]. congruence.
Qed.

Lemma add_tree_wf : tree_wf B' root ps (nw :: fs).
Proof.
  destruct (tw_root _ _ _ _ Ht) as [(rn & Hrn & Hrp) Hrf]. assert (root <> nw) as Hrn' by congruence.
  assert (parent <> nw) as Hpw by congruence. split.
  - split; [|intros [E|E]%elem_of_cons; done]. destruct (add_old root rn Hrn Hrn') as (n' & Hn' & En). exists n'. split; [done|].
    apply (f_equal sn_parent) in En. simpl in En. by rewrite En.
  - intros i [->|Hi]%elem_of_cons; [exists nn, value; split; [apply add_at_new|done]|].
    destruct (tw_node _ _ _ _ Ht i Hi) as (n & w & Hn & H). destruct (add_old i n Hn (add_fresh i Hi)) as (n' & Hn' & En). exists n', w.
    pose proof (f_equal sn_value En) as X1. pose proof (f_equal sn_key En) as X2. pose proof (f_equal swa_lock_ref En) as X3.
    pose proof (f_equal full_lock_ref En) as X4. simpl in X1, X2, X3, X4. by rewrite X1, X2, X3, X4.
  - intros i [->|Hi]%elem_of_cons.
    + pose proof (proj1 (elem_of_cons _ _ _) Hin) as [E|Hpf].
      * exists [nw]. split; [|intros j ->%list_elem_of_singleton; left]. econstructor; [done|apply add_at_new|]. simpl. rewrite E. constructor.
      * destruct (tw_path _ _ _ _ Ht parent Hpf) as (p & Hp & Hs). exists (nw :: p). split.
        -- econstructor; [done|apply add_at_new|]. by apply add_path.
        -- intros j [->|Hj]%elem_of_cons; [left|right; by apply Hs].
    + destruct (tw_path _ _ _ _ Ht i Hi) as (p & Hp & Hs). exists p. split; [by apply add_path|]. intros j Hj. right. by apply Hs.
  - assert (forall i k' j, j ∈ fs -> (exists mm, B !! j = Some mm /\ sn_parent mm = Some i /\ child_key (sn_key mm) ps = Ok k') ->
      j ∈ nw :: fs /\ exists mm, B' !! j = Some mm /\ sn_parent mm = Some i /\ child_key (sn_key mm) ps = Ok k') as Hkeep.
    { intros i k' j Hj (mm & Hmm & Hpm & Hkm). split; [by right|]. destruct (add_old j mm Hmm (add_fresh j Hj)) as (n' & Hn' & En). exists n'.
      split; [done|]. pose proof (f_equal sn_parent En) as X1. pose proof (f_equal sn_key En) as X2. simpl in X1, X2. by rewrite X1, X2. }
    intros i n k' j Hi Hn Hc. destruct (decide (i = nw)) as [->|Hinw].
    { rewrite add_at_new in Hn. injection Hn as <-. simpl in Hc. by rewrite lookup_empty in Hc. }
    assert (i ∈ root :: fs) as Hi' by (rewrite !elem_of_cons in *; tauto).
    destruct (decide (i = parent)) as [->|Hip].
    + unfold add_bares in Hn. rewrite lookup_insert_eq in Hn. injection Hn as <-. simpl in Hc. apply lookup_insert_Some in Hc as [[<- <-]|[Hkk Hc]].
      * split; [left|]. exists nn. split; [apply add_at_new|done].
      * destruct (tw_child _ _ _ _ Ht parent pn k' j Hi' Hpn Hc) as [Hj Hm]. by apply Hkeep.
    + unfold add_bares in Hn. rewrite !lookup_insert_ne in Hn by done.
      destruct (tw_child _ _ _ _ Ht i n k' j Hi' Hn Hc) as [Hj Hm]. by apply Hkeep.
  - intros i n q m Hi Hn Hq Hm. destruct (decide (i = nw)) as [->|Hinw].
    { rewrite add_at_new in Hn. injection Hn as <-. injection Hq as <-. unfold add_bares in Hm. rewrite lookup_insert_eq in Hm. injection Hm as <-.
      exists k. split; [done|]. simpl. apply lookup_insert_eq. }
    apply elem_of_cons in Hi as [?|Hi]; [done|]. destruct (tw_node _ _ _ _ Ht i Hi) as (n0 & _ & Hn0 & _).
    destruct (add_old i n0 Hn0 Hinw) as (n1 & Hn1 & En). rewrite Hn in Hn1. injection Hn1 as <-.
    pose proof (f_equal sn_parent En) as X1. pose proof (f_equal sn_key En) as X2. simpl in X1, X2. rewrite X1 in Hq. rewrite X2.
    destruct (tree_parent B root ps fs i n0 q Ht Hi Hn0 Hq) as (m0 & Hm0 & _).
    destruct (tw_in _ _ _ _ Ht i n0 q m0 Hi Hn0 Hq Hm0) as (k0 & Hk0 & Hc0). exists k0. split; [done|].
    unfold add_bares in Hm. destruct (decide (q = parent)) as [->|]; [|rewrite !lookup_insert_ne in Hm by congruence; congruence].
    rewrite lookup_insert_eq in Hm. injection Hm as <-. rewrite Hpn in Hm0. injection Hm0 as <-. simpl. rewrite lookup_insert_ne by congruence. done.
Qed.

Lemma add_total f : (forall x n, f (set_sn_children x n) = f n) -> node_total f B' (nw :: fs) = f nn + node_total f B fs.
Proof.
  intros Hc. unfold node_total. cbn [map]. rewrite zsum_cons. fold (node_total f B' fs). fold (node_total f B fs).
  unfold lock_weight at 1. rewrite add_at_new. f_equal. apply node_total_ext. intros i Hi. unfold lock_weight, add_bares. destruct (decide (i = parent)) as [->|].
  - rewrite lookup_insert_eq, Hpn. apply Hc.
  - pose proof (add_fresh i Hi). by rewrite !lookup_insert_ne by done.
Qed.

Lemma add_uuids top : uuids_ok B top -> uuids_ok B' top.
Proof.
  intros [H1 H]. assert (forall i w, uuid_of B' i = Some w -> uuid_of B i = Some w) as Hb.
  { intros i w. unfold uuid_of, add_bares. destruct (decide (i = parent)) as [->|]; [by rewrite lookup_insert_eq, Hpn|].
    rewrite lookup_insert_ne by done. destruct (decide (i = nw)) as [->|]; [rewrite lookup_insert_eq; done|by rewrite lookup_insert_ne]. }
  split; [done|]. intros i w Hi. destruct (H i w (Hb i w Hi)) as [? Hu]. split; [done|]. intros j Hj. by apply Hu, Hb.
Qed.

Lemma add_listable i : node_listable true B' i <-> (i = nw /\ tomb = false) \/ (i <> nw /\ node_listable true B i).
Proof.
  destruct (decide (i = nw)) as [->|Hi].
  - unfold node_listable. rewrite add_at_new. split; [intros (? & [= <-] & E); left; by destruct tomb|].
    intros [[_ ->]|[? _]]; [eexists; split; done|done].
  - unfold node_listable, add_bares. destruct (decide (i = parent)) as [->|].
    + rewrite lookup_insert_eq, Hpn. split.
      * intros (? & [= <-] & E). right. split; [done|]. exists pn. done.
      * intros [[? _]|[_ (? & [= <-] & E)]]; [done|]. eexists. split; [done|]. done.
    + rewrite !lookup_insert_ne by done. split; [intros H; right; done|]. intros [[? _]|[_ ?]]; done.
Qed.
End AddTree.

Lemma add_sizes_lists c fs ss a b d e : lists_wf c fs ss -> lists_wf (add_sizes a b d e c) fs ss.
Proof. intros []. by split. Qed.

(** [_add_new_node] under a node that has no child with that first page. *)
Lemma add_new_node_ok c fs ss parent pn key value tomb k : swa_cache_ok c fs ss -> parent ∈ root_node c :: fs -> bares c !! parent = Some pn ->
  child_key key (sc_page_size c) = Ok k -> sn_children pn !! k = None -> aligned (sc_page_size c) key -> 0 < key_len key ->
  zlen value = key_len key ->
  exists c', add_new_node parent key value tomb c = Ok (node_counter c, c')
    /\ swa_cache_ok c' (node_counter c :: fs) (if tomb then ss else node_counter c :: ss)
    /\ bares c' = add_bares (bares c) parent (node_counter c) pn (fresh_node parent key value tomb) k
    /\ root_node c' = root_node c /\ sc_page_size c' = sc_page_size c /\ sliding_window_size c' = sliding_window_size c
    /\ sc_disable c' = sc_disable c /\ token_to_kv_pool_allocator c' = token_to_kv_pool_allocator c /\ sc_is_eagle c' = sc_is_eagle c
    /\ node_counter c' = S (node_counter c).
Proof.
  intros [Hw Hu Hs] Hp Hpn Hk Hfree Hal Hlen Hv. pose proof Hw as [Hl Ht Hss Hf Hd [Hps HW]]. set (nw := node_counter c).
  assert (bares c !! nw = None) as Hnw by (destruct (bares c !! nw) eqn:E; [apply bares_in_dom, Hf in E; unfold nw in *; lia|done]).
  assert (nw ∉ dom (sc_nodes c)) as Hnd by (intros ?%Hf; unfold nw in *; lia).
  assert (nw ∉ dummies c) as Hd3 by (intros Hx%(dummies_dom c fs ss); done).
  assert (parent <> nw) as Hpw by congruence.
  set (f := fun n => set_swa_tombstone tomb (set_sn_kv key (Some value) (set_sn_parent (Some parent) n))).
  set (d := (sc_new_node f c).2). assert (same_frame c d) as Fd by done.
  assert (lists_wf d fs ss) as Wd by (destruct (lists_wf_new c fs ss nw (f (new_tree_node (access_counter c))) Hl Hnd); by split).
  assert (bares d = <[nw := fresh_node parent key value tomb]> (bares c)) as Bd by (unfold d; simpl; rewrite fmap_insert; done).
  destruct (set_wf d fs ss (set_sn_children (<[k := nw]> (sn_children pn))) parent pn Wd) as (c1 & E1 & W1 & F1 & B1 & N1);
    [auto with plain|rewrite Bd, lookup_insert_ne by done; done|by apply Hd|].
  assert (bares c1 = add_bares (bares c) parent nw pn (fresh_node parent key value tomb) k) as B1' by (rewrite B1, Bd; done).
  assert (same_frame c c1) as F1' by by etrans.
  assert (nw ∉ fs) as Hnf by (intros Hx; apply (lru_ok_dom _ _ _ _ (lw_full _ _ _ Hl)) in Hx; done).
  assert (nw ∉ ss) as Hns by (intros Hx; apply (lru_ok_dom _ _ _ _ (lw_swa _ _ _ Hl)) in Hx; done).
  assert (bares c1 !! nw = Some (fresh_node parent key value tomb)) as Lnw by (rewrite B1'; unfold add_bares; by rewrite lookup_insert_ne, lookup_insert_eq).
  destruct (full_insert_wf c1 fs ss nw W1 Hnf) as (c2 & E2 & W2 & F2 & B2 & N2); [by eapply bares_in_dom|by rewrite (same_frame_dummies _ _ F1')|].
  assert (same_frame c c2) as F2' by by etrans. set (c3 := add_sizes (zlen value) 0 0 0 c2).
  assert (exists c4, (if negb tomb then let* c := swa_insert_mru nw c3 in Ok (nw, add_sizes 0 (zlen value) 0 0 c) else Ok (nw, c3)) = Ok (nw, c4)
    /\ lists_wf c4 (nw :: fs) (if tomb then ss else nw :: ss) /\ bares c4 = bares c2 /\ node_counter c4 = node_counter c2
    /\ root_node c4 = root_node c /\ dummies c4 = dummies c /\ sc_page_size c4 = sc_page_size c /\ sliding_window_size c4 = sliding_window_size c
    /\ sc_disable c4 = sc_disable c /\ token_to_kv_pool_allocator c4 = token_to_kv_pool_allocator c /\ sc_is_eagle c4 = sc_is_eagle c /\ swa_uuid_counter c4 = swa_uuid_counter c
    /\ full_evictable_size_ c4 = full_evictable_size_ c + zlen value /\ swa_evictable_size_ c4 = swa_evictable_size_ c + (if tomb then 0 else zlen value)
    /\ full_protected_size_ c4 = full_protected_size_ c + 0 /\ swa_protected_size_ c4 = swa_protected_size_ c + 0) as (c4 & E4 & W4 & B4 & N4 & R4).
  { assert (lists_wf c3 (nw :: fs) ss) as W3 by by apply add_sizes_lists.
    pose proof F2' as (? & ? & ? & ? & ? & ? & ? & ? & ? & ? & ? & ?). destruct tomb.
    - exists c3. split; [done|]. split; [done|]. simpl. split_and!; try done; lia.
    - destruct (swa_insert_wf c3 _ _ nw W3 Hns) as (c4 & -> & W4 & F4 & B4 & N4);
        [change (bares c3) with (bares c2); rewrite B2; exists (fresh_node parent key value false); done|change (dummies c3) with (dummies c2); by rewrite (same_frame_dummies _ _ F2')|].
      cbn [negb res_bind]. eexists. split; [done|]. split; [by apply add_sizes_lists|]. destruct F4 as (X1 & X2 & X3 & X4 & X5 & X6 & X7 & X8 & X9 & X10 & X11 & X12).
      simpl in *. unfold dummies in *. simpl in *. rewrite X3, X4, X5, X6. split_and!; try congruence; try lia. }
  exists c4. split.
  - unfold add_new_node. rewrite (proj2 (Z.ltb_lt 0 _)) by done. cbn [py_assert res_bind].
    change (sc_new_node _ c) with (nw, d). cbv beta iota. change (sc_page_size d) with (sc_page_size c). rewrite Hk. cbn [res_bind].
    unfold set_child, sc_node. destruct (bares_inv d parent pn) as (p0 & Hp0 & Ep0); [rewrite Bd, lookup_insert_ne by done; done|].
    rewrite (deref_lookup _ _ _ Hp0). cbn [res_bind]. replace (sn_children p0) with (sn_children pn) by by rewrite <- Ep0.
    rewrite E1. cbn [res_bind]. rewrite E2. cbn [res_bind]. exact E4.
  - destruct R4 as (Rr & Rd & Rp & Rw & Rdis & Ral & Reg & Ru & S1 & S2 & S3 & S4). assert (bares c4 = add_bares (bares c) parent nw pn (fresh_node parent key value tomb) k) as B4' by congruence.
    assert (forall i, node_listable true (add_bares (bares c) parent nw pn (fresh_node parent key value tomb) k) i
      <-> (i = nw /\ tomb = false) \/ (i <> nw /\ node_listable true (bares c) i)) as Hli by (intros; eapply add_listable; eauto).
    assert (forall f, (forall x n, f (set_sn_children x n) = f n) ->
      node_total f (add_bares (bares c) parent nw pn (fresh_node parent key value tomb) k) (nw :: fs)
      = f (fresh_node parent key value tomb) + node_total f (bares c) fs) as Hto by (intros; eapply add_total; eauto).
    assert (node_counter c4 = S nw) as N4' by (rewrite N4, N2, N1; done). split; [|done]. split; [split| |].
    + done.
    + rewrite B4', Rr, Rp. eapply add_tree_wf; eauto.
    + intros i. rewrite B4', Hli, elem_of_cons.
      assert (i ∈ (if tomb then ss else nw :: ss) <-> (i = nw /\ tomb = false) \/ i ∈ ss) as -> by (destruct tomb; rewrite ?elem_of_cons; naive_solver).
      rewrite Hss. destruct (decide (i = nw)) as [->|]; [|naive_solver]. split; [naive_solver|]. intros [_ [[_ ->]|[? _]]]; [by left|done].
    + intros i Hi. rewrite N4'. assert (i ∈ dom (bares c4)) as Hi' by by rewrite dom_fmap_L. rewrite B4' in Hi'. unfold add_bares in Hi'.
      rewrite !dom_insert_L, !elem_of_union, !elem_of_singleton, dom_fmap_L in Hi'. apply bares_in_dom, Hf in Hpn. fold nw in Hpn.
      destruct Hi' as [->|[->|Hi']]; [lia|lia|apply Hf in Hi'; fold nw in Hi'; lia].
    + intros i Hi. rewrite Rd. rewrite Rr, !elem_of_cons in Hi. destruct Hi as [->|[->|Hi]]; [apply Hd; left|done|apply Hd; by right].
    + by rewrite Rp, Rw.
    + rewrite B4', Ru. eapply add_uuids; eauto.
    + apply sizes_view. apply sizes_view in Hs as (T1 & T2 & T3 & T4). rewrite B4', !Hto by done.
      unfold full_evictable, swa_evictable, full_protected, swa_protected, node_len in *. cbn -[node_total] in *. destruct tomb; split_and!; lia.
Qed.

(** ** The empty cache *)

Lemma sc_init_ok a ps W disable eagle : 1 <= ps -> 0 < W -> swa_cache_ok (sc_init a ps W disable eagle) [] [].
Proof.
  intros Hps HW. set (c := sc_init a ps W disable eagle).
  assert (forall i n, sc_nodes c !! i = Some n -> (i < 5)%nat /\ swa_uuid n = None) as Hall.
  { intros i n. unfold c, sc_init, sc_reset. simpl. rewrite !lookup_insert_Some, lookup_empty.
    intros [[<- <-]|[_ [[<- <-]|[_ [[<- <-]|[_ [[<- <-]|[_ [[<- <-]|[_ ?]]]]]]]]]]; [split; [lia|done]..|done]. }
  split; [split| |].
  - split; [split| |done].
    + done.
    + simpl. repeat constructor; set_solver.
    + reflexivity.
    + eexists. split; [reflexivity|]. done.
    + split; [done|simpl; repeat constructor; set_solver|reflexivity|]. eexists. split; [reflexivity|]. done.
  - split; [|by intros ? ?%not_elem_of_nil|by intros ? ?%not_elem_of_nil| |by intros ? ? ? ? ?%not_elem_of_nil].
    + split; [|by apply not_elem_of_nil]. eexists. split; [reflexivity|]. done.
    + intros i n k j ->%list_elem_of_singleton Hn. vm_compute in Hn. injection Hn as <-. done.
  - intros i. split; [by intros ?%not_elem_of_nil|]. by intros [?%not_elem_of_nil _].
  - intros i [n Hn]%elem_of_dom. apply Hall in Hn as [Hn _]. simpl. lia.
  - intros i ->%list_elem_of_singleton. vm_compute. set_solver.
  - done.
  - split; [done|]. intros i v. unfold uuid_of. rewrite lookup_fmap. destruct (sc_nodes c !! i) as [n|] eqn:E; [|done].
    simpl. destruct (Hall i n E) as [_ ->]. done.
  - done.
Qed.

(** ** Locking what was matched *)

Lemma uuids_view (s : store) top : uuids_ok (view <$> s) top -> uuids_ok s top.
Proof.
  assert (forall i, uuid_of (view <$> s) i = uuid_of s i) as H by (intros i; unfold uuid_of; rewrite lookup_fmap; by destruct (s !! i)).
  intros [H1 H2]. split; [done|]. intros i v Hi. rewrite <- H in Hi. destruct (H2 i v Hi) as [? Hu]. split; [done|].
  intros j Hj. apply Hu. by rewrite H.
Qed.

Lemma len_view (s : store) i : len_of (view <$> s) i = len_of s i.
Proof. unfold len_of, lock_weight. rewrite lookup_fmap. by destruct (s !! i). Qed.

Lemma window_view (s : store) W acc p : window (view <$> s) W acc p = window s W acc p.
Proof. revert acc. induction p as [|i p IH]; intros acc; simpl; [done|]. by rewrite len_view, IH. Qed.

Lemma window_live_view (s : store) W acc p : window_live (view <$> s) W acc p -> window_live s W acc p.
Proof.
  intros H i Hi. rewrite <- window_view in Hi. destruct (H i Hi) as (n & Hn & Ht). rewrite lookup_fmap in Hn.
  destruct (s !! i) as [m|]; [|done]. injection Hn as <-. by exists m.
Qed.

(** A node with an intact window can be locked. *)
Lemma lock_succeeds c fs ss x p : swa_cache_ok c fs ss -> sc_disable c = false -> path_to (bares c) (root_node c) (Some x) p ->
  (forall i, i ∈ p -> i ∈ fs) -> window_live (bares c) (sliding_window_size c) 0 p ->
  exists u c', swa_inc_lock_ref x c = Ok (u, c') /\ swa_sizes_ok c' fs
    /\ locked 1 (sc_nodes c) (sc_nodes c') p (window (sc_nodes c) (sliding_window_size c) 0 p).
Proof.
  intros [Hw Hu Hs] Hd Hp Hsub Hlive. apply (proj1 (path_view _ _ _ _)) in Hp. unfold swa_inc_lock_ref. rewrite Hd.
  destruct (inc_loop_ok p (S (base.size (sc_nodes c))) (Some x) 0 None c fs) as (u & c' & E & HL & _ & HS & _).
  - done.
  - intros i Hi. split; [by apply Hsub|]. destruct (tw_node _ _ _ _ (cw_tree _ _ _ Hw) i (Hsub i Hi)) as (n & v & Hn & Hv & _ & _ & _ & Hlk).
    apply bares_inv in Hn as (m & Hm & <-). exists m, v. done.
  - by apply window_live_view.
  - by apply uuids_view.
  - pose proof (path_to_length _ _ _ _ Hp). lia.
  - by eapply lists_nodup, cw_lists.
  - done.
  - eauto 10.
Qed.
