(* ===== verification/SwaEvict.v ===== *)
(** Eviction from the sliding-window radix cache: [evict] succeeds on every well-formed cache,
    gives back exactly the slots of the nodes it deletes, and stops early only when nothing
    evictable is left.  For token-wise allocators (page size 1). *)

From S2P Require Export SwaInsert.

(** * Deleting a leaf *)

(** The bare store after a leaf has left its parent. *)
Definition drop_bares (B : store) (q : nat) (m : SwaNode) (k : pyval) : store :=
  <[q := set_sn_children (delete k (sn_children m)) m]> B.

Section DropTree.
Context (B : store) (root : nat) (ps : Z) (fs : list nat) (Ht : tree_wf B root ps fs) (Hnd : NoDup fs).
Context (x q : nat) (n m : SwaNode) (k : pyval).
Context (Hx : x ∈ fs) (Hn : B !! x = Some n) (Hleaf : sn_children n = ∅).
Context (Hq : sn_parent n = Some q) (Hm : B !! q = Some m) (Hk : child_key (sn_key n) ps = Ok k).

Local Abbreviation B' := (drop_bares B q m k).
Local Abbreviation fs' := (filter (.≠ x) fs).

Lemma drop_old i o : B !! i = Some o -> exists o', B' !! i = Some o' /\ set_sn_children ∅ o' = set_sn_children ∅ o.
Proof.
  intros Hi. unfold drop_bares. destruct (decide (i = q)) as [->|]; [|rewrite lookup_insert_ne by done; eauto].
  rewrite lookup_insert_eq. rewrite Hm in Hi. injection Hi as <-. eauto.
Qed.

Lemma drop_same i o : B' !! i = Some o -> i <> q -> B !! i = Some o.
Proof. unfold drop_bares. intros Hi ?. by rewrite lookup_insert_ne in Hi. Qed.

Lemma drop_path y p : path_to B root y p -> path_to B' root y p.
Proof.
  induction 1 as [|i o p Hi Ho Hp IH]; [constructor|]. destruct (drop_old i o Ho) as (o' & Ho' & E).
  econstructor; [done|done|]. apply (f_equal sn_parent) in E. simpl in E. by rewrite E.
Qed.

(** A leaf is on no other node's path. *)
Lemma leaf_path_end y p : path_to B root y p -> (forall j, j ∈ p -> j ∈ fs) -> x ∈ p -> y = Some x.
Proof.
  induction 1 as [|i o p Hi Ho Hp IH]; intros Hpf Hxp; [by apply not_elem_of_nil in Hxp|].
  apply elem_of_cons in Hxp as [->|Hxp]; [done|]. assert (sn_parent o = Some x) as Ep by (apply IH; [intros; apply Hpf; by right|done]).
  destruct (tw_in _ _ _ _ Ht i o x n) as (k' & _ & Hc); [apply Hpf; left|done|done|done|]. by rewrite Hleaf in Hc.
Qed.

Lemma drop_parent_ne : q <> x.
Proof.
  destruct (tree_parent B root ps fs x n q Ht Hx Hn Hq) as (_ & _ & Hqi & p & Hp & Hnp & _). intros ->.
  apply elem_of_cons in Hqi as [->|_]; [by destruct (tw_root _ _ _ _ Ht)|]. inversion Hp; subst; [by destruct (tw_root _ _ _ _ Ht)|].
  apply Hnp. by left.
Qed.

Lemma drop_tree_wf : tree_wf B' root ps fs'.
Proof.
  pose proof drop_parent_ne as Hqx. split.
  - destruct (tw_root _ _ _ _ Ht) as [(rn & Hrn & Hrp) Hrf]. split; [|by intros [_ ?]%list_elem_of_filter].
    destruct (drop_old root rn Hrn) as (r' & Hr' & E). exists r'. split; [done|]. apply (f_equal sn_parent) in E. simpl in E. by rewrite E.
  - intros i [_ Hi]%list_elem_of_filter. destruct (tw_node _ _ _ _ Ht i Hi) as (o & v & Ho & H). destruct (drop_old i o Ho) as (o' & Ho' & E).
    exists o', v. pose proof (f_equal sn_value E) as X1. pose proof (f_equal sn_key E) as X2. pose proof (f_equal swa_lock_ref E) as X3.
    pose proof (f_equal full_lock_ref E) as X4. simpl in X1, X2, X3, X4. by rewrite X1, X2, X3, X4.
  - intros i [Hix Hi]%list_elem_of_filter. destruct (tw_path _ _ _ _ Ht i Hi) as (p & Hp & Hpf). exists p. split; [by apply drop_path|].
    intros j Hj. apply list_elem_of_filter. split; [|by apply Hpf]. intros ->.
    pose proof (leaf_path_end (Some i) p Hp Hpf Hj). congruence.
  - intros i o k' j Hi Ho Hc. assert (i ∈ root :: fs) as Hi' by (rewrite !elem_of_cons, list_elem_of_filter in *; tauto).
    assert (exists o0, B !! i = Some o0 /\ sn_children o0 !! k' = Some j /\ (i = q -> k' <> k)) as (o0 & Ho0 & Hc0 & Hkk).
    { unfold drop_bares in Ho. destruct (decide (i = q)) as [->|]; [|rewrite lookup_insert_ne in Ho by done; exists o; done].
      rewrite lookup_insert_eq in Ho. injection Ho as <-. simpl in Hc. apply lookup_delete_Some in Hc as [? ?]. exists m. split_and!; [done|done|congruence]. }
    destruct (tw_child _ _ _ _ Ht i o0 k' j Hi' Ho0 Hc0) as [Hj (mm & Hmm & Hpm & Hkm)]. split.
    + apply list_elem_of_filter. split; [|done]. intros ->. rewrite Hn in Hmm. injection Hmm as <-.
      rewrite Hq in Hpm. injection Hpm as <-. apply Hkk; [done|congruence].
    + destruct (drop_old j mm Hmm) as (o' & Ho' & E). exists o'. pose proof (f_equal sn_parent E) as X1. pose proof (f_equal sn_key E) as X2.
      simpl in X1, X2. by rewrite X1, X2.
  - intros i o q' m' [Hix Hi]%list_elem_of_filter Ho Hp' Hm'. destruct (tw_node _ _ _ _ Ht i Hi) as (o0 & _ & Ho0 & _).
    destruct (drop_old i o0 Ho0) as (o1 & Ho1 & E). rewrite Ho in Ho1. injection Ho1 as <-.
    pose proof (f_equal sn_parent E) as X1. pose proof (f_equal sn_key E) as X2. simpl in X1, X2. rewrite X1 in Hp'. rewrite X2.
    destruct (tree_parent B root ps fs i o0 q' Ht Hi Ho0 Hp') as (m0 & Hm0 & _).
    destruct (tw_in _ _ _ _ Ht i o0 q' m0 Hi Ho0 Hp' Hm0) as (k0 & Hk0 & Hc0). exists k0. split; [done|].
    unfold drop_bares in Hm'. destruct (decide (q' = q)) as [->|]; [|rewrite lookup_insert_ne in Hm' by done; congruence].
    rewrite lookup_insert_eq in Hm'. injection Hm' as <-. rewrite Hm in Hm0. injection Hm0 as <-. simpl. rewrite lookup_delete_ne; [done|].
    intros <-. destruct (tw_in _ _ _ _ Ht x n q m Hx Hn Hq Hm) as (k1 & Hk1 & Hc1). congruence.
Qed.

Lemma drop_perm : fs ≡ₚ x :: fs'.
Proof.
  pose proof Hx as (a & b & E)%list_elem_of_split. rewrite E at 2. rewrite filter_ne_middle by by rewrite <- E.
  rewrite E. by rewrite Permutation_middle.
Qed.

Lemma drop_total f : (forall y o, f (set_sn_children y o) = f o) -> node_total f B fs = f n + node_total f B' fs'.
Proof.
  intros Hf. rewrite (node_total_perm f B _ _ drop_perm). unfold node_total. cbn [map]. rewrite zsum_cons.
  fold (node_total f B fs'). fold (node_total f B' fs'). unfold lock_weight at 1. rewrite Hn. f_equal. symmetry. apply node_total_ext. intros i _.
  unfold lock_weight, drop_bares. destruct (decide (i = q)) as [->|]; [by rewrite lookup_insert_eq, Hm, Hf|by rewrite lookup_insert_ne].
Qed.

Lemma drop_uuids top : uuids_ok B top -> uuids_ok B' top.
Proof.
  assert (forall i, uuid_of B' i = uuid_of B i) as E.
  { intros i. unfold uuid_of, drop_bares. destruct (decide (i = q)) as [->|]; [by rewrite lookup_insert_eq, Hm|by rewrite lookup_insert_ne]. }
  intros [H1 H]. split; [done|]. intros i w Hi. rewrite E in Hi. destruct (H i w Hi) as [? Hu]. split; [done|]. intros j Hj. apply Hu. by rewrite <- E.
Qed.

Lemma drop_listable i : node_listable true B' i <-> node_listable true B i.
Proof.
  unfold node_listable, drop_bares. destruct (decide (i = q)) as [->|]; [|by rewrite lookup_insert_ne].
  rewrite lookup_insert_eq, Hm. split; intros (? & [= <-] & ?); eauto.
Qed.
End DropTree.

(** ** Attributes that are not structure *)

(** Everything of a node but its slots and whether its sliding-window side is gone. *)
Definition node_shape (n : SwaNode) : SwaNode := set_swa_tombstone false (set_sn_kv (sn_key n) None n).

Lemma shape_eq n n' : node_shape n' = node_shape n -> sn_parent n' = sn_parent n /\ sn_key n' = sn_key n /\ sn_children n' = sn_children n
  /\ full_lock_ref n' = full_lock_ref n /\ swa_lock_ref n' = swa_lock_ref n /\ swa_uuid n' = swa_uuid n.
Proof.
  intros E. pose proof (f_equal sn_parent E). pose proof (f_equal sn_key E). pose proof (f_equal sn_children E). pose proof (f_equal full_lock_ref E).
  pose proof (f_equal swa_lock_ref E). pose proof (f_equal swa_uuid E). done.
Qed.

Section Attr.
Context (B : store) (root : nat) (ps : Z) (fs : list nat) (x : nat) (n n' : SwaNode).
Context (Hx : B !! x = Some n) (Hsh : node_shape n' = node_shape n).
Local Abbreviation B' := (<[x := n']> B).

Lemma attr_to i o : B !! i = Some o -> exists o', B' !! i = Some o' /\ node_shape o' = node_shape o.
Proof.
  intros Ho. destruct (decide (i = x)) as [->|]; [|rewrite lookup_insert_ne by done; eauto].
  rewrite lookup_insert_eq. rewrite Hx in Ho. injection Ho as <-. eauto.
Qed.
Lemma attr_from i o' : B' !! i = Some o' -> exists o, B !! i = Some o /\ node_shape o' = node_shape o.
Proof. destruct (decide (i = x)) as [->|]; [rewrite lookup_insert_eq; intros [= <-]; eauto|rewrite lookup_insert_ne by done; eauto]. Qed.

Lemma attr_path y p : path_to B root y p -> path_to B' root y p.
Proof.
  induction 1 as [|i o p Hi Ho Hp IH]; [constructor|]. destruct (attr_to i o Ho) as (o' & Ho' & (E & _)%shape_eq). econstructor; [done|done|]. by rewrite E.
Qed.

Lemma attr_units i : node_units B' i = node_units B i.
Proof.
  unfold node_units. destruct (decide (i = x)) as [->|]; [|by rewrite lookup_insert_ne]. rewrite lookup_insert_eq, Hx.
  apply shape_eq in Hsh as (_ & E & _). by rewrite E.
Qed.

Lemma attr_uuids top : uuids_ok B top -> uuids_ok B' top.
Proof.
  assert (forall i, uuid_of B' i = uuid_of B i) as E.
  { intros i. unfold uuid_of. destruct (decide (i = x)) as [->|]; [|by rewrite lookup_insert_ne]. rewrite lookup_insert_eq, Hx. simpl.
    by apply shape_eq in Hsh as (_ & _ & _ & _ & _ & ?). }
  intros [H1 H]. split; [done|]. intros i w Hi. rewrite E in Hi. destruct (H i w Hi) as [? Hu]. split; [done|]. intros j Hj. apply Hu. by rewrite <- E.
Qed.

Lemma attr_tree_wf : tree_wf B root ps fs -> (exists v, sn_value n' = Some v /\ (x ∈ fs -> zlen v = key_len (sn_key n))) -> tree_wf B' root ps fs.
Proof.
  intros [[(rn & Hrn & Hrp) Hrf] H1 H2 H3 H4] (v' & Hv' & Hlen). split.
  - split; [|done]. destruct (attr_to root rn Hrn) as (r' & Hr' & (E & _)%shape_eq). exists r'. split; [done|]. by rewrite E.
  - intros i Hi. destruct (H1 i Hi) as (o & v & Ho & Hv & Hl & H). destruct (decide (i = x)) as [->|Hix].
    + rewrite Hx in Ho. injection Ho as <-. exists n', v'. rewrite lookup_insert_eq. apply shape_eq in Hsh as (_ & E2 & _ & E4 & E5 & _).
      rewrite E2, E4, E5. split; [done|]. split; [done|]. split; [by apply Hlen|done].
    + exists o, v. by rewrite lookup_insert_ne.
  - intros i Hi. destruct (H2 i Hi) as (p & Hp & Hpf). exists p. split; [by apply attr_path|done].
  - intros i o' k j Hi Ho' Hc. destruct (attr_from i o' Ho') as (o & Ho & (_ & _ & E & _)%shape_eq). rewrite E in Hc.
    destruct (H3 i o k j Hi Ho Hc) as [Hj (m & Hm & Hp & Hk)]. split; [done|]. destruct (attr_to j m Hm) as (m' & Hm' & (X1 & X2 & _)%shape_eq). exists m'.
    by rewrite X1, X2.
  - intros i o' q m' Hi Ho' Hq Hm'. destruct (attr_from i o' Ho') as (o & Ho & (X1 & X2 & _)%shape_eq). destruct (attr_from q m' Hm') as (m & Hm & (_ & _ & X3 & _)%shape_eq).
    rewrite X1 in Hq. rewrite X2, X3. by eapply H4.
Qed.
End Attr.

(** ** On a cache *)

(** What freeing leaves alone. *)
Definition pool_frame (a a' : swa_allocator) : Prop :=
  size_full a' = size_full a /\ size_swa a' = size_swa a /\ sa_not_in_free_group a' = sa_not_in_free_group a.

Lemma swa_free_frame a idx a' : swa_free a idx = Ok a' -> pool_frame a a'.
Proof.
  intros E. destruct (swa_free_sizes a idx a' E) as [? ?]. split; [done|]. split; [done|]. revert E. unfold swa_free. destruct (_ =? 0); [by intros [= <-]|].
  intros (b & Hb & (_ & _ & (_ & _ & [= <-])%res_bind_Ok)%res_bind_Ok)%res_bind_Ok. destruct (sa_not_in_free_group a) eqn:Hg; [|by injection Hb as <-].
  apply res_bind_Ok in Hb as (f & _ & (s & m & ->)%swa_free_swa_shape). done.
Qed.

Lemma swa_free_swa_frame a idx a' : swa_free_swa a idx = Ok a' -> pool_frame a a'.
Proof. by intros (s & m & ->)%swa_free_swa_shape. Qed.

(** What eviction leaves alone. *)
Definition evict_frame (c c' : SWARadixCache) : Prop :=
  root_node c' = root_node c /\ sc_page_size c' = sc_page_size c /\ sliding_window_size c' = sliding_window_size c
  /\ sc_disable c' = sc_disable c /\ dom (sc_nodes c') = dom (sc_nodes c)
  /\ pool_frame (token_to_kv_pool_allocator c) (token_to_kv_pool_allocator c').

#[export] Instance evict_frame_equiv : Equivalence evict_frame.
Proof. unfold evict_frame, pool_frame. split; [intros c; tauto|intros c d; intuition congruence|intros c d e; intuition congruence]. Qed.

Lemma add_sizes_twice a b d e a' b' d' e' c :
  add_sizes a b d e (add_sizes a' b' d' e' c) = add_sizes (a' + a) (b' + b) (d' + d) (e' + e) c.
Proof. unfold add_sizes. simpl. f_equal; lia. Qed.

(** [_delete_leaf] on a leaf that has left the lists. *)
Lemma delete_leaf_runs c fs ss x n q m k : lists_wf c fs ss -> bares c !! x = Some n -> sn_children n = ∅ -> sn_parent n = Some q ->
  bares c !! q = Some m -> child_key (sn_key n) (sc_page_size c) = Ok k -> sn_children m !! k = Some x -> q ∉ dummies c ->
  let L := key_len (sn_key n) in
  exists c1, lists_wf c1 fs ss /\ same_frame c c1 /\ bares c1 = drop_bares (bares c) q m k /\ node_counter c1 = node_counter c
    /\ swa_delete_leaf x c = Ok (add_sizes (- L) (if swa_tombstone n then 0 else - L) 0 0 c1)
    /\ (swa_tombstone n = true -> delete_tombstone_leaf x c = Ok (add_sizes (- L) 0 0 0 c1)).
Proof.
  intros Hl Hn Hleaf Hq Hm Hk Hc Hd L. destruct (bares_inv c x n Hn) as (n0 & Hn0 & En). destruct (bares_inv c q m Hm) as (m0 & Hm0 & Em).
  destruct (set_wf c fs ss (set_sn_children (delete k (sn_children m))) q m Hl) as (c1 & E1 & W1 & F1 & B1 & N1); [auto with plain|done|done|].
  exists c1. split; [done|]. split; [done|]. split; [done|]. split; [done|].
  assert (sn_children n0 = ∅ /\ sn_key n0 = sn_key n /\ sn_parent n0 = Some q /\ swa_tombstone n0 = swa_tombstone n) as (C1 & C2 & C3 & C4)
    by (rewrite <- En in *; done).
  assert (sn_children m0 = sn_children m) as C5 by by rewrite <- Em.
  assert (no_children n0 = true) as Hnc by (apply bool_decide_true; by rewrite C1, map_size_empty).
  assert (pop_child x n0 c = Ok c1) as Hpop.
  { unfold pop_child. rewrite C2, Hk. cbn [res_bind]. unfold sc_node. rewrite C3, (deref_lookup _ _ _ Hm0). cbn [res_bind].
    rewrite C5, E1. cbn [res_bind]. by rewrite bool_decide_true. }
  unfold swa_delete_leaf, delete_tombstone_leaf, sc_node. rewrite (deref_lookup _ _ _ Hn0). cbn [res_bind]. rewrite Hnc. cbn [py_assert res_bind].
  rewrite Hpop. cbn [res_bind]. rewrite C2, C4. fold L. split.
  - destruct (swa_tombstone n); cbn [negb]; [done|]. by rewrite add_sizes_twice, Z.add_0_r, Z.add_0_l.
  - intros ->. done.
Qed.

Section DropCache.
Context (c : SWARadixCache) (fs ss : list nat) (Hc : swa_cache_ok c fs ss) (x : nat) (n : SwaNode).
Context (Hx : x ∈ fs) (Hn : bares c !! x = Some n) (Hleaf : sn_children n = ∅) (Hlock : full_lock_ref n = 0).

(** The leaf leaves the lists and then the tree. *)
Lemma drop_leaf_ok : exists q m k c1 c2 c',
  sn_parent n = Some q /\ bares c !! q = Some m /\ child_key (sn_key n) (sc_page_size c) = Ok k /\ q ∈ root_node c :: fs
  /\ full_remove_node x c = Ok c1 /\ (if negb (swa_tombstone n) then swa_remove_node x c1 else Ok c1) = Ok c2
  /\ swa_delete_leaf x c2 = Ok c' /\ (swa_tombstone n = true -> delete_tombstone_leaf x c2 = Ok c')
  /\ swa_cache_ok c' (filter (.≠ x) fs) (filter (.≠ x) ss) /\ bares c' = drop_bares (bares c) q m k /\ evict_frame c c'
  /\ token_to_kv_pool_allocator c' = token_to_kv_pool_allocator c.
Proof.
  destruct Hc as [[Hl Ht Hs Hf Hd Hz] Hu Hsz]. pose proof (lists_nodup _ _ _ Hl) as Hnd.
  destruct (tw_node _ _ _ _ Ht x Hx) as (n0 & v & Hn0 & Hv & Hlen & Hal & Hpos & Hlk). rewrite Hn in Hn0. injection Hn0 as <-.
  destruct (sn_parent n) as [q|] eqn:Hq.
  2:{ destruct (tw_path _ _ _ _ Ht x Hx) as (p & Hp & _). inversion Hp as [E|? n2 ? ? Hn2 Hp2]; subst; [by destruct (tw_root _ _ _ _ Ht)|].
      rewrite Hn in Hn2. injection Hn2 as <-. rewrite Hq in Hp2. inversion Hp2. }
  destruct (tree_parent _ _ _ _ x n q Ht Hx Hn Hq) as (m & Hm & Hqi & _).
  destruct (tw_in _ _ _ _ Ht x n q m Hx Hn Hq Hm) as (k & Hk & Hck).
  destruct (full_remove_wf c fs ss x Hl Hx) as (c1 & E1 & W1 & F1 & B1 & N1); [apply Hd; by right|].
  assert (exists c2, (if negb (swa_tombstone n) then swa_remove_node x c1 else Ok c1) = Ok c2 /\ lists_wf c2 (filter (.≠ x) fs) (filter (.≠ x) ss)
    /\ same_frame c c2 /\ bares c2 = bares c /\ node_counter c2 = node_counter c) as (c2 & E2 & W2 & F2 & B2 & N2).
  { destruct (swa_tombstone n) eqn:Et; simpl.
    - exists c1. split_and!; [done| |done|done|done]. rewrite (filter_all (.≠ x) ss); [done|]. apply Forall_forall. intros i Hi ->.
      apply Hs in Hi as [_ (o & Ho & Hto)]. rewrite Hn in Ho. injection Ho as <-. by rewrite Et in Hto.
    - assert (node_listable true (bares c) x) as Hli by (exists n; by rewrite Et).
      destruct (swa_remove_wf c1 _ ss x W1) as (c2 & ? & ? & ? & ? & ?); [apply Hs; done|by rewrite B1|rewrite (same_frame_dummies _ _ F1); apply Hd; by right|].
      exists c2. split_and!; [done|done|by etrans|congruence|congruence]. }
  pose proof F2 as (Fr & Fd & S1 & S2 & S3 & S4 & Fu & Fa & Fp & FW & Fdi & _).
  destruct (delete_leaf_runs c2 _ _ x n q m k W2) as (c3 & W3 & F3 & B3 & N3 & E3 & E3'); [by rewrite B2|done|done|by rewrite B2|by rewrite Fp|done|rewrite Fd; apply Hd; done|].
  exists q, m, k, c1, c2, (add_sizes (- key_len (sn_key n)) (if swa_tombstone n then 0 else - key_len (sn_key n)) 0 0 c3).
  rewrite B2 in B3. assert (same_frame c c3) as Fc by by etrans. pose proof Fc as (Gr & Gd & T1 & T2 & T3 & T4 & Gu & Ga & Gp & GW & Gdi & _).
  split_and!; try done.
  - intros Et. rewrite E3' by done. by rewrite Et.
  - pose proof (drop_tree_wf _ _ _ fs Ht x q n m k Hx Hn Hleaf Hq Hm Hk) as Ht'. split; [split| |].
    + by apply add_sizes_lists.
    + simpl. by rewrite B3, Gr, Gp.
    + intros i. simpl. rewrite B3, drop_listable by done. rewrite !list_elem_of_filter, Hs. tauto.
    + intros i Hi. simpl in *. rewrite N3, N2. apply Hf. assert (i ∈ dom (bares c3)) as Hi' by by rewrite dom_fmap_L. rewrite B3 in Hi'. unfold drop_bares in Hi'.
      rewrite dom_insert_lookup_L in Hi' by (rewrite Hm; done). by rewrite dom_fmap_L in Hi'.
    + intros i Hi. change (dummies (add_sizes _ _ _ _ c3)) with (dummies c3). rewrite Gd. apply Hd. simpl in Hi. rewrite Gr in Hi.
      rewrite !elem_of_cons, list_elem_of_filter in *. tauto.
    + simpl. by rewrite Gp, GW.
    + simpl. rewrite B3, Gu. by apply drop_uuids.
    + apply sizes_view. simpl. rewrite B3, T1, T2, T3, T4. apply sizes_view in Hsz as (U1 & U2 & U3 & U4).
      assert (forall f, (forall y o, f (set_sn_children y o) = f o) ->
        node_total f (bares c) fs = f n + node_total f (drop_bares (bares c) q m k) (filter (.≠ x) fs)) as Hto by (intros; by apply drop_total).
      rewrite Hto in U1, U2, U3, U4 by done. assert (swa_lock_ref n = 0) as Hsl by lia.
      unfold full_evictable at 1 in U1. unfold swa_evictable at 1 in U2. unfold full_protected at 1 in U3. unfold swa_protected at 1 in U4.
      rewrite Hlock, Hsl in *. unfold node_len in U1, U2. rewrite Hv in U1, U2. simpl in U1, U2, U3, U4.
      destruct (swa_tombstone n); split_and!; lia.
  - unfold evict_frame, pool_frame. simpl. rewrite Ga. split_and!; try done. rewrite <- (dom_fmap_L view (sc_nodes c3)), B3. unfold drop_bares.
    rewrite dom_insert_lookup_L by (rewrite Hm; done). by rewrite dom_fmap_L.
Qed.
End DropCache.

(** * Eviction *)

(** ** Slots and tokens of the tree *)

Definition owned_slots (B : store) (fs : list nat) : list Z := concat (map (val_of B) fs).
Definition swa_len (n : SwaNode) : Z := if swa_tombstone n then 0 else node_len n.

(** A cache whose slots, together with those held elsewhere, are what the allocator handed out. *)
Definition ev_ok (held : list Z) (c : SWARadixCache) (fs ss : list nat) : Prop :=
  swa_cache_ok c fs ss /\ swa_inv (token_to_kv_pool_allocator c) (owned_slots (bares c) fs ++ held).

(** What eviction does to the nodes: those it removes were not locked, the others keep
    everything but their children and, when they had no sliding-window lock, that side. *)
Definition kept (B : store) (fs : list nat) (B' : store) (fs' : list nat) : Prop :=
  (forall i, i ∈ fs' -> i ∈ fs) /\ forall i n, i ∈ fs -> B !! i = Some n ->
    (i ∉ fs' -> full_lock_ref n = 0)
    /\ (i ∈ fs' -> exists n', B' !! i = Some n' /\ sn_key n' = sn_key n /\ sn_value n' = sn_value n /\ sn_parent n' = sn_parent n
          /\ full_lock_ref n' = full_lock_ref n /\ swa_lock_ref n' = swa_lock_ref n
          /\ (swa_lock_ref n <> 0 -> swa_tombstone n' = swa_tombstone n)).

Lemma kept_refl B fs : kept B fs B fs.
Proof. split; [done|]. intros i n Hi Hn. split; [done|]. intros _. exists n. done. Qed.

Lemma kept_trans B1 fs1 B2 fs2 B3 fs3 : kept B1 fs1 B2 fs2 -> kept B2 fs2 B3 fs3 -> kept B1 fs1 B3 fs3.
Proof.
  intros [S1 H1] [S2 H2]. split; [intros; by apply S1, S2|]. intros i n Hi Hn. destruct (H1 i n Hi Hn) as [K1 K2].
  destruct (decide (i ∈ fs2)) as [Hi2|Hi2].
  - destruct (K2 Hi2) as (n2 & Hn2 & E1 & E2 & E3 & E4 & E5 & E6). destruct (H2 i n2 Hi2 Hn2) as [L1 L2]. split; [intros Hi3; rewrite <- E4; by apply L1|].
    intros Hi3. destruct (L2 Hi3) as (n3 & Hn3 & F1 & F2 & F3 & F4 & F5 & F6). exists n3. split_and!; try congruence.
    intros Hl. rewrite F6, E6 by congruence. done.
  - split; [intros _; by apply K1|]. intros Hi3. destruct Hi2. by apply S2.
Qed.

(** One node whose sliding-window side may change, and children that may change. *)
Lemma kept_remove B fs B' x : (forall i n, i ∈ fs -> i <> x -> B !! i = Some n -> exists n', B' !! i = Some n' /\ set_sn_children ∅ n' = set_sn_children ∅ n) ->
  (forall n, B !! x = Some n -> full_lock_ref n = 0) -> kept B fs B' (filter (.≠ x) fs).
Proof.
  intros H Hx. split; [by intros i [_ ?]%list_elem_of_filter|]. intros i n Hi Hn. split.
  - intros Hni. destruct (decide (i = x)) as [->|]; [by apply Hx|]. destruct Hni. by apply list_elem_of_filter.
  - intros [Hix _]%list_elem_of_filter. destruct (H i n Hi Hix Hn) as (n' & Hn' & E). exists n'. split; [done|].
    pose proof (f_equal sn_key E). pose proof (f_equal sn_value E). pose proof (f_equal sn_parent E). pose proof (f_equal full_lock_ref E).
    pose proof (f_equal swa_lock_ref E). pose proof (f_equal swa_tombstone E). done.
Qed.

Lemma val_of_lookup B i n v : B !! i = Some n -> sn_value n = Some v -> val_of B i = v.
Proof. unfold val_of. intros -> ->. done. Qed.

Lemma tree_slots_perm B fs fs' : fs ≡ₚ fs' -> owned_slots B fs ≡ₚ owned_slots B fs'.
Proof. intros HP. unfold owned_slots. induction HP; cbn [map concat]; [done|by f_equiv|rewrite !app_assoc; by rewrite (Permutation_app_comm (val_of B y))|by etrans]. Qed.

Lemma tree_slots_ext B B' fs : (forall i, i ∈ fs -> val_of B' i = val_of B i) -> owned_slots B' fs = owned_slots B fs.
Proof. intros H. unfold owned_slots. f_equal. apply map_ext_in. intros i Hi. apply H. by apply list_elem_of_In. Qed.

Lemma drop_slots B fs x q n m k v : NoDup fs -> x ∈ fs -> B !! x = Some n -> sn_value n = Some v -> B !! q = Some m ->
  owned_slots B fs ≡ₚ v ++ owned_slots (drop_bares B q m k) (filter (.≠ x) fs).
Proof.
  intros Hnd Hx Hn Hv Hm. rewrite (tree_slots_perm B _ _ (drop_perm fs Hnd x Hx)). unfold owned_slots at 1. cbn [map concat].
  rewrite (val_of_lookup B x n v Hn Hv). f_equiv. fold (owned_slots B (filter (.≠ x) fs)).
  rewrite (tree_slots_ext B (drop_bares B q m k)); [done|]. intros i _. unfold val_of, drop_bares.
  destruct (decide (i = q)) as [->|]; [by rewrite lookup_insert_eq, Hm|by rewrite lookup_insert_ne].
Qed.

(** ** Calls of the allocator *)

Lemma with_allocator_ok a c fs ss : swa_cache_ok c fs ss -> swa_cache_ok (with_allocator a c) fs ss.
Proof. intros [[[] ? ? ? ? ?] ? ?]. split; [split; [by split|done..]|done|done]. Qed.

(** A leaf is freed, unlisted and deleted. *)
Lemma drop_step held c fs ss x n v : ev_ok held c fs ss -> x ∈ fs -> bares c !! x = Some n -> sn_children n = ∅ -> full_lock_ref n = 0 ->
  sn_value n = Some v ->
  exists a q m k c1 c2 c', sc_free v c = Ok (with_allocator a c)
    /\ sn_parent n = Some q /\ bares c !! q = Some m /\ q ∈ root_node c :: fs /\ sn_children m <> ∅
    /\ full_remove_node x (with_allocator a c) = Ok c1 /\ (if negb (swa_tombstone n) then swa_remove_node x c1 else Ok c1) = Ok c2
    /\ swa_delete_leaf x c2 = Ok c' /\ (swa_tombstone n = true -> delete_tombstone_leaf x c2 = Ok c')
    /\ ev_ok held c' (filter (.≠ x) fs) (filter (.≠ x) ss) /\ bares c' = drop_bares (bares c) q m k /\ evict_frame c c'
    /\ kept (bares c) fs (bares c') (filter (.≠ x) fs)
    /\ node_total node_len (bares c) fs = zlen v + node_total node_len (bares c') (filter (.≠ x) fs)
    /\ node_total swa_len (bares c) fs = swa_len n + node_total swa_len (bares c') (filter (.≠ x) fs).
Proof.
  intros [Hc Hi] Hx Hn Hleaf Hlk Hv. pose proof (lists_nodup _ _ _ (cw_lists _ _ _ (ck_wf _ _ _ Hc))) as Hnd.
  pose proof (cw_tree _ _ _ (ck_wf _ _ _ Hc)) as Ht.
  destruct (sn_parent n) as [q0|] eqn:Eq0.
  2:{ destruct (drop_leaf_ok c fs ss Hc x n Hx Hn Hleaf Hlk) as (? & ? & ? & ? & ? & ? & ? & _). congruence. }
  destruct (tree_parent _ _ _ _ x n q0 Ht Hx Hn Eq0) as (m0 & Hm0 & _).
  destruct (swa_free_ok _ _ v (owned_slots (drop_bares (bares c) q0 m0 (VInt 0)) (filter (.≠ x) fs) ++ held) Hi) as (a & Ea & Ha).
  { rewrite app_assoc. f_equiv. by apply (drop_slots _ fs x q0 n m0 (VInt 0) v). }
  pose proof (with_allocator_ok a c fs ss Hc) as Hc1.
  destruct (drop_leaf_ok _ fs ss Hc1 x n Hx Hn Hleaf Hlk) as (q & m & k & c1 & c2 & c' & Hq & Hm & Hk & Hqi & E1 & E2 & E3 & E4 & Hc' & B' & Fr & Al).
  change (bares (with_allocator a c)) with (bares c) in *. change (root_node (with_allocator a c)) with (root_node c) in *.
  rewrite Hq in Eq0. injection Eq0 as <-. rewrite Hm in Hm0. injection Hm0 as <-.
  destruct (tw_in _ _ _ _ Ht x n q m Hx Hn Hq Hm) as (k1 & Hk1 & Hck).
  exists a, q, m, k, c1, c2, c'. split_and!; try done.
  - unfold sc_free. by rewrite Ea.
  - intros E. by rewrite E in Hck.
  - split; [done|]. rewrite Al, B'. simpl. rewrite (tree_slots_ext (drop_bares (bares c) q m (VInt 0))); [done|]. intros i _.
    unfold val_of, drop_bares. destruct (decide (i = q)) as [->|]; [by rewrite !lookup_insert_eq|by rewrite !lookup_insert_ne].
  - apply swa_free_frame in Ea. destruct Fr as (? & ? & ? & ? & ? & _). unfold evict_frame. rewrite Al. done.
  - rewrite B'. apply kept_remove; [intros i o _ _ Ho; by eapply drop_old|intros o Ho; congruence].
  - rewrite B'. rewrite (drop_total _ fs Hnd x q n m k Hx Hn Hm node_len) by done. f_equal. unfold node_len. by rewrite Hv.
  - rewrite B'. by rewrite (drop_total _ fs Hnd x q n m k Hx Hn Hm swa_len).
Qed.

(** ** Tombstones that became leaves *)

Definition has_children (B : store) (i : nat) : Prop := exists o, B !! i = Some o /\ sn_children o <> ∅.

Lemma drop_has_children B q m k i : B !! q = Some m -> sn_children m <> ∅ -> has_children (drop_bares B q m k) i -> has_children B i.
Proof.
  intros Hm Hne (o & Ho & Hc). destruct (decide (i = q)) as [->|]; [by exists m|]. unfold drop_bares in Ho. rewrite lookup_insert_ne in Ho by done. by exists o.
Qed.

Lemma no_children_iff n : no_children n = true <-> sn_children n = ∅.
Proof. unfold no_children. rewrite bool_decide_eq_true. apply map_size_empty_iff. Qed.

Lemma filter_notin_nil (l : list nat) : filter (.∉ []) l = l.
Proof. apply filter_all, Forall_forall. intros i _. apply not_elem_of_nil. Qed.

Lemma filter_notin_step (q : nat) (D l : list nat) : filter (.∉ q :: D) l = filter (.∉ D) (filter (.≠ q) l).
Proof. rewrite list_filter_filter. apply list_filter_iff. intros i. rewrite not_elem_of_cons. tauto. Qed.

Lemma sc_node_bares c i b : bares c !! i = Some b -> exists n, sc_node c (Some i) = Ok (i, n) /\ view n = b.
Proof. intros (n & Hn & E)%bares_inv. exists n. split; [|done]. unfold sc_node. by rewrite (deref_lookup _ _ _ Hn). Qed.

(** [D] are the deleted nodes, [q'] the parent the loop stops at. *)
Record tomb_done (held : list Z) (c : SWARadixCache) (fs ss : list nat) (q : nat) (c' : SWARadixCache) (D : list nat) (node' q' : nat) (lf : Z) : Prop := {
  td_ok : ev_ok held c' (filter (.∉ D) fs) ss;
  td_frame : evict_frame c c';
  td_node : exists nn' m', bares c' !! node' = Some nn' /\ sn_parent nn' = Some q' /\ bares c' !! q' = Some m';
  td_kept : kept (bares c) fs (bares c') (filter (.∉ D) fs);
  td_full : node_total node_len (bares c) fs = lf + node_total node_len (bares c') (filter (.∉ D) fs);
  td_swa : node_total swa_len (bares c) fs = node_total swa_len (bares c') (filter (.∉ D) fs);
  td_inner : forall i, i ∈ D -> i = q \/ has_children (bares c) i;
  td_stop : (D = [] /\ q' = q) \/ (q ∈ D /\ has_children (bares c) q');
  td_same : forall i, i ∈ filter (.∉ D) fs -> i <> q' -> bares c' !! i = bares c !! i
}.

Lemma tomb_done_here held c fs ss node nn q m : ev_ok held c fs ss -> bares c !! node = Some nn -> sn_parent nn = Some q -> bares c !! q = Some m ->
  tomb_done held c fs ss q c [] node q 0.
Proof.
  intros. split; rewrite ?filter_notin_nil; [done|done|by exists nn, m|apply kept_refl|done|done|by intros ? ?%not_elem_of_nil|by left|done].
Qed.

Lemma tombstone_loop_ok held p : forall fuel node nn q e c fs ss, ev_ok held c fs ss -> bares c !! node = Some nn -> sn_parent nn = Some q ->
  q ∈ root_node c :: fs -> path_to (bares c) (root_node c) (Some q) p -> (forall j, j ∈ p -> j ∈ fs) -> (length p < fuel)%nat ->
  exists node' q' lf c' D, delete_tombstone_loop fuel node e c = Ok (node', e + lf, c') /\ tomb_done held c fs ss q c' D node' q' lf /\ 0 <= lf.
Proof.
  induction p as [|q0 p IH]; intros fuel node nn q e c fs ss Hev Hnn Hq Hqi Hp Hpf Hfu; (destruct fuel as [|fuel]; [simpl in Hfu; lia|]);
    destruct (sc_node_bares c node nn Hnn) as (n0 & E0 & V0); cbn [delete_tombstone_loop]; rewrite E0; cbn [res_bind];
    (assert (sn_parent n0 = Some q) as -> by by rewrite <- V0 in Hq);
    pose proof (proj1 Hev) as Hc; pose proof (cw_tree _ _ _ (ck_wf _ _ _ Hc)) as Ht;
    (assert (exists m, bares c !! q = Some m) as [m Hm] by (apply elem_of_cons in Hqi as [->|Hqf];
      [destruct (tw_root _ _ _ _ Ht) as [(? & ? & _) _]|destruct (tw_node _ _ _ _ Ht q Hqf) as (? & ? & ? & _)]; eauto));
    destruct (sc_node_bares c q m Hm) as (m0 & E1 & V1); rewrite E1; cbn [res_bind];
    (assert (exists node' q' lf c' D, Ok (node, e, c) = Ok (node', e + lf, c') /\ tomb_done held c fs ss q c' D node' q' lf /\ 0 <= lf) as Hstop
      by (exists node, q, 0, c, []; split; [by rewrite Z.add_0_r|]; split; [by eapply tomb_done_here|done])).
  { inversion Hp; subst. rewrite (bool_decide_true (root_node c = root_node c)) by done. by rewrite andb_false_r. }
  destruct (swa_tombstone m0 && no_children m0 && negb (bool_decide (q = root_node c)) && negb (0 <? full_lock_ref m0)) eqn:Econd; [|exact Hstop].
  apply andb_true_iff in Econd as [Econd Hl]. apply andb_true_iff in Econd as [Econd Hr]. apply andb_true_iff in Econd as [Hto Hnc].
  apply negb_true_iff, bool_decide_eq_false in Hr. apply negb_true_iff, Z.ltb_ge in Hl.
  apply elem_of_cons in Hqi as [?|Hqf]; [done|]. destruct (tw_node _ _ _ _ Ht q Hqf) as (m1 & v & Hm1 & Hv & _ & _ & _ & Hlk). rewrite Hm in Hm1. injection Hm1 as <-.
  assert (full_lock_ref m0 = full_lock_ref m /\ swa_lock_ref m0 = swa_lock_ref m /\ sn_value m0 = sn_value m /\ swa_tombstone m = true /\ sn_children m = ∅)
    as (X1 & X2 & X3 & X4 & X5) by (rewrite <- V1; split_and!; [done..|by apply no_children_iff]).
  rewrite X1 in Hl. rewrite X2. replace (swa_lock_ref m =? 0) with true by (symmetry; apply Z.eqb_eq; lia). cbn [py_assert res_bind].
  unfold sn_tensor. rewrite X3, Hv. cbn [res_bind].
  destruct (drop_step held c fs ss q m v) as (a & q1 & m1 & k & c1 & c2 & c' & Ea & Hq1 & Hm1 & Hq1i & Hne & R1 & R2 & _ & R4 & Hev' & B' & Fr & K1 & T1 & T2);
    [done|done|done|done|lia|done|]. rewrite X4 in R2. injection R2 as <-.
  rewrite Ea. cbn [res_bind]. rewrite R1. cbn [res_bind]. rewrite R4 by done. cbn [res_bind].
  assert (filter (.≠ q) ss = ss) as Ess.
  { apply filter_all, Forall_forall. intros i Hi ->. apply (cw_swa _ _ _ (ck_wf _ _ _ Hc)) in Hi as [_ (o & Ho & Hto2)].
    rewrite Hm in Ho. injection Ho as <-. by rewrite X4 in Hto2. }
  rewrite Ess in Hev'. pose proof (path_to_nodup _ _ _ _ Hp) as Hnd. inversion Hp as [|? mm ? Hqr Hmm Hp1]; subst q0.
  rewrite Hm in Hmm. injection Hmm as <-. rewrite Hq1 in Hp1. apply NoDup_cons in Hnd as [Hqp _]. pose proof Fr as (Er & _).
  assert (q1 <> q) as Hqq by (eapply (drop_parent_ne _ _ _ _ Ht q q1 m); eauto).
  destruct (IH fuel q m q1 (e + zlen v) c' (filter (.≠ q) fs) ss) as (node' & q' & lf & cf & D & E & [D1 D2 D3 D4 D5 D6 D7 D8 D9] & Hlf).
  - done.
  - rewrite B'. unfold drop_bares. by rewrite lookup_insert_ne.
  - done.
  - rewrite Er. rewrite elem_of_cons, list_elem_of_filter in *. naive_solver.
  - rewrite B', Er. by apply drop_path.
  - intros j Hj. apply list_elem_of_filter. split; [by intros ->|]. apply Hpf. by right.
  - simpl in Hfu. lia.
  - exists node', q', (zlen v + lf), cf, (q :: D). split; [by rewrite Z.add_assoc|]. split; [|pose proof (zlen_nonneg v); lia].
    assert (forall i, has_children (bares c') i -> has_children (bares c) i) as Hhc by (rewrite B'; intros j; by apply drop_has_children).
    assert (swa_len m = 0) as Hsl by (unfold swa_len; by rewrite X4).
    split; rewrite ?filter_notin_step; [done|etrans; [|exact D2]; done|done|by eapply kept_trans|lia|lia| | |].
    + intros j [->|Hi]%elem_of_cons; [by left|]. right. destruct (D7 j Hi) as [->|Hi2]; [by exists m1|by apply Hhc].
    + right. split; [left|]. destruct D8 as [[_ ->]|[_ Hi2]]; [by exists m1|by apply Hhc].
    + intros j Hi Hiq. rewrite (D9 j Hi Hiq), B'. unfold drop_bares. apply lookup_insert_ne. intros <-.
      destruct D8 as [[_ ->]|[Hin _]]; [done|]. by apply list_elem_of_filter in Hi as [? _].
Qed.
