(* ===== verification/SwaEvictLoop.v ===== *)
(** The two loops of [evict] of the sliding-window radix cache. *)

From S2P Require Export SwaEvict.

(** ** Candidates *)

Lemma unlocked_leaf_view swa (s : store) i : unlocked_leaf swa (view <$> s) i <-> unlocked_leaf swa s i.
Proof.
  unfold unlocked_leaf. rewrite lookup_fmap. split.
  - intros (n & Hn & H). destruct (s !! i) as [m|]; [|done]. injection Hn as <-. exists m. by destruct swa.
  - intros (n & -> & H). exists (view n). by destruct swa.
Qed.
Lemma unlocked_view swa (s : store) i : unlocked swa (view <$> s) i <-> unlocked swa s i.
Proof.
  unfold unlocked. rewrite lookup_fmap. split.
  - intros (n & Hn & H). destruct (s !! i) as [m|]; [|done]. injection Hn as <-. exists m. by destruct swa.
  - intros (n & -> & H). exists (view n). by destruct swa.
Qed.

Definition full_cands (c : SWARadixCache) (fs : list nat) : list nat := filter (unlocked_leaf false (bares c)) fs.
Definition swa_cands (c : SWARadixCache) (ss : list nat) : list nat := filter (unlocked true (bares c)) ss.

Lemma filter_on (P Q : nat -> Prop) `{!forall i, Decision (P i), !forall i, Decision (Q i)} (D l : list nat) :
  (forall i, i ∈ l -> P i /\ i ∉ D <-> Q i) -> filter P (filter (.∉ D) l) = filter Q l.
Proof.
  intros Hpq. rewrite list_filter_filter. induction l as [|i l IH]; [done|].
  assert (filter (fun j => P j /\ j ∉ D) l = filter Q l) as IH' by (apply IH; intros j Hj; apply Hpq; by right).
  destruct (decide (Q i)) as [Hq|Hq].
  - rewrite (filter_cons_True Q), filter_cons_True by (done || by apply Hpq; [left|]). by rewrite IH'.
  - rewrite (filter_cons_False Q), filter_cons_False; [done| |done]. intros Hp. apply Hq, Hpq; [left|done].
Qed.

Lemma last_filter_split (P : nat -> Prop) `{!forall i, Decision (P i)} (l : list nat) x : last (filter P l) = Some x ->
  exists a b, l = a ++ x :: b /\ P x /\ filter P b = [].
Proof.
  induction l as [|i l IH] using rev_ind; [done|]. rewrite filter_app. destruct (decide (P i)) as [Hi|Hi].
  - rewrite filter_cons_True, filter_nil, last_snoc by done. intros [= ->]. by exists l, [].
  - rewrite filter_cons_False, filter_nil, app_nil_r by done. intros (a & b & -> & Hx & Hb)%IH. exists a, (b ++ [i]).
    rewrite <- app_assoc. split; [done|]. split; [done|]. by rewrite filter_app, Hb, filter_cons_False.
Qed.

Lemma full_prev c fs ss a x b : lists_wf c fs ss -> fs = a ++ x :: b ->
  get_prev_leaf_no_lock (full_lru_list c) x true (sc_nodes c) = Ok (last (full_cands c a)).
Proof.
  intros [Hf _ [Kf _]] E. rewrite (get_prev_leaf_no_lock_ok _ _ _ Hf a x (b ++ [lru_tail (full_lru_list c)]));
    [|intros _; rewrite E; set_solver|by rewrite E, <- app_assoc].
  rewrite Kf. unfold full_cands. do 2 f_equal. apply list_filter_iff. intros i. symmetry. apply unlocked_leaf_view.
Qed.
Lemma full_lru c fs ss : lists_wf c fs ss -> get_leaf_lru_no_lock (full_lru_list c) (sc_nodes c) = Ok (last (full_cands c fs)).
Proof.
  intros [Hf _ [Kf _]]. rewrite (get_leaf_lru_no_lock_ok _ _ _ Hf), Kf. unfold full_cands. do 2 f_equal. apply list_filter_iff.
  intros i. symmetry. apply unlocked_leaf_view.
Qed.
Lemma swa_prev c fs ss a x b : lists_wf c fs ss -> ss = a ++ x :: b ->
  get_prev_no_lock (swa_lru_list c) x true (sc_nodes c) = Ok (last (swa_cands c a)).
Proof.
  intros [_ Hs [_ Ks]] E. rewrite (get_prev_no_lock_ok _ _ _ Hs a x (b ++ [lru_tail (swa_lru_list c)]));
    [|intros _; rewrite E; set_solver|by rewrite E, <- app_assoc].
  rewrite Ks. unfold swa_cands. do 2 f_equal. apply list_filter_iff. intros i. symmetry. apply unlocked_view.
Qed.
Lemma swa_lru c fs ss : lists_wf c fs ss -> get_lru_no_lock (swa_lru_list c) (sc_nodes c) = Ok (last (swa_cands c ss)).
Proof.
  intros [_ Hs [_ Ks]]. rewrite (get_lru_no_lock_ok _ _ _ Hs), Ks. unfold swa_cands. do 2 f_equal. apply list_filter_iff.
  intros i. symmetry. apply unlocked_view.
Qed.

Lemma in_full_list c fs ss x : lists_wf c fs ss -> x ∈ fs -> in_list (full_lru_list c) (Some x) = true.
Proof. intros [Hf _ _] Hx. apply bool_decide_true. by apply (cache_mem _ _ _ x Hf). Qed.
Lemma in_swa_list c fs ss x : lists_wf c fs ss -> x ∈ ss -> in_list (swa_lru_list c) (Some x) = true.
Proof. intros [_ Hs _] Hx. apply bool_decide_true. by apply (cache_mem _ _ _ x Hs). Qed.

(** ** Deleting a leaf with the tombstones above it *)

Section LeafStep.
Context (held : list Z) (c : SWARadixCache) (fs ss a b : list nat) (x : nat) (n : SwaNode) (v : list Z).
Context (Hev : ev_ok held c fs ss) (Efs : fs = a ++ x :: b) (Hn : bares c !! x = Some n) (Hv : sn_value n = Some v).
Context (Hleaf : sn_children n = ∅) (Hlk : full_lock_ref n = 0).

Lemma leaf_step : exists al c1 c2 c3 j lf c' fs',
  sc_free v c = Ok (with_allocator al c) /\ full_remove_node x (with_allocator al c) = Ok c1
  /\ (if negb (swa_tombstone n) then swa_remove_node x c1 else Ok c1) = Ok c2 /\ swa_delete_leaf x c2 = Ok c3
  /\ iteratively_delete_tombstone_leaf x c3 = Ok (j, lf, c') /\ 0 <= lf
  /\ ev_ok held c' fs' (filter (.≠ x) ss) /\ evict_frame c c' /\ kept (bares c) fs (bares c') fs' /\ (length fs' < length fs)%nat
  /\ node_total node_len (bares c) fs = zlen v + lf + node_total node_len (bares c') fs'
  /\ node_total swa_len (bares c) fs = swa_len n + node_total swa_len (bares c') fs'
  /\ (forall i, i ∈ ss -> i <> x -> unlocked true (bares c') i <-> unlocked true (bares c) i)
  /\ exists nn q' m', bares c' !! j = Some nn /\ sn_parent nn = Some q' /\ bares c' !! q' = Some m'
       /\ (sn_children m' <> ∅ -> full_cands c' fs' = full_cands c (a ++ b)).
Proof.
  pose proof (proj1 Hev) as Hc. pose proof (ck_wf _ _ _ Hc) as Hw. pose proof (cw_tree _ _ _ Hw) as Ht. pose proof (lists_nodup _ _ _ (cw_lists _ _ _ Hw)) as Hnd.
  assert (x ∈ fs) as Hx by (rewrite Efs; set_solver).
  destruct (drop_step held c fs ss x n v Hev Hx Hn Hleaf Hlk Hv) as (al & q & m & k & c1 & c2 & c3 & Ea & Hq & Hm & Hqi & Hne & R1 & R2 & R3 & _ & Hev3 & B3 & F3 & K3 & T1 & T2).
  assert (q <> x) as Hqx by (eapply (drop_parent_ne _ _ _ _ Ht x q n); eauto).
  destruct (tree_parent _ _ _ _ x n q Ht Hx Hn Hq) as (_ & _ & _ & p & Hp & Hxp & Hpf). pose proof F3 as (Er & _ & _ & _ & Edom & _).
  assert (filter (.≠ x) fs = a ++ b) as Eab by (rewrite Efs; apply filter_ne_middle; by rewrite <- Efs).
  destruct (tombstone_loop_ok held p (S (base.size (sc_nodes c3))) x n q 0 c3 (filter (.≠ x) fs) (filter (.≠ x) ss)) as (j & q' & lf & c' & D & E & [D1 D2 D3 D4 D5 D6 D7 D8 D9] & Hlf).
  { done. } { rewrite B3. unfold drop_bares. by rewrite lookup_insert_ne. } { done. }
  { rewrite Er. rewrite elem_of_cons, list_elem_of_filter in *. naive_solver. }
  { rewrite B3, Er. by apply drop_path. } { intros i Hi. apply list_elem_of_filter. split; [by intros ->|by apply Hpf]. }
  { apply (proj1 (path_view _ _ _ _)) in Hp. apply path_to_length in Hp. rewrite <- !size_dom, Edom, size_dom in *. lia. }
  exists al, c1, c2, c3, j, lf, c', (filter (.∉ D) (filter (.≠ x) fs)). split_and!; try done.
  - by etrans.
  - by eapply kept_trans.
  - rewrite Eab, Efs. pose proof (length_filter (.∉ D) (a ++ b)). rewrite !length_app in *. simpl. lia.
  - lia.
  - lia.
  - intros i Hi Hix. apply (cw_swa _ _ _ Hw) in Hi as [Hif (o & Ho & Hto)].
    assert (kept (bares c) fs (bares c') (filter (.∉ D) (filter (.≠ x) fs))) as [_ K] by by eapply kept_trans.
    assert (i ∈ filter (.∉ D) (filter (.≠ x) fs)) as Hi'.
    { pose proof (proj1 (cw_swa _ _ _ (ck_wf _ _ _ (proj1 D1)) i)) as H. apply H. apply list_elem_of_filter. split; [done|]. apply (cw_swa _ _ _ Hw). split; [done|by exists o]. }
    destruct (K i o Hif Ho) as [_ K2]. destruct (K2 Hi') as (o' & Ho' & _ & _ & _ & _ & El & _). unfold unlocked. rewrite Ho, Ho'.
    split; intros (? & [= <-] & ?); eexists; (split; [done|]); simpl in *; lia.
  - destruct D3 as (nn & m' & N1 & N2 & N3). exists nn, q', m'. split_and!; try done. intros Hm'. rewrite Eab. unfold full_cands. apply filter_on.
    assert (forall i, has_children (bares c3) i -> has_children (bares c) i) as Hhc by (rewrite B3; intros i; by apply drop_has_children).
    assert (has_children (bares c) q) as Hcq by by exists m. rewrite Eab in D9.
    assert (has_children (bares c) q') as Hcq' by (destruct D8 as [[_ ->]|[_ ?]]; [done|by apply Hhc]).
    assert (forall i, unlocked_leaf false (bares c) i -> ~ has_children (bares c) i) as Hul by (intros i (o & Ho & _ & Hco) (o' & Ho' & Hne'); congruence).
    assert (forall i, i ∈ a ++ b -> i ∉ D -> i <> q' -> bares c' !! i = bares c !! i) as Hsame.
    { intros i Hi HD Hiq. rewrite D9 by (done || by apply list_elem_of_filter). rewrite B3. unfold drop_bares. apply lookup_insert_ne. intros <-.
      destruct D8 as [[_ ->]|[? _]]; done. }
    intros i Hi. split.
    + intros [(o & Ho & Hl & Hco) HD]. destruct (decide (i = q')) as [->|Hiq]; [congruence|]. exists o. by rewrite <- Hsame.
    + intros Hu. pose proof (Hul i Hu) as Hnc. assert (i ∉ D) as HD by (intros [->|?]%D7; [done|by apply Hnc, Hhc]).
      split; [|done]. destruct Hu as (o & Ho & ?). exists o. rewrite Hsame; [done|done|done|]. by intros ->.
Qed.
End LeafStep.

(** ** The first loop *)

Definition evicts_to (held : list Z) (c : SWARadixCache) (fs : list nat) (c' : SWARadixCache) (fs' ss' : list nat) : Prop :=
  ev_ok held c' fs' ss' /\ evict_frame c c' /\ kept (bares c) fs (bares c') fs'.
Definition freed (f : SwaNode -> Z) (c : SWARadixCache) (fs : list nat) (c' : SWARadixCache) (fs' : list nat) : Z :=
  node_total f (bares c) fs - node_total f (bares c') fs'.

Lemma evicted_trans held c fs c1 fs1 ss1 c2 fs2 ss2 : evicts_to held c fs c1 fs1 ss1 -> evicts_to held c1 fs1 c2 fs2 ss2 -> evicts_to held c fs c2 fs2 ss2.
Proof. intros (_ & F1 & K1) (O2 & F2 & K2). split; [done|]. split; [by etrans|by eapply kept_trans]. Qed.

Lemma evict_full_ok held N : forall fuel c fs ss fe se, ev_ok held c fs ss -> (length fs < fuel)%nat ->
  exists fe' se' c' fs' ss', evict_full_loop fuel (last (full_cands c fs)) N fe se c = Ok (fe', se', c') /\ evicts_to held c fs c' fs' ss'
    /\ (fe <= fe' /\ se <= se') /\ fe' = fe + freed node_len c fs c' fs' /\ se' = se + freed swa_len c fs c' fs' /\ (N <= fe' \/ full_cands c' fs' = []).
Proof.
  induction fuel as [|fuel IH]; intros c fs ss fe se Hev Hf; [lia|]. pose proof (proj1 Hev) as Hc. pose proof (ck_wf _ _ _ Hc) as Hw.
  pose proof (cw_tree _ _ _ Hw) as Ht. pose proof (cw_lists _ _ _ Hw) as Hl.
  assert (evicts_to held c fs c fs ss) as Hrefl by (split; [done|]; split; [done|apply kept_refl]).
  cbn [evict_full_loop]. destruct (last (full_cands c fs)) as [x|] eqn:Elast.
  2:{ exists fe, se, c, fs, ss. unfold freed. split; [done|]. split; [done|]. split; [lia|]. split; [lia|]. split; [lia|]. right. by apply last_None. }
  destruct (last_filter_split _ _ _ Elast) as (a & b & Efs & (n & Hn & Hlk & Hleaf) & Hb). assert (x ∈ fs) as Hx by (rewrite Efs; set_solver).
  rewrite (in_full_list c fs ss x Hl Hx), andb_true_r. destruct (Z.ltb_spec fe N) as [Hlt|Hge].
  2:{ exists fe, se, c, fs, ss. unfold freed. split; [done|]. split; [done|]. split; [lia|]. split; [lia|]. split; [lia|]. by left. }
  destruct (tw_node _ _ _ _ Ht x Hx) as (n1 & v & Hn1 & Hv & _ & _ & _ & Hlks). rewrite Hn in Hn1. injection Hn1 as <-.
  simpl in Hlk. assert (full_lock_ref n = 0) as Hl0 by lia.
  destruct (sc_node_bares c x n Hn) as (n0 & E0 & V0). rewrite E0. cbn [res_bind].
  assert (full_lock_ref n0 = full_lock_ref n /\ sn_value n0 = sn_value n /\ swa_tombstone n0 = swa_tombstone n) as (X1 & X2 & X3) by by rewrite <- V0.
  rewrite bool_decide_false by (intros ->; by destruct (tw_root _ _ _ _ Ht)). cbn [negb py_assert res_bind].
  rewrite X1, (proj2 (Z.eqb_eq _ 0)) by done. cbn [py_assert res_bind]. unfold sn_tensor. rewrite X2, Hv. cbn [res_bind].
  destruct (leaf_step held c fs ss a b x n v Hev Efs Hn Hv Hleaf Hl0) as (al & c1 & c2 & c3 & j & lf & c' & fs' & E1 & E2 & E3 & E4 & E5 & Hlf & Hev' & Fr & K & Hlen & T1 & T2 & _ & nn & q' & m' & N1 & N2 & N3 & Hcand).
  rewrite E1. cbn [res_bind]. rewrite X3.
  change (get_prev_leaf_no_lock (full_lru_list (with_allocator al c)) x true (sc_nodes (with_allocator al c))) with (get_prev_leaf_no_lock (full_lru_list c) x true (sc_nodes c)).
  rewrite (full_prev c fs ss a x b Hl Efs). cbn [res_bind]. rewrite E2. cbn [res_bind]. rewrite E3. cbn [res_bind]. rewrite E4. cbn [res_bind].
  rewrite E5. cbn [res_bind]. destruct (sc_node_bares c' j nn N1) as (nn0 & -> & Vn). cbn [res_bind].
  assert (sn_parent nn0 = Some q') as -> by by rewrite <- Vn in N2. destruct (sc_node_bares c' q' m' N3) as (m0 & -> & Vm). cbn [res_bind].
  assert ((if no_children m0 then get_leaf_lru_no_lock (full_lru_list c') (sc_nodes c') else Ok (last (full_cands c a))) = Ok (last (full_cands c' fs'))) as ->.
  { destruct (no_children m0) eqn:Enc; [by eapply full_lru, (cw_lists _ _ _ (ck_wf _ _ _ (proj1 Hev')))|]. rewrite Hcand.
    - unfold full_cands. by rewrite filter_app, Hb, app_nil_r.
    - intros E. assert (no_children m0 = true); [|congruence]. apply no_children_iff. by rewrite <- Vm in E. }
  cbn [res_bind].
  destruct (IH c' fs' (filter (.≠ x) ss) (fe + zlen v + lf) (if negb (swa_tombstone n) then se + zlen v else se) Hev' ltac:(lia)) as (fe' & se' & cf & fsf & ssf & E & Hevf & Hmono & -> & -> & Hend).
  rewrite E. eexists _, _, cf, fsf, ssf. split; [done|]. split; [eapply evicted_trans; [|exact Hevf]; done|].
  unfold freed in *. assert (swa_len n = if swa_tombstone n then 0 else zlen v) as Esl by (unfold swa_len, node_len; by rewrite Hv).
  pose proof (zlen_nonneg v). split; [destruct (swa_tombstone n); simpl in *; lia|]. split; [lia|]. split; [destruct (swa_tombstone n); simpl; lia|]. done.
Qed.

(** ** The second loop *)

Section TombStep.
Context (held : list Z) (c : SWARadixCache) (fs ss : list nat) (x : nat) (n : SwaNode) (v : list Z).
Context (Hev : ev_ok held c fs ss) (Hx : x ∈ ss) (Hn : bares c !! x = Some n) (Hv : sn_value n = Some v) (Hlk : swa_lock_ref n = 0).

Lemma tomb_step : exists al c1 c2, let c' := add_sizes 0 (- zlen v) 0 0 c2 in
  swa_tombstone n = false /\ zlen v = key_len (sn_key n)
  /\ sc_free_swa v c = Ok (with_allocator al c) /\ swa_remove_node x (with_allocator al c) = Ok c1 /\ bares c1 = bares c
  /\ sc_set (set_swa_tombstone true) x c1 = Ok c2
  /\ evicts_to held c fs c' fs (filter (.≠ x) ss) /\ freed node_len c fs c' fs = 0 /\ freed swa_len c fs c' fs = zlen v
  /\ (forall i, unlocked true (bares c') i <-> unlocked true (bares c) i).
Proof.
  destruct Hev as [Hc Hinv]. destruct Hc as [[Hl Ht Hs Hf Hd Hz] Hu Hsz]. pose proof (lists_nodup _ _ _ Hl) as Hnd.
  pose proof (proj1 (Hs x) Hx) as [Hxf (o & Ho & Hto)]. rewrite Hn in Ho. injection Ho as <-. apply negb_true_iff in Hto. simpl in Hto.
  destruct (tw_node _ _ _ _ Ht x Hxf) as (o & w & Ho & Hw & Hlen & _). rewrite Hn in Ho. injection Ho as <-. rewrite Hv in Hw. injection Hw as <-.
  pose proof (drop_perm fs Hnd x Hxf) as HP.
  destruct (swa_free_swa_ok _ _ v (owned_slots (bares c) (filter (.≠ x) fs) ++ held) Hinv) as (al & Ea & Ha).
  { rewrite app_assoc. f_equiv. rewrite (tree_slots_perm _ _ _ HP). unfold owned_slots at 1. cbn [map concat]. by rewrite (val_of_lookup _ x n v Hn Hv). }
  assert (lists_wf (with_allocator al c) fs ss) as Hl1 by (destruct Hl; by split).
  assert (x ∉ dummies c) as Hxd by (apply Hd; by right).
  destruct (swa_remove_wf _ fs ss x Hl1 Hx) as (c1 & E1 & W1 & F1 & B1 & N1); [by exists n; rewrite Hto|done|].
  change (bares (with_allocator al c)) with (bares c) in B1.
  destruct (set_wf c1 _ _ (set_swa_tombstone true) x n W1) as (c2 & E2 & W2 & F2 & B2 & N2); [auto with plain|by rewrite B1|by rewrite (same_frame_dummies _ _ F1)|].
  rewrite B1 in B2. assert (same_frame (with_allocator al c) c2) as (Fr & Fd & S1 & S2 & S3 & S4 & Fu & Fa & Fp & FW & Fdi & _) by by etrans.
  simpl in Fr, S1, S2, S3, S4, Fu, Fa, Fp, FW, Fdi. change (dummies (with_allocator al c)) with (dummies c) in Fd.
  assert (forall f, node_total f (bares c2) fs = node_total f (bares c) fs + (f (set_swa_tombstone true n) - f n)) as Hto2
    by (intros f; rewrite B2; by apply node_total_insert).
  assert (forall i, val_of (bares c2) i = val_of (bares c) i) as Hvals.
  { intros i. rewrite B2. unfold val_of. destruct (decide (i = x)) as [->|]; [by rewrite lookup_insert_eq, Hn|by rewrite lookup_insert_ne]. }
  exists al, c1, c2. intros c'. split_and!; try done.
  - unfold sc_free_swa. by rewrite Ea.
  - split; [|split].
    + split; [|unfold c'; simpl; rewrite Fa; rewrite (tree_slots_ext (bares c)); [done|intros; apply Hvals]]. split; [split| |].
      * by apply add_sizes_lists.
      * simpl. rewrite B2, Fr, Fp. eapply (attr_tree_wf _ _ _ _ x n); [done|done|done|]. by exists v.
      * intros i. simpl. rewrite B2, list_elem_of_filter, Hs. unfold node_listable. destruct (decide (i = x)) as [->|Hix].
        -- rewrite lookup_insert_eq. split; [by intros [? _]|]. intros [_ (? & [= <-] & ?)]. done.
        -- rewrite lookup_insert_ne by done. tauto.
      * intros i Hi. simpl in *. rewrite N2, N1. apply Hf. assert (i ∈ dom (bares c2)) as Hi' by by rewrite dom_fmap_L. rewrite B2 in Hi'.
        rewrite dom_insert_lookup_L in Hi' by (rewrite Hn; done). by rewrite dom_fmap_L in Hi'.
      * intros i Hi. change (dummies c') with (dummies c2). rewrite Fd. apply Hd. simpl in Hi. by rewrite Fr in Hi.
      * simpl. by rewrite Fp, FW.
      * simpl. rewrite Fu, B2. by apply (attr_uuids _ x n).
      * apply sizes_view. simpl. rewrite !Hto2, S1, S2, S3, S4. apply sizes_view in Hsz as (U1 & U2 & U3 & U4). unfold full_evictable at 2 3, full_protected at 2 3, swa_evictable at 2 3, swa_protected at 2 3.
        simpl. rewrite Hto, Hlk. unfold node_len. simpl. rewrite Hv. simpl. split_and!; lia.
    + apply swa_free_swa_frame in Ea. unfold evict_frame. simpl. rewrite Fa. split_and!; try done. rewrite <- (dom_fmap_L view (sc_nodes c2)), B2, dom_insert_lookup_L by (rewrite Hn; done). by rewrite dom_fmap_L.
    + split; [done|]. intros i o Hi Ho. split; [done|]. intros _. simpl. rewrite B2. destruct (decide (i = x)) as [->|].
      * rewrite lookup_insert_eq. rewrite Hn in Ho. injection Ho as <-. eexists. split; [done|]. split_and!; done.
      * rewrite lookup_insert_ne by done. exists o. done.
  - unfold freed. simpl. rewrite Hto2. unfold node_len at 3 4. simpl. lia.
  - unfold freed. simpl. rewrite Hto2. unfold swa_len at 3 4. simpl. rewrite Hto. unfold node_len. rewrite Hv. simpl. lia.
  - intros i. simpl. rewrite B2. unfold unlocked. destruct (decide (i = x)) as [->|]; [|by rewrite lookup_insert_ne].
    rewrite lookup_insert_eq, Hn. split; intros (? & [= <-] & ?); eauto.
Qed.
End TombStep.

Lemma sc_set_add_sizes f i a b d e c c' : sc_set f i c = Ok c' -> sc_set f i (add_sizes a b d e c) = Ok (add_sizes a b d e c').
Proof. unfold sc_set. simpl. intros (s & -> & [= <-])%res_bind_Ok. done. Qed.

Lemma swa_cands_keep c c' (a : list nat) : (forall i, i ∈ a -> unlocked true (bares c') i <-> unlocked true (bares c) i) -> swa_cands c' a = swa_cands c a.
Proof.
  intros H. unfold swa_cands. induction a as [|i a IH]; [done|]. assert (forall j, j ∈ a -> unlocked true (bares c') j <-> unlocked true (bares c) j) as H' by (intros; apply H; by right).
  specialize (H i ltac:(left)). destruct (decide (unlocked true (bares c) i)).
  - rewrite !filter_cons_True by (done || by apply H). by rewrite IH.
  - rewrite !filter_cons_False; [by apply IH|done|]. by intros ?%H.
Qed.

(** The candidates left when the last one has gone. *)
Lemma swa_next c c' (ss a b : list nat) x : NoDup ss -> ss = a ++ x :: b -> swa_cands c b = [] ->
  (forall i, i ∈ ss -> i <> x -> unlocked true (bares c') i <-> unlocked true (bares c) i) -> swa_cands c a = swa_cands c' (filter (.≠ x) ss).
Proof.
  intros Hnd E Hb Hu. rewrite E in *. rewrite filter_ne_middle by done. apply NoDup_app in Hnd as (_ & Hd & [Hxb _]%NoDup_cons).
  assert (swa_cands c' (a ++ b) = swa_cands c' a ++ swa_cands c' b) as -> by (unfold swa_cands; apply filter_app).
  rewrite (swa_cands_keep c c' a), (swa_cands_keep c c' b), Hb, app_nil_r; [done| |].
  - intros i Hi. apply Hu; [set_solver|]. by intros ->.
  - intros i Hi. apply Hu; [set_solver|]. intros ->. by apply (Hd x Hi); left.
Qed.

Lemma evict_swa_ok held N : forall fuel c fs ss fe se, ev_ok held c fs ss -> (length ss < fuel)%nat ->
  exists fe' se' c' fs' ss', evict_swa_loop fuel (last (swa_cands c ss)) N fe se c = Ok (fe', se', c') /\ evicts_to held c fs c' fs' ss'
    /\ fe <= fe' <= fe + freed node_len c fs c' fs' /\ se' = se + freed swa_len c fs c' fs' /\ (N <= se' \/ swa_cands c' ss' = []).
Proof.
  induction fuel as [|fuel IH]; intros c fs ss fe se Hev Hf; [lia|]. pose proof (proj1 Hev) as Hc. pose proof (ck_wf _ _ _ Hc) as Hw.
  pose proof (cw_tree _ _ _ Hw) as Ht. pose proof (cw_lists _ _ _ Hw) as Hl.
  assert (evicts_to held c fs c fs ss) as Hrefl by (split; [done|]; split; [done|apply kept_refl]).
  cbn [evict_swa_loop]. destruct (last (swa_cands c ss)) as [x|] eqn:Elast.
  2:{ exists fe, se, c, fs, ss. unfold freed. split; [done|]. split; [done|]. split; [lia|]. split; [lia|]. right. by apply last_None. }
  destruct (last_filter_split _ _ _ Elast) as (a & b & Ess & (n & Hn & Hlk) & Hb). assert (x ∈ ss) as Hx by (rewrite Ess; set_solver).
  rewrite (in_swa_list c fs ss x Hl Hx), andb_true_r. destruct (Z.ltb_spec se N) as [Hlt|Hge].
  2:{ exists fe, se, c, fs, ss. unfold freed. split; [done|]. split; [done|]. split; [lia|]. split; [lia|]. by left. }
  pose proof (proj1 (cw_swa _ _ _ Hw x) Hx) as [Hxf _].
  destruct (tw_node _ _ _ _ Ht x Hxf) as (n1 & v & Hn1 & Hv & _ & _ & _ & Hlks). rewrite Hn in Hn1. injection Hn1 as <-.
  simpl in Hlk. assert (swa_lock_ref n = 0) as Hl0 by lia. pose proof (zlen_nonneg v) as Hvn.
  destruct (tomb_step held c fs ss x n v Hev Hx Hn Hv Hl0) as (al & c1 & c2 & Hto & Hlen & T1 & T2 & T2' & T3 & T4 & T5 & T6 & T7).
  assert (filter (.≠ x) ss = a ++ b) as Eab by (rewrite Ess; apply filter_ne_middle; rewrite <- Ess; by eapply lru_ok_nodup, lw_swa).
  assert (length (filter (.≠ x) ss) < fuel)%nat as Hfu by (rewrite Eab; rewrite Ess, !length_app in *; simpl in Hf; lia).
  destruct (sc_node_bares c x n Hn) as (n0 & E0 & V0). rewrite E0. cbn [res_bind].
  assert (full_lock_ref n0 = full_lock_ref n /\ swa_lock_ref n0 = swa_lock_ref n /\ sn_value n0 = sn_value n /\ swa_tombstone n0 = swa_tombstone n /\ no_children n0 = no_children n
    /\ sn_key n0 = sn_key n) as (X1 & X2 & X3 & X4 & X5 & X6) by by rewrite <- V0.
  rewrite X4, Hto. cbn [negb py_assert res_bind]. rewrite bool_decide_false by (intros ->; by destruct (tw_root _ _ _ _ Ht)). cbn [negb py_assert res_bind].
  rewrite X2, (proj2 (Z.eqb_eq _ 0)) by done. cbn [py_assert res_bind]. unfold sn_tensor. rewrite X3, Hv. cbn [res_bind]. rewrite X5, X1.
  assert (forall al', get_prev_no_lock (swa_lru_list (with_allocator al' c)) x true (sc_nodes (with_allocator al' c)) = Ok (last (swa_cands c a))) as Hprev
    by (intros; simpl; by eapply swa_prev).
  pose proof (lru_ok_nodup _ _ _ (lw_swa _ _ _ Hl)) as Hnd.
  set (ct := add_sizes 0 (- zlen v) 0 0 c2) in *.
  assert (exists fe' se' c' fs' ss', evict_swa_loop fuel (last (swa_cands c a)) N fe (se + zlen v) ct = Ok (fe', se', c') /\ evicts_to held c fs c' fs' ss'
    /\ fe <= fe' <= fe + freed node_len c fs c' fs' /\ se' = se + freed swa_len c fs c' fs' /\ (N <= se' \/ swa_cands c' ss' = [])) as Htomb.
  { rewrite (swa_next c ct ss a b x Hnd Ess Hb) by (intros; apply T7). destruct (IH ct fs (filter (.≠ x) ss) fe (se + zlen v) (proj1 T4) Hfu) as (fe' & se' & c' & fs' & ss' & -> & Hevf & Hfe & -> & Hend).
    eexists _, _, c', fs', ss'. split; [done|]. split; [eapply evicted_trans; [exact T4|exact Hevf]|]. unfold freed in *. split; [lia|]. split; [lia|]. done. }
  destruct (no_children n) eqn:Enc; cbn [negb].
  2:{ rewrite T1. cbn [res_bind]. rewrite Hprev. cbn [res_bind]. rewrite T2. cbn [res_bind]. unfold tombstone_internal_node.
      destruct (sc_node_bares c1 x n) as (n1 & -> & V1); [by rewrite T2'|]. cbn [res_bind].
      assert (no_children n1 = false /\ sn_key n1 = sn_key n) as [-> ->] by (rewrite <- V1; split; [|done]; rewrite <- Enc, <- V1; done).
      cbn [negb py_assert res_bind]. rewrite T3. cbn [res_bind]. rewrite <- Hlen. exact Htomb. }
  destruct (Z.ltb_spec 0 (full_lock_ref n)) as [Hfl|Hfl].
  { rewrite T1. cbn [res_bind]. rewrite Hprev. cbn [res_bind]. rewrite T2. cbn [res_bind]. rewrite (sc_set_add_sizes _ _ _ _ _ _ _ _ T3). cbn [res_bind]. exact Htomb. }
  assert (full_lock_ref n = 0) as Hfl0 by lia. rewrite (proj2 (Z.eqb_eq _ 0)) by done. cbn [py_assert res_bind].
  apply list_elem_of_split in Hxf as (fa & fb & Efs). apply no_children_iff in Enc.
  destruct (leaf_step held c fs ss fa fb x n v Hev Efs Hn Hv Enc Hfl0) as (al2 & d1 & d2 & d3 & j & lf & c' & fs' & E1 & E2 & E3 & E4 & E5 & Hlf & Hev' & Fr & K & _ & S1 & S2 & Hun & _).
  rewrite Hto in E3. cbn [negb] in E3. rewrite E1. cbn [res_bind]. rewrite Hprev. cbn [res_bind]. rewrite E2. cbn [res_bind]. rewrite E3. cbn [res_bind].
  rewrite E4. cbn [res_bind]. rewrite E5. cbn [res_bind]. rewrite (swa_next c c' ss a b x Hnd Ess Hb Hun).
  destruct (IH c' fs' (filter (.≠ x) ss) (fe + zlen v) (se + zlen v) Hev' Hfu) as (fe' & se' & cf & fsf & ssf & -> & Hevf & Hfe & -> & Hend).
  eexists _, _, cf, fsf, ssf. split; [done|]. split; [eapply evicted_trans; [|exact Hevf]; done|]. unfold freed in *.
  assert (swa_len n = zlen v) as Esl by (unfold swa_len, node_len; by rewrite Hto, Hv). split; [lia|]. split; [lia|]. done.
Qed.

(** ** [evict] *)

Lemma cands_none_evictable c fs ss : swa_cache_ok c fs ss -> swa_cands c ss = [] -> swa_evictable_size_ c = 0.
Proof.
  intros Hc Hs. destruct (proj1 (sizes_view _ _) (ck_sizes _ _ _ Hc)) as (_ & -> & _). apply node_total_zero. intros i n Hi Hn.
  unfold swa_evictable. destruct (swa_tombstone n) eqn:Et; [done|]. destruct (Z.eqb_spec (swa_lock_ref n) 0) as [E|]; [|done].
  assert (i ∈ swa_cands c ss) as Hin; [|rewrite Hs in Hin; by apply not_elem_of_nil in Hin]. apply list_elem_of_filter. split.
  - exists n. split; [done|]. simpl. lia.
  - apply (cw_swa _ _ _ (ck_wf _ _ _ Hc)). split; [done|]. exists n. by rewrite Et.
Qed.

Lemma slots_len (B : store) fs : zlen (owned_slots B fs) = node_total node_len B fs.
Proof.
  unfold owned_slots, node_total. induction fs as [|i fs IH]; [done|]. cbn [map concat]. rewrite zlen_app, zsum_cons, IH. f_equal.
  unfold val_of, lock_weight, node_len. destruct (B !! i) as [n|]; [|done]. by destruct (sn_value n).
Qed.

(** The slots that deleted nodes held are available again. *)
Lemma evicted_available held c fs c' fs' ss ss' : ev_ok held c fs ss -> evicts_to held c fs c' fs' ss' ->
  sa_not_in_free_group (token_to_kv_pool_allocator c) = true ->
  full_available_size (token_to_kv_pool_allocator c') = full_available_size (token_to_kv_pool_allocator c) + freed node_len c fs c' fs'.
Proof.
  intros [_ [H1 H2]] ([_ [H3 H4]] & (_ & _ & _ & _ & _ & (E1 & E2 & E3)) & _) Hg.
  rewrite (proj1 (swa_avail_le _ _ H1 H2)), (proj1 (swa_avail_le _ _ H3 H4)), E1. unfold swa_pending. rewrite E3, Hg, !app_nil_r, !zlen_app, !slots_len.
  unfold freed. lia.
Qed.

Lemma swa_evict_ok held N M c fs ss : ev_ok held c fs ss -> sc_disable c = false ->
  exists fe se c' fs' ss', swa_evict N M c = Ok (fe, se, c') /\ evicts_to held c fs c' fs' ss'
    /\ 0 <= fe <= freed node_len c fs c' fs' /\ se = freed swa_len c fs c' fs'
    /\ (M <= 0 -> fe = freed node_len c fs c' fs' /\ (N <= fe \/ full_cands c' fs' = []))
    /\ (M <= se \/ swa_evictable_size_ c' = 0).
Proof.
  intros Hev Hd. unfold swa_evict. rewrite Hd. pose proof (proj1 Hev) as Hc. pose proof (ck_wf _ _ _ Hc) as Hw. pose proof (cw_lists _ _ _ Hw) as Hl.
  assert (forall ns, NoDup ns -> (forall i, i ∈ ns -> i ∈ fs) -> (length ns < S (base.size (sc_nodes c)))%nat) as Hfuel.
  { intros ns Hnd Hns. rewrite <- size_dom, <- (size_list_to_set (C := gset nat) ns) by done.
    assert (list_to_set ns ⊆ dom (sc_nodes c)) as Hs; [|apply subseteq_size in Hs; lia]. intros i Hi%elem_of_list_to_set%Hns.
    by eapply (lru_ok_dom _ _ _ _ (lw_full _ _ _ Hl)). }
  assert (exists fe se c1 fs1 ss1, (if 0 <? N then let* x := get_leaf_lru_no_lock (full_lru_list c) (sc_nodes c) in
      evict_full_loop (S (base.size (sc_nodes c))) x N 0 0 c else Ok (0, 0, c)) = Ok (fe, se, c1) /\ evicts_to held c fs c1 fs1 ss1
    /\ (0 <= fe /\ 0 <= se) /\ fe = freed node_len c fs c1 fs1 /\ se = freed swa_len c fs c1 fs1 /\ (N <= fe \/ full_cands c1 fs1 = [])) as (fe & se & c1 & fs1 & ss1 & E1 & Hev1 & Hpos & F1 & S1 & End1).
  { destruct (Z.ltb_spec 0 N) as [HN|HN].
    - rewrite (full_lru c fs ss Hl). cbn [res_bind].
      destruct (evict_full_ok held N (S (base.size (sc_nodes c))) c fs ss 0 0 Hev) as (fe & se & c1 & fs1 & ss1 & E & Hev1 & Hm & F & S & End);
        [apply Hfuel; [by eapply lists_nodup|done]|]. exists fe, se, c1, fs1, ss1. split_and!; try done; lia.
    - exists 0, 0, c, fs, ss. unfold freed. split; [done|]. split; [split; [done|]; split; [done|apply kept_refl]|]. split_and!; lia. }
  rewrite E1. cbn [res_bind]. pose proof Hev1 as ([Hc1 _] & Hfr1 & Hk1). pose proof (ck_wf _ _ _ Hc1) as Hw1.
  destruct (Z.ltb_spec se M) as [HM|HM].
  2:{ exists fe, se, c1, fs1, ss1. split; [done|]. split; [done|]. split; [lia|]. split; [done|]. split; [done|]. by left. }
  rewrite (swa_lru c1 fs1 ss1 (cw_lists _ _ _ Hw1)). cbn [res_bind].
  destruct (evict_swa_ok held M (S (base.size (sc_nodes c))) c1 fs1 ss1 fe se) as (fe' & se' & c2 & fs2 & ss2 & E2 & Hev2 & F2 & S2 & End2).
  - apply Hev1.
  - apply Hfuel; [by eapply lru_ok_nodup, lw_swa, cw_lists|]. intros i Hi. apply (cw_swa _ _ _ Hw1) in Hi as [Hi _]. by apply (proj1 Hk1).
  - rewrite E2. exists fe', se', c2, fs2, ss2. unfold freed in *. split; [done|]. split; [by eapply evicted_trans|]. split; [lia|]. split; [lia|].
    split; [intros; lia|]. destruct End2 as [?|End2]; [by left|]. right. eapply cands_none_evictable; [apply Hev2|done].
Qed.
