(* ===== verification/SwaPlace.v ===== *)
(** The steps of [_insert_helper] of the sliding-window radix cache: touching a node, giving a
    node new slots, and what happens to the slots of the inserted sequence at each node. *)

From S2P Require Export SwaEvictLoop.

(** * Touching a node and giving it new slots *)

(** ** Frames *)

Definition grow_frame (c c' : SWARadixCache) : Prop :=
  root_node c' = root_node c /\ sc_page_size c' = sc_page_size c /\ sliding_window_size c' = sliding_window_size c
  /\ sc_disable c' = sc_disable c /\ pool_frame (token_to_kv_pool_allocator c) (token_to_kv_pool_allocator c').

#[export] Instance grow_frame_equiv : Equivalence grow_frame.
Proof. unfold grow_frame, pool_frame. split; [intros c; tauto|intros c d; intuition congruence|intros c d e; intuition congruence]. Qed.

Lemma same_frame_grow c c' : same_frame c c' -> grow_frame c c'.
Proof. intros (? & _ & _ & _ & _ & _ & _ & E & ? & ? & ? & _). unfold grow_frame, pool_frame. rewrite E. done. Qed.

(** A node without sliding-window slots is not locked on that side. *)
Definition tombs_free (B : store) (fs : list nat) : Prop :=
  forall i n, i ∈ fs -> B !! i = Some n -> swa_tombstone n = true -> swa_lock_ref n = 0.

(** ** Touching a node *)

Lemma with_lists_same c : with_lists (full_lru_list c) (swa_lru_list c) c = c.
Proof. by destruct c. Qed.

Lemma ev_ok_reorder held c fs ss c' fs' ss' : ev_ok held c fs ss -> swa_cache_ok c' fs' ss' -> same_frame c c' -> bares c' = bares c ->
  (forall i, i ∈ fs' <-> i ∈ fs) -> ev_ok held c' fs' ss'.
Proof.
  intros [Hc Hi] Hc' (_ & _ & _ & _ & _ & _ & _ & Ea & _) Eb Hm. split; [done|]. rewrite Ea, Eb. eapply swa_inv_perm; [|exact Hi]. f_equiv.
  apply tree_slots_perm. symmetry. apply NoDup_Permutation; [by eapply lists_nodup, cw_lists, ck_wf|by eapply lists_nodup, cw_lists, ck_wf|done].
Qed.

Lemma touch_node_ok c fs ss i n : swa_cache_ok c fs ss -> i ∈ fs -> bares c !! i = Some n ->
  exists c' fs' ss', touch_node i c = Ok c' /\ swa_cache_ok c' fs' ss' /\ same_frame c c' /\ bares c' = bares c /\ (forall j, j ∈ fs' <-> j ∈ fs).
Proof.
  intros Hc Hi Hn. pose proof (ck_wf _ _ _ Hc) as Hw. pose proof (cw_lists _ _ _ Hw) as Hl. assert (i ∉ dummies c) as Hd by (apply (cw_dummies _ _ _ Hw); by right).
  unfold touch_node, get_last_access_time. set (c0 := with_counters _ _ _ c). assert (lists_wf c0 fs ss) as Hl0 by (destruct Hl; by split).
  destruct (bares_inv c i n Hn) as (n0 & Hn0 & _).
  destruct (access_wf c0 fs ss (access_counter c) i n0 Hl0 Hn0) as (c1 & -> & W1 & F1 & B1 & N1 & _). cbn [res_bind].
  assert (i ∈ dom (sc_nodes c1)) as Hdom by (rewrite (bares_dom c0 c1 B1); by eapply elem_of_dom_2).
  assert (forall e, same_frame c0 e -> i ∉ dummies e) as Hde by (intros e He; by rewrite (same_frame_dummies _ _ He)).
  destruct (lists_wf_full c1 fs ss (OpReset i) (full_reset_node_mru i) (i :: filter (.≠ i) fs) W1) as (c2 & -> & W2 & F2 & B2 & N2).
  { intros d. unfold full_reset_node_mru. cbn [run_op]. destruct (reset_node_mru _ _ _); [|done]. cbn [res_bind]. by rewrite with_lists_same. }
  { split; [done|]. specialize (Hde c1 F1). unfold dummies in Hde. set_solver. }
  { simpl. rewrite decide_True; [done|]. split; [by apply full_listable|done]. }
  cbn [res_bind]. assert (bares c2 = bares c) as B2' by (rewrite B2; exact B1). assert (same_frame c0 c2) as F2' by by etrans.
  destruct (sc_node_bares c2 i n) as (n2 & -> & V2); [by rewrite B2'|]. cbn [res_bind]. assert (swa_tombstone n2 = swa_tombstone n) as -> by by rewrite <- V2.
  assert (exists c3 ss3, (if negb (swa_tombstone n) then swa_reset_node_mru i c2 else Ok c2) = Ok c3 /\ lists_wf c3 (i :: filter (.≠ i) fs) ss3 /\ same_frame c2 c3
    /\ bares c3 = bares c2 /\ node_counter c3 = node_counter c2 /\ (forall j, j ∈ ss3 <-> j ∈ ss)) as (c3 & ss3 & E3 & W3 & F3 & B3 & N3 & M3).
  { destruct (swa_tombstone n) eqn:Et; simpl; [exists c2, ss; done|].
    assert (i ∈ ss) as His by (apply (cw_swa _ _ _ Hw); split; [done|]; exists n; by rewrite Et).
    destruct (lists_wf_swa c2 _ ss (OpReset i) (swa_reset_node_mru i) (i :: filter (.≠ i) ss) W2) as (c3 & ? & ? & ? & ? & ?).
    - intros d. unfold swa_reset_node_mru. cbn [run_op]. destruct (reset_node_mru _ _ _); [|done]. cbn [res_bind]. by rewrite with_lists_same.
    - assert (i ∈ dom (sc_nodes c2)) as Hdom2 by (rewrite (bares_dom c1 c2 B2); done). split; [done|].
      specialize (Hde c2 F2'). unfold dummies in Hde. set_solver.
    - simpl. rewrite decide_True; [done|]. split; [apply listable_bares; rewrite B2'; exists n; by rewrite Et|done].
    - exists c3, (i :: filter (.≠ i) ss). split_and!; try done. intros j. rewrite elem_of_cons, list_elem_of_filter. destruct (decide (j = i)) as [->|]; tauto. }
  assert (forall j, j ∈ i :: filter (.≠ i) fs <-> j ∈ fs) as Mf by (intros j; rewrite elem_of_cons, list_elem_of_filter; destruct (decide (j = i)) as [->|]; tauto).
  rewrite E3. exists c3, (i :: filter (.≠ i) fs), ss3. assert (same_frame c c3) as Fc by (etrans; [exact F2'|exact F3]).
  split; [done|]. split; [|split; [done|split; [congruence|done]]].
  eapply (cache_ok_reorder c c3 fs ss); [done|done|done|congruence|rewrite N3, N2, N1; done|done|done].
Qed.

(** ** New slots for a node *)

(** A node gets other slots of the same number; the counters do not change. *)
Lemma set_value_ok c fs ss i n w : swa_cache_ok c fs ss -> i ∈ fs -> bares c !! i = Some n -> zlen w = key_len (sn_key n) ->
  exists c', sc_set (fun n => set_sn_kv (sn_key n) (Some w) n) i c = Ok c' /\ swa_cache_ok c' fs ss /\ same_frame c c'
    /\ bares c' = <[i := set_sn_kv (sn_key n) (Some w) n]> (bares c).
Proof.
  intros [[Hl Ht Hs Hf Hd Hz] Hu Hsz] Hi Hn Hw. destruct (tw_node _ _ _ _ Ht i Hi) as (o & v & Ho & Hv & Hlen & _). rewrite Hn in Ho. injection Ho as <-.
  destruct (set_wf c fs ss (fun n => set_sn_kv (sn_key n) (Some w) n) i n Hl) as (c' & E & W & F & B & N); [intros o; split; [by destruct o|intros []; by destruct o]|done|apply Hd; by right|].
  exists c'. split; [done|]. split; [|done]. pose proof F as (Fr & Fd & S1 & S2 & S3 & S4 & Fu & Fa & Fp & FW & _). split; [split| |].
  - done.
  - rewrite B, Fr, Fp. eapply (attr_tree_wf _ _ _ _ i n); [done|done|done|]. by exists w.
  - intros j. rewrite Hs, B. unfold node_listable. destruct (decide (j = i)) as [->|]; [|by rewrite lookup_insert_ne].
    rewrite lookup_insert_eq, Hn. split; intros [? (? & [= <-] & ?)]; (split; [done|]); eexists; done.
  - intros j Hj. rewrite N. apply Hf. assert (j ∈ dom (bares c')) as Hj' by by rewrite dom_fmap_L. rewrite B in Hj'.
    rewrite dom_insert_lookup_L in Hj' by (rewrite Hn; done). by rewrite dom_fmap_L in Hj'.
  - intros j Hj. rewrite Fd. apply Hd. by rewrite Fr in Hj.
  - by rewrite Fp, FW.
  - rewrite Fu, B. by apply (attr_uuids _ i n).
  - apply sizes_view. rewrite S1, S2, S3, S4, B. apply sizes_view in Hsz as (U1 & U2 & U3 & U4). pose proof (lists_nodup _ _ _ Hl) as Hnd.
    rewrite !(node_total_insert _ _ fs i n) by done. unfold full_evictable at 2 3, full_protected at 2 3, swa_evictable at 2 3, swa_protected at 2 3.
    simpl. unfold node_len. simpl. rewrite Hv. simpl. rewrite Hlen, Hw. split_and!; lia.
Qed.

Definition revived (w : list Z) (n : SwaNode) : SwaNode := set_swa_tombstone false (set_sn_kv (sn_key n) (Some w) n).

Lemma revive_node_ok c fs ss i n w : swa_cache_ok c fs ss -> i ∈ fs -> bares c !! i = Some n -> swa_tombstone n = true -> swa_lock_ref n = 0 ->
  zlen w = key_len (sn_key n) ->
  exists c', revive_node i w c = Ok c' /\ swa_cache_ok c' fs (i :: ss) /\ grow_frame c c' /\ bares c' = <[i := revived w n]> (bares c)
    /\ token_to_kv_pool_allocator c' = token_to_kv_pool_allocator c.
Proof.
  intros [[Hl Ht Hs Hf Hd Hz] Hu Hsz] Hi Hn Hto Hlk Hw. destruct (tw_node _ _ _ _ Ht i Hi) as (o & v & Ho & Hv & Hlen & _). rewrite Hn in Ho. injection Ho as <-.
  assert (i ∉ dummies c) as Hid by (apply Hd; by right).
  assert (i ∉ ss) as His by (intros [_ (o & Ho & Hl2)]%Hs; rewrite Hn in Ho; injection Ho as <-; by rewrite Hto in Hl2).
  destruct (set_wf c fs ss (revived w) i n Hl) as (c1 & E1 & W1 & F1 & B1 & N1); [intros o; split; [by destruct o|intros []; by destruct o]|done|done|].
  destruct (swa_insert_wf c1 fs ss i W1 His) as (c2 & E2 & W2 & F2 & B2 & N2); [rewrite B1; exists (revived w n); by rewrite lookup_insert_eq|by rewrite (same_frame_dummies _ _ F1)|].
  assert (same_frame c c2) as F by by etrans. pose proof F as (Fr & Fd & S1 & S2 & S3 & S4 & Fu & Fa & Fp & FW & _). rewrite B1 in B2.
  unfold revive_node. change (fun n => set_swa_tombstone false (set_sn_kv (sn_key n) (Some w) n)) with (revived w). rewrite E1. cbn [res_bind]. rewrite E2. cbn [res_bind].
  eexists. split; [done|]. split; [|split; [apply same_frame_grow in F; exact F|done]]. split; [split| |].
  - by apply add_sizes_lists.
  - simpl. rewrite B2, Fr, Fp. eapply (attr_tree_wf _ _ _ _ i n); [done|done|done|]. by exists w.
  - intros j. simpl. rewrite elem_of_cons, Hs, B2. unfold node_listable. destruct (decide (j = i)) as [->|].
    + rewrite lookup_insert_eq. split; [intros _; split; [done|]; by exists (revived w n)|by left].
    + rewrite lookup_insert_ne by done. naive_solver.
  - intros j Hj. simpl in *. rewrite N2, N1. apply Hf. assert (j ∈ dom (bares c2)) as Hj' by by rewrite dom_fmap_L. rewrite B2 in Hj'.
    rewrite dom_insert_lookup_L in Hj' by (rewrite Hn; done). by rewrite dom_fmap_L in Hj'.
  - intros j Hj. change (dummies (add_sizes _ _ _ _ c2)) with (dummies c2). rewrite Fd. apply Hd. simpl in Hj. by rewrite Fr in Hj.
  - simpl. by rewrite Fp, FW.
  - simpl. rewrite Fu, B2. by apply (attr_uuids _ i n).
  - apply sizes_view. simpl. rewrite S1, S2, S3, S4, B2. apply sizes_view in Hsz as (U1 & U2 & U3 & U4). pose proof (lists_nodup _ _ _ Hl) as Hnd.
    rewrite !(node_total_insert _ _ fs i n) by done. unfold full_evictable at 2 3, full_protected at 2 3, swa_evictable at 2 3, swa_protected at 2 3.
    simpl. rewrite Hto, Hlk. unfold node_len. simpl. rewrite Hv. simpl. rewrite Hlen, Hw. split_and!; lia.
Qed.

(** * The inserted slots at one node *)

(** ** The part of the key that was walked *)

(** [p] leads from the node to the root and spells a prefix of [key0]; [k] is the rest. *)
Definition walked (B : store) (root : nat) (key0 k : RadixKey) (node : nat) (p : list nat) : Prop :=
  path_to B root (Some node) p /\ units key0 = concat (map (node_units B) (reverse p)) ++ units k.

Lemma walked_attr B root key0 k node p x n n' : B !! x = Some n -> node_shape n' = node_shape n -> walked B root key0 k node p ->
  walked (<[x := n']> B) root key0 k node p.
Proof.
  intros Hx Hs [Hp Hu]. split; [by apply (attr_path _ _ x n n')|]. rewrite Hu. do 2 f_equal. apply map_ext. intros i. symmetry. by apply (attr_units _ x n n').
Qed.

Lemma map_reverse_ext {A} (f g : nat -> list A) (p : list nat) : map f p = map g p -> map f (reverse p) = map g (reverse p).
Proof. intros E. change (f <$> reverse p = g <$> reverse p). rewrite !fmap_reverse. f_equal. exact E. Qed.

(** ** Slots *)

Lemma update_slots B fs x n w : NoDup fs -> x ∈ fs -> sn_value n = Some w -> owned_slots (<[x := n]> B) fs ≡ₚ w ++ owned_slots B (filter (.≠ x) fs).
Proof.
  intros Hnd Hx Hw. rewrite (tree_slots_perm _ _ _ (drop_perm fs Hnd x Hx)). unfold owned_slots at 1. cbn [map concat].
  rewrite (val_of_lookup (<[x := n]> B) x n w) by (done || apply lookup_insert_eq). f_equiv. fold (owned_slots (<[x := n]> B) (filter (.≠ x) fs)).
  rewrite (tree_slots_ext B); [done|]. intros i [Hix _]%list_elem_of_filter. unfold val_of. by rewrite lookup_insert_ne.
Qed.

Lemma node_slots B fs x n v : NoDup fs -> x ∈ fs -> B !! x = Some n -> sn_value n = Some v -> owned_slots B fs ≡ₚ v ++ owned_slots B (filter (.≠ x) fs).
Proof. intros Hnd Hx Hn Hv. rewrite <- (insert_id B x n Hn) at 1. by apply update_slots. Qed.

Lemma sc_free_inv c idx U V : swa_inv (token_to_kv_pool_allocator c) U -> U ≡ₚ idx ++ V ->
  exists a, sc_free idx c = Ok (with_allocator a c) /\ swa_inv a V /\ grow_frame c (with_allocator a c).
Proof.
  intros Hi HP. destruct (swa_free_ok _ U idx V Hi HP) as (a & Ea & Ha). exists a. unfold sc_free. rewrite Ea. split; [done|]. split; [done|].
  unfold grow_frame. simpl. split_and!; try done; by apply swa_free_frame in Ea as (? & ? & ?).
Qed.

(** Giving back the inserted slots that a node already has. *)
Lemma free_inserted held c fs ss value m : ev_ok (value ++ held) c fs ss -> 0 <= m ->
  exists a, sc_free (py_upto value m) c = Ok (with_allocator a c) /\ ev_ok (py_from value m ++ held) (with_allocator a c) fs ss /\ grow_frame c (with_allocator a c).
Proof.
  intros [Hc Hi] Hm. destruct (sc_free_inv c (py_upto value m) _ (owned_slots (bares c) fs ++ py_from value m ++ held) Hi) as (a & Ea & Ha & Hf).
  - rewrite <- (py_upto_from value m) at 1 by done. rewrite <- !app_assoc. apply Permutation_app_swap_app.
  - exists a. split; [done|]. split; [|done]. split; [by apply with_allocator_ok|done].
Qed.

(** ** Splitting keeps the slots *)

Section SplitSlots.
Context (B : store) (root : nat) (ps : Z) (fs : list nat) (Ht : tree_wf B root ps fs) (Hnd : NoDup fs).
Context (child q nw : nat) (ch pn : SwaNode) (v : list Z) (m : Z) (k kc : pyval).
Context (Hin : child ∈ fs) (Hch : B !! child = Some ch) (Hpn : B !! q = Some pn) (Hq : sn_parent ch = Some q) (Hnw : B !! nw = None).
Context (Hv : sn_value ch = Some v) (Hm : 0 <= m).
Local Abbreviation B' := (split_bares B child q nw ch pn k kc v m).

Lemma split_vals j : j ∈ filter (.≠ child) fs -> val_of B' j = val_of B j.
Proof.
  intros [Hjc Hj]%list_elem_of_filter. destruct (tw_node _ _ _ _ Ht j Hj) as (o & _ & Ho & _).
  destruct (split_old B child q nw ch pn v m k kc Hpn Hnw j o Ho Hjc) as (o' & Ho' & Eo). unfold val_of. rewrite Ho, Ho'. apply (f_equal sn_value) in Eo. simpl in Eo. by rewrite Eo.
Qed.

Lemma split_owned_slots : owned_slots B' (child :: nw :: filter (.≠ child) fs) ≡ₚ owned_slots B fs.
Proof.
  rewrite (node_slots B fs child ch v Hnd Hin Hch Hv). unfold owned_slots at 1. cbn [map concat]. fold (owned_slots B' (filter (.≠ child) fs)).
  rewrite (tree_slots_ext B B' _ split_vals). rewrite (val_of_lookup B' child (lower_half ch nw v m) (py_from v m)), (val_of_lookup B' nw (upper_half ch child kc v m) (py_upto v m));
    [|by eapply split_at_new|done|by eapply split_at_child|done]. rewrite <- (py_upto_from v m) at 3 by done. clear. perm_solver.
Qed.

Lemma split_tombs : tombs_free B fs -> tombs_free B' (child :: nw :: filter (.≠ child) fs).
Proof.
  intros Htb j o Hj Ho Hto. rewrite !elem_of_cons in Hj. destruct Hj as [->|[->|[Hjc Hj]%list_elem_of_filter]].
  - rewrite (split_at_child B root ps fs Ht) in Ho by done. injection Ho as <-. simpl in *. by apply (Htb child ch).
  - rewrite (split_at_new B root ps fs Ht) in Ho by done. injection Ho as <-. simpl in *. by apply (Htb child ch).
  - destruct (tw_node _ _ _ _ Ht j Hj) as (o0 & _ & Ho0 & _). destruct (split_old B child q nw ch pn v m k kc Hpn Hnw j o0 Ho0 Hjc) as (o' & Ho' & Eo).
    rewrite Ho in Ho'. injection Ho' as <-. pose proof (f_equal swa_lock_ref Eo) as X1. pose proof (f_equal swa_tombstone Eo) as X2. simpl in X1, X2.
    rewrite X1. apply (Htb j o0 Hj Ho0). by rewrite <- X2.
Qed.

(** What was walked to the node leads to its lower half. *)
Lemma split_walked key0 rest p : walked B root key0 rest child p -> m < key_len (sn_key ch) -> exists p', walked B' root key0 rest child p'.
Proof.
  intros [Hp Hu] Hlt. destruct (tw_root _ _ _ _ Ht) as [(rn & Hrn & _) Hrf]. pose proof (path_to_nodup _ _ _ _ Hp) as Hndp.
  inversion Hp as [E0|? n1 p0 Hir Hn1 Hp0 E1 E2]; [congruence|]. subst p. rewrite Hch in Hn1. injection Hn1 as <-. rewrite Hq in Hp0. apply NoDup_cons in Hndp as [Hip _].
  assert (forall j o, B !! j = Some o -> j <> child -> exists o', B' !! j = Some o' /\ set_sn_children ∅ o' = set_sn_children ∅ o) as Hold by (intros; by apply split_old).
  pose proof (keep_path B B' child Hold _ _ _ Hp0 Hip) as Hp'. destruct (keep_views B B' child Hold _ _ _ Hp0 Hip) as (_ & K & _).
  assert (B' !! child = Some (lower_half ch nw v m)) as Li by by eapply split_at_child.
  assert (B' !! nw = Some (upper_half ch child kc v m)) as Ln by by eapply split_at_new.
  exists (child :: nw :: p0). split.
  - econstructor; [done|exact Li|]. simpl. econstructor; [congruence|exact Ln|]. simpl. by rewrite Hq.
  - rewrite Hu, !reverse_cons, !map_app, !concat_app, (map_reverse_ext _ _ _ K). cbn [map concat]. unfold node_units at 2 4 5. rewrite Hch, Li, Ln. simpl.
    rewrite !app_nil_r, units_upto, units_from by lia. rewrite <- !app_assoc. f_equal. rewrite app_assoc. by rewrite take_drop.
Qed.
End SplitSlots.

Section Place.
Context (held : list Z) (c : SWARadixCache) (fs ss : list nat) (i : nat) (n : SwaNode) (v value : list Z) (key0 k : RadixKey) (p : list nat).
Context (m total E : Z).
Context (Hev : ev_ok (value ++ held) c fs ss) (Htb : tombs_free (bares c) fs) (Hi : i ∈ fs) (Hn : bares c !! i = Some n) (Hv : sn_value n = Some v).
Context (Hm : m = key_len (sn_key n)) (Hmv : m <= zlen value) (Hwk : walked (bares c) (root_node c) key0 k i p).
Context (Hto : swa_tombstone n = true).

Local Abbreviation B := (bares c).

Lemma place_facts : NoDup fs /\ zlen v = m /\ 0 < m /\ swa_lock_ref n = 0 /\ aligned (sc_page_size c) (sn_key n)
  /\ owned_slots B fs ≡ₚ v ++ owned_slots B (filter (.≠ i) fs).
Proof.
  pose proof (proj1 Hev) as Hc. pose proof (cw_tree _ _ _ (ck_wf _ _ _ Hc)) as Ht. assert (NoDup fs) as Hnd by by eapply lists_nodup, cw_lists, ck_wf.
  destruct (tw_node _ _ _ _ Ht i Hi) as (o & w & Ho & Hw & Hlen & Hal & Hpos & _). rewrite Hn in Ho. injection Ho as <-. rewrite Hv in Hw. injection Hw as <-.
  split_and!; try done; [lia|lia|by apply (Htb i n)|by eapply node_slots].
Qed.

(** The whole node gets the inserted slots. *)
Lemma place_all : exists a c', sc_free (py_upto v m) c = Ok (with_allocator a c) /\ revive_node i (py_upto value m) (with_allocator a c) = Ok c'
  /\ ev_ok (py_from value m ++ held) c' fs (i :: ss) /\ tombs_free (bares c') fs /\ grow_frame c c' /\ walked (bares c') (root_node c) key0 k i p.
Proof.
  destruct place_facts as (Hnd & Hlv & Hpos & Hlk & _ & HP). destruct Hev as [Hc Hinv].
  assert (py_upto v m = v) as -> by (rewrite py_upto_nonneg by lia; apply take_ge; unfold zlen in Hlv; lia).
  destruct (sc_free_inv c v _ (owned_slots B (filter (.≠ i) fs) ++ value ++ held) Hinv) as (a & Ea & Ha & Hf); [by rewrite HP, <- app_assoc|].
  destruct (revive_node_ok (with_allocator a c) fs ss i n (py_upto value m)) as (c' & Er & Hc' & Hf' & B' & Al);
    [by apply with_allocator_ok|done|done|done|done|rewrite zlen_py_upto by lia; done|].
  change (bares (with_allocator a c)) with B in B'. exists a, c'. split; [done|]. split; [done|]. split; [|split; [|split; [by etrans|]]].
  - split; [done|]. rewrite Al, B'. simpl. eapply swa_inv_perm; [|exact Ha]. rewrite (update_slots B fs i (revived (py_upto value m) n) (py_upto value m)) by done.
    rewrite <- (py_upto_from value m) at 1 by lia. clear. perm_solver.
  - rewrite B'. intros j o Hj Ho Hto'. destruct (decide (j = i)) as [->|]; [rewrite lookup_insert_eq in Ho; by injection Ho as <-|].
    rewrite lookup_insert_ne in Ho by done. by eapply Htb.
  - rewrite B'. by apply (walked_attr _ _ _ _ _ _ i n).
Qed.

(** The node is split, and only its lower part gets the inserted slots. *)
Lemma place_tail start : 0 < start < m -> (sc_page_size c | start) ->
  exists a1 nw c1 c2 a2 c' fs' ss' p', sc_free (py_slice v start m) c = Ok (with_allocator a1 c)
    /\ swa_split_node (sn_key n) i start (with_allocator a1 c) = Ok (nw, c1)
    /\ sc_set (fun n => set_sn_kv (sn_key n) (Some (py_slice value start m)) n) i c1 = Ok c2
    /\ sc_free (py_upto value start) c2 = Ok (with_allocator a2 c2)
    /\ revive_node i (py_slice value start m) (with_allocator a2 c2) = Ok c'
    /\ ev_ok (py_from value m ++ held) c' fs' ss' /\ tombs_free (bares c') fs' /\ i ∈ fs' /\ grow_frame c c' /\ walked (bares c') (root_node c) key0 k i p'.
Proof.
  intros Hst Hal. destruct place_facts as (Hnd & Hlv & Hpos & Hlk & _ & HP). pose proof Hev as [Hc Hinv]. set (w := py_slice value start m).
  assert (py_slice v start m = py_from v start) as ->.
  { rewrite py_slice_nonneg, py_from_nonneg by lia. apply take_ge. rewrite length_drop. unfold zlen in Hlv. lia. }
  assert (value = py_upto value start ++ w ++ py_from value m) as Hval.
  { unfold w. rewrite py_upto_nonneg, py_slice_nonneg, py_from_nonneg by lia. rewrite <- (take_drop (Z.to_nat start) value) at 1. f_equal.
    rewrite <- (take_drop (Z.to_nat (m - start)) (drop (Z.to_nat start) value)) at 1. rewrite drop_drop. do 2 f_equal. lia. }
  assert (zlen w = m - start) as Hlw by (pose proof (f_equal zlen Hval) as Hz; rewrite !zlen_app, zlen_py_upto, zlen_py_from in Hz by lia; lia).
  destruct (sc_free_inv c (py_from v start) _ (py_upto v start ++ owned_slots B (filter (.≠ i) fs) ++ value ++ held) Hinv) as (a1 & Ea1 & Ha1 & Hf1).
  { rewrite HP. rewrite <- (py_upto_from v start) at 1 by lia. clear. perm_solver. }
  destruct (swa_split_cache_ok (with_allocator a1 c) fs ss i n v start (with_allocator_ok _ _ _ _ Hc) Hi Hn Hv) as (q & pn & kk & kc & c1 & Hq & Hqi & Hpn & Hnw & E1 & F1 & B1 & Hc1); [lia|done|].
  change (bares (with_allocator a1 c)) with B in *. change (node_counter (with_allocator a1 c)) with (node_counter c) in *. set (nw := node_counter c) in *. rewrite Hto in Hc1.
  pose proof (cw_tree _ _ _ (ck_wf _ _ _ Hc)) as Ht.
  assert (bares c1 !! i = Some (lower_half n nw v start)) as Li by (rewrite B1; by eapply split_at_child).
  assert (bares c1 !! nw = Some (upper_half n i kc v start)) as Ln by (rewrite B1; by eapply split_at_new).
  assert (key_len (key_slice (sn_key n) (Some start) None) = m - start) as Hkl by (rewrite key_len_from by lia; lia).
  destruct (set_value_ok c1 _ _ i (lower_half n nw v start) w Hc1) as (c2 & E2 & Hc2 & F2 & B2); [left|done|simpl; lia|].
  assert (same_frame (with_allocator a1 c) c2) as F12 by by etrans. assert (token_to_kv_pool_allocator c2 = a1) as Al2 by (by destruct F12 as (_ & _ & _ & _ & _ & _ & _ & ? & _)).
  rewrite <- Al2 in Ha1.
  destruct (sc_free_inv c2 (py_upto value start) _ (w ++ py_upto v start ++ owned_slots B (filter (.≠ i) fs) ++ py_from value m ++ held) Ha1) as (a2 & Ea2 & Ha2 & Hf2).
  { rewrite Hval at 1. clear. perm_solver. }
  destruct (revive_node_ok (with_allocator a2 c2) _ _ i (set_sn_kv (key_slice (sn_key n) (Some start) None) (Some w) (lower_half n nw v start)) w (with_allocator_ok a2 _ _ _ Hc2))
    as (c' & Er & Hc' & Hf' & B' & Al); [left|simpl; rewrite B2; apply lookup_insert_eq|done|done|simpl; lia|].
  change (bares (with_allocator a2 c2)) with (bares c2) in B'. rewrite B2, insert_insert_eq in B'.
  set (n' := revived w _) in B'. assert (sn_value n' = Some w /\ swa_tombstone n' = false /\ node_shape n' = node_shape (lower_half n nw v start)) as (V1 & V2 & V3) by done.
  assert (nw ∉ fs) as Hnf by (intros Hx; destruct (tw_node _ _ _ _ Ht _ Hx) as (? & ? & ? & _); congruence).
  assert (nw <> i) as Hni by (intros E0; apply Hnf; by rewrite E0).
  assert (forall j, j ∈ filter (.≠ i) fs -> val_of (bares c1) j = val_of B j) as Hvals by (rewrite B1; intros; by eapply split_vals).
  destruct (split_walked B _ _ fs Ht i q nw n pn v start kk kc Hi Hn Hpn Hq Hnw ltac:(lia) key0 k p Hwk ltac:(lia)) as (p' & Hwk'). rewrite <- B1 in Hwk'.
  exists a1, nw, c1, c2, a2, c', (i :: nw :: filter (.≠ i) fs), (i :: ss), p'. split_and!; try done.
  - split; [done|]. rewrite Al, B'. simpl. eapply swa_inv_perm; [|exact Ha2]. clear Ha2.
    assert (NoDup (i :: nw :: filter (.≠ i) fs)) as Hnd' by by eapply lists_nodup, cw_lists, ck_wf.
    rewrite (update_slots (bares c1) _ i n' w Hnd') by (done || left). apply NoDup_cons in Hnd' as [Hni' _]. rewrite filter_cons_False by (intros Hx; by apply Hx).
    rewrite (filter_all (.≠ i) (nw :: filter (.≠ i) fs)) by (apply Forall_forall; intros j Hj ->; done).
    unfold owned_slots at 2. cbn [map concat]. fold (owned_slots (bares c1) (filter (.≠ i) fs)). rewrite (val_of_lookup _ nw _ _ Ln eq_refl).
    rewrite (tree_slots_ext B (bares c1) _ Hvals). clear. perm_solver.
  - rewrite B'. intros j o Hj Ho Hto'. destruct (decide (j = i)) as [->|Hji]; [rewrite lookup_insert_eq in Ho; injection Ho as <-; congruence|].
    rewrite lookup_insert_ne in Ho by done. rewrite B1 in Ho. eapply split_tombs; eauto.
  - left.
  - etrans; [exact Hf1|]. etrans; [apply same_frame_grow; exact F12|]. by etrans.
  - rewrite B'. by apply (walked_attr _ _ _ _ _ _ i (lower_half n nw v start)).
Qed.
End Place.
