(* ===== verification/SwaInsertLoop.v ===== *)
(** [insert] on the sliding-window radix cache: every slot of the inserted sequence ends up in
    the tree or back in the pool, and the tree spells the key. *)

From S2P Require Export SwaPlace.

(** * The loop *)

(** ** One node *)

Lemma insert_at_node_ok held c fs ss i n value key0 k p m total P E : ev_ok (value ++ held) c fs ss -> tombs_free (bares c) fs -> i ∈ fs ->
  bares c !! i = Some n -> m = key_len (sn_key n) -> m <= zlen value -> walked (bares c) (root_node c) key0 k i p ->
  P < total + m -> (sc_page_size c | total) -> (sc_page_size c | E) ->
  exists c' fs' ss' p', insert_at_node i value m total P E c = Ok c' /\ ev_ok (py_from value m ++ held) c' fs' ss' /\ tombs_free (bares c') fs' /\ i ∈ fs'
    /\ grow_frame c c' /\ walked (bares c') (root_node c) key0 k i p'.
Proof.
  intros Hev Htb Hi Hn Hm Hmv Hwk HP Htot HE. pose proof (proj1 Hev) as Hc. pose proof (cw_tree _ _ _ (ck_wf _ _ _ Hc)) as Ht. destruct (cw_sizes _ _ _ (ck_wf _ _ _ Hc)) as [Hps _].
  destruct (tw_node _ _ _ _ Ht i Hi) as (o & v & Ho & Hv & Hlen & _ & Hpos & _). rewrite Hn in Ho. injection Ho as <-.
  assert (exists c' fs' ss' p', sc_free (py_upto value m) c = Ok c' /\ ev_ok (py_from value m ++ held) c' fs' ss' /\ tombs_free (bares c') fs' /\ i ∈ fs'
    /\ grow_frame c c' /\ walked (bares c') (root_node c) key0 k i p') as Hfree.
  { destruct (free_inserted held c fs ss value m Hev ltac:(lia)) as (a & Ea & Ha & Hf). exists (with_allocator a c), fs, ss, p. split_and!; done. }
  unfold insert_at_node. replace (P <? total + m) with true by (symmetry; by apply Z.ltb_lt). cbn [negb].
  destruct (sc_node_bares c i n Hn) as (n0 & -> & V0). cbn [res_bind].
  assert (swa_tombstone n0 = swa_tombstone n /\ swa_lock_ref n0 = swa_lock_ref n /\ sn_value n0 = sn_value n /\ sn_key n0 = sn_key n) as (-> & -> & X3 & X4) by by rewrite <- V0.
  destruct (swa_tombstone n) eqn:Hto; [|exact Hfree]. rewrite (Htb i n Hi Hn Hto). cbn [Z.eqb py_assert res_bind].
  rewrite (proj2 (Z.eqb_eq (E mod sc_page_size c) 0)) by (apply Z.mod_divide; [lia|done]). cbn [py_assert res_bind]. unfold sn_tensor. rewrite X3, X4, Hv.
  destruct (Z.leb_spec E total) as [He|He]; [|destruct (Z.ltb_spec E (total + m)) as [He2|He2]; [|exact Hfree]].
  - cbn [res_bind]. destruct (place_all held c fs ss i n v value key0 k p m Hev Htb Hi Hn Hv Hm Hmv Hwk Hto) as (a & c' & -> & Er & ? & ? & ? & ?).
    cbn [res_bind]. exists c', fs, (i :: ss), p. split_and!; done.
  - cbn [res_bind]. destruct (place_tail held c fs ss i n v value key0 k p m Hev Htb Hi Hn Hv Hm Hmv Hwk Hto (E - total)) as (a1 & nw & c1 & c2 & a2 & c' & fs' & ss' & p' & -> & E1 & E2 & E3 & E4 & ? & ? & ? & ? & ?);
      [lia|by apply Z.divide_sub_r|]. cbn [res_bind]. rewrite E1. cbn [res_bind]. rewrite E2. cbn [res_bind]. rewrite E3. cbn [res_bind].
    exists c', fs', ss', p'. done.
Qed.

(** ** The loop after the protected prefix *)

(** The child is matched as far as its first [m] tokens, and split there if it is longer. *)
Lemma insert_descend held c fs ss node nd ck child k key0 p : ev_ok held c fs ss -> tombs_free (bares c) fs -> node ∈ root_node c :: fs ->
  bares c !! node = Some nd -> sn_children nd !! ck = Some child -> aligned (sc_page_size c) k -> 0 < key_len k -> child_key k (sc_page_size c) = Ok ck ->
  walked (bares c) (root_node c) key0 k node p ->
  exists c1 c2 fs2 ss2 i n m ch, touch_node child c = Ok c1 /\ sc_node c1 (Some child) = Ok (child, ch) /\ key_match (sn_key ch) k (sc_page_size c1) = Ok m
    /\ (if m <? key_len (sn_key ch) then swa_split_node (sn_key ch) child m c1 else Ok (child, c1)) = Ok (i, c2)
    /\ ev_ok held c2 fs2 ss2 /\ tombs_free (bares c2) fs2 /\ i ∈ fs2 /\ bares c2 !! i = Some n /\ m = key_len (sn_key n) /\ sc_page_size c <= m <= key_len k
    /\ (sc_page_size c | m) /\ grow_frame c c2 /\ walked (bares c2) (root_node c) key0 (key_slice k (Some m) None) i (i :: p).
Proof.
  intros Hev Htb Hnode Hnd Hch Hal Hk Hck Hwk. pose proof Hev as [Hc Hinv]. pose proof (ck_wf _ _ _ Hc) as Hw. pose proof (cw_tree _ _ _ Hw) as Ht.
  destruct (tw_child _ _ _ _ Ht node nd ck child Hnode Hnd Hch) as [Hcf (cn & Hcn & Hcp & Hckc)].
  destruct (tw_node _ _ _ _ Ht child Hcf) as (cn0 & v & Hcn0 & Hv & Hlen & Hala & Hpos & _). rewrite Hcn in Hcn0. injection Hcn0 as <-. destruct (cw_sizes _ _ _ Hw) as [Hps HW].
  destruct (key_walk (sc_page_size c) (sn_key cn) k ck Hps Hala Hal Hpos Hk Hckc Hck) as (m & Em & Hm1 & Hm2 & Hdiv & Htk).
  destruct (touch_node_ok c fs ss child cn Hc Hcf Hcn) as (c1 & fs1 & ss1 & E1 & Hc1 & F1 & B1 & M1).
  pose proof (ev_ok_reorder _ _ _ _ _ _ _ Hev Hc1 F1 B1 M1) as Hev1. pose proof F1 as (Er & _ & _ & _ & _ & _ & _ & _ & Eps & EW & _).
  assert (tombs_free (bares c1) fs1) as Htb1 by (rewrite B1; intros j o Hj; by apply Htb, M1).
  destruct (sc_node_bares c1 child cn) as (ch & E2 & V2); [by rewrite B1|].
  assert (sn_key ch = sn_key cn) as Ek by by rewrite <- V2. destruct Hwk as [Hp Hu].
  assert (node ∈ root_node c1 :: fs1) as Hnode1 by (rewrite Er, elem_of_cons, M1, <- elem_of_cons; done).
  assert (match_inv (bares c1) (root_node c1) (sliding_window_size c1) key0 k (map (val_of (bares c1)) (reverse p), node, since_of (bares c1) p, 0%nat, root_node c1) p []) as Hinv1.
  { rewrite B1, Er, EW. split_and!; try done; [constructor|apply suffix_nil]. }
  exists c1. destruct (Z.ltb_spec m (key_len (sn_key cn))) as [Hlt|Hge].
  - destruct (swa_split_cache_ok c1 fs1 ss1 child cn v m Hc1) as (q & pn & kk & kc & c2 & Hq & Hqc & Hpn & Hnw & E3 & F2 & B2 & Hc2); [by apply M1|by rewrite B1|done|lia|by rewrite Eps|].
    destruct (step_split c1 fs1 ss1 Hc1 key0 k ck _ node 0%nat (root_node c1) child _ p [] nd cn Hinv1 Hnode1 ltac:(by rewrite B1) Hch ltac:(by rewrite B1) (proj2 (M1 child) Hcf) Hcp
      m v q pn kk kc (node_counter c1) c2 Hv ltac:(lia) Hlen Htk Hqc Hpn Hnw B2 ltac:(by destruct F2)) as (nn & Hnn & T1 & T2 & Hinv2).
    pose proof (cw_tree _ _ _ (ck_wf _ _ _ Hc1)) as Ht1.
    assert (bares c2 !! node_counter c1 = Some (upper_half cn child kc v m)) as Ln by (rewrite B2; eapply split_at_new; eauto; [by apply M1|by rewrite B1]).
    rewrite Hnn in Ln. injection Ln as ->. exists c2, (child :: node_counter c1 :: filter (.≠ child) fs1), (if swa_tombstone cn then ss1 else child :: node_counter c1 :: filter (.≠ child) ss1), (node_counter c1), (upper_half cn child kc v m), m, ch.
    rewrite Ek, Eps. rewrite (proj2 (Z.ltb_lt _ _)) by done. split_and!; try done; try lia.
    + split; [done|]. destruct F2 as (_ & _ & _ & _ & _ & _ & _ & -> & _). rewrite B2. eapply swa_inv_perm; [|apply Hev1]. f_equiv. symmetry.
      eapply split_owned_slots; eauto; [by eapply lists_nodup, cw_lists, ck_wf|by apply M1|by rewrite B1|lia].
    + rewrite B2. eapply split_tombs; eauto; [by apply M1|by rewrite B1].
    + right. left.
    + simpl. rewrite key_len_upto by lia. done.
    + etrans; apply same_frame_grow; eauto.
    + destruct Hinv2 as (P1 & _ & _ & _ & _ & _ & _ & P8). by rewrite Er in P1.
  - assert (m = key_len (sn_key cn)) as Emk by lia.
    pose proof (step_full c1 fs1 ss1 Hc1 key0 k ck _ node 0%nat (root_node c1) child _ p [] nd cn Hinv1 Hch ltac:(by rewrite B1) (proj2 (M1 child) Hcf) Hcp m v Hv Emk Htk) as Hinv2.
    exists c1, fs1, ss1, child, cn, m, ch. rewrite Ek, Eps. rewrite (proj2 (Z.ltb_ge _ _)) by lia. split_and!; try done; try lia.
    + by apply M1.
    + by rewrite B1.
    + by apply same_frame_grow.
    + destruct Hinv2 as (P1 & _ & _ & _ & _ & _ & _ & P8). by rewrite Er in P1.
Qed.

(** Where the loop of [_insert_helper] stands: [k] and [value] are the rests, [p] was walked. *)
Record inserting (held : list Z) (key0 : RadixKey) (c : SWARadixCache) (fs ss : list nat) (node : nat) (k : RadixKey) (value : list Z) (p : list nat) : Prop := {
  in_ev : ev_ok (value ++ held) c fs ss;
  in_tombs : tombs_free (bares c) fs;
  in_node : node ∈ root_node c :: fs;
  in_aligned : aligned (sc_page_size c) k;
  in_len : zlen value = key_len k;
  in_walked : walked (bares c) (root_node c) key0 k node p
}.

Lemma next_child_key ps k m ck : 1 <= ps -> aligned ps k -> (ps | m) -> 0 <= m <= key_len k ->
  let k' := key_slice k (Some m) None in
  aligned ps k' /\ key_len k' = key_len k - m /\ exists ck', (if negb (key_len k' =? 0) then child_key k' ps else Ok ck) = Ok ck'
    /\ (0 < key_len k' -> child_key k' ps = Ok ck').
Proof.
  intros Hps Hal Hd Hm k'. assert (key_len k' = key_len k - m) as Ek by (apply key_len_from; lia). assert (aligned ps k') as Hal' by (unfold aligned; rewrite Ek; by apply Z.divide_sub_r).
  split; [done|]. split; [done|]. destruct (Z.eqb_spec (key_len k') 0) as [E0|E0]; simpl; [exists ck; split; [done|lia]|].
  pose proof (key_len_nonneg k'). assert (ps <= key_len k') by (apply Z.divide_pos_le; [lia|exact Hal']). rewrite child_key_encode by lia. eauto.
Qed.

Lemma tree_lookup B root ps fs i : tree_wf B root ps fs -> i ∈ root :: fs -> exists n, B !! i = Some n.
Proof.
  intros Ht [->|Hi]%elem_of_cons; [destruct (tw_root _ _ _ _ Ht) as [(? & ? & _) _]|destruct (tw_node _ _ _ _ Ht i Hi) as (? & ? & ? & _)]; eauto.
Qed.

Lemma swa_insert_loop_ok held key0 P E : forall fuel node k ck value total c fs ss p, inserting held key0 c fs ss node k value p ->
  (0 < key_len k -> child_key k (sc_page_size c) = Ok ck) -> key_len k < Z.of_nat fuel -> P <= total -> (sc_page_size c | total) -> (sc_page_size c | E) ->
  exists node' k' value' total' c' fs' ss' p', swa_insert_loop fuel node k ck value total P E c = Ok (node', k', value', total', c')
    /\ inserting held key0 c' fs' ss' node' k' value' p' /\ grow_frame c c' /\ total' = total + key_len k - key_len k' /\ 0 <= key_len k' <= key_len k
    /\ (0 < key_len k' -> exists ck' nd', child_key k' (sc_page_size c) = Ok ck' /\ bares c' !! node' = Some nd' /\ sn_children nd' !! ck' = None).
Proof.
  induction fuel as [|fuel IH]; intros node k ck value total c fs ss p Hin Hck Hf HP Htot HE; [pose proof (key_len_nonneg k); lia|].
  pose proof Hin as [Hev Htb Hnode Hal Hlen Hwk]. pose proof (ck_wf _ _ _ (proj1 Hev)) as Hw. destruct (cw_sizes _ _ _ Hw) as [Hps _]. pose proof (key_len_nonneg k) as Hk0.
  destruct (tree_lookup _ _ _ _ node (cw_tree _ _ _ Hw) Hnode) as [nd Hnd]. destruct (sc_node_bares c node nd Hnd) as (n0 & E0 & V0).
  cbn [swa_insert_loop]. rewrite E0. cbn [res_bind]. assert (sn_children n0 = sn_children nd) as -> by by rewrite <- V0.
  destruct (if 0 <? key_len k then sn_children nd !! ck else None) as [child|] eqn:Ech.
  2:{ exists node, k, value, total, c, fs, ss, p. split; [done|]. split; [done|]. split; [done|]. split; [lia|]. split; [lia|]. intros Hk. exists ck, nd.
      split; [by apply Hck|]. split; [done|]. by rewrite (proj2 (Z.ltb_lt 0 _)) in Ech by done. }
  destruct (Z.ltb_spec 0 (key_len k)) as [Hk|]; [|done]. specialize (Hck Hk).
  destruct (insert_descend (value ++ held) c fs ss node nd ck child k key0 p Hev Htb Hnode Hnd Ech Hal Hk Hck Hwk)
    as (c1 & c2 & fs2 & ss2 & i & n & m & ch & E1 & E2 & E3 & E4 & Hev2 & Htb2 & Hi2 & Hn2 & Hm2 & Hm & Hd & Hf2 & Hwk2).
  rewrite E1. cbn [res_bind]. rewrite E2. cbn [res_bind]. rewrite E3. cbn [res_bind]. rewrite E4. cbn [res_bind]. pose proof Hf2 as (Er & Eps & _).
  destruct (insert_at_node_ok held c2 fs2 ss2 i n value key0 (key_slice k (Some m) None) (i :: p) m total P E) as (c3 & fs3 & ss3 & p3 & E5 & Hev3 & Htb3 & Hi3 & Hf3 & Hwk3);
    [done|done|done|done|done|lia|by rewrite Er|lia|by rewrite Eps|by rewrite Eps|].
  rewrite E5. cbn [res_bind]. assert (grow_frame c c3) as Hf3' by by etrans. pose proof Hf3' as (Er3 & Eps3 & _). rewrite Eps3.
  destruct (next_child_key (sc_page_size c) k m ck Hps Hal Hd) as (Hal' & Ek' & ck' & -> & Hck'); [lia|]. cbn [res_bind]. set (k' := key_slice k (Some m) None) in *.
  destruct (IH i k' ck' (py_from value m) (total + m) c3 fs3 ss3 p3) as (node' & k2 & value' & total' & c' & fs' & ss' & p' & E6 & Hin' & Hf' & Ht' & Hb' & Hend);
    [|by rewrite Eps3|lia|lia|rewrite Eps3; by apply Z.divide_add_r|by rewrite Eps3|].
  - split; [done|done|rewrite Er3; by right|by rewrite Eps3|rewrite zlen_py_from by lia; lia|by rewrite Er3; rewrite Er in Hwk3].
  - rewrite E6. exists node', k2, value', total', c', fs', ss', p'. split; [done|]. split; [done|]. split; [by etrans|]. split; [lia|]. split; [lia|].
    by rewrite Eps3 in Hend.
Qed.

(** ** The protected prefix

    The first [P] slots of the sequence are those of a path that the request has locked: the
    loop passes over them. *)

Lemma path_to_head (s : store) root x y p : path_to s root x p -> path_to s root y p -> x = y.
Proof. intros H1 H2. inversion H1; subst; inversion H2; subst; done. Qed.

Lemma path_to_cons (s : store) root x q p : path_to s root x (q :: p) -> exists n, s !! q = Some n /\ path_to s root (sn_parent n) p.
Proof. intros H. inversion H; subst. eauto. Qed.

Lemma key_match_full ps kk k r : 1 <= ps -> aligned ps kk -> aligned ps k -> 0 < key_len kk -> units k = units kk ++ r -> key_match kk k ps = Ok (key_len kk).
Proof.
  intros Hps Hakk Hak Hpos Hu. pose proof (zlen_units kk) as U1. pose proof (zlen_units k) as U2. rewrite Hu, zlen_app, zlen_units in U2. pose proof (zlen_nonneg r).
  assert (ps <= key_len kk) by by apply Z.divide_pos_le. unfold zlen in U1.
  assert (take (Z.to_nat ps) (units kk) = take (Z.to_nat ps) (units k)) as Et by (rewrite Hu, take_app_le by lia; done).
  pose proof Et as [Ee _]%units_take_inj; [|lia..]. pose proof (units_head_view kk k ps ltac:(lia) ltac:(lia) Et) as Eb.
  rewrite key_match_lcp by done. f_equal. assert (lcp (units kk) (units k) = length (units kk)) as ->.
  { pose proof (lcp_le_l (units kk) (units k)). assert (length (units k) = length (units kk) + length r)%nat by (rewrite Hu; apply length_app).
    assert (take (length (units kk)) (units kk) = take (length (units kk)) (units k)) as Ek by (rewrite Hu, take_app_length, firstn_all; done).
    pose proof (lcp_max (units kk) (units k) (length (units kk)) Ek). lia. }
  unfold round_down. rewrite U1. destruct Hakk as [z Hz]. rewrite Hz, Z.div_mul by lia. done.
Qed.

Definition units_len (B : store) (r : list nat) : Z := zlen (concat (map (node_units B) r)).

(** One node of the protected path. *)
Lemma protected_step held c fs ss node k ck q value total P E p nq rest : ev_ok held c fs ss -> node ∈ root_node c :: fs -> aligned (sc_page_size c) k ->
  (0 < key_len k -> child_key k (sc_page_size c) = Ok ck) -> q ∈ fs -> bares c !! q = Some nq -> sn_parent nq = Some node -> units k = units (sn_key nq) ++ rest ->
  total + key_len (sn_key nq) <= P -> path_to (bares c) (root_node c) (Some node) p ->
  exists c' fs' ss' ck', same_frame c c' /\ bares c' = bares c /\ (forall j, j ∈ fs' <-> j ∈ fs) /\ ev_ok held c' fs' ss'
    /\ let k' := key_slice k (Some (key_len (sn_key nq))) None in
       aligned (sc_page_size c) k' /\ key_len k' = key_len k - key_len (sn_key nq) /\ (0 < key_len k' -> child_key k' (sc_page_size c) = Ok ck') /\ 0 < key_len (sn_key nq) <= key_len k
       /\ forall fuel, swa_insert_loop (S fuel) node k ck value total P E c
            = swa_insert_loop fuel q k' ck' (py_from value (key_len (sn_key nq))) (total + key_len (sn_key nq)) P E c'.
Proof.
  intros Hev Hnode Hal Hck Hq Hnq Hpq Hu HP Hp. pose proof (proj1 Hev) as Hc. pose proof (ck_wf _ _ _ Hc) as Hw. pose proof (cw_tree _ _ _ Hw) as Ht. destruct (cw_sizes _ _ _ Hw) as [Hps _].
  destruct (tw_node _ _ _ _ Ht q Hq) as (n1 & v & Hn1 & Hv & Hlen & Hala & Hpos & _). rewrite Hnq in Hn1. injection Hn1 as <-.
  pose proof (zlen_units k) as U. rewrite Hu, zlen_app, zlen_units in U. pose proof (zlen_nonneg rest). assert (0 < key_len k) as Hk by lia. specialize (Hck Hk).
  destruct (tree_lookup _ _ _ _ node Ht Hnode) as [nd Hnd]. destruct (tw_in _ _ _ _ Ht q nq node nd Hq Hnq Hpq Hnd) as (kq & Hkq & Hcq).
  assert (sc_page_size c <= key_len (sn_key nq)) as Hle by by apply Z.divide_pos_le.
  assert (kq = ck) as ->.
  { assert (child_key (sn_key nq) (sc_page_size c) = child_key k (sc_page_size c)) as Ec; [|congruence]. apply child_key_inj; [lia|lia|].
    pose proof (zlen_units (sn_key nq)) as U1. unfold zlen in U1. rewrite Hu, take_app_le by lia. done. }
  destruct (touch_node_ok c fs ss q nq Hc Hq Hnq) as (c1 & fs1 & ss1 & E1 & Hc1 & F1 & B1 & M1). pose proof F1 as (Er & _ & _ & _ & _ & _ & _ & _ & Eps & _).
  destruct (sc_node_bares c1 q nq) as (n1 & E2 & V2); [by rewrite B1|]. assert (sn_key n1 = sn_key nq) as Ek by by rewrite <- V2.
  destruct (next_child_key (sc_page_size c) k (key_len (sn_key nq)) ck Hps Hal Hala) as (Hal' & Ek' & ck' & Eck & Hck'); [lia|].
  exists c1, fs1, ss1, ck'. split; [done|]. split; [done|]. split; [done|]. split; [by eapply ev_ok_reorder|]. cbv zeta. split; [done|]. split; [done|]. split; [done|]. split; [lia|].
  intros fuel. cbn [swa_insert_loop]. destruct (sc_node_bares c node nd Hnd) as (n0 & -> & V0). cbn [res_bind]. assert (sn_children n0 = sn_children nd) as -> by by rewrite <- V0.
  rewrite (proj2 (Z.ltb_lt 0 _)) by done. rewrite Hcq, E1. cbn [res_bind]. rewrite E2. cbn [res_bind]. rewrite Ek, Eps, (key_match_full _ _ _ rest) by done. cbn [res_bind].
  rewrite Z.ltb_irrefl. cbn [res_bind]. unfold insert_at_node. rewrite (proj2 (Z.ltb_ge P _)) by lia. cbn [negb res_bind]. rewrite Eps, Eck. done.
Qed.

Lemma protected_ok held key0 P E x : forall r fuel node k ck value total c fs ss p, ev_ok (py_from value (P - total) ++ held) c fs ss -> tombs_free (bares c) fs ->
  node ∈ root_node c :: fs -> aligned (sc_page_size c) k -> zlen value = key_len k -> walked (bares c) (root_node c) key0 k node p ->
  (0 < key_len k -> child_key k (sc_page_size c) = Ok ck) -> key_len k < Z.of_nat fuel ->
  path_to (bares c) (root_node c) (Some x) (r ++ p) -> (forall i, i ∈ r -> i ∈ fs) -> concat (map (node_units (bares c)) (reverse r)) `prefix_of` units k ->
  P = total + units_len (bares c) r ->
  exists fuel' k' ck' c' fs' ss', swa_insert_loop fuel node k ck value total P E c = swa_insert_loop fuel' x k' ck' (py_from value (P - total)) P P E c'
    /\ inserting held key0 c' fs' ss' x k' (py_from value (P - total)) (r ++ p) /\ grow_frame c c'
    /\ (0 < key_len k' -> child_key k' (sc_page_size c) = Ok ck') /\ key_len k' < Z.of_nat fuel' /\ key_len k' = key_len k - (P - total).
Proof.
  induction r as [|q r IH] using rev_ind; intros fuel node k ck value total c fs ss p Hev Htb Hnode Hal Hlen Hwk Hck Hf Hpx Hrf Hpre HP.
  - unfold units_len in HP. simpl in HP. change (zlen []) with 0 in HP. assert (P = total) as -> by lia. simpl in Hpx. destruct Hwk as [Hp Hu].
    pose proof (path_to_head _ _ _ _ _ Hpx Hp) as [= ->]. rewrite Z.sub_diag in *.
    assert (py_from value 0 = value) as Hv0 by (rewrite py_from_nonneg by lia; done). rewrite Hv0 in *.
    exists fuel, k, ck, c, fs, ss. split; [done|]. split; [by split|]. split; [done|]. split; [done|]. split; [lia|lia].
  - rewrite <- app_assoc in Hpx. cbn [app] in Hpx. pose proof (path_to_suffix _ _ _ _ q r p Hpx eq_refl) as Hpq.
    destruct (path_to_cons _ _ _ _ _ Hpq) as (nq & Hnq & Hp2). pose proof (path_to_head _ _ _ _ _ Hp2 (proj1 Hwk)) as Hpar.
    rewrite reverse_app in Hpre. cbn [reverse] in Hpre. change (reverse [q]) with [q] in Hpre. cbn [app map concat] in Hpre.
    assert (node_units (bares c) q = units (sn_key nq)) as Huq by (unfold node_units; by rewrite Hnq). rewrite Huq in Hpre. destruct Hpre as [rest Hk]. rewrite <- app_assoc in Hk.
    assert (units_len (bares c) (r ++ [q]) = units_len (bares c) r + key_len (sn_key nq)) as Hul.
    { unfold units_len. rewrite map_app, concat_app, zlen_app. cbn [map concat]. rewrite app_nil_r, Huq, zlen_units. done. }
    assert (0 <= units_len (bares c) r) as Hrn by apply zlen_nonneg. rewrite Hul in HP.
    destruct (protected_step _ c fs ss node k ck q value total P E p nq _ Hev Hnode Hal Hck ltac:(apply Hrf; set_solver) Hnq Hpar Hk ltac:(lia) (proj1 Hwk))
      as (c1 & fs1 & ss1 & ck1 & F1 & B1 & M1 & Hev1 & Hal1 & Hk1 & Hck1 & Hm1 & Hloop). set (m := key_len (sn_key nq)) in *. set (k1 := key_slice k (Some m) None) in *.
    pose proof F1 as (Er & _ & _ & _ & _ & _ & _ & _ & Eps & _). destruct fuel as [|fuel]; [pose proof (key_len_nonneg k); lia|]. rewrite Hloop.
    assert (units k1 = concat (map (node_units (bares c)) (reverse r)) ++ rest) as Hu1.
    { unfold k1. rewrite units_from by lia. rewrite Hk. pose proof (zlen_units (sn_key nq)) as U. unfold zlen in U. apply drop_app_length'. lia. }
    assert (py_from (py_from value m) (P - (total + m)) = py_from value (P - total)) as Hvv by (rewrite !py_from_nonneg, drop_drop by lia; f_equal; lia).
    destruct (IH fuel q k1 ck1 (py_from value m) (total + m) c1 fs1 ss1 (q :: p)) as (fuel' & k' & ck' & c' & fs' & ss' & E1 & Hin & Hf' & Hck' & Hfu & Hk').
    + by rewrite Hvv.
    + rewrite B1. intros j o Hj. by apply Htb, M1.
    + rewrite Er. right. apply M1, Hrf. set_solver.
    + by rewrite Eps.
    + rewrite zlen_py_from by lia. lia.
    + rewrite B1, Er. split; [done|]. rewrite (proj2 Hwk), reverse_cons, map_app, concat_app, <- app_assoc. f_equal. cbn [map concat]. rewrite app_nil_r, Huq, Hk, Hu1. done.
    + by rewrite Eps.
    + lia.
    + by rewrite B1, Er.
    + intros j Hj. apply M1, Hrf. set_solver.
    + rewrite B1, Hu1. by eexists.
    + rewrite B1. lia.
    + rewrite Hvv in E1, Hin. exists fuel', k', ck', c', fs', ss'. split; [done|]. rewrite <- app_assoc. split; [done|]. split; [etrans; [by apply same_frame_grow|done]|].
      rewrite Eps in Hck'. split; [done|]. split; [lia|lia].
Qed.

(** * The rest of the key, and [insert] *)

(** ** A new node for inserted slots *)

Lemma grow_new_node held c fs ss node nd key value tomb ck key0 k p : ev_ok (value ++ held) c fs ss -> tombs_free (bares c) fs -> node ∈ root_node c :: fs ->
  bares c !! node = Some nd -> child_key key (sc_page_size c) = Ok ck -> sn_children nd !! ck = None -> aligned (sc_page_size c) key -> 0 < key_len key ->
  zlen value = key_len key -> path_to (bares c) (root_node c) (Some node) p -> units key0 = concat (map (node_units (bares c)) (reverse p)) ++ units key ++ units k ->
  exists nw c', add_new_node node key value tomb c = Ok (nw, c') /\ ev_ok held c' (nw :: fs) (if tomb then ss else nw :: ss) /\ tombs_free (bares c') (nw :: fs)
    /\ grow_frame c c' /\ walked (bares c') (root_node c) key0 k nw (nw :: p) /\ exists nn, bares c' !! nw = Some nn /\ sn_children nn = ∅.
Proof.
  intros [Hc Hinv] Htb Hnode Hnd Hck Hfree Hal Hpos Hlen Hp Hu. pose proof (ck_wf _ _ _ Hc) as Hw. pose proof (cw_tree _ _ _ Hw) as Ht.
  destruct (add_new_node_ok c fs ss node nd key value tomb ck Hc Hnode Hnd Hck Hfree Hal Hpos Hlen) as (c' & E & Hc' & B' & Er & Eps & EW & Ed & Ea & _).
  set (nw := node_counter c) in *. assert (bares c !! nw = None) as Hnw.
  { destruct (bares c !! nw) eqn:E0; [|done]. apply bares_in_dom, (cw_fresh _ _ _ Hw) in E0. unfold nw in E0. lia. }
  assert (node <> nw) as Hnn by congruence. assert (nw ∉ fs) as Hnf by (intros Hx; destruct (tw_node _ _ _ _ Ht nw Hx) as (? & ? & ? & _); congruence).
  assert (bares c' !! nw = Some (fresh_node node key value tomb)) as Ln by (rewrite B'; eapply add_at_new; eauto).
  assert (forall i o, bares c !! i = Some o -> i <> nw -> exists o', bares c' !! i = Some o' /\ set_sn_children ∅ o' = set_sn_children ∅ o) as Hold by (intros; rewrite B'; by eapply add_old).
  assert (nw ∉ p) as Hnp by (intros Hx; apply (path_to_dom _ _ _ _ Hp) in Hx; apply elem_of_dom in Hx as [? ?]; congruence).
  exists nw, c'. split; [done|]. split; [|split; [|split; [|split]]].
  - split; [done|]. rewrite Ea. eapply swa_inv_perm; [|exact Hinv]. unfold owned_slots at 2. cbn [map concat]. rewrite (val_of_lookup _ nw _ value Ln) by done.
    fold (owned_slots (bares c') fs). rewrite (tree_slots_ext (bares c) (bares c') fs); [clear; perm_solver|]. intros i Hi. destruct (tw_node _ _ _ _ Ht i Hi) as (o & _ & Ho & _).
    destruct (Hold i o Ho) as (o' & Ho' & Eo); [by intros ->|]. unfold val_of. rewrite Ho, Ho'. apply (f_equal sn_value) in Eo. simpl in Eo. by rewrite Eo.
  - intros i o' Hi Ho' Hto. apply elem_of_cons in Hi as [->|Hi]; [rewrite Ln in Ho'; by injection Ho' as <-|]. destruct (tw_node _ _ _ _ Ht i Hi) as (o & _ & Ho & _).
    destruct (Hold i o Ho) as (o1 & Ho1 & Eo); [by intros ->|]. rewrite Ho' in Ho1. injection Ho1 as <-.
    pose proof (f_equal swa_lock_ref Eo) as X1. pose proof (f_equal swa_tombstone Eo) as X2. simpl in X1, X2. rewrite X1. apply (Htb i o Hi Ho). by rewrite <- X2.
  - unfold grow_frame, pool_frame. by rewrite Ea.
  - destruct (keep_views _ _ nw Hold _ _ _ Hp Hnp) as (_ & K & _). split.
    + econstructor; [|exact Ln|]; [intros E0; destruct (tw_root _ _ _ _ Ht) as [(? & ? & _) _]; congruence|]. simpl. by eapply keep_path.
    + rewrite Hu, reverse_cons, map_app, concat_app, (map_reverse_ext _ _ _ K), <- app_assoc. f_equal. cbn [map concat]. rewrite app_nil_r. f_equal.
      unfold node_units. by rewrite Ln.
  - exists (fresh_node node key value tomb). done.
Qed.

(** ** [_maybe_split_leaf_for_swa_lock] *)

Lemma split_leaf_ok held c fs ss leaf key0 k p : ev_ok held c fs ss -> tombs_free (bares c) fs -> leaf ∈ fs -> walked (bares c) (root_node c) key0 k leaf p ->
  exists c' fs' ss' p', maybe_split_leaf_for_swa_lock leaf c = Ok c' /\ ev_ok held c' fs' ss' /\ tombs_free (bares c') fs' /\ grow_frame c c'
    /\ walked (bares c') (root_node c) key0 k leaf p'.
Proof.
  intros Hev Htb Hl Hwk. pose proof (proj1 Hev) as Hc. pose proof (ck_wf _ _ _ Hc) as Hw. pose proof (cw_tree _ _ _ Hw) as Ht. destruct (cw_sizes _ _ _ Hw) as [Hps HW].
  destruct (tw_node _ _ _ _ Ht leaf Hl) as (n & v & Hn & Hv & Hlen & Hal & Hpos & _).
  assert (exists c' fs' ss' p', Ok c = Ok c' /\ ev_ok held c' fs' ss' /\ tombs_free (bares c') fs' /\ grow_frame c c' /\ walked (bares c') (root_node c) key0 k leaf p') as Hstay
    by (exists c, fs, ss, p; split_and!; done).
  unfold maybe_split_leaf_for_swa_lock. rewrite decide_False by (intros ->; by destruct (tw_root _ _ _ _ Ht)).
  destruct (sc_node_bares c leaf n Hn) as (n0 & -> & V0). cbn [res_bind].
  assert (sn_value n0 = sn_value n /\ sn_key n0 = sn_key n) as [X1 X2] by by rewrite <- V0.
  destruct (_ || _); [exact Hstay|]. unfold sn_tensor. rewrite X1, Hv. cbn [res_bind]. destruct (zlen v =? 0); [exact Hstay|].
  destruct (zlen v <=? _); [exact Hstay|]. set (at_ := zlen v - _). destruct (at_ <=? 0) eqn:E1; [exact Hstay|]. destruct (zlen v <=? at_) eqn:E2; [exact Hstay|]. cbn [orb].
  destruct (_ && _) eqn:E3; [exact Hstay|]. apply Z.leb_gt in E1, E2. rewrite X2.
  assert (sc_page_size c | at_) as Hdiv.
  { destruct (Z.eq_dec (sc_page_size c) 1) as [->|Hne]; [apply Z.divide_1_l|]. apply andb_false_iff in E3 as [E3|E3]; [apply Z.ltb_ge in E3; lia|].
    apply orb_false_iff in E3 as [E3 _]. apply negb_false_iff, Z.eqb_eq in E3. apply Z.mod_divide; [lia|done]. }
  destruct (swa_split_cache_ok c fs ss leaf n v at_ Hc Hl Hn Hv) as (q & pn & kk & kc & c1 & Hq & Hqi & Hpn & Hnw & Es & F1 & B1 & Hc1); [lia|done|].
  rewrite Es. cbn [res_bind]. destruct (split_walked _ _ _ fs Ht leaf q _ n pn v at_ kk kc Hl Hn Hpn Hq Hnw ltac:(lia) key0 k p Hwk ltac:(lia)) as (p' & Hwk').
  eexists c1, _, _, p'. split; [done|]. split; [|split; [|split; [by apply same_frame_grow|by rewrite B1]]].
  - split; [exact Hc1|]. destruct F1 as (_ & _ & _ & _ & _ & _ & _ & -> & _). rewrite B1. eapply swa_inv_perm; [|apply Hev]. f_equiv. symmetry.
    eapply split_owned_slots; eauto; [by eapply lists_nodup, cw_lists|lia].
  - rewrite B1. by eapply split_tombs.
Qed.

(** ** The rest of the key *)

Lemma insert_rest_ok held key0 c fs ss node k value p total E split_leaf : inserting held key0 c fs ss node k value p -> 0 < key_len k ->
  (exists ck nd, child_key k (sc_page_size c) = Ok ck /\ bares c !! node = Some nd /\ sn_children nd !! ck = None) ->
  (sc_page_size c | total) -> (sc_page_size c | E) ->
  exists c' fs' ss' y p', insert_rest split_leaf node k value total E c = Ok (total, c')
    /\ ev_ok held c' fs' ss' /\ tombs_free (bares c') fs' /\ grow_frame c c'
    /\ (E <> total + key_len k -> path_to (bares c') (root_node c) (Some y) p' /\ units key0 = concat (map (node_units (bares c')) (reverse p'))).
Proof.
  intros [Hev Htb Hnode Hal Hlen [Hp Hu]] Hk (ck & nd & Hck & Hnd & Hfree) Htot HE. destruct (cw_sizes _ _ _ (ck_wf _ _ _ (proj1 Hev))) as [Hps _].
  unfold insert_rest. destruct (Z.eqb_spec E (total + key_len k)) as [He|He].
  { destruct (sc_free_inv c value _ (owned_slots (bares c) fs ++ held) (proj2 Hev)) as (a & -> & Ha & Hf); [apply Permutation_app_swap_app|].
    cbn [res_bind]. exists (with_allocator a c), fs, ss, 0%nat, []. split_and!; try done. split; [by apply with_allocator_ok, Hev|done]. }
  set (kend := key_slice k (Some (key_len k)) None). assert (units kend = []) as Hend.
  { unfold kend. rewrite units_from by lia. apply drop_ge. pose proof (zlen_units k) as U. unfold zlen in U. lia. }
  assert (forall node' key' value' c1 fs1 ss1 p1 nd' ck', ev_ok (value' ++ held) c1 fs1 ss1 -> tombs_free (bares c1) fs1 -> node' ∈ root_node c1 :: fs1 -> grow_frame c c1 ->
    bares c1 !! node' = Some nd' -> child_key key' (sc_page_size c) = Ok ck' -> sn_children nd' !! ck' = None -> aligned (sc_page_size c) key' -> 0 < key_len key' ->
    zlen value' = key_len key' -> path_to (bares c1) (root_node c) (Some node') p1 -> units key0 = concat (map (node_units (bares c1)) (reverse p1)) ++ units key' ->
    exists c' fs' ss' y p', (let* (new_leaf, c) := add_new_node node' key' value' false c1 in
        let* c := if split_leaf then maybe_split_leaf_for_swa_lock new_leaf c else Ok c in Ok (total, c)) = Ok (total, c')
      /\ ev_ok held c' fs' ss' /\ tombs_free (bares c') fs' /\ grow_frame c c'
      /\ (E <> total + key_len k -> path_to (bares c') (root_node c) (Some y) p' /\ units key0 = concat (map (node_units (bares c')) (reverse p')))) as Hleaf.
  { intros node' key' value' c1 fs1 ss1 p1 nd' ck' Hev1 Htb1 Hnode1 Hf1 Hnd1 Hck1 Hfr1 Hal1 Hk1 Hlen1 Hp1 Hu1. pose proof Hf1 as (Er & Eps & _).
    destruct (grow_new_node held c1 fs1 ss1 node' nd' key' value' false ck' key0 kend p1) as (nw & c2 & -> & Hev2 & Htb2 & Hf2 & Hwk2 & _);
      [done|done|done|done|by rewrite Eps|done|by rewrite Eps|done|done|by rewrite Er|by rewrite Hu1, Hend, app_nil_r|]. cbn [res_bind]. pose proof Hf2 as (Er2 & _).
    assert (exists c' fs' ss' p', (if split_leaf then maybe_split_leaf_for_swa_lock nw c2 else Ok c2) = Ok c' /\ ev_ok held c' fs' ss' /\ tombs_free (bares c') fs' /\ grow_frame c2 c'
      /\ walked (bares c') (root_node c2) key0 kend nw p') as (c' & fs' & ss' & p' & -> & ? & ? & Hf3 & [Hp3 Hu3]).
    { rewrite <- Er2 in Hwk2. destruct split_leaf; [|exists c2, (nw :: fs1), (nw :: ss1), (nw :: p1); split_and!; done]. eapply split_leaf_ok; eauto. left. }
    cbn [res_bind]. exists c', fs', ss', nw, p'. split; [done|]. split; [done|]. split; [done|]. split; [etrans; [exact Hf1|by etrans]|]. intros _.
    rewrite Er2, Er in Hp3. split; [done|]. by rewrite Hu3, Hend, app_nil_r. }
  destruct (Z.ltb_spec total E) as [H1|H1]; [destruct (Z.ltb_spec E (total + key_len k)) as [H2|H2]|]; cbn [andb].
  2,3: cbn [res_bind]; by apply (Hleaf node k value c fs ss p nd ck).
  set (L := E - total). assert (sc_page_size c | L) as HL by by apply Z.divide_sub_r.
  assert (sc_page_size c <= L) as HLps by (apply Z.divide_pos_le; [unfold L; lia|done]).
  assert (exists ck1, child_key (key_slice k None (Some L)) (sc_page_size c) = Ok ck1) as [ck1 Hck1] by (rewrite child_key_encode by (rewrite key_len_upto by (unfold L; lia); lia); eauto).
  assert (ck1 = ck) as ->.
  { assert (child_key (key_slice k None (Some L)) (sc_page_size c) = child_key k (sc_page_size c)) as Ec; [|congruence].
    apply child_key_inj; [rewrite key_len_upto by (unfold L; lia); lia|unfold L in *; lia|]. rewrite units_upto, take_take by (unfold L; lia). f_equal. lia. }
  assert (units k = units (key_slice k None (Some L)) ++ units (key_slice k (Some L) None)) as Hsplit by (rewrite units_upto, units_from by (unfold L; lia); by rewrite take_drop).
  rewrite <- (py_upto_from value L), <- app_assoc in Hev by (unfold L; lia).
  destruct (grow_new_node (py_from value L ++ held) c fs ss node nd (key_slice k None (Some L)) (py_upto value L) true ck key0 (key_slice k (Some L) None) p)
    as (nw & c1 & -> & Hev1 & Htb1 & Hf1 & [Hp1 Hu1] & nn & Hnn & Hch);
    [done|done|done|done|done|done|unfold aligned; by rewrite key_len_upto by (unfold L; lia)|rewrite key_len_upto by (unfold L; lia); lia
    |rewrite zlen_py_upto, key_len_upto by (unfold L; lia); done|done|by rewrite Hu, Hsplit|]. cbn [res_bind]. pose proof Hf1 as (Er & Eps & _).
  destruct (next_child_key (sc_page_size c) k L ck Hps Hal HL) as (Hal' & Ek' & ck' & _ & Hck'); [unfold L; lia|].
  eapply (Hleaf nw _ _ c1 (nw :: fs) ss (nw :: p) nn ck'); [done|done|by right; left|done|done|apply Hck'; unfold L in *; lia|by rewrite Hch, lookup_empty|done|unfold L in *; lia| |done|done].
  rewrite zlen_py_from by (unfold L; lia). lia.
Qed.

(** ** [insert] *)

Lemma units_len_aligned B root ps fs p : tree_wf B root ps fs -> (forall i, i ∈ p -> i ∈ fs) -> (ps | units_len B p).
Proof.
  intros Ht. unfold units_len. induction p as [|i p IH]; intros Hp; [apply Z.divide_0_r|]. cbn [map concat]. rewrite zlen_app.
  apply Z.divide_add_r; [|apply IH; intros; apply Hp; by right]. destruct (tw_node _ _ _ _ Ht i) as (n & _ & Hn & _ & _ & Hal & _); [apply Hp; left|].
  unfold node_units. rewrite Hn, zlen_units. exact Hal.
Qed.

Lemma units_len_reverse B p : zlen (concat (map (node_units B) (reverse p))) = units_len B p.
Proof.
  unfold units_len. induction p as [|i p IH]; [done|]. rewrite reverse_cons, map_app, concat_app, zlen_app, IH. cbn [map concat]. rewrite app_nil_r, zlen_app. lia.
Qed.

(** The stamp on the root. *)
Lemma stamp_root held c fs ss : ev_ok held c fs ss -> exists c', (let (now, c1) := get_last_access_time c in sc_set (set_sn_access now) (root_node c) c1) = Ok c'
  /\ ev_ok held c' fs ss /\ same_frame c c' /\ bares c' = bares c.
Proof.
  intros Hev. pose proof (proj1 Hev) as Hc. pose proof (ck_wf _ _ _ Hc) as Hw. destruct (tw_root _ _ _ _ (cw_tree _ _ _ Hw)) as [(rn & Hrn & _) _].
  unfold get_last_access_time. set (c0 := with_counters _ _ _ c). assert (lists_wf c0 fs ss) as Hl0 by (destruct (cw_lists _ _ _ Hw); by split).
  destruct (bares_inv c _ rn Hrn) as (n0 & Hn0 & _). destruct (access_wf c0 fs ss (access_counter c) (root_node c) n0 Hl0 Hn0) as (c1 & E1 & W1 & F1 & B1 & N1 & _).
  exists c1. split; [done|]. assert (swa_cache_ok c1 fs ss) as Hc1 by (eapply (cache_ok_reorder c c1 fs ss); [done|done|exact F1|exact B1|exact N1|done|done]).
  split; [by eapply ev_ok_reorder|]. split; [exact F1|exact B1].
Qed.

Lemma swa_insert_helper_ok held split_leaf key0 value P E c fs ss x p : aligned (sc_page_size c) key0 -> zlen value = key_len key0 ->
  ev_ok (py_from value P ++ held) c fs ss -> tombs_free (bares c) fs -> path_to (bares c) (root_node c) (Some x) p -> x ∈ root_node c :: fs ->
  concat (map (node_units (bares c)) (reverse p)) `prefix_of` units key0 -> P = units_len (bares c) p -> (sc_page_size c | E) ->
  exists m c' fs' ss', swa_insert_helper split_leaf (root_node c) key0 value P E c = Ok (m, c') /\ ev_ok held c' fs' ss' /\ tombs_free (bares c') fs' /\ grow_frame c c'
    /\ P <= m <= key_len key0
    /\ (E <> key_len key0 \/ m = key_len key0 -> exists y p', path_to (bares c') (root_node c) (Some y) p' /\ units key0 = concat (map (node_units (bares c')) (reverse p'))).
Proof.
  intros Hal Hlen Hev Htb Hp Hx Hpre HP HE. pose proof (ck_wf _ _ _ (proj1 Hev)) as Hw. destruct (cw_sizes _ _ _ Hw) as [Hps _].
  pose proof (tree_path_sub _ _ _ _ x p (cw_tree _ _ _ Hw) Hp Hx) as Hpf. pose proof (units_len_aligned _ _ _ _ p (cw_tree _ _ _ Hw) Hpf) as HPal. rewrite <- HP in HPal.
  assert (0 <= P <= key_len key0) as HPb.
  { rewrite HP. split; [apply zlen_nonneg|]. destruct Hpre as [r Hr]. pose proof (f_equal zlen Hr) as Hz. rewrite zlen_units, zlen_app, units_len_reverse in Hz. pose proof (zlen_nonneg r). lia. }
  unfold swa_insert_helper. rewrite decide_True by done. destruct (stamp_root _ c fs ss Hev) as (c0 & -> & Hev0 & F0 & B0). cbn [res_bind].
  apply same_frame_grow in F0. pose proof F0 as (Er & Eps & _). pose proof (key_len_nonneg key0) as Hk0. destruct (Z.eqb_spec (key_len key0) 0) as [Hz|Hz].
  { assert (value = []) as -> by (apply zlen_zero_inv; lia). rewrite py_from_nonneg, drop_nil in Hev0 by lia. simpl in Hev0.
    exists 0, c0, fs, ss. split; [done|]. split; [done|]. split; [by rewrite B0|]. split; [done|]. split; [lia|]. intros _. exists (root_node c), []. split; [constructor|].
    pose proof (zlen_units key0) as U. rewrite Hz in U. by rewrite (zlen_zero_inv _ U). }
  assert (exists ck, child_key key0 (sc_page_size c0) = Ok ck) as [ck Hck] by (rewrite Eps; rewrite child_key_encode; [eauto|]; assert (sc_page_size c <= key_len key0) by (apply Z.divide_pos_le; [lia|exact Hal]); lia).
  rewrite Hck. cbn [res_bind].
  destruct (protected_ok held key0 P E x p (S (Z.to_nat (key_len key0))) (root_node c) key0 ck value 0 c0 fs ss []) as (fuel' & k1 & ck1 & c1 & fs1 & ss1 & E1 & Hin1 & F1 & Hck1 & Hfu & Hk1).
  - by rewrite Z.sub_0_r.
  - by rewrite B0.
  - rewrite Er. left.
  - by rewrite Eps.
  - done.
  - rewrite B0, Er. split; [constructor|done].
  - intros _. exact Hck.
  - lia.
  - by rewrite B0, Er, app_nil_r.
  - done.
  - by rewrite B0.
  - rewrite B0. lia.
  - rewrite Z.sub_0_r in *. rewrite E1. pose proof F1 as (Er1 & Eps1 & _).
    destruct (swa_insert_loop_ok held key0 P E fuel' x k1 ck1 (py_from value P) P c1 fs1 ss1 (p ++ []) Hin1) as (node & k2 & v2 & total & c2 & fs2 & ss2 & p2 & -> & Hin2 & F2 & Ht2 & Hb2 & Hend);
      [by rewrite Eps1|done|done|by rewrite Eps1, Eps|by rewrite Eps1, Eps|]. cbn [res_bind]. pose proof F2 as (Er2 & Eps2 & _).
    assert (grow_frame c c2) as Fc2 by (etrans; [exact F0|by etrans]). pose proof Fc2 as (Erc & Epsc & _).
    destruct (Z.eqb_spec (key_len k2) 0) as [Hz2|Hz2].
    + pose proof Hin2 as [Hev2 Htb2 _ _ Hl2 [Hp2 Hu2]]. assert (v2 = []) as -> by (apply zlen_zero_inv; lia). simpl in Hev2.
      exists total, c2, fs2, ss2. split; [done|]. split; [done|]. split; [done|]. split; [done|]. split; [lia|]. intros _. exists node, p2. rewrite Erc in Hp2. split; [done|].
      pose proof (zlen_units k2) as U. rewrite Hz2 in U. by rewrite Hu2, (zlen_zero_inv _ U), app_nil_r.
    + destruct (insert_rest_ok held key0 c2 fs2 ss2 node k2 v2 p2 total E split_leaf Hin2 ltac:(lia)) as (c3 & fs3 & ss3 & y & p3 & -> & Hev3 & Htb3 & F3 & Hsp).
      * destruct Hend as (ck' & nd' & H1 & H2 & H3); [lia|]. exists ck', nd'. rewrite Eps2. done.
      * rewrite Epsc. replace total with (key_len key0 - key_len k2) by lia. apply Z.divide_sub_r; [exact Hal|]. pose proof (in_aligned _ _ _ _ _ _ _ _ _ Hin2) as Ha. by rewrite Epsc in Ha.
      * by rewrite Epsc.
      * exists total, c3, fs3, ss3. split; [done|]. split; [done|]. split; [done|]. split; [by etrans|]. split; [lia|]. intros [He|He]; [|lia].
        exists y, p3. rewrite <- Erc. apply Hsp. lia.
Qed.

Lemma swa_insert_ok held split_leaf key value P E c fs ss x p : let key0 := swa_lookup_key key c in
  key_len key0 <= zlen value -> sc_disable c = false ->
  ev_ok (py_from (py_upto value (key_len key0)) P ++ held) c fs ss -> tombs_free (bares c) fs -> path_to (bares c) (root_node c) (Some x) p -> x ∈ root_node c :: fs ->
  concat (map (node_units (bares c)) (reverse p)) `prefix_of` units key0 -> P = units_len (bares c) p -> (sc_page_size c | E) ->
  exists m c' fs' ss', swa_insert split_leaf key (Some value) P E c = Ok (m, c') /\ ev_ok held c' fs' ss' /\ tombs_free (bares c') fs' /\ grow_frame c c'
    /\ P <= m <= key_len key0
    /\ (E <> key_len key0 \/ m = key_len key0 -> exists y p', path_to (bares c') (root_node c) (Some y) p' /\ units key0 = concat (map (node_units (bares c')) (reverse p'))).
Proof.
  intros key0 Hlen Hd Hev Htb Hp Hx Hpre HP HE. destruct (cw_sizes _ _ _ (ck_wf _ _ _ (proj1 Hev))) as [Hps _].
  assert (aligned (sc_page_size c) key0) as Hal by by apply page_aligned_aligned.
  unfold swa_insert. rewrite Hd.
  destruct (maybe_to_bigram_view key (sc_is_eagle c) (Some value)) as [k1 v1] eqn:Ev.
  assert (page_aligned k1 (sc_page_size c) = key0 /\ exists w, v1 = Some w /\ py_upto w (key_len key0) = py_upto value (key_len key0)) as (-> & w & -> & ->).
  { unfold key0, swa_lookup_key. unfold maybe_to_bigram_view in *. pose proof (key_len_nonneg key0) as H0. unfold key0, swa_lookup_key, maybe_to_bigram_view in H0.
    destruct (sc_is_eagle c && negb (is_bigram key)); injection Ev as <- <-; (split; [done|]); eexists; (split; [done|]); [|done]. simpl in *.
    rewrite page_aligned_len in * by done. set (k2 := MkRadixKey _ _ _) in *. pose proof (Z.mul_div_le (key_len k2) (sc_page_size c) ltac:(lia)).
    rewrite !py_upto_nonneg by lia. rewrite take_take. f_equal. lia. }
  apply (swa_insert_helper_ok held split_leaf key0 _ P E c fs ss x p); try done. rewrite zlen_py_upto by (pose proof (key_len_nonneg key0); lia). done.
Qed.
