(* ===== verification/SwaClaims.v ===== *)
(** The theorems on the sliding-window radix cache: its recency lists, its locks and
    [match_prefix], [evict], [insert]; and what an insertion may do to slots that are still locked. *)

From S2P Require Export SwaInsertLoop.

(** ** Recency lists *)

(** C16: The two recency lists of a cache behave as independent sequences of nodes, most recently
    used first: any sequence of insertions, removals, moves and moves of a node with its parents,
    on either list, has exactly the effect of the same operations on sequences, and fails exactly
    where a precondition that the source asserts is violated. The lists thread through the same
    nodes and neither disturbs the other or any other attribute of a node. *)
Theorem lru_lists_refine_sequences st q ops
  (Hst : lists_ok st q) (Hops : ops_ok st ops) :
  match seq_ops (lp_store st) ops q with
  | None => run_ops ops st = Raise AssertionError
  | Some q' => exists st', run_ops ops st = Ok st' /\ lists_ok st' q' /\ same_nodes (lp_store st) (lp_store st')
  end.
Proof. by apply run_ops_refine. Qed.

(** The searches that drive eviction terminate and are right: [get_lru_no_lock] returns the
    least recently used node without a lock, [get_leaf_lru_no_lock] the least recently used leaf
    without a lock, [None] when there is none, and summing over repeated searches gives the number
    of evictable tokens. *)
Theorem lru_searches_correct l s ns (Hl : lru_ok l s ns) (Hv : Forall (has_value s) ns) :
  get_lru_no_lock l s = Ok (last (filter (unlocked (is_swa_list l) s) ns))
  /\ get_leaf_lru_no_lock l s = Ok (last (filter (unlocked_leaf (is_swa_list l) s) ns))
  /\ sanity_check_evictable_size l s = Ok (zsum (map (vlen s) (filter (unlocked (is_swa_list l) s) ns))).
Proof.
  split; [by apply get_lru_no_lock_ok|]. split; [by apply get_leaf_lru_no_lock_ok|by apply sanity_check_evictable_size_ok].
Qed.

(** ** Locks *)

(** C17: Locks balance, for any number of requests and any order of locking and unlocking on a
    tree: the full lock count of a node is the number of holders whose path contains it, the
    sliding-window count the number of holders whose window contains it; the four token counters
    are the sums they stand for; any further node with an intact window can be locked and every
    held lock can be released; and when nothing is held nothing is protected. *)
Theorem swa_locks_balance c0 ns c H
  (Htree : swa_tree_ok (sc_nodes c0) (root_node c0) (sliding_window_size c0) ns c0)
  (Hr : rtc (swa_lock_step (sc_nodes c0) (root_node c0) (sliding_window_size c0) ns) (c0, []) (c, H)) :
  let path := path_of (sc_nodes c0) (root_node c0) in
  let win := window_of (sc_nodes c0) (root_node c0) (sliding_window_size c0) in
  swa_sizes_ok c ns
  /\ (forall i n, i ∈ ns -> sc_nodes c !! i = Some n ->
        full_lock_ref n = holders_of path H i /\ swa_lock_ref n = holders_of win H i)
  /\ (forall x, may_lock (sc_nodes c0) (root_node c0) (sliding_window_size c0) ns x -> exists u c', swa_inc_lock_ref x c = Ok (u, c'))
  /\ (forall x u, (x, u) ∈ H -> exists c', swa_dec_lock_ref x u false c = Ok c')
  /\ (H = [] -> full_protected_size_ c = 0 /\ swa_protected_size_ c = 0).
Proof.
  intros path win. pose proof (locks_reachable _ _ _ _ c0 Htree c H Hr) as Hl. split_and!.
  - apply Hl.
  - apply Hl.
  - intros x Hx. destruct (inc_holds _ _ _ _ c0 Htree c H x Hl Hx) as (u & c' & ? & _). eauto.
  - intros x u [H' HP]%elem_of_Permutation. destruct (dec_holds _ _ _ _ c0 Htree c H x u H' Hl HP) as (c' & ? & _). eauto.
  - intros ->. destruct (lk_sizes _ _ _ _ _ _ Hl) as (_ & _ & -> & ->). split; (apply node_total_zero; intros i n Hi Hn;
      destruct (lk_count _ _ _ _ _ _ Hl i n Hi Hn) as [E1 E2]; cbn in E1, E2); unfold full_protected, swa_protected;
      rewrite ?E1, ?E2; by destruct (swa_tombstone n).
Qed.

(** ** Matching *)

(** C13: On a well-formed cache [match_prefix] succeeds, keeps the cache well formed, and returns
    the slots along a path from the root whose keys are a prefix of the looked-up key; the window
    behind the returned node has all its sliding-window slots, so that [inc_lock_ref] on it, which
    asserts this, succeeds and locks the path and its window. *)
Theorem swa_match_then_lock key c fs ss (Hc : swa_cache_ok c fs ss) (Hd : sc_disable c = false) :
  exists out x c' fs' ss' p u c'',
    swa_match_prefix key c = Ok (out, x, c') /\ swa_cache_ok c' fs' ss'
    /\ path_to (sc_nodes c') (root_node c') (Some x) p
    /\ out = concat (map (val_of (bares c')) (reverse p))
    /\ concat (map (node_units (bares c')) (reverse p)) `prefix_of` units (swa_lookup_key key c)
    /\ window_live (sc_nodes c') (sliding_window_size c') 0 p
    /\ swa_inc_lock_ref x c' = Ok (u, c'') /\ swa_sizes_ok c'' fs'
    /\ locked 1 (sc_nodes c') (sc_nodes c'') p (window (sc_nodes c') (sliding_window_size c') 0 p).
Proof.
  destruct (swa_match_prefix_ok key c fs ss Hc) as (out & x & c' & fs' & ss' & p & E & Hc' & Hf & Hp & Hsub & Ho & Hu & Hl).
  assert (sc_disable c' = false) as Hd' by (destruct Hf as (_ & _ & _ & _ & _ & _ & _ & _ & _ & _ & -> & _); done).
  destruct (lock_succeeds c' fs' ss' x p Hc' Hd' Hp Hsub Hl) as (u & c'' & E2 & HS & HL).
  exists out, x, c', fs', ss', p, u, c''. split_and!; try done; [by apply path_view|by apply window_live_view].
Qed.

(** ** Eviction *)


(** ** Insertion *)


(** ** Slots that are still in use

    A request holds a lock on a path whose first node lost its sliding-window slots; another
    request, which therefore could not match that node, inserts its own copy. *)

Definition take_slots (n : Z) (c : SWARadixCache) : res (list Z * SWARadixCache) :=
  let* (o, a) := swa_alloc (token_to_kv_pool_allocator c) n in
  match o with Some l => Ok (l, with_allocator a c) | None => Raise RuntimeError end.

Definition token_key (l : list Z) : RadixKey := MkRadixKey l None false.

Definition swa_two_requests : res (list Z * nat * SWARadixCache) :=
  let c := sc_init (swa_init false 20 20 1 false false) 1 2 false false in
  let* (v, c) := take_slots 8 c in
  let* (_, c) := swa_insert false (token_key [10; 11; 12; 13]) (Some (py_upto v 4)) 0 0 c in
  let* (_, c) := swa_insert false (token_key [10; 11; 12; 13; 14; 15; 16; 17]) (Some v) 4 0 c in
  let* (held, x, c) := swa_match_prefix (token_key [10; 11; 12; 13; 14; 15; 16; 17]) c in
  let* (_, c) := swa_inc_lock_ref x c in
  let* (_, _, c) := swa_evict 0 4 c in
  let* (_, _, c) := swa_match_prefix (token_key [10; 11; 12; 13; 20]) c in
  let* (w, c) := take_slots 5 c in
  let* (_, c) := swa_insert false (token_key [10; 11; 12; 13; 20]) (Some w) 0 0 c in
  Ok (held, x, c).

(** The first request matched the slots 1 to 8 and still holds its lock; the second request's
    insertion has put the slots 1 to 4 back into the pool. *)
Lemma insert_frees_locked_slots : exists c n,
  swa_two_requests = Ok ([1; 2; 3; 4; 5; 6; 7; 8], 6%nat, c)
  /\ sc_nodes c !! 5%nat = Some n /\ full_lock_ref n = 1 /\ sn_parent n = Some (root_node c)
  /\ free_pages (full_attn_allocator (token_to_kv_pool_allocator c)) = [14; 15; 16; 17; 18; 19; 20; 1; 2; 3; 4].
Proof.
  set (view_of := fun '((held, x, c) : list Z * nat * SWARadixCache) => (held, x, (fun n => (full_lock_ref n, sn_parent n)) <$> sc_nodes c !! 5%nat, root_node c,
    free_pages (full_attn_allocator (token_to_kv_pool_allocator c)))).
  assert ((let* r := swa_two_requests in Ok (view_of r)) = Ok ([1; 2; 3; 4; 5; 6; 7; 8], 6%nat, Some (1, Some 0%nat), 0%nat,
    [14; 15; 16; 17; 18; 19; 20; 1; 2; 3; 4])) as H by (vm_compute; reflexivity).
  destruct swa_two_requests as [[[held x] c]|e]; [|done]. simpl in H. destruct (sc_nodes c !! 5%nat) as [n|] eqn:En; [|done].
  injection H as -> -> E1 E2 E3 E4. exists c, n. split_and!; congruence.
Qed.

(** ** What [evict] reports

    A node of four tokens lost its sliding-window slots; its child, a leaf of four, is evicted for
    the sliding window, and the node goes with it. *)

Definition swa_evict_twice : res (Z * Z * Z) :=
  let c := sc_init (swa_init false 20 20 1 false false) 1 2 false false in
  let* (v, c) := take_slots 8 c in
  let* (_, c) := swa_insert false (token_key [10; 11; 12; 13]) (Some (py_upto v 4)) 0 0 c in
  let* (_, c) := swa_insert false (token_key [10; 11; 12; 13; 14; 15; 16; 17]) (Some v) 4 0 c in
  let* (_, _, c1) := swa_evict 0 4 c in
  let* (full, swa, c2) := swa_evict 0 4 c1 in
  Ok (full, swa, full_available_size (token_to_kv_pool_allocator c2) - full_available_size (token_to_kv_pool_allocator c1)).

(** Eight full-layer slots were freed, four are reported. *)
Lemma evict_reports_fewer_tokens : swa_evict_twice = Ok (4, 4, 8).
Proof. vm_compute. reflexivity. Qed.

(** ** Witnesses *)

(** A cache with one node of three tokens and a child of two. *)
Definition empty_sample : SWARadixCache := sc_init (swa_init false 20 20 1 false false) 1 2 false false.

Lemma swa_sample_cache : exists c, swa_cache_ok c [6; 5]%nat [6; 5]%nat /\ root_node c = 0%nat /\ sliding_window_size c = 2 /\ sc_disable c = false
  /\ (forall i n, i ∈ [6; 5]%nat -> sc_nodes c !! i = Some n -> full_lock_ref n = 0 /\ swa_lock_ref n = 0)
  /\ path_to (bares c) 0 (Some 6%nat) [6; 5]%nat /\ (forall i n, i ∈ [6; 5]%nat -> sc_nodes c !! i = Some n -> swa_tombstone n = false)
  /\ owned_slots (bares c) [6; 5]%nat = [4; 5; 1; 2; 3] /\ sc_page_size c = 1 /\ sc_is_eagle c = false.
Proof.
  pose proof (sc_init_ok (swa_init false 20 20 1 false false) 1 2 false false ltac:(lia) ltac:(lia)) as H0. fold empty_sample in H0.
  assert (exists pn, bares empty_sample !! 0%nat = Some pn /\ sn_children pn = ∅) as (pn & Hpn & Epn) by (eexists; split; [vm_compute; reflexivity|done]).
  destruct (add_new_node_ok empty_sample [] [] 0 pn (token_key [10; 11; 12]) [1; 2; 3] false (VInt 10) H0) as (c1 & _ & H1 & B1 & R1 & P1 & W1 & D1 & _ & G1 & N1);
    [left|done|done|by rewrite Epn|by exists 3|done|done|].
  change (node_counter empty_sample) with 5%nat in *. change (root_node empty_sample) with 0%nat in *. change (sc_page_size empty_sample) with 1 in *.
  assert (bares c1 !! 5%nat = Some (fresh_node 0 (token_key [10; 11; 12]) [1; 2; 3] false)) as H5 by (rewrite B1; done).
  destruct (add_new_node_ok c1 [5]%nat [5]%nat 5 (fresh_node 0 (token_key [10; 11; 12]) [1; 2; 3] false) (token_key [13; 14]) [4; 5] false (VInt 13) H1) as (c2 & _ & H2 & B2 & R2 & P2 & W2 & D2 & _ & G2 & N2);
    [right; left|exact H5|by rewrite P1|done|rewrite P1; by exists 2|done|done|]. rewrite N1 in *.
  exists c2. split; [done|]. rewrite R2, W2, D2, R1, W1, D1. split; [done|]. split; [done|]. split; [done|].
  assert (bares c2 !! 6%nat = Some (fresh_node 5 (token_key [13; 14]) [4; 5] false)) as L6 by (rewrite B2; unfold add_bares; by rewrite lookup_insert_ne, lookup_insert_eq).
  assert (exists n, bares c2 !! 5%nat = Some n /\ set_sn_children ∅ n = fresh_node 0 (token_key [10; 11; 12]) [1; 2; 3] false) as (n5 & L5 & E5).
  { rewrite B2. eexists. split; [apply lookup_insert_eq|]. done. }
  assert (forall i n, i ∈ [6; 5]%nat -> sc_nodes c2 !! i = Some n -> full_lock_ref n = 0 /\ swa_lock_ref n = 0 /\ swa_tombstone n = false) as Hall.
  { intros i n Hi Hn. apply bares_lookup in Hn. rewrite !elem_of_cons in Hi. destruct Hi as [->|[->|?%not_elem_of_nil]]; [| |done].
    - rewrite L6 in Hn. apply (inj Some) in Hn as E. pose proof (f_equal full_lock_ref E). pose proof (f_equal swa_lock_ref E). pose proof (f_equal swa_tombstone E). done.
    - rewrite L5 in Hn. apply (inj Some) in Hn. rewrite Hn in E5. pose proof (f_equal full_lock_ref E5). pose proof (f_equal swa_lock_ref E5). pose proof (f_equal swa_tombstone E5). done. }
  split; [intros i n Hi Hn; destruct (Hall i n Hi Hn) as (? & ? & _); done|]. split; [|split; [intros i n Hi Hn; by destruct (Hall i n Hi Hn) as (_ & _ & ?)|]].
  2:{ split; [|by rewrite P2, P1, G2, G1]. unfold owned_slots, val_of. cbn [map]. rewrite L6, L5. apply (f_equal sn_value) in E5. simpl in E5. rewrite E5. done. }
  econstructor; [done|exact L6|]. simpl. econstructor; [done|exact L5|]. apply (f_equal sn_parent) in E5. simpl in E5. rewrite E5. constructor.
Qed.

Lemma swa_sample_tree : exists c, swa_tree_ok (sc_nodes c) (root_node c) (sliding_window_size c) [6; 5]%nat c
  /\ may_lock (sc_nodes c) (root_node c) (sliding_window_size c) [6; 5]%nat 6.
Proof.
  destruct swa_sample_cache as (c & Hc & Er & EW & Ed & Hlk & Hp & Htomb & _). exists c. pose proof (ck_wf _ _ _ Hc) as Hw. split.
  - split; [by eapply lists_nodup, cw_lists|by rewrite EW| |done|done|exact (uuids_view _ _ (ck_uuids _ _ _ Hc))|apply Hc].
    intros i Hi. destruct (tw_node _ _ _ _ (cw_tree _ _ _ Hw) i Hi) as (n & v & Hn & Hv & _). apply bares_inv in Hn as (m & Hm & <-). exists m, v. done.
  - apply (proj1 (path_view _ _ _ _)) in Hp. pose proof (path_to_length _ _ _ _ Hp) as Hlen. 
    assert (path_of (sc_nodes c) (root_node c) 6 = [6; 5]%nat) as Ep by (rewrite Er; unfold path_of; apply ancestors_path; [exact Hp|exact Hlen]).
    unfold may_lock. rewrite Ep. split; [by rewrite Er|]. split; [done|]. intros i Hi%window_sub.
    destruct (tw_node _ _ _ _ (cw_tree _ _ _ Hw) i Hi) as (n & v & Hn & _). apply bares_inv in Hn as (m & Hm & <-). exists m. split; [done|by apply (Htomb i)].
Qed.

Lemma sample_locked : exists c0 c H, swa_tree_ok (sc_nodes c0) (root_node c0) (sliding_window_size c0) [6; 5]%nat c0
  /\ rtc (swa_lock_step (sc_nodes c0) (root_node c0) (sliding_window_size c0) [6; 5]%nat) (c0, []) (c, H) /\ length H = 1%nat.
Proof.
  destruct swa_sample_tree as (c & Ht & Hm). destruct (inc_holds _ _ _ _ c Ht c [] 6 (locks_init _ _ _ _ c Ht) Hm) as (u & c' & E & _).
  exists c, c', [(6%nat, u)]. split; [done|]. split; [|done]. apply rtc_once. by apply ls_inc.
Qed.

Lemma sample_lists : exists c, (forall i n, i ∈ [6; 5]%nat -> sc_nodes c !! i = Some n -> swa_tombstone n = false) /\ lists_ok (MkLruPair (full_lru_list c) (swa_lru_list c) (sc_nodes c)) ([6; 5], [6; 5])%nat
  /\ Forall (has_value (sc_nodes c)) [6; 5]%nat
  /\ ops_ok (MkLruPair (full_lru_list c) (swa_lru_list c) (sc_nodes c)) [(false, OpReset 5); (true, OpRemove 6)]%nat.
Proof.
  destruct swa_sample_cache as (c & Hc & Er & _ & _ & _ & _ & Htb & _). exists c. pose proof (ck_wf _ _ _ Hc) as Hw. pose proof (cw_lists _ _ _ Hw) as [Hf Hs Hk].
  assert (forall i, i ∈ [6; 5]%nat -> exists n v, sc_nodes c !! i = Some n /\ sn_value n = Some v) as Hn.
  { intros i Hi. destruct (tw_node _ _ _ _ (cw_tree _ _ _ Hw) i Hi) as (n & v & Hn & Hv & _). apply bares_inv in Hn as (m & Hm & <-). exists m, v. done. }
  assert (forall i, i ∈ [6; 5]%nat -> i ∈ dom (sc_nodes c) /\ i <> lru_head (full_lru_list c) /\ i <> lru_tail (full_lru_list c)
    /\ i <> lru_head (swa_lru_list c) /\ i <> lru_tail (swa_lru_list c)) as Hd.
  { intros i Hi. destruct (Hn i Hi) as (n & _ & E & _). split; [by eapply elem_of_dom_2|].
    pose proof (cw_dummies _ _ _ Hw i ltac:(by right)) as Hx. unfold dummies in Hx. rewrite !not_elem_of_cons in Hx. tauto. }
  split; [exact Htb|]. split; [done|]. split; [apply Forall_forall; intros i Hi; exact (Hn i Hi)|].
  repeat constructor; simpl; (apply Hd; set_solver).
Qed.

Lemma sample_seq_ops c : lists_ok (MkLruPair (full_lru_list c) (swa_lru_list c) (sc_nodes c)) ([6; 5], [6; 5])%nat ->
  (forall i n, i ∈ [6; 5]%nat -> sc_nodes c !! i = Some n -> swa_tombstone n = false) ->
  seq_ops (sc_nodes c) [(false, OpReset 5); (true, OpRemove 6)]%nat ([6; 5], [6; 5])%nat = Some ([5; 6], [5])%nat.
Proof.
  intros Hl Ht. assert (forall swa i, i ∈ [6; 5]%nat -> node_listable swa (sc_nodes c) i) as Hn.
  { intros swa i Hi. pose proof (lru_ok_dom _ _ _ _ (lo_full _ _ Hl) Hi) as [n Hn]%elem_of_dom. exists n. split; [done|].
    rewrite (Ht i n Hi Hn). by destruct swa. }
  simpl. rewrite decide_True by (split; [apply Hn|]; set_solver). simpl. rewrite decide_True by (split; [apply Hn|]; set_solver). done.
Qed.

Lemma lru_lists_refine_sequences_witness : exists st st', run_ops [(false, OpReset 5); (true, OpRemove 6)]%nat st = Ok st'
  /\ lists_ok st' ([5; 6], [5])%nat.
Proof.
  destruct sample_lists as (c & Htb & Hl & Hv & Hops).
  pose proof (lru_lists_refine_sequences (MkLruPair (full_lru_list c) (swa_lru_list c) (sc_nodes c)) ([6; 5], [6; 5])%nat _ Hl Hops) as H.
  pose proof (sample_seq_ops c Hl Htb) as E. cbn [lp_store] in H. rewrite E in H. destruct H as (st' & H1 & H2 & _). eexists _, st'. split; [exact H1|exact H2].
Defined.

Lemma swa_locks_balance_witness : exists c, swa_sizes_ok c [6; 5]%nat.
Proof.
  destruct sample_locked as (c0 & c & H & Ht & Hr & _). exists c. exact (proj1 (swa_locks_balance c0 [6; 5]%nat c H Ht Hr)).
Defined.

Lemma swa_match_then_lock_witness : exists c out x c', swa_match_prefix (token_key [10; 11; 12; 13]) c = Ok (out, x, c').
Proof.
  destruct swa_sample_cache as (c & Hc & _ & _ & Hd & _). exists c.
  destruct (swa_match_then_lock (token_key [10; 11; 12; 13]) c [6; 5]%nat [6; 5]%nat Hc Hd) as (out & x & c' & _ & _ & _ & _ & _ & E & _).
  exists out, x, c'. exact E.
Defined.

(** The same cache with the slots of its nodes taken from the pool, and [held] besides. *)
Lemma swa_sample_owned held n : (let* r := swa_alloc (swa_init false 20 20 1 false false) n in Ok (r.1, sa_not_in_free_group r.2)) = Ok (Some ([1; 2; 3; 4; 5] ++ held), true) ->
  0 < n <= 20 -> exists c, ev_ok held c [6; 5]%nat [6; 5]%nat /\ sc_disable c = false /\ sa_not_in_free_group (token_to_kv_pool_allocator c) = true
  /\ root_node c = 0%nat /\ sc_page_size c = 1 /\ sc_is_eagle c = false /\ tombs_free (bares c) [6; 5]%nat.
Proof.
  intros E' Hn. destruct swa_sample_cache as (c & Hc & Er & _ & Hd & _ & _ & Htb & Hs & Hps & Heg).
  pose proof (swa_alloc_ok (swa_init false 20 20 1 false false) [] n (swa_init_inv false 20 20 false false ltac:(lia) ltac:(lia)) ltac:(lia)) as H.
  rewrite decide_True in H by (change (n <= 20); lia). destruct H as (out & a & E & _ & Ha & _).
  rewrite E in E'. simpl in E'. injection E' as -> Hg. exists (with_allocator a c). split_and!; try done.
  - split; [by apply with_allocator_ok|]. simpl. rewrite Hs. eapply swa_inv_perm; [|exact Ha]. rewrite !app_nil_r.
    change ([1; 2; 3] ++ [4; 5] ++ held ≡ₚ [4; 5] ++ [1; 2; 3] ++ held). clear. perm_solver.
  - intros i m Hi Hm. apply bares_inv in Hm as (m' & Hm & <-). simpl in Hm. pose proof (Htb i m' Hi Hm) as X. simpl. congruence.
Qed.


